(* ===== verification/_CoqProject ===== *)
-Q . S2P
Prelude.v
NvramIo.v
NvramCodec.v
NvramMessages.v
NvramStorage.v
NvramPersistence.v
NvramManager.v
NvramLogic.v
NvramSystem.v
NvramService.v
NvramSpec.v
Bytes.v
GatekeeperMessages.v
Gatekeeper.v
SoftGatekeeper.v
AuthorizationSet.v
AuthTokens.v
Fmq.v
FmqConcurrent.v
UpdateExtents.v
UpdateGraph.v
UpdateTarjan.v
UpdateCycles.v
UpdateInplace.v
UpdateViews.v
UpdateBuild.v
UpdateCuts.v
UpdateOrder.v
UpdateScratch.v
UpdatePlan.v
UpdateAssign.v
UpdateRun.v
UpdateFile.v
UpdateBlocks.v
UpdateDelta.v
UpdateFilesystem.v
UpdateConfig.v
UpdateApply.v
UpdateChunks.v
UpdatePool.v
UpdateMoved.v
UpdatePartition.v
UpdateGenerate.v
UpdateFull.v
UpdateAB.v
UpdateWriter.v
UpdateManifest.v
UpdatePerform.v
UpdateConsume.v
UpdateInstall.v
UpdateSession.v
UpdateVerify.v
UpdatePayload.v
UpdateDeliver.v
