(* ===== verification/Prelude.v ===== *)
(** * Verification of parts of the Android system tree

    The tree under src/ holds the system daemons and libraries of an Android
    8 device.  This library models several of its components that keep
    security or data integrity promises, and proves those promises.  Every
    definition is a translation of C++ code; every theorem is about these
    definitions.

    ** The components

    - NVRAM service (src/nvram): access-controlled non-volatile spaces.
      Requests arrive as protobuf messages, are decoded, dispatched by
      [NvramManager] and made durable by the persistence layer on a storage
      device.
      [NvramIo] (messages/io.cpp: streams, varints, wire tags),
      [NvramCodec] (message_codec.cpp, proto.hpp: table-driven codecs),
      [NvramMessages] (nvram_messages.cpp: the messages and their tables),
      [NvramStorage] (storage.h as a type class with laws, memory_storage.cpp
      as an instance), [NvramPersistence] (persistence.cpp),
      [NvramManager] (nvram_manager.cpp: all command handlers),
      [NvramLogic] (program logic for the handlers), [NvramSystem] (the
      transition system the manager implements), [NvramService] (guarantees
      over sessions with faults, power losses and reboots), [NvramSpec] (the
      abstract service and the refinement).
    - Gatekeeper (src/gatekeeper, src/core/gatekeeperd): password enrollment
      and verification with throttling.  [Bytes] (little-endian layout),
      [GatekeeperMessages] (gatekeeper_messages.cpp), [Gatekeeper]
      (gatekeeper.cpp over the class [Platform] of its pure virtual
      functions), [SoftGatekeeper] (SoftGateKeeper.h, SoftGateKeeperDevice.cpp:
      an instance of [Platform]).
    - Keystore (src/security/keystore): [AuthorizationSet]
      (authorization_set.cpp) and [AuthTokens] (auth_token_table.cpp).
    - Fast message queue (src/libfmq): [Fmq] (MessageQueue.h, sequential) and
      [FmqConcurrent] (one writer and one reader interleaved, byte by byte).
    - Update engine, generating payloads (src/update_engine/payload_generator).
      Extents and graphs: [UpdateExtents] (extent_ranges.cc, extent_utils.cc),
      [UpdateGraph] (graph_types.h, graph_utils.cc, topological_sort.cc),
      [UpdateTarjan] (tarjan.cc), [UpdateCycles] (cycle_breaker.cc).
      Operations that may overwrite their own source: [UpdateInplace]
      (inplace_generator.cc); the proof that they can be run in place is split
      by stage: [UpdateViews] (graphs as sets of blocks), [UpdateBuild] (the
      dependency graph), [UpdateCuts] (cutting edges), [UpdateOrder]
      (topological order), [UpdateScratch] (scratch space), [UpdatePlan] (the
      invariant), [UpdateAssign] (temporary blocks), [UpdateRun] (running the
      operations on a device).
      From images to operations: [UpdateFile] (reading and writing files of
      common/utils.cc, the file of blobs), [UpdateBlocks] (block_mapping.cc),
      [UpdateDelta] (delta_diff_utils.cc), [UpdateFilesystem] (raw, map file
      and ext images), [UpdateConfig] (payload_generation_config.cc); the
      proofs are in [UpdateApply] (what an operation produces),
      [UpdateChunks] (the operations of a chunk), [UpdatePool] (the thread
      pool), [UpdateMoved] (moved and zero blocks) and [UpdatePartition] (a
      whole partition).  The three generators: [UpdateGenerate] (in-place),
      [UpdateFull] (full_update_generator.cc), [UpdateAB] (ab_generator.cc).
      [UpdatePayload] (payload_file.cc, delta_diff_generator.cc: the order of
      the data and the file that is written).
    - Update engine, installing payloads (src/update_engine/payload_consumer).
      [UpdateWriter] (file descriptors and the extent writers, the program
      logic [returns]), [UpdateManifest] (update_metadata.proto,
      install_plan.h, hash_calculator.cc and the interfaces around the
      payload), [UpdatePerform] (the operations of delta_performer.cc),
      [UpdateConsume] (the rest of delta_performer.cc: header, manifest,
      partitions, checkpoints, [Write], [Close], [VerifyPayload]),
      [UpdateInstall] (writing a payload installs it), [UpdateSession]
      (download_action.cc and ApplyPayload: attempts that break off and are
      resumed), [UpdateVerify] (filesystem_verifier_action.cc: the hashes of
      the written partitions, read asynchronously), [UpdateDeliver] (from the
      images on the build host to the verified partitions of the device).

    ** How code is modelled

    A C++ function that returns [bool] and fills out-parameters is a function
    into [outcome] (below): [Ret] with the out-parameters, [Fail] for [false],
    [Abort] for a failed [CHECK], an access outside a buffer or vector,
    undefined behaviour, or exhausted fuel.  Objects are records and their
    methods functions on them; the NVRAM manager and the gatekeeper are
    written in state monads of their own, in which storage faults and power
    losses occur at every storage call.  Pure virtual functions and code
    outside src/ (storage medium, boringssl, scrypt, randomness, the HAL
    headers) are type classes; a second class ([StorageOk], [PersistenceOk],
    [PlatformOk], [NvramDefsOk], ...) states what their documentation
    promises, and client theorems are proved against it.  Integers are [Z]
    with [u8], [u32] and [u64] written where the code's arithmetic wraps.

    In the update engine the classes are [Kernel] (pread and pwrite, which may
    be short; [KernelOk] does not fail, [KernelSafe] may, [WholeReads] is a
    regular file), [Tools] and [Decoders] (bzip2, xz, bsdiff and imgdiff, with
    [ToolsOk] relating the two sides), [StreamDecoder], [Streams] and
    [StreamOk] (the decoders in the extent writers), [Bspatch], [BlockDevice]
    (ioctls), [Files], [BlockHash], [Hash], [Ext2], [Chrome] and
    [KeyValueStore] (the images and the libraries around them), [Protobuf],
    [Sha256], [Prefs], [BootControl], [Platform] and [FileStream].  [DeltaPerformer] is
    written in the state monad [io], whose calls return an optional value and
    the state they leave, also when they fail; [returns] is its program
    logic.  Threads of the pool are interleaved by an explicit schedule, and
    the order of operations that std::sort may leave open is a parameter.

    ** What the theorems show

    - NVRAM: messages survive encoding and decoding, and decoding arbitrary
      bytes never aborts; storage records survive the medium; on every device
      and schedule of faults each command is a sequence of steps of the
      transition system ([Dispatch_refines_mstep]), from which crash
      consistency, durable and per-boot locks and disabled creation follow
      for whole sessions; without faults the service answers exactly as the
      abstract one ([Dispatch_implements_serve]).
    - Gatekeeper: if the failure records survive reboots, the passwords that
      [DoVerify] is asked about without success are paid for with time, over
      any number of reboots ([logged] records these calls); an enrolled
      password verifies and others count as failures; changing a password
      needs the old one; messages are read back as written.
    - Keystore: comparison is a strict order, the set operations are those of
      sets; which token authorizes an operation, and the table's invariants.
    - Message queue: the synchronized queue is a bounded FIFO queue, also
      under interleaving; the unsynchronized one loses data but never returns
      wrong data.  Both hold until 2^64 bytes have been put.
    - Generating updates: extent ranges are sets of blocks; Tarjan's algorithm,
      the topological sort and the cycle breaker are correct; blocks get equal
      numbers exactly if they have equal contents; whatever the images and the
      schedule of the threads, for chunks of at least a block, file systems
      whose files are in range and diff programs that do not fail, the
      operations of the
      in-place generator turn the old image into the new one when run one
      after the other on the same device
      ([InplaceGenerateOperations_updates]), and those of the other two write
      the new image next to the old one ([ABGenerateOperations_installs],
      [FullGenerateOperations_installs]).
    - Installing updates: for unsigned payloads of major version 2 that fit the
      device, however earlier attempts have ended, an attempt that gets its
      bytes and meets no error leaves the new images on the targets, and
      [VerifyPayload] accepts size and hash ([update_completes]); it reports
      success if there is no public key file, since with one a signature is
      required.  No attempt aborts or touches other files
      ([session_keeps_files]).  With mandatory checks, of any payload at all,
      nothing is opened or written unless the bytes received start with
      metadata that the key has signed ([unsigned_metadata_writes_nothing]).
      The verifier of the partitions reports success only if all hashes are
      right, and always decides ([verification_sound],
      [verification_decides]).  The two sides together: what
      [GenerateUpdatePayloadFile] writes for two-slot devices is installed by
      every device that accepts it, and passes the verification
      ([generated_update_completes]).
    - Theorems about flaws show concrete runs in which the code does not do
      what its comments say (truncated nested messages, a failed deletion
      that loses a lock, counters that wrap, holes in extents, ...).

    ** Fuel

    Loops that are not structural carry fuel: the decoding loops take the
    number of input bytes, Tarjan, the topological sort and the cycle breaker
    take a measure of the graph, loops over a file or a buffer the number of
    its bytes, since every call transfers at least one, and loops over blocks
    or operations their number.  The theorems show that the fuel given by the
    calling definition is enough: they state that a result is returned.

    ** Bounds

    Block numbers and byte positions stay below 2^63, as off_t requires; the
    theorems about generators ask that the data of the operations fit in the
    32-bit offsets of the manifest, and for A/B updates that the new partition
    is smaller than 4 GiB, because fragments of operations have 32-bit sizes.
    [generated_update_completes] covers major version 2, full payloads and
    deltas of minor version 2 and 3; minor version 4 would add ZERO, DISCARD
    and IMGDIFF operations.

    ** Not modelled

    Log output, allocation except where the code handles its failure, thread
    creation, binder and D-Bus glue, the mapping of shared memory, the blocking
    calls of the message queue; of the update engine the signing of payloads,
    the signature at the end of a payload in the theorems about sessions, the
    HTTP fetcher, updates of several payloads, progress reports, postinstall,
    UBI volumes and failures of close; reading ext images
    goes through libext2fs; and the other components of the tree (the
    Bluetooth and NFC stacks, netd, vold, init, the context hub runtime,
    media and tools), which are mostly interfaces to the kernel or to hardware. *)
From Stdlib Require Export ZArith Lia.
From stdpp Require Export base numbers option gmap list list_basics list_relations.

(** * Prelude: machine integers, outcomes, automation *)

Declare Scope machine_scope.
Delimit Scope machine_scope with machine.

(** ** Outcomes of C++ functions

    [Ret a]: the function returned (with [true], where it returns a [bool]);
    [Fail]: it returned [false];
    [Abort]: it did not return normally, because a [NVRAM_CHECK] called
    [abort()], because memory outside a buffer was accessed, or because the
    fuel of the model was too small.  Theorems of the form "never [Abort]"
    therefore cover all three. *)
Inductive outcome (A : Type) : Type :=
| Ret (a : A)
| Fail
| Abort.
Arguments Ret {A} a.
Arguments Fail {A}.
Arguments Abort {A}.

#[export] Instance outcome_ret : MRet outcome := fun A a => Ret a.

#[export] Instance outcome_bind : MBind outcome := fun A B f m =>
  match m with
  | Ret a => f a
  | Fail => Fail
  | Abort => Abort
  end.

(** [NVRAM_CHECK(cond)]: abort unless the condition holds. *)
Definition check_that (b : bool) : outcome () := if b then Ret () else Abort.

(** A [bool] result used as a guard: [if (!b) return false]. *)
Definition guard_that (b : bool) : outcome () := if b then Ret () else Fail.

Definition of_option {A} (o : option A) : outcome A :=
  match o with Some a => Ret a | None => Abort end.

(** [safe m P]: the call returns, and on success its result satisfies [P]. *)
Definition safe {A} (m : outcome A) (P : A -> Prop) : Prop :=
  match m with Ret a => P a | Fail => True | Abort => False end.

Section Outcome.
Context {A B C : Type}.
Implicit Types (m : outcome A).

Lemma outcome_bind_ret (a : A) (f : A -> outcome B) : (Ret a ≫= f) = f a.
Proof. reflexivity. Qed.

Lemma outcome_bind_assoc m (f : A -> outcome B) (g : B -> outcome C) :
    ((m ≫= f) ≫= g) = (m ≫= fun a => f a ≫= g).
Proof. by destruct m. Qed.

Lemma outcome_bind_Ret_inv m (f : A -> outcome B) b :
    (m ≫= f) = Ret b -> exists a, m = Ret a /\ f a = Ret b.
Proof. destruct m; simpl; intros; try discriminate; eauto. Qed.

Lemma outcome_bind_ext m (f g : A -> outcome B) :
    (forall a, m = Ret a -> f a = g a) -> (m ≫= f) = (m ≫= g).
Proof. destruct m; simpl; auto. Qed.

Lemma safe_bind m (f : A -> outcome B) (Q : B -> Prop) :
    safe m (fun a => safe (f a) Q) -> safe (m ≫= f) Q.
Proof. by destruct m. Qed.

Lemma safe_mono m (P Q : A -> Prop) :
    safe m P -> (forall a, P a -> Q a) -> safe m Q.
Proof. destruct m; simpl; auto. Qed.

Lemma safe_Ret m (P : A -> Prop) a : safe m P -> m = Ret a -> P a.
Proof. by intros H ->. Qed.

Lemma safe_returns m (P : A -> Prop) : safe m P -> m <> Abort.
Proof. by destruct m. Qed.
End Outcome.

Lemma safe_guard b (P : () -> Prop) : (b = true -> P ()) -> safe (guard_that b) P.
Proof. destruct b; simpl; auto. Qed.

Lemma safe_check b (P : () -> Prop) : b = true -> P () -> safe (check_that b) P.
Proof. by intros ->. Qed.

(** Bind steps of a [safe] goal. *)
Ltac safe_step :=
  match goal with
  | |- safe (_ ≫= _) _ => apply safe_bind
  | |- safe (guard_that _) _ => apply safe_guard; intros
  | |- safe (check_that _) _ => apply safe_check
  | |- safe (Ret _) _ => simpl
  | |- safe Fail _ => exact I
  | |- safe (let '(_, _) := ?p in _) _ => destruct p
  | |- safe (if ?b then _ else _) _ => let E := fresh "E" in destruct b eqn:E
  end.

(** ** Machine integers

    A w-bit unsigned integer is a [Z] in [0, 2^w); [uint w] is the wrap-around
    that C++ applies when a value is stored in such a type. *)
Open Scope Z_scope.

Definition uint (w z : Z) : Z := z mod 2 ^ w.
Abbreviation u8 := (uint 8).
Abbreviation u32 := (uint 32).
Abbreviation u64 := (uint 64).

Definition is_uint (w z : Z) : Prop := 0 <= z < 2 ^ w.
Definition is_uintb (w z : Z) : bool := (0 <=? z) && (z <? 2 ^ w).

(** The value of a w-bit signed integer. *)
Definition sint (w z : Z) : Z := (z + 2 ^ (w - 1)) mod 2 ^ w - 2 ^ (w - 1).

#[export] Instance is_uint_dec w z : Decision (is_uint w z).
Proof. unfold is_uint. apply _. Defined.

Lemma is_uintb_spec w z : is_uintb w z = true <-> is_uint w z.
Proof. unfold is_uintb, is_uint. lia. Qed.

Lemma uint_range w z : 0 <= w -> is_uint w (uint w z).
Proof. intros. apply Z.mod_pos_bound. lia. Qed.

Lemma uint_small w z : is_uint w z -> uint w z = z.
Proof. apply Z.mod_small. Qed.

Lemma uint_id w z : 0 <= w -> uint w (uint w z) = uint w z.
Proof. intros. apply uint_small, uint_range; done. Qed.

Lemma sint_small w z : 1 <= w -> - 2 ^ (w - 1) <= z < 2 ^ (w - 1) -> sint w z = z.
Proof.
  intros Hw Hz. unfold sint. assert (Hp : 2 ^ w = 2 ^ (w - 1) + 2 ^ (w - 1)).
  { replace w with (Z.succ (w - 1)) at 1 by lia. rewrite Z.pow_succ_r by lia. lia. }
  rewrite Z.mod_small by lia. lia.
Qed.

Lemma is_uint_weaken w w' z : 0 <= w <= w' -> is_uint w z -> is_uint w' z.
Proof.
  unfold is_uint. intros Hw Hz.
  pose proof (Z.pow_le_mono_r 2 w w'). lia.
Qed.

Create HintDb uint discriminated.
#[export] Hint Resolve uint_range uint_small : uint.
#[export] Hint Extern 1 (0 <= _) => lia : uint.
#[export] Hint Extern 1 (is_uint _ _) => (unfold is_uint; lia) : uint.

(** ** Bits *)

(** A value below [2^k] and a value shifted left by [k] share no bit. *)
Lemma Z_lor_shiftl_add a b k :
  0 <= k -> 0 <= a < 2 ^ k -> Z.lor a (Z.shiftl b k) = a + b * 2 ^ k.
Proof.
  intros Hk Ha. rewrite Z.shiftl_mul_pow2 by lia.
  rewrite Z.add_nocarry_lxor, Z.lxor_lor; try done.
  all: apply Z.bits_inj'; intros n Hn; rewrite Z.bits_0, Z.land_spec;
    destruct (Z.lt_ge_cases n k);
    [ rewrite Z.mul_pow2_bits_low by lia; apply andb_false_r
    | rewrite <- (Z.mod_small a (2 ^ k)) by lia;
      rewrite Z.mod_pow2_bits_high by lia; done ].
Qed.

(** ** Lists and slices *)

(** The [n] elements of [l] from index [i], as [memcpy] reads them. *)
Definition slice {A} (l : list A) (i n : Z) : list A :=
  take (Z.to_nat n) (drop (Z.to_nat i) l).

(** Length in [Z], the type of the model's sizes. *)
Definition zlen {A} (l : list A) : Z := Z.of_nat (length l).

Section Slices.
Context {A : Type}.
Implicit Types (l k : list A).

Lemma zlen_nonneg l : 0 <= zlen l.
Proof. unfold zlen. lia. Qed.

Lemma zlen_nil : zlen (@nil A) = 0.
Proof. done. Qed.

Lemma zlen_cons x l : zlen (x :: l) = 1 + zlen l.
Proof. unfold zlen. simpl. lia. Qed.

Lemma zlen_app l k : zlen (l ++ k) = zlen l + zlen k.
Proof. unfold zlen. rewrite length_app. lia. Qed.

Lemma zlen_0 l : zlen l = 0 -> l = [].
Proof. unfold zlen. destruct l; simpl; [done|lia]. Qed.

Lemma slice_all l : slice l 0 (zlen l) = l.
Proof. unfold slice, zlen. rewrite Nat2Z.id. simpl. apply firstn_all. Qed.

Lemma slice_app_l l k : slice (l ++ k) 0 (zlen l) = l.
Proof. unfold slice, zlen. rewrite Nat2Z.id. simpl. apply take_app_length. Qed.

Lemma zlen_slice l i n :
    0 <= i -> 0 <= n -> i + n <= zlen l -> zlen (slice l i n) = n.
Proof.
    unfold zlen, slice. intros. rewrite length_take, length_drop. lia.
Qed.

Lemma Forall_elem (P : A -> Prop) l : Forall P l <-> forall x, x ∈ l -> P x.
Proof. rewrite List.Forall_forall. by setoid_rewrite list_elem_of_In. Qed.

(** A window of [l] that starts with [a] splits there. *)
Lemma slice_split l i n a b :
    0 <= i -> 0 <= n -> i + n <= zlen l -> slice l i n = a ++ b ->
    slice l i (zlen a) = a /\ slice l (i + zlen a) (n - zlen a) = b
    /\ zlen a + zlen b = n.
Proof.
    intros Hi Hn Hl Hs.
    assert (Hlen : zlen a + zlen b = n).
    { rewrite <- zlen_app, <- Hs. apply zlen_slice; lia. }
    pose proof (zlen_nonneg a). pose proof (zlen_nonneg b).
    unfold slice in *. split; [|split]; try done.
    - replace (Z.to_nat (zlen a)) with (Z.to_nat (zlen a) `min` Z.to_nat n)%nat by lia.
      rewrite <- take_take, Hs. unfold zlen. rewrite Nat2Z.id.
      apply take_app_length.
    - rewrite Z2Nat.inj_add, <- drop_drop, Z2Nat.inj_sub by lia.
      rewrite take_drop_commute.
      replace (Z.to_nat (zlen a) + (Z.to_nat n - Z.to_nat (zlen a)))%nat
        with (Z.to_nat n) by lia.
      rewrite Hs. unfold zlen. rewrite Nat2Z.id. apply drop_app_length.
Qed.
End Slices.

Create Rewrite HintDb zlen.
#[export] Hint Rewrite @zlen_nil @zlen_cons @zlen_app : zlen.
Ltac zlen := autorewrite with zlen in *;
  repeat match goal with
         | H : context [zlen ?l] |- _ =>
             lazymatch goal with
             | _ : 0 <= zlen l |- _ => fail
             | _ => pose proof (zlen_nonneg l)
             end
         | |- context [zlen ?l] =>
             lazymatch goal with
             | _ : 0 <= zlen l |- _ => fail
             | _ => pose proof (zlen_nonneg l)
             end
         end; try lia.

Lemma filter_all {A} (P : A -> Prop) `{!forall x, Decision (P x)} (l : list A) :
  (forall x, x ∈ l -> P x) -> filter P l = l.
Proof.
  induction l as [|x l IH]; intros Hl; [done|].
  rewrite filter_cons_True by (apply Hl, list_elem_of_here). f_equal. apply IH.
  intros y Hy. apply Hl. by apply list_elem_of_further.
Qed.

(** ** Runs of integers *)

Lemma seqZ_split m n k :
  0 <= k <= n -> seqZ m n = seqZ m k ++ seqZ (m + k) (n - k).
Proof. intros. rewrite <- seqZ_app by lia. f_equal. lia. Qed.

Lemma take_seqZ m n k : 0 <= k <= n -> take (Z.to_nat k) (seqZ m n) = seqZ m k.
Proof.
  intros. rewrite (seqZ_split m n k), take_app_le by (rewrite ?length_seqZ; lia).
  apply take_ge. rewrite length_seqZ. lia.
Qed.

Lemma drop_seqZ m n k : 0 <= k <= n -> drop (Z.to_nat k) (seqZ m n) = seqZ (m + k) (n - k).
Proof.
  intros. rewrite (seqZ_split m n k) at 1 by lia. apply drop_app_length'. rewrite length_seqZ. lia.
Qed.

(** ** Loops *)

(** A loop over a vector whose body may fail. *)
Fixpoint foldM {S A} (f : S -> A -> outcome S) (l : list A) (s : S) : outcome S :=
  match l with
  | [] => Ret s
  | a :: l => s ← f s a; foldM f l s
  end.

(** Loop invariants: [I] holds of the elements processed so far. *)
Lemma foldM_inv {S A} (f : S -> A -> outcome S) (I : list A -> S -> Prop) l s :
  I [] s ->
  (forall done a todo s, l = done ++ a :: todo -> I done s ->
     exists s', f s a = Ret s' /\ I (done ++ [a]) s') ->
  exists s', foldM f l s = Ret s' /\ I l s'.
Proof.
  intros H0 Hstep.
  enough (forall todo done s, l = done ++ todo -> I done s ->
            exists s', foldM f todo s = Ret s' /\ I l s') as H by (by apply (H l [])).
  induction todo as [|a todo IH]; intros done s1 Hl Hs; simpl.
  { exists s1. rewrite app_nil_r in Hl. by subst. }
  destruct (Hstep done a todo s1 Hl Hs) as (s2 & -> & Hs2). simpl.
  apply (IH (done ++ [a])); [by rewrite <- app_assoc|done].
Qed.

(** What the body keeps whenever it returns. *)
Lemma foldM_keeps {S A} (f : S -> A -> outcome S) (I : S -> Prop) (P : A -> Prop) l s s' :
  (forall s a s', I s -> P a -> f s a = Ret s' -> I s') -> Forall P l -> I s -> foldM f l s = Ret s' -> I s'.
Proof.
  intros Hstep Hl. revert s. induction Hl as [|a l Ha _ IH]; intros s Hs; simpl; [by intros [= <-]|].
  destruct (f s a) as [s1| |] eqn:E; simpl; [|done..]. by apply IH, (Hstep s a).
Qed.

(** A loop whose body may [break]. *)
Fixpoint loopM {S A} (f : S -> A -> outcome (bool * S)) (l : list A) (s : S) : outcome S :=
  match l with
  | [] => Ret s
  | a :: l => r ← f s a; if (fst r : bool) then Ret (snd r) else loopM f l (snd r)
  end.

(** Loop invariants for them: [Post] also holds after a [break]. *)
Lemma loopM_inv {S A} (f : S -> A -> outcome (bool * S)) (I : list A -> S -> Prop) (Post : S -> Prop) l s :
  I [] s ->
  (forall done a todo s, l = done ++ a :: todo -> I done s ->
     exists b s', f s a = Ret (b, s') /\ if (b : bool) then Post s' else I (done ++ [a]) s') ->
  (forall s, I l s -> Post s) ->
  exists s', loopM f l s = Ret s' /\ Post s'.
Proof.
  intros H0 Hstep Hend.
  enough (forall todo done s, l = done ++ todo -> I done s ->
            exists s', loopM f todo s = Ret s' /\ Post s') as HI by (by apply (HI l [])).
  induction todo as [|a todo IH]; intros done s1 Hl Hs; simpl.
  { exists s1. rewrite app_nil_r in Hl. subst. auto. }
  destruct (Hstep done a todo s1 Hl Hs) as (b & s2 & -> & Hs2). rewrite outcome_bind_ret. simpl.
  destruct b; [eauto|]. apply (IH (done ++ [a])); [by rewrite <- app_assoc|done].
Qed.

Lemma removelast_snoc {A} (l : list A) x : removelast (l ++ [x]) = l.
Proof. rewrite removelast_app by done. simpl. by rewrite app_nil_r. Qed.
