(* ===== verification/NvramIo.v ===== *)
(** * NvramIo: byte streams and the protobuf wire format
      (src/nvram/messages/io.cpp, include/nvram/messages/io.h)

    [InputStreamBuffer] models the read windows ([pos_], [end_]) over one
    memory buffer, with [NestedInputStreamBuffer] stacked on a delegate;
    [OutputStreamBuffer] models the write windows of the array, counting and
    blob streams with their virtual [Advance].  [ProtoReader] and
    [ProtoWriter] are the wire-format layer on top.  The reference
    definitions [varint], [put] and [window] say what these layers mean; the
    lemmas of this file show that the code implements them. *)
From S2P Require Import Prelude.

(** A byte is a [Z] in [0, 256); a [Blob] is the list of its bytes. *)
Abbreviation byte := Z (only parsing).
Abbreviation blob := (list Z) (only parsing).

(** ** Memory allocation

    [malloc], [realloc] and [calloc] are libc's; the model takes their verdict
    on the sizes the code asks for as a parameter. *)
Class Allocator := {
  blob_alloc_ok : Z -> bool;     (* Blob::Assign, Blob::Resize to this size *)
  vector_alloc_ok : Z -> bool;   (* Vector::Resize to this many elements *)
}.

(** [Blob::Resize]: [realloc] to 0 bytes cannot fail for the code. *)
Definition Blob_Resize `{Allocator} (size : Z) : bool :=
  (size =? 0) || blob_alloc_ok size.

(** [Blob::Assign]: the copied contents. *)
Definition Blob_Assign `{Allocator} (data : blob) : outcome blob :=
  _ ← guard_that (blob_alloc_ok (zlen data));
  Ret data.

(** [Vector::Resize]: an empty vector needs no memory. *)
Definition Vector_Resize `{Allocator} (size : Z) : bool :=
  (size =? 0) || vector_alloc_ok size.

(** ** InputStreamBuffer *)
Module InputStreamBuffer.

(** A stream over the bytes [mem], or a nested stream over a delegate.
    [pos] and [end_] are indices into the underlying buffer. *)
Inductive t :=
| Base (mem : blob) (pos end_ : Z)
| Nested (delegate : t) (pos end_ remaining : Z).

Definition pos (s : t) : Z :=
  match s with Base _ p _ => p | Nested _ p _ _ => p end.

Definition end_ (s : t) : Z :=
  match s with Base _ _ e => e | Nested _ _ e _ => e end.

Fixpoint mem (s : t) : blob :=
  match s with Base m _ _ => m | Nested d _ _ _ => mem d end.

Definition set_pos (s : t) (p : Z) : t :=
  match s with
  | Base m _ e => Base m p e
  | Nested d _ e r => Nested d p e r
  end.

(** [InputStreamBuffer(const void* data, size_t size)]. *)
Definition make (data : blob) : t := Base data 0 (zlen data).

(** [NestedInputStreamBuffer::ClampEnd]. *)
Definition ClampEnd (delegate : t) (size : Z) : outcome Z :=
  _ ← check_that (pos delegate <=? end_ delegate);
  Ret (if size <? end_ delegate - pos delegate
       then pos delegate + size else end_ delegate).

(** [NestedInputStreamBuffer(delegate, size)]. *)
Definition make_nested (delegate : t) (size : Z) : outcome t :=
  e ← ClampEnd delegate size;
  _ ← check_that (pos delegate <=? e);
  Ret (Nested delegate (pos delegate) e size).

(** [InputStreamBuffer::Advance] and its override in
    [NestedInputStreamBuffer]. *)
Fixpoint Advance (s : t) : outcome (bool * t) :=
  match s with
  | Base _ _ _ => Ret (false, s)
  | Nested d p e r =>
      let r' := u64 (r - (e - pos d)) in
      if r' =? 0 then Ret (false, Nested (set_pos d e) p e r')
      else
        '(status, d') ← Advance d;
        e' ← ClampEnd d' r';
        Ret (status, Nested d' (pos d') e' r')
  end.

(** [InputStreamBuffer::Done]. *)
Definition Done (s : t) : outcome (bool * t) :=
  if end_ s <=? pos s then
    '(ok, s') ← Advance s;
    Ret (negb ok, s')
  else Ret (false, s).

(** [memcpy] of [n] bytes from [pos_]; reading outside the buffer aborts. *)
Definition fetch (s : t) (n : Z) : outcome blob :=
  _ ← check_that ((0 <=? pos s) && (0 <=? n) && (pos s + n <=? zlen (mem s)));
  Ret (slice (mem s) (pos s) n).

(** The loop of [InputStreamBuffer::Read]. *)
Fixpoint Read_loop (fuel : nat) (acc : blob) (s : t) (size : Z) : outcome (blob * t) :=
  match fuel with
  | O => Abort
  | S fuel =>
      let room := end_ s - pos s in
      if room <? size then
        chunk ← fetch s room;
        '(ok, s') ← Advance (set_pos s (end_ s));
        _ ← guard_that ok;
        _ ← check_that (pos s' <? end_ s');
        Read_loop fuel (acc ++ chunk) s' (size - room)
      else
        chunk ← fetch s size;
        Ret (acc ++ chunk, set_pos s (pos s + size))
  end.

(** [InputStreamBuffer::Read]: the bytes copied to [data], and the stream. *)
Definition Read (s : t) (size : Z) : outcome (blob * t) :=
  _ ← check_that (pos s <=? end_ s);
  Read_loop 2 [] s size.

(** [InputStreamBuffer::ReadByte]. *)
Definition ReadByte (s : t) : outcome (byte * t) :=
  s' ← (if end_ s <=? pos s then
          '(ok, s') ← Advance s;
          _ ← guard_that ok;
          _ ← check_that (pos s' <? end_ s');
          Ret s'
        else Ret s);
  b ← fetch s' 1;
  v ← of_option (head b);
  Ret (v, set_pos s' (pos s' + 1)).

(** The loop of [InputStreamBuffer::Skip]. *)
Fixpoint Skip_loop (fuel : nat) (s : t) (size : Z) : outcome t :=
  match fuel with
  | O => Abort
  | S fuel =>
      let room := end_ s - pos s in
      if room <? size then
        '(ok, s') ← Advance (set_pos s (end_ s));
        _ ← guard_that ok;
        _ ← check_that (pos s' <? end_ s');
        Skip_loop fuel s' (size - room)
      else Ret (set_pos s (pos s + size))
  end.

(** [InputStreamBuffer::Skip]. *)
Definition Skip (s : t) (size : Z) : outcome t :=
  _ ← check_that (pos s <=? end_ s);
  Skip_loop 2 s size.

End InputStreamBuffer.

(** ** OutputStreamBuffer *)
Module OutputStreamBuffer.

(** The subclass of a stream, with the data members it adds. *)
Inductive kind :=
| Array                          (* ArrayOutputStreamBuffer *)
| Counting (bytes_written : Z)   (* CountingOutputStreamBuffer *)
| BlobOut (size : Z).            (* BlobOutputStreamBuffer: blob_->size() *)

(** [written]: the bytes below [pos_] in the current window's memory;
    [room]: [end_ - pos_]. *)
Record t := mk { written : blob; room : Z; sub : kind }.

(** [ArrayOutputStreamBuffer(data, size)]. *)
Definition make_array (size : Z) : t := mk [] size Array.

Definition kScratchSpaceSize : Z := 256.

(** [CountingOutputStreamBuffer()]. *)
Definition make_counting : t := mk [] kScratchSpaceSize (Counting 0).

(** [BlobOutputStreamBuffer(blob)] on a blob of the given size. *)
Definition make_blob (size : Z) : t := mk [] size (BlobOut size).

(** [CountingOutputStreamBuffer::bytes_written] and
    [ArrayOutputStreamBuffer::bytes_written]. *)
Definition bytes_written (s : t) : Z :=
  match sub s with
  | Counting n => u64 (n + zlen (written s))
  | _ => zlen (written s)
  end.

Section WithAllocator.
Context `{Allocator}.

(** [Advance] of the base class and of each subclass. *)
Definition Advance (s : t) : option t :=
  match sub s with
  | Array => None
  | Counting n =>
      Some (mk [] kScratchSpaceSize (Counting (u64 (n + zlen (written s)))))
  | BlobOut size =>
      let size' := Z.max (u64 (size * 2)) 32 in
      if Blob_Resize size'
      then Some (mk (written s) (size' - zlen (written s)) (BlobOut size'))
      else None
  end.

Definition push (s : t) (bs : blob) : t :=
  mk (written s ++ bs) (room s - zlen bs) (sub s).

(** [OutputStreamBuffer::Done]. *)
Definition Done (s : t) : bool * t :=
  if room s <=? 0 then
    match Advance s with Some s' => (false, s') | None => (true, s) end
  else (false, s).

(** [OutputStreamBuffer::WriteByte]. *)
Definition WriteByte (s : t) (b : byte) : outcome t :=
  s' ← (if room s <=? 0 then
          match Advance s with
          | Some s' => _ ← check_that (0 <? room s'); Ret s'
          | None => Fail
          end
        else Ret s);
  Ret (push s' [b]).

(** The loop of [OutputStreamBuffer::Write]. *)
Fixpoint Write_loop (fuel : nat) (s : t) (data : blob) : outcome t :=
  match fuel with
  | O => Abort
  | S fuel =>
      if room s <? zlen data then
        match Advance (push s (take (Z.to_nat (room s)) data)) with
        | Some s' =>
            _ ← check_that (0 <? room s');
            Write_loop fuel s' (drop (Z.to_nat (room s)) data)
        | None => Fail
        end
      else Ret (push s data)
  end.

(** [OutputStreamBuffer::Write].  Every pass but the first copies at least
    one byte, so the fuel covers every loop. *)
Definition Write (s : t) (data : blob) : outcome t :=
  _ ← check_that (0 <=? room s);
  Write_loop (2 + length data) s data.

(** [BlobOutputStreamBuffer::Truncate]: the blob's contents. *)
Definition Truncate (s : t) : outcome blob :=
  _ ← guard_that (Blob_Resize (zlen (written s)));
  Ret (written s).

End WithAllocator.
End OutputStreamBuffer.

(** ** Varints *)
Module In := InputStreamBuffer.
Module Out := OutputStreamBuffer.

(** The byte [EncodeVarint] emits for the current value. *)
Definition varint_byte (value : Z) : byte :=
  Z.lor (Z.land value 127) (if Z.shiftr value 7 =? 0 then 0 else 128).

(** The do-while loop of [EncodeVarint]. *)
Fixpoint EncodeVarint_loop `{Allocator} (fuel : nat) (stream : Out.t) (value : Z)
    : outcome Out.t :=
  match fuel with
  | O => Abort
  | S fuel =>
      stream ← Out.WriteByte stream (varint_byte value);
      let value := Z.shiftr value 7 in
      if value =? 0 then Ret stream else EncodeVarint_loop fuel stream value
  end.

(** Maximum number of bytes of the varint of a [uint64_t]. *)
Definition kMaxVarintBytes : nat := 10.

Definition EncodeVarint `{Allocator} (stream : Out.t) (value : Z) : outcome Out.t :=
  EncodeVarint_loop kMaxVarintBytes stream value.

(** The for loop of [DecodeVarint], at iteration [i]. *)
Fixpoint DecodeVarint_loop (fuel : nat) (i : Z) (stream : In.t) (value : Z)
    : outcome (Z * In.t) :=
  match fuel with
  | O => Fail
  | S fuel =>
      '(byte, stream) ← In.ReadByte stream;
      let value := Z.lor value (u64 (Z.shiftl (Z.land byte 127) (i * 7))) in
      if Z.land byte 128 =? 0 then Ret (value, stream)
      else DecodeVarint_loop fuel (i + 1) stream value
  end.

Definition DecodeVarint (stream : In.t) : outcome (Z * In.t) :=
  DecodeVarint_loop kMaxVarintBytes 0 stream 0.

Arguments EncodeVarint : simpl never.
Arguments DecodeVarint : simpl never.
Arguments InputStreamBuffer.Read : simpl never.
Arguments InputStreamBuffer.ReadByte : simpl never.
Arguments InputStreamBuffer.Skip : simpl never.
Arguments InputStreamBuffer.fetch : simpl never.
Arguments OutputStreamBuffer.Write : simpl never.
Arguments OutputStreamBuffer.WriteByte : simpl never.

(** ** Wire types and ProtoReader *)
Module WireType.
Definition kVarint : Z := 0.
Definition kFixed64 : Z := 1.
Definition kLengthDelimited : Z := 2.
Definition kStartGroup : Z := 3.
Definition kEndGroup : Z := 4.
Definition kFixed32 : Z := 5.
End WireType.

Module ProtoReader.

Record t := mk {
  stream_buffer : In.t;
  wire_type : Z;
  field_number : Z;
  field_size : Z;
}.

Definition kInvalidWireType : Z := -1.

Definition make (s : In.t) : t := mk s kInvalidWireType 0 0.

Definition set_stream (r : t) (s : In.t) : t :=
  mk s (wire_type r) (field_number r) (field_size r).

(** [ProtoReader::Done]. *)
Definition Done (r : t) : outcome (bool * t) :=
  '(d, s) ← In.Done (stream_buffer r);
  Ret (d, set_stream r s).

(** [ProtoReader::ReadWireTag].  The [switch] has no case for the wire types
    6 and 7: the field size of the previous field stays. *)
Definition ReadWireTag (r : t) : outcome t :=
  '(wire_tag, s) ← DecodeVarint (stream_buffer r);
  let wt := Z.land wire_tag 7 in
  let fn := Z.shiftr wire_tag 3 in
  if wt =? WireType.kLengthDelimited then
    '(size, s) ← DecodeVarint s;
    Ret (mk s wt fn size)
  else if wt =? WireType.kFixed64 then Ret (mk s wt fn 8)
  else if wt =? WireType.kFixed32 then Ret (mk s wt fn 4)
  else if (wt =? WireType.kVarint) || (wt =? WireType.kStartGroup)
          || (wt =? WireType.kEndGroup) then Ret (mk s wt fn 0)
  else Ret (mk s wt fn (field_size r)).

(** [ProtoReader::ReadVarint]. *)
Definition ReadVarint (r : t) : outcome (Z * t) :=
  _ ← check_that (wire_type r =? WireType.kVarint);
  '(v, s) ← DecodeVarint (stream_buffer r);
  Ret (v, set_stream r s).

(** [ProtoReader::ReadLengthDelimited]. *)
Definition ReadLengthDelimited (r : t) (size : Z) : outcome (blob * t) :=
  _ ← check_that (wire_type r =? WireType.kLengthDelimited);
  '(bs, s) ← In.Read (stream_buffer r) size;
  Ret (bs, set_stream r s).

(** [ProtoReader::SkipField]. *)
Definition SkipField (r : t) : outcome t :=
  if wire_type r =? WireType.kVarint then
    '(_, s) ← DecodeVarint (stream_buffer r);
    Ret (set_stream r s)
  else if 0 <? field_size r then
    s ← In.Skip (stream_buffer r) (field_size r);
    Ret (set_stream r s)
  else Ret r.

End ProtoReader.

(** ** ProtoWriter *)
Module ProtoWriter.

Record t := mk { stream_buffer : Out.t; field_number : Z }.

Definition make (s : Out.t) : t := mk s 0.

(** [ProtoWriter::set_field_number]. *)
Definition set_field_number (w : t) (fn : Z) : t := mk (stream_buffer w) fn.

Section WithAllocator.
Context `{Allocator}.

(** [ProtoWriter::WriteWireTag]. *)
Definition WriteWireTag (w : t) (wt : Z) : outcome t :=
  s ← EncodeVarint (stream_buffer w) (Z.lor (u64 (Z.shiftl (field_number w) 3)) wt);
  Ret (mk s (field_number w)).

(** [ProtoWriter::WriteVarint]. *)
Definition WriteVarint (w : t) (value : Z) : outcome t :=
  w ← WriteWireTag w WireType.kVarint;
  s ← EncodeVarint (stream_buffer w) value;
  Ret (mk s (field_number w)).

(** [ProtoWriter::WriteLengthHeader]. *)
Definition WriteLengthHeader (w : t) (size : Z) : outcome t :=
  w ← WriteWireTag w WireType.kLengthDelimited;
  s ← EncodeVarint (stream_buffer w) size;
  Ret (mk s (field_number w)).

(** [ProtoWriter::WriteLengthDelimited]. *)
Definition WriteLengthDelimited (w : t) (data : blob) : outcome t :=
  w ← WriteWireTag w WireType.kLengthDelimited;
  s ← EncodeVarint (stream_buffer w) (zlen data);
  s ← Out.Write s data;
  Ret (mk s (field_number w)).

End WithAllocator.
End ProtoWriter.

(** * Reference definitions *)

(** The varint of a value, seven bits per byte, low bits first. *)
Fixpoint varint_n (fuel : nat) (value : Z) : blob :=
  match fuel with
  | O => []
  | S fuel =>
      varint_byte value ::
      (if Z.shiftr value 7 =? 0 then [] else varint_n fuel (Z.shiftr value 7))
  end.

Definition varint (value : Z) : blob := varint_n kMaxVarintBytes value.

Arguments varint : simpl never.

Lemma varint_n_len fuel v : zlen (varint_n fuel v) <= Z.of_nat fuel.
Proof.
  revert v. induction fuel as [|fuel IH]; intros v; cbn [varint_n]; [zlen|].
  rewrite zlen_cons. destruct (_ =? 0); [zlen|]. specialize (IH (Z.shiftr v 7)). lia.
Qed.

Lemma varint_len v : zlen (varint v) <= 10.
Proof. apply (varint_n_len kMaxVarintBytes). Qed.

(** Writing byte by byte. *)
Fixpoint put `{Allocator} (s : Out.t) (bs : blob) : outcome Out.t :=
  match bs with
  | [] => Ret s
  | b :: bs => s ← Out.WriteByte s b; put s bs
  end.

(** The unread bytes of the current window. *)
Definition window (s : In.t) : blob :=
  slice (In.mem s) (In.pos s) (In.end_ s - In.pos s).

Definition consume (s : In.t) (n : Z) : In.t := In.set_pos s (In.pos s + n).

(** Well-formed input streams: windows inside their buffer, at most one level
    of nesting (a [Request] holds payload messages, which hold no message). *)
Definition in_wf (s : In.t) : Prop :=
  match s with
  | In.Base m p e => 0 <= p <= e /\ e <= zlen m
  | In.Nested (In.Base m dp de) p e r =>
      0 <= dp <= p /\ p <= e <= de /\ de <= zlen m /\ is_uint 64 r /\ e - dp <= r
  | In.Nested (In.Nested _ _ _ _) _ _ _ => False
  end.

(** * Varints: shape of the encoding *)

Lemma varint_byte_eq v :
  0 <= v -> varint_byte v = v mod 128 + (if v / 128 =? 0 then 0 else 128).
Proof.
  intros Hv. unfold varint_byte.
  rewrite Z.shiftr_div_pow2 by lia. change (2 ^ 7) with 128.
  change 127 with (Z.ones 7). rewrite Z.land_ones by lia. change (2 ^ 7) with 128.
  pose proof (Z.mod_pos_bound v 128).
  destruct (v / 128 =? 0); [rewrite Z.lor_0_r; lia|].
  change 128 with (Z.shiftl 1 7) at 2.
  rewrite Z_lor_shiftl_add; change (2 ^ 7) with 128; lia.
Qed.

Lemma varint_byte_payload v :
  0 <= v -> Z.land (varint_byte v) 127 = v mod 128.
Proof.
  intros Hv. rewrite varint_byte_eq by done.
  change 127 with (Z.ones 7). rewrite Z.land_ones by lia. change (2 ^ 7) with 128.
  pose proof (Z.mod_pos_bound v 128).
  destruct (v / 128 =? 0).
  - rewrite Z.add_0_r. by rewrite Z.mod_mod.
  - rewrite <- (Z.mul_1_l 128) at 2. rewrite Z.mod_add by lia. by rewrite Z.mod_mod.
Qed.

Lemma varint_byte_more v :
  0 <= v -> (Z.land (varint_byte v) 128 =? 0) = (v / 128 =? 0).
Proof.
  intros Hv.
  assert (Hb : (Z.land (varint_byte v) 128 =? 0) = negb (Z.testbit (varint_byte v) 7)).
  { change 128 with (Z.shiftl 1 7).
    destruct (Z.testbit (varint_byte v) 7) eqn:E; simpl; apply Bool.eq_iff_eq_true;
      rewrite Z.eqb_eq; split; try done; intros H.
    - assert (Z.testbit (Z.land (varint_byte v) (Z.shiftl 1 7)) 7 = false)
        by (rewrite H; apply Z.bits_0).
      rewrite Z.land_spec, E in *. discriminate.
    - apply Z.bits_inj'. intros n Hn. rewrite Z.land_spec, Z.bits_0.
      destruct (decide (n = 7)) as [->|]; [by rewrite E|].
      rewrite Z.shiftl_1_l, Z.pow2_bits_false by done. apply andb_false_r. }
  rewrite Hb, varint_byte_eq by done. pose proof (Z.mod_pos_bound v 128).
  rewrite Z.testbit_odd, Z.shiftr_div_pow2 by lia. change (2 ^ 7) with 128.
  destruct (v / 128 =? 0).
  - rewrite Z.add_0_r, Z.div_small by lia. done.
  - replace (v mod 128 + 128) with (v mod 128 + 1 * 128) by lia.
    rewrite Z.div_add, Z.div_small by lia. done.
Qed.

(** * Output streams *)

Section Output.
Context `{Allocator}.
Implicit Types (s : Out.t) (bs : blob).

Lemma put_app s bs bs' : put s (bs ++ bs') = (s' ← put s bs; put s' bs').
Proof.
  revert s. induction bs as [|b bs IH]; intros s; [done|]. simpl.
  destruct (Out.WriteByte s b); simpl; auto.
Qed.

Lemma push_nil s : Out.push s [] = s.
Proof. destruct s. unfold Out.push. simpl. rewrite app_nil_r. f_equal; zlen. Qed.

Lemma push_app s a b : Out.push (Out.push s a) b = Out.push s (a ++ b).
Proof. unfold Out.push. simpl. rewrite app_assoc. f_equal; zlen. Qed.

(** Bytes that fit in the window are just stored. *)
Lemma put_fits s bs : zlen bs <= Out.room s -> put s bs = Ret (Out.push s bs).
Proof.
  revert s. induction bs as [|b bs IH]; intros s Hs; simpl.
  - by rewrite push_nil.
  - unfold Out.WriteByte. zlen.
    destruct (Z.leb_spec (Out.room s) 0); [lia|]. simpl.
    rewrite IH by (simpl; zlen). by rewrite push_app.
Qed.

(** A write to an exhausted window first sets up the next one. *)
Lemma put_advance s bs :
  Out.room s <= 0 -> bs <> [] ->
  put s bs = match Out.Advance s with
             | Some s' => _ ← check_that (0 <? Out.room s'); put s' bs
             | None => Fail
             end.
Proof.
  intros Hr Hb. destruct bs as [|b bs]; [done|]. simpl.
  unfold Out.WriteByte at 1. destruct (Z.leb_spec (Out.room s) 0); [|lia].
  destruct (Out.Advance s) as [s'|]; [|done]. simpl.
  destruct (Z.ltb_spec 0 (Out.room s')); [|done]. simpl.
  unfold Out.WriteByte. by destruct (Z.leb_spec (Out.room s') 0); [lia|].
Qed.

Lemma Write_loop_put fuel s (data : blob) :
  0 <= Out.room s -> (length data + (if (Out.room s =? 0)%Z then 1 else 0) < fuel)%nat ->
  Out.Write_loop fuel s data = put s data.
Proof.
  revert s data. induction fuel as [|fuel IH]; intros s data Hr Hf; [lia|]. simpl.
  destruct (Z.ltb_spec (Out.room s) (zlen data)) as [Hlt|Hge];
    [|by rewrite put_fits by lia].
  set (n := Z.to_nat (Out.room s)).
  assert (Hn : zlen (take n data) = Out.room s).
  { unfold zlen, n in *. rewrite length_take. lia. }
  transitivity (put s (take n data ++ drop n data)); [|by rewrite take_drop].
  rewrite put_app, put_fits by lia. simpl.
  rewrite put_advance.
  2: { simpl. lia. }
  2: { intros E. apply (f_equal length) in E. rewrite length_drop in E.
       unfold zlen, n in *. simpl in E. lia. }
  destruct (Out.Advance _) as [s'|]; [|done].
  destruct (Z.ltb_spec 0 (Out.room s')) as [Hs'|]; [|done]. simpl. apply IH; [lia|].
  rewrite length_drop. destruct (Z.eqb_spec (Out.room s') 0); [lia|].
  destruct (Z.eqb_spec (Out.room s) 0); unfold zlen, n in *; lia.
Qed.

(** Chunked writing through the windows is byte-by-byte writing. *)
Lemma Write_put s data : 0 <= Out.room s -> Out.Write s data = put s data.
Proof.
  intros Hr. unfold Out.Write. destruct (Z.leb_spec 0 (Out.room s)); [|lia].
  unfold check_that. rewrite outcome_bind_ret.
  apply Write_loop_put; [done|]. destruct (_ =? 0); lia.
Qed.

Lemma WriteByte_room s b s' : Out.WriteByte s b = Ret s' -> 0 <= Out.room s'.
Proof.
  unfold Out.WriteByte. destruct (Z.leb_spec (Out.room s) 0).
  - destruct (Out.Advance s) as [s1|]; simpl; [|discriminate].
    destruct (Z.ltb_spec 0 (Out.room s1)); simpl; [|discriminate].
    intros [= <-]. simpl. zlen.
  - simpl. intros [= <-]. simpl. zlen.
Qed.

Lemma put_room s bs s' : 0 <= Out.room s -> put s bs = Ret s' -> 0 <= Out.room s'.
Proof.
  revert s. induction bs as [|b bs IH]; simpl; intros s Hr; [by intros [= <-]|].
  intros (s1 & H1 & H2)%outcome_bind_Ret_inv.
  eapply IH; [|done]. by eapply WriteByte_room.
Qed.

Lemma EncodeVarint_loop_put fuel s v :
  0 <= v < 2 ^ (7 * Z.of_nat fuel) ->
  (0 < fuel)%nat ->
  EncodeVarint_loop fuel s v = put s (varint_n fuel v).
Proof.
  revert s v. induction fuel as [|fuel IH]; intros s v Hv Hf; [lia|]. simpl.
  apply outcome_bind_ext. intros s' _.
  rewrite Z.shiftr_div_pow2 in * by lia. change (2 ^ 7) with 128 in *.
  destruct (Z.eqb_spec (v / 128) 0) as [|Hne]; [done|].
  assert (Hq : 0 <= v / 128 < 2 ^ (7 * Z.of_nat fuel)).
  { split; [apply Z.div_pos; lia|]. apply Z.div_lt_upper_bound; [lia|].
    replace (7 * Z.of_nat (S fuel)) with (7 + 7 * Z.of_nat fuel) in Hv by lia.
    rewrite Z.pow_add_r in Hv by lia. lia. }
  apply IH; [done|]. destruct fuel; [|lia].
  change (2 ^ (7 * Z.of_nat 0)) with 1 in Hq. lia.
Qed.

(** [EncodeVarint] emits exactly the varint of its argument, through any
    stream; ten iterations are enough for every [uint64_t]. *)
Lemma EncodeVarint_put s v : is_uint 64 v -> EncodeVarint s v = put s (varint v).
Proof.
  intros Hv. apply EncodeVarint_loop_put; [|unfold kMaxVarintBytes; lia].
  unfold is_uint, kMaxVarintBytes in *.
  pose proof (Z.pow_le_mono_r 2 64 (7 * Z.of_nat 10)). lia.
Qed.

(** ** What each kind of stream does with the bytes *)

(** A counting stream that has seen [k] bytes. *)
Definition counting_at s (k : Z) : Prop :=
  exists n, Out.sub s = Out.Counting n /\ 0 <= Out.room s
            /\ u64 (n + zlen (Out.written s)) = u64 k.

Lemma WriteByte_counting s k b :
  counting_at s k -> exists s', Out.WriteByte s b = Ret s' /\ counting_at s' (k + 1).
Proof.
  intros (n & Hsub & Hr & Hk). unfold Out.WriteByte.
  destruct (Z.leb_spec (Out.room s) 0).
  - unfold Out.Advance. rewrite Hsub. simpl. eexists. split; [done|].
    eexists. simpl. split; [done|]. split; [done|].
    rewrite Hk. unfold uint. rewrite zlen_cons, zlen_nil.
    by rewrite Z.add_0_r, Zplus_mod_idemp_l.
  - simpl. eexists. split; [done|]. exists n. simpl. split; [done|]. split; [zlen|].
    rewrite zlen_app, zlen_cons, zlen_nil, Z.add_0_r, Z.add_assoc.
    unfold uint in *. by rewrite <- Zplus_mod_idemp_l, Hk, Zplus_mod_idemp_l.
Qed.

Lemma put_counting s k bs :
  counting_at s k -> exists s', put s bs = Ret s' /\ counting_at s' (k + zlen bs).
Proof.
  revert s k. induction bs as [|b bs IH]; intros s k Hs; simpl.
  - exists s. by rewrite zlen_nil, Z.add_0_r.
  - destruct (WriteByte_counting s k b Hs) as (s1 & -> & H1). simpl.
    destruct (IH s1 (k + 1) H1) as (s2 & -> & H2). exists s2. split; [done|].
    rewrite zlen_cons. by rewrite Z.add_assoc.
Qed.

(** On every other kind of stream the bytes end up in the window's memory. *)
Lemma put_written s bs s' :
  (forall n, Out.sub s <> Out.Counting n) -> put s bs = Ret s' ->
  Out.written s' = Out.written s ++ bs.
Proof.
  revert s. induction bs as [|b bs IH]; simpl; intros s Hs.
  { intros [= <-]. by rewrite app_nil_r. }
  intros (s1 & H1 & H2)%outcome_bind_Ret_inv.
  assert (Out.written s1 = Out.written s ++ [b] /\ forall n, Out.sub s1 <> Out.Counting n)
    as [E Hs1].
  { unfold Out.WriteByte in H1. destruct (_ <=? 0).
    - unfold Out.Advance in H1. destruct (Out.sub s) eqn:Hsub; [done|by destruct (Hs bytes_written)|].
      destruct (Blob_Resize _); [|done]. simpl in H1.
      destruct (0 <? _); [|done]. injection H1 as <-. done.
    - injection H1 as <-. done. }
  rewrite (IH s1 Hs1 H2), E, <- app_assoc. done.
Qed.

(** A blob stream whose blob starts empty, with enough memory. *)
Definition blob_at s : Prop :=
  exists size, Out.sub s = Out.BlobOut size /\ 0 <= Out.room s
               /\ Out.room s = size - zlen (Out.written s).

Definition alloc_upto (n : Z) : Prop :=
  (forall k, 0 <= k <= n -> blob_alloc_ok k = true)
  /\ (forall k, 0 <= k <= n -> vector_alloc_ok k = true).

Lemma alloc_upto_mono m n : alloc_upto m -> n <= m -> alloc_upto n.
Proof. intros [Hb Hv] Hn. split; intros; [apply Hb|apply Hv]; lia. Qed.

Lemma WriteByte_blob s b N :
  blob_at s -> zlen (Out.written s) < N -> N <= 2 ^ 60 -> alloc_upto (2 * N + 32) ->
  exists s', Out.WriteByte s b = Ret s' /\ blob_at s'
             /\ Out.written s' = Out.written s ++ [b].
Proof.
  intros (size & Hsub & Hr & Hroom) HN Hb [Ha _]. unfold Out.WriteByte.
  destruct (Z.leb_spec (Out.room s) 0).
  - unfold Out.Advance. rewrite Hsub.
    assert (Hu : u64 (size * 2) = size * 2) by (apply uint_small; unfold is_uint; zlen).
    rewrite Hu. unfold Blob_Resize. rewrite Ha by zlen. rewrite orb_true_r. simpl.
    destruct (Z.ltb_spec 0 (Z.max (size * 2) 32 - zlen (Out.written s))); [|zlen].
    simpl. eexists. split; [done|]. split; [|done].
    eexists. simpl. split; [done|]. zlen.
  - simpl. eexists. split; [done|]. split; [|done].
    exists size. simpl. split; [done|]. zlen.
Qed.

Lemma put_blob s bs N :
  blob_at s -> zlen (Out.written s) + zlen bs <= N -> N <= 2 ^ 60 ->
  alloc_upto (2 * N + 32) ->
  exists s', put s bs = Ret s' /\ blob_at s' /\ Out.written s' = Out.written s ++ bs.
Proof.
  revert s. induction bs as [|b bs IH]; intros s Hs HN Hb Ha; simpl.
  - exists s. by rewrite app_nil_r.
  - rewrite zlen_cons in HN.
    destruct (WriteByte_blob s b N) as (s1 & -> & H1 & E1); try done; [zlen|].
    simpl. destruct (IH s1) as (s2 & -> & H2 & E2); try done; [rewrite E1; zlen|].
    exists s2. split; [done|]. split; [done|]. rewrite E2, E1, <- app_assoc. done.
Qed.

(** An array stream takes exactly what fits. *)
Lemma put_array s bs :
  Out.sub s = Out.Array -> 0 <= Out.room s ->
  put s bs = if zlen bs <=? Out.room s then Ret (Out.push s bs) else Fail.
Proof.
  intros Hsub Hr. destruct (Z.leb_spec (zlen bs) (Out.room s)) as [|Hlt]; [by apply put_fits|].
  set (n := Z.to_nat (Out.room s)).
  assert (Hn : zlen (take n bs) = Out.room s).
  { unfold zlen, n in *. rewrite length_take. lia. }
  rewrite <- (take_drop n bs), put_app, put_fits by lia. simpl.
  rewrite put_advance; simpl; [by unfold Out.Advance; simpl; rewrite Hsub|lia|].
  intros E. apply (f_equal zlen) in E. unfold zlen, n in *.
  rewrite length_drop in E. simpl in E. lia.
Qed.

End Output.

(** * Input streams *)

Section Input.
Implicit Types (s : In.t) (bs rest : blob).

Lemma mem_set_pos s p : In.mem (In.set_pos s p) = In.mem s.
Proof. by destruct s. Qed.

Lemma pos_set_pos s p : In.pos (In.set_pos s p) = p.
Proof. by destruct s. Qed.

Lemma end_set_pos s p : In.end_ (In.set_pos s p) = In.end_ s.
Proof. by destruct s. Qed.

Lemma set_pos_pos s : In.set_pos s (In.pos s) = s.
Proof. by destruct s. Qed.

Lemma set_pos_set_pos s p q : In.set_pos (In.set_pos s p) q = In.set_pos s q.
Proof. by destruct s. Qed.

Lemma consume_consume s m n : consume (consume s m) n = consume s (m + n).
Proof. unfold consume. rewrite set_pos_set_pos, pos_set_pos. f_equal. lia. Qed.

Lemma consume_0 s : consume s 0 = s.
Proof. unfold consume. by rewrite Z.add_0_r, set_pos_pos. Qed.

Lemma in_wf_bounds s :
  in_wf s -> 0 <= In.pos s <= In.end_ s /\ In.end_ s <= zlen (In.mem s).
Proof. destruct s as [|[] ?]; simpl; intuition lia. Qed.

Lemma in_wf_set_pos s p :
  in_wf s -> In.pos s <= p <= In.end_ s -> in_wf (In.set_pos s p).
Proof. destruct s as [|[] ?]; simpl; intuition lia. Qed.

(** The virtual [Advance] of the two stream classes never provides a new
    window, and keeps the stream well-formed. *)
Lemma Advance_false s :
  in_wf s -> In.pos s = In.end_ s ->
  exists s', In.Advance s = Ret (false, s') /\ in_wf s'.
Proof.
  destruct s as [m p e|[m dp de|] p e r]; simpl; try done.
  - intros. eexists. split; [done|]. simpl. lia.
  - intros (H1 & H2 & H3 & H4 & H5) Hp.
    assert (Hu : u64 (r - (e - dp)) = r - (e - dp)).
    { apply uint_small. unfold is_uint in *. lia. }
    rewrite Hu. destruct (Z.eqb_spec (r - (e - dp)) 0).
    + eexists. split; [done|]. simpl. unfold is_uint in *. lia.
    + unfold In.ClampEnd. simpl. destruct (Z.leb_spec dp de); [|lia]. simpl.
      eexists. split; [done|]. simpl. unfold is_uint in *.
      destruct (Z.ltb_spec (r - (e - dp)) (de - dp)); lia.
Qed.

Lemma window_nil s : in_wf s -> window s = [] <-> In.pos s = In.end_ s.
Proof.
  intros Hwf. pose proof (in_wf_bounds s Hwf). unfold window. split.
  - intros E. apply (f_equal zlen) in E. rewrite zlen_slice, zlen_nil in E; lia.
  - intros ->. rewrite Z.sub_diag. done.
Qed.

Lemma window_len s : in_wf s -> zlen (window s) = In.end_ s - In.pos s.
Proof. intros Hwf. pose proof (in_wf_bounds s Hwf). apply zlen_slice; lia. Qed.

(** Consuming a prefix of the window leaves the rest. *)
Lemma window_consume s bs rest :
  in_wf s -> window s = bs ++ rest ->
  in_wf (consume s (zlen bs)) /\ window (consume s (zlen bs)) = rest.
Proof.
  intros Hwf Hw. pose proof (in_wf_bounds s Hwf) as Hb.
  destruct (slice_split (In.mem s) (In.pos s) (In.end_ s - In.pos s) bs rest)
    as (H1 & H2 & H3); try lia; [done|].
  pose proof (zlen_nonneg bs). pose proof (zlen_nonneg rest).
  split; [apply in_wf_set_pos; [done|lia]|].
  unfold window, consume. rewrite mem_set_pos, pos_set_pos, end_set_pos.
  rewrite <- H2. f_equal. lia.
Qed.

Lemma fetch_window s bs rest :
  in_wf s -> window s = bs ++ rest -> In.fetch s (zlen bs) = Ret bs.
Proof.
  intros Hwf Hw. pose proof (in_wf_bounds s Hwf) as Hb.
  destruct (slice_split (In.mem s) (In.pos s) (In.end_ s - In.pos s) bs rest)
    as (H1 & H2 & H3); try lia; [done|].
  pose proof (zlen_nonneg bs). pose proof (zlen_nonneg rest).
  unfold In.fetch.
  replace ((0 <=? In.pos s) && (0 <=? zlen bs) && (In.pos s + zlen bs <=? zlen (In.mem s)))
    with true by (symmetry; repeat (apply andb_true_intro; split); lia).
  simpl. by rewrite H1.
Qed.

Lemma ReadByte_window s b rest :
  in_wf s -> window s = b :: rest -> In.ReadByte s = Ret (b, consume s 1).
Proof.
  intros Hwf Hw. unfold In.ReadByte.
  pose proof (window_len s Hwf) as Hl. rewrite Hw in Hl. pose proof (zlen_nonneg rest).
  rewrite zlen_cons in Hl. destruct (Z.leb_spec (In.end_ s) (In.pos s)); [lia|].
  pose proof (fetch_window s [b] rest Hwf Hw) as Hf. change (zlen [b]) with 1 in Hf.
  by rewrite outcome_bind_ret, Hf.
Qed.

Lemma Read_window s bs rest :
  in_wf s -> window s = bs ++ rest -> In.Read s (zlen bs) = Ret (bs, consume s (zlen bs)).
Proof.
  intros Hwf Hw. unfold In.Read. pose proof (in_wf_bounds s Hwf).
  pose proof (window_len s Hwf) as Hl. rewrite Hw, zlen_app in Hl.
  pose proof (zlen_nonneg rest).
  destruct (Z.leb_spec (In.pos s) (In.end_ s)); [|lia].
  unfold check_that. rewrite outcome_bind_ret. cbn [In.Read_loop].
  destruct (Z.ltb_spec (In.end_ s - In.pos s) (zlen bs)); [lia|].
  by rewrite (fetch_window s bs rest).
Qed.

Lemma DecodeVarint_loop_window fuel i s acc v rest :
  in_wf s -> 0 <= i -> 0 <= acc < 2 ^ (7 * i) ->
  0 <= v < 2 ^ (7 * Z.of_nat fuel) -> (0 < fuel)%nat -> v * 2 ^ (7 * i) < 2 ^ 64 ->
  window s = varint_n fuel v ++ rest ->
  DecodeVarint_loop fuel i s acc =
    Ret (acc + v * 2 ^ (7 * i), consume s (zlen (varint_n fuel v))).
Proof.
  revert i s acc v. induction fuel as [|fuel IH]; intros i s acc v Hwf Hi Hacc Hv Hf Hr Hw.
  { lia. }
  cbn [varint_n] in *. pose proof (Z.mod_pos_bound v 128 eq_refl) as Hm.
  pose proof (Z.div_mod v 128) as Hdm. pose proof (Z.pow_pos_nonneg 2 (7 * i)) as Hpi.
  simpl in Hw. set (tl := if Z.shiftr v 7 =? 0 then [] else varint_n fuel (Z.shiftr v 7)) in *.
  cbn [DecodeVarint_loop].
  rewrite (ReadByte_window s (varint_byte v) (tl ++ rest)) by done. simpl.
  rewrite varint_byte_payload, varint_byte_more by lia.
  replace (u64 (Z.shiftl (v mod 128) (i * 7))) with (Z.shiftl (v mod 128) (7 * i)).
  2: { rewrite (Z.mul_comm i), uint_small; [done|]. unfold is_uint.
       rewrite Z.shiftl_mul_pow2 by lia. pose proof (Z.mod_le v 128). nia. }
  rewrite Z_lor_shiftl_add by lia.
  destruct (window_consume s [varint_byte v] (tl ++ rest)) as [Hwf' Hw']; try done.
  change (zlen [varint_byte v]) with 1 in *.
  subst tl. rewrite Z.shiftr_div_pow2 in * by lia. change (2 ^ 7) with 128 in *.
  destruct (Z.eqb_spec (v / 128) 0) as [E|E].
  - rewrite zlen_cons, zlen_nil. repeat f_equal. rewrite E in Hdm. lia.
  - assert (Hq : 0 <= v / 128 < 2 ^ (7 * Z.of_nat fuel)).
    { split; [apply Z.div_pos; lia|]. apply Z.div_lt_upper_bound; [lia|].
      replace (7 * Z.of_nat (S fuel)) with (7 + 7 * Z.of_nat fuel) in Hv by lia.
      rewrite Z.pow_add_r in Hv by lia. lia. }
    assert (Hp : 2 ^ (7 * (i + 1)) = 128 * 2 ^ (7 * i)).
    { replace (7 * (i + 1)) with (7 + 7 * i) by lia. by rewrite Z.pow_add_r by lia. }
    rewrite (IH _ _ _ (v / 128)); try done; try lia; rewrite ?Hp; try nia.
    + rewrite consume_consume, zlen_cons. f_equal. f_equal. nia.
    + destruct fuel; [|lia]. change (2 ^ (7 * Z.of_nat 0)) with 1 in Hq. lia.
Qed.

(** [DecodeVarint] reads back what [EncodeVarint] wrote. *)
Lemma DecodeVarint_window s v rest :
  in_wf s -> is_uint 64 v -> window s = varint v ++ rest ->
  DecodeVarint s = Ret (v, consume s (zlen (varint v))).
Proof.
  intros Hwf Hv Hw. unfold DecodeVarint.
  rewrite (DecodeVarint_loop_window kMaxVarintBytes 0 s 0 v rest); try done; try lia.
  - f_equal. f_equal. change (2 ^ (7 * 0)) with 1. lia.
  - unfold is_uint, kMaxVarintBytes in *.
    pose proof (Z.pow_le_mono_r 2 64 (7 * Z.of_nat 10)). lia.
  - unfold kMaxVarintBytes. lia.
  - unfold is_uint in Hv. change (2 ^ (7 * 0)) with 1. lia.
Qed.

(** ** Arbitrary input: the readers return, inside the buffer *)

(** [s'] is [s] after reading [n] bytes of its window. *)
Definition reads s (n : Z) s' : Prop :=
  0 <= n <= In.end_ s - In.pos s /\ s' = consume s n.

Lemma reads_wf s n s' : in_wf s -> reads s n s' -> in_wf s'.
Proof. intros Hwf [Hn ->]. apply in_wf_set_pos; [done|lia]. Qed.

Lemma reads_trans s m s1 n s2 : reads s m s1 -> reads s1 n s2 -> reads s (m + n) s2.
Proof.
  intros [Hm ->] [Hn ->]. unfold reads, consume in *.
  rewrite set_pos_set_pos, pos_set_pos, end_set_pos in *. split; [lia|f_equal; lia].
Qed.

Lemma reads_0 s : in_wf s -> reads s 0 s.
Proof. intros Hwf%in_wf_bounds. split; [lia|by rewrite consume_0]. Qed.

Lemma fetch_safe s n :
  in_wf s -> 0 <= n <= In.end_ s - In.pos s ->
  safe (In.fetch s n) (fun bs => zlen bs = n).
Proof.
  intros Hwf Hn. pose proof (in_wf_bounds s Hwf). unfold In.fetch.
  repeat safe_step; [|by apply zlen_slice; lia].
  repeat (apply andb_true_intro; split); lia.
Qed.

Lemma ReadByte_safe s :
  in_wf s -> safe (In.ReadByte s) (fun '(_, s') => reads s 1 s').
Proof.
  intros Hwf. pose proof (in_wf_bounds s Hwf). unfold In.ReadByte.
  destruct (Z.leb_spec (In.end_ s) (In.pos s)).
  - destruct (Advance_false s) as (s' & -> & _); [done|lia|]. done.
  - rewrite outcome_bind_ret. apply safe_bind.
    eapply safe_mono; [apply fetch_safe; [done|lia]|]. intros [|b [|]]; simpl; zlen.
    intros _. split; [lia|done].
Qed.

Lemma Read_safe s size :
  in_wf s -> 0 <= size ->
  safe (In.Read s size) (fun '(bs, s') => zlen bs = size /\ reads s size s').
Proof.
  intros Hwf Hs. pose proof (in_wf_bounds s Hwf) as Hb. unfold In.Read.
  safe_step. safe_step; [lia|]. cbn [In.Read_loop].
  destruct (Z.ltb_spec (In.end_ s - In.pos s) size).
  - safe_step. eapply safe_mono; [apply fetch_safe; [done|lia]|]. intros c Hc.
    destruct (Advance_false (In.set_pos s (In.end_ s))) as (s' & -> & _);
      [apply in_wf_set_pos; [done|lia] | by rewrite pos_set_pos, end_set_pos | done].
  - safe_step. eapply safe_mono; [apply fetch_safe; [done|lia]|]. intros c Hc. simpl.
    split; [done|]. split; [lia|done].
Qed.

Lemma Skip_safe s size :
  in_wf s -> 0 <= size -> safe (In.Skip s size) (fun s' => reads s size s').
Proof.
  intros Hwf Hs. pose proof (in_wf_bounds s Hwf) as Hb. unfold In.Skip.
  safe_step. safe_step; [lia|]. cbn [In.Skip_loop].
  destruct (Z.ltb_spec (In.end_ s - In.pos s) size).
  - destruct (Advance_false (In.set_pos s (In.end_ s))) as (s' & -> & _);
      [apply in_wf_set_pos; [done|lia] | by rewrite pos_set_pos, end_set_pos | done].
  - simpl. split; [lia|done].
Qed.

Lemma lor_uint w a b : 0 <= w -> is_uint w a -> is_uint w b -> is_uint w (Z.lor a b).
Proof.
  intros Hw Ha Hb. unfold is_uint in *. rewrite Z.lor_nonneg. split; [lia|].
  destruct (decide (Z.lor a b = 0)) as [->|Hne]; [lia|].
  apply Z.log2_lt_pow2; [pose proof (proj2 (Z.lor_nonneg a b)); lia|].
  rewrite Z.log2_lor by lia.
  destruct (decide (w = 0)) as [->|]. { change (2 ^ 0) with 1 in *.
    replace a with 0 in * by lia. replace b with 0 in * by lia. done. }
  apply Z.max_lub_lt;
    [destruct (decide (a = 0)) as [->|] | destruct (decide (b = 0)) as [->|]];
    try (simpl; lia); apply Z.log2_lt_pow2; lia.
Qed.

Lemma DecodeVarint_loop_safe fuel i s acc :
  in_wf s -> 0 <= i -> is_uint 64 acc ->
  safe (DecodeVarint_loop fuel i s acc)
    (fun '(v, s') => is_uint 64 v /\ exists n, 1 <= n /\ reads s n s').
Proof.
  revert i s acc. induction fuel as [|fuel IH]; intros i s acc Hwf Hi Hacc; [done|].
  cbn [DecodeVarint_loop]. safe_step. eapply safe_mono; [by apply ReadByte_safe|].
  intros [b s1] Hr1.
  set (v := Z.lor acc _).
  assert (is_uint 64 v) by (apply lor_uint; [lia|done|by apply uint_range]).
  safe_step.
  - simpl. split; [done|]. exists 1. split; [lia|done].
  - eapply safe_mono; [apply IH; [by eapply reads_wf|lia|done]|].
    intros [v' s2] (Hv' & n & Hn & Hr2). split; [done|].
    exists (1 + n). split; [lia|by eapply reads_trans].
Qed.

Lemma DecodeVarint_safe s :
  in_wf s ->
  safe (DecodeVarint s) (fun '(v, s') => is_uint 64 v /\ exists n, 1 <= n /\ reads s n s').
Proof. intros Hwf. by apply DecodeVarint_loop_safe. Qed.

End Input.

(** ** Records of the wire format *)

(** The wire tag of a field. *)
Definition wire_tag (fn wt : Z) : Z := Z.lor (u64 (Z.shiftl fn 3)) wt.

Definition tag_bytes (fn wt : Z) : blob := varint (wire_tag fn wt).

Arguments wire_tag : simpl never.
Arguments tag_bytes : simpl never.

Lemma tag_bytes_len fn wt : zlen (tag_bytes fn wt) <= 10.
Proof. apply varint_len. Qed.

(** A field number that fits the tag: the tag is then recovered. *)
Definition is_field_number (fn : Z) : Prop := 0 <= fn < 2 ^ 61.

Lemma wire_tag_eq fn wt :
  is_field_number fn -> 0 <= wt < 8 -> wire_tag fn wt = wt + fn * 8.
Proof.
  unfold is_field_number, wire_tag. intros Hfn Hwt.
  rewrite uint_small, Z.lor_comm, Z_lor_shiftl_add; try lia.
  unfold is_uint. rewrite Z.shiftl_mul_pow2 by lia. lia.
Qed.

Lemma wire_tag_uint fn wt :
  is_field_number fn -> 0 <= wt < 8 -> is_uint 64 (wire_tag fn wt).
Proof.
  intros Hfn Hwt. rewrite wire_tag_eq by done. unfold is_field_number, is_uint in *. lia.
Qed.

Lemma wire_tag_type fn wt :
  is_field_number fn -> 0 <= wt < 8 -> Z.land (wire_tag fn wt) 7 = wt.
Proof.
  intros Hfn Hwt. rewrite wire_tag_eq by done. change 7 with (Z.ones 3).
  rewrite Z.land_ones by lia. change (2 ^ 3) with 8.
  rewrite Z.mod_add, Z.mod_small; lia.
Qed.

Lemma wire_tag_number fn wt :
  is_field_number fn -> 0 <= wt < 8 -> Z.shiftr (wire_tag fn wt) 3 = fn.
Proof.
  intros Hfn Hwt. rewrite wire_tag_eq by done.
  rewrite Z.shiftr_div_pow2 by lia. change (2 ^ 3) with 8.
  rewrite Z.div_add, Z.div_small; lia.
Qed.

Section WriterLemmas.
Context `{Allocator}.
Implicit Types (w : ProtoWriter.t).

Lemma WriteWireTag_put w wt :
  is_field_number (ProtoWriter.field_number w) -> 0 <= wt < 8 ->
  ProtoWriter.WriteWireTag w wt =
    (s ← put (ProtoWriter.stream_buffer w) (tag_bytes (ProtoWriter.field_number w) wt);
     Ret (ProtoWriter.mk s (ProtoWriter.field_number w))).
Proof.
  intros. unfold ProtoWriter.WriteWireTag.
  rewrite EncodeVarint_put; [done|by apply wire_tag_uint].
Qed.

(** A varint field is its tag and the varint of its value. *)
Lemma WriteVarint_put w v :
  is_field_number (ProtoWriter.field_number w) -> is_uint 64 v ->
  ProtoWriter.WriteVarint w v =
    (s ← put (ProtoWriter.stream_buffer w)
           (tag_bytes (ProtoWriter.field_number w) WireType.kVarint ++ varint v);
     Ret (ProtoWriter.mk s (ProtoWriter.field_number w))).
Proof.
  intros. unfold ProtoWriter.WriteVarint.
  rewrite WriteWireTag_put by (done || (unfold WireType.kVarint; lia)).
  rewrite put_app, !outcome_bind_assoc. apply outcome_bind_ext. intros s _.
  rewrite outcome_bind_ret. cbn [ProtoWriter.stream_buffer ProtoWriter.field_number].
  by rewrite EncodeVarint_put.
Qed.

Lemma WriteLengthHeader_put w n :
  is_field_number (ProtoWriter.field_number w) -> is_uint 64 n ->
  ProtoWriter.WriteLengthHeader w n =
    (s ← put (ProtoWriter.stream_buffer w)
           (tag_bytes (ProtoWriter.field_number w) WireType.kLengthDelimited ++ varint n);
     Ret (ProtoWriter.mk s (ProtoWriter.field_number w))).
Proof.
  intros. unfold ProtoWriter.WriteLengthHeader.
  rewrite WriteWireTag_put by (done || (unfold WireType.kLengthDelimited; lia)).
  rewrite put_app, !outcome_bind_assoc. apply outcome_bind_ext. intros s _.
  rewrite outcome_bind_ret. cbn [ProtoWriter.stream_buffer ProtoWriter.field_number].
  by rewrite EncodeVarint_put.
Qed.

(** A length-delimited field is its tag, its length and its bytes. *)
Lemma WriteLengthDelimited_put w data :
  is_field_number (ProtoWriter.field_number w) -> is_uint 64 (zlen data) ->
  0 <= Out.room (ProtoWriter.stream_buffer w) ->
  ProtoWriter.WriteLengthDelimited w data =
    (s ← put (ProtoWriter.stream_buffer w)
           (tag_bytes (ProtoWriter.field_number w) WireType.kLengthDelimited
            ++ varint (zlen data) ++ data);
     Ret (ProtoWriter.mk s (ProtoWriter.field_number w))).
Proof.
  intros Hf Hn Hr. unfold ProtoWriter.WriteLengthDelimited.
  rewrite WriteWireTag_put by (done || (unfold WireType.kLengthDelimited; lia)).
  rewrite !put_app, !outcome_bind_assoc. apply outcome_bind_ext. intros s1 H1.
  rewrite outcome_bind_ret. cbn [ProtoWriter.stream_buffer ProtoWriter.field_number].
  rewrite EncodeVarint_put by done. rewrite put_app, !outcome_bind_assoc.
  apply outcome_bind_ext. intros s2 H2.
  by rewrite Write_put by (eapply put_room; [|done]; by eapply put_room).
Qed.
End WriterLemmas.

Section ReaderLemmas.
Implicit Types (r : ProtoReader.t) (rest : blob).

Lemma ReadWireTag_varint r fn rest :
  in_wf (ProtoReader.stream_buffer r) -> is_field_number fn ->
  window (ProtoReader.stream_buffer r) = tag_bytes fn WireType.kVarint ++ rest ->
  ProtoReader.ReadWireTag r =
    Ret (ProtoReader.mk
           (consume (ProtoReader.stream_buffer r) (zlen (tag_bytes fn WireType.kVarint)))
           WireType.kVarint fn 0).
Proof.
  intros Hwf Hfn Hw. unfold ProtoReader.ReadWireTag.
  rewrite (DecodeVarint_window _ (wire_tag fn WireType.kVarint) rest); try done;
    [|by apply wire_tag_uint].
  rewrite outcome_bind_ret. by rewrite wire_tag_type, wire_tag_number.
Qed.

Lemma ReadWireTag_length r fn n rest :
  in_wf (ProtoReader.stream_buffer r) -> is_field_number fn -> is_uint 64 n ->
  window (ProtoReader.stream_buffer r) =
    tag_bytes fn WireType.kLengthDelimited ++ varint n ++ rest ->
  ProtoReader.ReadWireTag r =
    Ret (ProtoReader.mk
           (consume (ProtoReader.stream_buffer r)
              (zlen (tag_bytes fn WireType.kLengthDelimited ++ varint n)))
           WireType.kLengthDelimited fn n).
Proof.
  intros Hwf Hfn Hn Hw. unfold ProtoReader.ReadWireTag.
  rewrite (DecodeVarint_window _ (wire_tag fn WireType.kLengthDelimited) (varint n ++ rest));
    try done; [|by apply wire_tag_uint].
  rewrite outcome_bind_ret. rewrite wire_tag_type, wire_tag_number by done.
  destruct (window_consume _ _ _ Hwf Hw) as [Hwf1 Hw1].
  change (WireType.kLengthDelimited =? WireType.kLengthDelimited) with true. cbv iota.
  rewrite (DecodeVarint_window _ n rest) by done.
  by rewrite outcome_bind_ret, consume_consume, zlen_app.
Qed.

(** Readers whose field size is a [size_t]. *)
Definition reader_wf r : Prop :=
  in_wf (ProtoReader.stream_buffer r) /\ is_uint 64 (ProtoReader.field_size r).

(** [r'] is [r] after reading [n] bytes. *)
Definition rreads r (n : Z) r' : Prop :=
  reads (ProtoReader.stream_buffer r) n (ProtoReader.stream_buffer r') /\ reader_wf r'.

Lemma ReadWireTag_safe r :
  reader_wf r ->
  safe (ProtoReader.ReadWireTag r) (fun r' => exists n, 1 <= n /\ rreads r n r').
Proof.
  intros [Hwf Hfs]. unfold ProtoReader.ReadWireTag. safe_step.
  eapply safe_mono; [by apply DecodeVarint_safe|].
  intros [tag s1] (Htag & n & Hn & Hr). assert (Hwf1 : in_wf s1) by by eapply reads_wf.
  assert (Hdone : forall sz fnum wt, is_uint 64 sz ->
            exists n, 1 <= n /\ rreads r n (ProtoReader.mk s1 wt fnum sz)).
  { intros. exists n. split; [lia|]. by split. }
  repeat (safe_step; [safe_step; simpl; apply Hdone; auto with uint|]).
  all: try (simpl; apply Hdone; auto with uint; fail).
  all: repeat (safe_step; try (simpl; apply Hdone; auto with uint; fail)).
  eapply safe_mono; [by apply DecodeVarint_safe|].
  intros [sz s2] (Hsz & n2 & Hn2 & Hr2). simpl. exists (n + n2). split; [lia|].
  split; [by eapply reads_trans|]. split; [by eapply reads_wf|done].
Qed.

Lemma SkipField_safe r :
  reader_wf r ->
  safe (ProtoReader.SkipField r) (fun r' => exists n, 0 <= n /\ rreads r n r').
Proof.
  intros [Hwf Hfs]. unfold ProtoReader.SkipField. repeat safe_step.
  - eapply safe_mono; [by apply DecodeVarint_safe|].
    intros [v s1] (_ & n & Hn & Hr). simpl. exists n. split; [lia|].
    split; [done|]. split; [by eapply reads_wf|done].
  - eapply safe_mono; [apply Skip_safe; [done|unfold is_uint in *; lia]|].
    intros s1 Hr. simpl. exists (ProtoReader.field_size r). split; [lia|].
    split; [done|]. split; [by eapply reads_wf|done].
  - exists 0. split; [lia|]. split; [by apply reads_0|by split].
Qed.
End ReaderLemmas.
