(* ===== verification/NvramCodec.v ===== *)
(** * NvramCodec: the table-driven protobuf codec
      (src/nvram/messages/message_codec.cpp, include/nvram/messages/proto.hpp,
       message_codec.h, struct.h)

    A [Codec] is the [proto::detail::Codec<Type>] specialisation of a member
    type; a [FieldDescriptor] is one row of a struct's descriptor table.
    [EncodeData], [GetSize], [Encode], [DecodeData], [Decode] and
    [FindDescriptor] are the members of [MessageEncoderBase] and
    [MessageDecoderBase].  [LeafOk] and [FieldOk] are the contracts of codecs
    and of table rows; the theorems show that every codec of the library
    meets its contract and that a table of such rows decodes what it encoded
    and never aborts on arbitrary input. *)
From S2P Require Import Prelude NvramIo.

(** ** Codecs *)

Record Codec (T : Type) := {
  kWireType : Z;
  codec_Encode : T -> ProtoWriter.t -> outcome ProtoWriter.t;
  codec_Decode : T -> ProtoReader.t -> outcome (T * ProtoReader.t);
}.
Arguments kWireType {T} _.
Arguments codec_Encode {T} _ _ _.
Arguments codec_Decode {T} _ _ _.

Section Codecs.
Context `{Allocator}.

(** [Codec<Blob>]. *)
Definition blob_codec : Codec blob := {|
  kWireType := WireType.kLengthDelimited;
  codec_Encode b w := ProtoWriter.WriteLengthDelimited w b;
  codec_Decode _ r :=
    _ ← guard_that (Blob_Resize (ProtoReader.field_size r));
    ProtoReader.ReadLengthDelimited r (ProtoReader.field_size r);
|}.

(** [Codec<Type>] for an unsigned integral type of [w] bits. *)
Definition varint_codec (w : Z) : Codec Z := {|
  kWireType := WireType.kVarint;
  codec_Encode v wr := ProtoWriter.WriteVarint wr v;
  codec_Decode _ r :=
    '(raw_value, r) ← ProtoReader.ReadVarint r;
    let value := uint w raw_value in
    _ ← guard_that (value =? raw_value);
    Ret (value, r);
|}.

(** [Codec<bool>]: the same template, with the casts of [bool]. *)
Definition bool_codec : Codec bool := {|
  kWireType := WireType.kVarint;
  codec_Encode v w := ProtoWriter.WriteVarint w (Z.b2z v);
  codec_Decode _ r :=
    '(raw_value, r) ← ProtoReader.ReadVarint r;
    let value := negb (raw_value =? 0) in
    _ ← guard_that (Z.b2z value =? raw_value);
    Ret (value, r);
|}.

(** [Codec<Vector<ElementType>>]. *)
Fixpoint encode_elements {T} (c : Codec T) (l : list T) (w : ProtoWriter.t)
    : outcome ProtoWriter.t :=
  match l with
  | [] => Ret w
  | x :: l => w ← codec_Encode c x w; encode_elements c l w
  end.

Definition vector_codec {T} (c : Codec T) (fresh : T) : Codec (list T) := {|
  kWireType := kWireType c;
  codec_Encode l w := encode_elements c l w;
  codec_Decode l r :=
    _ ← guard_that (Vector_Resize (zlen l + 1));
    '(x, r) ← codec_Decode c fresh r;
    Ret (l ++ [x], r);
|}.

(** [Codec<Optional<ValueType>>]. *)
Definition optional_codec {T} (c : Codec T) (fresh : T) : Codec (option T) := {|
  kWireType := kWireType c;
  codec_Encode o w := match o with Some x => codec_Encode c x w | None => Ret w end;
  codec_Decode _ r := '(x, r) ← codec_Decode c fresh r; Ret (Some x, r);
|}.

End Codecs.

(** ** Field descriptors and the message coders *)

Record FieldDescriptor (S : Type) := {
  field_number : Z;
  wire_type : Z;
  encode_function : S -> ProtoWriter.t -> outcome ProtoWriter.t;
  decode_function : S -> ProtoReader.t -> outcome (S * ProtoReader.t);
}.
Arguments field_number {S} _.
Arguments wire_type {S} _.
Arguments encode_function {S} _ _ _.
Arguments decode_function {S} _ _ _.

(** [FieldDescriptorBuilder] for a plain member: [EncodeMember] and
    [DecodeMember] through the member pointer of [MakeField]. *)
Definition MakeField {S T} (fn : Z) (c : Codec T) (get : S -> T) (set : T -> S -> S)
    : FieldDescriptor S := {|
  field_number := fn;
  wire_type := kWireType c;
  encode_function o w := codec_Encode c (get o) w;
  decode_function o r := '(v, r) ← codec_Decode c (get o) r; Ret (set v o, r);
|}.

(** [FieldDescriptorBuilder] for a [TaggedUnion] member ([MakeOneOfField]):
    [get] is [object.get<kTag>()], [inj] stores an activated member, [fresh]
    is the value [Activate<kTag>()] constructs. *)
Definition MakeOneOfField {S T} (fn : Z) (c : Codec T)
    (get : S -> option T) (inj : T -> S -> S) (fresh : T) : FieldDescriptor S := {|
  field_number := fn;
  wire_type := kWireType c;
  encode_function o w :=
    match get o with Some m => codec_Encode c m w | None => Ret w end;
  decode_function o r := '(m, r) ← codec_Decode c fresh r; Ret (inj m o, r);
|}.

Section Message.
Context `{Allocator} {S : Type}.
Implicit Types (descriptors : list (FieldDescriptor S)) (object : S).

(** [MessageEncoderBase::EncodeData]. *)
Fixpoint EncodeData descriptors object (writer : ProtoWriter.t) : outcome ProtoWriter.t :=
  match descriptors with
  | [] => Ret writer
  | desc :: descriptors =>
      writer ← encode_function desc object
                 (ProtoWriter.set_field_number writer (field_number desc));
      EncodeData descriptors object writer
  end.

(** [MessageEncoderBase::GetSize]. *)
Definition GetSize descriptors object : outcome Z :=
  match EncodeData descriptors object (ProtoWriter.make Out.make_counting) with
  | Ret w => Ret (Out.bytes_written (ProtoWriter.stream_buffer w))
  | Fail => Ret 0
  | Abort => Abort
  end.

(** [MessageEncoderBase::Encode]. *)
Definition Encode descriptors object (writer : ProtoWriter.t) : outcome ProtoWriter.t :=
  size ← GetSize descriptors object;
  writer ← ProtoWriter.WriteLengthHeader writer size;
  EncodeData descriptors object writer.

(** [MessageDecoderBase::FindDescriptor]. *)
Fixpoint FindDescriptor descriptors (reader : ProtoReader.t)
    : option (FieldDescriptor S) :=
  match descriptors with
  | [] => None
  | desc :: descriptors =>
      if (ProtoReader.field_number reader =? field_number desc)
         && (ProtoReader.wire_type reader =? wire_type desc)
      then Some desc else FindDescriptor descriptors reader
  end.

(** The while loop of [MessageDecoderBase::DecodeData]. *)
Fixpoint DecodeData_loop (fuel : nat) descriptors object (reader : ProtoReader.t)
    : outcome (S * ProtoReader.t) :=
  match fuel with
  | O => Abort
  | Datatypes.S fuel =>
      '(done, reader) ← ProtoReader.Done reader;
      if (done : bool) then Ret (object, reader)
      else
        reader ← ProtoReader.ReadWireTag reader;
        match FindDescriptor descriptors reader with
        | Some desc =>
            '(object, reader) ← decode_function desc object reader;
            DecodeData_loop fuel descriptors object reader
        | None =>
            reader ← ProtoReader.SkipField reader;
            DecodeData_loop fuel descriptors object reader
        end
  end.

(** Each pass reads a tag, at least one byte: as many passes as there are
    bytes in the window are enough. *)
Definition decode_fuel (reader : ProtoReader.t) : nat :=
  let s := ProtoReader.stream_buffer reader in
  Datatypes.S (Z.to_nat (In.end_ s - In.pos s)).

(** [MessageDecoderBase::DecodeData]. *)
Definition DecodeData descriptors object (reader : ProtoReader.t)
    : outcome (S * ProtoReader.t) :=
  DecodeData_loop (decode_fuel reader) descriptors object reader.

(** [MessageDecoderBase::Decode].  The nested stream shares the outer stream
    as its delegate: the outer reader continues with the delegate as the
    nested one left it. *)
Definition Decode descriptors object (reader : ProtoReader.t)
    : outcome (S * ProtoReader.t) :=
  nested_stream_buffer ←
    In.make_nested (ProtoReader.stream_buffer reader) (ProtoReader.field_size reader);
  '(object, nested_reader) ←
    DecodeData descriptors object (ProtoReader.make nested_stream_buffer);
  '(done, nested_reader) ← ProtoReader.Done nested_reader;
  _ ← guard_that done;
  Ret (object,
       ProtoReader.set_stream reader
         (match ProtoReader.stream_buffer nested_reader with
          | In.Nested d _ _ _ => d
          | In.Base _ _ _ as s => s
          end)).

(** [Codec<StructType>]. *)
Definition struct_codec descriptors : Codec S := {|
  kWireType := WireType.kLengthDelimited;
  codec_Encode o w := Encode descriptors o w;
  codec_Decode o r := Decode descriptors o r;
|}.

(** [proto::Encode] and [proto::Decode] of the topmost message. *)
Definition proto_Encode descriptors object (stream : Out.t) : outcome Out.t :=
  w ← EncodeData descriptors object (ProtoWriter.make stream);
  Ret (ProtoWriter.stream_buffer w).

Definition proto_Decode descriptors object (stream : In.t) : outcome (S * In.t) :=
  '(o, r) ← DecodeData descriptors object (ProtoReader.make stream);
  Ret (o, ProtoReader.stream_buffer r).

End Message.

(** * Contracts *)

Definition is_base (s : In.t) : Prop :=
  match s with In.Base _ _ _ => True | In.Nested _ _ _ _ => False end.

Lemma is_base_consume s n : is_base (consume s n) <-> is_base s.
Proof. by destruct s. Qed.

(** The contract of a codec that writes one record per value: [payload] is
    what follows the tag.  [deep] codecs open a nested stream and need a flat
    one to read from; [okold] are the values a decoder may be started on. *)
Record LeafOk `{Allocator} {T} (c : Codec T) (deep : bool) (okold valid : T -> Prop)
    (payload : T -> blob) : Prop := {
  leaf_wt : 0 <= kWireType c < 8;
  leaf_enc x w :
    valid x -> is_field_number (ProtoWriter.field_number w) ->
    0 <= Out.room (ProtoWriter.stream_buffer w) ->
    exists fn', codec_Encode c x w =
      (s ← put (ProtoWriter.stream_buffer w)
             (tag_bytes (ProtoWriter.field_number w) (kWireType c) ++ payload x);
       Ret (ProtoWriter.mk s fn'));
  leaf_dec x old r fn rest :
    valid x -> okold old -> reader_wf r -> is_field_number fn ->
    (deep = true -> is_base (ProtoReader.stream_buffer r)) ->
    window (ProtoReader.stream_buffer r) = tag_bytes fn (kWireType c) ++ payload x ++ rest ->
    exists r1 r2,
      ProtoReader.ReadWireTag r = Ret r1
      /\ ProtoReader.field_number r1 = fn /\ ProtoReader.wire_type r1 = kWireType c
      /\ codec_Decode c old r1 = Ret (x, r2) /\ reader_wf r2
      /\ ProtoReader.stream_buffer r2 =
           consume (ProtoReader.stream_buffer r) (zlen (tag_bytes fn (kWireType c) ++ payload x));
}.

(** What a row of a descriptor table contributes to the encoding of an object
    and how decoding that contribution changes the object under construction. *)
Record FieldSpec (S : Type) := {
  fs_valid : S -> Prop;          (* the objects that can be encoded *)
  fs_bytes : S -> blob;          (* their records of this field *)
  fs_start : S -> Prop;          (* the objects decoding may start from *)
  fs_apply : S -> S -> S;        (* the object after decoding the records *)
}.
Arguments fs_valid {S} _ _.
Arguments fs_bytes {S} _ _.
Arguments fs_start {S} _ _.
Arguments fs_apply {S} _ _ _.

Section Contracts.
Context `{Allocator} {S : Type}.
Implicit Types (descs : list (FieldDescriptor S)) (acc : S).

(** The decoding loop, started on [acc] in front of the bytes [bs], arrives
    behind them with [acc']. *)
Definition decodes (deep : bool) descs acc (bs : blob) (acc' : S) : Prop :=
  forall fuel r rest,
    reader_wf r -> (deep = true -> is_base (ProtoReader.stream_buffer r)) ->
    window (ProtoReader.stream_buffer r) = bs ++ rest ->
    zlen bs + zlen rest < Z.of_nat fuel ->
    exists fuel' r',
      DecodeData_loop fuel descs acc r = DecodeData_loop fuel' descs acc' r'
      /\ reader_wf r'
      /\ ProtoReader.stream_buffer r' = consume (ProtoReader.stream_buffer r) (zlen bs)
      /\ zlen rest < Z.of_nat fuel'.

Definition finds descs (d : FieldDescriptor S) : Prop :=
  forall r, ProtoReader.field_number r = field_number d ->
            ProtoReader.wire_type r = wire_type d -> FindDescriptor descs r = Some d.

Record FieldOk (deep : bool) (d : FieldDescriptor S) (f : FieldSpec S) : Prop := {
  field_enc o w :
    fs_valid f o -> ProtoWriter.field_number w = field_number d ->
    0 <= Out.room (ProtoWriter.stream_buffer w) ->
    exists fn', encode_function d o w =
      (s ← put (ProtoWriter.stream_buffer w) (fs_bytes f o); Ret (ProtoWriter.mk s fn'));
  field_dec descs o acc :
    finds descs d -> fs_valid f o -> fs_start f acc ->
    decodes deep descs acc (fs_bytes f o) (fs_apply f o acc);
}.

Lemma decodes_nil deep descs acc : decodes deep descs acc [] acc.
Proof.
  intros fuel r rest Hr _ _ Hf. exists fuel, r. rewrite zlen_nil, consume_0 in *.
  repeat split; try done; try apply Hr.
Qed.

Lemma decodes_app deep descs acc acc1 acc2 bs1 bs2 :
  decodes deep descs acc bs1 acc1 -> decodes deep descs acc1 bs2 acc2 ->
  decodes deep descs acc (bs1 ++ bs2) acc2.
Proof.
  intros H1 H2 fuel r rest Hr Hd Hw Hf. rewrite <- app_assoc in Hw.
  destruct (H1 fuel r (bs2 ++ rest)) as (f1 & r1 & E1 & Hr1 & Es1 & Hf1);
    try done; [zlen|].
  destruct (window_consume (ProtoReader.stream_buffer r) bs1 (bs2 ++ rest)) as [_ Hw1];
    [apply Hr|done|].
  destruct (H2 f1 r1 rest) as (f2 & r2 & E2 & Hr2 & Es2 & Hf2); try done.
  - rewrite Es1, is_base_consume. done.
  - by rewrite Es1.
  - zlen.
  - exists f2, r2. split; [congruence|]. split; [done|]. split; [|done].
    by rewrite Es2, Es1, consume_consume, zlen_app.
Qed.

Lemma varint_nonempty v : exists b bs, varint v = b :: bs.
Proof.
  unfold varint, kMaxVarintBytes. cbn [varint_n]. eauto.
Qed.

Lemma tag_bytes_pos fn wt : 1 <= zlen (tag_bytes fn wt).
Proof.
  unfold tag_bytes. destruct (varint_nonempty (wire_tag fn wt)) as (b & bs & ->). zlen.
Qed.

Lemma Done_window r :
  in_wf (ProtoReader.stream_buffer r) -> window (ProtoReader.stream_buffer r) <> [] ->
  ProtoReader.Done r = Ret (false, r).
Proof.
  intros Hwf Hw. unfold ProtoReader.Done, In.Done.
  pose proof (in_wf_bounds _ Hwf). rewrite (window_nil _ Hwf) in Hw.
  destruct (Z.leb_spec (In.end_ (ProtoReader.stream_buffer r))
              (In.pos (ProtoReader.stream_buffer r))); [lia|].
  simpl. by destruct r.
Qed.

(** One record of a known field is one pass of the loop. *)
Lemma decodes_record {T} (c : Codec T) deep okold valid payload descs d acc acc' x old :
  LeafOk c deep okold valid payload -> finds descs d ->
  wire_type d = kWireType c -> is_field_number (field_number d) ->
  valid x -> okold old ->
  (forall r1 r2, codec_Decode c old r1 = Ret (x, r2) ->
                 decode_function d acc r1 = Ret (acc', r2)) ->
  decodes deep descs acc (tag_bytes (field_number d) (kWireType c) ++ payload x) acc'.
Proof.
  intros Hc Hfind Hwt Hfn Hx Hold Hdec fuel r rest Hr Hd Hw Hf.
  pose proof (tag_bytes_pos (field_number d) (kWireType c)) as Hpos.
  destruct fuel as [|fuel]; [zlen|].
  rewrite <- app_assoc in Hw.
  destruct (leaf_dec c deep okold valid payload Hc x old r (field_number d) rest)
    as (r1 & r2 & E1 & En & Et & E2 & Hr2 & Es2); try done.
  exists fuel, r2. split; [|split; [done|split; [done|zlen]]].
  cbn [DecodeData_loop]. rewrite Done_window; [|apply Hr|].
  2: { rewrite Hw. intros E. apply (f_equal zlen) in E. zlen. }
  rewrite outcome_bind_ret, E1, outcome_bind_ret, Hfind by congruence.
  by rewrite (Hdec _ _ E2), outcome_bind_ret.
Qed.

End Contracts.

(** * The codecs meet their contracts *)

Opaque varint.

Section CodecsOk.
Context `{Allocator} (N : Z) (HN : 0 <= N <= 2 ^ 60) (Halloc : alloc_upto N).

Lemma uint_le60 n : 0 <= n <= N -> is_uint 64 n.
Proof using HN. intros. unfold is_uint. lia. Qed.

Definition blob_valid (b : blob) : Prop := zlen b <= N.

Lemma blob_leaf_ok :
  LeafOk blob_codec false (fun _ => True) blob_valid (fun b => varint (zlen b) ++ b).
Proof using HN Halloc.
  split.
  - simpl. unfold WireType.kLengthDelimited. lia.
  - intros b w Hb Hfn Hr. eexists. apply WriteLengthDelimited_put; try done.
    apply uint_le60. unfold blob_valid in Hb. zlen.
  - intros b old r fn rest Hb _ [Hwf Hfs] Hfn _ Hw. unfold blob_valid in Hb.
    assert (Hu : is_uint 64 (zlen b)) by (apply uint_le60; zlen).
    cbn [kWireType blob_codec] in *. rewrite <- app_assoc in Hw.
    eexists _, _. split; [by eapply ReadWireTag_length|]. split; [done|]. split; [done|].
    rewrite app_assoc in Hw.
    destruct (window_consume _ _ _ Hwf Hw) as [Hwf1 Hw1].
    cbn [codec_Decode blob_codec ProtoReader.field_size].
    unfold Blob_Resize. rewrite (proj1 Halloc) by zlen. rewrite orb_true_r.
    unfold guard_that, ProtoReader.ReadLengthDelimited. cbn [ProtoReader.wire_type].
    change (check_that _) with (Ret ()). rewrite !outcome_bind_ret.
    cbn [ProtoReader.stream_buffer]. rewrite (Read_window _ b rest) by done.
    rewrite outcome_bind_ret. split; [done|].
    destruct (window_consume _ _ _ Hwf1 Hw1) as [Hwf2 _].
    split; [by split|]. cbn [ProtoReader.stream_buffer ProtoReader.set_stream].
    rewrite consume_consume. f_equal. rewrite !zlen_app. lia.
Qed.

(** Decoding a varint field into a value the cast preserves. *)
Lemma varint_leaf_ok_gen {T} (c : Codec T) (valid : T -> Prop) (raw : T -> Z) :
  kWireType c = WireType.kVarint ->
  (forall x w, codec_Encode c x w = ProtoWriter.WriteVarint w (raw x)) ->
  (forall x, valid x -> is_uint 64 (raw x)) ->
  (forall x old r r', valid x -> ProtoReader.ReadVarint r = Ret (raw x, r') ->
                      codec_Decode c old r = Ret (x, r')) ->
  LeafOk c false (fun _ => True) valid (fun x => varint (raw x)).
Proof.
  intros Hwt Henc Hraw Hdec. split.
  - rewrite Hwt. unfold WireType.kVarint. lia.
  - intros x w Hx Hfn Hr. rewrite Henc, Hwt. eexists. apply WriteVarint_put; auto.
  - intros x old r fn rest Hx _ [Hwf Hfs] Hfn _ Hw. rewrite Hwt in *.
    destruct (window_consume _ _ _ Hwf Hw) as [Hwf1 Hw1].
    destruct (window_consume _ _ _ Hwf1 Hw1) as [Hwf2 _].
    eexists _, (ProtoReader.mk (consume (consume (ProtoReader.stream_buffer r) _) _)
                  WireType.kVarint fn 0).
    split; [by eapply ReadWireTag_varint|]. split; [done|]. split; [done|].
    split; [|split; [split; [exact Hwf2|]|]].
    + apply Hdec; [done|]. unfold ProtoReader.ReadVarint.
      cbn [ProtoReader.wire_type ProtoReader.stream_buffer].
      change (check_that _) with (Ret ()). rewrite outcome_bind_ret.
      rewrite (DecodeVarint_window _ (raw x) rest) by auto. rewrite outcome_bind_ret.
      reflexivity.
    + cbn. unfold is_uint. lia.
    + cbn [ProtoReader.stream_buffer]. by rewrite consume_consume, <- zlen_app.
Qed.

Lemma varint_leaf_ok w :
  0 <= w <= 64 -> LeafOk (varint_codec w) false (fun _ => True) (is_uint w) varint.
Proof.
  intros Hw. apply (varint_leaf_ok_gen (varint_codec w) (is_uint w) id); try done.
  - intros x Hx. by eapply is_uint_weaken.
  - intros x old r r' Hx Hr. cbn [codec_Decode varint_codec]. rewrite Hr.
    rewrite outcome_bind_ret. unfold id. rewrite uint_small by done.
    by rewrite Z.eqb_refl.
Qed.

Lemma bool_leaf_ok :
  LeafOk bool_codec false (fun _ => True) (fun _ => True) (fun b => varint (Z.b2z b)).
Proof.
  apply (varint_leaf_ok_gen bool_codec (fun _ => True) Z.b2z); try done.
  - intros [] _; unfold is_uint; simpl; lia.
  - intros x old r r' _ Hr. cbn [codec_Decode bool_codec]. rewrite Hr.
    rewrite outcome_bind_ret. by destruct x.
Qed.

(** ** Rows of a descriptor table *)

Definition leaf_spec {S T} (fn : Z) (c : Codec T) (valid : T -> Prop) (payload : T -> blob)
    (get : S -> T) (set : T -> S -> S) : FieldSpec S := {|
  fs_valid o := valid (get o);
  fs_bytes o := tag_bytes fn (kWireType c) ++ payload (get o);
  fs_start _ := True;
  fs_apply o acc := set (get o) acc;
|}.

Lemma leaf_field_ok {S T} fn (c : Codec T) valid payload (get : S -> T) set :
  is_field_number fn -> LeafOk c false (fun _ => True) valid payload ->
  FieldOk false (MakeField fn c get set) (leaf_spec fn c valid payload get set).
Proof.
  intros Hfn Hc. split.
  - intros o w Ho Hw Hr. simpl in *. rewrite <- Hw in *.
    by apply (leaf_enc _ _ _ _ _ Hc).
  - intros descs o acc Hf Ho _.
    eapply (decodes_record c false _ _ _ _ (MakeField fn c get set)
              acc (set (get o) acc) (get o) (get acc)); try done.
    intros r1 r2 E. cbn [decode_function MakeField]. by rewrite E.
Qed.

Definition vector_spec {S T} (fn : Z) (c : Codec T) (valid : T -> Prop)
    (payload : T -> blob) (get : S -> list T) (set : list T -> S -> S) : FieldSpec S := {|
  fs_valid o := Forall valid (get o) /\ zlen (get o) <= N;
  fs_bytes o := concat (map (fun x => tag_bytes fn (kWireType c) ++ payload x) (get o));
  fs_start acc := get acc = [];
  fs_apply o acc := set (get o) acc;
|}.

Lemma encode_elements_put {T} (c : Codec T) valid payload l w :
  LeafOk c false (fun _ => True) valid payload ->
  (forall x w w', codec_Encode c x w = Ret w' ->
     ProtoWriter.field_number w' = ProtoWriter.field_number w) ->
  Forall valid l -> is_field_number (ProtoWriter.field_number w) ->
  0 <= Out.room (ProtoWriter.stream_buffer w) ->
  encode_elements c l w =
    (s ← put (ProtoWriter.stream_buffer w)
           (concat (map (fun x => tag_bytes (ProtoWriter.field_number w) (kWireType c)
                                  ++ payload x) l));
     Ret (ProtoWriter.mk s (ProtoWriter.field_number w))).
Proof.
  intros Hc Hkeep. revert w. induction l as [|x l IH]; intros w Hl Hfn Hr.
  { simpl. by destruct w. }
  inversion Hl as [|? ? Hx Hl']; subst. cbn [encode_elements map concat].
  rewrite put_app. destruct (leaf_enc _ _ _ _ _ Hc x w Hx Hfn Hr) as [fn' E].
  pose proof (Hkeep x w) as Hk. rewrite E in Hk |- *.
  rewrite !outcome_bind_assoc. apply outcome_bind_ext. intros s Es.
  rewrite outcome_bind_ret. rewrite Es in Hk. specialize (Hk _ eq_refl).
  cbn in Hk. subst fn'. rewrite IH; try done. by eapply put_room.
Qed.

Lemma decodes_elements {S T} fn (c : Codec T) valid payload (get : S -> list T) set fresh
    descs l acc :
  is_field_number fn -> LeafOk c false (fun _ => True) valid payload ->
  (forall v o, get (set v o) = v) -> (forall v v' o, set v (set v' o) = set v o) ->
  (forall o, set (get o) o = o) ->
  finds descs (MakeField fn (vector_codec c fresh) get set) ->
  Forall valid l -> zlen (get acc) + zlen l <= N ->
  decodes false descs acc
    (concat (map (fun x => tag_bytes fn (kWireType c) ++ payload x) l))
    (set (get acc ++ l) acc).
Proof using Halloc.
  intros Hfn Hc Hgs Hss Hsg Hf. revert acc. induction l as [|x l IH]; intros acc Hl Hlen.
  { rewrite app_nil_r, Hsg. apply decodes_nil. }
  inversion Hl as [|? ? Hx Hl']; subst. cbn [map concat].
  apply (decodes_app _ _ _ (set (get acc ++ [x]) acc)).
  - eapply (decodes_record c false _ _ _ _ (MakeField fn (vector_codec c fresh) get set)
              acc _ x fresh); try done.
    intros r1 r2 E. cbn [decode_function MakeField vector_codec codec_Decode].
    unfold Vector_Resize. rewrite (proj2 Halloc) by zlen. rewrite orb_true_r.
    unfold guard_that. rewrite outcome_bind_ret, E. done.
  - replace (set (get acc ++ x :: l) acc)
      with (set (get (set (get acc ++ [x]) acc) ++ l) (set (get acc ++ [x]) acc)).
    + apply IH; [done|]. rewrite Hgs. zlen.
    + by rewrite Hgs, Hss, <- app_assoc.
Qed.

Lemma vector_field_ok {S T} fn (c : Codec T) valid payload (get : S -> list T) set fresh :
  is_field_number fn -> LeafOk c false (fun _ => True) valid payload ->
  (forall x w w', codec_Encode c x w = Ret w' ->
     ProtoWriter.field_number w' = ProtoWriter.field_number w) ->
  (forall v o, get (set v o) = v) -> (forall v v' o, set v (set v' o) = set v o) ->
  (forall o, set (get o) o = o) ->
  FieldOk false (MakeField fn (vector_codec c fresh) get set)
                (vector_spec fn c valid payload get set).
Proof using Halloc.
  intros Hfn Hc Hkeep Hgs Hss Hsg. split.
  - intros o w [Ho _] Hw Hr. simpl in *. rewrite <- Hw in *. eexists.
    eapply encode_elements_put; try done; by rewrite Hw.
  - intros descs o acc Hf [Ho Hlen] Hstart.
    cbn [fs_bytes fs_apply fs_start vector_spec] in *.
    replace (get o) with (get acc ++ get o) at 2 by by rewrite Hstart.
    eapply decodes_elements; try done. rewrite Hstart. zlen.
Qed.

Definition optional_spec {S T} (fn : Z) (c : Codec T) (valid : T -> Prop)
    (payload : T -> blob) (get : S -> option T) (set : option T -> S -> S) : FieldSpec S := {|
  fs_valid o := match get o with Some x => valid x | None => True end;
  fs_bytes o := match get o with
                | Some x => tag_bytes fn (kWireType c) ++ payload x
                | None => []
                end;
  fs_start acc := get acc = None;
  fs_apply o acc := set (get o) acc;
|}.

Lemma optional_field_ok {S T} fn (c : Codec T) valid payload (get : S -> option T) set fresh :
  is_field_number fn -> LeafOk c false (fun _ => True) valid payload ->
  (forall o, set (get o) o = o) ->
  FieldOk false (MakeField fn (optional_codec c fresh) get set)
                (optional_spec fn c valid payload get set).
Proof.
  intros Hfn Hc Hsg. split.
  - intros o w Ho Hw Hr. simpl in *. rewrite <- Hw in *.
    destruct (get o) as [x|]; [by apply (leaf_enc _ _ _ _ _ Hc)|].
    exists (ProtoWriter.field_number w). simpl. by destruct w.
  - intros descs o acc Hf Ho Hstart.
    cbn [fs_bytes fs_apply fs_valid fs_start optional_spec] in *.
    destruct (get o) as [x|].
    + eapply (decodes_record c false _ _ _ _ (MakeField fn (optional_codec c fresh) get set)
                acc _ x fresh); try done.
      intros r1 r2 E. cbn [decode_function MakeField optional_codec codec_Decode].
      by rewrite E.
    + rewrite <- Hstart, Hsg. apply decodes_nil.
Qed.

Definition oneof_spec {S T} (fn : Z) (c : Codec T) (valid : T -> Prop)
    (payload : T -> blob) (get : S -> option T) (inj : T -> S -> S) : FieldSpec S := {|
  fs_valid o := match get o with Some x => valid x | None => True end;
  fs_bytes o := match get o with
                | Some x => tag_bytes fn (kWireType c) ++ payload x
                | None => []
                end;
  fs_start _ := True;
  fs_apply o acc := match get o with Some x => inj x acc | None => acc end;
|}.

Lemma oneof_field_ok {S T} fn (c : Codec T) valid payload (get : S -> option T) inj fresh :
  is_field_number fn -> LeafOk c true (fun old => old = fresh) valid payload ->
  FieldOk true (MakeOneOfField fn c get inj fresh) (oneof_spec fn c valid payload get inj).
Proof.
  intros Hfn Hc. split.
  - intros o w Ho Hw Hr. simpl in *. rewrite <- Hw in *.
    destruct (get o) as [x|]; [by apply (leaf_enc _ _ _ _ _ Hc)|].
    exists (ProtoWriter.field_number w). simpl. by destruct w.
  - intros descs o acc Hf Ho _. cbn [fs_bytes fs_apply fs_valid oneof_spec] in *.
    destruct (get o) as [x|]; [|apply decodes_nil].
    eapply (decodes_record c true _ _ _ _ (MakeOneOfField fn c get inj fresh)
              acc _ x fresh); try done.
    intros r1 r2 E. cbn [decode_function MakeOneOfField]. by rewrite E.
Qed.

End CodecsOk.

(** * Messages *)

Section MessageOk.
Context `{Allocator} {S : Type} (deep : bool).
Implicit Types (descs : list (FieldDescriptor S)) (specs : list (FieldSpec S)) (o acc : S).

Definition msg_valid specs o : Prop := Forall (fun f => fs_valid f o) specs.
Definition msg_bytes specs o : blob := concat (map (fun f => fs_bytes f o) specs).

Fixpoint msg_apply specs o acc : S :=
  match specs with
  | [] => acc
  | f :: specs => msg_apply specs o (fs_apply f o acc)
  end.

(** Each field can be decoded into the object its predecessors built. *)
Fixpoint msg_start specs o acc : Prop :=
  match specs with
  | [] => True
  | f :: specs => fs_start f acc /\ msg_start specs o (fs_apply f o acc)
  end.

Definition TableOk descs specs : Prop :=
  Forall2 (FieldOk deep) descs specs /\ Forall (finds descs) descs.

Lemma EncodeData_put descs specs o w :
  Forall2 (FieldOk deep) descs specs -> msg_valid specs o ->
  0 <= Out.room (ProtoWriter.stream_buffer w) ->
  exists fn', EncodeData descs o w =
    (s ← put (ProtoWriter.stream_buffer w) (msg_bytes specs o); Ret (ProtoWriter.mk s fn')).
Proof.
  intros Hds. revert w. induction Hds as [|d f descs specs Hd Hds IH]; intros w Hv Hr.
  { exists (ProtoWriter.field_number w). simpl. by destruct w. }
  inversion Hv as [|? ? Hf Hv']; subst.
  destruct (field_enc deep d f Hd o
              (ProtoWriter.set_field_number w (field_number d))) as [fn1 E]; try done.
  cbn [EncodeData]. rewrite E. unfold msg_bytes. cbn [map concat].
  destruct (put (ProtoWriter.stream_buffer w) (fs_bytes f o)) as [s| |] eqn:Es.
  - destruct (IH (ProtoWriter.mk s fn1) Hv') as [fn2 E2]; [by eapply put_room|].
    exists fn2. cbn [ProtoWriter.stream_buffer ProtoWriter.set_field_number].
    rewrite put_app, Es, !outcome_bind_ret. exact E2.
  - exists 0. cbn [ProtoWriter.stream_buffer ProtoWriter.set_field_number].
    by rewrite put_app, Es.
  - exists 0. cbn [ProtoWriter.stream_buffer ProtoWriter.set_field_number].
    by rewrite put_app, Es.
Qed.

(** [GetSize] computes the length of the encoding. *)
Lemma GetSize_spec descs specs o :
  Forall2 (FieldOk deep) descs specs -> msg_valid specs o ->
  GetSize descs o = Ret (u64 (zlen (msg_bytes specs o))).
Proof.
  intros Hds Hv. unfold GetSize.
  destruct (EncodeData_put descs specs o (ProtoWriter.make Out.make_counting))
    as [fn' ->]; try done.
  destruct (put_counting Out.make_counting 0 (msg_bytes specs o)) as (s & Es & Hs).
  { exists 0. by repeat split. }
  cbn [ProtoWriter.stream_buffer ProtoWriter.make]. rewrite Es, outcome_bind_ret.
  destruct Hs as (n & Hsub & _ & Hn). unfold Out.bytes_written.
  cbn [ProtoWriter.stream_buffer]. by rewrite Hsub, Hn.
Qed.

(** A message inside a record is its tag, its length and its fields. *)
Lemma Encode_put descs specs o w :
  Forall2 (FieldOk deep) descs specs -> msg_valid specs o ->
  is_field_number (ProtoWriter.field_number w) -> is_uint 64 (zlen (msg_bytes specs o)) ->
  0 <= Out.room (ProtoWriter.stream_buffer w) ->
  exists fn', Encode descs o w =
    (s ← put (ProtoWriter.stream_buffer w)
           (tag_bytes (ProtoWriter.field_number w) WireType.kLengthDelimited
            ++ varint (zlen (msg_bytes specs o)) ++ msg_bytes specs o);
     Ret (ProtoWriter.mk s fn')).
Proof.
  intros Hds Hv Hfn Hlen Hr. unfold Encode.
  rewrite (GetSize_spec descs specs) by done. rewrite outcome_bind_ret, uint_small by done.
  rewrite WriteLengthHeader_put by done. rewrite app_assoc.
  set (hd := tag_bytes _ _ ++ varint _). rewrite (put_app _ hd).
  destruct (put (ProtoWriter.stream_buffer w) hd) as [s| |] eqn:Es; [|by exists 0..].
  rewrite !outcome_bind_ret.
  apply (EncodeData_put descs specs o (ProtoWriter.mk s (ProtoWriter.field_number w)));
    [done..|]. by eapply put_room.
Qed.

Lemma decodes_fields all descs specs o acc :
  Forall2 (FieldOk deep) descs specs -> Forall (finds all) descs ->
  msg_valid specs o -> msg_start specs o acc ->
  decodes deep all acc (msg_bytes specs o) (msg_apply specs o acc).
Proof.
  intros Hds. revert acc. induction Hds as [|d f descs specs Hd Hds IH];
    intros acc Hf Hv Hst; [apply decodes_nil|].
  inversion Hf as [|? ? Hf1 Hf2]; inversion Hv as [|? ? Hv1 Hv2]; subst.
  destruct Hst as [Hst1 Hst2]. unfold msg_bytes. cbn [map concat msg_apply].
  eapply decodes_app; [by apply (field_dec deep d f Hd)|by apply IH].
Qed.

Lemma DecodeData_fields descs specs o acc r rest :
  TableOk descs specs -> msg_valid specs o -> msg_start specs o acc ->
  reader_wf r -> (deep = true -> is_base (ProtoReader.stream_buffer r)) ->
  window (ProtoReader.stream_buffer r) = msg_bytes specs o ++ rest -> rest = [] ->
  exists r',
    DecodeData descs acc r =
      ('(_, r'') ← ProtoReader.Done r'; Ret (msg_apply specs o acc, r''))
    /\ reader_wf r'
    /\ ProtoReader.stream_buffer r' =
         consume (ProtoReader.stream_buffer r) (zlen (msg_bytes specs o))
    /\ window (ProtoReader.stream_buffer r') = [].
Proof.
  intros [Hds Hf] Hv Hst Hr Hb Hw ->. unfold DecodeData, decode_fuel.
  pose proof (window_len _ (proj1 Hr)) as Hl. rewrite Hw, app_nil_r in Hl.
  set (fuel0 := Datatypes.S _).
  destruct (decodes_fields descs descs specs o acc Hds Hf Hv Hst fuel0 r [] Hr Hb Hw)
    as (fuel & r' & E & Hr' & Es & Hf').
  { subst fuel0. rewrite zlen_nil, <- Hl. zlen. }
  destruct (window_consume _ _ _ (proj1 Hr) Hw) as [Hwf' Hw'].
  exists r'. rewrite E. split; [|split; [done|split; [done|by rewrite Es]]].
  destruct fuel as [|fuel]; [rewrite zlen_nil in Hf'; lia|]. cbn [DecodeData_loop].
  unfold ProtoReader.Done, In.Done.
  rewrite Es. apply (window_nil _ Hwf') in Hw'. rewrite Hw', Z.leb_refl.
  destruct (Advance_false _ Hwf' Hw') as (s' & -> & _).
  by rewrite !outcome_bind_ret.
Qed.

(** Round trip of a topmost message: decoding the encoding of [o] into [acc]
    yields [o]'s fields over [acc], and consumes the input. *)
Lemma proto_Decode_fields descs specs o acc :
  TableOk descs specs -> msg_valid specs o -> msg_start specs o acc ->
  exists s', proto_Decode descs acc (In.make (msg_bytes specs o)) = Ret (msg_apply specs o acc, s')
             /\ In.Done s' = Ret (true, s').
Proof.
  intros Ht Hv Hst. unfold proto_Decode. set (bs := msg_bytes specs o).
  set (r := ProtoReader.make (In.make bs)).
  assert (Hr : reader_wf r).
  { split; [|by split]. simpl. zlen. }
  assert (Hw : window (ProtoReader.stream_buffer r) = bs ++ []).
  { unfold window, r.
    cbn [ProtoReader.stream_buffer ProtoReader.make In.make In.mem In.pos In.end_].
    by rewrite Z.sub_0_r, slice_all, app_nil_r. }
  destruct (DecodeData_fields descs specs o acc r [] Ht Hv Hst Hr) as (r' & E & Hr' & Es & Hw');
    try done.
  rewrite E. unfold ProtoReader.Done, In.Done.
  assert (Hbase : is_base (ProtoReader.stream_buffer r')) by by rewrite Es, is_base_consume.
  apply (window_nil _ (proj1 Hr')) in Hw'. rewrite Hw', Z.leb_refl.
  destruct (ProtoReader.stream_buffer r') as [m p e|] eqn:Eb; [|done]. cbn in Hw'.
  cbn [In.Advance]. rewrite !outcome_bind_ret. eexists. split; [done|]. cbn.
  by rewrite Hw', Z.leb_refl.
Qed.

(** The nested stream of a record that holds exactly its payload. *)
Lemma make_nested_window m p e n rest bs :
  0 <= p <= e -> e <= zlen m -> window (In.Base m p e) = bs ++ rest -> n = zlen bs ->
  n <= 2 ^ 60 ->
  In.make_nested (In.Base m p e) n = Ret (In.Nested (In.Base m p e) p (p + n) n)
  /\ in_wf (In.Nested (In.Base m p e) p (p + n) n)
  /\ window (In.Nested (In.Base m p e) p (p + n) n) = bs.
Proof.
  intros Hp He Hw -> Hn. assert (Hwf : in_wf (In.Base m p e)) by by split.
  pose proof (window_len _ Hwf) as Hl. rewrite Hw in Hl. cbn in Hl. zlen.
  pose proof (zlen_nonneg rest). pose proof (zlen_nonneg bs).
  unfold In.make_nested, In.ClampEnd. cbn [In.pos In.end_].
  replace (p <=? e) with true by lia. cbn.
  replace (if zlen bs <? e - p then p + zlen bs else e) with (p + zlen bs)
    by (destruct (Z.ltb_spec (zlen bs) (e - p)); lia).
  replace (p <=? p + zlen bs) with true by lia.
  split; [done|]. split; [unfold is_uint; lia|].
  destruct (slice_split m p (e - p) bs rest) as (Hsl & _); try lia; [done|].
  unfold window. cbn [In.mem In.pos In.end_].
  by replace (p + zlen bs - p) with (zlen bs) by lia.
Qed.

(** Round trip of a message inside a record. *)
Lemma Decode_nested descs specs o acc r rest :
  deep = false -> TableOk descs specs -> msg_valid specs o -> msg_start specs o acc ->
  reader_wf r -> is_base (ProtoReader.stream_buffer r) ->
  window (ProtoReader.stream_buffer r) = msg_bytes specs o ++ rest ->
  ProtoReader.field_size r = zlen (msg_bytes specs o) ->
  zlen (msg_bytes specs o) <= 2 ^ 60 ->
  Decode descs acc r =
    Ret (msg_apply specs o acc,
         ProtoReader.set_stream r
           (consume (ProtoReader.stream_buffer r) (zlen (msg_bytes specs o)))).
Proof.
  intros Hdeep Ht Hv Hst Hr Hbase Hw Hfs Hlen. unfold Decode.
  destruct (ProtoReader.stream_buffer r) as [m p e|] eqn:Eb; [|done].
  destruct Hr as [Hwf Hsz]. rewrite Eb in Hwf.
  destruct (make_nested_window m p e (ProtoReader.field_size r) rest (msg_bytes specs o))
    as (En & Hwfn & Hwn); try done; [apply Hwf..|lia|].
  rewrite En, outcome_bind_ret. set (ns := In.Nested _ _ _ _) in *.
  destruct (DecodeData_fields descs specs o acc (ProtoReader.make ns) [] Ht Hv Hst)
    as (r' & E & Hr' & Es & Hw'); try done.
  { by rewrite Hdeep. }
  { cbn [ProtoReader.stream_buffer ProtoReader.make]. by rewrite app_nil_r. }
  rewrite E. unfold ProtoReader.Done, In.Done. rewrite Es.
  cbn [ProtoReader.stream_buffer ProtoReader.make ns consume In.set_pos In.pos In.end_].
  rewrite <- Hfs, Z.leb_refl. cbn [In.Advance In.pos].
  replace (ProtoReader.field_size r - (p + ProtoReader.field_size r - p)) with 0 by lia.
  change (u64 0 =? 0) with true. cbv iota. rewrite !outcome_bind_ret.
  cbn [ProtoReader.stream_buffer ProtoReader.set_stream In.set_pos In.pos In.end_].
  rewrite Z.leb_refl. cbn [In.Advance In.pos].
  rewrite Z.sub_diag. change (u64 (u64 0 - 0) =? 0) with true. cbv iota.
  rewrite !outcome_bind_ret. unfold guard_that. cbn [negb]. rewrite outcome_bind_ret.
  done.
Qed.

End MessageOk.

(** A struct is a codec that meets its contract, read from a flat stream. *)
Lemma struct_leaf_ok `{Allocator} {S} (descs : list (FieldDescriptor S)) specs fresh :
  TableOk false descs specs ->
  (forall o, msg_valid specs o -> msg_start specs o fresh /\ msg_apply specs o fresh = o) ->
  LeafOk (struct_codec descs) true (fun old => old = fresh)
    (fun o => msg_valid specs o /\ zlen (msg_bytes specs o) <= 2 ^ 60)
    (fun o => varint (zlen (msg_bytes specs o)) ++ msg_bytes specs o).
Proof.
  intros Ht Happ. split.
  - simpl. unfold WireType.kLengthDelimited. lia.
  - intros o w [Hv Hlen] Hfn Hr. apply (Encode_put false); try done; [apply Ht|].
    unfold is_uint. zlen.
  - intros o old r fn rest [Hv Hlen] -> Hr Hfn Hb Hw. specialize (Hb eq_refl).
    destruct (Happ o Hv) as [Hst Heq]. cbn [kWireType struct_codec] in *.
    assert (Hu : is_uint 64 (zlen (msg_bytes specs o))) by (unfold is_uint; zlen).
    rewrite <- app_assoc in Hw. eexists _, _.
    split; [eapply ReadWireTag_length; [apply Hr|done..]|]. split; [done|]. split; [done|].
    rewrite app_assoc in Hw. destruct (window_consume _ _ _ (proj1 Hr) Hw) as [Hwf1 Hw1].
    split; [|split].
    + cbn [codec_Decode struct_codec].
      rewrite (Decode_nested false descs specs o fresh _ rest); try done.
      * by rewrite Heq.
      * by apply is_base_consume.
    + destruct (window_consume _ _ _ Hwf1 Hw1) as [Hwf2 _]. by split.
    + cbn [ProtoReader.stream_buffer ProtoReader.set_stream].
      rewrite consume_consume. f_equal. rewrite !zlen_app. lia.
Qed.

(** * Arbitrary input: decoding returns *)

(** A codec is safe if, on any bytes, it returns without leaving the window. *)
Definition CodecSafe {T} (c : Codec T) (deep : bool) : Prop :=
  forall old r, reader_wf r -> ProtoReader.wire_type r = kWireType c ->
    (deep = true -> is_base (ProtoReader.stream_buffer r)) ->
    safe (codec_Decode c old r) (fun '(_, r') => exists n, 0 <= n /\ rreads r n r').

Definition FieldSafe {S} (deep : bool) (d : FieldDescriptor S) : Prop :=
  forall o r, reader_wf r -> ProtoReader.wire_type r = wire_type d ->
    (deep = true -> is_base (ProtoReader.stream_buffer r)) ->
    safe (decode_function d o r) (fun '(_, r') => exists n, 0 <= n /\ rreads r n r').

Lemma rreads_trans r m r1 n r2 : rreads r m r1 -> rreads r1 n r2 -> rreads r (m + n) r2.
Proof. intros [H1 _] [H2 H3]. split; [by eapply reads_trans|done]. Qed.

Section Safety.
Context `{Allocator}.

Lemma ReadVarint_safe r :
  reader_wf r -> ProtoReader.wire_type r = WireType.kVarint ->
  safe (ProtoReader.ReadVarint r)
    (fun '(v, r') => is_uint 64 v /\ exists n, 0 <= n /\ rreads r n r').
Proof.
  intros [Hwf Hfs] Hwt. unfold ProtoReader.ReadVarint. safe_step. safe_step; [lia|].
  safe_step. eapply safe_mono; [by apply DecodeVarint_safe|].
  intros [v s1] (Hv & n & Hn & Hr). simpl. split; [done|]. exists n. split; [lia|].
  split; [done|]. split; [by eapply reads_wf|done].
Qed.

Lemma blob_codec_safe : CodecSafe blob_codec false.
Proof.
  intros old r [Hwf Hfs] Hwt _. cbn [codec_Decode blob_codec kWireType] in *.
  repeat safe_step. unfold ProtoReader.ReadLengthDelimited. safe_step. safe_step; [lia|].
  safe_step. eapply safe_mono; [apply Read_safe; [done|unfold is_uint in *; lia]|].
  intros [bs s1] [_ Hr]. simpl. exists (ProtoReader.field_size r).
  split; [unfold is_uint in *; lia|]. split; [done|]. split; [by eapply reads_wf|done].
Qed.

Lemma varint_codec_safe w : CodecSafe (varint_codec w) false.
Proof.
  intros old r Hr Hwt _. cbn [codec_Decode varint_codec kWireType] in *. safe_step.
  eapply safe_mono; [by apply ReadVarint_safe|]. intros [v r1] [_ Hn]. repeat safe_step.
  done.
Qed.

Lemma bool_codec_safe : CodecSafe bool_codec false.
Proof.
  intros old r Hr Hwt _. cbn [codec_Decode bool_codec kWireType] in *. safe_step.
  eapply safe_mono; [by apply ReadVarint_safe|]. intros [v r1] [_ Hn]. repeat safe_step.
  done.
Qed.

Lemma vector_codec_safe {T} (c : Codec T) fresh deep :
  CodecSafe c deep -> CodecSafe (vector_codec c fresh) deep.
Proof.
  intros Hc old r Hr Hwt Hd. cbn [codec_Decode vector_codec kWireType] in *.
  repeat safe_step. eapply safe_mono; [by apply Hc|]. intros [v r1] Hn. done.
Qed.

Lemma optional_codec_safe {T} (c : Codec T) fresh deep :
  CodecSafe c deep -> CodecSafe (optional_codec c fresh) deep.
Proof.
  intros Hc old r Hr Hwt Hd. cbn [codec_Decode optional_codec kWireType] in *.
  safe_step. eapply safe_mono; [by apply Hc|]. intros [v r1] Hn. done.
Qed.

Lemma MakeField_safe {S T} fn (c : Codec T) (get : S -> T) set deep :
  CodecSafe c deep -> FieldSafe deep (MakeField fn c get set).
Proof.
  intros Hc o r Hr Hwt Hd. cbn [decode_function MakeField wire_type] in *.
  safe_step. eapply safe_mono; [by apply Hc|]. intros [v r1] Hn. done.
Qed.

Lemma MakeOneOfField_safe {S T} fn (c : Codec T) (get : S -> option T) inj fresh deep :
  CodecSafe c deep -> FieldSafe deep (MakeOneOfField fn c get inj fresh).
Proof.
  intros Hc o r Hr Hwt Hd. cbn [decode_function MakeOneOfField wire_type] in *.
  safe_step. eapply safe_mono; [by apply Hc|]. intros [v r1] Hn. done.
Qed.

(** Stream properties that reading and [Done] keep. *)
Record Stable (P : In.t -> Prop) : Prop := {
  stable_wf s : P s -> in_wf s;
  stable_reads s n s' : P s -> reads s n s' -> P s';
  stable_done s : P s -> safe (In.Done s)
    (fun '(d, s') => P s' /\ (d = false -> s' = s /\ In.pos s < In.end_ s));
}.

Lemma FindDescriptor_type {S} (descs : list (FieldDescriptor S)) r d :
  FindDescriptor descs r = Some d ->
  In d descs /\ ProtoReader.wire_type r = wire_type d.
Proof.
  induction descs as [|d' descs IH]; simpl; [done|].
  destruct (_ && _) eqn:E; [intros [= <-]; split; [by left|lia]|].
  intros [? ?]%IH. auto.
Qed.

Lemma DecodeData_loop_safe {S} P deep (descs : list (FieldDescriptor S)) fuel o r :
  Stable P -> (deep = true -> forall s, P s -> is_base s) ->
  Forall (FieldSafe deep) descs -> P (ProtoReader.stream_buffer r) -> reader_wf r ->
  In.end_ (ProtoReader.stream_buffer r) - In.pos (ProtoReader.stream_buffer r)
    < Z.of_nat fuel ->
  safe (DecodeData_loop fuel descs o r)
    (fun '(_, r') => P (ProtoReader.stream_buffer r') /\ reader_wf r').
Proof.
  intros HP Hd Hf. revert o r. induction fuel as [|fuel IH]; intros o r Hs Hr Hfuel.
  { pose proof (in_wf_bounds _ (proj1 Hr)). lia. }
  cbn [DecodeData_loop]. unfold ProtoReader.Done at 1. do 2 safe_step.
  eapply safe_mono; [by apply (stable_done P HP)|]. intros [d s1] [Hs1 Hdf]. simpl.
  destruct d.
  { simpl. split; [done|]. split; [by apply (stable_wf P HP)|apply Hr]. }
  destruct (Hdf eq_refl) as [-> Hlt].
  assert (Hnext : forall o2 r2 n, 1 <= n -> rreads r n r2 ->
    safe (DecodeData_loop fuel descs o2 r2)
      (fun '(_, r') => P (ProtoReader.stream_buffer r') /\ reader_wf r')).
  { intros o2 r2 n Hn [Hrd Hr2]. apply IH; [by eapply (stable_reads P HP)|done|].
    destruct Hrd as [Hb ->]. unfold consume. rewrite pos_set_pos, end_set_pos. lia. }
  safe_step. eapply safe_mono; [apply ReadWireTag_safe; by destruct r|].
  intros r1 (n & Hn & Hrd1). cbn [ProtoReader.stream_buffer ProtoReader.set_stream] in Hrd1.
  destruct (FindDescriptor descs r1) as [d|] eqn:Ef.
  - destruct (FindDescriptor_type _ _ _ Ef) as [Hin Hwt].
    assert (Hds : FieldSafe deep d).
    { eapply List.Forall_forall; done. }
    safe_step. eapply safe_mono; [apply Hds; [apply Hrd1|done|]|].
    + intros Hdeep. apply Hd; [done|]. eapply (stable_reads P HP); [done|apply Hrd1].
    + intros [o2 r2] (n2 & Hn2 & Hrd2). apply (Hnext _ _ (n + n2)); [lia|].
      by eapply rreads_trans.
  - safe_step. eapply safe_mono; [apply SkipField_safe; apply Hrd1|].
    intros r2 (n2 & Hn2 & Hrd2). apply (Hnext _ _ (n + n2)); [lia|].
    by eapply rreads_trans.
Qed.

Lemma DecodeData_safe {S} P deep (descs : list (FieldDescriptor S)) o r :
  Stable P -> (deep = true -> forall s, P s -> is_base s) ->
  Forall (FieldSafe deep) descs -> P (ProtoReader.stream_buffer r) -> reader_wf r ->
  safe (DecodeData descs o r)
    (fun '(_, r') => P (ProtoReader.stream_buffer r') /\ reader_wf r').
Proof.
  intros HP Hd Hf Hs Hr. apply (DecodeData_loop_safe P deep); try done.
  unfold decode_fuel. pose proof (in_wf_bounds _ (proj1 Hr)). lia.
Qed.

(** A flat stream over [m] that ends at [e], behind position [p]. *)
Definition flat_over (m : blob) (p e : Z) (s : In.t) : Prop :=
  exists q, s = In.Base m q e /\ 0 <= p <= q /\ q <= e <= zlen m.

Lemma flat_over_stable m p e : Stable (flat_over m p e).
Proof.
  split.
  - intros s (q & -> & ?). simpl. lia.
  - intros s n s' (q & -> & ?) [Hn ->]. cbn in *. exists (q + n). split; [done|]. lia.
  - intros s (q & -> & ?). unfold In.Done. cbn [In.end_ In.pos].
    destruct (Z.leb_spec e q); simpl; split; try done; exists q; (split; [done|lia]).
Qed.

(** A nested stream over such a stream. *)
Definition nested_over (m : blob) (p e : Z) (s : In.t) : Prop :=
  in_wf s /\ exists d q e' r, s = In.Nested d q e' r /\ flat_over m p e d.

Lemma nested_over_stable m p e : Stable (nested_over m p e).
Proof.
  split.
  - by intros s [? _].
  - intros s n s' [Hwf (d & q & e' & r & -> & Hd)] Hr. split; [by eapply reads_wf|].
    destruct Hr as [_ ->]. cbn. eauto 10.
  - intros s [Hwf (d & q & e' & r & -> & (dq & -> & Hd))]. unfold In.Done.
    cbn [In.end_ In.pos]. destruct (Z.leb_spec e' q).
    + destruct (Advance_false (In.Nested (In.Base m dq e) q e' r) Hwf) as (s' & E & Hwf').
      { cbn in *. lia. }
      rewrite E. simpl. split; [|done]. split; [done|].
      cbn [In.Advance In.pos] in E. destruct (_ =? 0) eqn:?.
      * injection E as <-. cbn in *. eexists _, _, _, _. split; [done|].
        exists e'. split; [done|]. lia.
      * rewrite outcome_bind_ret in E.
        apply outcome_bind_Ret_inv in E as (e2 & _ & [= <-]).
        eexists _, _, _, _. split; [done|]. exists dq. split; [done|]. lia.
    + simpl. split; [|done]. split; [done|]. eexists _, _, _, _. split; [done|].
      by exists dq.
Qed.

Lemma struct_codec_safe {S} (descs : list (FieldDescriptor S)) :
  Forall (FieldSafe false) descs -> CodecSafe (struct_codec descs) true.
Proof.
  intros Hf old r [Hwf Hfs] _ Hb. specialize (Hb eq_refl).
  cbn [codec_Decode struct_codec]. unfold Decode.
  destruct (ProtoReader.stream_buffer r) as [m p e|] eqn:Es; [|done]. cbn in Hwf.
  unfold In.make_nested, In.ClampEnd. cbn [In.pos In.end_].
  replace (p <=? e) with true by lia. cbn.
  set (e' := if _ <? _ then _ else _).
  assert (He' : p <= e' <= e /\ e' - p <= ProtoReader.field_size r).
  { subst e'. unfold is_uint in *. destruct (Z.ltb_spec (ProtoReader.field_size r) (e - p)); lia. }
  replace (p <=? e') with true by lia. cbn [check_that]. rewrite !outcome_bind_ret.
  set (ns := In.Nested _ _ _ _).
  assert (Hns : nested_over m p e ns).
  { split; [cbn; intuition lia|]. eexists _, _, _, _. split; [done|].
    exists p. split; [done|]. lia. }
  safe_step. eapply safe_mono.
  { apply (DecodeData_safe (nested_over m p e) false); try done; [apply nested_over_stable|].
    split; [apply Hns|by split]. }
  intros [o r1] [Hs1 _]. safe_step. unfold ProtoReader.Done. safe_step.
  eapply safe_mono; [by apply (stable_done _ (nested_over_stable m p e))|].
  intros [d s2] [Hs2 _]. repeat safe_step. simpl.
  destruct Hs2 as [Hwf2 (d2 & q & e2 & rr & -> & (dq & -> & Hdq))].
  exists (dq - p). split; [lia|]. split.
  - rewrite Es. split; [cbn; lia|]. unfold consume. cbn. f_equal. lia.
  - split; [cbn; lia|done].
Qed.

(** Decoding a topmost message from arbitrary bytes returns. *)
Lemma proto_Decode_safe {S} (descs : list (FieldDescriptor S)) o bs :
  Forall (FieldSafe true) descs ->
  safe (proto_Decode descs o (In.make bs)) (fun '(_, s) => flat_over bs 0 (zlen bs) s).
Proof.
  intros Hf. unfold proto_Decode. safe_step.
  assert (Hflat : flat_over bs 0 (zlen bs) (In.make bs)).
  { exists 0. split; [done|]. zlen. }
  eapply safe_mono.
  { apply (DecodeData_safe (flat_over bs 0 (zlen bs)) true); try done.
    - apply flat_over_stable.
    - by intros _ s (q & -> & _).
    - split; [|by split]. by eapply stable_wf; [apply flat_over_stable|]. }
  by intros [o1 r1] [Hs _].
Qed.

End Safety.
