(* ===== verification/NvramMessages.v ===== *)
(** * NvramMessages: the request and response messages
      (src/nvram/messages/nvram_messages.cpp,
       include/nvram/messages/nvram_messages.h)

    The structs of the NVRAM protocol with their descriptor tables, and the
    exported [Encode] (to a blob, to a buffer) and [Decode].  The theorems
    show that every well-formed [Request] and [Response] survives the wire,
    that encoding into a buffer succeeds exactly when the message fits, and
    that decoding arbitrary bytes never aborts. *)
From S2P Require Import Prelude NvramIo NvramCodec.

(** ** hardware/nvram_defs.h

    The constants of the HAL header, which is not part of this tree.
    [nvram_control_t] and [nvram_result_t] are unsigned integers of
    [control_bits] and [result_bits] bits. *)
Class NvramDefs := {
  control_bits : Z;
  result_bits : Z;
  NV_CONTROL_PERSISTENT_WRITE_LOCK : Z;
  NV_CONTROL_BOOT_WRITE_LOCK : Z;
  NV_CONTROL_BOOT_READ_LOCK : Z;
  NV_CONTROL_WRITE_AUTHORIZATION : Z;
  NV_CONTROL_READ_AUTHORIZATION : Z;
  NV_CONTROL_WRITE_EXTEND : Z;
  NV_RESULT_SUCCESS : Z;
  NV_RESULT_INTERNAL_ERROR : Z;
  NV_RESULT_ACCESS_DENIED : Z;
  NV_RESULT_INVALID_PARAMETER : Z;
  NV_RESULT_SPACE_DOES_NOT_EXIST : Z;
  NV_RESULT_SPACE_ALREADY_EXISTS : Z;
  NV_RESULT_OPERATION_DISABLED : Z;
}.

(** The controls are the members of the HAL's enumeration. *)
Definition all_controls `{NvramDefs} : list Z :=
  [NV_CONTROL_PERSISTENT_WRITE_LOCK; NV_CONTROL_BOOT_WRITE_LOCK;
   NV_CONTROL_BOOT_READ_LOCK; NV_CONTROL_WRITE_AUTHORIZATION;
   NV_CONTROL_READ_AUTHORIZATION; NV_CONTROL_WRITE_EXTEND].

Definition all_results `{NvramDefs} : list Z :=
  [NV_RESULT_SUCCESS; NV_RESULT_INTERNAL_ERROR; NV_RESULT_ACCESS_DENIED;
   NV_RESULT_INVALID_PARAMETER; NV_RESULT_SPACE_DOES_NOT_EXIST;
   NV_RESULT_SPACE_ALREADY_EXISTS; NV_RESULT_OPERATION_DISABLED].

(** What the code relies on: the types fit a varint, the enumerators are
    distinct, and the controls are bit positions of a [uint32_t] mask. *)
Class NvramDefsOk `{NvramDefs} : Prop := {
  control_bits_ok : 5 <= control_bits <= 64;
  result_bits_ok : 3 <= result_bits <= 64;
  controls_ok : Forall (is_uint 5) all_controls;
  controls_distinct : NoDup all_controls;
  results_ok : Forall (is_uint result_bits) all_results;
  results_distinct : NoDup all_results;
}.

(** Every error code differs from success. *)
Lemma errors_not_success `{NvramDefsOk} r : r ∈ tail all_results -> r <> NV_RESULT_SUCCESS.
Proof.
  intros Hr ->. pose proof results_distinct as Hd. unfold all_results in *.
  by inversion Hd.
Qed.

Ltac error_code :=
  apply errors_not_success; unfold all_results; cbn [tail]; rewrite !elem_of_cons; tauto.

(** ** Messages *)

Inductive Command :=
| COMMAND_GET_INFO | COMMAND_CREATE_SPACE | COMMAND_GET_SPACE_INFO
| COMMAND_DELETE_SPACE | COMMAND_DISABLE_CREATE | COMMAND_WRITE_SPACE
| COMMAND_READ_SPACE | COMMAND_LOCK_SPACE_WRITE | COMMAND_LOCK_SPACE_READ
| COMMAND_WIPE_STORAGE | COMMAND_DISABLE_WIPE.

Record GetInfoRequest := mkGetInfoRequest {}.

Record GetInfoResponse := mkGetInfoResponse {
  gir_total_size : Z;
  gir_available_size : Z;
  gir_max_space_size : Z;
  gir_max_spaces : Z;
  gir_space_list : list Z;
  gir_wipe_disabled : bool;
}.

Record CreateSpaceRequest := mkCreateSpaceRequest {
  csr_index : Z;
  csr_size : Z;
  csr_controls : list Z;
  csr_authorization_value : blob;
}.

Record CreateSpaceResponse := mkCreateSpaceResponse {}.

Record GetSpaceInfoRequest := mkGetSpaceInfoRequest { gsi_index : Z }.

Record GetSpaceInfoResponse := mkGetSpaceInfoResponse {
  gsr_size : Z;
  gsr_controls : list Z;
  gsr_read_locked : bool;
  gsr_write_locked : bool;
}.

Record DeleteSpaceRequest := mkDeleteSpaceRequest {
  dsr_index : Z;
  dsr_authorization_value : blob;
}.

Record DeleteSpaceResponse := mkDeleteSpaceResponse {}.
Record DisableCreateRequest := mkDisableCreateRequest {}.
Record DisableCreateResponse := mkDisableCreateResponse {}.

Record WriteSpaceRequest := mkWriteSpaceRequest {
  wsr_index : Z;
  wsr_buffer : blob;
  wsr_authorization_value : blob;
}.

Record WriteSpaceResponse := mkWriteSpaceResponse {}.

Record ReadSpaceRequest := mkReadSpaceRequest {
  rsr_index : Z;
  rsr_authorization_value : blob;
}.

Record ReadSpaceResponse := mkReadSpaceResponse { rsp_buffer : blob }.

Record LockSpaceWriteRequest := mkLockSpaceWriteRequest {
  lsw_index : Z;
  lsw_authorization_value : blob;
}.

Record LockSpaceWriteResponse := mkLockSpaceWriteResponse {}.

Record LockSpaceReadRequest := mkLockSpaceReadRequest {
  lsr_index : Z;
  lsr_authorization_value : blob;
}.

Record LockSpaceReadResponse := mkLockSpaceReadResponse {}.
Record WipeStorageRequest := mkWipeStorageRequest {}.
Record WipeStorageResponse := mkWipeStorageResponse {}.
Record DisableWipeRequest := mkDisableWipeRequest {}.
Record DisableWipeResponse := mkDisableWipeResponse {}.

(** [RequestUnion] and [ResponseUnion]: one constructor per [Command]. *)
Inductive RequestUnion :=
| GetInfoReq (m : GetInfoRequest)
| CreateSpaceReq (m : CreateSpaceRequest)
| GetSpaceInfoReq (m : GetSpaceInfoRequest)
| DeleteSpaceReq (m : DeleteSpaceRequest)
| DisableCreateReq (m : DisableCreateRequest)
| WriteSpaceReq (m : WriteSpaceRequest)
| ReadSpaceReq (m : ReadSpaceRequest)
| LockSpaceWriteReq (m : LockSpaceWriteRequest)
| LockSpaceReadReq (m : LockSpaceReadRequest)
| WipeStorageReq (m : WipeStorageRequest)
| DisableWipeReq (m : DisableWipeRequest).

Inductive ResponseUnion :=
| GetInfoResp (m : GetInfoResponse)
| CreateSpaceResp (m : CreateSpaceResponse)
| GetSpaceInfoResp (m : GetSpaceInfoResponse)
| DeleteSpaceResp (m : DeleteSpaceResponse)
| DisableCreateResp (m : DisableCreateResponse)
| WriteSpaceResp (m : WriteSpaceResponse)
| ReadSpaceResp (m : ReadSpaceResponse)
| LockSpaceWriteResp (m : LockSpaceWriteResponse)
| LockSpaceReadResp (m : LockSpaceReadResponse)
| WipeStorageResp (m : WipeStorageResponse)
| DisableWipeResp (m : DisableWipeResponse).

Record Request := mkRequest { req_payload : RequestUnion }.

Record Response := mkResponse { resp_result : Z; resp_payload : ResponseUnion }.

(** [TaggedUnion::which]. *)
Definition which (p : RequestUnion) : Command :=
  match p with
  | GetInfoReq _ => COMMAND_GET_INFO
  | CreateSpaceReq _ => COMMAND_CREATE_SPACE
  | GetSpaceInfoReq _ => COMMAND_GET_SPACE_INFO
  | DeleteSpaceReq _ => COMMAND_DELETE_SPACE
  | DisableCreateReq _ => COMMAND_DISABLE_CREATE
  | WriteSpaceReq _ => COMMAND_WRITE_SPACE
  | ReadSpaceReq _ => COMMAND_READ_SPACE
  | LockSpaceWriteReq _ => COMMAND_LOCK_SPACE_WRITE
  | LockSpaceReadReq _ => COMMAND_LOCK_SPACE_READ
  | WipeStorageReq _ => COMMAND_WIPE_STORAGE
  | DisableWipeReq _ => COMMAND_DISABLE_WIPE
  end.

(** Value-initialised messages. *)
Definition GetInfoResponse_init := mkGetInfoResponse 0 0 0 0 [] false.
Definition CreateSpaceRequest_init := mkCreateSpaceRequest 0 0 [] [].
Definition GetSpaceInfoRequest_init := mkGetSpaceInfoRequest 0.
Definition GetSpaceInfoResponse_init := mkGetSpaceInfoResponse 0 [] false false.
Definition DeleteSpaceRequest_init := mkDeleteSpaceRequest 0 [].
Definition WriteSpaceRequest_init := mkWriteSpaceRequest 0 [] [].
Definition ReadSpaceRequest_init := mkReadSpaceRequest 0 [].
Definition ReadSpaceResponse_init := mkReadSpaceResponse [].
Definition LockSpaceWriteRequest_init := mkLockSpaceWriteRequest 0 [].
Definition LockSpaceReadRequest_init := mkLockSpaceReadRequest 0 [].
Definition Request_init := mkRequest (GetInfoReq mkGetInfoRequest).
Definition Response_init `{NvramDefs} :=
  mkResponse NV_RESULT_SUCCESS (GetInfoResp GetInfoResponse_init).

(** ** Descriptor tables *)
Section Descriptors.
Context `{Allocator} `{NvramDefs}.

Definition GetInfoRequest_fields : list (FieldDescriptor GetInfoRequest) := [].

Definition GetInfoResponse_fields : list (FieldDescriptor GetInfoResponse) := [
  MakeField 1 (varint_codec 64) gir_total_size
    (fun v '(mkGetInfoResponse _ a m n l d) => mkGetInfoResponse v a m n l d);
  MakeField 2 (varint_codec 64) gir_available_size
    (fun v '(mkGetInfoResponse t _ m n l d) => mkGetInfoResponse t v m n l d);
  MakeField 3 (varint_codec 32) gir_max_spaces
    (fun v '(mkGetInfoResponse t a m _ l d) => mkGetInfoResponse t a m v l d);
  MakeField 4 (vector_codec (varint_codec 32) 0) gir_space_list
    (fun v '(mkGetInfoResponse t a m n _ d) => mkGetInfoResponse t a m n v d);
  MakeField 5 (varint_codec 64) gir_max_space_size
    (fun v '(mkGetInfoResponse t a _ n l d) => mkGetInfoResponse t a v n l d);
  MakeField 6 bool_codec gir_wipe_disabled
    (fun v '(mkGetInfoResponse t a m n l _) => mkGetInfoResponse t a m n l v)].

Definition CreateSpaceRequest_fields : list (FieldDescriptor CreateSpaceRequest) := [
  MakeField 1 (varint_codec 32) csr_index
    (fun v '(mkCreateSpaceRequest _ s c a) => mkCreateSpaceRequest v s c a);
  MakeField 2 (varint_codec 64) csr_size
    (fun v '(mkCreateSpaceRequest i _ c a) => mkCreateSpaceRequest i v c a);
  MakeField 3 (vector_codec (varint_codec control_bits) 0) csr_controls
    (fun v '(mkCreateSpaceRequest i s _ a) => mkCreateSpaceRequest i s v a);
  MakeField 4 blob_codec csr_authorization_value
    (fun v '(mkCreateSpaceRequest i s c _) => mkCreateSpaceRequest i s c v)].

Definition CreateSpaceResponse_fields : list (FieldDescriptor CreateSpaceResponse) := [].

Definition GetSpaceInfoRequest_fields : list (FieldDescriptor GetSpaceInfoRequest) := [
  MakeField 1 (varint_codec 32) gsi_index (fun v _ => mkGetSpaceInfoRequest v)].

Definition GetSpaceInfoResponse_fields : list (FieldDescriptor GetSpaceInfoResponse) := [
  MakeField 1 (varint_codec 64) gsr_size
    (fun v '(mkGetSpaceInfoResponse _ c r w) => mkGetSpaceInfoResponse v c r w);
  MakeField 2 (vector_codec (varint_codec control_bits) 0) gsr_controls
    (fun v '(mkGetSpaceInfoResponse s _ r w) => mkGetSpaceInfoResponse s v r w);
  MakeField 3 bool_codec gsr_read_locked
    (fun v '(mkGetSpaceInfoResponse s c _ w) => mkGetSpaceInfoResponse s c v w);
  MakeField 4 bool_codec gsr_write_locked
    (fun v '(mkGetSpaceInfoResponse s c r _) => mkGetSpaceInfoResponse s c r v)].

Definition DeleteSpaceRequest_fields : list (FieldDescriptor DeleteSpaceRequest) := [
  MakeField 1 (varint_codec 32) dsr_index
    (fun v '(mkDeleteSpaceRequest _ a) => mkDeleteSpaceRequest v a);
  MakeField 2 blob_codec dsr_authorization_value
    (fun v '(mkDeleteSpaceRequest i _) => mkDeleteSpaceRequest i v)].

Definition DeleteSpaceResponse_fields : list (FieldDescriptor DeleteSpaceResponse) := [].
Definition DisableCreateRequest_fields : list (FieldDescriptor DisableCreateRequest) := [].
Definition DisableCreateResponse_fields : list (FieldDescriptor DisableCreateResponse) := [].

Definition WriteSpaceRequest_fields : list (FieldDescriptor WriteSpaceRequest) := [
  MakeField 1 (varint_codec 32) wsr_index
    (fun v '(mkWriteSpaceRequest _ b a) => mkWriteSpaceRequest v b a);
  MakeField 2 blob_codec wsr_buffer
    (fun v '(mkWriteSpaceRequest i _ a) => mkWriteSpaceRequest i v a);
  MakeField 3 blob_codec wsr_authorization_value
    (fun v '(mkWriteSpaceRequest i b _) => mkWriteSpaceRequest i b v)].

Definition WriteSpaceResponse_fields : list (FieldDescriptor WriteSpaceResponse) := [].

Definition ReadSpaceRequest_fields : list (FieldDescriptor ReadSpaceRequest) := [
  MakeField 1 (varint_codec 32) rsr_index
    (fun v '(mkReadSpaceRequest _ a) => mkReadSpaceRequest v a);
  MakeField 2 blob_codec rsr_authorization_value
    (fun v '(mkReadSpaceRequest i _) => mkReadSpaceRequest i v)].

Definition ReadSpaceResponse_fields : list (FieldDescriptor ReadSpaceResponse) := [
  MakeField 1 blob_codec rsp_buffer (fun v _ => mkReadSpaceResponse v)].

Definition LockSpaceWriteRequest_fields : list (FieldDescriptor LockSpaceWriteRequest) := [
  MakeField 1 (varint_codec 32) lsw_index
    (fun v '(mkLockSpaceWriteRequest _ a) => mkLockSpaceWriteRequest v a);
  MakeField 2 blob_codec lsw_authorization_value
    (fun v '(mkLockSpaceWriteRequest i _) => mkLockSpaceWriteRequest i v)].

Definition LockSpaceWriteResponse_fields : list (FieldDescriptor LockSpaceWriteResponse) := [].

Definition LockSpaceReadRequest_fields : list (FieldDescriptor LockSpaceReadRequest) := [
  MakeField 1 (varint_codec 32) lsr_index
    (fun v '(mkLockSpaceReadRequest _ a) => mkLockSpaceReadRequest v a);
  MakeField 2 blob_codec lsr_authorization_value
    (fun v '(mkLockSpaceReadRequest i _) => mkLockSpaceReadRequest i v)].

Definition LockSpaceReadResponse_fields : list (FieldDescriptor LockSpaceReadResponse) := [].
Definition WipeStorageRequest_fields : list (FieldDescriptor WipeStorageRequest) := [].
Definition WipeStorageResponse_fields : list (FieldDescriptor WipeStorageResponse) := [].
Definition DisableWipeRequest_fields : list (FieldDescriptor DisableWipeRequest) := [].
Definition DisableWipeResponse_fields : list (FieldDescriptor DisableWipeResponse) := [].

Definition Request_fields : list (FieldDescriptor Request) := [
  MakeOneOfField 1 (struct_codec GetInfoRequest_fields)
    (fun r => match req_payload r with GetInfoReq m => Some m | _ => None end)
    (fun m _ => mkRequest (GetInfoReq m)) mkGetInfoRequest;
  MakeOneOfField 2 (struct_codec CreateSpaceRequest_fields)
    (fun r => match req_payload r with CreateSpaceReq m => Some m | _ => None end)
    (fun m _ => mkRequest (CreateSpaceReq m)) CreateSpaceRequest_init;
  MakeOneOfField 3 (struct_codec GetSpaceInfoRequest_fields)
    (fun r => match req_payload r with GetSpaceInfoReq m => Some m | _ => None end)
    (fun m _ => mkRequest (GetSpaceInfoReq m)) GetSpaceInfoRequest_init;
  MakeOneOfField 4 (struct_codec DeleteSpaceRequest_fields)
    (fun r => match req_payload r with DeleteSpaceReq m => Some m | _ => None end)
    (fun m _ => mkRequest (DeleteSpaceReq m)) DeleteSpaceRequest_init;
  MakeOneOfField 5 (struct_codec DisableCreateRequest_fields)
    (fun r => match req_payload r with DisableCreateReq m => Some m | _ => None end)
    (fun m _ => mkRequest (DisableCreateReq m)) mkDisableCreateRequest;
  MakeOneOfField 6 (struct_codec WriteSpaceRequest_fields)
    (fun r => match req_payload r with WriteSpaceReq m => Some m | _ => None end)
    (fun m _ => mkRequest (WriteSpaceReq m)) WriteSpaceRequest_init;
  MakeOneOfField 7 (struct_codec ReadSpaceRequest_fields)
    (fun r => match req_payload r with ReadSpaceReq m => Some m | _ => None end)
    (fun m _ => mkRequest (ReadSpaceReq m)) ReadSpaceRequest_init;
  MakeOneOfField 8 (struct_codec LockSpaceWriteRequest_fields)
    (fun r => match req_payload r with LockSpaceWriteReq m => Some m | _ => None end)
    (fun m _ => mkRequest (LockSpaceWriteReq m)) LockSpaceWriteRequest_init;
  MakeOneOfField 9 (struct_codec LockSpaceReadRequest_fields)
    (fun r => match req_payload r with LockSpaceReadReq m => Some m | _ => None end)
    (fun m _ => mkRequest (LockSpaceReadReq m)) LockSpaceReadRequest_init;
  MakeOneOfField 10 (struct_codec WipeStorageRequest_fields)
    (fun r => match req_payload r with WipeStorageReq m => Some m | _ => None end)
    (fun m _ => mkRequest (WipeStorageReq m)) mkWipeStorageRequest;
  MakeOneOfField 11 (struct_codec DisableWipeRequest_fields)
    (fun r => match req_payload r with DisableWipeReq m => Some m | _ => None end)
    (fun m _ => mkRequest (DisableWipeReq m)) mkDisableWipeRequest].

Definition Response_fields : list (FieldDescriptor Response) := [
  MakeField 1 (varint_codec result_bits) resp_result
    (fun v '(mkResponse _ p) => mkResponse v p);
  MakeOneOfField 2 (struct_codec GetInfoResponse_fields)
    (fun r => match resp_payload r with GetInfoResp m => Some m | _ => None end)
    (fun m r => mkResponse (resp_result r) (GetInfoResp m)) GetInfoResponse_init;
  MakeOneOfField 3 (struct_codec CreateSpaceResponse_fields)
    (fun r => match resp_payload r with CreateSpaceResp m => Some m | _ => None end)
    (fun m r => mkResponse (resp_result r) (CreateSpaceResp m)) mkCreateSpaceResponse;
  MakeOneOfField 4 (struct_codec GetSpaceInfoResponse_fields)
    (fun r => match resp_payload r with GetSpaceInfoResp m => Some m | _ => None end)
    (fun m r => mkResponse (resp_result r) (GetSpaceInfoResp m)) GetSpaceInfoResponse_init;
  MakeOneOfField 5 (struct_codec DeleteSpaceResponse_fields)
    (fun r => match resp_payload r with DeleteSpaceResp m => Some m | _ => None end)
    (fun m r => mkResponse (resp_result r) (DeleteSpaceResp m)) mkDeleteSpaceResponse;
  MakeOneOfField 6 (struct_codec DisableCreateResponse_fields)
    (fun r => match resp_payload r with DisableCreateResp m => Some m | _ => None end)
    (fun m r => mkResponse (resp_result r) (DisableCreateResp m)) mkDisableCreateResponse;
  MakeOneOfField 7 (struct_codec WriteSpaceResponse_fields)
    (fun r => match resp_payload r with WriteSpaceResp m => Some m | _ => None end)
    (fun m r => mkResponse (resp_result r) (WriteSpaceResp m)) mkWriteSpaceResponse;
  MakeOneOfField 8 (struct_codec ReadSpaceResponse_fields)
    (fun r => match resp_payload r with ReadSpaceResp m => Some m | _ => None end)
    (fun m r => mkResponse (resp_result r) (ReadSpaceResp m)) ReadSpaceResponse_init;
  MakeOneOfField 9 (struct_codec LockSpaceWriteResponse_fields)
    (fun r => match resp_payload r with LockSpaceWriteResp m => Some m | _ => None end)
    (fun m r => mkResponse (resp_result r) (LockSpaceWriteResp m)) mkLockSpaceWriteResponse;
  MakeOneOfField 10 (struct_codec LockSpaceReadResponse_fields)
    (fun r => match resp_payload r with LockSpaceReadResp m => Some m | _ => None end)
    (fun m r => mkResponse (resp_result r) (LockSpaceReadResp m)) mkLockSpaceReadResponse;
  MakeOneOfField 11 (struct_codec WipeStorageResponse_fields)
    (fun r => match resp_payload r with WipeStorageResp m => Some m | _ => None end)
    (fun m r => mkResponse (resp_result r) (WipeStorageResp m)) mkWipeStorageResponse;
  MakeOneOfField 12 (struct_codec DisableWipeResponse_fields)
    (fun r => match resp_payload r with DisableWipeResp m => Some m | _ => None end)
    (fun m r => mkResponse (resp_result r) (DisableWipeResp m)) mkDisableWipeResponse].

End Descriptors.

(** ** Exported coders *)
Section Coders.
Context `{Allocator} {S : Type} (fields : list (FieldDescriptor S)).

(** [Encode(const Message&, Blob* )], into a blob of [size] bytes. *)
Definition Encode_blob (msg : S) (size : Z) : outcome blob :=
  stream ← proto_Encode fields msg (Out.make_blob size);
  Out.Truncate stream.

(** [Encode(const Message&, void*, size_t* )]: the bytes written to the
    buffer of [size] bytes, and the new [*size]. *)
Definition Encode_buffer (msg : S) (size : Z) : outcome (blob * Z) :=
  stream ← proto_Encode fields msg (Out.make_array size);
  Ret (Out.written stream, Out.bytes_written stream).

(** [Decode(const uint8_t*, size_t, Message* )], into [msg]. *)
Definition Decode_message (data : blob) (msg : S) : outcome S :=
  '(msg, stream) ← proto_Decode fields msg (In.make data);
  '(done, _) ← In.Done stream;
  _ ← guard_that done;
  Ret msg.

End Coders.

(** * Structs meet their contracts *)

Section StructOk.
Context `{Allocator} {S : Type}.
Implicit Types (fields : list (FieldDescriptor S)).

(** A table that carries every [valid] object over the wire into an object
    that satisfies [start], in at most [bound] bytes. *)
Definition StructOk (deep : bool) fields (start valid : S -> Prop) (bound : Z) : Prop :=
  exists specs, TableOk deep fields specs
    /\ (forall o init, start init -> msg_start specs o init /\ msg_apply specs o init = o)
    /\ (forall o, valid o -> msg_valid specs o /\ zlen (msg_bytes specs o) <= bound).

Lemma LeafOk_weaken {T} (c : Codec T) deep okold (valid valid' : T -> Prop) payload :
  LeafOk c deep okold valid payload -> (forall x, valid' x -> valid x) ->
  LeafOk c deep okold valid' payload.
Proof.
  intros Hc Hv. split; [apply (leaf_wt _ _ _ _ _ Hc)|..].
  - intros. eapply leaf_enc; eauto.
  - intros. eapply leaf_dec; eauto.
Qed.

Lemma struct_ok_leaf fields init valid bound :
  StructOk false fields (fun o => o = init) valid bound -> bound <= 2 ^ 60 ->
  exists payload, LeafOk (struct_codec fields) true (fun old => old = init) valid payload
    /\ forall o, valid o -> zlen (payload o) <= bound + 10.
Proof.
  intros (specs & Ht & Hs & Hv) Hb.
  exists (fun o => varint (zlen (msg_bytes specs o)) ++ msg_bytes specs o). split.
  - eapply LeafOk_weaken; [apply struct_leaf_ok; auto|]. intros o Ho.
    destruct (Hv o Ho). split; [done|lia].
  - intros o Ho. destruct (Hv o Ho). pose proof (varint_len (zlen (msg_bytes specs o))). zlen.
Qed.

Lemma Encode_blob_ok deep fields start valid bound o size :
  StructOk deep fields start valid bound -> valid o ->
  0 <= bound <= 2 ^ 60 -> alloc_upto (2 * bound + 32) -> 0 <= size ->
  exists bs, Encode_blob fields o size = Ret bs /\ zlen bs <= bound
    /\ (forall init, start init -> Decode_message fields bs init = Ret o).
Proof.
  intros (specs & Ht & Hs & Hv) Ho Hb Ha Hsize. destruct (Hv o Ho) as [Hm Hl].
  exists (msg_bytes specs o). split; [|split; [done|]].
  - unfold Encode_blob, proto_Encode.
    destruct (EncodeData_put deep fields specs o (ProtoWriter.make (Out.make_blob size)))
      as [fn' ->]; [apply Ht|done..|].
    destruct (put_blob (Out.make_blob size) (msg_bytes specs o) bound) as (s' & E & _ & Ew);
      [exists size; repeat split; simpl; zlen|simpl; zlen|lia|done|].
    cbn [ProtoWriter.make ProtoWriter.stream_buffer]. rewrite E, !outcome_bind_ret.
    cbn [ProtoWriter.stream_buffer]. unfold Out.Truncate. rewrite Ew. simpl app.
    unfold Blob_Resize. rewrite (proj1 Ha) by zlen. by rewrite orb_true_r.
  - intros init Hi. destruct (Hs o init Hi) as [Hst Happ]. unfold Decode_message.
    destruct (proto_Decode_fields deep fields specs o init Ht Hm Hst) as (s' & -> & Hd).
    by rewrite outcome_bind_ret, Hd, Happ.
Qed.

(** Encoding into a buffer: it succeeds exactly when the bytes fit. *)
Lemma Encode_buffer_ok deep fields start valid bound o :
  StructOk deep fields start valid bound -> valid o ->
  exists bs, zlen bs <= bound
    /\ (forall size, 0 <= size -> Encode_buffer fields o size =
          if zlen bs <=? size then Ret (bs, zlen bs) else Fail)
    /\ (forall init, start init -> Decode_message fields bs init = Ret o).
Proof.
  intros (specs & Ht & Hs & Hv) Ho. destruct (Hv o Ho) as [Hm Hl].
  exists (msg_bytes specs o). split; [done|]. split.
  - intros size Hsize. unfold Encode_buffer, proto_Encode.
    destruct (EncodeData_put deep fields specs o (ProtoWriter.make (Out.make_array size)))
      as [fn' ->]; [apply Ht|done..|].
    cbn [ProtoWriter.make ProtoWriter.stream_buffer]. rewrite put_array by done.
    cbn [Out.room Out.make_array]. by destruct (_ <=? _).
  - intros init Hi. destruct (Hs o init Hi) as [Hst Happ]. unfold Decode_message.
    destruct (proto_Decode_fields deep fields specs o init Ht Hm Hst) as (s' & -> & Hd).
    by rewrite outcome_bind_ret, Hd, Happ.
Qed.

Lemma Decode_message_safe fields data init :
  Forall (FieldSafe true) fields -> Decode_message fields data init <> Abort.
Proof.
  intros Hf. apply (safe_returns _ (fun _ => True)). unfold Decode_message. safe_step.
  eapply safe_mono; [by apply proto_Decode_safe|]. intros [o s] Hs. safe_step.
  eapply safe_mono; [by apply (stable_done _ (flat_over_stable data 0 (zlen data)))|].
  intros [d s'] _. by repeat safe_step.
Qed.

End StructOk.

(** Writing a varint record leaves the field number alone. *)
Lemma varint_codec_keeps `{Allocator} bits x w w' :
  codec_Encode (varint_codec bits) x w = Ret w' ->
  ProtoWriter.field_number w' = ProtoWriter.field_number w.
Proof.
  cbn [codec_Encode varint_codec]. unfold ProtoWriter.WriteVarint, ProtoWriter.WriteWireTag.
  intros (w1 & (s1 & _ & [= <-])%outcome_bind_Ret_inv & E)%outcome_bind_Ret_inv.
  by apply outcome_bind_Ret_inv in E as (s2 & _ & [= <-]).
Qed.

Lemma FieldOk_deep `{Allocator} {S} (d : FieldDescriptor S) f :
  FieldOk false d f -> FieldOk true d f.
Proof.
  intros Hf. split; [apply (field_enc _ _ _ Hf)|]. intros descs o acc H1 H2 H3 fuel r rest Hr _.
  by apply (field_dec _ _ _ Hf descs o acc H1 H2 H3).
Qed.

Lemma FieldSafe_deep {S} (d : FieldDescriptor S) : FieldSafe false d -> FieldSafe true d.
Proof. intros Hd o r Hr Hw _. by apply Hd. Qed.

(** Every row is the first one its field number and wire type select. *)
Ltac table_finds :=
  repeat (apply List.Forall_cons;
          [ let r := fresh "r" in let Hn := fresh in let Ht := fresh in
            intros r Hn Ht;
            cbn [FindDescriptor field_number wire_type MakeField MakeOneOfField kWireType
                 varint_codec bool_codec blob_codec vector_codec optional_codec
                 struct_codec] in *;
            rewrite Hn, Ht; reflexivity | ]);
  apply List.Forall_nil.

Ltac leaf_ok :=
  first [ apply varint_leaf_ok; lia | apply bool_leaf_ok
        | eapply blob_leaf_ok; [eassumption | eassumption] ].

Ltac row_ok :=
  first [ apply leaf_field_ok; [unfold is_field_number; lia | leaf_ok]
        | eapply vector_field_ok; [eassumption | unfold is_field_number; lia | leaf_ok
            | apply varint_codec_keeps | by intros ? [] | by intros ? ? [] | by intros []]
        | eapply optional_field_ok; [unfold is_field_number; lia | leaf_ok | by intros []] ].

Ltac table_rows := repeat (apply List.Forall2_cons; [row_ok|]); apply List.Forall2_nil.

(** Sizes of encodings: tags and varints take at most ten bytes. *)
Lemma elements_len {T} fn wt (payload : T -> blob) b l :
  0 <= b -> Forall (fun x => zlen (payload x) <= b) l ->
  zlen (concat (map (fun x => tag_bytes fn wt ++ payload x) l)) <= (10 + b) * zlen l.
Proof.
  intros Hb. pose proof (tag_bytes_len fn wt).
  induction 1 as [|x l Hx _ IH]; cbn [map concat]; zlen.
Qed.

Lemma varint_elements_len fn wt l :
  zlen (concat (map (fun x => tag_bytes fn wt ++ varint x) l)) <= 20 * zlen l.
Proof. apply (elements_len _ _ _ 10); [lia|]. apply List.Forall_forall. intros. apply varint_len. Qed.

Ltac bound_bytes :=
  repeat match goal with
         | |- context [zlen (concat (map (fun x => tag_bytes ?fn ?wt ++ varint x) ?l))] =>
             pose proof (varint_elements_len fn wt l);
             generalize dependent (zlen (concat (map (fun x => tag_bytes fn wt ++ varint x) l)));
             intros
         | |- context [zlen (varint ?v)] =>
             pose proof (varint_len v); generalize dependent (zlen (varint v)); intros
         | |- context [zlen (tag_bytes ?fn ?wt)] =>
             pose proof (tag_bytes_len fn wt); generalize dependent (zlen (tag_bytes fn wt));
             intros
         end.

Ltac struct_table :=
  lazymatch goal with
  | |- StructOk _ ?fields _ _ _ => let h := get_head fields in unfold h
  end;
  eexists; split; [split; [table_rows | table_finds]|].


(** ** Well-formed messages

    Integers in the range of their types, and vectors and blobs of at most
    [N] elements. *)
Section Valid.
Context `{NvramDefs} (N : Z).

Definition short {A} (l : list A) : Prop := zlen l <= N.

Definition request_ok (r : Request) : Prop :=
  match req_payload r with
  | CreateSpaceReq m =>
      is_uint 32 (csr_index m) /\ is_uint 64 (csr_size m)
      /\ Forall (is_uint control_bits) (csr_controls m) /\ short (csr_controls m)
      /\ short (csr_authorization_value m)
  | GetSpaceInfoReq m => is_uint 32 (gsi_index m)
  | DeleteSpaceReq m => is_uint 32 (dsr_index m) /\ short (dsr_authorization_value m)
  | WriteSpaceReq m =>
      is_uint 32 (wsr_index m) /\ short (wsr_buffer m) /\ short (wsr_authorization_value m)
  | ReadSpaceReq m => is_uint 32 (rsr_index m) /\ short (rsr_authorization_value m)
  | LockSpaceWriteReq m => is_uint 32 (lsw_index m) /\ short (lsw_authorization_value m)
  | LockSpaceReadReq m => is_uint 32 (lsr_index m) /\ short (lsr_authorization_value m)
  | _ => True
  end.

Definition response_ok (r : Response) : Prop :=
  is_uint result_bits (resp_result r) /\
  match resp_payload r with
  | GetInfoResp m =>
      is_uint 64 (gir_total_size m) /\ is_uint 64 (gir_available_size m)
      /\ is_uint 64 (gir_max_space_size m) /\ is_uint 32 (gir_max_spaces m)
      /\ Forall (is_uint 32) (gir_space_list m) /\ short (gir_space_list m)
  | GetSpaceInfoResp m =>
      is_uint 64 (gsr_size m) /\ Forall (is_uint control_bits) (gsr_controls m)
      /\ short (gsr_controls m)
  | ReadSpaceResp m => short (rsp_buffer m)
  | _ => True
  end.

End Valid.

(** The remaining goals of a [StructOk] proof: the fields are decoded in
    place, and the encoding is as long as its fields. *)
Ltac struct_fields :=
  split; [ intros [] ? ->; done |];
  let o := fresh "o" in let Hv := fresh "Hv" in
  intros o Hv; hnf in Hv; cbn [resp_result resp_payload] in Hv; unfold short in Hv; split;
  [ repeat (apply List.Forall_cons; [cbn [fs_valid leaf_spec vector_spec optional_spec];
      first [exact Hv | unfold blob_valid; intuition auto]|]);
    apply List.Forall_nil
  | unfold msg_bytes; cbn [map concat fs_bytes leaf_spec vector_spec optional_spec];
    autorewrite with zlen; bound_bytes; intuition lia ].

Section MessagesOk.
Context `{Allocator} `{NvramDefsOk} (N : Z) (HN : 0 <= N <= 2 ^ 60) (Halloc : alloc_upto N).

Lemma empty_struct_ok {S} (init : S) :
  (forall o, o = init) -> StructOk false [] (fun o => o = init) (fun _ => True) 0.
Proof.
  intros Hu. exists []. split; [by split|]. split; [intros o ? ->; by rewrite (Hu o)|].
  intros o _. split; [apply List.Forall_nil|done].
Qed.

Lemma CreateSpaceRequest_ok :
  StructOk false CreateSpaceRequest_fields (fun o => o = CreateSpaceRequest_init)
    (fun m => request_ok N (mkRequest (CreateSpaceReq m))) (21 * N + 60).
Proof using All. pose proof control_bits_ok. struct_table. struct_fields. Qed.

Lemma GetSpaceInfoRequest_ok :
  StructOk false GetSpaceInfoRequest_fields (fun o => o = GetSpaceInfoRequest_init)
    (fun m => request_ok N (mkRequest (GetSpaceInfoReq m))) 20.
Proof. struct_table. struct_fields. Qed.

Lemma DeleteSpaceRequest_ok :
  StructOk false DeleteSpaceRequest_fields (fun o => o = DeleteSpaceRequest_init)
    (fun m => request_ok N (mkRequest (DeleteSpaceReq m))) (N + 40).
Proof using HN Halloc. struct_table. struct_fields. Qed.

Lemma WriteSpaceRequest_ok :
  StructOk false WriteSpaceRequest_fields (fun o => o = WriteSpaceRequest_init)
    (fun m => request_ok N (mkRequest (WriteSpaceReq m))) (2 * N + 60).
Proof using HN Halloc. struct_table. struct_fields. Qed.

Lemma ReadSpaceRequest_ok :
  StructOk false ReadSpaceRequest_fields (fun o => o = ReadSpaceRequest_init)
    (fun m => request_ok N (mkRequest (ReadSpaceReq m))) (N + 40).
Proof using HN Halloc. struct_table. struct_fields. Qed.

Lemma LockSpaceWriteRequest_ok :
  StructOk false LockSpaceWriteRequest_fields (fun o => o = LockSpaceWriteRequest_init)
    (fun m => request_ok N (mkRequest (LockSpaceWriteReq m))) (N + 40).
Proof using HN Halloc. struct_table. struct_fields. Qed.

Lemma LockSpaceReadRequest_ok :
  StructOk false LockSpaceReadRequest_fields (fun o => o = LockSpaceReadRequest_init)
    (fun m => request_ok N (mkRequest (LockSpaceReadReq m))) (N + 40).
Proof using HN Halloc. struct_table. struct_fields. Qed.

Lemma GetInfoResponse_ok :
  StructOk false GetInfoResponse_fields (fun o => o = GetInfoResponse_init)
    (fun m => response_ok N (mkResponse NV_RESULT_SUCCESS (GetInfoResp m))) (20 * N + 100).
Proof using HN Halloc. struct_table. struct_fields. Qed.

Lemma GetSpaceInfoResponse_ok :
  StructOk false GetSpaceInfoResponse_fields (fun o => o = GetSpaceInfoResponse_init)
    (fun m => response_ok N (mkResponse NV_RESULT_SUCCESS (GetSpaceInfoResp m))) (20 * N + 60).
Proof using All. pose proof control_bits_ok. struct_table. struct_fields. Qed.

Lemma ReadSpaceResponse_ok :
  StructOk false ReadSpaceResponse_fields (fun o => o = ReadSpaceResponse_init)
    (fun m => response_ok N (mkResponse NV_RESULT_SUCCESS (ReadSpaceResp m))) (N + 20).
Proof using HN Halloc. struct_table. struct_fields. Qed.


(** The payload of a one-of row, from the contract of its struct. *)
Ltac oneof_leaf L :=
  let p := fresh "payload" in let Hl := fresh "Hleaf" in let Hb := fresh "Hbound" in
  destruct (struct_ok_leaf _ _ _ _ L) as (p & Hl & Hb); [lia|].

Ltac oneof_rows :=
  repeat (apply List.Forall2_cons;
    [first [ eapply oneof_field_ok; [unfold is_field_number; lia | eassumption]
           | apply FieldOk_deep; row_ok ]|]);
  apply List.Forall2_nil.

Ltac oneof_table :=
  lazymatch goal with
  | |- StructOk _ ?fields _ _ _ => let h := get_head fields in unfold h
  end;
  eexists; split; [split; [oneof_rows | table_finds]|].

(** The bytes of the one active member. *)
Ltac oneof_len Hv :=
  cbn [app]; rewrite ?app_nil_r; autorewrite with zlen; bound_bytes;
  match goal with
  | H : forall o, _ -> zlen (?p o) <= _ |- context [?p ?m] =>
      let Hm := fresh in
      assert (Hm := H m ltac:(first [exact I | exact Hv])); lia
  end.

Lemma Request_ok :
  N <= 2 ^ 50 ->
  StructOk true Request_fields (fun _ => True) (request_ok N) (21 * N + 80).
Proof using All.
  intros HN'.
  oneof_leaf (empty_struct_ok mkGetInfoRequest (fun '(mkGetInfoRequest) => eq_refl)).
  oneof_leaf CreateSpaceRequest_ok.
  oneof_leaf GetSpaceInfoRequest_ok.
  oneof_leaf DeleteSpaceRequest_ok.
  oneof_leaf (empty_struct_ok mkDisableCreateRequest (fun '(mkDisableCreateRequest) => eq_refl)).
  oneof_leaf WriteSpaceRequest_ok.
  oneof_leaf ReadSpaceRequest_ok.
  oneof_leaf LockSpaceWriteRequest_ok.
  oneof_leaf LockSpaceReadRequest_ok.
  oneof_leaf (empty_struct_ok mkWipeStorageRequest (fun '(mkWipeStorageRequest) => eq_refl)).
  oneof_leaf (empty_struct_ok mkDisableWipeRequest (fun '(mkDisableWipeRequest) => eq_refl)).
  oneof_table. split.
  - intros [[]] [] _; by cbn.
  - intros [p] Hv. split.
    + repeat (apply List.Forall_cons; [cbn; destruct p; try exact I; exact Hv|]).
      apply List.Forall_nil.
    + unfold msg_bytes. cbn [map concat fs_bytes oneof_spec req_payload].
      destruct p; oneof_len Hv.
Qed.

Lemma Response_ok :
  N <= 2 ^ 50 ->
  StructOk true Response_fields (fun _ => True) (response_ok N) (20 * N + 140).
Proof using All.
  intros HN'. pose proof result_bits_ok as Hbits.
  oneof_leaf GetInfoResponse_ok.
  oneof_leaf (empty_struct_ok mkCreateSpaceResponse (fun '(mkCreateSpaceResponse) => eq_refl)).
  oneof_leaf GetSpaceInfoResponse_ok.
  oneof_leaf (empty_struct_ok mkDeleteSpaceResponse (fun '(mkDeleteSpaceResponse) => eq_refl)).
  oneof_leaf (empty_struct_ok mkDisableCreateResponse (fun '(mkDisableCreateResponse) => eq_refl)).
  oneof_leaf (empty_struct_ok mkWriteSpaceResponse (fun '(mkWriteSpaceResponse) => eq_refl)).
  oneof_leaf ReadSpaceResponse_ok.
  oneof_leaf (empty_struct_ok mkLockSpaceWriteResponse (fun '(mkLockSpaceWriteResponse) => eq_refl)).
  oneof_leaf (empty_struct_ok mkLockSpaceReadResponse (fun '(mkLockSpaceReadResponse) => eq_refl)).
  oneof_leaf (empty_struct_ok mkWipeStorageResponse (fun '(mkWipeStorageResponse) => eq_refl)).
  oneof_leaf (empty_struct_ok mkDisableWipeResponse (fun '(mkDisableWipeResponse) => eq_refl)).
  oneof_table. split.
  - intros [res []] [] _; by cbn.
  - intros [res p] [Hres Hp]. assert (Hv : response_ok N (mkResponse NV_RESULT_SUCCESS p)).
    { split; [|done]. pose proof results_ok as Hr. by inversion Hr. }
    split.
    + repeat (apply List.Forall_cons; [cbn; first [exact Hres | destruct p; try exact I; exact Hv]|]).
      apply List.Forall_nil.
    + unfold msg_bytes. cbn [map concat fs_bytes oneof_spec leaf_spec resp_payload resp_result].
      destruct p; oneof_len Hv.
Qed.

End MessagesOk.

(** ** Arbitrary input *)

Section MessagesSafe.
Context `{Allocator} `{NvramDefs}.

Create HintDb codec_safe.
#[local] Hint Resolve blob_codec_safe varint_codec_safe bool_codec_safe vector_codec_safe
  MakeField_safe : codec_safe.

Ltac fields_safe :=
  repeat (apply List.Forall_cons;
    [first [ apply MakeOneOfField_safe, struct_codec_safe; fields_safe
           | solve [auto with codec_safe]
           | apply FieldSafe_deep; solve [auto with codec_safe] ]|]);
  apply List.Forall_nil.

Lemma Request_fields_safe : Forall (FieldSafe true) Request_fields.
Proof. fields_safe. Qed.

Lemma Response_fields_safe : Forall (FieldSafe true) Response_fields.
Proof. fields_safe. Qed.

End MessagesSafe.

(** ** Concrete parameters for witnesses *)

(** An allocator that grants requests up to a limit. *)
Definition bounded_allocator (limit : Z) : Allocator := {|
  blob_alloc_ok n := n <=? limit;
  vector_alloc_ok n := n <=? limit;
|}.

Lemma bounded_allocator_upto limit n : n <= limit -> @alloc_upto (bounded_allocator limit) n.
Proof. intros Hn. split; simpl; intros; lia. Qed.

(** Some numbering of the HAL's enumerators. *)
Definition sample_defs : NvramDefs := {|
  control_bits := 32; result_bits := 32;
  NV_CONTROL_PERSISTENT_WRITE_LOCK := 1; NV_CONTROL_BOOT_WRITE_LOCK := 2;
  NV_CONTROL_BOOT_READ_LOCK := 3; NV_CONTROL_WRITE_AUTHORIZATION := 4;
  NV_CONTROL_READ_AUTHORIZATION := 5; NV_CONTROL_WRITE_EXTEND := 6;
  NV_RESULT_SUCCESS := 0; NV_RESULT_INTERNAL_ERROR := 1; NV_RESULT_ACCESS_DENIED := 2;
  NV_RESULT_INVALID_PARAMETER := 3; NV_RESULT_SPACE_DOES_NOT_EXIST := 4;
  NV_RESULT_SPACE_ALREADY_EXISTS := 5; NV_RESULT_OPERATION_DISABLED := 6;
|}.

#[export] Instance sample_defs_ok : @NvramDefsOk sample_defs.
Proof.
  split; first [cbn; lia | apply (bool_decide_unpack _); vm_compute; exact I].
Qed.

(** * Properties *)

(** C22: Every well-formed request survives the wire: encoding it into a blob
    succeeds, and decoding the bytes yields the request, whatever the object
    decoded into held before. *)
Theorem Request_roundtrip `{Allocator} `{NvramDefsOk} N r size old :
  0 <= N <= 2 ^ 50 -> alloc_upto (64 * N + 512) -> request_ok N r -> 0 <= size ->
  exists bs, Encode_blob Request_fields r size = Ret bs
             /\ Decode_message Request_fields bs old = Ret r.
Proof.
  intros HN Ha Hr Hs.
  destruct (Encode_blob_ok true Request_fields (fun _ => True) (request_ok N) (21 * N + 80)
              r size) as (bs & E & _ & Hd); try done; [|lia| |eauto].
  - apply Request_ok; [lia| |lia]. eapply alloc_upto_mono; [exact Ha|lia].
  - eapply alloc_upto_mono; [exact Ha|lia].
Qed.

Lemma Request_roundtrip_witness :
  let A := bounded_allocator 4096 in
  let r := mkRequest (WriteSpaceReq (mkWriteSpaceRequest 7 [1; 2; 3] [9])) in
  exists bs,
    Encode_blob (@Request_fields A sample_defs) r 0 = Ret bs
    /\ Decode_message (@Request_fields A sample_defs) bs Request_init = Ret r.
Proof.
  intros A r.
  apply (@Request_roundtrip (bounded_allocator 4096) sample_defs sample_defs_ok 32).
  - lia.
  - apply bounded_allocator_upto. lia.
  - cbn. unfold is_uint, short, zlen. simpl. lia.
  - lia.
Defined.

(** C36: Every well-formed response has a wire form of bounded length that
    [Encode] writes into a buffer exactly when the buffer is large enough (it
    returns [false] otherwise, and never writes past the end), and that
    decodes to the response. *)
Theorem Response_buffer_roundtrip `{Allocator} `{NvramDefsOk} N r :
  0 <= N <= 2 ^ 50 -> alloc_upto N -> response_ok N r ->
  exists bs, zlen bs <= 20 * N + 140
    /\ (forall size, 0 <= size -> Encode_buffer Response_fields r size =
          if zlen bs <=? size then Ret (bs, zlen bs) else Fail)
    /\ (forall old, Decode_message Response_fields bs old = Ret r).
Proof.
  intros HN Ha Hr.
  destruct (Encode_buffer_ok true Response_fields (fun _ => True) (response_ok N)
              (20 * N + 140) r) as (bs & Hl & He & Hd); try done; [|by eauto].
  apply Response_ok; [lia|done|lia].
Qed.

Lemma Response_buffer_roundtrip_witness :
  let A := bounded_allocator 4096 in
  let r := mkResponse 0 (GetSpaceInfoResp (mkGetSpaceInfoResponse 16 [2; 4] false true)) in
  exists bs, zlen bs <= 20 * 32 + 140
    /\ (forall size, 0 <= size -> Encode_buffer (@Response_fields A sample_defs) r size =
          if zlen bs <=? size then Ret (bs, zlen bs) else Fail)
    /\ (forall old, Decode_message (@Response_fields A sample_defs) bs old = Ret r).
Proof.
  intros A r.
  apply (@Response_buffer_roundtrip A sample_defs sample_defs_ok 32 r).
  - lia.
  - apply bounded_allocator_upto. lia.
  - unfold r, response_ok, short, is_uint, zlen. cbn.
    split; [lia|]. split; [lia|]. split; [|lia].
    apply (bool_decide_unpack _). vm_compute. exact I.
Defined.

(** C23: Decoding a request or a response from arbitrary bytes returns: no
    [NVRAM_CHECK] fires, no byte outside the input is read, and the decoding
    loop terminates. *)
Theorem Decode_total `{Allocator} `{NvramDefs} data req resp :
  Decode_message Request_fields data req <> Abort
  /\ Decode_message Response_fields data resp <> Abort.
Proof.
  split; apply Decode_message_safe;
    [apply Request_fields_safe | apply Response_fields_safe].
Qed.

(** A payload record whose bytes are all missing is accepted: a request
    that announces a [CreateSpaceRequest] of five bytes and then ends decodes
    as a request with an empty [CreateSpaceRequest]. *)
Theorem Decode_truncated_payload `{Allocator} `{NvramDefs} old :
  Decode_message Request_fields [18; 5] old
  = Ret (mkRequest (CreateSpaceReq CreateSpaceRequest_init)).
Proof. vm_compute. reflexivity. Qed.
