(* ===== verification/NvramStorage.v ===== *)
(** * NvramStorage: the platform storage layer
      (src/nvram/core/include/nvram/core/storage.h,
       src/nvram/hal/memory_storage.cpp)

    [Storage] is the interface of storage.h, whose implementation belongs to
    the platform; [StorageOk] states what its comments promise.  The in-memory
    implementation of the HAL is modelled in [MemoryStorage] and shown to keep
    these promises while memory lasts. *)
From S2P Require Import Prelude NvramIo.

(** ** The interface *)

Inductive Status := kSuccess | kNotFound | kStorageError.

#[export] Instance Status_eq_dec : EqDecision Status.
Proof. solve_decision. Defined.

(** The operations of storage.h on the state [D] of a device.  The first
    argument says whether the medium fails during the call. *)
Class Storage (D : Type) := {
  storage_LoadHeader : bool -> D -> Status * blob;
  storage_StoreHeader : bool -> D -> blob -> Status * D;
  storage_LoadSpace : bool -> D -> Z -> Status * blob;
  storage_StoreSpace : bool -> D -> Z -> blob -> Status * D;
  storage_DeleteSpace : bool -> D -> Z -> Status * D;
}.

(** A load yields the data of the last store, possibly with trailing bytes;
    it reports absence only of absent data, and errors only of the medium. *)
Definition load_law (fault : bool) (stored : option blob) (r : Status * blob) : Prop :=
  match r with
  | (kSuccess, b) => exists s junk, stored = Some s /\ b = s ++ junk
  | (kNotFound, _) => stored = None
  | (kStorageError, _) => fault = true
  end.

(** The number of spaces every device holds.  storage.h gives no number; this
    is that of the memory storage, and what the manager needs. *)
Definition device_spaces : nat := 32.

(** The promises of storage.h for blobs of up to [limit] bytes, in terms of
    what a device has [stored]. *)
Class StorageOk (D : Type) `{Storage D} (limit : Z) := {
  storage_wf : D -> Prop;
  stored_header : D -> option blob;
  stored_space : D -> Z -> option blob;
  load_header_law f d : storage_wf d -> load_law f (stored_header d) (storage_LoadHeader f d);
  load_space_law f d i :
    storage_wf d -> load_law f (stored_space d i) (storage_LoadSpace f d i);
  store_header_law f d b :
    storage_wf d -> 0 < zlen b <= limit ->
    let '(st, d') := storage_StoreHeader f d b in
    storage_wf d' /\ (forall i, stored_space d' i = stored_space d i)
    /\ (st = kSuccess /\ stored_header d' = Some b
        \/ st = kStorageError /\ f = true /\ stored_header d' = stored_header d);
  store_space_law f d i b :
    storage_wf d -> 0 < zlen b <= limit ->
    let '(st, d') := storage_StoreSpace f d i b in
    storage_wf d' /\ stored_header d' = stored_header d
    /\ (st = kSuccess
        /\ (forall j, stored_space d' j = if decide (j = i) then Some b else stored_space d j)
        \/ st = kStorageError
           /\ (f = true \/ exists l : list Z, NoDup l /\ length l = device_spaces /\ (i ∉ l)
                                     /\ Forall (fun j => is_Some (stored_space d j)) l)
           /\ (forall j, stored_space d' j = stored_space d j));
  delete_space_law f d i :
    storage_wf d ->
    let '(st, d') := storage_DeleteSpace f d i in
    storage_wf d' /\ stored_header d' = stored_header d
    /\ (st <> kStorageError
        /\ (forall j, stored_space d' j = if decide (j = i) then None else stored_space d j)
        \/ st = kStorageError /\ f = true
           /\ (forall j, stored_space d' j = stored_space d j));
}.

(** ** The in-memory implementation *)
Module MemoryStorage.

(** A [StorageSlot] is its [blob_]; a slot is present if it is not empty. *)
Definition present (slot : blob) : bool := negb (zlen slot =? 0).

Record t := mk {
  g_header : blob;
  g_spaces : list (Z * blob);   (* index, slot *)
}.

Definition kMaxSpaces : nat := 32.

(** The state at program start. *)
Definition init : t := mk [] (replicate kMaxSpaces (0, [])).

Section WithAllocator.
Context `{Allocator}.

(** [StorageSlot::Load]. *)
Definition Slot_Load (slot : blob) : Status * blob :=
  if negb (present slot) then (kNotFound, [])
  else match Blob_Assign slot with
       | Ret b => (kSuccess, b)
       | _ => (kStorageError, [])
       end.

(** [StorageSlot::Store]: [Blob::Assign] frees the old data first. *)
Definition Slot_Store (b : blob) : Status * blob :=
  match Blob_Assign b with
  | Ret b => (kSuccess, b)
  | _ => (kStorageError, [])
  end.

(** [StorageSlot::Delete]. *)
Definition Slot_Delete (slot : blob) : Status * blob :=
  if Blob_Resize 0 then (kSuccess, []) else (kStorageError, slot).

(** [FindSpaceSlot]: the position of the first present slot for [index]. *)
Definition FindSpaceSlot (index : Z) (spaces : list (Z * blob)) : option nat :=
  fst <$> list_find (fun s : Z * blob => Is_true (present (snd s) && (fst s =? index))) spaces.

(** The first slot without data. *)
Definition FindFreeSlot (spaces : list (Z * blob)) : option nat :=
  fst <$> list_find (fun s : Z * blob => Is_true (negb (present (snd s)))) spaces.

Definition slot_at (d : t) (n : nat) : blob :=
  match g_spaces d !! n with Some (_, s) => s | None => [] end.

Definition set_slot (d : t) (n : nat) (index : Z) (slot : blob) : t :=
  mk (g_header d) (<[n := (index, slot)]> (g_spaces d)).

Definition LoadHeader (d : t) : Status * blob := Slot_Load (g_header d).

Definition StoreHeader (d : t) (b : blob) : Status * t :=
  let '(st, slot) := Slot_Store b in (st, mk slot (g_spaces d)).

Definition LoadSpace (d : t) (index : Z) : Status * blob :=
  match FindSpaceSlot index (g_spaces d) with
  | Some n => Slot_Load (slot_at d n)
  | None => (kNotFound, [])
  end.

Definition StoreSpace (d : t) (index : Z) (b : blob) : Status * t :=
  match FindSpaceSlot index (g_spaces d) with
  | Some n => let '(st, slot) := Slot_Store b in (st, set_slot d n index slot)
  | None =>
      match FindFreeSlot (g_spaces d) with
      | Some n => let '(st, slot) := Slot_Store b in (st, set_slot d n index slot)
      | None => (kStorageError, d)
      end
  end.

Definition DeleteSpace (d : t) (index : Z) : Status * t :=
  match FindSpaceSlot index (g_spaces d) with
  | Some n => let '(_, slot) := Slot_Delete (slot_at d n) in (kSuccess, set_slot d n index slot)
  | None => (kSuccess, d)
  end.

(** The interface; main memory has no faults of its own. *)
#[global] Instance memory_storage : Storage t := {|
  storage_LoadHeader _ d := LoadHeader d;
  storage_StoreHeader _ d b := StoreHeader d b;
  storage_LoadSpace _ d i := LoadSpace d i;
  storage_StoreSpace _ d i b := StoreSpace d i b;
  storage_DeleteSpace _ d i := DeleteSpace d i;
|}.

End WithAllocator.
End MemoryStorage.

(** * MemoryStorage keeps the promises *)
Module Mem := MemoryStorage.

Section MemoryOk.
Context `{Allocator} (limit : Z) (Halloc : alloc_upto limit).
Implicit Types (l : list (Z * blob)) (d : Mem.t).

(** No two present slots share an index, and every blob fits the limit. *)
Definition slots_unique l : Prop :=
  forall a b i x y, l !! a = Some (i, x) -> l !! b = Some (i, y) ->
    x <> [] -> y <> [] -> a = b.

Definition mem_wf d : Prop :=
  length (Mem.g_spaces d) = Mem.kMaxSpaces /\ slots_unique (Mem.g_spaces d)
  /\ zlen (Mem.g_header d) <= limit
  /\ Forall (fun s => zlen (snd s) <= limit) (Mem.g_spaces d).

Definition slot_data (slot : blob) : option blob :=
  if Mem.present slot then Some slot else None.

Definition mem_space d (i : Z) : option blob :=
  match Mem.FindSpaceSlot i (Mem.g_spaces d) with
  | Some n => Some (Mem.slot_at d n)
  | None => None
  end.

Lemma present_spec slot : Mem.present slot = true <-> slot <> [].
Proof.
  unfold Mem.present. rewrite negb_true_iff, Z.eqb_neq. split.
  - by intros Hz ->.
  - intros Hs Hz. by apply zlen_0 in Hz.
Qed.

Lemma find_slot_Some i l n :
  slots_unique l ->
  Mem.FindSpaceSlot i l = Some n <-> exists x, l !! n = Some (i, x) /\ x <> [].
Proof.
  intros Hu. unfold Mem.FindSpaceSlot. rewrite fmap_Some. split.
  - intros ([n' [j x]] & (Hn & Hp & _)%list_find_Some & ->). simpl in *.
    apply Is_true_eq_true, andb_true_iff in Hp as [Hp%present_spec Hj%Z.eqb_eq].
    subst. eauto.
  - intros (x & Hn & Hx). exists (n, (i, x)). split; [|done].
    apply list_find_Some. split; [done|]. split.
    + apply Is_true_eq_left, andb_true_iff. simpl. split; [by apply present_spec|lia].
    + intros n' [j y] Hn' Hlt Hp. simpl in Hp.
      apply Is_true_eq_true, andb_true_iff in Hp as [Hp%present_spec Hj%Z.eqb_eq]. subst.
      rewrite (Hu n' n i y x) in Hlt; try done. lia.
Qed.

Lemma mem_space_Some d i x :
  slots_unique (Mem.g_spaces d) ->
  mem_space d i = Some x <-> exists n, Mem.g_spaces d !! n = Some (i, x) /\ x <> [].
Proof.
  intros Hu. unfold mem_space, Mem.slot_at. split.
  - destruct (Mem.FindSpaceSlot i _) as [n|] eqn:E; [|done].
    apply find_slot_Some in E as (y & Hn & Hy); [|done]. rewrite Hn. intros [= <-]. eauto.
  - intros (n & Hn & Hx).
    rewrite (proj2 (find_slot_Some i _ n Hu)) by eauto. by rewrite Hn.
Qed.

(** Overwriting slot [n], the only one that can hold data of [i]. *)
Definition owns d (n : nat) (i : Z) : Prop :=
  (exists j x, Mem.g_spaces d !! n = Some (j, x) /\ (x = [] \/ j = i))
  /\ (forall m y, m <> n -> Mem.g_spaces d !! m = Some (i, y) -> y = []).

Lemma set_slot_unique d n i b :
  slots_unique (Mem.g_spaces d) -> owns d n i ->
  slots_unique (Mem.g_spaces (Mem.set_slot d n i b)).
Proof.
  intros Hu [(j & x & Hn & _) Ho] a c k y z. simpl.
  assert (n < length (Mem.g_spaces d))%nat by (eapply lookup_lt_Some; eauto).
  destruct (decide (a = n)) as [->|Ha]; destruct (decide (c = n)) as [->|Hc];
    rewrite ?list_lookup_insert_eq, ?list_lookup_insert_ne by done; try done.
  - intros [= -> ->] Hc' Hy Hz. by destruct Hz; eapply Ho.
  - intros Ha' [= -> ->] Hy Hz. by destruct Hy; eapply Ho.
  - by apply Hu.
Qed.

Lemma mem_space_set d n i b j :
  slots_unique (Mem.g_spaces d) -> owns d n i ->
  mem_space (Mem.set_slot d n i b) j =
    if decide (j = i) then slot_data b else mem_space d j.
Proof.
  intros Hu Ho. pose proof (set_slot_unique d n i b Hu Ho) as Hu'.
  destruct Ho as [(k & x & Hn & Hx) Ho].
  assert (n < length (Mem.g_spaces d))%nat by (eapply lookup_lt_Some; eauto).
  apply option_eq. intros z. rewrite mem_space_Some by done. simpl. split.
  - intros (m & Hm & Hz). destruct (decide (m = n)) as [->|].
    + rewrite list_lookup_insert_eq in Hm by done. injection Hm as -> ->.
      rewrite decide_True by done. unfold slot_data.
      by rewrite (proj2 (present_spec z) Hz).
    + rewrite list_lookup_insert_ne in Hm by done. destruct (decide (j = i)) as [->|].
      * by destruct Hz; eapply Ho.
      * apply mem_space_Some; eauto.
  - destruct (decide (j = i)) as [->|].
    + unfold slot_data. destruct (Mem.present b) eqn:Hb; [|done]. intros [= <-].
      exists n. rewrite list_lookup_insert_eq by done. split; [done|].
      by apply present_spec.
    + intros (m & Hm & Hz)%mem_space_Some; [|done]. exists m.
      rewrite list_lookup_insert_ne; [done|]. intros <-. rewrite Hn in Hm.
      injection Hm as -> ->. by destruct Hx.
Qed.

Lemma find_slot_owns d n i :
  slots_unique (Mem.g_spaces d) -> Mem.FindSpaceSlot i (Mem.g_spaces d) = Some n ->
  owns d n i.
Proof.
  intros Hu (x & Hn & Hx)%find_slot_Some; [|done]. split; [eauto|].
  intros m y Hm Hy. destruct (decide (y = [])); [done|].
  destruct Hm. by eapply Hu.
Qed.

Lemma free_slot_owns d n i :
  slots_unique (Mem.g_spaces d) -> Mem.FindSpaceSlot i (Mem.g_spaces d) = None ->
  Mem.FindFreeSlot (Mem.g_spaces d) = Some n -> owns d n i.
Proof.
  intros Hu Hi ([m [j x]] & (Hn & Hp & _)%list_find_Some & ->)%fmap_Some. simpl in *. split.
  - exists j, x. split; [done|]. left. apply Is_true_eq_true, negb_true_iff in Hp.
    destruct x; [done|]. unfold Mem.present in Hp. zlen.
  - intros k y _ Hk. destruct (decide (y = [])); [done|].
    by rewrite (proj2 (find_slot_Some i _ k Hu)) in Hi by eauto.
Qed.

Lemma set_slot_wf d n i b :
  mem_wf d -> owns d n i -> zlen b <= limit -> mem_wf (Mem.set_slot d n i b).
Proof.
  intros (Hl & Hu & Hh & Hf) Ho Hb. split; [by simpl; rewrite length_insert|].
  split; [by apply set_slot_unique|]. split; [done|]. simpl. by apply Forall_insert.
Qed.

Lemma no_free_slot d :
  slots_unique (Mem.g_spaces d) -> length (Mem.g_spaces d) = Mem.kMaxSpaces ->
  Mem.FindFreeSlot (Mem.g_spaces d) = None ->
  NoDup (map fst (Mem.g_spaces d))
  /\ Forall (fun j => is_Some (mem_space d j)) (map fst (Mem.g_spaces d)).
Proof.
  intros Hu Hl Hf. unfold Mem.FindFreeSlot in Hf.
  assert (Hp : forall n i x, Mem.g_spaces d !! n = Some (i, x) -> x <> []).
  { intros n i x Hn ->. apply fmap_None, list_find_None in Hf.
    rewrite Forall_lookup in Hf. by apply (Hf n (i, [])). }
  split.
  - apply NoDup_alt. intros a b j Ha Hb.
    apply list_lookup_fmap_Some in Ha as ([i x] & -> & Ha).
    apply list_lookup_fmap_Some in Hb as ([i' y] & E & Hb). simpl in *. subst.
    eapply Hu; eauto.
  - apply Forall_lookup. intros n j ([i x] & -> & Hn)%list_lookup_fmap_Some.
    exists x. apply mem_space_Some; [done|]. eauto.
Qed.

Lemma Slot_Store_ok b : 0 < zlen b <= limit -> Mem.Slot_Store b = (kSuccess, b).
Proof using Halloc.
  intros Hb. unfold Mem.Slot_Store, Blob_Assign. by rewrite (proj1 Halloc) by lia.
Qed.

Lemma Slot_Load_ok f slot :
  zlen slot <= limit -> load_law f (slot_data slot) (Mem.Slot_Load slot).
Proof using Halloc.
  intros Hl. unfold Mem.Slot_Load, slot_data. destruct (Mem.present slot); [|done]. simpl.
  unfold Blob_Assign. rewrite (proj1 Halloc) by zlen. simpl.
  exists slot, []. by rewrite app_nil_r.
Qed.

Lemma slot_data_pos b : 0 < zlen b -> slot_data b = Some b.
Proof.
  intros Hb. unfold slot_data. rewrite (proj2 (present_spec b)); [done|].
  by intros ->.
Qed.

Lemma memory_load_space f d i :
  mem_wf d -> load_law f (mem_space d i) (Mem.LoadSpace d i).
Proof using Halloc.
  intros (_ & Hu & _ & Hf). unfold Mem.LoadSpace, mem_space.
  destruct (Mem.FindSpaceSlot i _) as [n|] eqn:E; [|done].
  apply find_slot_Some in E as (x & Hn & Hx); [|done].
  unfold Mem.slot_at. rewrite Hn. rewrite Forall_lookup in Hf. specialize (Hf n _ Hn).
  rewrite <- slot_data_pos; [by apply Slot_Load_ok|].
  zlen. destruct (Z.eq_dec (zlen x) 0) as [E|]; [by apply zlen_0 in E|lia].
Qed.

Lemma memory_store_space f d i b :
  mem_wf d -> 0 < zlen b <= limit ->
  let '(st, d') := Mem.StoreSpace d i b in
  mem_wf d' /\ slot_data (Mem.g_header d') = slot_data (Mem.g_header d)
  /\ (st = kSuccess
      /\ (forall j, mem_space d' j = if decide (j = i) then Some b else mem_space d j)
      \/ st = kStorageError
         /\ (f = true \/ exists l : list Z, NoDup l /\ length l = device_spaces /\ (i ∉ l)
                                   /\ Forall (fun j => is_Some (mem_space d j)) l)
         /\ (forall j, mem_space d' j = mem_space d j)).
Proof using Halloc.
  intros Hwf Hb. pose proof Hwf as (Hl & Hu & _). unfold Mem.StoreSpace.
  rewrite Slot_Store_ok by done.
  destruct (Mem.FindSpaceSlot i _) as [n|] eqn:E;
    [|destruct (Mem.FindFreeSlot _) as [n|] eqn:Ef].
  1,2: assert (Ho : owns d n i) by eauto using find_slot_owns, free_slot_owns.
  1,2: split; [by apply set_slot_wf; [..|lia]|]; split; [done|]; left; split; [done|].
  1,2: intros j; rewrite mem_space_set, slot_data_pos by (done || lia); done.
  split; [done|]. split; [done|]. right. split; [done|]. split; [|done]. right.
  destruct (no_free_slot d Hu Hl Ef) as [Hnd Hall]. exists (map fst (Mem.g_spaces d)).
  split; [done|]. split; [by rewrite length_map|]. split; [|done].
  intros Hin%list_elem_of_In. rewrite List.Forall_forall in Hall.
  destruct (Hall i Hin) as [x Hx].
  unfold mem_space in Hx. by rewrite E in Hx.
Qed.

Lemma memory_delete_space f d i :
  mem_wf d ->
  let '(st, d') := Mem.DeleteSpace d i in
  mem_wf d' /\ slot_data (Mem.g_header d') = slot_data (Mem.g_header d)
  /\ (st <> kStorageError
      /\ (forall j, mem_space d' j = if decide (j = i) then None else mem_space d j)
      \/ st = kStorageError /\ f = true /\ (forall j, mem_space d' j = mem_space d j)).
Proof.
  intros Hwf. pose proof Hwf as (Hl & Hu & _). unfold Mem.DeleteSpace.
  destruct (Mem.FindSpaceSlot i _) as [n|] eqn:E.
  - assert (Ho : owns d n i) by eauto using find_slot_owns. simpl.
    split; [apply set_slot_wf; [done..|]|].
    { destruct Hwf as (_ & _ & Hh & _). zlen. }
    split; [done|]. left. split; [done|]. intros j. by rewrite mem_space_set.
  - split; [done|]. split; [done|]. left. split; [done|]. intros j.
    destruct (decide (j = i)) as [->|]; [|done]. unfold mem_space. by rewrite E.
Qed.

Lemma memory_store_header f d b :
  mem_wf d -> 0 < zlen b <= limit ->
  let '(st, d') := Mem.StoreHeader d b in
  mem_wf d' /\ (forall i, mem_space d' i = mem_space d i)
  /\ (st = kSuccess /\ slot_data (Mem.g_header d') = Some b
      \/ st = kStorageError /\ f = true
         /\ slot_data (Mem.g_header d') = slot_data (Mem.g_header d)).
Proof using Halloc.
  intros (Hl & Hu & Hh & Hf) Hb. unfold Mem.StoreHeader.
  rewrite Slot_Store_ok by done. split; [|split; [done|]].
  - repeat split; simpl; try done; lia.
  - left. simpl. by rewrite slot_data_pos by lia.
Qed.

(** The implementation meets the interface. *)
#[export] Instance memory_storage_ok : StorageOk Mem.t limit := {|
  storage_wf := mem_wf;
  stored_header d := slot_data (Mem.g_header d);
  stored_space := mem_space;
  load_header_law f d H := Slot_Load_ok f _ (proj1 (proj2 (proj2 H)));
  load_space_law := memory_load_space;
  store_header_law := memory_store_header;
  store_space_law := memory_store_space;
  delete_space_law := memory_delete_space;
|}.

Lemma mem_init_wf : 0 <= limit -> mem_wf Mem.init.
Proof.
  intros Hl. split; [done|]. split; [|split; [done|]].
  - intros a b i x y Ha _ Hx. apply lookup_replicate in Ha as [[= -> ->] _]. done.
  - by apply Forall_replicate.
Qed.

Lemma mem_init_empty i : mem_space Mem.init i = None.
Proof. unfold mem_space. by vm_compute. Qed.

End MemoryOk.
