(* ===== verification/NvramPersistence.v ===== *)
(** * NvramPersistence: headers and spaces in storage
      (src/nvram/core/persistence.cpp, include/nvram/core/persistence.h)

    [EncodeObject] and [DecodeObject] wrap a message in a length-delimited
    record whose field number is a magic constant, so that trailing bytes of
    the medium and objects of the wrong kind are told apart.  [Persistence] is
    the interface the manager uses; [PersistenceOk] describes it by an
    abstract [Disk].  The instance built from [Storage] is proved to meet it. *)
From S2P Require Import Prelude NvramIo NvramCodec NvramMessages NvramStorage.

(** ** Persistent objects *)

Record NvramHeader := mkNvramHeader {
  version : Z;
  header_flags : Z;
  allocated_indices : list Z;
  provisional_index : option Z;
}.

Definition kVersion : Z := 1.
Definition kFlagDisableCreate : Z := Z.shiftl 1 0.

(** [NvramHeader{}]. *)
Definition NvramHeader_init : NvramHeader := mkNvramHeader kVersion 0 [] None.

Record NvramSpace := mkNvramSpace {
  space_flags : Z;
  controls : Z;
  authorization_value : blob;
  contents : blob;
}.

Definition kFlagWriteLocked : Z := Z.shiftl 1 0.

(** [NvramSpace{}]. *)
Definition NvramSpace_init : NvramSpace := mkNvramSpace 0 0 [] [].

(** [NvramHeader::HasFlag], [NvramHeader::SetFlag]. *)
Definition Header_HasFlag (h : NvramHeader) (flag : Z) : bool :=
  negb (Z.land (header_flags h) flag =? 0).

Definition Header_SetFlag (h : NvramHeader) (flag : Z) : NvramHeader :=
  mkNvramHeader (version h) (Z.lor (header_flags h) flag) (allocated_indices h)
    (provisional_index h).

(** [NvramSpace::HasFlag], [NvramSpace::SetFlag], [NvramSpace::HasControl]. *)
Definition Space_HasFlag (s : NvramSpace) (flag : Z) : bool :=
  negb (Z.land (space_flags s) flag =? 0).

Definition Space_SetFlag (s : NvramSpace) (flag : Z) : NvramSpace :=
  mkNvramSpace (Z.lor (space_flags s) flag) (controls s) (authorization_value s) (contents s).

Definition HasControl (s : NvramSpace) (control : Z) : bool :=
  negb (Z.land (controls s) (Z.shiftl 1 control) =? 0).

(** ** Encoding *)

(** "NVH" and "NVS". *)
Definition kHeaderMagic : Z := 0x4e5648.
Definition kSpaceMagic : Z := 0x4e5653.

Section Objects.
Context `{Allocator}.

Definition NvramHeader_fields : list (FieldDescriptor NvramHeader) := [
  MakeField 1 (varint_codec 32) version
    (fun v '(mkNvramHeader _ f a p) => mkNvramHeader v f a p);
  MakeField 2 (varint_codec 32) header_flags
    (fun v '(mkNvramHeader r _ a p) => mkNvramHeader r v a p);
  MakeField 3 (vector_codec (varint_codec 32) 0) allocated_indices
    (fun v '(mkNvramHeader r f _ p) => mkNvramHeader r f v p);
  MakeField 4 (optional_codec (varint_codec 32) 0) provisional_index
    (fun v '(mkNvramHeader r f a _) => mkNvramHeader r f a v)].

Definition NvramSpace_fields : list (FieldDescriptor NvramSpace) := [
  MakeField 1 (varint_codec 32) space_flags
    (fun v '(mkNvramSpace _ c a d) => mkNvramSpace v c a d);
  MakeField 2 (varint_codec 32) controls
    (fun v '(mkNvramSpace f _ a d) => mkNvramSpace f v a d);
  MakeField 3 blob_codec authorization_value
    (fun v '(mkNvramSpace f c _ d) => mkNvramSpace f c v d);
  MakeField 4 blob_codec contents
    (fun v '(mkNvramSpace f c a _) => mkNvramSpace f c a v)].

(** [EncodeObject], into an empty blob. *)
Definition EncodeObject {S} (magic : Z) (fields : list (FieldDescriptor S)) (object : S)
    : outcome blob :=
  let writer := ProtoWriter.set_field_number (ProtoWriter.make (Out.make_blob 0)) magic in
  writer ← Encode fields object writer;
  Out.Truncate (ProtoWriter.stream_buffer writer).

(** [DecodeObject]. *)
Definition DecodeObject {S} (magic : Z) (fields : list (FieldDescriptor S)) (b : blob)
    (object : S) : outcome S :=
  reader ← ProtoReader.ReadWireTag (ProtoReader.make (In.make b));
  _ ← guard_that (ProtoReader.field_number reader =? magic);
  _ ← guard_that (ProtoReader.wire_type reader =? WireType.kLengthDelimited);
  '(object, _) ← Decode fields object reader;
  Ret object.

(** The status the coders report; an aborted call does not return. *)
Definition decoded {S} (init : S) (r : outcome S) : outcome (Status * S) :=
  match r with
  | Ret object => Ret (kSuccess, object)
  | Fail => Ret (kStorageError, init)
  | Abort => Abort
  end.

Definition stored {D} (d : D) (r : outcome blob) (store : blob -> Status * D)
    : outcome (Status * D) :=
  match r with
  | Ret b => Ret (store b)
  | Fail => Ret (kStorageError, d)
  | Abort => Abort
  end.

Section Device.
Context {D : Type} `{Storage D}.

(** [persistence::LoadHeader] into a fresh header. *)
Definition LoadHeader (f : bool) (d : D) : outcome (Status * NvramHeader) :=
  match storage_LoadHeader f d with
  | (kSuccess, b) =>
      decoded NvramHeader_init (DecodeObject kHeaderMagic NvramHeader_fields b NvramHeader_init)
  | (st, _) => Ret (st, NvramHeader_init)
  end.

(** [persistence::StoreHeader]. *)
Definition StoreHeader (f : bool) (d : D) (h : NvramHeader) : outcome (Status * D) :=
  stored d (EncodeObject kHeaderMagic NvramHeader_fields h) (storage_StoreHeader f d).

(** [persistence::LoadSpace] into a fresh space. *)
Definition LoadSpace (f : bool) (d : D) (index : Z) : outcome (Status * NvramSpace) :=
  match storage_LoadSpace f d index with
  | (kSuccess, b) =>
      decoded NvramSpace_init (DecodeObject kSpaceMagic NvramSpace_fields b NvramSpace_init)
  | (st, _) => Ret (st, NvramSpace_init)
  end.

(** [persistence::StoreSpace]. *)
Definition StoreSpace (f : bool) (d : D) (index : Z) (s : NvramSpace) : outcome (Status * D) :=
  stored d (EncodeObject kSpaceMagic NvramSpace_fields s) (storage_StoreSpace f d index).

(** [persistence::DeleteSpace]. *)
Definition DeleteSpace (f : bool) (d : D) (index : Z) : outcome (Status * D) :=
  Ret (storage_DeleteSpace f d index).

End Device.
End Objects.

(** ** The interface towards the manager *)

Class Persistence (D : Type) := {
  persistence_LoadHeader : bool -> D -> outcome (Status * NvramHeader);
  persistence_StoreHeader : bool -> D -> NvramHeader -> outcome (Status * D);
  persistence_LoadSpace : bool -> D -> Z -> outcome (Status * NvramSpace);
  persistence_StoreSpace : bool -> D -> Z -> NvramSpace -> outcome (Status * D);
  persistence_DeleteSpace : bool -> D -> Z -> outcome (Status * D);
}.

#[export] Instance persistence_of_storage `{Allocator} `{Storage D} : Persistence D := {|
  persistence_LoadHeader := LoadHeader;
  persistence_StoreHeader := StoreHeader;
  persistence_LoadSpace := LoadSpace;
  persistence_StoreSpace := StoreSpace;
  persistence_DeleteSpace := DeleteSpace;
|}.

(** What is on a device, in terms of objects. *)
Record Disk := mkDisk {
  disk_header : option NvramHeader;
  disk_spaces : gmap Z NvramSpace;
}.

Definition empty_disk : Disk := mkDisk None ∅.
Definition put_header (h : NvramHeader) (k : Disk) : Disk := mkDisk (Some h) (disk_spaces k).
Definition put_space (i : Z) (s : NvramSpace) (k : Disk) : Disk :=
  mkDisk (disk_header k) (<[i := s]> (disk_spaces k)).
Definition drop_space (i : Z) (k : Disk) : Disk :=
  mkDisk (disk_header k) (delete i (disk_spaces k)).

(** The objects the manager stores: 32-bit fields, at most [kMaxSpaces]
    indices, and blobs within [kMaxAuthSize] and [kMaxSpaceSize]. *)
Definition kMaxSpaces : nat := 32.
Definition kMaxSpaceSize : Z := 1024.
Definition kMaxAuthSize : Z := 32.

Definition header_ok (h : NvramHeader) : Prop :=
  is_uint 32 (version h) /\ is_uint 32 (header_flags h)
  /\ Forall (is_uint 32) (allocated_indices h)
  /\ (length (allocated_indices h) <= kMaxSpaces)%nat
  /\ match provisional_index h with Some i => is_uint 32 i | None => True end.

Definition space_ok (s : NvramSpace) : Prop :=
  is_uint 32 (space_flags s) /\ is_uint 32 (controls s)
  /\ zlen (authorization_value s) <= kMaxAuthSize /\ zlen (contents s) <= kMaxSpaceSize.

Definition disk_ok (k : Disk) : Prop :=
  match disk_header k with Some h => header_ok h | None => True end
  /\ map_Forall (fun _ s => space_ok s) (disk_spaces k).

(** The promises of the persistence layer: [disk_abs d k] relates a device to
    its objects; a call fails only if the medium fails (or holds no further
    space), and a call that fails changes nothing. *)
Class PersistenceOk (D : Type) `{Persistence D} := {
  disk_abs : D -> Disk -> Prop;
  disk_abs_ok d k : disk_abs d k -> disk_ok k;
  load_header_spec f d k : disk_abs d k ->
    exists st h, persistence_LoadHeader f d = Ret (st, h) /\
    match st with
    | kSuccess => disk_header k = Some h
    | kNotFound => disk_header k = None
    | kStorageError => f = true
    end;
  store_header_spec f d k h : disk_abs d k -> header_ok h ->
    exists st d', persistence_StoreHeader f d h = Ret (st, d') /\
    (st = kSuccess /\ disk_abs d' (put_header h k)
     \/ st = kStorageError /\ f = true /\ disk_abs d' k);
  load_space_spec f d k i : disk_abs d k ->
    exists st s, persistence_LoadSpace f d i = Ret (st, s) /\
    match st with
    | kSuccess => disk_spaces k !! i = Some s
    | kNotFound => disk_spaces k !! i = None
    | kStorageError => f = true
    end;
  store_space_spec f d k i s : disk_abs d k -> space_ok s ->
    exists st d', persistence_StoreSpace f d i s = Ret (st, d') /\
    (st = kSuccess /\ disk_abs d' (put_space i s k)
     \/ st = kStorageError
        /\ (f = true \/ (device_spaces <= size (delete i (disk_spaces k)))%nat)
        /\ disk_abs d' k);
  delete_space_spec f d k i : disk_abs d k ->
    exists st d', persistence_DeleteSpace f d i = Ret (st, d') /\
    (st <> kStorageError /\ disk_abs d' (drop_space i k)
     \/ st = kStorageError /\ f = true /\ disk_abs d' k);
}.

(** * Objects survive storage *)

(** Memory for every object of the manager and its encoding. *)
Definition object_limit : Z := 4096.

Section ObjectsOk.
Context `{Allocator} (Halloc : alloc_upto object_limit).

Lemma NvramHeader_ok :
  StructOk false NvramHeader_fields (fun o => o = NvramHeader_init) header_ok 700.
Proof using Halloc.
  assert (H1024 : alloc_upto 1024) by (eapply alloc_upto_mono; [exact Halloc|done]).
  assert (HN : 0 <= 1024 <= 2 ^ 60) by lia. clear Halloc.
  struct_table. split; [by intros [] ? ->|]. intros [v f a p] (Hv & Hf & Ha & Hl & Hp).
  cbn [version header_flags allocated_indices provisional_index] in *.
  unfold kMaxSpaces in Hl. assert (zlen a <= 32) by (unfold zlen; lia). split.
  - repeat (apply List.Forall_cons;
      [cbn [fs_valid leaf_spec vector_spec optional_spec]; try done|]); [|apply List.Forall_nil].
    split; [done|]. cbn [allocated_indices]. lia.
  - unfold msg_bytes. cbn [map concat fs_bytes leaf_spec vector_spec optional_spec
      version header_flags allocated_indices provisional_index kWireType varint_codec].
    destruct p; autorewrite with zlen; bound_bytes; lia.
Qed.

Lemma NvramSpace_ok :
  StructOk false NvramSpace_fields (fun o => o = NvramSpace_init) space_ok 1200.
Proof using Halloc.
  assert (H1024 : alloc_upto 1024) by (eapply alloc_upto_mono; [exact Halloc|done]).
  assert (HN : 0 <= 1024 <= 2 ^ 60) by lia. clear Halloc.
  struct_table. split; [by intros [] ? ->|]. intros o (Hf & Hc & Ha & Hd).
  unfold kMaxAuthSize, kMaxSpaceSize in *. split.
  - repeat (apply List.Forall_cons;
      [cbn [fs_valid leaf_spec]; unfold blob_valid; try done; lia|]); apply List.Forall_nil.
  - unfold msg_bytes. cbn [map concat fs_bytes leaf_spec].
    autorewrite with zlen; bound_bytes; lia.
Qed.

Section Object.
Context {S : Type} (fields : list (FieldDescriptor S)) (init : S) (valid : S -> Prop)
  (bound : Z) (Hfields : StructOk false fields (fun o => o = init) valid bound)
  (Hbound : 0 <= bound <= 2000).

(** The stored form of an object, and what [DecodeObject] makes of it in
    front of arbitrary trailing bytes. *)
Lemma object_stored magic o :
  valid o -> is_field_number magic ->
  exists b, EncodeObject magic fields o = Ret b /\ 0 < zlen b <= bound + 20
    /\ (forall junk, DecodeObject magic fields (b ++ junk) init = Ret o)
    /\ (forall S' (fields' : list (FieldDescriptor S')) init' magic' junk, magic' <> magic ->
          DecodeObject magic' fields' (b ++ junk) init' = Fail).
Proof using All.
  intros Ho Hm. destruct (struct_ok_leaf _ _ _ _ Hfields) as (payload & Hl & Hlen); [lia|].
  specialize (Hlen o Ho). 
  remember (tag_bytes magic WireType.kLengthDelimited ++ payload o) as b eqn:Eb.
  pose proof (tag_bytes_len magic WireType.kLengthDelimited).
  pose proof (tag_bytes_pos magic WireType.kLengthDelimited).
  assert (Hb : 0 < zlen b <= bound + 20) by (rewrite Eb; zlen).
  assert (Hdec : forall junk, exists r1 r2,
    ProtoReader.ReadWireTag (ProtoReader.make (In.make (b ++ junk))) = Ret r1
    /\ ProtoReader.field_number r1 = magic
    /\ ProtoReader.wire_type r1 = WireType.kLengthDelimited
    /\ Decode fields init r1 = Ret (o, r2)).
  { intros junk. set (r := ProtoReader.make (In.make (b ++ junk))).
    assert (Hr : reader_wf r) by (split; [simpl; zlen|by split]).
    assert (Hw : window (ProtoReader.stream_buffer r)
                 = tag_bytes magic WireType.kLengthDelimited ++ payload o ++ junk).
    { unfold window, r.
      cbn [ProtoReader.stream_buffer ProtoReader.make In.make In.mem In.pos In.end_].
      rewrite Z.sub_0_r, slice_all, Eb. by rewrite <- app_assoc. }
    destruct (leaf_dec _ _ _ _ _ Hl o init r magic junk Ho eq_refl Hr Hm (fun _ => I) Hw)
      as (r1 & r2 & E1 & En & Et & E2 & _). by exists r1, r2. }
  exists b. split; [|split; [done|split]].
  - unfold EncodeObject. set (w := ProtoWriter.set_field_number _ _).
    destruct (leaf_enc _ _ _ _ _ Hl o w) as [fn' E]; try done.
    cbn [codec_Encode struct_codec] in E. rewrite E.
    destruct (put_blob (ProtoWriter.stream_buffer w) b 2030) as (s' & Es & _ & Ew).
    { exists 0. by repeat split. } { simpl. zlen. } { lia. }
    { eapply alloc_upto_mono; [exact Halloc|done]. }
    change (tag_bytes _ _ ++ payload o)
      with (tag_bytes magic WireType.kLengthDelimited ++ payload o). rewrite <- Eb, Es, !outcome_bind_ret.
    cbn [ProtoWriter.stream_buffer]. unfold Out.Truncate. rewrite Ew. simpl app.
    unfold Blob_Resize. rewrite (proj1 Halloc); [by rewrite orb_true_r|].
    unfold object_limit. lia.
  - intros junk. destruct (Hdec junk) as (r1 & r2 & E1 & En & Et & E2). unfold DecodeObject.
    rewrite E1, outcome_bind_ret, En, Et, !Z.eqb_refl. cbn [guard_that].
    rewrite !outcome_bind_ret, E2. done.
  - intros S' fields' init' magic' junk Hne. destruct (Hdec junk) as (r1 & r2 & E1 & En & _).
    unfold DecodeObject. rewrite E1, outcome_bind_ret, En.
    destruct (Z.eqb_spec magic magic'); [congruence|done].
Qed.

End Object.
End ObjectsOk.

(** * The storage-backed implementation meets the interface *)

(** A slot of the device holds the stored form of an object. *)
Definition slot_holds `{Allocator} {S} (magic : Z) (fields : list (FieldDescriptor S))
    (init : S) (valid : S -> Prop) (slot : option blob) (object : option S) : Prop :=
  match slot, object with
  | None, None => True
  | Some b, Some o =>
      valid o /\ forall junk, DecodeObject magic fields (b ++ junk) init = Ret o
  | _, _ => False
  end.

Section Instance.
Context `{Allocator} (Halloc : alloc_upto object_limit) {D : Type} `{HS : Storage D}
  {limit : Z} (HSok : StorageOk D limit) (Hlimit : 1220 <= limit).

Definition header_slot : option blob -> option NvramHeader -> Prop :=
  slot_holds kHeaderMagic NvramHeader_fields NvramHeader_init header_ok.
Definition space_slot : option blob -> option NvramSpace -> Prop :=
  slot_holds kSpaceMagic NvramSpace_fields NvramSpace_init space_ok.

Definition storage_abs (d : D) (k : Disk) : Prop :=
  storage_wf d /\ header_slot (stored_header d) (disk_header k)
  /\ forall i, space_slot (stored_space d i) (disk_spaces k !! i).

Lemma storage_abs_ok d k : storage_abs d k -> disk_ok k.
Proof.
  intros (_ & Hh & Hs). split.
  - destruct (disk_header k); [|done]. destruct (stored_header d); [apply Hh|done].
  - intros i s Hi. specialize (Hs i). rewrite Hi in Hs.
    destruct (stored_space d i); [apply Hs|done].
Qed.

Lemma load_slot {S} magic fields (init : S) valid f slot object r :
  load_law f slot r -> slot_holds magic fields init valid slot object ->
  exists st o,
    match r with
    | (kSuccess, b) => decoded init (DecodeObject magic fields b init)
    | (st, _) => Ret (st, init)
    end = Ret (st, o)
    /\ match st with
       | kSuccess => object = Some o
       | kNotFound => object = None
       | kStorageError => f = true
       end.
Proof.
  intros Hl Hs. destruct r as [[] b]; simpl in *.
  - destruct Hl as (s & junk & -> & ->). destruct object as [o|]; [|done].
    destruct Hs as [_ Hd]. rewrite Hd. by exists kSuccess, o.
  - subst. destruct object; [done|]. by exists kNotFound, init.
  - by exists kStorageError, init.
Qed.

Lemma storage_store_header f d k h :
  storage_abs d k -> header_ok h ->
  exists st d', StoreHeader f d h = Ret (st, d') /\
    (st = kSuccess /\ storage_abs d' (put_header h k)
     \/ st = kStorageError /\ f = true /\ storage_abs d' k).
Proof using Halloc Hlimit.
  intros (Hwf & Hh & Hs) Hok. unfold StoreHeader.
  destruct (object_stored Halloc _ _ _ _ (NvramHeader_ok Halloc) ltac:(lia) kHeaderMagic h Hok)
    as (b & -> & Hb & Hdec & _); [by unfold is_field_number, kHeaderMagic|]. simpl.
  pose proof (store_header_law f d b Hwf) as Hlaw.
  destruct (storage_StoreHeader f d b) as [st d'].
  destruct Hlaw as (Hwf' & Hsp & Hcase); [lia|]. exists st, d'. split; [done|].
  destruct Hcase as [[-> E]|(-> & -> & E)]; [left|right]; split; try done.
  - split; [done|]. rewrite E. split; [done|]. intros i. by rewrite Hsp.
  - split; [done|]. split; [done|]. rewrite E. split; [done|]. intros i. by rewrite Hsp.
Qed.

Lemma full_device d k i (l : list Z) :
  storage_abs d k -> NoDup l -> length l = device_spaces -> i ∉ l ->
  Forall (fun j => is_Some (stored_space d j)) l ->
  (device_spaces <= size (delete i (disk_spaces k)))%nat.
Proof.
  intros (_ & _ & Hs) Hnd Hlen Hi Hall. rewrite <- Hlen.
  rewrite <- (size_list_to_set (C := gset Z) l), <- size_dom by done.
  apply subseteq_size. intros j Hj%elem_of_list_to_set. apply elem_of_dom.
  rewrite lookup_delete_ne by (intros ->; done).
  rewrite List.Forall_forall in Hall. destruct (Hall j) as [b Hb]; [by apply list_elem_of_In|].
  specialize (Hs j). rewrite Hb in Hs. by destruct (disk_spaces k !! j).
Qed.

Lemma storage_store_space f d k i s :
  storage_abs d k -> space_ok s ->
  exists st d', StoreSpace f d i s = Ret (st, d') /\
    (st = kSuccess /\ storage_abs d' (put_space i s k)
     \/ st = kStorageError
        /\ (f = true \/ (device_spaces <= size (delete i (disk_spaces k)))%nat)
        /\ storage_abs d' k).
Proof using Halloc Hlimit.
  intros Habs Hok. pose proof Habs as (Hwf & Hh & Hs). unfold StoreSpace.
  destruct (object_stored Halloc _ _ _ _ (NvramSpace_ok Halloc) ltac:(lia) kSpaceMagic s Hok)
    as (b & -> & Hb & Hdec & _); [by unfold is_field_number, kSpaceMagic|]. simpl.
  pose proof (store_space_law f d i b Hwf) as Hlaw.
  destruct (storage_StoreSpace f d i b) as [st d'].
  destruct Hlaw as (Hwf' & Hhd & Hcase); [lia|]. exists st, d'. split; [done|].
  destruct Hcase as [[-> E]|(-> & Hf & E)]; [left|right]; split; try done.
  - split; [done|]. rewrite Hhd. split; [done|]. intros j. rewrite E. simpl.
    destruct (decide (j = i)) as [->|]; [by rewrite lookup_insert_eq|].
    by rewrite lookup_insert_ne.
  - split.
    + destruct Hf as [|(l & ? & ? & ? & ?)]; [by left|right]. by eapply full_device.
    + split; [done|]. rewrite Hhd. split; [done|]. intros j. by rewrite E.
Qed.

Lemma storage_delete_space f d k i :
  storage_abs d k ->
  exists st d', DeleteSpace f d i = Ret (st, d') /\
    (st <> kStorageError /\ storage_abs d' (drop_space i k)
     \/ st = kStorageError /\ f = true /\ storage_abs d' k).
Proof.
  intros (Hwf & Hh & Hs). unfold DeleteSpace. pose proof (delete_space_law f d i Hwf) as Hlaw.
  destruct (storage_DeleteSpace f d i) as [st d'].
  destruct Hlaw as (Hwf' & Hhd & Hcase). exists st, d'. split; [done|].
  destruct Hcase as [[Hst E]|(-> & -> & E)]; [left|right]; split; try done.
  - split; [done|]. rewrite Hhd. split; [done|]. intros j. rewrite E. simpl.
    destruct (decide (j = i)) as [->|]; [by rewrite lookup_delete_eq|].
    by rewrite lookup_delete_ne.
  - split; [done|]. split; [done|]. rewrite Hhd. split; [done|]. intros j. by rewrite E.
Qed.

#[export] Instance storage_persistence_ok : PersistenceOk D.
Proof using Halloc HSok Hlimit.
  refine {| disk_abs := storage_abs; disk_abs_ok := storage_abs_ok;
            store_header_spec := storage_store_header;
            store_space_spec := storage_store_space;
            delete_space_spec := storage_delete_space |}.
  - intros f d k (Hwf & Hh & _). eapply load_slot; [by apply load_header_law|exact Hh].
  - intros f d k i (Hwf & _ & Hs). eapply load_slot; [by apply load_space_law|exact (Hs i)].
Defined.

End Instance.

(** * Properties *)

(** The stored form of a space record decodes to the record whatever
    bytes the medium appends, and is never mistaken for a header. *)
Theorem stored_space_decodes `{Allocator} s :
  alloc_upto object_limit -> space_ok s ->
  exists b, EncodeObject kSpaceMagic NvramSpace_fields s = Ret b
    /\ (forall junk, DecodeObject kSpaceMagic NvramSpace_fields (b ++ junk) NvramSpace_init
                     = Ret s)
    /\ (forall junk, DecodeObject kHeaderMagic NvramHeader_fields (b ++ junk)
                       NvramHeader_init = Fail).
Proof.
  intros Ha Hs.
  destruct (object_stored Ha _ _ _ _ (NvramSpace_ok Ha) ltac:(lia) kSpaceMagic s Hs)
    as (b & E & _ & Hd & Hw); [by unfold is_field_number, kSpaceMagic|].
  exists b. split; [done|]. split; [done|]. intros junk. by apply Hw.
Qed.

Lemma stored_space_decodes_witness :
  let A := bounded_allocator object_limit in
  let s := mkNvramSpace 1 6 [1; 2] [0; 255; 7] in
  exists b, EncodeObject kSpaceMagic (@NvramSpace_fields A) s = Ret b
    /\ (forall junk, DecodeObject kSpaceMagic (@NvramSpace_fields A) (b ++ junk) NvramSpace_init
                     = Ret s)
    /\ (forall junk, DecodeObject kHeaderMagic (@NvramHeader_fields A) (b ++ junk)
                       NvramHeader_init = Fail).
Proof.
  intros A s. apply (@stored_space_decodes A s).
  - by apply bounded_allocator_upto.
  - unfold space_ok, is_uint, kMaxAuthSize, kMaxSpaceSize, zlen. simpl. lia.
Defined.

(** C34: On every device that keeps the promises of storage.h, a space that
    was stored successfully is what every later load of its index returns
    (unless the medium fails), and storing it leaves every other space and
    the header as they were. *)
Theorem StoreSpace_LoadSpace `{Allocator} {D} `{Storage D} {limit} (ok : StorageOk D limit)
    f d d' k i s :
  alloc_upto object_limit -> 1220 <= limit -> storage_abs ok d k -> space_ok s ->
  StoreSpace f d i s = Ret (kSuccess, d') ->
  LoadSpace false d' i = Ret (kSuccess, s)
  /\ (forall j sj, j <> i -> disk_spaces k !! j = Some sj ->
        LoadSpace false d' j = Ret (kSuccess, sj))
  /\ (forall h, disk_header k = Some h -> LoadHeader false d' = Ret (kSuccess, h)).
Proof.
  intros Ha Hl Habs Hs E.
  destruct (storage_store_space Ha ok Hl f d k i s Habs Hs) as (st & d1 & E1 & Hcase).
  rewrite E in E1. injection E1 as <- <-.
  destruct Hcase as [[_ Habs']|[? _]]; [|done].
  pose proof Habs' as (Hwf & Hh & Hsp).
  assert (Hload : forall j sj, disk_spaces (put_space i s k) !! j = Some sj ->
            LoadSpace false d' j = Ret (kSuccess, sj)).
  { intros j sj Hj. specialize (Hsp j). rewrite Hj in Hsp.
    destruct (load_slot _ _ _ _ false _ _ _ (load_space_law false d' j Hwf) Hsp)
      as (st & o & E1 & Ho). unfold LoadSpace. rewrite E1. by destruct st; simplify_eq. }
  split; [apply Hload; apply lookup_insert_eq|]. split.
  - intros j sj Hne Hj. apply Hload. simpl. by rewrite lookup_insert_ne.
  - intros h Hk. simpl in Hh. rewrite Hk in Hh.
    destruct (load_slot _ _ _ _ false _ _ _ (load_header_law false d' Hwf) Hh)
      as (st & o & E1 & Ho). unfold LoadHeader. rewrite E1. by destruct st; simplify_eq.
Qed.

(** The in-memory device at program start is an empty disk. *)
Lemma memory_init_abs `{Allocator} limit (Ha : alloc_upto limit) :
  0 <= limit -> storage_abs (memory_storage_ok limit Ha) Mem.init empty_disk.
Proof.
  intros Hl. split; [by apply mem_init_wf|]. split; [done|]. intros i.
  change (stored_space Mem.init i) with (mem_space Mem.init i).
  by rewrite mem_init_empty.
Qed.

Lemma StoreSpace_LoadSpace_witness :
  let A := bounded_allocator object_limit in
  let s := mkNvramSpace 1 6 [1; 2] [0; 255; 7] in
  exists d', @StoreSpace A _ _ false Mem.init 7 s = Ret (kSuccess, d')
    /\ @LoadSpace A _ _ false d' 7 = Ret (kSuccess, s)
    /\ (forall j sj, j <> 7 -> disk_spaces empty_disk !! j = Some sj ->
          @LoadSpace A _ _ false d' j = Ret (kSuccess, sj))
    /\ (forall h, disk_header empty_disk = Some h ->
          @LoadHeader A _ _ false d' = Ret (kSuccess, h)).
Proof.
  intros A s.
  assert (Ha : @alloc_upto A object_limit) by by apply bounded_allocator_upto.
  eexists. split; [vm_compute; reflexivity|].
  eapply (@StoreSpace_LoadSpace A _ _ object_limit (memory_storage_ok object_limit Ha)
            false Mem.init _ empty_disk 7 s Ha).
  - done.
  - by apply memory_init_abs.
  - unfold space_ok, is_uint, kMaxAuthSize, kMaxSpaceSize, zlen. simpl. lia.
  - vm_compute. reflexivity.
Defined.
