(* ===== verification/NvramManager.v ===== *)
(** * NvramManager: the access-controlled NVRAM service
      (src/nvram/core/nvram_manager.cpp, include/nvram/core/nvram_manager.h,
       src/nvram/core/crypto_boringssl.cpp)

    The handlers of [NvramManager] as programs in a state monad over a
    [World]: the manager object in memory, the storage device, and a schedule
    of what the environment does to each storage call (nothing, an I/O error,
    or a power loss before or after the call takes effect).  A run ends in
    [Done], in [Crashed] with what is left on the device, or in [Undefined]
    where the C++ code has undefined behaviour. *)
From S2P Require Import Prelude NvramIo NvramCodec NvramMessages NvramStorage NvramPersistence.

(** ** Worlds and programs *)

(** What happens to a storage call. *)
Inductive fault := NoFault | IoError | CrashBefore | CrashAfter.

(** [NvramManager::SpaceListEntry]. *)
Record SpaceListEntry := mkEntry {
  entry_index : Z;
  write_locked : bool;
  read_locked : bool;
}.

(** The data members of [NvramManager]; [spaces] is [spaces_] up to
    [num_spaces_]. *)
Record NvramManager := mkManager {
  initialized : bool;
  disable_create : bool;
  disable_wipe : bool;
  spaces : list SpaceListEntry;
}.

(** The object after construction. *)
Definition fresh_manager : NvramManager := mkManager false false false [].

Definition set_spaces (l : list SpaceListEntry) (m : NvramManager) : NvramManager :=
  mkManager (initialized m) (disable_create m) (disable_wipe m) l.
Definition set_disable_create (b : bool) (m : NvramManager) : NvramManager :=
  mkManager (initialized m) b (disable_wipe m) (spaces m).
Definition set_disable_wipe (b : bool) (m : NvramManager) : NvramManager :=
  mkManager (initialized m) (disable_create m) b (spaces m).
Definition set_initialized (b : bool) (m : NvramManager) : NvramManager :=
  mkManager b (disable_create m) (disable_wipe m) (spaces m).

Record World (D : Type) := mkWorld {
  manager : NvramManager;
  device : D;
  faults : list fault;
}.
Arguments mkWorld {D} _ _ _.
Arguments manager {D} _.
Arguments device {D} _.
Arguments faults {D} _.

Inductive Res (D A : Type) :=
| Done (a : A) (w : World D)
| Crashed (d : D)
| Undefined.
Arguments Done {D A} _ _.
Arguments Crashed {D A} _.
Arguments Undefined {D A}.

Definition M (D A : Type) : Type := World D -> Res D A.

#[export] Instance M_ret D : MRet (M D) := fun A a w => Done a w.

#[export] Instance M_bind D : MBind (M D) := fun A B f m w =>
  match m w with
  | Done a w' => f a w'
  | Crashed d => Crashed d
  | Undefined => Undefined
  end.

Section Primitives.
Context {D : Type}.

Definition get_manager : M D NvramManager := fun w => Done (manager w) w.

Definition modify (f : NvramManager -> NvramManager) : M D () := fun w =>
  Done () (mkWorld (f (manager w)) (device w) (faults w)).

Definition undefined {A} : M D A := fun _ => Undefined.

(** The fate of the next storage call. *)
Definition next_fault (l : list fault) : fault * list fault :=
  match l with [] => (NoFault, []) | f :: l => (f, l) end.

(** A storage call that reads. *)
Definition storage_read {A} (op : bool -> D -> outcome A) : M D A := fun w =>
  let '(f, rest) := next_fault (faults w) in
  let run b := match op b (device w) with
               | Ret a => Done a (mkWorld (manager w) (device w) rest)
               | _ => Undefined
               end in
  match f with
  | NoFault => run false
  | IoError => run true
  | CrashBefore | CrashAfter => Crashed (device w)
  end.

(** A storage call that writes. *)
Definition storage_write (op : bool -> D -> outcome (Status * D)) : M D Status := fun w =>
  let '(f, rest) := next_fault (faults w) in
  let run b := match op b (device w) with
               | Ret (st, d') => Done st (mkWorld (manager w) d' rest)
               | _ => Undefined
               end in
  match f with
  | NoFault => run false
  | IoError => run true
  | CrashBefore => Crashed (device w)
  | CrashAfter => match op false (device w) with
                  | Ret (_, d') => Crashed d'
                  | _ => Undefined
                  end
  end.

End Primitives.

(** ** SHA-256 (BoringSSL) *)

Class Crypto := { openssl_SHA256 : blob -> blob }.

Definition kSHA256DigestSize : Z := 32.

Class CryptoOk `{Crypto} : Prop := {
  SHA256_length data : zlen (openssl_SHA256 data) = kSHA256DigestSize;
}.

(** [crypto::SHA256]: the digest, truncated or zero-padded to [digest_size]. *)
Definition crypto_SHA256 `{Crypto} (data : blob) (digest_size : Z) : blob :=
  let buffer := openssl_SHA256 data in
  if digest_size <? zlen buffer then slice buffer 0 digest_size
  else buffer ++ replicate (Z.to_nat (digest_size - zlen buffer)) 0.

(** ** Helpers *)

(** The loop of [ConstantTimeEquals]. *)
Fixpoint equals_loop (a b : blob) (result : Z) : Z :=
  match a, b with
  | x :: a, y :: b => equals_loop a b (Z.lor result (Z.lxor x y))
  | _, _ => result
  end.

Definition ConstantTimeEquals (a b : blob) : bool :=
  if negb (zlen a =? zlen b) then false else equals_loop a b 0 =? 0.

Definition SanitizeStorageStatus (status : Status) : Status :=
  match status with
  | kSuccess => kSuccess
  | kNotFound => kNotFound
  | kStorageError => kStorageError
  end.

Section Manager.
Context `{Allocator} `{NvramDefs} `{Crypto} {D : Type} `{Persistence D}.

(** [NVRAM_WIPE_STORAGE_SUPPORT]. *)
Variable wipe_support : bool.

Definition kSupportedControlsMask : Z :=
  fold_left (fun m c => Z.lor m (Z.shiftl 1 c)) all_controls 0.

(** The loop of [GetControlsVector] from [control] on. *)
Fixpoint controls_loop (n : nat) (control : Z) (space : NvramSpace) (acc : list Z)
    : Z * list Z :=
  match n with
  | O => (NV_RESULT_SUCCESS, acc)
  | S n =>
      if HasControl space control then
        if Vector_Resize (zlen acc + 1)
        then controls_loop n (control + 1) space (acc ++ [control])
        else (NV_RESULT_INTERNAL_ERROR, acc)
      else controls_loop n (control + 1) space acc
  end.

Definition GetControlsVector (space : NvramSpace) (controls : list Z) : Z * list Z :=
  controls_loop 32 0 space controls.

(** [FindSpace]. *)
Definition FindSpace (index : Z) (l : list SpaceListEntry) : nat :=
  match list_find (fun e => entry_index e = index) l with
  | Some (i, _) => i
  | None => kMaxSpaces
  end.

(** [spaces_[num_spaces_++] = entry]; the array has [kMaxSpaces] elements. *)
Definition push_space (entry : SpaceListEntry) : M D () :=
  m ← get_manager;
  if decide (length (spaces m) < kMaxSpaces)%nat
  then modify (set_spaces (spaces m ++ [entry]))
  else undefined.

(** [NvramManager::SpaceRecord]. *)
Record SpaceRecord := mkSpaceRecord {
  array_index : nat;
  transient : SpaceListEntry;
  persistent : NvramSpace;
}.

(** [SpaceRecord::CheckWriteAccess]. *)
Definition CheckWriteAccess (r : SpaceRecord) (auth : blob) : Z :=
  let p := persistent r in
  if HasControl p NV_CONTROL_PERSISTENT_WRITE_LOCK && Space_HasFlag p kFlagWriteLocked
  then NV_RESULT_OPERATION_DISABLED
  else if negb (HasControl p NV_CONTROL_PERSISTENT_WRITE_LOCK)
          && HasControl p NV_CONTROL_BOOT_WRITE_LOCK && write_locked (transient r)
  then NV_RESULT_OPERATION_DISABLED
  else if HasControl p NV_CONTROL_WRITE_AUTHORIZATION
          && negb (ConstantTimeEquals (authorization_value p) auth)
  then NV_RESULT_ACCESS_DENIED
  else NV_RESULT_SUCCESS.

(** [SpaceRecord::CheckReadAccess]. *)
Definition CheckReadAccess (r : SpaceRecord) (auth : blob) : Z :=
  let p := persistent r in
  if HasControl p NV_CONTROL_BOOT_READ_LOCK && read_locked (transient r)
  then NV_RESULT_OPERATION_DISABLED
  else if HasControl p NV_CONTROL_READ_AUTHORIZATION
          && negb (ConstantTimeEquals (authorization_value p) auth)
  then NV_RESULT_ACCESS_DENIED
  else NV_RESULT_SUCCESS.

(** The header [WriteHeader] composes. *)
Definition current_header (m : NvramManager) (provisional : option Z) : NvramHeader :=
  mkNvramHeader kVersion
    (if disable_create m then Z.lor 0 kFlagDisableCreate else 0)
    (map entry_index (spaces m)) provisional.

(** [WriteHeader]. *)
Definition WriteHeader (provisional : option Z) : M D Z :=
  m ← get_manager;
  if negb (Vector_Resize (zlen (spaces m))) then mret NV_RESULT_INTERNAL_ERROR
  else
    st ← storage_write (fun f d => persistence_StoreHeader f d (current_header m provisional));
    mret (if decide (SanitizeStorageStatus st = kSuccess)
          then NV_RESULT_SUCCESS else NV_RESULT_INTERNAL_ERROR).

(** [WriteSpace(index, space)]. *)
Definition WriteSpaceData (index : Z) (space : NvramSpace) : M D Z :=
  st ← storage_write (fun f d => persistence_StoreSpace f d index space);
  mret (if decide (SanitizeStorageStatus st = kSuccess)
        then NV_RESULT_SUCCESS else NV_RESULT_INTERNAL_ERROR).

(** The loop of [Initialize] over the allocated indices; the result is
    [delete_provisional_space]. *)
Fixpoint init_spaces (indices : list Z) (provisional : option Z) (in_storage del : bool)
    : M D bool :=
  match indices with
  | [] => mret del
  | index :: indices =>
      if decide (provisional = Some index) then
        if negb in_storage then init_spaces indices provisional in_storage del
        else
          _ ← push_space (mkEntry index false false);
          init_spaces indices provisional in_storage false
      else
        _ ← push_space (mkEntry index false false);
        init_spaces indices provisional in_storage del
  end.

(** The check of the provisional space in [Initialize]. *)
Definition provisional_in_storage (provisional : option Z) : M D bool :=
  match provisional with
  | None => mret false
  | Some index =>
      '(st, _) ← storage_read (fun f d => persistence_LoadSpace f d index);
      mret (match SanitizeStorageStatus st with
            | kStorageError => true
            | kNotFound => false
            | kSuccess => true
            end)
  end.

(** The deletion of a half-deleted space in [Initialize]; [false] is a
    storage error. *)
Definition delete_provisional (del : bool) (provisional : option Z) : M D bool :=
  match del, provisional with
  | true, Some index =>
      st ← storage_write (fun f d => persistence_DeleteSpace f d index);
      mret (match SanitizeStorageStatus st with
            | kStorageError => false
            | kNotFound => true
            | kSuccess => true
            end)
  | _, _ => mret true
  end.

(** [Initialize] once a supported header is loaded. *)
Definition Initialize_from (header : NvramHeader) : M D bool :=
  let provisional := provisional_index header in
  in_storage ← provisional_in_storage provisional;
  if decide (kMaxSpaces < length (allocated_indices header))%nat then mret false
  else
    del ← init_spaces (allocated_indices header) provisional in_storage
            (match provisional with Some _ => true | None => false end);
    ok ← delete_provisional del provisional;
    if negb ok then mret false
    else
      _ ← modify (set_disable_create (Header_HasFlag header kFlagDisableCreate));
      _ ← modify (set_initialized true);
      match provisional with
      | Some _ => _ ← WriteHeader None; mret true
      | None => mret true
      end.

(** [Initialize]. *)
Definition Initialize : M D bool :=
  m ← get_manager;
  if initialized m then mret true
  else
    '(st, header) ← storage_read (fun f d => persistence_LoadHeader f d);
    match SanitizeStorageStatus st with
    | kStorageError => mret false
    | kNotFound => _ ← modify (set_initialized true); mret true
    | kSuccess =>
        if kVersion <? version header then mret false else Initialize_from header
    end.

(** [LoadSpaceRecord]: the record, or the result code of the failure. *)
Definition LoadSpaceRecord (index : Z) : M D (Z + SpaceRecord) :=
  m ← get_manager;
  let i := FindSpace index (spaces m) in
  if decide (i = kMaxSpaces) then mret (inl NV_RESULT_SPACE_DOES_NOT_EXIST)
  else
    match spaces m !! i with
    | None => undefined
    | Some entry =>
        '(st, space) ← storage_read (fun f d => persistence_LoadSpace f d index);
        match SanitizeStorageStatus st with
        | kStorageError => mret (inl NV_RESULT_INTERNAL_ERROR)
        | kNotFound => mret (inl NV_RESULT_INTERNAL_ERROR)
        | kSuccess => mret (inr (mkSpaceRecord i entry space))
        end
    end.

(** ** Handlers: the result code and the response *)

Definition GetInfo : M D (Z * GetInfoResponse) :=
  ok ← Initialize;
  if negb ok then mret (NV_RESULT_INTERNAL_ERROR, GetInfoResponse_init)
  else
    m ← get_manager;
    let n := zlen (spaces m) in
    let total := kMaxSpaceSize * Z.of_nat kMaxSpaces in
    let available := kMaxSpaceSize * (Z.of_nat kMaxSpaces - n) in
    if negb (Vector_Resize n) then
      mret (NV_RESULT_INTERNAL_ERROR,
            mkGetInfoResponse total available kMaxSpaceSize (Z.of_nat kMaxSpaces) [] false)
    else
      mret (NV_RESULT_SUCCESS,
            mkGetInfoResponse total available kMaxSpaceSize (Z.of_nat kMaxSpaces)
              (map entry_index (spaces m)) (disable_wipe m)).

(** The mask of the requested controls; a shift by 32 or more is undefined. *)
Fixpoint controls_mask (l : list Z) (mask : Z) : option Z :=
  match l with
  | [] => Some mask
  | c :: l =>
      let control := u32 c in
      if control <? 32 then controls_mask l (Z.lor mask (Z.shiftl 1 control)) else None
  end.

Definition has_bit (mask control : Z) : bool := negb (Z.land mask (Z.shiftl 1 control) =? 0).

(** The checks of the controls in [CreateSpace]. *)
Definition controls_acceptable (mask size : Z) : bool :=
  (Z.land mask (u32 (Z.lnot kSupportedControlsMask)) =? 0)
  && negb (has_bit mask NV_CONTROL_PERSISTENT_WRITE_LOCK
           && has_bit mask NV_CONTROL_BOOT_WRITE_LOCK)
  && negb (has_bit mask NV_CONTROL_WRITE_EXTEND && negb (size =? kSHA256DigestSize)).

(** [CreateSpace] after the checks. *)
Definition CreateSpace_alloc (request : CreateSpaceRequest) (mask : Z) : M D Z :=
  let index := csr_index request in
  _ ← push_space (mkEntry index false false);
  let space := mkNvramSpace 0 mask [] [] in
  let needs_auth := HasControl space NV_CONTROL_WRITE_AUTHORIZATION
                    || HasControl space NV_CONTROL_READ_AUTHORIZATION in
  match (if needs_auth then Blob_Assign (csr_authorization_value request) else Ret []) with
  | Ret auth =>
      if negb (Blob_Resize (csr_size request)) then mret NV_RESULT_INTERNAL_ERROR
      else
        let space := mkNvramSpace 0 mask auth (replicate (Z.to_nat (csr_size request)) 0) in
        result ← WriteHeader (Some index);
        result ← (if decide (result = NV_RESULT_SUCCESS) then WriteSpaceData index space
                  else mret result);
        if decide (result = NV_RESULT_SUCCESS) then mret result
        else
          _ ← modify (fun m => set_spaces (take (length (spaces m) - 1) (spaces m)) m);
          mret result
  | _ => mret NV_RESULT_INTERNAL_ERROR
  end.

Definition CreateSpace (request : CreateSpaceRequest) : M D Z :=
  ok ← Initialize;
  if negb ok then mret NV_RESULT_INTERNAL_ERROR
  else
    m ← get_manager;
    if disable_create m then mret NV_RESULT_OPERATION_DISABLED
    else if decide (FindSpace (csr_index request) (spaces m) <> kMaxSpaces)
    then mret NV_RESULT_SPACE_ALREADY_EXISTS
    else if decide (kMaxSpaces < length (spaces m) + 1)%nat
    then mret NV_RESULT_INVALID_PARAMETER
    else if kMaxSpaceSize <? csr_size request then mret NV_RESULT_INVALID_PARAMETER
    else if kMaxAuthSize <? zlen (csr_authorization_value request)
    then mret NV_RESULT_INVALID_PARAMETER
    else
      match controls_mask (csr_controls request) 0 with
      | None => undefined
      | Some mask =>
          if negb (controls_acceptable mask (csr_size request))
          then mret NV_RESULT_INVALID_PARAMETER
          else CreateSpace_alloc request mask
      end.

Definition GetSpaceInfo (request : GetSpaceInfoRequest) : M D (Z * GetSpaceInfoResponse) :=
  ok ← Initialize;
  if negb ok then mret (NV_RESULT_INTERNAL_ERROR, GetSpaceInfoResponse_init)
  else
    rec ← LoadSpaceRecord (gsi_index request);
    match rec with
    | inl result => mret (result, GetSpaceInfoResponse_init)
    | inr r =>
        let p := persistent r in
        let size := zlen (contents p) in
        let '(result, controls) := GetControlsVector p [] in
        if decide (result = NV_RESULT_SUCCESS) then
          mret (NV_RESULT_SUCCESS,
            mkGetSpaceInfoResponse size controls
              (if HasControl p NV_CONTROL_BOOT_READ_LOCK
               then read_locked (transient r) else false)
              (if HasControl p NV_CONTROL_PERSISTENT_WRITE_LOCK
               then Space_HasFlag p kFlagWriteLocked
               else if HasControl p NV_CONTROL_BOOT_WRITE_LOCK
               then write_locked (transient r) else false))
        else mret (NV_RESULT_INTERNAL_ERROR, mkGetSpaceInfoResponse size controls false false)
    end.

(** [spaces_[i] = spaces_[num_spaces_ - 1]; --num_spaces_]. *)
Definition swap_remove (i : nat) (l : list SpaceListEntry) : list SpaceListEntry :=
  match l !! (length l - 1)%nat with
  | Some e => take (length l - 1) (<[i := e]> l)
  | None => l
  end.

(** [DeleteSpace] after the access check. *)
Definition DeleteSpace_remove (index : Z) (r : SpaceRecord) : M D Z :=
  let readd result : M D Z :=
    _ ← push_space (transient r);
    mret result in
  _ ← modify (fun m => set_spaces (swap_remove (array_index r) (spaces m)) m);
  result ← WriteHeader (Some index);
  if decide (result = NV_RESULT_SUCCESS) then
    st ← storage_write (fun f d => persistence_DeleteSpace f d index);
    match SanitizeStorageStatus st with
    | kStorageError => readd NV_RESULT_INTERNAL_ERROR
    | kNotFound => mret NV_RESULT_SUCCESS
    | kSuccess => mret NV_RESULT_SUCCESS
    end
  else readd result.

Definition DeleteSpace (request : DeleteSpaceRequest) : M D Z :=
  ok ← Initialize;
  if negb ok then mret NV_RESULT_INTERNAL_ERROR
  else
    rec ← LoadSpaceRecord (dsr_index request);
    match rec with
    | inl result => mret result
    | inr r =>
        let result := CheckWriteAccess r (dsr_authorization_value request) in
        if decide (result = NV_RESULT_SUCCESS) then DeleteSpace_remove (dsr_index request) r
        else mret result
    end.

Definition DisableCreate : M D Z :=
  ok ← Initialize;
  if negb ok then mret NV_RESULT_INTERNAL_ERROR
  else
    m ← get_manager;
    let disable_create_previous := disable_create m in
    _ ← modify (set_disable_create true);
    result ← WriteHeader None;
    if decide (result = NV_RESULT_SUCCESS) then mret result
    else
      _ ← modify (set_disable_create disable_create_previous);
      mret result.

(** The new contents of a space, or the result code of the failure. *)
Definition updated_contents (p : NvramSpace) (buffer : blob) : Z + blob :=
  let old := contents p in
  if HasControl p NV_CONTROL_WRITE_EXTEND then
    if negb (Blob_Resize (zlen old + zlen buffer)) then inl NV_RESULT_INTERNAL_ERROR
    else inr (crypto_SHA256 (old ++ buffer) (zlen old))
  else if zlen old <? zlen buffer then inl NV_RESULT_INVALID_PARAMETER
  else inr (buffer ++ replicate (Z.to_nat (zlen old - zlen buffer)) 0).

Definition WriteSpace (request : WriteSpaceRequest) : M D Z :=
  ok ← Initialize;
  if negb ok then mret NV_RESULT_INTERNAL_ERROR
  else
    rec ← LoadSpaceRecord (wsr_index request);
    match rec with
    | inl result => mret result
    | inr r =>
        let p := persistent r in
        let result := CheckWriteAccess r (wsr_authorization_value request) in
        if decide (result = NV_RESULT_SUCCESS) then
          match updated_contents p (wsr_buffer request) with
          | inl result => mret result
          | inr data =>
              WriteSpaceData (wsr_index request)
                (mkNvramSpace (space_flags p) (controls p) (authorization_value p) data)
          end
        else mret result
    end.

Definition ReadSpace (request : ReadSpaceRequest) : M D (Z * ReadSpaceResponse) :=
  ok ← Initialize;
  if negb ok then mret (NV_RESULT_INTERNAL_ERROR, ReadSpaceResponse_init)
  else
    rec ← LoadSpaceRecord (rsr_index request);
    match rec with
    | inl result => mret (result, ReadSpaceResponse_init)
    | inr r =>
        let result := CheckReadAccess r (rsr_authorization_value request) in
        if decide (result = NV_RESULT_SUCCESS) then
          match Blob_Assign (contents (persistent r)) with
          | Ret data => mret (NV_RESULT_SUCCESS, mkReadSpaceResponse data)
          | _ => mret (NV_RESULT_INTERNAL_ERROR, ReadSpaceResponse_init)
          end
        else mret (result, ReadSpaceResponse_init)
    end.

(** Assignment through the [transient] pointer of a record. *)
Definition set_entry (i : nat) (f : SpaceListEntry -> SpaceListEntry) : M D () :=
  modify (fun m => set_spaces (alter f i (spaces m)) m).

Definition lock_write (e : SpaceListEntry) : SpaceListEntry :=
  mkEntry (entry_index e) true (read_locked e).

Definition lock_read (e : SpaceListEntry) : SpaceListEntry :=
  mkEntry (entry_index e) (write_locked e) true.

Definition LockSpaceWrite (request : LockSpaceWriteRequest) : M D Z :=
  ok ← Initialize;
  if negb ok then mret NV_RESULT_INTERNAL_ERROR
  else
    rec ← LoadSpaceRecord (lsw_index request);
    match rec with
    | inl result => mret result
    | inr r =>
        let p := persistent r in
        let result := CheckWriteAccess r (lsw_authorization_value request) in
        if decide (result = NV_RESULT_SUCCESS) then
          if HasControl p NV_CONTROL_PERSISTENT_WRITE_LOCK then
            WriteSpaceData (lsw_index request) (Space_SetFlag p kFlagWriteLocked)
          else if HasControl p NV_CONTROL_BOOT_WRITE_LOCK then
            _ ← set_entry (array_index r) lock_write;
            mret NV_RESULT_SUCCESS
          else mret NV_RESULT_INVALID_PARAMETER
        else mret result
    end.

Definition LockSpaceRead (request : LockSpaceReadRequest) : M D Z :=
  ok ← Initialize;
  if negb ok then mret NV_RESULT_INTERNAL_ERROR
  else
    rec ← LoadSpaceRecord (lsr_index request);
    match rec with
    | inl result => mret result
    | inr r =>
        let result := CheckReadAccess r (lsr_authorization_value request) in
        if decide (result = NV_RESULT_SUCCESS) then
          if HasControl (persistent r) NV_CONTROL_BOOT_READ_LOCK then
            _ ← set_entry (array_index r) lock_read;
            mret NV_RESULT_SUCCESS
          else mret NV_RESULT_INVALID_PARAMETER
        else mret result
    end.

(** The deletion loop of [WipeStorage]; [false] is a storage error. *)
Fixpoint wipe_loop (l : list SpaceListEntry) : M D bool :=
  match l with
  | [] => mret true
  | e :: l =>
      st ← storage_write (fun f d => persistence_DeleteSpace f d (entry_index e));
      match SanitizeStorageStatus st with
      | kStorageError => mret false
      | kNotFound => wipe_loop l
      | kSuccess => wipe_loop l
      end
  end.

Definition WipeStorage : M D Z :=
  ok ← Initialize;
  if negb ok then mret NV_RESULT_INTERNAL_ERROR
  else if negb wipe_support then mret NV_RESULT_OPERATION_DISABLED
  else
    m ← get_manager;
    if disable_wipe m then mret NV_RESULT_OPERATION_DISABLED
    else
      wiped ← wipe_loop (spaces m);
      if negb wiped then mret NV_RESULT_INTERNAL_ERROR
      else
        _ ← modify (set_spaces []);
        WriteHeader None.

Definition DisableWipe : M D Z :=
  ok ← Initialize;
  if negb ok then mret NV_RESULT_INTERNAL_ERROR
  else if negb wipe_support then mret NV_RESULT_OPERATION_DISABLED
  else
    _ ← modify (set_disable_wipe true);
    mret NV_RESULT_SUCCESS.

(** [Dispatch]: the response to a request. *)
Definition Dispatch (request : Request) : M D Response :=
  match req_payload request with
  | GetInfoReq _ => '(result, r) ← GetInfo; mret (mkResponse result (GetInfoResp r))
  | CreateSpaceReq q =>
      result ← CreateSpace q; mret (mkResponse result (CreateSpaceResp mkCreateSpaceResponse))
  | GetSpaceInfoReq q =>
      '(result, r) ← GetSpaceInfo q; mret (mkResponse result (GetSpaceInfoResp r))
  | DeleteSpaceReq q =>
      result ← DeleteSpace q; mret (mkResponse result (DeleteSpaceResp mkDeleteSpaceResponse))
  | DisableCreateReq _ =>
      result ← DisableCreate;
      mret (mkResponse result (DisableCreateResp mkDisableCreateResponse))
  | WriteSpaceReq q =>
      result ← WriteSpace q; mret (mkResponse result (WriteSpaceResp mkWriteSpaceResponse))
  | ReadSpaceReq q => '(result, r) ← ReadSpace q; mret (mkResponse result (ReadSpaceResp r))
  | LockSpaceWriteReq q =>
      result ← LockSpaceWrite q;
      mret (mkResponse result (LockSpaceWriteResp mkLockSpaceWriteResponse))
  | LockSpaceReadReq q =>
      result ← LockSpaceRead q;
      mret (mkResponse result (LockSpaceReadResp mkLockSpaceReadResponse))
  | WipeStorageReq _ =>
      result ← WipeStorage; mret (mkResponse result (WipeStorageResp mkWipeStorageResponse))
  | DisableWipeReq _ =>
      result ← DisableWipe; mret (mkResponse result (DisableWipeResp mkDisableWipeResponse))
  end.

End Manager.
