(* ===== verification/NvramLogic.v ===== *)
(** * NvramLogic: reasoning about manager programs

    [runs prog m k Q]: started with the manager object [m] on a device that
    holds the objects [k], the program ends with a result, a manager object
    and device contents that satisfy [Q]; if the power fails, what is left on
    the device satisfies [C]; undefined behaviour is excluded unless [U].  The
    rules for the storage calls follow from [PersistenceOk] alone, so that
    every theorem holds for every device that keeps its promises. *)
From S2P Require Import Prelude NvramIo NvramCodec NvramMessages NvramStorage NvramPersistence.
From S2P Require Import NvramManager.

Section Logic.
Context `{NvramDefsOk} `{Allocator} `{Crypto} {D : Type} `{PersistenceOk D}.

(** The faults the environment may cause, whether undefined behaviour is
    tolerated, and the crash invariant. *)
Context (F : fault -> Prop) (HF : F NoFault) (U : Prop) (C : Disk -> Prop).

Definition crashes : Prop := F CrashBefore \/ F CrashAfter.

Definition runs {A} (prog : M D A) (m : NvramManager) (k : Disk)
    (Q : A -> NvramManager -> Disk -> Prop) : Prop :=
  forall d fs, disk_abs d k -> Forall F fs ->
  match prog (mkWorld m d fs) with
  | Done a w => exists k', disk_abs (device w) k' /\ Forall F (faults w) /\ Q a (manager w) k'
  | Crashed d' => exists k', disk_abs d' k' /\ C k'
  | Undefined => U
  end.

(** ** Structural rules *)

Lemma runs_ret {A} (a : A) m k (Q : A -> NvramManager -> Disk -> Prop) :
  Q a m k -> runs (mret a) m k Q.
Proof using. intros HQ d fs Hd Hf. exists k. done. Qed.

Lemma runs_bind {A B} (p : M D A) (f : A -> M D B) m k Q :
  runs p m k (fun a m' k' => runs (f a) m' k' Q) -> runs (p ≫= f) m k Q.
Proof using.
  intros Hp d fs Hd Hf. specialize (Hp d fs Hd Hf). unfold mbind, M_bind.
  destruct (p _) as [a [m' d' fs']|d'|]; [|done|done].
  destruct Hp as (k' & Hd' & Hf' & Hrun). by apply Hrun.
Qed.

Lemma runs_mono {A} (p : M D A) m k (Q Q' : A -> NvramManager -> Disk -> Prop) :
  runs p m k Q -> (forall a m' k', Q a m' k' -> Q' a m' k') -> runs p m k Q'.
Proof using.
  intros Hp HQ d fs Hd Hf. specialize (Hp d fs Hd Hf).
  destruct (p _) as [a w|d'|]; [|done|done].
  destruct Hp as (k' & Hd' & Hf' & HQ'). eauto.
Qed.

Lemma runs_get m k (Q : NvramManager -> NvramManager -> Disk -> Prop) :
  Q m m k -> runs get_manager m k Q.
Proof using. intros HQ d fs Hd Hf. exists k. done. Qed.

Lemma runs_modify f m k (Q : () -> NvramManager -> Disk -> Prop) :
  Q () (f m) k -> runs (modify f) m k Q.
Proof using. intros HQ d fs Hd Hf. exists k. done. Qed.

Lemma runs_undefined {A} m k (Q : A -> NvramManager -> Disk -> Prop) :
  U -> runs undefined m k Q.
Proof using. intros HU d fs Hd Hf. exact HU. Qed.

(** ** Storage calls *)

Lemma next_fault_allowed fs f fs' :
  Forall F fs -> next_fault fs = (f, fs') -> F f /\ Forall F fs'.
Proof using HF.
  intros Hf. destruct fs as [|g fs]; simpl; intros [= <- <-]; [done|].
  by inversion Hf.
Qed.

(** A reading call, from the specification of its operation. *)
Lemma runs_read {A} (op : bool -> D -> outcome A) (R : bool -> A -> Prop) m k
    (Q : A -> NvramManager -> Disk -> Prop) :
  (forall f d, disk_abs d k -> exists a, op f d = Ret a /\ R f a) ->
  (crashes -> C k) -> (forall a, R false a -> Q a m k) ->
  (F IoError -> forall a, R true a -> Q a m k) ->
  runs (storage_read op) m k Q.
Proof using HF.
  intros Hop HC HQ HQ' d fs Hd Hf. unfold storage_read. cbn [faults device manager].
  destruct (next_fault fs) as [f fs'] eqn:E.
  destruct (next_fault_allowed _ _ _ Hf E) as [Hff Hfs'].
  destruct (Hop false d Hd) as (a & Ea & Ra), (Hop true d Hd) as (b & Eb & Rb).
  destruct f; rewrite ?Ea, ?Eb; cbn [device faults manager]; eauto 10.
  all: exists k; split; [done|]; apply HC; unfold crashes; auto.
Qed.

(** A writing call: its operation leads to one of the contents [R] allows. *)
Lemma runs_write (op : bool -> D -> outcome (Status * D)) (R : bool -> Status -> Disk -> Prop)
    m k (Q : Status -> NvramManager -> Disk -> Prop) :
  (forall f d, disk_abs d k ->
     exists st d' k', op f d = Ret (st, d') /\ disk_abs d' k' /\ R f st k') ->
  (crashes -> C k) -> (crashes -> forall st k', R false st k' -> C k') ->
  (forall st k', R false st k' -> Q st m k') ->
  (F IoError -> forall st k', R true st k' -> Q st m k') ->
  runs (storage_write op) m k Q.
Proof using HF.
  intros Hop HC HC' HQ HQ' d fs Hd Hf. unfold storage_write. cbn [faults device manager].
  destruct (next_fault fs) as [f fs'] eqn:E.
  destruct (next_fault_allowed _ _ _ Hf E) as [Hff Hfs'].
  destruct (Hop false d Hd) as (st & d1 & k1 & E1 & Hd1 & R1),
    (Hop true d Hd) as (st2 & d2 & k2 & E2 & Hd2 & R2).
  destruct f; rewrite ?E1, ?E2; cbn [device faults manager]; eauto 10.
  - exists k. split; [done|]. apply HC. by left.
  - exists k1. split; [done|]. eapply HC'; [by right|done].
Qed.

Lemma runs_LoadHeader m k (Q : Status * NvramHeader -> NvramManager -> Disk -> Prop) :
  (crashes -> C k) -> (forall h, disk_header k = Some h -> Q (kSuccess, h) m k) ->
  (disk_header k = None -> forall h, Q (kNotFound, h) m k) ->
  (F IoError -> forall h, Q (kStorageError, h) m k) ->
  runs (storage_read (fun f d => persistence_LoadHeader f d)) m k Q.
Proof using HF.
  intros HC Q1 Q2 Q3.
  apply (runs_read _ (fun f '(st, h) => match st with
           | kSuccess => disk_header k = Some h
           | kNotFound => disk_header k = None
           | kStorageError => f = true end)); try done.
  - intros f d Hd. destruct (load_header_spec f d k Hd) as (st & h & E & Hst).
    exists (st, h). done.
  - intros [[] h]; simpl; auto; done.
  - intros Hio [[] h]; simpl; auto.
Qed.

Lemma runs_LoadSpace i m k (Q : Status * NvramSpace -> NvramManager -> Disk -> Prop) :
  (crashes -> C k) -> (forall s, disk_spaces k !! i = Some s -> Q (kSuccess, s) m k) ->
  (disk_spaces k !! i = None -> forall s, Q (kNotFound, s) m k) ->
  (F IoError -> forall s, Q (kStorageError, s) m k) ->
  runs (storage_read (fun f d => persistence_LoadSpace f d i)) m k Q.
Proof using HF.
  intros HC Q1 Q2 Q3.
  apply (runs_read _ (fun f '(st, s) => match st with
           | kSuccess => disk_spaces k !! i = Some s
           | kNotFound => disk_spaces k !! i = None
           | kStorageError => f = true end)); try done.
  - intros f d Hd. destruct (load_space_spec f d k i Hd) as (st & s & E & Hst).
    exists (st, s). done.
  - intros [[] s]; simpl; auto; done.
  - intros Hio [[] s]; simpl; auto.
Qed.

Lemma runs_StoreHeader h m k (Q : Status -> NvramManager -> Disk -> Prop) :
  header_ok h -> (crashes -> C k) -> (crashes -> C (put_header h k)) ->
  Q kSuccess m (put_header h k) -> (F IoError -> Q kStorageError m k) ->
  runs (storage_write (fun f d => persistence_StoreHeader f d h)) m k Q.
Proof using HF.
  intros Hok HC HC' Q1 Q2.
  apply (runs_write _ (fun f st k' => st = kSuccess /\ k' = put_header h k
           \/ st = kStorageError /\ f = true /\ k' = k)); try done.
  - intros f d Hd. destruct (store_header_spec f d k h Hd Hok)
      as (st & d' & E & [[-> Hd']|(-> & -> & Hd')]); eauto 10.
  - intros Hc st k' [[-> ->]|(-> & ? & ->)]; auto.
  - intros st k' [[-> ->]|(-> & ? & ->)]; done.
  - intros Hio st k' [[-> ->]|(-> & ? & ->)]; auto.
Qed.

Lemma runs_StoreSpace i s m k (Q : Status -> NvramManager -> Disk -> Prop) :
  space_ok s -> (crashes -> C k) -> (crashes -> C (put_space i s k)) ->
  Q kSuccess m (put_space i s k) ->
  (F IoError \/ (device_spaces <= size (delete i (disk_spaces k)))%nat ->
   Q kStorageError m k) ->
  runs (storage_write (fun f d => persistence_StoreSpace f d i s)) m k Q.
Proof using HF.
  intros Hok HC HC' Q1 Q2.
  apply (runs_write _ (fun f st k' => st = kSuccess /\ k' = put_space i s k
           \/ st = kStorageError
              /\ (f = true \/ (device_spaces <= size (delete i (disk_spaces k)))%nat)
              /\ k' = k)); try done.
  - intros f d Hd. destruct (store_space_spec f d k i s Hd Hok)
      as (st & d' & E & [[-> Hd']|(-> & Hf & Hd')]); eauto 10.
  - intros Hc st k' [[-> ->]|(-> & ? & ->)]; auto.
  - intros st k' [[-> ->]|(-> & [|] & ->)]; auto; done.
  - intros Hio st k' [[-> ->]|(-> & ? & ->)]; auto.
Qed.

Lemma runs_DeleteSpace i m k (Q : Status -> NvramManager -> Disk -> Prop) :
  (crashes -> C k) -> (crashes -> C (drop_space i k)) ->
  (forall st, st <> kStorageError -> Q st m (drop_space i k)) ->
  (F IoError -> Q kStorageError m k) ->
  runs (storage_write (fun f d => persistence_DeleteSpace f d i)) m k Q.
Proof using HF.
  intros HC HC' Q1 Q2.
  apply (runs_write _ (fun f st k' => st <> kStorageError /\ k' = drop_space i k
           \/ st = kStorageError /\ f = true /\ k' = k)); try done.
  - intros f d Hd. destruct (delete_space_spec f d k i Hd)
      as (st & d' & E & [[Hst Hd']|(-> & -> & Hd')]).
    + exists st, d', (drop_space i k). split; [done|]. split; [done|]. by left.
    + exists kStorageError, d', k. split; [done|]. split; [done|]. by right.
  - intros Hc st k' [[? ->]|(-> & ? & ->)]; auto.
  - intros st k' [[? ->]|(-> & ? & ->)]; auto; done.
  - intros Hio st k' [[? ->]|(-> & ? & ->)]; auto.
Qed.

(** Device contents satisfy [disk_ok]. *)
Lemma runs_disk_ok {A} (p : M D A) m k Q : (disk_ok k -> runs p m k Q) -> runs p m k Q.
Proof using. intros Hp d fs Hd Hf. apply Hp; [by eapply disk_abs_ok|done|done]. Qed.

(** ** The space list *)

Definition indices (m : NvramManager) : list Z := map entry_index (spaces m).

(** The array of spaces holds at most [kMaxSpaces] 32-bit indices. *)
Definition mem_ok (m : NvramManager) : Prop :=
  (length (spaces m) <= kMaxSpaces)%nat /\ Forall (is_uint 32) (indices m).

Definition prov_ok (p : option Z) : Prop :=
  match p with Some i => is_uint 32 i | None => True end.

Lemma current_header_ok m p : mem_ok m -> prov_ok p -> header_ok (current_header m p).
Proof using.
  intros [Hl Hu] Hp. unfold header_ok, current_header, kVersion. simpl.
  split; [by unfold is_uint|]. split; [by destruct (disable_create m)|]. split; [done|].
  by rewrite length_map.
Qed.

Lemma FindSpace_found i l :
  FindSpace i l <> kMaxSpaces ->
  exists e, l !! FindSpace i l = Some e /\ entry_index e = i.
Proof using.
  unfold FindSpace. destruct (list_find _ l) as [[n e]|] eqn:E; [|done].
  apply list_find_Some in E as (Hn & He & _). eauto.
Qed.

Lemma FindSpace_absent i l :
  (length l <= kMaxSpaces)%nat -> FindSpace i l = kMaxSpaces <-> i ∉ map entry_index l.
Proof using.
  intros Hl. unfold FindSpace. destruct (list_find _ l) as [[n e]|] eqn:E.
  - apply list_find_Some in E as (Hn & He & _). pose proof (lookup_lt_Some _ _ _ Hn).
    split; [lia|]. intros []. apply list_elem_of_fmap. exists e.
    split; [done|]. by eapply list_elem_of_lookup_2.
  - apply list_find_None in E. split; [|done]. intros _ (e & -> & He)%list_elem_of_fmap.
    rewrite Forall_elem in E. by eapply (E e).
Qed.

Lemma runs_push e m k (Q : () -> NvramManager -> Disk -> Prop) :
  ((length (spaces m) < kMaxSpaces)%nat -> Q () (set_spaces (spaces m ++ [e]) m) k) ->
  ((kMaxSpaces <= length (spaces m))%nat -> U) ->
  runs (push_space e) m k Q.
Proof using.
  intros HQ HU. unfold push_space. apply runs_bind, runs_get.
  destruct (decide _); [apply runs_modify; auto|apply runs_undefined, HU; lia].
Qed.

(** ** The manager's own helpers *)

Lemma runs_WriteHeader p m k (Q : Z -> NvramManager -> Disk -> Prop) :
  mem_ok m -> prov_ok p -> (crashes -> C k) ->
  (crashes -> C (put_header (current_header m p) k)) ->
  Q NV_RESULT_SUCCESS m (put_header (current_header m p) k) ->
  (F IoError \/ Vector_Resize (zlen (spaces m)) = false -> Q NV_RESULT_INTERNAL_ERROR m k) ->
  runs (WriteHeader p) m k Q.
Proof using HF.
  intros Hm Hp HC HC' HQ HQ'. unfold WriteHeader. apply runs_bind, runs_get.
  destruct (Vector_Resize _) eqn:E; simpl; [|by apply runs_ret; auto].
  apply runs_bind, runs_StoreHeader; try done; [by apply current_header_ok|..].
  - by apply runs_ret.
  - intros Hio. apply runs_ret. auto.
Qed.

Lemma runs_WriteSpaceData i s m k (Q : Z -> NvramManager -> Disk -> Prop) :
  space_ok s -> (crashes -> C k) -> (crashes -> C (put_space i s k)) ->
  Q NV_RESULT_SUCCESS m (put_space i s k) ->
  (F IoError \/ (device_spaces <= size (delete i (disk_spaces k)))%nat ->
   Q NV_RESULT_INTERNAL_ERROR m k) ->
  runs (WriteSpaceData i s) m k Q.
Proof using HF.
  intros Hs HC HC' HQ HQ'. unfold WriteSpaceData.
  apply runs_bind, runs_StoreSpace; try done.
  - by apply runs_ret.
  - intros Hio. apply runs_ret. auto.
Qed.

Lemma runs_LoadSpaceRecord i m k (Q : Z + SpaceRecord -> NvramManager -> Disk -> Prop) :
  (crashes -> C k) ->
  (FindSpace i (spaces m) = kMaxSpaces -> Q (inl NV_RESULT_SPACE_DOES_NOT_EXIST) m k) ->
  (forall e s, FindSpace i (spaces m) <> kMaxSpaces ->
     spaces m !! FindSpace i (spaces m) = Some e -> entry_index e = i ->
     disk_spaces k !! i = Some s ->
     Q (inr (mkSpaceRecord (FindSpace i (spaces m)) e s)) m k) ->
  (FindSpace i (spaces m) <> kMaxSpaces -> F IoError \/ disk_spaces k !! i = None ->
     Q (inl NV_RESULT_INTERNAL_ERROR) m k) ->
  runs (LoadSpaceRecord i) m k Q.
Proof using HF.
  intros HC Hno Hyes Herr. unfold LoadSpaceRecord. apply runs_bind, runs_get.
  destruct (decide _) as [E|Hn]; [by apply runs_ret; auto|].
  destruct (FindSpace_found _ _ Hn) as (e & He & Hi). rewrite He.
  apply runs_bind, runs_LoadSpace; [done|..]; simpl.
  - intros s Hs. apply runs_ret. auto.
  - intros Hs s. apply runs_ret. auto.
  - intros Hio s. apply runs_ret. auto.
Qed.

(** ** Initialization *)

Definition fresh_entry (i : Z) : SpaceListEntry := mkEntry i false false.

(** The indices [init_spaces] adds: all but a provisional one without data. *)
Definition kept (p : option Z) (in_storage : bool) (l : list Z) : list Z :=
  filter (fun i => p = Some i -> in_storage = true) l.

(** The provisional index is among the allocated ones. *)
Definition names_provisional (p : option Z) (l : list Z) : bool :=
  match p with Some i => bool_decide (i ∈ l) | None => false end.

Lemma set_spaces_id m : set_spaces (spaces m) m = m.
Proof using. by destruct m. Qed.

Lemma runs_init_spaces l p ins del m k (Q : bool -> NvramManager -> Disk -> Prop) :
  (length (spaces m) <= kMaxSpaces)%nat ->
  ((length (spaces m) + length (kept p ins l) <= kMaxSpaces)%nat ->
   Q (del && negb (ins && names_provisional p l))
     (set_spaces (spaces m ++ map fresh_entry (kept p ins l)) m) k) ->
  ((kMaxSpaces < length (spaces m) + length (kept p ins l))%nat -> U) ->
  runs (init_spaces l p ins del) m k Q.
Proof using.
  revert m del. induction l as [|i l IH]; intros m del Hm HQ HU.
  { apply runs_ret. revert HQ. cbn [kept filter list_filter map length].
    rewrite app_nil_r, set_spaces_id.
    replace (del && negb (ins && names_provisional p [])) with del; [intros HQ; apply HQ; lia|].
    destruct p, del, ins; done. }
  assert (Hpush : forall b, del && negb (ins && names_provisional p (i :: l))
              = b && negb (ins && names_provisional p l) ->
            kept p ins (i :: l) = i :: kept p ins l ->
            runs (_ ← push_space (mkEntry i false false); init_spaces l p ins b) m k Q).
  { intros b Hb Hk. rewrite Hb, Hk in HQ. rewrite Hk in HU. simpl in HQ, HU.
    apply runs_bind, runs_push; [intros Hlt|intros; apply HU; lia].
    apply IH; simpl; rewrite length_app; simpl; [lia| |intros; apply HU; lia].
    intros Hle. rewrite <- app_assoc. apply HQ. lia. }
  cbn [init_spaces]. unfold kept in *. rewrite filter_cons in *.
  destruct (decide (p = Some i)) as [->|Hp].
  - destruct ins; simpl.
    + apply Hpush; [|by rewrite decide_True].
      cbn [names_provisional]. rewrite bool_decide_eq_true_2 by apply list_elem_of_here.
      by destruct del.
    + rewrite decide_False in HQ, HU by (intros Hf; by specialize (Hf eq_refl)).
      apply IH; [done|simpl in *; done|done].
  - apply Hpush; [|by rewrite decide_True]. f_equal. f_equal. f_equal.
    destruct p as [j|]; [|done]. simpl. apply bool_decide_ext.
    rewrite elem_of_cons. split; [by intros [->|]|by right].
Qed.

(** What [Initialize] can lead to. *)
Inductive init_post (m : NvramManager) (k : Disk) : bool -> NvramManager -> Disk -> Prop :=
| init_already : initialized m = true -> init_post m k true m k
| init_failed l :
    initialized m = false ->
    (F IoError \/ exists h, disk_header k = Some h /\ kVersion < version h) ->
    (l = [] \/ exists h ins, disk_header k = Some h
                /\ l = map fresh_entry (kept (provisional_index h) ins (allocated_indices h))) ->
    (length (spaces m) + length l <= kMaxSpaces)%nat ->
    init_post m k false (set_spaces (spaces m ++ l) m) k
| init_no_header :
    initialized m = false -> disk_header k = None -> init_post m k true (set_initialized true m) k
| init_loaded h ins m' k1 k2 :
    initialized m = false -> disk_header k = Some h -> version h <= kVersion ->
    (ins = false -> forall i, provisional_index h = Some i -> disk_spaces k !! i = None) ->
    m' = mkManager true (Header_HasFlag h kFlagDisableCreate) (disable_wipe m)
           (spaces m ++ map fresh_entry (kept (provisional_index h) ins (allocated_indices h))) ->
    (length (spaces m') <= kMaxSpaces)%nat ->
    k1 = match provisional_index h with
         | Some i => if ins && bool_decide (i ∈ allocated_indices h) then k else drop_space i k
         | None => k
         end ->
    (k2 = k1 /\ (provisional_index h = None \/ F IoError \/ crashes
                 \/ Vector_Resize (zlen (spaces m')) = false)
     \/ k2 = put_header (current_header m' None) k1 /\ provisional_index h <> None) ->
    init_post m k true m' k2.

Lemma kept_ok p ins l : Forall (is_uint 32) l -> Forall (is_uint 32) (kept p ins l).
Proof using.
  rewrite !Forall_elem. intros Hl i [_ Hi]%list_elem_of_filter. by apply Hl.
Qed.

Lemma kept_length p ins l : (length (kept p ins l) <= length l)%nat.
Proof using. apply length_filter. Qed.

Lemma runs_provisional_in_storage p m k (Q : bool -> NvramManager -> Disk -> Prop) :
  (crashes -> C k) ->
  (forall ins, (ins = false -> forall i, p = Some i -> disk_spaces k !! i = None) -> Q ins m k) ->
  runs (provisional_in_storage p) m k Q.
Proof using HF.
  intros HC HQ. destruct p as [i|]; simpl; [|apply runs_ret; by apply HQ].
  apply runs_bind, runs_LoadSpace; [done|..]; simpl.
  - intros s Hs. apply runs_ret. by apply HQ.
  - intros Hs s. apply runs_ret. apply HQ. by intros _ ? [= <-].
  - intros Hio s. apply runs_ret. by apply HQ.
Qed.

Lemma runs_delete_provisional del p m k (Q : bool -> NvramManager -> Disk -> Prop) :
  (crashes -> C k) ->
  (crashes -> forall i, del = true -> p = Some i -> C (drop_space i k)) ->
  Q true m (match p with Some i => if del then drop_space i k else k | None => k end) ->
  (F IoError -> Q false m k) ->
  runs (delete_provisional del p) m k Q.
Proof using HF.
  intros HC HC' HQ HQ'. destruct del, p as [i|]; simpl; try (by apply runs_ret).
  apply runs_bind, runs_DeleteSpace; [done|auto|..].
  - intros [] Hst; try done; by apply runs_ret.
  - intros Hio. apply runs_ret. auto.
Qed.

(** [Initialize] after the space list is filled. *)
Lemma runs_Initialize_loaded h ins m k (Q : bool -> NvramManager -> Disk -> Prop) :
  mem_ok m -> initialized m = false -> disk_header k = Some h -> header_ok h ->
  version h <= kVersion ->
  (ins = false -> forall i, provisional_index h = Some i -> disk_spaces k !! i = None) ->
  (length (spaces m)
   + length (kept (provisional_index h) ins (allocated_indices h)) <= kMaxSpaces)%nat ->
  (crashes -> C k) -> (crashes -> forall b m' k', init_post m k b m' k' -> C k') ->
  (forall b m' k', init_post m k b m' k' -> Q b m' k') ->
  let m1 := set_spaces (spaces m ++ map fresh_entry
              (kept (provisional_index h) ins (allocated_indices h))) m in
  runs (ok ← delete_provisional
          (match provisional_index h with Some _ => true | None => false end
           && negb (ins && names_provisional (provisional_index h) (allocated_indices h)))
          (provisional_index h);
        if negb ok then mret false
        else
          _ ← modify (set_disable_create (Header_HasFlag h kFlagDisableCreate));
          _ ← modify (set_initialized true);
          match provisional_index h with
          | Some _ => _ ← WriteHeader None; mret true
          | None => mret true
          end) m1 k Q.
Proof using HF.
  intros [Hm Hmu] Hinit Hh (_ & _ & Hal & _ & _) Hv Hins Hle HC HC' HQ m1.
  set (m' := mkManager true (Header_HasFlag h kFlagDisableCreate) (disable_wipe m) (spaces m1)).
  assert (Hlen : (length (spaces m') <= kMaxSpaces)%nat).
  { simpl. rewrite length_app, length_map. done. }
  assert (Hok : mem_ok m').
  { split; [done|]. unfold indices. simpl. rewrite map_app, map_map.
    apply Forall_app. split; [done|]. rewrite map_id. by apply kept_ok. }
  assert (Hpost := fun k1 k2 => init_loaded m k h ins m' k1 k2 Hinit Hh Hv Hins eq_refl Hlen).
  apply runs_bind, runs_delete_provisional; try done.
  - intros Hc i Hdel Hp. eapply (HC' Hc true m'). eapply Hpost; [reflexivity|]. left.
    split; [|by auto]. rewrite Hp in *. simpl in Hdel. by destruct (ins && _).
  - simpl. apply runs_bind, runs_modify, runs_bind, runs_modify. fold m'.
    change (set_initialized true _) with m'.
    destruct (provisional_index h) as [i|] eqn:Hp; simpl.
    2: { apply runs_ret, HQ. eapply Hpost; [reflexivity|]. left. auto. }
    replace (if negb (ins && bool_decide (i ∈ allocated_indices h)) then drop_space i k else k)
      with (if ins && bool_decide (i ∈ allocated_indices h) then k else drop_space i k)
      by by destruct (ins && _).
    apply runs_bind, runs_WriteHeader; [done|done|..].
    + intros Hc. eapply (HC' Hc true m'). eapply Hpost; [reflexivity|]. left. auto.
    + intros Hc. eapply (HC' Hc true m'). eapply Hpost; [reflexivity|]. by right.
    + apply runs_ret, HQ. eapply Hpost; [reflexivity|]. by right.
    + intros Hf. apply runs_ret, HQ. eapply Hpost; [reflexivity|]. left. split; [done|].
      destruct Hf; auto.
  - intros Hio. simpl. apply runs_ret, HQ.
    apply init_failed; try done; [by left| |by rewrite length_map]. right. eauto.
Qed.

Lemma runs_Initialize m k (Q : bool -> NvramManager -> Disk -> Prop) :
  mem_ok m -> (crashes -> C k) ->
  (crashes -> forall b m' k', init_post m k b m' k' -> C k') ->
  (forall b m' k', init_post m k b m' k' -> Q b m' k') ->
  (U \/ initialized m = true \/ spaces m = []) ->
  runs Initialize m k Q.
Proof using HF.
  intros [Hm Hmu] HC HC' HQ HU. apply runs_disk_ok. intros [Hok _].
  unfold Initialize. apply runs_bind, runs_get.
  destruct (initialized m) eqn:Hinit; [by apply runs_ret, HQ, init_already|].
  assert (Hfail : (F IoError \/ exists h, disk_header k = Some h /\ kVersion < version h) ->
            runs (mret false) m k Q).
  { intros Hc. apply runs_ret, HQ.
    assert (E : m = set_spaces (spaces m ++ []) m) by by rewrite app_nil_r, set_spaces_id.
    rewrite E at 2. apply init_failed; simpl; [done|done|by left|lia]. }
  apply runs_bind, runs_LoadHeader; [done|..]; simpl; [|intros Hh h|auto].
  2: { apply runs_bind, runs_modify, runs_ret, HQ. by apply init_no_header. }
  intros h Hh. destruct (Z.ltb_spec kVersion (version h)); [by eauto|].
  unfold Initialize_from. apply runs_bind, runs_provisional_in_storage; [done|].
  intros ins Hins. rewrite Hh in Hok. pose proof Hok as (_ & _ & _ & Hlen & _).
  rewrite decide_False by lia.
  apply runs_bind, runs_init_spaces; [done| |intros Hover].
  2: { destruct HU as [|[|E]]; [done|congruence|]. rewrite E in Hover. simpl in Hover.
       pose proof (kept_length (provisional_index h) ins (allocated_indices h)). lia. }
  intros Hle.
  by apply (runs_Initialize_loaded h ins m k).
Qed.

End Logic.
