(* ===== verification/NvramSystem.v ===== *)
(** * NvramSystem: the service as a transition system

    [mstep] is the transition system the manager implements: the steps it
    takes on the pair of its state in memory and the objects on the device,
    each an atomic point at which the power may fail.  [Dispatch_steps] is the
    simulation: whatever the faults, every command is a sequence of such steps
    and a power loss leaves the device in a state along the sequence.  The
    invariants of the service (crash consistency, durability of locks,
    immutability of access controls) are proved by induction on the steps. *)
From S2P Require Import Prelude NvramIo NvramCodec NvramMessages NvramStorage NvramPersistence.
From S2P Require Import NvramManager NvramLogic.

Section System.
Context `{Hdefs : NvramDefsOk} `{Halloc : Allocator} `{Hcrypto : CryptoOk}.

(** Write access to space [i] is granted by the record loaded from [k]. *)
Definition may_write (m : NvramManager) (k : Disk) (i : Z) (s : NvramSpace) : Prop :=
  exists pos e auth, spaces m !! pos = Some e /\ entry_index e = i
    /\ disk_spaces k !! i = Some s
    /\ CheckWriteAccess (mkSpaceRecord pos e s) auth = NV_RESULT_SUCCESS.

(** What a write may change: contents of the same size, and the lock flag. *)
Definition space_update (s s' : NvramSpace) : Prop :=
  controls s' = controls s /\ authorization_value s' = authorization_value s
  /\ zlen (contents s') = zlen (contents s)
  /\ (space_flags s' = space_flags s \/ space_flags s' = Z.lor (space_flags s) kFlagWriteLocked).

Context (F : fault -> Prop) (wipe : bool).

Inductive mstep : NvramManager * Disk -> NvramManager * Disk -> Prop :=
| ms_init m k b m' k' : init_post F m k b m' k' -> mstep (m, k) (m', k')
| ms_push m k i :
    initialized m = true -> disable_create m = false -> i ∉ indices m -> is_uint 32 i ->
    (length (spaces m) < kMaxSpaces)%nat ->
    mstep (m, k) (set_spaces (spaces m ++ [fresh_entry i]) m, k)
| ms_header m k :
    initialized m = true -> mstep (m, k) (m, put_header (current_header m None) k)
| ms_create_header m k i :
    initialized m = true -> disable_create m = false -> i ∉ indices m -> is_uint 32 i ->
    (length (spaces m) < kMaxSpaces)%nat ->
    mstep (m, k) (m, put_header (current_header
                       (set_spaces (spaces m ++ [fresh_entry i]) m) (Some i)) k)
| ms_create m k i s :
    initialized m = true -> disable_create m = false -> i ∉ indices m -> is_uint 32 i ->
    (length (spaces m) < kMaxSpaces)%nat ->
    disk_header k = Some (current_header
                            (set_spaces (spaces m ++ [fresh_entry i]) m) (Some i)) ->
    mstep (m, k) (set_spaces (spaces m ++ [fresh_entry i]) m, put_space i s k)
| ms_update m k i s s' :
    initialized m = true -> may_write m k i s -> space_update s s' ->
    mstep (m, k) (m, put_space i s' k)
| ms_delete_header m k i s pos e :
    initialized m = true -> may_write m k i s -> spaces m !! pos = Some e ->
    entry_index e = i ->
    mstep (m, k) (m, put_header (current_header
                       (set_spaces (swap_remove pos (spaces m)) m) (Some i)) k)
| ms_delete_data m k i s h :
    initialized m = true -> may_write m k i s -> disk_header k = Some h ->
    provisional_index h = Some i ->
    mstep (m, k) (m, drop_space i k)
| ms_remove m k pos e :
    initialized m = true -> spaces m !! pos = Some e ->
    disk_spaces k !! entry_index e = None ->
    mstep (m, k) (set_spaces (swap_remove pos (spaces m)) m, k)
| ms_permute m k l :
    initialized m = true -> l ≡ₚ spaces m -> mstep (m, k) (set_spaces l m, k)
| ms_disable_create m k :
    initialized m = true ->
    mstep (m, k) (set_disable_create true m,
                  put_header (current_header (set_disable_create true m) None) k)
| ms_lock m k pos f :
    initialized m = true -> f = lock_write \/ f = lock_read ->
    mstep (m, k) (set_spaces (alter f pos (spaces m)) m, k)
| ms_disable_wipe m k :
    initialized m = true -> mstep (m, k) (set_disable_wipe true m, k)
| ms_wipe_data m k i :
    wipe = true -> initialized m = true -> disable_wipe m = false -> mstep (m, k) (m, drop_space i k)
| ms_wipe_spaces m k :
    wipe = true -> initialized m = true -> disable_wipe m = false ->
    (forall i, i ∈ indices m -> disk_spaces k !! i = None) ->
    mstep (m, k) (set_spaces [] m, k).

Abbreviation steps := (rtc mstep).

(** ** The space list *)

Lemma swap_remove_perm pos l e :
  l !! pos = Some e -> swap_remove pos l ++ [e] ≡ₚ l.
Proof using.
  intros Hp. destruct l as [|x l0 _] using rev_ind; [done|].
  unfold swap_remove. rewrite length_app. simpl. rewrite Nat.add_sub.
  rewrite list_lookup_middle by done.
  pose proof (lookup_lt_Some _ _ _ Hp) as Hlt. rewrite length_app in Hlt. simpl in Hlt.
  destruct (decide (pos = length l0)) as [->|Hne].
  - rewrite list_lookup_middle in Hp by done. injection Hp as ->.
    rewrite list_insert_id by by rewrite list_lookup_middle.
    by rewrite take_app_length.
  - rewrite lookup_app_l in Hp by lia. rewrite insert_app_l by lia.
    rewrite take_app_length' by by rewrite length_insert.
    rewrite insert_take_drop by lia. rewrite <- (take_drop_middle l0 pos e Hp) at 3.
    solve_Permutation.
Qed.

Lemma swap_remove_indices pos l e :
  l !! pos = Some e ->
  map entry_index l ≡ₚ entry_index e :: map entry_index (swap_remove pos l).
Proof using.
  intros Hp. rewrite <- (swap_remove_perm pos l e Hp) at 1. rewrite map_app. simpl.
  symmetry. apply Permutation_cons_append.
Qed.

Lemma swap_remove_length pos l e :
  l !! pos = Some e -> length l = S (length (swap_remove pos l)).
Proof using.
  intros Hp. rewrite <- (swap_remove_perm pos l e Hp) at 1. rewrite length_app. simpl. lia.
Qed.

(** ** Simulation *)

Section Simulation.
Context {D : Type} `{HP : PersistenceOk D} (HF : F NoFault) (wipe_support : bool).
Context (U : Prop) (o : NvramManager * Disk).

Definition reach (m : NvramManager) (k : Disk) : Prop := steps o (m, k).
Definition reachC (k : Disk) : Prop := exists m, reach m k.

(** The program keeps to the steps of the transition system. *)
Definition sim {A} (prog : M D A) (m : NvramManager) (k : Disk) : Prop :=
  runs F U reachC prog m k (fun _ m' k' => reach m' k' /\ mem_ok m').

Lemma reach_step m k m' k' : reach m k -> mstep (m, k) (m', k') -> reach m' k'.
Proof using. intros Hr Hs. by eapply rtc_r. Qed.

Lemma reach_C m k : reach m k -> reachC k.
Proof using. by exists m. Qed.

Lemma init_post_ok m k b m' k' :
  mem_ok m -> disk_ok k -> init_post F m k b m' k' ->
  mem_ok m' /\ (b = true -> initialized m' = true).
Proof using.
  intros [Hl Hu] [Hh _] Hp. destruct Hp as [Hi|l Hi _ Hl' Hlen|Hi Hn|h ins m' k1 k2 Hi Hd _ _ -> Hlen _ _].
  - by split.
  - split; [|done]. split; [simpl; rewrite length_app; lia|]. unfold indices. simpl.
    rewrite map_app. apply Forall_app. split; [done|].
    destruct Hl' as [->|(h & ins & Hd & ->)]; [done|]. rewrite Hd in Hh.
    rewrite map_map, map_id. apply kept_ok, Hh.
  - by split.
  - split; [|done]. split; [done|]. unfold indices. simpl. rewrite map_app. apply Forall_app.
    split; [done|]. rewrite Hd in Hh. rewrite map_map, map_id. apply kept_ok, Hh.
Qed.

(** Every handler starts with [Initialize]. *)
Lemma sim_Initialize {A} (failed : A) (body : M D A) m k :
  reach m k -> mem_ok m -> (U \/ initialized m = true \/ spaces m = []) ->
  (forall m' k', reach m' k' -> mem_ok m' -> initialized m' = true -> sim body m' k') ->
  sim (ok ← Initialize; if negb ok then mret failed else body) m k.
Proof using HF.
  intros Hr Hm HU Hbody. apply runs_disk_ok. intros Hk.
  apply runs_bind, runs_Initialize; try done.
  - intros _. by eapply reach_C.
  - intros _ b m' k' Hp. eapply reach_C, reach_step; [done|]. by eapply ms_init.
  - intros b m' k' Hp. destruct (init_post_ok m k b m' k' Hm Hk Hp) as [Hm' Hb].
    assert (Hr' : reach m' k') by (eapply reach_step; [done|by eapply ms_init]).
    destruct b; simpl; [by apply Hbody; auto|by apply runs_ret].
Qed.

(** ... and most go on to load a space record. *)
Lemma sim_LoadSpaceRecord {A} (f : Z + SpaceRecord -> M D A) i m k :
  reach m k ->
  (forall r, sim (f (inl r)) m k) ->
  (forall pos e s, spaces m !! pos = Some e -> entry_index e = i ->
     disk_spaces k !! i = Some s -> sim (f (inr (mkSpaceRecord pos e s))) m k) ->
  sim (LoadSpaceRecord i ≫= f) m k.
Proof using HF.
  intros Hr Hl Hf. apply runs_bind, runs_LoadSpaceRecord; [done|..].
  - intros _. by eapply reach_C.
  - intros _. apply Hl.
  - intros e s _ He Hi Hs. by apply Hf.
  - intros _ _. apply Hl.
Qed.

Lemma sim_ret {A} (a : A) m k : reach m k -> mem_ok m -> sim (mret a) m k.
Proof using. intros Hr Hm. by apply runs_ret. Qed.

Lemma mem_ok_perm m l : mem_ok m -> l ≡ₚ spaces m -> mem_ok (set_spaces l m).
Proof using.
  intros [Hl Hu] Hp. split; [simpl; by rewrite Hp|]. unfold indices in *. simpl.
  by rewrite Hp.
Qed.

Lemma mem_ok_push m i :
  mem_ok m -> (length (spaces m) < kMaxSpaces)%nat -> is_uint 32 i ->
  mem_ok (set_spaces (spaces m ++ [fresh_entry i]) m).
Proof using.
  intros [Hl Hu] Hlt Hi. split; [simpl; rewrite length_app; simpl; lia|].
  unfold indices in *. simpl. rewrite map_app. apply Forall_app. split; [done|].
  by apply Forall_singleton.
Qed.

Lemma mem_ok_remove m pos e :
  mem_ok m -> spaces m !! pos = Some e ->
  is_uint 32 (entry_index e) /\ mem_ok (set_spaces (swap_remove pos (spaces m)) m).
Proof using.
  intros [Hl Hu] Hp. pose proof (swap_remove_length _ _ _ Hp).
  unfold indices in Hu. rewrite (swap_remove_indices _ _ _ Hp) in Hu.
  inversion Hu; subst. split; [done|]. split; [simpl; lia|done].
Qed.

Lemma alter_indices f pos l :
  f = lock_write \/ f = lock_read ->
  map entry_index (alter f pos l) = map entry_index l.
Proof using.
  intros Hf. apply list_eq. intros n.
  change (map entry_index) with (fmap (M := list) entry_index).
  rewrite !list_lookup_fmap. destruct (decide (n = pos)) as [->|].
  - rewrite list_lookup_alter_eq. by destruct (l !! pos), Hf as [->| ->].
  - by rewrite list_lookup_alter_ne.
Qed.

Lemma mem_ok_lock m pos f :
  mem_ok m -> f = lock_write \/ f = lock_read ->
  mem_ok (set_spaces (alter f pos (spaces m)) m).
Proof using.
  intros [Hl Hu] Hf. split; [simpl; by rewrite length_alter|].
  unfold indices in *. simpl. by rewrite alter_indices.
Qed.

(** A write to a space the caller may write. *)
Lemma sim_WriteSpaceData i s s' m k :
  reach m k -> mem_ok m -> initialized m = true -> may_write m k i s -> space_update s s' ->
  space_ok s' -> sim (WriteSpaceData i s') m k.
Proof using HF.
  intros Hr Hm Hi Hw Hu Hok.
  assert (Hr' : reach m (put_space i s' k)) by (eapply reach_step; [done|by eapply ms_update]).
  apply runs_WriteSpaceData; try done; intros; by eapply reach_C.
Qed.

Lemma sim_DeleteSpace_remove i pos e s auth m k :
  reach m k -> mem_ok m -> initialized m = true -> spaces m !! pos = Some e ->
  entry_index e = i -> disk_spaces k !! i = Some s ->
  CheckWriteAccess (mkSpaceRecord pos e s) auth = NV_RESULT_SUCCESS ->
  sim (DeleteSpace_remove i (mkSpaceRecord pos e s)) m k.
Proof using HF Hdefs.
  intros Hr Hm Hinit Hp He Hs Hc. unfold DeleteSpace_remove.
  apply runs_bind, runs_modify. cbn [array_index transient].
  set (m1 := set_spaces _ m). destruct (mem_ok_remove m pos e Hm Hp) as [Hi Hm1].
  rewrite He in Hi.
  assert (Hw : may_write m k i s) by (exists pos, e, auth; done).
  set (k1 := put_header (current_header m1 (Some i)) k).
  assert (Hr1 : reach m k1) by (eapply reach_step; [done|by eapply ms_delete_header]).
  assert (Hreadd : forall (r : Z) k', reach m k' ->
    sim (_ ← push_space e; mret r) m1 k').
  { intros r k' Hk'. pose proof (swap_remove_length _ _ _ Hp).
    apply runs_bind, runs_push; simpl; [intros _|intros; destruct Hm; lia].
    assert (Hperm := swap_remove_perm pos (spaces m) e Hp).
    change (set_spaces _ m1) with (set_spaces (swap_remove pos (spaces m) ++ [e]) m).
    apply sim_ret; [|by apply (mem_ok_perm m)].
    eapply reach_step; [done|]. by eapply ms_permute. }
  apply runs_bind, runs_WriteHeader; try done; [intros; by eapply reach_C..| |].
  - rewrite decide_True by done.
    assert (Hr2 : reach m (drop_space i k1)).
    { eapply reach_step; [done|]. eapply ms_delete_data; [done| |done|done].
      exists pos, e, auth. done. }
    apply runs_bind, runs_DeleteSpace; [done|intros; by eapply reach_C..| |].
    + assert (Hdone : sim (mret NV_RESULT_SUCCESS) m1 (drop_space i k1)).
      { apply sim_ret; [|done]. eapply reach_step; [exact Hr2|].
        eapply ms_remove; [done|exact Hp|]. rewrite He. simpl. apply lookup_delete_eq. }
      intros [] Hst; try done; exact Hdone.
    + intros Hio. simpl. by apply Hreadd.
  - intros Hf. rewrite decide_False by error_code. by apply Hreadd.
Qed.

Lemma sim_CreateSpace_alloc q mask m k :
  reach m k -> mem_ok m -> initialized m = true -> disable_create m = false ->
  csr_index q ∉ indices m -> is_uint 32 (csr_index q) ->
  (length (spaces m) < kMaxSpaces)%nat -> is_uint 32 mask ->
  csr_size q <= kMaxSpaceSize -> zlen (csr_authorization_value q) <= kMaxAuthSize ->
  sim (CreateSpace_alloc q mask) m k.
Proof using HF Hdefs.
  intros Hr Hm Hinit Hdc Hnew Hi Hlt Hmask Hsize Hauth. unfold CreateSpace_alloc.
  apply runs_bind, runs_push; [intros _|intros; lia].
  change (mkEntry (csr_index q) false false) with (fresh_entry (csr_index q)).
  set (m1 := set_spaces _ m).
  assert (Hm1 : mem_ok m1) by by apply mem_ok_push.
  assert (Hfail : forall r : Z, sim (mret r) m1 k).
  { intros r. apply sim_ret; [|done]. eapply reach_step; [done|]. by apply ms_push. }
  destruct (if _ || _ then _ else _) as [auth| |] eqn:Ea; [|apply Hfail..].
  assert (Hla : zlen auth <= kMaxAuthSize).
  { destruct (_ || _); [|by injection Ea as <-].
    unfold Blob_Assign in Ea. destruct (blob_alloc_ok _); [|done]. by injection Ea as <-. }
  destruct (Blob_Resize (csr_size q)); simpl; [|apply Hfail].
  set (s := mkNvramSpace _ _ _ _).
  assert (Hs : space_ok s).
  { split; [by unfold is_uint|]. split; [done|]. split; [done|]. simpl.
    unfold zlen. rewrite length_replicate. unfold kMaxSpaceSize in *. lia. }
  assert (Hpop : forall (r : Z) k', reach m k' ->
    sim (_ ← modify (fun m => set_spaces (take (length (spaces m) - 1) (spaces m)) m); mret r)
      m1 k').
  { intros r k' Hk'. apply runs_bind, runs_modify. simpl. rewrite length_app. simpl.
    rewrite Nat.add_sub, take_app_length. change (set_spaces (spaces m) m1) with
      (set_spaces (spaces m) m). rewrite set_spaces_id. by apply sim_ret. }
  set (k1 := put_header (current_header m1 (Some (csr_index q))) k).
  assert (Hr1 : reach m k1) by (eapply reach_step; [done|by apply ms_create_header]).
  assert (Hr2 : reach m1 (put_space (csr_index q) s k1)).
  { eapply reach_step; [exact Hr1|]. by apply ms_create. }
  apply runs_bind, runs_WriteHeader; try done; [intros; by eapply reach_C..| |].
  - rewrite decide_True by done.
    apply runs_bind, runs_WriteSpaceData; try done; [intros; by eapply reach_C..| |].
    + rewrite decide_True by done. by apply sim_ret.
    + intros _. rewrite decide_False by error_code. by apply Hpop.
  - intros _. rewrite decide_False by error_code. apply runs_bind, runs_ret.
    rewrite decide_False by error_code. by apply Hpop.
Qed.

Lemma controls_mask_ok l mask mask' :
  is_uint 32 mask -> controls_mask l mask = Some mask' -> is_uint 32 mask'.
Proof using.
  revert mask. induction l as [|c l IH]; simpl; intros mask Hm; [congruence|].
  destruct (Z.ltb_spec (u32 c) 32); [|done]. apply IH. apply lor_uint; [lia|done|].
  pose proof (uint_range 32 c) as Hr. unfold is_uint in *. rewrite Z.shiftl_1_l.
  split; [lia|]. apply Z.pow_lt_mono_r; lia.
Qed.

Lemma sim_CreateSpace q m k :
  reach m k -> mem_ok m -> (U \/ initialized m = true \/ spaces m = []) ->
  is_uint 32 (csr_index q) -> (U \/ controls_mask (csr_controls q) 0 <> None) ->
  sim (CreateSpace q) m k.
Proof using HF Hdefs.
  intros Hr Hm HU Hi Hctl. apply sim_Initialize; try done.
  clear Hr Hm HU. clear m k. intros m k Hr Hm Hinit. apply runs_bind, runs_get.
  destruct (disable_create m) eqn:Hdc; [by apply sim_ret|].
  destruct (decide _) as [|Hf]; [by apply sim_ret|].
  destruct (decide _) as [|Hlt]; [by apply sim_ret|].
  destruct (Z.ltb_spec kMaxSpaceSize (csr_size q)); [by apply sim_ret|].
  destruct (Z.ltb_spec kMaxAuthSize (zlen (csr_authorization_value q))); [by apply sim_ret|].
  destruct (controls_mask _ _) as [mask|] eqn:Em;
    [|apply runs_undefined; by destruct Hctl].
  destruct (controls_acceptable _ _); simpl; [|by apply sim_ret].
  apply sim_CreateSpace_alloc; try done.
  - apply FindSpace_absent; [apply Hm|]. by apply dec_stable.
  - lia.
  - by eapply controls_mask_ok; [|exact Em].
Qed.

Lemma crypto_SHA256_length data n : 0 <= n -> zlen (crypto_SHA256 data n) = n.
Proof using.
  intros Hn. unfold crypto_SHA256. destruct (Z.ltb_spec n (zlen (openssl_SHA256 data))).
  - apply zlen_slice; lia.
  - rewrite zlen_app. unfold zlen at 2. rewrite length_replicate. lia.
Qed.

Lemma updated_contents_length p buffer data :
  updated_contents p buffer = inr data -> zlen data = zlen (contents p).
Proof using.
  unfold updated_contents. destruct (HasControl _ _).
  - destruct (Blob_Resize _); simpl; [|done]. intros [= <-].
    apply crypto_SHA256_length. zlen.
  - destruct (Z.ltb_spec (zlen (contents p)) (zlen buffer)); [done|]. intros [= <-].
    rewrite zlen_app. unfold zlen at 2. rewrite length_replicate. lia.
Qed.

(** The prefix shared by the handlers that work on one space. *)
Ltac on_record :=
  let m := fresh "m" in let k := fresh "k" in
  apply sim_Initialize; try done; intros m k Hr Hm Hinit;
  apply sim_LoadSpaceRecord; [done|intros r; by apply sim_ret|];
  intros pos e s Hp He Hs; cbn [persistent transient array_index].

Lemma sim_GetInfo m k :
  reach m k -> mem_ok m -> (U \/ initialized m = true \/ spaces m = []) -> sim GetInfo m k.
Proof using HF.
  intros Hr0 Hm0 HU. apply sim_Initialize; try done. intros m' k' Hr Hm Hinit.
  apply runs_bind, runs_get. cbv zeta. destruct (Vector_Resize _); by apply sim_ret.
Qed.

Lemma sim_GetSpaceInfo q m k :
  reach m k -> mem_ok m -> (U \/ initialized m = true \/ spaces m = []) ->
  sim (GetSpaceInfo q) m k.
Proof using HF.
  intros Hr0 Hm0 HU. on_record. destruct (GetControlsVector _ _).
  destruct (decide _); by apply sim_ret.
Qed.

Lemma sim_DeleteSpace q m k :
  reach m k -> mem_ok m -> (U \/ initialized m = true \/ spaces m = []) ->
  sim (DeleteSpace q) m k.
Proof using HF Hdefs.
  intros Hr0 Hm0 HU. on_record. destruct (decide _); [|by apply sim_ret].
  by eapply sim_DeleteSpace_remove.
Qed.

Lemma sim_DisableCreate m k :
  reach m k -> mem_ok m -> (U \/ initialized m = true \/ spaces m = []) ->
  sim DisableCreate m k.
Proof using HF Hdefs.
  intros Hr0 Hm0 HU. apply sim_Initialize; try done. clear m k Hr0 Hm0 HU. intros m k Hr Hm Hinit.
  apply runs_bind, runs_get, runs_bind, runs_modify.
  assert (Hr1 : reach (set_disable_create true m)
            (put_header (current_header (set_disable_create true m) None) k)).
  { eapply reach_step; [done|]. by apply ms_disable_create. }
  apply runs_bind, runs_WriteHeader; try done; [intros; by eapply reach_C..| |].
  - rewrite decide_True by done. by apply sim_ret.
  - intros _. rewrite decide_False by error_code. apply runs_bind, runs_modify.
    replace (set_disable_create _ _) with m by by destruct m. by apply sim_ret.
Qed.

Lemma sim_WriteSpace q m k :
  reach m k -> mem_ok m -> (U \/ initialized m = true \/ spaces m = []) ->
  sim (WriteSpace q) m k.
Proof using HF.
  intros Hr0 Hm0 HU. on_record. destruct (decide _) as [Hc|]; [|by apply sim_ret].
  destruct (updated_contents _ _) as [r|data] eqn:Eu; [by apply sim_ret|].
  pose proof (updated_contents_length _ _ _ Eu) as Hlen.
  apply runs_disk_ok. intros [_ Hok]. destruct (Hok _ _ Hs) as (? & ? & ? & ?).
  eapply (sim_WriteSpaceData _ s); try done.
  - by exists pos, e, (wsr_authorization_value q).
  - repeat split; [done|by left].
  - split; [done|]. split; [done|]. split; [done|]. simpl. by rewrite Hlen.
Qed.

Lemma sim_ReadSpace q m k :
  reach m k -> mem_ok m -> (U \/ initialized m = true \/ spaces m = []) ->
  sim (ReadSpace q) m k.
Proof using HF.
  intros Hr0 Hm0 HU. on_record. destruct (decide _); [|by apply sim_ret].
  destruct (Blob_Assign _); by apply sim_ret.
Qed.

Lemma sim_LockSpaceWrite q m k :
  reach m k -> mem_ok m -> (U \/ initialized m = true \/ spaces m = []) ->
  sim (LockSpaceWrite q) m k.
Proof using HF.
  intros Hr0 Hm0 HU. on_record. destruct (decide _) as [Hc|]; [|by apply sim_ret].
  destruct (HasControl _ _); [|destruct (HasControl _ _); [|by apply sim_ret]].
  - apply runs_disk_ok. intros [_ Hok]. destruct (Hok _ _ Hs) as (? & ? & ? & ?).
    eapply (sim_WriteSpaceData _ s); try done.
    + by exists pos, e, (lsw_authorization_value q).
    + repeat split. by right.
    + split; [|done]. simpl. apply lor_uint; [lia|done|by unfold is_uint].
  - apply runs_bind, runs_modify, sim_ret.
    + eapply reach_step; [done|]. apply ms_lock; auto.
    + apply mem_ok_lock; auto.
Qed.

Lemma sim_LockSpaceRead q m k :
  reach m k -> mem_ok m -> (U \/ initialized m = true \/ spaces m = []) ->
  sim (LockSpaceRead q) m k.
Proof using HF.
  intros Hr0 Hm0 HU. on_record. destruct (decide _) as [Hc|]; [|by apply sim_ret].
  destruct (HasControl _ _); [|by apply sim_ret].
  apply runs_bind, runs_modify, sim_ret.
  - eapply reach_step; [done|]. apply ms_lock; auto.
  - apply mem_ok_lock; auto.
Qed.

Lemma runs_wipe_loop l m k (Q : bool -> NvramManager -> Disk -> Prop) :
  wipe = true -> initialized m = true -> disable_wipe m = false -> reach m k ->
  (forall k', reach m k' -> Q false m k') ->
  (forall k', reach m k' -> (forall i, disk_spaces k !! i = None -> disk_spaces k' !! i = None) ->
     (forall e, e ∈ l -> disk_spaces k' !! entry_index e = None) -> Q true m k') ->
  runs F U reachC (wipe_loop l) m k Q.
Proof using HF.
  intros Hw Hi Hd. revert k. induction l as [|e l IH]; intros k Hr Hfail HQ; simpl.
  { apply runs_ret, HQ; [done|done|]. intros e He. by apply not_elem_of_nil in He. }
  assert (Hr' : reach m (drop_space (entry_index e) k))
    by (eapply reach_step; [done|by apply ms_wipe_data]).
  assert (Hnext : runs F U reachC (wipe_loop l) m (drop_space (entry_index e) k) Q).
  { apply IH; [done|done|]. intros k' Hk' Hsub Hl. apply HQ; [done|..].
    - intros i Hn. apply Hsub. simpl. by rewrite lookup_delete_None; right.
    - intros x [->|Hx]%elem_of_cons; [|by apply Hl]. apply Hsub. simpl.
      apply lookup_delete_eq. }
  apply runs_bind, runs_DeleteSpace; [done|intros; by eapply reach_C..| |].
  - intros [] Hst; try done; exact Hnext.
  - intros _. by apply runs_ret, Hfail.
Qed.

Lemma sim_WipeStorage m k :
  reach m k -> mem_ok m -> (U \/ initialized m = true \/ spaces m = []) ->
  (wipe_support = true -> wipe = true) -> sim (WipeStorage wipe_support) m k.
Proof using HF.
  intros Hr0 Hm0 HU Hw. apply sim_Initialize; try done. clear m k Hr0 Hm0 HU.
  intros m k Hr Hm Hinit. destruct wipe_support; simpl; [|by apply sim_ret].
  specialize (Hw eq_refl). apply runs_bind, runs_get.
  destruct (disable_wipe m) eqn:Hd; [by apply sim_ret|].
  apply runs_bind, runs_wipe_loop; try done; [intros k' Hk'; by apply sim_ret|].
  intros k' Hk' _ Hall. simpl. apply runs_bind, runs_modify.
  assert (Hr1 : reach (set_spaces [] m) k').
  { eapply reach_step; [done|]. apply ms_wipe_spaces; try done.
    intros i (e & -> & He)%list_elem_of_fmap. by apply Hall. }
  assert (Hr2 : reach (set_spaces [] m)
                  (put_header (current_header (set_spaces [] m) None) k')).
  { eapply reach_step; [exact Hr1|]. by apply ms_header. }
  assert (Hm' : mem_ok (set_spaces [] m)) by (split; simpl; [lia|done]).
  apply runs_WriteHeader; try done; intros; by eapply reach_C.
Qed.

Lemma sim_DisableWipe m k :
  reach m k -> mem_ok m -> (U \/ initialized m = true \/ spaces m = []) ->
  sim (DisableWipe wipe_support) m k.
Proof using HF.
  intros Hr0 Hm0 HU. apply sim_Initialize; try done. clear m k Hr0 Hm0 HU.
  intros m k Hr Hm Hinit. destruct wipe_support; simpl; [|by apply sim_ret].
  apply runs_bind, runs_modify, sim_ret; [|done].
  eapply reach_step; [done|]. by apply ms_disable_wipe.
Qed.

(** Requests as the decoder delivers them, and those whose controls do not
    overflow the shift in [CreateSpace]. *)
Definition request_wf (r : Request) : Prop :=
  match req_payload r with CreateSpaceReq q => is_uint 32 (csr_index q) | _ => True end.

Definition request_defined (r : Request) : Prop :=
  match req_payload r with
  | CreateSpaceReq q => controls_mask (csr_controls q) 0 <> None
  | _ => True
  end.

Definition is_wipe (r : Request) : bool :=
  match req_payload r with WipeStorageReq _ => wipe_support | _ => false end.

Lemma sim_map {A B} (p : M D A) (f : A -> B) m k :
  sim p m k -> sim (a ← p; mret (f a)) m k.
Proof using.
  intros Hp. apply runs_bind. eapply runs_mono; [exact Hp|]. intros a m' k' HQ. by apply runs_ret.
Qed.

Lemma sim_Dispatch r m k :
  reach m k -> mem_ok m -> (U \/ initialized m = true \/ spaces m = []) ->
  request_wf r -> (U \/ request_defined r) -> (is_wipe r = true -> wipe = true) ->
  sim (Dispatch wipe_support r) m k.
Proof using HF Hdefs.
  intros Hr Hm HU Hwf Hdef Hw. unfold Dispatch, request_wf, request_defined, is_wipe in *.
  destruct (req_payload r).
  - apply runs_bind. eapply runs_mono; [by apply sim_GetInfo|].
    intros [a b] m' k' HQ. by apply runs_ret.
  - apply sim_map. by apply sim_CreateSpace.
  - apply runs_bind. eapply runs_mono; [by apply sim_GetSpaceInfo|].
    intros [a b] m' k' HQ. by apply runs_ret.
  - apply sim_map. by apply sim_DeleteSpace.
  - apply sim_map. by apply sim_DisableCreate.
  - apply sim_map. by apply sim_WriteSpace.
  - apply runs_bind. eapply runs_mono; [by apply sim_ReadSpace|].
    intros [a b] m' k' HQ. by apply runs_ret.
  - apply sim_map. by apply sim_LockSpaceWrite.
  - apply sim_map. by apply sim_LockSpaceRead.
  - apply sim_map. by apply sim_WipeStorage.
  - apply sim_map. by apply sim_DisableWipe.
Qed.

End Simulation.
(** ** Invariants of the transition system *)

(** Space data on the device is listed in the header. *)
Definition covered (k : Disk) : Prop :=
  forall i, is_Some (disk_spaces k !! i) ->
    exists h, disk_header k = Some h
              /\ (i ∈ allocated_indices h \/ provisional_index h = Some i).

(** ... and, once the manager is initialized, in memory. *)
Definition consistent (m : NvramManager) (k : Disk) : Prop :=
  covered k /\ (initialized m = true -> forall i, is_Some (disk_spaces k !! i) -> i ∈ indices m).

Lemma kept_elem p ins l i : i ∈ kept p ins l <-> i ∈ l /\ (p = Some i -> ins = true).
Proof using. unfold kept. rewrite list_elem_of_filter. tauto. Qed.

Lemma indices_app m l : indices (set_spaces l m) = map entry_index l.
Proof using. done. Qed.

Lemma loaded_indices (l : list SpaceListEntry) p ins al i :
  i ∈ map entry_index (l ++ map fresh_entry (kept p ins al)) <->
  i ∈ map entry_index l \/ i ∈ al /\ (p = Some i -> ins = true).
Proof using.
  rewrite map_app, map_map, map_id, elem_of_app, kept_elem. done.
Qed.

(** What the deletion of a half-deleted space leaves. *)
Lemma after_provisional (h : NvramHeader) ins k i :
  is_Some (disk_spaces (match provisional_index h with
                        | Some j => if ins && bool_decide (j ∈ allocated_indices h)
                                    then k else drop_space j k
                        | None => k
                        end) !! i) ->
  is_Some (disk_spaces k !! i)
  /\ (provisional_index h = Some i -> ins = true /\ i ∈ allocated_indices h).
Proof using.
  destruct (provisional_index h) as [j|]; [|done].
  destruct ins; simpl; [destruct (bool_decide_reflect (j ∈ allocated_indices h)) as [Hj|Hj]|].
  - intros Hi. split; [done|]. by intros [= ->].
  - simpl. intros [s [Hn Hs]%lookup_delete_Some]. split; [by exists s|]. by intros [= ->].
  - intros [s [Hn Hs]%lookup_delete_Some]. split; [by exists s|]. by intros [= ->].
Qed.

Lemma covered_current m k p :
  (forall i, is_Some (disk_spaces k !! i) -> i ∈ indices m \/ p = Some i) ->
  covered (put_header (current_header m p) k).
Proof using. intros Hi i Hs. eexists. split; [done|]. apply (Hi i Hs). Qed.

Lemma init_consistent m k b m' k' :
  consistent m k -> init_post F m k b m' k' -> consistent m' k'.
Proof using.
  intros [Hc Hm] Hp.
  destruct Hp as [Hi|l Hi _ _ _|Hi Hn|h ins m' k1 k2 Hi Hd Hv Hins -> Hlen Hk1 Hk2].
  - done.
  - split; [done|]. simpl. by rewrite Hi.
  - split; [done|]. intros _ i Hs. destruct (Hc i Hs) as (h & ? & _). congruence.
  - assert (Hin : forall i, is_Some (disk_spaces k1 !! i) ->
      (i ∈ allocated_indices h)
      /\ i ∈ map entry_index (spaces m ++ map fresh_entry
               (kept (provisional_index h) ins (allocated_indices h)))).
    { intros i Hs. subst k1. apply after_provisional in Hs as [Hs Hp].
      destruct (Hc i Hs) as (h' & Hh' & Hcase). rewrite Hd in Hh'. injection Hh' as <-.
      assert (Ha : i ∈ allocated_indices h) by (destruct Hcase; [done|by apply Hp]).
      split; [done|]. apply loaded_indices. right. split; [done|]. intros E. by apply Hp. }
    destruct Hk2 as [[-> _]|[-> _]]; (split; [|intros _ i Hs; by apply Hin]).
    + intros i Hs. exists h. split; [|left; by apply Hin].
      subst k1. destruct (provisional_index h); [|done]. by destruct (ins && _).
    + apply covered_current. intros i Hs. left. by apply Hin.
Qed.

Lemma drop_consistent m k i : consistent m k -> consistent m (drop_space i k).
Proof using.
  intros [Hc Hm].
  assert (Hin : forall j, is_Some (disk_spaces (drop_space i k) !! j) ->
                          is_Some (disk_spaces k !! j)).
  { intros j. simpl. rewrite lookup_delete_is_Some. by intros [_ Hj]. }
  split; [intros j Hj; by apply Hc, Hin|intros Hi j Hj; by apply Hm, Hin].
Qed.

Lemma update_consistent m k i s s' :
  consistent m k -> disk_spaces k !! i = Some s -> consistent m (put_space i s' k).
Proof using.
  intros [Hc Hm] Hs.
  assert (Hin : forall j, is_Some (disk_spaces (put_space i s' k) !! j) ->
                          is_Some (disk_spaces k !! j)).
  { intros j. simpl. rewrite lookup_insert_is_Some. intros [->|[_ Hj]]; [by exists s|done]. }
  split; [intros j Hj; by apply Hc, Hin|intros Hi j Hj; by apply Hm, Hin].
Qed.

Lemma mstep_consistent m k m' k' :
  consistent m k -> mstep (m, k) (m', k') -> consistent m' k'.
Proof using.
  intros Hcons Hs. pose proof Hcons as [Hc Hm].
  inversion Hs as [? ? b ? ? Hp|? ? i Hi _ Hn _ _|? ? Hi|? ? i Hi _ Hn _ _|? ? i s Hi _ Hn _ _ Hh
    |? ? i s s' Hi Hw Hu|? ? i s pos e Hi Hw Hp He|? ? i s h Hi Hw Hh Hp|? ? pos e Hi Hp Hk
    |? ? l Hi Hl|? ? Hi|? ? pos f Hi Hf|? ? Hi|? ? i Hw Hi Hd|? ? Hw Hi Hd Hall]; subst;
    try specialize (Hm Hi).
  - by eapply init_consistent.
  - split; [done|]. intros _ j Hj. unfold indices. simpl. rewrite map_app, elem_of_app. left. auto.
  - split; [apply covered_current; auto|done].
  - split; [|done]. apply covered_current. intros j Hj. left. unfold indices. simpl.
    rewrite map_app, elem_of_app. left. auto.
  - assert (Hin : forall j, is_Some (disk_spaces (put_space i s k) !! j) ->
              j ∈ map entry_index (spaces m ++ [fresh_entry i])).
    { intros j. simpl. rewrite map_app, elem_of_app, lookup_insert_is_Some.
      intros [->|[_ Hj]]; [right; by left|left; by apply Hm]. }
    split; [|done]. intros j Hj. eexists. split; [exact Hh|]. left. by apply Hin.
  - destruct Hw as (? & ? & ? & _ & _ & E & _). by eapply update_consistent.
  - split; [|done]. apply covered_current. intros j Hj.
    specialize (Hm j Hj). unfold indices in *. simpl.
    rewrite (swap_remove_indices _ _ _ Hp), elem_of_cons in Hm.
    destruct Hm as [->|]; [by right|by left].
  - by apply drop_consistent.
  - split; [done|]. intros _ j Hj. specialize (Hm j Hj). unfold indices in *. simpl.
    rewrite (swap_remove_indices _ _ _ Hp), elem_of_cons in Hm.
    destruct Hm as [->|]; [|done]. rewrite Hk in Hj. by destruct Hj.
  - split; [done|]. intros _ j Hj. unfold indices. simpl. rewrite Hl. by apply Hm.
  - split; [apply covered_current; auto|done].
  - split; [done|]. intros _ j Hj. unfold indices. simpl. rewrite alter_indices by done. by apply Hm.
  - done.
  - by apply drop_consistent.
  - split; [done|]. intros _ j Hj. rewrite (Hall j) in Hj; [by destruct Hj|]. by apply Hm.
Qed.

(** *** Locked spaces *)

(** The persistent write lock is set. *)
Definition plocked (s : NvramSpace) : Prop :=
  HasControl s NV_CONTROL_PERSISTENT_WRITE_LOCK = true
  /\ Space_HasFlag s kFlagWriteLocked = true.

(** The space uses the per-boot write lock. *)
Definition boot_lockable (s : NvramSpace) : Prop :=
  HasControl s NV_CONTROL_PERSISTENT_WRITE_LOCK = false
  /\ HasControl s NV_CONTROL_BOOT_WRITE_LOCK = true.

(** The header on the device lists index [i]. *)
Definition committed (k : Disk) (i : Z) : Prop :=
  exists h, disk_header k = Some h /\ i ∈ allocated_indices h.

(** Space [i] holds [s] and is locked: for good, or until the next boot. *)
Definition protected (i : Z) (s : NvramSpace) (m : NvramManager) (k : Disk) : Prop :=
  disk_spaces k !! i = Some s /\ (initialized m = true -> i ∈ indices m)
  /\ (plocked s /\ committed k i
      \/ boot_lockable s /\ initialized m = true
         /\ forall e, e ∈ spaces m -> entry_index e = i -> write_locked e = true).

Lemma check_denied pos e s auth :
  plocked s \/ boot_lockable s /\ write_locked e = true ->
  CheckWriteAccess (mkSpaceRecord pos e s) auth = NV_RESULT_OPERATION_DISABLED.
Proof using.
  unfold CheckWriteAccess. cbn [persistent transient].
  by intros [[-> ->]|[[-> ->] ->]].
Qed.

Lemma protected_denied i s m k j s' :
  protected i s m k -> may_write m k j s' -> j <> i.
Proof using Hdefs.
  intros (Hs & _ & Hl) (pos & e & auth & Hp & He & Hj & Hc) E. subst j.
  assert (s' = s) by congruence. subst s'. revert Hc.
  rewrite check_denied; [error_code|]. destruct Hl as [[Hl _]|(Hb & _ & Hl)]; [by left|right].
  split; [done|]. apply Hl; [|done]. by eapply list_elem_of_lookup_2.
Qed.

Lemma kept_present h ins k i s :
  disk_spaces k !! i = Some s -> i ∈ allocated_indices h ->
  (ins = false -> forall j, provisional_index h = Some j -> disk_spaces k !! j = None) ->
  disk_spaces (match provisional_index h with
               | Some j => if ins && bool_decide (j ∈ allocated_indices h)
                           then k else drop_space j k
               | None => k
               end) !! i = Some s
  /\ (provisional_index h = Some i -> ins = true).
Proof using.
  intros Hs Ha Hins. destruct (provisional_index h) as [j|]; [|done].
  destruct (decide (j = i)) as [->|Hne].
  - destruct ins; [|by rewrite Hins in Hs]. simpl.
    by rewrite bool_decide_eq_true_2.
  - split; [|congruence]. destruct (ins && _); [done|]. simpl. by rewrite lookup_delete_ne.
Qed.

Lemma init_protected i s m k b m' k' :
  protected i s m k -> init_post F m k b m' k' -> protected i s m' k'.
Proof using.
  intros (Hs & Hm & Hl) Hp.
  destruct Hp as [Hi|l Hi _ _ _|Hi Hn|h ins m' k1 k2 Hi Hd Hv Hins -> Hlen Hk1 Hk2]; [done|..];
    destruct Hl as [[Hl (h' & Hh' & Ha)]|(_ & ? & _)]; try congruence.
  - split; [done|]. simpl. rewrite Hi. split; [done|]. left. split; [done|]. by exists h'.
  - assert (h' = h) as -> by congruence.
    destruct (kept_present h ins k i s Hs Ha Hins) as [Hs1 Hpi]. rewrite <- Hk1 in Hs1.
    assert (Hin : i ∈ map entry_index (spaces m ++ map fresh_entry
                (kept (provisional_index h) ins (allocated_indices h))))
      by (apply loaded_indices; auto).
    assert (Hc1 : committed k1 i).
    { exists h. split; [|done]. subst k1. destruct (provisional_index h); [|done].
      by destruct (ins && _). }
    destruct Hk2 as [[-> _]|[-> _]]; (split; [done|split; [done|left; split; [done|]]]); [done|].
    eexists. split; [done|]. done.
Qed.

Lemma committed_current m k p i : i ∈ indices m -> committed (put_header (current_header m p) k) i.
Proof using. intros Hi. eexists. by split. Qed.

Lemma protected_header i s m k h :
  protected i s m k -> i ∈ allocated_indices h -> protected i s m (put_header h k).
Proof using.
  intros (Hs & Hm & Hl) Hc. split; [done|]. split; [done|].
  destruct Hl as [[Hp _]|Hl]; [left|by right]. split; [done|]. by exists h.
Qed.

(** Changes of the space list that keep the entries of [i]. *)
Lemma protected_spaces i s m k l :
  protected i s m k -> initialized m = true ->
  (i ∈ indices m -> i ∈ map entry_index l) ->
  (forall e, e ∈ l -> entry_index e = i -> exists e', e' ∈ spaces m /\ entry_index e' = i
     /\ (write_locked e' = true -> write_locked e = true)) ->
  protected i s (set_spaces l m) k.
Proof using.
  intros (Hs & Hm & Hl) Hi Hin He. split; [done|]. split; [by simpl; auto|].
  destruct Hl as [Hp|(Hb & _ & Hw)]; [by left|right]. split; [done|]. split; [done|].
  simpl. intros e Hel Hei. destruct (He e Hel Hei) as (e' & He' & Hi' & Hmono). auto.
Qed.

Lemma lookup_alter_lock pos f (l : list SpaceListEntry) e :
  f = lock_write \/ f = lock_read -> e ∈ alter f pos l ->
  exists e', e' ∈ l /\ entry_index e' = entry_index e
             /\ (write_locked e' = true -> write_locked e = true).
Proof using.
  intros Hf (n & Hn)%list_elem_of_lookup. destruct (decide (n = pos)) as [->|Hne].
  - rewrite list_lookup_alter_eq in Hn. apply fmap_Some in Hn as (e' & He' & ->).
    exists e'. split; [by eapply list_elem_of_lookup_2|]. by destruct Hf as [->| ->].
  - rewrite list_lookup_alter_ne in Hn by done. exists e.
    split; [by eapply list_elem_of_lookup_2|]. done.
Qed.

Lemma mstep_protected i s m k m' k' :
  wipe = false -> protected i s m k -> mstep (m, k) (m', k') -> protected i s m' k'.
Proof using Hdefs.
  intros Hnw Hpr Hs. pose proof Hpr as (Hi & Hm & Hl).
  inversion Hs as [? ? b ? ? Hp|? ? j Hini _ Hn _ _|? ? Hini|? ? j Hini _ Hn _ _
    |? ? j sj Hini _ Hn _ _ Hh
    |? ? j sj s' Hini Hw Hu|? ? j sj pos e Hini Hw Hp He|? ? j sj h Hini Hw Hh Hp
    |? ? pos e Hini Hp Hk|? ? l Hini Hperm|? ? Hini|? ? pos f Hini Hf|? ? Hini|? ? j Hw Hini Hd
    |? ? Hw Hini Hd Hall]; subst; try specialize (Hm Hini); try congruence.
  - by eapply init_protected.
  - apply protected_spaces; [done|done|..].
    + rewrite map_app, elem_of_app. by left.
    + intros e [He|He%list_elem_of_singleton]%elem_of_app; [by eauto|].
      subst e. simpl. by intros ->.
  - by apply protected_header.
  - apply protected_header; [done|]. simpl. rewrite map_app, elem_of_app. by left.
  - assert (j <> i) by congruence.
    apply protected_spaces; [|done|..].
    + split; [simpl; by rewrite lookup_insert_ne|]. by split.
    + rewrite map_app, elem_of_app. by left.
    + intros e [He|He%list_elem_of_singleton]%elem_of_app; [by eauto|].
      subst e. simpl. by intros ->.
  - pose proof (protected_denied _ _ _ _ _ _ Hpr Hw).
    split; [simpl; by rewrite lookup_insert_ne|]. by split.
  - pose proof (protected_denied _ _ _ _ _ _ Hpr Hw).
    apply protected_header; [done|]. simpl. unfold indices in Hm.
    rewrite (swap_remove_indices _ _ _ Hp), elem_of_cons in Hm. by destruct Hm.
  - pose proof (protected_denied _ _ _ _ _ _ Hpr Hw).
    split; [simpl; by rewrite lookup_delete_ne|]. by split.
  - assert (entry_index e <> i) by congruence. apply protected_spaces; [done|done|..].
    + unfold indices. rewrite (swap_remove_indices _ _ _ Hp), elem_of_cons. by intros [|].
    + intros e' He' Hi'. exists e'. split; [|done].
      rewrite <- (swap_remove_perm _ _ _ Hp). apply elem_of_app. by left.
  - apply protected_spaces; [done|done|..].
    + unfold indices. by rewrite Hperm.
    + intros e He Hei. exists e. by rewrite <- Hperm.
  - apply (protected_header i s (set_disable_create true m)); [|done]. by split.
  - apply protected_spaces; [done|done|by rewrite alter_indices|].
    intros e He Hei. destruct (lookup_alter_lock _ _ _ _ Hf He) as (e' & ? & ? & ?).
    exists e'. split; [done|]. split; [congruence|done].
  - by split.
Qed.

(** *** Disabled creation *)

(** Creation is disabled, in the header and in memory. *)
Definition create_disabled (m : NvramManager) (k : Disk) : Prop :=
  (exists h, disk_header k = Some h /\ Header_HasFlag h kFlagDisableCreate = true)
  /\ (initialized m = true -> disable_create m = true).

Definition no_new_spaces (k0 k : Disk) : Prop :=
  forall i, disk_spaces k0 !! i = None -> disk_spaces k !! i = None.

Lemma current_header_flag m p :
  Header_HasFlag (current_header m p) kFlagDisableCreate = disable_create m.
Proof using. unfold Header_HasFlag, current_header. simpl. by destruct (disable_create m). Qed.

Lemma no_new_drop k0 k i : no_new_spaces k0 k -> no_new_spaces k0 (drop_space i k).
Proof using. intros Hn j Hj. simpl. apply lookup_delete_None. right. by apply Hn. Qed.

Lemma no_new_put k0 k i s s' :
  no_new_spaces k0 k -> disk_spaces k !! i = Some s -> no_new_spaces k0 (put_space i s' k).
Proof using.
  intros Hn Hs j Hj. simpl. rewrite lookup_insert_ne; [by apply Hn|].
  intros <-. rewrite (Hn i Hj) in Hs. done.
Qed.

Lemma init_create_disabled k0 m k b m' k' :
  create_disabled m k -> no_new_spaces k0 k -> init_post F m k b m' k' ->
  create_disabled m' k' /\ no_new_spaces k0 k'.
Proof using.
  intros [(h0 & Hh0 & Hf) Hm] Hn Hp.
  destruct Hp as [Hi|l Hi _ _ _|Hi Hno|h ins m' k1 k2 Hi Hd Hv Hins -> Hlen Hk1 Hk2].
  - split; [|done]. split; [by exists h0|done].
  - split; [|done]. split; [by exists h0|done].
  - congruence.
  - assert (h0 = h) as -> by congruence. rewrite Hf in *.
    assert (Hn1 : no_new_spaces k0 k1 /\ disk_header k1 = Some h).
    { subst k1. destruct (provisional_index h); [|done].
      destruct (ins && _); [done|]. split; [by apply no_new_drop|done]. }
    destruct Hn1 as [Hn1 Hh1].
    destruct Hk2 as [[-> _]|[-> _]]; (split; [|done]); (split; [|done]); [by exists h|].
    eexists. split; [done|]. by rewrite current_header_flag.
Qed.

Lemma mstep_create_disabled k0 m k m' k' :
  create_disabled m k -> no_new_spaces k0 k -> mstep (m, k) (m', k') ->
  create_disabled m' k' /\ no_new_spaces k0 k'.
Proof using.
  intros Hd Hn Hs. pose proof Hd as [Hh Hm].
  assert (Hcur : forall m1 p, disable_create m1 = disable_create m \/ disable_create m1 = true ->
            initialized m = true ->
            exists h, disk_header (put_header (current_header m1 p) k) = Some h
                      /\ Header_HasFlag h kFlagDisableCreate = true).
  { intros m1 p Hdc Hi. eexists. split; [done|]. rewrite current_header_flag.
    specialize (Hm Hi). destruct Hdc; congruence. }
  inversion Hs as [? ? b ? ? Hp|? ? j Hini Hdc _ _ _|? ? Hini|? ? j Hini Hdc _ _ _
    |? ? j sj Hini Hdc _ _ _ _|? ? j sj s' Hini Hw Hu|? ? j sj pos e Hini Hw Hp He
    |? ? j sj h Hini Hw _ _|? ? pos e Hini _ _|? ? l Hini _|? ? Hini|? ? pos f Hini _
    |? ? Hini|? ? j _ Hini _|? ? _ Hini _ _]; subst;
    try (specialize (Hm Hini); congruence).
  - by eapply init_create_disabled.
  - split; [|done]. split; [by apply Hcur; [left|]|done].
  - split; [done|]. destruct Hw as (? & ? & ? & _ & _ & E & _). by eapply no_new_put.
  - split; [|done]. split; [by apply Hcur; [left|]|done].
  - split; [done|by apply no_new_drop].
  - done.
  - done.
  - split; [|done]. split; [by apply Hcur; [right|]|done].
  - done.
  - done.
  - split; [done|by apply no_new_drop].
  - done.
Qed.

End System.
