(* ===== verification/NvramService.v ===== *)
(** * NvramService: what the NVRAM service guarantees

    A [session] is a sequence of commands and reboots on one device, with
    arbitrary I/O errors and power losses.  The theorems of this file are the
    guarantees of the service over whole sessions, what each command does to
    memory and device, and the runs in which the code misses a guarantee its
    comments claim. *)
From S2P Require Import Prelude NvramIo NvramCodec NvramMessages NvramStorage NvramPersistence.
From S2P Require Import NvramManager NvramLogic NvramSystem.

(** ** Sessions *)

Inductive event :=
| Command (r : Request) (fs : list fault)
| Reboot.

Section Sessions.
Context `{Allocator} `{NvramDefs} `{Crypto} {D : Type} `{Persistence D}.
Context (wipe_support : bool).

(** Run the events; a power loss during a command is followed by a reboot.
    [None]: the manager ran into undefined behaviour. *)
Fixpoint session (evs : list event) (m : NvramManager) (d : D) : option (NvramManager * D) :=
  match evs with
  | [] => Some (m, d)
  | Reboot :: evs => session evs fresh_manager d
  | Command r fs :: evs =>
      match Dispatch wipe_support r (mkWorld m d fs) with
      | Done _ w => session evs (manager w) (device w)
      | Crashed d' => session evs fresh_manager d'
      | Undefined => None
      end
  end.

(** The commands of one boot. *)
Fixpoint commands (rs : list Request) : M D (list Response) :=
  match rs with
  | [] => mret []
  | r :: rs =>
      x ← Dispatch wipe_support r;
      xs ← commands rs;
      mret (x :: xs)
  end.

Definition event_wf (ev : event) : Prop :=
  match ev with Command r _ => request_wf r | Reboot => True end.

Definition event_wipes (ev : event) : bool :=
  match ev with Command r _ => is_wipe wipe_support r | Reboot => false end.

End Sessions.

(** ** An ideal device

    A device whose state is the objects it holds. *)
Definition ideal_persistence : Persistence Disk := {|
  persistence_LoadHeader f d :=
    Ret (if f then (kStorageError, NvramHeader_init)
         else match disk_header d with
              | Some h => (kSuccess, h)
              | None => (kNotFound, NvramHeader_init)
              end);
  persistence_StoreHeader f d h :=
    Ret (if f then (kStorageError, d) else (kSuccess, put_header h d));
  persistence_LoadSpace f d i :=
    Ret (if f then (kStorageError, NvramSpace_init)
         else match disk_spaces d !! i with
              | Some s => (kSuccess, s)
              | None => (kNotFound, NvramSpace_init)
              end);
  persistence_StoreSpace f d i s :=
    Ret (if f then (kStorageError, d) else (kSuccess, put_space i s d));
  persistence_DeleteSpace f d i :=
    Ret (if f then (kStorageError, d) else (kSuccess, drop_space i d));
|}.

Definition ideal_abs (d k : Disk) : Prop := d = k /\ disk_ok k.

Lemma ideal_persistence_ok : @PersistenceOk Disk ideal_persistence.
Proof.
  refine (@Build_PersistenceOk Disk ideal_persistence ideal_abs _ _ _ _ _ _).
  - by intros d k [_ Hk].
  - intros f d k [-> Hk]. simpl. destruct f; [by do 2 eexists|].
    destruct (disk_header k) eqn:E; by do 2 eexists.
  - intros f d k h [-> [Hh Hs]] Hok. destruct f; simpl.
    + do 2 eexists. split; [done|]. right. done.
    + do 2 eexists. split; [done|]. left. done.
  - intros f d k i [-> Hk]. simpl. destruct f; [by do 2 eexists|].
    destruct (disk_spaces k !! i) eqn:E; by do 2 eexists.
  - intros f d k i s [-> [Hh Hs]] Hok. destruct f; simpl.
    + do 2 eexists. split; [done|]. right. split; [done|]. split; [by left|done].
    + do 2 eexists. split; [done|]. left. split; [done|]. split; [done|]. split; [done|].
      by apply map_Forall_insert_2.
  - intros f d k i [-> [Hh Hs]]. destruct f; simpl.
    + do 2 eexists. split; [done|]. right. done.
    + do 2 eexists. split; [done|]. left. split; [done|]. split; [done|]. split; [done|].
      by apply map_Forall_delete.
Defined.

Definition any_fault (f : fault) : Prop := True.

(** ** From steps to sessions *)

Section Invariants.
Context `{Hdefs : NvramDefsOk} `{Halloc : Allocator} `{Hcr : Crypto} {D : Type}
  `{HP : PersistenceOk D}.
Context (wipe_support : bool).

(** The simulation of one command, from any device contents. *)
Lemma Dispatch_sim (wipe : bool) r m d k fs :
  disk_abs d k -> mem_ok m -> request_wf r -> (is_wipe wipe_support r = true -> wipe = true) ->
  match Dispatch wipe_support r (mkWorld m d fs) with
  | Done _ w => exists k', disk_abs (device w) k' /\ rtc (mstep any_fault wipe) (m, k) (manager w, k')
                           /\ mem_ok (manager w)
  | Crashed d' => exists m' k', disk_abs d' k' /\ rtc (mstep any_fault wipe) (m, k) (m', k')
  | Undefined => True
  end.
Proof using Hdefs.
  intros Hd Hm Hwf Hw.
  pose proof (sim_Dispatch any_fault wipe I wipe_support True (m, k) r m k) as Hsim.
  unfold sim, reach, reachC in Hsim.
  specialize (Hsim (rtc_refl _ _) Hm (or_introl I) Hwf (or_introl I) Hw d fs Hd).
  destruct (Dispatch _ _ _) as [x w|d'|]; [|..|done].
  - destruct Hsim as (k' & Hd' & _ & Hr & Hm'); [by apply Forall_elem|]. eauto.
  - destruct Hsim as (k' & Hd' & m' & Hr); [by apply Forall_elem|]. eauto.
Qed.

Lemma steps_invariant (wipe : bool) (I : NvramManager -> Disk -> Prop) m k m' k' :
  (forall m k m' k', I m k -> mstep any_fault wipe (m, k) (m', k') -> I m' k') ->
  rtc (mstep any_fault wipe) (m, k) (m', k') -> I m k -> I m' k'.
Proof using.
  intros Hstep Hr.
  change (I (m, k).1 (m, k).2 -> I (m', k').1 (m', k').2). revert Hr.
  generalize (m, k) (m', k'). induction 1 as [|[] [] [] Hs _ IH]; [done|].
  intros Hx. apply IH. by eapply Hstep.
Qed.

(** An invariant of the steps that survives a reboot holds along sessions. *)
Lemma session_invariant (wipe : bool) (I : NvramManager -> Disk -> Prop) evs m d k m' d' :
  (forall m k m' k', I m k -> mstep any_fault wipe (m, k) (m', k') -> I m' k') ->
  (forall m k, I m k -> I fresh_manager k) ->
  Forall event_wf evs -> (wipe = false -> Forall (fun ev => event_wipes wipe_support ev = false) evs) ->
  disk_abs d k -> mem_ok m -> I m k ->
  session wipe_support evs m d = Some (m', d') ->
  exists k', disk_abs d' k' /\ mem_ok m' /\ I m' k'.
Proof using Hdefs.
  intros Hstep Hboot. revert m d k.
  assert (Hfresh : mem_ok fresh_manager) by (split; simpl; [lia|done]).
  induction evs as [|ev evs IH]; intros m d k Hwf Hnw Hd Hm HI; simpl.
  { intros [= <- <-]. eauto. }
  inversion Hwf as [|? ? Hev Hevs]; subst.
  assert (Hnw' : wipe = false -> Forall (fun ev => event_wipes wipe_support ev = false) evs).
  { intros E. specialize (Hnw E). by inversion Hnw. }
  destruct ev as [r fs|]; [|by eapply IH; eauto].
  assert (Hw : is_wipe wipe_support r = true -> wipe = true).
  { intros Hr. destruct wipe; [done|]. specialize (Hnw eq_refl). inversion Hnw; subst.
    simpl in *. congruence. }
  pose proof (Dispatch_sim wipe r m d k fs Hd Hm Hev Hw) as Hsim.
  destruct (Dispatch _ _ _) as [x w|d1|]; [| |done].
  - destruct Hsim as (k' & Hd' & Hr & Hm'). apply IH with k'; try done.
    by eapply steps_invariant.
  - destruct Hsim as (m1 & k' & Hd' & Hr). apply IH with k'; try done.
    apply (Hboot m1). by eapply steps_invariant.
Qed.

End Invariants.

(** A digest of the right size, for concrete runs. *)
Definition zero_crypto : Crypto := {| openssl_SHA256 _ := replicate 32 0 |}.

(** * Properties *)

Section Guarantees.
Context `{Hdefs : NvramDefsOk} `{Halloc : Allocator} `{Hcr : Crypto} {D : Type}
  `{HP : PersistenceOk D}.
Context (wipe_support : bool).

(** C21: [Dispatch] implements the transition system [mstep]: on every device
    that keeps the promises of storage.h and for every schedule of I/O errors,
    a command that returns took a sequence of its steps, and a power loss
    during the command leaves the device as some sequence of steps does. *)
Theorem Dispatch_refines_mstep r m d k fs :
  disk_abs d k -> mem_ok m -> request_wf r ->
  match Dispatch wipe_support r (mkWorld m d fs) with
  | Done _ w =>
      exists k', disk_abs (device w) k'
        /\ rtc (mstep any_fault (is_wipe wipe_support r)) (m, k) (manager w, k')
        /\ mem_ok (manager w)
  | Crashed d' =>
      exists m' k', disk_abs d' k'
        /\ rtc (mstep any_fault (is_wipe wipe_support r)) (m, k) (m', k')
  | Undefined => True
  end.
Proof using Hdefs. intros Hd Hm Hwf. by apply Dispatch_sim. Qed.

(** C10: Crash consistency: from an empty device, whatever commands, I/O
    errors, power losses and reboots follow, the device holds no space data
    that its header does not list (as allocated or provisional), an
    initialized manager knows every space that has data, and every stored
    object is within the limits of the service. *)
Theorem session_crash_consistent evs d m' d' :
  disk_abs d empty_disk -> Forall event_wf evs ->
  session wipe_support evs fresh_manager d = Some (m', d') ->
  exists k, disk_abs d' k /\ disk_ok k /\ covered k
    /\ (initialized m' = true -> forall i, is_Some (disk_spaces k !! i) -> i ∈ indices m')
    /\ mem_ok m'.
Proof using Hdefs.
  intros Hd Hwf Hrun.
  destruct (session_invariant wipe_support true consistent evs fresh_manager d empty_disk m' d')
    as (k' & Hd' & Hm' & [Hc Hi]); try done.
  - intros m k m1 k1 HI Hs. by eapply mstep_consistent.
  - intros m k [Hc _]. by split.
  - split; simpl; [lia|done].
  - split; [|done]. intros i [s Hs]. simpl in Hs. by rewrite lookup_empty in Hs.
  - exists k'. split; [done|]. split; [by eapply disk_abs_ok|done].
Qed.

(** C19: The persistent write lock is durable: once a space with the control
    is locked and listed in the header, no sequence of commands other than a
    supported wipe, with any I/O errors, power losses and reboots, changes
    its record in any way. *)
Theorem session_write_lock_durable evs m d k m' d' i s :
  disk_abs d k -> mem_ok m -> (initialized m = true -> i ∈ indices m) ->
  disk_spaces k !! i = Some s -> plocked s -> committed k i ->
  Forall event_wf evs -> Forall (fun ev => event_wipes wipe_support ev = false) evs ->
  session wipe_support evs m d = Some (m', d') ->
  exists k', disk_abs d' k' /\ disk_spaces k' !! i = Some s /\ committed k' i.
Proof using Hdefs.
  intros Hd Hm Hin Hs Hl Hc Hwf Hnw Hrun.
  assert (Hleft : forall m k, protected i s m k -> plocked s /\ committed k i).
  { intros m1 k1 (_ & _ & [Hp|([Hno _] & _)]); [done|]. destruct Hl as [Hyes _]. congruence. }
  destruct (session_invariant wipe_support false (protected i s) evs m d k m' d')
    as (k' & Hd' & Hm' & Hp); try done.
  - intros m1 k1 m2 k2 HI Hst. by eapply mstep_protected.
  - intros m1 k1 HI. pose proof (Hleft _ _ HI) as Hpc. destruct HI as (Hs1 & _ & _).
    split; [done|]. split; [done|]. by left.
  - split; [done|]. split; [done|]. by left.
  - exists k'. split; [done|]. split; [apply Hp|by eapply Hleft].
Qed.

(** C32: The per-boot write lock holds until the next boot: no sequence of
    commands of the same boot other than a supported wipe changes a space
    whose lock is set, whatever I/O errors occur, and the lock stays set. *)
Theorem boot_write_lock_holds rs m d k fs xs w i s :
  disk_abs d k -> mem_ok m -> initialized m = true -> i ∈ indices m ->
  disk_spaces k !! i = Some s -> boot_lockable s ->
  (forall e, e ∈ spaces m -> entry_index e = i -> write_locked e = true) ->
  Forall request_wf rs -> Forall (fun r => is_wipe wipe_support r = false) rs ->
  commands wipe_support rs (mkWorld m d fs) = Done xs w ->
  exists k', disk_abs (device w) k' /\ disk_spaces k' !! i = Some s /\ i ∈ indices (manager w)
    /\ (forall e, e ∈ spaces (manager w) -> entry_index e = i -> write_locked e = true).
Proof using Hdefs.
  intros Hd Hm Hi Hin Hs Hb Hl. assert (Hp : protected i s m k) by (repeat split; auto).
  clear Hin Hs Hl. revert m d k fs xs Hd Hm Hi Hp.
  induction rs as [|r rs IH]; intros m d k fs xs Hd Hm Hi Hp Hwf Hnw; simpl.
  { intros [= <- <-]. exists k. destruct Hp as (Hs & Hin & [[[Hno _] _]|(_ & _ & Hl)]).
    - destruct Hb. congruence.
    - simpl. auto. }
  inversion Hwf as [|? ? Hr Hrs]; inversion Hnw as [|? ? Hn Hns]; subst.
  pose proof (Dispatch_sim wipe_support false r m d k fs Hd Hm Hr ltac:(congruence)) as Hsim.
  unfold mbind, M_bind. destruct (Dispatch _ _ _) as [x [m1 d1 fs1]|d1|]; [|done|done].
  destruct Hsim as (k1 & Hd1 & Hst & Hm1). simpl in *.
  assert (Hp1 : protected i s m1 k1).
  { eapply (steps_invariant false (protected i s)); [|exact Hst|exact Hp].
    intros m2 k2 m3 k3 HI Hx. eapply mstep_protected; [|exact HI|exact Hx]. done. }
  assert (Hi1 : initialized m1 = true).
  { destruct Hp1 as (_ & _ & [[[Hno _] _]|(_ & Hi1 & _)]); [destruct Hb; congruence|done]. }
  destruct (commands wipe_support rs _) as [xs' w'|d'|] eqn:E; [|done|done].
  intros [= <- <-]. by eapply IH; [..|exact E].
Qed.

(** C33: No undefined behaviour: an initialized manager, or one that has not
    tried to initialize, answers every request whose controls are bit
    positions of the control mask without overrunning its array. *)
Theorem Dispatch_defined r m d k fs :
  disk_abs d k -> mem_ok m -> initialized m = true \/ spaces m = [] ->
  request_wf r -> request_defined r ->
  Dispatch wipe_support r (mkWorld m d fs) <> Undefined.
Proof using Hdefs HP.
  intros Hd Hm Hi Hwf Hdef E.
  pose proof (sim_Dispatch any_fault (is_wipe wipe_support r) I wipe_support False (m, k) r m k
                (rtc_refl _ _) Hm (or_intror Hi) Hwf (or_intror Hdef) id d fs Hd) as Hsim.
  rewrite E in Hsim. apply Hsim. by apply Forall_elem.
Qed.

(** [DisableCreate] is durable: once the header records it, no session
    adds a space, wipes included, and the record stays. *)
Theorem session_create_disabled evs m d k m' d' :
  disk_abs d k -> mem_ok m -> create_disabled m k -> Forall event_wf evs ->
  session wipe_support evs m d = Some (m', d') ->
  exists k', disk_abs d' k' /\ create_disabled m' k' /\ no_new_spaces k k'.
Proof using Hdefs.
  intros Hd Hm Hc Hwf Hrun.
  destruct (session_invariant wipe_support true
              (fun m1 k1 => create_disabled m1 k1 /\ no_new_spaces k k1) evs m d k m' d')
    as (k' & Hd' & Hm' & Hc'); try done.
  - intros m1 k1 m2 k2 [Hc1 Hn1] Hst. by eapply mstep_create_disabled.
  - intros m1 k1 [[Hc1 _] Hn1]. split; [|done]. by split.
  - split; [done|]. by intros i.
  - by exists k'.
Qed.

End Guarantees.

(** ** Concrete runs *)
Module Sample.

Definition defs : NvramDefs := sample_defs.
Definition alloc : Allocator := bounded_allocator 4096.

(** Space 7: four bytes, with the persistent write lock. *)
Definition create : Request := mkRequest (CreateSpaceReq (mkCreateSpaceRequest 7 4 [1] [])).
Definition lock : Request := mkRequest (LockSpaceWriteReq (mkLockSpaceWriteRequest 7 [])).
Definition write : Request := mkRequest (WriteSpaceReq (mkWriteSpaceRequest 7 [1; 2] [])).
Definition delete : Request := mkRequest (DeleteSpaceReq (mkDeleteSpaceRequest 7 [])).

Definition locked_space : NvramSpace := mkNvramSpace 1 2 [] [1; 2; 0; 0].
Definition boot_space : NvramSpace := mkNvramSpace 0 4 [] [1; 2; 0; 0].

Definition disk_with (s : NvramSpace) : Disk :=
  mkDisk (Some (mkNvramHeader 1 1 [7] None)) {[ 7 := s ]}.

Definition mem_with (locked : bool) : NvramManager :=
  mkManager true true false [mkEntry 7 locked false].

Abbreviation run := (@session alloc defs zero_crypto Disk ideal_persistence true).

Lemma empty_abs : @disk_abs _ _ ideal_persistence_ok empty_disk empty_disk.
Proof. by split. Qed.

Lemma disk_abs_with s :
  space_ok s -> @disk_abs _ _ ideal_persistence_ok (disk_with s) (disk_with s).
Proof.
  intros Hs. split; [done|]. split.
  - split; [by unfold is_uint|]. split; [by unfold is_uint|].
    split; [by apply Forall_singleton|]. split; [simpl; unfold kMaxSpaces; lia|done].
  - by apply map_Forall_singleton.
Qed.

Lemma mem_with_ok b : mem_ok (mem_with b).
Proof. split; [simpl; unfold kMaxSpaces; lia|]. by apply Forall_singleton. Qed.

Lemma locked_space_ok : space_ok locked_space.
Proof. unfold space_ok, is_uint, kMaxAuthSize, kMaxSpaceSize, zlen. simpl. lia. Qed.

Lemma boot_space_ok : space_ok boot_space.
Proof. unfold space_ok, is_uint, kMaxAuthSize, kMaxSpaceSize, zlen. simpl. lia. Qed.

End Sample.

Lemma Dispatch_refines_mstep_witness :
  let w := mkWorld fresh_manager empty_disk [NoFault; NoFault; CrashBefore] in
  match @Dispatch Sample.alloc Sample.defs zero_crypto Disk ideal_persistence true Sample.create w
  with
  | Done _ w =>
      exists k', @disk_abs _ _ ideal_persistence_ok (device w) k'
        /\ rtc (@mstep Sample.defs Sample.alloc any_fault false) (fresh_manager, empty_disk) (manager w, k')
        /\ mem_ok (manager w)
  | Crashed d' =>
      exists m' k', @disk_abs _ _ ideal_persistence_ok d' k'
        /\ rtc (@mstep Sample.defs Sample.alloc any_fault false) (fresh_manager, empty_disk) (m', k')
  | Undefined => True
  end.
Proof.
  apply (@Dispatch_refines_mstep Sample.defs sample_defs_ok Sample.alloc zero_crypto Disk
           ideal_persistence ideal_persistence_ok true Sample.create).
  - apply Sample.empty_abs.
  - split; simpl; [lia|done].
  - by cbn.
Defined.

(** A session with a power loss while the space is created. *)
Lemma session_crash_consistent_witness :
  let evs := [Command Sample.create [NoFault; NoFault; CrashBefore]; Command Sample.create [];
              Reboot; Command Sample.write [IoError]; Command Sample.delete []] in
  exists m' d', Sample.run evs fresh_manager empty_disk = Some (m', d')
    /\ exists k, @disk_abs _ _ ideal_persistence_ok d' k /\ disk_ok k /\ covered k
       /\ (initialized m' = true -> forall i, is_Some (disk_spaces k !! i) -> i ∈ indices m')
       /\ mem_ok m'.
Proof.
  intros evs. do 2 eexists. split; [vm_compute; reflexivity|].
  apply (@session_crash_consistent Sample.defs sample_defs_ok Sample.alloc zero_crypto Disk
           ideal_persistence ideal_persistence_ok true evs empty_disk).
  - apply Sample.empty_abs.
  - subst evs. repeat (apply List.Forall_cons; [by cbn|]). apply List.Forall_nil.
  - vm_compute. reflexivity.
Defined.

(** Writing, deleting and re-creating a locked space, with a power loss. *)
Lemma session_write_lock_durable_witness :
  let evs := [Command Sample.write []; Command Sample.delete [NoFault; NoFault; CrashAfter];
              Command Sample.create []; Reboot; Command Sample.delete []] in
  exists m' d', Sample.run evs (Sample.mem_with false) (Sample.disk_with Sample.locked_space)
                = Some (m', d')
    /\ exists k', @disk_abs _ _ ideal_persistence_ok d' k'
       /\ disk_spaces k' !! 7 = Some Sample.locked_space /\ committed k' 7.
Proof.
  intros evs. do 2 eexists. split; [vm_compute; reflexivity|].
  eapply (@session_write_lock_durable Sample.defs sample_defs_ok Sample.alloc zero_crypto Disk
           ideal_persistence ideal_persistence_ok true evs (Sample.mem_with false)
           (Sample.disk_with Sample.locked_space) (Sample.disk_with Sample.locked_space)).
  - apply Sample.disk_abs_with, Sample.locked_space_ok.
  - apply Sample.mem_with_ok.
  - intros _. left.
  - reflexivity.
  - by split.
  - eexists. split; [reflexivity|]. left.
  - subst evs. repeat (apply List.Forall_cons; [by cbn|]). apply List.Forall_nil.
  - subst evs. repeat (apply List.Forall_cons; [by cbn|]). apply List.Forall_nil.
  - vm_compute. reflexivity.
Defined.

Lemma boot_write_lock_holds_witness :
  let rs := [Sample.write; Sample.delete; Sample.create; Sample.lock] in
  exists xs w, @commands Sample.alloc Sample.defs zero_crypto Disk ideal_persistence true rs
      (mkWorld (Sample.mem_with true) (Sample.disk_with Sample.boot_space) [NoFault; IoError])
      = Done xs w
    /\ exists k', @disk_abs _ _ ideal_persistence_ok (device w) k'
       /\ disk_spaces k' !! 7 = Some Sample.boot_space /\ 7 ∈ indices (manager w)
       /\ (forall e, e ∈ spaces (manager w) -> entry_index e = 7 -> write_locked e = true).
Proof.
  intros rs. do 2 eexists. split; [vm_compute; reflexivity|].
  eapply (@boot_write_lock_holds Sample.defs sample_defs_ok Sample.alloc zero_crypto Disk
           ideal_persistence ideal_persistence_ok true rs (Sample.mem_with true)
           (Sample.disk_with Sample.boot_space) (Sample.disk_with Sample.boot_space)
           [NoFault; IoError]).
  - apply Sample.disk_abs_with, Sample.boot_space_ok.
  - apply Sample.mem_with_ok.
  - reflexivity.
  - left.
  - reflexivity.
  - by split.
  - intros e He%list_elem_of_singleton _. by subst.
  - subst rs. repeat (apply List.Forall_cons; [by cbn|]). apply List.Forall_nil.
  - subst rs. repeat (apply List.Forall_cons; [by cbn|]). apply List.Forall_nil.
  - vm_compute. reflexivity.
Defined.

Lemma Dispatch_defined_witness :
  @Dispatch Sample.alloc Sample.defs zero_crypto Disk ideal_persistence true Sample.create
    (mkWorld fresh_manager empty_disk [IoError]) <> Undefined.
Proof.
  apply (@Dispatch_defined Sample.defs sample_defs_ok Sample.alloc zero_crypto Disk
           ideal_persistence ideal_persistence_ok true Sample.create fresh_manager empty_disk
           empty_disk).
  - apply Sample.empty_abs.
  - split; simpl; [lia|done].
  - by right.
  - by cbn.
  - by vm_compute.
Defined.

Lemma session_create_disabled_witness :
  let evs := [Command Sample.delete []; Command Sample.create []; Reboot;
              Command (mkRequest (WipeStorageReq mkWipeStorageRequest)) []] in
  exists m' d', Sample.run evs (Sample.mem_with false) (Sample.disk_with Sample.boot_space)
                = Some (m', d')
    /\ exists k', @disk_abs _ _ ideal_persistence_ok d' k' /\ create_disabled m' k'
       /\ no_new_spaces (Sample.disk_with Sample.boot_space) k'.
Proof.
  intros evs. do 2 eexists. split; [vm_compute; reflexivity|].
  eapply (@session_create_disabled Sample.defs sample_defs_ok Sample.alloc zero_crypto Disk
           ideal_persistence ideal_persistence_ok true evs (Sample.mem_with false)
           (Sample.disk_with Sample.boot_space) (Sample.disk_with Sample.boot_space)).
  - apply Sample.disk_abs_with, Sample.boot_space_ok.
  - apply Sample.mem_with_ok.
  - split; [|done]. eexists. by split.
  - subst evs. repeat (apply List.Forall_cons; [by cbn|]). apply List.Forall_nil.
  - vm_compute. reflexivity.
Defined.

(** ** Runs that miss a guarantee *)
Module Misses.

Abbreviation dispatch_all := (@commands Sample.alloc Sample.defs zero_crypto Disk
  ideal_persistence true).

Definition get_info : Request := mkRequest (GetInfoReq mkGetInfoRequest).

Definition results {D} (r : Res D (list Response)) : list Z :=
  match r with Done xs _ => map resp_result xs | _ => [] end.

Definition space_lists {D} (r : Res D (list Response)) : list (list Z) :=
  match r with
  | Done xs _ => map (fun x => match resp_payload x with
                               | GetInfoResp i => gir_space_list i
                               | _ => []
                               end) xs
  | _ => []
  end.

Definition after {D A} (r : Res D A) (d : D) : D :=
  match r with Done _ w => device w | Crashed d' => d' | Undefined => d end.

(** A device on which space 9 is half deleted and [l] is allocated. *)
Definition half_deleted (l : list Z) : Disk :=
  mkDisk (Some (mkNvramHeader 1 0 l (Some 9))) {[ 9 := Sample.boot_space ]}.

End Misses.

(** [Initialize] "may be called again after failure", but a failed
    deletion of the provisional space leaves the entries it added: the next
    call adds them again, so that one allocated index is listed twice, and
    with 31 allocated indices the second call overruns [spaces_]. *)
Theorem Initialize_retry_duplicates :
  let faults := [NoFault; NoFault; IoError] in
  Misses.space_lists
    (Misses.dispatch_all [Misses.get_info; Misses.get_info]
       (mkWorld fresh_manager (Misses.half_deleted [7]) faults)) = [[]; [7; 7]]
  /\ Misses.dispatch_all [Misses.get_info; Misses.get_info]
       (mkWorld fresh_manager (Misses.half_deleted (seqZ 10 31)) faults) = Undefined.
Proof. split; vm_compute; reflexivity. Qed.

(** A deletion that fails half way reports an error and keeps the space,
    but the header already disowns it: a persistent write lock that is set
    successfully afterwards, and the space itself, are gone after a reboot. *)
Theorem failed_delete_loses_lock :
  let space := mkNvramSpace 0 2 [] [1; 2; 0; 0] in
  let m := Sample.mem_with false in
  let run1 := Misses.dispatch_all [Sample.delete; Sample.lock; Sample.write]
                (mkWorld m (Sample.disk_with space) [NoFault; NoFault; IoError]) in
  let run2 := Misses.dispatch_all [Sample.lock]
                (mkWorld fresh_manager (Misses.after run1 empty_disk) []) in
  Misses.results run1 = [@NV_RESULT_INTERNAL_ERROR Sample.defs;
                         @NV_RESULT_SUCCESS Sample.defs;
                         @NV_RESULT_OPERATION_DISABLED Sample.defs]
  /\ Misses.results run2 = [@NV_RESULT_SPACE_DOES_NOT_EXIST Sample.defs].
Proof. split; vm_compute; reflexivity. Qed.

(** When memory runs out, [CreateSpace] reports an internal error but
    leaves the index allocated in memory: creating the space again then fails
    because it "already exists". *)
Theorem failed_create_keeps_index :
  let no_blobs := {| blob_alloc_ok _ := false; vector_alloc_ok _ := true |} in
  Misses.results
    (@commands no_blobs Sample.defs zero_crypto Disk ideal_persistence true
       [Sample.create; Sample.create] (mkWorld fresh_manager empty_disk []))
  = [@NV_RESULT_INTERNAL_ERROR Sample.defs; @NV_RESULT_SPACE_ALREADY_EXISTS Sample.defs].
Proof. vm_compute. reflexivity. Qed.

(** A create request that lists a control of 32 or more makes
    [CreateSpace] shift out of range, which is undefined, instead of being
    rejected as a bad control. *)
Theorem wide_control_undefined c :
  32 <= c < 2 ^ 32 ->
  let request := mkRequest (CreateSpaceReq (mkCreateSpaceRequest 7 4 [c] [])) in
  @Dispatch Sample.alloc Sample.defs zero_crypto Disk ideal_persistence true request
    (mkWorld fresh_manager empty_disk []) = Undefined.
Proof.
  intros Hc request. unfold Dispatch, CreateSpace. cbn -[Z.ltb].
  unfold controls_mask. rewrite uint_small by (unfold is_uint; lia).
  destruct (Z.ltb_spec c 32); [lia|]. reflexivity.
Qed.

Lemma wide_control_undefined_witness :
  let request := mkRequest (CreateSpaceReq (mkCreateSpaceRequest 7 4 [32] [])) in
  @Dispatch Sample.alloc Sample.defs zero_crypto Disk ideal_persistence true request
    (mkWorld fresh_manager empty_disk []) = Undefined.
Proof. apply (wide_control_undefined 32). lia. Defined.
