(* ===== verification/NvramSpec.v ===== *)
(** * NvramSpec: the service as its clients see it

    [Service] is the abstract state of the service: a map from indices to
    spaces with their per-boot locks, and two switches.  [serve] says what each
    command does to it and what it answers.  [Dispatch_implements_serve]: while
    storage does not fail and memory lasts, an initialized manager together
    with its device behaves exactly like [serve]. *)
From S2P Require Import Prelude NvramIo NvramCodec NvramMessages NvramStorage NvramPersistence.
From S2P Require Import NvramManager NvramLogic NvramSystem NvramService.

(** ** Specification *)

Record Slot := mkSlot {
  slot_space : NvramSpace;
  slot_write_locked : bool;
  slot_read_locked : bool;
}.

Record Service := mkService {
  sv_slots : gmap Z Slot;
  sv_create_disabled : bool;
  sv_wipe_disabled : bool;
}.

Definition with_slots (f : gmap Z Slot -> gmap Z Slot) (sv : Service) : Service :=
  mkService (f (sv_slots sv)) (sv_create_disabled sv) (sv_wipe_disabled sv).

Section Spec.
Context `{NvramDefs} `{Crypto}.
Context (wipe_support : bool).

(** Why a write to a space is refused, if it is. *)
Definition write_refused (slot : Slot) (auth : blob) : option Z :=
  let s := slot_space slot in
  let locked := if HasControl s NV_CONTROL_PERSISTENT_WRITE_LOCK
                then Space_HasFlag s kFlagWriteLocked
                else HasControl s NV_CONTROL_BOOT_WRITE_LOCK && slot_write_locked slot in
  if locked then Some NV_RESULT_OPERATION_DISABLED
  else if HasControl s NV_CONTROL_WRITE_AUTHORIZATION
          && negb (bool_decide (auth = authorization_value s))
  then Some NV_RESULT_ACCESS_DENIED else None.

Definition read_refused (slot : Slot) (auth : blob) : option Z :=
  let s := slot_space slot in
  if HasControl s NV_CONTROL_BOOT_READ_LOCK && slot_read_locked slot
  then Some NV_RESULT_OPERATION_DISABLED
  else if HasControl s NV_CONTROL_READ_AUTHORIZATION
          && negb (bool_decide (auth = authorization_value s))
  then Some NV_RESULT_ACCESS_DENIED else None.

(** The contents after writing [data]: overwritten and zero-filled, or the
    digest of the old contents extended by the data. *)
Definition written (s : NvramSpace) (data : blob) : option blob :=
  if HasControl s NV_CONTROL_WRITE_EXTEND
  then Some (crypto_SHA256 (contents s ++ data) (zlen (contents s)))
  else if zlen data <=? zlen (contents s)
  then Some (data ++ replicate (length (contents s) - length data) 0)
  else None.

Definition set_contents (s : NvramSpace) (data : blob) : NvramSpace :=
  mkNvramSpace (space_flags s) (controls s) (authorization_value s) data.

(** The controls of a space, in increasing order. *)
Definition controls_of (s : NvramSpace) : list Z :=
  filter (fun c => HasControl s c = true) (seqZ 0 32).

(** A create request for index [i] is acceptable as control mask [mask]. *)
Definition create_result (q : CreateSpaceRequest) (sv : Service) : Z + NvramSpace :=
  if sv_create_disabled sv then inl NV_RESULT_OPERATION_DISABLED
  else if bool_decide (is_Some (sv_slots sv !! csr_index q))
  then inl NV_RESULT_SPACE_ALREADY_EXISTS
  else if decide (kMaxSpaces <= size (sv_slots sv))%nat then inl NV_RESULT_INVALID_PARAMETER
  else if (kMaxSpaceSize <? csr_size q)
          || (kMaxAuthSize <? zlen (csr_authorization_value q))
  then inl NV_RESULT_INVALID_PARAMETER
  else
    match controls_mask (csr_controls q) 0 with
    | Some mask =>
        if controls_acceptable mask (csr_size q) then
          let s0 := mkNvramSpace 0 mask [] [] in
          inr (mkNvramSpace 0 mask
                 (if HasControl s0 NV_CONTROL_WRITE_AUTHORIZATION
                     || HasControl s0 NV_CONTROL_READ_AUTHORIZATION
                  then csr_authorization_value q else [])
                 (replicate (Z.to_nat (csr_size q)) 0))
        else inl NV_RESULT_INVALID_PARAMETER
    | None => inl NV_RESULT_INVALID_PARAMETER
    end.

(** A command on an existing space that the lock and the authorization value
    may refuse. *)
Definition on_slot {A} (i : Z) (refused : Slot -> option Z) (empty : A)
    (act : Slot -> Z * A * Service) (sv : Service) : Z * A * Service :=
  match sv_slots sv !! i with
  | None => (NV_RESULT_SPACE_DOES_NOT_EXIST, empty, sv)
  | Some slot =>
      match refused slot with
      | Some r => (r, empty, sv)
      | None => act slot
      end
  end.

Definition put_slot (i : Z) (slot : Slot) (sv : Service) : Service :=
  with_slots (insert i slot) sv.

(** The answer to a request and the next state.  The order in which spaces
    are listed is left open: [serve] lists them in the order of the map. *)
Definition serve (r : Request) (sv : Service) : Z * ResponseUnion * Service :=
  match req_payload r with
  | GetInfoReq _ =>
      (NV_RESULT_SUCCESS,
       GetInfoResp (mkGetInfoResponse (kMaxSpaceSize * Z.of_nat kMaxSpaces)
         (kMaxSpaceSize * (Z.of_nat kMaxSpaces - Z.of_nat (size (sv_slots sv))))
         kMaxSpaceSize (Z.of_nat kMaxSpaces) (map fst (map_to_list (sv_slots sv)))
         (sv_wipe_disabled sv)), sv)
  | CreateSpaceReq q =>
      let answer := CreateSpaceResp mkCreateSpaceResponse in
      match create_result q sv with
      | inl e => (e, answer, sv)
      | inr s => (NV_RESULT_SUCCESS, answer, put_slot (csr_index q) (mkSlot s false false) sv)
      end
  | GetSpaceInfoReq q =>
      on_slot (gsi_index q) (fun _ => None) (GetSpaceInfoResp GetSpaceInfoResponse_init)
        (fun slot =>
           let s := slot_space slot in
           (NV_RESULT_SUCCESS,
            GetSpaceInfoResp (mkGetSpaceInfoResponse (zlen (contents s)) (controls_of s)
              (HasControl s NV_CONTROL_BOOT_READ_LOCK && slot_read_locked slot)
              (if HasControl s NV_CONTROL_PERSISTENT_WRITE_LOCK
               then Space_HasFlag s kFlagWriteLocked
               else HasControl s NV_CONTROL_BOOT_WRITE_LOCK && slot_write_locked slot)),
            sv)) sv
  | DeleteSpaceReq q =>
      let answer := DeleteSpaceResp mkDeleteSpaceResponse in
      on_slot (dsr_index q) (fun slot => write_refused slot (dsr_authorization_value q)) answer
        (fun _ => (NV_RESULT_SUCCESS, answer, with_slots (delete (dsr_index q)) sv)) sv
  | DisableCreateReq _ =>
      (NV_RESULT_SUCCESS, DisableCreateResp mkDisableCreateResponse,
       mkService (sv_slots sv) true (sv_wipe_disabled sv))
  | WriteSpaceReq q =>
      let answer := WriteSpaceResp mkWriteSpaceResponse in
      on_slot (wsr_index q) (fun slot => write_refused slot (wsr_authorization_value q)) answer
        (fun slot =>
           match written (slot_space slot) (wsr_buffer q) with
           | None => (NV_RESULT_INVALID_PARAMETER, answer, sv)
           | Some data =>
               (NV_RESULT_SUCCESS, answer,
                put_slot (wsr_index q)
                  (mkSlot (set_contents (slot_space slot) data) (slot_write_locked slot)
                     (slot_read_locked slot)) sv)
           end) sv
  | ReadSpaceReq q =>
      on_slot (rsr_index q) (fun slot => read_refused slot (rsr_authorization_value q))
        (ReadSpaceResp ReadSpaceResponse_init)
        (fun slot => (NV_RESULT_SUCCESS,
                      ReadSpaceResp (mkReadSpaceResponse (contents (slot_space slot))), sv)) sv
  | LockSpaceWriteReq q =>
      let answer := LockSpaceWriteResp mkLockSpaceWriteResponse in
      on_slot (lsw_index q) (fun slot => write_refused slot (lsw_authorization_value q)) answer
        (fun slot =>
           let s := slot_space slot in
           if HasControl s NV_CONTROL_PERSISTENT_WRITE_LOCK then
             (NV_RESULT_SUCCESS, answer,
              put_slot (lsw_index q)
                (mkSlot (Space_SetFlag s kFlagWriteLocked) (slot_write_locked slot)
                   (slot_read_locked slot)) sv)
           else if HasControl s NV_CONTROL_BOOT_WRITE_LOCK then
             (NV_RESULT_SUCCESS, answer,
              put_slot (lsw_index q) (mkSlot s true (slot_read_locked slot)) sv)
           else (NV_RESULT_INVALID_PARAMETER, answer, sv)) sv
  | LockSpaceReadReq q =>
      let answer := LockSpaceReadResp mkLockSpaceReadResponse in
      on_slot (lsr_index q) (fun slot => read_refused slot (lsr_authorization_value q)) answer
        (fun slot =>
           let s := slot_space slot in
           if HasControl s NV_CONTROL_BOOT_READ_LOCK then
             (NV_RESULT_SUCCESS, answer,
              put_slot (lsr_index q) (mkSlot s (slot_write_locked slot) true) sv)
           else (NV_RESULT_INVALID_PARAMETER, answer, sv)) sv
  | WipeStorageReq _ =>
      let answer := WipeStorageResp mkWipeStorageResponse in
      if negb wipe_support || sv_wipe_disabled sv
      then (NV_RESULT_OPERATION_DISABLED, answer, sv)
      else (NV_RESULT_SUCCESS, answer, with_slots (fun _ => ∅) sv)
  | DisableWipeReq _ =>
      let answer := DisableWipeResp mkDisableWipeResponse in
      if negb wipe_support then (NV_RESULT_OPERATION_DISABLED, answer, sv)
      else (NV_RESULT_SUCCESS, answer, mkService (sv_slots sv) (sv_create_disabled sv) true)
  end.

(** What a reboot does: the per-boot locks and the wipe switch are reset. *)
Definition reboot (sv : Service) : Service :=
  mkService ((fun slot => mkSlot (slot_space slot) false false) <$> sv_slots sv)
    (sv_create_disabled sv) false.

Definition empty_service : Service := mkService ∅ false false.

(** A history of requests and reboots ([None]), with its answers. *)
Fixpoint serve_history (evs : list (option Request)) (sv : Service)
    : list (Z * ResponseUnion) :=
  match evs with
  | [] => []
  | None :: evs => serve_history evs (reboot sv)
  | Some r :: evs =>
      let '(result, answer, sv') := serve r sv in
      (result, answer) :: serve_history evs sv'
  end.

End Spec.

(** Answers agree up to the order of the list of spaces. *)
Definition same_answer (a b : ResponseUnion) : Prop :=
  match a, b with
  | GetInfoResp x, GetInfoResp y =>
      gir_total_size x = gir_total_size y /\ gir_available_size x = gir_available_size y
      /\ gir_max_space_size x = gir_max_space_size y /\ gir_max_spaces x = gir_max_spaces y
      /\ gir_space_list x ≡ₚ gir_space_list y /\ gir_wipe_disabled x = gir_wipe_disabled y
  | _, _ => a = b
  end.

(** ** Abstraction relation *)

Definition slot_of (e : SpaceListEntry) (s : NvramSpace) : Slot :=
  mkSlot s (write_locked e) (read_locked e).

(** The manager [m] on contents [k] represents [sv]. *)
Record represents (m : NvramManager) (k : Disk) (sv : Service) : Prop := {
  rep_init : initialized m = true;
  rep_mem : mem_ok m;
  rep_nodup : NoDup (indices m);
  rep_create : disable_create m = sv_create_disabled sv;
  rep_wipe : disable_wipe m = sv_wipe_disabled sv;
  rep_entry e : e ∈ spaces m -> exists s, disk_spaces k !! entry_index e = Some s
                                 /\ sv_slots sv !! entry_index e = Some (slot_of e s);
  rep_slots i : is_Some (sv_slots sv !! i) -> i ∈ indices m;
  rep_data i : is_Some (disk_spaces k !! i) -> i ∈ indices m;
}.

(** The header on the device lists what the manager knows, or neither has
    anything to list. *)
Definition in_sync (m : NvramManager) (k : Disk) : Prop :=
  (disk_header k = None /\ spaces m = [] /\ disable_create m = false)
  \/ exists p, disk_header k = Some (current_header m p).

Lemma sync_lock m k f pos :
  in_sync m k -> f = lock_write \/ f = lock_read ->
  in_sync (set_spaces (alter f pos (spaces m)) m) k.
Proof.
  intros [(Hh & Hs & Hd)|[p Hp]] Hf.
  - left. simpl. by rewrite Hs.
  - right. exists p. rewrite Hp. unfold current_header. simpl. by rewrite alter_indices.
Qed.

Section Representation.
Context `{NvramDefs} `{Crypto}.
Implicit Types (m : NvramManager) (k : Disk) (sv : Service) (e : SpaceListEntry).

Lemma same_index_same_entry m e e' :
  NoDup (indices m) -> e ∈ spaces m -> e' ∈ spaces m -> entry_index e = entry_index e' -> e = e'.
Proof.
  intros Hnd (a & Ha)%list_elem_of_lookup (b & Hb)%list_elem_of_lookup E.
  assert (a = b) as ->.
  { eapply NoDup_lookup; [exact Hnd|..]; unfold indices;
      change (map entry_index) with (fmap (M := list) entry_index);
      rewrite list_lookup_fmap, ?Ha, ?Hb; simpl; by rewrite ?E. }
  congruence.
Qed.

Lemma rep_index m k sv i :
  represents m k sv -> i ∈ indices m ->
  exists e s, e ∈ spaces m /\ entry_index e = i /\ disk_spaces k !! i = Some s
              /\ sv_slots sv !! i = Some (slot_of e s).
Proof.
  intros R (e & -> & He)%list_elem_of_fmap. destruct (rep_entry m k sv R e He) as (s & Hs & Hsl).
  eauto 10.
Qed.

Lemma rep_dom m k sv i : represents m k sv -> is_Some (sv_slots sv !! i) <-> i ∈ indices m.
Proof.
  intros R. split; [apply (rep_slots m k sv R)|]. intros Hi.
  destruct (rep_index m k sv i R Hi) as (e & s & _ & _ & _ & E). by eexists.
Qed.

Lemma rep_list m k sv :
  represents m k sv -> indices m ≡ₚ map fst (map_to_list (sv_slots sv)).
Proof.
  intros R. apply NoDup_Permutation; [apply (rep_nodup m k sv R)|apply NoDup_fst_map_to_list|].
  intros i. rewrite <- (rep_dom m k sv i R).
  change (map fst) with (fmap (M := list) (@fst Z Slot)). rewrite list_elem_of_fmap. split.
  - intros [slot Hs]. exists (i, slot). split; [done|]. by apply elem_of_map_to_list.
  - intros ([j slot] & -> & Hs%elem_of_map_to_list). by exists slot.
Qed.

Lemma rep_size m k sv : represents m k sv -> size (sv_slots sv) = length (spaces m).
Proof.
  intros R. pose proof (rep_list m k sv R) as Hp. apply Permutation_length in Hp.
  unfold indices in Hp. rewrite !length_map in Hp. rewrite Hp. symmetry.
  apply length_map_to_list.
Qed.

Lemma rep_disk_size m k sv : represents m k sv -> (size (disk_spaces k) <= length (spaces m))%nat.
Proof.
  intros R. rewrite <- (rep_size m k sv R), <- !size_dom. apply subseteq_size.
  intros i Hi%elem_of_dom. apply elem_of_dom, (rep_dom m k sv i R), (rep_data m k sv R), Hi.
Qed.

Lemma rep_header m k sv h : represents m k sv -> represents m (put_header h k) sv.
Proof. intros []. by split. Qed.

Lemma rep_update m k sv e s' :
  represents m k sv -> e ∈ spaces m ->
  represents m (put_space (entry_index e) s' k) (put_slot (entry_index e) (slot_of e s') sv).
Proof.
  intros R He. pose proof R as []. split; try done; simpl.
  - intros e' He'. destruct (decide (entry_index e' = entry_index e)) as [E|Hne].
    + rewrite (same_index_same_entry m e' e) in * by done.
      exists s'. by rewrite !lookup_insert_eq.
    + rewrite !lookup_insert_ne by done. auto.
  - intros i [<-|[_ Hi]]%lookup_insert_is_Some; [|auto]. apply list_elem_of_fmap. eauto.
  - intros i [<-|[_ Hi]]%lookup_insert_is_Some; [|auto]. apply list_elem_of_fmap. eauto.
Qed.

Lemma rep_lock m k sv pos e s f :
  represents m k sv -> spaces m !! pos = Some e -> disk_spaces k !! entry_index e = Some s ->
  f = lock_write \/ f = lock_read ->
  represents (set_spaces (alter f pos (spaces m)) m) k
    (put_slot (entry_index e) (slot_of (f e) s) sv).
Proof.
  intros R Hp Hs Hf. pose proof R as [Hi Hm Hnd Hc Hw He Hsl Hd].
  assert (Hidx : indices (set_spaces (alter f pos (spaces m)) m) = indices m)
    by by apply alter_indices.
  assert (Hfe : entry_index (f e) = entry_index e) by by destruct Hf as [->| ->].
  split; rewrite ?Hidx; try done; simpl.
  - by apply mem_ok_lock.
  - intros e' (n & Hn)%list_elem_of_lookup. destruct (decide (n = pos)) as [->|Hne].
    + rewrite list_lookup_alter_eq, Hp in Hn. injection Hn as <-. rewrite Hfe.
      exists s. by rewrite lookup_insert_eq.
    + rewrite list_lookup_alter_ne in Hn by done.
      rewrite lookup_insert_ne; [apply He; by eapply list_elem_of_lookup_2|].
      intros E. destruct Hne. eapply NoDup_lookup; [exact Hnd|..]; unfold indices;
        change (map entry_index) with (fmap (M := list) entry_index);
        rewrite list_lookup_fmap, ?Hn, ?Hp; simpl; by rewrite ?E.
  - intros i [<-|[_ Hi']]%lookup_insert_is_Some; [|auto].
    apply list_elem_of_fmap. exists e. split; [done|]. by eapply list_elem_of_lookup_2.
Qed.

Lemma rep_add m k sv i s :
  represents m k sv -> i ∉ indices m -> (length (spaces m) < kMaxSpaces)%nat -> is_uint 32 i ->
  represents (set_spaces (spaces m ++ [fresh_entry i]) m) (put_space i s k)
    (put_slot i (mkSlot s false false) sv).
Proof.
  intros R Hn Hlt Hu. pose proof R as [Hi Hm Hnd Hc Hw He Hsl Hd].
  assert (Hidx : indices (set_spaces (spaces m ++ [fresh_entry i]) m) = indices m ++ [i]).
  { unfold indices. simpl. by rewrite map_app. }
  split; rewrite ?Hidx; try done; simpl.
  - by apply mem_ok_push.
  - apply NoDup_app. split; [done|]. split; [|apply NoDup_singleton].
    intros j Hj ->%list_elem_of_singleton. done.
  - intros e [Hel| ->%list_elem_of_singleton]%elem_of_app; simpl.
    + assert (entry_index e <> i).
      { intros <-. destruct Hn. apply list_elem_of_fmap. eauto. }
      rewrite !lookup_insert_ne by done. auto.
    + exists s. by rewrite !lookup_insert_eq.
  - intros j [<-|[_ Hj]]%lookup_insert_is_Some; apply elem_of_app; [right; by left|auto].
  - intros j [<-|[_ Hj]]%lookup_insert_is_Some; apply elem_of_app; [right; by left|auto].
Qed.

Lemma rep_remove m k sv pos e :
  represents m k sv -> spaces m !! pos = Some e ->
  represents (set_spaces (swap_remove pos (spaces m)) m) (drop_space (entry_index e) k)
    (with_slots (delete (entry_index e)) sv).
Proof.
  intros R Hp. pose proof R as [Hi Hm Hnd Hc Hw He Hsl Hd].
  pose proof (swap_remove_indices _ _ _ Hp) as Hperm.
  assert (Hnd' : NoDup (entry_index e :: map entry_index (swap_remove pos (spaces m)))).
  { rewrite <- Hperm. done. }
  apply NoDup_cons in Hnd' as [Hnotin Hnd'].
  assert (Hrest : forall i, i <> entry_index e -> i ∈ indices m ->
            i ∈ map entry_index (swap_remove pos (spaces m))).
  { intros i Hne. unfold indices. rewrite Hperm, elem_of_cons. by intros [|]. }
  split; try done; simpl.
  - by apply (mem_ok_remove m pos e).
  - intros e' He'. assert (Hne : entry_index e' <> entry_index e).
    { intros E. apply Hnotin. rewrite <- E. apply list_elem_of_fmap. eauto. }
    rewrite !lookup_delete_ne by done. apply He.
    rewrite <- (swap_remove_perm _ _ _ Hp). apply elem_of_app. by left.
  - intros i [Hne Hs]%lookup_delete_is_Some. apply Hrest; auto.
  - intros i [Hne Hs]%lookup_delete_is_Some. apply Hrest; auto.
Qed.

End Representation.

(** ** The helpers compute what the specification says *)

Lemma equals_loop_zero a b acc :
  length a = length b -> equals_loop a b acc = 0 <-> acc = 0 /\ a = b.
Proof.
  revert b acc. induction a as [|x a IH]; intros [|y b] acc; simpl; try done.
  - intros _. tauto.
  - intros [= Hl]. rewrite IH by done. rewrite Z.lor_eq_0_iff, Z.lxor_eq_0_iff.
    split; [intros [[-> ->] ->]; done|]. by intros [-> [= -> ->]].
Qed.

Lemma ConstantTimeEquals_eq a b : ConstantTimeEquals a b = bool_decide (b = a).
Proof.
  unfold ConstantTimeEquals, zlen. destruct (Z.eqb_spec (Z.of_nat (length a)) (Z.of_nat (length b)))
    as [E|Hne]; simpl.
  - assert (length a = length b) by lia.
    destruct (Z.eqb_spec (equals_loop a b 0) 0) as [Hz|Hz];
      [apply equals_loop_zero in Hz as [_ ->]; [by rewrite bool_decide_eq_true_2|done]|].
    rewrite bool_decide_eq_false_2; [done|]. intros ->. destruct Hz.
    by apply equals_loop_zero.
  - rewrite bool_decide_eq_false_2; [done|]. by intros ->.
Qed.

Section Helpers.
Context `{Hdefs : NvramDefsOk} `{Halloc : Allocator} (Hmem : alloc_upto 4096) `{Hcr : Crypto}.

Lemma CheckWriteAccess_eq pos e s auth :
  CheckWriteAccess (mkSpaceRecord pos e s) auth =
  default NV_RESULT_SUCCESS (write_refused (slot_of e s) auth).
Proof using.
  unfold CheckWriteAccess, write_refused. cbn [persistent transient slot_space slot_of
    slot_write_locked]. rewrite ConstantTimeEquals_eq.
  destruct (HasControl s NV_CONTROL_PERSISTENT_WRITE_LOCK), (Space_HasFlag s _),
    (HasControl s NV_CONTROL_BOOT_WRITE_LOCK), (write_locked e); simpl;
    first [done | by destruct (_ && _)].
Qed.

Lemma CheckReadAccess_eq pos e s auth :
  CheckReadAccess (mkSpaceRecord pos e s) auth =
  default NV_RESULT_SUCCESS (read_refused (slot_of e s) auth).
Proof using.
  unfold CheckReadAccess, read_refused. cbn [persistent transient slot_space slot_of
    slot_read_locked]. rewrite ConstantTimeEquals_eq.
  destruct (HasControl s NV_CONTROL_BOOT_READ_LOCK && read_locked e); simpl; [done|].
  by destruct (_ && _).
Qed.

Lemma write_refused_error slot auth r :
  write_refused slot auth = Some r -> r <> NV_RESULT_SUCCESS.
Proof using Hdefs.
  unfold write_refused. destruct (if HasControl _ _ then _ else _); [intros [= <-]; error_code|].
  destruct (_ && _); [intros [= <-]; error_code|done].
Qed.

Lemma read_refused_error slot auth r :
  read_refused slot auth = Some r -> r <> NV_RESULT_SUCCESS.
Proof using Hdefs.
  unfold read_refused. destruct (_ && _); [intros [= <-]; error_code|].
  destruct (_ && _); [intros [= <-]; error_code|done].
Qed.

Lemma Vector_Resize_ok n : 0 <= n <= 4096 -> Vector_Resize n = true.
Proof using Hmem. intros Hn. unfold Vector_Resize. rewrite (proj2 Hmem) by done. apply orb_true_r. Qed.

Lemma Blob_Resize_ok n : 0 <= n <= 4096 -> Blob_Resize n = true.
Proof using Hmem. intros Hn. unfold Blob_Resize. rewrite (proj1 Hmem) by done. apply orb_true_r. Qed.

Lemma Blob_Assign_ok b : zlen b <= 4096 -> Blob_Assign b = Ret b.
Proof using Hmem. intros Hn. unfold Blob_Assign. by rewrite (proj1 Hmem) by zlen. Qed.

Lemma controls_loop_eq n c s acc :
  zlen acc + Z.of_nat n <= 4096 ->
  controls_loop n c s acc =
    (NV_RESULT_SUCCESS, acc ++ filter (fun c => HasControl s c = true) (seqZ c (Z.of_nat n))).
Proof using Hmem.
  revert c acc. induction n as [|n IH]; intros c acc Hn; cbn [controls_loop].
  { by rewrite app_nil_r. }
  rewrite seqZ_cons by lia. rewrite filter_cons.
  replace (Z.pred (Z.of_nat (S n))) with (Z.of_nat n) by lia.
  destruct (HasControl s c) eqn:E.
  - rewrite Vector_Resize_ok by zlen. rewrite IH by zlen.
    rewrite decide_True by done. by rewrite <- app_assoc, Z.add_1_r.
  - rewrite decide_False by done. rewrite IH by zlen. by rewrite Z.add_1_r.
Qed.

Lemma updated_contents_eq s data :
  zlen (contents s) <= kMaxSpaceSize -> zlen data <= 3000 ->
  updated_contents s data =
    match written s data with Some d => inr d | None => inl NV_RESULT_INVALID_PARAMETER end.
Proof using Hmem.
  intros Hs Hd. unfold updated_contents, written, kMaxSpaceSize in *.
  destruct (HasControl _ _).
  - by rewrite Blob_Resize_ok by zlen.
  - destruct (Z.ltb_spec (zlen (contents s)) (zlen data)),
      (Z.leb_spec (zlen data) (zlen (contents s))); try lia; [done|].
    do 4 f_equal. unfold zlen. lia.
Qed.

End Helpers.

(** ** Refinement *)

Definition no_fault (f : fault) : Prop := f = NoFault.

Section Refinement.
Context `{Hdefs : NvramDefsOk} `{Halloc : Allocator} (Hmem : alloc_upto 4096) `{Hcr : Crypto}
  {D : Type} `{HP : PersistenceOk D}.
Context (wipe_support : bool).

(** Without faults, a program ends in a result that satisfies [Q]. *)
Definition returns {A} (prog : M D A) (m : NvramManager) (k : Disk)
    (Q : A -> NvramManager -> Disk -> Prop) : Prop :=
  runs no_fault False (fun _ => False) prog m k Q.

Lemma no_crashes (P : Prop) : crashes no_fault -> P.
Proof using. intros [|]; done. Qed.

Lemma returns_WriteHeader p m k Q :
  mem_ok m -> prov_ok p -> Q NV_RESULT_SUCCESS m (put_header (current_header m p) k) ->
  returns (WriteHeader p) m k Q.
Proof using Hmem.
  intros Hm Hp HQ. apply runs_WriteHeader; [done|done|done|apply no_crashes|apply no_crashes|done|].
  intros [|E]; [done|]. destruct Hm as [Hl _]. unfold kMaxSpaces in Hl.
  rewrite Vector_Resize_ok in E by (done || unfold zlen; lia). done.
Qed.

Lemma returns_WriteSpaceData i s m k Q :
  space_ok s -> (size (delete i (disk_spaces k)) < device_spaces)%nat ->
  Q NV_RESULT_SUCCESS m (put_space i s k) -> returns (WriteSpaceData i s) m k Q.
Proof using.
  intros Hs Hsz HQ. apply runs_WriteSpaceData; [done|done|apply no_crashes|apply no_crashes|done|].
  intros [|E]; [done|lia].
Qed.

Lemma returns_Initialize {A} (failed : A) (body : M D A) m k Q :
  initialized m = true -> returns body m k Q ->
  returns (ok ← Initialize; if negb ok then mret failed else body) m k Q.
Proof using.
  intros Hi Hb. apply runs_bind. unfold Initialize. apply runs_bind, runs_get. rewrite Hi.
  apply runs_ret. exact Hb.
Qed.

Lemma returns_LoadSpaceRecord {A} (f : Z + SpaceRecord -> M D A) i m k sv Q :
  represents m k sv ->
  (sv_slots sv !! i = None -> returns (f (inl NV_RESULT_SPACE_DOES_NOT_EXIST)) m k Q) ->
  (forall pos e s, spaces m !! pos = Some e -> entry_index e = i ->
     disk_spaces k !! i = Some s -> sv_slots sv !! i = Some (slot_of e s) ->
     returns (f (inr (mkSpaceRecord pos e s))) m k Q) ->
  returns (LoadSpaceRecord i ≫= f) m k Q.
Proof using.
  intros R Hno Hyes. apply runs_bind, runs_LoadSpaceRecord; [done|apply no_crashes|..].
  - intros E. apply FindSpace_absent in E; [|apply (rep_mem _ _ _ R)]. apply Hno.
    apply eq_None_not_Some. intros Hs. by apply E, (rep_slots _ _ _ R).
  - intros e s _ Hp He Hs. apply Hyes; try done.
    destruct (rep_entry _ _ _ R e) as (s' & Hs' & Hsl); [by eapply list_elem_of_lookup_2|].
    rewrite He in *. congruence.
  - intros Hf [|Hn]; [done|]. destruct (FindSpace_found _ _ Hf) as (e & Hp & He).
    destruct (rep_entry _ _ _ R e) as (s' & Hs' & _); [by eapply list_elem_of_lookup_2|].
    rewrite He in *. congruence.
Qed.

(** The outcome [serve] prescribes. *)
Definition served (r : Request) (sv : Service) (result : Z) (payload : ResponseUnion)
    (m : NvramManager) (k : Disk) : Prop :=
  exists answer sv', serve wipe_support r sv = (result, answer, sv')
    /\ same_answer payload answer /\ represents m k sv' /\ in_sync m k.

Lemma same_answer_refl p : same_answer p p.
Proof using. by destruct p. Qed.

Lemma served_intro r sv result payload m k sv' :
  serve wipe_support r sv = (result, payload, sv') -> represents m k sv' -> in_sync m k ->
  served r sv result payload m k.
Proof using.
  intros E R S. exists payload, sv'. split; [done|]. split; [apply same_answer_refl|done].
Qed.

(** The device has room for a space the manager knows. *)
Lemma rep_room m k sv i :
  represents m k sv -> is_Some (disk_spaces k !! i) ->
  (size (delete i (disk_spaces k)) < device_spaces)%nat.
Proof using.
  intros R Hi. pose proof (rep_disk_size _ _ _ R). pose proof (rep_mem _ _ _ R) as [Hl _].
  assert (size (disk_spaces k) <> 0)%nat by (apply map_size_ne_0_lookup; eauto).
  rewrite map_size_delete. destruct Hi as [s ->]. unfold kMaxSpaces, device_spaces in *. lia.
Qed.

(** Goals about requests on one space: the space is missing, or it is found
    and the access check answers as [serve] does. *)
Ltac serve_absent :=
  intros Habs; apply runs_ret; eapply served_intro; [|eassumption|eassumption];
  unfold serve, on_slot; cbn; by rewrite Habs.

Ltac serve_slot R :=
  apply returns_Initialize; [apply (rep_init _ _ _ R)|];
  eapply returns_LoadSpaceRecord; [exact R|serve_absent|];
  intros pos e s Hp He Hs Hslot; cbn [persistent transient array_index].

(** The answer computed by [serve] for a space that is present. *)
Ltac served_by Hslot E :=
  eapply served_intro;
  [unfold serve, on_slot; cbn [req_payload]; rewrite Hslot; cbn [slot_space slot_of];
   rewrite ?E; try reflexivity|..].

Lemma serve_GetInfo m k sv :
  represents m k sv -> in_sync m k ->
  returns GetInfo m k (fun '(result, x) =>
    served (mkRequest (GetInfoReq mkGetInfoRequest)) sv result (GetInfoResp x)).
Proof using Hmem.
  intros R S. apply returns_Initialize; [apply (rep_init _ _ _ R)|]. apply runs_bind, runs_get.
  cbv zeta. pose proof (rep_mem _ _ _ R) as [Hl _]. unfold kMaxSpaces in Hl.
  rewrite Vector_Resize_ok by (done || unfold zlen; lia). apply runs_ret.
  do 2 eexists. split; [reflexivity|]. split; [|done]. simpl.
  rewrite (rep_size _ _ _ R). repeat split; [|by rewrite (rep_wipe _ _ _ R)].
  apply (rep_list _ _ _ R).
Qed.

Lemma serve_GetSpaceInfo q m k sv :
  represents m k sv -> in_sync m k ->
  returns (GetSpaceInfo q) m k (fun '(result, x) =>
    served (mkRequest (GetSpaceInfoReq q)) sv result (GetSpaceInfoResp x)).
Proof using Hmem.
  intros R S. serve_slot R. unfold GetControlsVector. rewrite controls_loop_eq by done.
  rewrite decide_True by done. apply runs_ret. by served_by Hslot I.
Qed.

Lemma serve_ReadSpace q m k sv :
  represents m k sv -> in_sync m k -> disk_ok k ->
  returns (ReadSpace q) m k (fun '(result, x) =>
    served (mkRequest (ReadSpaceReq q)) sv result (ReadSpaceResp x)).
Proof using Hmem Hdefs.
  intros R S [_ Hok]. serve_slot R. rewrite CheckReadAccess_eq.
  destruct (read_refused _ _) as [err|] eqn:E; simpl.
  - rewrite decide_False by by eapply read_refused_error. apply runs_ret. by served_by Hslot E.
  - rewrite decide_True by done. destruct (Hok _ _ Hs) as (_ & _ & _ & Hc).
    unfold kMaxSpaceSize in Hc. rewrite Blob_Assign_ok by (done || lia).
    apply runs_ret. by served_by Hslot E.
Qed.

Lemma serve_WriteSpace q m k sv :
  represents m k sv -> in_sync m k -> disk_ok k -> zlen (wsr_buffer q) <= 3000 ->
  returns (WriteSpace q) m k (fun result =>
    served (mkRequest (WriteSpaceReq q)) sv result (WriteSpaceResp mkWriteSpaceResponse)).
Proof using Hmem Hdefs.
  intros R S [_ Hok] Hlen. serve_slot R. rewrite CheckWriteAccess_eq.
  destruct (write_refused _ _) as [err|] eqn:E; simpl.
  - rewrite decide_False by by eapply write_refused_error. apply runs_ret. by served_by Hslot E.
  - rewrite decide_True by done. destruct (Hok _ _ Hs) as (? & ? & ? & ?).
    pose proof (updated_contents_length s (wsr_buffer q)) as Hul.
    rewrite updated_contents_eq in * by done.
    destruct (written s (wsr_buffer q)) as [data|] eqn:Ew.
    2: { apply runs_ret. served_by Hslot E; [by rewrite Ew|done|done]. }
    specialize (Hul data eq_refl). apply returns_WriteSpaceData.
    + split; [done|]. split; [done|]. split; [done|]. simpl. by rewrite Hul.
    + by eapply rep_room.
    + served_by Hslot E; [by rewrite Ew| |exact S]. rewrite <- He.
      apply (rep_update m k sv e (set_contents s data)); [done|]. by eapply list_elem_of_lookup_2.
Qed.

Lemma serve_LockSpaceWrite q m k sv :
  represents m k sv -> in_sync m k -> disk_ok k ->
  returns (LockSpaceWrite q) m k (fun result =>
    served (mkRequest (LockSpaceWriteReq q)) sv result
      (LockSpaceWriteResp mkLockSpaceWriteResponse)).
Proof using Hmem Hdefs.
  intros R S [_ Hok]. serve_slot R. rewrite CheckWriteAccess_eq.
  destruct (write_refused _ _) as [err|] eqn:E; simpl.
  { rewrite decide_False by by eapply write_refused_error. apply runs_ret. by served_by Hslot E. }
  rewrite decide_True by done.
  destruct (HasControl s NV_CONTROL_PERSISTENT_WRITE_LOCK) eqn:Ep.
  - destruct (Hok _ _ Hs) as (Hfl & ? & ? & ?). apply returns_WriteSpaceData.
    + split; [|done]. simpl. apply lor_uint; [lia|done|by unfold is_uint].
    + by eapply rep_room.
    + served_by Hslot E; [by rewrite Ep| |exact S]. rewrite <- He.
      apply (rep_update m k sv e); [done|]. by eapply list_elem_of_lookup_2.
  - destruct (HasControl s NV_CONTROL_BOOT_WRITE_LOCK) eqn:Eb.
    + apply runs_bind, runs_modify, runs_ret.
      served_by Hslot E; [by rewrite Ep, Eb| |by apply sync_lock; auto]. rewrite <- He in *.
      apply (rep_lock m k sv pos e s lock_write); auto.
    + apply runs_ret. served_by Hslot E; [by rewrite Ep, Eb|done|done].
Qed.

Lemma serve_LockSpaceRead q m k sv :
  represents m k sv -> in_sync m k ->
  returns (LockSpaceRead q) m k (fun result =>
    served (mkRequest (LockSpaceReadReq q)) sv result
      (LockSpaceReadResp mkLockSpaceReadResponse)).
Proof using Hdefs.
  intros R S. serve_slot R. rewrite CheckReadAccess_eq.
  destruct (read_refused _ _) as [err|] eqn:E; simpl.
  { rewrite decide_False by by eapply read_refused_error. apply runs_ret. by served_by Hslot E. }
  rewrite decide_True by done.
  destruct (HasControl s NV_CONTROL_BOOT_READ_LOCK) eqn:Eb.
  - apply runs_bind, runs_modify, runs_ret.
    served_by Hslot E; [by rewrite Eb| |by apply sync_lock; auto]. rewrite <- He in *.
    apply (rep_lock m k sv pos e s lock_read); auto.
  - apply runs_ret. served_by Hslot E; [by rewrite Eb|done|done].
Qed.

Lemma serve_DeleteSpace q m k sv :
  represents m k sv -> in_sync m k ->
  returns (DeleteSpace q) m k (fun result =>
    served (mkRequest (DeleteSpaceReq q)) sv result (DeleteSpaceResp mkDeleteSpaceResponse)).
Proof using Hmem Hdefs.
  intros R S. serve_slot R. rewrite CheckWriteAccess_eq.
  destruct (write_refused _ _) as [err|] eqn:E; simpl.
  { rewrite decide_False by by eapply write_refused_error. apply runs_ret. by served_by Hslot E. }
  rewrite decide_True by done. unfold DeleteSpace_remove. apply runs_bind, runs_modify.
  destruct (mem_ok_remove m pos e (rep_mem _ _ _ R) Hp) as [Hi Hm].
  apply runs_bind, returns_WriteHeader; [done|by simpl; rewrite <- He|].
  rewrite decide_True by done.
  apply runs_bind, runs_DeleteSpace; [done|apply no_crashes|apply no_crashes| |done].
  assert (Hdone : served (mkRequest (DeleteSpaceReq q)) sv NV_RESULT_SUCCESS
    (DeleteSpaceResp mkDeleteSpaceResponse) (set_spaces (swap_remove pos (spaces m)) m)
    (drop_space (dsr_index q) (put_header (current_header
       (set_spaces (swap_remove pos (spaces m)) m) (Some (dsr_index q))) k))).
  { served_by Hslot E; [rewrite <- He|right; by eexists].
    apply (rep_remove m (put_header _ k) sv pos e); [by apply rep_header|done]. }
  intros [] Hst; try done; by apply runs_ret.
Qed.

Lemma serve_DisableCreate m k sv :
  represents m k sv -> in_sync m k ->
  returns DisableCreate m k (fun result =>
    served (mkRequest (DisableCreateReq mkDisableCreateRequest)) sv result
      (DisableCreateResp mkDisableCreateResponse)).
Proof using Hmem.
  intros R S. apply returns_Initialize; [apply (rep_init _ _ _ R)|].
  apply runs_bind, runs_get, runs_bind, runs_modify.
  apply runs_bind, returns_WriteHeader; [apply (rep_mem _ _ _ R)|done|].
  rewrite decide_True by done. apply runs_ret. eapply served_intro; [done| |right; by eexists].
  apply rep_header. destruct R. by split.
Qed.

(** The space [CreateSpace] stores and the answer it gives. *)
Lemma serve_CreateSpace_alloc q mask s m k sv :
  represents m k sv -> in_sync m k -> is_uint 32 (csr_index q) -> csr_index q ∉ indices m ->
  (length (spaces m) < kMaxSpaces)%nat -> 0 <= csr_size q <= kMaxSpaceSize ->
  zlen (csr_authorization_value q) <= kMaxAuthSize -> is_uint 32 mask ->
  s = mkNvramSpace 0 mask
        (if HasControl (mkNvramSpace 0 mask [] []) NV_CONTROL_WRITE_AUTHORIZATION
            || HasControl (mkNvramSpace 0 mask [] []) NV_CONTROL_READ_AUTHORIZATION
         then csr_authorization_value q else [])
        (replicate (Z.to_nat (csr_size q)) 0) ->
  returns (CreateSpace_alloc q mask) m k (fun result m' k' =>
    result = NV_RESULT_SUCCESS
    /\ represents m' k' (put_slot (csr_index q) (mkSlot s false false) sv) /\ in_sync m' k').
Proof using Hmem Hdefs.
  intros R S Hi Hn Hlt Hsz Hauth Hmask ->. unfold CreateSpace_alloc, kMaxSpaceSize, kMaxAuthSize in *.
  apply runs_bind, runs_push; [intros _|intros; lia].
  set (needs := _ || _). set (auth := if needs then _ else []).
  assert (Ea : (if needs then Blob_Assign (csr_authorization_value q) else Ret []) = Ret auth).
  { unfold auth. destruct needs; [|done]. apply Blob_Assign_ok; [done|lia]. }
  rewrite Ea. rewrite Blob_Resize_ok by (done || lia). simpl.
  set (m1 := set_spaces _ m).
  apply runs_bind, returns_WriteHeader; [by apply mem_ok_push; [apply (rep_mem _ _ _ R)|..]|done|].
  rewrite decide_True by done. apply runs_bind, returns_WriteSpaceData.
  - split; [by unfold is_uint|]. split; [done|]. simpl. split.
    + unfold auth, kMaxAuthSize. destruct needs; [done|]. by rewrite zlen_nil.
    + unfold zlen, kMaxSpaceSize. rewrite length_replicate. lia.
  - pose proof (rep_disk_size _ _ _ R). simpl.
    assert (Hle : (size (delete (csr_index q) (disk_spaces k)) <= size (disk_spaces k))%nat)
      by apply map_subseteq_size, delete_subseteq.
    unfold kMaxSpaces, device_spaces in *. lia.
  - rewrite decide_True by done. apply runs_ret. split; [done|].
    split; [|right; by eexists]. apply rep_add; try done. by apply rep_header.
Qed.

(** The verdict of the specification once everything but the controls is
    acceptable. *)
Lemma create_result_mask q sv mask :
  sv_create_disabled sv = false -> bool_decide (is_Some (sv_slots sv !! csr_index q)) = false ->
  (size (sv_slots sv) < kMaxSpaces)%nat -> csr_size q <= kMaxSpaceSize ->
  zlen (csr_authorization_value q) <= kMaxAuthSize ->
  controls_mask (csr_controls q) 0 = Some mask ->
  create_result q sv = if controls_acceptable mask (csr_size q) then
    inr (mkNvramSpace 0 mask
        (if HasControl (mkNvramSpace 0 mask [] []) NV_CONTROL_WRITE_AUTHORIZATION
            || HasControl (mkNvramSpace 0 mask [] []) NV_CONTROL_READ_AUTHORIZATION
         then csr_authorization_value q else [])
        (replicate (Z.to_nat (csr_size q)) 0)) else inl NV_RESULT_INVALID_PARAMETER.
Proof using.
  intros Hdc Hb Hlt Hs Ha Em. unfold create_result. rewrite Hdc, Hb, decide_False by lia.
  destruct (Z.ltb_spec kMaxSpaceSize (csr_size q)); [lia|].
  destruct (Z.ltb_spec kMaxAuthSize (zlen (csr_authorization_value q))); [lia|].
  by rewrite Em.
Qed.

Lemma serve_CreateSpace q m k sv :
  represents m k sv -> in_sync m k -> is_uint 32 (csr_index q) -> 0 <= csr_size q ->
  controls_mask (csr_controls q) 0 <> None ->
  returns (CreateSpace q) m k (fun result =>
    served (mkRequest (CreateSpaceReq q)) sv result (CreateSpaceResp mkCreateSpaceResponse)).
Proof using Hmem Hdefs.
  intros R S Hi Hsz Hctl. apply returns_Initialize; [apply (rep_init _ _ _ R)|].
  apply runs_bind, runs_get. pose proof (rep_mem _ _ _ R) as Hm.
  assert (Hfail : forall e, create_result q sv = inl e ->
    returns (mret e) m k (fun result => served (mkRequest (CreateSpaceReq q)) sv result
                                   (CreateSpaceResp mkCreateSpaceResponse))).
  { intros e E. apply runs_ret. eapply served_intro; [|done|done]. unfold serve. simpl. by rewrite E. }
  rewrite (rep_create _ _ _ R).
  assert (Hdom := rep_dom m k sv (csr_index q) R).
  assert (Hfind := FindSpace_absent (csr_index q) (spaces m) (proj1 Hm)).
  pose proof (rep_size _ _ _ R) as Hsize.
  destruct (sv_create_disabled sv) eqn:Hdc;
    [apply Hfail; unfold create_result; by rewrite Hdc|].
  destruct (decide (FindSpace _ _ <> kMaxSpaces)) as [Hf|Hf].
  { apply Hfail. unfold create_result. rewrite Hdc, bool_decide_eq_true_2; [done|].
    apply Hdom. destruct (decide (csr_index q ∈ indices m)); [done|]. destruct Hf. by apply Hfind. }
  assert (Hn : csr_index q ∉ indices m) by (apply Hfind; by apply dec_stable).
  assert (Hb : bool_decide (is_Some (sv_slots sv !! csr_index q)) = false)
    by (apply bool_decide_eq_false_2; by rewrite Hdom).
  destruct (decide (kMaxSpaces < _)%nat) as [Hl|Hl].
  { apply Hfail. unfold create_result. rewrite Hdc, Hb, decide_True; [done|lia]. }
  assert (Hcr' : create_result q sv =
    if (kMaxSpaceSize <? csr_size q) || (kMaxAuthSize <? zlen (csr_authorization_value q))
    then inl NV_RESULT_INVALID_PARAMETER else create_result q sv).
  { destruct (_ || _) eqn:E; [|done]. unfold create_result. rewrite Hdc, Hb, E, decide_False; [done|lia]. }
  destruct (Z.ltb_spec kMaxSpaceSize (csr_size q)); [by apply Hfail|].
  destruct (Z.ltb_spec kMaxAuthSize (zlen (csr_authorization_value q))); [by apply Hfail|].
  destruct (controls_mask _ _) as [mask|] eqn:Em; [|done].
  pose proof (create_result_mask q sv mask Hdc Hb ltac:(lia) ltac:(lia) ltac:(lia) Em) as Hcr2.
  destruct (controls_acceptable mask (csr_size q)); simpl; [|by apply Hfail].
  eapply runs_mono; [eapply (serve_CreateSpace_alloc q mask _ m k sv); try done; [lia|]|].
  { by eapply controls_mask_ok; [|exact Em]. }
  intros a m' k' (-> & R' & S'). eapply served_intro; [|exact R'|exact S']. unfold serve. simpl. by rewrite Hcr2.
Qed.

Lemma returns_wipe_loop l m k (Q : bool -> NvramManager -> Disk -> Prop) :
  (forall k', disk_header k' = disk_header k ->
     (forall i s, disk_spaces k' !! i = Some s -> disk_spaces k !! i = Some s
                  /\ i ∉ map entry_index l) -> Q true m k') ->
  returns (wipe_loop l) m k Q.
Proof using.
  revert k. induction l as [|e l IH]; intros k HQ; simpl.
  { apply runs_ret, HQ; [done|]. intros i s Hs. split; [done|]. apply not_elem_of_nil. }
  assert (Hnext : returns (wipe_loop l) m (drop_space (entry_index e) k) Q).
  { apply IH. intros k' Hh Hk'. apply HQ; [done|]. intros i s Hs.
    destruct (Hk' i s Hs) as [Hs' Hl]. simpl in Hs'.
    apply lookup_delete_Some in Hs' as [Hne Hs']. split; [done|].
    apply not_elem_of_cons. split; [congruence|done]. }
  apply runs_bind, runs_DeleteSpace; [done|apply no_crashes|apply no_crashes| |done].
  intros [] Hst; try done; exact Hnext.
Qed.

Lemma serve_WipeStorage m k sv :
  represents m k sv -> in_sync m k ->
  returns (WipeStorage wipe_support) m k (fun result =>
    served (mkRequest (WipeStorageReq mkWipeStorageRequest)) sv result
      (WipeStorageResp mkWipeStorageResponse)).
Proof using Hmem.
  intros R S. apply returns_Initialize; [apply (rep_init _ _ _ R)|]. unfold served, serve. simpl.
  destruct wipe_support; simpl; [|apply runs_ret; by do 2 eexists].
  apply runs_bind, runs_get. rewrite (rep_wipe _ _ _ R).
  destruct (sv_wipe_disabled sv) eqn:Hw; [apply runs_ret; by do 2 eexists|].
  apply runs_bind, returns_wipe_loop. intros k' _ Hk'. simpl. apply runs_bind, runs_modify.
  apply returns_WriteHeader; [by split; simpl; [lia|]|done|].
  do 2 eexists. split; [done|]. split; [done|]. split; [|right; by eexists].
  pose proof R as [? ? ? ? Hwd ? ? Hd]. split; try done; simpl.
  - by split; simpl; [lia|].
  - apply NoDup_nil_2.
  - intros e He. by apply not_elem_of_nil in He.
  - intros i [x Hx]. by rewrite lookup_empty in Hx.
  - intros i [s Hs]. destruct (Hk' i s Hs) as [Hs' Hni]. destruct Hni. apply Hd. by exists s.
Qed.

Lemma serve_DisableWipe m k sv :
  represents m k sv -> in_sync m k ->
  returns (DisableWipe wipe_support) m k (fun result =>
    served (mkRequest (DisableWipeReq mkDisableWipeRequest)) sv result
      (DisableWipeResp mkDisableWipeResponse)).
Proof using.
  intros R S. apply returns_Initialize; [apply (rep_init _ _ _ R)|]. unfold served, serve. simpl.
  destruct wipe_support; simpl; [|apply runs_ret; by do 2 eexists].
  apply runs_bind, runs_modify, runs_ret. do 2 eexists. split; [done|]. split; [done|].
  split; [|exact S]. destruct R. by split.
Qed.

(** Requests the decoder delivers, of moderate size. *)
Definition request_fits (r : Request) : Prop :=
  match req_payload r with
  | CreateSpaceReq q =>
      is_uint 32 (csr_index q) /\ 0 <= csr_size q /\ controls_mask (csr_controls q) 0 <> None
  | WriteSpaceReq q => zlen (wsr_buffer q) <= 3000
  | _ => True
  end.

Lemma returns_map {A} (p : M D A) (f : A -> Response) r sv m k :
  returns p m k (fun a => served r sv (resp_result (f a)) (resp_payload (f a))) ->
  returns (a ← p; mret (f a)) m k (fun x => served r sv (resp_result x) (resp_payload x)).
Proof using.
  intros Hp. apply runs_bind. eapply runs_mono; [exact Hp|]. intros a m' k' HQ. by apply runs_ret.
Qed.

Lemma returns_map2 {A} (p : M D (Z * A)) (f : A -> ResponseUnion) r sv m k :
  returns p m k (fun '(result, a) => served r sv result (f a)) ->
  returns ('(result, a) ← p; mret (mkResponse result (f a))) m k
    (fun x => served r sv (resp_result x) (resp_payload x)).
Proof using.
  intros Hp. apply runs_bind. eapply runs_mono; [exact Hp|].
  intros [res a] m' k' HQ. by apply runs_ret.
Qed.

Lemma serve_Dispatch r m k sv :
  represents m k sv -> in_sync m k -> request_fits r ->
  returns (Dispatch wipe_support r) m k
    (fun x => served r sv (resp_result x) (resp_payload x)).
Proof using Hmem Hdefs.
  intros R S Hf. apply runs_disk_ok. intros Hok. unfold Dispatch, request_fits in *.
  destruct r as [p]. destruct p as [[]|q|q|q|[]|q|q|q|q|[]|[]]; cbn [req_payload] in *.
  - by apply (returns_map2 GetInfo GetInfoResp), serve_GetInfo.
  - destruct Hf as (? & ? & ?). by apply (returns_map (CreateSpace q)), serve_CreateSpace.
  - by apply (returns_map2 (GetSpaceInfo q) GetSpaceInfoResp), serve_GetSpaceInfo.
  - by apply (returns_map (DeleteSpace q)), serve_DeleteSpace.
  - by apply (returns_map DisableCreate), serve_DisableCreate.
  - by apply (returns_map (WriteSpace q)), serve_WriteSpace.
  - by apply (returns_map2 (ReadSpace q) ReadSpaceResp), serve_ReadSpace.
  - by apply (returns_map (LockSpaceWrite q)), serve_LockSpaceWrite.
  - by apply (returns_map (LockSpaceRead q)), serve_LockSpaceRead.
  - by apply (returns_map (WipeStorage wipe_support)), serve_WipeStorage.
  - by apply (returns_map (DisableWipe wipe_support)), serve_DisableWipe.
Qed.

(** ** Reboots *)

Lemma kept_all m k sv p ins :
  represents m k sv -> (ins = false -> forall i, p = Some i -> disk_spaces k !! i = None) ->
  kept p ins (indices m) = indices m.
Proof using.
  intros R Hins. unfold kept. apply filter_all. intros i Hi ->.
  destruct ins; [done|]. destruct (rep_index _ _ _ _ R Hi) as (e & s & _ & _ & Hs & _).
  by rewrite (Hins eq_refl i eq_refl) in Hs.
Qed.

(** A fresh manager with the indices of [m] represents the rebooted service. *)
Lemma rep_reboot m k sv k' :
  represents m k sv -> disk_spaces k' = disk_spaces k ->
  represents (mkManager true (disable_create m) false (map fresh_entry (indices m))) k' (reboot sv).
Proof using.
  intros R Hk. set (m' := mkManager _ _ _ _). assert (Hidx : indices m' = indices m).
  { unfold indices at 1. simpl. rewrite map_map. apply map_id. }
  pose proof R as [_ [Hl Hu] Hnd Hc _ He Hsl Hd].
  split; rewrite ?Hidx, ?Hk; try done.
  - split; [|by rewrite Hidx]. simpl. unfold indices. by rewrite !length_map.
  - intros e' Hin. change (map fresh_entry) with (fmap (M := list) fresh_entry) in Hin.
    apply list_elem_of_fmap in Hin as (i & -> & Hi). simpl.
    destruct (rep_index _ _ _ _ R Hi) as (e & s & _ & _ & Hs & Hslot). exists s.
    split; [done|]. by rewrite lookup_fmap, Hslot.
  - intros i [x Hx]. simpl in Hx. rewrite lookup_fmap in Hx. apply Hsl.
    destruct (sv_slots sv !! i); [by eexists|done].
Qed.

(** The device contents after the cleanup of [Initialize]. *)
Lemma cleanup_spaces m k sv p ins :
  represents m k sv -> (ins = false -> forall i, p = Some i -> disk_spaces k !! i = None) ->
  disk_spaces (match p with
               | Some i => if ins && bool_decide (i ∈ indices m) then k else drop_space i k
               | None => k
               end) = disk_spaces k.
Proof using.
  intros R Hins. destruct p as [i|]; [|done].
  destruct (ins && bool_decide (i ∈ indices m)) eqn:E; [done|]. simpl. apply delete_id.
  apply andb_false_iff in E as [->|E%bool_decide_eq_false]; [by apply Hins|].
  apply eq_None_not_Some. intros Hs. by apply E, (rep_data _ _ _ R).
Qed.

Lemma returns_boot m k sv :
  represents m k sv -> in_sync m k ->
  returns Initialize fresh_manager k
    (fun ok m' k' => ok = true /\ represents m' k' (reboot sv) /\ in_sync m' k').
Proof using Hmem.
  intros R S. eapply runs_Initialize; [done|by split; simpl; [lia|]|by apply no_crashes|
    intros Hcr'; by apply no_crashes| |by right; right].
  intros b m' k' Hpost. destruct Hpost as [|l _ Hbad|_ Hh|h ins m' k1 k2 _ Hh _ Hins -> Hlen -> Hk2].
  - done.
  - destruct Hbad as [?|(h & Hh & Hv)]; [done|].
    destruct S as [(Hn & _)|[p Hp]]; [congruence|]. rewrite Hp in Hh. injection Hh as <-. done.
  - destruct S as [(_ & Hs & Hd)|[p Hp]]; [|congruence]. split; [done|].
    split; [|by left]. pose proof (rep_reboot m k sv k R eq_refl) as R'.
    unfold indices in R'. rewrite Hs, Hd in R'. exact R'.
  - destruct S as [(Hn & _)|[p Hp]]; [congruence|]. rewrite Hp in Hh. injection Hh as <-.
    cbn [provisional_index allocated_indices current_header spaces fresh_manager app] in *.
    fold (indices m) in *. pose proof (kept_all m k sv p ins R Hins) as Hk.
    pose proof (cleanup_spaces m k sv p ins R Hins) as Hcl. rewrite Hk in *.
    assert (Hfl : Header_HasFlag (current_header m p) kFlagDisableCreate = disable_create m)
      by (unfold current_header; by destruct (disable_create m)).
    rewrite Hfl in *. split; [done|].
    assert (R' : forall k3, disk_spaces k3 = disk_spaces k -> represents _ k3 (reboot sv))
      by (intros k3; apply (rep_reboot m k sv k3 R)).
    destruct Hk2 as [[-> Hk2]|[-> _]].
    + split; [by apply R'|]. right. exists None. destruct Hk2 as [->|[?|[Hc|Hv]]].
      * rewrite Hp. unfold current_header. simpl. rewrite map_map, map_id. done.
      * done.
      * by apply no_crashes.
      * rewrite Vector_Resize_ok in Hv; [done|done|]. unfold zlen, kMaxSpaces in *. lia.
    + split; [by apply R'|]. right. by eexists.
Qed.

(** ** Histories *)

(** Every handler initializes first, so it may as well run after
    [Initialize]. *)
Lemma Dispatch_initialized r w w' :
  Initialize w = Done true w' -> initialized (manager w') = true ->
  Dispatch wipe_support r w = Dispatch wipe_support r w'.
Proof using.
  intros E Hi. assert (E' : Initialize w' = Done true w').
  { unfold Initialize, mbind, M_bind, get_manager. by rewrite Hi. }
  destruct r as [p]. unfold Dispatch; destruct p; cbn [req_payload];
    unfold GetInfo, CreateSpace, GetSpaceInfo, DeleteSpace, DisableCreate, WriteSpace, ReadSpace,
      LockSpaceWrite, LockSpaceRead, WipeStorage, DisableWipe, mbind, M_bind;
    by rewrite E, E'.
Qed.

(** Requests and reboots without faults. *)
Fixpoint history (evs : list (option Request)) : M D (list Response) :=
  match evs with
  | [] => mret []
  | None :: evs => _ ← modify (fun _ => fresh_manager); history evs
  | Some r :: evs =>
      x ← Dispatch wipe_support r;
      xs ← history evs;
      mret (x :: xs)
  end.

(** The service is up, or will be after the next [Initialize]. *)
Definition ready (m : NvramManager) (k : Disk) (sv : Service) : Prop :=
  represents m k sv /\ in_sync m k
  \/ m = fresh_manager /\ exists m0 sv0, sv = reboot sv0 /\ represents m0 k sv0 /\ in_sync m0 k.

Lemma reboot_reboot sv : reboot (reboot sv) = reboot sv.
Proof using. unfold reboot. simpl. f_equal. by rewrite <- map_fmap_compose. Qed.

Lemma ready_reboot m k sv : ready m k sv -> ready fresh_manager k (reboot sv).
Proof using.
  intros [[R S]|(-> & m0 & sv0 & -> & R & S)]; right; (split; [done|]).
  - by exists m, sv.
  - exists m0, sv0. by rewrite reboot_reboot.
Qed.

Lemma ready_Dispatch r m k sv :
  ready m k sv -> request_fits r ->
  returns (Dispatch wipe_support r) m k (fun x => served r sv (resp_result x) (resp_payload x)).
Proof using Hmem Hdefs.
  intros [[R S]|(-> & m0 & sv0 & -> & R & S)] Hf; [by apply serve_Dispatch|].
  intros d fs Hd Hfs. pose proof (returns_boot m0 k sv0 R S d fs Hd Hfs) as Hb.
  destruct (Initialize _) as [ok [m1 d1 fs1]|d1|] eqn:E; [|by destruct Hb as (? & _ & [])|done].
  destruct Hb as (k1 & Hd1 & Hf1 & -> & R1 & S1). simpl in *.
  rewrite (Dispatch_initialized r _ _ E (rep_init _ _ _ R1)).
  exact (serve_Dispatch r m1 k1 (reboot sv0) R1 S1 Hf d1 fs1 Hd1 Hf1).
Qed.

Definition answers (x : Response) (a : Z * ResponseUnion) : Prop :=
  resp_result x = a.1 /\ same_answer (resp_payload x) a.2.

Lemma returns_history evs m k sv :
  ready m k sv -> Forall (fun ev => forall r, ev = Some r -> request_fits r) evs ->
  returns (history evs) m k
    (fun xs _ _ => Forall2 answers xs (serve_history wipe_support evs sv)).
Proof using Hmem Hdefs.
  revert m k sv. induction evs as [|[r|] evs IH]; intros m k sv Hr Hf; simpl;
    [apply runs_ret, List.Forall2_nil|inversion Hf as [|? ? Hfr Hfs]; subst..].
  - apply runs_bind. eapply runs_mono; [by apply ready_Dispatch; [exact Hr|apply Hfr]|].
    intros x m1 k1 (a & sv1 & -> & Ha & R1 & S1). apply runs_bind.
    eapply runs_mono; [by apply (IH m1 k1 sv1); [left|]|]. intros xs m2 k2 Hxs. apply runs_ret.
    by apply List.Forall2_cons.
  - apply runs_bind, runs_modify, IH; [by eapply ready_reboot|done].
Qed.

Lemma ready_empty : ready fresh_manager empty_disk empty_service.
Proof using.
  right. split; [done|]. exists (set_initialized true fresh_manager), empty_service.
  split; [unfold reboot; simpl; by rewrite fmap_empty|]. split; [|by left].
  split; try done; simpl.
  - by split; simpl; [lia|].
  - apply NoDup_nil_2.
  - intros e He. by apply not_elem_of_nil in He.
  - intros i [x Hx]. by rewrite lookup_empty in Hx.
  - intros i [x Hx]. by rewrite lookup_empty in Hx.
Qed.

(** C9: The service does what its specification says.  Started on an empty
    device that does not fail, and with allocations of up to 4096 bytes that
    succeed, any history of reboots and of requests that fit runs to the end and
    gets exactly the answers of [serve], the order of the listed spaces aside:
    results, contents, locks, authorization and limits.  A request fits if, to
    create a space, its index is a 32-bit number, its size is not negative and
    its controls are bits of the control mask, and, to write one, it has at most
    3000 bytes. *)
Theorem Dispatch_implements_serve evs d :
  disk_abs d empty_disk ->
  Forall (fun ev => forall r, ev = Some r -> request_fits r) evs ->
  exists xs w, history evs (mkWorld fresh_manager d []) = Done xs w
    /\ Forall2 answers xs (serve_history wipe_support evs empty_service).
Proof using Hmem Hdefs.
  intros Hd Hf.
  pose proof (returns_history evs _ _ _ ready_empty Hf d [] Hd (List.Forall_nil _)) as Hr.
  destruct (history _ _) as [xs w|d'|]; [|by destruct Hr as (? & _ & [])|done].
  destruct Hr as (k' & _ & _ & Hxs). eauto.
Qed.

Lemma serve_write_ok sv slot i data auth :
  sv_slots sv !! i = Some slot -> write_refused slot auth = None ->
  zlen data <= zlen (contents (slot_space slot)) ->
  HasControl (slot_space slot) NV_CONTROL_WRITE_EXTEND = false ->
  serve wipe_support (mkRequest (WriteSpaceReq (mkWriteSpaceRequest i data auth))) sv
  = (NV_RESULT_SUCCESS, WriteSpaceResp mkWriteSpaceResponse,
     put_slot i (mkSlot (set_contents (slot_space slot)
       (data ++ replicate (length (contents (slot_space slot)) - length data) 0))
       (slot_write_locked slot) (slot_read_locked slot)) sv).
Proof using.
  intros Hs Hw Hl He. unfold serve, on_slot, written. simpl. rewrite Hs, Hw, He.
  by destruct (Z.leb_spec (zlen data) (zlen (contents (slot_space slot)))); [|lia].
Qed.

Lemma serve_read_ok sv slot i auth :
  sv_slots sv !! i = Some slot -> read_refused slot auth = None ->
  serve wipe_support (mkRequest (ReadSpaceReq (mkReadSpaceRequest i auth))) sv
  = (NV_RESULT_SUCCESS, ReadSpaceResp (mkReadSpaceResponse (contents (slot_space slot))), sv).
Proof using. intros Hs Hr. unfold serve, on_slot. simpl. by rewrite Hs, Hr. Qed.

(** C28: What is written is read back, across reboots.  From any state of the
    service, a write that succeeds to a space without the extend control is
    answered, in a later boot and if the read is authorized, by the data with
    zeros up to the size of the space. *)
Theorem write_reboot_read m d k sv slot i data wauth rauth :
  disk_abs d k -> ready m k sv -> sv_slots sv !! i = Some slot ->
  write_refused slot wauth = None -> zlen data <= zlen (contents (slot_space slot)) <= 1024 ->
  HasControl (slot_space slot) NV_CONTROL_WRITE_EXTEND = false ->
  HasControl (slot_space slot) NV_CONTROL_READ_AUTHORIZATION
    && negb (bool_decide (rauth = authorization_value (slot_space slot))) = false ->
  exists w, history [Some (mkRequest (WriteSpaceReq (mkWriteSpaceRequest i data wauth))); None;
                     Some (mkRequest (ReadSpaceReq (mkReadSpaceRequest i rauth)))]
      (mkWorld m d [])
    = Done [mkResponse NV_RESULT_SUCCESS (WriteSpaceResp mkWriteSpaceResponse);
            mkResponse NV_RESULT_SUCCESS (ReadSpaceResp (mkReadSpaceResponse
              (data ++ replicate (length (contents (slot_space slot)) - length data) 0)))] w.
Proof using Hmem Hdefs.
  intros Hd Hr Hs Hw Hl He Ha. set (evs := [_; _; _]).
  assert (Hf : Forall (fun ev => forall r, ev = Some r -> request_fits r) evs).
  { unfold evs. repeat apply List.Forall_cons; [intros r [= <-]; unfold request_fits; simpl; lia|..];
      try done. by intros r [= <-]. }
  pose proof (returns_history evs m k sv Hr Hf d [] Hd (List.Forall_nil _)) as Hx.
  destruct (history _ _) as [xs w|d'|]; [|by destruct Hx as (? & _ & [])|done].
  destruct Hx as (k' & _ & _ & Hxs). exists w. f_equal. revert Hxs.
  set (s' := set_contents (slot_space slot)
               (data ++ replicate (length (contents (slot_space slot)) - length data) 0)).
  unfold evs. cbn [serve_history].
  rewrite (serve_write_ok sv slot i data wauth) by (done || lia).
  rewrite (serve_read_ok _ (mkSlot s' false false) i rauth).
  - intros Hxs. inversion Hxs as [|x1 ? ? ? [Hr1 Hp1] Hxs']; subst.
    inversion Hxs' as [|x2 ? ? ? [Hr2 Hp2] Hnil]; subst. inversion Hnil; subst.
    destruct x1 as [r1 p1], x2 as [r2 p2]. simpl in *. subst.
    destruct p1; try done. destruct p2; try done. simpl in *. congruence.
  - unfold reboot, put_slot. simpl. by rewrite lookup_fmap, lookup_insert_eq.
  - unfold read_refused, HasControl in *. cbn in *. by rewrite andb_false_r, Ha.
Qed.

End Refinement.

(** The service on the in-memory device, with a history that creates a space,
    writes it, locks it, reboots and reads. *)
Module Run.

Definition alloc : Allocator := bounded_allocator 4096.
Definition create : Request :=
  mkRequest (CreateSpaceReq (mkCreateSpaceRequest 7 4 [NV_CONTROL_BOOT_WRITE_LOCK (NvramDefs := sample_defs)] [])).
Definition write (data : blob) : Request :=
  mkRequest (WriteSpaceReq (mkWriteSpaceRequest 7 data [])).
Definition lock : Request := mkRequest (LockSpaceWriteReq (mkLockSpaceWriteRequest 7 [])).
Definition read : Request := mkRequest (ReadSpaceReq (mkReadSpaceRequest 7 [])).
Definition evs : list (option Request) :=
  [Some create; Some (write [1; 2]); Some lock; Some (write [9]); None; Some read].

End Run.

Lemma Dispatch_implements_serve_witness :
  let A := Run.alloc in
  exists xs w, @history sample_defs A zero_crypto _ (@persistence_of_storage A _ _) true Run.evs
      (mkWorld fresh_manager Mem.init []) = Done xs w
    /\ Forall2 answers xs (@serve_history sample_defs zero_crypto true Run.evs empty_service).
Proof.
  intros A. pose proof (bounded_allocator_upto 4096 4096 ltac:(lia)) as Ha.
  eapply (@Dispatch_implements_serve sample_defs sample_defs_ok A Ha zero_crypto _ _
            (@storage_persistence_ok A Ha _ _ _ (memory_storage_ok object_limit Ha) ltac:(done))).
  - by apply memory_init_abs.
  - repeat apply List.Forall_cons; try apply List.Forall_nil; by intros r [= <-].
Defined.

Lemma write_reboot_read_witness :
  let s := mkNvramSpace 0 4 [] [5; 6; 7] in
  let m := mkManager true false false [mkEntry 7 false false] in
  let k := mkDisk (Some (mkNvramHeader 1 0 [7] None)) {[7 := s]} in
  exists w, @history sample_defs Run.alloc zero_crypto Disk ideal_persistence true
      [Some (Run.write [1; 2]); None; Some Run.read] (mkWorld m k [])
    = Done [mkResponse (NV_RESULT_SUCCESS (NvramDefs := sample_defs)) (WriteSpaceResp mkWriteSpaceResponse);
            mkResponse (NV_RESULT_SUCCESS (NvramDefs := sample_defs))
              (ReadSpaceResp (mkReadSpaceResponse [1; 2; 0]))] w.
Proof.
  intros s m k.
  refine (@write_reboot_read sample_defs sample_defs_ok Run.alloc
            (bounded_allocator_upto 4096 4096 ltac:(done)) zero_crypto Disk ideal_persistence
            ideal_persistence_ok true m k k
            (mkService {[7 := mkSlot s false false]} false false) (mkSlot s false false)
            7 [1; 2] [] [] _ _ _ _ _ _ _); try done.
  - split; [done|]. apply (bool_decide_unpack _). vm_compute. exact I.
  - left. split; [|right; by exists None]. split; try done; simpl.
    + split; simpl; [unfold kMaxSpaces; lia|]. apply List.Forall_cons; [by unfold is_uint|done].
    + apply NoDup_singleton.
    + intros e ->%list_elem_of_singleton. exists s. by rewrite !lookup_singleton_eq.
    + intros i [x [<- _]%lookup_singleton_Some]. apply list_elem_of_here.
    + intros i [x [<- _]%lookup_singleton_Some]. apply list_elem_of_here.
Defined.

(** ** Comparison of authorization values *)

(** The comparison that examines every byte of the stored value decides
    equality: it accepts exactly the stored authorization value. *)
Theorem ConstantTimeEquals_correct a b : ConstantTimeEquals a b = true <-> a = b.
Proof.
  rewrite ConstantTimeEquals_eq, bool_decide_eq_true. split; congruence.
Qed.
