(* ===== verification/Bytes.v ===== *)
(** * Bytes: integers in memory

    The little-endian layout of an unsigned integer, which the packed structs
    of the gatekeeper and the byte-order conversions of the keystore depend
    on.  All targets of the repository are little-endian. *)
From S2P Require Import Prelude.

(** The [n] bytes of an integer in memory, and the integer they stand for. *)
Fixpoint le_bytes (n : nat) (z : Z) : list Z :=
  match n with
  | O => []
  | S n => z mod 256 :: le_bytes n (z / 256)
  end.

Fixpoint le_val (l : list Z) : Z :=
  match l with
  | [] => 0
  | b :: l => b + 256 * le_val l
  end.

Definition is_byte (b : Z) : Prop := 0 <= b < 256.

Lemma length_le_bytes n z : length (le_bytes n z) = n.
Proof. revert z. induction n as [|n IH]; intros z; simpl; [done|]. by rewrite IH. Qed.

Lemma zlen_le_bytes n z : zlen (le_bytes n z) = Z.of_nat n.
Proof. unfold zlen. by rewrite length_le_bytes. Qed.

Lemma le_bytes_ok n z : Forall is_byte (le_bytes n z).
Proof.
  revert z. induction n as [|n IH]; intros z; simpl; [done|]. apply List.Forall_cons; [|apply IH].
  apply Z.mod_pos_bound. lia.
Qed.

Lemma le_val_bytes n z : 0 <= z < 256 ^ Z.of_nat n -> le_val (le_bytes n z) = z.
Proof.
  revert z. induction n as [|n IH]; intros z Hz; simpl; [simpl in Hz; lia|].
  rewrite Nat2Z.inj_succ, Z.pow_succ_r in Hz by lia. rewrite IH.
  - pose proof (Z.div_mod z 256 ltac:(lia)). lia.
  - split; [apply Z.div_pos; lia|]. apply Z.div_lt_upper_bound; lia.
Qed.

Lemma le_val_range l : Forall is_byte l -> 0 <= le_val l < 256 ^ zlen l.
Proof.
  induction 1 as [|b l Hb _ IH]; [unfold zlen; simpl; lia|]. rewrite zlen_cons.
  unfold is_byte in Hb. simpl. rewrite Z.pow_add_r by (pose proof (zlen_nonneg l); lia). lia.
Qed.

Lemma le_bytes_val l : Forall is_byte l -> le_bytes (length l) (le_val l) = l.
Proof.
  induction 1 as [|b l Hb _ IH]; [done|]. simpl. unfold is_byte in Hb.
  assert (E : b + 256 * le_val l = le_val l * 256 + b) by lia.
  rewrite E, Z.div_add_l, (Z.div_small b), Z.add_0_r by lia.
  rewrite Z.add_comm, Z_mod_plus_full, Z.mod_small by lia. by rewrite IH.
Qed.

(** [hton] of keystore/auth_token_table.cpp and [htonl], [htobe64] of libc on
    a little-endian machine: the bytes in reverse order. *)
Definition hton (n : nat) (z : Z) : Z := le_val (rev (le_bytes n z)).

Lemma rev_bytes_ok n z : Forall is_byte (rev (le_bytes n z)).
Proof. apply Forall_rev, le_bytes_ok. Qed.

Lemma le_bytes_hton n z : le_bytes n (hton n z) = rev (le_bytes n z).
Proof.
  unfold hton. pose proof (le_bytes_val (rev (le_bytes n z)) (rev_bytes_ok n z)) as E.
  by rewrite length_rev, length_le_bytes in E.
Qed.

Lemma hton_range n z : 0 <= hton n z < 256 ^ Z.of_nat n.
Proof.
  unfold hton. pose proof (le_val_range _ (rev_bytes_ok n z)) as Hr. revert Hr.
  unfold zlen. by rewrite length_rev, length_le_bytes.
Qed.

(** Converting twice gives the value back. *)
Lemma hton_hton n z : 0 <= z < 256 ^ Z.of_nat n -> hton n (hton n z) = z.
Proof.
  intros Hz. unfold hton at 1. rewrite le_bytes_hton, rev_involutive. by apply le_val_bytes.
Qed.

Lemma hton_inj n x y :
  0 <= x < 256 ^ Z.of_nat n -> 0 <= y < 256 ^ Z.of_nat n -> hton n x = hton n y -> x = y.
Proof. intros Hx Hy E. by rewrite <- (hton_hton n x Hx), E, hton_hton. Qed.

(** Reading [n] bytes at a pointer: [None] if they are not all there. *)
Definition fetch (n : Z) (l : list Z) : option (list Z * list Z) :=
  if n <=? zlen l then Some (take (Z.to_nat n) l, drop (Z.to_nat n) l) else None.

Lemma fetch_app a l : fetch (zlen a) (a ++ l) = Some (a, l).
Proof.
  unfold fetch. rewrite zlen_app. destruct (Z.leb_spec (zlen a) (zlen a + zlen l)) as [|Hc].
  - unfold zlen. by rewrite Nat2Z.id, take_app_length, drop_app_length.
  - pose proof (zlen_nonneg l). lia.
Qed.

Lemma fetch_le n z l : fetch (Z.of_nat n) (le_bytes n z ++ l) = Some (le_bytes n z, l).
Proof. rewrite <- (zlen_le_bytes n z) at 1. apply fetch_app. Qed.

#[export] Hint Rewrite zlen_le_bytes : zlen.

Lemma fetch_all a : fetch (zlen a) a = Some (a, []).
Proof. pose proof (fetch_app a []) as E. by rewrite app_nil_r in E. Qed.

Arguments le_bytes : simpl never.
Arguments fetch : simpl never.
