(* ===== verification/GatekeeperMessages.v ===== *)
(** * GatekeeperMessages: the messages of the gatekeeper

    The four messages of gatekeeper/gatekeeper_messages.{h,cpp} and their flat
    serialization.  A message object is the common part of [GateKeeperMessage]
    and the data of the subclass; the virtual functions of the subclass are
    the type class [GateKeeperMessage].  Accesses outside of a buffer are
    undefined behaviour in C++ and the value [None] here.  *)
From S2P Require Import Prelude Bytes.

(** ** Data *)

(** [gatekeeper_error_t]; a deserialized error may be any 32-bit value. *)
Definition ERROR_NONE : Z := 0.
Definition ERROR_INVALID : Z := 1.
Definition ERROR_RETRY : Z := 2.
Definition ERROR_UNKNOWN : Z := 3.

(** [SizedBuffer]: a pointer, possibly null, and a length. *)
Record SizedBuffer := mkSizedBuffer {
  sb_buffer : option (list Z);
  sb_length : Z;
}.

Definition SizedBuffer_null : SizedBuffer := mkSizedBuffer None 0.

(** A buffer that holds the given bytes. *)
Definition SizedBuffer_of (l : list Z) : SizedBuffer := mkSizedBuffer (Some l) (zlen l).

(** [buffer.reset()] *)
Definition reset (b : SizedBuffer) : SizedBuffer := mkSizedBuffer None (sb_length b).

(** What the destructive tests [if (b.buffer.get()) b.buffer.reset()] do. *)
Definition release_if_set (b : SizedBuffer) : SizedBuffer :=
  match sb_buffer b with Some _ => reset b | None => b end.

Record VerifyRequest := mkVerifyRequest {
  vrq_challenge : Z;
  vrq_password_handle : SizedBuffer;
  vrq_provided_password : SizedBuffer;
}.

(** The [bool] is kept as the byte it is in memory. *)
Record VerifyResponse := mkVerifyResponse {
  vrs_auth_token : SizedBuffer;
  vrs_request_reenroll : Z;
}.

Record EnrollRequest := mkEnrollRequest {
  erq_password_handle : SizedBuffer;
  erq_enrolled_password : SizedBuffer;
  erq_provided_password : SizedBuffer;
}.

Record EnrollResponse := mkEnrollResponse {
  ers_enrolled_password_handle : SizedBuffer;
}.

(** The default constructors; the [uint64_t] of a fresh [VerifyRequest] is
    not initialized. *)
Definition VerifyRequest_new (challenge : Z) : VerifyRequest :=
  mkVerifyRequest challenge SizedBuffer_null SizedBuffer_null.
Definition VerifyResponse_new : VerifyResponse := mkVerifyResponse SizedBuffer_null 0.
Definition EnrollRequest_new : EnrollRequest :=
  mkEnrollRequest SizedBuffer_null SizedBuffer_null SizedBuffer_null.
Definition EnrollResponse_new : EnrollResponse := mkEnrollResponse SizedBuffer_null.

Definition SetVerificationToken (auth_token : SizedBuffer) (r : VerifyResponse) : VerifyResponse :=
  mkVerifyResponse auth_token (vrs_request_reenroll r).

Definition SetEnrolledPasswordHandle (handle : SizedBuffer) (r : EnrollResponse)
    : EnrollResponse := mkEnrollResponse handle.

(** ** Buffers *)

Definition serialized_buffer_size (b : SizedBuffer) : Z := u32 (4 + sb_length b).

(** The bytes that [append_to_buffer] writes: [None] if it reads outside the
    buffer. *)
Definition append_to_buffer (b : SizedBuffer) : option (list Z) :=
  if sb_length b =? 0 then Some (le_bytes 4 (sb_length b))
  else
    bytes ← sb_buffer b;
    '(data, _) ← fetch (sb_length b) bytes;
    Some (le_bytes 4 (sb_length b) ++ data).

(** [read_from_buffer] on the bytes from [*buffer] to [end]: the error, the
    bytes from the new [*buffer] on, and the target. *)
Definition read_from_buffer (l : list Z) (target : SizedBuffer) : Z * list Z * SizedBuffer :=
  match fetch 4 l with
  | None => (ERROR_INVALID, l, target)
  | Some (len, l) =>
      let target := mkSizedBuffer (sb_buffer target) (le_val len) in
      if sb_length target =? 0 then (ERROR_NONE, l, target)
      else
        match fetch (sb_length target) l with
        | None => (ERROR_INVALID, l, target)
        | Some (data, l) => (ERROR_NONE, l, mkSizedBuffer (Some data) (sb_length target))
        end
  end.

(** ** Messages *)

(** The virtual functions of a message type. *)
Class GateKeeperMessage (S : Type) := {
  nonErrorSerializedSize : S -> Z;
  nonErrorSerialize : S -> option (list Z);
  nonErrorDeserialize : list Z -> S -> option (Z * S);
}.

#[export] Instance VerifyRequest_message : GateKeeperMessage VerifyRequest := {|
  nonErrorSerializedSize m :=
    u32 (8 + serialized_buffer_size (vrq_password_handle m)
         + serialized_buffer_size (vrq_provided_password m));
  nonErrorSerialize m :=
    handle ← append_to_buffer (vrq_password_handle m);
    password ← append_to_buffer (vrq_provided_password m);
    Some (le_bytes 8 (vrq_challenge m) ++ handle ++ password);
  nonErrorDeserialize payload m :=
    let handle := release_if_set (vrq_password_handle m) in
    let password := release_if_set (vrq_provided_password m) in
    '(challenge, payload) ← fetch 8 payload;
    let '(error, payload, handle) := read_from_buffer payload handle in
    if negb (error =? ERROR_NONE)
    then Some (error, mkVerifyRequest (le_val challenge) handle password)
    else
      let '(error, _, password) := read_from_buffer payload password in
      Some (error, mkVerifyRequest (le_val challenge) handle password);
|}.

#[export] Instance VerifyResponse_message : GateKeeperMessage VerifyResponse := {|
  nonErrorSerializedSize m := u32 (serialized_buffer_size (vrs_auth_token m) + 1);
  nonErrorSerialize m :=
    token ← append_to_buffer (vrs_auth_token m);
    Some (token ++ [vrs_request_reenroll m]);
  nonErrorDeserialize payload m :=
    let token := release_if_set (vrs_auth_token m) in
    let '(err, payload, token) := read_from_buffer payload token in
    if negb (err =? ERROR_NONE)
    then Some (err, mkVerifyResponse token (vrs_request_reenroll m))
    else
      '(reenroll, _) ← fetch 1 payload;
      Some (ERROR_NONE, mkVerifyResponse token (le_val reenroll));
|}.

#[export] Instance EnrollRequest_message : GateKeeperMessage EnrollRequest := {|
  nonErrorSerializedSize m :=
    u32 (serialized_buffer_size (erq_provided_password m)
         + serialized_buffer_size (erq_enrolled_password m)
         + serialized_buffer_size (erq_password_handle m));
  nonErrorSerialize m :=
    provided ← append_to_buffer (erq_provided_password m);
    enrolled ← append_to_buffer (erq_enrolled_password m);
    handle ← append_to_buffer (erq_password_handle m);
    Some (provided ++ enrolled ++ handle);
  nonErrorDeserialize payload m :=
    let provided := release_if_set (erq_provided_password m) in
    let enrolled := release_if_set (erq_enrolled_password m) in
    let handle := release_if_set (erq_password_handle m) in
    let '(ret, payload, provided) := read_from_buffer payload provided in
    if negb (ret =? ERROR_NONE) then Some (ret, mkEnrollRequest handle enrolled provided)
    else
      let '(ret, payload, enrolled) := read_from_buffer payload enrolled in
      if negb (ret =? ERROR_NONE) then Some (ret, mkEnrollRequest handle enrolled provided)
      else
        let '(ret, _, handle) := read_from_buffer payload handle in
        Some (ret, mkEnrollRequest handle enrolled provided);
|}.

#[export] Instance EnrollResponse_message : GateKeeperMessage EnrollResponse := {|
  nonErrorSerializedSize m := serialized_buffer_size (ers_enrolled_password_handle m);
  nonErrorSerialize m := append_to_buffer (ers_enrolled_password_handle m);
  nonErrorDeserialize payload m :=
    let handle := release_if_set (ers_enrolled_password_handle m) in
    let '(err, _, handle) := read_from_buffer payload handle in
    Some (err, mkEnrollResponse handle);
|}.

(** A message object. *)
Record Message (S : Type) := mkMessage {
  error : Z;
  user_id : Z;
  retry_timeout : Z;
  body : S;
}.
Arguments mkMessage {S} _ _ _ _.
Arguments error {S} _.
Arguments user_id {S} _.
Arguments retry_timeout {S} _.
Arguments body {S} _.

Section Messages.
Context {S : Type} `{GateKeeperMessage S}.

Definition SetRetryTimeout (timeout : Z) (m : Message S) : Message S :=
  mkMessage ERROR_RETRY (user_id m) timeout (body m).

Definition SetError (e : Z) (m : Message S) : Message S :=
  mkMessage e (user_id m) (retry_timeout m) (body m).

Definition GetSerializedSize (m : Message S) : Z :=
  if error m =? ERROR_NONE then u32 (8 + nonErrorSerializedSize (body m))
  else if error m =? ERROR_RETRY then u32 (8 + 4) else 8.

(** The serialized header. *)
Definition serial_header (m : Message S) : list Z :=
  le_bytes 4 (error m) ++ le_bytes 4 (user_id m).

(** [Serialize] into a buffer of [capacity] bytes: the number of bytes it
    reports and the bytes it writes. *)
Definition Serialize (capacity : Z) (m : Message S) : option (Z * list Z) :=
  if capacity <? GetSerializedSize m then Some (0, [])
  else if negb (error m =? ERROR_NONE) then
    if capacity <? 8 then Some (0, [])
    else if error m =? ERROR_RETRY then
      if capacity <? 12 then None
      else Some (12, serial_header m ++ le_bytes 4 (retry_timeout m))
    else Some (8, serial_header m)
  else
    if capacity <? 8 + nonErrorSerializedSize (body m) then Some (0, [])
    else
      data ← nonErrorSerialize (body m);
      if capacity <? 8 + zlen data then None
      else Some (u32 (8 + nonErrorSerializedSize (body m)), serial_header m ++ data).

(** [Deserialize] from the bytes between [payload] and [end] into an existing
    object: the returned error and the object. *)
Definition Deserialize (payload : list Z) (m : Message S) : option (Z * Message S) :=
  if zlen payload <? 4 then Some (ERROR_INVALID, m)
  else
    '(err, rest) ← fetch 4 payload;
    '(uid, rest) ← fetch 4 rest;
    if le_val err =? ERROR_NONE then
      '(e, b) ← nonErrorDeserialize rest (body m);
      Some (e, mkMessage e (le_val uid) (retry_timeout m) b)
    else
      if le_val err =? ERROR_RETRY then
        if 8 <? zlen payload then
          '(timeout, _) ← fetch 4 rest;
          Some (le_val err, mkMessage (le_val err) (le_val uid) (le_val timeout) (body m))
        else Some (le_val err, mkMessage (le_val err) (le_val uid) 0 (body m))
      else Some (le_val err, mkMessage (le_val err) (le_val uid) (retry_timeout m) (body m)).

End Messages.

(** ** Contracts *)

(** The pointer of a buffer refers to as many bytes as its length says. *)
Definition buffer_ok (b : SizedBuffer) : Prop :=
  is_uint 32 (sb_length b) /\
  (sb_length b = 0 \/ exists l, sb_buffer b = Some l /\ zlen l = sb_length b).

(** An empty buffer arrives as a null pointer. *)
Definition received_buffer (b : SizedBuffer) : SizedBuffer :=
  if sb_length b =? 0 then SizedBuffer_null else b.

(** What the serialization of a message type promises: the announced number
    of bytes is written, and the receiver reads the message back, whatever it
    held before and whatever follows. *)
Class GateKeeperMessageOk (S : Type) `{GateKeeperMessage S} := {
  body_ok : S -> Prop;
  received : S -> S;
  serialize_ok s : body_ok s -> exists data,
    nonErrorSerialize s = Some data /\ zlen data = nonErrorSerializedSize s
    /\ zlen data + 8 < 2 ^ 32
    /\ forall extra s0, nonErrorDeserialize (data ++ extra) s0 = Some (ERROR_NONE, received s);
}.

(** ** Round trips *)

Lemma release_reset b : sb_buffer (release_if_set b) = None.
Proof. unfold release_if_set. by destruct (sb_buffer b) eqn:E. Qed.

Lemma append_read b : buffer_ok b -> sb_length b + 4 < 2 ^ 32 -> exists data,
  append_to_buffer b = Some data /\ zlen data = serialized_buffer_size b
  /\ serialized_buffer_size b = 4 + sb_length b
  /\ forall extra b0,
       read_from_buffer (data ++ extra) (release_if_set b0) = (ERROR_NONE, extra, received_buffer b).
Proof.
  intros [Hu Hb] Hlt. unfold append_to_buffer, serialized_buffer_size, received_buffer.
  assert (Hsz : u32 (4 + sb_length b) = 4 + sb_length b)
    by (apply uint_small; unfold is_uint in *; lia).
  assert (Hv : le_val (le_bytes 4 (sb_length b)) = sb_length b) by (apply le_val_bytes; exact Hu).
  destruct (Z.eqb_spec (sb_length b) 0) as [E0|E0].
  - eexists. split; [done|]. rewrite zlen_le_bytes, Hsz. split; [lia|]. split; [done|].
    intros extra b0. unfold read_from_buffer. rewrite (fetch_le 4). cbn [sb_length].
    rewrite Hv, release_reset, E0. done.
  - destruct Hb as [?|(l & Hl & Hlen)]; [done|]. rewrite Hl. simpl.
    rewrite <- Hlen, fetch_all. simpl. exists (le_bytes 4 (sb_length b) ++ l). rewrite Hlen. split; [done|].
    split; [rewrite zlen_app, zlen_le_bytes; lia|]. split; [done|].
    intros extra b0. unfold read_from_buffer. rewrite <- app_assoc, (fetch_le 4). cbn [sb_length].
    rewrite Hv. destruct (Z.eqb_spec (sb_length b) 0); [done|].
    rewrite <- Hlen, fetch_app, Hlen. destruct b as [? ?]. simpl in *. by subst.
Qed.

#[local] Opaque le_bytes.

(** One buffer of a message: its bytes, their number and how they are read. *)
Ltac append_step b H :=
  let d := fresh "data" in let E := fresh "E" in let L := fresh "L" in let Z := fresh "Z" in
  let R := fresh "R" in
  destruct (append_read b H) as (d & E & L & Z & R);
  [unfold buffer_ok, is_uint in *; lia|].

#[export] Program Instance EnrollResponse_ok : GateKeeperMessageOk EnrollResponse := {|
  body_ok m := buffer_ok (ers_enrolled_password_handle m)
               /\ sb_length (ers_enrolled_password_handle m) + 12 < 2 ^ 32;
  received m := mkEnrollResponse (received_buffer (ers_enrolled_password_handle m));
|}.
Next Obligation.
  intros [h] [Hb Hl]; simpl in *. append_step h Hb. exists data. split; [done|]. split; [done|].
  split; [lia|]. intros extra [h0]. simpl. by rewrite R.
Qed.

#[export] Program Instance VerifyResponse_ok : GateKeeperMessageOk VerifyResponse := {|
  body_ok m := buffer_ok (vrs_auth_token m) /\ sb_length (vrs_auth_token m) + 13 < 2 ^ 32
               /\ is_byte (vrs_request_reenroll m);
  received m := mkVerifyResponse (received_buffer (vrs_auth_token m)) (vrs_request_reenroll m);
|}.
Next Obligation.
  intros [t r] (Hb & Hl & Hr); simpl in *. append_step t Hb. exists (data ++ [r]).
  rewrite E. split; [done|]. unfold buffer_ok, is_uint in *.
  rewrite zlen_app, L, Z, uint_small by (unfold is_uint; lia). split; [done|].
  split; [unfold zlen; simpl; lia|]. intros extra [t0 r0]. simpl.
  rewrite <- app_assoc, R. simpl. pose proof (fetch_app [r] extra) as F. simpl in F.
  change (zlen [r]) with 1 in F. rewrite F. simpl. do 3 f_equal. lia.
Qed.

#[export] Program Instance VerifyRequest_ok : GateKeeperMessageOk VerifyRequest := {|
  body_ok m := is_uint 64 (vrq_challenge m) /\ buffer_ok (vrq_password_handle m)
               /\ buffer_ok (vrq_provided_password m)
               /\ sb_length (vrq_password_handle m) + sb_length (vrq_provided_password m) + 24
                  < 2 ^ 32;
  received m := mkVerifyRequest (vrq_challenge m) (received_buffer (vrq_password_handle m))
                  (received_buffer (vrq_provided_password m));
|}.
Next Obligation.
  intros [c h p] (Hc & Hh & Hp & Hl); simpl in *. append_step h Hh. append_step p Hp.
  exists (le_bytes 8 c ++ data ++ data0). rewrite E, E0. split; [done|].
  unfold buffer_ok, is_uint in *. rewrite !zlen_app, zlen_le_bytes, L, L0, Z, Z0.
  rewrite uint_small by (unfold is_uint; lia). split; [lia|]. split; [lia|].
  intros extra [c0 h0 p0]. simpl. rewrite <- !app_assoc, (fetch_le 8). simpl.
  rewrite R. simpl. rewrite R0. simpl. by rewrite (le_val_bytes 8).
Qed.

#[export] Program Instance EnrollRequest_ok : GateKeeperMessageOk EnrollRequest := {|
  body_ok m := buffer_ok (erq_password_handle m) /\ buffer_ok (erq_enrolled_password m)
               /\ buffer_ok (erq_provided_password m)
               /\ sb_length (erq_password_handle m) + sb_length (erq_enrolled_password m)
                  + sb_length (erq_provided_password m) + 20 < 2 ^ 32;
  received m := mkEnrollRequest (received_buffer (erq_password_handle m))
                  (received_buffer (erq_enrolled_password m))
                  (received_buffer (erq_provided_password m));
|}.
Next Obligation.
  intros [h e p] (Hh & He & Hp & Hl); simpl in *.
  append_step p Hp. append_step e He. append_step h Hh.
  exists (data ++ data0 ++ data1). rewrite E, E0, E1. split; [done|].
  unfold buffer_ok, is_uint in *. rewrite !zlen_app, L, L0, L1, Z, Z0, Z1.
  rewrite uint_small by (unfold is_uint; lia). split; [lia|]. split; [lia|].
  intros extra [h0 e0 p0]. simpl. rewrite <- !app_assoc, R. simpl. rewrite R0. simpl.
  by rewrite R1.
Qed.

(** The object at the receiver. *)
Definition received_message {S} `{GateKeeperMessageOk S} (m m0 : Message S) : Message S :=
  if error m =? ERROR_NONE
  then mkMessage (error m) (user_id m) (retry_timeout m0) (received (body m))
  else mkMessage (error m) (user_id m)
         (if error m =? ERROR_RETRY then retry_timeout m else retry_timeout m0) (body m0).

Definition message_ok {S} `{GateKeeperMessageOk S} (m : Message S) : Prop :=
  is_uint 32 (error m) /\ is_uint 32 (user_id m) /\ is_uint 32 (retry_timeout m)
  /\ body_ok (body m).

Lemma uint_32_val z l : is_uint 32 z -> fetch 4 (le_bytes 4 z ++ l) = Some (le_bytes 4 z, l)
                                        /\ le_val (le_bytes 4 z) = z.
Proof. intros Hz. split; [apply (fetch_le 4)|by apply le_val_bytes]. Qed.

(** ** Properties *)

(** C30: A message that is serialized into a buffer of the announced size
    fills it exactly and is read back by the receiver: header, error, retry
    timeout and body, with empty buffers as null pointers; for a message that
    carries an error the receiver's body is left alone. *)
Theorem Serialize_Deserialize {S} `{HS : GateKeeperMessageOk S} (m m0 : Message S) :
  message_ok m -> exists bytes,
    Serialize (GetSerializedSize m) m = Some (GetSerializedSize m, bytes)
    /\ zlen bytes = GetSerializedSize m
    /\ Deserialize bytes m0 = Some (error m, received_message m m0).
Proof.
  intros (He & Hu & Hr & Hb). destruct (serialize_ok _ Hb) as (data & Hd & Hlen & Hmax & Hback).
  unfold Serialize, GetSerializedSize, Deserialize, received_message, serial_header.
  destruct (uint_32_val _ (le_bytes 4 (user_id m) ++ data) He) as [F1 V1].
  destruct (uint_32_val _ data Hu) as [F2 V2]. pose proof (zlen_nonneg data).
  destruct (Z.eqb_spec (error m) ERROR_NONE) as [E|E]; simpl.
  - rewrite <- Hlen, uint_small by (unfold is_uint; lia). rewrite Z.ltb_irrefl, Hd. simpl.
    rewrite Z.ltb_irrefl. eexists. split; [done|].
    assert (Hz : zlen ((le_bytes 4 (error m) ++ le_bytes 4 (user_id m)) ++ data) = 8 + zlen data)
      by (zlen; lia).
    rewrite Hz. split; [done|]. destruct (Z.ltb_spec (8 + zlen data) 4); [lia|].
    rewrite <- app_assoc, F1. simpl. rewrite F2. simpl. rewrite V1, V2, E. simpl.
    by rewrite <- (app_nil_r data), Hback.
  - set (tail := if error m =? ERROR_RETRY then le_bytes 4 (retry_timeout m) else []).
    assert (Hz : zlen (serial_header m ++ tail) = if error m =? ERROR_RETRY then 12 else 8)
      by (unfold serial_header, tail; destruct (error m =? ERROR_RETRY); zlen; lia).
    exists (serial_header m ++ tail). rewrite Hz. unfold serial_header in *.
    destruct (uint_32_val _ (le_bytes 4 (user_id m) ++ tail) He) as [F1' _].
    destruct (uint_32_val _ tail Hu) as [F2' _].
    destruct (Z.eqb_spec (error m) ERROR_RETRY) as [E2|E2].
    + split; [done|]. split; [done|]. cbn [Z.ltb Z.compare Pos.compare Pos.compare_cont].
      rewrite <- app_assoc, F1'. simpl. rewrite F2'. simpl. rewrite V1, V2, E2. simpl.
      unfold tail. rewrite <- (app_nil_r (le_bytes 4 (retry_timeout m))).
      destruct (uint_32_val _ [] Hr) as [-> V3]. simpl. by rewrite V3.
    + split; [unfold tail; by rewrite app_nil_r|]. split; [done|].
      cbn [Z.ltb Z.compare Pos.compare Pos.compare_cont].
      rewrite <- app_assoc, F1'. simpl. rewrite F2'. simpl. rewrite V1, V2.
      destruct (Z.eqb_spec (error m) ERROR_NONE); [done|].
      by destruct (Z.eqb_spec (error m) ERROR_RETRY).
Qed.

Lemma Serialize_Deserialize_witness :
  let m := mkMessage ERROR_NONE 3 0
             (mkVerifyRequest 5 (SizedBuffer_of [1; 2]) (mkSizedBuffer (Some []) 0)) in
  let m0 := mkMessage 9 9 9 (VerifyRequest_new 9) in
  exists bytes,
    Serialize (GetSerializedSize m) m = Some (GetSerializedSize m, bytes)
    /\ zlen bytes = GetSerializedSize m
    /\ Deserialize bytes m0 = Some (error m, received_message m m0).
Proof.
  intros m m0. apply (Serialize_Deserialize m m0). unfold message_ok; simpl.
  unfold buffer_ok, is_uint, ERROR_NONE; simpl. split; [lia|]. split; [lia|]. split; [lia|].
  split; [lia|]. split; [|split; [by split; [|left]|by vm_compute]].
  split; [by vm_compute|]. right. by exists [1; 2].
Defined.

Lemma fetch_Some n l : n <= zlen l -> is_Some (fetch n l).
Proof. intros Hn. unfold fetch. destruct (Z.leb_spec n (zlen l)); [by eexists|lia]. Qed.

Lemma fetch_rest n l a r : 0 <= n -> fetch n l = Some (a, r) -> zlen r = zlen l - n.
Proof.
  unfold fetch. intros Hn. destruct (Z.leb_spec n (zlen l)); [|done]. intros [= <- <-].
  unfold zlen in *. rewrite length_drop. lia.
Qed.

(** The parts of a message whose body is a sequence of buffers. *)
Lemma Deserialize_defined {S} `{GateKeeperMessage S} payload (m : Message S) :
  zlen payload < 4 \/ zlen payload = 8 \/ 12 <= zlen payload ->
  (forall rest s, is_Some (nonErrorDeserialize rest s)) ->
  is_Some (Deserialize payload m).
Proof.
  intros Hlen Hbody. unfold Deserialize.
  destruct (Z.ltb_spec (zlen payload) 4) as [|H4]; [by eexists|].
  destruct (fetch_Some 4 payload) as [[err r1] E1]; [lia|]. rewrite E1. simpl.
  apply fetch_rest in E1; [|lia].
  destruct (fetch_Some 4 r1) as [[uid r2] E2]; [lia|]. rewrite E2. simpl.
  apply fetch_rest in E2; [|lia].
  destruct (le_val err =? ERROR_NONE).
  { destruct (Hbody r2 (body m)) as [[e b] ->]. by eexists. }
  destruct (le_val err =? ERROR_RETRY); [|by eexists].
  destruct (Z.ltb_spec 8 (zlen payload)); [|by eexists].
  destruct (fetch_Some 4 r2) as [[t r3] E3]; [lia|]. rewrite E3. by eexists.
Qed.

(** Enroll requests and responses are deserialized without reading past
    the end of any buffer that is too short for the error code, exactly a
    header, or longer than a header and a timeout, whatever bytes it holds. *)
Theorem Enroll_Deserialize_safe payload rq rs :
  zlen payload < 4 \/ zlen payload = 8 \/ 12 <= zlen payload ->
  is_Some (Deserialize (S := EnrollRequest) payload rq)
  /\ is_Some (Deserialize (S := EnrollResponse) payload rs).
Proof.
  intros Hlen. split; apply Deserialize_defined; try done; intros rest s; simpl.
  - destruct (read_from_buffer _ _) as [[e1 r1] b1]. destruct (negb _); [by eexists|].
    destruct (read_from_buffer _ _) as [[e2 r2] b2]. destruct (negb _); [by eexists|].
    destruct (read_from_buffer _ _) as [[e3 r3] b3]. by eexists.
  - destruct (read_from_buffer _ _) as [[e1 r1] b1]. by eexists.
Qed.

Lemma Enroll_Deserialize_safe_witness :
  let payload := replicate 13 255 in
  is_Some (Deserialize (S := EnrollRequest) payload (mkMessage 0 0 0 EnrollRequest_new))
  /\ is_Some (Deserialize (S := EnrollResponse) payload (mkMessage 0 0 0 EnrollResponse_new)).
Proof. intros payload. apply Enroll_Deserialize_safe. right. right. by vm_compute. Defined.

(** Short messages are read past their end: the length check covers the
    error code only, so the user id of a header cut after 4 bytes, the
    challenge of a verify request that ends after its header, the flag of a
    verify response that ends after its token, and a retry timeout of a
    single byte are all read from memory behind the message. *)
Theorem Deserialize_reads_past_end :
  Deserialize (le_bytes 4 ERROR_NONE) (mkMessage 0 0 0 EnrollRequest_new) = None
  /\ Deserialize (le_bytes 4 ERROR_NONE ++ le_bytes 4 7) (mkMessage 0 0 0 (VerifyRequest_new 0))
     = None
  /\ Deserialize (le_bytes 4 ERROR_NONE ++ le_bytes 4 7 ++ le_bytes 4 2 ++ [1; 2])
       (mkMessage 0 0 0 VerifyResponse_new) = None
  /\ Deserialize (le_bytes 4 ERROR_RETRY ++ le_bytes 4 7 ++ [1])
       (mkMessage 0 0 0 EnrollResponse_new) = None.
Proof. repeat split. Qed.
