(* ===== verification/Gatekeeper.v ===== *)
(** * Gatekeeper: enrolling and verifying passwords

    gatekeeper/gatekeeper.cpp.  The pure virtual functions of [GateKeeper] are
    the class [Platform], over a state [P]; [DoVerify], which a subclass may
    override, is the class [Verifier].  A call of the gatekeeper is a function
    on [P]; [None] is undefined behaviour, that is an access outside of a
    buffer.  [SoftGateKeeper] of core/gatekeeperd is the instance at the end.

    The theorems: a wrong guess costs what [ComputeRetryTimeout] says, over
    reboots; an enrolled password verifies; a new handle for the same secure
    user id needs the old password; and what the hash cache of
    [SoftGateKeeper] does to a changed password. *)
From S2P Require Import Prelude Bytes GatekeeperMessages.

(** ** Data *)

Record failure_record := mkFailureRecord {
  secure_user_id : Z;
  last_checked_timestamp : Z;
  failure_counter : Z;
}.

Definition HANDLE_FLAG_THROTTLE_SECURE : Z := 1.
Definition HANDLE_VERSION_THROTTLE : Z := 2.
Definition HANDLE_VERSION : Z := 2.
Definition DAY_IN_MS : Z := 1000 * 60 * 60 * 24.

(** The packed [password_handle_t]: the [n] bytes at offset [off]. *)
Definition field (off n : Z) (l : list Z) : option (list Z) :=
  '(_, r) ← fetch off l; '(x, _) ← fetch n r; Some x.

Definition handle_version (h : list Z) : option Z := le_val <$> field 0 1 h.
Definition handle_user_id (h : list Z) : option Z := le_val <$> field 1 8 h.
Definition handle_flags (h : list Z) : option Z := le_val <$> field 9 8 h.
Definition handle_salt (h : list Z) : option Z := le_val <$> field 17 8 h.
Definition handle_signature (h : list Z) : option (list Z) := field 25 32 h.

Definition handle_metadata (version user_id flags : Z) : list Z :=
  le_bytes 1 version ++ le_bytes 8 user_id ++ le_bytes 8 flags.

Definition password_handle (version user_id flags salt : Z) (signature : list Z)
    (hardware_backed : bool) : list Z :=
  handle_metadata version user_id flags ++ le_bytes 8 salt ++ signature
  ++ [if hardware_backed then 1 else 0].

(** [hw_auth_token_t] of the hardware headers: its constants and the bytes of
    the struct in front of the final member [hmac]. *)
Class HwAuthToken := {
  HW_AUTH_TOKEN_VERSION : Z;
  HW_AUTH_PASSWORD : Z;
  token_fields (version challenge user_id authenticator_id authenticator_type timestamp : Z)
    : list Z;
}.

(** The pure virtual functions.  [GetPasswordKey] and [GetAuthTokenKey] give
    [None] for a null key; [GetRandom] is used for 64-bit values only. *)
Class Platform (P : Type) := {
  GetAuthTokenKey : P -> option (list Z);
  GetPasswordKey : P -> option (list Z);
  ComputePasswordSignature : P -> list Z -> list Z -> Z -> list Z;
  ComputeSignature : P -> list Z -> list Z -> list Z;
  GetRandom : P -> Z * P;
  GetFailureRecord : Z -> Z -> bool -> P -> option failure_record * P;
  ClearFailureRecord : Z -> Z -> bool -> P -> bool * P;
  WriteFailureRecord : Z -> failure_record -> bool -> P -> bool * P;
  IsHardwareBacked : bool;
}.

(** Calls of the gatekeeper. *)
Definition G (P A : Type) : Type := P -> option (A * P).
#[export] Instance G_ret {P} : MRet (G P) := fun A a p => Some (a, p).
#[export] Instance G_bind {P} : MBind (G P) := fun A B f m p =>
  match m p with Some (a, p) => f a p | None => None end.

Definition call {P A} (f : P -> A * P) : G P A := fun p => Some (f p).
Definition ask {P A} (f : P -> A) : G P A := fun p => Some (f p, p).
Definition demand {P A} (o : option A) : G P A := fun p =>
  match o with Some a => Some (a, p) | None => None end.

(** [DoVerify]: does the password match the handle? *)
Class Verifier (P : Type) := DoVerify : list Z -> SizedBuffer -> G P bool.

(** ** Helpers *)

(** The bytes a [SizedBuffer] announces. *)
Definition buffer_bytes (b : SizedBuffer) : option (list Z) :=
  if sb_length b =? 0 then Some []
  else l ← sb_buffer b; '(data, _) ← fetch (sb_length b) l; Some data.

(** The loop of [memcmp_s]. *)
Fixpoint memcmp_loop (s1 s2 : list Z) (result : Z) : Z :=
  match s1, s2 with
  | a :: s1, b :: s2 => memcmp_loop s1 s2 (Z.lor result (Z.lxor a b))
  | _, _ => result
  end.
Definition memcmp_s (p1 p2 : list Z) : Z := if memcmp_loop p1 p2 0 =? 0 then 0 else 1.

(** [ComputeRetryTimeout] *)
Definition ComputeRetryTimeout (record : failure_record) : Z :=
  let failure_timeout_ms := 30000 in
  let c := failure_counter record in
  if c =? 0 then 0
  else if (0 <? c) && (c <=? 10) then
    if c mod 5 =? 0 then failure_timeout_ms else 0
  else if c <? 30 then failure_timeout_ms
  else if c <? 140 then Z.shiftl failure_timeout_ms ((c - 30) / 10)
  else DAY_IN_MS.

Section GateKeeper.
Context {P : Type} `{Platform P} `{HwAuthToken}.

(** [CreatePasswordHandle]; [None] is [false]. *)
Definition CreatePasswordHandle (salt user_id flags version : Z) (password : SizedBuffer)
    : G P (option (list Z)) :=
  let metadata := handle_metadata version user_id flags in
  let to_sign_size := u32 (sb_length password + 17) in
  bytes ← demand (buffer_bytes password);
  if to_sign_size <? zlen metadata + zlen bytes then demand None
  else
    let to_sign := metadata ++ bytes in
    password_key ← ask GetPasswordKey;
    match password_key with
    | None | Some [] => mret None
    | Some key =>
        signature ← ask (fun p => ComputePasswordSignature p key to_sign salt);
        mret (Some (password_handle version user_id flags salt signature IsHardwareBacked))
    end.

(** [GateKeeper::DoVerify], the default implementation. *)
Definition GateKeeper_DoVerify (expected_handle : list Z) (password : SizedBuffer) : G P bool :=
  match sb_buffer password with
  | None => mret false
  | Some _ =>
      salt ← demand (handle_salt expected_handle);
      user_id ← demand (handle_user_id expected_handle);
      flags ← demand (handle_flags expected_handle);
      version ← demand (handle_version expected_handle);
      provided ← CreatePasswordHandle salt user_id flags version password;
      match provided with
      | None => mret false
      | Some generated_handle =>
          s1 ← demand (handle_signature generated_handle);
          s2 ← demand (handle_signature expected_handle);
          mret (memcmp_s s1 s2 =? 0)
      end
  end.

(** [MintAuthToken] *)
Definition MintAuthToken (timestamp user_id authenticator_id challenge : Z) : G P (list Z) :=
  let token := token_fields HW_AUTH_TOKEN_VERSION challenge user_id authenticator_id
                 (hton 4 HW_AUTH_PASSWORD) (hton 8 timestamp) in
  key ← ask GetAuthTokenKey;
  match key with
  | Some key => hmac ← ask (fun p => ComputeSignature p key token); mret (token ++ hmac)
  | None => mret (token ++ replicate 32 0)
  end.

(** [ThrottleRequest]: whether the request ends here, and the response. *)
Definition ThrottleRequest {S} (uid timestamp : Z) (record : failure_record) (secure : bool)
    (response : Message S) : G P (bool * Message S) :=
  let last_checked := last_checked_timestamp record in
  let timeout := ComputeRetryTimeout record in
  if 0 <? timeout then
    if (timestamp <? u64 (last_checked + timeout)) && (last_checked <? timestamp) then
      mret (true, SetRetryTimeout (u32 (timeout - (timestamp - last_checked))) response)
    else if timestamp <=? last_checked then
      ok ← call (WriteFailureRecord uid
             (mkFailureRecord (secure_user_id record) timestamp (failure_counter record)) secure);
      if negb ok then mret (true, SetError ERROR_UNKNOWN response)
      else mret (true, SetRetryTimeout timeout response)
    else mret (false, response)
  else mret (false, response).

(** [IncrementFailureRecord]: its result and the updated record. *)
Definition IncrementFailureRecord (uid user_id timestamp : Z) (record : failure_record)
    (secure : bool) : G P (bool * failure_record) :=
  let record := mkFailureRecord user_id timestamp (u32 (failure_counter record + 1)) in
  ok ← call (WriteFailureRecord uid record secure);
  mret (ok, record).

(** The throttling block that [Enroll] and [Verify] share: the response with
    which they return early, or the timeout of the next failure. *)
Definition throttle_block {S} (uid user_id timestamp : Z) (secure : bool) (response : Message S)
    : G P (Message S + Z) :=
  record ← call (GetFailureRecord uid user_id secure);
  match record with
  | None => mret (inl (SetError ERROR_UNKNOWN response))
  | Some record =>
      '(stop, response) ← ThrottleRequest uid timestamp record secure response;
      if stop : bool then mret (inl response)
      else
        '(ok, record) ← IncrementFailureRecord uid user_id timestamp record secure;
        if negb ok then mret (inl (SetError ERROR_UNKNOWN response))
        else mret (inr (ComputeRetryTimeout record))
  end.

Context `{Verifier P}.

(** The first half of [Enroll]: the secure user id of the new handle, or the
    response with which it returns. *)
Definition Enroll_check (timestamp : Z) (request : Message EnrollRequest)
    (response : Message EnrollResponse) : G P (Message EnrollResponse + Z) :=
  let uid := user_id request in
  match sb_buffer (erq_password_handle (body request)) with
  | None => user_id ← call GetRandom; mret (inr user_id)
  | Some pw_handle =>
      version ← demand (handle_version pw_handle);
      if HANDLE_VERSION <? version then mret (inl (SetError ERROR_INVALID response))
      else
        user_id ← demand (handle_user_id pw_handle);
        let throttle := HANDLE_VERSION_THROTTLE <=? version in
        block ← (if throttle then
                   flags ← demand (handle_flags pw_handle);
                   let secure := negb (Z.land flags HANDLE_FLAG_THROTTLE_SECURE =? 0) in
                   throttle_block uid user_id timestamp secure response
                 else mret (inr 0));
        match block with
        | inl response => mret (inl response)
        | inr timeout =>
            ok ← DoVerify pw_handle (erq_enrolled_password (body request));
            if negb ok then
              if throttle && (0 <? timeout) then mret (inl (SetRetryTimeout timeout response))
              else mret (inl (SetError ERROR_INVALID response))
            else mret (inr user_id)
        end
  end.

(** [Enroll]; [timestamp] is what [GetMillisecondsSinceBoot] returns. *)
Definition Enroll (timestamp : Z) (request : Message EnrollRequest)
    (response : Message EnrollResponse) : G P (Message EnrollResponse) :=
  let uid := user_id request in
  match sb_buffer (erq_provided_password (body request)) with
  | None => mret (SetError ERROR_INVALID response)
  | Some _ =>
      checked ← Enroll_check timestamp request response;
      match checked with
      | inl response => mret response
      | inr user_id =>
          cleared ← call (ClearFailureRecord uid user_id true);
          flags ← (if cleared : bool then mret HANDLE_FLAG_THROTTLE_SECURE
                   else _ ← call (ClearFailureRecord uid user_id false); mret 0);
          salt ← call GetRandom;
          handle ← CreatePasswordHandle salt user_id flags HANDLE_VERSION
                     (erq_provided_password (body request));
          match handle with
          | None => mret (SetError ERROR_INVALID response)
          | Some handle =>
              mret (mkMessage (error response) (GatekeeperMessages.user_id response)
                      (retry_timeout response)
                      (SetEnrolledPasswordHandle (SizedBuffer_of handle) (body response)))
          end
      end
  end.

(** [Verify] *)
Definition Verify (timestamp : Z) (request : Message VerifyRequest)
    (response : Message VerifyResponse) : G P (Message VerifyResponse) :=
  match sb_buffer (vrq_provided_password (body request)),
        sb_buffer (vrq_password_handle (body request)) with
  | Some _, Some password_handle =>
      version ← demand (handle_version password_handle);
      if HANDLE_VERSION <? version then mret (SetError ERROR_INVALID response)
      else
        user_id ← demand (handle_user_id password_handle);
        let authenticator_id := 0 in
        let uid := GatekeeperMessages.user_id request in
        let throttle := HANDLE_VERSION_THROTTLE <=? version in
        flags ← demand (handle_flags password_handle);
        let throttle_secure := negb (Z.land flags HANDLE_FLAG_THROTTLE_SECURE =? 0) in
        let reenroll := mkMessage (error response) (GatekeeperMessages.user_id response)
              (retry_timeout response) (mkVerifyResponse (vrs_auth_token (body response)) 1) in
        let response := if throttle then response else reenroll in
        block ← (if throttle then throttle_block uid user_id timestamp throttle_secure response
                 else mret (inr 0));
        match block with
        | inl response => mret response
        | inr timeout =>
            ok ← DoVerify password_handle (vrq_provided_password (body request));
            if ok : bool then
              auth_token ← MintAuthToken timestamp user_id authenticator_id
                             (vrq_challenge (body request));
              _ ← (if throttle then call (ClearFailureRecord uid user_id throttle_secure)
                   else mret false);
              mret (mkMessage (error response) (GatekeeperMessages.user_id response)
                      (retry_timeout response)
                      (SetVerificationToken (SizedBuffer_of auth_token) (body response)))
            else if throttle && (0 <? timeout) then mret (SetRetryTimeout timeout response)
            else mret (SetError ERROR_INVALID response)
        end
  | _, _ => mret (SetError ERROR_INVALID response)
  end.

End GateKeeper.

(** ** Counting evaluated passwords

    [logged P] is the state of a platform with a log of the calls of
    [DoVerify], the handles and the passwords.  [Enroll] and [Verify] work for
    every platform, so also for this one, and the log does not influence them. *)
Record logged (P : Type) := mkLogged { platform : P; log : list (list Z * SizedBuffer) }.
Arguments mkLogged {P} _ _.
Arguments platform {P} _.
Arguments log {P} _.

Section Logged.
Context {P : Type} `{Platform P} `{Verifier P}.

Definition on_platform {A} (f : P -> A * P) (s : logged P) : A * logged P :=
  let '(a, p) := f (platform s) in (a, mkLogged p (log s)).

#[export] Instance logged_platform : Platform (logged P) := {|
  GetAuthTokenKey s := GetAuthTokenKey (platform s);
  GetPasswordKey s := GetPasswordKey (platform s);
  ComputePasswordSignature s := ComputePasswordSignature (platform s);
  ComputeSignature s := ComputeSignature (platform s);
  GetRandom := on_platform GetRandom;
  GetFailureRecord uid sid secure := on_platform (GetFailureRecord uid sid secure);
  ClearFailureRecord uid sid secure := on_platform (ClearFailureRecord uid sid secure);
  WriteFailureRecord uid r secure := on_platform (WriteFailureRecord uid r secure);
  IsHardwareBacked := IsHardwareBacked;
|}.

#[export] Instance logged_verifier : Verifier (logged P) := fun h pw s =>
  match DoVerify h pw (platform s) with
  | Some (ok, p) => Some (ok, mkLogged p (log s ++ [(h, pw)]))
  | None => None
  end.
End Logged.

(** ** Promises of a platform *)

(** [record_of p uid sid secure] is the failure record kept for the user. *)
Class PlatformOk (P : Type) `{Platform P} := {
  record_of : P -> Z -> Z -> bool -> failure_record;
  record_of_user p uid sid secure : secure_user_id (record_of p uid sid secure) = sid;
  get_record uid sid secure p r p' :
    GetFailureRecord uid sid secure p = (r, p') ->
    record_of p' uid sid secure = record_of p uid sid secure
    /\ forall record, r = Some record -> record = record_of p uid sid secure;
  write_record uid r secure p ok p' :
    WriteFailureRecord uid r secure p = (ok, p') ->
    record_of p' uid (secure_user_id r) secure
    = if ok then r else record_of p uid (secure_user_id r) secure;
  clear_record uid sid secure p p' :
    ClearFailureRecord uid sid secure p = (true, p') ->
    record_of p' uid sid secure = mkFailureRecord sid 0 0;
  signature_length p key msg salt : zlen (ComputePasswordSignature p key msg salt) = 32;
}.

(** Verifying a password leaves the records alone. *)
Class VerifierOk (P : Type) `{PlatformOk P} `{Verifier P} :=
  verify_keeps_records h pw p b p' :
    DoVerify h pw p = Some (b, p') ->
    forall uid sid secure, record_of p' uid sid secure = record_of p uid sid secure.

#[export] Program Instance logged_ok {P} `{PlatformOk P} : PlatformOk (logged P) := {|
  record_of s := record_of (platform s);
|}.
Next Obligation. intros. apply record_of_user. Qed.
Next Obligation.
  intros P ? ? uid sid secure s r s'. simpl. unfold on_platform.
  destruct (GetFailureRecord uid sid secure (platform s)) as [r1 p1] eqn:E. intros [= <- <-].
  by apply get_record in E.
Qed.
Next Obligation.
  intros P ? ? uid r secure s ok s'. simpl. unfold on_platform.
  destruct (WriteFailureRecord uid r secure (platform s)) as [r1 p1] eqn:E. intros [= <- <-].
  by apply write_record in E.
Qed.
Next Obligation.
  intros P ? ? uid sid secure s s'. simpl. unfold on_platform.
  destruct (ClearFailureRecord uid sid secure (platform s)) as [r1 p1] eqn:E. intros [= -> <-].
  by apply clear_record in E.
Qed.
Next Obligation. intros P ? ? s key msg salt. exact (signature_length (platform s) key msg salt). Qed.

#[export] Instance logged_verifier_ok {P} `{VerifierOk P} : VerifierOk (logged P).
Proof.
  intros h pw s b s'. unfold DoVerify, logged_verifier.
  destruct (DoVerify h pw (platform s)) as [[ok p]|] eqn:E; [|done]. intros [= <- <-]. simpl.
  by eapply verify_keeps_records.
Qed.

(** ** Reasoning about calls

    [gives U m p Q]: the call returns with [Q], or runs into undefined
    behaviour if [U] allows that. *)
Section Logic.
Context {P : Type} (U : Prop).

Definition gives {A} (m : G P A) (p : P) (Q : A -> P -> Prop) : Prop :=
  match m p with Some (a, p') => Q a p' | None => U end.

Lemma gives_bind {A B} (m : G P A) (f : A -> G P B) p Q :
  gives m p (fun a p1 => gives (f a) p1 Q) -> gives (m ≫= f) p Q.
Proof using. unfold gives, mbind, G_bind. by destruct (m p) as [[]|]. Qed.

Lemma gives_ret {A} (a : A) p Q : Q a p -> gives (mret a) p Q.
Proof using. done. Qed.

Lemma gives_demand {A} (o : option A) p Q :
  (o = None -> U) -> (forall a, o = Some a -> Q a p) -> gives (demand o) p Q.
Proof using. unfold gives, demand. destruct o; auto. Qed.

Lemma gives_call {A} (f : P -> A * P) p Q : (forall a p', f p = (a, p') -> Q a p') -> gives (call f) p Q.
Proof using. unfold gives, call. destruct (f p); auto. Qed.

Lemma gives_ask {A} (f : P -> A) p Q : Q (f p) p -> gives (ask f) p Q.
Proof using. done. Qed.

Lemma gives_mono {A} (m : G P A) p (Q Q' : A -> P -> Prop) :
  gives m p Q -> (forall a p', Q a p' -> Q' a p') -> gives m p Q'.
Proof using. unfold gives. destruct (m p) as [[]|]; auto. Qed.

Lemma gives_any {A} (m : G P A) p (Q : A -> P -> Prop) :
  U -> (forall a p', Q a p') -> gives m p Q.
Proof using. intros HU HQ. unfold gives. destruct (m p) as [[]|]; auto. Qed.

Lemma gives_and {A} (m : G P A) p (Q Q' : A -> P -> Prop) :
  gives m p Q -> gives m p Q' -> gives m p (fun a p' => Q a p' /\ Q' a p').
Proof using. unfold gives. destruct (m p) as [[]|]; auto. Qed.

End Logic.

(** ** Throttling *)

(** The record admits no guess at the time. *)
Definition pending (r : failure_record) (timestamp : Z) : Prop :=
  0 < ComputeRetryTimeout r
  /\ timestamp < u64 (last_checked_timestamp r + ComputeRetryTimeout r).

(** What a throttled request does to the record of its user. *)
Inductive throttle_case (r : failure_record) (timestamp sid : Z) : failure_record -> bool -> Prop :=
| throttle_refused : throttle_case r timestamp sid r false
| throttle_restarted :
    0 < ComputeRetryTimeout r -> timestamp <= last_checked_timestamp r ->
    throttle_case r timestamp sid (mkFailureRecord sid timestamp (failure_counter r)) false
| throttle_counted :
    ~ (0 < ComputeRetryTimeout r /\ timestamp <= last_checked_timestamp r) -> ~ pending r timestamp ->
    throttle_case r timestamp sid (mkFailureRecord sid timestamp (u32 (failure_counter r + 1))) true.

Section Throttling.
Context {P : Type} `{HP : PlatformOk P} (U : Prop).

Lemma ThrottleRequest_case {S} uid sid timestamp secure (response : Message S) p :
  let r := record_of p uid sid secure in
  gives U (ThrottleRequest uid timestamp r secure response) p (fun '(stop, x) p' =>
    if stop : bool
    then throttle_case r timestamp sid (record_of p' uid sid secure) false
         /\ body x = body response /\ error x <> ERROR_NONE
    else p' = p /\ x = response
         /\ ~ (0 < ComputeRetryTimeout r /\ timestamp <= last_checked_timestamp r)
         /\ ~ pending r timestamp).
Proof using.
  intros r. unfold ThrottleRequest, pending. destruct (Z.ltb_spec 0 (ComputeRetryTimeout r)) as [Ht|Ht].
  2: { apply gives_ret. do 2 (split; [done|]). lia. }
  destruct (_ && _) eqn:Ep; [apply gives_ret; split; [constructor|done]|].
  destruct (Z.leb_spec timestamp (last_checked_timestamp r)) as [Hl|Hl].
  - apply gives_bind, gives_call. intros ok p' Hw. apply write_record in Hw. simpl in Hw.
    unfold r in Hw at 1 4. rewrite record_of_user in Hw.
    assert (Hs : secure_user_id r = sid) by apply record_of_user. rewrite Hs in Hw.
    destruct ok; apply gives_ret; (split; [rewrite Hw|done]); [by constructor|constructor].
  - apply gives_ret. do 2 (split; [done|]). lia.
Qed.

Lemma throttle_block_case {S} uid sid timestamp secure (response : Message S) p :
  gives U (throttle_block uid sid timestamp secure response) p (fun res p' =>
    throttle_case (record_of p uid sid secure) timestamp sid (record_of p' uid sid secure)
      (match res with inl _ => false | inr _ => true end)
    /\ match res with
       | inl x => body x = body response /\ error x <> ERROR_NONE
       | inr t => t = ComputeRetryTimeout (record_of p' uid sid secure)
       end).
Proof using.
  unfold throttle_block. apply gives_bind, gives_call. intros r p1 Hg.
  destruct (get_record _ _ _ _ _ _ Hg) as [Hk Hr].
  destruct r as [r|]; [|apply gives_ret; rewrite Hk; split; [constructor|done]].
  rewrite (Hr r eq_refl), <- Hk. clear Hr Hg. apply gives_bind.
  eapply gives_mono; [apply ThrottleRequest_case|]. intros [[] x] p2; [by intros|].
  intros (-> & -> & Hn1 & Hn2). unfold IncrementFailureRecord.
  apply gives_bind, gives_bind, gives_call. intros ok p3 Hw. apply write_record in Hw. simpl in Hw.
  apply gives_ret. destruct ok; apply gives_ret; rewrite Hw; split; try done; by constructor.
Qed.

End Throttling.

(** ** What guesses cost *)

(** A throttled password handle: the bytes and what they say. *)
Record throttled (h : list Z) (sid : Z) (secure : bool) : Prop := {
  throttled_version : exists version,
    handle_version h = Some version /\ version = HANDLE_VERSION_THROTTLE;
  throttled_user : handle_user_id h = Some sid;
  throttled_secure : exists flags,
    handle_flags h = Some flags /\ secure = negb (Z.land flags HANDLE_FLAG_THROTTLE_SECURE =? 0);
}.

(** An attempt to verify at real time [now], on a device booted at [boot]. *)
Record visit := mkVisit { boot : Z; now : Z; guess : Message VerifyRequest }.

(** The attempts follow each other in time; between two of them the device
    may have been rebooted. *)
Fixpoint schedule (b t : Z) (vs : list visit) : Prop :=
  match vs with
  | [] => True
  | v :: vs => (boot v = b \/ t <= boot v) /\ boot v <= now v < boot v + 2 ^ 63 /\ t <= now v
               /\ schedule (boot v) (now v) vs
  end.

(** The time of the last attempt. *)
Fixpoint last_time (t : Z) (vs : list visit) : Z :=
  match vs with [] => t | v :: vs => last_time (now v) vs end.

(** The waiting times prescribed for the guesses number [c] to [c + n - 1]. *)
Fixpoint total_timeout (c : Z) (n : nat) : Z :=
  match n with
  | O => 0
  | S n => ComputeRetryTimeout (mkFailureRecord 0 0 c) + total_timeout (c + 1) n
  end.

Arguments ComputeRetryTimeout : simpl never.

Lemma total_timeout_snoc c n :
  total_timeout c (S n)
  = total_timeout c n + ComputeRetryTimeout (mkFailureRecord 0 0 (c + Z.of_nat n)).
Proof.
  revert c. induction n as [|n IH]; intros c; [simpl; rewrite !Z.add_0_r; lia|].
  rewrite Nat2Z.inj_succ.
  change (total_timeout c (S (S n))) with
    (ComputeRetryTimeout (mkFailureRecord 0 0 c) + total_timeout (c + 1) (S n)).
  rewrite IH. change (total_timeout c (S n)) with
    (ComputeRetryTimeout (mkFailureRecord 0 0 c) + total_timeout (c + 1) n).
  replace (c + 1 + Z.of_nat n) with (c + Z.succ (Z.of_nat n)) by lia. lia.
Qed.

(** Bounds of the timeout, for the arithmetic on timestamps. *)
Lemma ComputeRetryTimeout_bounds r : 0 <= ComputeRetryTimeout r <= DAY_IN_MS.
Proof.
  unfold ComputeRetryTimeout, DAY_IN_MS. destruct (_ =? 0); [lia|].
  destruct (_ && _); [destruct (_ =? 0); lia|]. destruct (Z.ltb_spec (failure_counter r) 30); [lia|].
  destruct (Z.ltb_spec (failure_counter r) 140); [|lia]. rewrite Z.shiftl_mul_pow2.
  - assert (0 <= (failure_counter r - 30) / 10 <= 10).
    { split; [apply Z.div_pos; lia|]. apply Z.lt_succ_r, Z.div_lt_upper_bound; lia. }
    pose proof (Z.pow_le_mono_r 2 ((failure_counter r - 30) / 10) 10). lia.
  - apply Z.div_pos; lia.
Qed.

Lemma ComputeRetryTimeout_counter r :
  ComputeRetryTimeout r = ComputeRetryTimeout (mkFailureRecord 0 0 (failure_counter r)).
Proof. done. Qed.

(** Run the attempts, each with a new response object, and a [reboot] wherever
    the time of the boot changes. *)
Fixpoint verify_all {P} `{Platform P} `{HwAuthToken} `{Verifier P} (reboot : P -> P) (b : Z)
    (vs : list visit) : G P (list (Message VerifyResponse)) :=
  match vs with
  | [] => mret []
  | v :: vs =>
      _ ← (if boot v =? b then mret () else call (fun p => ((), reboot p)));
      x ← Verify (now v - boot v) (guess v) (mkMessage ERROR_NONE 0 0 VerifyResponse_new);
      xs ← verify_all reboot (boot v) vs;
      mret (x :: xs)
  end.

(** The log is not lost. *)
Definition logged_reboot {P} (reboot : P -> P) (s : logged P) : logged P :=
  mkLogged (reboot (platform s)) (log s).

(** ** The log changes nothing *)

Section Unlogged.
Context {P : Type} `{Platform P} `{HwAuthToken} `{Verifier P}.

(** The call does the same without the log. *)
Definition same {A} (m : G (logged P) A) (m' : G P A) : Prop := forall s,
  m' (platform s) = (fun '(a, s') => (a, platform s')) <$> m s.

Lemma same_ret {A} (a : A) : same (mret a) (mret a).
Proof using. done. Qed.

Lemma same_demand {A} (o : option A) : same (demand o) (demand o).
Proof using. intros s. unfold demand. by destruct o. Qed.

Lemma same_ask {A} (f : P -> A) : same (ask (fun s => f (platform s))) (ask f).
Proof using. done. Qed.

Lemma same_call {A} (f : P -> A * P) : same (call (on_platform f)) (call f).
Proof using. intros s. unfold call, on_platform. simpl. by destruct (f (platform s)). Qed.

Lemma same_verify h pw : same (DoVerify h pw) (DoVerify h pw).
Proof using.
  intros s. unfold DoVerify at 2. unfold logged_verifier.
  by destruct (DoVerify h pw (platform s)) as [[]|].
Qed.

Lemma same_bind {A B} (m : G (logged P) A) m' (f : A -> G (logged P) B) f' :
  same m m' -> (forall a, same (f a) (f' a)) -> same (m ≫= f) (m' ≫= f').
Proof using.
  intros Hm Hf s. unfold mbind, G_bind. rewrite Hm. destruct (m s) as [[a s']|]; [|done]. apply Hf.
Qed.

Ltac same := repeat first
  [ apply same_bind; [|intros ?]
  | apply same_ret | apply same_demand | apply same_call | apply same_ask | apply same_verify
  | progress cbn [GetFailureRecord WriteFailureRecord ClearFailureRecord logged_platform]
  | match goal with |- same (match ?x with _ => _ end) _ => destruct x end
  | match goal with |- same (let '(_, _) := ?x in _) _ => destruct x end ].

Lemma same_Verify timestamp request response :
  same (Verify timestamp request response) (Verify timestamp request response).
Proof using.
  unfold Verify, throttle_block, ThrottleRequest, IncrementFailureRecord, MintAuthToken. same.
Qed.

Lemma same_verify_all reboot b vs :
  same (verify_all (logged_reboot reboot) b vs) (verify_all reboot b vs).
Proof using.
  revert b. induction vs as [|v vs IH]; intros b; [apply same_ret|]. cbn [verify_all].
  apply same_bind; [by destruct (boot v =? b)|intros _]. apply same_bind; [apply same_Verify|intros x].
  apply same_bind; [apply IH|intros xs]. apply same_ret.
Qed.
End Unlogged.

Section Guessing.
Context {P : Type} `{HP : PlatformOk P} `{HwAuthToken} `{HV : Verifier P} `{!VerifierOk P}.
Implicit Types (s : logged P).

Definition is_guess (h : list Z) (uid : Z) (v : visit) : Prop :=
  sb_buffer (vrq_password_handle (body (guess v))) = Some h /\ user_id (guess v) = uid.

Lemma throttle_block_log {S} U uid sid timestamp secure (response : Message S) s :
  gives U (throttle_block uid sid timestamp secure response) s (fun _ s' => log s' = log s).
Proof using.
  assert (Hcall : forall {A} (f : P -> A * P) s a s', on_platform f s = (a, s') -> log s' = log s).
  { intros A f s0 a s'. unfold on_platform. destruct (f (platform s0)). by intros [= _ <-]. }
  unfold throttle_block. apply gives_bind, gives_call. intros [r|] s1 E1%Hcall; [|by apply gives_ret].
  apply gives_bind. eapply gives_mono with (Q := fun _ s' => log s' = log s).
  { unfold ThrottleRequest. destruct (0 <? _); [|by apply gives_ret].
    destruct (_ && _); [by apply gives_ret|]. destruct (_ <=? _); [|by apply gives_ret].
    apply gives_bind, gives_call. intros [] s2 E2%Hcall; apply gives_ret; congruence. }
  intros [[] x] s2 E2; [by apply gives_ret|]. unfold IncrementFailureRecord.
  apply gives_bind, gives_bind, gives_call. intros [] s3 E3%Hcall; apply gives_ret, gives_ret; congruence.
Qed.

(** The password has been passed to [DoVerify] exactly if it has been counted. *)
Lemma Verify_case U timestamp request response s h sid secure :
  sb_buffer (vrq_password_handle (body request)) = Some h -> throttled h sid secure ->
  (forall pw s, DoVerify h pw s = None -> U) ->
  let uid := user_id request in
  gives U (Verify timestamp request response) s (fun x s' =>
    (exists evaluated : bool, throttle_case (record_of s uid sid secure) timestamp sid
                         (record_of s' uid sid secure) evaluated
       /\ log s' = log s ++ (if evaluated then [(h, vrq_provided_password (body request))] else []))
    \/ exists token, vrs_auth_token (body x) = SizedBuffer_of token).
Proof using VerifierOk0.
  intros Hh [(v & Hv & ->) Hu (flags & Hf & Hs)] HU uid. unfold Verify. rewrite Hh.
  destruct (sb_buffer (vrq_provided_password (body request))).
  2: { apply gives_ret. left. exists false. split; [constructor|by rewrite app_nil_r]. }
  apply gives_bind, gives_demand; [congruence|]. intros v' Hv'. rewrite Hv in Hv'.
  injection Hv' as <-. simpl. apply gives_bind, gives_demand; [congruence|].
  intros sid' Hu'. rewrite Hu in Hu'. injection Hu' as <-.
  apply gives_bind, gives_demand; [congruence|]. intros flags' Hf'. rewrite Hf in Hf'.
  injection Hf' as <-. rewrite <- Hs. apply gives_bind.
  eapply gives_mono; [apply gives_and; [apply throttle_block_case|apply throttle_block_log]|].
  intros [x|timeout] s1 [[Hc Hx] Hlog]; [apply gives_ret; left; exists false; split; [done|by rewrite app_nil_r]|].
  apply gives_bind. unfold gives at 1.
  destruct (DoVerify h _ s1) as [[ok s2]|] eqn:Ev; [|by eapply HU].
  pose proof (verify_keeps_records _ _ _ _ _ Ev uid sid secure) as Hkeep. fold uid in Hc.
  assert (Hlog2 : log s2 = log s ++ [(h, vrq_provided_password (body request))]).
  { unfold DoVerify, logged_verifier in Ev. destruct (DoVerify h _ (platform s1)) as [[]|]; [|done].
    injection Ev as _ <-. simpl. by rewrite Hlog. }
  destruct ok.
  - apply gives_bind. unfold MintAuthToken.
    apply gives_bind, gives_ask. destruct (GetAuthTokenKey s2);
      [apply gives_bind, gives_ask, gives_ret|apply gives_ret];
      (apply gives_bind, gives_call; intros b p3 _; apply gives_ret; right; by eexists).
  - destruct (0 <? timeout); apply gives_ret; left; exists true; (split; [simpl in Hkeep; rewrite Hkeep; exact Hc|done]).
Qed.

Definition no_token (x : Message VerifyResponse) : Prop :=
  vrs_auth_token (body x) = SizedBuffer_null.

(** A counted guess comes after the timeout that was pending. *)
Lemma counted_late r b b' t now_ L :
  L <= b + last_checked_timestamp r -> L <= t -> (b' = b \/ t <= b') -> t <= now_ ->
  0 <= last_checked_timestamp r < 2 ^ 63 ->
  ~ (0 < ComputeRetryTimeout r /\ now_ - b' <= last_checked_timestamp r) ->
  ~ pending r (now_ - b') -> L + ComputeRetryTimeout r <= now_.
Proof using.
  unfold pending. intros HL Ht Hb Hn Hl Hr Hp. pose proof (ComputeRetryTimeout_bounds r) as HT.
  unfold DAY_IN_MS in HT. rewrite uint_small in Hp by (unfold is_uint; lia). lia.
Qed.

(** The evaluated passwords are those of the log, the failure counter counts
    them, and the last one was evaluated at [L] or later. *)
Record guessed (c0 L0 L : Z) (r : failure_record) (n : nat) : Prop := {
  gs_counter : failure_counter r = c0 + Z.of_nat n;
  gs_stamp : 0 <= last_checked_timestamp r < 2 ^ 63;
  gs_total : total_timeout c0 n <= L - L0;
}.

(** One attempt. *)
Lemma guessed_step c0 L0 L b b' t now_ sid r r' n evaluated :
  guessed c0 L0 L r n -> L <= b + last_checked_timestamp r -> L <= t -> (b' = b \/ t <= b') ->
  t <= now_ -> b' <= now_ < b' + 2 ^ 63 -> 0 <= c0 -> failure_counter r + 1 < 2 ^ 32 ->
  throttle_case r (now_ - b') sid r' evaluated ->
  exists L', guessed c0 L0 L' r' (n + if evaluated then 1 else 0) /\ L' <= b' + last_checked_timestamp r' /\ L' <= now_.
Proof using.
  intros [Hc Hs Ht] HL HLt Hb Htn Hbn Hc0 Hmax Hcase. inversion Hcase as [E|Hp1 Hp2 E|Hp1 Hp2 E]; subst.
  - exists L. rewrite Nat.add_0_r. split; [done|]. lia.
  - exists L. rewrite Nat.add_0_r. split; [by split; simpl; try lia|]. simpl. lia.
  - pose proof (counted_late r b b' t now_ L HL HLt Hb Htn Hs Hp1 Hp2) as Hlate.
    exists now_. rewrite Nat.add_1_r. split; [|simpl; lia].
    split; simpl failure_counter; simpl last_checked_timestamp.
    + rewrite uint_small by (unfold is_uint; lia). lia.
    + lia.
    + rewrite total_timeout_snoc. rewrite ComputeRetryTimeout_counter, Hc in Hlate. lia.
Qed.

Context (reboot : P -> P) (secure : bool).
Context (Hreboot : forall p uid sid, record_of (reboot p) uid sid secure = record_of p uid sid secure).

Lemma guesses_cost h uid sid L0 c0 vs b t n L s :
  throttled h sid secure -> schedule b t vs -> Forall (is_guess h uid) vs -> 0 <= c0 ->
  let r := record_of s uid sid secure in
  guessed c0 L0 L r n -> L <= b + last_checked_timestamp r -> L <= t -> failure_counter r + zlen vs < 2 ^ 32 ->
  n = length (log s) ->
  gives True (verify_all (logged_reboot reboot) b vs) s (fun xs s' => Forall no_token xs -> exists L',
    guessed c0 L0 L' (record_of s' uid sid secure) (length (log s')) /\ L' <= last_time t vs).
Proof using VerifierOk0 Hreboot.
  intros Hthr. revert b t n L s. induction vs as [|v vs IH]; intros b t n L s Hsch Hg Hc0 r Hgs HL Ht Hmax ->.
  { apply gives_ret. intros _. by exists L. }
  destruct Hsch as (Hb & Hbn & Htn & Hsch). inversion Hg as [|? ? [Hh Hu] Hgs']; subst. cbn [verify_all].
  rewrite zlen_cons in Hmax. pose proof (zlen_nonneg vs). apply gives_bind.
  eapply gives_mono with (Q := fun _ s1 => record_of s1 (user_id (guess v)) sid secure = r /\ log s1 = log s).
  { destruct (boot v =? b); [by apply gives_ret|]. apply gives_call. intros u s1 E. injection E as _ <-. split; [apply Hreboot|done]. }
  intros _ s1 [Hr1 Hlog1]. apply gives_bind.
  eapply gives_mono; [by apply (Verify_case True (now v - boot v) (guess v) _ s1 h sid secure)|].
  intros x s2 [(e & Hcase & Hlog2)|[token Htok]]; apply gives_bind.
  2: { apply gives_any; [done|]. intros xs s3. apply gives_ret. intros Hno. inversion Hno as [|? ? Hx _].
       unfold no_token in Hx. by rewrite Htok in Hx. }
  rewrite Hr1 in Hcase. destruct (guessed_step c0 L0 L b (boot v) t (now v) sid r (record_of s2 (user_id (guess v)) sid secure) (length (log s)) e Hgs)
    as (L' & Hgs2 & HL2 & Hn2); try (done || lia).
  eapply gives_mono; [apply (IH (boot v) (now v) (length (log s2)) L' s2)|]; try done.
  - rewrite Hlog2, Hlog1, length_app. by destruct e.
  - destruct Hgs2 as [-> _ _]. destruct Hgs as [Hc _ _]. destruct e; lia.
  - intros xs s3 HQ. apply gives_ret. intros Hno. inversion Hno; subst. by apply HQ.
Qed.

(** C12: Guesses cost time.  Let the failure records survive reboots, and let
    the last failure of the user have been recorded at real time [t] or later.
    Take any sequence of attempts against a handle, with reboots in between,
    in which no attempt yields a token, and count the passwords that are passed
    to [DoVerify] in it: the retry timeouts that the failure counter prescribes
    before each of them add up to no more than the time that has passed, and
    the counter has been incremented for each of them. *)
Theorem guesses_take_time h uid sid vs b t p xs p' :
  throttled h sid secure -> schedule b t vs -> Forall (is_guess h uid) vs ->
  let r := record_of p uid sid secure in
  0 <= failure_counter r -> failure_counter r + zlen vs < 2 ^ 32 ->
  0 <= last_checked_timestamp r < 2 ^ 63 -> t <= b + last_checked_timestamp r ->
  verify_all reboot b vs p = Some (xs, p') -> Forall no_token xs ->
  exists calls, verify_all (logged_reboot reboot) b vs (mkLogged p []) = Some (xs, mkLogged p' calls)
    /\ total_timeout (failure_counter r) (length calls) <= last_time t vs - t
    /\ failure_counter (record_of p' uid sid secure) = failure_counter r + Z.of_nat (length calls).
Proof using VerifierOk0 Hreboot.
  intros Hthr Hsch Hg r Hc Hmax Hl Ht Hrun Hno.
  pose proof (same_verify_all reboot b vs (mkLogged p [])) as Hsame. cbn [platform] in Hsame. rewrite Hrun in Hsame.
  destruct (verify_all (logged_reboot reboot) b vs (mkLogged p [])) as [[xs' [p1 calls]]|] eqn:E; [|done].
  injection Hsame as <- <-. exists calls. split; [done|].
  pose proof (guesses_cost h uid sid t (failure_counter r) vs b t 0 t (mkLogged p []) Hthr Hsch Hg Hc) as Hcost.
  unfold gives in Hcost. rewrite E in Hcost. destruct Hcost as (L' & [Hn _ Htot] & HL'); try done; [|].
  { change (record_of (mkLogged p []) uid sid secure) with r. split; simpl total_timeout; lia. }
  cbn [log record_of logged_ok platform] in *. split; [lia|done].
Qed.

End Guessing.

(** ** Handles *)

#[local] Opaque le_bytes.

Lemma field_at off n l a x r :
  l = a ++ x ++ r -> zlen a = off -> zlen x = n -> field off n l = Some x.
Proof. intros -> <- <-. unfold field. rewrite fetch_app. simpl. by rewrite fetch_app. Qed.

(** The fields of a handle are where [password_handle] puts them. *)
Lemma handle_fields v u f s sig hw :
  is_uint 8 v -> is_uint 64 u -> is_uint 64 f -> is_uint 64 s -> zlen sig = 32 ->
  let h := password_handle v u f s sig hw in
  handle_version h = Some v /\ handle_user_id h = Some u /\ handle_flags h = Some f
  /\ handle_salt h = Some s /\ handle_signature h = Some sig.
Proof.
  intros Hv Hu Hf Hs Hsig h. unfold h, password_handle, handle_metadata.
  unfold handle_version, handle_user_id, handle_flags, handle_salt, handle_signature.
  erewrite (field_at 0 1 _ [] (le_bytes 1 v)) by (rewrite <- ?app_assoc; done).
  erewrite (field_at 1 8 _ (le_bytes 1 v) (le_bytes 8 u)) by (rewrite <- ?app_assoc; done).
  erewrite (field_at 9 8 _ (le_bytes 1 v ++ le_bytes 8 u) (le_bytes 8 f))
    by (rewrite <- ?app_assoc, ?zlen_app, ?zlen_le_bytes; done).
  erewrite (field_at 17 8 _ (le_bytes 1 v ++ le_bytes 8 u ++ le_bytes 8 f) (le_bytes 8 s))
    by (rewrite <- ?app_assoc, ?zlen_app, ?zlen_le_bytes; done).
  erewrite (field_at 25 32 _ (le_bytes 1 v ++ le_bytes 8 u ++ le_bytes 8 f ++ le_bytes 8 s) sig)
    by (rewrite <- ?app_assoc, ?zlen_app, ?zlen_le_bytes; done).
  simpl. by rewrite !le_val_bytes.
Qed.

Lemma memcmp_loop_zero s1 s2 acc :
  length s1 = length s2 -> memcmp_loop s1 s2 acc = 0 <-> acc = 0 /\ s1 = s2.
Proof.
  revert s2 acc. induction s1 as [|a s1 IH]; intros [|b s2] acc Hl; try done; simpl.
  - tauto.
  - rewrite IH by (simpl in Hl; lia). rewrite Z.lor_eq_0_iff, Z.lxor_eq_0_iff. intuition congruence.
Qed.

Lemma memcmp_s_eq s1 s2 : length s1 = length s2 -> (memcmp_s s1 s2 =? 0) = bool_decide (s1 = s2).
Proof.
  intros Hl. unfold memcmp_s. pose proof (memcmp_loop_zero s1 s2 0 Hl) as Hz.
  destruct (Z.eqb_spec (memcmp_loop s1 s2 0) 0) as [E|E]; symmetry.
  - apply bool_decide_eq_true_2. by apply Hz.
  - apply bool_decide_eq_false_2. intros ->. by apply E, Hz.
Qed.

(** A password the gatekeeper can hash. *)
Definition password_ok (b : SizedBuffer) : Prop := buffer_ok b /\ sb_length b + 17 < 2 ^ 32.

Lemma buffer_bytes_ok b : buffer_ok b -> exists l, buffer_bytes b = Some l /\ zlen l = sb_length b.
Proof.
  intros [_ Hb]. unfold buffer_bytes. destruct (Z.eqb_spec (sb_length b) 0) as [E|E].
  - exists []. by rewrite E.
  - destruct Hb as [?|(l & Hl & Hz)]; [done|]. rewrite Hl. simpl. rewrite <- Hz, fetch_all. by exists l.
Qed.

Section Passwords.
Context {P : Type} `{HP : PlatformOk P} `{HwAuthToken}.

Lemma CreatePasswordHandle_gives U salt uid flags version pw p bytes (Q : option (list Z) -> P -> Prop) :
  password_ok pw -> buffer_bytes pw = Some bytes ->
  (GetPasswordKey p = None \/ GetPasswordKey p = Some [] -> Q None p) ->
  (forall key, GetPasswordKey p = Some key -> key <> [] ->
     Q (Some (password_handle version uid flags salt
         (ComputePasswordSignature p key (handle_metadata version uid flags ++ bytes) salt)
         IsHardwareBacked)) p) ->
  gives U (CreatePasswordHandle salt uid flags version pw) p Q.
Proof using.
  intros [Hb Hlt] Hbytes Hno Hyes. unfold CreatePasswordHandle.
  apply gives_bind, gives_demand; [congruence|]. intros l Hl. rewrite Hbytes in Hl. injection Hl as <-.
  destruct (buffer_bytes_ok pw Hb) as (l & Hl & Hz). rewrite Hbytes in Hl. injection Hl as <-.
  destruct Hb as [Hu _]. unfold is_uint in Hu. rewrite uint_small by (unfold is_uint; lia).
  assert (Hm : zlen (handle_metadata version uid flags) = 17)
    by (unfold handle_metadata; by rewrite !zlen_app, !zlen_le_bytes).
  rewrite Hm. destruct (Z.ltb_spec (sb_length pw + 17) (17 + zlen bytes)); [lia|].
  apply gives_bind, gives_ask. destruct (GetPasswordKey p) as [[|k key]|] eqn:Ek.
  - apply gives_ret. auto.
  - apply gives_bind, gives_ask, gives_ret. by apply Hyes.
  - apply gives_ret. auto.
Qed.

(** The default [DoVerify] accepts exactly the passwords with the signature
    of the handle. *)
Lemma DoVerify_gives U v u f s sig hw pw p bytes (Q : bool -> P -> Prop) :
  is_uint 8 v -> is_uint 64 u -> is_uint 64 f -> is_uint 64 s -> zlen sig = 32 ->
  password_ok pw -> buffer_bytes pw = Some bytes ->
  (sb_buffer pw = None \/ GetPasswordKey p = None \/ GetPasswordKey p = Some [] -> Q false p) ->
  (forall key, GetPasswordKey p = Some key -> key <> [] ->
     Q (bool_decide (ComputePasswordSignature p key (handle_metadata v u f ++ bytes) s = sig)) p) ->
  gives U (GateKeeper_DoVerify (password_handle v u f s sig hw) pw) p Q.
Proof using HP.
  intros Hv Hu Hf Hs Hsig Hpw Hbytes Hno Hyes. unfold GateKeeper_DoVerify.
  destruct (handle_fields v u f s sig hw Hv Hu Hf Hs Hsig) as (Ev & Eu & Ef & Es & Esig).
  destruct (sb_buffer pw) eqn:Epw; [|apply gives_ret; auto].
  rewrite Ev, Eu, Ef, Es. do 4 (apply gives_bind, gives_ret).
  apply gives_bind. eapply CreatePasswordHandle_gives; [done|done|..].
  - intros Hk. apply gives_ret. auto.
  - intros key Hk Hne. pose proof (signature_length p key (handle_metadata v u f ++ bytes) s) as Hl.
    destruct (handle_fields v u f s _ IsHardwareBacked Hv Hu Hf Hs Hl) as (_ & _ & _ & _ & ->).
    rewrite Esig. do 2 (apply gives_bind, gives_ret). apply gives_ret.
    rewrite memcmp_s_eq by (unfold zlen in *; lia). by apply Hyes.
Qed.

End Passwords.

(** ** Enrolling and verifying *)

(** The default implementation as a verifier. *)
Definition base_verifier {P} `{Platform P} : Verifier P := GateKeeper_DoVerify.


Section Enrolling.
Context {P : Type} `{HP : PlatformOk P} `{HwAuthToken}.

(** A platform with a fixed password key and a fixed signature function, that
    draws 64-bit values, and whose record storage does not fail. *)
Context (key : list Z) (sign : list Z -> Z -> list Z).
Context (Hkey : forall p, GetPasswordKey p = Some key) (Hne : key <> []).
Context (Hsign : forall p msg salt, ComputePasswordSignature p key msg salt = sign msg salt).
Context (Hrandom : forall p x p', GetRandom p = (x, p') -> is_uint 64 x
  /\ forall uid sid secure, record_of p' uid sid secure = record_of p uid sid secure).
Context (Hget : forall uid sid secure p, exists r p', GetFailureRecord uid sid secure p = (Some r, p')).
Context (Hwrite : forall uid r secure p, exists p', WriteFailureRecord uid r secure p = (true, p')).
Context (Hclear : forall uid sid secure p, exists p', ClearFailureRecord uid sid secure p = (true, p')).

(** The handle of a password. *)
Definition handle_for (sid salt : Z) (bytes : list Z) : list Z :=
  password_handle HANDLE_VERSION sid HANDLE_FLAG_THROTTLE_SECURE salt
    (sign (handle_metadata HANDLE_VERSION sid HANDLE_FLAG_THROTTLE_SECURE ++ bytes) salt)
    IsHardwareBacked.

Lemma sign_length msg salt : P -> zlen (sign msg salt) = 32.
Proof using Hsign HP. intros p. rewrite <- (Hsign p msg salt). apply signature_length. Qed.

(** [Enroll] without a previous handle. *)
Lemma Enroll_fresh `{Verifier P} timestamp request response p bytes :
  sb_buffer (erq_password_handle (body request)) = None ->
  sb_buffer (erq_provided_password (body request)) <> None ->
  password_ok (erq_provided_password (body request)) ->
  buffer_bytes (erq_provided_password (body request)) = Some bytes ->
  let sid := fst (GetRandom p) in
  gives False (Enroll timestamp request response) p (fun x p' => exists salt,
    is_uint 64 sid /\ is_uint 64 salt
    /\ x = mkMessage (error response) (user_id response) (retry_timeout response)
             (mkEnrollResponse (SizedBuffer_of (handle_for sid salt bytes)))
    /\ record_of p' (user_id request) sid true = mkFailureRecord sid 0 0).
Proof using Hkey Hne Hsign Hrandom Hclear HP.
  intros Hh Hpw Hok Hb sid0. unfold Enroll.
  destruct (sb_buffer (erq_provided_password (body request))); [|done].
  unfold Enroll_check. rewrite Hh. apply gives_bind, gives_bind, gives_call. intros sid p1 Hr1.
  assert (sid0 = sid) as -> by (unfold sid0; by rewrite Hr1). apply gives_ret. destruct (Hrandom _ _ _ Hr1) as [Hsid _].
  apply gives_bind, gives_call. intros ok p2 Hc.
  destruct (Hclear (user_id request) sid true p1) as [p2' Hc']. rewrite Hc in Hc'.
  injection Hc' as -> ->. apply clear_record in Hc.
  apply gives_bind, gives_ret, gives_bind, gives_call. intros salt p3 Hr3.
  destruct (Hrandom _ _ _ Hr3) as [Hsalt Hk3]. apply gives_bind.
  eapply CreatePasswordHandle_gives; [done|done|..]; rewrite Hkey.
  - intros [?|[= ?]]; done.
  - intros key' [= <-] _. apply gives_ret. exists salt. do 2 (split; [done|]).
    split; [unfold handle_for; by rewrite Hsign|]. by rewrite Hk3.
Qed.

Lemma throttle_block_fresh {S} uid sid timestamp secure (response : Message S) p :
  record_of p uid sid secure = mkFailureRecord sid 0 0 ->
  gives False (throttle_block uid sid timestamp secure response) p (fun res p' =>
    res = inr 0 /\ record_of p' uid sid secure = mkFailureRecord sid timestamp 1).
Proof using Hget Hwrite HP.
  intros Hr. unfold throttle_block. apply gives_bind, gives_call. intros r p1 Hg.
  destruct (Hget uid sid secure p) as (r' & p1' & Hg'). rewrite Hg in Hg'. injection Hg' as -> ->.
  destruct (get_record _ _ _ _ _ _ Hg) as [Hk Hr']. rewrite (Hr' r' eq_refl), Hr.
  unfold ThrottleRequest. simpl. apply gives_bind, gives_ret. unfold IncrementFailureRecord.
  apply gives_bind, gives_bind, gives_call. intros ok p2 Hw.
  match type of Hw with WriteFailureRecord _ ?rec _ _ = _ =>
    destruct (Hwrite uid rec secure p1') as [p2' Hw'] end.
  rewrite Hw in Hw'. injection Hw' as -> ->. apply write_record in Hw. apply gives_ret, gives_ret.
  split; [done|exact Hw].
Qed.

#[local] Existing Instance base_verifier.

Definition token_of (challenge sid timestamp : Z) (hmac : list Z) : list Z :=
  token_fields HW_AUTH_TOKEN_VERSION challenge sid 0 (hton 4 HW_AUTH_PASSWORD) (hton 8 timestamp)
  ++ hmac.

Lemma MintAuthToken_gives U timestamp sid challenge p Q :
  (forall hmac, Q (token_of challenge sid timestamp hmac) p) ->
  gives U (MintAuthToken timestamp sid 0 challenge) p Q.
Proof using.
  intros HQ. unfold MintAuthToken. apply gives_bind, gives_ask.
  destruct (GetAuthTokenKey p); [apply gives_bind, gives_ask, gives_ret, HQ|apply gives_ret, HQ].
Qed.

(** The outcome of checking [provided] against the handle of [enrolled]. *)
Definition verified (uid sid salt challenge timestamp : Z) (enrolled provided : list Z)
    (x : Message VerifyResponse) (p' : P) : Prop :=
  let metadata := handle_metadata HANDLE_VERSION sid HANDLE_FLAG_THROTTLE_SECURE in
  if bool_decide (sign (metadata ++ provided) salt = sign (metadata ++ enrolled) salt)
  then error x = ERROR_NONE /\ record_of p' uid sid true = mkFailureRecord sid 0 0
       /\ exists hmac, vrs_auth_token (body x)
                       = SizedBuffer_of (token_of challenge sid timestamp hmac)
  else error x = ERROR_INVALID /\ record_of p' uid sid true = mkFailureRecord sid timestamp 1
       /\ vrs_auth_token (body x) = SizedBuffer_null.

Lemma Verify_fresh uid sid salt enrolled provided challenge timestamp pw p :
  is_uint 64 sid -> is_uint 64 salt -> record_of p uid sid true = mkFailureRecord sid 0 0 ->
  sb_buffer pw <> None -> password_ok pw -> buffer_bytes pw = Some provided ->
  gives False (Verify timestamp
      (mkMessage ERROR_NONE uid 0
        (mkVerifyRequest challenge (SizedBuffer_of (handle_for sid salt enrolled)) pw))
      (mkMessage ERROR_NONE 0 0 VerifyResponse_new)) p
    (verified uid sid salt challenge timestamp enrolled provided).
Proof using Hkey Hne Hsign Hget Hwrite Hclear HP.
  intros Hsid Hsalt Hr Hb Hok Hbytes. unfold Verify. simpl.
  destruct (sb_buffer pw) eqn:Epw; [|done].
  set (metadata := handle_metadata HANDLE_VERSION sid HANDLE_FLAG_THROTTLE_SECURE).
  assert (H8 : is_uint 8 HANDLE_VERSION) by (unfold is_uint, HANDLE_VERSION; lia).
  assert (H1 : is_uint 64 HANDLE_FLAG_THROTTLE_SECURE)
    by (unfold is_uint, HANDLE_FLAG_THROTTLE_SECURE; lia).
  pose proof (sign_length (metadata ++ enrolled) salt p) as Hl.
  destruct (handle_fields HANDLE_VERSION sid HANDLE_FLAG_THROTTLE_SECURE salt
    (sign (metadata ++ enrolled) salt) IsHardwareBacked H8 Hsid H1 Hsalt Hl) as (Ev & Eu & Ef & _).
  unfold handle_for. fold metadata. rewrite Ev, Eu, Ef.
  apply gives_bind, gives_ret. simpl. do 2 apply gives_bind, gives_ret.
  change (negb _) with true. apply gives_bind. eapply gives_mono; [by apply throttle_block_fresh|]. intros a p1 [-> Hr1]. apply gives_bind.
  eapply (DoVerify_gives False _ _ _ _ _ _ _ _ provided); try done; rewrite Hkey.
  { intros [?|[?|[= ?]]]; congruence. }
  intros key' [= <-] _. rewrite Hsign. fold metadata. unfold verified. fold metadata.
  destruct (bool_decide (_ = _)); [|by apply gives_ret].
  apply gives_bind, MintAuthToken_gives. intros hmac. apply gives_bind, gives_call.
  intros ok p2 Hc. destruct (Hclear uid sid true p1) as [p2' Hc']. rewrite Hc in Hc'.
  injection Hc' as -> ->. apply clear_record in Hc. apply gives_ret. split; [done|].
  split; [done|]. by exists hmac.
Qed.

(** C24: An enrolled password verifies, and only what signs alike does: after a
    fresh enrollment, [Verify] with the new handle issues a token for the new
    secure user id and clears the failure record if the signature of the
    provided password is that of the enrolled one, and otherwise answers
    [ERROR_INVALID] without a token and counts the failure.  The secure user id
    is the first value drawn; the authenticator id of a token is 0.  The password
    key and the signature function are fixed, and the storage of the failure
    records does not fail. *)
Theorem Enroll_Verify uid challenge t1 t2 enrolled provided e0 p bytes bytes' :
  sb_buffer enrolled <> None -> password_ok enrolled -> buffer_bytes enrolled = Some bytes ->
  sb_buffer provided <> None -> password_ok provided -> buffer_bytes provided = Some bytes' ->
  let sid := fst (GetRandom p) in
  exists x p1 y p2 salt,
    Enroll t1 (mkMessage ERROR_NONE uid 0 (mkEnrollRequest SizedBuffer_null SizedBuffer_null enrolled))
      e0 p = Some (x, p1)
    /\ Verify t2 (mkMessage ERROR_NONE uid 0
         (mkVerifyRequest challenge (ers_enrolled_password_handle (body x)) provided))
         (mkMessage ERROR_NONE 0 0 VerifyResponse_new) p1 = Some (y, p2)
    /\ error x = error e0
    /\ ers_enrolled_password_handle (body x) = SizedBuffer_of (handle_for sid salt bytes)
    /\ verified uid sid salt challenge t2 bytes bytes' y p2.
Proof using Hkey Hne Hsign Hrandom Hget Hwrite Hclear HP.
  intros He1 He2 He3 Hp1 Hp2 Hp3 sid.
  pose proof (Enroll_fresh t1 (mkMessage ERROR_NONE uid 0
    (mkEnrollRequest SizedBuffer_null SizedBuffer_null enrolled)) e0 p bytes) as Hen.
  specialize (Hen eq_refl He1 He2 He3). cbv zeta in Hen. fold sid in Hen. unfold gives in Hen.
  destruct (Enroll _ _ _ _) as [[x p1]|]; [|done].
  destruct Hen as (salt & Hsid & Hsalt & -> & Hrec). simpl in Hrec.
  pose proof (Verify_fresh uid sid salt bytes bytes' challenge t2 provided p1 Hsid Hsalt Hrec
    Hp1 Hp2 Hp3) as Hv. unfold gives in Hv.
  destruct (Verify _ _ _ p1) as [[y p2]|] eqn:E; [|done].
  by exists (mkMessage (error e0) (user_id e0) (retry_timeout e0)
    (mkEnrollResponse (SizedBuffer_of (handle_for sid salt bytes)))), p1, y, p2, salt.
Qed.

End Enrolling.

(** ** Changing a password *)

Section Changing.
Context {P : Type} `{Platform P} `{HwAuthToken} `{Verifier P}.

Lemma throttle_block_body {S} uid sid timestamp secure (response : Message S) p :
  gives True (throttle_block uid sid timestamp secure response) p
    (fun res _ => match res with inl x => body x = body response | _ => True end).
Proof using.
  unfold throttle_block. apply gives_bind, gives_call. intros [r|] p1 _; [|by apply gives_ret].
  apply gives_bind. eapply gives_mono with (Q := fun '(_, x) _ => body x = body response).
  { unfold ThrottleRequest. destruct (0 <? _); [|by apply gives_ret].
    destruct (_ && _); [by apply gives_ret|]. destruct (_ <=? _); [|by apply gives_ret].
    apply gives_bind, gives_call. intros [] p2 _; by apply gives_ret. }
  intros [[] x] p2 Hx; [by apply gives_ret|]. unfold IncrementFailureRecord.
  apply gives_bind, gives_bind, gives_call. intros [] p3 _; by apply gives_ret, gives_ret.
Qed.

(** [Enroll_check] with a handle passes only with the old password. *)
Lemma Enroll_check_old timestamp request response p h :
  sb_buffer (erq_password_handle (body request)) = Some h ->
  gives True (Enroll_check timestamp request response) p (fun res p' =>
    match res with
    | inl x => body x = body response
    | inr sid => handle_user_id h = Some sid
        /\ exists p1, DoVerify h (erq_enrolled_password (body request)) p1 = Some (true, p')
    end).
Proof using.
  intros Hh. unfold Enroll_check. rewrite Hh. apply gives_bind, gives_demand; [done|].
  intros v _. destruct (_ <? v); [by apply gives_ret|].
  apply gives_bind, gives_demand; [done|]. intros sid Hsid. apply gives_bind.
  assert (Hblock : forall secure,
    gives True (throttle_block (user_id request) sid timestamp secure response) p
      (fun res _ => match res with inl x => body x = body response | _ => True end))
    by (intros; apply throttle_block_body).
  eapply gives_mono with (Q := fun res _ =>
    match res with inl x => body x = body response | _ => True end).
  { destruct (_ <=? v); [|by apply gives_ret]. apply gives_bind, gives_demand; [done|].
    intros flags _. apply Hblock. }
  intros [x|t] p1 Hx; [by apply gives_ret|].
  apply gives_bind. unfold gives at 1.
  destruct (DoVerify h _ p1) as [[[] p2]|] eqn:Ev; [|simpl|done].
  - apply gives_ret. split; [done|]. by exists p1.
  - by destruct (_ && _); apply gives_ret.
Qed.

(** [b] holds a new handle for the secure user id of [h], whose password was
    presented. *)
Definition handle_changed (h : list Z) (request : Message EnrollRequest) (b : SizedBuffer) : Prop :=
  exists sid flags salt sig p1 p2,
    handle_user_id h = Some sid
    /\ DoVerify h (erq_enrolled_password (body request)) p1 = Some (true, p2)
    /\ b = SizedBuffer_of (password_handle HANDLE_VERSION sid flags salt sig IsHardwareBacked).

(** C26: A password is changed only by who knows it: if [Enroll] is given a
    handle and answers with a new one, then [DoVerify] has accepted the current
    password against the old handle, and the new handle carries the same
    secure user id.  Any other request leaves the response without a handle. *)
Theorem Enroll_needs_old_password timestamp request response p x p' h :
  sb_buffer (erq_password_handle (body request)) = Some h ->
  Enroll timestamp request response p = Some (x, p') ->
  body x = body response
  \/ handle_changed h request (ers_enrolled_password_handle (body x)).
Proof using.
  intros Hh Hrun. assert (Hg : gives True (Enroll timestamp request response) p (fun x _ =>
    body x = body response \/ handle_changed h request (ers_enrolled_password_handle (body x)))).
  2: { unfold gives in Hg. by rewrite Hrun in Hg. }
  unfold Enroll. destruct (sb_buffer (erq_provided_password _)); [|apply gives_ret; by left].
  apply gives_bind. eapply gives_mono; [by apply Enroll_check_old|].
  intros [y|sid] p1 Hres; [apply gives_ret; by left|]. destruct Hres as [Hsid [p0 Hv]].
  apply gives_bind, gives_call. intros cleared p2 _. apply gives_bind.
  apply gives_any; [done|]. intros flags p3. apply gives_bind, gives_call. intros salt p4 _.
  unfold CreatePasswordHandle. apply gives_bind, gives_bind, gives_demand; [done|].
  intros bytes _. destruct (_ <? _); [done|]. apply gives_bind, gives_ask.
  destruct (GetPasswordKey p4) as [[|]|];
    [apply gives_ret, gives_ret; by left| |apply gives_ret, gives_ret; by left].
  apply gives_bind, gives_ask, gives_ret, gives_ret. right. unfold handle_changed. simpl. eauto 10.
Qed.

End Changing.

(** ** Timeouts and bounds *)

(** From the tenth failure on every guess has to wait at least 30 seconds,
    the waiting time never decreases with the number of failures, and it never
    exceeds a day. *)
Theorem ComputeRetryTimeout_monotone r r' :
  10 <= failure_counter r <= failure_counter r' ->
  30000 <= ComputeRetryTimeout r <= ComputeRetryTimeout r'
  /\ ComputeRetryTimeout r' <= DAY_IN_MS.
Proof.
  intros Hc. split; [|apply ComputeRetryTimeout_bounds].
  assert (Hform : forall c, 10 <= failure_counter c -> ComputeRetryTimeout c =
    if failure_counter c <? 30 then 30000
    else if failure_counter c <? 140 then 30000 * 2 ^ ((failure_counter c - 30) / 10)
    else DAY_IN_MS).
  { intros c Hf. unfold ComputeRetryTimeout. destruct (Z.eqb_spec (failure_counter c) 0); [lia|].
    destruct (Z.ltb_spec (failure_counter c) 30); [|].
    - destruct (_ && _) eqn:E; [|done]. assert (failure_counter c = 10) as -> by lia. done.
    - destruct (_ && _) eqn:E; [lia|]. destruct (Z.ltb_spec (failure_counter c) 140); [|done].
      apply Z.shiftl_mul_pow2, Z.div_pos; lia. }
  assert (Hpow : forall x, 30 <= x < 140 -> 1 <= 2 ^ ((x - 30) / 10) <= 2 ^ 10).
  { intros x Hx. assert (0 <= (x - 30) / 10 <= 10).
    { split; [apply Z.div_pos; lia|]. apply Z.lt_succ_r, Z.div_lt_upper_bound; lia. }
    split; [apply (Z.pow_le_mono_r 2 0)|apply Z.pow_le_mono_r]; lia. }
  rewrite !Hform by lia. unfold DAY_IN_MS.
  destruct (Z.ltb_spec (failure_counter r) 30), (Z.ltb_spec (failure_counter r') 30); try lia;
    destruct (Z.ltb_spec (failure_counter r') 140); try lia.
  - pose proof (Hpow (failure_counter r') ltac:(lia)). lia.
  - destruct (Z.ltb_spec (failure_counter r) 140); [|lia].
    pose proof (Hpow (failure_counter r) ltac:(lia)).
    pose proof (Z.div_le_mono (failure_counter r - 30) (failure_counter r' - 30) 10).
    pose proof (Z.pow_le_mono_r 2 ((failure_counter r - 30) / 10) ((failure_counter r' - 30) / 10)).
    lia.
  - destruct (Z.ltb_spec (failure_counter r) 140); [|lia].
    pose proof (Hpow (failure_counter r) ltac:(lia)). lia.
Qed.

Lemma ComputeRetryTimeout_monotone_witness :
  30000 <= ComputeRetryTimeout (mkFailureRecord 1 0 10)
        <= ComputeRetryTimeout (mkFailureRecord 1 0 139)
  /\ ComputeRetryTimeout (mkFailureRecord 1 0 139) <= DAY_IN_MS.
Proof. apply ComputeRetryTimeout_monotone. simpl. lia. Defined.

(** The comment on [ComputeRetryTimeout] gives no timeout for a counter of
    10 and the values in seconds; the code returns 30 000 ms there. *)
Lemma ComputeRetryTimeout_ten sid last :
  ComputeRetryTimeout (mkFailureRecord sid last 9) = 0
  /\ ComputeRetryTimeout (mkFailureRecord sid last 10) = 30000
  /\ ComputeRetryTimeout (mkFailureRecord sid last 11) = 30000.
Proof. done. Qed.

Section Safety.
Context {P : Type} `{HP : PlatformOk P} `{HwAuthToken}.
#[local] Existing Instance base_verifier.

Lemma field_Some off n l : 0 <= off -> 0 <= n -> off + n <= zlen l ->
  exists x, field off n l = Some x /\ zlen x = n.
Proof using.
  intros Ho Hn Hl. unfold field. destruct (fetch_Some off l) as [[a r] E]; [lia|].
  rewrite E. simpl. apply fetch_rest in E; [|done].
  unfold fetch. destruct (Z.leb_spec n (zlen r)); [|lia]. eexists. split; [done|].
  unfold zlen in *. rewrite length_take. lia.
Qed.

Lemma demand_field {A} U off n (f : list Z -> A) h p (Q : A -> P -> Prop) :
  0 <= off -> 0 <= n -> off + n <= zlen h -> (forall a, Q a p) ->
  gives U (demand (f <$> field off n h)) p Q.
Proof using.
  intros Ho Hn Hl HQ. destruct (field_Some off n h) as (x & -> & _); [lia..|]. apply HQ.
Qed.

Lemma DoVerify_defined h pw p :
  57 <= zlen h -> password_ok pw -> gives False (GateKeeper_DoVerify h pw) p (fun _ _ => True).
Proof using HP.
  intros Hh Hpw. unfold GateKeeper_DoVerify. destruct (sb_buffer pw); [|by apply gives_ret].
  do 4 (apply gives_bind, demand_field; [lia..|]; intros ?). apply gives_bind.
  destruct (buffer_bytes_ok pw (proj1 Hpw)) as (bytes & Hb & _).
  eapply CreatePasswordHandle_gives; [done|done|by intros; apply gives_ret|].
  intros key _ _. apply gives_bind, gives_demand; [|intros s1 _].
  - unfold handle_signature. destruct (field_Some 25 32 (password_handle a2 a0 a1 a
      (ComputePasswordSignature p key (handle_metadata a2 a0 a1 ++ bytes) a) IsHardwareBacked))
      as (x & -> & _); [lia|lia| |done].
    unfold password_handle, handle_metadata. rewrite !zlen_app, !zlen_le_bytes, signature_length.
    by vm_compute.
  - apply gives_bind, gives_demand; [|by intros; apply gives_ret].
    unfold handle_signature. by destruct (field_Some 25 32 h) as (x & -> & _); [lia..|].
Qed.

(** C39: [Verify] stays within its buffers for every handle of at least 57
    bytes, the size of the fields it reads, and every password that fits
    behind the signed metadata, whatever the platform answers. *)
Theorem Verify_safe timestamp request response p h :
  sb_buffer (vrq_password_handle (body request)) = Some h -> 57 <= zlen h ->
  password_ok (vrq_provided_password (body request)) ->
  Verify timestamp request response p <> None.
Proof using HP.
  intros Hh Hlen Hpw E. assert (Hg : gives False (Verify timestamp request response) p (fun _ _ => True)).
  2: { unfold gives in Hg. by rewrite E in Hg. }
  clear E. unfold Verify. rewrite Hh.
  destruct (sb_buffer (vrq_provided_password _)); [|by apply gives_ret].
  apply gives_bind, demand_field; [lia..|]. intros v. destruct (_ <? v); [by apply gives_ret|].
  do 2 (apply gives_bind, demand_field; [lia..|]; intros ?). apply gives_bind.
  eapply gives_mono with (Q := fun _ _ => True).
  { destruct (_ <=? v); [|by apply gives_ret]. eapply gives_mono; [apply throttle_block_case|done]. }
  intros [x|t] p1 _; [by apply gives_ret|]. apply gives_bind.
  eapply gives_mono; [by apply DoVerify_defined|]. intros [] p2 _.
  - apply gives_bind, MintAuthToken_gives. intros hmac. apply gives_bind.
    destruct (_ <=? v); [apply gives_call; intros ? ? _|]; by apply gives_ret.
  - by destruct (_ && _); apply gives_ret.
Qed.

(** The length of a handle is not checked: with any platform, a handle of
    version 2 cut after five bytes is read past its end. *)
Lemma short_handle_overread timestamp uid challenge password response p :
  sb_buffer password <> None ->
  Verify timestamp (mkMessage ERROR_NONE uid 0
    (mkVerifyRequest challenge (SizedBuffer_of [2; 0; 0; 0; 0]) password)) response p = None.
Proof using. intros Hpw. unfold Verify. simpl. by destruct (sb_buffer password). Qed.

End Safety.
