(* ===== verification/SoftGatekeeper.v ===== *)
(** * SoftGatekeeper: the software gatekeeper

    core/gatekeeperd/SoftGateKeeper.h and SoftGateKeeperDevice.cpp: the
    platform functions over two in-memory maps, the [DoVerify] that caches a
    fast hash per secure user id, and the device functions around [Enroll] and
    [Verify].  scrypt, SHA-256 and the random generator are parameters.

    The file shows that the platform keeps the promises of [PlatformOk] and
    [VerifierOk], instantiates the theorems of Gatekeeper with it, and proves
    what the cache does when a password is changed. *)
From S2P Require Import Prelude Bytes GatekeeperMessages Gatekeeper.

Class SoftCrypto := {
  crypto_scrypt : list Z -> list Z -> list Z;
  SHA256 : list Z -> list Z;
  RAND_pseudo_bytes : nat -> Z;
}.

Record fast_hash := mkFastHash { fh_salt : Z; fh_digest : list Z }.

(** The members of [SoftGateKeeper]; [draws] is the number of random values
    taken so far. *)
Record SoftGateKeeper := mkSoft {
  failure_map : gmap Z failure_record;
  fast_hash_map : gmap Z fast_hash;
  draws : nat;
}.

Definition SoftGateKeeper_new : SoftGateKeeper := mkSoft ∅ ∅ 0.

Definition SIGNATURE_LENGTH_BYTES : Z := 32.

(** [key_], zeroed by the constructor. *)
Definition key_ : list Z := replicate (Z.to_nat SIGNATURE_LENGTH_BYTES) 0.

(** [failure_map_[uid]]: a missing entry is created zeroed. *)
Definition stored_record (uid : Z) (p : SoftGateKeeper) : failure_record :=
  default (mkFailureRecord 0 0 0) (failure_map p !! uid).

Definition set_record (uid : Z) (r : failure_record) (p : SoftGateKeeper) : SoftGateKeeper :=
  mkSoft (<[uid := r]> (failure_map p)) (fast_hash_map p) (draws p).

Definition Soft_GetFailureRecord (uid sid : Z) (_ : bool) (p : SoftGateKeeper)
    : option failure_record * SoftGateKeeper :=
  let stored := stored_record uid p in
  let stored := if negb (sid =? secure_user_id stored) then mkFailureRecord sid 0 0 else stored in
  (Some stored, set_record uid stored p).

Definition Soft_ClearFailureRecord (uid sid : Z) (_ : bool) (p : SoftGateKeeper)
    : bool * SoftGateKeeper := (true, set_record uid (mkFailureRecord sid 0 0) p).

Definition Soft_WriteFailureRecord (uid : Z) (record : failure_record) (_ : bool)
    (p : SoftGateKeeper) : bool * SoftGateKeeper := (true, set_record uid record p).

Section Soft.
Context `{SoftCrypto} `{HwAuthToken}.

Definition Soft_GetRandom (p : SoftGateKeeper) : Z * SoftGateKeeper :=
  (u64 (RAND_pseudo_bytes (draws p)), mkSoft (failure_map p) (fast_hash_map p) (S (draws p))).

#[export] Instance soft_platform : Platform SoftGateKeeper := {|
  GetAuthTokenKey _ := Some key_;
  GetPasswordKey _ := Some key_;
  ComputePasswordSignature _ _ password salt := crypto_scrypt password (le_bytes 8 salt);
  ComputeSignature _ _ _ := replicate 32 0;
  GetRandom := Soft_GetRandom;
  GetFailureRecord := Soft_GetFailureRecord;
  ClearFailureRecord := Soft_ClearFailureRecord;
  WriteFailureRecord := Soft_WriteFailureRecord;
  IsHardwareBacked := false;
|}.

Definition ComputeFastHash (password : SizedBuffer) (salt : Z) : option fast_hash :=
  bytes ← buffer_bytes password;
  Some (mkFastHash salt (SHA256 (le_bytes 8 salt ++ bytes))).

Definition VerifyFast (fh : fast_hash) (password : SizedBuffer) : option bool :=
  computed ← ComputeFastHash password (fh_salt fh);
  Some (bool_decide (fh_digest computed = fh_digest fh)).

Definition cache_hash (sid : Z) (fh : fast_hash) (p : SoftGateKeeper) : SoftGateKeeper :=
  mkSoft (failure_map p) (<[sid := fh]> (fast_hash_map p)) (draws p).

(** [SoftGateKeeper::DoVerify] *)
Definition Soft_DoVerify (expected_handle : list Z) (password : SizedBuffer)
    : G SoftGateKeeper bool :=
  user_id ← demand (handle_user_id expected_handle);
  cached ← ask (fun p => fast_hash_map p !! user_id);
  fast ← match cached with
         | Some fh => demand (VerifyFast fh password)
         | None => mret false
         end;
  if fast : bool then mret true
  else
    ok ← GateKeeper_DoVerify expected_handle password;
    if ok : bool then
      salt ← call GetRandom;
      fh ← demand (ComputeFastHash password salt);
      _ ← call (fun p => ((), cache_hash user_id fh p));
      mret true
    else mret false.

#[export] Instance soft_verifier : Verifier SoftGateKeeper := Soft_DoVerify.

(** ** The device *)

(** [SizedBuffer(length)] filled from a pointer of that many bytes. *)
Definition copied (l : list Z) : SizedBuffer :=
  if zlen l =? 0 then SizedBuffer_null else SizedBuffer_of l.

Definition EINVAL : Z := 22.

(** [SoftGateKeeperDevice::enroll] with non-null output pointers; a null
    pointer is [None].  The result is the return value and the handle. *)
Definition enroll (timestamp uid : Z) (current_password_handle current_password desired_password
    : option (list Z)) : G SoftGateKeeper (Z * option (list Z)) :=
  match desired_password with
  | None | Some [] => mret (- EINVAL, None)
  | Some desired =>
      let '(handle, current) :=
        match current_password_handle, current_password with
        | Some (h :: hs), Some (c :: cs) => (copied (h :: hs), copied (c :: cs))
        | _, _ => (SizedBuffer_null, SizedBuffer_null)
        end in
      response ← Enroll timestamp
        (mkMessage ERROR_NONE uid 0 (mkEnrollRequest handle current (copied desired)))
        (mkMessage ERROR_NONE 0 0 EnrollResponse_new);
      if error response =? ERROR_RETRY then mret (retry_timeout response, None)
      else if negb (error response =? ERROR_NONE) then mret (- EINVAL, None)
      else mret (0, sb_buffer (ers_enrolled_password_handle (body response)))
  end.

(** [SoftGateKeeperDevice::verify]: the return value, the token and the
    re-enroll request. *)
Definition verify (timestamp uid challenge : Z) (enrolled_password_handle provided_password
    : option (list Z)) : G SoftGateKeeper (Z * option (list Z) * Z) :=
  match enrolled_password_handle, provided_password with
  | Some handle, Some provided =>
      response ← Verify timestamp
        (mkMessage ERROR_NONE uid 0 (mkVerifyRequest challenge (copied handle) (copied provided)))
        (mkMessage ERROR_NONE 0 0 VerifyResponse_new);
      if error response =? ERROR_RETRY then mret (retry_timeout response, None, 0)
      else if negb (error response =? ERROR_NONE) then mret (- EINVAL, None, 0)
      else mret (0, sb_buffer (vrs_auth_token (body response)), vrs_request_reenroll (body response))
  | _, _ => mret (- EINVAL, None, 0)
  end.

End Soft.

(** ** The platform keeps its promises *)

Section Promises.
Context `{SoftCrypto} `{HwAuthToken}.
Context (Hscrypt : forall msg salt, zlen (crypto_scrypt msg salt) = 32).

(** The record of a user: another user's record counts as none. *)
Definition soft_record (p : SoftGateKeeper) (uid sid : Z) (_ : bool) : failure_record :=
  let stored := stored_record uid p in
  if negb (sid =? secure_user_id stored) then mkFailureRecord sid 0 0 else stored.

Lemma stored_set uid r p : stored_record uid (set_record uid r p) = r.
Proof using. unfold stored_record, set_record. simpl. by rewrite lookup_insert_eq. Qed.

Lemma soft_record_set uid sid secure r p :
  secure_user_id r = sid -> soft_record (set_record uid r p) uid sid secure = r.
Proof using.
  intros E. unfold soft_record. rewrite stored_set, E. by rewrite Z.eqb_refl.
Qed.

Lemma soft_record_user p uid sid secure : secure_user_id (soft_record p uid sid secure) = sid.
Proof using. unfold soft_record. destruct (Z.eqb_spec sid (secure_user_id (stored_record uid p))); by simpl. Qed.

#[export] Program Instance soft_platform_ok : PlatformOk SoftGateKeeper := {|
  record_of := soft_record;
  record_of_user := soft_record_user;
|}.
Next Obligation.
  intros uid sid secure p r p' [= <- <-].
  fold (soft_record p uid sid secure). rewrite soft_record_set by apply soft_record_user.
  split; [done|]. by intros record [= <-].
Qed.
Next Obligation. intros uid r secure p ok p' [= <- <-]. by apply soft_record_set. Qed.
Next Obligation. intros uid sid secure p p' [= <-]. by apply soft_record_set. Qed.
Next Obligation. intros. apply Hscrypt. Qed.

Lemma GateKeeper_DoVerify_state h pw p :
  gives True (GateKeeper_DoVerify h pw) p (fun _ p' => p' = p).
Proof using.
  unfold GateKeeper_DoVerify. destruct (sb_buffer pw); [|by apply gives_ret].
  do 4 (apply gives_bind, gives_demand; [done|]; intros ? _).
  unfold CreatePasswordHandle. apply gives_bind, gives_bind, gives_demand; [done|]. intros bytes _.
  destruct (_ <? _); [done|]. do 2 apply gives_bind, gives_ask. apply gives_ret.
  do 2 (apply gives_bind, gives_demand; [done|]; intros ? _). by apply gives_ret.
Qed.

Lemma Soft_DoVerify_records h pw p :
  gives True (Soft_DoVerify h pw) p (fun _ p' => failure_map p' = failure_map p).
Proof using.
  unfold Soft_DoVerify. apply gives_bind, gives_demand; [done|]. intros u _.
  apply gives_bind, gives_ask, gives_bind.
  eapply gives_mono with (Q := fun _ p' => p' = p).
  { destruct (fast_hash_map p !! u); [apply gives_demand; [done|by intros]|by apply gives_ret]. }
  intros [] p1 ->; [by apply gives_ret|]. apply gives_bind.
  eapply gives_mono; [apply GateKeeper_DoVerify_state|]. intros [] p1 ->; [|by apply gives_ret].
  apply gives_bind, gives_call. intros salt p1 E1.
  injection E1 as _ <-. apply gives_bind, gives_demand; [done|]. intros fh _.
  apply gives_bind, gives_call. intros x p2 E2. injection E2 as _ <-. by apply gives_ret.
Qed.

#[export] Instance soft_verifier_ok : VerifierOk SoftGateKeeper.
Proof using.
  intros h pw p b p' E uid sid secure. pose proof (Soft_DoVerify_records h pw p) as Hg.
  unfold gives in Hg. change (Soft_DoVerify h pw p) with (DoVerify h pw p) in Hg.
  rewrite E in Hg. simpl. unfold soft_record, stored_record. by rewrite Hg.
Qed.

End Promises.

(** ** A concrete run *)

Module Demo.

(** A toy hash: the reversed message, padded to 32 bytes. *)
Definition toy_hash (msg : list Z) : list Z := take 32 (rev msg ++ replicate 32 0).
#[global] Instance toy_crypto : SoftCrypto := {|
  crypto_scrypt msg _ := toy_hash msg;
  SHA256 := toy_hash;
  RAND_pseudo_bytes n := Z.of_nat n + 100;
|}.
#[global] Instance toy_token : HwAuthToken := {|
  HW_AUTH_TOKEN_VERSION := 0;
  HW_AUTH_PASSWORD := 1;
  token_fields v c u a t ts :=
    le_bytes 1 v ++ le_bytes 8 c ++ le_bytes 8 u ++ le_bytes 8 a ++ le_bytes 4 t ++ le_bytes 8 ts;
|}.

Lemma toy_hash_length (msg salt : list Z) : zlen (crypto_scrypt msg salt) = 32.
Proof. unfold zlen. simpl. unfold toy_hash. rewrite length_take, length_app, length_replicate. lia. Qed.

#[global] Instance toy_ok : PlatformOk SoftGateKeeper := soft_platform_ok toy_hash_length.

Definition old_password : list Z := [49; 50; 51; 52].
Definition new_password : list Z := [53; 54; 55; 56].

(** A reboot of a device with the same functions whose failure records, unlike
    those of [SoftGateKeeper], are in persistent storage. *)
Definition keep_records (p : SoftGateKeeper) : SoftGateKeeper := mkSoft (failure_map p) ∅ (draws p).

(** The handle for a password of secure user 100. *)
Definition old_handle : list Z :=
  password_handle 2 100 1 101 (toy_hash (handle_metadata 2 100 1 ++ old_password)) false.

Definition guess_of (password : list Z) : Message VerifyRequest :=
  mkMessage ERROR_NONE 10 0
    (mkVerifyRequest 0 (SizedBuffer_of old_handle) (SizedBuffer_of password)).

End Demo.

(** ** Properties *)

Lemma password_ok_of l : zlen l < 2 ^ 32 - 17 -> password_ok (SizedBuffer_of l).
Proof.
  intros Hl. pose proof (zlen_nonneg l). unfold password_ok, buffer_ok, is_uint. simpl.
  split; [|lia]. split; [lia|]. right. by exists l.
Qed.

Lemma old_handle_throttled : throttled Demo.old_handle 100 true.
Proof. split; [by exists 2|done|by exists 1]. Qed.

(** Five wrong passwords; a sixth one comes too early, as does one after a
    reboot, which starts the timeout again; then one is evaluated. *)
Lemma guesses_take_time_witness :
  let wrong := [mkVisit 0 1000 (Demo.guess_of [1]); mkVisit 0 2000 (Demo.guess_of [2]);
    mkVisit 0 3000 (Demo.guess_of [3]); mkVisit 0 4000 (Demo.guess_of [4]); mkVisit 0 5000 (Demo.guess_of [5])] in
  let vs := wrong ++ [mkVisit 0 6000 (Demo.guess_of [6]); mkVisit 7000 8000 (Demo.guess_of [7]);
    mkVisit 7000 38000 (Demo.guess_of [8])] in
  exists xs p', verify_all Demo.keep_records 0 vs SoftGateKeeper_new = Some (xs, p')
  /\ exists calls, verify_all (logged_reboot Demo.keep_records) 0 vs (mkLogged SoftGateKeeper_new []) = Some (xs, mkLogged p' calls)
     /\ total_timeout 0 (length calls) <= last_time 0 vs - 0
     /\ failure_counter (record_of p' 10 100 true) = 0 + Z.of_nat (length calls)
     /\ length calls = 6%nat.
Proof.
  intros wrong vs. do 2 eexists. split; [vm_compute; reflexivity|].
  assert (Hthm := guesses_take_time Demo.keep_records true (fun p uid sid => eq_refl) Demo.old_handle 10 100 vs 0 0 SoftGateKeeper_new).
  cbv zeta in Hthm. change (failure_counter (record_of SoftGateKeeper_new 10 100 true)) with 0 in Hthm.
  edestruct Hthm as (calls & Hrun & Hsum & Hcount).
  - apply old_handle_throttled.
  - unfold vs, wrong. cbn [schedule boot now app]. lia.
  - repeat (apply List.Forall_cons; [split; reflexivity|]). apply List.Forall_nil.
  - by vm_compute.
  - by vm_compute.
  - by vm_compute.
  - by vm_compute.
  - vm_compute. reflexivity.
  - repeat (apply List.Forall_cons; [reflexivity|]). apply List.Forall_nil.
  - exists calls. split; [exact Hrun|]. split; [exact Hsum|]. split; [exact Hcount|].
    apply Nat2Z.inj. rewrite <- (Z.add_0_l (Z.of_nat (length calls))). rewrite <- Hcount. reflexivity.
Defined.

(** The failure records of the software gatekeeper are in memory: what a restart
    of the daemon leaves of them does not meet the hypothesis. *)
Lemma restart_forgets_failures :
  exists p, failure_counter (record_of p 10 100 true) = 5
    /\ failure_counter (record_of SoftGateKeeper_new 10 100 true) = 0.
Proof. exists (mkSoft {[10 := mkFailureRecord 100 5000 5]} ∅ 0). split; reflexivity. Qed.

Lemma Enroll_Verify_witness :
  exists x p1 y p2 salt,
    Enroll (P := SoftGateKeeper) (H1 := base_verifier) 5
      (mkMessage ERROR_NONE 10 0 (mkEnrollRequest SizedBuffer_null SizedBuffer_null
        (SizedBuffer_of Demo.old_password)))
      (mkMessage ERROR_NONE 0 0 EnrollResponse_new) SoftGateKeeper_new = Some (x, p1)
    /\ Verify (P := SoftGateKeeper) (H1 := base_verifier) 9 (mkMessage ERROR_NONE 10 0
         (mkVerifyRequest 7 (ers_enrolled_password_handle (body x))
           (SizedBuffer_of Demo.new_password)))
         (mkMessage ERROR_NONE 0 0 VerifyResponse_new) p1 = Some (y, p2)
    /\ error x = ERROR_NONE
    /\ ers_enrolled_password_handle (body x)
       = SizedBuffer_of (handle_for (fun msg _ => Demo.toy_hash msg) 100 salt Demo.old_password)
    /\ verified (fun msg _ => Demo.toy_hash msg) 10 100 salt 7 9 Demo.old_password
         Demo.new_password y p2.
Proof.
  refine (Enroll_Verify key_ (fun msg _ => Demo.toy_hash msg) _ _ _ _ _ _ _ 10 7 5 9
            (SizedBuffer_of Demo.old_password) (SizedBuffer_of Demo.new_password)
            (mkMessage ERROR_NONE 0 0 EnrollResponse_new) SoftGateKeeper_new
            Demo.old_password Demo.new_password _ _ _ _ _ _); try done.
  - intros p x p' [= <- <-]. split; [by apply uint_range|done].
  - intros uid sid secure p. by do 2 eexists.
  - intros uid r secure p. by eexists.
  - intros uid sid secure p. by eexists.
  - by apply password_ok_of.
  - by apply password_ok_of.
Defined.

Lemma Enroll_needs_old_password_witness :
  let request := mkMessage ERROR_NONE 10 0 (mkEnrollRequest (SizedBuffer_of Demo.old_handle)
    (SizedBuffer_of Demo.old_password) (SizedBuffer_of Demo.new_password)) in
  let response := mkMessage ERROR_NONE 0 0 EnrollResponse_new in
  exists x p', Enroll 5 request response SoftGateKeeper_new = Some (x, p')
    /\ (body x = body response
        \/ handle_changed (P := SoftGateKeeper) Demo.old_handle request
             (ers_enrolled_password_handle (body x))).
Proof.
  intros request response. do 2 eexists. split; [vm_compute; reflexivity|].
  eapply (Enroll_needs_old_password 5 request response SoftGateKeeper_new _ _ Demo.old_handle).
  - reflexivity.
  - vm_compute. reflexivity.
Defined.

Lemma Verify_safe_witness :
  Verify (P := SoftGateKeeper) (H1 := base_verifier) 5 (Demo.guess_of [1])
    (mkMessage ERROR_NONE 0 0 VerifyResponse_new) SoftGateKeeper_new <> None.
Proof.
  eapply (Verify_safe 5 (Demo.guess_of [1]) _ SoftGateKeeper_new Demo.old_handle).
  - reflexivity.
  - by vm_compute.
  - by apply password_ok_of.
Defined.

Section Cache.
Context `{SoftCrypto} `{HwAuthToken}.

(** A password that [DoVerify] accepts is in the cache afterwards. *)
Lemma accepted_is_cached h pw p :
  gives True (Soft_DoVerify h pw) p (fun b p1 => b = true ->
    exists sid fh, handle_user_id h = Some sid /\ fast_hash_map p1 !! sid = Some fh
                   /\ VerifyFast fh pw = Some true).
Proof using.
  unfold Soft_DoVerify. apply gives_bind, gives_demand; [done|]. intros u Hu.
  apply gives_bind, gives_ask, gives_bind.
  eapply gives_mono with (Q := fun fast p1 => p1 = p /\ (fast = true ->
    exists fh, fast_hash_map p !! u = Some fh /\ VerifyFast fh pw = Some true)).
  { destruct (fast_hash_map p !! u) as [fh|]; [|by apply gives_ret].
    apply gives_demand; [done|]. intros [] Hf; [|done]. eauto. }
  intros [] p1 [-> Hfast].
  { apply gives_ret. intros _. destruct (Hfast eq_refl) as (fh & ? & ?). eauto. }
  apply gives_bind. eapply gives_mono; [apply GateKeeper_DoVerify_state|].
  intros [] p1 ->; [|by apply gives_ret]. apply gives_bind, gives_call. intros salt p1 E1.
  injection E1 as _ <-. apply gives_bind, gives_demand; [done|]. intros fh Hfh.
  apply gives_bind, gives_call. intros x p2 E2. injection E2 as _ <-. apply gives_ret. intros _.
  exists u, fh. split; [done|]. split; [apply lookup_insert_eq|]. unfold VerifyFast.
  revert Hfh. unfold ComputeFastHash. destruct (buffer_bytes pw) as [bytes|]; [|done].
  simpl. intros [= <-]. simpl. by rewrite bool_decide_eq_true_2.
Qed.

(** C40: The software gatekeeper accepts a replaced password.  Whatever scrypt
    and SHA-256 are: once a password has been accepted for some handle, it is
    accepted for every handle with the same secure user id, so also for the
    handle of the new password it was used to enroll, in every later state whose
    cache entry for this user id is still the same; the entry is replaced when
    another password of the user id is accepted. *)
Theorem replaced_password_accepted h h' sid pw p p1 p' :
  DoVerify h pw p = Some (true, p1) -> handle_user_id h = Some sid -> handle_user_id h' = Some sid ->
  fast_hash_map p' !! sid = fast_hash_map p1 !! sid -> DoVerify h' pw p' = Some (true, p').
Proof using.
  intros E Hu Hu' Hmap. pose proof (accepted_is_cached h pw p) as Hc. unfold gives in Hc.
  change (Soft_DoVerify h pw p) with (DoVerify h pw p) in Hc. rewrite E in Hc.
  destruct (Hc eq_refl) as (sid' & fh & Hsid & Hfh & Hv). assert (sid' = sid) as -> by congruence.
  change (DoVerify h' pw p') with (Soft_DoVerify h' pw p'). unfold Soft_DoVerify.
  rewrite Hu'. unfold mbind, G_bind, demand, ask. by rewrite Hmap, Hfh, Hv.
Qed.

End Cache.

(** A whole change of password: enroll, change, verify with the old password
    against the new handle, and compare with what the signature says. *)
Definition change_password : G SoftGateKeeper (Z * Z * bool * bool) :=
  '(_, h1) ← enroll 1 10 None None (Some Demo.old_password);
  '(changed, h2) ← enroll 2 10 h1 (Some Demo.old_password) (Some Demo.new_password);
  '(result, token, _) ← verify 3 10 0 h2 (Some Demo.old_password);
  genuine ← GateKeeper_DoVerify (default [] h2) (SizedBuffer_of Demo.old_password);
  mret (changed, result, bool_decide (is_Some token), genuine).

Lemma replaced_password_accepted_witness :
  (exists p, change_password SoftGateKeeper_new = Some (0, 0, true, false, p))
  /\ exists p1, DoVerify Demo.old_handle (SizedBuffer_of Demo.old_password) SoftGateKeeper_new
                = Some (true, p1)
     /\ DoVerify (password_handle 2 100 1 7 (replicate 32 0) false)
          (SizedBuffer_of Demo.old_password) p1 = Some (true, p1).
Proof.
  split; [eexists; vm_compute; reflexivity|]. eexists. split; [vm_compute; reflexivity|].
  eapply (replaced_password_accepted Demo.old_handle _ 100 _ SoftGateKeeper_new).
  - vm_compute. reflexivity.
  - vm_compute. reflexivity.
  - vm_compute. reflexivity.
  - reflexivity.
Defined.

(** A handle that is cut short is read past its end on the device, too. *)
Lemma verify_short_handle p :
  verify 5 10 0 (Some [2; 0; 0; 0; 0]) (Some Demo.old_password) p = None.
Proof. reflexivity. Qed.
