(* ===== verification/AuthorizationSet.v ===== *)
(** * AuthorizationSet: the key parameters of the keystore

    security/keystore/authorization_set.{h,cpp} and the accessors of
    keymaster_tags.h.  A set is the vector of its parameters.  The theorems:
    the comparison is a strict order whose ties are exactly the equal
    parameters, and [Deduplicate], [Union] and [Subtract] are the set
    operations they are named after, up to parameters with an invalid tag. *)
From Stdlib Require Import Sorted.
From S2P Require Import Prelude Bytes.

(** The enumerations of the keymaster HAL. *)
Class KeymasterTypes := {
  TagType_INVALID : Z; TagType_BOOL : Z; TagType_ENUM : Z; TagType_ENUM_REP : Z;
  TagType_UINT : Z; TagType_UINT_REP : Z; TagType_ULONG : Z; TagType_ULONG_REP : Z;
  TagType_DATE : Z; TagType_BIGNUM : Z; TagType_BYTES : Z;
  Tag_INVALID : Z; Tag_ALGORITHM : Z; Tag_USER_SECURE_ID : Z; Tag_NO_AUTH_REQUIRED : Z;
  Tag_AUTH_TIMEOUT : Z; Tag_ALLOW_WHILE_ON_BODY : Z; Tag_USER_AUTH_TYPE : Z;
  Algorithm_RSA : Z; Algorithm_EC : Z; Algorithm_AES : Z;
  KeyPurpose_SIGN : Z; KeyPurpose_DECRYPT : Z;
  HardwareAuthenticatorType_NONE : Z;
}.

(** [KeyParameter]: the tag, the 64 bits of the union and the blob. *)
Record KeyParameter := mkParam {
  kp_tag : Z;
  kp_long : Z;
  kp_blob : list Z;
}.

(** The 32-bit members of the union, on a little-endian machine. *)
Definition kp_integer (p : KeyParameter) : Z := u32 (kp_long p).

Abbreviation AuthorizationSet := (list KeyParameter).

Definition typeFromTag (tag : Z) : Z := Z.land tag 0xf0000000.

(** The sign of [memcmp] on the first [n] bytes. *)
Fixpoint memcmp (n : nat) (a b : list Z) : comparison :=
  match n, a, b with
  | S n, x :: a, y :: b => if x =? y then memcmp n a b else Z.compare x y
  | _, _, _ => Eq
  end.

Section Operations.
Context `{KeymasterTypes}.

(** How the values of two parameters of the same tag are compared. *)
Inductive value_class := no_value | integer_value | long_value | blob_value | unknown_value.

(** The cases of the switch over [typeFromTag]; [dateTime] and [longInteger]
    are the same 64 bits. *)
Definition class_of (tag : Z) : value_class :=
  let t := typeFromTag tag in
  if (t =? TagType_INVALID) || (t =? TagType_BOOL) then no_value
  else if (t =? TagType_ENUM) || (t =? TagType_ENUM_REP) || (t =? TagType_UINT)
          || (t =? TagType_UINT_REP) then integer_value
  else if (t =? TagType_ULONG) || (t =? TagType_ULONG_REP) || (t =? TagType_DATE) then long_value
  else if (t =? TagType_BIGNUM) || (t =? TagType_BYTES) then blob_value
  else unknown_value.

Definition blob_less (a b : list Z) : bool :=
  if (length a =? 0)%nat then negb (length b =? 0)%nat
  else if (length b =? 0)%nat then false
  else
    match memcmp (Nat.min (length a) (length b)) a b with
    | Eq => (length a <? length b)%nat
    | Lt => true
    | Gt => false
    end.

Definition blob_equal (a b : list Z) : bool :=
  if negb (length a =? length b)%nat then false
  else (length a =? 0)%nat
       || match memcmp (length a) a b with Eq => true | _ => false end.

Definition keyParamLess (a b : KeyParameter) : bool :=
  if negb (kp_tag a =? kp_tag b) then kp_tag a <? kp_tag b
  else
    match class_of (kp_tag a) with
    | no_value => false
    | integer_value => kp_integer a <? kp_integer b
    | long_value => kp_long a <? kp_long b
    | blob_value => blob_less (kp_blob a) (kp_blob b)
    | unknown_value => false
    end.

Definition keyParamEqual (a b : KeyParameter) : bool :=
  if negb (kp_tag a =? kp_tag b) then false
  else
    match class_of (kp_tag a) with
    | no_value => true
    | integer_value => kp_integer a =? kp_integer b
    | long_value => kp_long a =? kp_long b
    | blob_value => blob_equal (kp_blob a) (kp_blob b)
    | unknown_value => false
    end.

(** [Sort]: [std::sort] with [keyParamLess].  The order of parameters that
    compare equal is not specified; the model inserts stably. *)
Fixpoint insert_sorted (p : KeyParameter) (l : AuthorizationSet) : AuthorizationSet :=
  match l with
  | [] => [p]
  | q :: l => if keyParamLess q p then q :: insert_sorted p l else p :: q :: l
  end.

Definition Sort (l : AuthorizationSet) : AuthorizationSet := foldr insert_sorted [] l.

(** The loop of [Deduplicate] from [prev] on. *)
Fixpoint dedup_loop (prev : KeyParameter) (rest : AuthorizationSet) : AuthorizationSet :=
  match rest with
  | [] => [prev]
  | curr :: rest =>
      if kp_tag prev =? Tag_INVALID then dedup_loop curr rest
      else if negb (keyParamEqual prev curr) then prev :: dedup_loop curr rest
      else dedup_loop curr rest
  end.

Definition Deduplicate (l : AuthorizationSet) : AuthorizationSet :=
  match Sort l with
  | [] => []
  | first :: rest => dedup_loop first rest
  end.

Definition Union (l other : AuthorizationSet) : AuthorizationSet := Deduplicate (l ++ other).

(** [find]: the position of the next entry with the tag after [begin]. *)
Definition find (l : AuthorizationSet) (tag begin : Z) : Z :=
  match list_find (fun p => kp_tag p = tag) (drop (Z.to_nat (1 + begin)) l) with
  | Some (n, _) => 1 + begin + Z.of_nat n
  | None => -1
  end.

Definition erase_at (l : AuthorizationSet) (pos : nat) : AuthorizationSet :=
  take pos l ++ drop (S pos) l.

(** [erase] *)
Definition erase (l : AuthorizationSet) (index : Z) : bool * AuthorizationSet :=
  if index =? zlen l then (false, l) else (true, erase_at l (Z.to_nat index)).

(** The do loop of [Subtract] for one entry of the other set. *)
Fixpoint subtract_loop (fuel : nat) (l : AuthorizationSet) (p : KeyParameter) (pos : Z)
    : AuthorizationSet :=
  match fuel with
  | O => l
  | S fuel =>
      let pos := find l (kp_tag p) pos in
      if pos =? -1 then l
      else
        match l !! Z.to_nat pos with
        | Some q => if keyParamEqual p q then erase_at l (Z.to_nat pos)
                    else subtract_loop fuel l p pos
        | None => l
        end
  end.

Definition Subtract (l other : AuthorizationSet) : AuthorizationSet :=
  foldl (fun l p => subtract_loop (S (length l)) l p (-1)) (Deduplicate l) other.

(** [Contains], [GetTagCount], [GetEntry] and [GetTagValue]. *)
Definition Contains (l : AuthorizationSet) (tag : Z) : bool := negb (find l tag (-1) =? -1).

Fixpoint count_loop (fuel : nat) (l : AuthorizationSet) (tag pos : Z) : Z :=
  match fuel with
  | O => 0
  | S fuel => let pos := find l tag pos in
              if pos =? -1 then 0 else 1 + count_loop fuel l tag pos
  end.
Definition GetTagCount (l : AuthorizationSet) (tag : Z) : Z := count_loop (S (length l)) l tag (-1).

Definition GetEntry (l : AuthorizationSet) (tag : Z) : option KeyParameter :=
  let pos := find l tag (-1) in
  if pos =? -1 then None else l !! Z.to_nat pos.

(** [GetTagValue] for a tag whose value is in the union. *)
Definition GetTagValue (l : AuthorizationSet) (tag : Z) : option Z :=
  kp_integer <$> GetEntry l tag.

End Operations.

(** ** The order of parameters *)

(** Lexicographic order of lists, a prefix first. *)
Fixpoint lex_less (a b : list Z) : bool :=
  match a, b with
  | [], _ :: _ => true
  | _, [] => false
  | x :: a, y :: b => if x =? y then lex_less a b else x <? y
  end.

Lemma lex_irrefl a : lex_less a a = false.
Proof. induction a as [|x a IH]; [done|]. simpl. by rewrite Z.eqb_refl. Qed.

Lemma lex_trans a b c : lex_less a b = true -> lex_less b c = true -> lex_less a c = true.
Proof.
  revert b c. induction a as [|x a IH]; intros [|y b] [|z c]; simpl; try done.
  destruct (Z.eqb_spec x y), (Z.eqb_spec y z), (Z.eqb_spec x z); try lia; eauto.
Qed.

Lemma lex_total a b : lex_less a b = false -> lex_less b a = false -> a = b.
Proof.
  revert b. induction a as [|x a IH]; intros [|y b]; simpl; try done.
  rewrite (Z.eqb_sym y x). destruct (Z.eqb_spec x y) as [->|]; [|lia].
  intros H1 H2. f_equal. by apply IH.
Qed.

Lemma lex_asym a b : lex_less a b = true -> lex_less b a = false.
Proof.
  intros H1. destruct (lex_less b a) eqn:H2; [|done].
  pose proof (lex_trans _ _ _ H1 H2) as H3. by rewrite lex_irrefl in H3.
Qed.

Lemma blob_less_lex a b : blob_less a b = lex_less a b.
Proof.
  destruct a as [|x a], b as [|y b]; try done. unfold blob_less.
  assert (Hm : forall l m, match memcmp (length l `min` length m) l m with
                           | Eq => (length l <? length m)%nat | Lt => true | Gt => false end
                           = lex_less l m).
  { intros l. induction l as [|u l IH]; intros [|v m]; try done. simpl.
    destruct (Z.eqb_spec u v) as [->|Hne]; [apply IH|].
    destruct (Z.compare_spec u v), (Z.ltb_spec u v); try lia; done. }
  apply (Hm (x :: a) (y :: b)).
Qed.

Lemma blob_equal_eq a b : blob_equal a b = bool_decide (a = b).
Proof.
  unfold blob_equal. destruct (Nat.eqb_spec (length a) (length b)) as [E|E]; simpl.
  2: { symmetry. apply bool_decide_eq_false_2. by intros ->. }
  revert b E. induction a as [|x a IH]; intros [|y b] E; try done. simpl in *.
  destruct (Z.eqb_spec x y) as [->|Hne].
  - injection E as E. specialize (IH b E). rewrite (bool_decide_ext (y :: a = y :: b) (a = b)).
    + rewrite <- IH. destruct a, b; try done.
    + split; congruence.
  - rewrite bool_decide_eq_false_2 by congruence. destruct (Z.compare_spec x y); [lia|done..].
Qed.

Section Order.
Context `{KeymasterTypes}.

(** A parameter of one of the tag types of the HAL. *)
Definition known (p : KeyParameter) : Prop := class_of (kp_tag p) <> unknown_value.

(** What the comparisons look at. *)
Definition param_key (p : KeyParameter) : list Z :=
  kp_tag p :: match class_of (kp_tag p) with
              | integer_value => [kp_integer p]
              | long_value => [kp_long p]
              | blob_value => kp_blob p
              | _ => []
              end.

Lemma keyParamLess_key a b :
  known a -> keyParamLess a b = lex_less (param_key a) (param_key b).
Proof using.
  unfold known, keyParamLess, param_key. intros Ha. simpl.
  destruct (Z.eqb_spec (kp_tag a) (kp_tag b)) as [<-|]; simpl; [|done].
  destruct (class_of (kp_tag a)); try done.
  - simpl. destruct (Z.eqb_spec (kp_integer a) (kp_integer b)); lia.
  - simpl. destruct (Z.eqb_spec (kp_long a) (kp_long b)); lia.
  - apply blob_less_lex.
Qed.

Lemma keyParamEqual_key a b :
  known a -> keyParamEqual a b = bool_decide (param_key a = param_key b).
Proof using.
  unfold known, keyParamEqual, param_key. intros Ha.
  destruct (Z.eqb_spec (kp_tag a) (kp_tag b)) as [<-|]; simpl.
  2: { symmetry. apply bool_decide_eq_false_2. congruence. }
  destruct (class_of (kp_tag a)); [by rewrite bool_decide_eq_true_2|..|done].
  - destruct (Z.eqb_spec (kp_integer a) (kp_integer b)) as [->|]; symmetry;
      [by apply bool_decide_eq_true_2|apply bool_decide_eq_false_2; congruence].
  - destruct (Z.eqb_spec (kp_long a) (kp_long b)) as [->|]; symmetry;
      [by apply bool_decide_eq_true_2|apply bool_decide_eq_false_2; congruence].
  - rewrite blob_equal_eq. apply bool_decide_ext. split; congruence.
Qed.

(** C38: [keyParamLess] is a strict order on parameters of known types, as
    [std::sort] requires, and its ties are exactly the parameters that
    [keyParamEqual] identifies: of any two, exactly one of less, equal and
    greater holds. *)
Theorem keyParamLess_strict_order a b c :
  known a -> known b ->
  keyParamLess a a = false
  /\ (keyParamLess a b = true -> keyParamLess b c = true -> keyParamLess a c = true)
  /\ (keyParamEqual a b = negb (keyParamLess a b) && negb (keyParamLess b a))
  /\ (keyParamLess a b && keyParamLess b a = false).
Proof using.
  intros Ha Hb. rewrite (keyParamLess_key a a), (keyParamLess_key a b), (keyParamLess_key a c),
    (keyParamLess_key b a), (keyParamLess_key b c), keyParamEqual_key by done.
  split; [apply lex_irrefl|]. split; [apply lex_trans|].
  destruct (lex_less (param_key a) (param_key b)) eqn:E1; cbn [negb andb].
  - rewrite (lex_asym _ _ E1). split; [|done]. apply bool_decide_eq_false_2. intros E.
    by rewrite E, lex_irrefl in E1.
  - destruct (lex_less (param_key b) (param_key a)) eqn:E2; cbn [negb andb]; (split; [|done]).
    + apply bool_decide_eq_false_2. intros E. by rewrite E, lex_irrefl in E2.
    + apply bool_decide_eq_true_2. by apply lex_total.
Qed.

End Order.

(** ** Sorting and deduplication *)

Section Sets.
Context `{KeymasterTypes}.

Definition key_le (a b : KeyParameter) : Prop := lex_less (param_key b) (param_key a) = false.
Definition key_lt (a b : KeyParameter) : Prop := lex_less (param_key a) (param_key b) = true.

Lemma key_le_trans a b c : key_le a b -> key_le b c -> key_le a c.
Proof using.
  unfold key_le. intros Hab Hbc. destruct (lex_less (param_key c) (param_key a)) eqn:E; [|done].
  destruct (lex_less (param_key b) (param_key c)) eqn:E2.
  - by rewrite (lex_trans _ _ _ E2 E) in Hab.
  - by rewrite (lex_total _ _ E2 Hbc), E in Hab.
Qed.

Lemma key_le_lt a b c : key_lt a b -> key_le b c -> key_lt a c.
Proof using.
  unfold key_lt, key_le. intros Hab Hbc.
  destruct (lex_less (param_key b) (param_key c)) eqn:E; [by eapply lex_trans|].
  by rewrite <- (lex_total _ _ E Hbc).
Qed.

Lemma insert_sorted_perm p l : insert_sorted p l ≡ₚ p :: l.
Proof using.
  induction l as [|q l IH]; [done|]. simpl. destruct (keyParamLess q p); [|done].
  rewrite IH. apply Permutation_swap.
Qed.

Lemma insert_sorted_sorted p l :
  known p -> Forall known l -> StronglySorted key_le l -> StronglySorted key_le (insert_sorted p l).
Proof using.
  intros Hp Hl. induction 1 as [|q l Hs IH Hq]; simpl; [by repeat constructor|].
  inversion Hl as [|? ? Hqk Hlk]; subst. rewrite keyParamLess_key by done.
  destruct (lex_less (param_key q) (param_key p)) eqn:E.
  - constructor; [by apply IH|]. rewrite insert_sorted_perm. constructor; [by apply lex_asym|done].
  - constructor; [by constructor|]. constructor; [exact E|].
    eapply Forall_impl; [exact Hq|]. intros x Hx. by eapply key_le_trans.
Qed.

Lemma Sort_perm l : Sort l ≡ₚ l.
Proof using.
  unfold Sort. induction l as [|p l IH]; [done|]. simpl. by rewrite insert_sorted_perm, IH.
Qed.

Lemma Sort_sorted l : Forall known l -> StronglySorted key_le (Sort l).
Proof using.
  induction 1 as [|p l Hp Hl IH]; [constructor|]. apply insert_sorted_sorted; [done| |done].
  by fold (Sort l); rewrite Sort_perm.
Qed.

(** The loop keeps one parameter of every run of equal ones. *)
Lemma dedup_loop_spec prev rest :
  Forall known (prev :: rest) -> StronglySorted key_le (prev :: rest) ->
  let r := dedup_loop prev rest in
  StronglySorted key_lt r /\ (forall x, x ∈ r -> x ∈ prev :: rest)
  /\ (forall x, x ∈ prev :: rest -> kp_tag x <> Tag_INVALID ->
        exists y, y ∈ r /\ param_key y = param_key x).
Proof using.
  revert prev. induction rest as [|curr rest IH]; intros prev Hk Hs; simpl.
  { split; [by repeat constructor|]. split; [done|]. eauto. }
  inversion Hk as [|? ? Hpk Hrk]; inversion Hs as [|? ? Hrs Hple]; subst.
  destruct (IH curr Hrk Hrs) as (Hlt & Hsub & Hcov).
  destruct (Z.eqb_spec (kp_tag prev) Tag_INVALID) as [Et|Et].
  { split; [done|]. split; [intros x Hx; by apply list_elem_of_further, Hsub|].
    intros x [->|Hx]%elem_of_cons Hne; [done|]. by apply Hcov. }
  rewrite keyParamEqual_key by done. case_bool_decide as Ek; simpl.
  - split; [done|]. split; [intros x Hx; by apply list_elem_of_further, Hsub|].
    intros x [->|Hx]%elem_of_cons Hne; [|by apply Hcov].
    destruct (Hcov curr) as (y & Hy & E); [apply list_elem_of_here| |].
    + intros E. apply Hne. unfold param_key in Ek. by injection Ek as -> _.
    + exists y. by rewrite E, Ek.
  - split.
    + constructor; [done|]. rewrite Forall_elem. intros x Hx%Hsub.
      assert (Hpc : key_lt prev curr).
      { inversion Hple as [|? ? Hc _]; subst. unfold key_lt, key_le in *.
        destruct (lex_less (param_key prev) (param_key curr)) eqn:E; [done|].
        destruct Ek. by apply lex_total. }
      apply elem_of_cons in Hx as [->|Hx]; [done|]. eapply key_le_lt; [exact Hpc|].
      inversion Hrs as [|? ? _ Hc]; subst. rewrite Forall_elem in Hc. by apply Hc.
    + split.
      * intros x [->|Hx]%elem_of_cons; [apply list_elem_of_here|]. by apply list_elem_of_further, Hsub.
      * intros x [->|Hx]%elem_of_cons Hne; [exists prev; split; [apply list_elem_of_here|done]|].
        destruct (Hcov x Hx Hne) as (y & Hy & E). exists y. split; [|done].
        by apply list_elem_of_further.
Qed.

Lemma Deduplicate_keys l :
  Forall known l -> let r := Deduplicate l in
  StronglySorted key_lt r /\ (forall x, x ∈ r -> x ∈ l)
  /\ (forall x, x ∈ l -> kp_tag x <> Tag_INVALID -> exists y, y ∈ r /\ param_key y = param_key x).
Proof using.
  intros Hk. unfold Deduplicate. pose proof (Sort_sorted l Hk) as Hs.
  assert (Hin : forall x, x ∈ Sort l <-> x ∈ l) by (intros x; by rewrite Sort_perm).
  assert (Hks : Forall known (Sort l)) by by rewrite Sort_perm.
  destruct (Sort l) as [|first rest].
  - split; [constructor|]. split; [by intros x ?%not_elem_of_nil|].
    intros x Hx%Hin. by apply not_elem_of_nil in Hx.
  - destruct (dedup_loop_spec first rest Hks Hs) as (Hlt & Hsub & Hcov). split; [done|].
    split; [intros x Hx; by apply Hin, Hsub|]. intros x Hx%Hin. by apply Hcov.
Qed.

(** The set a vector of parameters stands for. *)
Definition holds (p : KeyParameter) (l : AuthorizationSet) : bool := existsb (keyParamEqual p) l.

Lemma holds_key p l : known p -> holds p l = true <-> exists q, q ∈ l /\ param_key q = param_key p.
Proof using.
  intros Hp. unfold holds. rewrite existsb_exists. setoid_rewrite <- list_elem_of_In.
  split; intros (q & Hq & E); exists q; (split; [done|]).
  - rewrite keyParamEqual_key in E by done. by apply bool_decide_eq_true in E.
  - rewrite keyParamEqual_key by done. by apply bool_decide_eq_true_2.
Qed.

Lemma holds_ext p l l' : known p ->
  ((exists q, q ∈ l /\ param_key q = param_key p) <-> (exists q, q ∈ l' /\ param_key q = param_key p)) ->
  holds p l = holds p l'.
Proof using.
  intros Hp Hx. rewrite <- !(holds_key p _ Hp) in Hx.
  destruct (holds p l), (holds p l'); try done; intuition congruence.
Qed.

Lemma holds_Deduplicate p l :
  Forall known l -> known p -> kp_tag p <> Tag_INVALID -> holds p (Deduplicate l) = holds p l.
Proof using.
  intros Hl Hp Ht. apply holds_ext; [done|].
  destruct (Deduplicate_keys l Hl) as (_ & Hsub & Hcov). split; intros (q & Hq & E).
  - exists q. split; [by apply Hsub|done].
  - destruct (Hcov q Hq) as (y & Hy & E').
    + intros Eq. apply Ht. unfold param_key in E. by injection E as <- _.
    + exists y. by rewrite E'.
Qed.

(** C27: [Union] is set union: the result holds exactly the parameters of
    either set, apart from invalid tags, is strictly sorted, and so holds no
    parameter twice. *)
Theorem Union_is_union l other p :
  Forall known l -> Forall known other -> known p -> kp_tag p <> Tag_INVALID ->
  holds p (Union l other) = holds p l || holds p other
  /\ StronglySorted (fun a b => keyParamLess a b = true) (Union l other).
Proof using.
  intros Hl Ho Hp Ht. assert (Hk : Forall known (l ++ other)) by by apply Forall_app.
  unfold Union. rewrite holds_Deduplicate by done. split; [apply existsb_app|].
  destruct (Deduplicate_keys _ Hk) as (Hs & Hsub & _). revert Hs Hsub.
  induction (Deduplicate (l ++ other)) as [|a r IH]; intros Hs Hsub; [constructor|].
  inversion Hs as [|? ? Hr Ha]; subst. constructor.
  - apply IH; [done|]. intros x Hx. by apply Hsub, list_elem_of_further.
  - eapply Forall_impl; [exact Ha|]. intros b Hb. rewrite keyParamLess_key; [exact Hb|].
    rewrite Forall_elem in Hk. apply Hk, Hsub, list_elem_of_here.
Qed.

(** ** Subtraction *)

(** What the do loop of [Subtract] amounts to. *)
Fixpoint remove_first (p : KeyParameter) (l : AuthorizationSet) : AuthorizationSet :=
  match l with
  | [] => []
  | q :: l => if keyParamEqual p q then l else q :: remove_first p l
  end.

Lemma remove_first_app p a b :
  (forall x, x ∈ a -> keyParamEqual p x = false) -> remove_first p (a ++ b) = a ++ remove_first p b.
Proof using.
  induction a as [|x a IH]; intros Ha; [done|]. simpl.
  rewrite (Ha x) by apply list_elem_of_here. f_equal. apply IH.
  intros y Hy. by apply Ha, list_elem_of_further.
Qed.

Lemma keyParamEqual_tag p q : keyParamEqual p q = true -> kp_tag q = kp_tag p.
Proof using.
  unfold keyParamEqual. by destruct (Z.eqb_spec (kp_tag p) (kp_tag q)).
Qed.

Lemma other_tags_differ p (a : AuthorizationSet) :
  (forall x, x ∈ a -> kp_tag x <> kp_tag p) -> forall x, x ∈ a -> keyParamEqual p x = false.
Proof using.
  intros Ha x Hx. destruct (keyParamEqual p x) eqn:E; [|done].
  by apply keyParamEqual_tag, (Ha x Hx) in E.
Qed.

Lemma subtract_loop_remove fuel l p (start : nat) :
  (start <= length l)%nat -> (length l < fuel + start)%nat ->
  subtract_loop fuel l p (Z.of_nat start - 1)
  = take start l ++ remove_first p (drop start l).
Proof using.
  revert start. induction fuel as [|fuel IH]; intros start Hs Hf; [lia|]. simpl.
  unfold find. replace (1 + (Z.of_nat start - 1)) with (Z.of_nat start) by lia. rewrite Nat2Z.id.
  destruct (list_find _ (drop start l)) as [[n q]|] eqn:Ef.
  - apply list_find_Some in Ef as (Hq & Ht & Hfirst).
    rewrite lookup_drop in Hq. pose proof (lookup_lt_Some _ _ _ Hq) as Hlt.
    destruct (Z.eqb_spec (Z.of_nat start + Z.of_nat n) (-1)); [lia|].
    replace (Z.to_nat (Z.of_nat start + Z.of_nat n)) with (start + n)%nat by lia. rewrite Hq.
    assert (Hmid : forall x, x ∈ take n (drop start l) -> keyParamEqual p x = false).
    { apply other_tags_differ. intros x (i & Hi)%list_elem_of_lookup.
      apply lookup_take_Some in Hi as [Hi Hlt']. by eapply Hfirst. }
    assert (Hsplit : drop start l = take n (drop start l) ++ q :: drop (S (start + n)) l).
    { rewrite <- (take_drop n (drop start l)) at 1. f_equal. rewrite drop_drop.
      by apply drop_S. }
    rewrite Hsplit at 1. rewrite remove_first_app by done. simpl.
    destruct (keyParamEqual p q).
    + unfold erase_at. rewrite <- take_take_drop at 1. by rewrite <- app_assoc.
    + replace (Z.of_nat start + Z.of_nat n) with (Z.of_nat (S (start + n)) - 1) by lia.
      rewrite IH by lia. rewrite app_assoc. rewrite take_take_drop.
      rewrite (take_S_r l (start + n) q) by done. by rewrite <- app_assoc.
  - apply list_find_None in Ef. rewrite Z.eqb_refl. symmetry.
    rewrite <- (app_nil_r (drop start l)), remove_first_app.
    + simpl. by rewrite app_nil_r, take_drop.
    + apply other_tags_differ. by apply Forall_elem.
Qed.

Lemma subtract_one l p : subtract_loop (S (length l)) l p (-1) = remove_first p l.
Proof using.
  pose proof (subtract_loop_remove (S (length l)) l p 0 ltac:(lia) ltac:(lia)) as E.
  by rewrite take_0, drop_0 in E.
Qed.

Lemma same_key_known p q : param_key q = param_key p -> known p -> known q.
Proof using. unfold known, param_key. by intros [= ->]. Qed.

Lemma remove_first_keys p l :
  NoDup (param_key <$> l) ->
  NoDup (param_key <$> remove_first p l)
  /\ forall k, (exists q, q ∈ remove_first p l /\ param_key q = k)
               <-> (exists q, q ∈ l /\ param_key q = k) /\ ~ (known p /\ param_key p = k).
Proof using.
  induction l as [|x l IH]; simpl; intros Hnd.
  { split; [done|]. intros k. split; [|intros [[q [Hq _]] _]; by apply not_elem_of_nil in Hq].
    intros (q & Hq & _). by apply not_elem_of_nil in Hq. }
  apply NoDup_cons in Hnd as [Hx Hnd]. destruct (IH Hnd) as [IHnd IHk].
  destruct (keyParamEqual p x) eqn:E.
  - assert (Hp : known p).
    { unfold known. intros Hu. unfold keyParamEqual in E. rewrite Hu in E. by destruct (negb _). }
    rewrite keyParamEqual_key in E by done. apply bool_decide_eq_true in E.
    split; [done|]. intros k. split.
    + intros (q & Hq & <-). split; [exists q; split; [by apply list_elem_of_further|done]|].
      intros [_ Ek]. apply Hx. rewrite <- E, Ek. by apply list_elem_of_fmap_2.
    + intros [(q & [->|Hq]%elem_of_cons & <-) Hne]; [|eauto]. by destruct Hne.
  - simpl. split.
    + apply NoDup_cons. split; [|done]. intros (q & Eq & Hq)%list_elem_of_fmap. apply Hx.
      destruct (proj1 (IHk (param_key x))) as [(q' & Hq' & E') _]; [by exists q|].
      rewrite <- E'. by apply list_elem_of_fmap_2.
    + intros k. split.
      * intros (q & [->|Hq]%elem_of_cons & <-).
        -- split; [exists x; split; [apply list_elem_of_here|done]|]. intros [Hp Ek].
           rewrite keyParamEqual_key, bool_decide_eq_true_2 in E by done. done.
        -- destruct (proj1 (IHk (param_key q))) as [(q' & Hq' & E') Hne]; [by exists q|].
           split; [|done]. exists q'. split; [by apply list_elem_of_further|done].
      * intros [(q & [->|Hq]%elem_of_cons & <-) Hne].
        -- exists x. split; [apply list_elem_of_here|done].
        -- destruct (proj2 (IHk (param_key q))) as (q' & Hq' & E'); [by split; [exists q|]|].
           exists q'. split; [by apply list_elem_of_further|done].
Qed.

Lemma subtract_all_keys l other :
  NoDup (param_key <$> l) ->
  let r := foldl (fun l p => subtract_loop (S (length l)) l p (-1)) l other in
  forall k, (exists q, q ∈ r /\ param_key q = k)
            <-> (exists q, q ∈ l /\ param_key q = k)
                /\ ~ (exists p, p ∈ other /\ known p /\ param_key p = k).
Proof using.
  revert l. induction other as [|p other IH]; intros l Hnd r k; cbn [foldl] in r.
  { split; [intros Hk; split; [done|]|by intros [Hk _]].
    intros (p & Hp & _). by apply not_elem_of_nil in Hp. }
  subst r. rewrite subtract_one. destruct (remove_first_keys p l Hnd) as [Hnd' Hk'].
  rewrite (IH _ Hnd' k), Hk'. split.
  - intros [[Hl Hp] Ho]. split; [done|]. intros (p' & [->|Hp']%elem_of_cons & E); eauto.
  - intros [Hl Ho]. split; [split; [done|]|].
    + intros E. apply Ho. exists p. split; [apply list_elem_of_here|done].
    + intros (p' & Hp' & E). apply Ho. exists p'. split; [by apply list_elem_of_further|done].
Qed.

Lemma sorted_keys_NoDup l : StronglySorted key_lt l -> NoDup (param_key <$> l).
Proof using.
  induction 1 as [|a l Hs IH Ha]; [apply NoDup_nil_2|]. simpl. apply NoDup_cons. split; [|done].
  intros (q & E & Hq)%list_elem_of_fmap. rewrite Forall_elem in Ha. specialize (Ha q Hq).
  unfold key_lt in Ha. by rewrite E, lex_irrefl in Ha.
Qed.

(** C31: [Subtract] is set difference: the result holds exactly the parameters
    of this set that the other set does not hold, although the loop removes at
    most one entry per parameter. *)
Theorem Subtract_is_difference l other p :
  Forall known l -> known p -> kp_tag p <> Tag_INVALID ->
  holds p (Subtract l other) = holds p l && negb (holds p other).
Proof using.
  intros Hl Hp Ht. destruct (Deduplicate_keys l Hl) as (Hs & _ & _).
  pose proof (subtract_all_keys (Deduplicate l) other (sorted_keys_NoDup _ Hs) (param_key p)) as Hk.
  fold (Subtract l other) in Hk. rewrite <- (holds_Deduplicate p l Hl Hp Ht).
  rewrite <- !(holds_key p) in Hk by done.
  assert (Ho : (exists q, q ∈ other /\ known q /\ param_key q = param_key p)
               <-> holds p other = true).
  { rewrite holds_key by done. split; intros (q & Hq & E); exists q; [by destruct E|].
    split; [done|]. split; [by eapply same_key_known|done]. }
  rewrite Ho in Hk. destruct (holds p (Subtract l other)), (holds p (Deduplicate l)),
    (holds p other); simpl; intuition congruence.
Qed.

End Sets.

(** ** Concrete sets *)

(** Some numbering of the HAL's enumerators. *)
Definition sample_types : KeymasterTypes := {|
  TagType_INVALID := 0; TagType_ENUM := 1 * 2 ^ 28; TagType_ENUM_REP := 2 * 2 ^ 28;
  TagType_UINT := 3 * 2 ^ 28; TagType_UINT_REP := 4 * 2 ^ 28; TagType_ULONG := 5 * 2 ^ 28;
  TagType_DATE := 6 * 2 ^ 28; TagType_BOOL := 7 * 2 ^ 28; TagType_BIGNUM := 8 * 2 ^ 28;
  TagType_BYTES := 9 * 2 ^ 28; TagType_ULONG_REP := 10 * 2 ^ 28;
  Tag_INVALID := 0; Tag_ALGORITHM := 1 * 2 ^ 28 + 2; Tag_USER_SECURE_ID := 10 * 2 ^ 28 + 502;
  Tag_NO_AUTH_REQUIRED := 7 * 2 ^ 28 + 503; Tag_AUTH_TIMEOUT := 3 * 2 ^ 28 + 505;
  Tag_ALLOW_WHILE_ON_BODY := 7 * 2 ^ 28 + 506; Tag_USER_AUTH_TYPE := 1 * 2 ^ 28 + 504;
  Algorithm_RSA := 1; Algorithm_EC := 3; Algorithm_AES := 32;
  KeyPurpose_SIGN := 2; KeyPurpose_DECRYPT := 1;
  HardwareAuthenticatorType_NONE := 0;
|}.

Module SampleSets.
Definition timeout : KeyParameter := mkParam (3 * 2 ^ 28 + 505) 10 [].
Definition sid (n : Z) : KeyParameter := mkParam (10 * 2 ^ 28 + 502) n [].
Definition app_id (b : list Z) : KeyParameter := mkParam (9 * 2 ^ 28 + 601) 0 b.
End SampleSets.

Lemma keyParamLess_strict_order_witness :
  let a := SampleSets.app_id [1; 2] in let b := SampleSets.app_id [1; 2; 3] in
  let c := SampleSets.sid 5 in
  let less := @keyParamLess sample_types in
  less a a = false /\ (less a b = true -> less b c = true -> less a c = true)
  /\ (@keyParamEqual sample_types a b = negb (less a b) && negb (less b a))
  /\ (less a b && less b a = false).
Proof. apply (@keyParamLess_strict_order sample_types); by vm_compute. Defined.

Lemma Union_is_union_witness :
  let l := [SampleSets.sid 5; SampleSets.timeout] in
  let other := [SampleSets.app_id [7]; SampleSets.sid 5] in
  let p := SampleSets.sid 5 in
  @holds sample_types p (@Union sample_types l other)
  = @holds sample_types p l || @holds sample_types p other
  /\ StronglySorted (fun a b => @keyParamLess sample_types a b = true) (@Union sample_types l other).
Proof.
  apply (@Union_is_union sample_types).
  - repeat (apply List.Forall_cons; [by vm_compute|]). apply List.Forall_nil.
  - repeat (apply List.Forall_cons; [by vm_compute|]). apply List.Forall_nil.
  - by vm_compute.
  - by vm_compute.
Defined.

Lemma Subtract_is_difference_witness :
  let l := [SampleSets.sid 5; SampleSets.timeout; SampleSets.sid 5] in
  let other := [SampleSets.app_id [7]; SampleSets.sid 5] in
  let p := SampleSets.sid 5 in
  @holds sample_types p (@Subtract sample_types l other)
  = @holds sample_types p l && negb (@holds sample_types p other).
Proof.
  apply (@Subtract_is_difference sample_types).
  - repeat (apply List.Forall_cons; [by vm_compute|]). apply List.Forall_nil.
  - by vm_compute.
  - by vm_compute.
Defined.
