(* ===== verification/AuthTokens.v ===== *)
(** * AuthTokens: the table of authentication tokens

    security/keystore/auth_token_table.{h,cpp}.  The table is the vector of its
    entries with the size limit and the time the device last left the body;
    the result of the clock function is an argument of the operations that
    read it.  The theorems: what a granted authorization guarantees and when
    it is denied, the limit on the size, and that the assertion of
    [MarkCompleted] holds for the handles of operations. *)
From S2P Require Import Prelude Bytes AuthorizationSet.

(** ** Data *)

(** [HardwareAuthToken]; type and timestamp are in network order. *)
Record HardwareAuthToken := mkToken {
  challenge : Z;
  userId : Z;
  authenticatorId : Z;
  authenticatorType : Z;
  timestamp : Z;
}.

Record Entry := mkTokenEntry {
  token : HardwareAuthToken;
  time_received : Z;
  last_use : Z;
  operation_completed : bool;
}.

Record AuthTokenTable := mkTable {
  entries : list Entry;
  max_entries : Z;
  last_off_body : Z;
}.

(** [AuthTokenTable::Error] *)
Inductive Error :=
| OK
| AUTH_NOT_REQUIRED
| AUTH_TOKEN_EXPIRED
| AUTH_TOKEN_WRONG_SID
| OP_HANDLE_REQUIRED
| AUTH_TOKEN_NOT_FOUND.

#[export] Instance Error_dec : EqDecision Error.
Proof. solve_decision. Defined.

(** ** Entries *)

Definition Entry_new (t : HardwareAuthToken) (now : Z) : Entry :=
  mkTokenEntry t now now (challenge t =? 0).

Definition timestamp_host_order (e : Entry) : Z := hton 8 (timestamp (token e)).

Definition authenticator_type (e : Entry) : Z := hton 4 (authenticatorType (token e)).

Definition SatisfiesAuth (e : Entry) (sids : list Z) (auth_type : Z) : bool :=
  existsb (fun sid =>
    (sid =? authenticatorId (token e))
    || ((sid =? userId (token e)) && negb (Z.land auth_type (authenticator_type e) =? 0))) sids.

Definition UpdateLastUse (now : Z) (e : Entry) : Entry :=
  mkTokenEntry (token e) (time_received e) now (operation_completed e).

Definition mark_completed (e : Entry) : Entry :=
  mkTokenEntry (token e) (time_received e) (last_use e) true.

(** [is_newer_than]; a null pointer is [None]. *)
Definition is_newer_than (e : Entry) (other : option Entry) : bool :=
  match other with
  | None => true
  | Some other =>
      let ts := timestamp_host_order e in
      let other_ts := timestamp_host_order other in
      (other_ts <? ts) || ((ts =? other_ts) && (time_received other <? time_received e))
  end.

Definition Supersedes (e entry : Entry) : bool :=
  if negb (operation_completed entry) then false
  else (userId (token e) =? userId (token entry))
       && (authenticatorType (token e) =? authenticatorType (token entry))
       && (authenticatorId (token e) =? authenticatorId (token entry))
       && is_newer_than e (Some entry).

(** ** The table *)

Definition AuthTokenTable_new (max now : Z) : AuthTokenTable := mkTable [] max now.

Definition set_entries (es : list Entry) (t : AuthTokenTable) : AuthTokenTable :=
  mkTable es (max_entries t) (last_off_body t).

(** [RemoveEntriesSupersededBy] *)
Definition RemoveEntriesSupersededBy (entry : Entry) (es : list Entry) : list Entry :=
  List.filter (fun e => negb (Supersedes entry e)) es.

(** [std::min_element]: the first of the entries used least recently. *)
Fixpoint min_element (es : list Entry) (best : nat) (best_use : Z) (pos : nat) : nat :=
  match es with
  | [] => best
  | e :: es =>
      if last_use e <? best_use then min_element es pos (last_use e) (S pos)
      else min_element es best best_use (S pos)
  end.

Definition oldest (es : list Entry) : nat :=
  match es with
  | [] => 0
  | e :: es => min_element es 0 (last_use e) 1
  end.

Definition AddAuthenticationToken (auth_token : HardwareAuthToken) (now : Z) (t : AuthTokenTable)
    : AuthTokenTable :=
  let new_entry := Entry_new auth_token now in
  let es := RemoveEntriesSupersededBy new_entry (entries t) in
  if max_entries t <=? zlen es then set_entries (<[oldest es := new_entry]> es) t
  else set_entries (es ++ [new_entry]) t.

Definition onDeviceOffBody (now : Z) (t : AuthTokenTable) : AuthTokenTable :=
  mkTable (entries t) (max_entries t) now.

Definition Clear (t : AuthTokenTable) : AuthTokenTable := set_entries [] t.

Definition IsSupersededBySomeEntry (entry : Entry) (es : list Entry) : bool :=
  existsb (fun e => Supersedes e entry) es.

(** [MarkCompleted]; [None] is a failed assertion. *)
Definition MarkCompleted (op_handle : Z) (t : AuthTokenTable) : option AuthTokenTable :=
  match list_find (fun e => challenge (token e) = op_handle) (entries t) with
  | None => Some t
  | Some (pos, found) =>
      if IsSupersededBySomeEntry found (entries t) then None
      else
        let es := <[pos := mark_completed found]> (entries t) in
        if IsSupersededBySomeEntry (mark_completed found) es
        then Some (set_entries (take pos es ++ drop (S pos) es) t)
        else Some (set_entries es t)
  end.

(** ** Finding an authorization *)

Section Find.
Context `{KeymasterTypes}.

Definition is_secret_key_operation (algorithm purpose : Z) : bool :=
  if negb (algorithm =? Algorithm_RSA) && negb (algorithm =? Algorithm_EC) then true
  else (purpose =? KeyPurpose_SIGN) || (purpose =? KeyPurpose_DECRYPT).

Definition algorithm_of (key_info : AuthorizationSet) : Z :=
  default Algorithm_AES (GetTagValue key_info Tag_ALGORITHM).

Definition KeyRequiresAuthentication (key_info : AuthorizationSet) (purpose : Z) : bool :=
  is_secret_key_operation (algorithm_of key_info) purpose
  && (find key_info Tag_NO_AUTH_REQUIRED (-1) =? -1).

Definition KeyRequiresAuthPerOperation (key_info : AuthorizationSet) (purpose : Z) : bool :=
  is_secret_key_operation (algorithm_of key_info) purpose
  && (find key_info Tag_AUTH_TIMEOUT (-1) =? -1).

Definition ExtractSids (key_info : AuthorizationSet) : list Z :=
  map kp_long (List.filter (fun p => kp_tag p =? Tag_USER_SECURE_ID) key_info).

Definition FindAuthPerOpAuthorization (sids : list Z) (auth_type op_handle : Z) (t : AuthTokenTable)
    : Error * option HardwareAuthToken :=
  if op_handle =? 0 then (OP_HANDLE_REQUIRED, None)
  else
    match list_find (fun e => challenge (token e) = op_handle /\ operation_completed e = false)
            (entries t) with
    | None => (AUTH_TOKEN_NOT_FOUND, None)
    | Some (_, matching_op) =>
        if negb (SatisfiesAuth matching_op sids auth_type) then (AUTH_TOKEN_WRONG_SID, None)
        else (OK, Some (token matching_op))
    end.

(** The loop over the entries: the newest match so far, with its position. *)
Fixpoint newest_loop (sids : list Z) (auth_type : Z) (es : list Entry) (pos : nat)
    (newest : option (nat * Entry)) : option (nat * Entry) :=
  match es with
  | [] => newest
  | e :: es =>
      newest_loop sids auth_type es (S pos)
        (if SatisfiesAuth e sids auth_type && is_newer_than e (snd <$> newest)
         then Some (pos, e) else newest)
  end.

Definition FindTimedAuthorization (sids : list Z) (auth_type : Z) (key_info : AuthorizationSet)
    (now : Z) (t : AuthTokenTable) : Error * option HardwareAuthToken * AuthTokenTable :=
  match newest_loop sids auth_type (entries t) 0 None with
  | None => (AUTH_TOKEN_NOT_FOUND, None, t)
  | Some (pos, newest_match) =>
      let timeout := default 0 (GetTagValue key_info Tag_AUTH_TIMEOUT) in
      if time_received newest_match + timeout <? now then (AUTH_TOKEN_EXPIRED, None, t)
      else if match GetTagValue key_info Tag_ALLOW_WHILE_ON_BODY with
              | Some _ => time_received newest_match <? last_off_body t
              | None => false
              end
      then (AUTH_TOKEN_EXPIRED, None, t)
      else (OK, Some (token newest_match),
            set_entries (<[pos := UpdateLastUse now newest_match]> (entries t)) t)
  end.

Definition FindAuthorization (key_info : AuthorizationSet) (purpose op_handle now : Z)
    (t : AuthTokenTable) : Error * option HardwareAuthToken * AuthTokenTable :=
  if negb (KeyRequiresAuthentication key_info purpose) then (AUTH_NOT_REQUIRED, None, t)
  else
    let auth_type := default HardwareAuthenticatorType_NONE
                       (GetTagValue key_info Tag_USER_AUTH_TYPE) in
    let key_sids := ExtractSids key_info in
    if KeyRequiresAuthPerOperation key_info purpose
    then (FindAuthPerOpAuthorization key_sids auth_type op_handle t, t)
    else FindTimedAuthorization key_sids auth_type key_info now t.

End Find.

(** ** Authorizations *)

Definition not_newer (a b : Entry) : Prop := is_newer_than a (Some b) = false.

Lemma not_newer_refl e : not_newer e e.
Proof. unfold not_newer, is_newer_than. lia. Qed.

Lemma not_newer_trans a b c : not_newer a b -> not_newer b c -> not_newer a c.
Proof. unfold not_newer, is_newer_than. lia. Qed.

Lemma newer_not_newer a b : is_newer_than a (Some b) = true -> not_newer b a.
Proof. unfold not_newer, is_newer_than. lia. Qed.

Section Authorizations.
Context `{KeymasterTypes}.

(** The token was made by an authenticator, or for a user by an authenticator of
    an accepted type, that the key names. *)
Definition authorizes (sids : list Z) (auth_type : Z) (e : Entry) : Prop :=
  exists sid, sid ∈ sids
    /\ (sid = authenticatorId (token e)
        \/ sid = userId (token e) /\ Z.land auth_type (authenticator_type e) <> 0).

Lemma SatisfiesAuth_spec e sids auth_type :
  SatisfiesAuth e sids auth_type = true <-> authorizes sids auth_type e.
Proof using.
  unfold SatisfiesAuth, authorizes. rewrite existsb_exists. setoid_rewrite <- list_elem_of_In.
  setoid_rewrite orb_true_iff. setoid_rewrite andb_true_iff. setoid_rewrite negb_true_iff.
  setoid_rewrite Z.eqb_eq. by setoid_rewrite Z.eqb_neq.
Qed.

Lemma SatisfiesAuth_false e sids auth_type :
  SatisfiesAuth e sids auth_type = false <-> ~ authorizes sids auth_type e.
Proof using. rewrite <- SatisfiesAuth_spec. by destruct (SatisfiesAuth e sids auth_type). Qed.

(** [r] is the newest of the entries of [es] that satisfy the key. *)
Definition newest_match (sids : list Z) (auth_type : Z) (es : list Entry)
    (r : option (nat * Entry)) : Prop :=
  match r with
  | None => forall e, e ∈ es -> SatisfiesAuth e sids auth_type = false
  | Some (pos, e) =>
      es !! pos = Some e /\ SatisfiesAuth e sids auth_type = true
      /\ forall e', e' ∈ es -> SatisfiesAuth e' sids auth_type = true -> not_newer e' e
  end.

Lemma newest_loop_snoc sids auth_type es e pos r :
  newest_loop sids auth_type (es ++ [e]) pos r
  = let r' := newest_loop sids auth_type es pos r in
    if SatisfiesAuth e sids auth_type && is_newer_than e (snd <$> r')
    then Some ((pos + length es)%nat, e) else r'.
Proof using.
  revert pos r. induction es as [|x es IH]; intros pos r; simpl; [by rewrite Nat.add_0_r|].
  rewrite IH. simpl. by rewrite Nat.add_succ_r.
Qed.

Lemma newest_loop_spec sids auth_type es :
  newest_match sids auth_type es (newest_loop sids auth_type es 0 None).
Proof using.
  induction es as [|e es IH] using rev_ind; [by intros e ?%not_elem_of_nil|].
  rewrite newest_loop_snoc. cbv zeta. revert IH.
  destruct (newest_loop sids auth_type es 0 None) as [[pos x]|]; simpl.
  - intros (Hx & Hsat & Hmax). pose proof (lookup_lt_Some _ _ _ Hx) as Hlt.
    destruct (SatisfiesAuth e sids auth_type) eqn:Hs; simpl.
    2: { split; [by rewrite lookup_app_l|]. split; [done|].
         intros e' [He'|He'%list_elem_of_singleton]%elem_of_app Hs'; [auto|congruence]. }
    destruct (_ || _) eqn:Hn; simpl.
    + split; [rewrite lookup_app_r, Nat.sub_diag by lia; done|]. split; [done|].
      assert (Hxe : not_newer x e) by by apply newer_not_newer.
      intros e' [He'|He'%list_elem_of_singleton]%elem_of_app Hs'.
      * eapply not_newer_trans; eauto.
      * rewrite He'. apply not_newer_refl.
    + split; [by rewrite lookup_app_l|]. split; [done|].
      intros e' [He'|He'%list_elem_of_singleton]%elem_of_app Hs'; [auto|]. by rewrite He'.
  - intros Hno. destruct (SatisfiesAuth e sids auth_type) eqn:Hs; simpl.
    + split; [rewrite lookup_app_r, Nat.sub_diag by lia; done|]. split; [done|].
      intros e' [He'|He'%list_elem_of_singleton]%elem_of_app Hs'.
      * by rewrite Hno in Hs'.
      * rewrite He'. apply not_newer_refl.
    + intros e' [He'|He'%list_elem_of_singleton]%elem_of_app; [auto|congruence].
Qed.

(** The token [e] is recent enough for a key with a timeout. *)
Definition fresh_enough (key_info : AuthorizationSet) (now : Z) (t : AuthTokenTable) (e : Entry)
    : Prop :=
  now <= time_received e + default 0 (GetTagValue key_info Tag_AUTH_TIMEOUT)
  /\ (GetTagValue key_info Tag_ALLOW_WHILE_ON_BODY <> None -> last_off_body t <= time_received e).

(** [e] is the newest token of the table, at [pos], that authorizes the key. *)
Definition newest_authorizing (sids : list Z) (auth_type : Z) (es : list Entry) (pos : nat) (e : Entry) : Prop :=
  es !! pos = Some e /\ authorizes sids auth_type e
  /\ forall e', e' ∈ es -> authorizes sids auth_type e' -> not_newer e' e.


(** A token for an operation that has not been completed. *)
Definition open_for (op_handle : Z) (e : Entry) : Prop :=
  challenge (token e) = op_handle /\ operation_completed e = false.

(** C37: For a key that needs authentication per operation, [FindAuthorization]
    leaves the table as it is, and decides by the operation's handle: it is
    required, and then the first token of the table that is open for it
    decides.  That token is returned if it has one of the key's secure ids as
    its authenticator id, or as its user id with an authenticator type the key
    accepts, and [AUTH_TOKEN_WRONG_SID] is the answer if not;
    [AUTH_TOKEN_NOT_FOUND] if there is no such token. *)
Theorem FindAuthorization_per_operation key_info purpose op_handle now t :
  KeyRequiresAuthentication key_info purpose = true ->
  KeyRequiresAuthPerOperation key_info purpose = true ->
  let sids := ExtractSids key_info in
  let auth_type := default HardwareAuthenticatorType_NONE
                     (GetTagValue key_info Tag_USER_AUTH_TYPE) in
  let result := FindAuthorization key_info purpose op_handle now t in
  (op_handle = 0 /\ result = (OP_HANDLE_REQUIRED, None, t))
  \/ op_handle <> 0 /\
     ((forall e, e ∈ entries t -> ~ open_for op_handle e) /\ result = (AUTH_TOKEN_NOT_FOUND, None, t)
      \/ exists pos e, entries t !! pos = Some e /\ open_for op_handle e
         /\ (forall j e', (j < pos)%nat -> entries t !! j = Some e' -> ~ open_for op_handle e')
         /\ (authorizes sids auth_type e /\ result = (OK, Some (token e), t)
             \/ ~ authorizes sids auth_type e /\ result = (AUTH_TOKEN_WRONG_SID, None, t))).
Proof using.
  intros Hreq Hper sids auth_type result. unfold result, FindAuthorization. rewrite Hreq, Hper. cbn [negb].
  fold sids auth_type. unfold FindAuthPerOpAuthorization.
  destruct (Z.eqb_spec op_handle 0) as [->|Hne]; [by left|]. right. split; [done|].
  destruct (list_find _ (entries t)) as [[pos e]|] eqn:Ef.
  - right. exists pos, e. apply list_find_Some in Ef as (He & Ho & Hfirst). do 2 (split; [done|]).
    split; [intros j e' Hj He'; by eapply Hfirst|].
    destruct (SatisfiesAuth e sids auth_type) eqn:Hs; [left|right]; (split; [|done]).
    + by apply SatisfiesAuth_spec.
    + by apply SatisfiesAuth_false.
  - left. split; [|done]. apply list_find_None in Ef. by rewrite Forall_forall in Ef.
Qed.

End Authorizations.

(** ** The table over time *)

(** The calls a table can see, with the time the clock returns. *)
Inductive table_call :=
| Add (t : HardwareAuthToken)
| Complete (op_handle : Z)
| Find (key_info : AuthorizationSet) (purpose op_handle : Z)
| OffBody
| ClearAll.

Section History.
Context `{KeymasterTypes}.

Definition call_table (c : table_call) (now : Z) (t : AuthTokenTable) : option AuthTokenTable :=
  match c with
  | Add tok => Some (AddAuthenticationToken tok now t)
  | Complete op => MarkCompleted op t
  | Find key_info purpose op => Some (FindAuthorization key_info purpose op now t).2
  | OffBody => Some (onDeviceOffBody now t)
  | ClearAll => Some (Clear t)
  end.

Inductive reachable (max start : Z) : AuthTokenTable -> Prop :=
| reachable_new : reachable max start (AuthTokenTable_new max start)
| reachable_call t c now t' :
    reachable max start t -> call_table c now t = Some t' -> reachable max start t'.

(** A completed operation's token is not superseded, and the table respects
    its limit. *)
Record table_ok (max : Z) (t : AuthTokenTable) : Prop := {
  table_max : max_entries t = max;
  table_size : zlen (entries t) <= max;
  table_fresh e e' : e ∈ entries t -> e' ∈ entries t -> challenge (token e) <> 0 ->
    Supersedes e' e = false;
}.

(** Tokens completed for an operation, and what can supersede them, survive
    updates that keep the rest of an entry. *)
Definition same_token (e e' : Entry) : Prop :=
  token e = token e' /\ time_received e = time_received e'
  /\ operation_completed e = operation_completed e'.

Lemma Supersedes_same a a' b b' :
  same_token a a' -> same_token b b' -> Supersedes a b = Supersedes a' b'.
Proof using.
  intros (Ha1 & Ha2 & _) (Hb1 & Hb2 & Hb3). unfold Supersedes, is_newer_than, timestamp_host_order.
  by rewrite Ha1, Ha2, Hb1, Hb2, Hb3.
Qed.

Lemma elem_of_insert {A} (l : list A) i x y : y ∈ <[i := x]> l -> y = x \/ y ∈ l.
Proof using.
  intros (j & Hj)%list_elem_of_lookup. apply list_lookup_insert_Some in Hj as [(_ & <- & _)|[_ Hj]].
  - by left.
  - right. by eapply list_elem_of_lookup_2.
Qed.

Lemma zlen_insert {A} (l : list A) i x : zlen (<[i := x]> l) = zlen l.
Proof using. unfold zlen. by rewrite length_insert. Qed.

Lemma elem_of_unsuperseded new es e :
  e ∈ RemoveEntriesSupersededBy new es <-> e ∈ es /\ Supersedes new e = false.
Proof using.
  unfold RemoveEntriesSupersededBy. rewrite !list_elem_of_In, List.filter_In.
  destruct (Supersedes new e); simpl; intuition congruence.
Qed.

Lemma unsuperseded_length new es : zlen (RemoveEntriesSupersededBy new es) <= zlen es.
Proof using.
  unfold zlen, RemoveEntriesSupersededBy.
  pose proof (List.filter_length_le (fun e => negb (Supersedes new e)) es). lia.
Qed.

Lemma add_ok max tok now t :
  0 < max -> table_ok max t -> table_ok max (AddAuthenticationToken tok now t).
Proof using.
  intros Hmax [Hm Hs Hf]. unfold AddAuthenticationToken. set (new := Entry_new tok now).
  set (es := RemoveEntriesSupersededBy new (entries t)).
  assert (Hes : zlen es <= zlen (entries t)) by apply unsuperseded_length.
  assert (Hfresh : forall e e', e = new \/ e ∈ es -> e' = new \/ e' ∈ es ->
            challenge (token e) <> 0 -> Supersedes e' e = false).
  { intros e e' [->|He] He' Hc.
    - unfold Supersedes, new, Entry_new. simpl. simpl in Hc.
      by destruct (Z.eqb_spec (challenge tok) 0).
    - apply elem_of_unsuperseded in He as [He Hn]. destruct He' as [->|He']; [done|].
      apply elem_of_unsuperseded in He' as [He' _]. by apply Hf. }
  destruct (Z.leb_spec (max_entries t) (zlen es)); split; simpl; try done.
  - rewrite zlen_insert. lia.
  - intros e e' He He'. apply Hfresh; by eapply elem_of_insert.
  - rewrite zlen_app. change (zlen [new]) with 1. lia.
  - intros e e' [He|He%list_elem_of_singleton]%elem_of_app
      [He'|He'%list_elem_of_singleton]%elem_of_app; apply Hfresh; auto.
Qed.

Lemma superseded_by_some_false e es e' :
  IsSupersededBySomeEntry e es = false -> e' ∈ es -> Supersedes e' e = false.
Proof using.
  unfold IsSupersededBySomeEntry. intros Hx He'. destruct (Supersedes e' e) eqn:E; [|done].
  assert (Ht : existsb (fun x => Supersedes x e) es = true)
    by (apply existsb_exists; exists e'; by rewrite <- list_elem_of_In).
  congruence.
Qed.

Lemma complete_ok max op t t' : table_ok max t -> MarkCompleted op t = Some t' -> table_ok max t'.
Proof using.
  intros [Hm Hs Hf]. unfold MarkCompleted.
  destruct (list_find _ _) as [[pos found]|] eqn:Ef; [|by intros [= <-]].
  apply list_find_Some in Ef as (Hpos & Hc & _).
  destruct (IsSupersededBySomeEntry found (entries t)) eqn:Ea; [done|].
  set (es := <[pos := mark_completed found]> (entries t)).
  pose proof (list_elem_of_lookup_2 _ _ _ Hpos) as Hfound.
  assert (Hsrc : forall e', e' ∈ es -> exists e0, e0 ∈ entries t
            /\ forall e, Supersedes e' e = Supersedes e0 e).
  { intros e' [->|He']%elem_of_insert; [exists found|exists e']; by split. }
  assert (Hold : forall e e', e ∈ entries t -> e' ∈ es -> challenge (token e) <> 0 ->
            Supersedes e' e = false).
  { intros e e' He He' Hne. destruct (Hsrc e' He') as (e0 & He0 & ->). by apply Hf. }
  assert (Hrest : forall e, e ∈ take pos es ++ drop (S pos) es -> e ∈ entries t /\ e ∈ es).
  { intros e [(j & Hj)%list_elem_of_lookup|(j & Hj)%list_elem_of_lookup]%elem_of_app.
    - apply lookup_take_Some in Hj as [Hj Hlt].
      split; [|by eapply list_elem_of_lookup_2]. unfold es in Hj.
      rewrite list_lookup_insert_ne in Hj by lia. by eapply list_elem_of_lookup_2.
    - rewrite lookup_drop in Hj. split; [|by eapply list_elem_of_lookup_2]. unfold es in Hj.
      rewrite list_lookup_insert_ne in Hj by lia. by eapply list_elem_of_lookup_2. }
  assert (Hlen : zlen es = zlen (entries t)) by apply zlen_insert.
  destruct (IsSupersededBySomeEntry (mark_completed found) es) eqn:Eb; intros [= <-];
    split; simpl; try done.
  - unfold zlen in *. rewrite length_app, length_take, length_drop. lia.
  - intros e e' He He' Hne. apply Hold; [by apply Hrest|by apply Hrest|done].
  - lia.
  - intros e e' [->|He]%elem_of_insert He' Hne; [|by apply Hold].
    by eapply superseded_by_some_false.
Qed.

Lemma find_ok max key_info purpose op now t :
  table_ok max t -> table_ok max (FindAuthorization key_info purpose op now t).2.
Proof using.
  intros Hok. unfold FindAuthorization. destruct (negb _); [done|].
  destruct (KeyRequiresAuthPerOperation _ _); [done|]. unfold FindTimedAuthorization.
  set (auth_type := default _ (GetTagValue key_info Tag_USER_AUTH_TYPE)).
  pose proof (newest_loop_spec (ExtractSids key_info) auth_type (entries t)) as Hn.
  destruct (newest_loop _ _ _ _ _) as [[pos e]|]; [|done]. destruct Hn as (He & _ & _).
  destruct (_ <? _); [done|].
  destruct (match GetTagValue _ _ with Some _ => _ | None => _ end); [done|]. simpl.
  destruct Hok as [Hm Hs Hf]. split; simpl; [done|by rewrite zlen_insert|].
  pose proof (list_elem_of_lookup_2 _ _ _ He) as Hin.
  assert (Hsrc : forall x, x ∈ <[pos := UpdateLastUse now e]> (entries t) ->
            exists x0, x0 ∈ entries t /\ same_token x x0).
  { intros x [->|Hx]%elem_of_insert; [exists e|exists x]; done. }
  intros x y Hx Hy Hne. destruct (Hsrc x Hx) as (x0 & Hx0 & Sx), (Hsrc y Hy) as (y0 & Hy0 & Sy).
  rewrite (Supersedes_same y y0 x x0 Sy Sx). apply Hf; [done|done|]. by destruct Sx as [<- _].
Qed.

(** C35: In every history of calls the table stays within its limit, and the
    assertion of [MarkCompleted] never fails for the handle of an operation,
    which is not zero. *)
Theorem table_history max start t op_handle :
  0 < max -> reachable max start t -> op_handle <> 0 ->
  zlen (entries t) <= max /\ MarkCompleted op_handle t <> None.
Proof using.
  intros Hmax Hr Hop. assert (Hok : table_ok max t).
  { induction Hr as [|t c now t' _ IH Hc].
    - split; simpl; [done|unfold zlen; simpl; lia|]. by intros e e' ?%not_elem_of_nil.
    - destruct c as [tok|op|key_info purpose op| |]; simpl in Hc; try injection Hc as <-.
      + by apply add_ok.
      + by eapply complete_ok.
      + by apply find_ok.
      + by destruct IH.
      + destruct IH. split; simpl; [done|unfold zlen; simpl; lia|].
        by intros e e' ?%not_elem_of_nil. }
  destruct Hok as [Hm Hs Hf]. split; [done|]. unfold MarkCompleted.
  destruct (list_find _ _) as [[pos found]|] eqn:Ef; [|done].
  apply list_find_Some in Ef as (Hpos & Hc & _).
  destruct (IsSupersededBySomeEntry found (entries t)) eqn:Ea.
  2: { cbv zeta. by destruct (IsSupersededBySomeEntry (mark_completed found) _). }
  apply existsb_exists in Ea as (e & He & Hsup). rewrite <- list_elem_of_In in He.
  rewrite Hf in Hsup; [done|by eapply list_elem_of_lookup_2|done|congruence].
Qed.

End History.

(** ** Eviction *)

Lemma min_element_spec es pre best b :
  pre !! best = Some b -> (forall y, y ∈ pre -> last_use b <= last_use y) ->
  exists x, (pre ++ es) !! min_element es best (last_use b) (length pre) = Some x
            /\ forall y, y ∈ pre ++ es -> last_use x <= last_use y.
Proof.
  revert pre best b. induction es as [|e es IH]; intros pre best b Hb Hmin; simpl.
  { exists b. by rewrite app_nil_r. }
  replace (pre ++ e :: es) with ((pre ++ [e]) ++ es) by by rewrite <- app_assoc.
  replace (S (length pre)) with (length (pre ++ [e])) by (rewrite length_app; simpl; lia).
  destruct (Z.ltb_spec (last_use e) (last_use b)) as [Hlt|Hle].
  - apply (IH (pre ++ [e]) (length pre) e).
    + by rewrite lookup_app_r, Nat.sub_diag by lia.
    + intros y [Hy|Hy%list_elem_of_singleton]%elem_of_app; [specialize (Hmin y Hy); lia|].
      by rewrite Hy.
  - apply (IH (pre ++ [e]) best b).
    + by apply lookup_app_l_Some.
    + intros y [Hy|Hy%list_elem_of_singleton]%elem_of_app; [by apply Hmin|]. by rewrite Hy.
Qed.

Lemma oldest_spec es :
  es <> [] -> exists x, es !! oldest es = Some x /\ forall y, y ∈ es -> last_use x <= last_use y.
Proof.
  destruct es as [|e es]; [done|]. intros _. apply (min_element_spec es [e] 0 e); [done|].
  intros y ->%list_elem_of_singleton. done.
Qed.

(** A new token is always entered, and an entry gives way to it only if
    the new token supersedes it or if the table is still full without the
    superseded ones and no entry was used longer ago. *)
Theorem AddAuthenticationToken_evicts tok now t e :
  0 < max_entries t ->
  let new := Entry_new tok now in
  let rest := RemoveEntriesSupersededBy new (entries t) in
  let t' := AddAuthenticationToken tok now t in
  new ∈ entries t'
  /\ (e ∈ entries t ->
      e ∈ entries t' \/ Supersedes new e = true
      \/ max_entries t <= zlen rest /\ forall y, y ∈ rest -> last_use e <= last_use y).
Proof.
  intros Hmax new rest t'. unfold t', AddAuthenticationToken. fold new rest.
  destruct (Z.leb_spec (max_entries t) (zlen rest)) as [Hfull|Hroom]; simpl.
  - assert (Hne : rest <> []) by (intros E; rewrite E in Hfull; unfold zlen in Hfull; simpl in Hfull; lia).
    destruct (oldest_spec rest Hne) as (x & Hx & Hmin).
    pose proof (lookup_lt_Some _ _ _ Hx) as Hlt.
    split; [by apply (list_elem_of_lookup_2 _ (oldest rest)), list_lookup_insert_eq|].
    intros He. destruct (Supersedes new e) eqn:Es; [auto|].
    assert (Hin : e ∈ rest) by by apply elem_of_unsuperseded.
    apply list_elem_of_lookup in Hin as (j & Hj).
    destruct (decide (j = oldest rest)) as [->|Hne'].
    + right. right. split; [done|]. by simplify_eq.
    + left. apply (list_elem_of_lookup_2 _ j). by rewrite list_lookup_insert_ne.
  - split; [apply elem_of_app; right; apply list_elem_of_here|].
    intros He. destruct (Supersedes new e) eqn:Es; [auto|]. left. apply elem_of_app. left.
    by apply elem_of_unsuperseded.
Qed.

(** ** Concrete tables *)

Module SampleTokens.

(** A token of user 7, type password, for operation [c] at time [ts]. *)
Definition tok (c ts : Z) : HardwareAuthToken := mkToken c 7 8 (hton 4 1) (hton 8 ts).
Definition timed_key : AuthorizationSet :=
  [mkParam (10 * 2 ^ 28 + 502) 7 []; mkParam (3 * 2 ^ 28 + 505) 30 [];
   mkParam (1 * 2 ^ 28 + 504) 1 []].
Definition op_key : AuthorizationSet :=
  [mkParam (10 * 2 ^ 28 + 502) 7 []; mkParam (1 * 2 ^ 28 + 504) 1 []].
Definition table : AuthTokenTable :=
  AddAuthenticationToken (tok 5 200) 120
    (AddAuthenticationToken (tok 0 100) 100 (AuthTokenTable_new 2 90)).

End SampleTokens.


Lemma FindAuthorization_per_operation_witness :
  let t := SampleTokens.table in let key_info := SampleTokens.op_key in
  let sids := @ExtractSids sample_types key_info in
  let result := @FindAuthorization sample_types key_info 2 5 130 t in
  (5 = 0 /\ result = (OP_HANDLE_REQUIRED, None, t))
  \/ 5 <> 0 /\
     ((forall e, e ∈ entries t -> ~ open_for 5 e) /\ result = (AUTH_TOKEN_NOT_FOUND, None, t)
      \/ exists pos e, entries t !! pos = Some e /\ open_for 5 e
         /\ (forall j e', (j < pos)%nat -> entries t !! j = Some e' -> ~ open_for 5 e')
         /\ (authorizes sids 1 e /\ result = (OK, Some (token e), t)
             \/ ~ authorizes sids 1 e /\ result = (AUTH_TOKEN_WRONG_SID, None, t))).
Proof. apply (@FindAuthorization_per_operation sample_types); by vm_compute. Defined.

Lemma table_history_witness :
  zlen (entries SampleTokens.table) <= 2 /\ MarkCompleted 5 SampleTokens.table <> None.
Proof.
  apply (@table_history sample_types 2 90); [lia| |lia]. unfold SampleTokens.table.
  eapply (reachable_call 2 90 _ (Add (SampleTokens.tok 5 200)) 120); [|reflexivity].
  eapply (reachable_call 2 90 _ (Add (SampleTokens.tok 0 100)) 100); [|reflexivity].
  apply reachable_new.
Defined.

Lemma AddAuthenticationToken_evicts_witness :
  let new := Entry_new (SampleTokens.tok 6 300) 140 in
  let rest := RemoveEntriesSupersededBy new (entries SampleTokens.table) in
  let t' := AddAuthenticationToken (SampleTokens.tok 6 300) 140 SampleTokens.table in
  let e := Entry_new (SampleTokens.tok 5 200) 120 in
  new ∈ entries t'
  /\ (e ∈ entries SampleTokens.table ->
      e ∈ entries t' \/ Supersedes new e = true
      \/ max_entries SampleTokens.table <= zlen rest
         /\ forall y, y ∈ rest -> last_use e <= last_use y).
Proof. apply AddAuthenticationToken_evicts. done. Defined.

(** Two tokens for one operation, the later one with an older timestamp:
    [MarkCompleted] closes the first one only, however often it is called, and
    the operation stays authorized. *)
Lemma second_token_stays_open :
  let t := AddAuthenticationToken (SampleTokens.tok 5 200) 130
             (AddAuthenticationToken (SampleTokens.tok 5 300) 120 (AuthTokenTable_new 9 90)) in
  exists t1 t2, MarkCompleted 5 t = Some t1 /\ MarkCompleted 5 t1 = Some t2
    /\ (@FindAuthorization sample_types SampleTokens.op_key 2 5 140 t2).1.1 = OK.
Proof. do 2 eexists. do 2 (split; [vm_compute; reflexivity|]). by vm_compute. Qed.

(** A late token of an authenticator event, with an older timestamp than a
    token in the table, is entered although it is superseded; the assertion of
    [MarkCompleted] for a zero handle would fail then. *)
Lemma late_token_superseded :
  let t := AddAuthenticationToken (SampleTokens.tok 0 100) 130
             (AddAuthenticationToken (SampleTokens.tok 9 200) 120 (AuthTokenTable_new 9 90)) in
  zlen (entries t) = 2 /\ MarkCompleted 0 t = None.
Proof. by vm_compute. Qed.
