(* ===== verification/Fmq.v ===== *)
(** * Fmq: the fast message queue

    libfmq/include/fmq/MessageQueue.h.  A queue is a ring of [getSize] bytes in
    shared memory with two free-running 64-bit counters, in bytes.  A memory
    region is an offset into the ring and a number of messages.  A memory
    access outside of the ring is undefined behaviour and the value [None].

    The theorems: the synchronized queue is a bounded FIFO queue of messages,
    as long as the counters do not wrap or the size of the ring divides 2^64;
    the unsynchronized one never returns data that was overwritten before the
    read began; and what happens to a queue of another size when the counters
    do wrap. *)
From S2P Require Import Prelude.

Inductive MQFlavor := kSynchronizedReadWrite | kUnsynchronizedWrite.

#[export] Instance MQFlavor_dec : EqDecision MQFlavor.
Proof. solve_decision. Defined.

(** The ring, its descriptor ([getSize] and [getQuantum]), and the counters. *)
Record MessageQueue := mkMQ {
  mq_size : Z;
  mq_quantum : Z;
  mRing : list Z;
  mReadPtr : Z;
  mWritePtr : Z;
}.

(** A null address is [None]. *)
Record MemRegion := mkRegion { address : option Z; region_length : Z }.
Definition no_region : MemRegion := mkRegion None 0.

Record MemTransaction := mkTransaction { first : MemRegion; second : MemRegion }.
Definition no_transaction : MemTransaction := mkTransaction no_region no_region.

(** ** Transactions *)

(** Pointer arithmetic on a [T*]. *)
Definition advance (q : Z) (a : option Z) (n : Z) : option Z := (fun a => a + n * q) <$> a.

(** [getSlot] *)
Definition getSlot (q : Z) (tx : MemTransaction) (idx : Z) : option Z :=
  let firstRegionLength := region_length (first tx) in
  let secondRegionLength := region_length (second tx) in
  if u64 (firstRegionLength + secondRegionLength) <? idx then None
  else if idx <? firstRegionLength then advance q (address (first tx)) idx
  else advance q (address (second tx)) (idx - firstRegionLength).

(** [getMemRegionInfo]: the counts and base addresses in the two regions. *)
Definition getMemRegionInfo (q : Z) (tx : MemTransaction) (startIdx nMessages : Z)
    : option (Z * Z * option Z * option Z) :=
  let firstRegionLength := region_length (first tx) in
  let secondRegionLength := region_length (second tx) in
  if u64 (firstRegionLength + secondRegionLength) <? u64 (startIdx + nMessages) then None
  else
    let firstCount := if startIdx <? firstRegionLength
                      then Z.min nMessages (firstRegionLength - startIdx) else 0 in
    let secondCount := nMessages - firstCount in
    let firstBase := if negb (firstCount =? 0)
                     then advance q (address (first tx)) startIdx else None in
    let secondStartIdx := if firstRegionLength <? startIdx
                          then startIdx - firstRegionLength else 0 in
    let secondBase := if negb (secondCount =? 0)
                      then advance q (address (second tx)) secondStartIdx else None in
    Some (firstCount, secondCount, firstBase, secondBase).

(** [memcpy] from and to the ring. *)
Definition load_bytes (ring : list Z) (a n : Z) : option (list Z) :=
  if (0 <=? a) && (a + n <=? zlen ring) then Some (slice ring a n) else None.

Definition store_bytes (ring : list Z) (a : Z) (bytes : list Z) : option (list Z) :=
  if (0 <=? a) && (a + zlen bytes <=? zlen ring)
  then Some (take (Z.to_nat a) ring ++ bytes ++ drop (Z.to_nat (a + zlen bytes)) ring)
  else None.

(** One of the two copies: nothing for a count of zero. *)
Definition load_part (q : Z) (ring : list Z) (base : option Z) (count : Z) : option (list Z) :=
  if negb (count =? 0) then a ← base; load_bytes ring a (u64 (count * q)) else Some [].

Definition store_part (q : Z) (ring : list Z) (base : option Z) (count : Z) (bytes : list Z)
    : option (list Z) :=
  if negb (count =? 0) then a ← base; store_bytes ring a (take (Z.to_nat (u64 (count * q))) bytes)
  else Some ring.

(** [copyFrom] into a buffer for [nMessages]: the bytes copied, or [false]. *)
Definition copyFrom (q : Z) (ring : list Z) (tx : MemTransaction) (startIdx nMessages : Z)
    : option (bool * list Z) :=
  match getMemRegionInfo q tx startIdx nMessages with
  | None => Some (false, [])
  | Some (firstCount, secondCount, firstBase, secondBase) =>
      a ← load_part q ring firstBase firstCount;
      b ← load_part q ring secondBase secondCount;
      Some (true, a ++ b)
  end.

(** [copyTo] from the bytes of [nMessages] messages: the ring. *)
Definition copyTo (q : Z) (ring : list Z) (tx : MemTransaction) (data : list Z)
    (startIdx nMessages : Z) : option (bool * list Z) :=
  match getMemRegionInfo q tx startIdx nMessages with
  | None => Some (false, ring)
  | Some (firstCount, secondCount, firstBase, secondBase) =>
      ring ← store_part q ring firstBase firstCount data;
      ring ← store_part q ring secondBase secondCount (drop (Z.to_nat (firstCount * q)) data);
      Some (true, ring)
  end.

(** ** Queue operations *)

Definition getQuantumCount (s : MessageQueue) : Z := mq_size s / mq_quantum s.

Definition availableToReadBytes (s : MessageQueue) : Z := u64 (mWritePtr s - mReadPtr s).
Definition availableToWriteBytes (s : MessageQueue) : Z :=
  u64 (mq_size s - availableToReadBytes s).
Definition availableToWrite (s : MessageQueue) : Z := availableToWriteBytes s / mq_quantum s.
Definition availableToRead (s : MessageQueue) : Z := availableToReadBytes s / mq_quantum s.

Definition set_ring (r : list Z) (s : MessageQueue) : MessageQueue :=
  mkMQ (mq_size s) (mq_quantum s) r (mReadPtr s) (mWritePtr s).
Definition set_readPtr (p : Z) (s : MessageQueue) : MessageQueue :=
  mkMQ (mq_size s) (mq_quantum s) (mRing s) p (mWritePtr s).
Definition set_writePtr (p : Z) (s : MessageQueue) : MessageQueue :=
  mkMQ (mq_size s) (mq_quantum s) (mRing s) (mReadPtr s) p.

(** The regions for [nMessages] from the counter [ptr] on, with wrap-around. *)
Definition regions_at (s : MessageQueue) (ptr nMessages : Z) : MemTransaction :=
  let offset := ptr mod mq_size s in
  let contiguousMessages := (mq_size s - offset) / mq_quantum s in
  if contiguousMessages <? nMessages
  then mkTransaction (mkRegion (Some offset) contiguousMessages)
         (mkRegion (Some 0) (nMessages - contiguousMessages))
  else mkTransaction (mkRegion (Some offset) nMessages) no_region.

(** [beginWrite] *)
Definition beginWrite (flavor : MQFlavor) (s : MessageQueue) (nMessages : Z)
    : bool * MemTransaction :=
  if (bool_decide (flavor = kSynchronizedReadWrite) && (availableToWrite s <? nMessages))
     || (getQuantumCount s <? nMessages)
  then (false, no_transaction)
  else (true, regions_at s (mWritePtr s) nMessages).

(** [commitWrite] *)
Definition commitWrite (s : MessageQueue) (nMessages : Z) : MessageQueue :=
  set_writePtr (u64 (mWritePtr s + u64 (nMessages * mq_quantum s))) s.

(** [beginRead]: the queue may change, since a reader that was overrun is
    moved to the end. *)
Definition beginRead (s : MessageQueue) (nMessages : Z) : bool * MemTransaction * MessageQueue :=
  if mq_size s <? u64 (mWritePtr s - mReadPtr s)
  then (false, no_transaction, set_readPtr (mWritePtr s) s)
  else if u64 (mWritePtr s - mReadPtr s) <? u64 (nMessages * mq_quantum s)
  then (false, no_transaction, s)
  else (true, regions_at s (mReadPtr s) nMessages, s).

(** [commitRead] *)
Definition commitRead (s : MessageQueue) (nMessages : Z) : bool * MessageQueue :=
  if mq_size s <? u64 (mWritePtr s - mReadPtr s) then (false, set_readPtr (mWritePtr s) s)
  else (true, set_readPtr (u64 (mReadPtr s + u64 (nMessages * mq_quantum s))) s).

(** [write]: [data] holds the bytes of [nMessages] messages; a null pointer is
    [None]. *)
Definition write (flavor : MQFlavor) (s : MessageQueue) (data : option (list Z)) (nMessages : Z)
    : option (bool * MessageQueue) :=
  let '(ok, tx) := beginWrite flavor s nMessages in
  if negb ok then Some (false, s)
  else
    match data with
    | None => Some (false, s)
    | Some data =>
        '(ok, ring) ← copyTo (mq_quantum s) (mRing s) tx data 0 nMessages;
        let s := set_ring ring s in
        if negb ok then Some (false, s) else Some (true, commitWrite s nMessages)
    end.

(** [read] into a buffer for [nMessages]: the result, the bytes copied and
    the queue. *)
Definition read (s : MessageQueue) (nMessages : Z) : option (bool * list Z * MessageQueue) :=
  let '(ok, tx, s) := beginRead s nMessages in
  if negb ok then Some (false, [], s)
  else
    '(ok, bytes) ← copyFrom (mq_quantum s) (mRing s) tx 0 nMessages;
    if negb ok then Some (false, bytes, s)
    else let '(ok, s) := commitRead s nMessages in Some (ok, bytes, s).

(** ** Bytes of the ring *)

(** The byte a free-running counter points at. *)
Definition ring_at (size : Z) (ring : list Z) (a : Z) : Z :=
  default 0 (ring !! Z.to_nat (a mod size)).

(** The bytes between two counters. *)
Definition bytes_at (size : Z) (ring : list Z) (p n : Z) : list Z := ring_at size ring <$> seqZ p n.

Lemma zlen_bytes_at size ring p n : 0 <= n -> zlen (bytes_at size ring p n) = n.
Proof. intros Hn. unfold bytes_at, zlen. rewrite length_fmap, length_seqZ. lia. Qed.

Lemma bytes_at_app size ring p m n :
  0 <= m -> 0 <= n -> bytes_at size ring p (m + n) = bytes_at size ring p m ++ bytes_at size ring (p + m) n.
Proof. intros Hm Hn. unfold bytes_at. by rewrite seqZ_app, fmap_app by lia. Qed.

Lemma bytes_at_ext size ring ring' p p' n :
  (forall i, 0 <= i < n -> ring_at size ring (p + i) = ring_at size ring' (p' + i)) ->
  bytes_at size ring p n = bytes_at size ring' p' n.
Proof.
  intros Hx. apply list_eq. intros i. unfold bytes_at. rewrite !list_lookup_fmap.
  destruct (decide (Z.of_nat i < n)) as [Hi|Hi].
  - rewrite !lookup_seqZ_lt by lia. simpl. f_equal. apply Hx. lia.
  - by rewrite !lookup_seqZ_ge by lia.
Qed.

Lemma ring_at_period size ring a : 0 < size -> ring_at size ring (a + size) = ring_at size ring a.
Proof.
  intros Hs. unfold ring_at. by rewrite <- (Z.mul_1_l size) at 1; rewrite Z_mod_plus_full.
Qed.

(** Residues of the counters in a window of one ring. *)
Lemma window_mod size p d :
  0 < size -> 0 <= d < size ->
  (p + d) mod size = if p mod size + d <? size then p mod size + d else p mod size + d - size.
Proof.
  intros Hs Hd. pose proof (Z.mod_pos_bound p size Hs) as Ho.
  pose proof (Z.div_mod p size ltac:(lia)) as E.
  destruct (Z.ltb_spec (p mod size + d) size).
  - symmetry. apply (Z.mod_unique _ _ (p / size)); lia.
  - symmetry. apply (Z.mod_unique _ _ (p / size + 1)); lia.
Qed.

Section Memory.
Context (size : Z) (Hsize : 0 < size).

Lemma load_bytes_at ring p n :
  zlen ring = size -> 0 <= n -> p mod size + n <= size ->
  load_bytes ring (p mod size) n = Some (bytes_at size ring p n).
Proof using Hsize.
  intros Hl Hn Hfit. pose proof (Z.mod_pos_bound p size Hsize) as Ho. unfold load_bytes.
  destruct (_ && _) eqn:E; [|lia]. f_equal. apply list_eq. intros i.
  unfold slice, bytes_at. rewrite list_lookup_fmap.
  destruct (decide (Z.of_nat i < n)) as [Hi|Hi].
  - rewrite lookup_take_lt by lia. rewrite lookup_drop, lookup_seqZ_lt by lia. simpl.
    unfold ring_at. rewrite window_mod by lia.
    destruct (Z.ltb_spec (p mod size + Z.of_nat i) size); [|lia].
    replace (Z.to_nat (p mod size + Z.of_nat i)) with (Z.to_nat (p mod size) + i)%nat by lia.
    unfold zlen in Hl. destruct (lookup_lt_is_Some_2 ring (Z.to_nat (p mod size) + i)) as [x ->];
      [lia|done].
  - rewrite lookup_seqZ_ge by lia. apply lookup_ge_None. rewrite length_take. lia.
Qed.

Lemma store_bytes_at ring p bytes :
  zlen ring = size -> p mod size + zlen bytes <= size -> exists ring',
    store_bytes ring (p mod size) bytes = Some ring' /\ zlen ring' = size
    /\ forall d, 0 <= d < size ->
         ring_at size ring' (p + d)
         = if d <? zlen bytes then default 0 (bytes !! Z.to_nat d) else ring_at size ring (p + d).
Proof using Hsize.
  intros Hl Hfit. pose proof (Z.mod_pos_bound p size Hsize) as Ho. unfold store_bytes.
  destruct (_ && _) eqn:E; [|lia]. eexists. split; [done|]. unfold zlen in *.
  set (o := Z.to_nat (p mod size)).
  assert (Ht : length (take o ring) = o) by (rewrite length_take; lia).
  split; [rewrite !length_app, length_drop, Ht; lia|].
  intros d Hd. unfold ring_at. rewrite window_mod by lia.
  destruct (Z.ltb_spec d (Z.of_nat (length bytes))) as [Hin|Hout].
  - destruct (Z.ltb_spec (p mod size + d) size); [|lia].
    rewrite lookup_app_r by lia. rewrite lookup_app_l by lia. do 2 f_equal. lia.
  - destruct (Z.ltb_spec (p mod size + d) size).
    + rewrite lookup_app_r, lookup_app_r by lia. rewrite lookup_drop. do 2 f_equal. lia.
    + rewrite lookup_app_l by lia. by rewrite lookup_take_lt by lia.
Qed.

End Memory.

(** ** Transactions on the ring *)

Section Transactions.
Context (size q c : Z) (Hq : 0 < q) (Hc : 0 < c) (Hsize : size = c * q) (Hmax : size < 2 ^ 64).

Lemma size_pos : 0 < size.
Proof using Hq Hc Hsize. rewrite Hsize. nia. Qed.

(** Where an aligned counter points: at the [k]-th message from the end. *)
Lemma aligned_offset p :
  p mod q = 0 -> exists k, 1 <= k <= c /\ (size - p mod size) / q = k /\ size - p mod size = k * q.
Proof using Hq Hc Hsize.
  intros Hp. pose proof (Z.mod_pos_bound p size size_pos) as Ho.
  assert (Hdiv : (size - p mod size) mod q = 0).
  { rewrite Hsize. rewrite (Z.mul_comm c q), Z.rem_mul_r, Hp, Z.add_0_l by lia.
    rewrite <- Z.mul_sub_distr_l, Z.mul_comm. apply Z.mod_mul. lia. }
  exists ((size - p mod size) / q). pose proof (Z.div_mod (size - p mod size) q ltac:(lia)) as E.
  rewrite Hdiv in E. nia.
Qed.

Lemma load_part_at ring base p count :
  zlen ring = size -> 0 <= count -> p mod size + count * q <= size ->
  (count <> 0 -> base = Some (p mod size)) ->
  load_part q ring base count = Some (bytes_at size ring p (count * q)).
Proof using Hq Hc Hsize Hmax.
  intros Hl Hn Hfit Hb. unfold load_part. pose proof (Z.mod_pos_bound p size size_pos).
  destruct (Z.eqb_spec count 0) as [->|Hne]; [done|]. cbn [negb]. rewrite Hb by done. simpl.
  rewrite uint_small by (unfold is_uint; nia). apply load_bytes_at; [apply size_pos|done|nia|done].
Qed.

Lemma store_part_at ring base p count data :
  zlen ring = size -> 0 <= count -> p mod size + count * q <= size -> count * q <= zlen data ->
  (count <> 0 -> base = Some (p mod size)) -> exists ring',
    store_part q ring base count data = Some ring' /\ zlen ring' = size
    /\ forall d, 0 <= d < size ->
         ring_at size ring' (p + d)
         = if d <? count * q then default 0 (data !! Z.to_nat d) else ring_at size ring (p + d).
Proof using Hq Hc Hsize Hmax.
  intros Hl Hn Hfit Hd Hb. unfold store_part. pose proof (Z.mod_pos_bound p size size_pos).
  destruct (Z.eqb_spec count 0) as [->|Hne].
  { exists ring. split; [done|]. split; [done|]. intros d Hd'.
    destruct (Z.ltb_spec d (0 * q)); [lia|done]. }
  cbn [negb]. rewrite Hb by done. simpl. rewrite uint_small by (unfold is_uint; nia).
  set (bytes := take (Z.to_nat (count * q)) data).
  assert (Hz : zlen bytes = count * q)
    by (unfold zlen, bytes in *; rewrite length_take; nia).
  destruct (store_bytes_at size size_pos ring p bytes Hl ltac:(lia)) as (ring' & E & Hl' & Hat).
  exists ring'. split; [done|]. split; [done|]. intros d Hd'. rewrite Hat, Hz by done.
  destruct (Z.ltb_spec d (count * q)); [|done]. unfold bytes. by rewrite lookup_take_lt by lia.
Qed.

(** The counts and addresses in the regions of a transaction. *)
Lemma region_info s p n k :
  mq_size s = size -> mq_quantum s = q -> p mod q = 0 -> u64 p mod size = p mod size ->
  (size - p mod size) / q = k -> 1 <= k -> 0 <= n <= c ->
  exists fb sb, getMemRegionInfo q (regions_at s (u64 p) n) 0 n
    = Some (Z.min n k, n - Z.min n k, fb, sb)
    /\ (Z.min n k <> 0 -> fb = Some (p mod size)) /\ (n - Z.min n k <> 0 -> sb = Some 0).
Proof using Hq Hc Hsize Hmax.
  intros Es Eq Hp Hu Hk Hk1 Hn. unfold regions_at, getMemRegionInfo. rewrite Es, Eq, Hu, Hk.
  assert (Hn64 : n < 2 ^ 64) by nia.
  destruct (Z.ltb_spec k n); cbn [first second region_length address no_region];
    rewrite !uint_small by (unfold is_uint; lia).
  - replace (k + (n - k)) with n by lia. rewrite Z.ltb_irrefl.
    destruct (Z.ltb_spec 0 k); [|lia]. rewrite Z.sub_0_r. do 2 eexists. split; [done|].
    destruct (Z.eqb_spec (Z.min n k) 0); [lia|]. destruct (Z.eqb_spec (n - Z.min n k) 0); [lia|].
    destruct (Z.ltb_spec k 0); [lia|]. cbn [negb advance fmap option_fmap option_map].
    split; intros _; simpl; f_equal; lia.
  - replace (n + 0) with n by lia. rewrite Z.ltb_irrefl.
    assert (E : (if 0 <? n then Z.min n (n - 0) else 0) = Z.min n k)
      by (destruct (Z.ltb_spec 0 n); lia).
    rewrite E. do 2 eexists. split; [done|]. split; [|lia]. intros Hne.
    destruct (Z.eqb_spec (Z.min n k) 0); [done|]. simpl. f_equal. lia.
Qed.

Lemma second_region_mod p k : size - p mod size = k * q -> (p + k * q) mod size = 0.
Proof using Hq Hc Hsize.
  intros E. rewrite <- E. pose proof size_pos.
  replace (p + (size - p mod size)) with (0 + (p / size + 1) * size)
    by (pose proof (Z.div_mod p size ltac:(lia)); lia).
  by rewrite Z_mod_plus_full, Z.mod_0_l by lia.
Qed.

Lemma copyFrom_regions s ring p n :
  mq_size s = size -> mq_quantum s = q -> p mod q = 0 -> u64 p mod size = p mod size ->
  0 <= n <= c -> zlen ring = size ->
  copyFrom q ring (regions_at s (u64 p) n) 0 n = Some (true, bytes_at size ring p (n * q)).
Proof using Hq Hc Hsize Hmax.
  intros Es Eq Hp Hu Hn Hl. destruct (aligned_offset p Hp) as (k & Hk & Hkdiv & Hkq).
  destruct (region_info s p n k Es Eq Hp Hu Hkdiv ltac:(lia) Hn) as (fb & sb & E & Hfb & Hsb).
  pose proof (second_region_mod p k Hkq) as H0. unfold copyFrom. rewrite E.
  rewrite (load_part_at ring fb p) by (done || nia). simpl.
  rewrite (load_part_at ring sb (p + k * q)); [|done|lia|rewrite H0; nia|].
  2: { intros Hne. rewrite H0. by apply Hsb. }
  simpl. do 2 f_equal. destruct (Z.le_gt_cases n k).
  - rewrite Z.min_l, Z.sub_diag by lia. by rewrite app_nil_r.
  - rewrite Z.min_r, <- bytes_at_app by nia. f_equal. lia.
Qed.

Lemma copyTo_regions s ring p n data :
  mq_size s = size -> mq_quantum s = q -> p mod q = 0 -> u64 p mod size = p mod size ->
  0 <= n <= c -> zlen ring = size -> zlen data = n * q -> exists ring',
    copyTo q ring (regions_at s (u64 p) n) data 0 n = Some (true, ring') /\ zlen ring' = size
    /\ forall d, 0 <= d < size ->
         ring_at size ring' (p + d)
         = if d <? n * q then default 0 (data !! Z.to_nat d) else ring_at size ring (p + d).
Proof using Hq Hc Hsize Hmax.
  intros Es Eq Hp Hu Hn Hl Hd. destruct (aligned_offset p Hp) as (k & Hk & Hkdiv & Hkq).
  destruct (region_info s p n k Es Eq Hp Hu Hkdiv ltac:(lia) Hn) as (fb & sb & E & Hfb & Hsb).
  pose proof (second_region_mod p k Hkq) as H0. unfold copyTo. rewrite E.
  set (m := Z.min n k) in *.
  destruct (store_part_at ring fb p m data) as (r1 & E1 & Hl1 & Hat1); [done|lia|nia|nia|done|].
  rewrite E1. simpl. set (rest := drop (Z.to_nat (m * q)) data).
  assert (Hrest : zlen rest = n * q - m * q)
    by (unfold rest, zlen in *; rewrite length_drop; nia).
  destruct (store_part_at r1 sb (p + k * q) (n - m) rest) as (r2 & E2 & Hl2 & Hat2);
    [done|lia|rewrite H0; nia|nia|rewrite H0; done|].
  rewrite E2. simpl. exists r2. split; [done|]. split; [done|]. intros d Hdr.
  assert (Hr1 : ring_at size r2 (p + d) = if (m * q <=? d) && (d <? n * q)
                then default 0 (data !! Z.to_nat d) else ring_at size r1 (p + d)).
  { destruct (Z.le_gt_cases (k * q) d) as [Hge|Hlt].
    - replace (p + d) with (p + k * q + (d - k * q)) by lia. rewrite Hat2 by nia.
      destruct (Z.le_gt_cases n k) as [Hnk|Hnk].
      + replace (n - m) with 0 by lia. destruct (Z.ltb_spec (d - k * q) (0 * q)); [lia|].
        destruct (_ && _) eqn:Eb; [nia|done].
      + assert (m = k) as Em by lia. rewrite Em in *.
        destruct (Z.ltb_spec (d - k * q) ((n - k) * q)), (_ && _) eqn:Eb;
          [|exfalso; nia|exfalso; nia|done].
        unfold rest. rewrite lookup_drop. do 2 f_equal. nia.
    - rewrite <- (ring_at_period size r2), <- (ring_at_period size r1) by apply size_pos.
      replace (p + d + size) with (p + k * q + (d + size - k * q)) by lia. rewrite Hat2 by nia.
      destruct (Z.ltb_spec (d + size - k * q) ((n - m) * q)); [nia|].
      destruct (_ && _) eqn:Eb; [nia|done]. }
  rewrite Hr1, Hat1 by done. destruct (_ && _) eqn:Eb, (Z.ltb_spec d (n * q)), (Z.ltb_spec d (m * q));
    try nia; done.
Qed.

End Transactions.

(** ** A queue between two counters *)

(** The queue [s] with [R] bytes read and [W] bytes written so far.  The
    counters are those numbers modulo 2^64, which tells the position in the
    ring as long as they are below 2^64 or the size divides it. *)
Definition position_ok (size p : Z) : Prop := 2 ^ 64 mod size = 0 \/ p < 2 ^ 64.

Record queue_ok (s : MessageQueue) (R W : Z) : Prop := {
  quantum_pos : 0 < mq_quantum s;
  size_aligned : exists c, 0 < c /\ mq_size s = c * mq_quantum s;
  size_max : mq_size s < 2 ^ 64;
  ring_length : zlen (mRing s) = mq_size s;
  read_ptr : mReadPtr s = u64 R;
  write_ptr : mWritePtr s = u64 W;
  counters : 0 <= R <= W /\ W <= R + mq_size s;
  read_aligned : R mod mq_quantum s = 0;
  write_aligned : W mod mq_quantum s = 0;
  write_position : position_ok (mq_size s) W;
}.

(** The bytes waiting in the queue. *)
Definition contents (s : MessageQueue) (R W : Z) : list Z :=
  bytes_at (mq_size s) (mRing s) R (W - R).

Lemma position_mod size p : 0 < size -> 0 <= p -> position_ok size p -> u64 p mod size = p mod size.
Proof.
  intros Hs Hp [Hd|Hlt]; [|by rewrite uint_small by (unfold is_uint; lia)].
  unfold uint. apply Z.mod_mod_divide, Z.mod_divide; [lia|done].
Qed.

Lemma u64_diff R W : 0 <= W - R < 2 ^ 64 -> u64 (u64 W - u64 R) = W - R.
Proof.
  intros Hd. unfold uint. rewrite <- Zminus_mod. by apply Z.mod_small.
Qed.

Lemma u64_add p n : u64 (u64 p + n) = u64 (p + n).
Proof. unfold uint. apply Zplus_mod_idemp_l. Qed.

Section Queue.
Context (s : MessageQueue) (R W : Z) (Hok : queue_ok s R W).

Lemma ok_size_pos : 0 < mq_size s.
Proof using Hok. destruct Hok as [Hq (c & Hc & ->)]. nia. Qed.

Lemma unread_bytes : u64 (mWritePtr s - mReadPtr s) = W - R.
Proof using Hok.
  destruct Hok. rewrite read_ptr0, write_ptr0. apply u64_diff. lia.
Qed.

Lemma read_position : position_ok (mq_size s) R.
Proof using Hok. destruct Hok as [_ _ _ _ _ _ Hc _ _ [?|?]]; [by left|right; lia]. Qed.

Lemma beginWrite_ok n :
  0 <= n -> beginWrite kSynchronizedReadWrite s n
  = if n * mq_quantum s <=? mq_size s - (W - R)
    then (true, regions_at s (u64 W) n) else (false, no_transaction).
Proof using Hok.
  intros Hn. unfold beginWrite, availableToWrite, availableToWriteBytes, availableToReadBytes,
    getQuantumCount. rewrite unread_bytes. cbn [andb].
  destruct Hok as [Hq (c & Hc & Es) Hmax _ _ -> Hcnt _ _ _].
  rewrite uint_small by (unfold is_uint; lia). rewrite bool_decide_eq_true_2 by done. cbn [andb].
  rewrite Es at 2. rewrite Z.div_mul by lia.
  destruct (Z.leb_spec (n * mq_quantum s) (mq_size s - (W - R))) as [Hle|Hlt].
  - pose proof (Z.div_le_lower_bound (mq_size s - (W - R)) (mq_quantum s) n ltac:(lia) ltac:(lia)).
    destruct (Z.ltb_spec ((mq_size s - (W - R)) / mq_quantum s) n); [lia|].
    destruct (Z.ltb_spec c n); [nia|done].
  - pose proof (Z.div_lt_upper_bound (mq_size s - (W - R)) (mq_quantum s) n ltac:(lia) ltac:(lia)).
    by destruct (Z.ltb_spec ((mq_size s - (W - R)) / mq_quantum s) n); [|lia].
Qed.

Lemma beginRead_ok n :
  0 <= n * mq_quantum s < 2 ^ 64 -> beginRead s n
  = if n * mq_quantum s <=? W - R
    then (true, regions_at s (u64 R) n, s) else (false, no_transaction, s).
Proof using Hok.
  intros Hn. unfold beginRead. rewrite unread_bytes, uint_small by done.
  destruct Hok as [_ _ _ _ -> _ Hcnt _ _ _].
  destruct (Z.ltb_spec (mq_size s) (W - R)); [lia|].
  by destruct (Z.ltb_spec (W - R) (n * mq_quantum s)), (Z.leb_spec (n * mq_quantum s) (W - R)); try lia.
Qed.

End Queue.

(** ** The synchronized queue is a FIFO queue *)

Lemma write_ok s R W data n :
  queue_ok s R W -> 0 <= n -> zlen data = n * mq_quantum s ->
  position_ok (mq_size s) (W + zlen data) ->
  if zlen data <=? mq_size s - (W - R)
  then exists s', write kSynchronizedReadWrite s (Some data) n = Some (true, s')
         /\ queue_ok s' R (W + zlen data) /\ mq_size s' = mq_size s /\ mq_quantum s' = mq_quantum s
         /\ contents s' R (W + zlen data) = contents s R W ++ data
  else write kSynchronizedReadWrite s (Some data) n = Some (false, s).
Proof.
  intros Hok Hn Hd Hpos. unfold write. rewrite (beginWrite_ok s R W Hok n Hn), <- Hd.
  destruct (Z.leb_spec (zlen data) (mq_size s - (W - R))) as [Hle|_]; [|done]. cbn [negb].
  pose proof (ok_size_pos s R W Hok) as Hsp.
  destruct Hok as [Hq (c & Hc & Es) Hmax Hl Hr Hw Hcnt HR HW HP].
  destruct (copyTo_regions (mq_size s) (mq_quantum s) c Hq Hc Es Hmax s (mRing s) W n data)
    as (ring' & E & Hl' & Hat); [done|done|done|apply position_mod; [done|lia|done]|nia|done|done|].
  rewrite E. simpl. eexists. split; [done|].
  assert (Hold : forall a, R <= a < W -> ring_at (mq_size s) ring' a = ring_at (mq_size s) (mRing s) a).
  { intros a Ha. rewrite <- (ring_at_period _ ring'), <- (ring_at_period _ (mRing s)) by done.
    replace (a + mq_size s) with (W + (a + mq_size s - W)) by lia. rewrite Hat by lia.
    by destruct (Z.ltb_spec (a + mq_size s - W) (n * mq_quantum s)); [lia|]. }
  split.
  { split; simpl; try done; try lia.
    - by exists c.
    - rewrite Hw, (uint_small 64 (n * mq_quantum s)) by (unfold is_uint; lia).
      by rewrite u64_add, Hd.
    - rewrite Hd, Zplus_mod, HW, Z.mod_mul by lia. done. }
  do 2 (split; [done|]). unfold contents. simpl.
  replace (W + zlen data - R) with ((W - R) + zlen data) by lia.
  rewrite bytes_at_app by (pose proof (zlen_nonneg data); lia). f_equal.
  - apply bytes_at_ext. intros i Hi. apply Hold. lia.
  - replace (R + (W - R)) with W by lia. apply list_eq. intros i. unfold bytes_at.
    rewrite list_lookup_fmap. unfold zlen in *. destruct (decide (i < length data)%nat) as [Hi|Hi].
    + rewrite lookup_seqZ_lt by lia. simpl. rewrite Hat by lia.
      destruct (Z.ltb_spec (Z.of_nat i) (n * mq_quantum s)); [|lia]. rewrite Nat2Z.id.
      by destruct (lookup_lt_is_Some_2 data i Hi) as [x ->].
    + rewrite lookup_seqZ_ge by lia. symmetry. apply lookup_ge_None. lia.
Qed.

Lemma read_ok s R W n :
  queue_ok s R W -> 0 <= n * mq_quantum s < 2 ^ 64 ->
  if n * mq_quantum s <=? W - R
  then exists s', read s n
         = Some (true, take (Z.to_nat (n * mq_quantum s)) (contents s R W), s')
         /\ queue_ok s' (R + n * mq_quantum s) W
         /\ mq_size s' = mq_size s /\ mq_quantum s' = mq_quantum s
         /\ contents s' (R + n * mq_quantum s) W
            = drop (Z.to_nat (n * mq_quantum s)) (contents s R W)
  else read s n = Some (false, [], s).
Proof.
  intros Hok Hn. unfold read. rewrite (beginRead_ok s R W Hok n Hn).
  pose proof (read_position s R W Hok) as HRp. pose proof (unread_bytes s R W Hok) as Hun.
  pose proof (ok_size_pos s R W Hok) as Hsp.
  destruct (Z.leb_spec (n * mq_quantum s) (W - R)) as [Hle|_]; [|done]. cbn [negb].
  destruct Hok as [Hq (c & Hc & Es) Hmax Hl Hr Hw Hcnt HR HW HP].
  rewrite (copyFrom_regions (mq_size s) (mq_quantum s) c Hq Hc Es Hmax s (mRing s) R n);
    [|done|done|done|apply position_mod; [done|lia|done]|nia|done].
  simpl. unfold commitRead. rewrite Hun. destruct (Z.ltb_spec (mq_size s) (W - R)); [lia|].
  assert (Hsplit : contents s R W = bytes_at (mq_size s) (mRing s) R (n * mq_quantum s)
            ++ bytes_at (mq_size s) (mRing s) (R + n * mq_quantum s) (W - (R + n * mq_quantum s))).
  { unfold contents. rewrite <- bytes_at_app by lia. f_equal. lia. }
  assert (Hlen : length (bytes_at (mq_size s) (mRing s) R (n * mq_quantum s))
            = Z.to_nat (n * mq_quantum s))
    by (pose proof (zlen_bytes_at (mq_size s) (mRing s) R (n * mq_quantum s)); unfold zlen in *; lia).
  eexists. split; [by rewrite Hsplit, take_app_length'|]. split.
  { split; simpl; try done; try lia.
    - by exists c.
    - by rewrite Hr, (uint_small 64 (n * mq_quantum s)), u64_add by done.
    - rewrite Zplus_mod, HR, Z.mod_mul by lia. done. }
  do 2 (split; [done|]). by rewrite Hsplit, drop_app_length'.
Qed.

(** Operations on a queue and their results. *)
Inductive queue_op :=
| Put (data : list Z) (n : Z)
| Take (n : Z).

Inductive queue_result :=
| PutDone (ok : bool)
| TakeDone (ok : bool) (bytes : list Z).

Fixpoint run_queue (ops : list queue_op) (s : MessageQueue) : option (list queue_result) :=
  match ops with
  | [] => Some []
  | Put data n :: ops =>
      '(ok, s) ← write kSynchronizedReadWrite s (Some data) n;
      rs ← run_queue ops s;
      Some (PutDone ok :: rs)
  | Take n :: ops =>
      '(ok, bytes, s) ← read s n;
      rs ← run_queue ops s;
      Some (TakeDone ok bytes :: rs)
  end.

(** The specification: a bounded queue of bytes. *)
Fixpoint run_fifo (size q : Z) (ops : list queue_op) (queue : list Z) : list queue_result :=
  match ops with
  | [] => []
  | Put data n :: ops =>
      if zlen queue + zlen data <=? size
      then PutDone true :: run_fifo size q ops (queue ++ data)
      else PutDone false :: run_fifo size q ops queue
  | Take n :: ops =>
      if n * q <=? zlen queue
      then TakeDone true (take (Z.to_nat (n * q)) queue)
           :: run_fifo size q ops (drop (Z.to_nat (n * q)) queue)
      else TakeDone false [] :: run_fifo size q ops queue
  end.

(** The buffers of an operation hold as many bytes as the messages take. *)
Definition op_ok (q : Z) (o : queue_op) : Prop :=
  match o with
  | Put data n => 0 <= n /\ zlen data = n * q
  | Take n => 0 <= n * q < 2 ^ 64
  end.

Fixpoint bytes_put (ops : list queue_op) : Z :=
  match ops with
  | [] => 0
  | Put data _ :: ops => zlen data + bytes_put ops
  | Take _ :: ops => bytes_put ops
  end.

Lemma bytes_put_nonneg ops : 0 <= bytes_put ops.
Proof. induction ops as [|[data n|n] ops IH]; simpl; [lia| |done]. pose proof (zlen_nonneg data). lia. Qed.

Lemma position_weaken size p p' : position_ok size p -> p' <= p -> position_ok size p'.
Proof. intros [?|?] ?; [by left|right; lia]. Qed.

Lemma run_queue_fifo ops s R W :
  queue_ok s R W -> Forall (op_ok (mq_quantum s)) ops ->
  position_ok (mq_size s) (W + bytes_put ops) ->
  run_queue ops s = Some (run_fifo (mq_size s) (mq_quantum s) ops (contents s R W)).
Proof.
  revert s R W. induction ops as [|o ops IH]; intros s R W Hok Hops Hpos; [done|].
  inversion Hops as [|? ? Ho Hops']; subst. pose proof (bytes_put_nonneg ops) as Hnn.
  assert (Hlen : zlen (contents s R W) = W - R).
  { apply zlen_bytes_at. destruct Hok. lia. }
  destruct o as [data n|n]; simpl in *.
  - destruct Ho as [Hn Hd]. pose proof (write_ok s R W data n Hok Hn Hd) as Hw.
    specialize (Hw ltac:(eapply position_weaken; [exact Hpos|lia])). rewrite Hlen.
    replace (W - R + zlen data <=? mq_size s) with (zlen data <=? mq_size s - (W - R))
      by (destruct (Z.leb_spec (zlen data) (mq_size s - (W - R))),
            (Z.leb_spec (W - R + zlen data) (mq_size s)); lia).
    destruct (zlen data <=? mq_size s - (W - R)).
    + destruct Hw as (s' & -> & Hok' & Es & Eq & Hc). simpl.
      rewrite (IH s' R (W + zlen data)); [by rewrite Es, Eq, Hc|done|by rewrite Eq|].
      rewrite Es. eapply position_weaken; [exact Hpos|lia].
    + rewrite Hw. simpl. rewrite (IH s R W); [done|done|done|].
      eapply position_weaken; [exact Hpos|]. pose proof (zlen_nonneg data). lia.
  - pose proof (read_ok s R W n Hok Ho) as Hr. rewrite Hlen.
    destruct (n * mq_quantum s <=? W - R).
    + destruct Hr as (s' & -> & Hok' & Es & Eq & Hc). simpl.
      rewrite (IH s' (R + n * mq_quantum s) W); [by rewrite Es, Eq, Hc|done|by rewrite Eq|by rewrite Es].
    + rewrite Hr. simpl. by rewrite (IH s R W).
Qed.

(** A queue for [n] messages of [q] bytes after [initMemory]. *)
Definition MessageQueue_new (n q : Z) (ring : list Z) : MessageQueue := mkMQ (n * q) q ring 0 0.

Lemma new_ok n q ring :
  0 < n -> 0 < q -> n * q < 2 ^ 64 -> zlen ring = n * q -> queue_ok (MessageQueue_new n q ring) 0 0.
Proof.
  intros Hn Hq Hmax Hl. split; simpl; try done; try nia; try by rewrite Z.mod_0_l by lia.
  - by exists n.
  - right. lia.
Qed.

(** C11: The synchronized queue is a bounded FIFO queue: from its
    initialization on, every sequence of non-blocking reads and writes gives
    exactly the results of the specification, data included, for any message
    size and wherever the ring wraps around, until 2^64 bytes have been
    written; without that limit if the size of the ring divides 2^64. *)
Theorem queue_is_fifo ops n q ring :
  0 < n -> 0 < q -> n * q < 2 ^ 64 -> zlen ring = n * q ->
  Forall (op_ok q) ops -> position_ok (n * q) (bytes_put ops) ->
  run_queue ops (MessageQueue_new n q ring) = Some (run_fifo (n * q) q ops []).
Proof.
  intros Hn Hq Hmax Hl Hops Hpos.
  by apply (run_queue_fifo ops (MessageQueue_new n q ring) 0 0); [apply new_ok|..].
Qed.

Lemma queue_is_fifo_witness :
  let ops := [Put [1; 2; 3; 4] 2; Take 1; Put [5; 6; 7; 8] 2; Take 3; Take 1] in
  run_queue ops (MessageQueue_new 3 2 [0; 0; 0; 0; 0; 0]) = Some (run_fifo 6 2 ops []).
Proof.
  apply (queue_is_fifo _ 3 2); try done.
  - repeat (apply List.Forall_cons; [by vm_compute|]). apply List.Forall_nil.
  - right. by vm_compute.
Defined.

(** With a ring whose size does not divide 2^64 the counters may not wrap,
    although the code takes their overflow for legal: in a queue of three
    one-byte messages whose counters are about to wrap, the second write
    overwrites a byte of the first that was not read yet, and the reader gets
    wrong data. *)
Theorem counter_wrap_corrupts :
  let s := mkMQ 3 1 [0; 0; 0] (2 ^ 64 - 1) (2 ^ 64 - 1) in
  run_queue [Put [1; 2] 2; Put [3] 1; Take 1; Take 1] s
  = Some [PutDone true; PutDone true; TakeDone true [1]; TakeDone true [1]]
  /\ run_fifo 3 1 [Put [1; 2] 2; Put [3] 1; Take 1; Take 1] []
     = [PutDone true; PutDone true; TakeDone true [1]; TakeDone true [2]].
Proof. by vm_compute. Qed.

(** [getSlot] refuses only indices beyond the first one that is out of
    range. *)
Lemma getSlot_off_by_one :
  let s := MessageQueue_new 4 1 [0; 0; 0; 0] in
  getSlot 1 (regions_at s 3 3) 3 = Some 2 /\ getSlot 1 (regions_at s 3 3) 4 = None.
Proof. by vm_compute. Qed.

(** ** The unsynchronized queue *)

Fixpoint run_unsynchronized (ops : list queue_op) (s : MessageQueue) : option (list queue_result) :=
  match ops with
  | [] => Some []
  | Put data n :: ops =>
      '(ok, s) ← write kUnsynchronizedWrite s (Some data) n;
      rs ← run_unsynchronized ops s;
      Some (PutDone ok :: rs)
  | Take n :: ops =>
      '(ok, bytes, s) ← read s n;
      rs ← run_unsynchronized ops s;
      Some (TakeDone ok bytes :: rs)
  end.

(** The specification: writes never wait; a reader at position [R] of
    everything that was sent reads on, unless it has fallen behind by more
    than the size of the ring, when it skips to the end. *)
Fixpoint run_lossy (size q : Z) (ops : list queue_op) (sent : list Z) (R : Z) : list queue_result :=
  match ops with
  | [] => []
  | Put data n :: ops =>
      if zlen data <=? size then PutDone true :: run_lossy size q ops (sent ++ data) R
      else PutDone false :: run_lossy size q ops sent R
  | Take n :: ops =>
      if size <? zlen sent - R then TakeDone false [] :: run_lossy size q ops sent (zlen sent)
      else if n * q <=? zlen sent - R
      then TakeDone true (slice sent R (n * q)) :: run_lossy size q ops sent (R + n * q)
      else TakeDone false [] :: run_lossy size q ops sent R
  end.

(** The ring holds the last bytes of what was sent. *)
Record lossy_ok (s : MessageQueue) (c : Z) (sent : list Z) (R : Z) : Prop := {
  lossy_quantum : 0 < mq_quantum s;
  lossy_count : 0 < c;
  lossy_size : mq_size s = c * mq_quantum s;
  lossy_max : mq_size s < 2 ^ 64;
  lossy_ring : zlen (mRing s) = mq_size s;
  lossy_read : mReadPtr s = u64 R;
  lossy_write : mWritePtr s = u64 (zlen sent);
  lossy_counters : 0 <= R <= zlen sent /\ zlen sent < 2 ^ 64;
  lossy_aligned : R mod mq_quantum s = 0 /\ zlen sent mod mq_quantum s = 0;
  lossy_data a : 0 <= a < zlen sent -> zlen sent - mq_size s <= a ->
    ring_at (mq_size s) (mRing s) a = default 0 (sent !! Z.to_nat a);
}.

Lemma lossy_write_ok s c sent R data n :
  lossy_ok s c sent R -> 0 <= n -> zlen data = n * mq_quantum s -> zlen sent + zlen data < 2 ^ 64 ->
  if zlen data <=? mq_size s
  then exists s', write kUnsynchronizedWrite s (Some data) n = Some (true, s')
         /\ mq_size s' = mq_size s /\ mq_quantum s' = mq_quantum s /\ lossy_ok s' c (sent ++ data) R
  else write kUnsynchronizedWrite s (Some data) n = Some (false, s).
Proof.
  intros [Hq Hc Es Hmax Hl Hr Hw Hcnt [HR HW] Hdat] Hn Hd Hpos.
  unfold write, beginWrite, getQuantumCount. rewrite bool_decide_eq_false_2 by done. cbn [andb orb].
  assert (Hcount : mq_size s / mq_quantum s = c) by (rewrite Es; apply Z.div_mul; lia).
  rewrite Hcount.
  destruct (Z.leb_spec (zlen data) (mq_size s)), (Z.ltb_spec c n);
    [exfalso; nia| |done|exfalso; nia].
  cbn [negb]. rewrite Hw. pose proof (zlen_nonneg sent) as Hnn.
  destruct (copyTo_regions (mq_size s) (mq_quantum s) c Hq Hc Es Hmax s (mRing s) (zlen sent) n data)
    as (ring' & E & Hl' & Hat); [done|done|done|by rewrite uint_small by (unfold is_uint; lia)|lia|done|done|].
  rewrite E. simpl. eexists. split; [done|]. split; [done|]. split; [done|].
  pose proof (size_pos (mq_size s) (mq_quantum s) c Hq Hc Es) as Hsp.
  split; simpl; try done; rewrite ?zlen_app; try lia.
  - rewrite Hw, (uint_small 64 (n * mq_quantum s)) by (unfold is_uint; lia). by rewrite u64_add, Hd.
  - split; [done|]. rewrite Hd, Zplus_mod, HW, Z.mod_mul by lia. done.
  - intros a Ha Hlow. destruct (Z.lt_ge_cases a (zlen sent)) as [Hold|Hnew].
    + rewrite <- (ring_at_period _ ring') by done.
      replace (a + mq_size s) with (zlen sent + (a + mq_size s - zlen sent)) by lia.
      rewrite Hat by lia. destruct (Z.ltb_spec (a + mq_size s - zlen sent) (n * mq_quantum s)); [lia|].
      replace (zlen sent + (a + mq_size s - zlen sent)) with (a + mq_size s) by lia.
      rewrite ring_at_period, Hdat by lia. by rewrite lookup_app_l by (unfold zlen in Hold; lia).
    + replace a with (zlen sent + (a - zlen sent)) at 1 by lia. rewrite Hat by lia.
      destruct (Z.ltb_spec (a - zlen sent) (n * mq_quantum s)); [|lia].
      rewrite lookup_app_r by (unfold zlen in Hnew; lia). do 2 f_equal. unfold zlen. lia.
Qed.

Lemma lossy_read_ok s c sent R n :
  lossy_ok s c sent R -> 0 <= n * mq_quantum s < 2 ^ 64 ->
  if mq_size s <? zlen sent - R
  then read s n = Some (false, [], set_readPtr (mWritePtr s) s)
       /\ lossy_ok (set_readPtr (mWritePtr s) s) c sent (zlen sent)
  else if n * mq_quantum s <=? zlen sent - R
  then exists s', read s n = Some (true, slice sent R (n * mq_quantum s), s')
         /\ mq_size s' = mq_size s /\ mq_quantum s' = mq_quantum s
         /\ lossy_ok s' c sent (R + n * mq_quantum s)
  else read s n = Some (false, [], s).
Proof.
  intros [Hq Hc Es Hmax Hl Hr Hw Hcnt [HR HW] Hdat] Hn.
  assert (Hun : u64 (mWritePtr s - mReadPtr s) = zlen sent - R)
    by (rewrite Hr, Hw; apply u64_diff; lia).
  unfold read, beginRead. rewrite Hun, (uint_small 64 (n * mq_quantum s)) by done.
  destruct (Z.ltb_spec (mq_size s) (zlen sent - R)) as [Hover|Hin].
  { split; [done|]. split; simpl; try done; lia. }
  destruct (Z.ltb_spec (zlen sent - R) (n * mq_quantum s)) as [Hfew|Hsome];
    destruct (Z.leb_spec (n * mq_quantum s) (zlen sent - R)); try lia; [done|].
  cbn [negb]. rewrite Hr.
  rewrite (copyFrom_regions (mq_size s) (mq_quantum s) c Hq Hc Es Hmax s (mRing s) R n);
    [|done|done|done|by rewrite uint_small by (unfold is_uint; lia)|nia|done].
  simpl. unfold commitRead. rewrite Hun. destruct (Z.ltb_spec (mq_size s) (zlen sent - R)); [lia|].
  rewrite (uint_small 64 (n * mq_quantum s)) by done. eexists. split.
  - do 3 f_equal. apply list_eq. intros i. unfold bytes_at, slice. rewrite list_lookup_fmap.
    destruct (decide (Z.of_nat i < n * mq_quantum s)) as [Hi|Hi].
    + rewrite lookup_seqZ_lt, lookup_take_lt, lookup_drop by lia. simpl. rewrite Hdat by lia.
      replace (Z.to_nat (R + Z.of_nat i)) with (Z.to_nat R + i)%nat by lia. unfold zlen in *.
      by destruct (lookup_lt_is_Some_2 sent (Z.to_nat R + i)) as [b ->]; [lia|].
    + rewrite lookup_seqZ_ge by lia. symmetry. apply lookup_ge_None. rewrite length_take. lia.
  - split; [done|]. split; [done|]. split; simpl; try done; try lia.
    + by rewrite Hr, u64_add.
    + split; [|done]. rewrite Zplus_mod, HR, Z.mod_mul by lia. done.
Qed.

(** C29: The unsynchronized queue loses data, but a sequence of calls that do
    not overlap never returns wrong data: a write of no more than the size of the
    ring succeeds and a larger one fails, a reader that was not overrun reads on
    exactly where it was in the stream of everything sent, and one that was
    overrun is told so and continues with what is sent from then on.  This holds
    while fewer than 2^64 bytes are put in all. *)
Theorem unsynchronized_queue ops n q ring :
  0 < n -> 0 < q -> n * q < 2 ^ 64 -> zlen ring = n * q ->
  Forall (op_ok q) ops -> bytes_put ops < 2 ^ 64 ->
  run_unsynchronized ops (MessageQueue_new n q ring) = Some (run_lossy (n * q) q ops [] 0).
Proof.
  intros Hn Hq Hmax Hl Hops Hpos.
  assert (H0 : lossy_ok (MessageQueue_new n q ring) n [] 0).
  { split; simpl; try done; unfold zlen; simpl; lia. }
  assert (Hgen : forall s sent R, lossy_ok s n sent R -> Forall (op_ok (mq_quantum s)) ops ->
    zlen sent + bytes_put ops < 2 ^ 64 ->
    run_unsynchronized ops s = Some (run_lossy (mq_size s) (mq_quantum s) ops sent R)).
  2: { by apply (Hgen (MessageQueue_new n q ring) [] 0). }
  clear -Hn. induction ops as [|o ops IH]; intros s sent R Hok Hops Hpos; [done|].
  inversion Hops as [|? ? Ho Hops']; subst. pose proof (bytes_put_nonneg ops).
  destruct o as [data m|m]; simpl in *.
  - destruct Ho as [Hm Hd]. pose proof (lossy_write_ok s n sent R data m Hok Hm Hd ltac:(lia)) as Hw.
    destruct (zlen data <=? mq_size s).
    + destruct Hw as (s' & -> & Es & Eq & Hok'). simpl.
      rewrite (IH s' (sent ++ data) R); [by rewrite Es, Eq|done|by rewrite Eq|rewrite zlen_app; lia].
    + rewrite Hw. simpl. rewrite (IH s sent R); [done|done|done|]. pose proof (zlen_nonneg data). lia.
  - pose proof (lossy_read_ok s n sent R m Hok Ho) as Hr.
    destruct (mq_size s <? zlen sent - R).
    { destruct Hr as [-> Hok']. simpl. by rewrite (IH _ sent (zlen sent) Hok'). }
    destruct (m * mq_quantum s <=? zlen sent - R).
    + destruct Hr as (s' & -> & Es & Eq & Hok'). simpl.
      rewrite (IH s' sent (R + m * mq_quantum s)); [by rewrite Es, Eq|done|by rewrite Eq|lia].
    + rewrite Hr. simpl. by rewrite (IH s sent R).
Qed.

Lemma unsynchronized_queue_witness :
  let ops := [Put [1; 2] 2; Put [3; 4] 2; Take 1; Put [5] 1; Take 1] in
  run_unsynchronized ops (MessageQueue_new 3 1 [0; 0; 0]) = Some (run_lossy 3 1 ops [] 0).
Proof.
  apply (unsynchronized_queue _ 3 1); try done.
  repeat (apply List.Forall_cons; [by vm_compute|]). apply List.Forall_nil.
Defined.
