(* ===== verification/FmqConcurrent.v ===== *)
(** * FmqConcurrent: one writer and one reader

    The synchronized queue of libfmq shared by a writer and a reader that run
    at the same time.  [write] and [read] are taken apart into the steps other
    code can observe: the check of the counters in [beginWrite] and
    [beginRead], the copying of the data byte by byte and in any order, and the
    store of the counter in [commitWrite] and [commitRead].  The steps of the
    two sides interleave in any order; the acquire and release operations on
    the counters are what makes this view of the memory sound.

    [copyTo_bytes] and [copyFrom_bytes] relate the copying to that of Fmq.  The
    theorem: as long as the counters do not wrap, or the size of the ring
    divides 2^64, what has been read is always a prefix of what has been
    written. *)
From stdpp Require Import gmap.
From S2P Require Import Prelude Fmq.

(** Where [copyTo] and [copyFrom] copy the [i]-th byte of [nMessages] to or from. *)
Definition byte_address (q : Z) (tx : MemTransaction) (nMessages i : Z) : option Z :=
  match getMemRegionInfo q tx 0 nMessages with
  | None => None
  | Some (firstCount, _, firstBase, secondBase) =>
      if i <? firstCount * q then (fun a => a + i) <$> firstBase
      else (fun a => a + (i - firstCount * q)) <$> secondBase
  end.

(** The bytes stored so far, and the bytes loaded so far. *)
Inductive writer_state :=
| WriterIdle
| WriterCopying (tx : MemTransaction) (n : Z) (data : list Z) (stored : gset nat).

Inductive reader_state :=
| ReaderIdle
| ReaderCopying (tx : MemTransaction) (n : Z) (loaded : gmap nat Z).

(** The queue, the two sides, and what they have written and read so far. *)
Record shared := mkShared {
  queue : MessageQueue;
  writer : writer_state;
  reader : reader_state;
  sent : list Z;
  got : list Z;
}.

Inductive event :=
| BeginWrite (n : Z) (data : list Z) | Store (i : nat) | CommitWrite
| BeginRead (n : Z) | Load (i : nat) | CommitRead.

(** The bytes of a read, once all have been loaded. *)
Definition loaded_bytes (len : Z) (loaded : gmap nat Z) : option (list Z) :=
  mapM (fun i => loaded !! i) (seq 0 (Z.to_nat len)).

(** What an event does, if it is possible.  A call that fails leaves its side
    idle. *)
Definition perform (e : event) (x : shared) : option shared :=
  let s := queue x in
  let q := mq_quantum s in
  match e with
  | BeginWrite n data =>
      match writer x with
      | WriterIdle =>
          if (0 <=? n) && (zlen data =? n * q) then
            let '(ok, tx) := beginWrite kSynchronizedReadWrite s n in
            Some (mkShared s (if ok then WriterCopying tx n data ∅ else WriterIdle) (reader x) (sent x) (got x))
          else None
      | _ => None
      end
  | Store i =>
      match writer x with
      | WriterCopying tx n data stored =>
          b ← data !! i; a ← byte_address q tx n (Z.of_nat i); ring ← store_bytes (mRing s) a [b];
          Some (mkShared (set_ring ring s) (WriterCopying tx n data ({[i]} ∪ stored)) (reader x) (sent x) (got x))
      | _ => None
      end
  | CommitWrite =>
      match writer x with
      | WriterCopying tx n data stored =>
          if bool_decide (list_to_set (seq 0 (length data)) ⊆ stored)
          then Some (mkShared (commitWrite s n) WriterIdle (reader x) (sent x ++ data) (got x)) else None
      | _ => None
      end
  | BeginRead n =>
      match reader x with
      | ReaderIdle =>
          if (0 <=? n * q) && (n * q <? 2 ^ 64) then
            let '(ok, tx, s) := beginRead s n in
            Some (mkShared s (writer x) (if ok then ReaderCopying tx n ∅ else ReaderIdle) (sent x) (got x))
          else None
      | _ => None
      end
  | Load i =>
      match reader x with
      | ReaderCopying tx n loaded =>
          if Z.of_nat i <? n * q then
            a ← byte_address q tx n (Z.of_nat i); bytes ← load_bytes (mRing s) a 1;
            Some (mkShared s (writer x) (ReaderCopying tx n (<[i := default 0 (head bytes)]> loaded)) (sent x) (got x))
          else None
      | _ => None
      end
  | CommitRead =>
      match reader x with
      | ReaderCopying tx n loaded =>
          bytes ← loaded_bytes (n * q) loaded;
          let '(ok, s) := commitRead s n in
          Some (mkShared s (writer x) ReaderIdle (sent x) (if ok then got x ++ bytes else got x))
      | _ => None
      end
  end.

Inductive step (x : shared) : shared -> Prop :=
| step_perform e x' : perform e x = Some x' -> step x x'.

Definition initial (n q : Z) (ring : list Z) : shared :=
  mkShared (MessageQueue_new n q ring) WriterIdle ReaderIdle [] [].

(** The bytes written and being written, which the write counter does not exceed. *)
Definition sending (w : writer_state) : Z := match w with WriterIdle => 0 | WriterCopying _ _ data _ => zlen data end.
Definition begun (x : shared) : Z := zlen (sent x) + sending (writer x).

(** ** Invariant *)

(** The writer owns the free bytes behind the write counter, the reader the
    bytes in front of it; what was sent is what was read and what waits. *)
Record shared_ok (x : shared) (R W : Z) : Prop := {
  shared_queue : queue_ok (queue x) R W;
  shared_data : sent x = got x ++ contents (queue x) R W;
  shared_sent : W = zlen (sent x);
  shared_writer : match writer x with
    | WriterIdle => True
    | WriterCopying tx n data stored =>
        0 <= n /\ zlen data = n * mq_quantum (queue x)
        /\ W + zlen data <= R + mq_size (queue x)
        /\ tx = regions_at (queue x) (u64 W) n
        /\ forall j, j ∈ stored -> (j < length data)%nat
             /\ ring_at (mq_size (queue x)) (mRing (queue x)) (W + Z.of_nat j) = default 0 (data !! j)
    end;
  shared_reader : match reader x with
    | ReaderIdle => True
    | ReaderCopying tx n loaded =>
        0 <= n * mq_quantum (queue x) < 2 ^ 64
        /\ R + n * mq_quantum (queue x) <= W
        /\ tx = regions_at (queue x) (u64 R) n
        /\ forall j b, loaded !! j = Some b -> Z.of_nat j < n * mq_quantum (queue x)
             /\ b = ring_at (mq_size (queue x)) (mRing (queue x)) (R + Z.of_nat j)
    end;
}.

Lemma byte_address_regions s p n i c :
  0 < mq_quantum s -> 0 < c -> mq_size s = c * mq_quantum s -> mq_size s < 2 ^ 64 ->
  p mod mq_quantum s = 0 -> u64 p mod mq_size s = p mod mq_size s -> 0 <= n <= c ->
  0 <= i < n * mq_quantum s ->
  byte_address (mq_quantum s) (regions_at s (u64 p) n) n i = Some ((p + i) mod mq_size s).
Proof.
  intros Hq Hc Es Hmax Hp Hu Hn Hi.
  destruct (aligned_offset (mq_size s) (mq_quantum s) c Hq Hc Es p Hp) as (k & Hk & Hkdiv & Hkq).
  pose proof (size_pos (mq_size s) (mq_quantum s) c Hq Hc Es) as Hsp.
  destruct (region_info (mq_size s) (mq_quantum s) c Hq Hc Es Hmax s p n k) as (fb & sb & E & Hfb & Hsb); try (done || lia).
  unfold byte_address. rewrite E. rewrite (window_mod (mq_size s) p i) by nia.
  destruct (Z.ltb_spec i (Z.min n k * mq_quantum s)) as [Hlt|Hge].
  - rewrite Hfb by nia. destruct (Z.ltb_spec (p mod mq_size s + i) (mq_size s)); [done|nia].
  - assert (k < n) by nia. rewrite Hsb by lia. destruct (Z.ltb_spec (p mod mq_size s + i) (mq_size s)); [nia|].
    simpl. f_equal. nia.
Qed.

Lemma mod_distinct size y z : 0 < size -> y < z < y + size -> y mod size <> z mod size.
Proof.
  intros Hs Hyz E. replace z with (y + (z - y)) in E by lia. rewrite window_mod in E by lia.
  destruct (_ <? size); lia.
Qed.

Lemma ring_at_insert size ring p b y :
  0 < size -> zlen ring = size ->
  ring_at size (<[Z.to_nat (p mod size) := b]> ring) y
  = if p mod size =? y mod size then b else ring_at size ring y.
Proof.
  intros Hs Hl. pose proof (Z.mod_pos_bound p size Hs). pose proof (Z.mod_pos_bound y size Hs).
  unfold ring_at. destruct (Z.eqb_spec (p mod size) (y mod size)) as [E|Hne].
  - rewrite E, list_lookup_insert_eq; [done|]. unfold zlen in Hl. lia.
  - rewrite list_lookup_insert_ne; [done|lia].
Qed.

(** A store of the writer does not touch what is between the counters or
    already copied. *)
Lemma ring_at_other size ring p b y :
  0 < size -> zlen ring = size -> y < p < y + size ->
  ring_at size (<[Z.to_nat (p mod size) := b]> ring) y = ring_at size ring y.
Proof.
  intros Hs Hl Hy. rewrite ring_at_insert by done.
  destruct (Z.eqb_spec (p mod size) (y mod size)) as [E|]; [|done].
  by destruct (mod_distinct size y p Hs Hy).
Qed.

(** One byte of a copy. *)
Lemma store_byte ring a b : 0 <= a < zlen ring -> store_bytes ring a [b] = Some (<[Z.to_nat a := b]> ring).
Proof.
  intros Ha. unfold store_bytes. change (zlen [b]) with 1. destruct (_ && _) eqn:E; [|lia]. f_equal.
  rewrite insert_take_drop by (unfold zlen in Ha; lia). simpl. do 3 f_equal. lia.
Qed.

Lemma load_byte ring a : 0 <= a < zlen ring -> load_bytes ring a 1 = Some [default 0 (ring !! Z.to_nat a)].
Proof.
  intros Ha. unfold load_bytes. destruct (_ && _) eqn:E; [|lia]. f_equal. unfold slice.
  destruct (lookup_lt_is_Some_2 ring (Z.to_nat a)) as [b Hb]; [unfold zlen in Ha; lia|].
  by rewrite (drop_S _ _ _ Hb), Hb.
Qed.

Section Steps.
Context (x : shared) (R W : Z) (Hx : shared_ok x R W).
Local Abbreviation q := (mq_quantum (queue x)).
Local Abbreviation size := (mq_size (queue x)).

(** The address of a byte at a counter. *)
Lemma address_at p n i : p mod q = 0 -> 0 <= p -> position_ok size p -> n * q <= size -> 0 <= i < n * q ->
  byte_address q (regions_at (queue x) (u64 p) n) n i = Some ((p + i) mod size) /\ 0 <= (p + i) mod size < zlen (mRing (queue x)).
Proof using Hx.
  intros Hp Hp0 Hpos Hn Hi. pose proof (shared_queue _ _ _ Hx) as Hok. pose proof (ok_size_pos _ R W Hok) as Hsp.
  pose proof Hok as [Hq (c & Hc & Es) Hmax Hl _ _ _ _ _ _]. split; [|rewrite Hl; by apply Z.mod_pos_bound].
  apply (byte_address_regions (queue x) p n i c); try done; [by apply position_mod|nia].
Qed.

Lemma beginWrite_step ok tx n data :
  writer x = WriterIdle -> 0 <= n -> zlen data = n * q ->
  beginWrite kSynchronizedReadWrite (queue x) n = (ok, tx) ->
  shared_ok (mkShared (queue x) (if ok then WriterCopying tx n data ∅ else WriterIdle) (reader x) (sent x) (got x)) R W.
Proof using Hx.
  intros Hidle Hn Hd Hb. destruct Hx as [Hq Hdat Hsent _ Hr]. rewrite (beginWrite_ok _ R W Hq n Hn) in Hb.
  destruct (Z.leb_spec (n * q) (size - (W - R))); injection Hb as <- <-; split; simpl; try done.
  split; [done|]. split; [done|]. split; [lia|]. split; [done|]. intros j Hj. by apply elem_of_empty in Hj.
Qed.

Lemma store_step tx n data stored i a b ring :
  writer x = WriterCopying tx n data stored -> data !! i = Some b ->
  byte_address q tx n (Z.of_nat i) = Some a -> store_bytes (mRing (queue x)) a [b] = Some ring ->
  shared_ok (mkShared (set_ring ring (queue x)) (WriterCopying tx n data ({[i]} ∪ stored)) (reader x) (sent x) (got x)) R W.
Proof using Hx.
  intros Hw Hb Ha Hst. pose proof Hx as [Hok Hdat Hsent Hwr Hr]. rewrite Hw in Hwr.
  destruct Hwr as (Hn & Hd & Hfit & -> & Hdone).
  pose proof (lookup_lt_Some _ _ _ Hb) as Hlt. pose proof (ok_size_pos _ R W Hok) as Hsp.
  pose proof Hok as [Hq (c & Hc & Es) Hmax Hl Hrp Hwp Hcnt HR HW HP].
  destruct (address_at W n (Z.of_nat i)) as [Ea Hin]; [done|lia|done|lia|unfold zlen in Hd; lia|].
  rewrite Ea in Ha. injection Ha as <-. rewrite store_byte in Hst by done. injection Hst as <-.
  set (ring' := <[Z.to_nat ((W + Z.of_nat i) mod size) := b]> (mRing (queue x))).
  assert (Hsame : forall y, R <= y < W + zlen data -> y <> W + Z.of_nat i ->
            ring_at size ring' y = ring_at size (mRing (queue x)) y).
  { intros y Hy Hne. unfold ring'. rewrite ring_at_insert by done.
    destruct (Z.eqb_spec ((W + Z.of_nat i) mod size) (y mod size)) as [E|]; [|done]. exfalso.
    destruct (Z.lt_ge_cases y (W + Z.of_nat i)); [apply (mod_distinct size y (W + Z.of_nat i))|apply (mod_distinct size (W + Z.of_nat i) y)];
      (done || unfold zlen in *; lia). }
  split; simpl; try done.
  - split; simpl; try done; [by exists c|]. unfold zlen, ring'. by rewrite length_insert.
  - rewrite Hdat. f_equal. apply bytes_at_ext. intros j Hj. symmetry. apply Hsame; unfold zlen in *; lia.
  - do 4 (split; [done|]). intros j Hj. destruct (decide (j = i)) as [->|Hne].
    + split; [done|]. unfold ring'. rewrite ring_at_insert, Z.eqb_refl by done. by rewrite Hb.
    + destruct (Hdone j) as [Hj' Hv]; [set_solver|]. split; [done|]. rewrite Hsame; [done|unfold zlen; lia|lia].
  - destruct (reader x) as [|tx' n' loaded]; [done|].
    destruct Hr as (Hn' & HRW & -> & Hld). do 3 (split; [done|]). intros j v Hv.
    destruct (Hld j v Hv) as [Hj ->]. split; [done|]. symmetry. apply Hsame; unfold zlen in *; lia.
Qed.

Lemma commitWrite_step tx n data stored :
  writer x = WriterCopying tx n data stored -> list_to_set (seq 0 (length data)) ⊆ stored -> position_ok size (W + zlen data) ->
  shared_ok (mkShared (commitWrite (queue x) n) WriterIdle (reader x) (sent x ++ data) (got x))
    R (W + zlen data).
Proof using Hx.
  intros Hw Hall Hpos. destruct Hx as [Hok Hdat Hsent Hwr Hr]. rewrite Hw in Hwr.
  destruct Hwr as (Hn & Hd & Hfit & _ & Hdone).
  pose proof Hok as [Hq (c & Hc & Es) Hmax Hl Hrp Hwp Hcnt HR HW HP].
  pose proof (zlen_nonneg data) as Hnn. split; simpl; try done.
  - split; simpl; try done; try lia; [by exists c| |].
    + rewrite Hwp, (uint_small 64 (n * q)) by (unfold is_uint; lia). by rewrite u64_add, Hd.
    + rewrite Hd, Zplus_mod, HW, Z.mod_mul by lia. done.
  - rewrite Hdat, <- app_assoc. f_equal. unfold contents. simpl.
    replace (W + zlen data - R) with ((W - R) + zlen data) by lia.
    rewrite bytes_at_app by lia. f_equal. replace (R + (W - R)) with W by lia.
    apply list_eq. intros i. unfold bytes_at. rewrite list_lookup_fmap. unfold zlen in *.
    destruct (decide (i < length data)%nat) as [Hi|Hi].
    + rewrite lookup_seqZ_lt by lia. simpl. destruct (Hdone i) as [_ ->].
      { apply Hall. apply elem_of_list_to_set, elem_of_seq. lia. }
      by destruct (lookup_lt_is_Some_2 data i Hi) as [b ->].
    + rewrite lookup_seqZ_ge by lia. apply lookup_ge_None. lia.
  - rewrite zlen_app. lia.
  - destruct (reader x) as [|tx' n' loaded]; [done|].
    destruct Hr as (Hn' & HRW & -> & Hld). split; [done|]. split; [lia|done].
Qed.

Lemma beginRead_step ok tx n s' :
  reader x = ReaderIdle -> 0 <= n * q < 2 ^ 64 -> beginRead (queue x) n = (ok, tx, s') ->
  shared_ok (mkShared s' (writer x) (if ok then ReaderCopying tx n ∅ else ReaderIdle) (sent x) (got x)) R W.
Proof using Hx.
  intros Hidle Hn Hb. destruct Hx as [Hok Hdat Hsent Hwr _].
  rewrite (beginRead_ok _ R W Hok n Hn) in Hb.
  destruct (Z.leb_spec (n * q) (W - R)); injection Hb as <- <- <-; split; simpl; try done.
  split; [done|]. split; [lia|]. split; [done|]. intros j b Hj. by rewrite lookup_empty in Hj.
Qed.

Lemma load_step tx n loaded i a bytes :
  reader x = ReaderCopying tx n loaded -> Z.of_nat i < n * q ->
  byte_address q tx n (Z.of_nat i) = Some a -> load_bytes (mRing (queue x)) a 1 = Some bytes ->
  shared_ok (mkShared (queue x) (writer x) (ReaderCopying tx n (<[i := default 0 (head bytes)]> loaded)) (sent x) (got x)) R W.
Proof using Hx.
  intros Hrd Hlt Ha Hb. pose proof Hx as [Hok Hdat Hsent Hwr Hr]. rewrite Hrd in Hr.
  destruct Hr as (Hn & HRW & -> & Hld). split; simpl; try done. do 3 (split; [done|]).
  pose proof (read_position _ R W Hok) as HRp. pose proof Hok as [Hq (c & Hc & Es) Hmax Hl Hrp Hwp Hcnt HR HW HP].
  destruct (address_at R n (Z.of_nat i)) as [Ea Hin]; [done|lia|done|lia|lia|]. rewrite Ea in Ha. injection Ha as <-.
  rewrite load_byte in Hb by done. injection Hb as <-. intros j b. destruct (decide (j = i)) as [->|Hne].
  - rewrite lookup_insert_eq. intros [= <-]. done.
  - rewrite lookup_insert_ne by done. apply Hld.
Qed.

Lemma loaded_all tx n loaded bytes : reader x = ReaderCopying tx n loaded -> loaded_bytes (n * q) loaded = Some bytes ->
  bytes = bytes_at size (mRing (queue x)) R (n * q).
Proof using Hx.
  intros Hrd Hb. destruct Hx as [_ _ _ _ Hr]. rewrite Hrd in Hr. destruct Hr as (Hn & _ & _ & Hld).
  unfold loaded_bytes in Hb. apply mapM_Some in Hb. apply list_eq. intros i. unfold bytes_at. rewrite list_lookup_fmap.
  destruct (decide (Z.of_nat i < n * q)) as [Hi|Hi].
  - rewrite lookup_seqZ_lt by lia. destruct (Forall2_lookup_l _ _ _ i i Hb) as (b & Hbi & Hl); [apply lookup_seq; lia|].
    rewrite Hbi. simpl. f_equal. by apply Hld.
  - rewrite lookup_seqZ_ge by lia. apply lookup_ge_None. rewrite <- (Forall2_length _ _ _ Hb), length_seq. lia.
Qed.

Lemma commitRead_true n loaded tx : reader x = ReaderCopying tx n loaded ->
  commitRead (queue x) n = (true, set_readPtr (u64 (mReadPtr (queue x) + u64 (n * q))) (queue x)).
Proof using Hx.
  intros _. destruct Hx as [Hok _ _ _ _]. unfold commitRead. rewrite (unread_bytes _ R W Hok). destruct Hok.
  by destruct (Z.ltb_spec size (W - R)); [lia|].
Qed.

Lemma commitRead_step tx n loaded bytes :
  reader x = ReaderCopying tx n loaded -> loaded_bytes (n * q) loaded = Some bytes ->
  shared_ok (mkShared (set_readPtr (u64 (mReadPtr (queue x) + u64 (n * q))) (queue x)) (writer x) ReaderIdle (sent x) (got x ++ bytes)) (R + n * q) W.
Proof using Hx.
  intros Hrd Hall. pose proof (loaded_all _ _ _ _ Hrd Hall) as ->. destruct Hx as [Hok Hdat Hsent Hwr Hr]. rewrite Hrd in Hr.
  destruct Hr as (Hn & HRW & _ & _). pose proof Hok as [Hq (c & Hc & Es) Hmax Hl Hrp Hwp Hcnt HR HW HP].
  split; simpl; try done.
  - split; simpl; try done; try lia; [by exists c| |].
    + by rewrite Hrp, (uint_small 64 (n * q)), u64_add by done.
    + rewrite Zplus_mod, HR, Z.mod_mul by lia. done.
  - rewrite Hdat, <- app_assoc. f_equal. unfold contents. simpl. rewrite <- bytes_at_app by lia. f_equal. lia.
  - destruct (writer x) as [|tx' n' data i]; [done|].
    destruct Hwr as (? & ? & ? & Hrest). do 2 (split; [done|]). split; [lia|done].
Qed.

End Steps.

(** ** The bytes of [copyTo] and [copyFrom] *)

(** All stores of a write, one after the other. *)
Fixpoint store_each (q : Z) (tx : MemTransaction) (n : Z) (data : list Z) (k : nat) (ring : list Z) : option (list Z) :=
  match k with
  | O => Some ring
  | S k => ring ← store_each q tx n data k ring; b ← data !! k; a ← byte_address q tx n (Z.of_nat k); store_bytes ring a [b]
  end.

Lemma ring_ext size ring ring' p : 0 < size -> zlen ring = size -> zlen ring' = size ->
  (forall d, 0 <= d < size -> ring_at size ring (p + d) = ring_at size ring' (p + d)) -> ring = ring'.
Proof.
  intros Hs Hl Hl' Hat. apply list_eq. intros i. unfold zlen in *. destruct (decide (i < length ring)%nat) as [Hi|Hi].
  2: { rewrite !lookup_ge_None_2 by lia. done. }
  specialize (Hat ((Z.of_nat i - p) mod size) ltac:(by apply Z.mod_pos_bound)). unfold ring_at in Hat.
  rewrite Zplus_mod_idemp_r in Hat. replace (p + (Z.of_nat i - p)) with (Z.of_nat i) in Hat by lia. rewrite Z.mod_small, Nat2Z.id in Hat by lia.
  destruct (lookup_lt_is_Some_2 ring i) as [a Ha]; [lia|]. destruct (lookup_lt_is_Some_2 ring' i) as [b Hb]; [lia|]. rewrite Ha, Hb in *. simpl in Hat. congruence.
Qed.

Section Bytes.
Context (x : shared) (R W : Z) (Hx : shared_ok x R W).
Local Abbreviation q := (mq_quantum (queue x)).
Local Abbreviation size := (mq_size (queue x)).

Lemma store_each_spec p n data k : p mod q = 0 -> 0 <= p -> position_ok size p -> 0 <= n -> n * q <= size -> zlen data = n * q -> (k <= length data)%nat -> exists ring,
  store_each q (regions_at (queue x) (u64 p) n) n data k (mRing (queue x)) = Some ring /\ zlen ring = size
  /\ forall d, 0 <= d < size -> ring_at size ring (p + d) = if d <? Z.of_nat k then default 0 (data !! Z.to_nat d) else ring_at size (mRing (queue x)) (p + d).
Proof using Hx.
  intros Hp Hp0 Hpos Hn Hfit Hd. pose proof (shared_queue _ _ _ Hx) as Hok. pose proof (ok_size_pos _ R W Hok) as Hsp. pose proof Hok as [_ _ _ Hl _ _ _ _ _ _].
  induction k as [|k IH]; intros Hk.
  { exists (mRing (queue x)). split_and!; [done|done|]. intros d Hd'. by destruct (Z.ltb_spec d (Z.of_nat 0)); [lia|]. }
  destruct IH as (ring & E & Hz & Hat); [lia|]. cbn [store_each]. rewrite E. simpl. destruct (lookup_lt_is_Some_2 data k) as [b Hb]; [lia|]. rewrite Hb. simpl.
  unfold zlen in Hd. destruct (address_at x R W Hx p n (Z.of_nat k)) as [Ea Hin]; [done|done|done|done|lia|]. rewrite Ea. simpl. rewrite Hl in Hin.
  rewrite store_byte by lia. eexists. split; [done|]. split; [unfold zlen in *; by rewrite length_insert|]. intros d Hd'. rewrite ring_at_insert by done.
  destruct (Z.eqb_spec ((p + Z.of_nat k) mod size) ((p + d) mod size)) as [Em|Em].
  - assert (d = Z.of_nat k) as ->.
    { destruct (Z.lt_trichotomy d (Z.of_nat k)) as [?|[?|?]]; [|done|]; exfalso;
        [apply (mod_distinct size (p + d) (p + Z.of_nat k))|apply (mod_distinct size (p + Z.of_nat k) (p + d))]; (done || lia). }
    rewrite (proj2 (Z.ltb_lt _ _)) by lia. by rewrite Nat2Z.id, Hb.
  - rewrite Hat by done. assert (d <> Z.of_nat k) by congruence. destruct (Z.ltb_spec d (Z.of_nat k)), (Z.ltb_spec d (Z.of_nat (S k))); (done || lia).
Qed.

(** Storing the bytes one by one is [copyTo]. *)
Lemma copyTo_bytes p n data : p mod q = 0 -> 0 <= p -> position_ok size p -> 0 <= n -> n * q <= size -> zlen data = n * q ->
  copyTo q (mRing (queue x)) (regions_at (queue x) (u64 p) n) data 0 n
  = (fun ring => (true, ring)) <$> store_each q (regions_at (queue x) (u64 p) n) n data (length data) (mRing (queue x)).
Proof using Hx.
  intros Hp Hp0 Hpos Hn Hfit Hd. pose proof (shared_queue _ _ _ Hx) as Hok. pose proof (ok_size_pos _ R W Hok) as Hsp. pose proof Hok as [Hq (c & Hc & Es) Hmax Hl _ _ _ _ _ _].
  destruct (store_each_spec p n data (length data)) as (ring & -> & Hz & Hat); try done.
  destruct (copyTo_regions size q c Hq Hc Es Hmax (queue x) (mRing (queue x)) p n data) as (ring' & -> & Hz' & Hat'); try done; [by apply position_mod|nia|].
  simpl. do 2 f_equal. apply (ring_ext size ring' ring p); try done. intros d Hd'. rewrite Hat, Hat' by done. unfold zlen in Hd. by rewrite Hd.
Qed.

(** Loading them one by one, in any order, is [copyFrom]. *)
Lemma copyFrom_bytes tx n loaded bytes : reader x = ReaderCopying tx n loaded -> loaded_bytes (n * q) loaded = Some bytes ->
  copyFrom q (mRing (queue x)) tx 0 n = Some (true, bytes).
Proof using Hx.
  intros Hrd Hall. rewrite (loaded_all x R W Hx _ _ _ _ Hrd Hall). destruct Hx as [Hok _ _ _ Hr]. rewrite Hrd in Hr. destruct Hr as (Hn & HRW & -> & _).
  pose proof (read_position _ R W Hok) as HRp. pose proof (ok_size_pos _ R W Hok). pose proof Hok as [Hq (c & Hc & Es) Hmax Hl Hrp Hwp Hcnt HR HW HP].
  apply (copyFrom_regions size q c Hq Hc Es Hmax); try done; [apply position_mod; (done || lia)|nia].
Qed.
End Bytes.

(** What an event does not change. *)
Lemma perform_frame e x y : perform e x = Some y -> mq_size (queue y) = mq_size (queue x) /\ begun x <= begun y.
Proof.
  assert (Hrd : forall n ok tx s, beginRead (queue x) n = (ok, tx, s) -> mq_size s = mq_size (queue x)).
  { unfold beginRead. intros n ok tx s. repeat case_match; by intros [= _ _ <-]. }
  assert (Hcm : forall n ok s, commitRead (queue x) n = (ok, s) -> mq_size s = mq_size (queue x)).
  { unfold commitRead. intros n ok s. case_match; by intros [= _ <-]. }
  unfold perform, begun. intros Hp. destruct e as [n data|i| |n|i|].
  - destruct (writer x); [|done]. destruct (_ && _); [|done]. destruct (beginWrite _ _ n) as [[] tx]; injection Hp as <-; simpl; [|done].
    pose proof (zlen_nonneg data). split; [done|lia].
  - destruct (writer x); [done|]. simplify_option_eq. done.
  - destruct (writer x); [done|]. case_bool_decide; [|done]. injection Hp as <-. simpl. rewrite zlen_app. split; [done|lia].
  - destruct (reader x); [|done]. destruct (_ && _); [|done]. destruct (beginRead (queue x) n) as [[ok tx] s] eqn:E. injection Hp as <-. split; [by eapply Hrd|done].
  - destruct (reader x) as [|tx n loaded]; [done|]. destruct (_ <? _); [|done]. simplify_option_eq. done.
  - destruct (reader x) as [|tx n loaded]; [done|]. destruct (loaded_bytes _ _); [|done]. simpl in Hp. destruct (commitRead (queue x) n) as [ok s] eqn:E.
    injection Hp as <-. split; [by eapply Hcm|done].
Qed.

(** What an event does, with the invariant. *)
Lemma perform_ok x y e R W : shared_ok x R W -> perform e x = Some y ->
  position_ok (mq_size (queue x)) (begun y) -> exists R' W', shared_ok y R' W'.
Proof.
  intros Hx Hp Hpos. unfold perform in Hp. pose proof (shared_sent _ _ _ Hx) as HW.
  destruct e as [n data|i| |n|i|].
  - destruct (writer x) eqn:Hw; [|done]. destruct (_ && _) eqn:E; [|done]. apply andb_prop in E as [En%Z.leb_le Ed%Z.eqb_eq].
    destruct (beginWrite _ (queue x) n) as [ok tx] eqn:Eb. injection Hp as <-.
    do 2 eexists. by eapply beginWrite_step.
  - destruct (writer x) as [|tx n data stored] eqn:Hw; [done|]. destruct (data !! i) as [b|] eqn:Eb; [|done]. simpl in Hp.
    destruct (byte_address _ tx n (Z.of_nat i)) as [a|] eqn:Ea; [|done]. simpl in Hp.
    destruct (store_bytes _ a [b]) as [ring|] eqn:Es; [|done]. injection Hp as <-. do 2 eexists. by eapply store_step.
  - destruct (writer x) as [|tx n data stored] eqn:Hw; [done|]. case_bool_decide as Hall; [|done]. injection Hp as <-.
    do 2 eexists. eapply commitWrite_step; [done..|]. eapply position_weaken; [exact Hpos|]. unfold begun. simpl. rewrite zlen_app. lia.
  - destruct (reader x) eqn:Hr; [|done]. destruct (_ && _) eqn:E; [|done]. destruct (beginRead (queue x) n) as [[ok tx] s] eqn:Eb. injection Hp as <-.
    do 2 eexists. eapply beginRead_step; [done|done|lia|done].
  - destruct (reader x) as [|tx n loaded] eqn:Hr; [done|]. destruct (Z.ltb_spec (Z.of_nat i) (n * mq_quantum (queue x))) as [Hi|]; [|done].
    destruct (byte_address _ tx n (Z.of_nat i)) as [a|] eqn:Ea; [|done]. simpl in Hp.
    destruct (load_bytes _ a 1) as [bytes|] eqn:El; [|done]. injection Hp as <-. do 2 eexists. by eapply load_step.
  - destruct (reader x) as [|tx n loaded] eqn:Hr; [done|]. destruct (loaded_bytes _ loaded) as [bytes|] eqn:El; [|done]. simpl in Hp.
    rewrite (commitRead_true x R W Hx n loaded tx Hr) in Hp. injection Hp as <-. do 2 eexists. by eapply commitRead_step.
Qed.

(** The invariant holds as long as the counters do not wrap. *)
Lemma run_ok x y R W : shared_ok x R W -> rtc step x y -> mq_size (queue y) = mq_size (queue x)
  /\ (position_ok (mq_size (queue x)) (begun y) -> exists R' W', shared_ok y R' W').
Proof.
  intros Hx. revert y. apply rtc_ind_r; [by eauto|]. intros y z Hr [e z' He] [Hs IH].
  destruct (perform_frame e y z' He) as [Hs' Hle]. split; [congruence|]. intros Hpos.
  destruct IH as (R' & W' & Hy); [eapply position_weaken; [exact Hpos|done]|].
  eapply perform_ok; [exact Hy|exact He|]. by rewrite Hs.
Qed.

(** C20: One writer and one reader may run at the same time: however the
    checks, the copying of single bytes and the stores of the counters of
    their writes and reads interleave, and whether or not the calls find room
    or data, what the reader has got is a prefix of what the writer has sent,
    so nothing is lost, repeated or torn; and a read that has begun can be
    committed.  This holds until 2^64 bytes have been written, and without that
    limit if the size of the ring divides 2^64. *)
Theorem reader_gets_prefix n q ring x :
  0 < n -> 0 < q -> n * q < 2 ^ 64 -> zlen ring = n * q ->
  rtc step (initial n q ring) x -> position_ok (n * q) (begun x) ->
  (exists rest, sent x = got x ++ rest)
  /\ forall tx m loaded, reader x = ReaderCopying tx m loaded ->
       exists s', commitRead (queue x) m = (true, s').
Proof.
  intros Hn Hq Hmax Hl Hr Hpos. assert (H0 : shared_ok (initial n q ring) 0 0) by (split; try done; by apply new_ok).
  destruct (run_ok _ _ _ _ H0 Hr) as [_ Hok]. destruct (Hok Hpos) as (R & W & Hx).
  split; [destruct Hx; by eexists|]. intros tx m loaded Hrd. eexists. by eapply commitRead_true.
Qed.

(** ** A run *)

Fixpoint perform_all (es : list event) (x : shared) : option shared :=
  match es with [] => Some x | e :: es => x ← perform e x; perform_all es x end.

Lemma perform_all_steps es x y : perform_all es x = Some y -> rtc step x y.
Proof.
  revert x. induction es as [|e es IH]; simpl; intros x; [by intros [= ->]; apply rtc_refl|].
  destruct (perform e x) as [x'|] eqn:E; [|done]. intros Hy. eapply rtc_l; [by econstructor|by apply IH].
Qed.

(** A write of two messages; a read of one of them while a second write, which
    goes over the end of the ring, is in progress; a read of the rest that is
    stopped in the middle. *)
Definition example : list event :=
  [BeginRead 1; BeginWrite 2 [1; 2; 3; 4]; Store 1; Store 0; Store 3; Store 2; CommitWrite;
   BeginRead 1; BeginWrite 2 [5; 6; 7; 8]; Load 1; Load 0; CommitRead;
   BeginWrite 2 [5; 6; 7; 8]; BeginRead 1; Store 3; Load 0; Store 0; Store 2; Load 1; CommitRead; Store 1; CommitWrite;
   BeginRead 2; Load 3; Load 0].

Lemma reader_gets_prefix_witness :
  exists x, rtc step (initial 3 2 [0; 0; 0; 0; 0; 0]) x /\ sent x = [1; 2; 3; 4; 5; 6; 7; 8] /\ got x = [1; 2; 3; 4]
  /\ (exists rest, sent x = got x ++ rest)
  /\ forall tx m loaded, reader x = ReaderCopying tx m loaded -> exists s', commitRead (queue x) m = (true, s').
Proof.
  destruct (perform_all example (initial 3 2 [0; 0; 0; 0; 0; 0])) as [x|] eqn:E; [|by vm_compute in E].
  exists x. pose proof (perform_all_steps _ _ _ E) as Hr. vm_compute in E. injection E as <-.
  split; [exact Hr|]. split; [reflexivity|]. split; [reflexivity|].
  apply (reader_gets_prefix 3 2 [0; 0; 0; 0; 0; 0]); try done. right. by vm_compute.
Defined.
