(* ===== verification/UpdateExtents.v ===== *)
(** * UpdateExtents: block extents of the update payload generator

    update_engine/payload_generator/extent_ranges.{h,cc} and
    extent_utils.{h,cc}.  An [Extent] is a run of blocks; [ExtentRanges] keeps
    a set of blocks as a [std::set] of extents ordered by their first block,
    here the list of its elements in that order.  Additions are 64-bit, and an
    iterator that would run past the end of a set is [Abort].  The theorems:
    a collection of ranges behaves as a set of blocks, its representation is
    unique, and the list operations on extents are the operations on the
    lists of blocks they stand for. *)
From S2P Require Import Prelude.

(** [payload_constants.h] *)
Definition kSparseHole : Z := 2 ^ 64 - 1.

Record Extent := mkExtent { start_block : Z; num_blocks : Z }.

#[export] Instance Extent_dec : EqDecision Extent.
Proof. solve_decision. Defined.

Definition ExtentForRange (start num : Z) : Extent := mkExtent start num.

(** ** Ranges *)

Definition ExtentsOverlapOrTouch (a b : Extent) : bool :=
  if start_block a =? start_block b then true
  else if (start_block a =? kSparseHole) || (start_block b =? kSparseHole) then false
  else if start_block a <? start_block b
  then start_block b <=? u64 (start_block a + num_blocks a)
  else start_block a <=? u64 (start_block b + num_blocks b).

Definition ExtentsOverlap (a b : Extent) : bool :=
  if start_block a =? start_block b then true
  else if (start_block a =? kSparseHole) || (start_block b =? kSparseHole) then false
  else if start_block a <? start_block b
  then start_block b <? u64 (start_block a + num_blocks a)
  else start_block a <? u64 (start_block b + num_blocks b).

Definition UnionOverlappingExtents (first second : Extent) : outcome Extent :=
  _ ← check_that (negb (kSparseHole =? start_block first));
  _ ← check_that (negb (kSparseHole =? start_block second));
  let start := Z.min (start_block first) (start_block second) in
  let end_ := Z.max (u64 (start_block first + num_blocks first))
                    (u64 (start_block second + num_blocks second)) in
  Ret (ExtentForRange start (u64 (end_ - start))).

Record ExtentRanges := mkRanges { extent_set : list Extent; blocks : Z }.

Definition ExtentRanges_new : ExtentRanges := mkRanges [] 0.

(** [std::set<Extent, ExtentLess>]: [insert], [erase] of an iterator range and
    [lower_bound], the index of the first element not less than the key. *)
Fixpoint set_insert (e : Extent) (l : list Extent) : list Extent :=
  match l with
  | [] => [e]
  | x :: l' =>
      if start_block e <? start_block x then e :: l
      else if start_block x <? start_block e then x :: set_insert e l'
      else l
  end.

Definition set_insert_all (es l : list Extent) : list Extent :=
  fold_left (fun l e => set_insert e l) es l.

Definition erase_range (first last : nat) (l : list Extent) : list Extent :=
  take first l ++ drop last l.

Fixpoint lower_bound (key : Z) (l : list Extent) : nat :=
  match l with
  | [] => O
  | x :: l => if start_block x <? key then S (lower_bound key l) else O
  end.

(** The elements a loop [for (iter = lower; iter != upper; ++iter)] visits. *)
Definition iterate (lower upper : nat) (l : list Extent) : outcome (list Extent) :=
  if (lower <=? upper)%nat then Ret (take (upper - lower) (drop lower l)) else Abort.

(** The loop of [AddExtent] from index [i] on. *)
Fixpoint add_scan (i : nat) (its : list Extent) (begin_del : option nat) (end_del : nat)
    (del_blocks : Z) (extent : Extent) : outcome (option nat * nat * Z * Extent) :=
  match its with
  | [] => Ret (begin_del, end_del, del_blocks, extent)
  | it :: its =>
      if ExtentsOverlapOrTouch it extent then
        extent' ← UnionOverlappingExtents extent it;
        add_scan (S i) its (Some (default i begin_del)) (S i)
          (u64 (del_blocks + num_blocks it)) extent'
      else add_scan (S i) its begin_del end_del del_blocks extent
  end.

Definition AddExtent (extent : Extent) (r : ExtentRanges) : outcome ExtentRanges :=
  if (start_block extent =? kSparseHole) || (num_blocks extent =? 0) then Ret r else
  '(begin_del, end_del, del_blocks, extent) ←
    add_scan 0 (extent_set r) None (length (extent_set r)) 0 extent;
  let kept := match begin_del with
              | Some first => erase_range first end_del (extent_set r)
              | None => extent_set r
              end in
  Ret (mkRanges (set_insert extent kept)
         (u64 (u64 (blocks r - del_blocks) + num_blocks extent))).

Definition SubtractOverlappingExtents (base subtractee : Extent) : list Extent :=
  let ret :=
    if start_block base <? start_block subtractee
    then set_insert (ExtentForRange (start_block base)
                       (u64 (start_block subtractee - start_block base))) []
    else [] in
  let base_end := u64 (start_block base + num_blocks base) in
  let subtractee_end := u64 (start_block subtractee + num_blocks subtractee) in
  if subtractee_end <? base_end
  then set_insert (ExtentForRange subtractee_end (u64 (base_end - subtractee_end))) ret
  else ret.

Fixpoint subtract_scan (i : nat) (its : list Extent) (begin_del : option nat) (end_del : nat)
    (del_blocks : Z) (new_extents : list Extent) (extent : Extent)
    : option nat * nat * Z * list Extent :=
  match its with
  | [] => (begin_del, end_del, del_blocks, new_extents)
  | it :: its =>
      if ExtentsOverlap it extent then
        let subtraction := SubtractOverlappingExtents it extent in
        subtract_scan (S i) its (Some (default i begin_del)) (S i)
          (fold_left (fun d jt => u64 (d - num_blocks jt)) subtraction
             (u64 (del_blocks + num_blocks it)))
          (set_insert_all subtraction new_extents) extent
      else subtract_scan (S i) its begin_del end_del del_blocks new_extents extent
  end.

Definition SubtractExtent (extent : Extent) (r : ExtentRanges) : ExtentRanges :=
  if (start_block extent =? kSparseHole) || (num_blocks extent =? 0) then r else
  let '(begin_del, end_del, del_blocks, new_extents) :=
    subtract_scan 0 (extent_set r) None (length (extent_set r)) 0 [] extent in
  let kept := match begin_del with
              | Some first => erase_range first end_del (extent_set r)
              | None => extent_set r
              end in
  mkRanges (set_insert_all new_extents kept) (u64 (blocks r - del_blocks)).

Definition AddBlock (block : Z) (r : ExtentRanges) : outcome ExtentRanges :=
  AddExtent (ExtentForRange block 1) r.

Definition SubtractBlock (block : Z) (r : ExtentRanges) : ExtentRanges :=
  SubtractExtent (ExtentForRange block 1) r.

(** Also [AddRepeatedExtents] and [AddRanges], which differ in the collection
    that is iterated. *)
Fixpoint AddExtents (extents : list Extent) (r : ExtentRanges) : outcome ExtentRanges :=
  match extents with
  | [] => Ret r
  | e :: extents => r ← AddExtent e r; AddExtents extents r
  end.

Definition AddRanges (ranges r : ExtentRanges) : outcome ExtentRanges :=
  AddExtents (extent_set ranges) r.

Definition SubtractExtents (extents : list Extent) (r : ExtentRanges) : ExtentRanges :=
  fold_left (fun r e => SubtractExtent e r) extents r.

Definition SubtractRanges (ranges r : ExtentRanges) : ExtentRanges :=
  SubtractExtents (extent_set ranges) r.

(** The iterator that [if (lower != begin()) lower--] leaves. *)
Definition step_back (lower : nat) : nat := pred lower.

Definition ContainsBlock (block : Z) (r : ExtentRanges) : outcome bool :=
  let lower := step_back (lower_bound block (extent_set r)) in
  let upper := lower_bound (u64 (block + 1)) (extent_set r) in
  its ← iterate lower upper (extent_set r);
  Ret (existsb (fun it => (start_block it <=? block)
                            && (block <? u64 (start_block it + num_blocks it))) its).

Definition BlocksInExtents (extents : list Extent) : Z :=
  fold_left (fun ret e => u64 (ret + num_blocks e)) extents 0.

(** The loop of [GetExtentsForBlockCount]: [out] is the vector so far and
    [out_blocks] the number of its blocks. *)
Fixpoint take_blocks (its : list Extent) (count : Z) (out : list Extent) (out_blocks : Z)
    : list Extent * Z :=
  match its with
  | [] => (out, out_blocks)
  | e :: its =>
      let blocks_needed := u64 (count - out_blocks) in
      if num_blocks e <? blocks_needed
      then take_blocks its count (out ++ [e]) (u64 (out_blocks + num_blocks e))
      else if num_blocks e =? blocks_needed
      then (out ++ [e], u64 (out_blocks + num_blocks e))
      else (out ++ [ExtentForRange (start_block e) blocks_needed],
            u64 (u64 (u64 (out_blocks + num_blocks e) - num_blocks e) + blocks_needed))
  end.

Definition GetExtentsForBlockCount (count : Z) (r : ExtentRanges) : outcome (list Extent) :=
  if count =? 0 then Ret [] else
  _ ← check_that (count <=? blocks r);
  let '(out, out_blocks) := take_blocks (extent_set r) count [] 0 in
  _ ← check_that (out_blocks =? BlocksInExtents out);
  Ret out.

(** The inner loop of [FilterExtentRanges]: the extent that is left, with no
    blocks after a [break], and the result so far. *)
Fixpoint filter_loop (its : list Extent) (extent : Extent) (result : list Extent)
    : Extent * list Extent :=
  match its with
  | [] => (extent, result)
  | iter :: its =>
      if negb (ExtentsOverlap extent iter) then filter_loop its extent result
      else if start_block iter <=? start_block extent then
        let cut_blocks := u64 (start_block iter + num_blocks iter - start_block extent) in
        if num_blocks extent <=? cut_blocks
        then (ExtentForRange (start_block extent) 0, result)
        else filter_loop its
               (ExtentForRange (u64 (start_block extent + cut_blocks))
                  (u64 (num_blocks extent - cut_blocks))) result
      else
        let result := result ++ [ExtentForRange (start_block extent)
                                   (u64 (start_block iter - start_block extent))] in
        let new_start := u64 (start_block iter + num_blocks iter) in
        let old_end := u64 (start_block extent + num_blocks extent) in
        if old_end <=? new_start
        then (ExtentForRange (start_block extent) 0, result)
        else filter_loop its (ExtentForRange new_start (u64 (old_end - new_start))) result
  end.

Fixpoint filter_extents (extents : list Extent) (extent_set result : list Extent)
    : outcome (list Extent) :=
  match extents with
  | [] => Ret result
  | extent :: extents =>
      let lower := step_back (lower_bound (start_block extent) extent_set) in
      let upper := lower_bound (u64 (start_block extent + num_blocks extent)) extent_set in
      its ← iterate lower upper extent_set;
      let '(extent, result) := filter_loop its extent result in
      filter_extents extents extent_set
        (if 0 <? num_blocks extent then result ++ [extent] else result)
  end.

Definition FilterExtentRanges (extents : list Extent) (ranges : ExtentRanges)
    : outcome (list Extent) :=
  filter_extents extents (extent_set ranges) [].

(** ** Lists of extents *)

(** The loop of [ExpandExtents] for one extent, holes included. *)
Definition expand (e : Extent) : list Z :=
  if start_block e =? kSparseHole then replicate (Z.to_nat (num_blocks e)) kSparseHole
  else seqZ (start_block e) (u64 (start_block e + num_blocks e) - start_block e).

Definition ExpandExtents (extents : list Extent) : list Z := extents ≫= expand.
Arguments ExpandExtents : simpl never.

Definition AppendBlockToExtents (extents : list Extent) (block : Z) : list Extent :=
  match last extents with
  | Some extent =>
      let next_block := if start_block extent =? kSparseHole then kSparseHole
                        else u64 (start_block extent + num_blocks extent) in
      if next_block =? block
      then removelast extents
             ++ [ExtentForRange (start_block extent) (u64 (num_blocks extent + 1))]
      else extents ++ [ExtentForRange block 1]
  | None => [ExtentForRange block 1]
  end.

(** The loop of [NormalizeExtents] over the rest of the vector. *)
Definition normalize_step (new_extents : list Extent) (curr : Extent) : list Extent :=
  match last new_extents with
  | None => [curr]
  | Some last_ext =>
      if u64 (start_block last_ext + num_blocks last_ext) =? start_block curr
      then removelast new_extents
             ++ [ExtentForRange (start_block last_ext)
                   (u64 (num_blocks last_ext + num_blocks curr))]
      else new_extents ++ [curr]
  end.

Definition NormalizeExtents (extents : list Extent) : list Extent :=
  fold_left normalize_step extents [].

Definition ExtendExtents (extents extents_to_add : list Extent) : list Extent :=
  NormalizeExtents (extents ++ extents_to_add).

Fixpoint sublist_loop (extents : list Extent) (block_offset end_block_offset scanned : Z)
    (result : list Extent) : list Extent :=
  match extents with
  | [] => result
  | e :: extents =>
      let result :=
        if block_offset <? u64 (scanned + num_blocks e) then
          let new_num := if end_block_offset <? u64 (scanned + num_blocks e)
                         then u64 (end_block_offset - scanned) else num_blocks e in
          result ++ [if scanned <? block_offset
                     then ExtentForRange (u64 (start_block e + (block_offset - scanned)))
                            (u64 (new_num - (block_offset - scanned)))
                     else ExtentForRange (start_block e) new_num]
        else result in
      let scanned := u64 (scanned + num_blocks e) in
      if end_block_offset <=? scanned then result
      else sublist_loop extents block_offset end_block_offset scanned result
  end.

Definition ExtentsSublist (extents : list Extent) (block_offset block_count : Z) : list Extent :=
  if block_count =? 0 then []
  else sublist_loop extents block_offset (u64 (block_offset + block_count)) 0 [].

(** ** Blocks *)

(** A run of real blocks: not empty, and it ends below the sparse hole. *)
Definition extent_ok (e : Extent) : Prop :=
  0 <= start_block e /\ 0 < num_blocks e /\ start_block e + num_blocks e <= kSparseHole.

Definition in_extent (e : Extent) (b : Z) : Prop :=
  start_block e <= b < start_block e + num_blocks e.

Definition covers (l : list Extent) (b : Z) : Prop := Exists (fun e => in_extent e b) l.

Definition total (l : list Extent) : Z := foldr (fun e n => num_blocks e + n) 0 l.

(** The extents of [l] are proper, ascending from [lo], and no two touch. *)
Fixpoint gaps (lo : Z) (l : list Extent) : Prop :=
  match l with
  | [] => True
  | e :: l => lo <= start_block e /\ extent_ok e /\ gaps (start_block e + num_blocks e + 1) l
  end.

(** The invariant of [ExtentRanges]. *)
Definition ranges_ok (r : ExtentRanges) : Prop :=
  gaps 0 (extent_set r) /\ blocks r = total (extent_set r).

Lemma u64_end e : extent_ok e -> u64 (start_block e + num_blocks e) = start_block e + num_blocks e.
Proof. unfold extent_ok, kSparseHole. intros. apply uint_small. unfold is_uint. lia. Qed.

Lemma gaps_weaken lo lo' l : lo' <= lo -> gaps lo l -> gaps lo' l.
Proof. destruct l; simpl; [done|]. intros ? (?&?&?). split_and!; [lia|done..]. Qed.

Lemma gaps_bounds lo l e : gaps lo l -> e ∈ l -> lo <= start_block e /\ extent_ok e.
Proof.
  revert lo. induction l as [|x l IH]; intros lo; [by rewrite elem_of_nil|].
  intros (Hlo & Hx & Hl) [->|He]%elem_of_cons; [done|].
  destruct (IH _ Hl He). unfold extent_ok in *. lia.
Qed.

Lemma covers_cons e l b : covers (e :: l) b <-> in_extent e b \/ covers l b.
Proof. apply Exists_cons. Qed.

Lemma covers_app l k b : covers (l ++ k) b <-> covers l b \/ covers k b.
Proof. apply Exists_app. Qed.

Lemma covers_bound lo l b : gaps lo l -> covers l b -> lo <= b < kSparseHole.
Proof.
  intros Hl (e & He & Hb)%Exists_exists.
  destruct (gaps_bounds _ _ _ Hl He) as [? Hok]. unfold extent_ok, in_extent in *. lia.
Qed.

Lemma total_bound lo l : gaps lo l -> 0 <= total l /\ (l <> [] -> total l <= kSparseHole - lo).
Proof.
  revert lo. induction l as [|e l IH]; intros lo; simpl; [done|].
  intros (? & Hok & Hl). destruct (IH _ Hl) as [H1 H2]. unfold extent_ok in Hok.
  destruct l; simpl in *; [lia|]. specialize (H2 ltac:(done)). lia.
Qed.

(** ** Addition *)

(** What [AddExtent] computes: the extents before the new one, then its union
    with all it overlaps or touches, then the rest. *)
Fixpoint add_ref (e : Extent) (l : list Extent) : list Extent :=
  match l with
  | [] => [e]
  | x :: l' =>
      if start_block x + num_blocks x <? start_block e then x :: add_ref e l'
      else if start_block e + num_blocks e <? start_block x then e :: l
      else
        let start := Z.min (start_block e) (start_block x) in
        add_ref (mkExtent start
                   (Z.max (start_block e + num_blocks e) (start_block x + num_blocks x) - start))
          l'
  end.

Lemma touch_spec x e :
  extent_ok x -> extent_ok e ->
  ExtentsOverlapOrTouch x e
  = negb (start_block x + num_blocks x <? start_block e)
    && negb (start_block e + num_blocks e <? start_block x).
Proof.
  intros Hx He. unfold ExtentsOverlapOrTouch. rewrite !u64_end by done.
  unfold extent_ok, kSparseHole in *. repeat case_match; lia.
Qed.

Lemma overlap_spec x e :
  extent_ok x -> extent_ok e ->
  ExtentsOverlap x e
  = negb (start_block x + num_blocks x <=? start_block e)
    && negb (start_block e + num_blocks e <=? start_block x).
Proof.
  intros Hx He. unfold ExtentsOverlap. rewrite !u64_end by done.
  unfold extent_ok, kSparseHole in *. repeat case_match; lia.
Qed.

Definition hull (e x : Extent) : Extent :=
  let start := Z.min (start_block e) (start_block x) in
  mkExtent start (Z.max (start_block e + num_blocks e) (start_block x + num_blocks x) - start).

Lemma union_hull e x :
  extent_ok e -> extent_ok x -> UnionOverlappingExtents e x = Ret (hull e x).
Proof.
  intros He Hx. unfold UnionOverlappingExtents, hull. rewrite !u64_end by done.
  unfold extent_ok, kSparseHole in *.
  rewrite !(proj2 (Z.eqb_neq (2 ^ 64 - 1) _)) by lia. simpl negb. unfold check_that.
  rewrite !outcome_bind_ret. unfold ExtentForRange. do 2 f_equal. apply uint_small. unfold is_uint. lia.
Qed.

Lemma hull_ok e x : extent_ok e -> extent_ok x -> extent_ok (hull e x).
Proof. unfold extent_ok, hull; simpl. lia. Qed.

(** No extent that starts beyond the end of [e] is merged. *)
Lemma add_scan_beyond its e i bd ed d lo :
  gaps lo its -> extent_ok e -> start_block e + num_blocks e < lo ->
  add_scan i its bd ed d e = Ret (bd, ed, d, e).
Proof.
  revert i lo. induction its as [|x its IH]; intros i lo Hg He Hlo; simpl; [done|].
  destruct Hg as (Hx1 & Hx & Hg). rewrite touch_spec by done. unfold extent_ok in Hx.
  rewrite (proj2 (Z.ltb_lt _ (start_block x))), andb_false_r by lia.
  apply (IH _ _ Hg); [done|lia].
Qed.

(** After the first extent that touches. *)
Lemma add_scan_merge its e i b d lo :
  gaps lo its -> extent_ok e -> start_block e <= lo -> 0 <= d -> d + total its < 2 ^ 64 ->
  exists k e', add_scan i its (Some b) i d e
               = Ret (Some b, (i + k)%nat, d + total (take k its), e')
    /\ add_ref e its = e' :: drop k its /\ extent_ok e' /\ start_block e' = start_block e
    /\ (k <= length its)%nat.
Proof.
  revert e i d lo. induction its as [|x its IH]; intros e i d lo Hg He Hlo Hd Ht; simpl.
  { exists O, e. rewrite Nat.add_0_r, Z.add_0_r. done. }
  destruct Hg as (Hx1 & Hx & Hg). pose proof (proj1 (total_bound _ _ Hg)) as Hpos.
  rewrite touch_spec by done. simpl in Ht.
  assert (Hxe := Hx). unfold extent_ok in Hxe.
  rewrite (proj2 (Z.ltb_ge (start_block x + _) _)) by lia. simpl.
  destruct (Z.ltb_spec (start_block e + num_blocks e) (start_block x)) as [Hlt|Hge]; simpl.
  - exists O, e. rewrite Nat.add_0_r, Z.add_0_r. split_and!; try done; [|lia].
    apply (add_scan_beyond _ _ _ _ _ _ _ Hg He). lia.
  - rewrite union_hull by done. simpl. rewrite (uint_small 64) by (unfold is_uint; lia).
    destruct (IH (hull e x) (S i) (d + num_blocks x) _ Hg) as (k & e' & -> & Hr & Hok & Hs & Hk).
    + by apply hull_ok.
    + unfold hull; simpl. lia.
    + lia.
    + lia.
    + exists (S k), e'. simpl. rewrite Nat.add_succ_r, Z.add_assoc. split_and!; try done; [|lia].
      rewrite Hs. unfold hull; simpl. lia.
Qed.


Lemma add_ref_gaps lo l e :
  gaps lo l -> extent_ok e -> gaps (Z.min lo (start_block e)) (add_ref e l).
Proof.
  revert lo e. induction l as [|x l IH]; intros lo e Hg He; simpl; [split_and!; [lia|done..]|].
  destruct Hg as (Hx1 & Hx & Hg). destruct (Z.ltb_spec (start_block x + num_blocks x) (start_block e)).
  - simpl. split_and!; [lia|done|]. refine (gaps_weaken _ _ _ _ (IH _ e Hg He)). lia.
  - destruct (Z.ltb_spec (start_block e + num_blocks e) (start_block x)); simpl.
    + split_and!; try done; lia.
    + refine (gaps_weaken _ _ _ _ (IH _ (hull e x) Hg (hull_ok _ _ He Hx))).
      unfold extent_ok, hull in *; simpl. lia.
Qed.

Lemma add_ref_covers lo l e b :
  gaps lo l -> extent_ok e -> covers (add_ref e l) b <-> in_extent e b \/ covers l b.
Proof.
  revert lo e. induction l as [|x l IH]; intros lo e Hg He; simpl; [by rewrite covers_cons|].
  destruct Hg as (Hx1 & Hx & Hg). destruct (Z.ltb_spec (start_block x + num_blocks x) (start_block e)).
  - rewrite !covers_cons, (IH _ _ Hg He). tauto.
  - destruct (Z.ltb_spec (start_block e + num_blocks e) (start_block x)).
    + by rewrite !covers_cons.
    + fold (hull e x). rewrite (IH _ _ Hg (hull_ok _ _ He Hx)), covers_cons.
      assert (in_extent (hull e x) b <-> in_extent e b \/ in_extent x b) as ->; [|tauto].
      unfold in_extent, hull, extent_ok in *; simpl. lia.
Qed.

Lemma set_insert_between e a b :
  Forall (fun x => start_block x < start_block e) a ->
  Forall (fun x => start_block e < start_block x) b ->
  set_insert e (a ++ b) = a ++ e :: b.
Proof.
  intros Ha Hb. induction Ha as [|x a Hx Ha IH]; simpl.
  - destruct Hb as [|x b Hx Hb]; simpl; [done|]. by rewrite (proj2 (Z.ltb_lt _ _)) by lia.
  - rewrite (proj2 (Z.ltb_ge _ _)), (proj2 (Z.ltb_lt _ _)) by lia. by rewrite IH.
Qed.

Lemma gaps_starts lo l : gaps lo l -> Forall (fun x => lo <= start_block x) l.
Proof. intros Hg. apply Forall_forall. intros x Hx. by apply (gaps_bounds _ _ _ Hg). Qed.

Lemma total_app l k : total (l ++ k) = total l + total k.
Proof. induction l; simpl; lia. Qed.

Lemma gaps_ok lo l : gaps lo l -> Forall extent_ok l.
Proof. intros Hg. apply Forall_forall. intros x Hx. by apply (gaps_bounds _ _ _ Hg). Qed.

Lemma total_nonneg l : Forall extent_ok l -> 0 <= total l.
Proof. induction 1 as [|e l He Hl IH]; simpl; unfold extent_ok in *; lia. Qed.

Lemma total_pos l : Forall extent_ok l -> l <> [] -> 0 < total l.
Proof. intros Hl Hne. destruct Hl as [|e l He Hl]; [done|]. pose proof (total_nonneg l Hl). unfold extent_ok in He. simpl. lia. Qed.

(** The merged extent in place of those from the end of [front] on. *)
Lemma erase_merged e front x its k lo :
  Forall (fun y => start_block y < start_block e) front -> gaps lo (drop k its) -> start_block e < lo ->
  set_insert e (erase_range (length front) (S (length front) + k) (front ++ x :: its)) = front ++ e :: drop k its.
Proof.
  intros Hf Hg He. unfold erase_range. rewrite take_app_length. replace (S (length front) + k)%nat with (length front + S k)%nat by lia.
  rewrite drop_app_add. apply set_insert_between; [done|]. eapply Forall_impl; [exact (gaps_starts _ _ Hg)|]. simpl. lia.
Qed.

(** The set [AddExtent] leaves, from the extents [front] that end before the
    new one. *)
Lemma add_scan_set its e front lo :
  gaps lo its -> extent_ok e -> total its < 2 ^ 64 ->
  Forall (fun x => start_block x < start_block e) front ->
  Forall (fun x => start_block x < lo) front ->
  exists bd ed d e',
    add_scan (length front) its None (length (front ++ its)) 0 e = Ret (bd, ed, d, e')
    /\ set_insert e' (match bd with
                      | Some first => erase_range first ed (front ++ its)
                      | None => front ++ its
                      end) = front ++ add_ref e its
    /\ 0 <= d <= total its /\ total (add_ref e its) = total its - d + num_blocks e'.
Proof.
  revert e front lo. induction its as [|x its IH]; intros e front lo Hg He Ht Hf Hlo; simpl.
  - exists None, (length (front ++ [])), 0, e. split_and!; try done; try lia.
    apply set_insert_between; [done|constructor].
  - destruct Hg as (Hx1 & Hx & Hg). pose proof (proj1 (total_bound _ _ Hg)) as Hpos.
    simpl in Ht. assert (Hxe := Hx). unfold extent_ok in Hxe. rewrite touch_spec by done.
    destruct (Z.ltb_spec (start_block x + num_blocks x) (start_block e)) as [H1|H1]; simpl.
    + destruct (IH e (front ++ [x]) _ Hg He) as (bd & ed & d & e' & Hs & Hi & Hd & Htot); try lia.
      { apply Forall_app. split; [done|]. constructor; [lia|done]. }
      { apply Forall_app. split; [|constructor; [lia|done]].
        eapply Forall_impl; [exact Hlo|]. simpl. lia. }
      rewrite <- !app_assoc in *. simpl in *. exists bd, ed, d, e'.
      rewrite length_app in Hs. simpl in Hs. rewrite Nat.add_1_r in Hs.
      split_and!; try done; lia.
    + destruct (Z.ltb_spec (start_block e + num_blocks e) (start_block x)) as [H2|H2]; simpl.
      * exists None, (length (front ++ x :: its)), 0, e. unfold extent_ok in He.
        split_and!; try done; try lia.
        { apply (add_scan_beyond _ _ _ _ _ _ _ Hg); [done|lia]. }
        apply set_insert_between; [done|]. constructor; [lia|].
        eapply Forall_impl; [exact (gaps_starts _ _ Hg)|]. simpl. lia.
      * rewrite union_hull by done. simpl. rewrite (uint_small 64) by (unfold is_uint; lia).
        destruct (add_scan_merge its (hull e x) (S (length front)) (length front) (0 + num_blocks x) _ Hg)
          as (k & e' & -> & Hr & Hok & Hs & Hk); try lia.
        { by apply hull_ok. }
        { unfold hull; simpl. lia. }
        fold (hull e x). rewrite Hr.
        pose proof (add_ref_gaps _ _ _ Hg (hull_ok _ _ He Hx)) as Hg'. rewrite Hr in Hg'.
        destruct Hg' as (_ & He' & Hg').
        eexists _, _, _, e'. split; [done|].
        assert (Htk : total its = total (take k its) + total (drop k its))
          by (by rewrite <- total_app, take_drop).
        assert (0 <= total (drop k its)) by (eapply (total_bound _ _ Hg')).
        assert (0 <= total (take k its)) by (eapply total_nonneg, Forall_take, gaps_ok, Hg).
        split_and!; try lia.
        { eapply erase_merged; [|exact Hg'|unfold extent_ok in He'; lia]. rewrite Hs. unfold hull; simpl. apply Forall_forall.
          intros y Hy. rewrite Forall_forall in Hf, Hlo. specialize (Hf y Hy). specialize (Hlo y Hy). lia. }
        simpl. lia.
Qed.

(** An extent as the callers of [AddExtent] and [SubtractExtent] may pass it:
    holes and empty extents are ignored, others end below the hole. *)
Definition extent_fits (e : Extent) : Prop :=
  start_block e = kSparseHole
  \/ (0 <= start_block e /\ 0 <= num_blocks e /\ start_block e + num_blocks e <= kSparseHole).

(** The blocks it stands for in a set of blocks. *)
Definition real_block (e : Extent) (b : Z) : Prop :=
  start_block e <> kSparseHole /\ in_extent e b.

Lemma extent_ignored e b :
  (start_block e =? kSparseHole) || (num_blocks e =? 0) = true -> ~ real_block e b.
Proof. unfold real_block, in_extent. intros [H|H]%orb_prop; lia. Qed.

Lemma extent_used e :
  extent_fits e -> (start_block e =? kSparseHole) || (num_blocks e =? 0) = false ->
  extent_ok e /\ forall b, real_block e b <-> in_extent e b.
Proof.
  unfold extent_fits, extent_ok, real_block, in_extent. intros Hf [H1 H2]%orb_false_elim.
  split; [lia|]. intros b. split; [tauto|]. intros ?. split; [lia|done].
Qed.

Lemma total_uint lo l : 0 <= lo -> gaps lo l -> is_uint 64 (total l).
Proof.
  intros Hlo Hg. destruct (total_bound _ _ Hg) as [H1 H2]. unfold is_uint, kSparseHole in *.
  destruct l; [done|]. specialize (H2 ltac:(done)). lia.
Qed.

Lemma AddExtent_spec e r :
  ranges_ok r -> extent_fits e ->
  exists r', AddExtent e r = Ret r' /\ ranges_ok r'
    /\ forall b, covers (extent_set r') b <-> real_block e b \/ covers (extent_set r) b.
Proof.
  intros [Hg Hb] Hf. unfold AddExtent.
  destruct ((start_block e =? kSparseHole) || (num_blocks e =? 0)) eqn:E.
  { exists r. split_and!; try done. intros b. pose proof (extent_ignored e b E). tauto. }
  destruct (extent_used e Hf E) as [He Hr].
  pose proof (total_uint 0 _ ltac:(lia) Hg) as Hu. unfold is_uint in Hu.
  destruct (add_scan_set (extent_set r) e [] 0 Hg He) as (bd & ed & d & e' & Hs & Hi & Hd & Ht);
    [lia | constructor | constructor |].
  simpl in Hs, Hi. rewrite Hs. simpl. rewrite Hi. eexists. split; [done|].
  pose proof (add_ref_gaps _ _ _ Hg He) as Hg'.
  apply (gaps_weaken _ 0) in Hg'; [|unfold extent_ok in He; lia].
  pose proof (total_uint 0 _ ltac:(lia) Hg') as Hu'. unfold is_uint in Hu'.
  split; [split|].
  - done.
  - simpl. unfold extent_ok in He.
    rewrite (uint_small 64 (blocks r - d)), uint_small by (unfold is_uint; lia). lia.
  - intros b. simpl. rewrite (add_ref_covers _ _ _ _ Hg He), Hr. done.
Qed.

(** ** Subtraction *)

Definition pieces (x e : Extent) : list Extent :=
  (if start_block x <? start_block e
   then [mkExtent (start_block x) (start_block e - start_block x)] else [])
  ++ (if start_block e + num_blocks e <? start_block x + num_blocks x
      then [mkExtent (start_block e + num_blocks e)
              (start_block x + num_blocks x - (start_block e + num_blocks e))] else []).

(** What [SubtractExtent] computes. *)
Fixpoint sub_ref (e : Extent) (l : list Extent) : list Extent :=
  match l with
  | [] => []
  | x :: l' =>
      if start_block x + num_blocks x <=? start_block e then x :: sub_ref e l'
      else if start_block e + num_blocks e <=? start_block x then l
      else pieces x e ++ sub_ref e l'
  end.

Lemma subtract_pieces x e :
  extent_ok x -> extent_ok e -> SubtractOverlappingExtents x e = pieces x e.
Proof.
  intros Hx He. unfold SubtractOverlappingExtents, pieces. rewrite !u64_end by done.
  unfold extent_ok, kSparseHole in *.
  destruct (Z.ltb_spec (start_block x) (start_block e));
    destruct (Z.ltb_spec (start_block e + num_blocks e) (start_block x + num_blocks x)); simpl;
    rewrite ?(uint_small 64) by (unfold is_uint; lia); try done.
  by rewrite (proj2 (Z.ltb_ge _ _)), (proj2 (Z.ltb_lt _ _)) by lia.
Qed.

Lemma pieces_gaps x e lo l :
  extent_ok x -> extent_ok e -> lo <= start_block x ->
  start_block e < start_block x + num_blocks x -> start_block x < start_block e + num_blocks e ->
  gaps (start_block x + num_blocks x + 1) l -> gaps lo (pieces x e ++ l).
Proof.
  intros Hx He Hlo Ho1 Ho2 Hg. unfold pieces, extent_ok in *.
  destruct (Z.ltb_spec (start_block x) (start_block e));
    destruct (Z.ltb_spec (start_block e + num_blocks e) (start_block x + num_blocks x)); simpl;
    unfold extent_ok; simpl; try split_and!; try lia;
    (refine (gaps_weaken _ _ _ _ Hg); lia).
Qed.

Lemma sub_ref_gaps lo l e : gaps lo l -> extent_ok e -> gaps lo (sub_ref e l).
Proof.
  intros Hg He. revert lo Hg. induction l as [|x l IH]; intros lo; simpl; [done|].
  intros (Hx1 & Hx & Hg). repeat case_match; simpl; auto.
  apply pieces_gaps; auto; lia.
Qed.

Lemma pieces_covers x e b :
  extent_ok x -> extent_ok e ->
  start_block e < start_block x + num_blocks x -> start_block x < start_block e + num_blocks e ->
  covers (pieces x e) b <-> in_extent x b /\ ~ in_extent e b.
Proof.
  intros Hx He Ho1 Ho2. unfold pieces, extent_ok, in_extent in *. rewrite covers_app.
  destruct (Z.ltb_spec (start_block x) (start_block e));
    destruct (Z.ltb_spec (start_block e + num_blocks e) (start_block x + num_blocks x));
    unfold covers; rewrite ?Exists_cons, ?Exists_nil; unfold in_extent; simpl; lia.
Qed.

Lemma sub_ref_covers lo l e b :
  gaps lo l -> extent_ok e -> covers (sub_ref e l) b <-> covers l b /\ ~ in_extent e b.
Proof.
  intros Hg He. revert lo Hg. induction l as [|x l IH]; intros lo; simpl.
  { intros _. unfold covers. rewrite Exists_nil. tauto. }
  intros (Hx1 & Hx & Hg).
  assert (Hl : covers l b -> start_block x + num_blocks x < b)
    by (intros H; pose proof (covers_bound _ _ _ Hg H); lia).
  destruct (Z.leb_spec (start_block x + num_blocks x) (start_block e)).
  - rewrite !covers_cons, (IH _ Hg).
    assert (in_extent x b -> ~ in_extent e b) by (unfold in_extent; lia). tauto.
  - destruct (Z.leb_spec (start_block e + num_blocks e) (start_block x)).
    + rewrite covers_cons. unfold in_extent, extent_ok in *. split; [|tauto].
      intros H1. split; [done|]. destruct H1 as [?|Hc]; [lia|]. specialize (Hl Hc). lia.
    + rewrite covers_app, covers_cons, (IH _ Hg), pieces_covers by done. tauto.
Qed.

(** Insertion of an ascending run between two parts of a set. *)
Lemma set_insert_all_between es a b lo :
  gaps lo es -> Forall (fun x => start_block x < lo) a ->
  (forall x y, x ∈ es -> y ∈ b -> start_block x < start_block y) ->
  set_insert_all es (a ++ b) = a ++ es ++ b.
Proof.
  revert a lo. induction es as [|e es IH]; intros a lo Hg Ha Hb; simpl; [done|].
  destruct Hg as (He1 & He & Hg). unfold set_insert_all. simpl. rewrite set_insert_between.
  - change (a ++ e :: b) with (a ++ [e] ++ b). rewrite app_assoc.
    fold (set_insert_all es ((a ++ [e]) ++ b)).
    rewrite (IH (a ++ [e]) _ Hg), <- app_assoc; [done| |].
    + unfold extent_ok in He. apply Forall_app. split; [|constructor; [lia|done]].
      eapply Forall_impl; [exact Ha|]. simpl. lia.
    + intros x y Hx Hy. apply Hb; [by apply list_elem_of_further|done].
  - eapply Forall_impl; [exact Ha|]. simpl. lia.
  - apply Forall_forall. intros y Hy. apply Hb; [apply list_elem_of_here|done].
Qed.

Lemma gaps_app_inv lo l k :
  gaps lo (l ++ k) ->
  gaps lo l /\ gaps lo k
  /\ forall x y, x ∈ l -> y ∈ k -> start_block x + num_blocks x < start_block y.
Proof.
  revert lo. induction l as [|e l IH]; intros lo; simpl.
  { intros Hk. split_and!; try done. intros x y Hx. by apply elem_of_nil in Hx. }
  intros (He1 & He & Hg). destruct (IH _ Hg) as (Hl & Hk & Hlk). unfold extent_ok in He.
  split_and!; try done.
  - refine (gaps_weaken _ _ _ _ Hk). lia.
  - intros x y [->|Hx]%elem_of_cons Hy; [|by apply Hlk].
    destruct (gaps_bounds _ _ _ Hk Hy). lia.
Qed.

Lemma pieces_total x e :
  extent_ok x -> extent_ok e ->
  start_block e < start_block x + num_blocks x -> start_block x < start_block e + num_blocks e ->
  0 <= total (pieces x e) < num_blocks x.
Proof.
  intros Hx He Ho1 Ho2. unfold pieces, extent_ok in *.
  repeat case_match; simpl; lia.
Qed.

Lemma pieces_starts x e y :
  extent_ok x -> y ∈ pieces x e -> start_block y < start_block x + num_blocks x.
Proof.
  unfold extent_ok. intros Hx. revert y. apply Forall_forall. unfold pieces. apply Forall_app.
  split; case_match; repeat constructor; simpl; lia.
Qed.

Lemma subtract_count x e d :
  extent_ok x -> extent_ok e ->
  start_block e < start_block x + num_blocks x -> start_block x < start_block e + num_blocks e ->
  0 <= d -> d + num_blocks x < 2 ^ 64 ->
  fold_left (fun d jt => u64 (d - num_blocks jt)) (pieces x e) (u64 (d + num_blocks x))
  = d + num_blocks x - total (pieces x e).
Proof.
  intros Hx He Ho1 Ho2 Hd Hm. unfold pieces, extent_ok in *.
  rewrite (uint_small 64) by (unfold is_uint; lia).
  destruct (Z.ltb_spec (start_block x) (start_block e));
    destruct (Z.ltb_spec (start_block e + num_blocks e) (start_block x + num_blocks x)); simpl;
    rewrite ?(uint_small 64) by (unfold is_uint; rewrite ?(uint_small 64); unfold is_uint; lia);
    lia.
Qed.

Lemma subtract_scan_beyond its e i bd ed d N lo :
  gaps lo its -> extent_ok e -> start_block e + num_blocks e <= lo ->
  subtract_scan i its bd ed d N e = (bd, ed, d, N).
Proof.
  revert i lo. induction its as [|x its IH]; intros i lo Hg He Hlo; simpl; [done|].
  destruct Hg as (Hx1 & Hx & Hg). rewrite overlap_spec by done. unfold extent_ok in Hx.
  rewrite (proj2 (Z.leb_le _ (start_block x))), andb_false_r by lia.
  apply (IH _ _ Hg); [done|lia].
Qed.

(** After the first extent that overlaps. *)
Lemma subtract_scan_cut its e i b d N lo :
  gaps lo its -> extent_ok e -> start_block e < lo -> 0 <= d -> d + total its < 2 ^ 64 ->
  Forall (fun y => start_block y < lo) N ->
  exists k ps, subtract_scan i its (Some b) i d N e
               = (Some b, (i + k)%nat, d + total (take k its) - total ps, N ++ ps)
    /\ sub_ref e its = ps ++ drop k its /\ (k <= length its)%nat
    /\ 0 <= total ps <= total (take k its).
Proof.
  revert i d N lo. induction its as [|x its IH]; intros i d N lo Hg He Hlo Hd Ht HN; simpl.
  { exists O, []. rewrite Nat.add_0_r, app_nil_r. simpl. rewrite Z.add_0_r, Z.sub_0_r. done. }
  destruct Hg as (Hx1 & Hx & Hg). pose proof (proj1 (total_bound _ _ Hg)) as Hpos.
  rewrite overlap_spec by done. simpl in Ht. assert (Hxe := Hx). unfold extent_ok in Hxe.
  rewrite (proj2 (Z.leb_gt (start_block x + _) _)) by lia. simpl.
  destruct (Z.leb_spec (start_block e + num_blocks e) (start_block x)) as [Hlt|Hge]; simpl.
  - exists O, []. rewrite Nat.add_0_r, app_nil_r. split_and!; try done; try (simpl; lia).
    rewrite (subtract_scan_beyond _ _ _ _ _ _ _ _ Hg He) by lia. simpl. by rewrite Z.add_0_r, Z.sub_0_r.
  - rewrite subtract_pieces by done. rewrite subtract_count by (done || lia).
    pose proof (pieces_total x e Hx He ltac:(lia) ltac:(lia)) as Hpt.
    pose proof (pieces_gaps x e lo its Hx He ltac:(lia) ltac:(lia) ltac:(lia) Hg) as Hpg.
    apply gaps_app_inv in Hpg as (Hpg & _ & _).
    pose proof (set_insert_all_between (pieces x e) N [] lo Hpg HN
                  ltac:(by intros y z _ ?%elem_of_nil)) as Hins.
    rewrite !app_nil_r in Hins. rewrite Hins.
    destruct (IH (S i) (d + num_blocks x - total (pieces x e)) (N ++ pieces x e) _ Hg He)
      as (k & ps & -> & Hr & Hk & Hps); try lia.
    { apply Forall_app. split; [eapply Forall_impl; [exact HN|]; simpl; lia|].
      apply Forall_forall. intros y Hy. pose proof (pieces_starts x e y Hx Hy). lia. }
    exists (S k), (pieces x e ++ ps). simpl. rewrite Hr, <- !app_assoc, total_app.
    split_and!; try lia; try done.
    rewrite Nat.add_succ_r.
    by replace (d + (num_blocks x + total (take k its)) - (total (pieces x e) + total ps))
      with (d + num_blocks x - total (pieces x e) + total (take k its) - total ps) by lia.
Qed.

Lemma subtract_scan_set_cut its e x front lo :
  lo <= start_block x -> extent_ok x -> gaps (start_block x + num_blocks x + 1) its ->
  extent_ok e -> num_blocks x + total its < 2 ^ 64 ->
  start_block e < start_block x + num_blocks x -> start_block x < start_block e + num_blocks e ->
  Forall (fun x => start_block x < lo) front ->
  exists bd ed d N,
    subtract_scan (S (length front)) its (Some (length front)) (S (length front))
      (fold_left (fun d jt => u64 (d - num_blocks jt)) (SubtractOverlappingExtents x e)
         (u64 (0 + num_blocks x)))
      (set_insert_all (SubtractOverlappingExtents x e) []) e = (bd, ed, d, N)
    /\ set_insert_all N (match bd with
                         | Some first => erase_range first ed (front ++ x :: its)
                         | None => front ++ x :: its
                         end) = front ++ pieces x e ++ sub_ref e its
    /\ 0 <= d <= num_blocks x + total its
    /\ total (pieces x e ++ sub_ref e its) = num_blocks x + total its - d.
Proof.
  intros Hx1 Hx Hg He Ht H1 H2 Hlo. pose proof (pieces_total x e Hx He H1 H2) as Hpt.
  pose proof (proj1 (total_bound _ _ Hg)) as Hpos. assert (Hxe := Hx). unfold extent_ok in Hxe.
  pose proof (pieces_gaps x e lo _ Hx He ltac:(lia) H1 H2 (sub_ref_gaps _ _ _ Hg He)) as Hall.
  rewrite subtract_pieces, subtract_count by (done || lia).
  destruct (gaps_app_inv _ _ _ Hall) as (Hpg & _ & _).
  pose proof (set_insert_all_between (pieces x e) [] [] lo Hpg ltac:(constructor)
                ltac:(by intros y z _ ?%elem_of_nil)) as Hins.
  rewrite !app_nil_r in Hins. simpl in Hins. rewrite Hins. simpl.
  destruct (subtract_scan_cut its e (S (length front)) (length front)
              (num_blocks x - total (pieces x e)) (pieces x e) _ Hg He)
    as (k & ps & Hs & Hr & Hk & Hps); try lia.
  { apply Forall_forall. intros y Hy. pose proof (pieces_starts x e y Hx Hy). lia. }
  eexists _, _, _, _. split; [exact Hs|]. rewrite Hr in *.
  rewrite !total_app. assert (Htk : total its = total (take k its) + total (drop k its))
    by (by rewrite <- total_app, take_drop).
  assert (0 <= total (drop k its)) by (eapply total_nonneg, Forall_drop, gaps_ok, Hg).
  split_and!; try lia. unfold erase_range. rewrite take_app_length.
  replace (S (length front) + k)%nat with (length front + S k)%nat by lia.
  rewrite drop_app_add. simpl. rewrite app_assoc in Hall.
  destruct (gaps_app_inv _ _ _ Hall) as (Hps1 & Hd1 & Hd2).
  rewrite (app_assoc (pieces x e) ps).
  apply (set_insert_all_between (pieces x e ++ ps) front (drop k its) lo); try done.
  intros y z Hy Hz. specialize (Hd2 y z Hy Hz).
  destruct (gaps_bounds _ _ _ Hps1 Hy) as [_ Hy']. unfold extent_ok in Hy'. lia.
Qed.

(** The set [SubtractExtent] leaves, from the extents [front] that end before
    the subtracted one. *)
Lemma subtract_scan_set its e front lo :
  gaps lo its -> extent_ok e -> total its < 2 ^ 64 ->
  Forall (fun x => start_block x < lo) front ->
  exists bd ed d N,
    subtract_scan (length front) its None (length (front ++ its)) 0 [] e = (bd, ed, d, N)
    /\ set_insert_all N (match bd with
                         | Some first => erase_range first ed (front ++ its)
                         | None => front ++ its
                         end) = front ++ sub_ref e its
    /\ 0 <= d <= total its /\ total (sub_ref e its) = total its - d.
Proof.
  revert front lo. induction its as [|x its IH]; intros front lo Hg He Ht Hlo; simpl.
  - exists None, (length (front ++ [])), 0, []. split_and!; try done; lia.
  - destruct Hg as (Hx1 & Hx & Hg). pose proof (proj1 (total_bound _ _ Hg)) as Hpos.
    simpl in Ht. assert (Hxe := Hx). unfold extent_ok in Hxe. rewrite overlap_spec by done.
    destruct (Z.leb_spec (start_block x + num_blocks x) (start_block e)) as [H1|H1]; simpl.
    + destruct (IH (front ++ [x]) _ Hg He) as (bd & ed & d & N & Hs & Hi & Hd & Htot); try lia.
      { apply Forall_app. split; [|constructor; [lia|done]].
        eapply Forall_impl; [exact Hlo|]. simpl. lia. }
      rewrite <- !app_assoc in *. simpl in *. exists bd, ed, d, N.
      rewrite length_app in Hs. simpl in Hs. rewrite Nat.add_1_r in Hs.
      split_and!; try done; lia.
    + destruct (Z.leb_spec (start_block e + num_blocks e) (start_block x)) as [H2|H2]; simpl.
      * exists None, (length (front ++ x :: its)), 0, [].
        split_and!; try done; try lia. apply (subtract_scan_beyond _ _ _ _ _ _ _ _ Hg); [done|lia].
      * apply (subtract_scan_set_cut its e x front lo); try done; try lia.
Qed.

Lemma SubtractExtent_spec e r :
  ranges_ok r -> extent_fits e ->
  ranges_ok (SubtractExtent e r)
  /\ forall b, covers (extent_set (SubtractExtent e r)) b
               <-> covers (extent_set r) b /\ ~ real_block e b.
Proof.
  intros [Hg Hb] Hf. unfold SubtractExtent.
  destruct ((start_block e =? kSparseHole) || (num_blocks e =? 0)) eqn:E.
  { split; [done|]. intros b. pose proof (extent_ignored e b E). tauto. }
  destruct (extent_used e Hf E) as [He Hr].
  pose proof (total_uint 0 _ ltac:(lia) Hg) as Hu. unfold is_uint in Hu.
  destruct (subtract_scan_set (extent_set r) e [] 0 Hg He) as (bd & ed & d & N & Hs & Hi & Hd & Ht);
    [lia | constructor |].
  simpl in Hs, Hi. rewrite Hs, Hi. split; [split|]; simpl.
  - by apply sub_ref_gaps.
  - rewrite uint_small by (unfold is_uint; lia). lia.
  - intros b. rewrite (sub_ref_covers _ _ _ _ Hg He), Hr. done.
Qed.

Lemma AddExtents_spec es r :
  ranges_ok r -> Forall extent_fits es ->
  exists r', AddExtents es r = Ret r' /\ ranges_ok r'
    /\ forall b, covers (extent_set r') b
                 <-> Exists (fun e => real_block e b) es \/ covers (extent_set r) b.
Proof.
  intros Hr Hes. revert r Hr. induction Hes as [|e es He Hes IH]; intros r Hr; simpl.
  { exists r. split_and!; try done. intros b. rewrite Exists_nil. tauto. }
  destruct (AddExtent_spec e r Hr He) as (r1 & -> & Hr1 & Hc1). simpl.
  destruct (IH r1 Hr1) as (r2 & -> & Hr2 & Hc2). exists r2. split_and!; try done.
  intros b. rewrite Hc2, Hc1, Exists_cons. tauto.
Qed.

Lemma SubtractExtents_spec es r :
  ranges_ok r -> Forall extent_fits es ->
  ranges_ok (SubtractExtents es r)
  /\ forall b, covers (extent_set (SubtractExtents es r)) b
               <-> covers (extent_set r) b /\ ~ Exists (fun e => real_block e b) es.
Proof.
  intros Hr Hes. unfold SubtractExtents. revert r Hr.
  induction Hes as [|e es He Hes IH]; intros r Hr; simpl.
  { split; [done|]. intros b. rewrite Exists_nil. tauto. }
  destruct (SubtractExtent_spec e r Hr He) as [Hr1 Hc1].
  destruct (IH _ Hr1) as [Hr2 Hc2]. split; [done|].
  intros b. rewrite Hc2, Hc1, Exists_cons. tauto.
Qed.

(** A set of blocks has one representation. *)
Lemma gaps_canonical lo l k :
  gaps lo l -> gaps lo k -> (forall b, covers l b <-> covers k b) -> l = k.
Proof.
  revert lo k. induction l as [|e l IH]; intros lo k Hl Hk Hc.
  - destruct k as [|x k]; [done|]. destruct Hk as (? & Hx & _). exfalso.
    assert (covers [] (start_block x)) as Hn%Exists_nil; [|done].
    apply Hc, covers_cons. left. unfold in_extent, extent_ok in *. lia.
  - destruct Hl as (He1 & He & Hl). destruct k as [|x k].
    { exfalso. assert (covers [] (start_block e)) as H%Exists_nil; [|done].
      apply Hc, covers_cons. left. unfold in_extent, extent_ok in *. lia. }
    destruct Hk as (Hx1 & Hx & Hk). setoid_rewrite covers_cons in Hc.
    assert (Hlb : forall b, covers l b -> start_block e + num_blocks e < b)
      by (intros b H; pose proof (covers_bound _ _ _ Hl H); lia).
    assert (Hkb : forall b, covers k b -> start_block x + num_blocks x < b)
      by (intros b H; pose proof (covers_bound _ _ _ Hk H); lia).
    unfold in_extent, extent_ok in *.
    assert (Hs : start_block e = start_block x).
    { pose proof (proj1 (Hc (start_block e)) ltac:(left; lia)) as [H1|H1];
        pose proof (proj2 (Hc (start_block x)) ltac:(left; lia)) as [H2|H2];
        try lia; apply Hlb in H2 || idtac; apply Hkb in H1 || idtac; lia. }
    assert (Hn : num_blocks e = num_blocks x).
    { destruct (Z.lt_trichotomy (num_blocks e) (num_blocks x)) as [Hlt|[|Hlt]]; [|done|]; exfalso.
      - pose proof (proj2 (Hc (start_block e + num_blocks e)) ltac:(left; lia)) as [H1|H1]; [lia|].
        apply Hlb in H1. lia.
      - pose proof (proj1 (Hc (start_block x + num_blocks x)) ltac:(left; lia)) as [H1|H1]; [lia|].
        apply Hkb in H1. lia. }
    assert (e = x) as -> by (destruct e, x; simpl in *; congruence).
    f_equal. apply (IH _ k Hl Hk). intros b. specialize (Hc b). split; intros H.
    + destruct (proj1 Hc (or_intror H)) as [H1|H1]; [|done]. apply Hlb in H. lia.
    + destruct (proj2 Hc (or_intror H)) as [H1|H1]; [|done]. apply Hkb in H. lia.
Qed.

(** ** Lookup *)

Lemma lower_bound_length key l : (lower_bound key l <= length l)%nat.
Proof. induction l as [|x l IH]; simpl; [lia|]. case_match; lia. Qed.

Lemma lower_bound_before key l i e :
  l !! i = Some e -> (i < lower_bound key l)%nat -> start_block e < key.
Proof.
  revert i. induction l as [|x l IH]; intros i; simpl; [done|].
  destruct (Z.ltb_spec (start_block x) key); [|lia].
  destruct i; simpl; intros Hi Hlt; [by simplify_eq|]. apply (IH i); [done|lia].
Qed.

Lemma gaps_lookup lo l i j x y :
  gaps lo l -> l !! i = Some x -> l !! j = Some y -> (i < j)%nat ->
  start_block x + num_blocks x < start_block y.
Proof.
  revert lo i j. induction l as [|e l IH]; intros lo i j; simpl; [done|].
  intros (He1 & He & Hl). destruct j; [lia|]. destruct i; simpl; intros Hi Hj Hlt.
  - simplify_eq. destruct (gaps_bounds _ _ _ Hl (list_elem_of_lookup_2 _ _ _ Hj)). lia.
  - apply (IH _ i j Hl Hi Hj). lia.
Qed.

Lemma lower_bound_after lo key l i e :
  gaps lo l -> l !! i = Some e -> (lower_bound key l <= i)%nat -> key <= start_block e.
Proof.
  revert lo i. induction l as [|x l IH]; intros lo i; simpl; [done|].
  intros (Hx1 & Hx & Hl) Hi. destruct (Z.ltb_spec (start_block x) key).
  - destruct i; simpl in *; [lia|]. intros Hle. apply (IH _ i Hl Hi). lia.
  - intros _. destruct i; simpl in *; [by simplify_eq|].
    destruct (gaps_bounds _ _ _ Hl (list_elem_of_lookup_2 _ _ _ Hi)).
    unfold extent_ok in Hx. lia.
Qed.

Lemma lower_bound_mono l a b : a <= b -> (lower_bound a l <= lower_bound b l)%nat.
Proof. intros Hab. induction l as [|x l IH]; simpl; [lia|]. repeat case_match; lia. Qed.

(** A loop from one extent before [lower_bound a] to [lower_bound b] visits
    every extent that overlaps [a, b). *)
Lemma iterate_bounds lo l a b :
  gaps lo l -> a <= b ->
  exists front its rear, l = front ++ its ++ rear
    /\ iterate (step_back (lower_bound a l)) (lower_bound b l) l = Ret its
    /\ Forall (fun e => start_block e + num_blocks e < a) front
    /\ Forall (fun e => b <= start_block e) rear.
Proof.
  intros Hg Hab. set (n := step_back (lower_bound a l)). set (m := lower_bound b l).
  assert (Hnm : (n <= m)%nat).
  { unfold n, m, step_back. pose proof (lower_bound_mono l a b Hab). lia. }
  exists (take n l), (take (m - n) (drop n l)), (drop m l). split_and!.
  - rewrite <- (take_drop n l) at 1. f_equal. rewrite <- (take_drop (m - n) (drop n l)) at 1.
    f_equal. rewrite drop_drop. f_equal. lia.
  - unfold iterate. rewrite (proj2 (Nat.leb_le n m)) by done. done.
  - apply Forall_lookup. intros i e [Hi Hlt]%lookup_take_Some.
    unfold n, step_back in Hlt.
    destruct (lookup_lt_is_Some_2 l (pred (lower_bound a l))) as [y Hy].
    { pose proof (lower_bound_length a l). lia. }
    pose proof (gaps_lookup _ _ _ _ _ _ Hg Hi Hy Hlt).
    pose proof (lower_bound_before a l _ _ Hy ltac:(lia)). lia.
  - apply Forall_lookup. intros i e Hi. rewrite lookup_drop in Hi.
    apply (lower_bound_after _ _ _ _ _ Hg Hi). unfold m. lia.
Qed.

Lemma ContainsBlock_spec r b :
  ranges_ok r -> 0 <= b < kSparseHole ->
  exists c, ContainsBlock b r = Ret c /\ (c = true <-> covers (extent_set r) b).
Proof.
  intros [Hg _] Hb. unfold ContainsBlock. unfold kSparseHole in Hb.
  rewrite (uint_small 64 (b + 1)) by (unfold is_uint; lia).
  destruct (iterate_bounds 0 _ b (b + 1) Hg ltac:(lia)) as (front & its & rear & Hl & Hit & Hf & Hr).
  rewrite Hit. eexists. split; [done|]. rewrite existsb_exists.
  rewrite Forall_forall in Hf, Hr. unfold covers. rewrite Exists_exists. split.
  - intros (e & He & H). exists e. apply list_elem_of_In in He. rewrite Hl.
    assert (He' : e ∈ front ++ its ++ rear) by (rewrite !elem_of_app; tauto). split; [done|].
    rewrite <- Hl in He'. destruct (gaps_bounds _ _ _ Hg He') as [_ Hok].
    rewrite u64_end in H by done. unfold in_extent. lia.
  - intros (e & He & H). exists e. destruct (gaps_bounds _ _ _ Hg He) as [_ Hok].
    rewrite u64_end by done. unfold in_extent in H. split; [|lia]. apply list_elem_of_In.
    rewrite Hl, !elem_of_app in He. destruct He as [He|[He|He]]; [|done|].
    + specialize (Hf _ He). simpl in Hf. lia.
    + specialize (Hr _ He). simpl in Hr. lia.
Qed.


(** ** Lists of blocks *)

Lemma expand_fits e :
  start_block e <> kSparseHole -> extent_fits e ->
  expand e = seqZ (start_block e) (num_blocks e).
Proof.
  unfold expand, extent_fits, kSparseHole. intros Hne [?|Hf]; [done|].
  rewrite (proj2 (Z.eqb_neq _ _)) by done.
  rewrite (uint_small 64) by (unfold is_uint; lia). f_equal. lia.
Qed.

Lemma ok_fits e : extent_ok e -> start_block e <> kSparseHole /\ extent_fits e.
Proof. unfold extent_ok, extent_fits. lia. Qed.

Lemma expand_ok e : extent_ok e -> expand e = seqZ (start_block e) (num_blocks e).
Proof. intros He. destruct (ok_fits e He). by apply expand_fits. Qed.

Lemma ExpandExtents_cons e l : ExpandExtents (e :: l) = expand e ++ ExpandExtents l.
Proof. done. Qed.

Lemma ExpandExtents_app l k : ExpandExtents (l ++ k) = ExpandExtents l ++ ExpandExtents k.
Proof. apply bind_app. Qed.

Lemma ExpandExtents_length l : Forall extent_ok l -> zlen (ExpandExtents l) = total l.
Proof.
  induction 1 as [|e l He Hl IH]; [done|].
  rewrite ExpandExtents_cons, zlen_app, IH, expand_ok by done.
  unfold zlen, extent_ok in *. rewrite length_seqZ. simpl. lia.
Qed.

Lemma elem_of_ExpandExtents l b : Forall extent_ok l -> b ∈ ExpandExtents l <-> covers l b.
Proof.
  induction 1 as [|e l He Hl IH].
  { unfold covers. rewrite Exists_nil. unfold ExpandExtents. simpl. by rewrite elem_of_nil. }
  rewrite ExpandExtents_cons, elem_of_app, covers_cons, IH, expand_ok, elem_of_seqZ by done.
  done.
Qed.

Lemma BlocksInExtents_total l : Forall extent_ok l -> total l < 2 ^ 64 -> BlocksInExtents l = total l.
Proof.
  intros Hl Ht. unfold BlocksInExtents.
  assert (forall n, 0 <= n -> n + total l < 2 ^ 64 ->
            fold_left (fun ret e => u64 (ret + num_blocks e)) l n = n + total l) as H.
  { clear Ht. induction Hl as [|e l He Hl IH]; intros n Hn Ht; simpl in *; [lia|].
    pose proof (total_nonneg l Hl). unfold extent_ok in He.
    rewrite (uint_small 64) by (unfold is_uint; lia). rewrite IH; lia. }
  rewrite H by lia. lia.
Qed.

Lemma take_blocks_spec its count out out_blocks lo :
  gaps lo its -> is_uint 64 count -> 0 <= out_blocks < count -> count - out_blocks <= total its ->
  exists ps, take_blocks its count out out_blocks = (out ++ ps, count)
    /\ gaps lo ps /\ total ps = count - out_blocks
    /\ ExpandExtents ps = take (Z.to_nat (count - out_blocks)) (ExpandExtents its).
Proof.
  revert out out_blocks lo. induction its as [|e its IH]; intros out ob lo Hg Hc Hob Ht; simpl in *; [lia|].
  destruct Hg as (He1 & He & Hg). assert (Hek := He). unfold extent_ok, is_uint in *.
  rewrite (uint_small 64 (count - ob)) by (unfold is_uint; lia). rewrite ExpandExtents_cons, expand_ok by done.
  destruct (Z.ltb_spec (num_blocks e) (count - ob)) as [Hlt|Hge].
  - rewrite (uint_small 64) by (unfold is_uint; lia).
    destruct (IH (out ++ [e]) (ob + num_blocks e) _ Hg Hc) as (ps & -> & Hps & Htp & Hex); try lia.
    exists (e :: ps). rewrite <- app_assoc. split_and!; try done; [simpl; lia|].
    rewrite ExpandExtents_cons, expand_ok, Hex by done.
    rewrite take_app_ge by (rewrite length_seqZ; lia). rewrite length_seqZ. f_equal. f_equal. lia.
  - destruct (Z.eqb_spec (num_blocks e) (count - ob)) as [Heq|Hne].
    + exists [e]. rewrite (uint_small 64) by (unfold is_uint; lia).
      split_and!; try done; try (simpl; lia).
      * f_equal. lia.
      * unfold ExpandExtents. simpl. rewrite expand_ok, app_nil_r by done.
        rewrite take_app_le by (rewrite length_seqZ; lia). rewrite take_ge; [done|rewrite length_seqZ; lia].
    + exists [ExtentForRange (start_block e) (count - ob)].
      unfold uint at 1 2 3. rewrite Zminus_mod_idemp_l, Zplus_mod_idemp_l.
      replace (ob + num_blocks e - num_blocks e + (count - ob)) with count by lia.
      rewrite Z.mod_small by lia. split_and!; try done; try (simpl; lia).
      { simpl. split_and!; try done. unfold extent_ok. simpl. lia. }
      rewrite ExpandExtents_cons, expand_ok by (unfold extent_ok; simpl; lia).
      unfold ExpandExtents. simpl. rewrite app_nil_r.
      by rewrite take_app_le, take_seqZ by (rewrite ?length_seqZ; lia).
Qed.

(** [GetExtentsForBlockCount] returns the first [count] blocks of the set. *)
Lemma GetExtentsForBlockCount_spec r count :
  ranges_ok r -> 0 <= count <= blocks r ->
  exists out, GetExtentsForBlockCount count r = Ret out /\ gaps 0 out /\ total out = count
    /\ ExpandExtents out = take (Z.to_nat count) (ExpandExtents (extent_set r)).
Proof.
  intros [Hg Hb] Hc. unfold GetExtentsForBlockCount.
  pose proof (total_uint 0 _ ltac:(lia) Hg) as Hu. unfold is_uint in Hu.
  destruct (Z.eqb_spec count 0) as [->|Hne]; [by exists []|].
  rewrite (proj2 (Z.leb_le _ _)) by lia. simpl.
  destruct (take_blocks_spec (extent_set r) count [] 0 0 Hg) as (ps & -> & Hps & Ht & Hex);
    unfold is_uint; try lia.
  rewrite Z.sub_0_r in *. simpl. rewrite BlocksInExtents_total by (eauto using gaps_ok; lia).
  rewrite (proj2 (Z.eqb_eq _ _)) by lia. by exists ps.
Qed.

#[export] Instance in_extent_dec e b : Decision (in_extent e b).
Proof. unfold in_extent. apply _. Defined.

#[export] Instance covers_dec l b : Decision (covers l b).
Proof. unfold covers. apply _. Defined.

(** ** Filtering *)

(** The blocks of a list that a set of ranges does not cover. *)
Definition uncovered (l : list Extent) (bs : list Z) : list Z := filter (fun b => ~ covers l b) bs.

Lemma uncovered_none l bs : (forall b, b ∈ bs -> covers l b) -> uncovered l bs = [].
Proof.
  intros H. induction bs as [|b bs IH]; [done|]. unfold uncovered.
  rewrite filter_cons_False by (specialize (H b (list_elem_of_here _ _)); tauto).
  apply IH. intros c Hc. apply H. by apply list_elem_of_further.
Qed.

Lemma uncovered_all l bs : (forall b, b ∈ bs -> ~ covers l b) -> uncovered l bs = bs.
Proof. intros H. by apply filter_all. Qed.

Lemma uncovered_ext l k bs :
  (forall b, b ∈ bs -> covers l b <-> covers k b) -> uncovered l bs = uncovered k bs.
Proof.
  intros H. induction bs as [|b bs IH]; [done|]. unfold uncovered in *. rewrite !filter_cons.
  rewrite IH by (intros c Hc; apply H; by apply list_elem_of_further).
  specialize (H b (list_elem_of_here _ _)). repeat case_decide; tauto.
Qed.

Lemma uncovered_app l a b : uncovered l (a ++ b) = uncovered l a ++ uncovered l b.
Proof. apply filter_app. Qed.

Definition remaining (e : Extent) : list Extent := if 0 <? num_blocks e then [e] else [].

(** From inside [x] on, what [x :: its] leaves is what [its] leaves behind [x]. *)
Lemma uncovered_behind x its a n :
  gaps (start_block x + num_blocks x + 1) its -> start_block x <= a ->
  0 <= start_block x + num_blocks x - a <= n ->
  uncovered (x :: its) (seqZ a n)
  = uncovered its (seqZ (start_block x + num_blocks x) (a + n - (start_block x + num_blocks x))).
Proof.
  intros Hg Ha Hn. rewrite (seqZ_split a n (start_block x + num_blocks x - a)) by lia.
  rewrite uncovered_app, uncovered_none; simpl.
  - replace (a + (start_block x + num_blocks x - a)) with (start_block x + num_blocks x) by lia.
    replace (n - (start_block x + num_blocks x - a)) with (a + n - (start_block x + num_blocks x)) by lia.
    apply uncovered_ext. intros b Hb%elem_of_seqZ. rewrite covers_cons.
    assert (~ in_extent x b) by (unfold in_extent; lia). tauto.
  - intros b Hb%elem_of_seqZ. apply covers_cons. left. unfold in_extent. lia.
Qed.

Lemma uncovered_front x its a :
  gaps (start_block x + num_blocks x + 1) its -> extent_ok x ->
  uncovered (x :: its) (seqZ a (start_block x - a)) = seqZ a (start_block x - a).
Proof.
  intros Hg Hx. apply uncovered_all. intros b Hb%elem_of_seqZ [Hc|Hc]%covers_cons.
  - unfold in_extent in Hc. lia.
  - pose proof (covers_bound _ _ _ Hg Hc). unfold extent_ok in Hx. lia.
Qed.

Lemma remaining_whole e : extent_ok e -> Forall extent_ok (remaining e) /\ ExpandExtents (remaining e) = seqZ (start_block e) (num_blocks e).
Proof.
  intros He. unfold remaining. pose proof He as He'. unfold extent_ok in He'. rewrite (proj2 (Z.ltb_lt _ _)) by lia. split; [by apply Forall_singleton|].
  rewrite ExpandExtents_cons, expand_ok by done. apply app_nil_r.
Qed.

Lemma filter_loop_spec its e result lo :
  gaps lo its -> extent_ok e ->
  exists ps e', filter_loop its e result = (e', result ++ ps)
    /\ Forall extent_ok (ps ++ remaining e')
    /\ ExpandExtents (ps ++ remaining e') = uncovered its (seqZ (start_block e) (num_blocks e)).
Proof.
  revert e result lo. induction its as [|x its IH]; intros e result lo Hg He; simpl.
  { exists [], e. destruct (remaining_whole e He) as [Hok Hex]. rewrite app_nil_r. split_and!; [done..|]. simpl. rewrite Hex.
    symmetry. apply uncovered_all. by intros b _ ?%Exists_nil. }
  destruct Hg as (Hx1 & Hx & Hg). rewrite overlap_spec by done.
  destruct (Z.leb_spec (start_block e + num_blocks e) (start_block x)) as [H1|H1];
    [|destruct (Z.leb_spec (start_block x + num_blocks x) (start_block e)) as [H2|H2]].
  1, 2: rewrite ?andb_false_r; simpl; destruct (IH e result _ Hg He) as (ps & e' & -> & Hok & Hex);
    exists ps, e'; rewrite Hex; split_and!; try done; apply uncovered_ext; intros b Hb%elem_of_seqZ;
    rewrite covers_cons; assert (~ in_extent x b) by (unfold in_extent; lia); tauto.
  simpl.
  assert (Hee := conj He Hx). unfold extent_ok, kSparseHole in Hee. rewrite !u64_end by done.
  set (rest := mkExtent (start_block x + num_blocks x)
                 (start_block e + num_blocks e - (start_block x + num_blocks x))).
  assert (Hrest : start_block x + num_blocks x < start_block e + num_blocks e -> extent_ok rest)
    by (intros; unfold extent_ok, kSparseHole; simpl; lia).
  destruct (Z.leb_spec (start_block x) (start_block e)) as [H3|H3].
  - rewrite (uint_small 64) by (unfold is_uint; lia).
    destruct (Z.leb_spec (num_blocks e) (start_block x + num_blocks x - start_block e)) as [H4|H4].
    + exists [], (ExtentForRange (start_block e) 0). rewrite app_nil_r. split_and!; [done|constructor|].
      symmetry. apply uncovered_none. intros b Hb%elem_of_seqZ. apply covers_cons. left.
      unfold in_extent. lia.
    + rewrite !(uint_small 64) by (unfold is_uint; lia).
      replace (ExtentForRange _ _) with rest by (unfold rest, ExtentForRange; f_equal; lia).
      destruct (IH rest result _ Hg (Hrest ltac:(lia))) as (ps & e' & -> & Hok & Hex).
      exists ps, e'. split_and!; try done. rewrite Hex, (uncovered_behind x) by (done || lia). done.
  - rewrite (uint_small 64 (start_block x - _)) by (unfold is_uint; lia).
    set (front := ExtentForRange (start_block e) (start_block x - start_block e)).
    assert (Hfront : extent_ok front) by (unfold extent_ok, kSparseHole; simpl; lia).
    rewrite (seqZ_split _ _ (start_block x - start_block e)), uncovered_app, uncovered_front by (done || lia).
    destruct (Z.leb_spec (start_block e + num_blocks e) (start_block x + num_blocks x)) as [H4|H4].
    + exists [front], (ExtentForRange (start_block e) 0). unfold remaining. simpl.
      split_and!; [done|by apply Forall_singleton|].
      rewrite ExpandExtents_cons, expand_ok by done. unfold front at 1 2; simpl. f_equal.
      symmetry. apply uncovered_none. intros b Hb%elem_of_seqZ. apply covers_cons. left.
      unfold in_extent. lia.
    + rewrite (uint_small 64) by (unfold is_uint; lia). change (ExtentForRange _ _) with rest at 1.
      destruct (IH rest (result ++ [front]) _ Hg (Hrest ltac:(lia))) as (ps & e' & -> & Hok & Hex).
      exists (front :: ps), e'. rewrite <- app_assoc. split_and!; [done|by constructor|]. simpl.
      rewrite ExpandExtents_cons, expand_ok, Hex by done. unfold front; simpl. f_equal.
      rewrite (uncovered_behind x) by (done || lia). unfold rest; simpl. f_equal. f_equal. lia.
Qed.

Lemma filter_extents_spec es l result :
  gaps 0 l -> Forall extent_ok es -> Forall extent_ok result ->
  exists out, filter_extents es l result = Ret out /\ Forall extent_ok out
    /\ ExpandExtents out = ExpandExtents result ++ uncovered l (ExpandExtents es).
Proof.
  intros Hg Hes. revert result. induction Hes as [|e es He Hes IH]; intros result Hres; simpl.
  { exists result. split_and!; try done. unfold uncovered, ExpandExtents. simpl. by rewrite app_nil_r. }
  assert (Hee := He). unfold extent_ok in Hee. rewrite u64_end by done.
  destruct (iterate_bounds 0 l (start_block e) (start_block e + num_blocks e) Hg ltac:(lia))
    as (front & its & rear & Hl & -> & Hf & Hr). simpl.
  assert (Hits : gaps 0 its).
  { rewrite Hl in Hg. apply gaps_app_inv in Hg as (_ & Hg & _). by apply gaps_app_inv in Hg as (? & _ & _). }
  destruct (filter_loop_spec its e result _ Hits He) as (ps & e' & -> & Hok & Hex).
  apply Forall_app in Hok as [Hps Hre].
  destruct (IH (if 0 <? num_blocks e' then (result ++ ps) ++ [e'] else result ++ ps))
    as (out & -> & Hout & Hexp).
  { unfold remaining in Hre. case_match; repeat (apply Forall_app; split); done. }
  exists out. split_and!; try done. rewrite Hexp, ExpandExtents_cons, uncovered_app, expand_ok by done.
  assert (ExpandExtents (if 0 <? num_blocks e' then (result ++ ps) ++ [e'] else result ++ ps)
          = ExpandExtents result ++ ExpandExtents (ps ++ remaining e')) as ->.
  { unfold remaining. case_match; rewrite !ExpandExtents_app; rewrite ?app_assoc; [done|].
    unfold ExpandExtents at 4. simpl. by rewrite app_nil_r. }
  rewrite Hex, <- app_assoc. f_equal. f_equal. apply uncovered_ext. intros b Hb%elem_of_seqZ.
  rewrite Hl, !covers_app. rewrite Forall_forall in Hf, Hr.
  assert (~ covers front b).
  { intros (x & Hx & Hc)%Exists_exists. specialize (Hf x Hx). unfold in_extent in Hc. simpl in Hf. lia. }
  assert (~ covers rear b).
  { intros (x & Hx & Hc)%Exists_exists. specialize (Hr x Hx). unfold in_extent in Hc. simpl in Hr. lia. }
  tauto.
Qed.

(** ** Sublists *)

Lemma take_drop_seqZ_app s n (rest : list Z) k m :
  0 <= k <= n -> 0 <= m ->
  take (Z.to_nat m) (drop (Z.to_nat k) (seqZ s n ++ rest))
  = seqZ (s + k) (Z.min m (n - k)) ++ take (Z.to_nat (m - (n - k))) rest.
Proof.
  intros Hk Hm. rewrite drop_app_le, drop_seqZ by (rewrite ?length_seqZ; lia).
  rewrite take_app, length_seqZ. f_equal; [|f_equal; lia].
  destruct (Z.leb_spec m (n - k)).
  - rewrite take_seqZ by lia. f_equal. lia.
  - rewrite take_ge by (rewrite length_seqZ; lia). f_equal. lia.
Qed.

(** The part of one extent that [ExtentsSublist] keeps. *)
Definition sublist_part (e : Extent) (off end_ scanned : Z) : Extent :=
  let k := Z.max 0 (off - scanned) in
  mkExtent (start_block e + k) (Z.min (end_ - Z.max off scanned) (num_blocks e - k)).

Lemma sublist_loop_cons e es off end_ scanned result :
  extent_ok e -> 0 <= scanned -> 0 <= off < end_ -> scanned < end_ < 2 ^ 64 ->
  scanned + num_blocks e < 2 ^ 64 ->
  sublist_loop (e :: es) off end_ scanned result
  = (let result := if off <? scanned + num_blocks e
                   then result ++ [sublist_part e off end_ scanned] else result in
     if end_ <=? scanned + num_blocks e then result
     else sublist_loop es off end_ (scanned + num_blocks e) result).
Proof.
  intros He Hs Ho Hse Hm. unfold extent_ok, kSparseHole in He. simpl.
  rewrite (uint_small 64 (scanned + _)) by (unfold is_uint; lia).
  destruct (Z.ltb_spec off (scanned + num_blocks e)) as [H1|H1]; [|done].
  assert ((if scanned <? off
           then ExtentForRange (u64 (start_block e + (off - scanned)))
                  (u64 ((if end_ <? scanned + num_blocks e then u64 (end_ - scanned)
                         else num_blocks e) - (off - scanned)))
           else ExtentForRange (start_block e)
                  (if end_ <? scanned + num_blocks e then u64 (end_ - scanned) else num_blocks e))
          = sublist_part e off end_ scanned) as ->; [|done].
  unfold sublist_part, ExtentForRange.
  destruct (Z.ltb_spec scanned off); destruct (Z.ltb_spec end_ (scanned + num_blocks e));
    rewrite ?(uint_small 64) by (unfold is_uint; rewrite ?(uint_small 64); unfold is_uint; lia);
    f_equal; lia.
Qed.

Lemma sublist_part_ok e off end_ scanned :
  extent_ok e -> 0 <= off < end_ -> 0 <= scanned < end_ -> off < scanned + num_blocks e ->
  extent_ok (sublist_part e off end_ scanned).
Proof. unfold extent_ok, sublist_part. simpl. lia. Qed.

Lemma sublist_loop_spec es off end_ scanned result :
  Forall extent_ok es -> 0 <= scanned -> 0 <= off < end_ -> scanned < end_ < 2 ^ 64 ->
  scanned + total es < 2 ^ 64 ->
  ExpandExtents (sublist_loop es off end_ scanned result)
  = ExpandExtents result
    ++ take (Z.to_nat (end_ - Z.max off scanned))
         (drop (Z.to_nat (Z.max 0 (off - scanned))) (ExpandExtents es)).
Proof.
  intros Hes. revert scanned result. induction Hes as [|e es He Hes IH]; intros scanned result Hs Ho Hse Ht.
  { unfold ExpandExtents at 3. simpl. by rewrite drop_nil, take_nil, app_nil_r. }
  simpl in Ht. pose proof (total_nonneg es Hes). assert (Hee := He). unfold extent_ok in Hee.
  rewrite sublist_loop_cons by (done || lia). cbv zeta.
  rewrite ExpandExtents_cons, (expand_ok e) by done.
  destruct (Z.ltb_spec off (scanned + num_blocks e)) as [H1|H1].
  - rewrite take_drop_seqZ_app by lia.
    destruct (Z.leb_spec end_ (scanned + num_blocks e)) as [H2|H2].
    + rewrite ExpandExtents_app, ExpandExtents_cons, expand_ok by (apply sublist_part_ok; done || lia).
      unfold ExpandExtents at 2. simpl.
      replace (Z.to_nat (end_ - off `max` scanned - (num_blocks e - 0 `max` (off - scanned))))
        with O by lia. done.
    + rewrite IH, ExpandExtents_app, ExpandExtents_cons, expand_ok, <- app_assoc
        by (try lia; apply sublist_part_ok; done || lia).
      unfold ExpandExtents at 2. simpl. rewrite app_nil_r. do 2 f_equal.
      replace (Z.to_nat (0 `max` (off - (scanned + num_blocks e)))) with O by lia.
      rewrite drop_0. f_equal. lia.
  - destruct (Z.leb_spec end_ (scanned + num_blocks e)); [lia|]. rewrite IH by lia. f_equal.
    rewrite drop_app_ge by (rewrite length_seqZ; lia). rewrite length_seqZ.
    f_equal; [lia|]. f_equal. lia.
Qed.

Lemma sublist_loop_ok es off end_ scanned result :
  Forall extent_ok es -> Forall extent_ok result -> 0 <= scanned -> 0 <= off < end_ -> scanned < end_ < 2 ^ 64 ->
  scanned + total es < 2 ^ 64 -> Forall extent_ok (sublist_loop es off end_ scanned result).
Proof.
  intros Hes. revert scanned result. induction Hes as [|e es He Hes IH]; intros scanned result Hr Hs Ho Hse Ht; [done|].
  simpl in Ht. pose proof (total_nonneg es Hes). assert (Hee := He). unfold extent_ok in Hee.
  rewrite sublist_loop_cons by (done || lia). cbv zeta.
  assert (Hr' : Forall extent_ok (if off <? scanned + num_blocks e then result ++ [sublist_part e off end_ scanned] else result)).
  { destruct (Z.ltb_spec off (scanned + num_blocks e)); [|done]. apply Forall_app. split; [done|].
    apply Forall_singleton, sublist_part_ok; done || lia. }
  destruct (Z.leb_spec end_ (scanned + num_blocks e)); [done|]. apply IH; done || lia.
Qed.

Lemma ExtentsSublist_spec es block_offset block_count :
  Forall extent_ok es -> total es < 2 ^ 64 ->
  0 <= block_offset -> 0 <= block_count -> block_offset + block_count < 2 ^ 64 ->
  Forall extent_ok (ExtentsSublist es block_offset block_count)
  /\ ExpandExtents (ExtentsSublist es block_offset block_count)
     = take (Z.to_nat block_count) (drop (Z.to_nat block_offset) (ExpandExtents es)).
Proof.
  intros Hes Ht Ho Hc Hs. unfold ExtentsSublist. destruct (Z.eqb_spec block_count 0) as [->|Hne]; [done|].
  rewrite (uint_small 64) by (unfold is_uint; lia). split; [apply sublist_loop_ok; done || lia|].
  rewrite sublist_loop_spec by (done || lia).
  unfold ExpandExtents at 1. simpl. f_equal; [lia|]. f_equal. lia.
Qed.

(** ** Appending and normalizing *)

Lemma AppendBlock_expand es b :
  Forall extent_ok es -> 0 <= b < kSparseHole ->
  Forall extent_ok (AppendBlockToExtents es b)
  /\ ExpandExtents (AppendBlockToExtents es b) = ExpandExtents es ++ [b].
Proof.
  intros Hes Hb. unfold AppendBlockToExtents. unfold kSparseHole in Hb.
  assert (Hone : extent_ok (ExtentForRange b 1)) by (unfold extent_ok, kSparseHole; simpl; lia).
  assert (Hx1 : ExpandExtents [ExtentForRange b 1] = [b]).
  { rewrite ExpandExtents_cons, expand_ok by done. unfold ExtentForRange; cbn [start_block num_blocks].
    rewrite seqZ_cons by lia. done. }
  destruct es as [|e es _] using rev_ind; [simpl; split; [by constructor|done]|].
  apply Forall_app in Hes as [Hes [He _]%Forall_cons_1]. rewrite last_snoc.
  assert (Hee := He). unfold extent_ok, kSparseHole in Hee.
  rewrite (proj2 (Z.eqb_neq (start_block e) kSparseHole)) by (unfold kSparseHole; lia).
  rewrite u64_end by done. destruct (Z.eqb_spec (start_block e + num_blocks e) b) as [<-|Hne].
  - rewrite removelast_last, (uint_small 64) by (unfold is_uint; lia).
    assert (Hok : extent_ok (ExtentForRange (start_block e) (num_blocks e + 1)))
      by (unfold extent_ok, kSparseHole; simpl; lia).
    split; [apply Forall_app; split; [done|by apply Forall_singleton]|].
    rewrite !ExpandExtents_app, !ExpandExtents_cons, !expand_ok by done. simpl.
    unfold ExpandExtents at 2 4. simpl. rewrite !app_nil_r, <- app_assoc. f_equal.
    rewrite (seqZ_split _ (num_blocks e + 1) (num_blocks e)) by lia. f_equal.
    replace (num_blocks e + 1 - num_blocks e) with 1 by lia. rewrite seqZ_cons by lia. done.
  - split; [rewrite !Forall_app, !Forall_singleton; done|].
    by rewrite ExpandExtents_app, Hx1.
Qed.

Lemma NormalizeExtents_expand es :
  Forall extent_ok es ->
  Forall extent_ok (NormalizeExtents es)
  /\ ExpandExtents (NormalizeExtents es) = ExpandExtents es.
Proof.
  intros Hes. unfold NormalizeExtents.
  enough (forall acc, Forall extent_ok acc ->
    Forall extent_ok (fold_left normalize_step es acc)
    /\ ExpandExtents (fold_left normalize_step es acc) = ExpandExtents acc ++ ExpandExtents es)
    as H by (by apply (H [])).
  induction Hes as [|e es He Hes IH]; intros acc Hacc; simpl.
  { split; [done|]. unfold ExpandExtents at 3. simpl. by rewrite app_nil_r. }
  assert (Hstep : Forall extent_ok (normalize_step acc e)
                  /\ ExpandExtents (normalize_step acc e) = ExpandExtents acc ++ expand e).
  { unfold normalize_step. destruct acc as [|x acc _] using rev_ind.
    { simpl. split; [by constructor|]. rewrite ExpandExtents_cons. unfold ExpandExtents. simpl.
      by rewrite app_nil_r. }
    apply Forall_app in Hacc as [Hacc [Hx _]%Forall_cons_1]. rewrite last_snoc, u64_end by done.
    destruct (Z.eqb_spec (start_block x + num_blocks x) (start_block e)) as [Heq|Hne].
    - rewrite removelast_last. assert (Hee := conj He Hx). unfold extent_ok, kSparseHole in Hee.
      rewrite (uint_small 64) by (unfold is_uint; lia).
      assert (Hok : extent_ok (ExtentForRange (start_block x) (num_blocks x + num_blocks e)))
        by (unfold extent_ok, kSparseHole; simpl; lia).
      split; [apply Forall_app; split; [done|by apply Forall_singleton]|].
      rewrite !ExpandExtents_app, !ExpandExtents_cons, !expand_ok by done. simpl.
      unfold ExpandExtents at 2 4. simpl. rewrite !app_nil_r, <- app_assoc. f_equal.
      rewrite seqZ_app by lia. by rewrite Heq.
    - split; [rewrite !Forall_app, !Forall_singleton; done|].
      rewrite (ExpandExtents_app (acc ++ [x])), ExpandExtents_cons. unfold ExpandExtents at 2. simpl.
      by rewrite app_nil_r. }
  destruct Hstep as [H1 H2]. destruct (IH _ H1) as [H3 H4]. split; [done|].
  by rewrite H4, H2, ExpandExtents_cons, app_assoc.
Qed.

(** ** Histories of ranges *)

Inductive range_op := AddOp (e : Extent) | SubtractOp (e : Extent).

Definition op_extent (o : range_op) : Extent :=
  match o with AddOp e => e | SubtractOp e => e end.

Fixpoint run_ops (ops : list range_op) (r : ExtentRanges) : outcome ExtentRanges :=
  match ops with
  | [] => Ret r
  | AddOp e :: ops => r ← AddExtent e r; run_ops ops r
  | SubtractOp e :: ops => run_ops ops (SubtractExtent e r)
  end.

(** Membership in the set of blocks after the operations. *)
Fixpoint in_blocks (ops : list range_op) (b : Z) (now : Prop) : Prop :=
  match ops with
  | [] => now
  | AddOp e :: ops => in_blocks ops b (real_block e b \/ now)
  | SubtractOp e :: ops => in_blocks ops b (now /\ ~ real_block e b)
  end.

Lemma in_blocks_iff ops b P Q : (P <-> Q) -> in_blocks ops b P <-> in_blocks ops b Q.
Proof. revert P Q. induction ops as [|[e|e] ops IH]; simpl; intros P Q H; [done|apply IH; tauto..]. Qed.

Lemma run_ops_spec ops r :
  ranges_ok r -> Forall (fun o => extent_fits (op_extent o)) ops ->
  exists r', run_ops ops r = Ret r' /\ ranges_ok r'
    /\ forall b, covers (extent_set r') b <-> in_blocks ops b (covers (extent_set r) b).
Proof.
  intros Hr Hops. revert r Hr. induction Hops as [|[e|e] ops He Hops IH]; intros r Hr; simpl in *.
  - by exists r.
  - destruct (AddExtent_spec e r Hr He) as (r1 & -> & Hr1 & Hc1). simpl.
    destruct (IH r1 Hr1) as (r2 & -> & Hr2 & Hc2). exists r2. split_and!; try done.
    intros b. rewrite Hc2. by apply in_blocks_iff.
  - destruct (SubtractExtent_spec e r Hr He) as [Hr1 Hc1].
    destruct (IH _ Hr1) as (r2 & -> & Hr2 & Hc2). exists r2. split_and!; try done.
    intros b. rewrite Hc2. by apply in_blocks_iff.
Qed.

Lemma expand_NoDup lo l : gaps lo l -> NoDup (ExpandExtents l).
Proof.
  revert lo. induction l as [|e l IH]; intros lo Hg; [constructor|].
  assert (Hok := gaps_ok _ _ Hg). destruct Hg as (He1 & He & Hg).
  rewrite ExpandExtents_cons, expand_ok by done. apply NoDup_app. split_and!.
  - apply NoDup_seqZ.
  - intros b Hb%elem_of_seqZ Hc. inversion_clear Hok.
    apply elem_of_ExpandExtents in Hc; [|done]. pose proof (covers_bound _ _ _ Hg Hc). lia.
  - by apply (IH _ Hg).
Qed.

(** C14: A collection of ranges is a set of blocks.  Any sequence of additions
    and subtractions of extents, from the empty collection, runs without a
    failing check; membership and the block count are those of the set that
    the operations describe, sparse holes ignored; and the extents that are
    kept depend on this set only, not on the operations that led to it. *)
Theorem ranges_are_block_sets ops :
  Forall (fun o => extent_fits (op_extent o)) ops ->
  exists r, run_ops ops ExtentRanges_new = Ret r
    /\ (forall b, 0 <= b < kSparseHole ->
          exists c, ContainsBlock b r = Ret c /\ (c = true <-> in_blocks ops b False))
    /\ (forall b, b ∈ ExpandExtents (extent_set r) <-> in_blocks ops b False)
    /\ NoDup (ExpandExtents (extent_set r)) /\ blocks r = zlen (ExpandExtents (extent_set r))
    /\ forall ops', Forall (fun o => extent_fits (op_extent o)) ops' ->
         (forall b, in_blocks ops' b False <-> in_blocks ops b False) ->
         run_ops ops' ExtentRanges_new = Ret r.
Proof.
  intros Hops. assert (Hnew : ranges_ok ExtentRanges_new) by done.
  destruct (run_ops_spec ops _ Hnew Hops) as (r & Hrun & Hok & Hc).
  assert (Hnil : forall b, covers (extent_set ExtentRanges_new) b <-> False)
    by (intros b; apply Exists_nil).
  setoid_rewrite (fun ops b => in_blocks_iff ops b _ _ (Hnil b)) in Hc.
  exists r. destruct Hok as [Hg Hb]. split_and!; try done.
  - intros b Hb1. destruct (ContainsBlock_spec r b (conj Hg Hb) Hb1) as (c & Hcb & Hiff).
    exists c. split; [done|]. by rewrite Hiff, Hc.
  - intros b. rewrite elem_of_ExpandExtents by (by eapply gaps_ok). apply Hc.
  - by eapply expand_NoDup.
  - rewrite ExpandExtents_length by (by eapply gaps_ok). done.
  - intros ops' Hops' Hsame. destruct (run_ops_spec ops' _ Hnew Hops') as (r' & Hrun' & [Hg' Hb'] & Hc').
    setoid_rewrite (fun ops b => in_blocks_iff ops b _ _ (Hnil b)) in Hc'.
    rewrite Hrun'. f_equal. assert (extent_set r' = extent_set r) as He.
    { apply (gaps_canonical 0); [done..|]. intros b. by rewrite Hc, Hc'. }
    destruct r, r'; simpl in *. congruence.
Qed.

Lemma ranges_are_block_sets_witness :
  exists r, run_ops [AddOp (mkExtent 10 5); AddOp (mkExtent 15 1); SubtractOp (mkExtent 12 2)]
              ExtentRanges_new = Ret r
    /\ ContainsBlock 13 r = Ret false /\ ContainsBlock 14 r = Ret true.
Proof.
  destruct (ranges_are_block_sets
              [AddOp (mkExtent 10 5); AddOp (mkExtent 15 1); SubtractOp (mkExtent 12 2)])
    as (r & Hr & _).
  { rewrite !Forall_cons, Forall_nil. unfold extent_fits, kSparseHole. simpl. lia. }
  exists r. split; [exact Hr|]. vm_compute in Hr. injection Hr as <-. split; vm_compute; reflexivity.
Defined.

(** [FilterExtentRanges] removes from the listed blocks exactly those in
    the ranges and keeps the order of the others. *)
Theorem FilterExtentRanges_filters es r :
  ranges_ok r -> Forall extent_ok es ->
  exists out, FilterExtentRanges es r = Ret out /\ Forall extent_ok out
    /\ ExpandExtents out = filter (fun b => ~ covers (extent_set r) b) (ExpandExtents es).
Proof.
  intros [Hg _] Hes. by apply (filter_extents_spec es (extent_set r) [] Hg Hes).
Qed.

Lemma FilterExtentRanges_filters_witness :
  exists out, FilterExtentRanges [mkExtent 20 4; mkExtent 1 3] (mkRanges [mkExtent 2 1; mkExtent 22 9] 10)
              = Ret out
    /\ ExpandExtents out = [20; 21; 1; 3].
Proof.
  destruct (FilterExtentRanges_filters [mkExtent 20 4; mkExtent 1 3]
              (mkRanges [mkExtent 2 1; mkExtent 22 9] 10)) as (out & Ho & _ & He).
  - unfold ranges_ok, extent_ok, kSparseHole. simpl. unfold extent_ok, kSparseHole. simpl. lia.
  - rewrite !Forall_cons, Forall_nil. unfold extent_ok, kSparseHole. simpl. lia.
  - exists out. split; [exact Ho|]. vm_compute in Ho. injection Ho as <-. reflexivity.
Defined.

(** [ExtentsSublist] is the sublist of the blocks: it skips the first
    [block_offset] blocks and keeps the [block_count] next ones, or what there
    is of them. *)
Theorem ExtentsSublist_slices es block_offset block_count :
  Forall extent_ok es -> total es < 2 ^ 64 ->
  0 <= block_offset -> 0 <= block_count -> block_offset + block_count < 2 ^ 64 ->
  ExpandExtents (ExtentsSublist es block_offset block_count)
  = take (Z.to_nat block_count) (drop (Z.to_nat block_offset) (ExpandExtents es)).
Proof. intros. by apply ExtentsSublist_spec. Qed.

Lemma ExtentsSublist_slices_witness :
  ExpandExtents (ExtentsSublist [mkExtent 10 5; mkExtent 40 5] 3 4) = [13; 14; 40; 41].
Proof.
  rewrite (ExtentsSublist_slices [mkExtent 10 5; mkExtent 40 5] 3 4); try (simpl; lia).
  - reflexivity.
  - rewrite !Forall_cons, Forall_nil. unfold extent_ok, kSparseHole. simpl. lia.
Defined.

(** Sparse holes break the list operations: a hole of one block followed by an
    extent at block 0 is normalized to one hole, so that the blocks of the
    extent are lost; a sublist that starts inside a hole starts at block 0;
    and filtering a hole lets an iterator run past the end of the set. *)
Lemma holes_mishandled :
  NormalizeExtents [mkExtent kSparseHole 1; mkExtent 0 5] = [mkExtent kSparseHole 6]
  /\ ExtentsSublist [mkExtent kSparseHole 3] 1 2 = [mkExtent 0 2]
  /\ FilterExtentRanges [mkExtent kSparseHole 3] (mkRanges [mkExtent 5 1; mkExtent 10 5] 6) = Abort.
Proof. vm_compute. done. Qed.
