(* ===== verification/UpdateGraph.v ===== *)
(** * UpdateGraph: the operation graph of the in-place payload generator

    update_engine/payload_generator/graph_types.h, graph_utils.cc and
    topological_sort.cc.  A graph is a vector of vertices; a vertex holds an
    install operation and its edges to the vertices that must run before it.
    A [std::map] from vertices to edge properties is the list of its entries
    in key order.  [kInvalidIndex] is [None].  The theorem: the topological
    sort of any graph lists every vertex once, and of an acyclic graph lists
    every vertex after all it depends on. *)
From stdpp Require Import relations sets fin_sets.
From S2P Require Import Prelude UpdateExtents.

(** ** Operations *)

(** [InstallOperation::Type] of update_metadata.proto. *)
Inductive InstallOperation_Type :=
| REPLACE | REPLACE_BZ | MOVE | BSDIFF | SOURCE_COPY | SOURCE_BSDIFF
| ZERO | DISCARD | REPLACE_XZ | IMGDIFF.

#[export] Instance InstallOperation_Type_dec : EqDecision InstallOperation_Type.
Proof. solve_decision. Defined.

(** An optional field is [None] if it is not set. *)
Record InstallOperation := mkInstallOperation {
  op_type : option InstallOperation_Type;
  data_offset : option Z;
  data_length : option Z;
  src_extents : list Extent;
  src_length : option Z;
  dst_extents : list Extent;
  dst_length : option Z;
  data_sha256_hash : option (list Z);
  src_sha256_hash : option (list Z);
}.

Definition InstallOperation_new : InstallOperation := mkInstallOperation None None None [] None [] None None None.

(** [op.type()] of an operation without a type is the first value. *)
Definition type_of (op : InstallOperation) : InstallOperation_Type := default REPLACE (op_type op).

Definition set_type (t : InstallOperation_Type) (op : InstallOperation) : InstallOperation :=
  mkInstallOperation (Some t) (data_offset op) (data_length op) (src_extents op) (src_length op)
    (dst_extents op) (dst_length op) (data_sha256_hash op) (src_sha256_hash op).

(** Both data fields; they are 32 bits wide. *)
Definition set_data (offset length : option Z) (op : InstallOperation) : InstallOperation :=
  mkInstallOperation (op_type op) (u32 <$> offset) (u32 <$> length) (src_extents op) (src_length op)
    (dst_extents op) (dst_length op) (data_sha256_hash op) (src_sha256_hash op).

Definition set_src_extents (es : list Extent) (op : InstallOperation) : InstallOperation :=
  mkInstallOperation (op_type op) (data_offset op) (data_length op) es (src_length op)
    (dst_extents op) (dst_length op) (data_sha256_hash op) (src_sha256_hash op).

Definition set_dst_extents (es : list Extent) (op : InstallOperation) : InstallOperation :=
  mkInstallOperation (op_type op) (data_offset op) (data_length op) (src_extents op) (src_length op)
    es (dst_length op) (data_sha256_hash op) (src_sha256_hash op).

Definition set_lengths (src dst : option Z) (op : InstallOperation) : InstallOperation :=
  mkInstallOperation (op_type op) (data_offset op) (data_length op) (src_extents op) src
    (dst_extents op) dst (data_sha256_hash op) (src_sha256_hash op).

Definition set_src_hash (h : list Z) (op : InstallOperation) : InstallOperation :=
  mkInstallOperation (op_type op) (data_offset op) (data_length op) (src_extents op) (src_length op)
    (dst_extents op) (dst_length op) (data_sha256_hash op) (Some h).

(** The hash of the data is added when the payload is written. *)
Abbreviation mkOperation t offset length src src_len dst dst_len src_hash :=
  (mkInstallOperation t offset length src src_len dst dst_len None src_hash).

(** [AnnotatedOperation] without its name, which is for logging only. *)
Abbreviation AnnotatedOperation := InstallOperation.

(** ** Graphs *)

Record EdgeProperties := mkEdge { extents : list Extent; write_extents : list Extent }.

Definition EdgeProperties_new : EdgeProperties := mkEdge [] [].

Abbreviation Index := nat.

Abbreviation EdgeMap := (list (Index * EdgeProperties)).

Fixpoint edge_find (k : Index) (m : EdgeMap) : option EdgeProperties :=
  match m with
  | [] => None
  | (j, p) :: m => if decide (j = k) then Some p else edge_find k m
  end.

(** [std::map::insert]: nothing happens if the key is present. *)
Fixpoint edge_insert (k : Index) (p : EdgeProperties) (m : EdgeMap) : EdgeMap :=
  match m with
  | [] => [(k, p)]
  | (j, q) :: m' =>
      if (k <? j)%nat then (k, p) :: m
      else if (j <? k)%nat then (j, q) :: edge_insert k p m'
      else m
  end.

Definition edge_erase (k : Index) (m : EdgeMap) : EdgeMap := filter (fun e => fst e <> k) m.

(** A change of the properties an iterator points to. *)
Definition edge_alter (f : EdgeProperties -> EdgeProperties) (k : Index) (m : EdgeMap) : EdgeMap :=
  (fun e => if decide (fst e = k) then (fst e, f (snd e)) else e) <$> m.

Record Vertex := mkVertex {
  valid : bool;
  out_edges : EdgeMap;
  subgraph_edges : list Index;
  v_index : option nat;
  v_lowlink : option nat;
  aop : AnnotatedOperation;
}.

Definition Vertex_new : Vertex := mkVertex true [] [] None None InstallOperation_new.

Definition set_valid (b : bool) (v : Vertex) : Vertex :=
  mkVertex b (out_edges v) (subgraph_edges v) (v_index v) (v_lowlink v) (aop v).
Definition set_out_edges (m : EdgeMap) (v : Vertex) : Vertex :=
  mkVertex (valid v) m (subgraph_edges v) (v_index v) (v_lowlink v) (aop v).
Definition set_subgraph_edges (l : list Index) (v : Vertex) : Vertex :=
  mkVertex (valid v) (out_edges v) l (v_index v) (v_lowlink v) (aop v).
Definition set_v_index (i : option nat) (v : Vertex) : Vertex :=
  mkVertex (valid v) (out_edges v) (subgraph_edges v) i (v_lowlink v) (aop v).
Definition set_v_lowlink (i : option nat) (v : Vertex) : Vertex :=
  mkVertex (valid v) (out_edges v) (subgraph_edges v) (v_index v) i (aop v).
Definition set_aop (o : AnnotatedOperation) (v : Vertex) : Vertex :=
  mkVertex (valid v) (out_edges v) (subgraph_edges v) (v_index v) (v_lowlink v) o.

Abbreviation Graph := (list Vertex).
Abbreviation Edge := (nat * nat)%type.

Definition kTempBlockStart : Z := 2 ^ 60.

(** ** Utilities *)

(** [EdgeWeight]: an edge that is not in the graph is an iterator at the end. *)
Definition EdgeWeight (graph : Graph) (edge : Edge) : outcome Z :=
  v ← of_option (graph !! fst edge);
  p ← of_option (edge_find (snd edge) (out_edges v));
  Ret (fold_left (fun weight e => if start_block e =? kSparseHole then weight
                                  else u64 (weight + num_blocks e)) (extents p) 0).

Definition AddReadBeforeDep (src : Vertex) (dst : Index) (block : Z) : Vertex :=
  let edges := match edge_find dst (out_edges src) with
               | Some _ => out_edges src
               | None => edge_insert dst EdgeProperties_new (out_edges src)
               end in
  set_out_edges
    (edge_alter (fun p => mkEdge (AppendBlockToExtents (extents p) block) (write_extents p))
       dst edges) src.

Definition AddReadBeforeDepExtents (src : Vertex) (dst : Index) (es : list Extent) : Vertex :=
  fold_left
    (fun src e =>
       fold_left (fun src block => AddReadBeforeDep src dst block)
         (u64 <$> seqZ (start_block e) (num_blocks e)) src)
    es src.

Definition DropWriteBeforeDeps (edge_map : EdgeMap) : EdgeMap :=
  filter (fun e => extents (snd e) <> [])
    ((fun e => (fst e, mkEdge (extents (snd e)) [])) <$> edge_map).

Definition DropIncomingEdgesTo (graph : Graph) (index : Index) : Graph :=
  (fun v => set_out_edges (edge_erase index (out_edges v)) v) <$> graph.

(** ** Topological sort *)

Definition successors (v : Vertex) : list Index := fst <$> out_edges v.

(** [TopologicalSortVisit] on the visited nodes and the output; the fuel
    bounds the depth of the recursion, and an index outside the graph aborts. *)
Fixpoint TopologicalSortVisit (fuel : nat) (graph : Graph) (node : Index)
    (s : gset Index * list Index) : outcome (gset Index * list Index) :=
  match fuel with
  | O => Abort
  | S fuel =>
      let '(visited, nodes) := s in
      if decide (node ∈ visited) then Ret s else
      v ← of_option (graph !! node);
      s ← foldM (fun s child => TopologicalSortVisit fuel graph child s) (successors v)
            ({[node]} ∪ visited, nodes);
      Ret (fst s, snd s ++ [node])
  end.

(** The depth of the recursion is at most the number of vertices. *)
Definition TopologicalSort (graph : Graph) : outcome (list Index) :=
  s ← foldM (fun s i => TopologicalSortVisit (S (length graph)) graph i s)
        (seq 0 (length graph)) (∅, []);
  Ret (snd s).

(** ** Paths *)

Definition edge (g : Graph) (u v : Index) : Prop :=
  exists x, g !! u = Some x /\ v ∈ successors x.

Definition graph_ok (g : Graph) : Prop := forall u v, edge g u v -> (v < length g)%nat.

Definition acyclic (R : Index -> Index -> Prop) : Prop := forall u, ~ tc R u u.

(** Every vertex of the list comes after all it has an edge to. *)
Definition ordered (g : Graph) (l : list Index) : Prop :=
  forall i w, l !! i = Some w -> forall v, edge g w v -> v ∈ take i l.

Lemma ordered_snoc g l w :
  ordered g l -> (forall v, edge g w v -> v ∈ l) -> ordered g (l ++ [w]).
Proof.
  intros Hl Hw i x Hi v Hv. apply lookup_app_Some in Hi as [Hi|[Hge Hi]].
  - rewrite take_app_le by (apply lookup_lt_Some in Hi; lia). eauto.
  - apply list_lookup_singleton_Some in Hi as [Hi <-].
    replace i with (length l) by lia. rewrite take_app_length. auto.
Qed.

Lemma size_range (X : gset nat) n : (forall x, x ∈ X -> (x < n)%nat) -> (size X <= n)%nat.
Proof.
  intros H. replace n with (size (set_seq 0 n : gset nat)) by (by rewrite size_set_seq).
  apply subseteq_size. intros x Hx. apply elem_of_set_seq. specialize (H x Hx). lia.
Qed.

Section Visit.
Context (g : Graph).

(** What a visit does: it extends the output by the vertices it adds to the
    visited ones.  If all visited vertices that are not in the output lie on
    a path to [node], as those on the recursion stack do, and the graph is
    acyclic, then the output stays ordered and contains [node]. *)
Definition visit_post (visited : gset Index) (nodes : list Index) (node : Index)
    (s : gset Index * list Index) : Prop :=
  exists new, s = (visited ∪ list_to_set new, nodes ++ new)
    /\ NoDup new /\ (forall x, x ∈ new -> x ∉ visited /\ (x < length g)%nat)
    /\ node ∈ visited ∪ list_to_set new
    /\ (acyclic (edge g) -> ordered g nodes ->
        (forall x, x ∈ visited -> x ∉ nodes -> tc (edge g) x node) ->
        ordered g (nodes ++ new) /\ node ∈ nodes ++ new).

Lemma visit_unfold fuel node visited nodes :
  TopologicalSortVisit (S fuel) g node (visited, nodes)
  = (if decide (node ∈ visited) then Ret (visited, nodes) else
    v ← of_option (g !! node);
    s ← foldM (fun s child => TopologicalSortVisit fuel g child s) (successors v)
          ({[node]} ∪ visited, nodes);
    Ret (fst s, snd s ++ [node])).
Proof. reflexivity. Qed.

(** The same in the loop over the children, after the children [seen]. *)
Definition visiting (visited : gset Index) (nodes : list Index) (node : Index) (seen : list Index)
    (s : gset Index * list Index) : Prop :=
  exists new, s = ({[node]} ∪ visited ∪ list_to_set new, nodes ++ new)
    /\ NoDup new /\ (forall x, x ∈ new -> x ∉ {[node]} ∪ visited /\ (x < length g)%nat)
    /\ (acyclic (edge g) -> ordered g nodes ->
        (forall x, x ∈ visited -> x ∉ nodes -> tc (edge g) x node) ->
        ordered g (nodes ++ new) /\ forall c, c ∈ seen -> c ∈ nodes ++ new).

Lemma visiting_child visited nodes node seen c new s' :
  edge g node c -> visiting visited nodes node seen ({[node]} ∪ visited ∪ list_to_set new, nodes ++ new) ->
  visit_post ({[node]} ∪ visited ∪ list_to_set new) (nodes ++ new) c s' ->
  visiting visited nodes node (seen ++ [c]) s'.
Proof.
  intros Hedge (new0 & Heq & Hnd & Hnew & Hord) (new' & -> & Hnd' & Hnew' & Hin' & Hord').
  injection Heq as _ Heq. apply app_inv_head in Heq as <-.
  exists (new ++ new'). split_and!.
  - rewrite list_to_set_app_L, app_assoc. f_equal. set_solver.
  - apply NoDup_app. split_and!; try done. intros x Hx Hx'. apply Hnew' in Hx' as [Hx' _].
    set_solver.
  - intros x [Hx|Hx]%elem_of_app; [by apply Hnew|]. apply Hnew' in Hx as [Hx Hlt]. set_solver.
  - intros Hac Ho Hgrey. destruct (Hord Hac Ho Hgrey) as [Ho1 Hc1].
    rewrite app_assoc. destruct Hord' as [Ho2 Hc2]; [done|done| |].
    { intros x Hx Hxn. apply elem_of_union in Hx as [[->%elem_of_singleton|Hx]%elem_of_union|Hx].
      - by apply tc_once.
      - apply (tc_transitive _ node); [|by apply tc_once]. apply Hgrey; [done|set_solver].
      - set_solver. }
    split; [done|]. intros x [Hx| ->%list_elem_of_singleton]%elem_of_app; [|done].
    apply Hc1 in Hx. set_solver.
Qed.

Lemma visiting_done visited nodes node v s :
  g !! node = Some v -> node ∉ visited -> visiting visited nodes node (successors v) s ->
  visit_post visited nodes node (fst s, snd s ++ [node]).
Proof.
  intros Hgv Hin (new & -> & Hnd & Hnew & Hord). exists (new ++ [node]). simpl. split_and!.
  - f_equal; [|by rewrite app_assoc]. rewrite list_to_set_app_L. set_solver.
  - apply NoDup_app. split_and!; [done| |apply NoDup_singleton].
    intros x Hx ->%list_elem_of_singleton. destruct (Hnew _ Hx). set_solver.
  - intros x [Hx| ->%list_elem_of_singleton]%elem_of_app.
    + destruct (Hnew _ Hx). set_solver.
    + split; [done|]. by apply lookup_lt_Some in Hgv.
  - rewrite list_to_set_app_L. set_solver.
  - intros Hac Ho Hgrey. destruct (Hord Hac Ho Hgrey) as [Ho' Hc]. rewrite app_assoc.
    split; [|set_solver]. apply ordered_snoc; [done|].
    intros c (v' & Hv' & Hc'). apply Hc. rewrite Hgv in Hv'. by simplify_eq.
Qed.

Context (Hok : graph_ok g).

Lemma visit_spec fuel node visited nodes :
  (node < length g)%nat -> (forall x, x ∈ visited -> (x < length g)%nat) ->
  (length g < fuel + size visited)%nat ->
  exists s, TopologicalSortVisit fuel g node (visited, nodes) = Ret s
    /\ visit_post visited nodes node s.
Proof using Hok.
  revert node visited nodes. induction fuel as [|fuel IH]; intros node visited nodes Hn Hv Hf.
  { pose proof (size_range _ _ Hv). lia. }
  rewrite visit_unfold. destruct (decide (node ∈ visited)) as [Hin|Hin].
  { eexists. split; [done|]. exists []. rewrite app_nil_r. simpl. split_and!.
    - f_equal. set_solver.
    - constructor.
    - by intros x ?%elem_of_nil.
    - set_solver.
    - intros Hac Hord Hgrey. split; [done|]. destruct (decide (node ∈ nodes)); [done|].
      destruct (Hac node). by apply Hgrey. }
  destruct (lookup_lt_is_Some_2 g node Hn) as [v Hgv]. rewrite Hgv.
  cbn [of_option]. rewrite outcome_bind_ret.
  destruct (foldM_inv (fun s child => TopologicalSortVisit fuel g child s)
    (visiting visited nodes node) (successors v) ({[node]} ∪ visited, nodes)) as (s & -> & Hs).
  - exists []. rewrite app_nil_r. simpl. split_and!; [f_equal; set_solver|constructor| |].
    + by intros x ?%elem_of_nil.
    + intros _ Ho _. split; [done|]. by intros c ?%elem_of_nil.
  - intros seen c todo s Hsucc Hs. destruct Hs as (new & -> & Hs).
    assert (Hedge : edge g node c) by (exists v; split; [done|rewrite Hsucc; set_solver]).
    destruct (IH c ({[node]} ∪ visited ∪ list_to_set new) (nodes ++ new)) as (s' & Hs' & Hpost).
    + by apply (Hok node).
    + intros x. rewrite !elem_of_union, elem_of_singleton, elem_of_list_to_set.
      intros [[->|Hx]|Hx]; [done|by apply Hv|by apply Hs].
    + assert (size visited < size ({[node]} ∪ visited ∪ list_to_set new : gset nat))%nat; [|lia].
      apply subset_size. split; set_solver.
    + exists s'. split; [done|]. apply (visiting_child _ _ _ _ _ new); [done|by exists new|done].
  - eexists. split; [done|]. by apply (visiting_done visited nodes node v).
Qed.
End Visit.

Lemma TopologicalSort_spec g :
  graph_ok g ->
  exists out, TopologicalSort g = Ret out /\ out ≡ₚ seq 0 (length g)
    /\ (acyclic (edge g) -> ordered g out).
Proof.
  intros Hok. unfold TopologicalSort.
  destruct (foldM_inv (fun s i => TopologicalSortVisit (S (length g)) g i s)
    (fun seen s => exists new, s = (list_to_set new, new) /\ NoDup new
       /\ (forall x, x ∈ new -> (x < length g)%nat) /\ (forall i, i ∈ seen -> i ∈ new)
       /\ (acyclic (edge g) -> ordered g new))
    (seq 0 (length g)) (∅, [])) as (s & -> & new & -> & Hnd & Hlt & Hall & Hord).
  - exists []. split_and!; [done|constructor|by intros x ?%elem_of_nil|by intros x ?%elem_of_nil|].
    intros _ i w Hi. done.
  - intros seen i todo s Hseq (new & -> & Hnd & Hlt & Hall & Hord).
    destruct (visit_spec g Hok (S (length g)) i (list_to_set new) new) as (s' & Hs' & Hpost).
    + assert (Hi : i ∈ seq 0 (length g)) by (rewrite Hseq; set_solver).
      apply elem_of_seq in Hi. lia.
    + intros x Hx%elem_of_list_to_set. by apply Hlt.
    + lia.
    + exists s'. split; [done|]. destruct Hpost as (new' & -> & Hnd' & Hnew' & Hin & Hord').
      exists (new ++ new'). rewrite list_to_set_app_L. split_and!; [done| | | |].
      * apply NoDup_app. split_and!; try done. intros x Hx Hx'. apply Hnew' in Hx' as [Hx' _].
        set_solver.
      * intros x [Hx|Hx]%elem_of_app; [by apply Hlt|by apply Hnew'].
      * intros x [Hx| ->%list_elem_of_singleton]%elem_of_app; [|set_solver].
        apply elem_of_app. left. by apply Hall.
      * intros Hac. apply Hord'; [done|by apply Hord|]. set_solver.
  - simpl. exists new. split_and!; try done. apply NoDup_Permutation; [done|apply NoDup_seq|].
    intros x. rewrite elem_of_seq. split; [intros Hx; apply Hlt in Hx; lia|].
    intros Hx. apply Hall. apply elem_of_seq. lia.
Qed.

(** C18: [TopologicalSort] returns for every graph whose edges stay inside it,
    and lists every vertex exactly once.  If the graph is acyclic, every vertex
    comes after all vertices it has an edge to, that is, after all operations
    that must run before it. *)
Theorem TopologicalSort_sorts g :
  graph_ok g ->
  exists out, TopologicalSort g = Ret out /\ out ≡ₚ seq 0 (length g)
    /\ (acyclic (edge g) -> ordered g out).
Proof. apply TopologicalSort_spec. Qed.

Lemma acyclic_rank (R : Index -> Index -> Prop) (f : Index -> nat) :
  (forall u v, R u v -> (f u < f v)%nat) -> acyclic R.
Proof.
  intros H u Hu. enough (forall x y, tc R x y -> (f x < f y)%nat) as Htc
    by (specialize (Htc u u Hu); lia).
  induction 1; [by apply H|]. etransitivity; [by apply H|done].
Qed.

(** A vertex with edges to the listed ones, for examples. *)
Definition vertex_to (l : list Index) : Vertex :=
  set_out_edges ((fun k => (k, EdgeProperties_new)) <$> l) Vertex_new.

Lemma TopologicalSort_sorts_witness :
  exists out, TopologicalSort [vertex_to [1; 2]; vertex_to [2]; vertex_to []]%nat = Ret out
    /\ ordered [vertex_to [1; 2]; vertex_to [2]; vertex_to []]%nat out /\ out = [2; 1; 0]%nat.
Proof.
  assert (He : forall u v, edge [vertex_to [1; 2]; vertex_to [2]; vertex_to []]%nat u v ->
                 (u < v < 3)%nat).
  { intros u v (x & Hx & Hv). repeat (destruct u as [|u]; simplify_eq/=);
      unfold successors, vertex_to in Hv; simpl in Hv; set_solver by lia. }
  destruct (TopologicalSort_sorts [vertex_to [1; 2]; vertex_to [2]; vertex_to []]%nat)
    as (out & Hout & _ & Hord).
  - intros u v Huv. apply He in Huv. simpl. lia.
  - exists out. split; [exact Hout|]. split.
    + apply Hord, (acyclic_rank _ id). intros u v Huv. apply He in Huv. simpl. lia.
    + vm_compute in Hout. by injection Hout as <-.
Defined.
