(* ===== verification/UpdateTarjan.v ===== *)
(** * UpdateTarjan: strongly connected components

    update_engine/payload_generator/tarjan.{h,cc}.  [TarjanAlgorithm] finds the
    strongly connected component of one vertex.  The object's fields are the
    record [TarjanAlgorithm]; [stack_] is a list with the back of the vector
    first, and the graph whose [index] and [lowlink] fields the algorithm
    sets is part of the state.  The theorem: [Execute] returns exactly the
    vertices that lie on a common cycle with the given one, and itself. *)
From Stdlib Require Import Sorted.
From stdpp Require Import relations sets.
From S2P Require Import Prelude UpdateExtents UpdateGraph.

Record TarjanAlgorithm := mkTarjan {
  t_graph : Graph;
  t_stack : list Index;
  t_components : list (list Index);
  t_index : nat;
  t_required : Index;
}.

Definition t_set_graph (f : Graph -> Graph) (s : TarjanAlgorithm) : TarjanAlgorithm :=
  mkTarjan (f (t_graph s)) (t_stack s) (t_components s) (t_index s) (t_required s).

(** [std::min] on indexes, where [kInvalidIndex] is the largest value. *)
Definition index_min (a b : option nat) : option nat :=
  match a, b with
  | Some x, Some y => Some (x `min` y)%nat
  | Some x, None => Some x
  | None, _ => b
  end.

Definition idx (s : TarjanAlgorithm) (v : Index) : option nat := t_graph s !! v ≫= v_index.
Definition low (s : TarjanAlgorithm) (v : Index) : option nat := t_graph s !! v ≫= v_lowlink.

(** The statements before the loop: number the vertex and push it. *)
Definition enter (vertex : Index) (s : TarjanAlgorithm) : TarjanAlgorithm :=
  mkTarjan (alter (fun v => set_v_lowlink (Some (t_index s)) (set_v_index (Some (t_index s)) v))
              vertex (t_graph s))
    (vertex :: t_stack s) (t_components s) (S (t_index s)) (t_required s).

(** [lowlink = min(lowlink, x)] *)
Definition lower (vertex : Index) (x : option nat) (s : TarjanAlgorithm) : TarjanAlgorithm :=
  t_set_graph (alter (fun v => set_v_lowlink (index_min (v_lowlink v) x) v) vertex) s.

(** The body of the loop over the edges; [visit] is the recursive call. *)
Definition tarjan_edge (visit : Index -> TarjanAlgorithm -> outcome TarjanAlgorithm)
    (vertex : Index) (s : TarjanAlgorithm) (vertex_next : Index) : outcome TarjanAlgorithm :=
  next ← of_option (t_graph s !! vertex_next);
  match v_index next with
  | None => s ← visit vertex_next s; Ret (lower vertex (low s vertex_next) s)
  | Some _ =>
      if decide (vertex_next ∈ t_stack s) then Ret (lower vertex (v_index next) s) else Ret s
  end.

(** The [do]-[while] loop: the popped vertices and the rest of the stack. *)
Fixpoint pop_component (vertex : Index) (stack : list Index) : list Index * list Index :=
  match stack with
  | [] => ([], [])
  | other :: stack =>
      if decide (other = vertex) then ([other], stack)
      else let '(component, rest) := pop_component vertex stack in (other :: component, rest)
  end.

(** The statements after the loop; [stack_.back()] of an empty stack aborts. *)
Definition finish (vertex : Index) (s : TarjanAlgorithm) : outcome TarjanAlgorithm :=
  if decide (low s vertex = idx s vertex) then
    _ ← check_that (negb (bool_decide (t_stack s = [])));
    let '(component, rest) := pop_component vertex (t_stack s) in
    Ret (mkTarjan (t_graph s) rest
           (if decide (t_required s ∈ component) then t_components s ++ [component]
            else t_components s) (t_index s) (t_required s))
  else Ret s.

Fixpoint Tarjan (fuel : nat) (vertex : Index) (s : TarjanAlgorithm) : outcome TarjanAlgorithm :=
  match fuel with
  | O => Abort
  | S fuel =>
      v ← of_option (t_graph s !! vertex);
      _ ← check_that (bool_decide (v_index v = None));
      s ← foldM (tarjan_edge (Tarjan fuel) vertex) (successors v) (enter vertex s);
      finish vertex s
  end.

(** [Execute]: the graph afterwards and the component; [out] is what the
    caller's vector held.  The depth of the recursion is at most the number
    of vertices. *)
Definition Execute (vertex : Index) (graph : Graph) (out : list Index)
    : outcome (Graph * list Index) :=
  let cleared := (fun v => set_v_lowlink None (set_v_index None v)) <$> graph in
  s ← Tarjan (length graph) vertex (mkTarjan cleared [] [] 0 vertex);
  Ret (t_graph s, match t_components s with [] => out | component :: _ => component end).

(** ** Fields *)

(** Everything of a vertex but the fields of the algorithm. *)
Definition strip (v : Vertex) : Vertex := set_v_lowlink None (set_v_index None v).

Lemma strip_alter (f : Vertex -> Vertex) v (g : Graph) :
  (forall x, strip (f x) = strip x) -> strip <$> alter f v g = strip <$> g.
Proof.
  intros H. apply list_eq. intros i. rewrite !list_lookup_fmap.
  destruct (decide (v = i)) as [->|Hne].
  - rewrite list_lookup_alter_eq. destruct (g !! i); simpl; [by rewrite H|done].
  - by rewrite list_lookup_alter_ne.
Qed.

Lemma strip_edge g g' u v : strip <$> g = strip <$> g' -> edge g u v <-> edge g' u v.
Proof.
  intros H. enough (forall g g' : Graph, strip <$> g = strip <$> g' -> edge g u v -> edge g' u v)
    by (split; eauto).
  clear. intros g g' H (x & Hx & Hv).
  assert (Hl : (strip <$> g) !! u = Some (strip x)) by (by rewrite list_lookup_fmap, Hx).
  rewrite H, list_lookup_fmap in Hl. destruct (g' !! u) as [y|] eqn:Hy; [|done].
  exists y. split; [done|]. injection Hl as _ Hl _ _. unfold successors in *. by rewrite Hl.
Qed.

Lemma idx_enter v s u :
  (v < length (t_graph s))%nat ->
  idx (enter v s) u = if decide (u = v) then Some (t_index s) else idx s u.
Proof.
  intros Hv. unfold idx, enter; simpl. case_decide as Hu.
  - subst. rewrite list_lookup_alter_eq. destruct (lookup_lt_is_Some_2 _ _ Hv) as [x ->]. done.
  - by rewrite list_lookup_alter_ne.
Qed.

Lemma low_enter v s u :
  (v < length (t_graph s))%nat ->
  low (enter v s) u = if decide (u = v) then Some (t_index s) else low s u.
Proof.
  intros Hv. unfold low, enter; simpl. case_decide as Hu.
  - subst. rewrite list_lookup_alter_eq. destruct (lookup_lt_is_Some_2 _ _ Hv) as [x ->]. done.
  - by rewrite list_lookup_alter_ne.
Qed.

Lemma idx_lower v x s u : idx (lower v x s) u = idx s u.
Proof.
  unfold idx, lower; simpl. destruct (decide (u = v)) as [->|Hu].
  - rewrite list_lookup_alter_eq. by destruct (t_graph s !! v).
  - by rewrite list_lookup_alter_ne.
Qed.

Lemma low_lower v x s u :
  low (lower v x s) u = if decide (u = v) then t_graph s !! v ≫= fun _ => index_min (low s v) x
                        else low s u.
Proof.
  unfold low, lower; simpl. case_decide as Hu.
  - subst. rewrite list_lookup_alter_eq. by destruct (t_graph s !! v).
  - by rewrite list_lookup_alter_ne.
Qed.

Lemma idx_lt s v i : idx s v = Some i -> (v < length (t_graph s))%nat.
Proof. unfold idx. intros H. apply lookup_lt_is_Some_1. by destruct (t_graph s !! v). Qed.

(** ** The invariant *)

Section Components.
Context (g : Graph) (Hok : graph_ok g) (root : Index).

Abbreviation numbered s v := (is_Some (idx s v)).

(** [deeper s a b]: [a] was numbered after [b]. *)
Definition deeper (s : TarjanAlgorithm) (a b : Index) : Prop :=
  exists i j, idx s a = Some i /\ idx s b = Some j /\ (j < i)%nat.

(** The lowlink of [v] is at most the index of [w]. *)
Definition low_le (s : TarjanAlgorithm) (v w : Index) : Prop :=
  forall l j, low s v = Some l -> idx s w = Some j -> (l <= j)%nat.

(** The numbers: the graph is unchanged otherwise, the first [t_index s]
    numbers are in use, and every numbered vertex is reachable. *)
Record numbering (s : TarjanAlgorithm) : Prop := {
  ti_same : strip <$> t_graph s = strip <$> g;
  ti_count : exists X : gset Index, (forall v, v ∈ X <-> numbered s v) /\ size X = t_index s;
  ti_index : forall v i, idx s v = Some i -> (i < t_index s)%nat;
  ti_low : forall v i, idx s v = Some i -> exists l, low s v = Some l /\ (l <= i)%nat;
  ti_root : forall v, numbered s v -> rtc (edge g) root v;
  ti_required : t_required s = root;
}.

(** The stack; [grey] are the vertices whose calls are active.  Vertices that
    were popped have no edges back to the stack. *)
Record stacking (s : TarjanAlgorithm) (grey : list Index) : Prop := {
  ti_sorted : StronglySorted (deeper s) (t_stack s);
  ti_numbered : forall v, v ∈ t_stack s -> numbered s v;
  ti_grey : forall v, v ∈ grey -> v ∈ t_stack s;
  ti_closed : forall v w, numbered s v -> v ∉ t_stack s -> edge g v w ->
                numbered s w /\ w ∉ t_stack s;
  ti_edges : forall v w, v ∈ t_stack s -> v ∉ grey -> edge g v w ->
               numbered s w /\ (w ∈ t_stack s -> low_le s v w);
  ti_open : forall v, v ∈ t_stack s -> v ∉ grey -> low s v <> idx s v;
  ti_reach : forall v, v ∈ t_stack s ->
               exists w, w ∈ t_stack s /\ low s v = idx s w /\ rtc (edge g) v w;
  ti_components : t_components s = [] \/ (numbered s root /\ root ∉ t_stack s);
}.

Definition tinv (s : TarjanAlgorithm) (grey : list Index) : Prop := numbering s /\ stacking s grey.

(** What a call leaves alone. *)
Record kept (s s' : TarjanAlgorithm) : Prop := {
  kept_index : (t_index s <= t_index s')%nat;
  kept_idx : forall v, numbered s v -> idx s' v = idx s v;
  kept_low : forall v, numbered s v -> low s' v = low s v;
}.

(** The call for [v] returned: it pushed [seg] for good. *)
Definition called (s : TarjanAlgorithm) (grey : list Index) (v : Index) (s' : TarjanAlgorithm) : Prop :=
  tinv s' grey /\ kept s s' /\ idx s' v = Some (t_index s)
  /\ exists seg, t_stack s' = seg ++ t_stack s
       /\ (forall u, u ∈ seg -> ~ numbered s u)
       /\ (v ∉ seg -> seg = [] /\ low s' v = idx s' v)
       /\ forall u l m, u ∈ seg -> low s' v = Some l -> low s' u = Some m -> (l <= m)%nat.

(** In the loop of the call for [v], after the edges [seen]. *)
Definition looping (s : TarjanAlgorithm) (grey : list Index) (v : Index) (seen : list Index)
    (s' : TarjanAlgorithm) : Prop :=
  tinv s' (v :: grey) /\ kept s s' /\ idx s' v = Some (t_index s)
  /\ (forall w, w ∈ seen -> numbered s' w /\ (w ∈ t_stack s' -> low_le s' v w))
  /\ exists seg, t_stack s' = seg ++ v :: t_stack s
       /\ (forall u, u ∈ seg -> ~ numbered s u /\ u <> v)
       /\ forall u l m, u ∈ seg -> low s' v = Some l -> low s' u = Some m -> (l <= m)%nat.

Lemma kept_trans a b c :
  (forall v, numbered a v -> numbered b v) -> kept a b -> kept b c -> kept a c.
Proof.
  intros Hn [N1 I1 L1] [N2 I2 L2]. split.
  - lia.
  - intros v Hv. by rewrite I2, I1 by auto.
  - intros v Hv. by rewrite L2, L1 by auto.
Qed.

Lemma kept_numbered a b v : kept a b -> numbered a v -> numbered b v.
Proof. intros [_ I _] Hv. by rewrite I. Qed.

Lemma deeper_irrefl s v : ~ deeper s v v.
Proof. intros (i & j & Hi & Hj & Hlt). rewrite Hi in Hj. simplify_eq. lia. Qed.

Lemma sorted_app s a b x y :
  StronglySorted (deeper s) (a ++ b) -> x ∈ a -> y ∈ b -> deeper s x y.
Proof.
  induction a as [|z a IH]; simpl; intros Hs Hx Hy; [by apply elem_of_nil in Hx|].
  apply StronglySorted_inv in Hs as [Hs Hz]. rewrite Forall_forall in Hz.
  apply elem_of_cons in Hx as [->|Hx]; [|by apply IH]. apply Hz, elem_of_app. by right.
Qed.

Lemma sorted_suffix s a b : StronglySorted (deeper s) (a ++ b) -> StronglySorted (deeper s) b.
Proof. induction a; simpl; [done|]. intros [Hs _]%StronglySorted_inv. auto. Qed.

Lemma sorted_mono s s' l :
  (forall v, v ∈ l -> idx s' v = idx s v) ->
  StronglySorted (deeper s) l -> StronglySorted (deeper s') l.
Proof.
  intros Hl Hs. induction Hs as [|x l Hs IH Hx]; constructor.
  - apply IH. intros v Hv. apply Hl. by apply list_elem_of_further.
  - rewrite Forall_forall in Hx |- *. intros y Hy. destruct (Hx y Hy) as (i & j & Hi & Hj & Hlt).
    exists i, j. by rewrite !Hl by (set_solver).
Qed.

Lemma numbering_length s : numbering s -> length (t_graph s) = length g.
Proof. intros H. by rewrite <- (length_fmap strip), (ti_same _ H), length_fmap. Qed.

(** ** Steps *)

Lemma enter_fields s v :
  (v < length (t_graph s))%nat ->
  idx (enter v s) v = Some (t_index s) /\ low (enter v s) v = Some (t_index s)
  /\ forall u, u <> v -> idx (enter v s) u = idx s u /\ low (enter v s) u = low s u.
Proof.
  intros Hv. rewrite idx_enter, low_enter, !decide_True by done. split_and!; try done.
  intros u Hu. by rewrite idx_enter, low_enter, !decide_False by done.
Qed.

Lemma enter_numbering s v :
  numbering s -> idx s v = None -> (v < length g)%nat -> rtc (edge g) root v ->
  numbering (enter v s).
Proof.
  intros Hs Hv Hlt Hr. rewrite <- (numbering_length _ Hs) in Hlt.
  destruct (enter_fields s v Hlt) as (Hiv & Hlv & Hu). split.
  - rewrite <- (ti_same _ Hs). by apply strip_alter.
  - destruct (ti_count _ Hs) as (X & HX & HXs). exists ({[v]} ∪ X). split.
    + intros u. rewrite elem_of_union, elem_of_singleton, HX.
      destruct (decide (u = v)) as [->|Hne]; [rewrite Hiv|destruct (Hu u Hne) as [-> _]].
      * split; [by eexists|by left].
      * split; [by intros [?|?]|by right].
    + rewrite size_union, size_singleton, HXs by (rewrite disjoint_singleton_l, HX, Hv; by intros [? ?]).
      done.
  - intros u i. destruct (decide (u = v)) as [->|Hne]; [rewrite Hiv|destruct (Hu u Hne) as [-> _]]; simpl.
    + intros [= <-]. lia.
    + intros H. apply (ti_index _ Hs) in H. lia.
  - intros u i. destruct (decide (u = v)) as [->|Hne].
    + rewrite Hiv, Hlv. intros [= <-]. eauto.
    + destruct (Hu u Hne) as [-> ->]. apply (ti_low _ Hs).
  - intros u Hn. destruct (decide (u = v)) as [->|Hne]; [done|]. destruct (Hu u Hne) as [Hi _].
    rewrite Hi in Hn. by apply (ti_root _ Hs).
  - apply (ti_required _ Hs).
Qed.

Lemma enter_stacking s grey v :
  numbering s -> stacking s grey -> idx s v = None -> (v < length g)%nat ->
  stacking (enter v s) (v :: grey).
Proof.
  intros Hn Hs Hv Hlt. rewrite <- (numbering_length _ Hn) in Hlt.
  destruct (enter_fields s v Hlt) as (Hiv & Hlv & Hu).
  assert (Hnv : forall u, numbered s u -> u <> v) by (intros u [i Hi] ->; congruence).
  assert (Hst : forall u, u ∈ t_stack s -> u <> v) by (intros u Hi; by apply Hnv, (ti_numbered _ _ Hs)).
  assert (Hi : forall u, u <> v -> idx (enter v s) u = idx s u) by (intros u ?; by apply Hu).
  assert (Hl : forall u, u <> v -> low (enter v s) u = low s u) by (intros u ?; by apply Hu).
  assert (Hmono : forall u, numbered s u -> numbered (enter v s) u)
    by (intros u ?; rewrite Hi by auto; done).
  split; simpl.
  - constructor.
    + apply (sorted_mono s); [|apply (ti_sorted _ _ Hs)]. intros u ?. auto.
    + apply Forall_forall. intros u Hin. destruct (ti_numbered _ _ Hs u Hin) as [j Hj].
      exists (t_index s), j. rewrite Hiv, Hi by auto. split_and!; try done.
      by apply (ti_index _ Hn) in Hj.
  - intros u [->|Hin]%elem_of_cons; [rewrite Hiv; by eexists|]. by apply Hmono, (ti_numbered _ _ Hs).
  - intros u. rewrite !elem_of_cons. intros [->|Hin]; [by left|]. right. by apply (ti_grey _ _ Hs).
  - intros u w Hnum [Hne Hin]%not_elem_of_cons He. rewrite Hi in Hnum by done.
    destruct (ti_closed _ _ Hs u w Hnum Hin He) as [H1 H2]. split; [by apply Hmono|].
    apply not_elem_of_cons. auto.
  - intros u w Hin [Hne Hg]%not_elem_of_cons He. apply elem_of_cons in Hin as [->|Hin]; [done|].
    destruct (ti_edges _ _ Hs u w Hin Hg He) as [H1 H2]. split; [by apply Hmono|].
    intros Hw. assert (w <> v) by auto. apply elem_of_cons in Hw as [->|Hw]; [done|].
    intros l j. rewrite Hl, Hi by auto. by apply H2.
  - intros u Hin [Hne Hg]%not_elem_of_cons. apply elem_of_cons in Hin as [->|Hin]; [done|].
    rewrite Hl, Hi by auto. by apply (ti_open _ _ Hs).
  - intros u [->|Hin]%elem_of_cons.
    + exists v. rewrite Hiv, Hlv. split_and!; [by left|done|done].
    + destruct (ti_reach _ _ Hs u Hin) as (w & Hw & Hlw & Hp). exists w.
      rewrite Hl, Hi by auto. split_and!; [by right|done|done].
  - destruct (ti_components _ _ Hs) as [H|[H1 H2]]; [by left|right]. split; [by apply Hmono|].
    apply not_elem_of_cons. auto.
Qed.

Lemma enter_looping s grey v :
  tinv s grey -> idx s v = None -> (v < length g)%nat -> rtc (edge g) root v ->
  looping s grey v [] (enter v s).
Proof.
  intros [Hn Hs] Hv Hlt Hr.
  assert (Hlt' := Hlt). rewrite <- (numbering_length _ Hn) in Hlt'.
  destruct (enter_fields s v Hlt') as (Hiv & Hlv & Hu).
  assert (Hnv : forall u, numbered s u -> u <> v) by (intros u [i Hi] ->; congruence).
  split_and!.
  - split; [by apply enter_numbering|by apply enter_stacking].
  - split; [simpl; lia| |]; intros u ?; apply Hu; auto.
  - done.
  - by intros w ?%elem_of_nil.
  - exists []. split_and!; [done|by intros u ?%elem_of_nil|by intros u ? ? ?%elem_of_nil].
Qed.

(** Lowering the lowlink of an active vertex to the index of a vertex on the
    stack that it reaches, or to a value that is not lower. *)
Lemma lower_tinv s grey v x l i :
  tinv s grey -> v ∈ grey -> low s v = Some l -> x = Some i ->
  (l <= i)%nat \/ (exists w, w ∈ t_stack s /\ idx s w = Some i /\ rtc (edge g) v w) ->
  tinv (lower v x s) grey.
Proof.
  intros [Hn Hs] Hv Hl -> Hx. destruct (ti_numbered _ _ Hs v (ti_grey _ _ Hs v Hv)) as [j Hj].
  destruct (lookup_lt_is_Some_2 _ _ (idx_lt _ _ _ Hj)) as [y Hy].
  assert (Hlv : low (lower v (Some i) s) v = Some (l `min` i)%nat)
    by (by rewrite low_lower, decide_True, Hy, Hl by done).
  assert (Hlu : forall u, u <> v -> low (lower v (Some i) s) u = low s u)
    by (intros u Hu; by rewrite low_lower, decide_False by done).
  pose proof (idx_lower v (Some i) s) as Hi.
  split; split; simpl.
  - rewrite <- (ti_same _ Hn). by apply strip_alter.
  - destruct (ti_count _ Hn) as (X & HX). exists X. by setoid_rewrite Hi.
  - intros u k. rewrite Hi. apply (ti_index _ Hn).
  - intros u k. rewrite Hi. intros Hk. destruct (ti_low _ Hn u k Hk) as (m & Hm & Hle).
    destruct (decide (u = v)) as [->|Hu]; [|rewrite Hlu by done; eauto].
    exists (l `min` i)%nat. simplify_eq. split; [done|lia].
  - intros u. rewrite Hi. apply (ti_root _ Hn).
  - apply (ti_required _ Hn).
  - apply (sorted_mono s); [by intros|apply (ti_sorted _ _ Hs)].
  - intros u. rewrite Hi. apply (ti_numbered _ _ Hs).
  - apply (ti_grey _ _ Hs).
  - intros u w. rewrite !Hi. apply (ti_closed _ _ Hs).
  - intros u w Hu Hg He. rewrite Hi. destruct (ti_edges _ _ Hs u w Hu Hg He) as [H1 H2].
    split; [done|]. intros Hw a b. rewrite Hi, Hlu by (intros ->; done). by apply H2.
  - intros u Hu Hg. rewrite Hi, Hlu by (intros ->; done). by apply (ti_open _ _ Hs).
  - intros u Hu. destruct (decide (u = v)) as [->|Hne].
    + rewrite Hlv. destruct (Nat.min_spec l i) as [[Hlt ->]|[Hge ->]].
      * destruct (ti_reach _ _ Hs v Hu) as (w & Hw & Hlw & Hp). exists w. rewrite Hi. split_and!; congruence.
      * destruct Hx as [Hx|(w & Hw & Hiw & Hp)].
        -- assert (i = l) as -> by lia.
           destruct (ti_reach _ _ Hs v Hu) as (w & Hw & Hlw & Hp). exists w. rewrite Hi. split_and!; congruence.
        -- exists w. by rewrite Hi.
    + destruct (ti_reach _ _ Hs u Hu) as (w & Hw & Hlw & Hp). exists w. by rewrite Hi, Hlu.
  - rewrite Hi. apply (ti_components _ _ Hs).
Qed.

(** The part of [looping] that lowering [v] keeps: [seg] lies above [v], and
    the bound on its lowlinks is to be shown for the new value. *)
Lemma looping_lower s grey v seen s1 x l i seg :
  idx s v = None ->
  tinv (lower v x s1) (v :: grey) -> kept s s1 -> idx s1 v = Some (t_index s) ->
  low s1 v = Some l -> x = Some i ->
  (forall w, w ∈ seen -> numbered s1 w
     /\ (w ∈ t_stack s1 -> forall j, idx s1 w = Some j -> (l `min` i <= j)%nat)) ->
  t_stack s1 = seg ++ v :: t_stack s ->
  (forall u, u ∈ seg -> ~ numbered s u /\ u <> v) ->
  (forall u m, u ∈ seg -> low s1 u = Some m -> (l `min` i <= m)%nat) ->
  looping s grey v seen (lower v x s1).
Proof.
  intros Hv Hinv [Kn Ki Kl] Hi Hl -> Hseen Hst Hseg Hlow.
  destruct (lookup_lt_is_Some_2 _ _ (idx_lt _ _ _ Hi)) as [y Hy].
  assert (Hlv : low (lower v (Some i) s1) v = Some (l `min` i)%nat)
    by (by rewrite low_lower, decide_True, Hy, Hl by done).
  assert (Hlu : forall u, u <> v -> low (lower v (Some i) s1) u = low s1 u)
    by (intros u Hu; by rewrite low_lower, decide_False by done).
  assert (Hne : forall u, numbered s u -> u <> v) by (intros u [k Hk] ->; congruence).
  split_and!; [done| |by rewrite idx_lower| |].
  - split; [done|intros u Hu; rewrite idx_lower; auto|intros u Hu; rewrite Hlu by auto; auto].
  - intros w Hw. rewrite idx_lower. destruct (Hseen w Hw) as [H1 H2]. split; [done|].
    intros Hin a b. rewrite idx_lower, Hlv. intros [= <-] Hb. by apply H2.
  - exists seg. split_and!; try done. intros u a b Hu. rewrite Hlv, Hlu by (by apply Hseg).
    intros [= <-] Hb. by apply (Hlow u).
Qed.

Lemma called_looping s grey v seen s1 c s2 :
  looping s grey v seen s1 -> idx s v = None -> edge g v c ->
  called s1 (v :: grey) c s2 ->
  looping s grey v (seen ++ [c]) (lower v (low s2 c) s2).
Proof.
  intros (Hinv & Hk & Hi & Hseen & seg & Hst & Hseg & Hlow) Hv He
    (Hinv2 & Hk2 & Hic & seg2 & Hst2 & Hseg2 & Hpop & Hlow2).
  assert (Hnv : numbered s1 v) by (by eexists).
  destruct (ti_low _ (proj1 Hinv) v _ Hi) as (l & Hl & Hle).
  destruct (ti_low _ (proj1 Hinv2) c _ Hic) as (m & Hm & Hlem).
  assert (Hl2 : low s2 v = Some l) by (by rewrite (kept_low _ _ Hk2)).
  assert (Hi2 : idx s2 v = Some (t_index s)) by (by rewrite (kept_idx _ _ Hk2)).
  assert (Hbelow : forall w, numbered s1 w -> w ∈ t_stack s2 -> w ∈ t_stack s1).
  { intros w Hw. rewrite Hst2. intros [Hin|Hin]%elem_of_app; [|done]. by destruct (Hseg2 w Hin). }
  assert (Hmono : forall u, numbered s u -> numbered s1 u) by (intros u; by apply kept_numbered).
  eapply (looping_lower s grey v (seen ++ [c]) s2 _ l m (seg2 ++ seg)); try done.
  - apply (lower_tinv s2 (v :: grey) v _ l m); try done; [by left|].
    destruct (decide (c ∈ seg2)) as [Hin|Hin].
    + right. destruct (ti_reach _ _ (proj2 Hinv2) c) as (w & Hw & Hlw & Hp).
      { rewrite Hst2. apply elem_of_app. by left. }
      exists w. split_and!; [done|congruence|]. by apply (rtc_l _ _ c).
    + left. destruct (Hpop Hin) as [_ Heq]. pose proof (ti_index _ (proj1 Hinv) v _ Hi).
      rewrite Hm, Hic in Heq. simplify_eq. lia.
  - by apply (kept_trans s s1 s2).
  - intros w [Hw| ->%list_elem_of_singleton]%elem_of_app.
    + destruct (Hseen w Hw) as [H1 H2]. split; [by apply (kept_numbered s1)|].
      intros Hin j Hj. rewrite (kept_idx _ _ Hk2) in Hj by done.
      specialize (H2 (Hbelow w H1 Hin) l j Hl Hj). lia.
    + split; [by eexists|]. intros _ j Hj. rewrite Hic in Hj. simplify_eq. lia.
  - by rewrite Hst2, Hst, app_assoc.
  - intros u [Hu|Hu]%elem_of_app; [|by apply Hseg]. specialize (Hseg2 u Hu). split; [auto|].
    intros ->. done.
  - intros u k [Hu|Hu]%elem_of_app Hk'.
    + specialize (Hlow2 u m k Hu Hm Hk'). lia.
    + assert (Hnu : numbered s1 u) by (apply (ti_numbered _ _ (proj2 Hinv)); rewrite Hst; set_solver).
      rewrite (kept_low _ _ Hk2) in Hk' by done. specialize (Hlow u l k Hu Hl Hk'). lia.
Qed.

Lemma edge_step visit s grey v seen c s1 :
  looping s grey v seen s1 -> idx s v = None -> edge g v c ->
  (idx s1 c = None -> exists s2, visit c s1 = Ret s2 /\ called s1 (v :: grey) c s2) ->
  exists s2, tarjan_edge visit v s1 c = Ret s2 /\ looping s grey v (seen ++ [c]) s2.
Proof using Hok.
  intros Hloop Hv He Hvisit. destruct Hloop as (Hinv & Hk & Hi & Hseen & seg & Hst & Hseg & Hlow) eqn:E.
  clear E. unfold tarjan_edge.
  assert (Hc : (c < length (t_graph s1))%nat) by (rewrite (numbering_length _ (proj1 Hinv)); by apply (Hok v)).
  destruct (lookup_lt_is_Some_2 _ _ Hc) as [next Hnext].
  assert (Hidx : idx s1 c = v_index next) by (unfold idx; by rewrite Hnext).
  rewrite Hnext. cbn [of_option]. rewrite outcome_bind_ret.
  destruct (v_index next) as [i|] eqn:Hni.
  - assert (Hnc : numbered s1 c) by (by eexists).
    destruct (decide (c ∈ t_stack s1)) as [Hin|Hin].
    + eexists. split; [done|]. destruct (ti_low _ (proj1 Hinv) v _ Hi) as (l & Hl & Hle).
      apply (looping_lower s grey v (seen ++ [c]) s1 _ l i seg); try done.
      * apply (lower_tinv s1 (v :: grey) v _ l i); try done; [by left|].
        right. exists c. split_and!; [done|done|]. by apply rtc_once.
      * intros w [Hw| ->%list_elem_of_singleton]%elem_of_app.
        -- destruct (Hseen w Hw) as [H1 H2]. split; [done|]. intros Hws j Hj.
           specialize (H2 Hws l j Hl Hj). lia.
        -- split; [done|]. intros _ j Hj. simplify_eq. lia.
      * intros u m Hu Hm. specialize (Hlow u l m Hu Hl Hm). lia.
    + eexists. split; [done|]. split_and!; try done; [|by exists seg].
      intros w [Hw| ->%list_elem_of_singleton]%elem_of_app; [by apply Hseen|done].
  - destruct (Hvisit Hidx) as (s2 & -> & Hcalled). rewrite outcome_bind_ret.
    eexists. split; [done|]. by apply (called_looping s grey v seen s1).
Qed.

Lemma pop_component_app v seg rest :
  v ∉ seg -> pop_component v (seg ++ v :: rest) = (seg ++ [v], rest).
Proof.
  induction seg as [|u seg IH]; simpl; intros Hv.
  - by rewrite decide_True.
  - apply not_elem_of_cons in Hv as [Hne Hv]. by rewrite decide_False, IH by done.
Qed.

(** The state in which the stack is cut back to that of the caller. *)
Lemma popped_stacking s s1 s2 grey v seen seg :
  tinv s grey -> looping s grey v seen s1 -> idx s v = None ->
  (forall w, edge g v w -> w ∈ seen) ->
  t_stack s1 = seg ++ v :: t_stack s -> low s1 v = idx s1 v ->
  t_graph s2 = t_graph s1 -> t_stack s2 = t_stack s ->
  t_components s2 = [] \/ (numbered s1 root /\ root ∉ t_stack s) ->
  stacking s2 grey.
Proof.
  intros [Hn0 Hs0] (Hinv & Hk & Hi & Hseen & seg' & Hst' & Hseg & Hlow) Hv Hall Hst Heq Hg2 Hst2 Hc2.
  destruct Hinv as [Hn Hs].
  rewrite Hst in Hst'. apply app_inv_tail_iff in Hst' as <-.
  assert (Hidx : forall u, idx s2 u = idx s1 u) by (intros u; unfold idx; by rewrite Hg2).
  assert (Hlw : forall u, low s2 u = low s1 u) by (intros u; unfold low; by rewrite Hg2).
  assert (Hsub : forall u, u ∈ t_stack s -> u ∈ t_stack s1) by (intros u ?; rewrite Hst; set_solver).
  assert (Hnv : forall u, u ∈ t_stack s -> u <> v)
    by (intros u Hu ->; destruct (ti_numbered _ _ Hs0 v Hu); congruence).
  assert (Hbot : forall u w, u = v \/ u ∈ seg -> w ∈ t_stack s -> ~ low_le s1 u w).
  { intros u w Hu Hw Hle. pose proof (ti_sorted _ _ Hs) as Hsort. rewrite Hst in Hsort.
    apply sorted_suffix, StronglySorted_inv in Hsort as [_ Hsort]. rewrite Forall_forall in Hsort.
    destruct (Hsort w Hw) as (a & b & Ha & Hb & Hlt). rewrite Ha in Heq.
    destruct Hu as [->|Hu]; [specialize (Hle a b Heq Hb); lia|].
    destruct (ti_numbered _ _ Hs u) as [c Hc]; [rewrite Hst; set_solver|].
    destruct (ti_low _ Hn u c Hc) as (m & Hm & _).
    specialize (Hlow u a m Hu Heq Hm). specialize (Hle m b Hm Hb). lia. }
  split; rewrite ?Hst2.
  - apply (sorted_mono s1); [done|]. pose proof (ti_sorted _ _ Hs) as Hsort. rewrite Hst in Hsort.
    by apply sorted_suffix, StronglySorted_inv in Hsort as [? _].
  - intros u Hu. rewrite Hidx. by apply (ti_numbered _ _ Hs), Hsub.
  - apply (ti_grey _ _ Hs0).
  - intros u w Hu Hus He. rewrite Hidx in *.
    assert (numbered s1 w /\ (w ∈ t_stack s1 -> u = v \/ u ∈ seg -> low_le s1 u w)
            /\ (u = v \/ u ∈ seg \/ w ∉ t_stack s1)) as (H1 & H2 & H3).
    { destruct (decide (u = v)) as [->|Hne]; [destruct (Hseen w (Hall w He)); by auto|].
      destruct (decide (u ∈ seg)) as [Hin|Hin].
      - destruct (ti_edges _ _ Hs u w) as [? ?]; try done; [rewrite Hst; set_solver| |split_and!; auto].
        intros [|Hug]%elem_of_cons; [done|]. by apply Hus, (ti_grey _ _ Hs0).
      - destruct (ti_closed _ _ Hs u w) as [? ?]; try done; [rewrite Hst; set_solver|split_and!; auto; done]. }
    split; [done|]. intros Hw. destruct H3 as [H3|[H3|H3]]; [| |by auto].
    + by apply (Hbot u w); auto.
    + by apply (Hbot u w); auto.
  - intros u w Hu Hg He. rewrite Hidx.
    destruct (ti_edges _ _ Hs u w) as [H1 H2]; [auto|set_solver|done|].
    split; [done|]. intros Hw l j. rewrite Hidx, Hlw. apply H2. auto.
  - intros u Hu Hg. rewrite Hidx, Hlw. apply (ti_open _ _ Hs); [auto|set_solver].
  - intros u Hu. destruct (ti_reach _ _ Hs0 u Hu) as (w & Hw & Hlow' & Hp). exists w.
    rewrite Hidx, Hlw, (kept_low _ _ Hk), (kept_idx _ _ Hk) by (by apply (ti_numbered _ _ Hs0)). done.
  - by rewrite Hidx.
Qed.

Lemma finish_pops s s1 grey v seen :
  tinv s grey -> looping s grey v seen s1 -> idx s v = None ->
  (forall w, edge g v w -> w ∈ seen) -> low s1 v = idx s1 v ->
  exists seg s2, finish v s1 = Ret s2 /\ called s grey v s2
    /\ t_stack s1 = seg ++ v :: t_stack s
    /\ t_graph s2 = t_graph s1
    /\ t_components s2 = if decide (root ∈ seg ++ [v]) then t_components s1 ++ [seg ++ [v]]
                         else t_components s1.
Proof.
  intros Hinv0 Hloop Hv Hall Heq.
  pose proof Hloop as (Hinv & Hk & Hi & Hseen & seg & Hst & Hseg & Hlow).
  exists seg. eexists. unfold finish. rewrite decide_True by done.
  rewrite bool_decide_false by (rewrite Hst; by destruct seg). cbn [negb check_that].
  rewrite Hst, pop_component_app by (intros Hin; by destruct (Hseg v Hin)).
  rewrite (ti_required _ (proj1 Hinv)). split_and!; try done.
  assert (Hg : forall st comp, (forall u, idx (mkTarjan (t_graph s1) st comp (t_index s1) root) u = idx s1 u)
      /\ forall u, low (mkTarjan (t_graph s1) st comp (t_index s1) root) u = low s1 u) by done.
  split_and!.
  - split; [destruct Hinv as [[A B C D E F] _]; by split|]. eapply popped_stacking; try done. simpl.
    destruct (ti_components _ _ (proj2 Hinv)) as [H|[H1 H2]]; [|right; split; [done|]; intros ?; apply H2;
      rewrite Hst; apply elem_of_app; right; by right].
    case_decide as Hr; [right|by left].
    split; [apply (ti_numbered _ _ (proj2 Hinv)); rewrite Hst; clear -Hr; set_solver|].
    intros Hr'. apply (ti_numbered _ _ (proj2 Hinv0)) in Hr'.
    apply elem_of_app in Hr as [Hin| ->%list_elem_of_singleton]; [by destruct (Hseg root Hin)|].
    destruct Hr'. congruence.
  - destruct Hk as [Kn Ki Kl]. by split.
  - done.
  - exists []. split_and!; [done|by intros u ?%elem_of_nil|done|by intros u ? ? ?%elem_of_nil].
Qed.

Lemma finish_called s s1 grey v seen :
  tinv s grey -> looping s grey v seen s1 -> idx s v = None ->
  (forall w, edge g v w -> w ∈ seen) ->
  exists s2, finish v s1 = Ret s2 /\ called s grey v s2.
Proof.
  intros Hinv0 Hloop Hv Hall. destruct (decide (low s1 v = idx s1 v)) as [Heq|Hne].
  { destruct (finish_pops s s1 grey v seen) as (seg & s2 & H1 & H2 & _); eauto. }
  exists s1. unfold finish. rewrite decide_False by done. split; [done|].
  destruct Hloop as (Hinv & Hk & Hi & Hseen & seg & Hst & Hseg & Hlow).
  destruct Hinv as [Hn Hs]. split_and!; try done.
  - split; [done|]. destruct Hs as [S1 S2 S3 S4 S5 S6 S7 S8]. split; try done.
    + intros u Hu. apply S3. by apply list_elem_of_further.
    + intros u w Hu Hg He. destruct (decide (u = v)) as [->|Huv]; [by apply Hseen, Hall|].
      apply S5; set_solver.
    + intros u Hu Hg. destruct (decide (u = v)) as [->|Huv]; [done|]. apply S6; set_solver.
  - exists (seg ++ [v]). rewrite <- app_assoc. split_and!; [done| | |].
    + intros u [Hu| ->%list_elem_of_singleton]%elem_of_app; [by apply Hseg|]. intros [? ?]. congruence.
    + intros Hnin. set_solver.
    + intros u l m [Hu| ->%list_elem_of_singleton]%elem_of_app H1 H2; [by apply (Hlow u)|].
      rewrite H1 in H2. by simplify_eq.
Qed.

(** An unnumbered vertex leaves room for a number. *)
Lemma numbering_room s v : numbering s -> idx s v = None -> (v < length g)%nat -> (t_index s < length g)%nat.
Proof.
  intros Hn Hv Hlt. destruct (ti_count _ Hn) as (X & HX & <-).
  rewrite <- (size_set_seq (C := gset nat) 0 (length g)). apply subset_size. split.
  - intros u Hu. apply elem_of_set_seq. apply HX in Hu as [i Hi]. apply idx_lt in Hi.
    rewrite (numbering_length _ Hn) in Hi. lia.
  - intros Hsub. assert (v ∈ X) as [i ?]%HX by (apply Hsub, elem_of_set_seq; lia). congruence.
Qed.

Lemma Tarjan_looping fuel v s grey :
  tinv s grey -> idx s v = None -> (v < length g)%nat -> rtc (edge g) root v ->
  (length g <= fuel + t_index s)%nat ->
  exists seen s1, Tarjan fuel v s = finish v s1 /\ looping s grey v seen s1
    /\ forall w, edge g v w -> w ∈ seen.
Proof using Hok.
  revert v s grey. induction fuel as [|fuel IH]; intros v s grey Hinv Hv Hlt Hr Hfuel.
  { pose proof (numbering_room s v (proj1 Hinv) Hv Hlt). lia. }
  simpl. assert (Hlt' := Hlt). rewrite <- (numbering_length _ (proj1 Hinv)) in Hlt'.
  destruct (lookup_lt_is_Some_2 _ _ Hlt') as [x Hx].
  assert (Hxi : v_index x = None) by (unfold idx in Hv; by rewrite Hx in Hv).
  rewrite Hx. cbn [of_option]. rewrite outcome_bind_ret, bool_decide_true by done.
  cbn [check_that]. rewrite outcome_bind_ret.
  assert (Hedge : forall w, edge g v w <-> w ∈ successors x).
  { intros w. rewrite (strip_edge g (t_graph s)) by (by rewrite (ti_same _ (proj1 Hinv))).
    split; [intros (y & Hy & Hw); congruence|by exists x]. }
  destruct (foldM_inv (tarjan_edge (Tarjan fuel) v) (looping s grey v) (successors x) (enter v s))
    as (s1 & -> & Hs1).
  - by apply enter_looping.
  - intros seen c todo s1 Hl Hs1. assert (He : edge g v c) by (apply Hedge; rewrite Hl; set_solver).
    apply edge_step; try done. intros Hc. destruct Hs1 as (Hinv1 & _ & Hi1 & _).
    destruct (IH c s1 (v :: grey)) as (seen' & s2 & -> & Hloop & Hall); try done.
    + by apply (Hok v).
    + by eapply rtc_r.
    + apply (ti_index _ (proj1 Hinv1)) in Hi1. lia.
    + by apply (finish_called s1 s2 (v :: grey) c seen').
  - rewrite outcome_bind_ret. exists (successors x), s1. split_and!; [done|done|]. apply Hedge.
Qed.

(** ** The component *)

(** The loop of the outermost call has seen all of the component. *)
Lemma component_spec s s1 seen seg :
  looping s [] root seen s1 -> (forall w, edge g root w -> w ∈ seen) ->
  t_stack s = [] -> t_stack s1 = seg ++ root :: t_stack s ->
  forall x, x ∈ seg ++ [root] <-> rtc (edge g) root x /\ rtc (edge g) x root.
Proof.
  intros ([Hn Hs] & _ & Hi & Hseen & _) Hall Hs0 Hst x. rewrite Hs0 in Hst. rewrite <- Hst. split.
  - intros Hx. split; [by apply (ti_root _ Hn), (ti_numbered _ _ Hs)|].
    destruct (ti_numbered _ _ Hs x Hx) as [i Hxi].
    revert x Hx Hxi. induction i as [i IH] using lt_wf_ind. intros x Hx Hxi.
    destruct (decide (x = root)) as [->|Hne]; [done|].
    destruct (ti_reach _ _ Hs x Hx) as (w & Hw & Hlw & Hp).
    destruct (ti_low _ Hn x i Hxi) as (l & Hl & Hle).
    assert (low s1 x <> idx s1 x) by (apply (ti_open _ _ Hs); set_solver).
    assert (l <> i) by congruence.
    etransitivity; [exact Hp|]. apply (IH l); [lia|done|congruence].
  - intros [H1 H2].
    assert (Hnx : numbered s1 x).
    { clear H2. apply (rtc_ind_r (R := edge g) (fun y => numbered s1 y) root); [by eexists| |done].
      intros y z _ He Hy. destruct (decide (y ∈ t_stack s1)) as [Hin|Hin].
      - destruct (decide (y = root)) as [->|Hne]; [by apply Hseen, Hall|].
        apply (ti_edges _ _ Hs y z); [done|set_solver|done].
      - by apply (ti_closed _ _ Hs y z). }
    destruct (decide (x ∈ t_stack s1)) as [|Hout]; [done|exfalso].
    assert (numbered s1 root /\ root ∉ t_stack s1) as [_ H].
    { clear H1. induction H2 as [y|y z w He Hp IH]; [done|].
      destruct (ti_closed _ _ Hs y z) as [? ?]; try done. by apply IH. }
    apply H. rewrite Hst. set_solver.
Qed.

Lemma sorted_NoDup s l : StronglySorted (deeper s) l -> NoDup l.
Proof.
  induction 1 as [|v l Hs IH Hv]; constructor; [|done]. intros Hin. rewrite Forall_forall in Hv.
  by apply (deeper_irrefl s v), Hv.
Qed.
End Components.

Lemma cleared_fields (g : Graph) v :
  let s := mkTarjan ((fun v => set_v_lowlink None (set_v_index None v)) <$> g) [] [] 0 v in
  forall u, idx s u = None /\ low s u = None.
Proof. intros s u. unfold idx, low. simpl. rewrite list_lookup_fmap. by destruct (g !! u). Qed.

Lemma cleared_tinv (g : Graph) v :
  tinv g v (mkTarjan ((fun v => set_v_lowlink None (set_v_index None v)) <$> g) [] [] 0 v) [].
Proof.
  pose proof (cleared_fields g v) as Hc. cbn zeta in Hc. set (s := mkTarjan _ _ _ _ _) in *.
  assert (Hno : forall u i, idx s u = Some i -> False) by (intros u i; by rewrite (proj1 (Hc u))).
  assert (Hst : forall u, u ∈ t_stack s -> False) by (intros u Hu; by apply elem_of_nil in Hu).
  split; split; try reflexivity.
  - simpl. rewrite <- list_fmap_compose. by apply list_fmap_ext.
  - exists ∅. split; [|done]. intros u. rewrite (proj1 (Hc u)). split; [set_solver|by intros []].
  - naive_solver.
  - naive_solver.
  - intros u [i H]. by apply Hno in H.
  - constructor.
  - intros u Hu. by apply Hst in Hu.
  - done.
  - intros u w [i H]. by apply Hno in H.
  - intros u w Hu. by apply Hst in Hu.
  - intros u Hu. by apply Hst in Hu.
  - intros u Hu. by apply Hst in Hu.
  - by left.
Qed.

(** The specification of [Execute] its callers use. *)
Lemma Execute_spec g v out :
  graph_ok g -> (v < length g)%nat ->
  exists g' component, Execute v g out = Ret (g', component)
    /\ strip <$> g' = strip <$> g /\ NoDup component
    /\ forall x, x ∈ component <-> rtc (edge g) v x /\ rtc (edge g) x v.
Proof.
  intros Hok Hv. unfold Execute. set (s := mkTarjan _ _ _ _ _).
  assert (Hinv : tinv g v s []) by apply cleared_tinv.
  assert (Hvn : idx s v = None) by apply cleared_fields.
  destruct (Tarjan_looping g Hok v (length g) v s []) as (seen & s1 & -> & Hloop & Hall); try done.
  { simpl. lia. }
  pose proof Hloop as ([Hn Hs] & Hk & Hi & _). destruct (ti_low _ _ _ Hn v _ Hi) as (l & Hl & Hle).
  destruct (finish_pops g Hok v s s1 [] v seen) as (seg & s2 & -> & Hcalled & Hst & Hg & Hcomp); try done.
  { rewrite Hl, Hi. f_equal. simpl in *. lia. }
  rewrite outcome_bind_ret, Hcomp, decide_True by set_solver.
  exists (t_graph s2), (seg ++ [v]). split_and!.
  - f_equal. f_equal. destruct (ti_components _ _ _ _ Hs) as [->|[_ H]]; [done|].
    destruct H. rewrite Hst. set_solver.
  - rewrite Hg. apply (ti_same _ _ _ Hn).
  - apply (sorted_NoDup s1). pose proof (ti_sorted _ _ _ _ Hs) as H. by rewrite Hst in H.
  - by apply (component_spec g Hok v s s1 seen).
Qed.

(** C17: [Execute] of [TarjanAlgorithm] terminates for every vertex of every
    graph, changes nothing of the graph but the numbers of the algorithm, and
    returns, without duplicates, exactly the strongly connected component of
    the vertex: the vertices it reaches that also reach it. *)
Theorem Execute_component g v out :
  graph_ok g -> (v < length g)%nat ->
  exists g' component, Execute v g out = Ret (g', component)
    /\ strip <$> g' = strip <$> g /\ NoDup component
    /\ forall x, x ∈ component <-> rtc (edge g) v x /\ rtc (edge g) x v.
Proof. apply Execute_spec. Qed.

Lemma Execute_component_witness :
  exists g' component,
    Execute 0 [vertex_to [1]; vertex_to [2]; vertex_to [0; 3]; vertex_to []]%nat [] = Ret (g', component)
    /\ component = [2; 1; 0]%nat
    /\ forall x, x ∈ component <->
         rtc (edge [vertex_to [1]; vertex_to [2]; vertex_to [0; 3]; vertex_to []]%nat) 0%nat x
         /\ rtc (edge [vertex_to [1]; vertex_to [2]; vertex_to [0; 3]; vertex_to []]%nat) x 0%nat.
Proof.
  destruct (Execute_component [vertex_to [1]; vertex_to [2]; vertex_to [0; 3]; vertex_to []]%nat 0%nat [])
    as (g' & component & He & _ & _ & Hc).
  - intros u v (x & Hx & Hv). repeat (destruct u as [|u]; simplify_eq/=);
      unfold successors, vertex_to in Hv; simpl in Hv; set_solver by lia.
  - simpl. lia.
  - exists g', component. split_and!; [done| |done]. vm_compute in He. by injection He as _ <-.
Defined.
