(* ===== verification/UpdateCycles.v ===== *)
(** * UpdateCycles: breaking the cycles of the operation graph

    update_engine/payload_generator/cycle_breaker.{h,cc}.  [CycleBreaker] is a
    variant of Johnson's enumeration of elementary circuits that cuts an edge
    of every circuit it meets.  The object's fields are the record
    [CycleBreaker]; a [std::set] is the list of its elements in order.  The
    counter that paces the log messages is left out.  The theorem: whatever
    the graph, the edges cut are edges of it, and without them the graph has
    no cycle. *)
From Stdlib Require Import Sorted.
From stdpp Require Import relations sets.
From S2P Require Import Prelude UpdateExtents UpdateGraph UpdateTarjan.

Record CycleBreaker := mkBreaker {
  blocked : list bool;
  current_vertex : Index;
  cb_stack : list Index;
  subgraph : Graph;
  blocked_graph : Graph;
  cut_edges : list Edge;
  skipped_ops : nat;
}.

Definition CycleBreaker_new : CycleBreaker := mkBreaker [] 0 [] [] [] [] 0.

Definition cb_set_blocked (f : list bool -> list bool) (s : CycleBreaker) : CycleBreaker :=
  mkBreaker (f (blocked s)) (current_vertex s) (cb_stack s) (subgraph s) (blocked_graph s)
    (cut_edges s) (skipped_ops s).
Definition cb_set_stack (l : list Index) (s : CycleBreaker) : CycleBreaker :=
  mkBreaker (blocked s) (current_vertex s) l (subgraph s) (blocked_graph s)
    (cut_edges s) (skipped_ops s).
Definition cb_set_blocked_graph (f : Graph -> Graph) (s : CycleBreaker) : CycleBreaker :=
  mkBreaker (blocked s) (current_vertex s) (cb_stack s) (subgraph s) (f (blocked_graph s))
    (cut_edges s) (skipped_ops s).
Definition cb_set_cut_edges (l : list Edge) (s : CycleBreaker) : CycleBreaker :=
  mkBreaker (blocked s) (current_vertex s) (cb_stack s) (subgraph s) (blocked_graph s)
    l (skipped_ops s).

(** [std::set<Vertex::Index>::insert] *)
Fixpoint index_insert (k : Index) (l : list Index) : list Index :=
  match l with
  | [] => [k]
  | j :: l' => if (k <? j)%nat then k :: l else if (j <? k)%nat then j :: index_insert k l' else l
  end.

(** The order of pairs, and [std::set<Edge>::insert]. *)
Definition edge_ltb (a b : Edge) : bool :=
  (fst a <? fst b)%nat || ((fst a =? fst b)%nat && (snd a <? snd b)%nat).

Fixpoint edge_set_insert (e : Edge) (l : list Edge) : list Edge :=
  match l with
  | [] => [e]
  | d :: l' => if edge_ltb e d then e :: l else if edge_ltb d e then d :: edge_set_insert e l' else l
  end.

(** The edges between neighbours of a path. *)
Definition path_edges (l : list Index) : list Edge := zip l (tail l).

Definition kMaxEdgesToConsider : nat := 2.

(** The loop of [HandleCircuit]: the edge to cut, unless one is cut already. *)
Fixpoint circuit_scan (graph : Graph) (cut : list Edge) (edges : list Edge) (min_edge : Edge)
    (min_edge_weight : Z) (edges_considered : nat) : outcome (option Edge) :=
  match edges with
  | [] => Ret (Some min_edge)
  | edge :: edges =>
      if decide (edge ∈ cut) then Ret None else
      edge_weight ← EdgeWeight graph edge;
      let smaller := edge_weight <? min_edge_weight in
      let min_edge := if smaller then edge else min_edge in
      let min_edge_weight := if smaller then edge_weight else min_edge_weight in
      if (S edges_considered =? kMaxEdgesToConsider)%nat then Ret (Some min_edge)
      else circuit_scan graph cut edges min_edge min_edge_weight (S edges_considered)
  end.

(** [HandleCircuit]; the stack is the same afterwards. *)
Definition HandleCircuit (s : CycleBreaker) : outcome CycleBreaker :=
  match path_edges (cb_stack s ++ [current_vertex s]) with
  | [] => Abort
  | (first :: _) as edges =>
      min_edge ← circuit_scan (subgraph s) (cut_edges s) edges first (2 ^ 64 - 1) 0;
      Ret (match min_edge with
           | Some e => cb_set_cut_edges (edge_set_insert e (cut_edges s)) s
           | None => s
           end)
  end.

(** The body of the loop of [Unblock]; [visit] is the recursive call. *)
Definition unblock_edge (visit : Index -> CycleBreaker -> outcome CycleBreaker) (u : Index)
    (s : CycleBreaker) (w : Index) : outcome CycleBreaker :=
  let s := cb_set_blocked_graph
             (alter (fun v => set_out_edges (edge_erase w (out_edges v)) v) u) s in
  b ← of_option (blocked s !! w);
  if (b : bool) then visit w s else Ret s.

(** [Unblock]: the loop runs over the edges of [blocked_graph_[u]] at the
    start; nested calls are for other vertices, as [u] is not blocked. *)
Fixpoint Unblock (fuel : nat) (u : Index) (s : CycleBreaker) : outcome CycleBreaker :=
  match fuel with
  | O => Abort
  | S fuel =>
      _ ← of_option (blocked s !! u);
      v ← of_option (blocked_graph s !! u);
      foldM (unblock_edge (Unblock fuel) u) (successors v) (cb_set_blocked <[u := false]> s)
  end.

Definition StackContainsCutEdge (s : CycleBreaker) : bool :=
  existsb (fun e => bool_decide (e ∈ cut_edges s)) (path_edges (cb_stack s)).

(** The body of the loop over the edges in [Circuit], on [found] and the
    object; [visit] is the recursive call. *)
Definition circuit_edge (visit : Index -> CycleBreaker -> outcome (bool * CycleBreaker))
    (depth : nat) (r : bool * CycleBreaker) (w : Index) : outcome (bool * (bool * CycleBreaker)) :=
  let '(found, s) := r in
  if decide (w = current_vertex s) then s ← HandleCircuit s; Ret (false, (true, s))
  else
    b ← of_option (blocked s !! w);
    if (b : bool) then Ret (false, (found, s))
    else
      r ← visit w s;
      if (fst r : bool) then
        Ret ((kMaxEdgesToConsider <? depth)%nat || StackContainsCutEdge (snd r), (true, snd r))
      else Ret (false, (found, snd r)).

(** [blocked_graph_[w].out_edges.insert(vertex)] unless it is there *)
Definition block_edge (vertex : Index) (s : CycleBreaker) (w : Index) : outcome CycleBreaker :=
  v ← of_option (blocked_graph s !! w);
  Ret (match edge_find vertex (out_edges v) with
       | Some _ => s
       | None =>
           cb_set_blocked_graph
             (alter (fun v => set_out_edges (edge_insert vertex EdgeProperties_new (out_edges v)) v) w) s
       end).

(** The statements after the loop. *)
Definition circuit_end (vertex : Index) (edges : list Index) (r : bool * CycleBreaker)
    : outcome (bool * CycleBreaker) :=
  let '(found, s) := r in
  s ← (if (found : bool) then Unblock (length (blocked s)) vertex s
       else foldM (block_edge vertex) edges s);
  _ ← check_that (bool_decide (last (cb_stack s) = Some vertex));
  Ret (found, cb_set_stack (removelast (cb_stack s)) s).

Fixpoint Circuit (fuel : nat) (vertex : Index) (depth : nat) (s : CycleBreaker)
    : outcome (bool * CycleBreaker) :=
  match fuel with
  | O => Abort
  | S fuel =>
      let s := cb_set_stack (cb_stack s ++ [vertex]) s in
      _ ← of_option (blocked s !! vertex);
      let s := cb_set_blocked <[vertex := true]> s in
      v ← of_option (subgraph s !! vertex);
      r ← loopM (circuit_edge (fun w => Circuit fuel w (S depth)) depth) (subgraph_edges v) (false, s);
      circuit_end vertex (subgraph_edges v) r
  end.

(** Erase a node: first what it points to, then the pointers to it. *)
Definition erase_node (i : Index) (g : Graph) : Graph :=
  imap (fun j v => if (i <? j)%nat then set_out_edges (edge_erase i (out_edges v)) v else v)
    (alter (set_out_edges []) i g).

(** The edges inside a component. *)
Definition component_edges (component : list Index) (v : Vertex) : Vertex :=
  set_subgraph_edges
    (fold_left (fun l j => match edge_find j (out_edges v) with
                           | Some _ => index_insert j l
                           | None => l
                           end) component []) v.

Definition set_component (component : list Index) (g : Graph) : outcome Graph :=
  foldM (fun g i => _ ← of_option (g !! i); Ret (alter (component_edges component) i g)) component g.

(** One iteration of [BreakCycles]. *)
Definition break_at (graph : Graph) (s : CycleBreaker) (i : Index) : outcome CycleBreaker :=
  v ← of_option (graph !! i);
  if decide (type_of (aop v) = REPLACE \/ type_of (aop v) = REPLACE_BZ) then
    Ret (mkBreaker (blocked s) (current_vertex s) (cb_stack s) (subgraph s) (blocked_graph s)
           (cut_edges s) (S (skipped_ops s)))
  else
    let sub := if (0 <? i)%nat then erase_node (i - 1) (subgraph s) else subgraph s in
    r ← Execute i sub [];
    sub ← set_component (snd r) (fst r);
    let n := length sub in
    r ← Circuit n i 0
          (mkBreaker (replicate n false) i (cb_stack s) sub (replicate n Vertex_new)
             (cut_edges s) (skipped_ops s));
    Ret (snd r).

(** [BreakCycles]: the edges that are cut and the object afterwards, which
    keeps what the caller's set held. *)
Definition BreakCycles (graph : Graph) (out_cut_edges : list Edge) (s : CycleBreaker)
    : outcome (list Edge * CycleBreaker) :=
  s ← foldM (break_at graph) (seq 0 (length graph))
        (mkBreaker (blocked s) (current_vertex s) (cb_stack s) graph (blocked_graph s) [] 0);
  Ret (cut_edges s, cb_set_cut_edges out_cut_edges s).

(** ** Paths *)

Definition walk (R : Index -> Index -> Prop) (l : list Index) : Prop :=
  Forall (fun e => R (fst e) (snd e)) (path_edges l).

Definition cut_in (cut : list Edge) (l : list Index) : Prop := exists e, e ∈ path_edges l /\ e ∈ cut.

(** One of the first two edges is cut. *)
Definition cut_early (cut : list Edge) (l : list Index) : Prop :=
  exists e, e ∈ take 2 (path_edges l) /\ e ∈ cut.

Lemma path_edges_cons x y l : path_edges (x :: y :: l) = (x, y) :: path_edges (y :: l).
Proof. reflexivity. Qed.

Lemma path_edges_app a x b :
  path_edges (a ++ x :: b) = path_edges (a ++ [x]) ++ path_edges (x :: b).
Proof.
  induction a as [|y a IH]; [reflexivity|]. destruct a as [|z a].
  - simpl. by rewrite path_edges_cons.
  - change ((y :: z :: a) ++ x :: b) with (y :: z :: (a ++ x :: b)).
    change ((y :: z :: a) ++ [x]) with (y :: z :: (a ++ [x])).
    rewrite !path_edges_cons. simpl. f_equal. exact IH.
Qed.

Lemma path_edges_length l : length (path_edges l) = pred (length l).
Proof. unfold path_edges. rewrite length_zip_with. destruct l; cbn [length tail]; lia. Qed.

Lemma walk_app R a x b : walk R (a ++ x :: b) <-> walk R (a ++ [x]) /\ walk R (x :: b).
Proof. unfold walk. rewrite path_edges_app. apply Forall_app. Qed.

Lemma walk_cons R x y l : walk R (x :: y :: l) <-> R x y /\ walk R (y :: l).
Proof. unfold walk. by rewrite path_edges_cons, Forall_cons. Qed.

Lemma walk_snoc R a x y : walk R (a ++ [x]) -> R x y -> walk R (a ++ [x; y]).
Proof.
  intros Hw Hxy. apply (walk_app R a x [y]). split; [done|]. apply walk_cons. split; [done|].
  apply Forall_nil_2.
Qed.

Lemma walk_mono (R R' : Index -> Index -> Prop) l :
  (forall x y, x ∈ l -> y ∈ l -> R x y -> R' x y) -> walk R l -> walk R' l.
Proof.
  induction l as [|x l IH]; [intros; apply Forall_nil_2|].
  destruct l as [|y l]; [intros; apply Forall_nil_2|]. intros H.
  rewrite !walk_cons. intros [H1 H2]. split; [apply H; set_solver|]. apply IH; [|done].
  intros a b Ha Hb. apply H; set_solver.
Qed.

Lemma cut_in_mono c c' l : (forall e, e ∈ c -> e ∈ c') -> cut_in c l -> cut_in c' l.
Proof. intros H (e & He & Hc). exists e. auto. Qed.

Lemma cut_early_mono c c' l : (forall e, e ∈ c -> e ∈ c') -> cut_early c l -> cut_early c' l.
Proof. intros H (e & He & Hc). exists e. auto. Qed.

Lemma cut_early_in c l : cut_early c l -> cut_in c l.
Proof.
  intros (e & He & Hc). exists e. split; [|done].
  apply list_elem_of_lookup in He as [i Hi]. apply lookup_take_Some in Hi as [Hi _].
  by apply list_elem_of_lookup_2 in Hi.
Qed.

Lemma cut_in_app c a x b : cut_in c (a ++ [x]) -> cut_in c (a ++ x :: b).
Proof. intros (e & He & Hc). exists e. rewrite path_edges_app. set_solver. Qed.

(** A path of three vertices has its first two edges. *)
Lemma cut_early_prefix c a x y :
  (3 <= length (a ++ [x]))%nat -> cut_early c (a ++ [x; y]) -> cut_early c (a ++ [x]).
Proof.
  intros Hl (e & He & Hc). exists e. split; [|done]. rewrite path_edges_app, take_app_le in He; [done|].
  rewrite path_edges_length. lia.
Qed.

(** ** Sets *)

Lemma elem_index_insert k l j : j ∈ index_insert k l <-> j = k \/ j ∈ l.
Proof.
  induction l as [|i l IH]; simpl; [set_solver|].
  destruct (Nat.ltb_spec k i); [set_solver|]. destruct (Nat.ltb_spec i k); [set_solver|].
  assert (i = k) as -> by lia. set_solver.
Qed.

Lemma elem_edge_set_insert e l d : d ∈ edge_set_insert e l <-> d = e \/ d ∈ l.
Proof.
  induction l as [|a l IH]; simpl; [set_solver|].
  destruct (edge_ltb e a) eqn:H1; [set_solver|]. destruct (edge_ltb a e) eqn:H2; [set_solver|].
  assert (a = e) as ->; [|set_solver].
  unfold edge_ltb in *. destruct a as [a1 a2], e as [e1 e2]. simpl in *.
  apply orb_false_iff in H1 as [A B], H2 as [C D]. apply Nat.ltb_ge in A, C.
  assert (a1 = e1) as -> by lia. rewrite Nat.eqb_refl in B, D. simpl in B, D.
  apply Nat.ltb_ge in B, D. f_equal; lia.
Qed.

(** The elements of a [std::set<Edge>] are in ascending order. *)
Definition edge_set_ok (l : list Edge) : Prop := StronglySorted (fun a b => edge_ltb a b = true) l.

Lemma edge_ltb_spec a b :
  edge_ltb a b = true <-> (fst a < fst b \/ (fst a = fst b /\ snd a < snd b))%nat.
Proof. unfold edge_ltb. rewrite orb_true_iff, andb_true_iff, !Nat.ltb_lt, Nat.eqb_eq. done. Qed.

Lemma edge_set_insert_ok e l : edge_set_ok l -> edge_set_ok (edge_set_insert e l).
Proof.
  induction 1 as [|d l Hl IH Hd]; simpl; [repeat constructor|]. rewrite Forall_forall in Hd.
  destruct (edge_ltb e d) eqn:H1; [|destruct (edge_ltb d e) eqn:H2].
  - constructor; [constructor; [done|by apply Forall_forall]|]. constructor; [done|]. apply Forall_forall.
    intros x Hx. specialize (Hd x Hx). rewrite edge_ltb_spec in *. lia.
  - constructor; [done|]. apply Forall_forall. intros x [->|Hx]%elem_edge_set_insert; auto.
  - constructor; [done|]. by apply Forall_forall.
Qed.

Lemma edge_set_NoDup l : edge_set_ok l -> NoDup l.
Proof.
  induction 1 as [|d l Hl IH Hd]; constructor; [|done]. intros Hin. rewrite Forall_forall in Hd.
  specialize (Hd d Hin). rewrite edge_ltb_spec in Hd. lia.
Qed.

Lemma elem_edge_insert k p m j : j ∈ fst <$> edge_insert k p m <-> j = k \/ j ∈ fst <$> m.
Proof.
  induction m as [|[i q] m IH]; simpl; [set_solver|].
  destruct (Nat.ltb_spec k i); [set_solver|]. destruct (Nat.ltb_spec i k); [set_solver|].
  assert (i = k) as -> by lia. simpl. set_solver.
Qed.

Lemma elem_edge_erase k m j : j ∈ fst <$> edge_erase k m <-> j <> k /\ j ∈ fst <$> m.
Proof.
  unfold edge_erase. rewrite !list_elem_of_fmap. split.
  - intros (e & -> & [H1 H2]%list_elem_of_filter). eauto.
  - intros [H1 (e & -> & H2)]. exists e. by rewrite list_elem_of_filter.
Qed.

Lemma edge_find_elem k m : is_Some (edge_find k m) <-> k ∈ fst <$> m.
Proof.
  induction m as [|[j p] m IH]; simpl; [split; [by intros []|by intros ?%elem_of_nil]|].
  case_decide as H; [split; [set_solver|by eexists]|]. rewrite IH. set_solver.
Qed.

(** ** Unblocking *)

Definition is_blocked (s : CycleBreaker) (u : Index) : Prop := blocked s !! u = Some true.

#[export] Instance is_blocked_dec s u : Decision (is_blocked s u).
Proof. unfold is_blocked. apply _. Defined.

Definition blockers (s : CycleBreaker) (w : Index) : list Index :=
  default [] (successors <$> blocked_graph s !! w).

Definition blocked_set (s : CycleBreaker) : gset Index :=
  list_to_set (filter (is_blocked s) (seq 0 (length (blocked s)))).

(** The fields [Unblock] leaves alone. *)
Record frame (s s' : CycleBreaker) : Prop := {
  fr_vertex : current_vertex s' = current_vertex s;
  fr_stack : cb_stack s' = cb_stack s;
  fr_subgraph : subgraph s' = subgraph s;
  fr_cut : cut_edges s' = cut_edges s;
  fr_blocked : length (blocked s') = length (blocked s);
  fr_graph : length (blocked_graph s') = length (blocked_graph s);
}.

(** [u] was unblocked, and with it all that waited for it. *)
Record unblocked (u : Index) (s s' : CycleBreaker) : Prop := {
  ub_frame : frame s s';
  ub_sub : forall w, is_blocked s' w -> is_blocked s w;
  ub_self : ~ is_blocked s' u;
  ub_same : forall w, is_blocked s' w -> blockers s' w = blockers s w;
  ub_idle : forall w, ~ is_blocked s w -> blockers s' w = blockers s w;
  ub_empty : forall w, is_blocked s w -> ~ is_blocked s' w -> blockers s' w = [];
  ub_closed : forall w x, is_blocked s w -> ~ is_blocked s' w -> x ∈ blockers s w -> ~ is_blocked s' x;
  ub_reach : forall Q : Index -> Prop, Q u ->
    (forall w x, Q w -> is_blocked s w -> x ∈ blockers s w -> Q x) ->
    forall w, is_blocked s w -> ~ is_blocked s' w -> Q w;
}.

(** In the loop of the call for [u], after the vertices [seen]. *)
Record unblocking (u : Index) (s : CycleBreaker) (seen : list Index) (s' : CycleBreaker) : Prop := {
  ug_frame : frame s s';
  ug_sub : forall w, is_blocked s' w -> is_blocked s w;
  ug_self : ~ is_blocked s' u;
  ug_same : forall w, is_blocked s' w -> blockers s' w = blockers s w;
  ug_idle : forall w, ~ is_blocked s w -> blockers s' w = blockers s w;
  ug_empty : forall w, w <> u -> is_blocked s w -> ~ is_blocked s' w -> blockers s' w = [];
  ug_own : forall x, x ∈ blockers s' u <-> x ∈ blockers s u /\ x ∉ seen;
  ug_closed : forall w x, w <> u -> is_blocked s w -> ~ is_blocked s' w -> x ∈ blockers s w -> ~ is_blocked s' x;
  ug_seen : forall x, x ∈ seen -> ~ is_blocked s' x;
  ug_reach : forall Q : Index -> Prop, Q u ->
    (forall w x, Q w -> is_blocked s w -> x ∈ blockers s w -> Q x) ->
    forall w, is_blocked s w -> ~ is_blocked s' w -> Q w;
}.

Lemma is_blocked_lt s u : is_blocked s u -> (u < length (blocked s))%nat.
Proof. apply lookup_lt_Some. Qed.

Lemma elem_blocked_set s u : u ∈ blocked_set s <-> is_blocked s u.
Proof.
  unfold blocked_set. rewrite elem_of_list_to_set, list_elem_of_filter, elem_of_seq.
  split; [by intros [? _]|]. intros H. split; [done|]. apply is_blocked_lt in H. lia.
Qed.

Lemma frame_refl s : frame s s.
Proof. by split. Qed.

Lemma frame_trans a b c : frame a b -> frame b c -> frame a c.
Proof. intros [] []. split; congruence. Qed.

Lemma blockers_erase s u w x :
  blockers (cb_set_blocked_graph (alter (fun v => set_out_edges (edge_erase x (out_edges v)) v) u) s) w
  = if decide (w = u) then filter (fun y => y <> x) (blockers s u) else blockers s w.
Proof.
  unfold blockers. simpl. case_decide as H.
  - subst. rewrite list_lookup_alter_eq. destruct (blocked_graph s !! u) as [v|]; simpl; [|done].
    unfold successors. simpl. unfold edge_erase.
    induction (out_edges v) as [|[j p] m IH]; [done|]. rewrite fmap_cons, !filter_cons. simpl.
    case_decide; [by rewrite fmap_cons, IH|done].
  - by rewrite list_lookup_alter_ne.
Qed.

Lemma unblocking_start u s :
  is_blocked s u -> unblocking u s [] (cb_set_blocked <[u := false]> s).
Proof.
  intros Hu. pose proof (is_blocked_lt _ _ Hu) as Hlt.
  assert (Hb : forall w, is_blocked (cb_set_blocked <[u := false]> s) w <-> w <> u /\ is_blocked s w).
  { intros w. unfold is_blocked. simpl. destruct (decide (w = u)) as [->|Hne].
    - rewrite list_lookup_insert_eq by done. naive_solver.
    - rewrite list_lookup_insert_ne by done. naive_solver. }
  split; try done.
  - split; try done. simpl. by rewrite length_insert.
  - intros w. rewrite Hb. naive_solver.
  - rewrite Hb. naive_solver.
  - intros w Hne H1. rewrite Hb. naive_solver.
  - intros x. split; [|by intros []]. intros H. split; [done|]. apply not_elem_of_nil.
  - intros w x Hne H1. rewrite Hb. naive_solver.
  - intros x H. by apply elem_of_nil in H.
  - intros Q HQ _ w H1. rewrite Hb. intros H2. destruct (decide (w = u)) as [->|]; [done|naive_solver].
Qed.

Lemma unblocked_idle x s : ~ is_blocked s x -> unblocked x s s.
Proof. intros Hx. by split. Qed.

(** One iteration, where the nested call went from the state with the edge
    erased to [s2]. *)
Lemma unblocking_step u s seen x s1 s2 :
  is_blocked s u -> unblocking u s seen s1 -> x ∈ blockers s u ->
  unblocked x (cb_set_blocked_graph
                 (alter (fun v => set_out_edges (edge_erase x (out_edges v)) v) u) s1) s2 ->
  unblocking u s (seen ++ [x]) s2.
Proof.
  intros Hu [G1 G2 G3 G4 G5 G6 G7 G8 G9 G10] Hx.
  set (s1' := cb_set_blocked_graph _ s1). intros [U1 U2 U3 U4 U5 U6 U7 U8].
  assert (Hw : forall w, w <> u -> blockers s1' w = blockers s1 w)
    by (intros w Hne; unfold s1'; by rewrite blockers_erase, decide_False).
  assert (Hown : forall y, y ∈ blockers s1' u <-> y <> x /\ y ∈ blockers s1 u)
    by (intros y; unfold s1'; by rewrite blockers_erase, decide_True, list_elem_of_filter by done).
  change (is_blocked s1') with (is_blocked s1) in *.
  assert (Hne : forall w, is_blocked s1 w -> w <> u) by (intros w ? ->; done).
  split.
  - apply (frame_trans _ s1'); [|done]. apply (frame_trans _ s1); [done|].
    split; try done. simpl. by rewrite length_alter.
  - auto.
  - auto.
  - intros w Hb. rewrite U4, Hw by auto. auto.
  - intros w Hb. rewrite U5, Hw by (auto; by intros ->). auto.
  - intros w Hwu Hb Hb2. destruct (decide (is_blocked s1 w)) as [H|H]; [auto|].
    rewrite U5, Hw by auto. auto.
  - intros y. rewrite U5, Hown, G7 by auto. rewrite not_elem_of_app, not_elem_of_cons.
    pose proof (not_elem_of_nil y). naive_solver.
  - intros w y Hwu Hb Hb2 Hy.
    destruct (decide (is_blocked s1 w)) as [H|H]; [|intros Hy2; by apply (G8 w y), U2].
    apply (U7 w); [done|done|]. by rewrite Hw, G4 by auto.
  - intros y [Hy| ->%list_elem_of_singleton]%elem_of_app; [|done]. intros Hy'. by apply (G9 y), U2.
  - intros Q HQ HQc w Hb Hb2. destruct (decide (is_blocked s1 w)) as [H|H]; [|by apply (G10 Q)].
    apply (U8 Q); [by apply (HQc u)| |done|done].
    intros z y Hz Hbz Hy. rewrite Hw, G4 in Hy by auto. apply (HQc z y); auto.
Qed.

Lemma unblocking_end u s s' :
  unblocking u s (blockers s u) s' -> unblocked u s s'.
Proof.
  intros [G1 G2 G3 G4 G5 G6 G7 G8 G9 G10].
  assert (Hu : blockers s' u = []).
  { destruct (blockers s' u) as [|x l]; [done|]. destruct (proj1 (G7 x)); [by left|done]. }
  split; try done.
  - intros w H1 H2. destruct (decide (w = u)) as [->|]; [done|auto].
  - intros w x H1 H2 Hx. destruct (decide (w = u)) as [->|]; [auto|eauto].
Qed.

Lemma unblocking_shrinks u s seen s' :
  is_blocked s u -> unblocking u s seen s' -> forall w x, x ∈ blockers s' w -> x ∈ blockers s w.
Proof.
  intros Hu [G1 G2 G3 G4 G5 G6 G7 G8 G9 G10] w x Hx.
  destruct (decide (w = u)) as [->|Hne]; [by apply G7 in Hx as [? _]|].
  destruct (decide (is_blocked s' w)) as [H|H]; [by rewrite <- G4|].
  destruct (decide (is_blocked s w)) as [H'|H']; [|by rewrite <- G5].
  rewrite G6 in Hx by done. by apply elem_of_nil in Hx.
Qed.

Lemma unblock_edge_spec visit u s seen x s1 :
  is_blocked s u -> unblocking u s seen s1 -> x ∈ blockers s u ->
  length (blocked_graph s) = length (blocked s) ->
  (forall w x, x ∈ blockers s w -> (x < length (blocked s))%nat) ->
  (forall s2, is_blocked s2 x -> length (blocked_graph s2) = length (blocked s2) ->
     (forall w x, x ∈ blockers s2 w -> (x < length (blocked s2))%nat) ->
     (size (blocked_set s2) < size (blocked_set s))%nat ->
     exists s3, visit x s2 = Ret s3 /\ unblocked x s2 s3) ->
  exists s2, unblock_edge visit u s1 x = Ret s2 /\ unblocking u s (seen ++ [x]) s2.
Proof.
  intros Hu Hs1 Hx Hlen Hr IH. unfold unblock_edge. set (s1' := cb_set_blocked_graph _ s1). cbv zeta.
  destruct (ug_frame _ _ _ _ Hs1) as [_ _ _ _ Fb Fg].
  assert (Hxlt : (x < length (blocked s1))%nat) by (rewrite Fb; eauto).
  change (blocked s1') with (blocked s1).
  destruct (lookup_lt_is_Some_2 _ _ Hxlt) as [b Hb]. rewrite Hb. cbn [of_option]. rewrite outcome_bind_ret.
  destruct b.
  - destruct (IH s1') as (s2 & -> & Hs2); [done| | | |].
    + simpl. by rewrite length_alter, Fg, Fb.
    + intros w y Hy. simpl. rewrite Fb.
      apply (Hr w), (unblocking_shrinks u s seen s1); [done|done|]. unfold s1' in Hy.
      rewrite blockers_erase in Hy. case_decide; [|done]. subst. by apply list_elem_of_filter in Hy as [_ Hy].
    + apply subset_size. split.
      * intros w. rewrite !elem_blocked_set. apply (ug_sub _ _ _ _ Hs1).
      * intros Hsub. apply (ug_self _ _ _ _ Hs1). change (is_blocked s1' u).
        by apply elem_blocked_set, Hsub, elem_blocked_set.
    + exists s2. split; [done|]. by apply (unblocking_step u s seen x s1 s2).
  - exists s1'. split; [done|]. apply (unblocking_step u s seen x s1 s1'); try done.
    apply unblocked_idle. unfold is_blocked. simpl. by rewrite Hb.
Qed.

(** Every call unblocks a vertex, so as much fuel as there are blocked ones
    is enough. *)
Lemma Unblock_spec fuel u s :
  is_blocked s u -> length (blocked_graph s) = length (blocked s) ->
  (forall w x, x ∈ blockers s w -> (x < length (blocked s))%nat) ->
  (size (blocked_set s) <= fuel)%nat ->
  exists s', Unblock fuel u s = Ret s' /\ unblocked u s s'.
Proof.
  revert u s. induction fuel as [|fuel IH]; intros u s Hu Hlen Hr Hsize.
  { assert (Hin : u ∈ blocked_set s) by (by apply elem_blocked_set).
    apply Nat.le_0_r, size_empty_iff in Hsize. set_solver. }
  simpl. assert (Hu' := Hu). unfold is_blocked in Hu'. rewrite Hu'. cbn [of_option]. rewrite outcome_bind_ret.
  assert (Hlt : (u < length (blocked_graph s))%nat) by (rewrite Hlen; by apply is_blocked_lt).
  destruct (lookup_lt_is_Some_2 _ _ Hlt) as [v Hv]. rewrite Hv. cbn [of_option]. rewrite outcome_bind_ret.
  assert (Hsucc : successors v = blockers s u) by (unfold blockers; by rewrite Hv).
  rewrite Hsucc.
  destruct (foldM_inv (unblock_edge (Unblock fuel) u) (unblocking u s) (blockers s u)
              (cb_set_blocked <[u := false]> s)) as (s' & -> & Hs').
  - by apply unblocking_start.
  - intros seen x todo s1 Hl Hs1. apply unblock_edge_spec; try done; [rewrite Hl; set_solver|].
    intros s2 H1 H2 H3 H4. apply IH; try done. lia.
  - exists s'. split; [done|]. by apply unblocking_end.
Qed.

(** ** Circuits *)

Lemma EdgeWeight_total g e : edge g (fst e) (snd e) -> exists w, EdgeWeight g e = Ret w.
Proof.
  intros (x & Hx & Hv). unfold EdgeWeight. rewrite Hx. cbn [of_option]. rewrite outcome_bind_ret.
  apply edge_find_elem in Hv as [p Hp]. rewrite Hp. cbn [of_option]. rewrite outcome_bind_ret. eauto.
Qed.

Lemma circuit_scan_spec g cut edges min_edge weight k :
  Forall (fun e => edge g (fst e) (snd e)) edges -> (k < 2)%nat ->
  exists r, circuit_scan g cut edges min_edge weight k = Ret r
    /\ match r with
       | None => exists e, e ∈ take (2 - k) edges /\ e ∈ cut
       | Some e => e = min_edge \/ e ∈ take (2 - k) edges
       end.
Proof.
  intros He. revert min_edge weight k. induction He as [|e edges He Hes IH]; intros m weight k Hk; simpl.
  { exists (Some m). split; [done|by left]. }
  replace (2 - k)%nat with (S (1 - k)) by lia. rewrite firstn_cons.
  case_decide as Hc; [exists None; split; [done|]; exists e; set_solver|].
  destruct (EdgeWeight_total g e He) as [w ->]. rewrite outcome_bind_ret. cbv zeta.
  set (m' := if w <? weight then e else m).
  assert (Hm : m' = m \/ m' = e) by (unfold m'; case_match; auto).
  destruct (Nat.eqb_spec k 1) as [->|Hk1].
  - exists (Some m'). split; [done|]. destruct Hm; set_solver.
  - destruct (IH m' (if w <? weight then w else weight) (S k)) as (r & Hr & Hpost); [lia|].
    exists r. split; [by rewrite Hr|]. replace (1 - k)%nat with (2 - S k)%nat by lia.
    destruct r; [destruct Hm; set_solver|]. destruct Hpost as (d & Hd & Hd'). exists d. set_solver.
Qed.

Lemma HandleCircuit_spec s :
  cb_stack s <> [] -> walk (edge (subgraph s)) (cb_stack s ++ [current_vertex s]) ->
  exists cut, HandleCircuit s = Ret (cb_set_cut_edges cut s)
    /\ (forall e, e ∈ cut_edges s -> e ∈ cut)
    /\ (forall e, e ∈ cut -> e ∈ cut_edges s \/ e ∈ path_edges (cb_stack s ++ [current_vertex s]))
    /\ (edge_set_ok (cut_edges s) -> edge_set_ok cut)
    /\ cut_early cut (cb_stack s ++ [current_vertex s]).
Proof.
  intros Hne Hw. unfold HandleCircuit, walk, cut_early in *.
  pose proof (path_edges_length (cb_stack s ++ [current_vertex s])) as Hlen.
  rewrite length_app in Hlen. simpl in Hlen.
  destruct (path_edges (cb_stack s ++ [current_vertex s])) as [|first edges].
  { destruct (cb_stack s); [done|simpl in Hlen; lia]. }
  destruct (circuit_scan_spec (subgraph s) (cut_edges s) (first :: edges) first (2 ^ 64 - 1) 0)
    as (r & Hscan & Hr); [done|lia|]. rewrite Hscan. rewrite outcome_bind_ret.
  destruct r as [e|].
  - eexists. split; [done|]. setoid_rewrite elem_edge_set_insert.
    assert (He : e ∈ take 2 (first :: edges)) by (destruct Hr as [->|Hr]; [by left|done]).
    split_and!; [by right| |apply edge_set_insert_ok|by exists e; auto].
    intros d [->|Hd]; [right|by left]. clear -He. rewrite <- (take_drop 2 (first :: edges)).
    apply elem_of_app. by left.
  - exists (cut_edges s). destruct s; simpl in *. split_and!; auto.
Qed.

Section Johnson.
Context (H : Graph) (s0 : Index) (K : Index -> Prop) (R : Index -> Index -> Prop).

Definition sub_edge (u w : Index) : Prop := exists x, H !! u = Some x /\ w ∈ subgraph_edges x.

(** The fields that are the same during one search. *)
Record static (s : CycleBreaker) : Prop := {
  sc_subgraph : subgraph s = H;
  sc_vertex : current_vertex s = s0;
  sc_blocked : length (blocked s) = length H;
  sc_graph : length (blocked_graph s) = length H;
  sc_cut : forall e, e ∈ cut_edges s -> R (fst e) (snd e);
  sc_set : edge_set_ok (cut_edges s);
}.

(** The invariant of the search with stack [P].  A blocked vertex that is not
    on the stack waits for all its neighbours.  [T] is the time a vertex was
    blocked last: who waits for a vertex that was blocked after one of the
    stack was blocked after that one, too. *)
Record jinv (P : list Index) (T : Index -> nat) (clock : nat) (s : CycleBreaker) : Prop := {
  j_static : static s;
  j_stack : cb_stack s = P;
  j_on : forall p, p ∈ P -> is_blocked s p;
  j_off : forall u w, is_blocked s u -> u ∉ P -> sub_edge u w ->
            is_blocked s w /\ u ∈ blockers s w /\ w <> s0;
  j_empty : forall w, ~ is_blocked s w -> blockers s w = [];
  j_range : forall w x, x ∈ blockers s w -> (x < length H)%nat;
  j_clock : forall w, is_blocked s w -> (T w < clock)%nat;
  j_sorted : StronglySorted (fun a b => (T a < T b)%nat) P;
  j_old : forall w x p, is_blocked s w -> x ∈ blockers s w -> p ∈ P -> (T p <= T w)%nat ->
            (T p < T x)%nat;
}.

(** Every elementary circuit that begins with [P] is cut. *)
Definition covered (cut : list Edge) (P : list Index) : Prop :=
  forall Q, NoDup (P ++ Q) -> walk sub_edge (P ++ Q ++ [s0]) -> cut_in cut (P ++ Q ++ [s0]).

Lemma covered_mono c c' P : (forall e, e ∈ c -> e ∈ c') -> covered c P -> covered c' P.
Proof. intros Hc Hcov Q H1 H2. by eapply cut_in_mono, Hcov. Qed.

(** A blocked vertex has no way back that avoids the stack. *)
Lemma stuck P T clock s u Q :
  jinv P T clock s -> is_blocked s u -> u ∉ P -> (forall x, x ∈ Q -> x ∉ P) ->
  walk sub_edge (u :: Q ++ [s0]) -> False.
Proof.
  intros J. revert u. induction Q as [|x Q IH]; intros u Hb Hu HQ Hw; simpl in Hw;
    apply walk_cons in Hw as [He Hw]; destruct (j_off _ _ _ _ J u _ Hb Hu He) as (Hb' & _ & Hne); [done|].
  apply (IH x Hb'); [apply HQ; by left| |done]. intros y Hy. apply HQ. by right.
Qed.

Lemma sorted_snoc_lt (T : Index -> nat) P v p :
  StronglySorted (fun a b => (T a < T b)%nat) (P ++ [v]) -> p ∈ P -> (T p < T v)%nat.
Proof.
  induction P as [|q P IH]; simpl; intros Hs Hp; [by apply elem_of_nil in Hp|].
  apply StronglySorted_inv in Hs as [Hs Hq]. rewrite Forall_forall in Hq.
  apply elem_of_cons in Hp as [->|Hp]; [apply Hq; set_solver|auto].
Qed.

Lemma sorted_prefix (T : Index -> nat) P v :
  StronglySorted (fun a b => (T a < T b)%nat) (P ++ [v]) -> StronglySorted (fun a b => (T a < T b)%nat) P.
Proof.
  induction P as [|q P IH]; simpl; intros Hs; [constructor|].
  apply StronglySorted_inv in Hs as [Hs Hq]. constructor; [auto|]. by apply Forall_app in Hq as [Hq _].
Qed.

Lemma sorted_snoc (T : Index -> nat) P v :
  StronglySorted (fun a b => (T a < T b)%nat) P -> (forall p, p ∈ P -> (T p < T v)%nat) ->
  StronglySorted (fun a b => (T a < T b)%nat) (P ++ [v]).
Proof.
  induction 1 as [|q P Hs IH Hq]; intros Hv; simpl; [repeat constructor|].
  constructor; [apply IH; set_solver|]. apply Forall_app. split; [done|].
  apply Forall_singleton, Hv. by left.
Qed.

Lemma times_NoDup (T : Index -> nat) P : StronglySorted (fun a b => (T a < T b)%nat) P -> NoDup P.
Proof.
  induction 1 as [|q P Hs IH Hq]; constructor; [|done]. intros Hin. rewrite Forall_forall in Hq.
  specialize (Hq q Hin). lia.
Qed.

(** The statements of [Circuit] before the loop. *)
Lemma push_jinv P T clock s v :
  jinv P T clock s -> ~ is_blocked s v -> (v < length H)%nat ->
  jinv (P ++ [v]) (fun x => if decide (x = v) then clock else T x) (S clock)
    (cb_set_blocked <[v := true]> (cb_set_stack (P ++ [v]) s)).
Proof.
  intros [[S1 S2 S3 S4 S5 S6] J2 J3 J4 J5 J6 J7 J8 J9] Hv Hlt.
  set (s' := cb_set_blocked _ _).
  assert (Hb : forall w, is_blocked s' w <-> w = v \/ is_blocked s w).
  { intros w. unfold is_blocked, s'. simpl. destruct (decide (w = v)) as [->|Hne].
    - rewrite list_lookup_insert_eq by lia. naive_solver.
    - rewrite list_lookup_insert_ne by done. naive_solver. }
  assert (Hvp : v ∉ P) by (intros Hin; auto).
  assert (HvP : forall p, p ∈ P -> p <> v) by (intros p Hp ->; done).
  split; try done.
  - split; try done. simpl. by rewrite length_insert.
  - intros p [Hp| ->%list_elem_of_singleton]%elem_of_app; apply Hb; auto.
  - intros u w [->|Hu]%Hb [Hp Huv]%not_elem_of_app He; [set_solver|].
    destruct (J4 u w Hu Hp He) as (H1 & H2 & H3). split_and!; [by apply Hb; right|done|done].
  - intros w Hw. apply J5. intros Hw'. apply Hw, Hb. by right.
  - intros w [->|Hw]%Hb; case_decide; try lia. specialize (J7 w Hw). lia.
  - apply sorted_snoc.
    + clear -J8 HvP. induction J8 as [|q P Hs IH Hq]; constructor.
      * apply IH. intros p Hp. apply HvP. by right.
      * rewrite Forall_forall in *. intros x Hx. rewrite !decide_False by (apply HvP; set_solver). auto.
    + intros p Hp. rewrite decide_False, decide_True by auto. auto.
  - intros w x p Hw Hx Hp Hle. change (x ∈ blockers s w) in Hx.
    destruct (decide (is_blocked s w)) as [Hw'|Hw']; [|rewrite J5 in Hx by done; by apply elem_of_nil in Hx].
    assert (w <> v) by (intros ->; done). rewrite (decide_False (P := w = v)) in Hle by done.
    pose proof (J7 w Hw'). apply elem_of_app in Hp as [Hp| ->%list_elem_of_singleton].
    + rewrite decide_False in Hle |- * by auto. specialize (J9 w x p Hw' Hx Hp Hle).
      case_decide; [|done]. auto.
    + rewrite decide_True in Hle by done. lia.
Qed.

(** The end of [Circuit] when a circuit was found: no vertex of the stack is
    unblocked but the last. *)
Lemma unblocked_jinv P T clock s v s' :
  jinv (P ++ [v]) T clock s -> unblocked v s s' -> jinv P T clock (cb_set_stack P s').
Proof.
  intros [[S1 S2 S3 S4 S5 S6] J2 J3 J4 J5 J6 J7 J8 J9] [[F1 F2 F3 F4 F5 F6] U2 U3 U4 U5 U6 U7 U8].
  assert (Hout : forall w, is_blocked s w -> ~ is_blocked s' w -> w = v \/ (T v < T w)%nat).
  { apply U8; [by left|]. intros w x Hw Hb Hx. right. apply (J9 w x v Hb Hx); [set_solver|].
    destruct Hw as [->|Hw]; lia. }
  assert (Hshrink : forall w x, x ∈ blockers s' w -> x ∈ blockers s w).
  { intros w x. destruct (decide (is_blocked s' w)) as [H1|H1]; [by rewrite U4|].
    destruct (decide (is_blocked s w)) as [H2|H2]; [|by rewrite U5].
    rewrite U6 by done. by intros ?%elem_of_nil. }
  split; try done.
  - split; simpl; congruence || (rewrite F4; done).
  - intros p Hp. change (is_blocked s' p). destruct (decide (is_blocked s' p)) as [|Hn]; [done|].
    pose proof (sorted_snoc_lt T P v p J8 Hp). destruct (Hout p) as [->|]; [by apply J3; set_solver|done|lia|lia].
  - intros u w Hu Hp He. change (is_blocked s' u) in Hu. change (is_blocked s' w /\ u ∈ blockers s' w /\ w <> s0).
    destruct (J4 u w) as (H1 & H2 & H3); [auto| |done|].
    { intros [?| ->%list_elem_of_singleton]%elem_of_app; done. }
    destruct (decide (is_blocked s' w)) as [Hw|Hw]; [by rewrite U4|]. by destruct (U7 w u).
  - intros w Hw. change (blockers s' w = []). change (~ is_blocked s' w) in Hw.
    destruct (decide (is_blocked s w)) as [H2|H2]; [auto|]. rewrite U5 by done. auto.
  - intros w x Hx. apply (J6 w), Hshrink, Hx.
  - intros w Hw. apply J7, U2, Hw.
  - by apply sorted_prefix in J8.
  - intros w x p Hw Hx Hp. apply (J9 w x p); [apply U2, Hw|apply Hshrink, Hx|set_solver].
Qed.

(** Adding [v] to those that wait for the vertices of a list. *)
Record blocking (v : Index) (s : CycleBreaker) (seen : list Index) (s' : CycleBreaker) : Prop := {
  bl_frame : frame s s';
  bl_blocked : blocked s' = blocked s;
  bl_blockers : forall w x, x ∈ blockers s' w <-> x ∈ blockers s w \/ (w ∈ seen /\ x = v);
}.

Lemma block_edge_spec v s edges :
  (forall w, w ∈ edges -> (w < length (blocked_graph s))%nat) ->
  exists s', foldM (block_edge v) edges s = Ret s' /\ blocking v s edges s'.
Proof.
  intros Hlt. apply foldM_inv.
  { split; [apply frame_refl|done|]. intros w x. pose proof (not_elem_of_nil w). naive_solver. }
  intros seen w todo s1 Hl [F1 F2 F3]. unfold block_edge.
  assert (Hw : (w < length (blocked_graph s1))%nat)
    by (rewrite (fr_graph _ _ F1); apply Hlt; rewrite Hl; set_solver).
  destruct (lookup_lt_is_Some_2 _ _ Hw) as [y Hy]. rewrite Hy. cbn [of_option]. rewrite outcome_bind_ret.
  assert (Hbw : blockers s1 w = successors y) by (unfold blockers; by rewrite Hy).
  eexists. split; [done|]. destruct (edge_find v (out_edges y)) as [p|] eqn:Hf.
  - assert (v ∈ blockers s1 w) by (rewrite Hbw; apply edge_find_elem; by eexists).
    split; [done|done|]. intros u x. split.
    + intros [Hx|[Hu ->]]%F3; set_solver.
    + intros [Hx|[[Hu| ->%list_elem_of_singleton]%elem_of_app ->]]; [apply F3; auto..|done].
  - split.
    + apply (frame_trans _ s1); [done|]. split; try done. simpl. by rewrite length_alter.
    + done.
    + intros u x. destruct (decide (u = w)) as [->|Hne].
      * unfold blockers at 1. simpl. rewrite list_lookup_alter_eq, Hy. simpl.
        unfold successors. simpl. rewrite elem_edge_insert. fold (successors y). rewrite <- Hbw, F3.
        set_solver.
      * unfold blockers at 1. simpl. rewrite list_lookup_alter_ne by done. fold (blockers s1 u).
        rewrite F3. set_solver.
Qed.

(** The end of [Circuit] when none was found: [v] waits for its neighbours. *)
Lemma blocking_jinv P T clock s v edges s' :
  jinv (P ++ [v]) T clock s -> blocking v s edges s' -> (v < length H)%nat ->
  (forall w, w ∈ edges <-> sub_edge v w) ->
  (forall w, sub_edge v w -> is_blocked s w /\ w <> s0) ->
  jinv P T clock (cb_set_stack P s').
Proof.
  intros [[S1 S2 S3 S4 S5 S6] J2 J3 J4 J5 J6 J7 J8 J9] [[F1 F2 F3 F4 F5 F6] B2 B3] Hlt He Hw.
  assert (Hb : forall w, is_blocked (cb_set_stack P s') w <-> is_blocked s w)
    by (intros w; unfold is_blocked; simpl; by rewrite B2).
  change (blockers s') with (blockers (cb_set_stack P s')) in B3.
  split; try done.
  - split; simpl; congruence || (rewrite F4; done).
  - intros p Hp. apply Hb, J3. set_solver.
  - intros u w Hu%Hb Hp Huw. rewrite Hb, B3. destruct (decide (u = v)) as [->|Hne].
    + destruct (Hw w Huw). rewrite He. split_and!; auto.
    + destruct (J4 u w) as (H1 & H2 & H3); [done| |done|by auto].
      intros [?| ?%list_elem_of_singleton]%elem_of_app; done.
  - intros w Hn. rewrite Hb in Hn. destruct (blockers _ w) as [|x l] eqn:E; [done|].
    destruct (proj1 (B3 w x)) as [Hx|[Hx ->]]; [rewrite E; by left| |].
    + rewrite J5 in Hx by done. by apply elem_of_nil in Hx.
    + apply He, Hw in Hx as [? _]. done.
  - intros w x [Hx|[Hx ->]]%B3; [by apply (J6 w)|done].
  - intros w Hn%Hb. auto.
  - by apply sorted_prefix in J8.
  - intros w x p Hn%Hb [Hx|[Hx ->]]%B3 Hp Hle.
    + apply (J9 w x p); try done. set_solver.
    + by apply (sorted_snoc_lt T P v p).
Qed.

(** What a call for [v] with stack [P] does. *)
Record called_circuit (P : list Index) (v : Index) (s : CycleBreaker) (r : bool * CycleBreaker) : Prop := {
  cc_inv : exists T clock, jinv P T clock (snd r);
  cc_cut : forall e, e ∈ cut_edges s -> e ∈ cut_edges (snd r);
  cc_covered : covered (cut_edges (snd r)) (P ++ [v]);
  cc_found : fst r = true -> (3 <= length (P ++ [v]))%nat -> cut_early (cut_edges (snd r)) (P ++ [v]);
  cc_none : fst r = false ->
    (forall u, is_blocked s u -> is_blocked (snd r) u) /\ is_blocked (snd r) v;
}.

(** In its loop, after the neighbours [seen]; [s] is the state before it. *)
Record in_loop (P : list Index) (v : Index) (s : CycleBreaker) (seen : list Index)
    (r : bool * CycleBreaker) : Prop := {
  il_inv : exists T clock, jinv (P ++ [v]) T clock (snd r);
  il_cut : forall e, e ∈ cut_edges s -> e ∈ cut_edges (snd r);
  il_self : s0 ∈ seen -> cut_in (cut_edges (snd r)) (P ++ [v; s0]);
  il_covered : forall w, w ∈ seen -> w <> s0 -> covered (cut_edges (snd r)) (P ++ [v; w]);
  il_found : fst r = true -> (3 <= length (P ++ [v]))%nat -> cut_early (cut_edges (snd r)) (P ++ [v]);
  il_none : fst r = false ->
    (forall u, is_blocked s u -> is_blocked (snd r) u)
    /\ forall w, w ∈ seen -> is_blocked (snd r) w /\ w <> s0;
}.

(** After the loop. *)
Record after_loop (P : list Index) (v : Index) (s : CycleBreaker) (r : bool * CycleBreaker) : Prop := {
  al_inv : exists T clock, jinv (P ++ [v]) T clock (snd r);
  al_cut : forall e, e ∈ cut_edges s -> e ∈ cut_edges (snd r);
  al_covered : covered (cut_edges (snd r)) (P ++ [v]);
  al_found : fst r = true -> (3 <= length (P ++ [v]))%nat -> cut_early (cut_edges (snd r)) (P ++ [v]);
  al_none : fst r = false ->
    (forall u, is_blocked s u -> is_blocked (snd r) u)
    /\ forall w, sub_edge v w -> is_blocked (snd r) w /\ w <> s0;
}.

Lemma StackContainsCutEdge_spec s :
  StackContainsCutEdge s = true -> cut_in (cut_edges s) (cb_stack s).
Proof.
  unfold StackContainsCutEdge. intros (e & H1 & H2)%existsb_exists. exists e.
  split; [by apply list_elem_of_In|]. by apply bool_decide_eq_true in H2.
Qed.

(** A path with a cut edge needs no further search. *)
Lemma cut_covered cut P v : cut_in cut (P ++ [v]) -> covered cut (P ++ [v]).
Proof. intros Hc Q _ _. rewrite <- !app_assoc. by apply cut_in_app. Qed.

(** All neighbours are seen: every continuation of the path is cut. *)
Lemma in_loop_end P v s seen r :
  s0 ∈ P ++ [v] -> (forall w, w ∈ seen <-> sub_edge v w) ->
  in_loop P v s seen r -> after_loop P v s r.
Proof.
  intros Hs0 Hseen [I1 I2 I3 I4 I5 I6]. split; try done.
  - intros Q Hnd Hw. rewrite <- !app_assoc in *. simpl in *.
    pose proof Hw as [_ Hw2]%walk_app.
    destruct Q as [|w Q]; simpl in *; apply walk_cons in Hw2 as [He _].
    + by apply I3, Hseen.
    + specialize (I4 w (proj2 (Hseen w) He)).
      replace (P ++ v :: w :: Q ++ [s0]) with ((P ++ [v; w]) ++ Q ++ [s0]) in * by (by rewrite <- app_assoc).
      apply I4; [|by rewrite <- app_assoc|done].
      intros ->. replace (P ++ v :: s0 :: Q) with ((P ++ [v]) ++ s0 :: Q) in Hnd by (by rewrite <- app_assoc).
      apply NoDup_app in Hnd as (_ & Hd & _). apply (Hd s0); [done|by left].
  - intros Hf. destruct (I6 Hf) as [H1 H2]. split; [done|]. intros w He. by apply H2, Hseen.
Qed.

Context (HK : forall u w, K u -> sub_edge u w -> K w /\ edge H u w).
Context (HKn : forall u, K u -> (u < length H)%nat).
Context (HR : forall u w, edge H u w -> R u w).

Lemma walk_edges l : (forall p, p ∈ l -> K p) -> walk sub_edge l -> walk (edge H) l.
Proof. intros Hl. apply walk_mono. intros x y Hx _ He. by apply (HK x y (Hl x Hx)). Qed.

(** A circuit is closed. *)
Lemma handle_step P v s seen r :
  (forall p, p ∈ P ++ [v] -> K p) -> walk sub_edge (P ++ [v]) -> sub_edge v s0 ->
  in_loop P v s seen r ->
  exists s', HandleCircuit (snd r) = Ret s' /\ in_loop P v s (seen ++ [s0]) (true, s').
Proof.
  intros HP Hw He [(T & clock & J) I2 I3 I4 I5 I6]. destruct r as [found s1]; simpl in *.
  pose proof J as [[S1 S2 S3 S4 S5 S6] J2 J3 J4 J5 J6 J7 J8 J9].
  assert (Hwalk : walk (edge H) ((P ++ [v]) ++ [s0])).
  { rewrite <- app_assoc. apply walk_snoc; [by apply walk_edges|]. apply (HK v s0); [apply HP; set_solver|done]. }
  destruct (HandleCircuit_spec s1) as (cut & -> & Hmono & Hnew & Hset & Hearly).
  { rewrite J2. by destruct P. }
  { by rewrite S1, S2, J2. }
  rewrite S2, J2 in Hnew, Hearly. eexists. split; [done|]. split; simpl.
  - exists T, clock. split; try done. split; try done; simpl; [|auto]. intros e [He'|He']%Hnew; [auto|].
    apply HR. unfold walk in Hwalk. rewrite Forall_forall in Hwalk. by apply Hwalk.
  - auto.
  - intros _. apply cut_early_in in Hearly. by rewrite <- app_assoc in Hearly.
  - intros w [Hin| ->%list_elem_of_singleton]%elem_of_app Hne; [|done].
    apply (covered_mono (cut_edges s1)); auto.
  - intros _ Hlen. apply (cut_early_prefix cut P v s0); [done|]. by rewrite <- app_assoc in Hearly.
  - done.
Qed.

(** A blocked neighbour is passed over. *)
Lemma skip_step P v w s seen r :
  in_loop P v s seen r -> w <> s0 -> is_blocked (snd r) w ->
  in_loop P v s (seen ++ [w]) r.
Proof.
  intros [(T & clock & J) I2 I3 I4 I5 I6] Hne Hb. split; eauto.
  - intros Hin. apply I3. apply elem_of_app in Hin as [Hin|Hin%list_elem_of_singleton]; congruence.
  - intros x [Hx| ->%list_elem_of_singleton]%elem_of_app Hx0; [auto|].
    intros Q Hnd Hw. exfalso.
    replace (P ++ [v; w]) with ((P ++ [v]) ++ [w]) in * by (by rewrite <- app_assoc).
    rewrite <- app_assoc in Hnd, Hw. simpl in Hnd, Hw.
    apply walk_app in Hw as [_ Hw]. apply NoDup_app in Hnd as (_ & Hd & _).
    apply (stuck (P ++ [v]) T clock (snd r) w Q J Hb); [|intros x Hx Hx'|done].
    + intros Hin. apply (Hd w Hin). by left.
    + apply (Hd x Hx'). by right.
  - intros Hf. destruct (I6 Hf) as [H1 H2]. split; [done|].
    intros x [Hx| ->%list_elem_of_singleton]%elem_of_app; auto.
Qed.

(** A neighbour is searched, and perhaps the loop is left. *)
Lemma call_step P v w s seen r r' (stop : bool) :
  in_loop P v s seen r -> w <> s0 -> called_circuit (P ++ [v]) w (snd r) r' ->
  (stop = true -> fst r' = true /\ (3 < length (P ++ [v]) \/ StackContainsCutEdge (snd r') = true)%nat) ->
  let r2 := (fst r || fst r', snd r') in
  if stop then after_loop P v s r2 else in_loop P v s (seen ++ [w]) r2.
Proof.
  intros [(T & clock & J) I2 I3 I4 I5 I6] Hne [(T' & clock' & J') C2 C3 C4 C5] Hstop r2.
  rewrite <- app_assoc in C3, C4. simpl in C3, C4.
  assert (Hfound : fst r2 = true -> (3 <= length (P ++ [v]))%nat -> cut_early (cut_edges (snd r2)) (P ++ [v])).
  { unfold r2. simpl. intros [Hf|Hf]%orb_true_iff Hlen.
    - apply (cut_early_mono (cut_edges (snd r))); auto.
    - apply (cut_early_prefix _ P v w); [done|]. apply C4; [done|].
      rewrite !length_app in *. simpl in *. lia. }
  destruct stop.
  - destruct (Hstop eq_refl) as [Hf Hwhy]. split; simpl; [eauto|auto| |done|].
    + apply cut_covered. destruct Hwhy as [Hlen|Hcut].
      * apply cut_early_in, Hfound; [|lia]. unfold r2. simpl. by rewrite Hf, orb_true_r.
      * apply StackContainsCutEdge_spec in Hcut. by rewrite (j_stack _ _ _ _ J') in Hcut.
    + rewrite Hf, orb_true_r. done.
  - split; simpl; [eauto|auto| | |done|].
    + intros [Hin|Hin%list_elem_of_singleton]%elem_of_app; [|congruence].
      apply (cut_in_mono (cut_edges (snd r))); auto.
    + intros x [Hx| ->%list_elem_of_singleton]%elem_of_app Hx0; [|done].
      apply (covered_mono (cut_edges (snd r))); auto.
    + intros [Hf Hf']%orb_false_iff. destruct (I6 Hf) as [H1 H2], (C5 Hf') as [H3 H4].
      split; [auto|]. intros x [Hx| ->%list_elem_of_singleton]%elem_of_app; [|done].
      destruct (H2 x Hx). auto.
Qed.

Lemma circuit_edge_spec visit P v w s seen r :
  (forall p, p ∈ P ++ [v] -> K p) -> walk sub_edge (P ++ [v]) -> sub_edge v w ->
  in_loop P v s seen r ->
  (forall T clock s1, jinv (P ++ [v]) T clock s1 -> ~ is_blocked s1 w -> w <> s0 ->
     exists r, visit w s1 = Ret r /\ called_circuit (P ++ [v]) w s1 r) ->
  exists b r', circuit_edge visit (length P) r w = Ret (b, r')
    /\ if (b : bool) then after_loop P v s r' else in_loop P v s (seen ++ [w]) r'.
Proof using HK HKn HR.
  intros HP Hw He Hin Hvisit. pose proof (il_inv _ _ _ _ _ Hin) as (T & clock & J).
  destruct r as [found s1] eqn:Er. simpl in J. unfold circuit_edge.
  rewrite (sc_vertex _ (j_static _ _ _ _ J)). case_decide as Hs.
  { subst w. destruct (handle_step P v s seen r) as (s' & Hh & Hin'); try done; [by rewrite Er|].
    rewrite Er in Hh. simpl in Hh. rewrite Hh, outcome_bind_ret. by exists false, (true, s'). }
  assert (Hlt : (w < length (blocked s1))%nat).
  { rewrite (sc_blocked _ (j_static _ _ _ _ J)). apply HKn, (HK v w); [apply HP; set_solver|done]. }
  destruct (lookup_lt_is_Some_2 _ _ Hlt) as [b Hb]. rewrite Hb. cbn [of_option]. rewrite outcome_bind_ret.
  destruct b; [exists false, (found, s1); split; [done|]; by apply skip_step|].
  destruct (Hvisit T clock s1 J) as (r' & -> & Hcall); [unfold is_blocked; by rewrite Hb|done|].
  rewrite outcome_bind_ret.
  set (stop := (fst r' && ((kMaxEdgesToConsider <? length P)%nat || StackContainsCutEdge (snd r')))).
  exists stop, (found || fst r', snd r'). split.
  - unfold stop. destruct (fst r'); simpl; [by rewrite orb_true_r|by rewrite orb_false_r].
  - apply (call_step P v w s seen (found, s1) r' stop); try done. unfold stop.
    intros [Hf Hc]%andb_true_iff. split; [done|]. apply orb_true_iff in Hc as [Hc|Hc]; [left|by right].
    apply Nat.ltb_lt in Hc. unfold kMaxEdgesToConsider in Hc. rewrite length_app. simpl. lia.
Qed.

Lemma circuit_end_spec P v edges s r :
  K v -> (forall w, w ∈ edges <-> sub_edge v w) -> after_loop P v s r -> is_blocked s v ->
  exists r', circuit_end v edges r = Ret r' /\ called_circuit P v s r'.
Proof using HK HKn HR.
  intros Hv Hedges [(T & clock & J) A2 A3 A4 A5] Hb. destruct r as [found s1]; simpl in *.
  pose proof J as [[S1 S2 S3 S4 S5 S6] J2 J3 J4 J5 J6 J7 J8 J9].
  unfold circuit_end. destruct found.
  - destruct (Unblock_spec (length (blocked s1)) v s1) as (s2 & -> & U).
    + apply J3. set_solver.
    + congruence.
    + intros w x Hx. rewrite S3. by apply (J6 w).
    + rewrite <- (size_set_seq (C := gset nat) 0 (length (blocked s1))). apply subseteq_size.
      intros x Hx. apply elem_of_set_seq. apply elem_blocked_set, is_blocked_lt in Hx. lia.
    + destruct (ub_frame _ _ _ U) as [F1 F2 F3 F4 F5 F6].
      rewrite outcome_bind_ret, F2, J2, last_snoc, bool_decide_true by done.
      cbn [check_that]. rewrite outcome_bind_ret, removelast_snoc. eexists. split; [done|].
      split; simpl; try (rewrite F4; done); [|done]. exists T, clock. by apply (unblocked_jinv P T clock s1 v).
  - destruct (block_edge_spec v s1 edges) as (s2 & -> & B).
    { intros w Hw%Hedges. rewrite S4. apply HKn, (HK v w); done. }
    destruct B as [[F1 F2 F3 F4 F5 F6] B2 B3] eqn:EB.
    rewrite outcome_bind_ret, F2, J2, last_snoc, bool_decide_true by done.
    cbn [check_that]. rewrite outcome_bind_ret, removelast_snoc. eexists. split; [done|].
    destruct (A5 eq_refl) as [Hmono Hall].
    split; simpl; try (rewrite F4; done).
    + exists T, clock. apply (blocking_jinv P T clock s1 v edges); auto.
    + intros _. unfold is_blocked. simpl. rewrite B2. split; [done|]. by apply Hmono.
Qed.

Lemma jinv_length P T clock s v :
  jinv P T clock s -> ~ is_blocked s v -> (v < length H)%nat -> (length P < length H)%nat.
Proof.
  intros J Hv Hlt. pose proof (push_jinv _ _ _ _ _ J Hv Hlt) as J'.
  pose proof (times_NoDup _ _ (j_sorted _ _ _ _ J')) as Hnd.
  assert (length (P ++ [v]) <= length (seq 0 (length H)))%nat as Hle; [|rewrite length_app, length_seq in Hle; simpl in Hle; lia].
  apply submseteq_length, NoDup_submseteq; [done|]. intros x Hx. apply elem_of_seq.
  pose proof (is_blocked_lt _ _ (j_on _ _ _ _ J' x Hx)) as Hx'.
  rewrite (sc_blocked _ (j_static _ _ _ _ J')) in Hx'. lia.
Qed.

(** A call returns, leaves the stack as it was and cuts every elementary
    circuit that begins with the stack and its vertex. *)
Lemma Circuit_spec fuel P T clock v s :
  jinv P T clock s -> ~ is_blocked s v -> (forall p, p ∈ P ++ [v] -> K p) ->
  walk sub_edge (P ++ [v]) -> s0 ∈ P ++ [v] -> (length H <= fuel + length P)%nat ->
  exists r, Circuit fuel v (length P) s = Ret r /\ called_circuit P v s r.
Proof using HK HKn HR.
  revert P T clock v s. induction fuel as [|fuel IH]; intros P T clock v s J Hv HP Hw Hs0 Hfuel.
  { assert (length P < length H)%nat; [|lia]. apply (jinv_length P T clock s v); try done. apply HKn, HP. set_solver. }
  assert (Hvlt : (v < length H)%nat) by (apply HKn, HP; set_solver).
  pose proof (push_jinv P T clock s v J Hv Hvlt) as J'. pose proof J as [[S1 S2 S3 S4 S5 S6] J2 J3 J4 J5 J6 J7 J8 J9].
  simpl. rewrite J2. set (s1 := cb_set_blocked _ (cb_set_stack (P ++ [v]) s)) in *.
  assert (Hvb : (v < length (blocked s))%nat) by lia.
  destruct (lookup_lt_is_Some_2 _ _ Hvb) as [b ->]. cbn [of_option]. rewrite outcome_bind_ret, S1.
  destruct (lookup_lt_is_Some_2 _ _ Hvlt) as [x Hx]. rewrite Hx. cbn [of_option]. rewrite outcome_bind_ret.
  assert (Hedges : forall w, w ∈ subgraph_edges x <-> sub_edge v w).
  { intros w. split; [by exists x|]. intros (y & Hy & Hyw). congruence. }
  assert (Hbv : is_blocked s1 v) by (apply (j_on _ _ _ _ J'); set_solver).
  destruct (loopM_inv (circuit_edge (fun w => Circuit fuel w (S (length P))) (length P))
    (in_loop P v s1) (after_loop P v s1) (subgraph_edges x) (false, s1)) as (r & -> & Hr).
  - split; simpl; [eauto|done|by intros ?%elem_of_nil|by intros w ?%elem_of_nil|done|].
    intros _. split; [done|by intros w ?%elem_of_nil].
  - intros seen w todo r Hl Hr. assert (He : sub_edge v w) by (apply Hedges; rewrite Hl; set_solver).
    apply circuit_edge_spec; try done. intros T' clock' s2 J2' Hw2 Hne.
    replace (S (length P)) with (length (P ++ [v])) by (rewrite length_app; simpl; lia).
    apply (IH (P ++ [v]) T' clock'); try done.
    + intros p [Hp| ->%list_elem_of_singleton]%elem_of_app; [auto|]. apply (HK v w); [apply HP; set_solver|done].
    + rewrite <- app_assoc. by apply walk_snoc.
    + set_solver.
    + rewrite length_app. simpl. lia.
  - intros r Hr. by apply (in_loop_end P v s1 (subgraph_edges x)).
  - rewrite outcome_bind_ret. destruct (circuit_end_spec P v (subgraph_edges x) s1 r) as (r' & -> & Hr'); try done.
    { apply HP. set_solver. }
    exists r'. split; [done|]. destruct Hr' as [C1 C2 C3 C4 C5]. split; try done.
    intros Hf. destruct (C5 Hf) as [H1 H2]. split; [|done]. intros u Hu. apply H1.
    unfold is_blocked, s1 in *. simpl. destruct (decide (u = v)) as [->|Hne]; [done|]. by rewrite list_lookup_insert_ne.
Qed.
End Johnson.

(** ** The subgraphs *)

Lemma erase_node_length i g : length (erase_node i g) = length g.
Proof. unfold erase_node. by rewrite length_imap, length_alter. Qed.

Lemma erase_node_edge i g u v :
  (edge (erase_node i g) u v -> edge g u v)
  /\ (u <> i -> v <> i -> edge g u v -> edge (erase_node i g) u v).
Proof.
  unfold edge, erase_node. rewrite list_lookup_imap. split.
  - intros (x & Hx & Hv). destruct (decide (u = i)) as [->|Hne].
    + rewrite list_lookup_alter_eq in Hx. destruct (g !! i) as [y|]; [|done]. simpl in Hx.
      rewrite Nat.ltb_irrefl in Hx. simplify_eq. by apply elem_of_nil in Hv.
    + rewrite list_lookup_alter_ne in Hx by done. destruct (g !! u) as [y|]; [|done]. simpl in Hx.
      exists y. split; [done|]. case_match; simplify_eq; [|done]. by apply elem_edge_erase in Hv as [_ Hv].
  - intros Hu Hv (x & Hx & Hxv). rewrite list_lookup_alter_ne, Hx by done. simpl.
    eexists. split; [done|]. case_match; [|done]. by apply elem_edge_erase.
Qed.

Lemma component_edges_elem comp x w :
  w ∈ subgraph_edges (component_edges comp x) <-> w ∈ comp /\ w ∈ successors x.
Proof.
  unfold component_edges. simpl.
  enough (forall l, w ∈ fold_left (fun l j => match edge_find j (out_edges x) with
            Some _ => index_insert j l | None => l end) comp l
          <-> w ∈ l \/ (w ∈ comp /\ w ∈ successors x)) as Hl
    by (rewrite Hl; pose proof (not_elem_of_nil w); naive_solver).
  induction comp as [|c comp IH]; intros l; simpl; [pose proof (not_elem_of_nil w); naive_solver|].
  rewrite IH, elem_of_cons. pose proof (edge_find_elem c (out_edges x)) as Hf. fold (successors x) in Hf.
  destruct (edge_find c (out_edges x)) as [p|].
  - rewrite elem_index_insert. assert (c ∈ successors x) by (apply Hf; by eexists). naive_solver.
  - assert (c ∉ successors x) by (intros Hc; by apply Hf in Hc as []). naive_solver.
Qed.

(** The graph as [set_component] leaves it: the edges are the same, and the
    vertices of the list have the edges among them. *)
Lemma set_component_spec comp g :
  (forall u, u ∈ comp -> (u < length g)%nat) ->
  exists g', set_component comp g = Ret g' /\ length g' = length g
    /\ (forall u v, edge g' u v <-> edge g u v)
    /\ forall u w, u ∈ comp -> sub_edge g' u w <-> w ∈ comp /\ edge g u w.
Proof.
  intros Hlt. unfold set_component.
  destruct (foldM_inv (fun g i => _ ← of_option (g !! i); Ret (alter (component_edges comp) i g))
    (fun seen (g' : Graph) => successors <$> g' = successors <$> g
       /\ forall u x, u ∈ seen -> g' !! u = Some x ->
            forall w, w ∈ subgraph_edges x <-> w ∈ comp /\ w ∈ successors x) comp g)
    as (g' & -> & Hsame & Hsub).
  - split; [done|]. by intros u x ?%elem_of_nil.
  - intros seen i todo g1 Hl [Hsame Hsub].
    assert (Hi : (i < length g1)%nat).
    { rewrite <- (length_fmap successors), Hsame, length_fmap. apply Hlt. rewrite Hl. set_solver. }
    destruct (lookup_lt_is_Some_2 _ _ Hi) as [y Hy]. rewrite Hy. eexists. split; [done|]. split.
    + rewrite <- Hsame. apply list_eq. intros j. rewrite !list_lookup_fmap.
      destruct (decide (i = j)) as [->|Hne]; [by rewrite list_lookup_alter_eq, Hy|by rewrite list_lookup_alter_ne].
    + intros u x Hu. destruct (decide (i = u)) as [->|Hne].
      * rewrite list_lookup_alter_eq, Hy. intros [= <-] w. rewrite component_edges_elem. done.
      * rewrite list_lookup_alter_ne by done. apply Hsub. set_solver.
  - assert (Hlk : forall u, successors <$> g' !! u = successors <$> g !! u)
      by (intros u; by rewrite <- !list_lookup_fmap, Hsame).
    assert (He : forall u v, edge g' u v <-> edge g u v).
    { intros u v. specialize (Hlk u). unfold edge. destruct (g' !! u) as [a|], (g !! u) as [b|]; try done.
      injection Hlk as Hlk. split; intros (x & [= <-] & Hv); eexists; (split; [done|]); congruence. }
    exists g'. split_and!; [done|by rewrite <- (length_fmap successors), Hsame, length_fmap|done|].
    intros u w Hu. rewrite <- He. unfold sub_edge, edge. split.
    + intros (x & Hx & Hw). apply (Hsub u x Hu Hx) in Hw as [? ?]. split; [done|]. by exists x.
    + intros (Hw & x & Hx & Hwx). exists x. split; [done|]. by apply (Hsub u x Hu Hx).
Qed.

Lemma walk_rtc_l (R : Index -> Index -> Prop) x l y : walk R (x :: l) -> y ∈ x :: l -> rtc R x y.
Proof.
  revert x. induction l as [|z l IH]; intros x Hw Hy; [by apply list_elem_of_singleton in Hy as ->|].
  apply elem_of_cons in Hy as [->|Hy]; [done|]. apply walk_cons in Hw as [Hxz Hw].
  apply (rtc_l _ _ z); [done|]. by apply IH.
Qed.

Lemma walk_rtc_r (R : Index -> Index -> Prop) l x y : walk R (l ++ [y]) -> x ∈ l ++ [y] -> rtc R x y.
Proof.
  induction l as [|z l IH]; simpl; intros Hw Hx; [by apply list_elem_of_singleton in Hx as ->|].
  apply elem_of_cons in Hx as [->|Hx].
  - apply (walk_rtc_l R z (l ++ [y])); [done|]. set_solver.
  - destruct l as [|z' l]; simpl in *; [by apply list_elem_of_singleton in Hx as ->|].
    apply walk_cons in Hw as [_ Hw]. by apply IH.
Qed.

(** ** Breaking all cycles *)

(** The operations [BreakCycles] skips. *)
Definition skipped_type (op : InstallOperation) : Prop :=
  type_of op = REPLACE \/ type_of op = REPLACE_BZ.

(** Every elementary circuit whose least vertex is [m] is cut. *)
Definition cut_from (g : Graph) (cut : list Edge) (m : Index) : Prop :=
  forall Q, NoDup (m :: Q) -> (forall x, x ∈ Q -> (m < x)%nat) -> walk (edge g) (m :: Q ++ [m]) ->
    cut_in cut (m :: Q ++ [m]).

(** The state of [BreakCycles] after [i] iterations. *)
Record breaking (g : Graph) (i : nat) (s : CycleBreaker) : Prop := {
  br_stack : cb_stack s = [];
  br_length : length (subgraph s) = length g;
  br_sub : forall u v, edge (subgraph s) u v -> edge g u v;
  br_rest : forall u v, (i <= u)%nat -> (i <= v)%nat -> edge g u v -> edge (subgraph s) u v;
  br_cut : forall e, e ∈ cut_edges s -> edge g (fst e) (snd e);
  br_set : edge_set_ok (cut_edges s);
  br_done : forall m x, (m < i)%nat -> g !! m = Some x -> ~ skipped_type (aop x) ->
              cut_from g (cut_edges s) m;
}.

Lemma fresh_jinv H i (R : Index -> Index -> Prop) cut skip :
  (forall e, e ∈ cut -> R (fst e) (snd e)) -> edge_set_ok cut ->
  jinv H i R [] (fun _ => 0%nat) 0
    (mkBreaker (replicate (length H) false) i [] H (replicate (length H) Vertex_new) cut skip).
Proof.
  intros Hcut Hset. set (s := mkBreaker _ _ _ _ _ _ _).
  assert (Hb : forall u, ~ is_blocked s u).
  { intros u Hu. unfold is_blocked, s in Hu. simpl in Hu. by apply lookup_replicate in Hu as [? _]. }
  assert (Hw : forall w, blockers s w = []).
  { intros w. unfold blockers, s. simpl. destruct (replicate _ _ !! w) as [x|] eqn:E; [|done].
    by apply lookup_replicate in E as [-> _]. }
  split; try done.
  - split; simpl; try done; by rewrite length_replicate.
  - intros p Hp. by apply elem_of_nil in Hp.
  - intros u w Hu. by apply Hb in Hu.
  - intros w x. rewrite Hw. by intros ?%elem_of_nil.
  - intros w Hu. by apply Hb in Hu.
  - constructor.
  - intros w x p Hu. by apply Hb in Hu.
Qed.

(** One search, from a subgraph with all edges among the later vertices. *)
Lemma search_spec g H (comp : list Index) i cut skip :
  (forall u v, edge H u v -> edge g u v) ->
  (forall u v, (i <= u)%nat -> (i <= v)%nat -> edge g u v -> edge H u v) ->
  (forall x, x ∈ comp <-> rtc (edge H) i x /\ rtc (edge H) x i) ->
  (forall x, x ∈ comp -> (x < length H)%nat) ->
  (forall u w, u ∈ comp -> sub_edge H u w <-> w ∈ comp /\ edge H u w) ->
  (forall e, e ∈ cut -> edge g (fst e) (snd e)) -> edge_set_ok cut ->
  exists r, Circuit (length H) i 0
      (mkBreaker (replicate (length H) false) i [] H (replicate (length H) Vertex_new) cut skip) = Ret r
    /\ cb_stack (snd r) = [] /\ subgraph (snd r) = H
    /\ (forall e, e ∈ cut -> e ∈ cut_edges (snd r))
    /\ (forall e, e ∈ cut_edges (snd r) -> edge g (fst e) (snd e))
    /\ edge_set_ok (cut_edges (snd r)) /\ cut_from g (cut_edges (snd r)) i.
Proof.
  intros Hsub Hrest Hcomp Hlt Hse Hcut Hset.
  assert (Hi : i ∈ comp) by (by apply Hcomp).
  pose proof (fresh_jinv H i (edge g) cut skip Hcut Hset) as J. set (s := mkBreaker _ _ _ _ _ _ _) in *.
  destruct (Circuit_spec H i (fun x => x ∈ comp) (edge g)) with (fuel := length H) (P := @nil Index)
    (T := fun _ : Index => 0%nat) (clock := 0%nat) (v := i) (s := s) as (r & Hr & Hcall); try done.
  - intros u w Hu Huw. by apply (Hse u w Hu).
  - intros Hb. unfold is_blocked, s in Hb. simpl in Hb. by apply lookup_replicate in Hb as [? _].
  - intros p Hp. by apply list_elem_of_singleton in Hp as ->.
  - apply Forall_nil_2.
  - by apply list_elem_of_singleton.
  - simpl. lia.
  - destruct Hcall as [(T & clock & J') C2 C3 _ _]. exists r.
    split_and!; [done|apply (j_stack _ _ _ _ _ _ _ J')|apply (sc_subgraph _ _ _ _ (j_static _ _ _ _ _ _ _ J'))
      |done|apply (sc_cut _ _ _ _ (j_static _ _ _ _ _ _ _ J'))
      |apply (sc_set _ _ _ _ (j_static _ _ _ _ _ _ _ J'))|].
    intros Q Hnd HQ Hw. apply (C3 Q Hnd). simpl.
    assert (Hge : forall x, x ∈ i :: Q ++ [i] -> (i <= x)%nat).
    { intros x [->|[Hx| ->%list_elem_of_singleton]%elem_of_app]%elem_of_cons; [lia| |lia]. apply HQ in Hx. lia. }
    assert (HwH : walk (edge H) (i :: Q ++ [i])) by (revert Hw; apply walk_mono; intros; by apply Hrest; auto).
    assert (Hin : forall x, x ∈ i :: Q ++ [i] -> x ∈ comp).
    { intros x Hx. apply Hcomp. split; [by apply (walk_rtc_l _ i (Q ++ [i]))|].
      by apply (walk_rtc_r _ (i :: Q)). }
    revert HwH. apply walk_mono. intros x y Hx Hy Hxy. apply Hse; auto.
Qed.

Lemma break_at_spec g s i :
  graph_ok g -> (i < length g)%nat -> breaking g i s ->
  exists s', break_at g s i = Ret s' /\ breaking g (S i) s'.
Proof.
  intros Hok Hi [B1 B2 B3 B4 B5 B7 B6]. unfold break_at.
  destruct (lookup_lt_is_Some_2 _ _ Hi) as [x Hx]. rewrite Hx. cbn [of_option]. rewrite outcome_bind_ret.
  case_decide as Hskip.
  { eexists. split; [done|]. split; simpl; try done; [intros; apply B4; lia || done|].
    intros m y Hm Hy Hs. destruct (decide (m = i)) as [->|Hne]; [|apply (B6 m y); [lia|done..]].
    rewrite Hx in Hy. by simplify_eq. }
  set (sub := if (0 <? i)%nat then erase_node (i - 1) (subgraph s) else subgraph s).
  assert (Hlen : length sub = length g) by (unfold sub; case_match; by rewrite ?erase_node_length).
  assert (Hsub : forall u v, edge sub u v -> edge g u v).
  { unfold sub. intros u v Huv. apply B3. case_match; [|done]. by apply erase_node_edge in Huv. }
  assert (Hrest : forall u v, (i <= u)%nat -> (i <= v)%nat -> edge g u v -> edge sub u v).
  { unfold sub. intros u v Hu Hv Huv. destruct (Nat.ltb_spec 0 i); [apply erase_node_edge; [lia|lia|]|]; auto. }
  destruct (Execute_spec sub i []) as (g1 & comp & -> & Hstrip & _ & Hcomp).
  { intros u v Huv. rewrite Hlen. by apply (Hok u), Hsub. }
  { by rewrite Hlen. }
  rewrite outcome_bind_ret. cbn [fst snd].
  assert (Hlen1 : length g1 = length g) by (by rewrite <- (length_fmap strip), Hstrip, length_fmap).
  assert (He1 : forall u v, edge g1 u v <-> edge sub u v) by (intros; by apply strip_edge).
  assert (Hin : forall u, u ∈ comp -> (u < length g)%nat).
  { intros u [Hu _]%Hcomp. apply rtc_inv_r in Hu as [->|(w & _ & Hw)]; [done|]. by apply (Hok w), Hsub. }
  destruct (set_component_spec comp g1) as (g2 & -> & Hlen2 & He2 & Hse); [by rewrite Hlen1|].
  rewrite outcome_bind_ret, B1. cbv zeta.
  assert (He : forall u v, edge g2 u v <-> edge sub u v) by (intros; by rewrite He2, He1).
  assert (Hrtc : forall u v, rtc (edge g2) u v <-> rtc (edge sub) u v)
    by (intros u v; split; apply rtc_subrel; intros a b; apply He).
  destruct (search_spec g g2 comp i (cut_edges s) (skipped_ops s)) as (r & -> & R1 & R2 & R3 & R4 & R6 & R5).
  - intros u v Huv. by apply Hsub, He.
  - intros u v Hu Hv Huv. apply He. auto.
  - intros y. rewrite Hcomp, !Hrtc. done.
  - rewrite Hlen2, Hlen1. done.
  - intros u w Hu. rewrite Hse, He2 by done. done.
  - done.
  - done.
  - rewrite outcome_bind_ret. eexists. split; [done|]. split; [done| | | |done|done|].
    + by rewrite R2, Hlen2, Hlen1.
    + intros u v. rewrite R2, He. apply Hsub.
    + intros u v Hu Hv Huv. rewrite R2, He. apply Hrest; [lia|lia|done].
    + intros m y Hm Hy Hs. destruct (decide (m = i)) as [->|Hne]; [done|].
      intros Q H1 H2 H3. eapply cut_in_mono; [exact R3|]. apply (B6 m y); [lia|done..].
Qed.

(** A path can be taken without repetitions. *)
Lemma simple_path (R : Index -> Index -> Prop) x y :
  rtc R x y -> exists p, walk R (x :: p) /\ NoDup (x :: p) /\ last (x :: p) = Some y.
Proof.
  induction 1 as [x|x z y Hxz _ (p & Hw & Hnd & Hlast)].
  { exists []. split_and!; [apply Forall_nil_2|apply NoDup_singleton|done]. }
  destruct (decide (x ∈ z :: p)) as [Hin|Hout].
  - apply list_elem_of_split in Hin as (a & b & E). exists b. rewrite E in Hw, Hnd, Hlast.
    apply walk_app in Hw as [_ Hw]. apply NoDup_app in Hnd as (_ & _ & Hnd).
    split_and!; [done|done|]. by rewrite last_app_cons in Hlast.
  - exists (z :: p). split_and!; [by apply walk_cons|by constructor|done].
Qed.

(** A cycle has an elementary circuit from its vertex. *)
Lemma simple_cycle (R : Index -> Index -> Prop) m :
  tc R m m -> exists Q, walk R (m :: Q ++ [m]) /\ NoDup (m :: Q)
                /\ forall x, x ∈ Q -> tc R x x.
Proof.
  intros Hm. assert (exists z, R m z /\ rtc R z m) as (z & Hmz & Hzm).
  { inversion Hm; subst; [by exists m|]. exists y. split; [done|]. by apply tc_rtc. }
  destruct (simple_path R z m Hzm) as (p & Hw & Hnd & Hlast).
  apply last_Some in Hlast as [Q HQ]. exists Q. rewrite HQ in Hw, Hnd.
  assert (Hw' : walk R (m :: Q ++ [m])).
  { destruct Q as [|z' Q]; simpl in *; apply walk_cons; split; try done; congruence. }
  split_and!; [done| |].
  - apply NoDup_app in Hnd as (H1 & H2 & _). constructor; [|done]. intros Hin. apply (H2 m Hin). by left.
  - intros x Hx. assert (rtc R x m) by (apply (walk_rtc_r R Q); set_solver).
    apply (tc_rtc_l _ m); [done|]. apply (tc_rtc_r _ z); [by apply tc_once|].
    apply (walk_rtc_l R z p); [by rewrite HQ|]. rewrite HQ. set_solver.
Qed.

(** The edges that are left. *)
Definition uncut (g : Graph) (cut : list Edge) (u v : Index) : Prop := edge g u v /\ (u, v) ∉ cut.

Lemma uncut_acyclic g cut :
  (forall u v x, edge g u v -> g !! v = Some x -> ~ skipped_type (aop x)) ->
  graph_ok g ->
  (forall m x, g !! m = Some x -> ~ skipped_type (aop x) -> cut_from g cut m) ->
  acyclic (uncut g cut).
Proof.
  intros Hskip Hok Hall m. induction m as [m IH] using lt_wf_ind. intros Hm.
  destruct (simple_cycle _ m Hm) as (Q & Hw & Hnd & HQ).
  assert (Hwg : walk (edge g) (m :: Q ++ [m])) by (revert Hw; apply walk_mono; by intros x y _ _ [? _]).
  assert (exists u, edge g u m) as [u Hu].
  { clear -Hwg. induction Q as [|q Q _] using rev_ind; [by apply walk_cons in Hwg as [? _]; eauto|].
    rewrite <- app_assoc in Hwg. apply (walk_app _ (m :: Q) q [m]) in Hwg as [_ [? _]%walk_cons]. eauto. }
  destruct (lookup_lt_is_Some_2 _ _ (Hok u m Hu)) as [x Hx].
  destruct (Hall m x Hx (Hskip u m x Hu Hx) Q Hnd) as (e & He & Hc).
  - intros y Hy. apply NoDup_cons in Hnd as [Hnin _].
    destruct (decide (y = m)) as [->|Hne]; [done|].
    destruct (decide (y < m)%nat) as [Hlt|]; [|lia]. by destruct (IH y Hlt (HQ y Hy)).
  - done.
  - unfold walk in Hw. rewrite Forall_forall in Hw. destruct (Hw e He) as [_ Hn]. by destruct e.
Qed.

Lemma BreakCycles_spec g out s :
  graph_ok g -> cb_stack s = [] ->
  (forall u v x, edge g u v -> g !! v = Some x -> ~ skipped_type (aop x)) ->
  exists cut s', BreakCycles g out s = Ret (cut, s') /\ cb_stack s' = []
    /\ (forall u v, (u, v) ∈ cut -> edge g u v) /\ NoDup cut /\ acyclic (uncut g cut).
Proof.
  intros Hok Hs Hskip. unfold BreakCycles.
  destruct (foldM_inv (break_at g) (fun seen s => breaking g (length seen) s) (seq 0 (length g))
    (mkBreaker (blocked s) (current_vertex s) (cb_stack s) g (blocked_graph s) [] 0))
    as (s' & -> & [B1 B2 B3 B4 B5 B7 B6]).
  - split; simpl; try done; [by intros e ?%elem_of_nil|constructor|intros; lia].
  - intros seen i todo s1 Hl Hs1.
    assert (Hi : seq 0 (length g) !! length seen = Some i).
    { rewrite Hl, lookup_app_r, Nat.sub_diag by lia. done. }
    apply lookup_seq in Hi as [-> Hlt]. simpl. rewrite length_app. simpl. rewrite Nat.add_1_r.
    by apply break_at_spec.
  - rewrite outcome_bind_ret. eexists _, _. split; [done|]. split_and!; [done|intros u v; apply (B5 (u, v))|by apply edge_set_NoDup|].
    apply uncut_acyclic; [done|done|]. intros m x Hx. apply (B6 m x); [|done].
    rewrite length_seq. by apply lookup_lt_Some in Hx.
Qed.

(** C13: [BreakCycles] terminates on every graph in which no edge leads to a
    REPLACE or REPLACE_BZ operation, which it skips as they read nothing.  The
    edges it cuts are edges of the graph, and the graph without them has no
    cycle, although each circuit is cut at one of its first two edges only and
    the search gives up a path once it is cut. *)
Theorem BreakCycles_breaks g out s :
  graph_ok g -> cb_stack s = [] ->
  (forall u v x, edge g u v -> g !! v = Some x -> ~ skipped_type (aop x)) ->
  exists cut s', BreakCycles g out s = Ret (cut, s') /\ cb_stack s' = []
    /\ (forall u v, (u, v) ∈ cut -> edge g u v) /\ NoDup cut /\ acyclic (uncut g cut).
Proof. apply BreakCycles_spec. Qed.

(** A MOVE operation with edges to the listed vertices. *)
Definition move_to (l : list Index) : Vertex :=
  set_aop (set_type MOVE InstallOperation_new) (vertex_to l).

Lemma BreakCycles_breaks_witness :
  exists cut s',
    BreakCycles [move_to [1]; move_to [0; 2]; move_to [0]; vertex_to [2]]%nat [] CycleBreaker_new
      = Ret (cut, s')
    /\ cut = [(0, 1)]%nat
    /\ acyclic (uncut [move_to [1]; move_to [0; 2]; move_to [0]; vertex_to [2]]%nat cut).
Proof.
  assert (Hlt : forall u v, edge [move_to [1]; move_to [0; 2]; move_to [0]; vertex_to [2]]%nat u v -> (v < 3)%nat).
  { intros u v (x & Hx & Hv). repeat (destruct u as [|u]; simplify_eq/=);
      unfold successors, move_to, vertex_to in Hv; simpl in Hv; set_solver by lia. }
  destruct (BreakCycles_breaks [move_to [1]; move_to [0; 2]; move_to [0]; vertex_to [2]]%nat [] CycleBreaker_new)
    as (cut & s' & He & _ & _ & _ & Hc).
  - intros u v Huv. apply Hlt in Huv. simpl. lia.
  - done.
  - intros u v x Huv%Hlt Hx. destruct v as [|[|[|v]]]; [..|lia]; simplify_eq/=; intros [H|H]; discriminate.
  - exists cut, s'. split_and!; [done| |done]. vm_compute in He. by injection He as <-.
Defined.
