(* ===== verification/UpdateInplace.v ===== *)
(** * UpdateInplace: the in-place payload generator

    update_engine/payload_generator/inplace_generator.{h,cc}.  The operations
    of an update read blocks of the old image and write blocks of the new one
    on the same device.  [ResolveReadAfterWriteDependencies] orders them so
    that no block is overwritten before it is read, and where that is not
    possible saves blocks in places that are written later.  A function that
    returns false is [Fail] and a failing [CHECK], a [LOG(FATAL)] or an index
    outside a vector is [Abort].  [DeltaReadFile], which makes full operations
    from the new image, is a parameter here. *)
From stdpp Require Import gmap relations sets.
From S2P Require Import Prelude UpdateExtents UpdateGraph UpdateTarjan UpdateCycles.

(** [payload_constants.h] *)
Definition kBlockSize : Z := 4096.

(** [InplaceGenerator::Block]; [kInvalidIndex] is [None]. *)
Record Block := mkBlock { reader : option Index; writer : option Index }.
Definition Block_new : Block := mkBlock None None.

Record CutEdgeVertexes := mkCut {
  new_vertex : Index;
  old_src : Index;
  old_dst : Index;
  tmp_extents : list Extent;
}.

#[export] Instance CutEdgeVertexes_dec : EqDecision CutEdgeVertexes.
Proof. solve_decision. Defined.

(** ** Helpers *)

Definition CompressExtents (blocks : list Z) : list Extent :=
  fold_left AppendBlockToExtents blocks [].

Definition CheckGraph (graph : Graph) : outcome () :=
  check_that (forallb (fun v => bool_decide (is_Some (op_type (aop v)))) graph).

Definition ApplyMap (collection : list Z) (the_map : gmap Z Z) : list Z :=
  (fun elem => default elem (the_map !! elem)) <$> collection.

(** The map of [SubstituteBlocks]; a later pair wins. *)
Definition conversion_map (pairs : list (Z * Z)) : gmap Z Z :=
  fold_left (fun m p => <[fst p := snd p]> m) pairs ∅.

Definition SubstituteBlocks (vertex : Vertex) (remove_extents replace_extents : list Extent)
    : outcome Vertex :=
  let remove := ExpandExtents remove_extents in
  let replace := ExpandExtents replace_extents in
  _ ← check_that (length remove =? length replace)%nat;
  let conversion := conversion_map (zip remove replace) in
  Ret (set_aop
         (set_src_extents (CompressExtents (ApplyMap (ExpandExtents (src_extents (aop vertex))) conversion))
            (aop vertex))
         (set_out_edges
            ((fun e => (fst e, mkEdge (extents (snd e))
                                 (CompressExtents (ApplyMap (ExpandExtents (write_extents (snd e))) conversion))))
               <$> out_edges vertex) vertex)).

(** ** Building the graph *)

(** The blocks the loops of [AddInstallOpToBlocksVector] visit in an extent. *)
Definition visited_blocks (e : Extent) : list Z :=
  seqZ (start_block e) (u64 (start_block e + num_blocks e) - start_block e).

(** One access: the block must exist and have no reader (writer) yet. *)
Definition access_block (get : Block -> option Index) (set : Block -> Block) (blocks : list Block)
    (block : Z) : outcome (list Block) :=
  b ← of_option (blocks !! Z.to_nat block);
  _ ← check_that (bool_decide (get b = None));
  Ret (<[Z.to_nat block := set b]> blocks).

Definition access_extents (get : Block -> option Index) (set : Block -> Block) (es : list Extent)
    (blocks : list Block) : outcome (list Block) :=
  foldM (access_block get set) (es ≫= visited_blocks) blocks.

Definition AddInstallOpToBlocksVector (operation : InstallOperation) (vertex : Index)
    (blocks : list Block) : outcome (bool * list Block) :=
  if decide (dst_extents operation = []) then Ret (false, blocks) else
  blocks ← access_extents reader (fun b => mkBlock (Some vertex) (writer b)) (src_extents operation) blocks;
  blocks ← access_extents writer (fun b => mkBlock (reader b) (Some vertex)) (dst_extents operation) blocks;
  Ret (true, blocks).

(** The result, the graph and the blocks, which are left alone if there are none. *)
Definition AddInstallOpToGraph (graph : Graph) (existing_vertex : option Index)
    (blocks : option (list Block)) (operation : InstallOperation)
    : outcome (bool * Graph * option (list Block)) :=
  let '(vertex, graph) := match existing_vertex with
                          | Some vertex => (vertex, graph)
                          | None => (length graph, graph ++ [Vertex_new])
                          end in
  _ ← of_option (graph !! vertex);
  let graph := alter (set_aop operation) vertex graph in
  _ ← check_that (bool_decide (is_Some (op_type operation)));
  match blocks with
  | None => Ret (true, graph, None)
  | Some bs =>
      r ← AddInstallOpToBlocksVector operation vertex bs;
      Ret (fst r, graph, Some (snd r))
  end.

(** The body of [CreateEdges] extends the edge as [AddReadBeforeDep] does. *)
Definition create_edge (graph : Graph) (block : nat * Block) : outcome Graph :=
  match reader (snd block), writer (snd block) with
  | Some r, Some w =>
      if decide (r = w) then Ret graph else
      _ ← of_option (graph !! w);
      Ret (alter (fun v => AddReadBeforeDep v r (Z.of_nat (fst block))) w graph)
  | _, _ => Ret graph
  end.

Definition CreateEdges (graph : Graph) (blocks : list Block) : outcome Graph :=
  foldM create_edge (imap pair blocks) graph.

(** A node that supplies scratch space. *)
Definition CreateScratchNode (start num : Z) (vertex : Vertex) : Vertex :=
  set_aop (set_dst_extents (dst_extents (aop vertex) ++ [mkExtent start num])
             (set_data (Some 0) (Some 0) (set_type REPLACE_BZ (aop vertex)))) vertex.

(** ** Cutting edges *)

(** [DummyExtentAllocator::Allocate] on the next block. *)
Definition Allocate (next_block block_count : Z) : list Extent * Z :=
  ([mkExtent next_block block_count], u64 (next_block + block_count)).

(** One iteration of [CutEdges] on the graph, the cuts and the allocator. *)
Definition cut_edge (s : Graph * list CutEdgeVertexes * Z) (edge : Edge)
    : outcome (Graph * list CutEdgeVertexes * Z) :=
  let '(graph, cuts, next_block) := s in
  let '(src, dst) := edge in
  _ ← of_option (graph !! src);
  let graph := alter (fun v => set_out_edges (edge_insert dst EdgeProperties_new (out_edges v)) v) src graph in
  weight ← EdgeWeight graph edge;
  let '(tmp, next_block) := Allocate next_block weight in
  let copy := length graph in
  let graph := graph ++ [Vertex_new] in
  v ← of_option (graph !! src);
  properties ← of_option (edge_find dst (out_edges v));
  _ ← check_that (bool_decide (write_extents properties = []));
  let graph := alter (fun v => set_out_edges (edge_insert copy properties (out_edges v)) v) src graph in
  let graph := alter (set_aop (mkOperation (Some MOVE) None None (extents properties) (Some (u64 (weight * kBlockSize)))
                                 tmp (Some (u64 (weight * kBlockSize))) None)) copy graph in
  d ← of_option (graph !! dst);
  d ← SubstituteBlocks d (extents properties) tmp;
  let graph := <[dst := d]> graph in
  let graph := alter (fun v => set_out_edges (edge_erase dst (out_edges v)) v) src graph in
  let graph := alter (fun v => set_out_edges (edge_insert copy (mkEdge [] tmp) (out_edges v)) v) dst graph in
  Ret (graph, cuts ++ [mkCut copy src dst tmp], next_block).

Definition CutEdges (graph : Graph) (edges : list Edge) : outcome (Graph * list CutEdgeVertexes) :=
  s ← foldM cut_edge edges (graph, [], kTempBlockStart);
  Ret (fst s).

(** ** Ordering *)

(** [std::sort]; the order of equal elements, which the standard leaves open, is
    that of the list.  What is proved uses only that the result is a sorted
    permutation ([std_sort_perm], [std_sort_sorted]). *)
Fixpoint sorted_insert {A} (less : A -> A -> bool) (x : A) (l : list A) : list A :=
  match l with
  | [] => [x]
  | y :: l' => if less y x then y :: sorted_insert less x l' else x :: l
  end.

Definition std_sort {A} (less : A -> A -> bool) (l : list A) : list A :=
  foldr (sorted_insert less) [] l.

(** The vector from vertices to positions, with zeros where there is none. *)
Definition GenerateReverseTopoOrderMap (op_indexes : list Index) : list nat :=
  fold_left (fun table p =>
      let '(i, node) := p in
      let table := table ++ replicate (S node - length table) 0%nat in
      <[node := i]> table)
    (imap pair op_indexes) (replicate (length op_indexes) 0%nat).

Definition SortCutsByTopoOrder (op_indexes : list Index) (cuts : list CutEdgeVertexes)
    : outcome (list CutEdgeVertexes) :=
  let table := GenerateReverseTopoOrderMap op_indexes in
  _ ← check_that ((length cuts <=? 1)%nat || forallb (fun c => (old_dst c <? length table)%nat) cuts);
  Ret (std_sort (fun a b => (default 0 (table !! old_dst a) <? default 0 (table !! old_dst b))%nat) cuts).

(** [diff_utils::CompareAopsByDestination]; the start blocks are truncated. *)
Definition CompareAopsByDestination (first_aop second_aop : AnnotatedOperation) : bool :=
  match dst_extents first_aop, dst_extents second_aop with
  | a :: _, b :: _ => u32 (start_block a) <? u32 (start_block b)
  | _ :: _, [] => true
  | _, _ => false
  end.

Definition is_full_type (t : InstallOperation_Type) : bool :=
  bool_decide (t = REPLACE) || bool_decide (t = REPLACE_BZ).

Definition MoveAndSortFullOpsToBack (graph : Graph) (op_indexes : list Index) : outcome (list Index) :=
  s ← foldM (fun s op_index =>
        v ← of_option (graph !! op_index);
        let '(ret, full_ops) := s in
        Ret (if is_full_type (type_of (aop v)) then (ret, full_ops ++ [op_index])
             else (ret ++ [op_index], full_ops)))
      op_indexes ([], []);
  Ret (fst s ++ std_sort (fun a b =>
                  match graph !! a, graph !! b with
                  | Some va, Some vb => CompareAopsByDestination (aop va) (aop vb)
                  | _, _ => false
                  end) (snd s)).

(** ** Temporary blocks *)

Fixpoint TempBlocksExistInExtents (es : list Extent) : outcome bool :=
  match es with
  | [] => Ret false
  | e :: es =>
      let end_ := u64 (start_block e + num_blocks e) in
      if (kTempBlockStart <=? start_block e) || (kTempBlockStart <=? end_) then Ret true else
      _ ← check_that (start_block e <=? end_);
      TempBlocksExistInExtents es
  end.

(** The disjunction of the loops, from left to right. *)
Fixpoint any_temp (ess : list (list Extent)) : outcome bool :=
  match ess with
  | [] => Ret false
  | es :: ess => b ← TempBlocksExistInExtents es; if (b : bool) then Ret true else any_temp ess
  end.

Fixpoint NoTempBlocksRemain (graph : Graph) : outcome bool :=
  match graph with
  | [] => Ret true
  | v :: graph =>
      if negb (valid v) then NoTempBlocksRemain graph else
      b ← any_temp (dst_extents (aop v) :: src_extents (aop v)
                    :: (out_edges v ≫= fun e => [extents (snd e); write_extents (snd e)]));
      if (b : bool) then Ret false else NoTempBlocksRemain graph
  end.

Section Generator.
Context {Blob : Type} (DeltaReadFile : list Extent -> Blob -> outcome (list AnnotatedOperation * Blob)).

(** [ConvertCutToFullOp] on the graph and the blob file. *)
Definition ConvertCutToFullOp (s : Graph * Blob) (cut : CutEdgeVertexes) : outcome (Graph * Blob) :=
  let '(graph, blob_file) := s in
  v ← of_option (graph !! old_dst cut);
  s ← (if is_full_type (type_of (aop v)) then Ret (graph, blob_file)
       else
         let edges := DropWriteBeforeDeps (out_edges v) in
         '(new_aop, blob_file) ← DeltaReadFile (dst_extents (aop v)) blob_file;
         match new_aop with
         | [op] =>
             r ← AddInstallOpToGraph graph (Some (old_dst cut)) None op;
             let graph := alter (set_out_edges edges) (old_dst cut) (snd (fst r)) in
             Ret (DropIncomingEdgesTo graph (old_dst cut), blob_file)
         | _ => Fail
         end);
  let '(graph, blob_file) := s in
  _ ← of_option (graph !! old_src cut);
  let graph := alter (fun v => set_out_edges (edge_erase (new_vertex cut) (out_edges v)) v)
                 (old_src cut) graph in
  v ← of_option (graph !! old_dst cut);
  _ ← check_that (bool_decide (edge_find (new_vertex cut) (out_edges v) = None));
  _ ← of_option (graph !! new_vertex cut);
  Ret (alter (set_valid false) (new_vertex cut) graph, blob_file).

(** The state of [AssignTempBlocks]: the graph, the blob file, the order of
    the operations and its inverse. *)
Record Assignment := mkAssignment {
  a_graph : Graph;
  a_blob : Blob;
  op_indexes : list Index;
  reverse_op_indexes : list nat;
}.

Definition ConvertCutsToFull (s : Assignment) (cuts : list CutEdgeVertexes) : outcome Assignment :=
  match cuts with
  | [] => Abort
  | first :: _ =>
      '(graph, blob_file) ← foldM ConvertCutToFullOp cuts (a_graph s, a_blob s);
      let deleted_nodes := old_dst first :: (new_vertex <$> cuts) in
      let indexes := filter (fun i => i ∉ deleted_nodes) (op_indexes s) ++ [old_dst first] in
      Ret (mkAssignment graph blob_file indexes (GenerateReverseTopoOrderMap indexes))
  end.

(** The blocks of a node that may hold temporary data until it runs. *)
Definition scratch_of (v : Vertex) : outcome ExtentRanges :=
  ranges ← AddExtents (dst_extents (aop v)) ExtentRanges_new;
  let ranges := SubtractExtent (ExtentForRange kTempBlockStart (u64 (kSparseHole - kTempBlockStart))) ranges in
  let ranges := SubtractExtents (src_extents (aop v)) ranges in
  let ranges := fold_left (fun ranges e => SubtractExtents (extents (snd e)) ranges) (out_edges v) ranges in
  zero ← ContainsBlock 0 ranges;
  Ret (if (zero : bool) then SubtractBlock 0 ranges else ranges).

(** The search for scratch space: all ranges, the suppliers with theirs, and
    the number of blocks. *)
Definition find_scratch (graph : Graph) (blocks_needed : Z)
    (s : ExtentRanges * list (Index * ExtentRanges) * Z) (test_node : Index)
    : outcome (bool * (ExtentRanges * list (Index * ExtentRanges) * Z)) :=
  let '(scratch_ranges, block_suppliers, scratch_blocks_found) := s in
  v ← of_option (graph !! test_node);
  if negb (valid v) then Ret (false, s) else
  ranges ← scratch_of v;
  if blocks ranges =? 0 then Ret (false, s) else
  ranges ← (if blocks_needed <? u64 (blocks ranges + scratch_blocks_found) then
              new_ranges ← GetExtentsForBlockCount (u64 (blocks_needed - scratch_blocks_found)) ranges;
              AddExtents new_ranges ExtentRanges_new
            else Ret ranges);
  scratch_ranges ← AddRanges ranges scratch_ranges;
  Ret (blocks_needed <=? blocks scratch_ranges,
       (scratch_ranges, block_suppliers ++ [(test_node, ranges)],
        u64 (scratch_blocks_found + blocks ranges))).

(** A supplier runs after the node that reads its blocks. *)
Definition add_supplier (dst : Index) (graph : Graph) (supplier : Index * ExtentRanges) : outcome Graph :=
  es ← GetExtentsForBlockCount (blocks (snd supplier)) (snd supplier);
  _ ← of_option (graph !! fst supplier);
  Ret (alter (fun v => AddReadBeforeDepExtents v dst es) (fst supplier) graph).

(** Replace the temporary blocks of one cut. *)
Definition place_cut (dst : Index) (s : Graph * ExtentRanges) (cut : CutEdgeVertexes)
    : outcome (Graph * ExtentRanges) :=
  let '(graph, scratch_ranges) := s in
  real_extents ← GetExtentsForBlockCount (BlocksInExtents (tmp_extents cut)) scratch_ranges;
  let scratch_ranges := SubtractExtents real_extents scratch_ranges in
  v ← of_option (graph !! dst);
  v ← SubstituteBlocks v (tmp_extents cut) real_extents;
  let graph := <[dst := v]> graph in
  _ ← of_option (graph !! new_vertex cut);
  Ret (alter (fun v => set_aop (set_dst_extents real_extents (aop v)) v) (new_vertex cut) graph,
       scratch_ranges).

Definition AssignBlockForAdjoiningCuts (s : Assignment) (cuts : list CutEdgeVertexes) : outcome Assignment :=
  match cuts with
  | [] => Abort
  | first :: _ =>
      let dst := old_dst first in
      let blocks_needed :=
        fold_left (fun n cut => u64 (n + BlocksInExtents (tmp_extents cut))) cuts 0 in
      position ← of_option (reverse_op_indexes s !! dst);
      '(scratch_ranges, block_suppliers, scratch_blocks_found) ←
        loopM (find_scratch (a_graph s) blocks_needed) (drop (S position) (op_indexes s))
          (ExtentRanges_new, [], 0);
      if blocks scratch_ranges <? blocks_needed then ConvertCutsToFull s cuts else
      _ ← guard_that (blocks scratch_ranges =? scratch_blocks_found);
      graph ← foldM (add_supplier dst) block_suppliers (a_graph s);
      '(graph, _) ← foldM (place_cut dst) cuts (graph, scratch_ranges);
      Ret (mkAssignment graph (a_blob s) (op_indexes s) (reverse_op_indexes s))
  end.

(** The loop of [AssignTempBlocks], from the last cut to the first; [group]
    are cuts with the same destination. *)
Definition assign_group (s : Assignment * list CutEdgeVertexes) (cut : CutEdgeVertexes)
    : outcome (Assignment * list CutEdgeVertexes) :=
  let '(a, group) := s in
  match group with
  | [] => Ret (a, [cut])
  | first :: _ =>
      if decide (old_dst first = old_dst cut) then Ret (a, group ++ [cut])
      else a ← AssignBlockForAdjoiningCuts a group; Ret (a, [cut])
  end.

Definition AssignTempBlocks (s : Assignment) (cuts : list CutEdgeVertexes) : outcome Assignment :=
  _ ← check_that (negb (bool_decide (cuts = [])));
  '(s, group) ← foldM assign_group (reverse cuts) (s, []);
  AssignBlockForAdjoiningCuts s group.

(** ** The whole generator *)

(** [ConvertGraphToDag]: the graph, the blob file and the final order. *)
Definition ConvertGraphToDag (graph : Graph) (blob_file : Blob) (scratch_vertex : option Index)
    : outcome (Graph * Blob * list Index) :=
  '(edges, _) ← BreakCycles graph [] CycleBreaker_new;
  _ ← CheckGraph graph;
  '(graph, cuts) ← CutEdges graph edges;
  _ ← CheckGraph graph;
  final_order ← TopologicalSort graph;
  final_order ← MoveAndSortFullOpsToBack graph final_order;
  cuts ← SortCutsByTopoOrder final_order cuts;
  let s := mkAssignment graph blob_file final_order (GenerateReverseTopoOrderMap final_order) in
  s ← (if decide (cuts = []) then Ret s else AssignTempBlocks s cuts);
  '(graph, final_order) ←
    match scratch_vertex with
    | None => Ret (a_graph s, op_indexes s)
    | Some v =>
        position ← of_option (reverse_op_indexes s !! v);
        _ ← of_option (op_indexes s !! position);
        _ ← of_option (a_graph s !! v);
        Ret (alter (set_valid false) v (a_graph s), delete position (op_indexes s))
    end;
  no_temp ← NoTempBlocksRemain graph;
  _ ← check_that no_temp;
  Ret (graph, a_blob s, final_order).

(** Add the operations; the result of [AddInstallOpToGraph] is not looked at. *)
Definition add_operation (s : Graph * list Block) (op : AnnotatedOperation) : outcome (Graph * list Block) :=
  '(_, graph, blocks) ← AddInstallOpToGraph (fst s) None (Some (snd s)) op;
  Ret (graph, default [] blocks).

Definition ResolveReadAfterWriteDependencies (old_size new_size partition_size block_size : Z)
    (blob_file : Blob) (aops : list AnnotatedOperation) : outcome (list AnnotatedOperation * Blob) :=
  let count := Z.max old_size new_size / block_size in
  '(graph, blocks) ← foldM add_operation aops ([], replicate (Z.to_nat count) Block_new);
  _ ← CheckGraph graph;
  let '(scratch_vertex, graph) :=
    if count <? partition_size / block_size
    then (Some (length graph),
          graph ++ [CreateScratchNode count (partition_size / block_size - count) Vertex_new])
    else (None, graph) in
  _ ← CheckGraph graph;
  graph ← CreateEdges graph blocks;
  _ ← CheckGraph graph;
  '(graph, blob_file, final_order) ← ConvertGraphToDag graph blob_file scratch_vertex;
  aops ← foldM (fun aops i => v ← of_option (graph !! i); Ret (aops ++ [aop v])) final_order [];
  Ret (aops, blob_file).
End Generator.
