(* ===== verification/UpdateViews.v ===== *)
(** * UpdateViews: the graph of the in-place generator as sets of blocks

    Lemmas on the data of UpdateGraph and UpdateInplace: edge maps as finite
    maps, extents as lists of blocks, and the blocks each vertex reads and
    writes and each edge stands for.  The proofs about the generator use these
    views only. *)
From Stdlib Require Import Sorted.
From stdpp Require Import gmap relations sets.
From S2P Require Import Prelude UpdateExtents UpdateGraph UpdateTarjan UpdateCycles UpdateInplace.

(** ** Edge maps *)

Definition map_ok (m : EdgeMap) : Prop := StronglySorted (fun a b => (fst a < fst b)%nat) m.

Lemma edge_find_None k m : edge_find k m = None <-> k ∉ fst <$> m.
Proof. rewrite <- edge_find_elem. split; [by intros -> []|]. destruct (edge_find k m); [intros []; by eexists|done]. Qed.

Lemma map_ok_tail_lt e m x : map_ok (e :: m) -> x ∈ fst <$> m -> (fst e < x)%nat.
Proof.
  intros [_ He]%StronglySorted_inv (y & -> & Hy)%list_elem_of_fmap. rewrite Forall_forall in He. auto.
Qed.

Lemma elem_of_edge_find k p m : map_ok m -> (k, p) ∈ m <-> edge_find k m = Some p.
Proof.
  induction m as [|[j q] m IH]; intros Hm; simpl; [split; [by intros ?%elem_of_nil|done]|].
  assert (Hm' := Hm). apply StronglySorted_inv in Hm' as [Hm' _]. case_decide as Hj.
  - subst. split; [|intros [= ->]; by left]. intros [[= ->]|Hin]%elem_of_cons; [done|exfalso].
    assert (k < k)%nat; [|lia]. apply (map_ok_tail_lt (k, q) m); [done|].
    apply list_elem_of_fmap. by exists (k, p).
  - rewrite <- IH by done. split; [|by right]. by intros [[= ->]|Hin]%elem_of_cons.
Qed.

Lemma edge_insert_present k p m : map_ok m -> is_Some (edge_find k m) -> edge_insert k p m = m.
Proof.
  induction m as [|[j q] m IH]; intros Hm; simpl; [by intros []|].
  assert (Hm' := Hm). apply StronglySorted_inv in Hm' as [Hm' _].
  destruct (Nat.ltb_spec k j) as [Hlt|Hge].
  - intros Hf. exfalso. case_decide as Hj; [lia|]. apply edge_find_elem in Hf.
    pose proof (map_ok_tail_lt _ _ _ Hm Hf). simpl in *. lia.
  - destruct (Nat.ltb_spec j k) as [Hlt|Hge']; [|done]. rewrite decide_False by lia.
    intros Hf. by rewrite IH.
Qed.

Lemma edge_find_insert k p m j :
  edge_find k m = None ->
  edge_find j (edge_insert k p m) = if decide (j = k) then Some p else edge_find j m.
Proof.
  induction m as [|[i q] m IH]; simpl.
  { intros _. destruct (decide (j = k)) as [->|]; [by rewrite decide_True|by rewrite decide_False]. }
  destruct (decide (i = k)) as [|Hi]; [done|]. intros Hk. destruct (Nat.ltb_spec k i) as [Hlt|Hge]; simpl.
  - destruct (decide (j = k)) as [->|]; [by rewrite decide_True|by rewrite (decide_False (P := k = j))].
  - destruct (Nat.ltb_spec i k) as [Hlt|Hge']; [|lia]. simpl. rewrite IH by done.
    destruct (decide (j = k)) as [->|]; [by rewrite decide_False|done].
Qed.

Lemma map_ok_insert k p m : map_ok m -> map_ok (edge_insert k p m).
Proof.
  induction 1 as [|[i q] m Hm IH Hi]; simpl; [repeat constructor|].
  destruct (Nat.ltb_spec k i) as [Hlt|Hge]; [|destruct (Nat.ltb_spec i k) as [Hlt|Hge']].
  - constructor; [by constructor|]. constructor; [done|]. eapply Forall_impl; [exact Hi|]. simpl. lia.
  - constructor; [done|]. rewrite Forall_forall in *. intros [j r] Hj. simpl.
    assert (Hj' : j ∈ fst <$> edge_insert k p m) by (apply list_elem_of_fmap; by exists (j, r)).
    apply elem_edge_insert in Hj' as [->|Hj']; [done|].
    apply list_elem_of_fmap in Hj' as (y & -> & Hy). by apply (Hi y).
  - by constructor.
Qed.

Lemma edge_find_erase k m j :
  edge_find j (edge_erase k m) = if decide (j = k) then None else edge_find j m.
Proof.
  unfold edge_erase. induction m as [|[i q] m IH]; simpl; [by destruct (decide (j = k))|].
  rewrite filter_cons. simpl. destruct (decide (i ≠ k)) as [Hi|Hi]; simpl; rewrite IH.
  - destruct (decide (j = k)) as [->|]; [by rewrite decide_False|done].
  - apply dec_stable in Hi as ->. destruct (decide (j = k)) as [->|]; [done|by rewrite (decide_False (P := k = j))].
Qed.

Lemma map_ok_filter (P : Index * EdgeProperties -> Prop) `{!forall x, Decision (P x)} m :
  map_ok m -> map_ok (filter P m).
Proof.
  induction 1 as [|e m Hm IH He]; [constructor|]. rewrite filter_cons. case_decide; [|done].
  constructor; [done|]. rewrite Forall_forall in *. intros x [_ Hx]%list_elem_of_filter. auto.
Qed.

Lemma map_ok_erase k m : map_ok m -> map_ok (edge_erase k m).
Proof. apply map_ok_filter. Qed.

(** Changes of the properties only. *)
Lemma map_ok_fmap (f : Index * EdgeProperties -> EdgeProperties) m :
  map_ok m -> map_ok ((fun e => (fst e, f e)) <$> m).
Proof.
  induction 1 as [|e m Hm IH He]; simpl; constructor; [done|].
  rewrite Forall_forall in *. intros x (y & -> & Hy)%list_elem_of_fmap. simpl. auto.
Qed.

Lemma edge_find_fmap (f : EdgeProperties -> EdgeProperties) m k :
  edge_find k ((fun e => (fst e, f (snd e))) <$> m) = f <$> edge_find k m.
Proof. induction m as [|[j q] m IH]; simpl; [done|]. by case_decide. Qed.

Lemma edge_find_alter f k m j :
  edge_find j (edge_alter f k m) = if decide (j = k) then f <$> edge_find j m else edge_find j m.
Proof.
  induction m as [|[i q] m IH]; [by destruct (decide (j = k))|].
  change (edge_alter f k ((i, q) :: m))
    with ((if decide (i = k) then (i, f q) else (i, q)) :: edge_alter f k m).
  destruct (decide (i = k)) as [->|Hi]; cbn [edge_find]; rewrite IH.
  - destruct (decide (j = k)) as [->|]; [by rewrite !decide_True|by rewrite !(decide_False (P := k = j))].
  - destruct (decide (j = k)) as [->|]; [by rewrite !decide_False|done].
Qed.

Lemma map_ok_alter f k m : map_ok m -> map_ok (edge_alter f k m).
Proof.
  unfold edge_alter. induction 1 as [|e m Hm IH He]; simpl; constructor; [done|].
  rewrite Forall_forall in *. intros x (y & -> & Hy)%list_elem_of_fmap.
  specialize (He y Hy). repeat case_decide; done.
Qed.

Lemma edge_find_filter (P : Index * EdgeProperties -> Prop) `{!forall x, Decision (P x)} m k :
  map_ok m ->
  edge_find k (filter P m) = p ← edge_find k m; if decide (P (k, p)) then Some p else None.
Proof.
  intros Hm. pose proof (map_ok_filter P m Hm) as Hf.
  destruct (edge_find k (filter P m)) as [p|] eqn:E.
  - apply elem_of_edge_find, list_elem_of_filter in E as [HP Hin]; [|done].
    apply elem_of_edge_find in Hin; [|done]. rewrite Hin. simpl. by rewrite decide_True.
  - destruct (edge_find k m) as [p|] eqn:E'; [|done]. simpl. case_decide as HP; [|done].
    apply elem_of_edge_find in E'; [|done].
    assert (Hin : (k, p) ∈ filter P m) by (by apply list_elem_of_filter).
    apply elem_of_edge_find in Hin; [congruence|done].
Qed.

(** ** Blocks *)

(** Blocks below the sparse hole. *)
Definition block_ok (b : Z) : Prop := 0 <= b < kSparseHole.

Lemma expand_block_ok es b : Forall extent_ok es -> b ∈ ExpandExtents es -> block_ok b.
Proof.
  intros Hes Hb. apply elem_of_ExpandExtents in Hb; [|done]. unfold covers in Hb.
  apply Exists_exists in Hb as (e & He & Hin). rewrite Forall_forall in Hes. specialize (Hes e He).
  unfold extent_ok, in_extent, block_ok in *. lia.
Qed.

Lemma expand_nil es : Forall extent_ok es -> ExpandExtents es = [] -> es = [].
Proof.
  intros Hes H. destruct es as [|e es]; [done|]. apply Forall_cons_1 in Hes as [He _].
  rewrite ExpandExtents_cons, expand_ok in H by done. apply app_eq_nil in H as [H _].
  unfold extent_ok in He. rewrite seqZ_cons in H by lia. done.
Qed.

Lemma compress_snoc bs b : CompressExtents (bs ++ [b]) = AppendBlockToExtents (CompressExtents bs) b.
Proof. unfold CompressExtents. by rewrite fold_left_app. Qed.

Lemma compress_expand bs :
  Forall block_ok bs ->
  Forall extent_ok (CompressExtents bs) /\ ExpandExtents (CompressExtents bs) = bs.
Proof.
  induction bs as [|b bs IH] using rev_ind; [done|]. intros [Hbs [Hb _]%Forall_cons_1]%Forall_app.
  destruct (IH Hbs) as [H1 H2]. rewrite compress_snoc.
  destruct (AppendBlock_expand (CompressExtents bs) b H1 Hb) as [H3 H4]. by rewrite H4, H2.
Qed.

(** Where [ApplyMap] moves a block. *)
Definition relocate (remove replace : list Z) (b : Z) : Z :=
  default b (conversion_map (zip remove replace) !! b).

Lemma conversion_skip ps (m : gmap Z Z) b :
  (forall p, p ∈ ps -> fst p <> b) ->
  fold_left (fun m p => <[fst p := snd p]> m) ps m !! b = m !! b.
Proof.
  revert m. induction ps as [|p ps IH]; intros m Hps; simpl; [done|].
  rewrite IH by (intros q Hq; apply Hps; by right). apply lookup_insert_ne, Hps. by left.
Qed.

Lemma relocate_out remove replace b : b ∉ remove -> relocate remove replace b = b.
Proof.
  intros Hb. unfold relocate, conversion_map. rewrite conversion_skip; [by rewrite lookup_empty|].
  intros [x y] Hp%elem_of_zip_l. simpl. by intros ->.
Qed.

Lemma relocate_in remove replace j b c :
  NoDup remove -> remove !! j = Some b -> replace !! j = Some c -> relocate remove replace b = c.
Proof.
  intros Hnd Hb Hc. unfold relocate, conversion_map.
  enough (forall (m : gmap Z Z), fold_left (fun m p => <[fst p := snd p]> m) (zip remove replace) m !! b = Some c)
    as H by (by rewrite H).
  revert replace j Hb Hc. induction Hnd as [|r remove Hr Hnd IH]; intros [|s replace] [|j] Hb Hc m; simplify_eq/=.
  - rewrite conversion_skip; [by rewrite lookup_insert_eq|]. intros [x y] Hp%elem_of_zip_l. simpl. by intros ->.
  - by apply (IH replace j).
Qed.

Lemma relocate_ok remove replace b :
  Forall block_ok replace -> block_ok b -> block_ok (relocate remove replace b).
Proof.
  intros Hr Hb. unfold relocate, conversion_map.
  enough (forall ps (m : gmap Z Z), (forall p, p ∈ ps -> block_ok (snd p)) ->
     (forall k c, m !! k = Some c -> block_ok c) ->
     forall k c, fold_left (fun m p => <[fst p := snd p]> m) ps m !! k = Some c -> block_ok c) as H.
  { destruct (fold_left _ _ _ !! b) as [c|] eqn:E; simpl; [|done]. eapply (H _ ∅); [| |exact E]; [|done].
    intros [x y] Hp%elem_of_zip_r. rewrite Forall_forall in Hr. by apply Hr. }
  induction ps as [|p ps IH]; intros m Hps Hm k c; simpl; [apply Hm|]. apply IH.
  - intros q Hq. apply Hps. by right.
  - intros i d [[_ <-]|[_ Hd]]%lookup_insert_Some; [apply Hps; by left|by apply (Hm i)].
Qed.

(** ** Vertices *)

Record vertex_ok (x : Vertex) : Prop := {
  vo_src : Forall extent_ok (src_extents (aop x));
  vo_dst : Forall extent_ok (dst_extents (aop x));
  vo_map : map_ok (out_edges x);
  vo_edge : forall k p, edge_find k (out_edges x) = Some p ->
              Forall extent_ok (extents p) /\ Forall extent_ok (write_extents p);
}.

Lemma ApplyMap_ok (bs remove replace : list Z) :
  Forall block_ok bs -> Forall block_ok replace ->
  let es := CompressExtents (ApplyMap bs (conversion_map (zip remove replace))) in
  Forall extent_ok es /\ ExpandExtents es = relocate remove replace <$> bs.
Proof.
  intros Hbs Hr. apply compress_expand. apply Forall_fmap. eapply Forall_impl; [exact Hbs|].
  intros b Hb. by apply relocate_ok.
Qed.

Lemma expand_all_ok es : Forall extent_ok es -> Forall block_ok (ExpandExtents es).
Proof. intros H. apply Forall_forall. intros b. by apply expand_block_ok. Qed.

(** [SubstituteBlocks] moves what the vertex reads, and what it waits for. *)
Lemma SubstituteBlocks_spec x remove replace :
  vertex_ok x -> Forall extent_ok replace ->
  length (ExpandExtents remove) = length (ExpandExtents replace) ->
  let f := relocate (ExpandExtents remove) (ExpandExtents replace) in
  exists x', SubstituteBlocks x remove replace = Ret x' /\ vertex_ok x' /\ valid x' = valid x
    /\ (exists es, aop x' = set_src_extents es (aop x)
          /\ ExpandExtents es = f <$> ExpandExtents (src_extents (aop x)))
    /\ forall k, match edge_find k (out_edges x), edge_find k (out_edges x') with
                 | Some p, Some p' => extents p' = extents p
                     /\ ExpandExtents (write_extents p') = f <$> ExpandExtents (write_extents p)
                 | None, None => True
                 | _, _ => False
                 end.
Proof.
  intros [V1 V2 V3 V4] Hrep Hlen f. unfold SubstituteBlocks. rewrite (proj2 (Nat.eqb_eq _ _)) by done.
  cbn [check_that]. rewrite outcome_bind_ret. set (m := conversion_map _).
  set (g := fun p => mkEdge (extents p) (CompressExtents (ApplyMap (ExpandExtents (write_extents p)) m))).
  pose proof (expand_all_ok _ Hrep) as Hrep'.
  assert (Hg : forall es, Forall extent_ok es ->
    Forall extent_ok (CompressExtents (ApplyMap (ExpandExtents es) m))
    /\ ExpandExtents (CompressExtents (ApplyMap (ExpandExtents es) m)) = f <$> ExpandExtents es).
  { intros es Hes. apply ApplyMap_ok; [by apply expand_all_ok|done]. }
  assert (Hfind : forall k, edge_find k ((fun e => (fst e, g (snd e))) <$> out_edges x)
                            = g <$> edge_find k (out_edges x)) by (intros k; apply edge_find_fmap).
  set (x' := set_aop _ _).
  assert (Hout : out_edges x' = (fun e => (fst e, g (snd e))) <$> out_edges x) by done.
  exists x'. split; [done|]. split_and!; [|done|eexists; split; [done|]; by apply Hg|].
  - split; simpl; [by apply Hg|done|by apply (map_ok_fmap (fun e => g (snd e)))|].
    intros k p Hk. change (edge_find k (out_edges x') = Some p) in Hk.
    rewrite Hout, Hfind in Hk. destruct (edge_find k (out_edges x)) as [q|] eqn:E; simplify_eq/=.
    destruct (V4 k q E). split; [done|]. by apply Hg.
  - intros k. rewrite Hout, Hfind. destruct (edge_find k (out_edges x)) as [q|] eqn:E; simpl; [|done].
    split; [done|]. apply Hg, (V4 k q E).
Qed.

Definition edge_reads (o : option EdgeProperties) : list Z := from_option (fun p => ExpandExtents (extents p)) [] o.
Definition edge_writes (o : option EdgeProperties) : list Extent := from_option write_extents [] o.

(** [x'] is [x] with the blocks [bs] added to its edge to [k]. *)
Record read_before (k : Index) (bs : list Z) (x x' : Vertex) : Prop := {
  rb_ok : vertex_ok x';
  rb_valid : valid x' = valid x;
  rb_aop : aop x' = aop x;
  rb_other : forall j, j <> k -> edge_find j (out_edges x') = edge_find j (out_edges x);
  rb_link : bs <> [] -> is_Some (edge_find k (out_edges x'));
  rb_none : bs = [] -> edge_find k (out_edges x') = edge_find k (out_edges x);
  rb_reads : edge_reads (edge_find k (out_edges x')) = edge_reads (edge_find k (out_edges x)) ++ bs;
  rb_writes : edge_writes (edge_find k (out_edges x')) = edge_writes (edge_find k (out_edges x));
}.

Lemma read_before_nil k x : vertex_ok x -> read_before k [] x x.
Proof. intros Hx. split; try done. by rewrite app_nil_r. Qed.

Lemma read_before_trans k bs cs x y z :
  read_before k bs x y -> read_before k cs y z -> read_before k (bs ++ cs) x z.
Proof.
  intros [A1 A2 A3 A4 A5 A6 A7 A8] [B1 B2 B3 B4 B5 B6 B7 B8]. split; try congruence.
  - intros j Hj. rewrite B4, A4 by done. done.
  - intros Hne. destruct cs as [|c cs]; [|by apply B5]. rewrite B6 by done. apply A5. by rewrite app_nil_r in Hne.
  - intros [-> ->]%app_eq_nil. rewrite B6, A6 by done. done.
  - by rewrite B7, A7, app_assoc.
Qed.

Lemma AddReadBeforeDep_spec x k b :
  vertex_ok x -> block_ok b -> read_before k [b] x (AddReadBeforeDep x k b).
Proof.
  intros [V1 V2 V3 V4] Hb. unfold AddReadBeforeDep.
  set (f := fun p => mkEdge (AppendBlockToExtents (extents p) b) (write_extents p)).
  set (edges := match edge_find k (out_edges x) with Some _ => _ | None => _ end).
  assert (He : map_ok edges) by (unfold edges; case_match; [done|by apply map_ok_insert]).
  assert (Hj : forall j, j <> k -> edge_find j edges = edge_find j (out_edges x)).
  { intros j Hj. unfold edges. case_match eqn:E; [done|]. by rewrite edge_find_insert, decide_False. }
  assert (Hk : edge_find k edges = Some (default EdgeProperties_new (edge_find k (out_edges x)))).
  { unfold edges. case_match eqn:E; [done|]. by rewrite edge_find_insert, decide_True. }
  set (p := default EdgeProperties_new (edge_find k (out_edges x))) in *.
  assert (Hp : Forall extent_ok (extents p) /\ Forall extent_ok (write_extents p)).
  { unfold p. destruct (edge_find k (out_edges x)) as [q|] eqn:E; simpl; [by apply (V4 k)|done]. }
  destruct (AppendBlock_expand (extents p) b (proj1 Hp) Hb) as [Ha1 Ha2].
  assert (Hfk : edge_find k (edge_alter f k edges) = Some (f p)) by (by rewrite edge_find_alter, decide_True, Hk).
  assert (Hfj : forall j, j <> k -> edge_find j (edge_alter f k edges) = edge_find j (out_edges x))
    by (intros j Hne; by rewrite edge_find_alter, decide_False, Hj by done).
  split; simpl; try done.
  - split; simpl; [done|done|by apply map_ok_alter|]. intros j q Hq.
    destruct (decide (j = k)) as [->|Hne]; [rewrite Hfk in Hq; simplify_eq; simpl; tauto|].
    rewrite Hfj in Hq by done. by apply (V4 j).
  - rewrite Hfk. simpl. rewrite Ha2. f_equal. unfold p. by destruct (edge_find k (out_edges x)).
  - rewrite Hfk. simpl. unfold p. by destruct (edge_find k (out_edges x)).
Qed.

Lemma AddReadBeforeDepExtents_spec x k es :
  vertex_ok x -> Forall extent_ok es ->
  read_before k (ExpandExtents es) x (AddReadBeforeDepExtents x k es).
Proof.
  intros Hx Hes. unfold AddReadBeforeDepExtents. revert x Hx.
  assert (Hfold : forall bs x, vertex_ok x -> Forall block_ok bs ->
    read_before k bs x (fold_left (fun src block => AddReadBeforeDep src k block) bs x)).
  { induction bs as [|b bs IH]; intros x Hx Hbs; simpl; [by apply read_before_nil|].
    apply Forall_cons_1 in Hbs as [Hb Hbs]. pose proof (AddReadBeforeDep_spec x k b Hx Hb) as H1.
    apply (read_before_trans k [b] bs x (AddReadBeforeDep x k b)); [done|]. apply IH; [|done]. apply H1. }
  induction Hes as [|e es He Hes IH]; intros x Hx; simpl; [by apply read_before_nil|].
  assert (Hu : u64 <$> seqZ (start_block e) (num_blocks e) = expand e).
  { rewrite expand_ok by done. rewrite <- (list_fmap_id (seqZ _ _)) at 2. apply list_fmap_ext.
    intros i b Hi%list_elem_of_lookup_2. apply elem_of_seqZ in Hi. unfold extent_ok, kSparseHole in He.
    apply uint_small. unfold is_uint, id. lia. }
  rewrite Hu, ExpandExtents_cons. assert (Hb : Forall block_ok (expand e)).
  { assert (Hb : Forall block_ok (ExpandExtents [e])) by (apply expand_all_ok; by constructor).
    rewrite ExpandExtents_cons in Hb. by apply Forall_app in Hb as [? _]. }
  pose proof (Hfold _ x Hx Hb) as H1. eapply read_before_trans; [exact H1|]. apply IH, H1.
Qed.

Lemma DropWriteBeforeDeps_find m k :
  map_ok m ->
  map_ok (DropWriteBeforeDeps m)
  /\ edge_find k (DropWriteBeforeDeps m)
     = p ← edge_find k m; if decide (extents p <> []) then Some (mkEdge (extents p) []) else None.
Proof.
  intros Hm. unfold DropWriteBeforeDeps.
  pose proof (map_ok_fmap (fun e => mkEdge (extents (snd e)) []) m Hm) as Hf.
  split; [by apply map_ok_filter|]. rewrite edge_find_filter by done.
  rewrite (edge_find_fmap (fun p => mkEdge (extents p) [])).
  destruct (edge_find k m) as [p|]; [|done]. simpl. repeat case_decide; done.
Qed.

(** ** Graphs *)

(** The blocks a vertex reads and writes, and the edge between two vertices. *)
Definition reads (g : Graph) (v : Index) : list Z :=
  from_option (fun x => ExpandExtents (src_extents (aop x))) [] (g !! v).
Definition writes (g : Graph) (v : Index) : list Z :=
  from_option (fun x => ExpandExtents (dst_extents (aop x))) [] (g !! v).
Definition link (g : Graph) (u v : Index) : option EdgeProperties :=
  g !! u ≫= fun x => edge_find v (out_edges x).

Abbreviation needs g u v := (edge_reads (link g u v)).

Lemma edge_link g u v : edge g u v <-> is_Some (link g u v).
Proof.
  unfold edge, link, successors. destruct (g !! u) as [x|] eqn:E; simpl.
  - rewrite edge_find_elem. split; [intros (y & [= <-] & Hy); done|eauto].
  - split; [by intros (x & ? & _)|by intros []].
Qed.

Lemma lookup_alter_graph (f : Vertex -> Vertex) v (g : Graph) u :
  alter f v g !! u = if decide (u = v) then f <$> g !! u else g !! u.
Proof.
  case_decide as H; [subst; apply list_lookup_alter_eq|by apply list_lookup_alter_ne].
Qed.

Lemma lookup_insert_graph (x : Vertex) v (g : Graph) u :
  (v < length g)%nat -> <[v := x]> g !! u = if decide (u = v) then Some x else g !! u.
Proof.
  intros Hv. case_decide as H; [subst; by apply list_lookup_insert_eq|by apply list_lookup_insert_ne].
Qed.

Lemma lookup_snoc_graph (g : Graph) x u :
  (g ++ [x]) !! u = if decide (u = length g) then Some x else g !! u.
Proof.
  case_decide as H; [subst; by rewrite lookup_app_r, Nat.sub_diag|].
  destruct (decide (u < length g)%nat) as [Hlt|Hge]; [by rewrite lookup_app_l|].
  rewrite (lookup_ge_None_2 g) by lia. apply lookup_ge_None_2. rewrite length_app. simpl. lia.
Qed.

Lemma graph_ok_lookup (g : Graph) v x : Forall vertex_ok g -> g !! v = Some x -> vertex_ok x.
Proof. intros Hg. rewrite Forall_lookup in Hg. apply Hg. Qed.

Lemma graph_ok_alter (f : Vertex -> Vertex) v (g : Graph) :
  Forall vertex_ok g -> (forall x, g !! v = Some x -> vertex_ok (f x)) -> Forall vertex_ok (alter f v g).
Proof.
  intros Hg Hf. rewrite Forall_lookup in *. intros i x. rewrite lookup_alter_graph.
  case_decide as H; [subst|by apply Hg]. destruct (g !! v) as [y|] eqn:E; intros [= <-]. by apply Hf.
Qed.

Lemma graph_ok_insert x v (g : Graph) :
  Forall vertex_ok g -> vertex_ok x -> Forall vertex_ok (<[v := x]> g).
Proof. intros. by apply Forall_insert. Qed.
