(* ===== verification/UpdateBuild.v ===== *)
(** * UpdateBuild: the dependency graph of the in-place generator

    What [add_operation] and [CreateEdges] of UpdateInplace make of a list of
    operations: a vertex per operation, and an edge from the writer of a block
    to its reader with exactly the blocks between the two.  [built] collects
    what the later stages rely on. *)
From stdpp Require Import gmap relations sets.
From S2P Require Import Prelude UpdateExtents UpdateGraph UpdateTarjan UpdateCycles UpdateInplace UpdateViews.

(** Operations on a device of [n] blocks as the generator expects them: no
    block is read twice and none is written twice. *)
Record ops_ok (n : Z) (aops : list AnnotatedOperation) : Prop := {
  oo_type : forall op, op ∈ aops -> is_Some (op_type op);
  oo_dst : forall op, op ∈ aops -> dst_extents op <> [];
  oo_full : forall op, op ∈ aops -> is_full_type (type_of op) = true -> src_extents op = [];
  oo_extents : forall op, op ∈ aops -> Forall extent_ok (src_extents op) /\ Forall extent_ok (dst_extents op);
  oo_range : forall op b, op ∈ aops -> b ∈ ExpandExtents (src_extents op) ++ ExpandExtents (dst_extents op) -> b < n;
  oo_reads : NoDup (aops ≫= fun op => ExpandExtents (src_extents op));
  oo_writes : NoDup (aops ≫= fun op => ExpandExtents (dst_extents op));
}.

Definition op_vertex (op : AnnotatedOperation) : Vertex := set_aop op Vertex_new.

(** ** The vector of blocks *)

Lemma visited_expand es : Forall extent_ok es -> es ≫= visited_blocks = ExpandExtents es.
Proof.
  unfold ExpandExtents. induction 1 as [|e es He Hes IH]; [done|]. rewrite !bind_cons, IH. f_equal.
  rewrite expand_ok by done. unfold visited_blocks. rewrite u64_end by done. f_equal. lia.
Qed.

Lemma access_extents_spec get set es blocks :
  Forall extent_ok es -> NoDup (ExpandExtents es) ->
  (forall b, b ∈ ExpandExtents es -> exists x, blocks !! Z.to_nat b = Some x /\ get x = None) ->
  exists blocks', access_extents get set es blocks = Ret blocks'
    /\ forall b, 0 <= b -> blocks' !! Z.to_nat b
         = if decide (b ∈ ExpandExtents es) then set <$> blocks !! Z.to_nat b else blocks !! Z.to_nat b.
Proof.
  intros Hes Hnd Hb. unfold access_extents. rewrite visited_expand by done.
  pose proof (expand_all_ok _ Hes) as Hok. rewrite Forall_forall in Hok.
  pose (I := fun (done : list Z) (blocks' : list Block) => forall b, 0 <= b -> blocks' !! Z.to_nat b
       = if decide (b ∈ done) then set <$> blocks !! Z.to_nat b else blocks !! Z.to_nat b).
  apply (foldM_inv (access_block get set) I (ExpandExtents es) blocks).
  { intros b _. rewrite decide_False by apply not_elem_of_nil. done. }
  intros done a todo blocks1 Hl IH. assert (Ha : a ∈ ExpandExtents es) by (rewrite Hl; set_solver).
  pose proof (Hok a Ha) as Hpos. unfold block_ok in Hpos. destruct (Hb a Ha) as (x & Hx & Hget).
  assert (Hout : a ∉ done).
  { rewrite Hl in Hnd. apply NoDup_app in Hnd as (_ & Hd & _). intros Hin. apply (Hd a Hin). by left. }
  unfold access_block. rewrite IH, decide_False, Hx by (done || lia). cbn [of_option].
  rewrite outcome_bind_ret, bool_decide_true by done. cbn [check_that]. rewrite outcome_bind_ret.
  eexists. split; [done|]. intros b Hb0. destruct (decide (b = a)) as [->|Hne].
  - rewrite list_lookup_insert_eq.
    + rewrite decide_True by set_solver. by rewrite Hx.
    + apply lookup_lt_is_Some_1. rewrite IH, decide_False, Hx by (done || lia). by eexists.
  - rewrite list_lookup_insert_ne by lia. rewrite IH by done.
    destruct (decide (b ∈ done)) as [Hin|Hin]; [rewrite decide_True by set_solver; done|].
    rewrite decide_False by set_solver. done.
Qed.

(** The vector tells, for each block, which vertex reads and writes it. *)
Definition blocks_of (g : Graph) (n : Z) (blocks : list Block) : Prop :=
  forall b, 0 <= b -> (b < n <-> is_Some (blocks !! Z.to_nat b))
    /\ forall x, blocks !! Z.to_nat b = Some x ->
         forall v, (reader x = Some v <-> b ∈ reads g v) /\ (writer x = Some v <-> b ∈ writes g v).

Lemma reads_snoc g x v :
  reads (g ++ [x]) v = if decide (v = length g) then ExpandExtents (src_extents (aop x)) else reads g v.
Proof. unfold reads. rewrite lookup_snoc_graph. by case_decide. Qed.

Lemma writes_snoc g x v :
  writes (g ++ [x]) v = if decide (v = length g) then ExpandExtents (dst_extents (aop x)) else writes g v.
Proof. unfold writes. rewrite lookup_snoc_graph. by case_decide. Qed.

Lemma reads_lt g v b : b ∈ reads g v -> (v < length g)%nat.
Proof. unfold reads. destruct (g !! v) eqn:E; [by intros _; apply lookup_lt_Some in E|by intros ?%elem_of_nil]. Qed.

Lemma writes_lt g v b : b ∈ writes g v -> (v < length g)%nat.
Proof. unfold writes. destruct (g !! v) eqn:E; [by intros _; apply lookup_lt_Some in E|by intros ?%elem_of_nil]. Qed.

Lemma reads_ops aops v b :
  b ∈ reads (op_vertex <$> aops) v -> b ∈ aops ≫= fun op => ExpandExtents (src_extents op).
Proof.
  unfold reads. rewrite list_lookup_fmap. destruct (aops !! v) as [op|] eqn:E; simpl; [|by intros ?%elem_of_nil].
  intros Hb. apply list_elem_of_bind. exists op. split; [done|]. by apply list_elem_of_lookup_2 in E.
Qed.

Lemma writes_ops aops v b :
  b ∈ writes (op_vertex <$> aops) v -> b ∈ aops ≫= fun op => ExpandExtents (dst_extents op).
Proof.
  unfold writes. rewrite list_lookup_fmap. destruct (aops !! v) as [op|] eqn:E; simpl; [|by intros ?%elem_of_nil].
  intros Hb. apply list_elem_of_bind. exists op. split; [done|]. by apply list_elem_of_lookup_2 in E.
Qed.

(** ** Adding the operations *)

(** The vector after the accesses of a new operation. *)
Lemma blocks_of_snoc g n blocks blocks' op :
  blocks_of g n blocks ->
  (forall b v, b ∈ ExpandExtents (src_extents op) -> b ∉ reads g v) ->
  (forall b v, b ∈ ExpandExtents (dst_extents op) -> b ∉ writes g v) ->
  (forall b, 0 <= b -> blocks' !! Z.to_nat b = (fun y =>
     mkBlock (if decide (b ∈ ExpandExtents (src_extents op)) then Some (length g) else reader y)
             (if decide (b ∈ ExpandExtents (dst_extents op)) then Some (length g) else writer y))
     <$> blocks !! Z.to_nat b) ->
  blocks_of (g ++ [op_vertex op]) n blocks'.
Proof.
  intros Hblocks Hs Hd Hb'. set (v := length g) in *.
  assert (Hv : forall b, b ∉ reads g v /\ b ∉ writes g v).
  { intros b. split; intros Hb; [apply reads_lt in Hb|apply writes_lt in Hb]; unfold v in Hb; lia. }
  intros b Hb. destruct (Hblocks b Hb) as [H1 H2]. rewrite Hb' by done.
  split; [by rewrite fmap_is_Some|]. intros x (y & Hy & ->)%fmap_Some u.
  rewrite reads_snoc, writes_snoc. fold v. specialize (H2 y Hy).
  destruct (H2 u) as [Hry Hwy], (Hv b), (H2 v) as [Hrv Hwv]. simpl. split.
  - destruct (decide (b ∈ ExpandExtents (src_extents op))), (decide (u = v)) as [->|]; naive_solver.
  - destruct (decide (b ∈ ExpandExtents (dst_extents op))), (decide (u = v)) as [->|]; naive_solver.
Qed.

(** A block that no vertex reads (writes) has no reader (writer). *)
Lemma blocks_of_free g n blocks (get : Block -> option Index) (acc : Graph -> Index -> list Z) b :
  blocks_of g n blocks -> 0 <= b < n -> (forall v, b ∉ acc g v) ->
  (forall x, blocks !! Z.to_nat b = Some x -> forall v, get x = Some v -> b ∈ acc g v) ->
  exists x, blocks !! Z.to_nat b = Some x /\ get x = None.
Proof.
  intros Hblocks Hb Hfree Hget. destruct (Hblocks b) as [H1 H2]; [lia|].
  destruct (proj1 H1) as [x Hx]; [lia|]. exists x. split; [done|].
  destruct (get x) as [v|] eqn:E; [|done]. by apply Hget, Hfree in E.
Qed.

Lemma add_operation_spec n g op blocks :
  blocks_of g n blocks ->
  is_Some (op_type op) -> dst_extents op <> [] ->
  Forall extent_ok (src_extents op) -> Forall extent_ok (dst_extents op) ->
  (forall b, b ∈ ExpandExtents (src_extents op) ++ ExpandExtents (dst_extents op) -> b < n) ->
  NoDup (ExpandExtents (src_extents op)) -> NoDup (ExpandExtents (dst_extents op)) ->
  (forall b v, b ∈ ExpandExtents (src_extents op) -> b ∉ reads g v) ->
  (forall b v, b ∈ ExpandExtents (dst_extents op) -> b ∉ writes g v) ->
  exists blocks', add_operation (g, blocks) op = Ret (g ++ [op_vertex op], blocks')
    /\ blocks_of (g ++ [op_vertex op]) n blocks'.
Proof.
  intros Hblocks Hty Hdst Hsok Hdok Hr Hns Hnd Hs Hd. unfold add_operation, AddInstallOpToGraph. cbn [fst snd].
  rewrite lookup_snoc_graph, decide_True by done. cbn [of_option]. rewrite outcome_bind_ret.
  rewrite bool_decide_true by done. cbn [check_that]. rewrite outcome_bind_ret.
  assert (Hg : alter (set_aop op) (length g) (g ++ [Vertex_new]) = g ++ [op_vertex op]).
  { apply list_eq. intros i. rewrite lookup_alter_graph, !lookup_snoc_graph. by case_decide. }
  rewrite Hg. unfold AddInstallOpToBlocksVector. rewrite decide_False by done. set (v := length g).
  assert (Hpos : forall es b, Forall extent_ok es -> b ∈ ExpandExtents es -> 0 <= b)
    by (intros es b Hes Hb; by apply expand_block_ok in Hb as [? _]).
  destruct (access_extents_spec reader (fun b => mkBlock (Some v) (writer b)) (src_extents op) blocks)
    as (bl1 & -> & Hbl1); [done|done| |].
  { intros b Hb. assert (Hb0 : 0 <= b) by eauto.
    apply (blocks_of_free g n blocks reader reads); [done|split; [done|apply Hr; set_solver]|by eauto|].
    intros x Hx u. by apply (proj2 (Hblocks b Hb0) x Hx). }
  rewrite outcome_bind_ret.
  destruct (access_extents_spec writer (fun b => mkBlock (reader b) (Some v)) (dst_extents op) bl1)
    as (bl2 & -> & Hbl2); [done|done| |].
  { intros b Hb. assert (Hb0 : 0 <= b) by eauto. rewrite Hbl1 by done.
    destruct (blocks_of_free g n blocks writer writes b) as (x & -> & Hx);
      [done|split; [done|apply Hr; set_solver]|by eauto| |].
    - intros x Hx u. by apply (proj2 (Hblocks b Hb0) x Hx).
    - case_decide; by eexists. }
  rewrite !outcome_bind_ret. simpl. eexists. split; [done|].
  apply (blocks_of_snoc g n blocks); try done. intros b Hb. rewrite Hbl2, Hbl1 by done.
  destruct (blocks !! Z.to_nat b) as [[? ?]|]; repeat case_decide; done.
Qed.

Lemma ops_ok_app n done op todo :
  ops_ok n (done ++ op :: todo) ->
  NoDup (ExpandExtents (src_extents op)) /\ NoDup (ExpandExtents (dst_extents op))
  /\ (forall b v, b ∈ ExpandExtents (src_extents op) -> b ∉ reads (op_vertex <$> done) v)
  /\ (forall b v, b ∈ ExpandExtents (dst_extents op) -> b ∉ writes (op_vertex <$> done) v).
Proof.
  intros [_ _ _ _ _ O6 O7]. rewrite bind_app, bind_cons in O6, O7.
  apply NoDup_app in O6 as (_ & Hs & [Hs1 _]%NoDup_app), O7 as (_ & Hd & [Hd1 _]%NoDup_app).
  split_and!; try done.
  - intros b v Hb Hb'. apply reads_ops in Hb'. apply (Hs b Hb'), elem_of_app. by left.
  - intros b v Hb Hb'. apply writes_ops in Hb'. apply (Hd b Hb'), elem_of_app. by left.
Qed.

Lemma add_operations_spec n aops :
  0 <= n -> ops_ok n aops ->
  exists blocks, foldM add_operation aops ([], replicate (Z.to_nat n) Block_new) = Ret (op_vertex <$> aops, blocks)
    /\ blocks_of (op_vertex <$> aops) n blocks.
Proof.
  intros Hn Hok.
  destruct (foldM_inv add_operation (fun done s => fst s = op_vertex <$> done /\ blocks_of (fst s) n (snd s))
    aops ([], replicate (Z.to_nat n) Block_new)) as ([g blocks] & -> & [Hg Hb]).
  - split; [done|]. intros b Hb. simpl. split.
    + split; [intros Hlt; exists Block_new; apply lookup_replicate; split; [done|lia]|].
      intros [x Hx]. apply lookup_replicate in Hx as [_ Hx]. lia.
    + intros x [-> _]%lookup_replicate v. unfold reads, writes. simpl.
      split; split; try done; by intros ?%elem_of_nil.
  - intros done op todo [g blocks] Hl [Hg Hb]. simpl in *. subst g.
    assert (Hin : op ∈ aops) by (rewrite Hl; set_solver). rewrite Hl in Hok.
    destruct (ops_ok_app _ _ _ _ Hok) as (H1 & H2 & H3 & H4). rewrite <- Hl in Hok.
    destruct (oo_extents _ _ Hok op Hin) as [H5 H6].
    destruct (add_operation_spec n (op_vertex <$> done) op blocks) as (blocks' & -> & Hb'); try done.
    + by apply (oo_type _ _ Hok).
    + by apply (oo_dst _ _ Hok).
    + intros b. by apply (oo_range _ _ Hok).
    + eexists. split; [done|]. simpl. by rewrite fmap_app.
  - simpl in *. subst g. by exists blocks.
Qed.

(** ** Creating the edges *)

(** The blocks below [i] that [u] writes and another vertex [v] reads. *)
Definition between (g : Graph) (i : Z) (u v : Index) : list Z :=
  filter (fun b => u <> v /\ b ∈ writes g u /\ b ∈ reads g v) (seqZ 0 i).

(** [g'] is [g] with edges for the blocks below [i]. *)
Record edges_upto (g : Graph) (i : Z) (g' : Graph) : Prop := {
  eu_length : length g' = length g;
  eu_ok : Forall vertex_ok g';
  eu_same : forall v x', g' !! v = Some x' -> exists x, g !! v = Some x /\ aop x' = aop x /\ valid x' = valid x;
  eu_needs : forall u v, (u < length g)%nat -> needs g' u v = between g i u v;
  eu_link : forall u v, is_Some (link g' u v) -> needs g' u v <> [];
  eu_writes : forall u v, edge_writes (link g' u v) = [];
}.

Lemma between_snoc g i u v :
  0 <= i ->
  between g (i + 1) u v
  = between g i u v ++ if decide (u <> v /\ i ∈ writes g u /\ i ∈ reads g v) then [i] else [].
Proof. intros Hi. unfold between. by rewrite seqZ_app, filter_app by lia. Qed.

Lemma link_alter_eq f w (g : Graph) x v :
  g !! w = Some x -> link (alter f w g) w v = edge_find v (out_edges (f x)).
Proof. intros Hx. unfold link. by rewrite lookup_alter_graph, decide_True, Hx. Qed.

Lemma link_alter_ne f w (g : Graph) u v : u <> w -> link (alter f w g) u v = link g u v.
Proof. intros Hu. unfold link. by rewrite lookup_alter_graph, decide_False. Qed.

Lemma create_edge_add g i g' r w :
  0 <= i < kSparseHole -> edges_upto g i g' -> r <> w -> (w < length g)%nat ->
  i ∈ writes g w -> i ∈ reads g r ->
  (forall u v, i ∈ writes g u -> i ∈ reads g v -> u = w /\ v = r) ->
  edges_upto g (i + 1) (alter (fun v => AddReadBeforeDep v r i) w g').
Proof.
  intros Hi [E1 E2 E3 E4 E5 E6] Hne Hw Hiw Hir Huniq.
  destruct (lookup_lt_is_Some_2 g' w) as [x Hx]; [lia|].
  destruct (AddReadBeforeDep_spec x r i) as [R1 R2 R3 R4 R5 _ R7 R8]; [by apply (graph_ok_lookup g' w)|done|].
  assert (Hlink : forall v, link g' w v = edge_find v (out_edges x)) by (intros v; unfold link; by rewrite Hx).
  split.
  - by rewrite length_alter.
  - apply graph_ok_alter; [done|]. by intros y [= <-]%(eq_trans (eq_sym Hx)).
  - intros v y. rewrite lookup_alter_graph. case_decide as Hv; [|apply E3]. subst. rewrite Hx. intros [= <-].
    rewrite R2, R3. by apply E3.
  - intros u v Hu. rewrite between_snoc, <- E4 by (done || lia). destruct (decide (u = w)) as [->|Huw].
    + rewrite (link_alter_eq _ _ _ x) by done. destruct (decide (v = r)) as [->|Hv].
      * rewrite R7, Hlink, decide_True by auto. done.
      * rewrite R4, Hlink, decide_False by naive_solver. by rewrite app_nil_r.
    + rewrite link_alter_ne, decide_False by naive_solver. by rewrite app_nil_r.
  - intros u v. destruct (decide (u = w)) as [->|Huw]; [|rewrite link_alter_ne by done; apply E5].
    rewrite (link_alter_eq _ _ _ x) by done.
    destruct (decide (v = r)) as [->|Hv]; [|rewrite R4 by done; rewrite <- Hlink; apply E5].
    intros _. rewrite R7. by destruct (edge_reads (edge_find r (out_edges x))).
  - intros u v. destruct (decide (u = w)) as [->|Huw]; [|rewrite link_alter_ne by done; apply E6].
    rewrite (link_alter_eq _ _ _ x) by done.
    destruct (decide (v = r)) as [->|Hv]; [rewrite R8|rewrite R4 by done]; rewrite <- Hlink; apply E6.
Qed.

Lemma create_edge_skip g i g' :
  0 <= i -> edges_upto g i g' -> (forall u v, u <> v -> i ∈ writes g u -> i ∈ reads g v -> False) ->
  edges_upto g (i + 1) g'.
Proof.
  intros Hi [E1 E2 E3 E4 E5 E6] Hno. split; try done. intros u v Hu.
  rewrite between_snoc, decide_False, app_nil_r by naive_solver. by apply E4.
Qed.

Lemma blocks_of_length g n blocks : 0 <= n -> blocks_of g n blocks -> length blocks = Z.to_nat n.
Proof.
  intros Hn Hblocks. destruct (lt_eq_lt_dec (length blocks) (Z.to_nat n)) as [[Hlt|Heq]|Hgt]; [|done|].
  - destruct (Hblocks (zlen blocks)) as [[H1 _] _]; [unfold zlen; lia|]. destruct H1 as [x Hx]; [unfold zlen; lia|].
    apply lookup_lt_Some in Hx. unfold zlen in Hx. lia.
  - destruct (Hblocks n) as [[_ H1] _]; [lia|]. assert (n < n); [|lia]. apply H1, lookup_lt_is_Some_2. lia.
Qed.

Lemma CreateEdges_spec g n blocks :
  Forall vertex_ok g -> (forall v x, g !! v = Some x -> out_edges x = []) -> 0 <= n < kSparseHole ->
  blocks_of g n blocks ->
  exists g', CreateEdges g blocks = Ret g' /\ edges_upto g n g'.
Proof.
  intros Hg Hnone Hn Hblocks. unfold CreateEdges.
  pose proof (blocks_of_length g n blocks ltac:(lia) Hblocks) as Hlen.
  destruct (foldM_inv create_edge (fun done g' => edges_upto g (zlen done) g') (imap pair blocks) g) as (g' & -> & Hg').
  - assert (Hlk : forall u v, link g u v = None).
    { intros u v. unfold link. destruct (g !! u) as [x|] eqn:E; [|done]. simpl. by rewrite (Hnone u x E). }
    split; try done; [by eauto|intros u v _; by rewrite Hlk|intros u v; rewrite Hlk; by intros []|intros u v; by rewrite Hlk].
  - intros done [k b] todo g1 Hl Hg1.
    assert (Hk : imap pair blocks !! length done = Some (k, b)) by (by rewrite Hl, lookup_app_r, Nat.sub_diag).
    rewrite list_lookup_imap in Hk. apply fmap_Some in Hk as (b' & Hb & [= -> ->]).
    assert (Hi : Z.of_nat (length done) = zlen done) by done.
    pose proof (lookup_lt_Some _ _ _ Hb) as Hlt. rewrite zlen_app. change (zlen [_]) with 1.
    assert (Hz : 0 <= zlen done < n) by (unfold zlen; lia).
    destruct (Hblocks (zlen done)) as [_ H2]; [lia|]. unfold zlen in H2 at 1. rewrite Nat2Z.id in H2. specialize (H2 b' Hb).
    assert (Hskip : forall u v, zlen done ∈ writes g u -> zlen done ∈ reads g v ->
              writer b' = Some u /\ reader b' = Some v) by (intros u v Hu Hv; split; by apply H2).
    unfold create_edge. cbn [fst snd].
    destruct (reader b') as [r|] eqn:Er;
      [|eexists; split; [done|]; apply create_edge_skip; [lia|done|intros u v _ Hu Hv; by destruct (Hskip u v Hu Hv)]].
    destruct (writer b') as [w|] eqn:Ew;
      [|eexists; split; [done|]; apply create_edge_skip; [lia|done|intros u v _ Hu Hv; by destruct (Hskip u v Hu Hv)]].
    case_decide as Hrw.
    + subst w. eexists. split; [done|]. apply create_edge_skip; [lia|done|].
      intros u v Hne Hu Hv. destruct (Hskip u v Hu Hv). congruence.
    + assert (Hir : zlen done ∈ reads g r) by (by apply H2).
      assert (Hiw : zlen done ∈ writes g w) by (by apply H2). pose proof (writes_lt _ _ _ Hiw) as Hwl.
      destruct (lookup_lt_is_Some_2 g1 w) as [x Hx]; [by rewrite (eu_length _ _ _ Hg1)|].
      rewrite Hx. cbn [of_option]. rewrite outcome_bind_ret. eexists. split; [done|]. rewrite Hi.
      apply create_edge_add; try done; [lia|]. intros u v Hu Hv. destruct (Hskip u v Hu Hv). split; congruence.
  - exists g'. split; [done|]. unfold zlen in Hg'. rewrite length_imap, Hlen, Z2Nat.id in Hg' by lia. done.
Qed.

(** ** The graph the cutting starts from *)

(** The vertices of a graph for a device of which [n] blocks hold data and [p]
    blocks exist. *)
Record fine (n p : Z) (g : Graph) : Prop := {
  fi_ok : Forall vertex_ok g;
  fi_vertex : forall v x, g !! v = Some x ->
    is_Some (op_type (aop x)) /\ valid x = true /\ dst_extents (aop x) <> [];
  fi_reads : forall v b, b ∈ reads g v -> 0 <= b < n;
  fi_writes : forall v b, b ∈ writes g v -> 0 <= b < p;
  fi_reader : forall u v b, b ∈ reads g u -> b ∈ reads g v -> u = v;
  fi_writer : forall u v b, b ∈ writes g u -> b ∈ writes g v -> u = v;
  fi_reads_NoDup : forall v, NoDup (reads g v);
  fi_writes_NoDup : forall v, NoDup (writes g v);
  fi_full : forall v x, g !! v = Some x -> is_full_type (type_of (aop x)) = true -> reads g v = [];
}.

(** With the edges: from the writer of a block to another vertex that reads
    it, with all blocks between the two. *)
Record built (n p : Z) (g : Graph) : Prop := {
  bu_fine :> fine n p g;
  bu_needs : forall u v b, b ∈ needs g u v <-> u <> v /\ b ∈ writes g u /\ b ∈ reads g v;
  bu_needs_NoDup : forall u v, NoDup (needs g u v);
  bu_link : forall u v, is_Some (link g u v) -> needs g u v <> [];
  bu_nowrite : forall u v, edge_writes (link g u v) = [];
}.

Lemma edges_upto_same g i g' :
  edges_upto g i g' -> forall v, reads g' v = reads g v /\ writes g' v = writes g v.
Proof.
  intros [E1 E2 E3 _ _ _] v. unfold reads, writes. destruct (g' !! v) as [x'|] eqn:E.
  - destruct (E3 v x' E) as (x & -> & Ha & _). simpl. by rewrite Ha.
  - apply lookup_ge_None in E. rewrite (lookup_ge_None_2 g) by lia. done.
Qed.

Lemma edges_upto_fine n p g i g' : fine n p g -> edges_upto g i g' -> fine n p g'.
Proof.
  intros [U1 U3 U4 U5 U6 U7 U8 U9 U10] E. pose proof (edges_upto_same _ _ _ E) as Hs.
  destruct E as [E1 E2 E3 _ _ _].
  assert (Hr : forall v, reads g' v = reads g v) by (intros v; apply Hs).
  assert (Hw : forall v, writes g' v = writes g v) by (intros v; apply Hs).
  split; try done.
  - intros v x' Hx'. destruct (E3 v x' Hx') as (x & Hx & -> & ->). by apply (U3 v).
  - intros v b. rewrite Hr. apply U4.
  - intros v b. rewrite Hw. apply U5.
  - intros u v b. rewrite !Hr. apply U6.
  - intros u v b. rewrite !Hw. apply U7.
  - intros v. rewrite Hr. apply U8.
  - intros v. rewrite Hw. apply U9.
  - intros v x' Hx'. destruct (E3 v x' Hx') as (x & Hx & -> & _). rewrite Hr. by apply (U10 v x).
Qed.

Lemma edges_upto_built n p g g' : fine n p g -> edges_upto g n g' -> built n p g'.
Proof.
  intros Hf E. pose proof (edges_upto_same _ _ _ E) as Hs. pose proof (edges_upto_fine _ _ _ _ _ Hf E) as Hf'.
  destruct E as [E1 E2 E3 E4 E5 E6].
  assert (Hneeds : forall u v, needs g' u v = between g n u v).
  { intros u v. destruct (decide (u < length g)%nat) as [Hlt|Hge]; [by apply E4|].
    unfold link, between. rewrite (lookup_ge_None_2 g') by lia. simpl.
    induction (seqZ 0 n) as [|b l IH]; [done|]. rewrite filter_cons, decide_False; [done|].
    intros (_ & Hb & _). apply writes_lt in Hb. lia. }
  split; try done.
  - intros u v b. rewrite Hneeds, (proj2 (Hs u)), (proj1 (Hs v)). unfold between.
    rewrite list_elem_of_filter, elem_of_seqZ. split; [by intros [? _]|]. intros H. split; [done|].
    destruct H as (_ & _ & Hb). apply (fi_reads _ _ _ Hf) in Hb. lia.
  - intros u v. rewrite Hneeds. unfold between. apply NoDup_filter, NoDup_seqZ.
Qed.

(** *** From the operations *)

Lemma NoDup_bind_lookup {A B} (f : A -> list B) l i j x y b :
  NoDup (l ≫= f) -> l !! i = Some x -> l !! j = Some y -> b ∈ f x -> b ∈ f y -> i = j.
Proof.
  revert i j. induction l as [|z l IH]; intros i j Hnd Hx Hy Hbx Hby; [done|].
  rewrite bind_cons in Hnd. apply NoDup_app in Hnd as (_ & Hd & Hnd).
  assert (Hin : forall k a, l !! k = Some a -> b ∈ f a -> b ∈ l ≫= f).
  { intros k a Hk Ha. apply list_elem_of_bind. exists a. split; [done|]. by apply list_elem_of_lookup_2 in Hk. }
  destruct i as [|i], j as [|j]; simplify_eq/=; [done| | |f_equal; by apply (IH i j)].
  - destruct (Hd b Hbx). by apply (Hin j y).
  - destruct (Hd b Hby). by apply (Hin i x).
Qed.

Lemma NoDup_bind_elem {A B} (f : A -> list B) l x : NoDup (l ≫= f) -> x ∈ l -> NoDup (f x).
Proof.
  intros Hnd Hx. apply list_elem_of_split in Hx as (a & b & ->). rewrite bind_app, bind_cons in Hnd.
  by apply NoDup_app in Hnd as (_ & _ & (? & _ & _)%NoDup_app).
Qed.

Lemma ops_fine n p aops : n <= p -> ops_ok n aops -> fine n p (op_vertex <$> aops).
Proof.
  intros Hp [O1 O2 O3 O4 O5 O6 O7].
  assert (Hlk : forall v x, (op_vertex <$> aops) !! v = Some x ->
            exists op, aops !! v = Some op /\ x = op_vertex op /\ op ∈ aops).
  { intros v x Hx. rewrite list_lookup_fmap in Hx. apply fmap_Some in Hx as (op & Hop & ->).
    exists op. split_and!; try done. by apply list_elem_of_lookup_2 in Hop. }
  assert (Hr : forall v b, b ∈ reads (op_vertex <$> aops) v ->
            exists op, aops !! v = Some op /\ op ∈ aops /\ b ∈ ExpandExtents (src_extents op)).
  { intros v b. unfold reads. destruct (_ !! v) as [x|] eqn:E; [|by intros ?%elem_of_nil].
    destruct (Hlk v x E) as (op & Hop & -> & Hin). simpl. eauto. }
  assert (Hw : forall v b, b ∈ writes (op_vertex <$> aops) v ->
            exists op, aops !! v = Some op /\ op ∈ aops /\ b ∈ ExpandExtents (dst_extents op)).
  { intros v b. unfold writes. destruct (_ !! v) as [x|] eqn:E; [|by intros ?%elem_of_nil].
    destruct (Hlk v x E) as (op & Hop & -> & Hin). simpl. eauto. }
  split.
  - apply Forall_lookup. intros v x Hx. destruct (Hlk v x Hx) as (op & _ & -> & Hin).
    destruct (O4 op Hin). split; try done. constructor.
  - intros v x Hx. destruct (Hlk v x Hx) as (op & _ & -> & Hin). simpl. auto.
  - intros v b (op & _ & Hin & Hb)%Hr. split; [|apply (O5 op); [done|set_solver]].
    by apply expand_block_ok in Hb as [? _]; [|apply O4].
  - intros v b (op & _ & Hin & Hb)%Hw. assert (b < n) by (apply (O5 op); [done|set_solver]).
    apply expand_block_ok in Hb as [? _]; [lia|by apply O4].
  - intros u v b (o1 & H1 & _ & Hb1)%Hr (o2 & H2 & _ & Hb2)%Hr.
    by apply (NoDup_bind_lookup (fun op => ExpandExtents (src_extents op)) aops u v o1 o2 b).
  - intros u v b (o1 & H1 & _ & Hb1)%Hw (o2 & H2 & _ & Hb2)%Hw.
    by apply (NoDup_bind_lookup (fun op => ExpandExtents (dst_extents op)) aops u v o1 o2 b).
  - intros v. unfold reads. destruct (_ !! v) as [x|] eqn:E; [|constructor].
    destruct (Hlk v x E) as (op & _ & -> & Hin).
    by apply (NoDup_bind_elem (fun op => ExpandExtents (src_extents op)) aops).
  - intros v. unfold writes. destruct (_ !! v) as [x|] eqn:E; [|constructor].
    destruct (Hlk v x E) as (op & _ & -> & Hin).
    by apply (NoDup_bind_elem (fun op => ExpandExtents (dst_extents op)) aops).
  - intros v x Hx Hfull. destruct (Hlk v x Hx) as (op & _ & -> & Hin). unfold reads. rewrite Hx. simpl.
    by rewrite (O3 op Hin Hfull).
Qed.

(** *** The scratch node *)

Abbreviation scratch_node n p := (CreateScratchNode n (p - n) Vertex_new).

Lemma scratch_extent n p : 0 <= n < p -> p < kTempBlockStart ->
  Forall extent_ok [mkExtent n (p - n)] /\ ExpandExtents [mkExtent n (p - n)] = seqZ n (p - n).
Proof.
  unfold kTempBlockStart. intros Hn Hp.
  assert (He : extent_ok (mkExtent n (p - n))) by (unfold extent_ok, kSparseHole; simpl; lia).
  split; [by constructor|]. rewrite ExpandExtents_cons, expand_ok by done. simpl. by rewrite app_nil_r.
Qed.

Lemma scratch_views g n p v : 0 <= n < p -> p < kTempBlockStart ->
  reads (g ++ [scratch_node n p]) v = reads g v
  /\ writes (g ++ [scratch_node n p]) v = if decide (v = length g) then seqZ n (p - n) else writes g v.
Proof.
  intros Hn Hp. rewrite reads_snoc, writes_snoc. split.
  - case_decide as H; [|done]. subst. unfold reads. by rewrite lookup_ge_None_2.
  - destruct (scratch_extent n p Hn Hp) as [_ He]. case_decide; [exact He|done].
Qed.

Lemma scratch_blocks g n p blocks : 0 <= n < p -> p < kTempBlockStart ->
  blocks_of g n blocks -> blocks_of (g ++ [scratch_node n p]) n blocks.
Proof.
  intros Hn Hp Hb b Hb0. destruct (Hb b Hb0) as [H1 H2]. split; [done|]. intros x Hx v.
  destruct (scratch_views g n p v Hn Hp) as [-> ->]. destruct (H2 x Hx v) as [H3 H4]. split; [done|].
  case_decide as Hv; [|done]. subst v. rewrite H4, elem_of_seqZ. split.
  - intros Hin. apply writes_lt in Hin. lia.
  - intros Hin. assert (b < n) by (apply H1; by eexists). lia.
Qed.

Lemma scratch_fine g n p : 0 <= n < p -> p < kTempBlockStart ->
  fine n n g -> fine n p (g ++ [scratch_node n p]).
Proof.
  intros Hn Hp [F1 F2 F3 F4 F5 F6 F7 F8 F9].
  destruct (scratch_extent n p Hn Hp) as [He _].
  assert (Hr : forall v, reads (g ++ [scratch_node n p]) v = reads g v) by (intros v; by apply scratch_views).
  assert (Hw : forall v, writes (g ++ [scratch_node n p]) v
                         = if decide (v = length g) then seqZ n (p - n) else writes g v)
    by (intros v; by apply scratch_views).
  split.
  - apply Forall_app. split; [done|]. apply Forall_singleton. split; try done. constructor.
  - intros v x. rewrite lookup_snoc_graph. case_decide; [intros [= <-]; simpl; eauto|apply F2].
  - intros v b. rewrite Hr. apply F3.
  - intros v b. rewrite Hw. case_decide; [intros Hb%elem_of_seqZ; lia|]. intros Hb%F4. lia.
  - intros u v b. rewrite !Hr. apply F5.
  - intros u v b. rewrite !Hw. repeat case_decide; subst; try done.
    + intros Hb%elem_of_seqZ Hb'%F4. lia.
    + intros Hb%F4 Hb'%elem_of_seqZ. lia.
    + apply F6.
  - intros v. rewrite Hr. apply F7.
  - intros v. rewrite Hw. case_decide; [apply NoDup_seqZ|apply F8].
  - intros v x. rewrite lookup_snoc_graph, Hr. case_decide; [|apply F9]. intros _ _. subst.
    unfold reads. by rewrite lookup_ge_None_2.
Qed.

Lemma CheckGraph_ok g :
  (forall v x, g !! v = Some x -> is_Some (op_type (aop x))) -> CheckGraph g = Ret ().
Proof.
  intros H. unfold CheckGraph. rewrite (proj2 (forallb_forall _ _)); [done|]. intros x Hx.
  apply list_elem_of_In, list_elem_of_lookup in Hx as [v Hv]. apply bool_decide_eq_true. by apply (H v).
Qed.
