(* ===== verification/UpdateCuts.v ===== *)
(** * UpdateCuts: what cutting edges does to the graph

    [CutEdges] of UpdateInplace.  For each edge that is cut a copy node saves
    the blocks of the edge in temporary blocks, and the reader is changed to
    read them there.  [cut_state] describes the graph in terms of the one
    before the cuts. *)
From stdpp Require Import gmap relations sets.
From S2P Require Import Prelude UpdateExtents UpdateGraph UpdateTarjan UpdateCycles UpdateInplace UpdateViews.
From S2P Require Import UpdateBuild.

Section Cuts.
Context (n p : Z) (g0 : Graph) (B : built n p g0) (Hp : 0 <= n <= p /\ p < kTempBlockStart).

(** The blocks an edge of the original graph stands for. *)
Abbreviation edge_blocks e := (needs g0 (fst e) (snd e)).
Abbreviation cut_blocks c := (needs g0 (old_src c) (old_dst c)).

(** Where vertex [v] finds the original content of block [b]: with the copy
    node of a cut, or where it was. *)
Definition found_at (cuts : list CutEdgeVertexes) (g : Graph) (v : Index) (b t : Z) : Prop :=
  (exists c j, c ∈ cuts /\ old_dst c = v /\ cut_blocks c !! j = Some b /\ writes g (new_vertex c) !! j = Some t)
  \/ ((forall c, c ∈ cuts -> old_dst c = v -> b ∉ cut_blocks c) /\ t = b).

(** The first temporary block of the cut after [es]. *)
Definition temp_base (es : list Edge) : Z := kTempBlockStart + zlen (es ≫= fun e => edge_blocks e).

Definition temp_extent (es : list Edge) (e : Edge) : Extent := mkExtent (temp_base es) (zlen (edge_blocks e)).

Definition cut_of (es : list Edge) (k : nat) (e : Edge) : CutEdgeVertexes :=
  mkCut (length g0 + k) (fst e) (snd e) [temp_extent (take k es) e].

(** The same edge, but for how the extents to be written are split. *)
Definition edge_like (o o' : option EdgeProperties) : Prop :=
  match o, o' with
  | Some q, Some q' => extents q' = extents q
      /\ Forall extent_ok (write_extents q') /\ ExpandExtents (write_extents q') = ExpandExtents (write_extents q)
  | None, None => True
  | _, _ => False
  end.

(** After the edges [es]. *)
Record cut_state (es : list Edge) (g : Graph) (cuts : list CutEdgeVertexes) (next : Z) : Prop := {
  ct_length : length g = (length g0 + length es)%nat;
  ct_ok : Forall vertex_ok g;
  ct_cuts : cuts = imap (cut_of es) es;
  ct_next : next = temp_base es;
  ct_orig : forall v x0, g0 !! v = Some x0 -> exists x sx, g !! v = Some x /\ valid x = valid x0
              /\ aop x = set_src_extents sx (aop x0);
  ct_found : forall v, (v < length g0)%nat -> Forall2 (found_at cuts g v) (reads g0 v) (reads g v);
  ct_copy : forall k e, es !! k = Some e -> exists x, g !! (length g0 + k)%nat = Some x /\ valid x = true
              /\ op_type (aop x) = Some MOVE /\ ExpandExtents (src_extents (aop x)) = edge_blocks e
              /\ dst_extents (aop x) = [temp_extent (take k es) e];
  ct_link : forall u v, (u < length g0)%nat -> (v < length g0)%nat ->
              link g u v = if decide ((u, v) ∈ es) then None else link g0 u v;
  ct_link_copy : forall u k e, (u < length g0)%nat -> es !! k = Some e ->
              edge_like (if decide (u = fst e) then link g0 (fst e) (snd e)
                         else if decide (u = snd e) then Some (mkEdge [] [temp_extent (take k es) e]) else None)
                (link g u (length g0 + k));
  ct_link_none : forall u v, (length g0 <= u)%nat \/ (length g <= v)%nat -> link g u v = None;
}.

(** ** Temporary blocks *)

Lemma edge_blocks_NoDup es : NoDup es -> NoDup (es ≫= fun e => edge_blocks e).
Proof.
  induction 1 as [|[u v] es Hin Hnd IH]; [constructor|]. rewrite bind_cons. apply NoDup_app. split_and!.
  - apply (bu_needs_NoDup _ _ _ B).
  - intros b Hb ([u' v'] & Hb' & He)%list_elem_of_bind. simpl in *.
    apply (bu_needs _ _ _ B) in Hb as (_ & Hw & Hr), Hb' as (_ & Hw' & Hr').
    assert (u = u') as <- by (by apply (fi_writer _ _ _ B u u' b)).
    by assert (v = v') as <- by (by apply (fi_reader _ _ _ B v v' b)).
  - done.
Qed.

Lemma edge_blocks_bound es : NoDup es -> zlen (es ≫= fun e => edge_blocks e) <= n.
Proof.
  intros Hnd. unfold zlen.
  enough (length (es ≫= fun e => edge_blocks e) <= length (seqZ 0 n))%nat as H
    by (rewrite length_seqZ in H; lia).
  apply submseteq_length, NoDup_submseteq; [by apply edge_blocks_NoDup|].
  intros b ([u v] & Hb & _)%list_elem_of_bind. simpl in Hb. apply elem_of_seqZ.
  apply (bu_needs _ _ _ B) in Hb as (_ & _ & Hr). apply (fi_reads _ _ _ B) in Hr. lia.
Qed.

Lemma temp_base_bound es : NoDup es -> kTempBlockStart <= temp_base es <= kTempBlockStart + n.
Proof. intros Hnd. unfold temp_base. pose proof (edge_blocks_bound es Hnd). unfold zlen in *. lia. Qed.

Lemma temp_base_snoc es e : temp_base (es ++ [e]) = temp_base es + zlen (edge_blocks e).
Proof. unfold temp_base. rewrite bind_app, zlen_app. simpl. rewrite app_nil_r. lia. Qed.

Lemma temp_extent_spec es e :
  NoDup (es ++ [e]) -> edge_blocks e <> [] ->
  extent_ok (temp_extent es e)
  /\ ExpandExtents [temp_extent es e] = seqZ (temp_base es) (zlen (edge_blocks e)).
Proof.
  intros Hnd Hne. pose proof (temp_base_bound _ Hnd) as Hb. rewrite temp_base_snoc in Hb.
  assert (Hnd' : NoDup es) by (by apply NoDup_app in Hnd as (? & _)).
  pose proof (temp_base_bound _ Hnd') as Hb'.
  assert (Hpos : 0 < zlen (edge_blocks e)) by (unfold zlen; destruct (edge_blocks e); [done|simpl; lia]).
  unfold kTempBlockStart in *. assert (He : extent_ok (temp_extent es e)) by (unfold extent_ok, kSparseHole; simpl; lia).
  split; [done|]. rewrite ExpandExtents_cons, expand_ok by done. simpl. by rewrite app_nil_r.
Qed.

Lemma EdgeWeight_spec g u v q :
  link g u v = Some q -> Forall extent_ok (extents q) -> zlen (ExpandExtents (extents q)) < 2 ^ 64 ->
  EdgeWeight g (u, v) = Ret (zlen (ExpandExtents (extents q))).
Proof.
  unfold link, EdgeWeight. cbn [fst snd]. intros Hl Hok Hlt. destruct (g !! u) as [x|]; [|done]. simpl in Hl.
  cbn [of_option]. rewrite outcome_bind_ret, Hl. cbn [of_option]. rewrite outcome_bind_ret. f_equal.
  rewrite ExpandExtents_length in * by done.
  enough (forall w, 0 <= w -> w + total (extents q) < 2 ^ 64 ->
    fold_left (fun weight e => if start_block e =? kSparseHole then weight else u64 (weight + num_blocks e)) (extents q) w
    = w + total (extents q)) as H by (rewrite H; lia).
  clear Hlt Hl. induction Hok as [|e es He Hes IH]; intros w Hw Hlt; simpl in *; [lia|].
  pose proof (total_nonneg es Hes). unfold extent_ok, kSparseHole in He.
  rewrite (proj2 (Z.eqb_neq _ _)) by (unfold kSparseHole; lia).
  rewrite (uint_small 64) by (unfold is_uint; lia). rewrite IH by lia. lia.
Qed.

(** ** One cut *)

Definition copy_operation (q : EdgeProperties) (tmp : Extent) (w : Z) : InstallOperation :=
  mkOperation (Some MOVE) None None (extents q) (Some (u64 (w * kBlockSize))) [tmp] (Some (u64 (w * kBlockSize))) None.

(** The vertices after the cut of the edge from [a] to [b]. *)
Definition cut_vertex (g : Graph) (a b : Index) (xa xb' : Vertex) (q : EdgeProperties) (tmp : Extent) (w : Z)
    (u : Index) : option Vertex :=
  if decide (u = length g) then Some (set_aop (copy_operation q tmp w) Vertex_new)
  else if decide (u = a) then Some (set_out_edges (edge_erase b (edge_insert (length g) q (out_edges xa))) xa)
  else if decide (u = b) then Some (set_out_edges (edge_insert (length g) (mkEdge [] [tmp]) (out_edges xb')) xb')
  else g !! u.

Lemma cut_edge_graph g cuts next a b xa xb xb' q w :
  Forall vertex_ok g -> a <> b -> g !! a = Some xa -> g !! b = Some xb ->
  edge_find b (out_edges xa) = Some q -> write_extents q = [] ->
  EdgeWeight g (a, b) = Ret w -> SubstituteBlocks xb (extents q) [mkExtent next w] = Ret xb' ->
  exists g', cut_edge (g, cuts, next) (a, b)
      = Ret (g', cuts ++ [mkCut (length g) a b [mkExtent next w]], u64 (next + w))
    /\ length g' = S (length g)
    /\ forall u, g' !! u = cut_vertex g a b xa xb' q (mkExtent next w) w u.
Proof.
  intros Hg Hab Ha Hb Hq Hwr Hw Hsub. unfold cut_edge. rewrite Ha. cbn [of_option]. rewrite outcome_bind_ret.
  pose proof (lookup_lt_Some _ _ _ Ha) as Hla. pose proof (lookup_lt_Some _ _ _ Hb) as Hlb.
  assert (Hsame : alter (fun v => set_out_edges (edge_insert b EdgeProperties_new (out_edges v)) v) a g = g).
  { apply list_eq. intros u. rewrite lookup_alter_graph. case_decide as Hu; [|done]. subst. rewrite Ha. simpl.
    rewrite edge_insert_present; [by destruct xa|by apply (graph_ok_lookup g a)|by eexists]. }
  rewrite Hsame, Hw, outcome_bind_ret. cbn [Allocate]. cbv beta zeta.
  rewrite lookup_app_l, Ha by done. cbn [of_option]. rewrite outcome_bind_ret, Hq. cbn [of_option].
  rewrite outcome_bind_ret, Hwr, bool_decide_true by done. cbn [check_that]. rewrite outcome_bind_ret.
  rewrite lookup_alter_graph, decide_False by lia. rewrite lookup_alter_graph, decide_False by done.
  rewrite lookup_app_l, Hb by done. cbn [of_option]. rewrite outcome_bind_ret, Hsub, outcome_bind_ret.
  eexists. split; [done|]. split; [rewrite !length_alter, length_insert, !length_alter, length_app; simpl; lia|].
  intros u. unfold cut_vertex.
  rewrite lookup_alter_graph, lookup_alter_graph, lookup_insert_graph
    by (rewrite !length_alter, length_app; simpl; lia).
  rewrite !lookup_alter_graph, lookup_snoc_graph.
  destruct (decide (u = length g)) as [->|Hu1]; [by rewrite !(decide_False (P := length g = _)) by lia|].
  destruct (decide (u = a)) as [->|Hu2]; [by rewrite !(decide_False (P := a = b)), Ha by done|].
  destruct (decide (u = b)) as [->|Hu3]; [done|]. done.
Qed.

Lemma take_snoc_le {A} k (l : list A) x : (k <= length l)%nat -> take k (l ++ [x]) = take k l.
Proof. intros. by rewrite take_app_le. Qed.

Lemma cuts_snoc es e :
  imap (cut_of (es ++ [e])) (es ++ [e])
  = imap (cut_of es) es ++ [mkCut (length g0 + length es) (fst e) (snd e) [temp_extent es e]].
Proof.
  rewrite imap_app. f_equal.
  - apply imap_ext. intros i x Hi%lookup_lt_Some. unfold cut_of. by rewrite take_snoc_le by lia.
  - simpl. unfold cut_of. rewrite Nat.add_0_r, take_app_length. done.
Qed.

Lemma elem_cuts es c :
  c ∈ imap (cut_of es) es <-> exists k e, es !! k = Some e /\ c = cut_of es k e.
Proof. clear Hp B. rewrite elem_of_lookup_imap. naive_solver. Qed.

(** Reading through one more cut. *)
Lemma found_at_snoc cuts g g' c v b t :
  found_at cuts g v b t ->
  (forall d, d ∈ cuts -> writes g' (new_vertex d) = writes g (new_vertex d)) ->
  (forall d t, d ∈ cuts -> t ∈ writes g (new_vertex d) -> t ∉ cut_blocks c) ->
  length (cut_blocks c) = length (writes g' (new_vertex c)) ->
  found_at (cuts ++ [c]) g' v b
    (if decide (v = old_dst c) then relocate (cut_blocks c) (writes g' (new_vertex c)) t else t).
Proof.
  intros Hf Hw Htemp Hlen. destruct Hf as [(d & j & Hd & Hdv & Hj & Ht)|[Hhome ->]].
  - left. exists d, j. rewrite Hw by done. split_and!; [set_solver|done|done|]. case_decide; [|done].
    rewrite relocate_out; [done|]. apply (Htemp d); [done|]. by apply list_elem_of_lookup_2 in Ht.
  - destruct (decide (v = old_dst c /\ b ∈ cut_blocks c)) as [[-> Hb]|Hno].
    + left. apply list_elem_of_lookup in Hb as [j Hj]. exists c, j.
      destruct (lookup_lt_is_Some_2 (writes g' (new_vertex c)) j) as [t Ht].
      { rewrite <- Hlen. by apply lookup_lt_Some in Hj. }
      rewrite decide_True by done. rewrite (relocate_in _ _ j b t); try done.
      * split_and!; [set_solver|done|done|done].
      * apply (bu_needs_NoDup _ _ _ B).
    + right. split.
      * intros d [Hd| ->%list_elem_of_singleton]%elem_of_app Hdv; [by apply Hhome|]. naive_solver.
      * case_decide as Hv; [|done]. apply relocate_out. naive_solver.
Qed.

Lemma edge_like_refl x k : vertex_ok x -> edge_like (edge_find k (out_edges x)) (edge_find k (out_edges x)).
Proof.
  intros Hx. destruct (edge_find k (out_edges x)) as [q|] eqn:E; [|done].
  destruct (vo_edge _ Hx k q E). done.
Qed.

(** The edges after the cut. *)
Lemma cut_links g g' a b xa xb xb' q tmp w :
  Forall vertex_ok g -> g !! a = Some xa -> g !! b = Some xb -> a <> b ->
  (forall u, g' !! u = cut_vertex g a b xa xb' q tmp w u) ->
  (forall k, edge_like (edge_find k (out_edges xb)) (edge_find k (out_edges xb'))) ->
  (forall u, link g u (length g) = None) ->
  forall u v,
    if decide (v = length g) then
      link g' u v = if decide (u = a) then Some q
                    else if decide (u = b) then Some (mkEdge [] [tmp]) else None
    else if decide (u = a /\ v = b) then link g' u v = None else edge_like (link g u v) (link g' u v).
Proof.
  intros Hok Ha Hb Hab Hg' Hxb Hnew u v.
  assert (Hv' : link g' u v = cut_vertex g a b xa xb' q tmp w u ≫= fun x => edge_find v (out_edges x))
    by (unfold link; by rewrite Hg').
  rewrite Hv'. unfold cut_vertex. clear Hv'.
  pose proof (lookup_lt_Some _ _ _ Ha) as Hla. pose proof (lookup_lt_Some _ _ _ Hb) as Hlb.
  assert (Hlink : forall u x k, g !! u = Some x -> link g u k = edge_find k (out_edges x))
    by (intros u' x' k E; unfold link; by rewrite E).
  destruct (decide (u = length g)) as [->|Hu].
  { cbn [mbind option_bind out_edges set_aop Vertex_new edge_find].
    rewrite !(decide_False (P := length g = _)) by lia. rewrite (decide_False (P := _ /\ _)) by lia.
    unfold link. rewrite lookup_ge_None_2 by lia. by case_decide. }
  destruct (decide (u = a)) as [->|Hua].
  { cbn [mbind option_bind out_edges set_out_edges].
    rewrite edge_find_erase, edge_find_insert by (by rewrite <- (Hlink a xa)).
    destruct (decide (v = length g)) as [->|Hv]; [by rewrite decide_False by lia|].
    rewrite (Hlink a xa) by done.
    destruct (decide (v = b)) as [->|Hvb]; [by rewrite !decide_True|rewrite !decide_False by naive_solver].
    apply edge_like_refl. by apply (graph_ok_lookup g a). }
  rewrite (decide_False (P := u = a /\ v = b)) by naive_solver.
  destruct (decide (u = b)) as [->|Hub].
  { cbn [mbind option_bind out_edges set_out_edges].
    rewrite edge_find_insert.
    2: { specialize (Hxb (length g)). rewrite <- (Hlink b xb), Hnew in Hxb by done.
         by destruct (edge_find (length g) (out_edges xb')). }
    destruct (decide (v = length g)) as [->|Hv]; [done|]. rewrite (Hlink b xb) by done. apply Hxb. }
  fold (link g u v). destruct (decide (v = length g)) as [->|Hv]; [apply Hnew|].
  unfold link. destruct (g !! u) as [x|] eqn:E; [|done]. apply edge_like_refl. by apply (graph_ok_lookup g u).
Qed.
(** The blocks after the cut. *)
Lemma cut_views g g' a b xa xb xb' q tmp w es :
  g !! a = Some xa -> g !! b = Some xb -> a <> b ->
  (forall u, g' !! u = cut_vertex g a b xa xb' q tmp w u) ->
  aop xb' = set_src_extents es (aop xb) ->
  forall u, reads g' u = (if decide (u = length g) then ExpandExtents (extents q)
                          else if decide (u = b) then ExpandExtents es else reads g u)
    /\ writes g' u = if decide (u = length g) then ExpandExtents [tmp] else writes g u.
Proof.
  intros Ha Hb Hab Hg' Hxb u. unfold reads, writes. rewrite Hg'. unfold cut_vertex.
  destruct (decide (u = length g)) as [->|Hu]; [done|].
  destruct (decide (u = a)) as [->|Hua]; [rewrite decide_False, Ha by done; done|].
  destruct (decide (u = b)) as [->|Hub]; [|done]. rewrite Hb. simpl. by rewrite Hxb.
Qed.

Lemma edge_like_trans o1 o2 o3 : edge_like o1 o2 -> edge_like o2 o3 -> edge_like o1 o3.
Proof. destruct o1, o2, o3; simpl; try done. intros (-> & _ & H1) (-> & ? & H2). by rewrite H2, H1. Qed.

Lemma edge_like_exact o o' : edge_like o o' -> edge_writes o = [] -> o' = o.
Proof.
  destruct o as [[es ws]|], o' as [[es' ws']|]; simpl; try done. intros (-> & Hok & He) ->. f_equal. f_equal.
  by apply expand_nil.
Qed.

Lemma cut_edge_vertexes u v : is_Some (link g0 u v) -> u <> v /\ (u < length g0)%nat /\ (v < length g0)%nat.
Proof.
  intros Hl. pose proof (bu_link _ _ _ B u v Hl) as Hne.
  destruct (needs g0 u v) as [|t l] eqn:E; [done|].
  destruct (proj1 (bu_needs _ _ _ B u v t)) as (? & Hw & Hr); [rewrite E; by left|].
  apply writes_lt in Hw. apply reads_lt in Hr. done.
Qed.

(** Edges that can be cut. *)
Definition cuttable (es : list Edge) : Prop :=
  NoDup es /\ forall e, e ∈ es -> is_Some (link g0 (fst e) (snd e)).

Lemma cuttable_nth es k e :
  cuttable es -> es !! k = Some e ->
  edge_blocks e <> [] /\ extent_ok (temp_extent (take k es) e)
  /\ ExpandExtents [temp_extent (take k es) e] = seqZ (temp_base (take k es)) (zlen (edge_blocks e))
  /\ forall t, t ∈ ExpandExtents [temp_extent (take k es) e] -> kTempBlockStart <= t.
Proof.
  intros [Hnd Hall] Hk.
  assert (Hne : edge_blocks e <> []) by (apply (bu_link _ _ _ B), Hall; by apply list_elem_of_lookup_2 in Hk).
  assert (Hnd' : NoDup (take k es ++ [e])).
  { rewrite <- take_S_r by done. rewrite <- (take_drop (S k) es) in Hnd. by apply NoDup_app in Hnd as (? & _). }
  destruct (temp_extent_spec _ _ Hnd' Hne) as [H1 H2]. split_and!; try done.
  rewrite H2. intros t Ht%elem_of_seqZ. apply NoDup_app in Hnd' as (Hnd' & _).
  pose proof (temp_base_bound _ Hnd'). lia.
Qed.

Lemma cut_writes_copy es g cuts next k e :
  cut_state es g cuts next -> es !! k = Some e ->
  writes g (length g0 + k) = ExpandExtents [temp_extent (take k es) e].
Proof. intros Hs Hk. destruct (ct_copy _ _ _ _ Hs k e Hk) as (x & Hx & _ & _ & _ & Hd). unfold writes. by rewrite Hx, <- Hd. Qed.

(** What vertices wait for are temporary blocks. *)
Lemma cut_edge_writes es g cuts next u v t :
  cut_state es g cuts next -> cuttable es -> t ∈ ExpandExtents (edge_writes (link g u v)) -> kTempBlockStart <= t.
Proof.
  intros [C1 C2 _ _ _ _ _ C8 C9 C10] Hes Ht.
  destruct (decide ((length g0 <= u)%nat \/ (length g <= v)%nat)) as [Hn|Hn].
  { rewrite C10 in Ht by done. by apply elem_of_nil in Ht. }
  destruct (decide (v < length g0)%nat) as [Hv|Hv].
  { rewrite C8 in Ht by lia. case_decide; [by apply elem_of_nil in Ht|].
    rewrite (bu_nowrite _ _ _ B) in Ht. by apply elem_of_nil in Ht. }
  destruct (lookup_lt_is_Some_2 es (v - length g0)) as [e He]; [lia|].
  assert (Hk : (length g0 + (v - length g0))%nat = v) by lia.
  specialize (C9 u (v - length g0)%nat e). rewrite Hk in C9. specialize (C9 ltac:(lia) He).
  destruct (decide (u = fst e)) as [->|Hue].
  { apply edge_like_exact in C9; [|apply (bu_nowrite _ _ _ B)]. rewrite C9, (bu_nowrite _ _ _ B) in Ht.
    by apply elem_of_nil in Ht. }
  case_decide; destruct (link g u v) as [q|]; try done; [|by apply elem_of_nil in Ht].
  destruct C9 as (_ & _ & Hx). simpl in Ht, Hx. rewrite Hx in Ht. by apply (cuttable_nth es _ e Hes He).
Qed.

(** What the cut of [e] computes. *)
Record cut_run (es : list Edge) (e : Edge) (g g' : Graph) (xa xb xb' : Vertex) (q : EdgeProperties) : Prop := {
  cr_src : g !! fst e = Some xa;
  cr_dst : g !! snd e = Some xb;
  cr_link : link g0 (fst e) (snd e) = Some q;
  cr_ok : vertex_ok xb';
  cr_valid : valid xb' = valid xb;
  cr_aop : exists sx, aop xb' = set_src_extents sx (aop xb)
             /\ ExpandExtents sx = relocate (edge_blocks e) (ExpandExtents [temp_extent es e]) <$> reads g (snd e);
  cr_edges : forall k, edge_like (edge_find k (out_edges xb)) (edge_find k (out_edges xb'));
  cr_length : length g' = S (length g);
  cr_graph : forall u, g' !! u = cut_vertex g (fst e) (snd e) xa xb' q (temp_extent es e) (zlen (edge_blocks e)) u;
}.

Lemma cuttable_app es e : cuttable (es ++ [e]) -> cuttable es /\ e ∉ es /\ is_Some (link g0 (fst e) (snd e)).
Proof.
  intros [Hnd Hall]. apply NoDup_app in Hnd as (Hnd & Hd & _). split_and!.
  - split; [done|]. intros d Hd'. apply Hall. set_solver.
  - intros He. apply (Hd e He). by left.
  - apply Hall. set_solver.
Qed.

Lemma cuttable_last es e :
  cuttable (es ++ [e]) ->
  edge_blocks e <> [] /\ extent_ok (temp_extent es e)
  /\ ExpandExtents [temp_extent es e] = seqZ (temp_base es) (zlen (edge_blocks e))
  /\ forall t, t ∈ ExpandExtents [temp_extent es e] -> kTempBlockStart <= t.
Proof.
  intros Hes. pose proof (cuttable_nth _ (length es) e Hes) as H. rewrite take_app_length in H.
  apply H. by apply list_lookup_middle.
Qed.

Lemma edge_blocks_small e b : b ∈ edge_blocks e -> 0 <= b < n.
Proof. intros (_ & _ & Hr)%(bu_needs _ _ _ B). by apply (fi_reads _ _ _ B) in Hr. Qed.

Lemma cut_edge_run es e g cuts next :
  cut_state es g cuts next -> cuttable (es ++ [e]) ->
  exists g' xa xb xb' q,
    cut_edge (g, cuts, next) e = Ret (g', imap (cut_of (es ++ [e])) (es ++ [e]), temp_base (es ++ [e]))
    /\ cut_run es e g g' xa xb xb' q.
Proof.
  intros Hs Hes. destruct e as [a b]. destruct (cuttable_app _ _ Hes) as (Hes' & Hout & [q Hq]).
  destruct (cuttable_last _ _ Hes) as (Hne & Hext & Hexp & Htemp). cbn [fst snd] in *.
  destruct (cut_edge_vertexes a b) as (Hab & Hla & Hlb); [by eexists|].
  destruct (lookup_lt_is_Some_2 g a) as [xa Ha]; [rewrite (ct_length _ _ _ _ Hs); lia|].
  destruct (lookup_lt_is_Some_2 g b) as [xb Hb]; [rewrite (ct_length _ _ _ _ Hs); lia|].
  assert (Hlink : link g a b = Some q) by (by rewrite (ct_link _ _ _ _ Hs), decide_False).
  assert (Hqn : edge_blocks (a, b) = ExpandExtents (extents q)) by (cbn [fst snd]; by rewrite Hq).
  assert (Hqok : Forall extent_ok (extents q)).
  { unfold link in Hlink. rewrite Ha in Hlink. by apply (vo_edge _ (graph_ok_lookup g a xa (ct_ok _ _ _ _ Hs) Ha) b). }
  assert (Hbound : zlen (edge_blocks (a, b)) <= n).
  { pose proof (edge_blocks_bound [(a, b)] (NoDup_singleton _)) as H. simpl in H. by rewrite app_nil_r in H. }
  assert (Hw : EdgeWeight g (a, b) = Ret (zlen (edge_blocks (a, b)))).
  { rewrite Hqn in *. apply EdgeWeight_spec; [done|done|]. unfold kTempBlockStart in Hp. lia. }
  destruct (SubstituteBlocks_spec xb (extents q) [temp_extent es (a, b)]) as (xb' & Hsub & Hok' & Hval & Haop & Hedges).
  { by apply (graph_ok_lookup g b), Hb; apply (ct_ok _ _ _ _ Hs). }
  { by constructor. }
  { rewrite Hexp, length_seqZ, <- Hqn. unfold zlen. by rewrite Nat2Z.id. }
  destruct (cut_edge_graph g cuts next a b xa xb xb' q (zlen (edge_blocks (a, b)))) as (g' & Heq & Hlen' & Hg'); try done.
  { apply (ct_ok _ _ _ _ Hs). }
  { unfold link in Hlink. by rewrite Ha in Hlink. }
  { pose proof (bu_nowrite _ _ _ B a b) as H. by rewrite Hq in H. }
  { by rewrite (ct_next _ _ _ _ Hs). }
  rewrite (ct_next _ _ _ _ Hs) in Heq, Hg'. exists g', xa, xb, xb', q. split.
  - rewrite (ct_next _ _ _ _ Hs), Heq, cuts_snoc, <- (ct_cuts _ _ _ _ Hs), (ct_length _ _ _ _ Hs), temp_base_snoc.
    f_equal. f_equal. apply uint_small. pose proof (temp_base_bound _ (proj1 Hes)) as Hbb.
    rewrite temp_base_snoc in Hbb. unfold is_uint, kTempBlockStart in *. lia.
  - split; try done.
    + destruct Haop as (sx & H1 & H2). exists sx. split; [done|]. rewrite H2, Hqn. unfold reads. cbn [snd]. by rewrite Hb.
    + intros k. specialize (Hedges k). unfold edge_like.
      destruct (edge_find k (out_edges xb)) as [r|] eqn:E1, (edge_find k (out_edges xb')) as [r'|] eqn:E2; try done.
      destruct Hedges as [-> ->]. split_and!; [done|by apply (vo_edge _ Hok' k)|].
      rewrite <- (list_fmap_id (ExpandExtents (write_extents r))) at 2. apply list_fmap_ext.
      intros i t Ht%list_elem_of_lookup_2. apply relocate_out. rewrite <- Hqn. intros Hin%edge_blocks_small.
      unfold id in Hin. enough (kTempBlockStart <= t) by lia. apply (cut_edge_writes es g cuts next b k); [done..|].
      unfold link. by rewrite Hb; simpl; rewrite E1.
Qed.

Section Step.
Context (es : list Edge) (e : Edge) (g g' : Graph) (cuts : list CutEdgeVertexes) (next : Z).
Context (xa xb xb' : Vertex) (q : EdgeProperties).
Context (Hs : cut_state es g cuts next) (Hes : cuttable (es ++ [e])) (R : cut_run es e g g' xa xb xb' q).

Lemma step_distinct : fst e <> snd e /\ (fst e < length g0)%nat /\ (snd e < length g0)%nat.
Proof. apply cut_edge_vertexes. eexists. apply (cr_link _ _ _ _ _ _ _ _ R). Qed.

Lemma step_ok : Forall vertex_ok g'.
Proof.
  destruct step_distinct as (Hd & Hla & Hlb). destruct (cuttable_last _ _ Hes) as (_ & Hext & _).
  pose proof (ct_ok _ _ _ _ Hs) as Hok. destruct R as [R1 R2 R3 R4 R5 R6 R7 Rl R8].
  assert (Hq : link g (fst e) (snd e) = Some q).
  { rewrite (ct_link _ _ _ _ Hs), decide_False by (done || apply cuttable_app in Hes; destruct e; tauto). done. }
  assert (Hqok : Forall extent_ok (extents q) /\ Forall extent_ok (write_extents q)).
  { unfold link in Hq. rewrite R1 in Hq. by apply (vo_edge _ (graph_ok_lookup g _ xa Hok R1) (snd e)). }
  apply Forall_lookup. intros u x. rewrite R8. unfold cut_vertex.
  destruct (decide (u = length g)) as [->|Hu]; [intros [= <-]|].
  { split; simpl; [apply Hqok|by constructor|constructor|done]. }
  assert (Hadd : forall y r k, vertex_ok y -> Forall extent_ok (extents r) -> Forall extent_ok (write_extents r) ->
    vertex_ok (set_out_edges (edge_insert k r (out_edges y)) y)).
  { intros y r k Hy Hr1 Hr2. split; simpl; [apply Hy|apply Hy|apply map_ok_insert, Hy|]. intros j s Hj.
    destruct (edge_find k (out_edges y)) as [r'|] eqn:Ek.
    - rewrite edge_insert_present in Hj by (try apply Hy; eauto). by apply (vo_edge _ Hy j).
    - rewrite edge_find_insert in Hj by done. case_decide; [by simplify_eq|by apply (vo_edge _ Hy j)]. }
  destruct (decide (u = fst e)) as [->|Hua]; [intros [= <-]|].
  { destruct (Hadd xa q (length g)) as [V1 V2 V3 V4]; [by apply (graph_ok_lookup g (fst e))|apply Hqok..|].
    split; simpl; [apply V1|apply V2|by apply map_ok_erase|]. intros k r. rewrite edge_find_erase.
    case_decide; [done|apply V4]. }
  destruct (decide (u = snd e)) as [->|Hub]; [intros [= <-]|].
  { apply Hadd; [done|constructor|by constructor]. }
  by apply graph_ok_lookup.
Qed.

Lemma step_orig v x0 :
  g0 !! v = Some x0 -> exists x sx, g' !! v = Some x /\ valid x = valid x0 /\ aop x = set_src_extents sx (aop x0).
Proof.
  intros Hv. pose proof (lookup_lt_Some _ _ _ Hv) as Hlt. destruct (ct_orig _ _ _ _ Hs v x0 Hv) as (x & sx & Hx & Hval & Hx0).
  pose proof (ct_length _ _ _ _ Hs) as Hlen. destruct R as [R1 R2 R3 R4 R5 R6 R7 Rl R8].
  rewrite R8. unfold cut_vertex. rewrite decide_False by lia.
  destruct (decide (v = fst e)) as [->|Hva].
  { replace xa with x by congruence. eexists _, sx. done. }
  destruct (decide (v = snd e)) as [->|Hvb]; [|by eexists x, sx].
  replace x with xb in * by congruence. destruct R6 as (sx' & R6 & _). eexists _, sx'. split; [done|]. simpl.
  rewrite R5, R6, Hx0. done.
Qed.

Lemma step_views :
  (forall u, writes g' u = if decide (u = length g) then ExpandExtents [temp_extent es e] else writes g u)
  /\ forall u, reads g' u = if decide (u = length g) then edge_blocks e
       else if decide (u = snd e)
            then relocate (edge_blocks e) (ExpandExtents [temp_extent es e]) <$> reads g u else reads g u.
Proof.
  destruct step_distinct as (Hd & _). destruct R as [R1 R2 R3 R4 R5 (sx & R6 & R6') R7 Rl R8].
  pose proof (cut_views g g' _ _ xa xb xb' q _ _ sx R1 R2 Hd R8 R6) as Hv.
  split; intros u; destruct (Hv u) as [Hr Hw]; [done|]. rewrite Hr, R3.
  destruct (decide (u = length g)); [done|]. case_decide as Hu; [|done]. rewrite R6', Hu, R3. done.
Qed.

Lemma step_found v :
  (v < length g0)%nat -> Forall2 (found_at (imap (cut_of (es ++ [e])) (es ++ [e])) g' v) (reads g0 v) (reads g' v).
Proof.
  intros Hv. destruct step_views as [Hw Hr]. pose proof (ct_length _ _ _ _ Hs) as Hlen.
  destruct (cuttable_app _ _ Hes) as (Hes' & _ & _). destruct (cuttable_last _ _ Hes) as (Hne & _ & Hexp & Htemp).
  rewrite Hr, decide_False by lia.
  assert (Hfmap : (if decide (v = snd e) then relocate (edge_blocks e) (ExpandExtents [temp_extent es e]) <$> reads g v
                   else reads g v)
    = (fun t => if decide (v = snd e) then relocate (edge_blocks e) (ExpandExtents [temp_extent es e]) t else t)
        <$> reads g v) by (case_decide; [done|by rewrite list_fmap_id]).
  rewrite Hfmap. apply Forall2_fmap_r. eapply Forall2_impl; [by apply (ct_found _ _ _ _ Hs)|].
  intros b t Hf. rewrite cuts_snoc, <- (ct_cuts _ _ _ _ Hs), <- Hlen.
  assert (Hwn : writes g' (length g) = ExpandExtents [temp_extent es e]) by (by rewrite Hw, decide_True).
  pose proof (found_at_snoc cuts g g' (mkCut (length g) (fst e) (snd e) [temp_extent es e]) v b t Hf) as H.
  cbn [new_vertex old_src old_dst] in H. rewrite Hwn in H. apply H.
  - intros d Hd. rewrite (ct_cuts _ _ _ _ Hs) in Hd. apply elem_cuts in Hd as (k & e' & Hk & ->). simpl.
    apply lookup_lt_Some in Hk. by rewrite Hw, decide_False by lia.
  - intros d t' Hd. rewrite (ct_cuts _ _ _ _ Hs) in Hd. apply elem_cuts in Hd as (k & e' & Hk & ->). simpl.
    rewrite (cut_writes_copy _ _ _ _ k e' Hs Hk). intros Ht%(cuttable_nth _ _ _ Hes' Hk) Hin%edge_blocks_small. lia.
  - rewrite Hexp, length_seqZ. unfold zlen. by rewrite Nat2Z.id.
Qed.

Lemma lookup_snoc_cases {A} (l : list A) x k y :
  (l ++ [x]) !! k = Some y -> l !! k = Some y \/ (k = length l /\ y = x).
Proof.
  rewrite lookup_app. destruct (l !! k) eqn:E; [intros [= ->]; by left|].
  apply lookup_ge_None in E. intros H. right. destruct (k - length l)%nat eqn:D; simpl in H; simplify_eq. split; [lia|done].
Qed.

Lemma step_copy k d :
  (es ++ [e]) !! k = Some d ->
  exists x, g' !! (length g0 + k)%nat = Some x /\ valid x = true
    /\ op_type (aop x) = Some MOVE /\ ExpandExtents (src_extents (aop x)) = edge_blocks d
    /\ dst_extents (aop x) = [temp_extent (take k (es ++ [e])) d].
Proof.
  intros Hk. pose proof (ct_length _ _ _ _ Hs) as Hlen. destruct step_distinct as (_ & Hla & Hlb).
  destruct R as [R1 R2 R3 R4 R5 R6 R7 Rl R8]. rewrite R8. unfold cut_vertex.
  apply lookup_snoc_cases in Hk as [Hk|[-> ->]].
  - pose proof (lookup_lt_Some _ _ _ Hk). rewrite !decide_False by lia.
    rewrite take_snoc_le by lia. by apply (ct_copy _ _ _ _ Hs).
  - rewrite decide_True by lia. rewrite take_app_length. eexists. split; [done|]. simpl. by rewrite R3.
Qed.

Lemma step_links u v :
  if decide (v = length g) then
    link g' u v = if decide (u = fst e) then Some q
                  else if decide (u = snd e) then Some (mkEdge [] [temp_extent es e]) else None
  else if decide (u = fst e /\ v = snd e) then link g' u v = None else edge_like (link g u v) (link g' u v).
Proof.
  apply (cut_links g g' _ _ xa xb xb' q _ (zlen (edge_blocks e))); try apply R; [apply (ct_ok _ _ _ _ Hs)|apply step_distinct|].
  intros w. apply (ct_link_none _ _ _ _ Hs). by right.
Qed.

Lemma step_link u v :
  (u < length g0)%nat -> (v < length g0)%nat ->
  link g' u v = if decide ((u, v) ∈ es ++ [e]) then None else link g0 u v.
Proof.
  intros Hu Hv. pose proof (ct_length _ _ _ _ Hs) as Hlen. pose proof (step_links u v) as H.
  rewrite decide_False in H by lia. pose proof (ct_link _ _ _ _ Hs u v Hu Hv) as Hl.
  destruct (decide ((u, v) = e)) as [<-|Hne].
  { rewrite decide_True in H by done. rewrite decide_True by set_solver. done. }
  rewrite decide_False in H by (intros [-> ->]; by destruct e). apply edge_like_exact in H.
  - rewrite H, Hl. destruct (decide ((u, v) ∈ es)); [by rewrite decide_True by set_solver|].
    by rewrite decide_False by set_solver.
  - rewrite Hl. case_decide; [done|apply (bu_nowrite _ _ _ B)].
Qed.

Lemma step_link_copy u k d :
  (u < length g0)%nat -> (es ++ [e]) !! k = Some d ->
  edge_like (if decide (u = fst d) then link g0 (fst d) (snd d)
             else if decide (u = snd d) then Some (mkEdge [] [temp_extent (take k (es ++ [e])) d]) else None)
    (link g' u (length g0 + k)).
Proof.
  intros Hu Hk. pose proof (ct_length _ _ _ _ Hs) as Hlen. pose proof (step_links u (length g0 + k)) as H.
  destruct step_distinct as (_ & Hla & Hlb). apply lookup_snoc_cases in Hk as [Hk|[-> ->]].
  - pose proof (lookup_lt_Some _ _ _ Hk). rewrite take_snoc_le by lia. rewrite !decide_False in H by lia.
    eapply edge_like_trans; [|exact H]. by apply (ct_link_copy _ _ _ _ Hs).
  - rewrite take_app_length. rewrite decide_True in H by lia. rewrite H, (cr_link _ _ _ _ _ _ _ _ R).
    assert (Hqok : Forall extent_ok (write_extents q)).
    { pose proof (bu_nowrite _ _ _ B (fst e) (snd e)) as Hq. rewrite (cr_link _ _ _ _ _ _ _ _ R) in Hq. simpl in Hq.
      rewrite Hq. constructor. }
    destruct (decide (u = fst e)); [done|]. case_decide; [|done]. split; [done|]. split; [|done].
    constructor; [apply (cuttable_last _ _ Hes)|constructor].
Qed.

Lemma step_link_none u v : (length g0 <= u)%nat \/ (length g' <= v)%nat -> link g' u v = None.
Proof.
  intros Huv. pose proof (ct_length _ _ _ _ Hs) as Hlen. pose proof (step_links u v) as H.
  destruct step_distinct as (_ & Hla & Hlb). rewrite (cr_length _ _ _ _ _ _ _ _ R) in Huv.
  destruct (decide (v = length g)); [rewrite !decide_False in H by lia; done|].
  rewrite decide_False in H by lia. rewrite (ct_link_none _ _ _ _ Hs) in H by lia. by destruct (link g' u v).
Qed.

Lemma cut_step : cut_state (es ++ [e]) g' (imap (cut_of (es ++ [e])) (es ++ [e])) (temp_base (es ++ [e])).
Proof.
  split; [|apply step_ok|done|done|apply step_orig|apply step_found|apply step_copy|apply step_link
         |apply step_link_copy|apply step_link_none].
  rewrite (cr_length _ _ _ _ _ _ _ _ R), (ct_length _ _ _ _ Hs), length_app. simpl. lia.
Qed.
End Step.

Lemma cut_start : cut_state [] g0 [] kTempBlockStart.
Proof.
  split; try done.
  - apply (fi_ok _ _ _ B).
  - intros v x0 Hv. exists x0, (src_extents (aop x0)). split_and!; try done. by destruct (aop x0).
  - intros v Hv. induction (reads g0 v) as [|b l IH]; constructor; [right|done]. split; [|done].
    intros c Hc. by apply elem_of_nil in Hc.
  - intros u v Huv. destruct (link g0 u v) eqn:E; [|done]. destruct (cut_edge_vertexes u v); [by eexists|lia].
Qed.

Lemma CutEdges_spec es :
  cuttable es -> exists g cuts next, CutEdges g0 es = Ret (g, cuts) /\ cut_state es g cuts next.
Proof.
  intros Hes. unfold CutEdges.
  destruct (foldM_inv cut_edge (fun done s => cut_state done (fst (fst s)) (snd (fst s)) (snd s)) es (g0, [], kTempBlockStart))
    as ([[g cuts] next] & -> & Hs); [apply cut_start| |by exists g, cuts, next].
  intros done e todo [[g cuts] next] -> Hs. simpl in Hs.
  assert (Hd : cuttable (done ++ [e])).
  { destruct Hes as [Hnd Hall]. split; [|intros d Hd; apply Hall; set_solver].
    change (e :: todo) with ([e] ++ todo) in Hnd. rewrite app_assoc in Hnd. by apply NoDup_app in Hnd as (? & _). }
  destruct (cut_edge_run done e g cuts next Hs Hd) as (g' & xa & xb & xb' & q & -> & R).
  eexists. split; [done|]. by apply (cut_step _ _ _ _ _ _ _ _ _ _ Hs Hd R).
Qed.
End Cuts.
