(* ===== verification/UpdateOrder.v ===== *)
(** * UpdateOrder: the order of the operations

    The order [ConvertGraphToDag] of UpdateInplace starts from: the graph
    without the cut edges has no cycle, so that [TopologicalSort] lists every
    vertex after those it has an edge to; [MoveAndSortFullOpsToBack] and the
    sort of the cuts keep what the later stages rely on. *)
From Stdlib Require Import Sorted.
From stdpp Require Import gmap relations sets sorting.
From S2P Require Import Prelude UpdateExtents UpdateGraph UpdateTarjan UpdateCycles UpdateInplace UpdateViews.
From S2P Require Import UpdateBuild UpdateCuts.

(** ** Positions in a list *)

(** [u] occurs in the list, and [v] after it. *)
Fixpoint before (l : list Index) (u v : Index) : Prop :=
  match l with
  | [] => False
  | x :: l => (x = u /\ v ∈ l) \/ before l u v
  end.

Lemma before_elem l u v : before l u v -> u ∈ l /\ v ∈ l.
Proof. induction l as [|x l IH]; simpl; [done|]. intros [[-> Hv]|[Hu Hv]%IH]; set_solver. Qed.

Lemma before_app l1 l2 u v :
  before (l1 ++ l2) u v <-> before l1 u v \/ before l2 u v \/ (u ∈ l1 /\ v ∈ l2).
Proof. induction l1 as [|x l IH]; simpl; [set_solver|]. rewrite IH. set_solver. Qed.

Lemma before_snoc l x u v : before (l ++ [x]) u v <-> before l u v \/ (u ∈ l /\ v = x).
Proof. rewrite before_app. simpl. set_solver. Qed.

Lemma before_irrefl l u : NoDup l -> ~ before l u u.
Proof. induction 1; simpl; naive_solver. Qed.

Lemma before_total l u v : u ∈ l -> v ∈ l -> u <> v -> before l u v \/ before l v u.
Proof. induction l as [|x l IH]; simpl; [set_solver|]. set_solver. Qed.

Lemma before_trans l u v w : NoDup l -> before l u v -> before l v w -> before l u w.
Proof.
  induction 1 as [|x l Hx Hnd IH]; simpl; [done|]. intros [[-> Hv]|Huv] [[-> Hw]|Hvw].
  - done.
  - left. split; [done|]. by apply before_elem in Hvw as [_ ?].
  - apply before_elem in Huv as [_ ?]. done.
  - auto.
Qed.

Lemma before_asym l u v : NoDup l -> before l u v -> ~ before l v u.
Proof. intros Hnd H1 H2. apply (before_irrefl l u Hnd). by apply (before_trans l u v u). Qed.

Lemma before_filter (P : Index -> Prop) `{!forall x, Decision (P x)} l u v :
  before (filter P l) u v <-> before l u v /\ P u /\ P v.
Proof.
  induction l as [|x l IH]; simpl; [naive_solver|]. rewrite filter_cons.
  destruct (decide (P x)) as [Hx|Hx]; simpl; rewrite IH, ?list_elem_of_filter; naive_solver.
Qed.

Lemma before_drop l i x v : l !! i = Some x -> v ∈ drop (S i) l -> before l x v.
Proof.
  intros Hi Hv. rewrite <- (take_drop_middle l i x Hi). apply before_app. right. left. simpl. by left.
Qed.

Lemma ordered_before g l w v : ordered g l -> w ∈ l -> edge g w v -> before l v w.
Proof.
  intros Ho [i Hi]%list_elem_of_lookup He. specialize (Ho i w Hi v He).
  rewrite <- (take_drop_middle l i w Hi). apply before_app. right. right. split; [done|by left].
Qed.

(** ** Sorting *)

Lemma sorted_insert_perm {A} (less : A -> A -> bool) x l : sorted_insert less x l ≡ₚ x :: l.
Proof. induction l as [|y l IH]; simpl; [done|]. destruct (less y x); [|done]. rewrite IH. apply perm_swap. Qed.

Lemma std_sort_perm {A} (less : A -> A -> bool) l : std_sort less l ≡ₚ l.
Proof. induction l as [|x l IH]; simpl; [done|]. by rewrite sorted_insert_perm, IH. Qed.

(** Sorted by a number. *)
Lemma std_sort_sorted {A} (key : A -> nat) l :
  StronglySorted (fun x y => (key x <= key y)%nat) (std_sort (fun x y => (key x <? key y)%nat) l).
Proof.
  set (less := fun x y => (key x <? key y)%nat). induction l as [|x l IH]; simpl; [constructor|].
  fold (std_sort less l) in *. induction IH as [|y s Hs IHs Hy]; simpl; [repeat constructor|].
  destruct (less y x) eqn:E; unfold less in E.
  - apply Nat.ltb_lt in E. constructor; [done|].
    rewrite (sorted_insert_perm less x s). constructor; [lia|done].
  - apply Nat.ltb_ge in E. constructor; [by constructor|]. constructor; [done|].
    eapply Forall_impl; [exact Hy|]. simpl. lia.
Qed.

(** ** The table of positions *)

Lemma GenerateReverseTopoOrderMap_spec l i v :
  NoDup l -> l !! i = Some v -> GenerateReverseTopoOrderMap l !! v = Some i.
Proof.
  unfold GenerateReverseTopoOrderMap. generalize (replicate (length l) 0%nat). intros t0 Hnd.
  revert i v. induction l as [|x l IH] using rev_ind; intros i v Hi; [done|].
  apply NoDup_app in Hnd as (Hnd & Hx & _). rewrite imap_app, fold_left_app. simpl.
  set (t := fold_left _ (imap pair l) t0) in *. rewrite Nat.add_0_r.
  apply lookup_snoc_cases in Hi as [Hi|[-> ->]].
  - rewrite list_lookup_insert_ne.
    + apply lookup_app_l_Some. by apply IH.
    + intros ->. apply (Hx v); [by apply list_elem_of_lookup_2 in Hi|by left].
  - rewrite list_lookup_insert_eq; [done|]. rewrite length_app, length_replicate. lia.
Qed.

(** ** Full operations *)

Definition full_vertex (g : Graph) (i : Index) : bool :=
  from_option (fun v => is_full_type (type_of (aop v))) false (g !! i).

Lemma MoveAndSortFullOpsToBack_spec g l :
  (forall v, v ∈ l -> (v < length g)%nat) ->
  exists l', MoveAndSortFullOpsToBack g l = Ret l' /\ l' ≡ₚ l
    /\ forall u v, before l u v -> full_vertex g u = false -> before l' u v.
Proof.
  intros Hl. unfold MoveAndSortFullOpsToBack.
  match goal with |- context [foldM ?f l ([], [])] =>
    destruct (foldM_inv f (fun done s => s = (filter (fun i => full_vertex g i = false) done,
                                              filter (fun i => full_vertex g i = true) done)) l ([], []))
      as (s & -> & ->); [done| |]
  end.
  { intros done i todo s -> ->. destruct (lookup_lt_is_Some_2 g i) as [v Hv]; [apply Hl; set_solver|].
    rewrite Hv. eexists. split; [done|]. rewrite !filter_app, !filter_cons, !filter_nil.
    replace (full_vertex g i) with (is_full_type (type_of (aop v))) by (unfold full_vertex; by rewrite Hv).
    destruct (is_full_type (type_of (aop v))); simpl; by rewrite ?app_nil_r. }
  rewrite outcome_bind_ret. cbn [fst snd]. eexists. split; [done|]. rewrite std_sort_perm. split.
  - clear Hl. induction l as [|x l IH]; [done|]. rewrite !filter_cons.
    destruct (full_vertex g x) eqn:E; simpl; [|by rewrite IH].
    rewrite <- IH at 3. symmetry. apply Permutation_middle.
  - intros u v Huv Hu. apply before_app. rewrite before_filter, list_elem_of_filter.
    pose proof (before_elem _ _ _ Huv). destruct (full_vertex g v) eqn:Ev; [|by left].
    right. right. split; [tauto|]. rewrite std_sort_perm, list_elem_of_filter. tauto.
Qed.

Section Start.
Context (n p : Z) (g0 : Graph) (B : built n p g0) (Hp : 0 <= n <= p /\ p < kTempBlockStart).
Context (es : list Edge) (g : Graph) (cuts : list CutEdgeVertexes) (next : Z).
Context (Hes : cuttable g0 es) (Hac : acyclic (uncut g0 es)) (Hs : cut_state g0 es g cuts next).

(** The edges after the cuts: those that were not cut, and those to copy nodes. *)
Lemma cut_edges_of u v :
  edge g u v -> (u < length g0)%nat /\ (v < length g)%nat /\ ((v < length g0)%nat -> uncut g0 es u v).
Proof.
  intros He%edge_link. pose proof (ct_length _ _ _ _ _ Hs) as Hlen.
  destruct (decide ((length g0 <= u)%nat \/ (length g <= v)%nat)) as [Hn|Hn].
  { rewrite (ct_link_none _ _ _ _ _ Hs) in He by done. by destruct He. }
  split; [lia|]. split; [lia|]. intros Hv. rewrite (ct_link _ _ _ _ _ Hs) in He by lia.
  case_decide; [by destruct He|]. split; [by apply edge_link|done].
Qed.

Lemma cut_graph_ok : graph_ok g.
Proof. intros u v He. apply cut_edges_of in He as (? & ? & _). lia. Qed.

Lemma cut_acyclic : acyclic (edge g).
Proof.
  intros w Hw. enough (forall u v, tc (edge g) u v -> (v < length g0)%nat -> tc (uncut g0 es) u v) as H.
  { apply (Hac w), H; [done|]. clear H. remember w as w' eqn:E in Hw at 2. clear E.
    destruct Hw as [u v He|u v' v He _]; by apply cut_edges_of in He as (? & _). }
  induction 1 as [u v He|u v' v He Ht IH]; intros Hv.
  - apply tc_once. apply cut_edges_of in He as (_ & _ & He). auto.
  - eapply tc_l; [|by apply IH]. apply cut_edges_of in He as (_ & _ & He). apply He.
    clear -Ht Hs. destruct Ht as [u v He|u v' v He _]; by apply cut_edges_of in He as (? & _).
Qed.

(** No edge leads to a full operation. *)
Lemma full_no_edge u v : edge g u v -> full_vertex g v = false.
Proof.
  intros He. unfold full_vertex. destruct (g !! v) as [x|] eqn:E; [|done]. simpl.
  pose proof (ct_length _ _ _ _ _ Hs) as Hlen.
  destruct (decide (v < length g0)%nat) as [Hv|Hv].
  - apply cut_edges_of in He as (_ & _ & He). destruct (He Hv) as [Hl%edge_link _].
    destruct (lookup_lt_is_Some_2 g0 v Hv) as [x0 Hx0].
    destruct (ct_orig _ _ _ _ _ Hs v x0 Hx0) as (x' & sx & Hx' & _ & Ha). simplify_eq. rewrite Ha.
    destruct (is_full_type (type_of (set_src_extents sx (aop x0)))) eqn:Ef; [|done].
    pose proof (fi_full _ _ _ B v x0 Hx0 Ef) as Hr. apply (bu_link _ _ _ B) in Hl.
    destruct (needs g0 u v) as [|t l] eqn:En; [done|].
    destruct (proj1 (bu_needs _ _ _ B u v t)) as (_ & _ & Ht); [rewrite En; by left|].
    rewrite Hr in Ht. by apply elem_of_nil in Ht.
  - pose proof (lookup_lt_Some _ _ _ E). destruct (lookup_lt_is_Some_2 es (v - length g0)) as [e Hk]; [lia|].
    destruct (ct_copy _ _ _ _ _ Hs _ _ Hk) as (x' & Hx' & _ & Ht & _).
    replace (length g0 + (v - length g0))%nat with v in Hx' by lia. simplify_eq.
    unfold type_of. by rewrite Ht.
Qed.

Lemma start_order :
  exists out l, TopologicalSort g = Ret out /\ MoveAndSortFullOpsToBack g out = Ret l
    /\ l ≡ₚ seq 0 (length g) /\ forall u w, edge g u w -> before l w u.
Proof.
  destruct (TopologicalSort_spec g cut_graph_ok) as (out & Hout & Hperm & Hord).
  assert (Hin : forall v, v ∈ out <-> (v < length g)%nat) by (intros v; rewrite Hperm, elem_of_seq; lia).
  destruct (MoveAndSortFullOpsToBack_spec g out) as (l & Hl & Hp' & Hb); [intros v; apply Hin|].
  exists out, l. split_and!; [done|done|by rewrite Hp'|]. intros u w He. apply Hb; [|by apply (full_no_edge u)].
  apply (ordered_before g); [by apply Hord, cut_acyclic| |done]. apply Hin. apply cut_edges_of in He as (? & _).
  pose proof (ct_length _ _ _ _ _ Hs). lia.
Qed.
End Start.

(** ** The order of the cuts *)

(** Cuts with the same destination are next to each other. *)
Definition grouped (l : list CutEdgeVertexes) : Prop :=
  forall seen b todo, l = seen ++ b :: todo ->
  forall a c, a ∈ seen -> c ∈ todo -> old_dst a = old_dst c -> old_dst b = old_dst a.

Lemma SortCutsByTopoOrder_spec l cuts :
  NoDup l -> (forall c, c ∈ cuts -> old_dst c ∈ l) ->
  exists cuts', SortCutsByTopoOrder l cuts = Ret cuts' /\ cuts' ≡ₚ cuts /\ grouped (reverse cuts').
Proof.
  intros Hnd Hin. unfold SortCutsByTopoOrder.
  assert (Hpos : forall c, c ∈ cuts -> exists i, l !! i = Some (old_dst c)
                   /\ GenerateReverseTopoOrderMap l !! old_dst c = Some i).
  { intros c Hc. destruct (proj1 (list_elem_of_lookup _ _) (Hin c Hc)) as [i Hi]. exists i.
    split; [done|]. by apply GenerateReverseTopoOrderMap_spec. }
  rewrite (proj2 (forallb_forall _ _)).
  2: { intros c Hc%list_elem_of_In. apply Nat.ltb_lt. destruct (Hpos c Hc) as (i & _ & Hi). by apply lookup_lt_Some in Hi. }
  rewrite orb_true_r. cbn [check_that]. rewrite outcome_bind_ret. eexists. split; [done|]. split; [apply std_sort_perm|].
  set (key := fun c => default 0%nat (GenerateReverseTopoOrderMap l !! old_dst c)).
  pose proof (std_sort_sorted key cuts) as Hsort. pose proof (std_sort_perm (fun x y => (key x <? key y)%nat) cuts) as Hperm.
  change (fun a b : CutEdgeVertexes => _) with (fun x y => (key x <? key y)%nat). set (s := std_sort _ _) in *.
  intros seen b todo Hl a c Ha Hc Hac. apply (f_equal reverse) in Hl.
  rewrite reverse_involutive, reverse_app, reverse_cons, <- app_assoc in Hl. simpl in Hl.
  assert (Hk : (key c <= key b <= key a)%nat).
  { rewrite Hl in Hsort. split.
    - apply (StronglySorted_app_1_elem_of (fun x y => (key x <= key y)%nat) _ _ c b Hsort); [by apply elem_of_reverse|by left].
    - apply StronglySorted_app_1_r in Hsort. apply StronglySorted_inv in Hsort as [_ Hf].
      rewrite Forall_forall in Hf. apply Hf. by apply elem_of_reverse. }
  assert (Hkey : forall x, x ∈ s -> l !! key x = Some (old_dst x)).
  { intros x Hx. rewrite Hperm in Hx. destruct (Hpos x Hx) as (i & Hi & Ht). unfold key. by rewrite Ht. }
  assert (Hkk : key c = key a) by (unfold key; by rewrite Hac).
  assert (Hb : l !! key b = Some (old_dst b)) by (apply Hkey; rewrite Hl; set_solver).
  assert (Ha' : l !! key a = Some (old_dst a)).
  { apply Hkey. rewrite Hl. apply elem_of_app. right. right. by apply elem_of_reverse. }
  replace (key b) with (key a) in Hb by lia. congruence.
Qed.
