(* ===== verification/UpdateScratch.v ===== *)
(** * UpdateScratch: looking for scratch space

    [find_scratch] of UpdateInplace in terms of blocks: the ranges it collects
    are blocks of the nodes it visits that those nodes overwrite later without
    reading them, each counted once, and never more than needed. *)
From stdpp Require Import gmap relations sets.
From S2P Require Import Prelude UpdateExtents UpdateGraph UpdateTarjan UpdateCycles UpdateInplace UpdateViews.

(** ** Ranges as lists of blocks *)

Definition blocks_in (r : ExtentRanges) : list Z := ExpandExtents (extent_set r).

Lemma gaps_expand_NoDup lo l : gaps lo l -> NoDup (ExpandExtents l) /\ forall b, b ∈ ExpandExtents l -> lo <= b.
Proof.
  revert lo. induction l as [|e l IH]; intros lo; simpl; [split; [constructor|by intros b ?%elem_of_nil]|].
  intros (Hlo & He & Hl). destruct (IH _ Hl) as [Hnd Hb]. rewrite ExpandExtents_cons, expand_ok by done.
  unfold extent_ok in He. split.
  - apply NoDup_app. split_and!; [apply NoDup_seqZ| |done]. intros b H1%elem_of_seqZ H2%Hb. lia.
  - intros b [H1%elem_of_seqZ|H2%Hb]%elem_of_app; lia.
Qed.

Lemma blocks_in_NoDup r : ranges_ok r -> NoDup (blocks_in r).
Proof. intros [Hg _]. by apply gaps_expand_NoDup in Hg as [? _]. Qed.

Lemma blocks_in_length r : ranges_ok r -> blocks r = zlen (blocks_in r).
Proof. intros [Hg ->]. unfold blocks_in. rewrite ExpandExtents_length; [done|by eapply gaps_ok]. Qed.

Lemma blocks_in_covers r b : ranges_ok r -> b ∈ blocks_in r <-> covers (extent_set r) b.
Proof. intros [Hg _]. apply elem_of_ExpandExtents. by eapply gaps_ok. Qed.

Lemma blocks_in_new : ranges_ok ExtentRanges_new /\ blocks_in ExtentRanges_new = [].
Proof. done. Qed.

Lemma exists_real es b : Forall extent_ok es -> Exists (fun e => real_block e b) es <-> b ∈ ExpandExtents es.
Proof.
  intros Hes. rewrite elem_of_ExpandExtents by done. unfold covers. rewrite !Exists_exists.
  rewrite Forall_forall in Hes. unfold real_block.
  split; intros (e & He & H); exists e; pose proof (ok_fits e (Hes e He)); tauto.
Qed.

Lemma all_fit es : Forall extent_ok es -> Forall extent_fits es.
Proof. intros H. eapply Forall_impl; [exact H|]. intros e He. by apply ok_fits. Qed.

Lemma AddExtents_view es r :
  ranges_ok r -> Forall extent_ok es ->
  exists r', AddExtents es r = Ret r' /\ ranges_ok r'
    /\ forall b, b ∈ blocks_in r' <-> b ∈ ExpandExtents es \/ b ∈ blocks_in r.
Proof.
  intros Hr Hes. destruct (AddExtents_spec es r Hr (all_fit _ Hes)) as (r' & Heq & Hr' & Hc).
  exists r'. split_and!; try done. intros b. by rewrite !blocks_in_covers, Hc, exists_real by done.
Qed.

Lemma SubtractExtents_view es r :
  ranges_ok r -> Forall extent_ok es ->
  ranges_ok (SubtractExtents es r)
  /\ forall b, b ∈ blocks_in (SubtractExtents es r) <-> b ∈ blocks_in r /\ b ∉ ExpandExtents es.
Proof.
  intros Hr Hes. destruct (SubtractExtents_spec es r Hr (all_fit _ Hes)) as (Hr' & Hc).
  split; [done|]. intros b. by rewrite !blocks_in_covers, Hc, exists_real by done.
Qed.

Lemma GetExtents_view r count :
  ranges_ok r -> 0 <= count <= blocks r ->
  exists out, GetExtentsForBlockCount count r = Ret out /\ Forall extent_ok out
    /\ ExpandExtents out = take (Z.to_nat count) (blocks_in r).
Proof.
  intros Hr Hc. destruct (GetExtentsForBlockCount_spec r count Hr Hc) as (out & Heq & Hg & _ & He).
  exists out. split_and!; [done|by eapply gaps_ok|done].
Qed.

Lemma ranges_count r bs : ranges_ok r -> NoDup bs -> (forall b, b ∈ blocks_in r <-> b ∈ bs) -> blocks r = zlen bs.
Proof.
  intros Hr Hnd Hb. rewrite blocks_in_length by done. unfold zlen. f_equal. apply Permutation_length.
  apply NoDup_Permutation; [by apply blocks_in_NoDup|done|done].
Qed.

(** ** The scratch space of a node *)

(** Block [t] may hold other data until [u] runs. *)
Record avail (g : Graph) (u : Index) (t : Z) : Prop := {
  av_write : t ∈ writes g u;
  av_real : t < kTempBlockStart;
  av_read : t ∉ reads g u;
  av_edge : forall v, t ∉ needs g u v;
  av_zero : t <> 0;
}.

Lemma subtract_edges_view (m : EdgeMap) r :
  ranges_ok r -> (forall e, e ∈ m -> Forall extent_ok (extents (snd e))) ->
  let r' := fold_left (fun r e => SubtractExtents (extents (snd e)) r) m r in
  ranges_ok r' /\ forall b, b ∈ blocks_in r' <-> b ∈ blocks_in r /\ forall e, e ∈ m -> b ∉ ExpandExtents (extents (snd e)).
Proof.
  revert r. induction m as [|e m IH]; intros r Hr Hm; simpl.
  { split; [done|]. intros b. set_solver. }
  destruct (SubtractExtents_view (extents (snd e)) r Hr) as [Hr1 Hb1]; [apply Hm; by left|].
  destruct (IH _ Hr1) as [Hr2 Hb2]; [intros e' He'; apply Hm; by right|]. split; [done|].
  intros b. rewrite Hb2, Hb1. setoid_rewrite elem_of_cons. naive_solver.
Qed.

Lemma temp_range t :
  t < kSparseHole ->
  t ∈ ExpandExtents [ExtentForRange kTempBlockStart (u64 (kSparseHole - kTempBlockStart))] <-> kTempBlockStart <= t.
Proof.
  intros Ht. rewrite elem_of_ExpandExtents by (constructor; [vm_compute; repeat split; congruence|constructor]).
  unfold covers. rewrite Exists_cons, Exists_nil. unfold in_extent, kTempBlockStart, kSparseHole in *.
  simpl start_block. simpl num_blocks. rewrite (uint_small 64) by (unfold is_uint; lia). lia.
Qed.

Lemma needs_edges g u x t :
  vertex_ok x -> g !! u = Some x ->
  (forall e, e ∈ out_edges x -> t ∉ ExpandExtents (extents (snd e))) <-> forall v, t ∉ needs g u v.
Proof.
  intros Hx Hu. unfold link. rewrite Hu. simpl. split.
  - intros H v. destruct (edge_find v (out_edges x)) as [q|] eqn:E; [|apply not_elem_of_nil].
    apply (H (v, q)). by apply elem_of_edge_find; [apply Hx|].
  - intros H [v q] He%elem_of_edge_find; [|apply Hx]. specialize (H v). by rewrite He in H.
Qed.

Lemma scratch_of_spec g u x :
  vertex_ok x -> g !! u = Some x ->
  exists r, scratch_of x = Ret r /\ ranges_ok r /\ forall t, t ∈ blocks_in r <-> avail g u t.
Proof.
  intros Hx Hu. unfold scratch_of. destruct blocks_in_new as [Hn0 Hn1].
  destruct (AddExtents_view _ _ Hn0 (vo_dst _ Hx)) as (r1 & -> & Hr1 & Hb1). rewrite outcome_bind_ret. cbv zeta.
  set (te := ExtentForRange kTempBlockStart (u64 (kSparseHole - kTempBlockStart))).
  assert (Hte : extent_ok te) by (vm_compute; repeat split; congruence).
  pose proof temp_range as Htee. fold te in Htee.
  destruct (SubtractExtents_view [te] r1 Hr1) as [Hr2 Hb2]; [by constructor|].
  cbn [SubtractExtents fold_left] in Hr2, Hb2. change (SubtractExtents [te] r1) with (SubtractExtent te r1) in *.
  destruct (SubtractExtents_view _ _ Hr2 (vo_src _ Hx)) as [Hr3 Hb3].
  destruct (subtract_edges_view (out_edges x) _ Hr3) as [Hr4 Hb4].
  { intros [k q] He. apply (elem_of_edge_find k q _ (vo_map _ Hx)) in He. by apply (vo_edge _ Hx k). }
  set (r4 := fold_left _ (out_edges x) _) in *.
  destruct (ContainsBlock_spec r4 0 Hr4) as (c & -> & Hc); [done|]. rewrite outcome_bind_ret.
  assert (Hall : forall t, t ∈ blocks_in r4 /\ t <> 0 <-> avail g u t).
  { intros t. rewrite Hb4, Hb3, Hb2, Hb1, Hn1.
    assert (Hw : writes g u = ExpandExtents (dst_extents (aop x))) by (unfold writes; by rewrite Hu).
    assert (Hr : reads g u = ExpandExtents (src_extents (aop x))) by (unfold reads; by rewrite Hu).
    pose proof (needs_edges g u x t Hx Hu) as He.
    assert (Hlt : t ∈ writes g u -> t < kSparseHole).
    { rewrite Hw. intros Ht. by apply (expand_block_ok _ t (vo_dst _ Hx) Ht). }
    rewrite <- Hw, <- Hr, He, elem_of_nil. split.
    - intros [[[[[H1|[]] H2] H3] H4] H5]. rewrite Htee in H2 by auto. split; try done. lia.
    - intros [H1 H2 H3 H4 H5]. rewrite Htee by auto. split_and!; auto. lia. }
  destruct c; eexists; (split; [done|]).
  - destruct (SubtractExtents_view [ExtentForRange 0 1] r4 Hr4) as [Hr5 Hb5]; [by constructor|]. split; [done|].
    intros t. rewrite <- Hall. etransitivity; [apply Hb5|].
    change (ExpandExtents [ExtentForRange 0 1]) with [0]. by rewrite list_elem_of_singleton.
  - split; [done|]. intros t. rewrite <- Hall. split; [|tauto]. intros Ht. split; [done|]. intros ->.
    rewrite blocks_in_covers in Ht by done. by apply Hc in Ht.
Qed.

(** ** The search *)

Lemma NoDup_bound l m : NoDup l -> (forall b, b ∈ l -> 0 <= b < m) -> 0 <= m -> zlen l <= m.
Proof.
  intros Hnd Hb Hm. unfold zlen. enough (length l <= length (seqZ 0 m))%nat as H by (rewrite length_seqZ in H; lia).
  apply submseteq_length, NoDup_submseteq; [done|]. intros b Hin. apply elem_of_seqZ. specialize (Hb b Hin). lia.
Qed.

Section Search.
Context (g : Graph) (needed : Z) (nodes : list Index).
Context (Hg : Forall vertex_ok g) (Hneeded : 0 < needed < kTempBlockStart) (Hnd : NoDup nodes).
Context (Hvalid : forall u, u ∈ nodes -> exists x, g !! u = Some x /\ valid x = true).
Context (Hdisj : forall u v t, u ∈ nodes -> v ∈ nodes -> avail g u t -> avail g v t -> u = v).

(** What has been found on the nodes [seen]. *)
Record found (seen : list Index) (s : ExtentRanges * list (Index * ExtentRanges) * Z) : Prop := {
  fo_ok : ranges_ok (fst (fst s));
  fo_count : snd s = blocks (fst (fst s));
  fo_supplier : forall u r, (u, r) ∈ snd (fst s) ->
    u ∈ seen /\ ranges_ok r /\ forall t, t ∈ blocks_in r -> avail g u t;
  fo_union : forall t, t ∈ blocks_in (fst (fst s)) <-> exists u r, (u, r) ∈ snd (fst s) /\ t ∈ blocks_in r;
}.

(** A range of a node, cut down to what is still needed. *)
Lemma trim_spec u r have :
  ranges_ok r -> (forall t, t ∈ blocks_in r -> avail g u t) -> 0 <= have < needed ->
  exists r', (if needed <? u64 (blocks r + have) then
                new_ranges ← GetExtentsForBlockCount (u64 (needed - have)) r;
                AddExtents new_ranges ExtentRanges_new
              else Ret r) = Ret r'
    /\ ranges_ok r' /\ (forall t, t ∈ blocks_in r' -> avail g u t) /\ blocks r' = Z.min (blocks r) (needed - have).
Proof.
  intros Hr Hav Hhave.
  assert (Hsize : 0 <= blocks r <= kTempBlockStart).
  { rewrite blocks_in_length by done. split; [unfold zlen; lia|].
    apply NoDup_bound; [by apply blocks_in_NoDup| |done]. intros t Ht. split; [|by apply (av_real g u t), Hav].
    apply (expand_block_ok (extent_set r)); [|done]. eapply gaps_ok. apply Hr. }
  unfold kTempBlockStart in *. rewrite (uint_small 64 (blocks r + have)) by (unfold is_uint; lia).
  rewrite (uint_small 64 (needed - have)) by (unfold is_uint; lia).
  destruct (Z.ltb_spec needed (blocks r + have)) as [Hlt|Hge].
  - destruct (GetExtents_view r (needed - have) Hr) as (out & -> & Hok & Hout); [lia|]. rewrite outcome_bind_ret.
    destruct blocks_in_new as [Hn0 Hn1]. destruct (AddExtents_view out _ Hn0 Hok) as (r' & -> & Hr' & Hb').
    exists r'. split_and!; try done.
    + intros t. rewrite Hb', Hn1, Hout, elem_of_nil. intros [Ht|[]]. apply Hav. by apply elem_of_take in Ht as (i & Hi%list_elem_of_lookup_2 & _).
    + rewrite (ranges_count r' (take (Z.to_nat (needed - have)) (blocks_in r))); [|done| |].
      * pose proof (blocks_in_length r Hr) as Hl. unfold zlen in *. rewrite length_take. lia.
      * pose proof (blocks_in_NoDup r Hr) as Hn. rewrite <- (take_drop (Z.to_nat (needed - have))) in Hn.
        by apply NoDup_app in Hn as (? & _).
      * intros b. by rewrite Hb', Hn1, Hout, elem_of_nil, (right_id False or).
  - exists r. split_and!; try done. lia.
Qed.

Lemma find_scratch_step seen u todo s :
  nodes = seen ++ u :: todo -> found seen s -> snd s < needed ->
  exists b s', find_scratch g needed s u = Ret (b, s') /\ found (seen ++ [u]) s'
    /\ snd s' <= needed /\ (b = false -> snd s' < needed).
Proof.
  intros Hl Hf Hlt. destruct s as [[R sup] have]. pose proof Hf as [F1 F2 F3 F4]. cbn [fst snd] in *.
  assert (Hu : u ∈ nodes) by (rewrite Hl; set_solver). destruct (Hvalid u Hu) as (x & Hx & Hxv).
  pose proof (graph_ok_lookup g u x Hg Hx) as Hxok. unfold find_scratch. rewrite Hx. cbn [of_option].
  rewrite outcome_bind_ret, Hxv. cbn [negb].
  destruct (scratch_of_spec g u x Hxok Hx) as (r & -> & Hr & Hav). rewrite outcome_bind_ret.
  assert (Hseen : found (seen ++ [u]) (R, sup, have)).
  { split; try done. cbn [fst snd]. intros u' r' Hin. destruct (F3 u' r' Hin) as (? & ? & ?). split_and!; try done. set_solver. }
  assert (Hhave : 0 <= have) by (rewrite F2, (blocks_in_length _ F1); unfold zlen; lia).
  destruct (Z.eqb_spec (blocks r) 0) as [Hz|Hz].
  { eexists false, _. split; [done|]. split; [done|]. simpl. lia. }
  destruct (trim_spec u r have Hr) as (r' & -> & Hr' & Hav' & Hcount); [intros t; apply Hav|lia|].
  rewrite outcome_bind_ret. unfold AddRanges.
  destruct (AddExtents_view (extent_set r') R F1) as (R' & -> & HR' & HbR'); [eapply gaps_ok; apply Hr'|].
  rewrite outcome_bind_ret. fold (blocks_in r') in HbR'.
  assert (Hsum : blocks R' = have + blocks r').
  { rewrite (ranges_count R' (blocks_in r' ++ blocks_in R)); [|done| |].
    - rewrite zlen_app, <- !blocks_in_length, F2 by done. lia.
    - apply NoDup_app. split_and!; [by apply blocks_in_NoDup| |by apply blocks_in_NoDup].
      intros t Ht (u' & ru & Hin & Ht')%F4. destruct (F3 u' ru Hin) as (Hu' & _ & Hru).
      assert (u = u') as <-.
      { apply (Hdisj u u' t); [done|rewrite Hl; set_solver|by apply Hav'|by apply Hru]. }
      rewrite Hl in Hnd. apply NoDup_app in Hnd as (_ & Hd & _). apply (Hd u Hu'). by left.
    - intros b. by rewrite HbR', elem_of_app. }
  assert (Hpos : 0 < blocks r).
  { pose proof (blocks_in_length r Hr) as H. unfold zlen in H. lia. }
  eexists _, _. split; [done|]. rewrite uint_small by (unfold is_uint, kTempBlockStart in *; lia). cbn [fst snd]. split_and!.
  - split; cbn [fst snd]; [done|lia| |].
    + intros u' ru [Hin|[= -> ->]%list_elem_of_singleton]%elem_of_app; [|set_solver].
      destruct (F3 u' ru Hin) as (? & ? & ?). split_and!; try done. set_solver.
    + intros t. rewrite HbR', F4. setoid_rewrite elem_of_app. setoid_rewrite list_elem_of_singleton. split.
      * intros [Ht|(u' & ru & Hin & Ht)]; [exists u, r'; auto|exists u', ru; auto].
      * intros (u' & ru & [Hin|[= -> ->]] & Ht); [right; eauto|by left].
  - lia.
  - intros Hb%Z.leb_gt. lia.
Qed.

Lemma find_scratch_spec :
  exists s, loopM (find_scratch g needed) nodes (ExtentRanges_new, [], 0) = Ret s /\ found nodes s /\ snd s <= needed.
Proof.
  apply (loopM_inv (find_scratch g needed) (fun seen s => found seen s /\ snd s < needed)).
  - split; [|simpl; lia]. split; cbn [fst snd]; [done|done|by intros u r ?%elem_of_nil|].
    intros t. split; [by intros ?%elem_of_nil|by intros (? & ? & ?%elem_of_nil & _)].
  - intros seen u todo s Hl [Hf Hlt]. destruct (find_scratch_step seen u todo s Hl Hf Hlt) as (b & s' & Heq & Hf' & Hle & Hb).
    exists b, s'. split; [done|]. destruct b; [|auto]. split; [|done]. destruct Hf' as [F1 F2 F3 F4].
    split; try done. intros u' r Hin. destruct (F3 u' r Hin) as (Hu & ? & ?). split_and!; try done. rewrite Hl. set_solver.
  - intros s [Hf Hlt]. split; [done|lia].
Qed.
End Search.
