(* ===== verification/UpdatePlan.v ===== *)
(** * UpdatePlan: the invariant of the assignment of temporary blocks

    [plan] says what holds of the graph and the order of the operations while
    [AssignTempBlocks] of UpdateInplace handles one group of cuts after the
    other: whatever an operation or a copy node reads directly is not written
    before it runs, and a saved block is not written between the copy node and
    its reader.  Here are the steps that give the cuts of a group their blocks. *)
From stdpp Require Import gmap relations sets.
From S2P Require Import Prelude UpdateExtents UpdateGraph UpdateTarjan UpdateCycles UpdateInplace UpdateViews.
From S2P Require Import UpdateBuild UpdateCuts UpdateOrder UpdateScratch.

(** The cuts of a graph. *)
Record cuts_ok (g0 : Graph) (cs : list CutEdgeVertexes) : Prop := {
  co_new : forall c, c ∈ cs -> (length g0 <= new_vertex c < length g0 + length cs)%nat;
  co_inj : forall c d, c ∈ cs -> d ∈ cs -> new_vertex c = new_vertex d -> c = d;
  co_surj : forall v, (length g0 <= v < length g0 + length cs)%nat -> exists c, c ∈ cs /\ new_vertex c = v;
  co_link : forall c, c ∈ cs -> is_Some (link g0 (old_src c) (old_dst c));
  co_edge : forall c d, c ∈ cs -> d ∈ cs -> old_src c = old_src d -> old_dst c = old_dst d -> c = d;
  co_tmp : forall c, c ∈ cs -> Forall extent_ok (tmp_extents c) /\ NoDup (ExpandExtents (tmp_extents c))
             /\ length (ExpandExtents (tmp_extents c)) = length (needs g0 (old_src c) (old_dst c));
  co_temp : forall c t, c ∈ cs -> t ∈ ExpandExtents (tmp_extents c) -> kTempBlockStart <= t;
  co_disjoint : forall c d t, c ∈ cs -> d ∈ cs ->
                  t ∈ ExpandExtents (tmp_extents c) -> t ∈ ExpandExtents (tmp_extents d) -> c = d;
}.

Section Plan.
Context (n p : Z) (g0 : Graph) (B : built n p g0) (Hp : 0 <= n <= p /\ p < kTempBlockStart).
Context (cs : list CutEdgeVertexes) (K : cuts_ok g0 cs).
(** What the operations made from the new image satisfy, for the blocks they write. *)
Context (full_op : list Z -> InstallOperation -> Prop).

Abbreviation cut_blocks c := (needs g0 (old_src c) (old_dst c)).

(** An operation in place of one with the same destination. *)
Record full_for (bs : list Z) (op : InstallOperation) : Prop := {
  ff_type : is_Some (op_type op);
  ff_full : is_full_type (type_of op) = true;
  ff_src : src_extents op = [];
  ff_dst : ExpandExtents (dst_extents op) = bs;
  ff_op : full_op bs op;
}.

(** With the operations [cv] made full, the cuts whose copy nodes are used. *)
Definition live (cv : list Index) (c : CutEdgeVertexes) : Prop := c ∈ cs /\ old_dst c ∉ cv.

(** [v] reads the original content of block [t] in its place. *)
Definition direct (cv : list Index) (v : Index) (t : Z) : Prop :=
  ((v < length g0)%nat /\ v ∉ cv /\ t ∈ reads g0 v /\ forall c, c ∈ cs -> old_dst c = v -> t ∉ cut_blocks c)
  \/ exists c, live cv c /\ v = new_vertex c /\ t ∈ cut_blocks c.

(** An operation writes block [t]. *)
Definition owned (t : Z) : Prop := exists v, (v < length g0)%nat /\ t ∈ writes g0 v.

(** With the cuts [done] handled. *)
Record plan (cv : list Index) (done : list CutEdgeVertexes) (g : Graph) (l : list Index) : Prop := {
  pl_length : length g = (length g0 + length cs)%nat;
  pl_ok : Forall vertex_ok g;
  pl_NoDup : NoDup l;
  pl_elem : forall v, v ∈ l <-> (v < length g)%nat /\ forall c, c ∈ cs -> new_vertex c = v -> old_dst c ∉ cv;
  pl_done : forall c, c ∈ done -> c ∈ cs;
  pl_cv : forall b, b ∈ cv -> (b < length g0)%nat /\ forall c, c ∈ cs -> old_dst c = b -> c ∈ done;
  pl_valid : forall v x, g !! v = Some x -> valid x = true <-> v ∈ l;
  pl_kept : forall v x0, g0 !! v = Some x0 -> v ∉ cv -> exists x sx, g !! v = Some x /\ aop x = set_src_extents sx (aop x0);
  pl_found : forall v, (v < length g0)%nat -> v ∉ cv -> Forall2 (found_at g0 cs g v) (reads g0 v) (reads g v);
  pl_full : forall v, v ∈ cv -> exists x, g !! v = Some x /\ full_for (writes g0 v) (aop x);
  pl_copy : forall c, live cv c -> exists x, g !! new_vertex c = Some x /\ op_type (aop x) = Some MOVE
              /\ reads g (new_vertex c) = cut_blocks c
              /\ length (writes g (new_vertex c)) = length (cut_blocks c) /\ NoDup (writes g (new_vertex c));
  pl_pending : forall c, c ∈ cs -> c ∉ done -> writes g (new_vertex c) = ExpandExtents (tmp_extents c);
  pl_real : forall c t, c ∈ done -> live cv c -> t ∈ writes g (new_vertex c) ->
              0 < t < p /\ owned t /\ forall v, ~ direct cv v t;
  pl_edge : forall u w, is_Some (link g u w) -> before l w u;
  pl_direct : forall u v t, u ∈ l -> u <> v -> direct cv v t -> t ∈ writes g u -> t ∈ needs g u v;
  pl_chain : forall u1 u2 t, before l u1 u2 -> t ∈ writes g u1 -> t ∈ writes g u2 ->
               exists c, c ∈ done /\ live cv c /\ t ∈ needs g u2 (old_dst c);
  pl_scratch : forall c u t, live cv c -> u ∈ l -> u <> new_vertex c ->
                 t ∈ writes g (new_vertex c) -> t ∈ writes g u ->
                 before l u (new_vertex c) \/ before l (old_dst c) u;
  pl_last : forall c v t, live cv c -> (v < length g0)%nat -> t ∈ writes g (new_vertex c) -> t ∈ writes g0 v ->
              before l (old_dst c) v;
  pl_first : forall c, live cv c -> before l (new_vertex c) (old_dst c);
  pl_needs : forall u v t, t ∈ needs g u v -> 0 <= t < p;
  pl_link : forall u v q, link g u v = Some q ->
              (write_extents q = [] /\ extents q <> [] /\ forall c, c ∈ cs -> u = old_dst c -> v <> new_vertex c)
              \/ (extents q = [] /\ exists c, live cv c /\ u = old_dst c /\ v = new_vertex c
                    /\ ExpandExtents (write_extents q) = writes g (new_vertex c));
  pl_link_copy : forall u c, c ∈ cs -> is_Some (link g u (new_vertex c)) -> u = old_src c \/ u = old_dst c;
  pl_sink : forall c w, c ∈ cs -> c ∉ done -> link g (new_vertex c) w = None;
}.

(** ** Consequences *)

Lemma cut_ends c : c ∈ cs -> old_src c <> old_dst c /\ (old_src c < length g0)%nat /\ (old_dst c < length g0)%nat.
Proof. intros Hc. apply (cut_edge_vertexes n p g0 B). by apply (co_link _ _ K). Qed.

Lemma copy_ne c : c ∈ cs -> old_dst c <> new_vertex c.
Proof. intros Hc. destruct (cut_ends c Hc) as (_ & _ & ?). apply (co_new _ _ K) in Hc. lia. Qed.

Lemma plan_writes cv done g l v :
  plan cv done g l -> (v < length g0)%nat -> writes g v = writes g0 v.
Proof.
  intros P Hv. destruct (lookup_lt_is_Some_2 g0 v Hv) as [x0 Hx0]. destruct (decide (v ∈ cv)) as [Hin|Hin].
  - destruct (pl_full _ _ _ _ P v Hin) as (x & Hx & Hf). unfold writes at 1. rewrite Hx. simpl. apply (ff_dst _ _ Hf).
  - destruct (pl_kept _ _ _ _ P v x0 Hx0 Hin) as (x & sx & Hx & Ha). unfold writes. by rewrite Hx, Hx0; simpl; rewrite Ha.
Qed.

(** A vertex of the order is an operation or the copy node of a live cut. *)
Lemma plan_vertex cv done g l v :
  plan cv done g l -> v ∈ l -> (v < length g0)%nat \/ exists c, live cv c /\ v = new_vertex c.
Proof.
  intros P [Hlt Hall]%(pl_elem _ _ _ _ P). destruct (decide (v < length g0)%nat) as [?|Hge]; [by left|].
  rewrite (pl_length _ _ _ _ P) in Hlt. destruct (co_surj _ _ K v) as (c & Hc & <-); [lia|].
  right. exists c. split; [|done]. split; [done|]. by apply Hall.
Qed.

Lemma plan_op cv done g l v : plan cv done g l -> (v < length g0)%nat -> v ∈ l.
Proof.
  intros P Hv. apply (pl_elem _ _ _ _ P). rewrite (pl_length _ _ _ _ P). split; [lia|].
  intros c Hc <-. apply (co_new _ _ K) in Hc. lia.
Qed.

Section Avail.
Context (cv : list Index) (done : list CutEdgeVertexes) (g : Graph) (l : list Index) (P : plan cv done g l).

Lemma avail_first u v t : u ∈ l -> v ∈ l -> avail g u t -> t ∈ writes g v -> v = u \/ before l u v.
Proof.
  intros Hu Hv [A1 _ _ A4 _] Ht. destruct (decide (v = u)) as [->|Hne]; [by left|].
  destruct (before_total l u v Hu Hv) as [?|Hb]; [done|by right|].
  destruct (pl_chain _ _ _ _ P v u t Hb Ht A1) as (c & _ & _ & Hc). by apply A4 in Hc.
Qed.

Lemma avail_disjoint u v t : u ∈ l -> v ∈ l -> avail g u t -> avail g v t -> u = v.
Proof.
  intros Hu Hv Au Av. destruct (avail_first u v t Hu Hv Au (av_write _ _ _ Av)) as [->|H1]; [done|].
  destruct (avail_first v u t Hv Hu Av (av_write _ _ _ Au)) as [->|H2]; [done|].
  by apply before_asym in H1; [|apply P].
Qed.

Lemma avail_unread u v t : u ∈ l -> avail g u t -> ~ direct cv v t.
Proof.
  intros Hu [A1 _ A3 A4 _] Hd. destruct (decide (u = v)) as [->|Hne].
  - destruct Hd as [(Hv & Hcv & Ht & Hcut)|(c & Hc & -> & Ht)].
    + apply A3. apply list_elem_of_lookup in Ht as [i Hi].
      destruct (Forall2_lookup_l _ _ _ _ _ (pl_found _ _ _ _ P v Hv Hcv) Hi) as (t' & Hi' & [(c & j & H1 & H2 & H3 & _)|[_ ->]]).
      * destruct (Hcut c H1 H2). by apply list_elem_of_lookup_2 in H3.
      * by apply list_elem_of_lookup_2 in Hi'.
    + apply A3. destruct (pl_copy _ _ _ _ P c Hc) as (x & _ & _ & -> & _). done.
  - apply (A4 v). by apply (pl_direct _ _ _ _ P).
Qed.

Lemma avail_real u t : u ∈ l -> avail g u t -> 0 < t < p /\ owned t.
Proof.
  intros Hu [A1 A2 _ _ A5]. destruct (plan_vertex _ _ _ _ u P Hu) as [Hv|(c & Hc & ->)].
  - rewrite (plan_writes _ _ _ _ _ P) in A1 by done. split; [apply (fi_writes _ _ _ B) in A1; lia|by exists u].
  - destruct (decide (c ∈ done)) as [Hd|Hd]; [destruct (pl_real _ _ _ _ P c t Hd Hc A1) as (? & ? & _); done|].
    rewrite (pl_pending _ _ _ _ P c (proj1 Hc) Hd) in A1. apply (co_temp _ _ K) in A1; [lia|apply Hc].
Qed.
End Avail.

(** ** Scratch space is reserved *)

(** The same vertices with more edges. *)
Lemma plan_more_edges cv done g g' l :
  plan cv done g l -> length g' = length g -> Forall vertex_ok g' ->
  (forall v, (fun x => (valid x, aop x)) <$> g' !! v = (fun x => (valid x, aop x)) <$> g !! v) ->
  (forall u v t, t ∈ needs g u v -> t ∈ needs g' u v) ->
  (forall u w, is_Some (link g' u w) -> before l w u) ->
  (forall u v t, t ∈ needs g' u v -> 0 <= t < p) ->
  (forall u v q, link g' u v = Some q -> link g u v = Some q
     \/ (write_extents q = [] /\ extents q <> [] /\ (v < length g0)%nat)) ->
  (forall c w, c ∈ cs -> c ∉ done -> link g' (new_vertex c) w = None) ->
  plan cv done g' l.
Proof.
  intros [P1 P2 P3 P4 P5 P6 P7 P8 P9 P10 P11 P12 P13 P14 P15 P16 P17 P18 P19 P20 P21 P22 P23].
  intros Hlen Hok Hsame Hmore Hedge Hneeds Hlink Hsink.
  assert (Hx' : forall v x, g !! v = Some x -> exists x', g' !! v = Some x' /\ valid x' = valid x /\ aop x' = aop x).
  { intros v x Hx. specialize (Hsame v). rewrite Hx in Hsame. simpl in Hsame.
    apply fmap_Some in Hsame as (x' & Hx' & [= -> ->]). by exists x'. }
  assert (Hr : forall v, reads g' v = reads g v).
  { intros v. unfold reads. specialize (Hsame v). by destruct (g !! v), (g' !! v); simplify_eq/=; try congruence. }
  assert (Hw : forall v, writes g' v = writes g v).
  { intros v. unfold writes. specialize (Hsame v). by destruct (g !! v), (g' !! v); simplify_eq/=; try congruence. }
  split; try setoid_rewrite Hw; try setoid_rewrite Hr; try done.
  - by rewrite Hlen.
  - by rewrite Hlen.
  - intros v x Hx. specialize (Hsame v). rewrite Hx in Hsame. symmetry in Hsame.
    apply fmap_Some in Hsame as (y & Hy & [= -> _]). by apply P7.
  - intros v x0 Hx0 Hv. destruct (P8 v x0 Hx0 Hv) as (x & sx & Hx & Ha). destruct (Hx' v x Hx) as (x' & ? & _ & ?).
    exists x', sx. split; [done|congruence].
  - intros v Hv Hcv. eapply Forall2_impl; [by apply P9|]. intros b t. unfold found_at. by setoid_rewrite Hw.
  - intros v Hv. destruct (P10 v Hv) as (x & Hx & Hf). destruct (Hx' v x Hx) as (x' & ? & _ & Ha).
    exists x'. by rewrite Ha.
  - intros c Hc. destruct (P11 c Hc) as (x & Hx & Ht & ?). destruct (Hx' _ x Hx) as (x' & ? & _ & Ha).
    exists x'. by rewrite Ha.
  - intros u v t Hu Hne Hd Ht. apply Hmore. by apply P15.
  - intros u1 u2 t Hb H1 H2. destruct (P16 u1 u2 t Hb H1 H2) as (c & ? & ? & ?). exists c. auto.
  - intros u v q Hq. destruct (Hlink u v q Hq) as [Hq'|(? & ? & Hv)]; [by apply P21|]. left. split_and!; try done.
    intros c Hc _ ->. apply (co_new _ _ K) in Hc. lia.
  - intros u c Hc [q Hq]. destruct (Hlink _ _ _ Hq) as [Hq'|(? & ? & Hv)]; [apply P22; by eauto|].
    apply (co_new _ _ K) in Hc. lia.
Qed.

(** Block [t] is free from the time [b] needs it until [u] overwrites it. *)
Definition reserved (cv : list Index) (b : Index) (g : Graph) (l : list Index) (t : Z) : Prop :=
  0 < t < p /\ owned t /\ (forall v, ~ direct cv v t)
  /\ exists u, before l b u /\ t ∈ writes g u /\ t ∈ needs g u b
     /\ forall v, v ∈ l -> t ∈ writes g v -> v = u \/ before l u v.

(** One more node supplies blocks to [b]. *)
Lemma plan_supply cv done g l b u es :
  plan cv done g l -> before l b u -> (b < length g0)%nat -> Forall extent_ok es ->
  (forall t, t ∈ ExpandExtents es -> 0 <= t < p) ->
  (forall c, c ∈ cs -> u = new_vertex c -> ExpandExtents es <> [] -> c ∈ done) ->
  let g' := alter (fun v => AddReadBeforeDepExtents v b es) u g in
  plan cv done g' l
  /\ (forall v, writes g' v = writes g v)
  /\ (forall v w t, t ∈ needs g v w -> t ∈ needs g' v w)
  /\ forall t, t ∈ ExpandExtents es -> t ∈ needs g' u b.
Proof.
  intros P Hb Hlt Hes Hreal Hsup g'. pose proof (pl_ok _ _ _ _ P) as Hok.
  assert (Hu : u ∈ l) by (by apply before_elem in Hb as [_ ?]). apply (pl_elem _ _ _ _ P) in Hu as [Hu _].
  destruct (lookup_lt_is_Some_2 g u Hu) as [x Hx].
  pose proof (AddReadBeforeDepExtents_spec x b es (graph_ok_lookup g u x Hok Hx) Hes) as [R1 R2 R3 R4 R5 R6 R7 R8].
  assert (Hlk : forall v w, (v = u /\ w = b) \/ link g' v w = link g v w).
  { intros v w. destruct (decide (v = u)) as [->|Hne]; [|right; by apply link_alter_ne].
    destruct (decide (w = b)) as [->|Hw]; [by left|right]. unfold g'. rewrite (link_alter_eq _ _ _ x) by done.
    rewrite R4 by done. unfold link. by rewrite Hx. }
  assert (Hub : link g' u b = edge_find b (out_edges (AddReadBeforeDepExtents x b es))) by (unfold g'; by rewrite (link_alter_eq _ _ _ x)).
  assert (Hub0 : link g u b = edge_find b (out_edges x)) by (unfold link; by rewrite Hx).
  assert (Hn : needs g' u b = needs g u b ++ ExpandExtents es) by (by rewrite Hub, Hub0).
  assert (Hsame : forall v, (fun x => (valid x, aop x)) <$> g' !! v = (fun x => (valid x, aop x)) <$> g !! v).
  { intros v. unfold g'. rewrite lookup_alter_graph. case_decide as Hv; [|done]. subst v. rewrite Hx. simpl. by rewrite R2, R3. }
  assert (Hmore : forall v w t, t ∈ needs g v w -> t ∈ needs g' v w).
  { intros v w t Ht. destruct (Hlk v w) as [[-> ->]|E]; [|by rewrite E]. rewrite Hn. set_solver. }
  split_and!; [|intros v|done|].
  - apply (plan_more_edges cv done g g' l P); try done.
    + apply length_alter.
    + apply graph_ok_alter; [done|]. by intros y [= <-]%(eq_trans (eq_sym Hx)).
    + intros v w Hl. destruct (Hlk v w) as [[-> ->]|E]; [done|]. rewrite E in Hl. by apply (pl_edge _ _ _ _ P).
    + intros v w t Ht. destruct (Hlk v w) as [[-> ->]|E]; [|rewrite E in Ht; by apply (pl_needs _ _ _ _ P v w)].
      rewrite Hn in Ht. apply elem_of_app in Ht as [Ht|Ht]; [by apply (pl_needs _ _ _ _ P u b)|by apply Hreal].
    + intros v w q Hq. destruct (Hlk v w) as [[-> ->]|E]; [|left; congruence].
      destruct (decide (ExpandExtents es = [])) as [He|He]; [left; by rewrite Hub0, <- R6, <- Hub|right].
      rewrite Hub in Hq. rewrite Hq in R7, R8. simpl in R7, R8. split_and!; [|intros E|done].
      * rewrite R8, <- Hub0. destruct (link g u b) as [q0|] eqn:E; [|done].
        destruct (pl_link _ _ _ _ P u b q0 E) as [(? & _)|(_ & c & Hc & _ & -> & _)]; [done|].
        destruct Hc as [Hc%(co_new _ _ K) _]. lia.
      * rewrite E in R7. symmetry in R7. by apply app_eq_nil in R7 as [_ ?].
    + intros c w Hc Hcd. destruct (Hlk (new_vertex c) w) as [[<- ->]|E]; [|rewrite E; by apply (pl_sink _ _ _ _ P)].
      destruct (decide (ExpandExtents es = [])) as [He|He]; [|by apply Hsup in Hc].
      rewrite Hub, R6, <- Hub0 by done. by apply (pl_sink _ _ _ _ P).
  - unfold writes. specialize (Hsame v). by destruct (g !! v), (g' !! v); simplify_eq/=; try congruence.
  - intros t Ht. rewrite Hn. set_solver.
Qed.

(** ** The blocks of a cut *)

Section Place.
Context (cv : list Index) (done : list CutEdgeVertexes) (g : Graph) (l : list Index) (P : plan cv done g l).
Context (c : CutEdgeVertexes) (Hc : c ∈ cs) (Hnew : c ∉ done) (Hcv : old_dst c ∉ cv).
Context (es : list Extent) (Hes : Forall extent_ok es) (Hnd : NoDup (ExpandExtents es)).
Context (Hlen : length (ExpandExtents es) = length (cut_blocks c)).
Context (Hres : forall t, t ∈ ExpandExtents es -> reserved cv (old_dst c) g l t).
Context (x x' : Vertex) (Hx : g !! old_dst c = Some x).

Abbreviation f := (relocate (ExpandExtents (tmp_extents c)) (ExpandExtents es)).

(** What [SubstituteBlocks] makes of the reader. *)
Context (Sok : vertex_ok x') (Svalid : valid x' = valid x).
Context (sx : list Extent) (Saop : aop x' = set_src_extents sx (aop x)).
Context (Ssx : ExpandExtents sx = f <$> ExpandExtents (src_extents (aop x))).
Context (Sedges : forall k, match edge_find k (out_edges x), edge_find k (out_edges x') with
                            | Some q, Some q' => extents q' = extents q
                                /\ ExpandExtents (write_extents q') = f <$> ExpandExtents (write_extents q)
                            | None, None => True
                            | _, _ => False
                            end).

Abbreviation g' := (alter (fun v => set_aop (set_dst_extents es (aop v)) v) (new_vertex c) (<[old_dst c := x']> g)).

Lemma place_live : live cv c.
Proof. by split. Qed.

Lemma place_copy : exists y, g !! new_vertex c = Some y /\ old_dst c <> new_vertex c.
Proof.
  destruct (pl_copy _ _ _ _ P c place_live) as (y & Hy & _). exists y. split; [done|by apply copy_ne].
Qed.

Lemma place_lookup v :
  g' !! v = if decide (v = new_vertex c) then (fun y => set_aop (set_dst_extents es (aop y)) y) <$> g !! v
            else if decide (v = old_dst c) then Some x' else g !! v.
Proof.
  destruct place_copy as (y & Hy & Hne). rewrite lookup_alter_graph, lookup_insert_graph by (by apply lookup_lt_Some in Hx).
  destruct (decide (v = new_vertex c)) as [->|Hv]; [|done].
  by rewrite decide_False by done.
Qed.

Lemma place_writes v : writes g' v = if decide (v = new_vertex c) then ExpandExtents es else writes g v.
Proof.
  unfold writes. rewrite place_lookup. destruct (decide (v = new_vertex c)) as [->|Hv].
  - destruct place_copy as (y & -> & _). done.
  - case_decide; [|done]. subst. rewrite Hx. simpl. by rewrite Saop.
Qed.

Lemma place_reads v : reads g' v = if decide (v = old_dst c) then f <$> reads g v else reads g v.
Proof.
  unfold reads. rewrite place_lookup. destruct place_copy as (y & Hy & Hne). destruct (decide (v = new_vertex c)) as [->|Hv].
  - rewrite decide_False, Hy by done. done.
  - case_decide; [|done]. subst. rewrite Hx. simpl. by rewrite Saop.
Qed.

Lemma place_link u v :
  u <> old_dst c -> link g' u v = link g u v.
Proof.
  intros Hu. unfold link. rewrite place_lookup. destruct (decide (u = new_vertex c)) as [->|Hv]; [|by rewrite decide_False].
  by destruct (g !! new_vertex c).
Qed.

Lemma place_link_dst v :
  match link g (old_dst c) v, link g' (old_dst c) v with
  | Some q, Some q' => extents q' = extents q
      /\ ExpandExtents (write_extents q') = f <$> ExpandExtents (write_extents q)
  | None, None => True
  | _, _ => False
  end.
Proof.
  destruct place_copy as (y & Hy & Hne).
  assert (link g' (old_dst c) v = edge_find v (out_edges x')) as ->.
  { unfold link. by rewrite place_lookup, decide_False, decide_True. }
  assert (link g (old_dst c) v = edge_find v (out_edges x)) as -> by (unfold link; by rewrite Hx). apply Sedges.
Qed.

Lemma place_link_some u v : is_Some (link g' u v) <-> is_Some (link g u v).
Proof.
  destruct (decide (u = old_dst c)) as [->|Hu]; [|by rewrite place_link].
  pose proof (place_link_dst v) as H. destruct (link g (old_dst c) v), (link g' (old_dst c) v); try done.
Qed.

Lemma place_needs u v : needs g' u v = needs g u v.
Proof.
  destruct (decide (u = old_dst c)) as [->|Hu]; [|by rewrite place_link].
  pose proof (place_link_dst v) as H. destruct (link g (old_dst c) v), (link g' (old_dst c) v); try done.
  simpl. by destruct H as [-> _].
Qed.

(** Blocks of other cuts stay where they are. *)
Lemma place_other d t : live cv d -> d <> c -> t ∈ writes g (new_vertex d) -> f t = t.
Proof.
  intros Hd Hne Ht. apply relocate_out. intros Ht'. destruct (decide (d ∈ done)) as [Hdone|Hdone].
  - destruct (pl_real _ _ _ _ P d t Hdone Hd Ht) as [? _]. apply (co_temp _ _ K c t Hc) in Ht'. lia.
  - rewrite (pl_pending _ _ _ _ P d (proj1 Hd) Hdone) in Ht. apply Hne. by apply (co_disjoint _ _ K d c t); [apply Hd|..].
Qed.

Lemma place_fmap : f <$> ExpandExtents (tmp_extents c) = ExpandExtents es.
Proof.
  destruct (co_tmp _ _ K c Hc) as (_ & Htnd & Htl). apply list_eq_same_length with (n := length (cut_blocks c)); [done|by rewrite length_fmap|].
  intros i a b Hi Ha Hb. apply list_lookup_fmap_Some in Ha as (t & -> & Ht). by apply (relocate_in _ _ i).
Qed.

Lemma place_writes_other d : d ∈ cs -> d <> c -> writes g' (new_vertex d) = writes g (new_vertex d).
Proof. intros Hd Hne. rewrite place_writes, decide_False; [done|]. intros E. by apply Hne, (co_inj _ _ K). Qed.

Lemma place_found v :
  (v < length g0)%nat -> v ∉ cv -> Forall2 (found_at g0 cs g' v) (reads g0 v) (reads g' v).
Proof.
  intros Hv Hvcv. pose proof (pl_found _ _ _ _ P v Hv Hvcv) as Hf. rewrite place_reads.
  destruct (decide (v = old_dst c)) as [->|Hne].
  - apply Forall2_fmap_r. apply (Forall2_same_length_lookup_2 (fun b t => found_at g0 cs g' (old_dst c) b (f t))).
    { by apply Forall2_length in Hf. }
    intros i b t Hb Ht. destruct (Forall2_lookup_lr _ _ _ _ _ _ Hf Hb Ht) as [(d & j & Hd & Hdv & Hj & Hjt)|[Hhome ->]].
    + left. exists d, j. destruct (decide (d = c)) as [->|Hdc].
      * rewrite place_writes, decide_True by done. rewrite (pl_pending _ _ _ _ P c Hc Hnew) in Hjt. split_and!; try done.
        apply (f_equal (fmap f)) in Hjt. by rewrite <- list_lookup_fmap, place_fmap in Hjt.
      * rewrite place_writes_other by done. split_and!; try done.
        rewrite (place_other d); [done|split; congruence|done|by apply list_elem_of_lookup_2 in Hjt].
    + right. split; [done|]. apply relocate_out. intros Htemp%(co_temp _ _ K c b Hc).
      apply list_elem_of_lookup_2, (fi_reads _ _ _ B) in Hb. lia.
  - eapply Forall2_impl; [exact Hf|]. intros b t [(d & j & Hd & Hdv & Hj & Ht)|[Hhome ->]]; [left|by right].
    exists d, j. rewrite place_writes_other; [done|done|congruence].
Qed.

Lemma place_real t : t ∈ ExpandExtents es -> 0 < t < p /\ owned t /\ forall v, ~ direct cv v t.
Proof. intros Ht. destruct (Hres t Ht) as (? & ? & ? & _). done. Qed.

(** Whoever else writes a block of the copy node runs after the reader. *)
Lemma place_later t v : t ∈ ExpandExtents es -> v ∈ l -> t ∈ writes g v -> before l (old_dst c) v.
Proof.
  intros Ht Hv Hw. destruct (Hres t Ht) as (_ & _ & _ & u & Hu & _ & _ & Hfirst).
  destruct (Hfirst v Hv Hw) as [->|Hb]; [done|]. by apply (before_trans l _ u); [apply P|..].
Qed.

Lemma place_after v : before l (old_dst c) v -> before l (new_vertex c) v /\ v <> new_vertex c.
Proof.
  intros Hv. pose proof (pl_first _ _ _ _ P c place_live) as Hf.
  assert (Hb : before l (new_vertex c) v) by (by apply (before_trans l _ (old_dst c)); [apply P|..]).
  split; [done|]. intros ->. by apply before_irrefl in Hb; [|apply P].
Qed.

Lemma place_chain u1 u2 t :
  before l u1 u2 -> t ∈ writes g' u1 -> t ∈ writes g' u2 ->
  exists d, d ∈ done ++ [c] /\ live cv d /\ t ∈ needs g' u2 (old_dst d).
Proof.
  intros Hb. rewrite !place_writes. setoid_rewrite place_needs. pose proof (before_elem _ _ _ Hb) as [Hu1 Hu2].
  assert (Hold : forall v, before l v u2 -> t ∈ writes g v -> t ∈ writes g u2 ->
    exists d, d ∈ done ++ [c] /\ live cv d /\ t ∈ needs g u2 (old_dst d)).
  { intros v Hvb Hv1 Hv2. destruct (pl_chain _ _ _ _ P v u2 t Hvb Hv1 Hv2) as (d & ? & ? & ?). exists d. set_solver. }
  destruct (decide (u1 = new_vertex c)) as [->|H1], (decide (u2 = new_vertex c)) as [->|H2]; intros Ht1 Ht2.
  - by apply before_irrefl in Hb; [|apply P].
  - destruct (Hres t Ht1) as (_ & _ & _ & u & Hu & Hw & Hn & Hfirst). destruct (Hfirst u2 Hu2 Ht2) as [->|Hbu].
    + exists c. split; [set_solver|]. split; [apply place_live|done].
    + by apply (Hold u).
  - destruct (place_after u1) as [Hb' _]; [by apply (place_later t)|]. by apply before_asym in Hb; [|apply P].
  - by apply (Hold u1).
Qed.

Lemma live_in d : live cv d -> new_vertex d ∈ l.
Proof. intros Hd. by apply (pl_first _ _ _ _ P) in Hd as [? _]%before_elem. Qed.

Lemma place_scratch d u t :
  live cv d -> u ∈ l -> u <> new_vertex d -> t ∈ writes g' (new_vertex d) -> t ∈ writes g' u ->
  before l u (new_vertex d) \/ before l (old_dst d) u.
Proof.
  intros Hd Hu Hne. rewrite !place_writes. destruct (decide (new_vertex d = new_vertex c)) as [E|H1].
  - apply (co_inj _ _ K) in E as ->; [|apply Hd|done]. rewrite decide_False by done. intros Ht1 Ht2. right.
    by apply (place_later t).
  - destruct (decide (u = new_vertex c)) as [->|H2]; [|by apply (pl_scratch _ _ _ _ P)].
    intros Ht1 Ht2. left. by apply place_after, (place_later t), Ht1; [|apply live_in].
Qed.

Lemma place_last d v t :
  live cv d -> (v < length g0)%nat -> t ∈ writes g' (new_vertex d) -> t ∈ writes g0 v -> before l (old_dst d) v.
Proof.
  intros Hd Hv. rewrite place_writes. destruct (decide (new_vertex d = new_vertex c)) as [E|H1]; [|by apply (pl_last _ _ _ _ P)].
  apply (co_inj _ _ K) in E as ->; [|apply Hd|done]. rewrite <- (plan_writes _ _ _ _ _ P) by done. intros Ht1 Ht2.
  apply (place_later t); [done|by apply (plan_op _ _ _ _ _ P)|done].
Qed.

Lemma place_ok : Forall vertex_ok g'.
Proof.
  pose proof (pl_ok _ _ _ _ P) as Hok. apply graph_ok_alter; [by apply graph_ok_insert|].
  destruct place_copy as (y & Hy & Hne). intros z. rewrite list_lookup_insert_ne, Hy by done. intros [= <-].
  destruct (graph_ok_lookup g _ y Hok Hy) as [V1 V2 V3 V4]. by split.
Qed.

Lemma place_vertex v y :
  g !! v = Some y -> exists y', g' !! v = Some y' /\ valid y' = valid y /\ op_type (aop y') = op_type (aop y)
    /\ (v <> new_vertex c -> exists sx, aop y' = set_src_extents sx (aop y))
    /\ (v <> new_vertex c -> v <> old_dst c -> y' = y).
Proof.
  intros Hy. rewrite place_lookup, Hy. destruct (decide (v = new_vertex c)) as [->|H1].
  - eexists. split; [done|]. split_and!; try done.
  - destruct (decide (v = old_dst c)) as [->|H2].
    + simplify_eq. eexists. split; [done|]. rewrite Saop. split_and!; try done. by eexists.
    + eexists. split; [done|]. split_and!; try done. exists (src_extents (aop y)). by destruct (aop y).
Qed.

Lemma place_link_shape u v q :
  link g' u v = Some q ->
  (write_extents q = [] /\ extents q <> [] /\ forall d, d ∈ cs -> u = old_dst d -> v <> new_vertex d)
  \/ (extents q = [] /\ exists d, live cv d /\ u = old_dst d /\ v = new_vertex d
        /\ ExpandExtents (write_extents q) = writes g' (new_vertex d)).
Proof.
  intros Hq. assert (Hvok : Forall extent_ok (write_extents q)).
  { unfold link in Hq. destruct (g' !! u) as [y|] eqn:E; [|done]. by apply (vo_edge _ (graph_ok_lookup _ _ _ place_ok E) v). }
  destruct (decide (u = old_dst c)) as [->|Hu].
  - pose proof (place_link_dst v) as H. rewrite Hq in H. destruct (link g (old_dst c) v) as [q0|] eqn:E; [|done].
    destruct H as [-> Hw]. destruct (pl_link _ _ _ _ P _ _ _ E) as [(H1 & H2)|(H1 & d & Hd & Hdu & -> & H3)].
    + left. split; [|done]. rewrite H1 in Hw. by apply expand_nil.
    + right. split; [done|]. exists d. split_and!; try done. rewrite Hw, H3. destruct (decide (d = c)) as [->|Hdc].
      * rewrite place_writes, decide_True, (pl_pending _ _ _ _ P c Hc Hnew) by done. apply place_fmap.
      * rewrite place_writes_other by (done || apply Hd). rewrite <- (list_fmap_id (writes g _)) at 2.
        apply list_fmap_ext. intros i t Ht%list_elem_of_lookup_2. by apply (place_other d).
  - rewrite place_link in Hq by done. destruct (pl_link _ _ _ _ P _ _ _ Hq) as [?|(H1 & d & Hd & -> & -> & H3)]; [by left|right].
    split; [done|]. exists d. split_and!; try done. rewrite H3, place_writes_other; [done|apply Hd|congruence].
Qed.

Lemma plan_place : plan cv (done ++ [c]) g' l.
Proof.
  destruct place_copy as (yc & Hyc & Hne). pose proof (cut_ends c Hc) as (_ & _ & Hltb). pose proof (co_new _ _ K c Hc) as Hltc.
  assert (Hlg : length g' = length g) by (by rewrite length_alter, length_insert).
  split; try setoid_rewrite place_needs; try setoid_rewrite place_link_some; try apply P.
  - rewrite Hlg. apply P.
  - apply place_ok.
  - rewrite Hlg. apply P.
  - intros d [Hd| ->%list_elem_of_singleton]%elem_of_app; [by apply (pl_done _ _ _ _ P)|done].
  - intros b Hb. destruct (pl_cv _ _ _ _ P b Hb) as [? Hall]. split; [done|]. intros d Hd Hdb. apply elem_of_app. left. auto.
  - intros v y'. rewrite place_lookup. destruct (decide (v = new_vertex c)) as [->|H1].
    + rewrite Hyc. intros [= <-]. by apply (pl_valid _ _ _ _ P _ yc).
    + destruct (decide (v = old_dst c)) as [->|H2]; [|apply P]. intros [= <-]. rewrite Svalid. by apply (pl_valid _ _ _ _ P _ x).
  - intros v x0 Hx0 Hv. destruct (pl_kept _ _ _ _ P v x0 Hx0 Hv) as (y & s & Hy & Ha).
    destruct (place_vertex v y Hy) as (y' & ? & _ & _ & [s' Hs'] & _); [apply lookup_lt_Some in Hx0; lia|].
    exists y', s'. split; [done|]. by rewrite Hs', Ha.
  - apply place_found.
  - intros v Hv. destruct (pl_full _ _ _ _ P v Hv) as (y & Hy & Hf). exists y. split; [|done].
    destruct (place_vertex v y Hy) as (y' & Hy' & _ & _ & _ & E). rewrite Hy', E; [done| |by intros ->].
    apply (pl_cv _ _ _ _ P) in Hv as [? _]. lia.
  - intros d Hd. destruct (pl_copy _ _ _ _ P d Hd) as (y & Hy & H1 & H2 & H3 & H4).
    destruct (place_vertex _ y Hy) as (y' & ? & _ & Ht & _). exists y'. split; [done|]. rewrite Ht, place_reads, decide_False.
    2: { destruct Hd as [Hd%(co_new _ _ K) _]. lia. }
    split; [done|]. split; [done|]. rewrite place_writes. case_decide as E; [|done].
    by apply (co_inj _ _ K) in E as ->; [|apply Hd|].
  - intros d Hd Hdn. rewrite place_writes_other; [|done|set_solver]. apply P; set_solver.
  - intros d t [Hd| ->%list_elem_of_singleton]%elem_of_app Hlive.
    + rewrite place_writes_other; [by apply P|apply Hlive|congruence].
    + rewrite place_writes, decide_True by done. apply place_real.
  - intros u v t Hu Huv Hd. rewrite place_writes. case_decide; [|by apply P]. intros Ht. by apply place_real in Ht as (_ & _ & Hn); apply Hn in Hd.
  - setoid_rewrite <- place_needs. apply place_chain.
  - apply place_scratch.
  - apply place_last.
  - apply place_link_shape.
  - intros d w Hd Hdn. pose proof (pl_sink _ _ _ _ P d w Hd ltac:(set_solver)) as Hl.
    destruct (link g' (new_vertex d) w) eqn:E; [|done]. destruct (proj1 (place_link_some (new_vertex d) w)); [by eexists|congruence].
Qed.

Lemma reserved_place t :
  reserved cv (old_dst c) g l t -> t ∉ ExpandExtents es -> reserved cv (old_dst c) g' l t.
Proof.
  intros (H1 & H2 & H2' & u & H3 & H4 & H5 & H6) Hout. split; [done|]. split; [done|]. split; [done|]. exists u.
  rewrite place_writes, place_needs, decide_False by (by apply place_after). split_and!; try done.
  intros v Hv. rewrite place_writes. case_decide; [done|]. by apply H6.
Qed.
End Place.
End Plan.

(** The operations made full may satisfy less. *)
Lemma plan_weaken p g0 cs (f1 f2 : list Z -> InstallOperation -> Prop) cv done g l :
  (forall bs op, f1 bs op -> f2 bs op) -> plan p g0 cs f1 cv done g l -> plan p g0 cs f2 cv done g l.
Proof.
  intros Hf [P1 P2 P3 P4 P5 P6 P7 P8 P9 P10 P11 P12 P13 P14 P15 P16 P17 P18 P19 P20 P21 P22 P23]. split; try done.
  intros v Hv. destruct (P10 v Hv) as (x & Hx & [F1 F2 F3 F4 F5]). exists x. split; [done|]. split; auto.
Qed.
