(* ===== verification/UpdateAssign.v ===== *)
(** * UpdateAssign: handling a group of cuts

    [AssignBlockForAdjoiningCuts] of UpdateInplace: the cuts of one reader
    either all get scratch blocks, or the reader is made a full operation and
    moved to the end.  Both keep the [plan] of UpdatePlan. *)
From stdpp Require Import gmap relations sets.
From S2P Require Import Prelude UpdateExtents UpdateGraph UpdateTarjan UpdateCycles UpdateInplace UpdateViews.
From S2P Require Import UpdateBuild UpdateCuts UpdateOrder UpdateScratch UpdatePlan.

Section Assign.
Context (n p : Z) (g0 : Graph) (B : built n p g0) (Hp : 0 <= n <= p /\ p < kTempBlockStart).
Context (cs : list CutEdgeVertexes) (K : cuts_ok g0 cs).
Context (full_op : list Z -> InstallOperation -> Prop).

Abbreviation cut_blocks c := (needs g0 (old_src c) (old_dst c)).
Abbreviation plan := (plan p g0 cs full_op).

(** The cuts of the reader [b]. *)
Record group_ok (cv : list Index) (done group : list CutEdgeVertexes) (b : Index) : Prop := {
  gr_ne : group <> [];
  gr_NoDup : NoDup group;
  gr_cv : b ∉ cv;
  gr_all : forall c, c ∈ cs -> old_dst c = b <-> c ∈ group;
  gr_in : forall c, c ∈ group -> c ∈ cs /\ c ∉ done;
}.

Section Group.
Context (cv : list Index) (done : list CutEdgeVertexes) (g : Graph) (l : list Index) (P : plan cv done g l).
Context (group : list CutEdgeVertexes) (b : Index) (G : group_ok cv done group b).

Lemma group_cut c : c ∈ group -> c ∈ cs /\ c ∉ done /\ old_dst c = b.
Proof. intros Hc. destruct (gr_in _ _ _ _ G c Hc). split_and!; try done. by apply (gr_all _ _ _ _ G). Qed.

Lemma group_some : exists c, c ∈ group.
Proof. pose proof (gr_ne _ _ _ _ G) as Hne. clear -Hne. destruct group; [done|]. eexists. by left. Qed.

Lemma group_dst : (b < length g0)%nat.
Proof.
  destruct group_some as [c Hin]. destruct (group_cut c Hin) as (Hc & _ & <-).
  by apply (cut_ends n p g0 B cs K).
Qed.

Lemma group_blocks_bound seen : NoDup seen -> (forall c, c ∈ seen -> c ∈ group) -> zlen (seen ≫= fun c => cut_blocks c) <= n.
Proof.
  intros Hnd Hin. apply NoDup_bound; [| |lia].
  - induction Hnd as [|c seen Hc Hnd IH]; [constructor|]. rewrite bind_cons. apply NoDup_app.
    split_and!; [apply (bu_needs_NoDup _ _ _ B)| |apply IH; intros d Hd; apply Hin; by right].
    intros t Ht (d & Htd & Hd)%list_elem_of_bind.
    destruct (group_cut c) as (Hc1 & _ & Hc2); [apply Hin; by left|]. destruct (group_cut d) as (Hd1 & _ & Hd2); [apply Hin; by right|].
    apply (bu_needs _ _ _ B) in Ht as (_ & Hw & _), Htd as (_ & Hw' & _).
    assert (c = d) as -> by (apply (co_edge _ _ K); [done|done|by apply (fi_writer _ _ _ B _ _ t)|congruence]). done.
  - intros t (d & (_ & _ & Hr)%(bu_needs _ _ _ B) & _)%list_elem_of_bind. by apply (fi_reads _ _ _ B) in Hr.
Qed.

Lemma tmp_count c : c ∈ cs -> BlocksInExtents (tmp_extents c) = zlen (cut_blocks c).
Proof.
  intros Hc. destruct (co_tmp _ _ K c Hc) as (Hok & _ & Hlen).
  assert (Hz : zlen (cut_blocks c) = total (tmp_extents c)) by (rewrite <- ExpandExtents_length by done; unfold zlen; by rewrite Hlen).
  rewrite BlocksInExtents_total; [done|done|]. rewrite <- Hz.
  enough (zlen (cut_blocks c) <= n) by (unfold kTempBlockStart in *; lia). apply NoDup_bound; [apply (bu_needs_NoDup _ _ _ B)| |lia].
  intros t (_ & _ & Hr)%(bu_needs _ _ _ B). by apply (fi_reads _ _ _ B) in Hr.
Qed.

Lemma blocks_needed_spec :
  fold_left (fun n cut => u64 (n + BlocksInExtents (tmp_extents cut))) group 0 = zlen (group ≫= fun c => cut_blocks c).
Proof.
  enough (forall todo seen, group = seen ++ todo ->
    fold_left (fun n cut => u64 (n + BlocksInExtents (tmp_extents cut))) todo (zlen (seen ≫= fun c => cut_blocks c))
    = zlen (group ≫= fun c => cut_blocks c)) as H by (by apply (H group [])).
  induction todo as [|c todo IH]; intros seen Hs; simpl; [by rewrite Hs, app_nil_r|].
  assert (Hin : forall d, d ∈ seen ++ [c] -> d ∈ group) by (rewrite Hs; set_solver).
  assert (Hnd : NoDup (seen ++ [c])).
  { pose proof (gr_NoDup _ _ _ _ G) as Hnd. rewrite Hs in Hnd. change (c :: todo) with ([c] ++ todo) in Hnd.
    rewrite app_assoc in Hnd. by apply NoDup_app in Hnd as (? & _). }
  pose proof (group_blocks_bound _ Hnd Hin) as Hb. rewrite bind_app, bind_cons, zlen_app in Hb. simpl in Hb. rewrite app_nil_r in Hb.
  rewrite tmp_count by (apply group_cut, Hin; set_solver). rewrite uint_small.
  - rewrite <- (IH (seen ++ [c])) by (by rewrite <- app_assoc). f_equal. rewrite bind_app, bind_cons, zlen_app. simpl. by rewrite app_nil_r.
  - unfold is_uint, kTempBlockStart in *. unfold zlen in *. lia.
Qed.

Lemma blocks_needed_pos : 0 < zlen (group ≫= fun c => cut_blocks c) <= n.
Proof.
  split; [|apply group_blocks_bound; [apply G|done]]. destruct group_some as [c Hin]. destruct (group_cut c Hin) as (Hc & _).
  apply list_elem_of_split in Hin as (l1 & l2 & ->). rewrite bind_app, bind_cons, !zlen_app.
  pose proof (bu_link _ _ _ B _ _ (co_link _ _ K c Hc)) as Hne. unfold zlen. destruct (cut_blocks c); [done|simpl; lia].
Qed.

(** ** The suppliers *)

Lemma supply_all (i : nat) (sup : list (Index * ExtentRanges)) :
  l !! i = Some b ->
  (forall u r, (u, r) ∈ sup -> u ∈ drop (S i) l /\ ranges_ok r /\ forall t, t ∈ blocks_in r -> avail g u t) ->
  exists g1, foldM (add_supplier b) sup g = Ret g1 /\ plan cv done g1 l
    /\ forall u r t, (u, r) ∈ sup -> t ∈ blocks_in r -> reserved p g0 cs cv b g1 l t.
Proof.
  intros Hi Hsup.
  destruct (foldM_inv (add_supplier b) (fun seen g' => plan cv done g' l /\ (forall v, writes g' v = writes g v)
     /\ (forall v w t, t ∈ needs g v w -> t ∈ needs g' v w)
     /\ forall u r t, (u, r) ∈ seen -> t ∈ blocks_in r -> t ∈ needs g' u b) sup g) as (g1 & Heq & P1 & Hw & Hmore & Hn).
  - split_and!; try done. by intros u r t ?%elem_of_nil.
  - intros seen [u r] todo g' Hl (P' & Hw & Hmore & Hn).
    destruct (Hsup u r) as (Hu & Hr & Hav); [rewrite Hl; set_solver|].
    assert (Hbu : before l b u) by (by apply (before_drop l i)). pose proof (before_elem _ _ _ Hbu) as [_ Hul].
    unfold add_supplier. cbn [fst snd]. destruct (GetExtents_view r (blocks r) Hr) as (es & -> & Hes & Hex).
    { rewrite blocks_in_length by done. unfold zlen. lia. }
    rewrite (take_ge _ (Z.to_nat (blocks r))) in Hex by (rewrite blocks_in_length by done; unfold zlen; lia).
    rewrite outcome_bind_ret. destruct (lookup_lt_is_Some_2 g' u) as [x Hx]; [by apply (pl_elem _ _ _ _ _ _ _ _ P') in Hul as [? _]|].
    rewrite Hx. cbn [of_option]. rewrite outcome_bind_ret. eexists. split; [done|].
    destruct (plan_supply n p g0 B Hp cs K full_op cv done g' l b u es) as (Q1 & Q2 & Q3 & Q4); try done.
    + apply group_dst.
    + rewrite Hex. intros t Ht%Hav. destruct (avail_real n p g0 B cs K full_op cv done g l P u t Hul Ht) as [? _]. lia.
    + intros c Hc -> Hne. destruct (decide (c ∈ done)) as [?|Hcd]; [done|]. rewrite Hex in Hne.
      destruct (blocks_in r) as [|t rest]; [done|]. destruct (Hav t) as [A1 A2 _ _ _]; [by left|].
      rewrite (pl_pending _ _ _ _ _ _ _ _ P c Hc Hcd) in A1. apply (co_temp _ _ K c t Hc) in A1. lia.
    + split_and!; [done| | |].
      * intros v. by rewrite Q2.
      * intros v w t Ht. by apply Q3, Hmore.
      * intros u' r' t [Hin|[= -> ->]%list_elem_of_singleton]%elem_of_app Ht; [by apply Q3, (Hn u' r')|]. apply Q4. by rewrite Hex.
  - exists g1. split; [done|]. split; [done|]. intros u r t Hin Ht. destruct (Hsup u r Hin) as (Hu & Hr & Hav).
    assert (Hbu : before l b u) by (by apply (before_drop l i)). pose proof (before_elem _ _ _ Hbu) as [_ Hul].
    specialize (Hav t Ht). destruct (avail_real n p g0 B cs K full_op cv done g l P u t Hul Hav). split; [done|]. split; [done|].
    split; [intros v; by apply (avail_unread p g0 cs full_op cv done g l P u)|]. exists u. split; [done|].
    rewrite Hw. split; [apply Hav|]. split; [by apply (Hn u r)|]. intros v Hv Hvt. rewrite Hw in Hvt.
    by apply (avail_first p g0 cs full_op cv done g l P u v t).
Qed.

(** ** The cuts *)

Lemma place_one seen g1 r c :
  plan cv (done ++ seen) g1 l -> c ∈ group -> c ∉ seen ->
  ranges_ok r -> zlen (cut_blocks c) <= blocks r -> (forall t, t ∈ blocks_in r -> reserved p g0 cs cv b g1 l t) ->
  exists g2 r', place_cut b (g1, r) c = Ret (g2, r') /\ plan cv (done ++ seen ++ [c]) g2 l
    /\ ranges_ok r' /\ blocks r' = blocks r - zlen (cut_blocks c)
    /\ forall t, t ∈ blocks_in r' -> reserved p g0 cs cv b g2 l t.
Proof.
  intros P1 Hc Hseen Hr Hcount Hres. pose proof group_dst as Hlt. destruct (group_cut c Hc) as (Hcs & Hdone & <-).
  destruct (co_tmp _ _ K c Hcs) as (Htok & Htnd & Htl). unfold place_cut. rewrite tmp_count by done.
  destruct (GetExtents_view r (zlen (cut_blocks c)) Hr) as (es & -> & Hes & Hex); [unfold zlen in *; lia|].
  rewrite outcome_bind_ret. cbv zeta. pose proof (blocks_in_NoDup r Hr) as Hnd. pose proof (blocks_in_length r Hr) as Hlr.
  assert (Hlen : length (ExpandExtents es) = length (cut_blocks c)) by (rewrite Hex, length_take; unfold zlen in *; lia).
  assert (Hnde : NoDup (ExpandExtents es)).
  { rewrite Hex. rewrite <- (take_drop (Z.to_nat (zlen (cut_blocks c))) (blocks_in r)) in Hnd. by apply NoDup_app in Hnd as (? & _). }
  assert (Hsub : forall t, t ∈ ExpandExtents es -> t ∈ blocks_in r).
  { intros t. rewrite Hex. intros (i & Hi & _)%elem_of_take. by apply list_elem_of_lookup_2 in Hi. }
  assert (Hin : old_dst c ∈ l) by (by apply (plan_op _ _ _ K _ _ _ _ _ _ P1)).
  destruct (lookup_lt_is_Some_2 g1 (old_dst c)) as [x Hx]; [by apply (pl_elem _ _ _ _ _ _ _ _ P1)|]. rewrite Hx. cbn [of_option].
  rewrite outcome_bind_ret. destruct (SubstituteBlocks_spec x (tmp_extents c) es) as (x' & -> & Sok & Sval & (sx & Sa & Ssx) & Se).
  { by apply (graph_ok_lookup g1 (old_dst c)); [apply P1|]. }
  { done. }
  { congruence. }
  rewrite outcome_bind_ret. assert (Hnew : c ∉ done ++ seen) by set_solver.
  destruct (place_copy n p g0 B cs K full_op cv (done ++ seen) g1 l P1 c Hcs (gr_cv _ _ _ _ G)) as (y & Hy & Hne).
  rewrite list_lookup_insert_ne, Hy by done. cbn [of_option]. rewrite outcome_bind_ret. eexists _, _. split; [done|].
  destruct (SubtractExtents_view es r Hr Hes) as [Hr' Hb']. split; [|split; [done|]].
  - rewrite app_assoc. apply (plan_place n p g0 B Hp cs K full_op cv (done ++ seen) g1 l P1) with (x := x) (sx := sx); try done.
    + apply G.
    + intros t Ht. by apply Hres, Hsub.
  - split.
    + rewrite (ranges_count _ (drop (Z.to_nat (zlen (cut_blocks c))) (blocks_in r))); [|done| |].
      * unfold zlen in *. rewrite length_drop. lia.
      * rewrite <- (take_drop (Z.to_nat (zlen (cut_blocks c))) (blocks_in r)) in Hnd. by apply NoDup_app in Hnd as (_ & _ & ?).
      * intros t. rewrite Hb', Hex. rewrite <- (take_drop (Z.to_nat (zlen (cut_blocks c))) (blocks_in r)) in Hnd.
        rewrite <- (take_drop (Z.to_nat (zlen (cut_blocks c))) (blocks_in r)) at 1. rewrite elem_of_app.
        apply NoDup_app in Hnd as (_ & Hd & _). specialize (Hd t). tauto.
    + intros t [Ht Hout]%Hb'. apply (reserved_place n p g0 B cs K full_op cv (done ++ seen) g1 l P1) with (x := x) (sx := sx); try done.
      * apply G.
      * by apply Hres.
Qed.

Lemma place_all g1 r :
  plan cv done g1 l -> ranges_ok r -> blocks r = zlen (group ≫= fun c => cut_blocks c) ->
  (forall t, t ∈ blocks_in r -> reserved p g0 cs cv b g1 l t) ->
  exists g2 r', foldM (place_cut b) group (g1, r) = Ret (g2, r') /\ plan cv (done ++ group) g2 l.
Proof.
  intros P1 Hr Hb Hres.
  destruct (foldM_inv (place_cut b) (fun seen s => plan cv (done ++ seen) (fst s) l /\ ranges_ok (snd s)
     /\ blocks (snd s) = blocks r - zlen (seen ≫= fun c => cut_blocks c)
     /\ forall t, t ∈ blocks_in (snd s) -> reserved p g0 cs cv b (fst s) l t) group (g1, r)) as ([g2 r'] & Heq & P2 & _).
  - cbn [fst snd]. rewrite app_nil_r. split_and!; try done. unfold zlen. simpl. lia.
  - intros seen c todo [g' r1] Hl (P' & Hr1 & Hb1 & Hres1). cbn [fst snd] in *.
    assert (Hsum : zlen (group ≫= fun c => cut_blocks c) = zlen (seen ≫= fun c => cut_blocks c) + zlen (cut_blocks c) + zlen (todo ≫= fun c => cut_blocks c)).
    { rewrite Hl, bind_app, bind_cons, !zlen_app. lia. }
    destruct (place_one seen g' r1 c) as (g2 & r2 & -> & P2 & Hr2 & Hb2 & Hres2); try done.
    + rewrite Hl. set_solver.
    + pose proof (gr_NoDup _ _ _ _ G) as Hnd. rewrite Hl in Hnd. apply NoDup_app in Hnd as (_ & Hd & _). intros Hin. apply (Hd c Hin). by left.
    + unfold zlen in *. lia.
    + eexists. split; [done|]. cbn [fst snd]. split_and!; try done. rewrite Hb2, Hb1, bind_app, zlen_app. simpl. rewrite app_nil_r. lia.
  - exists g2, r'. split; [done|]. exact P2.
Qed.

(** ** Making the reader a full operation *)

Definition keep_reads (q : EdgeProperties) : option EdgeProperties :=
  if decide (extents q <> []) then Some (mkEdge (extents q) []) else None.

(** The graph after [b] became [op] and the copy nodes of [seen] were dropped. *)
Record converted (op : InstallOperation) (seen : list CutEdgeVertexes) (g' : Graph) : Prop := {
  cn_length : length g' = length g;
  cn_ok : Forall vertex_ok g';
  cn_aop : forall v x, g !! v = Some x -> exists x', g' !! v = Some x'
             /\ aop x' = (if decide (v = b) then op else aop x)
             /\ valid x' = (if decide (v ∈ new_vertex <$> seen) then false else valid x);
  cn_link : forall u v, link g' u v =
              if decide (v = b) then None else if decide (v ∈ new_vertex <$> seen) then None
              else if decide (u = b) then link g b v ≫= keep_reads else link g u v;
}.

Lemma vertex_ok_erase z k : vertex_ok z -> vertex_ok (set_out_edges (edge_erase k (out_edges z)) z).
Proof.
  intros [V1 V2 V3 V4]. split; simpl; [done|done|by apply map_ok_erase|]. intros j q. rewrite edge_find_erase.
  case_decide; [done|]. apply V4.
Qed.

Lemma link_drop_incoming (h : Graph) k u v :
  link (DropIncomingEdgesTo h k) u v = if decide (v = k) then None else link h u v.
Proof.
  unfold link, DropIncomingEdgesTo. rewrite list_lookup_fmap. destruct (h !! u); simpl; [|by case_decide].
  by rewrite edge_find_erase.
Qed.

Lemma convert_reader op x :
  g !! b = Some x -> Forall extent_ok (src_extents op) -> Forall extent_ok (dst_extents op) ->
  converted op [] (DropIncomingEdgesTo (alter (set_out_edges (DropWriteBeforeDeps (out_edges x))) b (alter (set_aop op) b g)) b).
Proof.
  intros Hx Hs Hd. pose proof (pl_ok _ _ _ _ _ _ _ _ P) as Hok. pose proof (graph_ok_lookup g b x Hok Hx) as Hxok.
  assert (Hlk : forall v, alter (set_out_edges (DropWriteBeforeDeps (out_edges x))) b (alter (set_aop op) b g) !! v
    = if decide (v = b) then Some (set_out_edges (DropWriteBeforeDeps (out_edges x)) (set_aop op x)) else g !! v).
  { intros v. rewrite !lookup_alter_graph. case_decide as H; [|done]. by rewrite H, Hx. }
  split.
  - unfold DropIncomingEdgesTo. by rewrite length_fmap, !length_alter.
  - apply Forall_lookup. intros v y. unfold DropIncomingEdgesTo. rewrite list_lookup_fmap, Hlk.
    case_decide as H; simpl.
    + intros [= <-]. apply vertex_ok_erase. split; simpl; try done; [by apply (DropWriteBeforeDeps_find _ 0), Hxok|].
      intros k q Hq. rewrite (proj2 (DropWriteBeforeDeps_find _ k (vo_map _ Hxok))) in Hq.
      destruct (edge_find k (out_edges x)) as [r|] eqn:E; simpl in Hq; [|done]. case_decide; simplify_eq/=.
      split; [by apply (vo_edge _ Hxok k)|done].
    + intros (z & Hz & ->)%fmap_Some. by apply vertex_ok_erase, (graph_ok_lookup g v).
  - intros v y Hy. unfold DropIncomingEdgesTo. rewrite list_lookup_fmap, Hlk.
    case_decide as H; [subst v|rewrite Hy]; eexists; (split; [done|]); simpl; [|done]. split; [done|]. congruence.
  - intros u v. rewrite link_drop_incoming. case_decide; [done|]. cbn [fmap list_fmap].
    rewrite (decide_False (P := v ∈ [])) by apply not_elem_of_nil. unfold link. rewrite Hlk. destruct (decide (u = b)) as [->|]; [|done].
    rewrite Hx. simpl. by rewrite (proj2 (DropWriteBeforeDeps_find _ v (vo_map _ Hxok))).
Qed.

(** The reader waited for its copy nodes only to write. *)
Lemma copy_edge_dropped c : c ∈ group -> link g b (new_vertex c) ≫= keep_reads = None.
Proof.
  intros Hc. destruct (group_cut c Hc) as (Hcs & _ & Hcb). destruct (link g b (new_vertex c)) as [q|] eqn:E; [|done].
  simpl. unfold keep_reads. destruct (pl_link _ _ _ _ _ _ _ _ P _ _ _ E) as [(_ & _ & Hno)|(-> & _)]; [|done].
  by destruct (Hno c Hcs).
Qed.

Abbreviation drop_copy g1 c :=
  (alter (set_valid false) (new_vertex c)
     (alter (fun v => set_out_edges (edge_erase (new_vertex c) (out_edges v)) v) (old_src c) g1)).

Lemma drop_copy_lookup (g1 : Graph) c v :
  old_src c <> new_vertex c ->
  drop_copy g1 c !! v = if decide (v = new_vertex c) then set_valid false <$> g1 !! v
    else if decide (v = old_src c) then (fun x => set_out_edges (edge_erase (new_vertex c) (out_edges x)) x) <$> g1 !! v
    else g1 !! v.
Proof.
  intros Hne. rewrite !lookup_alter_graph. destruct (decide (v = new_vertex c)) as [->|]; [|done]. by rewrite decide_False.
Qed.

Lemma drop_copy_link g1 c u v :
  old_src c <> new_vertex c ->
  link (drop_copy g1 c) u v = if decide (u = old_src c /\ v = new_vertex c) then None else link g1 u v.
Proof.
  intros Hne. unfold link. rewrite drop_copy_lookup by done. destruct (decide (u = new_vertex c)) as [->|H1].
  - rewrite (decide_False (P := _ /\ _)) by naive_solver. by destruct (g1 !! new_vertex c).
  - destruct (decide (u = old_src c)) as [->|H2]; [|by rewrite decide_False by naive_solver].
    destruct (g1 !! old_src c) as [x|]; simpl; [|by case_decide]. rewrite edge_find_erase.
    destruct (decide (v = new_vertex c)); [by rewrite decide_True|by rewrite decide_False by naive_solver].
Qed.

Lemma drop_copy_ok (g1 : Graph) c : Forall vertex_ok g1 -> Forall vertex_ok (drop_copy g1 c).
Proof.
  intros Hok. assert (H1 : Forall vertex_ok
    (alter (fun v => set_out_edges (edge_erase (new_vertex c) (out_edges v)) v) (old_src c) g1)).
  { apply graph_ok_alter; [done|]. intros y Hy. by apply vertex_ok_erase, (graph_ok_lookup g1 (old_src c)). }
  apply graph_ok_alter; [done|]. intros y Hy. by destruct (graph_ok_lookup _ _ y H1 Hy); split.
Qed.

Lemma snoc_copies seen c v :
  v <> new_vertex c -> v ∈ new_vertex <$> seen ++ [c] <-> v ∈ new_vertex <$> seen.
Proof. intros Hne. rewrite fmap_app, elem_of_app. simpl. rewrite list_elem_of_singleton. tauto. Qed.

Lemma converted_snoc op seen g1 c :
  converted op seen g1 -> c ∈ group -> converted op (seen ++ [c]) (drop_copy g1 c).
Proof.
  intros [C1 C2 C3 C4] Hc. destruct (group_cut c Hc) as (Hcs & Hdone & Hcb).
  pose proof (cut_ends n p g0 B cs K c Hcs) as (Hne & Hla & Hlb). pose proof (co_new _ _ K c Hcs) as Hlc.
  assert (Hsc : old_src c <> new_vertex c) by lia.
  assert (Hin : new_vertex c ∈ new_vertex <$> seen ++ [c]) by (rewrite fmap_app; set_solver).
  split.
  - by rewrite !length_alter.
  - by apply drop_copy_ok.
  - intros v x Hx. destruct (C3 v x Hx) as (x' & Hx' & Ha' & Hv'). rewrite drop_copy_lookup, Hx' by done.
    destruct (decide (v = new_vertex c)) as [->|H1].
    + eexists. split; [done|]. by rewrite (decide_True (P := _ ∈ _)).
    + rewrite (decide_ext _ _ _ _ (snoc_copies seen c v H1)). destruct (decide (v = old_src c)); eexists; (split; [done|]); done.
  - intros u v. rewrite drop_copy_link, C4 by done. destruct (decide (v = b)); [by case_decide|].
    destruct (decide (v = new_vertex c)) as [->|H1].
    2: { rewrite (decide_ext _ _ _ _ (snoc_copies seen c v H1)). by rewrite decide_False by naive_solver. }
    rewrite (decide_True (P := _ ∈ new_vertex <$> seen ++ _)) by done.
    destruct (decide (u = old_src c)) as [->|H2]; [by rewrite decide_True|rewrite decide_False by naive_solver].
    destruct (decide (new_vertex c ∈ new_vertex <$> seen)); [done|].
    destruct (decide (u = b)); [by apply copy_edge_dropped|]. destruct (link g u (new_vertex c)) as [q|] eqn:E; [|done].
    destruct (pl_link_copy _ _ _ _ _ _ _ _ P u c Hcs) as [->| ->]; [by eexists|done|done].
Qed.

Section Convert.
Context {Blob : Type} (DeltaReadFile : list Extent -> Blob -> outcome (list AnnotatedOperation * Blob)).

(** The end of [ConvertCutToFullOp]. *)
Lemma convert_rest op seen g1 c (blob : Blob) :
  converted op seen g1 -> c ∈ group ->
  (_ ← of_option (g1 !! old_src c);
   v ← of_option (alter (fun v => set_out_edges (edge_erase (new_vertex c) (out_edges v)) v) (old_src c) g1 !! b);
   _ ← check_that (bool_decide (edge_find (new_vertex c) (out_edges v) = None));
   _ ← of_option (alter (fun v => set_out_edges (edge_erase (new_vertex c) (out_edges v)) v) (old_src c) g1 !! new_vertex c);
   Ret (drop_copy g1 c, blob)) = Ret (drop_copy g1 c, blob).
Proof.
  intros [C1 C2 C3 C4] Hc. destruct (group_cut c Hc) as (Hcs & Hdone & Hcb).
  pose proof (cut_ends n p g0 B cs K c Hcs) as (Hne & Hla & Hlb). pose proof (co_new _ _ K c Hcs) as Hlc.
  pose proof (pl_length _ _ _ _ _ _ _ _ P) as Hlen.
  destruct (lookup_lt_is_Some_2 g1 (old_src c)) as [xa Ha]; [lia|].
  destruct (lookup_lt_is_Some_2 g1 b) as [xb Hb]; [lia|].
  destruct (lookup_lt_is_Some_2 g1 (new_vertex c)) as [xc Hxc]; [lia|].
  rewrite !lookup_alter_graph, Ha, !decide_False, Hb, Hxc by lia. cbn [of_option]. rewrite !outcome_bind_ret.
  rewrite bool_decide_true; [done|]. pose proof (C4 b (new_vertex c)) as H. unfold link at 1 in H. rewrite Hb in H.
  simpl in H. rewrite H, decide_False by lia.
  destruct (decide (new_vertex c ∈ new_vertex <$> seen)); [done|]. rewrite decide_True by done.
  by apply copy_edge_dropped.
Qed.

Lemma group_vertex : exists x x0 sx, g !! b = Some x /\ g0 !! b = Some x0 /\ aop x = set_src_extents sx (aop x0)
  /\ reads g0 b <> [] /\ is_full_type (type_of (aop x)) = false.
Proof.
  pose proof group_dst as Hlt. destruct (lookup_lt_is_Some_2 g0 b Hlt) as [x0 Hx0].
  destruct (pl_kept _ _ _ _ _ _ _ _ P b x0 Hx0 (gr_cv _ _ _ _ G)) as (x & sx & Hx & Ha).
  assert (Hr : reads g0 b <> []).
  { destruct group_some as [c Hin]. destruct (group_cut c Hin) as (Hc & _ & Hcb).
    pose proof (bu_link _ _ _ B _ _ (co_link _ _ K c Hc)) as Hne. intros E.
    destruct (cut_blocks c) as [|t rest] eqn:E'; [done|].
    destruct (proj1 (bu_needs _ _ _ B (old_src c) (old_dst c) t)) as (_ & _ & Ht); [rewrite E'; by left|].
    rewrite Hcb, E in Ht. by apply elem_of_nil in Ht. }
  exists x, x0, sx. split_and!; try done. rewrite Ha. destruct (is_full_type (type_of (set_src_extents sx (aop x0)))) eqn:E; [|done].
  by destruct Hr; apply (fi_full _ _ _ B b x0).
Qed.

Lemma convert_cuts blob op blob' x0 :
  g0 !! b = Some x0 -> DeltaReadFile (dst_extents (aop x0)) blob = Ret ([op], blob') -> Forall extent_ok (dst_extents op) ->
  full_for full_op (writes g0 b) op ->
  exists g1, foldM (ConvertCutToFullOp DeltaReadFile) group (g, blob) = Ret (g1, blob') /\ converted op group g1.
Proof.
  intros Hx0 Hop Hdst Hff. destruct group_vertex as (x & x0' & sx & Hx & Hx0' & Ha & Hr & Hfull). simplify_eq.
  enough (exists s, foldM (ConvertCutToFullOp DeltaReadFile) group (g, blob) = Ret s
    /\ (group <> [] -> converted op group (fst s) /\ snd s = blob')) as ([g1 bl] & Heq & Hs).
  { destruct (Hs (gr_ne _ _ _ _ G)) as [H1 <-]. by exists g1. }
  destruct (foldM_inv (ConvertCutToFullOp DeltaReadFile) (fun seen s => if decide (seen = []) then s = (g, blob)
    else converted op seen (fst s) /\ snd s = blob') group (g, blob)) as (s & Heq & Hs).
  - done.
  - intros seen c todo [g1 bl] Hl HI. assert (Hc : c ∈ group) by (rewrite Hl; set_solver).
    pose proof (proj2 (proj2 (group_cut c Hc))) as Hcb.
    enough (exists s', ConvertCutToFullOp DeltaReadFile (g1, bl) c = Ret s' /\ converted op (seen ++ [c]) (fst s') /\ snd s' = blob')
      as (s' & ? & ?) by (exists s'; split; [done|]; rewrite decide_False by (by destruct seen); done).
    unfold ConvertCutToFullOp. rewrite Hcb. destruct (decide (seen = [])) as [->|Hne].
    + injection HI as -> ->. rewrite Hx. cbn [of_option]. rewrite outcome_bind_ret, Hfull, Ha.
      cbn [dst_extents set_src_extents]. rewrite Hop. cbv beta iota zeta. rewrite outcome_bind_ret. unfold AddInstallOpToGraph.
      cbv beta iota zeta. rewrite Hx. cbn [of_option]. rewrite outcome_bind_ret, bool_decide_true by apply Hff.
      cbn [check_that]. rewrite !outcome_bind_ret. cbn [fst snd].
      pose proof (convert_reader op x Hx) as Hconv. rewrite (ff_src _ _ _ Hff) in Hconv. specialize (Hconv ltac:(constructor) Hdst).
      eexists. split; [by apply (convert_rest op [] _ c)|]. split; [|done]. by apply (converted_snoc op []).
    + destruct HI as [HI Hbl]. cbn [fst snd] in HI, Hbl. subst bl. destruct (cn_aop _ _ _ HI b x Hx) as (x' & Hx' & Ha' & _). rewrite Hx'. cbn [of_option].
      rewrite outcome_bind_ret, Ha', decide_True, (ff_full _ _ _ Hff), outcome_bind_ret by done. cbv beta iota zeta.
      eexists. split; [by apply (convert_rest op seen)|]. split; [|done]. by apply converted_snoc.
  - exists s. split; [done|]. intros Hne. by rewrite decide_False in Hs.
Qed.
End Convert.

(** The reader at the end, without its copy nodes. *)
Section Moved.
Context (op : InstallOperation) (g1 : Graph) (C : converted op group g1) (F : full_for full_op (writes g0 b) op).

Abbreviation gone := (b :: (new_vertex <$> group)).
Abbreviation l' := (filter (fun i => i ∉ gone) l ++ [b]).

Lemma moved_writes v : writes g1 v = writes g v.
Proof.
  destruct (decide (v = b)) as [->|Hne].
  { pose proof group_dst as Hlt. rewrite (plan_writes _ _ _ _ _ _ _ _ _ P) by done.
    destruct group_vertex as (x & _ & _ & Hx & _). destruct (cn_aop _ _ _ C b x Hx) as (x' & Hx' & Ha & _).
    unfold writes at 1. rewrite Hx'. simpl. rewrite Ha, decide_True by done. apply F. }
  unfold writes. destruct (g !! v) as [x|] eqn:Hx.
  - destruct (cn_aop _ _ _ C v x Hx) as (x' & -> & Ha & _). simpl. by rewrite Ha, decide_False.
  - rewrite (lookup_ge_None_2 g1); [done|]. apply lookup_ge_None in Hx. by rewrite (cn_length _ _ _ C).
Qed.

Lemma moved_vertex v x : g !! v = Some x -> v <> b -> exists x', g1 !! v = Some x' /\ aop x' = aop x.
Proof. intros Hx Hne. destruct (cn_aop _ _ _ C v x Hx) as (x' & ? & Ha & _). exists x'. by rewrite decide_False in Ha. Qed.

Lemma moved_reads v : v <> b -> reads g1 v = reads g v.
Proof.
  intros Hne. unfold reads. destruct (g !! v) as [x|] eqn:Hx.
  - destruct (moved_vertex v x Hx Hne) as (x' & -> & Ha). simpl. by rewrite Ha.
  - rewrite (lookup_ge_None_2 g1); [done|]. apply lookup_ge_None in Hx. by rewrite (cn_length _ _ _ C).
Qed.

Lemma moved_link u v q :
  link g1 u v = Some q -> v ∉ gone /\ exists q0, link g u v = Some q0 /\ extents q = extents q0
    /\ ((u <> b /\ q = q0) \/ (u = b /\ write_extents q = [] /\ extents q <> [])).
Proof.
  rewrite (cn_link _ _ _ C). destruct (decide (v = b)) as [->|H1]; [done|].
  destruct (decide (v ∈ new_vertex <$> group)) as [H2|H2]; [done|]. intros Hq. split; [set_solver|].
  destruct (decide (u = b)) as [->|H3]; [|exists q; auto].
  destruct (link g b v) as [q0|]; [|done]. simpl in Hq. unfold keep_reads in Hq. case_decide; simplify_eq/=. exists q0.
  split_and!; try done. by right.
Qed.

Lemma moved_needs u v t : v ∉ gone -> t ∈ needs g u v -> t ∈ needs g1 u v.
Proof.
  intros [Hvb Hv]%not_elem_of_cons. rewrite (cn_link _ _ _ C), (decide_False (P := v = b)), (decide_False (P := v ∈ _)) by done.
  destruct (decide (u = b)) as [->|H3]; [|done]. destruct (link g b v) as [q|]; [|done]. simpl. unfold keep_reads.
  case_decide as E; [done|]. rewrite E. by intros ?%elem_of_nil.
Qed.

Lemma moved_before u v : before l u v -> u ∉ gone -> v ∉ gone -> before l' u v.
Proof. intros. apply before_snoc. left. by apply before_filter. Qed.

Lemma moved_last u : u ∈ l -> u ∉ gone -> before l' u b.
Proof. intros. apply before_snoc. right. split; [|done]. by apply list_elem_of_filter. Qed.

Lemma moved_elem v : v ∈ l' <-> v ∈ l /\ v ∉ new_vertex <$> group.
Proof.
  rewrite elem_of_app, list_elem_of_filter, list_elem_of_singleton, not_elem_of_cons.
  assert (Hb : b ∈ l) by (apply (plan_op _ _ _ K _ _ _ _ _ _ P); apply group_dst).
  assert (Hout : b ∉ new_vertex <$> group).
  { intros (c & E & Hc)%list_elem_of_fmap. pose proof group_dst. destruct (group_cut c Hc) as (Hcs%(co_new _ _ K) & _). lia. }
  destruct (decide (v = b)) as [->|]; tauto.
Qed.

Lemma op_stays v : (v < length g0)%nat -> v <> b -> v ∉ gone.
Proof.
  intros Hv Hne. apply not_elem_of_cons. split; [done|]. intros (c & -> & Hc)%list_elem_of_fmap.
  destruct (group_cut c Hc) as (Hcs%(co_new _ _ K) & _). lia.
Qed.

Lemma live_moved d : live cs (b :: cv) d -> live cs cv d /\ old_dst d <> b /\ old_dst d ∉ gone /\ new_vertex d ∉ gone.
Proof.
  intros [Hd Hcv]. apply not_elem_of_cons in Hcv as [Hb Hcv]. split; [done|]. split; [done|]. split.
  - apply op_stays; [|done]. by apply (cut_ends n p g0 B cs K).
  - apply not_elem_of_cons. pose proof (co_new _ _ K d Hd) as Hn. pose proof group_dst. split; [lia|].
    intros (c & E & Hc)%list_elem_of_fmap. destruct (group_cut c Hc) as (Hcs & _ & Hcb).
    apply (co_inj _ _ K) in E; [|done|done]. congruence.
Qed.

Lemma live_back d : live cs cv d -> old_dst d <> b -> live cs (b :: cv) d.
Proof. intros [Hd Hcv] Hb. split; [done|]. by apply not_elem_of_cons. Qed.

Lemma direct_moved v t : direct g0 cs (b :: cv) v t -> direct g0 cs cv v t /\ v ∉ gone.
Proof.
  intros [(Hv & [Hb Hcv]%not_elem_of_cons & Ht & Hcut)|(d & Hd & -> & Ht)].
  - split; [by left|]. by apply op_stays.
  - destruct (live_moved d Hd) as (Hl & _ & _ & ?). split; [right; by exists d|done].
Qed.

(** Writers of the same block keep their order. *)
Lemma moved_order u t : u ∈ l -> u ∉ gone -> t ∈ writes g u -> t ∈ writes g b -> before l u b.
Proof.
  intros Hu [Hne Hug]%not_elem_of_cons Ht Htb. pose proof group_dst as Hlt.
  destruct (plan_vertex _ _ _ K _ _ _ _ _ u P Hu) as [Hv|(d & Hd & ->)].
  - rewrite (plan_writes _ _ _ _ _ _ _ _ _ P) in Ht by done. rewrite (plan_writes _ _ _ _ _ _ _ _ _ P) in Htb by done. by destruct Hne; apply (fi_writer _ _ _ B u b t).
  - rewrite (plan_writes _ _ _ _ _ _ _ _ _ P) in Htb by done. apply (before_trans l _ (old_dst d)); [apply P| |].
    + by apply (pl_first _ _ _ _ _ _ _ _ P).
    + by apply (pl_last _ _ _ _ _ _ _ _ P d b t).
Qed.

Lemma moved_chain u1 u2 t :
  before l' u1 u2 -> t ∈ writes g u1 -> t ∈ writes g u2 ->
  exists c, c ∈ done ++ group /\ live cs (b :: cv) c /\ t ∈ needs g1 u2 (old_dst c).
Proof.
  intros Hb H1 H2. assert (Hbl : before l u1 u2).
  { apply before_snoc in Hb as [Hb|[Hb ->]]; [by apply before_filter in Hb as [? _]|].
    apply list_elem_of_filter in Hb as [Hg Hl]. by apply (moved_order u1 t). }
  destruct (pl_chain _ _ _ _ _ _ _ _ P u1 u2 t Hbl H1 H2) as (c & Hc & Hlive & Hn). exists c.
  assert (Hcb : old_dst c <> b).
  { intros Hcb. apply (gr_all _ _ _ _ G) in Hcb; [|apply Hlive]. by apply (gr_in _ _ _ _ G) in Hcb as [_ ?]. }
  split; [set_solver|]. split; [by apply live_back|]. apply moved_needs; [|done]. apply op_stays; [|done].
  by apply (cut_ends n p g0 B cs K), Hlive.
Qed.

Lemma moved_edge u w : is_Some (link g1 u w) -> before l' w u.
Proof.
  intros [q Hq]. destruct (moved_link u w q Hq) as (Hw & q0 & Hq0 & _).
  assert (Hb : before l w u) by (apply (pl_edge _ _ _ _ _ _ _ _ P); by eexists). pose proof (before_elem _ _ _ Hb) as [Hwl Hul].
  destruct (decide (u = b)) as [->|Hne]; [by apply moved_last|]. apply moved_before; [done|done|].
  apply not_elem_of_cons. split; [done|]. intros (c & -> & Hc)%list_elem_of_fmap. destruct (group_cut c Hc) as (Hcs & Hd & _).
  by rewrite (pl_sink _ _ _ _ _ _ _ _ P c w Hcs Hd) in Hq0.
Qed.

Lemma moved_shape u v q :
  link g1 u v = Some q ->
  (write_extents q = [] /\ extents q <> [] /\ forall c, c ∈ cs -> u = old_dst c -> v <> new_vertex c)
  \/ (extents q = [] /\ exists c, live cs (b :: cv) c /\ u = old_dst c /\ v = new_vertex c
        /\ ExpandExtents (write_extents q) = writes g1 (new_vertex c)).
Proof.
  intros Hq. destruct (moved_link u v q Hq) as ([Hvb Hv]%not_elem_of_cons & q0 & Hq0 & _ & [[Hub ->]|(-> & Hw & Hx)]).
  - destruct (pl_link _ _ _ _ _ _ _ _ P u v q0 Hq0) as [?|(Hx & d & Hd & -> & -> & He)]; [by left|right].
    split; [done|]. exists d. rewrite moved_writes. split_and!; try done. by apply live_back.
  - left. split_and!; try done. intros c Hc Hcb ->. apply Hv, list_elem_of_fmap_2. by apply (gr_all _ _ _ _ G).
Qed.

Lemma moved_valid v x : g1 !! v = Some x -> valid x = true <-> v ∈ l'.
Proof.
  intros Hx. destruct (lookup_lt_is_Some_2 g v) as [x0 Hx0]; [rewrite <- (cn_length _ _ _ C); by apply lookup_lt_Some in Hx|].
  destruct (cn_aop _ _ _ C v x0 Hx0) as (x' & Hx' & _ & Hv). simplify_eq. rewrite moved_elem, Hv.
  case_decide; [by split; [|tauto]|]. rewrite (pl_valid _ _ _ _ _ _ _ _ P v x0 Hx0). tauto.
Qed.

Lemma moved_all v : v ∈ l' <-> (v < length g1)%nat /\ forall c, c ∈ cs -> new_vertex c = v -> old_dst c ∉ b :: cv.
Proof.
  rewrite moved_elem, (pl_elem _ _ _ _ _ _ _ _ P), (cn_length _ _ _ C). split.
  - intros [[Hlt Hall] Hout]. split; [done|]. intros c Hc Hcv. apply not_elem_of_cons. split; [|by apply Hall].
    intros Hcb. apply Hout. rewrite <- Hcv. apply list_elem_of_fmap_2. by apply (gr_all _ _ _ _ G).
  - intros [Hlt Hall]. split; [split; [done|]|].
    + intros c Hc Hcv. by apply Hall, not_elem_of_cons in Hcv as [_ ?].
    + intros (c & -> & Hc)%list_elem_of_fmap. destruct (group_cut c Hc) as (Hcs & _ & Hcb).
      apply (Hall c Hcs); [done|]. rewrite Hcb. by left.
Qed.

Lemma moved_full v : v ∈ b :: cv -> exists x, g1 !! v = Some x /\ full_for full_op (writes g0 v) (aop x).
Proof.
  intros Hv. destruct (decide (v = b)) as [->|Hvb].
  - destruct group_vertex as (x & _ & _ & Hx & _). destruct (cn_aop _ _ _ C b x Hx) as (x' & Hx' & Ha & _).
    exists x'. split; [done|]. by rewrite Ha, decide_True.
  - apply elem_of_cons in Hv as [->|Hv]; [done|]. destruct (pl_full _ _ _ _ _ _ _ _ P v Hv) as (x & Hx & Hf).
    destruct (moved_vertex v x Hx Hvb) as (x' & ? & Ha'). exists x'. by rewrite Ha'.
Qed.

Lemma moved_scratch c u t : live cs (b :: cv) c -> u ∈ l' -> u <> new_vertex c -> t ∈ writes g (new_vertex c) -> t ∈ writes g u ->
  before l' u (new_vertex c) \/ before l' (old_dst c) u.
Proof.
  intros Hd Hu Hne Ht1 Ht2. destruct (live_moved c Hd) as (Hd' & Hdb & Hg1 & Hg2). apply moved_elem in Hu as [Hu Hug].
  destruct (decide (u = b)) as [->|Hub].
  - right. apply moved_last; [|done]. by apply (pl_first _ _ _ _ _ _ _ _ P) in Hd' as [_ ?]%before_elem.
  - assert (u ∉ gone) by (by apply not_elem_of_cons).
    destruct (pl_scratch _ _ _ _ _ _ _ _ P c u t) as [?|?]; try done; [left|right]; by apply moved_before.
Qed.

Lemma plan_convert : plan (b :: cv) (done ++ group) g1 l'.
Proof.
  assert (Hnb : forall c, c ∈ cs -> new_vertex c <> b).
  { intros c Hc%(co_new _ _ K). pose proof group_dst. lia. }
  split; try setoid_rewrite moved_writes.
  - rewrite (cn_length _ _ _ C). apply P.
  - apply C.
  - apply NoDup_app. split_and!; [apply NoDup_filter, P| |apply NoDup_singleton].
    intros v [Hv _]%list_elem_of_filter ->%list_elem_of_singleton. apply Hv. by left.
  - apply moved_all.
  - intros c [Hc|Hc]%elem_of_app; [by apply (pl_done _ _ _ _ _ _ _ _ P)|by apply group_cut].
  - intros v [->|Hv]%elem_of_cons.
    + split; [apply group_dst|]. intros c Hc Hcb. apply elem_of_app. right. by apply (gr_all _ _ _ _ G).
    + destruct (pl_cv _ _ _ _ _ _ _ _ P v Hv) as [? Hall]. split; [done|]. intros c Hc Hcb. apply elem_of_app. left. auto.
  - apply moved_valid.
  - intros v x0 Hx0 [Hvb Hv]%not_elem_of_cons. destruct (pl_kept _ _ _ _ _ _ _ _ P v x0 Hx0 Hv) as (x & sx & Hx & Ha).
    destruct (moved_vertex v x Hx Hvb) as (x' & ? & Ha'). exists x', sx. by rewrite Ha'.
  - intros v Hlt [Hvb Hv]%not_elem_of_cons. rewrite moved_reads by done.
    eapply Forall2_impl; [by apply (pl_found _ _ _ _ _ _ _ _ P)|]. intros t s. unfold found_at. by setoid_rewrite moved_writes.
  - apply moved_full.
  - intros d Hd. destruct (live_moved d Hd) as (Hd' & _). destruct (pl_copy _ _ _ _ _ _ _ _ P d Hd') as (x & Hx & Ht & Hr & ?).
    destruct (moved_vertex _ x Hx (Hnb d (proj1 Hd))) as (x' & ? & Ha'). exists x'. rewrite Ha', moved_reads by (apply Hnb, Hd). done.
  - intros c Hc Hcd. apply (pl_pending _ _ _ _ _ _ _ _ P); set_solver.
  - intros c t Hc Hlive Ht. destruct (live_moved c Hlive) as (Hlive' & Hcb & _).
    destruct (pl_real _ _ _ _ _ _ _ _ P c t) as (? & ? & Hn); [|done|done|].
    + apply elem_of_app in Hc as [?|Hc]; [done|]. by apply group_cut in Hc as (_ & _ & ?).
    + split; [done|]. split; [done|]. intros v [Hd _]%direct_moved. by apply (Hn v).
  - apply moved_edge.
  - intros u v t Hu Hne [Hd Hv]%direct_moved Ht. apply moved_needs; [done|]. apply moved_elem in Hu as [Hu _].
    by apply (pl_direct _ _ _ _ _ _ _ _ P).
  - apply moved_chain.
  - apply moved_scratch.
  - intros d v t Hd Hv Ht1 Ht2. destruct (live_moved d Hd) as (Hd' & Hdb & Hg1 & Hg2). destruct (decide (v = b)) as [->|Hvb].
    + apply moved_last; [|done]. by apply (pl_first _ _ _ _ _ _ _ _ P) in Hd' as [_ ?]%before_elem.
    + apply moved_before; [by apply (pl_last _ _ _ _ _ _ _ _ P d v t)|done|by apply op_stays].
  - intros d Hd. destruct (live_moved d Hd) as (Hd' & Hdb & Hg1 & Hg2). apply moved_before; [|done|done].
    by apply (pl_first _ _ _ _ _ _ _ _ P).
  - intros u v t Ht. destruct (link g1 u v) as [q|] eqn:Hq; [|by apply elem_of_nil in Ht].
    destruct (moved_link u v q Hq) as (_ & q0 & Hq0 & He & _). apply (pl_needs _ _ _ _ _ _ _ _ P u v). rewrite Hq0. simpl in *. by rewrite <- He.
  - setoid_rewrite <- moved_writes. apply moved_shape.
  - intros u c Hc [q Hq]. destruct (moved_link _ _ q Hq) as (_ & q0 & Hq0 & _). apply (pl_link_copy _ _ _ _ _ _ _ _ P); [done|by eexists].
  - intros c w Hc Hcd. destruct (link g1 (new_vertex c) w) as [q|] eqn:Hq; [|done].
    destruct (moved_link _ _ q Hq) as (_ & q0 & Hq0 & _). rewrite (pl_sink _ _ _ _ _ _ _ _ P) in Hq0; set_solver.
Qed.
End Moved.

(** The search in this plan. *)
Lemma scratch_search_spec i :
  l !! i = Some b ->
  exists r sup have, loopM (find_scratch g (zlen (group ≫= fun c => cut_blocks c))) (drop (S i) l) (ExtentRanges_new, [], 0)
      = Ret (r, sup, have)
    /\ found g (drop (S i) l) (r, sup, have) /\ have <= zlen (group ≫= fun c => cut_blocks c).
Proof.
  intros Hi. pose proof blocks_needed_pos as Hpos.
  assert (Hin : forall u, u ∈ drop (S i) l -> u ∈ l).
  { intros u Hu. rewrite <- (take_drop (S i) l). set_solver. }
  destruct (find_scratch_spec g (zlen (group ≫= fun c => cut_blocks c)) (drop (S i) l)) as ([[r sup] have] & Heq & Hf & Hle).
  - apply P.
  - lia.
  - pose proof (pl_NoDup _ _ _ _ _ _ _ _ P) as Hnd. rewrite <- (take_drop (S i) l) in Hnd. by apply NoDup_app in Hnd as (_ & _ & ?).
  - intros u Hu%Hin. destruct (lookup_lt_is_Some_2 g u) as [x Hx]; [by apply (pl_elem _ _ _ _ _ _ _ _ P) in Hu as [? _]|].
    exists x. split; [done|]. by apply (pl_valid _ _ _ _ _ _ _ _ P u x).
  - intros u v t Hu%Hin Hv%Hin. by apply (avail_disjoint _ _ _ _ _ _ _ _ P).
  - by exists r, sup, have.
Qed.
End Group.

End Assign.

(** The position table is the inverse of the order. *)
Definition table_ok (l : list Index) (table : list nat) : Prop := forall i v, l !! i = Some v -> table !! v = Some i.

(** ** A file of blobs that grows *)

Section Groups.
Context (n p : Z) (g0 : Graph) (B : built n p g0) (Hp : 0 <= n <= p /\ p < kTempBlockStart).
Context (cs : list CutEdgeVertexes) (K : cuts_ok g0 cs).
Context {Blob : Type} (DeltaReadFile : list Extent -> Blob -> outcome (list AnnotatedOperation * Blob)).
(** What the operations made from the new image satisfy, also when the file has grown. *)
Context (grow : Blob -> Blob -> Prop) `{!PreOrder grow} (full_op : Blob -> list Z -> InstallOperation -> Prop).
Context (Hgrow : forall b b' bs op, grow b b' -> full_op b bs op -> full_op b' bs op) (blob0 : Blob).
Context (Hdelta : forall v x0 blob, grow blob0 blob -> g0 !! v = Some x0 -> reads g0 v <> [] ->
  exists op blob', DeltaReadFile (dst_extents (aop x0)) blob = Ret ([op], blob') /\ grow blob blob'
    /\ Forall extent_ok (dst_extents op) /\ full_for (full_op blob') (writes g0 v) op).

Abbreviation cut_blocks c := (needs g0 (old_src c) (old_dst c)).
Abbreviation plan := (fun b => plan p g0 cs (full_op b)).
Abbreviation group_ok := (group_ok cs).

(** What [AssignTempBlocks] has after the cuts [done]. *)
Definition assigned (done : list CutEdgeVertexes) (s : Assignment (Blob := Blob)) : Prop :=
  (exists cv, plan (a_blob s) cv done (a_graph s) (op_indexes s)) /\ table_ok (op_indexes s) (reverse_op_indexes s)
  /\ grow blob0 (a_blob s).

Lemma group_full cv done group b s :
  plan (a_blob s) cv done (a_graph s) (op_indexes s) -> grow blob0 (a_blob s) -> group_ok cv done group b ->
  exists s', ConvertCutsToFull DeltaReadFile s group = Ret s' /\ assigned (done ++ group) s'.
Proof.
  intros P Hbl G. unfold ConvertCutsToFull. pose proof (gr_ne _ _ _ _ _ G) as Hne.
  destruct (group_vertex n p g0 B cs K _ cv done _ _ P group b G) as (_ & x0 & _ & _ & Hx0 & _ & Hr & _).
  destruct (Hdelta b x0 (a_blob s) Hbl Hx0 Hr) as (op & blob & Hop & Hg & Hdst & Hff).
  assert (P1 : plan blob cv done (a_graph s) (op_indexes s)).
  { eapply plan_weaken; [|exact P]. intros bs o. by apply Hgrow. }
  destruct (convert_cuts n p g0 B Hp cs K _ cv done _ _ P1 group b G DeltaReadFile _ _ _ _ Hx0 Hop Hdst Hff) as (g1 & Heq & C).
  pose proof (plan_convert n p g0 B Hp cs K _ cv done (a_graph s) (op_indexes s) P1 group b G op g1 C Hff) as P'.
  destruct group as [|first rest]; [done|]. rewrite Heq, outcome_bind_ret.
  assert (Hb : old_dst first = b) by (apply (group_cut cs cv done (first :: rest) b G); by left). rewrite Hb.
  eexists. split; [done|]. split; [by eexists|]. cbn [a_blob op_indexes reverse_op_indexes]. split; [|by etransitivity].
  intros i v Hi. apply GenerateReverseTopoOrderMap_spec; [apply P'|done].
Qed.

(** Both ways to handle a group keep the plan. *)
Lemma AssignBlockForAdjoiningCuts_spec done group b s :
  assigned done s -> (forall cv, plan (a_blob s) cv done (a_graph s) (op_indexes s) -> group_ok cv done group b) ->
  exists s', AssignBlockForAdjoiningCuts DeltaReadFile s group = Ret s' /\ assigned (done ++ group) s'.
Proof.
  intros ([cv P] & Ht & Hbl) HG. pose proof (HG cv P) as G. pose proof (gr_ne _ _ _ _ _ G) as Hne.
  pose proof (group_full cv done group b s P Hbl G) as Hfull. pose proof (group_dst n p g0 B cs K cv done group b G) as Hlt.
  assert (Hb : forall c rest, group = c :: rest -> old_dst c = b)
    by (intros c rest E; apply (group_cut cs cv done group b G); rewrite E; by left).
  assert (Hin : b ∈ op_indexes s) by (by apply (plan_op _ _ _ K _ _ _ _ _ _ P)).
  apply list_elem_of_lookup in Hin as [i Hi].
  destruct (scratch_search_spec n p g0 B Hp cs K _ cv done _ _ P group b G i Hi) as (r & sup & have & Hs & [F1 F2 F3 F4] & Hle). cbn [fst snd] in *.
  pose proof (blocks_needed_spec n p g0 B Hp cs K _ cv done _ _ P group b G) as Hneeded.
  unfold AssignBlockForAdjoiningCuts. destruct group as [|first rest] eqn:Eg; [done|]. rewrite <- Eg in *.
  rewrite (Hb first rest), Hneeded, (Ht i b Hi) by done. cbn [of_option]. rewrite outcome_bind_ret, Hs, outcome_bind_ret.
  destruct (Z.ltb_spec (blocks r) (zlen (group ≫= fun c => cut_blocks c))) as [Hless|Henough]; [done|].
  rewrite F2, Z.eqb_refl. cbn [guard_that]. rewrite outcome_bind_ret.
  destruct (supply_all n p g0 B Hp cs K _ cv done _ _ P group b G i sup Hi F3) as (g1 & -> & P1 & Hres). rewrite outcome_bind_ret.
  destruct (place_all n p g0 B Hp cs K _ cv done _ (op_indexes s) P group b G g1 r P1 F1) as (g2 & r' & -> & P2); [lia| |].
  - intros t (u & ru & Hin & Htr)%F4. by apply (Hres u ru).
  - rewrite outcome_bind_ret. eexists. split; [done|]. split; [by exists cv|done].
Qed.

(** ** All cuts *)

Section Loop.
Context (s0 : Assignment (Blob := Blob)) (H0 : assigned [] s0).
Context (r : list CutEdgeVertexes) (Hr : r ≡ₚ cs) (Hnd : NoDup r) (Hgr : grouped r).

Definition closed (front : list CutEdgeVertexes) : Prop :=
  forall c d, c ∈ front -> d ∈ cs -> old_dst c = old_dst d -> d ∈ front.

(** The cuts [seen] are those that are handled and the group at hand. *)
Record looping (seen : list CutEdgeVertexes) (s : Assignment (Blob := Blob) * list CutEdgeVertexes)
    (front : list CutEdgeVertexes) (b : Index) : Prop := {
  lo_seen : seen = front ++ snd s;
  lo_ne : snd s <> [];
  lo_dst : forall c, c ∈ snd s -> old_dst c = b;
  lo_closed : closed front;
  lo_assigned : assigned front (fst s);
}.

Lemma loop_group seen todo s front b :
  r = seen ++ todo -> looping seen s front b -> (forall x, head todo = Some x -> old_dst x <> b) ->
  (forall cv, plan (a_blob (fst s)) cv front (a_graph (fst s)) (op_indexes (fst s)) -> group_ok cv front (snd s) b) /\ closed (front ++ snd s).
Proof.
  intros Hl [L1 L2 L3 L4 L5] Hhead. subst seen. assert (Hn := Hnd). rewrite Hl in Hn. apply NoDup_app in Hn as (Hn & _ & _).
  apply NoDup_app in Hn as (_ & Hdis & Hng).
  assert (Hin : forall c, c ∈ front ++ snd s -> c ∈ cs) by (intros c Hc; rewrite <- Hr, Hl; set_solver).
  destruct (snd s) as [|c0 rest] eqn:Eg; [done|]. rewrite <- Eg in *. assert (Hc0 : c0 ∈ snd s) by (rewrite Eg; by left).
  assert (Hall : forall d, d ∈ cs -> old_dst d = b -> d ∈ snd s).
  { intros d Hd Hdb. rewrite <- Hr, Hl in Hd. apply elem_of_app in Hd as [[Hd|?]%elem_of_app|Hd]; [|done|].
    - destruct (Hdis c0); [|done]. apply (L4 d); [done|apply Hin; set_solver|]. rewrite Hdb. symmetry. auto.
    - destruct todo as [|x todo]; [by apply elem_of_nil in Hd|]. specialize (Hhead x eq_refl).
      apply elem_of_cons in Hd as [->|Hd]; [done|]. destruct Hhead. rewrite <- (L3 c0 Hc0).
      apply (Hgr (front ++ snd s) x todo Hl c0 d); [set_solver|done|]. rewrite Hdb. auto. }
  split.
  - intros cv P. split; try done.
    + intros Hb. destruct (pl_cv _ _ _ _ _ _ _ _ P b Hb) as [_ Hcv]. apply (Hdis c0); [|done].
      apply Hcv; [apply Hin; set_solver|auto].
    + intros c Hc. split; [auto|apply L3].
    + intros c Hc. split; [apply Hin; set_solver|]. intros Hf. by apply (Hdis c).
  - intros c d [Hc|Hc]%elem_of_app Hd Hcd; apply elem_of_app; [left; by apply (L4 c)|right]. apply Hall; [done|].
    rewrite <- Hcd. auto.
Qed.

Lemma assign_loop :
  exists s, foldM (assign_group DeltaReadFile) r (s0, []) = Ret s
    /\ (r <> [] -> exists front b, looping r s front b).
Proof.
  destruct (foldM_inv (assign_group DeltaReadFile)
    (fun seen s => if decide (seen = []) then s = (s0, []) else exists front b, looping seen s front b) r (s0, []))
    as (s & Heq & Hs); [done| |].
  - intros seen x todo [a group] Hl HI. destruct (decide (seen = [])) as [->|Hne].
    { injection HI as -> ->. eexists. split; [done|]. exists [], (old_dst x). split; try done.
      - by intros c ->%list_elem_of_singleton.
      - by intros c d ?%elem_of_nil. }
    destruct HI as (front & b & HL). pose proof HL as [L1 L2 L3 L4 L5]. cbn [fst snd] in *. unfold assign_group.
    destruct group as [|c0 rest] eqn:Eg; [done|]. rewrite <- Eg in *. assert (Hc0 : old_dst c0 = b) by (apply L3; rewrite Eg; by left).
    assert (Hx : x ∈ cs) by (rewrite <- Hr, Hl; set_solver). rewrite Hc0. destruct (decide (b = old_dst x)) as [Hbx|Hbx].
    + eexists. split; [done|]. rewrite decide_False by (by destruct seen). exists front, b. split; try done; cbn [fst snd].
      * by rewrite L1, app_assoc.
      * by destruct group.
      * intros c [Hc| ->%list_elem_of_singleton]%elem_of_app; auto.
    + destruct (loop_group seen (x :: todo) (a, group) front b Hl HL) as [HG Hclosed]; [by intros y [= <-]|]. cbn [fst snd] in *.
      destruct (AssignBlockForAdjoiningCuts_spec front group b a L5 HG) as (a' & -> & Ha'). rewrite outcome_bind_ret.
      eexists. split; [done|]. rewrite decide_False by (by destruct seen). exists (front ++ group), (old_dst x).
      split; try done; cbn [fst snd]; [by rewrite L1|by intros c ->%list_elem_of_singleton].
  - exists s. split; [done|]. intros Hne. by rewrite decide_False in Hs.
Qed.
End Loop.

Lemma AssignTempBlocks_spec s cuts :
  assigned [] s -> cuts ≡ₚ cs -> NoDup cuts -> grouped (reverse cuts) -> cuts <> [] ->
  exists s', AssignTempBlocks DeltaReadFile s cuts = Ret s' /\ assigned (reverse cuts) s'.
Proof.
  intros Hs Hc Hnd Hgr Hne. unfold AssignTempBlocks. rewrite bool_decide_false by done. cbn [check_that negb].
  rewrite outcome_bind_ret. assert (Hr : reverse cuts ≡ₚ cs) by (by rewrite reverse_Permutation).
  assert (Hrnd : NoDup (reverse cuts)) by (by rewrite reverse_Permutation).
  assert (Hrne : reverse cuts <> []) by (intros E; apply (f_equal reverse) in E; by rewrite reverse_involutive in E).
  destruct (assign_loop s Hs (reverse cuts) Hr Hrnd Hgr) as ([a group] & -> & HL). rewrite outcome_bind_ret.
  destruct (HL Hrne) as (front & b & HL'). destruct (loop_group s Hs (reverse cuts) Hr Hrnd Hgr (reverse cuts) [] (a, group) front b) as [HG _].
  - by rewrite app_nil_r.
  - done.
  - done.
  - destruct HL' as [L1 _ _ _ L5]. cbn [fst snd] in *. rewrite L1. by apply (AssignBlockForAdjoiningCuts_spec front group b).
Qed.
End Groups.
