(* ===== verification/UpdateRun.v ===== *)
(** * UpdateRun: the operations of an in-place update run on one device

    The contract of [ResolveReadAfterWriteDependencies] of UpdateInplace: the
    operations it returns, run one after the other on the device that holds
    the old image, leave the new image, although they overwrite what later
    ones read.  [plan] of UpdatePlan holds at the start and when all cuts are
    handled; from it follows what every operation reads and what is left. *)
From stdpp Require Import gmap relations sets.
From S2P Require Import Prelude UpdateExtents UpdateGraph UpdateTarjan UpdateCycles UpdateInplace UpdateViews.
From S2P Require Import UpdateBuild UpdateCuts UpdateOrder UpdateScratch UpdatePlan UpdateAssign.

(** ** Devices *)

(** What is in each block of a device. *)
Abbreviation device C := (Z -> C).

Section Device.
Context {C : Type}.
(** What an operation makes of the content of its source blocks. *)
Context (produce : InstallOperation -> list C -> list C).

Definition write_blocks (bs : list Z) (xs : list C) (d : device C) : device C :=
  fold_left (fun d bx => fun b => if decide (b = fst bx) then snd bx else d b) (zip bs xs) d.

(** An operation reads all its source blocks, then writes its destination. *)
Definition perform (d : device C) (op : InstallOperation) : device C :=
  write_blocks (ExpandExtents (dst_extents op)) (produce op (d <$> ExpandExtents (src_extents op))) d.

Definition run (ops : list InstallOperation) (d : device C) : device C := fold_left perform ops d.

Lemma write_blocks_out bs xs d b : b ∉ bs -> write_blocks bs xs d b = d b.
Proof.
  unfold write_blocks. revert xs d. induction bs as [|b' bs IH]; intros xs d Hb; [done|]. destruct xs as [|x xs]; [done|].
  apply not_elem_of_cons in Hb as [Hne Hb]. simpl. rewrite IH by done. simpl. by rewrite decide_False.
Qed.

Lemma write_blocks_in bs xs d j b x :
  NoDup bs -> bs !! j = Some b -> xs !! j = Some x -> write_blocks bs xs d b = x.
Proof.
  unfold write_blocks. intros Hnd. revert xs d j. induction Hnd as [|b' bs Hb' Hnd IH]; intros xs d j; [done|].
  destruct xs as [|x' xs]; [done|]. destruct j as [|j]; simpl; intros Hb Hx; simplify_eq; [|by apply (IH xs _ j)].
  etransitivity; [by apply write_blocks_out|]. simpl. by rewrite decide_True.
Qed.

Lemma write_blocks_new bs (new : device C) d b : write_blocks bs (new <$> bs) d b = if decide (b ∈ bs) then new b else d b.
Proof.
  unfold write_blocks. revert d. induction bs as [|c bs IH]; intros d; [by rewrite decide_False by apply not_elem_of_nil|].
  cbn [fmap list_fmap zip_with fold_left fst snd]. rewrite IH. destruct (decide (b ∈ bs)) as [Hb|Hb].
  - by rewrite decide_True by (by right).
  - destruct (decide (b = c)) as [->|Hne]; [by rewrite decide_True by left|]. rewrite decide_False; [done|]. by apply not_elem_of_cons.
Qed.

(** Operations that do not depend on the device they write. *)
Lemma run_constant (new : device C) ops d b :
  (forall op xs, op ∈ ops -> produce op xs = new <$> ExpandExtents (dst_extents op)) ->
  run ops d b = if decide (b ∈ ops ≫= fun op => ExpandExtents (dst_extents op)) then new b else d b.
Proof.
  unfold run. revert d. induction ops as [|op ops IH]; intros d Hops; [by rewrite decide_False by apply not_elem_of_nil|].
  cbn [fold_left mbind list_bind]. rewrite IH by (intros op' xs Hop; apply Hops; by right). unfold perform. rewrite Hops by left.
  rewrite write_blocks_new. destruct (decide (b ∈ ops ≫= _)) as [Hb|Hb].
  - rewrite decide_True; [done|]. apply elem_of_app. by right.
  - destruct (decide (b ∈ ExpandExtents (dst_extents op))) as [Hb'|Hb']; [rewrite decide_True; [done|]; apply elem_of_app; by left|].
    rewrite decide_False; [done|]. rewrite elem_of_app. by intros [].
Qed.
End Device.

(** ** The plan at the start *)

Section Start.
Context (n p : Z) (g0 : Graph) (B : built n p g0) (Hp : 0 <= n <= p /\ p < kTempBlockStart).
Context (es : list Edge) (Hes : cuttable g0 es).

Abbreviation cs := (imap (cut_of g0 es) es).

Lemma temp_base_mono j k : (j <= k)%nat -> temp_base g0 (take j es) <= temp_base g0 (take k es).
Proof.
  intros Hjk. rewrite <- (take_drop j (take k es)). rewrite take_take, Nat.min_l by done. unfold temp_base.
  rewrite bind_app, zlen_app. unfold zlen. lia.
Qed.

Lemma temp_disjoint j k d e t :
  (j < k)%nat -> es !! j = Some d -> es !! k = Some e ->
  t ∈ ExpandExtents [temp_extent g0 (take j es) d] -> t ∉ ExpandExtents [temp_extent g0 (take k es) e].
Proof.
  intros Hjk Hj Hk. destruct (cuttable_nth n p g0 B Hp es j d Hes Hj) as (_ & _ & -> & _).
  destruct (cuttable_nth n p g0 B Hp es k e Hes Hk) as (_ & _ & -> & _). rewrite !elem_of_seqZ.
  pose proof (temp_base_mono (S j) k ltac:(lia)) as Hm. rewrite (take_S_r es j d Hj), temp_base_snoc in Hm. lia.
Qed.

Lemma cuts_start : cuts_ok g0 cs.
Proof.
  assert (Hlen : length cs = length es) by apply length_imap. split; rewrite ?Hlen.
  - intros c (k & e & Hk & ->)%elem_cuts. apply lookup_lt_Some in Hk. simpl. lia.
  - intros c d (k & e & Hk & ->)%elem_cuts (j & f & Hj & ->)%elem_cuts. simpl. intros E. assert (k = j) as -> by lia. by simplify_eq.
  - intros v Hv. destruct (lookup_lt_is_Some_2 es (v - length g0)) as [e He]; [lia|]. exists (cut_of g0 es (v - length g0) e).
    split; [apply elem_cuts; eauto|simpl; lia].
  - intros c (k & e & Hk & ->)%elem_cuts. apply Hes. by apply list_elem_of_lookup_2 in Hk.
  - intros c d (k & [a b] & Hk & ->)%elem_cuts (j & [a' b'] & Hj & ->)%elem_cuts. simpl. intros -> ->.
    by rewrite (NoDup_lookup es k j (a', b') (proj1 Hes) Hk Hj).
  - intros c (k & e & Hk & ->)%elem_cuts. destruct (cuttable_nth n p g0 B Hp es k e Hes Hk) as (_ & H1 & H2 & _).
    cbn [tmp_extents cut_of old_src old_dst]. rewrite H2. split_and!; [by constructor|apply NoDup_seqZ|].
    rewrite length_seqZ. unfold zlen. by rewrite Nat2Z.id.
  - intros c t (k & e & Hk & ->)%elem_cuts. apply (cuttable_nth n p g0 B Hp es k e Hes Hk).
  - intros c d t (k & e & Hk & ->)%elem_cuts (j & f & Hj & ->)%elem_cuts Hc Hd. cbn [tmp_extents cut_of] in *.
    destruct (lt_eq_lt_dec k j) as [[Hlt| ->]|Hlt]; [| by simplify_eq|].
    + by apply (temp_disjoint k j e f t) in Hd.
    + by apply (temp_disjoint j k f e t) in Hc.
Qed.

Lemma cuts_NoDup : NoDup cs.
Proof.
  apply NoDup_alt. intros i j c Hi Hj. rewrite list_lookup_imap in Hi, Hj.
  destruct (es !! i), (es !! j); simplify_eq/=. unfold cut_of in *. simplify_eq. lia.
Qed.

Context (g : Graph) (next : Z) (Hs : cut_state g0 es g cs next) (full_op : list Z -> InstallOperation -> Prop).
Context (l : list Index) (Hl : l ≡ₚ seq 0 (length g)) (Hedge : forall u w, edge g u w -> before l w u).

Lemma start_cut c : c ∈ cs -> exists k e, es !! k = Some e /\ c = cut_of g0 es k e.
Proof. apply elem_cuts. Qed.

Lemma start_writes_op v : (v < length g0)%nat -> writes g v = writes g0 v.
Proof.
  intros Hv. destruct (lookup_lt_is_Some_2 g0 v Hv) as [x0 Hx0].
  destruct (ct_orig _ _ _ _ _ Hs v x0 Hx0) as (x & sx & Hx & _ & Ha). unfold writes. rewrite Hx, Hx0. simpl. by rewrite Ha.
Qed.

Lemma start_writes_copy c : c ∈ cs -> writes g (new_vertex c) = ExpandExtents (tmp_extents c).
Proof. intros (k & e & Hk & ->)%start_cut. by apply (cut_writes_copy g0 es g cs next). Qed.

(** Every block has one writer. *)
Lemma start_writer u v t : (u < length g)%nat -> (v < length g)%nat -> t ∈ writes g u -> t ∈ writes g v -> u = v.
Proof.
  pose proof cuts_start as K. pose proof (ct_length _ _ _ _ _ Hs) as Hlen. pose proof (length_imap (cut_of g0 es) es) as Hlc.
  assert (Hcase : forall w, (w < length g)%nat -> t ∈ writes g w ->
    (w < length g0)%nat /\ t ∈ writes g0 w /\ t < kTempBlockStart
    \/ exists c, c ∈ cs /\ w = new_vertex c /\ t ∈ ExpandExtents (tmp_extents c) /\ kTempBlockStart <= t).
  { intros w Hw Ht. destruct (decide (w < length g0)%nat) as [Hlt|Hge].
    - left. rewrite start_writes_op in Ht by done. pose proof (fi_writes _ _ _ B w t Ht). split_and!; try done. lia.
    - right. destruct (co_surj _ _ K w) as (c & Hc & <-); [lia|]. exists c. rewrite start_writes_copy in Ht by done.
      split_and!; try done. by apply (co_temp _ _ K c). }
  intros Hu Hv Htu Htv. destruct (Hcase u Hu Htu) as [(H1 & H2 & H3)|(c & H1 & -> & H2 & H3)],
    (Hcase v Hv Htv) as [(H4 & H5 & H6)|(d & H4 & -> & H5 & H6)]; try lia.
  - by apply (fi_writer _ _ _ B u v t).
  - by rewrite (co_disjoint _ _ K c d t).
Qed.

(** An edge is one of the original graph that was not cut, or leads to a copy node. *)
Lemma start_link u v q :
  link g u v = Some q ->
  ((v < length g0)%nat /\ link g0 u v = Some q)
  \/ exists c, c ∈ cs /\ v = new_vertex c
       /\ ((u = old_src c /\ link g0 u (old_dst c) = Some q)
           \/ (u = old_dst c /\ extents q = [] /\ ExpandExtents (write_extents q) = ExpandExtents (tmp_extents c))).
Proof.
  intros Hq. pose proof (ct_length _ _ _ _ _ Hs) as Hlen.
  destruct (decide ((length g0 <= u)%nat \/ (length g <= v)%nat)) as [Hn|Hn].
  { by rewrite (ct_link_none _ _ _ _ _ Hs) in Hq. }
  destruct (decide (v < length g0)%nat) as [Hv|Hv].
  { left. rewrite (ct_link _ _ _ _ _ Hs) in Hq by lia. case_decide; [done|]. done. }
  right. destruct (lookup_lt_is_Some_2 es (v - length g0)) as [e He]; [lia|].
  pose proof (ct_link_copy _ _ _ _ _ Hs u (v - length g0) e ltac:(lia) He) as H.
  replace (length g0 + (v - length g0))%nat with v in H by lia. rewrite Hq in H.
  exists (cut_of g0 es (v - length g0) e). split; [apply elem_cuts; eauto|]. split; [simpl; lia|]. simpl.
  destruct (decide (u = fst e)) as [->|Hu].
  - left. split; [done|]. apply edge_like_exact in H; [congruence|apply (bu_nowrite _ _ _ B)].
  - destruct (decide (u = snd e)) as [->|Hu']; [right|done]. destruct H as (H1 & _ & H2). done.
Qed.

Lemma start_copy_edge c : c ∈ cs -> is_Some (link g (old_dst c) (new_vertex c)) /\ needs g (old_src c) (new_vertex c) = needs g0 (old_src c) (old_dst c).
Proof.
  intros Hc. pose proof (cut_ends n p g0 B cs cuts_start c Hc) as (Hne & Ha & Hb). apply start_cut in Hc as (k & e & Hk & ->).
  cbn [old_dst old_src new_vertex cut_of] in *. split.
  - pose proof (ct_link_copy _ _ _ _ _ Hs (snd e) k e Hb Hk) as H. rewrite decide_False, decide_True in H by done.
    by destruct (link g (snd e) (length g0 + k)).
  - pose proof (ct_link_copy _ _ _ _ _ Hs (fst e) k e Ha Hk) as H. rewrite decide_True in H by done.
    apply edge_like_exact in H; [by rewrite H|apply (bu_nowrite _ _ _ B)].
Qed.

Lemma start_direct u v t :
  (u < length g)%nat -> u <> v -> direct g0 cs [] v t -> t ∈ writes g u -> t ∈ needs g u v.
Proof.
  intros Hu Hne Hd Ht. pose proof (ct_length _ _ _ _ _ Hs) as Hlen. pose proof (length_imap (cut_of g0 es) es) as Hlc.
  pose proof cuts_start as K. destruct (decide (u < length g0)%nat) as [Hlt|Hge].
  2: { destruct (co_surj _ _ K u) as (c & Hc & <-); [lia|]. rewrite start_writes_copy in Ht by done.
       apply (co_temp _ _ K c t Hc) in Ht. exfalso. assert (t < n); [|lia].
       destruct Hd as [(_ & _ & Hr & _)|(d & _ & _ & (_ & _ & Hr)%(bu_needs _ _ _ B))];
         apply (fi_reads _ _ _ B) in Hr; lia. }
  rewrite start_writes_op in Ht by done. destruct Hd as [(Hv & _ & Hr & Hcut)|(c & [Hc _] & -> & Htc)].
  - rewrite (ct_link _ _ _ _ _ Hs) by done. rewrite decide_False; [by apply (bu_needs _ _ _ B)|].
    intros [k Hk]%list_elem_of_lookup. apply (Hcut (cut_of g0 es k (u, v))); [apply elem_cuts; eauto|done|].
    simpl. by apply (bu_needs _ _ _ B).
  - assert (u = old_src c) as ->; [|by rewrite (proj2 (start_copy_edge c Hc))].
    apply (bu_needs _ _ _ B) in Htc as (_ & Hw & _). by apply (fi_writer _ _ _ B _ _ t).
Qed.

Lemma start_shape u v q :
  link g u v = Some q ->
  (write_extents q = [] /\ extents q <> [] /\ forall c, c ∈ cs -> u = old_dst c -> v <> new_vertex c)
  \/ (extents q = [] /\ exists c, live cs [] c /\ u = old_dst c /\ v = new_vertex c
        /\ ExpandExtents (write_extents q) = writes g (new_vertex c)).
Proof.
  pose proof cuts_start as K. intros Hq.
  assert (Horig : forall w, link g0 u w = Some q -> write_extents q = [] /\ extents q <> []).
  { intros w Hw. pose proof (bu_nowrite _ _ _ B u w) as H1. pose proof (bu_link _ _ _ B u w) as H2. rewrite Hw in H1, H2.
    split; [done|]. intros E. simpl in H2. rewrite E in H2. by apply H2. }
  destruct (start_link u v q Hq) as [[Hlt Hq0]|(c & Hc & -> & [[-> Hq0]|(-> & Hx & Hw)])].
  - left. destruct (Horig v Hq0). split_and!; try done. intros c Hc _ ->. apply (co_new _ _ K) in Hc. lia.
  - left. destruct (Horig _ Hq0). split_and!; try done. intros d Hd E E'. apply (co_inj _ _ K) in E' as ->; [|done|done].
    by destruct (cut_ends n p g0 B cs K d Hd).
  - right. split; [done|]. exists c. split_and!; try done; [|by rewrite start_writes_copy].
    split; [done|]. apply not_elem_of_nil.
Qed.

Lemma start_valid v x : g !! v = Some x -> valid x = true.
Proof.
  intros Hx. apply lookup_lt_Some in Hx as Hv. pose proof (ct_length _ _ _ _ _ Hs). destruct (decide (v < length g0)%nat) as [Hlt|Hge].
  - destruct (lookup_lt_is_Some_2 g0 v Hlt) as [x0 Hx0]. destruct (ct_orig _ _ _ _ _ Hs v x0 Hx0) as (x' & sx & Hx' & Hval & _).
    simplify_eq. rewrite Hval. by apply (fi_vertex _ _ _ B v).
  - destruct (lookup_lt_is_Some_2 es (v - length g0)) as [e He]; [lia|].
    destruct (ct_copy _ _ _ _ _ Hs _ e He) as (x' & Hx' & Hval & _). replace (length g0 + (v - length g0))%nat with v in Hx' by lia. congruence.
Qed.

Lemma start_needs u v t : t ∈ needs g u v -> 0 <= t < p.
Proof.
  intros Ht. destruct (link g u v) as [q|] eqn:Hq; [|by apply elem_of_nil in Ht].
  assert (Hr : forall w, t ∈ needs g0 u w -> 0 <= t < p).
  { intros w (_ & _ & Hr)%(bu_needs _ _ _ B). apply (fi_reads _ _ _ B) in Hr. lia. }
  destruct (start_link u v q Hq) as [[_ Hq0]|(c & Hc & -> & [[-> Hq0]|(-> & Hx & _)])].
  - apply (Hr v). by rewrite Hq0.
  - apply (Hr (old_dst c)). by rewrite Hq0.
  - simpl in Ht. rewrite Hx in Ht. by apply elem_of_nil in Ht.
Qed.

Lemma plan_start : plan p g0 cs full_op [] [] g l.
Proof.
  pose proof cuts_start as K. pose proof (ct_length _ _ _ _ _ Hs) as Hlen. pose proof (length_imap (cut_of g0 es) es) as Hlc.
  assert (Hnd : NoDup l) by (rewrite Hl; apply NoDup_seq).
  assert (Hin : forall v, v ∈ l <-> (v < length g)%nat) by (intros v; rewrite Hl, elem_of_seq; lia).
  assert (Hnew : forall c, c ∈ cs -> new_vertex c ∈ l) by (intros c Hc; apply Hin; apply (co_new _ _ K) in Hc; lia).
  assert (Huniq : forall u v t, u ∈ l -> v ∈ l -> t ∈ writes g u -> t ∈ writes g v -> u = v).
  { intros u v t Hu%Hin Hv%Hin. by apply start_writer. }
  split; try done.
  - by rewrite Hlc.
  - apply (ct_ok _ _ _ _ _ Hs).
  - intros v. rewrite Hin. split; [|tauto]. intros Hv. split; [done|]. intros c _ _. apply not_elem_of_nil.
  - by intros c ?%elem_of_nil.
  - by intros c ?%elem_of_nil.
  - intros v x Hx. rewrite Hin. split; [intros _; by apply lookup_lt_Some in Hx|]. intros _. by eapply start_valid.
  - intros v x0 Hx0 _. destruct (ct_orig _ _ _ _ _ Hs v x0 Hx0) as (x & sx & ? & _ & ?). eauto.
  - intros v Hv _. by apply (ct_found _ _ _ _ _ Hs).
  - by intros v ?%elem_of_nil.
  - intros c [Hc _]. pose proof (start_writes_copy c Hc) as Hw. destruct (co_tmp _ _ K c Hc) as (_ & Hn & Ht).
    apply start_cut in Hc as (k & e & Hk & ->). destruct (ct_copy _ _ _ _ _ Hs k e Hk) as (x & Hx & _ & Hty & Hr & _).
    exists x. rewrite Hw. split_and!; try done. unfold reads. simpl. by rewrite Hx.
  - intros c Hc _. by apply start_writes_copy.
  - by intros c t ?%elem_of_nil.
  - intros u w Hlk. by apply Hedge, edge_link.
  - intros u v t Hu%Hin. by apply start_direct.
  - intros u1 u2 t Hb H1 H2. pose proof (before_elem _ _ _ Hb) as [Hu1 Hu2].
    assert (u1 = u2) as -> by (by apply (Huniq u1 u2 t)). by apply before_irrefl in Hb.
  - intros c u t [Hc _] Hu Hne H1 H2. destruct Hne. apply (Huniq _ _ t); auto.
  - intros c v t [Hc _] Hv Ht Hv'. rewrite start_writes_copy in Ht by done. apply (co_temp _ _ K c t Hc) in Ht.
    apply (fi_writes _ _ _ B) in Hv'. lia.
  - intros c [Hc _]. apply Hedge, edge_link. by apply start_copy_edge.
  - apply start_needs.
  - apply start_shape.
  - intros u c Hc [q Hq]. destruct (start_link u _ q Hq) as [[Hlt _]|(d & Hd & E & Hcase)].
    + apply (co_new _ _ K) in Hc. lia.
    + apply (co_inj _ _ K) in E as ->; [|done|done]. tauto.
  - intros c w Hc _. apply (ct_link_none _ _ _ _ _ Hs). left. apply (co_new _ _ K) in Hc. lia.
Qed.
End Start.

(** ** No temporary block remains *)

Definition real_extents (p : Z) (es : list Extent) : Prop :=
  Forall extent_ok es /\ forall t, t ∈ ExpandExtents es -> t < p.

Lemma temp_none p es : p < kTempBlockStart -> real_extents p es -> TempBlocksExistInExtents es = Ret false.
Proof.
  intros Hp [Hok Ht]. induction Hok as [|e es He Hok IH]; simpl; [done|].
  assert (Hlast : start_block e + num_blocks e - 1 < p).
  { apply Ht. rewrite ExpandExtents_cons, expand_ok by done. apply elem_of_app. left. apply elem_of_seqZ.
    unfold extent_ok in He. lia. }
  rewrite u64_end by done. unfold extent_ok in He.
  rewrite (proj2 (Z.leb_gt kTempBlockStart _)), (proj2 (Z.leb_gt kTempBlockStart _)), (proj2 (Z.leb_le (start_block e) _)) by lia.
  apply IH. intros t Hin. apply Ht. rewrite ExpandExtents_cons. set_solver.
Qed.

Lemma any_temp_none p ess :
  p < kTempBlockStart -> (forall es, es ∈ ess -> real_extents p es) -> any_temp ess = Ret false.
Proof.
  intros Hp Hall. induction ess as [|es ess IH]; simpl; [done|]. rewrite (temp_none p) by (auto; apply Hall; by left).
  rewrite outcome_bind_ret. apply IH. intros es' Hin. apply Hall. by right.
Qed.

Lemma NoTempBlocksRemain_spec p (g : Graph) :
  p < kTempBlockStart ->
  (forall v x, g !! v = Some x -> valid x = true ->
     real_extents p (dst_extents (aop x)) /\ real_extents p (src_extents (aop x))
     /\ forall k q, (k, q) ∈ out_edges x -> real_extents p (extents q) /\ real_extents p (write_extents q)) ->
  NoTempBlocksRemain g = Ret true.
Proof.
  intros Hp. induction g as [|x g IH]; simpl; intros Hall; [done|].
  assert (IH' : NoTempBlocksRemain g = Ret true) by (apply IH; intros v; apply (Hall (S v))).
  destruct (valid x) eqn:Hv; simpl; [|done]. destruct (Hall 0%nat x eq_refl Hv) as (H1 & H2 & H3).
  rewrite (temp_none p), outcome_bind_ret, (temp_none p), outcome_bind_ret by done.
  rewrite (any_temp_none p), outcome_bind_ret; [done|done|]. intros es ([k q] & Hes & Hin)%list_elem_of_bind. simpl in Hes.
  destruct (H3 k q Hin). by apply elem_of_cons in Hes as [->|Hes]; [|apply list_elem_of_singleton in Hes as ->].
Qed.

(** ** The plan when all cuts are handled *)

Section Final.
Context (n p : Z) (g0 : Graph) (B : built n p g0) (Hp : 0 <= n <= p /\ p < kTempBlockStart).
Context (cs : list CutEdgeVertexes) (K : cuts_ok g0 cs) (full_op : list Z -> InstallOperation -> Prop).
Context (cv : list Index) (done : list CutEdgeVertexes) (g : Graph) (l : list Index).
Context (P : plan p g0 cs full_op cv done g l) (Hall : forall c, c ∈ cs -> c ∈ done).

Abbreviation live := (live cs cv).
Abbreviation cut_blocks c := (needs g0 (old_src c) (old_dst c)).

Lemma final_writes v t : v ∈ l -> t ∈ writes g v -> 0 <= t < p.
Proof.
  intros Hv Ht. destruct (plan_vertex _ _ _ K _ _ _ _ _ v P Hv) as [Hlt|(c & Hc & ->)].
  - rewrite (plan_writes _ _ _ _ _ _ _ _ _ P) in Ht by done. by apply (fi_writes _ _ _ B) in Ht.
  - destruct (pl_real _ _ _ _ _ _ _ _ P c t (Hall c (proj1 Hc)) Hc Ht). lia.
Qed.

Lemma final_reads v t : v ∈ l -> t ∈ reads g v -> 0 <= t < p.
Proof.
  intros Hv Ht. destruct (plan_vertex _ _ _ K _ _ _ _ _ v P Hv) as [Hlt|(c & Hc & ->)].
  - destruct (decide (v ∈ cv)) as [Hcv|Hcv].
    + destruct (pl_full _ _ _ _ _ _ _ _ P v Hcv) as (x & Hx & Hf). unfold reads in Ht. rewrite Hx in Ht. simpl in Ht.
      rewrite (ff_src _ _ _ Hf) in Ht. by apply elem_of_nil in Ht.
    + apply list_elem_of_lookup in Ht as [i Hi].
      destruct (Forall2_lookup_r _ _ _ _ _ (pl_found _ _ _ _ _ _ _ _ P v Hlt Hcv) Hi) as (b & Hb & [(c & j & Hc & Hcv' & _ & Hj)|[_ ->]]).
      * apply list_elem_of_lookup_2 in Hj. destruct (pl_real _ _ _ _ _ _ _ _ P c t (Hall c Hc)) as [? _]; [split; congruence|done|lia].
      * apply list_elem_of_lookup_2, (fi_reads _ _ _ B) in Hb. lia.
  - destruct (pl_copy _ _ _ _ _ _ _ _ P c Hc) as (x & _ & _ & Hr & _). rewrite Hr in Ht.
    apply (bu_needs _ _ _ B) in Ht as (_ & _ & Ht%(fi_reads _ _ _ B)). lia.
Qed.

Lemma final_no_temp (g' : Graph) :
  (forall v x', g' !! v = Some x' -> exists x, g !! v = Some x /\ out_edges x' = out_edges x /\ aop x' = aop x
     /\ (valid x' = true -> valid x = true)) ->
  NoTempBlocksRemain g' = Ret true.
Proof.
  intros Hsame. apply (NoTempBlocksRemain_spec p); [apply Hp|]. intros v x' Hx' Hv'.
  destruct (Hsame v x' Hx') as (x & Hx & -> & -> & Hval). apply Hval, (pl_valid _ _ _ _ _ _ _ _ P v x Hx) in Hv'.
  pose proof (graph_ok_lookup g v x (pl_ok _ _ _ _ _ _ _ _ P) Hx) as [V1 V2 V3 V4]. split_and!.
  - split; [done|]. intros t Ht. apply (final_writes v); [done|]. unfold writes. by rewrite Hx.
  - split; [done|]. intros t Ht. apply (final_reads v); [done|]. unfold reads. by rewrite Hx.
  - intros k q Hq%elem_of_edge_find; [|done]. destruct (V4 k q Hq) as [W1 W2].
    assert (Hlk : link g v k = Some q) by (unfold link; by rewrite Hx). split; (split; [done|]); intros t Ht.
    + apply (pl_needs _ _ _ _ _ _ _ _ P v k). by rewrite Hlk.
    + destruct (pl_link _ _ _ _ _ _ _ _ P v k q Hlk) as [(Hw & _)|(_ & c & Hc & _ & _ & Hw)]; rewrite Hw in Ht; [by apply elem_of_nil in Ht|].
      apply (final_writes (new_vertex c)); [|done]. by apply (pl_first _ _ _ _ _ _ _ _ P) in Hc as [? _]%before_elem.
Qed.

(** ** What the operations read and write *)

Section Execution.
Context {C : Type} (produce : InstallOperation -> list C -> list C).
Context (Hsrc : forall op es xs, produce (set_src_extents es op) xs = produce op xs).
Context (Hmove : forall op xs, op_type op = Some MOVE -> produce op xs = xs).
Context (old new : device C) (skip : option Index) (Hskip : forall v, skip = Some v -> (v < length g0)%nat).
Context (Hops : forall v x0, g0 !! v = Some x0 -> Some v <> skip -> produce (aop x0) (old <$> reads g0 v) = new <$> writes g0 v).
Context (Hfull : forall bs op, full_op bs op -> produce op [] = new <$> bs).

Definition op_at (h : Graph) (v : Index) : InstallOperation := from_option aop (aop Vertex_new) (h !! v).

(** The operations that are run. *)
Abbreviation order := (filter (fun v => Some v <> skip) l).

(** What vertex [w] leaves in block [t]. *)
Definition leaves (w : Index) (t : Z) (x : C) : Prop :=
  ((w < length g0)%nat /\ x = new t)
  \/ exists c j b, live c /\ w = new_vertex c /\ cut_blocks c !! j = Some b /\ writes g w !! j = Some t /\ x = old b.

(** The device [d] after the operations [pre]. *)
Record executed (pre : list Index) (d : device C) : Prop := {
  ex_old : forall t, (forall u, u ∈ pre -> t ∉ writes g u) -> d t = old t;
  ex_new : forall w t, w ∈ pre -> t ∈ writes g w -> (forall u, u ∈ pre -> before l w u -> t ∉ writes g u) -> leaves w t (d t);
}.

Section Step.
Context (pre : list Index) (v : Index) (post : list Index) (Hord : order = pre ++ v :: post).
Context (d : device C) (E : executed pre d).

Lemma step_before u : u ∈ pre -> before l u v.
Proof.
  intros Hu. assert (Hb : before order u v) by (rewrite Hord; apply before_app; right; right; split; [done|by left]).
  by apply before_filter in Hb as [? _].
Qed.

Lemma step_in : v ∈ l /\ Some v <> skip.
Proof. assert (Hv : v ∈ order) by (rewrite Hord; set_solver). apply list_elem_of_filter in Hv. tauto. Qed.

Lemma step_pre u : before l u v -> Some u <> skip -> u ∈ pre.
Proof.
  intros Hb Hu. assert (Hb' : before order u v) by (apply before_filter; pose proof step_in; tauto).
  assert (Hnd : NoDup order) by (apply NoDup_filter, P). rewrite Hord in Hb', Hnd.
  change (pre ++ v :: post) with (pre ++ [v] ++ post) in *. rewrite app_assoc in *. apply before_app in Hb' as [Hb'|[Hb'|[_ Hin]]].
  - apply before_snoc in Hb' as [Hb'|[? _]]; [by apply before_elem in Hb' as [? _]|done].
  - apply before_elem in Hb' as [_ Hin]. apply NoDup_app in Hnd as (_ & Hd & _). destruct (Hd v); set_solver.
  - apply NoDup_app in Hnd as (_ & Hd & _). destruct (Hd v); set_solver.
Qed.

(** What is read in its place is still the original content. *)
Lemma read_direct t : direct g0 cs cv v t -> d t = old t.
Proof.
  intros Hd. apply (ex_old _ _ E). intros u Hu Ht. pose proof (step_before u Hu) as Hb.
  assert (Hne : u <> v) by (intros ->; by apply before_irrefl in Hb; [|apply P]).
  assert (Hl : u ∈ l) by (by apply before_elem in Hb as [? _]).
  pose proof (pl_direct _ _ _ _ _ _ _ _ P u v t Hl Hne Hd Ht) as Hn.
  apply (before_asym l u v); [apply P|done|]. apply (pl_edge _ _ _ _ _ _ _ _ P).
  destruct (link g u v); [by eexists|by apply elem_of_nil in Hn].
Qed.

Lemma read_found b t :
  (v < length g0)%nat -> v ∉ cv -> b ∈ reads g0 v -> found_at g0 cs g v b t -> d t = old b.
Proof.
  intros Hv Hcv Hb [(c & j & Hc & Hcd & Hj & Hjt)|[Hhome ->]].
  - assert (Hlive : live c) by (split; congruence). pose proof (pl_first _ _ _ _ _ _ _ _ P c Hlive) as Hf. rewrite Hcd in Hf.
    assert (Hpre : new_vertex c ∈ pre).
    { apply step_pre; [done|]. intros Hsk. symmetry in Hsk. apply Hskip in Hsk. apply (co_new _ _ K) in Hc. lia. }
    pose proof (list_elem_of_lookup_2 _ _ _ Hjt) as Ht.
    destruct (ex_new _ _ E (new_vertex c) t Hpre Ht) as [[Hlt _]|(c' & j' & b' & Hc' & E' & Hb' & Hj' & ->)].
    + intros u Hu Hbu Htu. pose proof (step_before u Hu) as Huv.
      assert (Hne : u <> new_vertex c) by (intros ->; by apply before_irrefl in Hbu; [|apply P]).
      destruct (pl_scratch _ _ _ _ _ _ _ _ P c u t Hlive) as [Hx|Hx]; try done.
      * by apply before_elem in Huv as [? _].
      * by apply (before_asym l (new_vertex c) u); [apply P|..].
      * rewrite Hcd in Hx. by apply (before_asym l u v); [apply P|..].
    + apply (co_new _ _ K) in Hc. lia.
    + apply (co_inj _ _ K) in E' as <-; [|done|apply Hc']. destruct (pl_copy _ _ _ _ _ _ _ _ P c Hlive) as (_ & _ & _ & _ & _ & Hnd).
      rewrite (NoDup_lookup _ j j' t Hnd Hjt Hj') in Hj. congruence.
  - apply read_direct. left. split_and!; auto.
Qed.

Lemma step_values j t :
  writes g v !! j = Some t ->
  exists x, produce (op_at g v) (d <$> reads g v) !! j = Some x /\ leaves v t x.
Proof.
  intros Hj. destruct step_in as [Hvl Hvs]. destruct (plan_vertex _ _ _ K _ _ _ _ _ v P Hvl) as [Hlt|(c & Hc & Hvc)].
  - assert (produce (op_at g v) (d <$> reads g v) = new <$> writes g0 v) as ->.
    { unfold op_at. destruct (decide (v ∈ cv)) as [Hcv|Hcv].
      - destruct (pl_full _ _ _ _ _ _ _ _ P v Hcv) as (x & Hx & Hf). unfold reads. rewrite Hx. simpl. rewrite (ff_src _ _ _ Hf).
        apply Hfull, Hf.
      - destruct (lookup_lt_is_Some_2 g0 v Hlt) as [x0 Hx0]. destruct (pl_kept _ _ _ _ _ _ _ _ P v x0 Hx0 Hcv) as (x & sx & Hx & Ha).
        rewrite Hx. simpl. rewrite Ha, Hsrc, <- (Hops v x0 Hx0 Hvs). f_equal.
        pose proof (pl_found _ _ _ _ _ _ _ _ P v Hlt Hcv) as Hf. apply list_eq_Forall2, Forall2_fmap_l, Forall2_fmap_r, Forall2_flip.
        apply (Forall2_same_length_lookup_2 (fun b t => d t = old b)); [by apply Forall2_length in Hf|].
        intros i b t' Hb Ht'. apply read_found; [done|done|by apply list_elem_of_lookup_2 in Hb|].
        by apply (Forall2_lookup_lr _ _ _ _ _ _ Hf Hb Ht'). }
    rewrite (plan_writes _ _ _ _ _ _ _ _ _ P) in Hj by done. exists (new t). rewrite list_lookup_fmap, Hj. split; [done|]. by left.
  - destruct (pl_copy _ _ _ _ _ _ _ _ P c Hc) as (x & Hx & Hty & Hr & Hlen & _).
    assert (Hd : forall b, b ∈ cut_blocks c -> d b = old b) by (intros b Hb; apply read_direct; right; by exists c).
    unfold op_at. rewrite Hvc in Hj. rewrite Hvc, Hx. simpl. rewrite Hmove, Hr by done. destruct (lookup_lt_is_Some_2 (cut_blocks c) j) as [b Hb].
    { rewrite <- Hlen. by apply lookup_lt_Some in Hj. }
    exists (old b). rewrite list_lookup_fmap, Hb. simpl. split.
    + f_equal. apply Hd. by apply list_elem_of_lookup_2 in Hb.
    + right. exists c, j, b. done.
Qed.

Lemma op_views : ExpandExtents (dst_extents (op_at g v)) = writes g v /\ ExpandExtents (src_extents (op_at g v)) = reads g v.
Proof. unfold op_at, reads, writes. by destruct (g !! v). Qed.

Lemma step_writes_NoDup : NoDup (writes g v).
Proof.
  destruct step_in as [Hvl _]. destruct (plan_vertex _ _ _ K _ _ _ _ _ v P Hvl) as [Hlt|(c & Hc & ->)].
  - rewrite (plan_writes _ _ _ _ _ _ _ _ _ P) by done. apply (fi_writes_NoDup _ _ _ B).
  - by destruct (pl_copy _ _ _ _ _ _ _ _ P c Hc) as (_ & _ & _ & _ & _ & ?).
Qed.

Lemma executed_step : executed (pre ++ [v]) (perform produce d (op_at g v)).
Proof.
  destruct op_views as [Hdst Hsrcs]. unfold perform. rewrite Hdst, Hsrcs. split.
  - intros t Hno. rewrite write_blocks_out by (apply Hno; set_solver). apply (ex_old _ _ E). intros u Hu. apply Hno. set_solver.
  - intros w t Hw Ht Hlater. destruct (decide (t ∈ writes g v)) as [Hin|Hin].
    + assert (w = v) as ->.
      { apply elem_of_app in Hw as [Hw|Hw%list_elem_of_singleton]; [|done].
        destruct (Hlater v); [set_solver|by apply step_before|done]. }
      apply list_elem_of_lookup in Hin as [j Hj]. destruct (step_values j t Hj) as (x & Hx & Hl).
      by rewrite (write_blocks_in _ _ _ j t x step_writes_NoDup Hj Hx).
    + rewrite write_blocks_out by done. apply elem_of_app in Hw as [Hw|Hw%list_elem_of_singleton]; [|by subst].
      apply (ex_new _ _ E); [done|done|]. intros u Hu. apply Hlater. set_solver.
Qed.
End Step.

Lemma executed_all : executed order (run produce (op_at g <$> order) old).
Proof.
  enough (forall pre post, order = pre ++ post -> executed pre (run produce (op_at g <$> pre) old)) as H
    by (apply (H order []); by rewrite app_nil_r).
  induction pre as [|v pre IH] using rev_ind; intros post Hl.
  - split; [done|]. by intros w t ?%elem_of_nil.
  - rewrite <- app_assoc in Hl. rewrite fmap_app. unfold run. rewrite fold_left_app. simpl.
    apply (executed_step pre v post Hl). by apply (IH ([v] ++ post)).
Qed.

(** A block that an operation writes has its new content at the end. *)
Lemma final_written v b :
  (v < length g0)%nat -> Some v <> skip -> b ∈ writes g0 v -> run produce (op_at g <$> order) old b = new b.
Proof.
  intros Hv Hs Hb. pose proof (plan_op _ _ _ K _ _ _ _ _ v P Hv) as Hvl. pose proof (plan_writes _ _ _ _ _ _ _ _ v P Hv) as Hw.
  destruct (ex_new _ _ executed_all v b) as [[_ ?]|(c & j & b' & [Hc _] & -> & _)].
  - by apply list_elem_of_filter.
  - by rewrite Hw.
  - intros u [_ Hu]%list_elem_of_filter Hvu Hub. destruct (plan_vertex _ _ _ K _ _ _ _ _ u P Hu) as [Hlt|(c & Hc & ->)].
    + rewrite (plan_writes _ _ _ _ _ _ _ _ _ P) in Hub by done. assert (u = v) as -> by (by apply (fi_writer _ _ _ B u v b)).
      by apply before_irrefl in Hvu; [|apply P].
    + apply (before_asym l v (new_vertex c)); [apply P|done|]. apply (before_trans l _ (old_dst c)); [apply P| |].
      * by apply (pl_first _ _ _ _ _ _ _ _ P).
      * by apply (pl_last _ _ _ _ _ _ _ _ P c v b).
  - done.
  - apply (co_new _ _ K) in Hc. lia.
Qed.

(** A block that no operation writes is left alone. *)
Lemma final_untouched b :
  (forall v, (v < length g0)%nat -> b ∉ writes g0 v) -> run produce (op_at g <$> order) old b = old b.
Proof.
  intros Hno. apply (ex_old _ _ executed_all). intros u [_ Hu]%list_elem_of_filter Hub.
  destruct (plan_vertex _ _ _ K _ _ _ _ _ u P Hu) as [Hlt|(c & Hc & ->)].
  - rewrite (plan_writes _ _ _ _ _ _ _ _ _ P) in Hub by done. by apply (Hno u).
  - destruct (pl_real _ _ _ _ _ _ _ _ P c b (Hall c (proj1 Hc)) Hc Hub) as (_ & (v & Hv & Hvb) & _). by apply (Hno v).
Qed.
End Execution.
End Final.

Lemma run_ext {C} (p q : InstallOperation -> list C -> list C) ops d :
  (forall op xs, p op xs = q op xs) -> run p ops d = run q ops d.
Proof.
  intros Hpq. unfold run. revert d. induction ops as [|op ops IH]; intros d; [done|]. simpl. unfold perform at 2 4. rewrite Hpq. apply IH.
Qed.

(** ** The whole generator *)

(** What operations compute: it does not matter where the source blocks are,
    and a [MOVE] copies them. *)
Class Operations {C} (produce : InstallOperation -> list C -> list C) : Prop := {
  produce_src : forall op es xs, produce (set_src_extents es op) xs = produce op xs;
  produce_move : forall op xs, op_type op = Some MOVE -> produce op xs = xs;
}.

(** [DeltaReadFile] makes one full operation for the destination of each
    operation, whose data stay in the file of blobs when it grows. *)
Class FullOperations {C Blob} (produce : Blob -> InstallOperation -> list C -> list C) (new : device C)
    (aops : list AnnotatedOperation) (grow : Blob -> Blob -> Prop) (blob0 : Blob)
    (DeltaReadFile : list Extent -> Blob -> outcome (list AnnotatedOperation * Blob)) : Prop := {
  full_operation : forall op blob, grow blob0 blob -> op ∈ aops -> exists full blob',
    DeltaReadFile (dst_extents op) blob = Ret ([full], blob') /\ grow blob blob'
    /\ Forall extent_ok (dst_extents full) /\ ExpandExtents (dst_extents full) = ExpandExtents (dst_extents op)
    /\ is_Some (op_type full) /\ is_full_type (type_of full) = true /\ src_extents full = []
    /\ forall b, grow blob' b -> produce b full [] = new <$> ExpandExtents (dst_extents op);
}.

Lemma delete_filter (l : list Index) i v : NoDup l -> l !! i = Some v -> delete i l = filter (fun u => Some u <> Some v) l.
Proof.
  intros Hnd Hi. apply list_elem_of_split_length in Hi as (l1 & l2 & -> & ->).
  apply NoDup_app in Hnd as (_ & Hd & [Hv _]%NoDup_cons). rewrite delete_middle, filter_app, filter_cons_False by naive_solver.
  rewrite !filter_all; [done|intros u Hu [= ->]; done|]. intros u Hu [= ->]. apply (Hd v Hu). by left.
Qed.

Section Dag.
Context (n p : Z) (g0 : Graph) (B : built n p g0) (Hp : 0 <= n <= p /\ p < kTempBlockStart).
Context {C Blob : Type} (produce : Blob -> InstallOperation -> list C -> list C) `{!forall b, Operations (produce b)}.
Context (grow : Blob -> Blob -> Prop) `{!PreOrder grow} (blob0 : Blob).
Context (DeltaReadFile : list Extent -> Blob -> outcome (list AnnotatedOperation * Blob)).
Context (old new : device C) (scratch : option Index) (Hscratch : forall v, scratch = Some v -> (v < length g0)%nat).
Context (Hops : forall b v x0, grow blob0 b -> g0 !! v = Some x0 -> Some v <> scratch ->
  produce b (aop x0) (old <$> reads g0 v) = new <$> writes g0 v).

(** It writes the new content of the blocks, from any later file. *)
Definition writes_new (blob : Blob) (bs : list Z) (op : InstallOperation) : Prop :=
  forall b, grow blob b -> produce b op [] = new <$> bs.

Context (Hdelta : forall v x0 blob, grow blob0 blob -> g0 !! v = Some x0 -> reads g0 v <> [] ->
  exists op blob', DeltaReadFile (dst_extents (aop x0)) blob = Ret ([op], blob') /\ grow blob blob'
    /\ Forall extent_ok (dst_extents op) /\ full_for (writes_new blob') (writes g0 v) op).

Lemma built_graph_ok : graph_ok g0.
Proof. intros u v He%edge_link. by apply (cut_edge_vertexes n p g0 B) in He as (_ & _ & ?). Qed.

Lemma built_no_skipped u v x : edge g0 u v -> g0 !! v = Some x -> ~ skipped_type (aop x).
Proof.
  intros He%edge_link Hx Hs. assert (Hf : is_full_type (type_of (aop x)) = true).
  { unfold is_full_type. destruct Hs as [-> | ->]; done. }
  apply (fi_full _ _ _ B v x Hx) in Hf. apply (bu_link _ _ _ B) in He. destruct (needs g0 u v) as [|t rest] eqn:E; [done|].
  destruct (proj1 (bu_needs _ _ _ B u v t)) as (_ & _ & Ht); [rewrite E; by left|]. rewrite Hf in Ht. by apply elem_of_nil in Ht.
Qed.

Lemma dag_cuts :
  exists edges st g next, BreakCycles g0 [] CycleBreaker_new = Ret (edges, st)
    /\ CutEdges g0 edges = Ret (g, imap (cut_of g0 edges) edges)
    /\ cuttable g0 edges /\ acyclic (uncut g0 edges) /\ cut_state g0 edges g (imap (cut_of g0 edges) edges) next.
Proof.
  destruct (BreakCycles_spec g0 [] CycleBreaker_new built_graph_ok eq_refl built_no_skipped)
    as (edges & st & Hbreak & _ & Hedges & Hnd & Hac).
  assert (Hes : cuttable g0 edges) by (split; [done|]; intros [u v] He; by apply edge_link, Hedges).
  destruct (CutEdges_spec n p g0 B Hp edges Hes) as (g & cuts & next & Hcut & Hs).
  pose proof (ct_cuts _ _ _ _ _ Hs) as Hcuts. subst cuts. by exists edges, st, g, next.
Qed.

Lemma dag_checked edges g next :
  cuttable g0 edges -> cut_state g0 edges g (imap (cut_of g0 edges) edges) next -> CheckGraph g = Ret ().
Proof.
  intros Hes Hs. apply CheckGraph_ok. intros v x Hx. pose proof (lookup_lt_Some _ _ _ Hx) as Hlt.
  destruct (decide (v < length g0)%nat) as [Hv|Hv].
  - destruct (lookup_lt_is_Some_2 g0 v Hv) as [x0 Hx0]. destruct (ct_orig _ _ _ _ _ Hs v x0 Hx0) as (x' & sx & Hx' & _ & Ha).
    simplify_eq. rewrite Ha. by apply (fi_vertex _ _ _ B v).
  - rewrite (ct_length _ _ _ _ _ Hs) in Hlt. destruct (lookup_lt_is_Some_2 edges (v - length g0)) as [e He]; [lia|].
    destruct (ct_copy _ _ _ _ _ Hs _ e He) as (x' & Hx' & _ & Ht & _). replace (length g0 + (v - length g0))%nat with v in Hx' by lia.
    simplify_eq. by rewrite Ht.
Qed.

(** The scratch node is taken out, and no temporary block is left. *)
Lemma dag_end full_op cs cv done (s : Assignment (Blob := Blob)) :
  cuts_ok g0 cs -> plan p g0 cs full_op cv done (a_graph s) (op_indexes s) -> (forall c, c ∈ cs -> c ∈ done) ->
  table_ok (op_indexes s) (reverse_op_indexes s) ->
  exists g', ('(graph, final_order) ←
        match scratch with
        | None => Ret (a_graph s, op_indexes s)
        | Some v =>
            position ← of_option (reverse_op_indexes s !! v);
            _ ← of_option (op_indexes s !! position);
            _ ← of_option (a_graph s !! v);
            Ret (alter (set_valid false) v (a_graph s), delete position (op_indexes s))
        end;
      no_temp ← NoTempBlocksRemain graph;
      _ ← check_that no_temp;
      Ret (graph, a_blob s, final_order))
    = Ret (g', a_blob s, filter (fun v => Some v <> scratch) (op_indexes s))
    /\ (forall v, op_at g' v = op_at (a_graph s) v) /\ length g' = length (a_graph s).
Proof.
  intros K P Hall Ht. destruct scratch as [v|] eqn:Es.
  - pose proof (plan_op _ _ _ K _ _ _ _ _ v P (Hscratch v eq_refl)) as Hin. apply (pl_elem _ _ _ _ _ _ _ _ P) in Hin as Hlt.
    destruct Hlt as [Hlt _]. apply list_elem_of_lookup in Hin as [i Hi]. destruct (lookup_lt_is_Some_2 _ _ Hlt) as [x Hx].
    rewrite (Ht i v Hi). cbn [of_option]. rewrite outcome_bind_ret, Hi. cbn [of_option]. rewrite outcome_bind_ret, Hx. cbn [of_option].
    rewrite !outcome_bind_ret. rewrite (final_no_temp n p g0 B Hp cs K full_op cv done _ _ P Hall).
    + rewrite outcome_bind_ret. cbn [check_that]. rewrite outcome_bind_ret, (delete_filter _ i v) by (done || apply P).
      eexists. split; [done|]. split; [|apply length_alter]. intros u. unfold op_at. rewrite lookup_alter_graph.
      case_decide as E; [|done]. subst u. by rewrite Hx.
    + intros u x'. rewrite lookup_alter_graph. case_decide as E; [|eauto]. subst u. rewrite Hx. intros [= <-]. by exists x.
  - rewrite outcome_bind_ret, (final_no_temp n p g0 B Hp cs K full_op cv done _ _ P Hall), outcome_bind_ret by eauto.
    cbn [check_that]. rewrite outcome_bind_ret, filter_all by done. by eexists.
Qed.

Lemma writes_new_grow b b' bs op : grow b b' -> writes_new b bs op -> writes_new b' bs op.
Proof. intros Hg Hw c Hc. apply Hw. by etransitivity. Qed.

(** The order it returns updates the device. *)
Lemma ConvertGraphToDag_spec :
  exists g' blob' order, ConvertGraphToDag DeltaReadFile g0 blob0 scratch = Ret (g', blob', order)
    /\ grow blob0 blob'
    /\ (forall v, v ∈ order -> (v < length g')%nat)
    /\ (forall v b, (v < length g0)%nat -> Some v <> scratch -> b ∈ writes g0 v -> run (produce blob') (op_at g' <$> order) old b = new b)
    /\ (forall b, (forall v, (v < length g0)%nat -> b ∉ writes g0 v) -> run (produce blob') (op_at g' <$> order) old b = old b).
Proof.
  destruct dag_cuts as (edges & st & g & next & Hbreak & Hcut & Hes & Hac & Hs). set (cs := imap (cut_of g0 edges) edges) in *.
  destruct (start_order n p g0 B edges g cs next Hac Hs) as (out & l & Htopo & Hmove & Hperm & Hedge).
  pose proof (cuts_start n p g0 B Hp edges Hes) as K. pose proof (plan_start n p g0 B Hp edges Hes g next Hs (writes_new blob0) l Hperm Hedge) as P.
  assert (Hndl : NoDup l) by apply P.
  destruct (SortCutsByTopoOrder_spec l cs) as (cuts & Hsort & Hp' & Hgr); [done| |].
  { intros c Hc. apply (plan_op _ _ _ K _ _ _ _ _ _ P). by apply (cut_ends n p g0 B _ K). }
  set (s0 := mkAssignment g blob0 l (GenerateReverseTopoOrderMap l)).
  assert (Hs0 : assigned p g0 cs grow writes_new blob0 [] s0).
  { split; [by exists []|]. split; [|done]. intros i v. by apply GenerateReverseTopoOrderMap_spec. }
  assert (Hassign : exists s done, (if decide (cuts = []) then Ret s0 else AssignTempBlocks DeltaReadFile s0 cuts) = Ret s
    /\ assigned p g0 cs grow writes_new blob0 done s /\ forall c, c ∈ cs -> c ∈ done).
  { destruct (decide (cuts = [])) as [->|Hne]; [exists s0, []; split_and!; try done; intros c Hc; by rewrite <- Hp' in Hc|].
    destruct (AssignTempBlocks_spec n p g0 B Hp _ K DeltaReadFile grow writes_new writes_new_grow blob0 Hdelta s0 cuts) as (s & ? & ?); try done.
    { rewrite Hp'. apply cuts_NoDup. }
    exists s, (reverse cuts). split_and!; try done. intros c Hc. apply elem_of_reverse. by rewrite Hp'. }
  destruct Hassign as (s & done & Hassign & ([cv P'] & Ht & Hbl) & Hall).
  destruct (dag_end _ cs cv done s K P' Hall Ht) as (g' & Hend & Hop & Hlen).
  exists g', (a_blob s), (filter (fun v => Some v <> scratch) (op_indexes s)).
  assert (Hrun : op_at g' <$> filter (fun v => Some v <> scratch) (op_indexes s)
                 = op_at (a_graph s) <$> filter (fun v => Some v <> scratch) (op_indexes s)).
  { apply list_fmap_ext. intros. apply Hop. }
  rewrite Hrun. split_and!.
  - unfold ConvertGraphToDag. rewrite Hbreak, outcome_bind_ret, (CheckGraph_ok g0) by apply B. rewrite outcome_bind_ret, Hcut, outcome_bind_ret.
    rewrite (dag_checked edges g next Hes Hs), outcome_bind_ret, Htopo, outcome_bind_ret, Hmove, outcome_bind_ret, Hsort, outcome_bind_ret.
    fold s0. rewrite Hassign, outcome_bind_ret. exact Hend.
  - done.
  - intros v [_ Hv]%list_elem_of_filter. rewrite Hlen. by apply (pl_elem _ _ _ _ _ _ _ _ P').
  - intros v b. apply (final_written n p g0 B Hp cs K _ cv done _ _ P' Hall _ produce_src produce_move old new scratch Hscratch); [auto|].
    intros bs op Hw. by apply Hw.
  - intros b. apply (final_untouched n p g0 B Hp cs K _ cv done _ _ P' Hall _ produce_src produce_move old new scratch Hscratch); [auto|].
    intros bs op Hw. by apply Hw.
Qed.
End Dag.

(** ** The contract *)

Section Resolve.
Context {C Blob : Type} (produce : Blob -> InstallOperation -> list C -> list C) `{!forall b, Operations (produce b)}.
Context (grow : Blob -> Blob -> Prop) `{!PreOrder grow} (blob0 : Blob).
Context (DeltaReadFile : list Extent -> Blob -> outcome (list AnnotatedOperation * Blob)).
Context (old new : device C) (n : Z) (aops : list AnnotatedOperation).
Context `{!FullOperations produce new aops grow blob0 DeltaReadFile} (Hok : ops_ok n aops).
Context (Hops : forall b op, grow blob0 b -> op ∈ aops ->
  produce b op (old <$> ExpandExtents (src_extents op)) = new <$> ExpandExtents (dst_extents op)).

(** From the graph with or without a scratch node at its end. *)
Lemma resolve_dag p g1 blocks scratch :
  fine n p g1 -> blocks_of g1 n blocks -> 0 <= n <= p -> p < kTempBlockStart ->
  (forall v x, g1 !! v = Some x -> out_edges x = []) ->
  (forall v x, g1 !! v = Some x -> Some v <> scratch -> aops !! v = Some (aop x)) ->
  (forall v, scratch = Some v -> (v < length g1)%nat /\ reads g1 v = [] /\ forall b, b ∈ writes g1 v -> n <= b) ->
  (forall v op, aops !! v = Some op -> exists x, g1 !! v = Some x /\ aop x = op /\ Some v <> scratch) ->
  exists g0 g' blob' order, CreateEdges g1 blocks = Ret g0 /\ CheckGraph g0 = Ret ()
    /\ ConvertGraphToDag DeltaReadFile g0 blob0 scratch = Ret (g', blob', order)
    /\ grow blob0 blob' /\ (forall v, v ∈ order -> (v < length g')%nat)
    /\ forall b, b < n -> run (produce blob') (op_at g' <$> order) old b
         = if decide (b ∈ aops ≫= fun op => ExpandExtents (dst_extents op)) then new b else old b.
Proof.
  intros Hf Hb Hn Hp Hnone Hat Hscr Hcov.
  destruct (CreateEdges_spec g1 n blocks) as (g0 & Hce & E); [apply Hf|done|unfold kTempBlockStart, kSparseHole in *; lia|done|].
  pose proof (edges_upto_built n p g1 g0 Hf E) as B. pose proof (edges_upto_same _ _ _ E) as Hsame.
  assert (Hview : forall v x0, g0 !! v = Some x0 -> Some v <> scratch ->
    aops !! v = Some (aop x0) /\ reads g0 v = ExpandExtents (src_extents (aop x0)) /\ writes g0 v = ExpandExtents (dst_extents (aop x0))).
  { intros v x0 Hx0 Hs. destruct (eu_same _ _ _ E v x0 Hx0) as (x & Hx & -> & _). split; [by apply Hat|].
    destruct (Hsame v) as [-> ->]. unfold reads, writes. by rewrite Hx. }
  destruct (ConvertGraphToDag_spec n p g0 B (conj Hn Hp) produce grow blob0 DeltaReadFile old new scratch) 
    as (g' & blob' & order & Hdag & Hbl & Hlt & Hwr & Hun).
  - intros v Hs. rewrite (eu_length _ _ _ E). by apply Hscr.
  - intros bl v x0 Hbl Hx0 Hs. destruct (Hview v x0 Hx0 Hs) as (Ha & -> & ->). apply Hops; [done|]. by apply list_elem_of_lookup_2 in Ha.
  - intros v x0 bl Hbl Hx0 Hr. assert (Hs : Some v <> scratch).
    { intros Hs. destruct (Hscr v) as (_ & Hr' & _); [done|]. by rewrite (proj1 (Hsame v)) in Hr. }
    destruct (Hview v x0 Hx0 Hs) as (Ha & _ & ->). apply list_elem_of_lookup_2 in Ha.
    destruct (full_operation (aop x0) bl Hbl Ha) as (full & bl' & ? & ? & ? & ? & ? & ? & ? & ?). exists full, bl'. split_and!; try done.
  - exists g0, g', blob', order. split_and!; try done; [apply CheckGraph_ok; intros v x Hx; by apply (fi_vertex _ _ _ B v)|].
    intros b Hbn. case_decide as Hin.
    + apply list_elem_of_bind in Hin as (op & Hb' & Hop). apply list_elem_of_lookup in Hop as [v Hv].
      destruct (Hcov v op Hv) as (x & Hx & <- & Hs). apply lookup_lt_Some in Hx as Hvl. apply (Hwr v); [by rewrite (eu_length _ _ _ E)|done|].
      rewrite (proj2 (Hsame v)). unfold writes. by rewrite Hx.
    + apply Hun. intros v Hv Hbw. destruct (lookup_lt_is_Some_2 g0 v Hv) as [x0 Hx0].
      destruct (decide (Some v = scratch)) as [Hs|Hs].
      * destruct (Hscr v) as (_ & _ & Hw); [done|]. rewrite (proj2 (Hsame v)) in Hbw. apply Hw in Hbw. lia.
      * destruct (Hview v x0 Hx0 Hs) as (Ha & _ & Hw). apply Hin, list_elem_of_bind. exists (aop x0). rewrite <- Hw.
        split; [done|]. by apply list_elem_of_lookup_2 in Ha.
Qed.

Lemma op_vertex_at v x : (op_vertex <$> aops) !! v = Some x -> aops !! v = Some (aop x) /\ out_edges x = [].
Proof. rewrite list_lookup_fmap. intros (op & -> & ->)%fmap_Some. done. Qed.

Lemma collect_operations g order :
  (forall v, v ∈ order -> (v < length g)%nat) ->
  foldM (fun aops i => v ← of_option (g !! i); Ret (aops ++ [aop v])) order [] = Ret (op_at g <$> order).
Proof.
  intros Hlt. destruct (foldM_inv (fun aops i => v ← of_option (g !! i); Ret (aops ++ [aop v]))
    (fun done acc => acc = op_at g <$> done) order []) as (acc & -> & ->); [done| |done].
  intros done i todo acc Hl ->. destruct (lookup_lt_is_Some_2 g i) as [x Hx]; [apply Hlt; rewrite Hl; set_solver|].
  rewrite Hx. cbn [of_option]. rewrite outcome_bind_ret. eexists. split; [done|]. rewrite fmap_app. simpl. by replace (op_at g i) with (aop x) by (unfold op_at; by rewrite Hx).
Qed.

(** What the rest of the generator does with a graph. *)
Definition updates (g1 : Graph) (blocks : list Block) (scratch : option Index) : Prop :=
  exists g0 g' blob' order, CreateEdges g1 blocks = Ret g0 /\ CheckGraph g0 = Ret ()
    /\ ConvertGraphToDag DeltaReadFile g0 blob0 scratch = Ret (g', blob', order)
    /\ grow blob0 blob' /\ (forall v, v ∈ order -> (v < length g')%nat)
    /\ forall b, b < n -> run (produce blob') (op_at g' <$> order) old b
         = if decide (b ∈ aops ≫= fun op => ExpandExtents (dst_extents op)) then new b else old b.

Lemma without_scratch blocks :
  0 <= n < kTempBlockStart -> blocks_of (op_vertex <$> aops) n blocks -> updates (op_vertex <$> aops) blocks None.
Proof.
  intros Hn Hb. pose proof (ops_fine n n aops ltac:(lia) Hok) as Hf. apply (resolve_dag n); try done; try lia.
  - intros v x Hx. by apply op_vertex_at in Hx as [_ ?].
  - intros v x Hx _. by apply op_vertex_at in Hx as [? _].
  - intros v op Hv. exists (op_vertex op). by rewrite list_lookup_fmap, Hv.
Qed.

Lemma with_scratch q blocks :
  0 <= n < q -> q < kTempBlockStart -> blocks_of (op_vertex <$> aops) n blocks ->
  fine n q ((op_vertex <$> aops) ++ [scratch_node n q])
  /\ updates ((op_vertex <$> aops) ++ [scratch_node n q]) blocks (Some (length (op_vertex <$> aops))).
Proof.
  intros Hn Hq Hb. pose proof (ops_fine n n aops ltac:(lia) Hok) as Hf.
  pose proof (scratch_fine _ n q Hn Hq Hf) as Hfs. split; [done|].
  assert (Hlk : forall v x, ((op_vertex <$> aops) ++ [scratch_node n q]) !! v = Some x -> Some v <> Some (length (op_vertex <$> aops)) ->
    (op_vertex <$> aops) !! v = Some x).
  { intros v x Hx Hne. rewrite lookup_snoc_graph in Hx. case_decide as E; [by subst|done]. }
  apply (resolve_dag q); try done; try lia.
  - by apply scratch_blocks.
  - intros v x Hx. rewrite lookup_snoc_graph in Hx. case_decide; [by simplify_eq|]. by apply op_vertex_at in Hx as [_ ?].
  - intros v x Hx Hne. apply Hlk in Hx; [|done]. by apply op_vertex_at in Hx as [? _].
  - intros v [= <-]. destruct (scratch_views (op_vertex <$> aops) n q (length (op_vertex <$> aops)) Hn Hq) as [-> ->].
    rewrite decide_True by done. split_and!; [rewrite length_app; simpl; lia| |intros b ?%elem_of_seqZ; lia].
    unfold reads. by rewrite lookup_ge_None_2.
  - intros v op Hv. exists (op_vertex op). rewrite lookup_snoc_graph, length_fmap, list_lookup_fmap, Hv.
    apply lookup_lt_Some in Hv. rewrite decide_False by lia. split_and!; [done|done|]. intros [= ->]. lia.
Qed.

Lemma resolve_spec old_size new_size partition_size block_size :
  n = Z.max old_size new_size / block_size -> 0 <= n < kTempBlockStart -> partition_size / block_size < kTempBlockStart ->
  exists aops' blob',
    ResolveReadAfterWriteDependencies DeltaReadFile old_size new_size partition_size block_size blob0 aops = Ret (aops', blob')
    /\ grow blob0 blob' /\ forall b, b < n -> run (produce blob') aops' old b
         = if decide (b ∈ aops ≫= fun op => ExpandExtents (dst_extents op)) then new b else old b.
Proof.
  intros Hn Hn' Hq. unfold ResolveReadAfterWriteDependencies. rewrite <- Hn. set (q := partition_size / block_size) in *.
  destruct (add_operations_spec n aops) as (blocks & -> & Hblocks); [lia|done|]. rewrite outcome_bind_ret.
  pose proof (ops_fine n n aops ltac:(lia) Hok) as Hf.
  rewrite CheckGraph_ok, outcome_bind_ret by (intros v x Hx; by apply (fi_vertex _ _ _ Hf v)).
  assert (Hrest : forall g1 scratch, updates g1 blocks scratch -> (forall v x, g1 !! v = Some x -> is_Some (op_type (aop x))) ->
    exists aops' blob', (_ ← CheckGraph g1; graph ← CreateEdges g1 blocks; _ ← CheckGraph graph;
      '(graph, blob_file, final_order) ← ConvertGraphToDag DeltaReadFile graph blob0 scratch;
      aops ← foldM (fun aops i => v ← of_option (graph !! i); Ret (aops ++ [aop v])) final_order [];
      Ret (aops, blob_file)) = Ret (aops', blob') /\ grow blob0 blob'
    /\ forall b, b < n -> run (produce blob') aops' old b
         = if decide (b ∈ aops ≫= fun op => ExpandExtents (dst_extents op)) then new b else old b).
  { intros g1 scratch (g0 & g' & blob' & order & Hce & Hc & Hdag & Hgr & Hlt & Hrun) Hty.
    rewrite CheckGraph_ok, outcome_bind_ret, Hce, outcome_bind_ret, Hc, outcome_bind_ret, Hdag, outcome_bind_ret by done.
    rewrite collect_operations, outcome_bind_ret by done. eauto. }
  destruct (Z.ltb_spec n q) as [Hlt|Hge].
  - destruct (with_scratch q blocks ltac:(lia) Hq Hblocks) as [Hfs Hup]. apply Hrest; [done|].
    intros v x Hx. by apply (fi_vertex _ _ _ Hfs v).
  - apply Hrest; [by apply without_scratch|]. intros v x Hx. by apply (fi_vertex _ _ _ Hf v).
Qed.
End Resolve.

(** C6: On operations that make the new image from the old one, read no block
    twice and write no block twice, [ResolveReadAfterWriteDependencies]
    returns operations that can be run one after the other on the device that
    holds the old image: whatever the cycles between the operations, every
    block that one of them writes has its new content at the end, and every
    other block of the images is left as it was. *)
Theorem ResolveReadAfterWriteDependencies_updates {C Blob : Type} (produce : Blob -> InstallOperation -> list C -> list C)
    (grow : Blob -> Blob -> Prop) (blob : Blob) (DeltaReadFile : list Extent -> Blob -> outcome (list AnnotatedOperation * Blob))
    (old new : device C) (aops : list AnnotatedOperation) (old_size new_size partition_size block_size : Z) :
  (forall b, Operations (produce b)) -> PreOrder grow -> FullOperations produce new aops grow blob DeltaReadFile ->
  let n := Z.max old_size new_size / block_size in
  0 <= n < kTempBlockStart -> partition_size / block_size < kTempBlockStart -> ops_ok n aops ->
  (forall b op, grow blob b -> op ∈ aops ->
     produce b op (old <$> ExpandExtents (src_extents op)) = new <$> ExpandExtents (dst_extents op)) ->
  exists aops' blob',
    ResolveReadAfterWriteDependencies DeltaReadFile old_size new_size partition_size block_size blob aops = Ret (aops', blob')
    /\ grow blob blob' /\ forall b, b < n -> run (produce blob') aops' old b
         = if decide (b ∈ aops ≫= fun op => ExpandExtents (dst_extents op)) then new b else old b.
Proof. intros. by apply (resolve_spec produce grow blob DeltaReadFile old new n aops). Qed.

(** ** An example: two blocks change places *)

Definition copy_blocks (src dst : list Extent) : InstallOperation := mkOperation (Some MOVE) None None src None dst None None.

Definition swap_aops : list InstallOperation :=
  [copy_blocks [mkExtent 1 1] [mkExtent 0 1]; copy_blocks [mkExtent 0 1] [mkExtent 1 1]].

Definition swapped (b : Z) : Z := if b =? 0 then 1 else if b =? 1 then 0 else b.

Definition swap_produce (blob : ()) (op : InstallOperation) (xs : list Z) : list Z :=
  if decide (op_type op = Some MOVE) then xs else swapped <$> ExpandExtents (dst_extents op).

Definition swap_full (es : list Extent) (blob : ()) : outcome (list InstallOperation * ()) :=
  Ret ([mkOperation (Some REPLACE) None None [] None es None None], blob).

Lemma elem_of_swap op :
  op ∈ swap_aops -> op = copy_blocks [mkExtent 1 1] [mkExtent 0 1] \/ op = copy_blocks [mkExtent 0 1] [mkExtent 1 1].
Proof. unfold swap_aops. set_solver. Qed.

Lemma swap_ops_ok : ops_ok 2 swap_aops.
Proof.
  split.
  1-4: intros op [-> | ->]%elem_of_swap; repeat constructor; done.
  - intros op b [-> | ->]%elem_of_swap; vm_compute ExpandExtents; rewrite !elem_of_app, !list_elem_of_singleton; lia.
  - vm_compute. repeat constructor; set_solver.
  - vm_compute. repeat constructor; set_solver.
Qed.

Lemma ResolveReadAfterWriteDependencies_updates_witness :
  exists aops' blob',
    ResolveReadAfterWriteDependencies swap_full (2 * 4096) (2 * 4096) (3 * 4096) 4096 () swap_aops = Ret (aops', blob')
    /\ run (swap_produce blob') aops' id 0 = 1 /\ run (swap_produce blob') aops' id 1 = 0 /\ length aops' = 3%nat.
Proof.
  destruct (ResolveReadAfterWriteDependencies_updates swap_produce (fun _ _ => True) () swap_full id swapped swap_aops
    (2 * 4096) (2 * 4096) (3 * 4096) 4096) as (aops' & blob' & Heq & _ & Hrun).
  - intros b. split; [done|]. intros op xs Hop. unfold swap_produce. by rewrite decide_True.
  - by split.
  - split. intros op [] _ Hop. exists (mkOperation (Some REPLACE) None None [] None (dst_extents op) None None), ().
    split_and!; try done. exact (proj2 (oo_extents _ _ swap_ops_ok op Hop)).
  - done.
  - done.
  - apply swap_ops_ok.
  - by intros b op _ [-> | ->]%elem_of_swap.
  - exists aops', blob'. split; [done|]. rewrite !Hrun by done. split; [done|]. split; [done|].
    vm_compute in Heq. by injection Heq as <- _.
Defined.
