(* ===== verification/UpdateFile.v ===== *)
(** * UpdateFile: images and blobs as files of bytes

    update_engine/common/utils.cc, payload_consumer/file_descriptor.cc and
    payload_generator/blob_file_writer.cc.  A file is the list of its bytes.
    [pread] and [pwrite] belong to the kernel and may transfer less than asked
    for; [KernelOk] says that they do not fail and make progress, as POSIX
    documents for files.  The lemmas of this file show that the loops around
    them read and write exactly what they should, and relate a file to the
    blocks it consists of. *)
From S2P Require Import Prelude UpdateExtents UpdateViews UpdateInplace.

(** ** System calls *)

(** [pread file count offset] is the data read and [pwrite file buf offset]
    the number of bytes written; [None] is a result of -1. *)
Class Kernel := {
  pread : list Z -> Z -> Z -> option (list Z);
  pwrite : list Z -> list Z -> Z -> option Z;
}.

Class KernelOk `{Kernel} : Prop := {
  pread_ok : forall file count offset, 0 <= count -> 0 <= offset -> exists data,
    pread file count offset = Some data /\ data `prefix_of` slice file offset count
    /\ (slice file offset count <> [] -> data <> []);
  pwrite_ok : forall file buf offset, buf <> [] -> 0 <= offset -> exists n,
    pwrite file buf offset = Some n /\ 0 < n <= zlen buf;
}.

(** The file after [data] has been written at [offset]; a gap reads as zeros. *)
Definition write_at (file : list Z) (offset : Z) (data : list Z) : list Z :=
  take (Z.to_nat offset) (file ++ replicate (Z.to_nat (offset - zlen file)) 0)
  ++ data ++ drop (Z.to_nat (offset + zlen data)) file.

Section Utils.
Context `{Kernel}.

(** The loop of [PReadAll]; the bytes read so far are at the start of the buffer. *)
Fixpoint pread_loop (fuel : nat) (file : list Z) (count offset : Z) (buf : list Z) : outcome (list Z) :=
  if zlen buf <? count then
    match fuel with
    | O => Abort
    | S fuel =>
        match pread file (count - zlen buf) (offset + zlen buf) with
        | None => Fail
        | Some [] => Ret buf
        | Some data => pread_loop fuel file count offset (buf ++ data)
        end
    end
  else Ret buf.

(** The bytes read, of which there may be fewer than [count]. *)
Definition PReadAll (file : list Z) (count offset : Z) : outcome (list Z) :=
  pread_loop (Z.to_nat count) file count offset [].

(** The result and what has become of the file. *)
Fixpoint pwrite_loop (fuel : nat) (file buf : list Z) (offset bytes_written : Z) : outcome (bool * list Z) :=
  if bytes_written <? zlen buf then
    match fuel with
    | O => Abort
    | S fuel =>
        let rest := drop (Z.to_nat bytes_written) buf in
        match pwrite file rest (offset + bytes_written) with
        | None => Ret (false, file)
        | Some rc => pwrite_loop fuel (write_at file (offset + bytes_written) (take (Z.to_nat rc) rest)) buf offset
                       (bytes_written + rc)
        end
    end
  else Ret (true, file).

Definition PWriteAll (file buf : list Z) (offset : Z) : outcome (bool * list Z) :=
  pwrite_loop (length buf) file buf offset 0.

(** One extent of [ReadExtents], on the data read so far. *)
Definition read_extent (file : list Z) (out_data_size block_size : Z) (data : list Z) (extent : Extent) : outcome (list Z) :=
  let bytes := u64 (num_blocks extent * block_size) in
  _ ← guard_that (zlen data + bytes <=? out_data_size);
  more ← PReadAll file bytes (u64 (start_block extent * block_size));
  _ ← guard_that (zlen more =? bytes);
  Ret (data ++ more).

Definition ReadExtents (file : list Z) (extents : list Extent) (out_data_size block_size : Z) : outcome (list Z) :=
  data ← foldM (read_extent file out_data_size block_size) extents [];
  _ ← guard_that (out_data_size =? zlen data);
  Ret data.

(** ** The file of blobs *)

(** [BlobFileWriter]: the file and the number of bytes used in it. *)
Record BlobFileWriter := mkBlobFile { blob_fd : list Z; blob_file_size : Z }.

(** The offset of the blob, [None] for -1. *)
Definition StoreBlob (blob : list Z) (w : BlobFileWriter) : outcome (option Z * BlobFileWriter) :=
  r ← PWriteAll (blob_fd w) blob (blob_file_size w);
  if (fst r : bool) then Ret (Some (blob_file_size w), mkBlobFile (snd r) (blob_file_size w + zlen blob))
  else Ret (None, mkBlobFile (snd r) (blob_file_size w)).
End Utils.

(** ** Slices and writes *)

Lemma slice_app {A} (l : list A) i n m :
  0 <= i -> 0 <= n -> 0 <= m -> slice l i (n + m) = slice l i n ++ slice l (i + n) m.
Proof. intros. unfold slice. rewrite !Z2Nat.inj_add by lia. by rewrite <- drop_drop, take_take_drop. Qed.

Lemma slice_slice {A} (l : list A) i m j n : 0 <= i -> 0 <= j -> 0 <= n -> j + n <= m -> slice (slice l i m) j n = slice l (i + j) n.
Proof.
  intros Hi Hj Hn Hm. unfold slice. rewrite skipn_firstn_comm, take_take, drop_drop. f_equal; [lia|]. f_equal. lia.
Qed.

Lemma slice_prefix {A} (l data : list A) i n :
  0 <= n -> data `prefix_of` slice l i n -> data = slice l i (zlen data) /\ zlen data <= n.
Proof.
  intros Hn [k Hk]. unfold slice, zlen in *.
  assert (length data <= Z.to_nat n)%nat.
  { apply (f_equal length) in Hk. rewrite length_take, length_app in Hk. lia. }
  split; [|lia]. rewrite Nat2Z.id. replace (length data) with (length data `min` Z.to_nat n)%nat by lia.
  by rewrite <- take_take, Hk, take_app_length.
Qed.

Lemma zlen_take {A} (l : list A) n : 0 <= n <= zlen l -> zlen (take (Z.to_nat n) l) = n.
Proof. unfold zlen. rewrite length_take. lia. Qed.

Lemma zlen_drop {A} (l : list A) n : 0 <= n <= zlen l -> zlen (drop (Z.to_nat n) l) = zlen l - n.
Proof. unfold zlen. rewrite length_drop. lia. Qed.

Lemma write_at_nil f o : 0 <= o <= zlen f -> write_at f o [] = f.
Proof.
  intros Ho. unfold write_at. replace (Z.to_nat (o - zlen f)) with O by lia. rewrite app_nil_r. simpl.
  replace (o + zlen []) with o by (unfold zlen; simpl; lia). apply take_drop.
Qed.

(** Inside the file there is no gap. *)
Lemma write_at_in f o data :
  0 <= o <= zlen f -> write_at f o data = take (Z.to_nat o) f ++ data ++ drop (Z.to_nat (o + zlen data)) f.
Proof. intros Ho. unfold write_at. replace (Z.to_nat (o - zlen f)) with O by lia. by rewrite app_nil_r. Qed.

Lemma zlen_write f o data : 0 <= o <= zlen f -> zlen (write_at f o data) = Z.max (zlen f) (o + zlen data).
Proof.
  intros Ho. rewrite write_at_in by done. unfold zlen in *. rewrite !length_app, length_take, length_drop. lia.
Qed.

Lemma write_at_app f o a b :
  0 <= o <= zlen f -> write_at f o (a ++ b) = write_at (write_at f o a) (o + zlen a) b.
Proof.
  intros Ho. pose proof (zlen_nonneg a). pose proof (zlen_nonneg b).
  rewrite (write_at_in (write_at f o a)) by (rewrite zlen_write; lia). rewrite !write_at_in by done.
  assert (Hoa : length (take (Z.to_nat o) f ++ a) = Z.to_nat (o + zlen a)).
  { rewrite length_app, length_take. unfold zlen in *. lia. }
  rewrite (app_assoc (take _ f) a), take_app_length', drop_app_ge, Hoa by lia.
  rewrite <- !app_assoc, drop_drop, zlen_app. do 4 f_equal. lia.
Qed.

Lemma slice_write_same f o data : 0 <= o <= zlen f -> slice (write_at f o data) o (zlen data) = data.
Proof.
  intros Ho. rewrite write_at_in by done. unfold slice. rewrite drop_app_length' by (rewrite length_take; unfold zlen in *; lia).
  unfold zlen. by rewrite Nat2Z.id, take_app_length.
Qed.

Lemma slice_write_before f o data i n :
  0 <= o <= zlen f -> 0 <= i -> 0 <= n -> i + n <= o -> slice (write_at f o data) i n = slice f i n.
Proof.
  intros. rewrite write_at_in by done. unfold slice. rewrite !take_drop_commute.
  f_equal. rewrite take_app_le by (rewrite length_take; unfold zlen in *; lia). rewrite take_take. f_equal. lia.
Qed.

Lemma slice_write_after f o data i n :
  0 <= o <= zlen f -> 0 <= n -> o + zlen data <= i -> slice (write_at f o data) i n = slice f i n.
Proof.
  intros. pose proof (zlen_nonneg data). rewrite write_at_in by done. unfold slice. f_equal.
  assert (Hl : length (take (Z.to_nat o) f ++ data) = Z.to_nat (o + zlen data)).
  { rewrite length_app, length_take. unfold zlen in *. lia. }
  rewrite app_assoc, drop_app_ge, Hl, drop_drop by (rewrite Hl; lia). f_equal. lia.
Qed.

(** ** What the loops do *)

(** Block [b] of a file. *)
Definition block_of (f : list Z) (b : Z) : list Z := slice f (b * kBlockSize) kBlockSize.

Section Loops.
Context `{KernelOk}.

Lemma pread_loop_spec fuel f count offset buf :
  0 <= offset -> buf = slice f offset (zlen buf) -> zlen buf <= count -> count - zlen buf <= Z.of_nat fuel ->
  pread_loop fuel f count offset buf = Ret (slice f offset count).
Proof.
  revert buf. induction fuel as [|fuel IH]; intros buf Ho Hb Hc Hf; simpl; pose proof (zlen_nonneg buf);
    (destruct (Z.ltb_spec (zlen buf) count); [|by replace count with (zlen buf) by lia; f_equal]); [lia|].
  destruct (pread_ok f (count - zlen buf) (offset + zlen buf)) as (data & -> & Hp & Hne); [lia..|].
  destruct (slice_prefix f data (offset + zlen buf) (count - zlen buf) ltac:(lia) Hp) as [Hd Hl].
  destruct data as [|d data].
  - f_equal. replace count with (zlen buf + (count - zlen buf)) by lia. rewrite slice_app, <- Hb by lia.
    destruct (slice f (offset + zlen buf) (count - zlen buf)); [by rewrite app_nil_r|by destruct Hne].
  - pose proof (zlen_nonneg data). rewrite zlen_cons in Hl. apply IH; rewrite ?zlen_app, ?zlen_cons; try lia.
    rewrite slice_app, <- Hb by lia. rewrite <- zlen_cons with (x := d), <- Hd. done.
Qed.

Lemma PReadAll_spec f count offset :
  0 <= count -> 0 <= offset -> PReadAll f count offset = Ret (slice f offset count).
Proof. intros. apply pread_loop_spec; unfold zlen; simpl; [done..|lia|lia]. Qed.

Lemma pwrite_loop_spec fuel f buf offset n :
  0 <= offset <= zlen f -> 0 <= n <= zlen buf -> zlen buf - n <= Z.of_nat fuel ->
  pwrite_loop fuel (write_at f offset (take (Z.to_nat n) buf)) buf offset n = Ret (true, write_at f offset buf).
Proof.
  revert n. induction fuel as [|fuel IH]; intros n Ho Hn Hf; simpl;
    (destruct (Z.ltb_spec n (zlen buf)); [|by rewrite take_ge by (unfold zlen in *; lia)]); [lia|].
  set (rest := drop (Z.to_nat n) buf). assert (Hr : zlen rest = zlen buf - n) by (by apply zlen_drop).
  destruct (pwrite_ok (write_at f offset (take (Z.to_nat n) buf)) rest (offset + n)) as (rc & -> & Hrc).
  { intros E. rewrite E in Hr. unfold zlen in Hr at 1. simpl in Hr. lia. }
  { lia. }
  rewrite <- (zlen_take buf n) at 2 by done. rewrite <- write_at_app by done.
  unfold rest. rewrite take_take_drop, <- Z2Nat.inj_add by lia. apply IH; lia.
Qed.

Lemma PWriteAll_spec f buf offset :
  0 <= offset <= zlen f -> PWriteAll f buf offset = Ret (true, write_at f offset buf).
Proof.
  intros. unfold PWriteAll. rewrite <- (write_at_nil f offset) at 1 by done.
  apply (pwrite_loop_spec _ f buf offset 0); unfold zlen in *; lia.
Qed.

(** ** Files as blocks *)

Lemma zlen_block f b : 0 <= b -> (b + 1) * kBlockSize <= zlen f -> zlen (block_of f b) = kBlockSize.
Proof. intros. apply zlen_slice; unfold kBlockSize in *; lia. Qed.

Lemma slice_blocks f b n :
  0 <= b -> 0 <= n -> slice f (b * kBlockSize) (n * kBlockSize) = concat (block_of f <$> seqZ b n).
Proof.
  intros Hb Hn. revert b Hb. pattern n. apply natlike_ind; [..|done]; clear n Hn.
  { intros b _. unfold slice. simpl. done. }
  intros n Hn IH b Hb. rewrite seqZ_cons by lia. cbn [fmap list_fmap concat].
  replace (Z.succ n * kBlockSize) with (kBlockSize + n * kBlockSize) by (unfold kBlockSize; lia).
  rewrite slice_app by (unfold kBlockSize; lia). unfold block_of at 1. f_equal.
  replace (b * kBlockSize + kBlockSize) with (Z.succ b * kBlockSize) by (unfold kBlockSize; lia).
  replace (Z.pred (Z.succ n)) with n by lia. apply IH. lia.
Qed.

Lemma read_extent_spec f e data size :
  extent_ok e -> (start_block e + num_blocks e) * kBlockSize <= zlen f -> zlen f < 2 ^ 63 ->
  zlen data + num_blocks e * kBlockSize <= size ->
  read_extent f size kBlockSize data e = Ret (data ++ concat (block_of f <$> expand e)).
Proof.
  intros He Hf Hl Hs. unfold read_extent. unfold extent_ok in He.
  rewrite !(uint_small 64) by (unfold is_uint, kBlockSize in *; lia).
  rewrite (proj2 (Z.leb_le _ _)) by lia. rewrite PReadAll_spec by (unfold kBlockSize; lia). simpl.
  rewrite expand_ok by done. rewrite slice_blocks by lia.
  rewrite <- slice_blocks, zlen_slice, Z.eqb_refl by (unfold kBlockSize in *; lia). done.
Qed.

Lemma ReadExtents_spec f es :
  Forall extent_ok es -> Forall (fun e => (start_block e + num_blocks e) * kBlockSize <= zlen f) es -> zlen f < 2 ^ 63 ->
  ReadExtents f es (total es * kBlockSize) kBlockSize = Ret (concat (block_of f <$> ExpandExtents es)).
Proof.
  intros Hes Hf Hl. unfold ReadExtents.
  assert (Hgen : forall es data size, Forall extent_ok es ->
    Forall (fun e => (start_block e + num_blocks e) * kBlockSize <= zlen f) es ->
    size = zlen data + total es * kBlockSize ->
    foldM (read_extent f size kBlockSize) es data = Ret (data ++ concat (block_of f <$> ExpandExtents es))
    /\ size = zlen (data ++ concat (block_of f <$> ExpandExtents es))).
  { clear es Hes Hf. intros es. induction es as [|e es IH]; intros data size Hes Hf Hs.
    { simpl in *. rewrite app_nil_r. split; [done|lia]. }
    apply Forall_cons in Hes as [He Hes]. apply Forall_cons in Hf as [Hfe Hf]. pose proof (total_nonneg es Hes).
    change (total (e :: es)) with (num_blocks e + total es) in Hs.
    cbn [foldM]. rewrite read_extent_spec by (done || unfold kBlockSize in *; lia). rewrite outcome_bind_ret.
    rewrite ExpandExtents_cons, fmap_app, concat_app, (app_assoc data). apply IH; try done.
    unfold extent_ok in He. rewrite zlen_app, expand_ok by done. rewrite <- slice_blocks, zlen_slice by (unfold kBlockSize in *; lia).
    lia. }
  destruct (Hgen es [] (total es * kBlockSize)) as [-> Hs]; [done..|]. rewrite outcome_bind_ret.
  by rewrite <- Hs, Z.eqb_refl.
Qed.
End Loops.

(** A kernel that transfers one byte at a time. *)
Definition slow_kernel : Kernel := {|
  pread file count offset := Some (slice file offset (Z.min count 1));
  pwrite file buf offset := Some (Z.min (zlen buf) 1);
|}.

Lemma slow_kernel_ok : @KernelOk slow_kernel.
Proof.
  split.
  - intros file count offset Hc Ho. eexists. split; [done|]. unfold slice.
    replace (Z.to_nat (Z.min count 1)) with (Z.to_nat 1 `min` Z.to_nat count)%nat by lia. rewrite <- take_take.
    split; [apply prefix_take|]. by destruct (take (Z.to_nat count) _).
  - intros file buf offset Hb _. eexists. split; [done|]. destruct buf; [done|]. rewrite zlen_cons.
    pose proof (zlen_nonneg buf). lia.
Qed.
