(* ===== verification/UpdateBlocks.v ===== *)
(** * UpdateBlocks: numbering the blocks of two images by their content

    update_engine/payload_generator/block_mapping.{h,cc}.  [BlockMapping] gives
    equal blocks the same number.  It keeps a bucket of distinct blocks for
    every value of a hash function, reads a block again from its file to
    compare it, and caches the data of a block it has read often.  The theorem:
    whatever the hash function, two blocks have the same number exactly if
    their contents are equal, and the number 0 is that of zeros. *)
From S2P Require Import Prelude UpdateExtents UpdateInplace UpdateFile.

(** [std::hash<string>] *)
Class BlockHash := HashValue : list Z -> Z.

(** [fd] is the file that holds the block, [None] for -1. *)
Record UniqueBlock := mkUnique {
  block_data : list Z;
  block_id : Z;
  fd : option (list Z);
  byte_offset : Z;
  times_read : Z;
}.

Record BlockMapping := mkMapping {
  block_size_ : Z;
  used_block_ids : Z;
  mapping_ : gmap Z (list UniqueBlock);
}.

Definition BlockMapping_new (block_size : Z) : BlockMapping := mkMapping block_size 0 ∅.

Section Mapping.
Context `{Kernel} `{BlockHash}.

(** Whether the data are equal, [None] on an error, and the block, which may be cached now. *)
Definition CompareData (other_block : list Z) (u : UniqueBlock) : outcome (option bool * UniqueBlock) :=
  if negb (bool_decide (block_data u = [])) then Ret (Some (bool_decide (block_data u = other_block)), u) else
  match fd u with
  | None => Ret (None, u)
  | Some file =>
      match PReadAll file (zlen other_block) (byte_offset u) with
      | Abort => Abort
      | Fail => Ret (None, u)
      | Ret blob =>
          if negb (zlen blob =? zlen other_block) then Ret (None, u) else
          let times := times_read u + 1 in
          Ret (Some (bool_decide (blob = other_block)),
               mkUnique (if 3 <? times then blob else []) (block_id u) (fd u) (byte_offset u) times)
      end
  end.

(** The loop over a bucket: the id of the block if it is there, [None] on an error. *)
Fixpoint scan_bucket (data : list Z) (bucket : list UniqueBlock) : outcome (option (option Z) * list UniqueBlock) :=
  match bucket with
  | [] => Ret (Some None, [])
  | u :: bucket =>
      r ← CompareData data u;
      let '(equals, u) := r in
      match equals with
      | None => Ret (None, u :: bucket)
      | Some true => Ret (Some (Some (block_id u)), u :: bucket)
      | Some false => r ← scan_bucket data bucket; Ret (fst r, u :: snd r)
      end
  end.

(** [AddBlock(fd, byte_offset, block_data)]: the id, -1 on an error. *)
Definition AddBlock_at (f : option (list Z)) (offset : Z) (data : list Z) (m : BlockMapping)
    : outcome (Z * BlockMapping) :=
  if negb (zlen data =? block_size_ m) then Ret (-1, m) else
  let h := HashValue data in
  r ← scan_bucket data (default [] (mapping_ m !! h));
  let '(found, bucket) := r in
  match found with
  | None => Ret (-1, mkMapping (block_size_ m) (used_block_ids m) (<[h := bucket]> (mapping_ m)))
  | Some (Some id) => Ret (id, mkMapping (block_size_ m) (used_block_ids m) (<[h := bucket]> (mapping_ m)))
  | Some None =>
      let cached := if bool_decide (f = None) then data else [] in
      let u := mkUnique cached (used_block_ids m) f offset 1 in
      Ret (used_block_ids m,
           mkMapping (block_size_ m) (used_block_ids m + 1) (<[h := bucket ++ [u]]> (mapping_ m)))
  end.

Definition AddBlock (data : list Z) (m : BlockMapping) : outcome (Z * BlockMapping) := AddBlock_at None 0 data m.

Definition AddDiskBlock (file : list Z) (offset : Z) (m : BlockMapping) : outcome (Z * BlockMapping) :=
  match PReadAll file (block_size_ m) offset with
  | Abort => Abort
  | Fail => Ret (-1, m)
  | Ret blob => if negb (zlen blob =? block_size_ m) then Ret (-1, m) else AddBlock_at (Some file) offset blob m
  end.

(** The result, the ids and the mapping. *)
Definition AddManyDiskBlocks (file : list Z) (initial_byte_offset num_blocks : Z) (m : BlockMapping)
    : outcome (bool * list Z * BlockMapping) :=
  foldM (fun s block =>
      let '(ret, ids, m) := s in
      r ← AddDiskBlock file (initial_byte_offset + block * block_size_ m) m;
      Ret (ret && negb (fst r =? -1), ids ++ [fst r], snd r))
    (seqZ 0 num_blocks) (true, [], m).

Definition MapPartitionBlocks (old_part new_part : list Z) (old_size new_size block_size : Z)
    : outcome (list Z * list Z) :=
  r ← AddBlock (replicate (Z.to_nat block_size) 0) (BlockMapping_new block_size);
  let '(zero_id, m) := r in
  _ ← guard_that (zero_id =? 0);
  r ← AddManyDiskBlocks old_part 0 (old_size / block_size) m;
  let '(ok, old_block_ids, m) := r in
  _ ← guard_that ok;
  r ← AddManyDiskBlocks new_part 0 (new_size / block_size) m;
  let '(ok, new_block_ids, m) := r in
  _ ← guard_that ok;
  Ret (old_block_ids, new_block_ids).
End Mapping.

(** ** The invariant *)

(** [seen] are the distinct blocks in the order of their ids. *)
Section Invariant.
Context `{KernelOk} `{BlockHash}.
Context (size : Z) (Hsize : 0 < size).

(** The data a block stands for, wherever they are kept. *)
Definition unique_ok (seen : list (list Z)) (u : UniqueBlock) : Prop :=
  0 <= block_id u /\ exists data, seen !! Z.to_nat (block_id u) = Some data
    /\ (block_data u = data
        \/ block_data u = [] /\ exists file, fd u = Some file /\ 0 <= byte_offset u /\ slice file (byte_offset u) size = data).

Record mapping_ok (seen : list (list Z)) (m : BlockMapping) : Prop := {
  mo_size : block_size_ m = size;
  mo_used : used_block_ids m = zlen seen;
  mo_data : Forall (fun data => zlen data = size) seen;
  mo_distinct : NoDup seen;
  mo_buckets : forall h u, u ∈ default [] (mapping_ m !! h) -> unique_ok seen u;
  mo_found : forall i data, seen !! i = Some data -> exists u,
    u ∈ default [] (mapping_ m !! HashValue data) /\ block_id u = Z.of_nat i;
}.

Lemma CompareData_spec seen u data :
  unique_ok seen u -> Forall (fun data => zlen data = size) seen -> zlen data = size ->
  exists u', CompareData data u = Ret (Some (bool_decide (seen !! Z.to_nat (block_id u) = Some data)), u')
    /\ unique_ok seen u' /\ block_id u' = block_id u.
Proof.
  intros (Hid & d & Hd & Hu) Hall Hl. unfold CompareData. rewrite Hd.
  assert (Hld : zlen d = size) by (rewrite Forall_lookup in Hall; eauto).
  assert (Hne : d <> []) by (intros ->; unfold zlen in *; simpl in *; lia).
  assert (Hb : bool_decide (Some d = Some data) = bool_decide (d = data)) by (apply bool_decide_ext; naive_solver).
  destruct Hu as [Hu|(Hu & file & Hfd & Ho & Hs)].
  - rewrite Hu, (bool_decide_false _ Hne). simpl. exists u. rewrite Hb. split_and!; [done| |done]. split; [done|]. eauto.
  - rewrite Hu, (bool_decide_true ([] = [])) by done. simpl. rewrite Hfd, PReadAll_spec by lia. rewrite Hl, Hs, Hld, Z.eqb_refl. simpl.
    eexists. rewrite Hb. split_and!; [done| |done]. split; [done|]. exists d. split; [done|]. simpl.
    destruct (3 <? times_read u + 1); [by left|right]. split; [done|]. eauto.
Qed.

Lemma scan_bucket_spec seen bucket data :
  (forall u, u ∈ bucket -> unique_ok seen u) -> Forall (fun data => zlen data = size) seen -> zlen data = size ->
  exists found bucket', scan_bucket data bucket = Ret (Some found, bucket')
    /\ (forall u, u ∈ bucket' -> unique_ok seen u) /\ block_id <$> bucket' = block_id <$> bucket
    /\ match found with
       | Some id => seen !! Z.to_nat id = Some data /\ 0 <= id
       | None => forall u, u ∈ bucket -> seen !! Z.to_nat (block_id u) <> Some data
       end.
Proof.
  intros Hb Hall Hl. induction bucket as [|u bucket IH]; simpl.
  { exists None, []. split_and!; [done|set_solver|done|set_solver]. }
  destruct (CompareData_spec seen u data) as (u' & -> & Hu' & Hid); [apply Hb; set_solver|done..|].
  rewrite outcome_bind_ret. cbv beta iota zeta.
  destruct (decide (seen !! Z.to_nat (block_id u) = Some data)) as [E|E].
  - rewrite bool_decide_true by done. exists (Some (block_id u')), (u' :: bucket). split_and!; [done| | |by rewrite Hid|apply Hu'].
    + intros w [->|Hw]%elem_of_cons; [done|]. apply Hb. set_solver.
    + simpl. by rewrite Hid.
  - rewrite bool_decide_false by done. destruct IH as (found & bucket' & -> & Hb' & Hids & Hf); [set_solver|].
    exists found, (u' :: bucket'). split_and!; [done| |by rewrite !fmap_cons, Hid, Hids|].
    + intros w [->|Hw]%elem_of_cons; auto.
    + destruct found; [done|]. intros w [->|Hw]%elem_of_cons; auto.
Qed.

(** Where the data of a new block can be read again. *)
Definition stored_at (f : option (list Z)) (offset : Z) (data : list Z) : Prop :=
  match f with None => True | Some file => 0 <= offset /\ slice file offset size = data end.

Lemma unique_ok_app seen data u : unique_ok seen u -> unique_ok (seen ++ [data]) u.
Proof. intros (? & d & Hd & Hu). split; [done|]. exists d. split; [|done]. by apply lookup_app_l_Some. Qed.

Lemma default_insert (m : gmap Z (list UniqueBlock)) h b h' :
  default [] (<[h := b]> m !! h') = if decide (h' = h) then b else default [] (m !! h').
Proof. case_decide; subst; [by rewrite lookup_insert_eq|by rewrite lookup_insert_ne]. Qed.

(** The same blocks, some of them cached. *)
Lemma mapping_ok_cached seen m h bucket' :
  mapping_ok seen m -> (forall u, u ∈ bucket' -> unique_ok seen u) ->
  block_id <$> bucket' = block_id <$> default [] (mapping_ m !! h) ->
  mapping_ok seen (mkMapping (block_size_ m) (used_block_ids m) (<[h := bucket']> (mapping_ m))).
Proof.
  intros [? ? ? ? Hb Hf] Hb' Hids. split; simpl; try done.
  - intros h' u. rewrite default_insert. case_decide; eauto.
  - intros i d Hd. rewrite default_insert. destruct (Hf i d Hd) as (u & Hu & Hi). case_decide as E; [|eauto].
    rewrite E in Hu. apply (list_elem_of_fmap_2 block_id) in Hu. rewrite <- Hids in Hu.
    apply list_elem_of_fmap in Hu as (u' & Hu & Hu'). exists u'. split; [done|]. congruence.
Qed.

Lemma mapping_ok_new seen m f offset data :
  let h := HashValue data in
  mapping_ok seen m -> zlen data = size -> data ∉ seen -> stored_at f offset data ->
  let u := mkUnique (if bool_decide (f = None) then data else []) (used_block_ids m) f offset 1 in
  mapping_ok (seen ++ [data]) (mkMapping (block_size_ m) (used_block_ids m + 1)
                                 (<[h := default [] (mapping_ m !! h) ++ [u]]> (mapping_ m))).
Proof.
  intros h [Hs Hn Hl Hd Hb Hf] Hld Hnew Hat u.
  assert (Hu : unique_ok (seen ++ [data]) u).
  { split; simpl; [rewrite Hn; apply zlen_nonneg|]. exists data. split.
    { unfold zlen in Hn. rewrite Hn, Nat2Z.id. by rewrite list_lookup_middle. }
    destruct f as [file|]; [right|left; done]. split; [done|]. exists file. destruct Hat. done. }
  split; simpl; try done.
  - rewrite Hn, zlen_app. done.
  - apply Forall_app. auto.
  - apply NoDup_app. split_and!; [done| |apply NoDup_singleton]. intros d ? ->%list_elem_of_singleton. done.
  - intros h' w. rewrite default_insert. case_decide as E.
    + rewrite elem_of_app, list_elem_of_singleton. intros [Hw| ->]; [|done]. by apply unique_ok_app, (Hb h).
    + intros Hw. by apply unique_ok_app, (Hb h').
  - intros i d [Hi|(Hi & Hx)]%lookup_app_Some.
    + destruct (Hf i d Hi) as (w & Hw & Hid). exists w. split; [|done]. rewrite default_insert. case_decide as E; [|done].
      rewrite elem_of_app. left. by rewrite <- E.
    + apply list_lookup_singleton_Some in Hx as [Hi0 ->]. exists u. rewrite default_insert, decide_True by done.
      rewrite elem_of_app, list_elem_of_singleton. split; [by right|]. simpl. rewrite Hn. unfold zlen. lia.
Qed.

Lemma AddBlock_at_spec seen m f offset data :
  mapping_ok seen m -> zlen data = size -> stored_at f offset data ->
  exists id m' seen', AddBlock_at f offset data m = Ret (id, m') /\ mapping_ok seen' m' /\ seen `prefix_of` seen'
    /\ 0 <= id /\ seen' !! Z.to_nat id = Some data.
Proof.
  intros Hm Hl Hat. pose proof Hm as [Hs Hn Hall Hd Hb Hf]. unfold AddBlock_at. rewrite Hl, Hs, Z.eqb_refl. simpl.
  destruct (scan_bucket_spec seen (default [] (mapping_ m !! HashValue data)) data) as (found & bucket' & -> & Hb' & Hids & Hfound);
    [eauto|done..|].
  rewrite outcome_bind_ret. destruct found as [id|].
  - destruct Hfound. do 2 eexists. exists seen. split; [done|]. split_and!; [|done..].
    rewrite <- Hs. by apply mapping_ok_cached.
  - do 2 eexists. exists (seen ++ [data]). split; [done|].
    assert (Hnew : data ∉ seen).
    { intros [i Hi]%list_elem_of_lookup. destruct (Hf i data Hi) as (u & Hu & Hid). apply (Hfound u Hu). by rewrite Hid, Nat2Z.id. }
    split_and!.
    + pose proof (mapping_ok_cached seen m _ _ Hm Hb' Hids) as Hm'.
      pose proof (mapping_ok_new seen _ f offset data Hm' Hl Hnew Hat) as Hx. simpl in Hx.
      rewrite lookup_insert_eq, insert_insert_eq in Hx. by rewrite <- Hs.
    + by eexists.
    + rewrite Hn. apply zlen_nonneg.
    + unfold zlen in Hn. rewrite Hn, Nat2Z.id. by rewrite list_lookup_middle.
Qed.

(** The ids of the first blocks of a file. *)
Definition numbers (seen : list (list Z)) (file : list Z) (bs ids : list Z) : Prop :=
  Forall2 (fun b id => 0 <= id /\ seen !! Z.to_nat id = Some (slice file (b * size) size)) bs ids.

Lemma numbers_more seen seen' file bs ids : seen `prefix_of` seen' -> numbers seen file bs ids -> numbers seen' file bs ids.
Proof.
  intros Hp Hn. eapply Forall2_impl; [exact Hn|]. intros b id [? Hs]. split; [done|]. by eapply prefix_lookup_Some.
Qed.

Lemma AddManyDiskBlocks_spec seen m file n :
  mapping_ok seen m -> 0 <= n -> n * size <= zlen file ->
  exists ids m' seen', AddManyDiskBlocks file 0 n m = Ret (true, ids, m') /\ mapping_ok seen' m' /\ seen `prefix_of` seen'
    /\ numbers seen' file (seqZ 0 n) ids.
Proof.
  intros Hm Hn Hf. unfold AddManyDiskBlocks.
  match goal with |- context [foldM ?body _ _] => set (f := body) end.
  destruct (foldM_inv f (fun bs s => exists ids m' seen', s = (true, ids, m') /\ mapping_ok seen' m' /\ seen `prefix_of` seen'
      /\ numbers seen' file bs ids) (seqZ 0 n) (true, [], m)) as (s & -> & ids & m' & seen' & -> & ?).
  - exists [], m, seen. split_and!; [done..|constructor].
  - intros bs b todo s Hbs (ids & m' & seen' & -> & Hm' & Hp & Hnum). unfold f, AddDiskBlock. rewrite Z.add_0_l, (mo_size _ _ Hm').
    assert (Hb : 0 <= b < n).
    { assert (b ∈ seqZ 0 n) as Hin by (rewrite Hbs; set_solver). apply elem_of_seqZ in Hin. lia. }
    rewrite PReadAll_spec by nia. rewrite zlen_slice, Z.eqb_refl by nia. simpl.
    destruct (AddBlock_at_spec seen' m' (Some file) (b * size) (slice file (b * size) size) Hm') as (id & m2 & seen2 & -> & Hm2 & Hp2 & Hid & Hs);
      [apply zlen_slice; nia|simpl; split; [nia|done]|].
    rewrite outcome_bind_ret. eexists. split; [done|]. exists (ids ++ [id]), m2, seen2. simpl.
    rewrite (proj2 (Z.eqb_neq id (-1))) by lia. split_and!; [done..|by etrans|].
    apply Forall2_app; [by eapply numbers_more|]. by repeat constructor.
  - by exists ids, m', seen'.
Qed.
End Invariant.

Section Numbering.
Context `{KernelOk} `{BlockHash}.

Lemma MapPartitionBlocks_spec size old_part new_part old_size new_size :
  0 < size -> 0 <= old_size <= zlen old_part -> 0 <= new_size <= zlen new_part ->
  exists old_ids new_ids seen, MapPartitionBlocks old_part new_part old_size new_size size = Ret (old_ids, new_ids)
    /\ NoDup seen /\ seen !! 0%nat = Some (replicate (Z.to_nat size) 0)
    /\ numbers size seen old_part (seqZ 0 (old_size / size)) old_ids
    /\ numbers size seen new_part (seqZ 0 (new_size / size)) new_ids.
Proof.
  intros Hs Ho Hn. unfold MapPartitionBlocks.
  assert (Hm0 : mapping_ok size [] (BlockMapping_new size)).
  { split; try done; [constructor|]. intros h u. simpl. rewrite lookup_empty. set_solver. }
  assert (Hlz : zlen (replicate (Z.to_nat size) 0) = size) by (unfold zlen; rewrite length_replicate; lia).
  destruct (AddBlock_at_spec size Hs [] _ None 0 (replicate (Z.to_nat size) 0) Hm0) as (id & m1 & seen1 & Ha & Hm1 & _ & Hid & Hz);
    [done|done|].
  assert (Hid0 : id = 0).
  { unfold AddBlock_at in Ha. cbn [BlockMapping_new block_size_ mapping_ used_block_ids] in Ha.
    rewrite Hlz, Z.eqb_refl, lookup_empty in Ha. simpl in Ha. congruence. }
  unfold AddBlock. rewrite Ha, outcome_bind_ret, Hid0. cbn [fst snd]. rewrite Hid0 in Hz.
  assert (Hdiv : forall x, 0 <= x -> 0 <= x / size /\ x / size * size <= x).
  { intros x Hx. pose proof (Z.div_pos x size Hx Hs). pose proof (Z.mul_div_le x size Hs). lia. }
  pose proof (Hdiv old_size). pose proof (Hdiv new_size).
  destruct (AddManyDiskBlocks_spec size Hs seen1 m1 old_part (old_size / size) Hm1) as (ids1 & m2 & seen2 & -> & Hm2 & Hp2 & Hn1); [lia..|].
  rewrite outcome_bind_ret. cbv beta iota zeta. simpl.
  destruct (AddManyDiskBlocks_spec size Hs seen2 m2 new_part (new_size / size) Hm2) as (ids2 & m3 & seen3 & -> & Hm3 & Hp3 & Hn2); [lia..|].
  exists ids1, ids2, seen3. split_and!; [done|apply Hm3| |by eapply numbers_more|done].
  eapply prefix_lookup_Some; [|exact Hp3]. by eapply prefix_lookup_Some.
Qed.

Lemma numbers_lookup size seen f n ids i id :
  numbers size seen f (seqZ 0 n) ids -> 0 <= i -> ids !! Z.to_nat i = Some id ->
  0 <= id /\ seen !! Z.to_nat id = Some (slice f (i * size) size).
Proof.
  intros Hn Hi Hid. destruct (Forall2_lookup_r _ _ _ _ _ Hn Hid) as (b & Hb & ? & Hs).
  apply lookup_seqZ in Hb as [-> _]. by replace (0 + Z.of_nat (Z.to_nat i)) with i in Hs by lia.
Qed.

(** Equal ids are equal contents. *)
Lemma numbers_inj size seen f g n k ids ids' i j a b :
  NoDup seen -> numbers size seen f (seqZ 0 n) ids -> numbers size seen g (seqZ 0 k) ids' -> 0 <= i -> 0 <= j ->
  ids !! Z.to_nat i = Some a -> ids' !! Z.to_nat j = Some b ->
  a = b <-> slice f (i * size) size = slice g (j * size) size.
Proof.
  intros Hd Hn Hn' Hi Hj Ha Hb. destruct (numbers_lookup _ _ _ _ _ _ _ Hn Hi Ha) as [? Hsa].
  destruct (numbers_lookup _ _ _ _ _ _ _ Hn' Hj Hb) as [? Hsb].
  split; [intros ->; congruence|]. intros E. rewrite E in Hsa.
  pose proof (NoDup_lookup _ _ _ _ Hd Hsa Hsb). lia.
Qed.
End Numbering.

(** C16: [MapPartitionBlocks] returns an id for every block of both images.
    Whatever the hash function, and whichever blocks are cached, two blocks of
    either image have the same id exactly if their contents are equal, and a
    block has the id 0 exactly if it holds only zeros. *)
Theorem MapPartitionBlocks_numbers `{KernelOk} `{BlockHash} block_size old_part new_part old_size new_size :
  0 < block_size -> 0 <= old_size <= zlen old_part -> 0 <= new_size <= zlen new_part ->
  exists old_ids new_ids,
    MapPartitionBlocks old_part new_part old_size new_size block_size = Ret (old_ids, new_ids)
    /\ zlen old_ids = old_size / block_size /\ zlen new_ids = new_size / block_size
    /\ let block f i := slice f (i * block_size) block_size in
       let id_of i id f := 0 <= i /\ (f = old_part /\ old_ids !! Z.to_nat i = Some id
                                      \/ f = new_part /\ new_ids !! Z.to_nat i = Some id) in
       (forall i j a b f g, id_of i a f -> id_of j b g -> a = b <-> block f i = block g j)
       /\ forall i a f, id_of i a f -> a = 0 <-> block f i = replicate (Z.to_nat block_size) 0.
Proof.
  intros Hs Ho Hn. destruct (MapPartitionBlocks_spec block_size old_part new_part old_size new_size Hs Ho Hn)
    as (old_ids & new_ids & seen & -> & Hd & Hz & Hold & Hnew). exists old_ids, new_ids.
  assert (Hlen : forall f s ids, 0 <= s -> numbers block_size seen f (seqZ 0 (s / block_size)) ids -> zlen ids = s / block_size).
  { intros f s ids Hp Hf. apply Forall2_length in Hf. rewrite length_seqZ in Hf.
    pose proof (Z.div_pos s block_size Hp Hs). unfold zlen. lia. }
  split_and!; [done|by eapply Hlen; [lia|done]..|]. intros block id_of.
  assert (Hid : forall i a f, id_of i a f -> 0 <= a /\ seen !! Z.to_nat a = Some (block f i)).
  { intros i a f (Hi & [[-> Ha]|[-> Ha]]); by eapply numbers_lookup. }
  split.
  - intros i j a b f g Ha%Hid Hb%Hid. split; [intros ->; destruct Ha, Hb; congruence|]. intros E.
    destruct Ha as [? Ha], Hb as [? Hb]. rewrite E in Ha. pose proof (NoDup_lookup _ _ _ _ Hd Ha Hb). lia.
  - intros i a f Ha%Hid. split; [intros ->; destruct Ha as [_ Ha]; change (Z.to_nat 0) with 0%nat in Ha; congruence|]. intros E.
    destruct Ha as [? Ha]. rewrite E in Ha. pose proof (NoDup_lookup _ _ _ _ Hd Ha Hz). lia.
Qed.

Lemma MapPartitionBlocks_numbers_witness :
  exists old_ids new_ids,
    @MapPartitionBlocks slow_kernel (fun _ => 7) [1; 2; 0; 0; 1; 2] [0; 0; 3; 4] 6 4 2 = Ret (old_ids, new_ids)
    /\ old_ids = [1; 0; 1] /\ new_ids = [0; 2].
Proof.
  destruct (@MapPartitionBlocks_numbers slow_kernel slow_kernel_ok (fun _ => 7) 2 [1; 2; 0; 0; 1; 2] [0; 0; 3; 4] 6 4)
    as (old_ids & new_ids & Heq & _); [done..|].
  exists old_ids, new_ids. vm_compute in Heq. by injection Heq as <- <-.
Defined.
