(* ===== verification/UpdateDelta.v ===== *)
(** * UpdateDelta: the operations between two images

    update_engine/payload_generator/delta_diff_utils.cc, with the payload
    versions of payload_generation_config.cc and [SetOperationBlob] of
    annotated_operation.cc.  An image is the list of the bytes of
    the file at its path, which does not change while the generator runs.  The
    compressors and the diff programs are the class [Tools].  The processors
    of the thread pool share the file of blobs: a schedule says in which order
    their iterations come.  The names of operations are left out. *)
From stdpp Require Import strings.
From S2P Require Import Prelude UpdateExtents UpdateGraph UpdateInplace UpdateFile UpdateBlocks.

(** ** Versions *)

Definition kChromeOSMajorPayloadVersion : Z := 1.
Definition kBrilloMajorPayloadVersion : Z := 2.
Definition kFullPayloadMinorVersion : Z := 0.
Definition kInPlaceMinorPayloadVersion : Z := 1.
Definition kSourceMinorPayloadVersion : Z := 2.
Definition kOpSrcHashMinorPayloadVersion : Z := 3.
Definition kImgdiffMinorPayloadVersion : Z := 4.

Record PayloadVersion := mkVersion { major : Z; minor : Z; imgdiff_allowed : bool }.

Definition OperationAllowed (v : PayloadVersion) (operation : InstallOperation_Type) : bool :=
  match operation with
  | REPLACE | REPLACE_BZ => true
  | REPLACE_XZ => (major v =? kBrilloMajorPayloadVersion) || (kOpSrcHashMinorPayloadVersion <=? minor v)
  | ZERO | DISCARD => kImgdiffMinorPayloadVersion <=? minor v
  | MOVE | BSDIFF => minor v =? kInPlaceMinorPayloadVersion
  | SOURCE_COPY | SOURCE_BSDIFF => kSourceMinorPayloadVersion <=? minor v
  | IMGDIFF => (kImgdiffMinorPayloadVersion <=? minor v) && imgdiff_allowed v
  end.

Definition IsDelta (v : PayloadVersion) : bool := negb (minor v =? kFullPayloadMinorVersion).

Definition InplaceUpdate (v : PayloadVersion) : bool := minor v =? kInPlaceMinorPayloadVersion.

(** [kInPlacePayloadVersion] of inplace_generator.cc *)
Definition kInPlacePayloadVersion : PayloadVersion :=
  mkVersion kChromeOSMajorPayloadVersion kInPlaceMinorPayloadVersion false.

(** The images and the other files the generator reads, by path. *)
Class Files := file_at : string -> option (list Z).

(** ** Compression and diffs *)

(** [BZ2_bzBuffToBuffCompress] *)
Inductive bz_result := BZ_OK (data : list Z) | BZ_OUTBUFF_FULL | BZ_ERROR.

(** The libraries and programs the generator uses: bzip2 with a limit on the
    output, the encoder of the LZMA SDK on a stream with the given bytes, and
    bsdiff and imgdiff; all may fail. *)
Class Tools := {
  BZ2_bzBuffToBuffCompress : list Z -> Z -> bz_result;
  Xz_Encode : list Z -> option (list Z);
  diff_program : string -> list Z -> list Z -> option (list Z);
}.

Definition kBsdiffPath : string := "bsdiff".
Definition kImgdiffPath : string := "imgdiff".
Definition kMaxBsdiffDestinationSize : Z := 200 * 1024 * 1024.
Definition kMaxImgdiffDestinationSize : Z := 50 * 1024 * 1024.

Definition IsAReplaceOperation (op_type : InstallOperation_Type) : bool :=
  match op_type with REPLACE | REPLACE_BZ | REPLACE_XZ => true | _ => false end.

Definition kGZipMagic : list Z := [31; 139; 8; 0].

(** [std::search] for the magic. *)
Fixpoint ContainsGZip (data : list Z) : bool :=
  match data with
  | [] => false
  | _ :: rest => bool_decide (take 4 data = kGZipMagic) || ContainsGZip rest
  end.

Section Compress.
Context `{Tools}.

(** The loop of [BzipCompress], which doubles the buffer until it is more than 32 bits. *)
Fixpoint bzip_loop (fuel : nat) (data : list Z) (buf_size : Z) : outcome (list Z) :=
  if 2 ^ 32 - 1 <? buf_size then Fail else
  match fuel with
  | O => Abort
  | S fuel =>
      match BZ2_bzBuffToBuffCompress data buf_size with
      | BZ_OK out => Ret out
      | BZ_ERROR => Fail
      | BZ_OUTBUFF_FULL => bzip_loop fuel data (buf_size * 2)
      end
  end.

Definition BzipCompress (data : list Z) : outcome (list Z) :=
  if zlen data =? 0 then Ret [] else bzip_loop 32 data (40 + zlen data * 35 / 100).

(** [XzCompressInit] is called when the generator starts, so that the check of
    [xz_initialized] does not fail. *)
Definition XzCompress (data : list Z) : option (list Z) := if bool_decide (data = []) then Some [] else Xz_Encode data.

(** The blob and the type of the best full operation. *)
Definition GenerateBestFullOperation (new_data : list Z) (version : PayloadVersion)
    : outcome (list Z * InstallOperation_Type) :=
  if bool_decide (new_data = []) then Fail else
  if OperationAllowed version ZERO && forallb (fun x => x =? 0) new_data then Ret ([], ZERO) else
  let best := None in
  let best :=
    if OperationAllowed version REPLACE_XZ then
      match XzCompress new_data with
      | Some data => if negb (bool_decide (data = [])) then Some (data, REPLACE_XZ) else best
      | None => best
      end
    else best in
  best ←
    (if OperationAllowed version REPLACE_BZ then
       match BzipCompress new_data with
       | Ret data =>
           Ret (if negb (bool_decide (data = []))
                   && match best with None => true | Some (out, _) => zlen data <? zlen out end
                then Some (data, REPLACE_BZ) else best)
       | Fail => Ret best
       | Abort => Abort
       end
     else Ret best);
  Ret match best with
      | Some (out, t) => if zlen new_data <=? zlen out then (new_data, REPLACE) else (out, t)
      | None => (new_data, REPLACE)
      end.

Definition DiffFiles (diff_path : string) (old_file new_file : list Z) : outcome (list Z) :=
  match diff_program diff_path old_file new_file with Some out => Ret out | None => Fail end.
End Compress.

(** ** Moving blocks onto themselves *)

(** Whether the next extent is a new one, the extents and the index of the next one. *)
Definition ProcessExtentBlockRange (extents : list Extent) (idx : nat) (do_remove : bool)
    (range_start range_end : Z) : outcome (bool * list Extent * nat) :=
  e ← of_option (extents !! idx);
  let start := start_block e in
  let num := num_blocks e in
  let range_size := u64 (range_end - range_start) in
  Ret (if do_remove then
         if range_size =? num then (true, delete idx extents, idx)
         else if range_end =? num then (true, <[idx := mkExtent start (u64 (num - range_size))]> extents, S idx)
         else if range_start =? 0
         then (true, <[idx := mkExtent (u64 (start + range_size)) (u64 (num - range_size))]> extents, idx)
         else (true, take idx extents ++ [mkExtent start range_start;
                                          mkExtent (u64 (start + range_end)) (u64 (num - range_end))]
                     ++ drop (S idx) extents, S idx)
       else if range_end =? num then (true, extents, S idx)
       else (false, extents, idx)).

(** The variables of the loop of [RemoveIdenticalBlockRanges]. *)
Record Removal := mkRemoval {
  r_src : list Extent; r_src_idx : nat; r_src_offset : Z;
  r_dst : list Extent; r_dst_idx : nat; r_dst_offset : Z;
  r_removed : Z; r_do_remove : bool;
}.

Fixpoint remove_loop (fuel : nat) (s : Removal) : outcome Removal :=
  match r_src s !! r_src_idx s, r_dst s !! r_dst_idx s with
  | Some src, Some dst =>
      match fuel with
      | O => Abort
      | S fuel =>
          let do_remove := u64 (start_block src + r_src_offset s) =? u64 (start_block dst + r_dst_offset s) in
          let min_num_blocks := Z.min (u64 (num_blocks src - r_src_offset s)) (u64 (num_blocks dst - r_dst_offset s)) in
          let src_offset := u64 (r_src_offset s + min_num_blocks) in
          let dst_offset := u64 (r_dst_offset s + min_num_blocks) in
          r ← ProcessExtentBlockRange (r_src s) (r_src_idx s) do_remove (r_src_offset s) src_offset;
          let '(new_src, srcs, src_idx) := r in
          r ← ProcessExtentBlockRange (r_dst s) (r_dst_idx s) do_remove (r_dst_offset s) dst_offset;
          let '(new_dst, dsts, dst_idx) := r in
          remove_loop fuel (mkRemoval srcs src_idx (if (new_src : bool) then 0 else src_offset)
                                      dsts dst_idx (if (new_dst : bool) then 0 else dst_offset)
                                      (if do_remove then u64 (r_removed s + min_num_blocks * kBlockSize) else r_removed s)
                                      do_remove)
      end
  | _, _ => Ret s
  end.

(** The bytes removed and the extents that are left. *)
Definition RemoveIdenticalBlockRanges (src_extents dst_extents : list Extent) (total_bytes : Z)
    : outcome (Z * list Extent * list Extent) :=
  s ← remove_loop (Z.to_nat (BlocksInExtents src_extents)) (mkRemoval src_extents 0 0 dst_extents 0 0 0 false);
  let nonfull_block_bytes := total_bytes mod kBlockSize in
  let removed := if r_do_remove s && negb (nonfull_block_bytes =? 0)
                 then u64 (r_removed s - (kBlockSize - nonfull_block_bytes)) else r_removed s in
  Ret (removed, r_src s, r_dst s).

(** ** One operation *)

Section Delta.
Context `{Kernel} `{Tools}.

(** The bsdiff and imgdiff part of [ReadExtentsToDiff]. *)
Definition diff_blobs (version : PayloadVersion) (bsdiff_allowed imgdiff_allowed : bool) (old_data new_data : list Z)
    (best : list Z * InstallOperation_Type) : outcome (list Z * InstallOperation_Type) :=
  best ←
    (if bsdiff_allowed then
       bsdiff_delta ← DiffFiles kBsdiffPath old_data new_data;
       _ ← check_that (0 <? zlen bsdiff_delta);
       Ret (if zlen bsdiff_delta <? zlen (fst best)
            then (bsdiff_delta, if OperationAllowed version SOURCE_BSDIFF then SOURCE_BSDIFF else BSDIFF)
            else best)
     else Ret best);
  if imgdiff_allowed && ContainsGZip old_data && ContainsGZip new_data then
    match DiffFiles kImgdiffPath old_data new_data with
    | Ret imgdiff_delta =>
        Ret (if (0 <? zlen imgdiff_delta) && (zlen imgdiff_delta <? zlen (fst best)) then (imgdiff_delta, IMGDIFF) else best)
    | _ => Ret best
    end
  else Ret best.

(** The data and the operation that makes [new_extents] from [old_extents]. *)
Definition ReadExtentsToDiff (old_part new_part : list Z) (old_extents new_extents : list Extent) (version : PayloadVersion)
    : outcome (list Z * InstallOperation) :=
  let blocks_to_read := BlocksInExtents old_extents in
  let blocks_to_write := BlocksInExtents new_extents in
  let bsdiff_allowed := (OperationAllowed version SOURCE_BSDIFF || OperationAllowed version BSDIFF)
                        && negb (kMaxBsdiffDestinationSize <? u64 (blocks_to_read * kBlockSize)) in
  let imgdiff_allowed := OperationAllowed version IMGDIFF
                         && negb (kMaxImgdiffDestinationSize <? u64 (blocks_to_read * kBlockSize)) in
  new_data ← ReadExtents new_part new_extents (u64 (kBlockSize * blocks_to_write)) kBlockSize;
  _ ← guard_that (negb (bool_decide (new_data = [])));
  best ← GenerateBestFullOperation new_data version;
  old_data ← (if 0 <? blocks_to_read
              then ReadExtents old_part old_extents (u64 (kBlockSize * blocks_to_read)) kBlockSize
              else Ret []);
  best ← (if negb (0 <? blocks_to_read) then Ret best
          else if bool_decide (old_data = new_data)
          then Ret ([], if OperationAllowed version SOURCE_COPY then SOURCE_COPY else MOVE)
          else if bsdiff_allowed || imgdiff_allowed
          then diff_blobs version bsdiff_allowed imgdiff_allowed old_data new_data best
          else Ret best);
  let '(data_blob, type) := best in
  r ← (if bool_decide (type = MOVE) then RemoveIdenticalBlockRanges old_extents new_extents (zlen new_data)
       else Ret (0, old_extents, new_extents));
  let '(removed_bytes, src_extents, dst_extents) := r in
  let operation := mkOperation (Some type) None None src_extents (Some (u64 (zlen old_data - removed_bytes)))
                     dst_extents (Some (u64 (zlen new_data - removed_bytes))) None in
  let operation := if IsAReplaceOperation type then set_lengths None (dst_length operation) (set_src_extents [] operation)
                   else operation in
  Ret (data_blob, operation).

(** The result, the operation and the file of blobs. *)
Definition SetOperationBlob (blob : list Z) (op : AnnotatedOperation) (blob_file : BlobFileWriter)
    : outcome (bool * AnnotatedOperation * BlobFileWriter) :=
  if bool_decide (blob = []) then Ret (true, set_data None None op, blob_file) else
  r ← StoreBlob blob blob_file;
  let '(offset, blob_file) := r in
  match offset with
  | None => Ret (false, op, blob_file)
  | Some offset => Ret (true, set_data (Some offset) (Some (zlen blob)) op, blob_file)
  end.

(** ** Files *)

(** The parameters of a call of [DeltaReadFile], with [total_blocks] and the
    final value of [chunk_blocks]. *)
Record FileDelta := mkFileDelta {
  fd_old_part : list Z;
  fd_new_part : list Z;
  fd_old_extents : list Extent;
  fd_new_extents : list Extent;
  fd_chunk_blocks : Z;
}.

Definition total_blocks (p : FileDelta) : Z := BlocksInExtents (fd_new_extents p).

Definition chunk_blocks (p : FileDelta) : Z :=
  if fd_chunk_blocks p =? -1 then total_blocks p else u64 (fd_chunk_blocks p).

(** One iteration of [DeltaReadFile]: whether it goes on, the operations and the file of blobs. *)
Definition delta_chunk (version : PayloadVersion) (p : FileDelta) (block_offset : Z)
    (s : list AnnotatedOperation * BlobFileWriter) : outcome (bool * (list AnnotatedOperation * BlobFileWriter)) :=
  let '(aops, blob_file) := s in
  let old_extents_chunk := NormalizeExtents (ExtentsSublist (fd_old_extents p) block_offset (chunk_blocks p)) in
  let new_extents_chunk := NormalizeExtents (ExtentsSublist (fd_new_extents p) block_offset (chunk_blocks p)) in
  match ReadExtentsToDiff (fd_old_part p) (fd_new_part p) old_extents_chunk new_extents_chunk version with
  | Abort => Abort
  | Fail => Ret (false, s)
  | Ret (data, operation) =>
      if bool_decide (dst_extents operation = []) then Ret (bool_decide (type_of operation = MOVE), s) else
      r ← SetOperationBlob data operation blob_file;
      let '(ok, aop, blob_file) := r in
      if (ok : bool) then Ret (true, (aops ++ [aop], blob_file)) else Ret (false, (aops, blob_file))
  end.

Fixpoint delta_loop (fuel : nat) (version : PayloadVersion) (p : FileDelta) (block_offset : Z)
    (s : list AnnotatedOperation * BlobFileWriter) : outcome (bool * (list AnnotatedOperation * BlobFileWriter)) :=
  if block_offset <? total_blocks p then
    match fuel with
    | O => Abort
    | S fuel =>
        r ← delta_chunk version p block_offset s;
        if (fst r : bool) then delta_loop fuel version p (u64 (block_offset + chunk_blocks p)) (snd r) else Ret r
    end
  else Ret (true, s).

(** The result, the operations and the file of blobs. *)
Definition DeltaReadFile (version : PayloadVersion) (p : FileDelta) (aops : list AnnotatedOperation)
    (blob_file : BlobFileWriter) : outcome (bool * (list AnnotatedOperation * BlobFileWriter)) :=
  delta_loop (Z.to_nat (total_blocks p)) version p 0 (aops, blob_file).

(** ** The thread pool *)

(** [FileDeltaProcessor] in the middle of [Run]: the block offset of the next
    iteration, [None] when it has returned, and its operations. *)
Record FileDeltaProcessor := mkProcessor {
  pr_delta : FileDelta;
  pr_next : option Z;
  file_aops_ : list AnnotatedOperation;
}.

Definition FileDeltaProcessor_new (p : FileDelta) : FileDeltaProcessor := mkProcessor p (Some 0) [].

(** An iteration of processor [i]; a failing [DeltaReadFile] is only logged. *)
Definition pool_step (version : PayloadVersion) (s : list FileDeltaProcessor * BlobFileWriter) (i : nat)
    : outcome (list FileDeltaProcessor * BlobFileWriter) :=
  let '(processors, blob_file) := s in
  match processors !! i with
  | None => Ret s
  | Some pr =>
      match pr_next pr with
      | None => Ret s
      | Some block_offset =>
          if negb (block_offset <? total_blocks (pr_delta pr))
          then Ret (<[i := mkProcessor (pr_delta pr) None (file_aops_ pr)]> processors, blob_file) else
          r ← delta_chunk version (pr_delta pr) block_offset (file_aops_ pr, blob_file);
          let '(go_on, (aops, blob_file)) := r in
          let next := if (go_on : bool) then Some (u64 (block_offset + chunk_blocks (pr_delta pr))) else None in
          Ret (<[i := mkProcessor (pr_delta pr) next aops]> processors, blob_file)
      end
  end.

(** A processor that runs to its end. *)
Definition finish_processor (version : PayloadVersion) (s : list FileDeltaProcessor * BlobFileWriter)
    (i : nat) : outcome (list FileDeltaProcessor * BlobFileWriter) :=
  let '(processors, blob_file) := s in
  match processors !! i with
  | None => Ret s
  | Some pr =>
      match pr_next pr with
      | None => Ret s
      | Some block_offset =>
          r ← delta_loop (Z.to_nat (total_blocks (pr_delta pr))) version (pr_delta pr) block_offset (file_aops_ pr, blob_file);
          let '(_, (aops, blob_file)) := r in
          Ret (<[i := mkProcessor (pr_delta pr) None aops]> processors, blob_file)
      end
  end.

(** Any interleaving: first the iterations of [schedule], then what is left
    when [JoinAll] is called. *)
Definition thread_pool (version : PayloadVersion) (schedule : list nat) (processors : list FileDeltaProcessor)
    (blob_file : BlobFileWriter) : outcome (list FileDeltaProcessor * BlobFileWriter) :=
  s ← foldM (pool_step version) schedule (processors, blob_file);
  foldM (finish_processor version) (seq 0 (length processors)) s.

(** ** Moved and zero blocks *)

Context `{BlockHash} `{Files}.

(** Blocks that did not move need no operation in an in-place update. *)
Definition mark_unmoved (old_ids new_ids : list Z) (visited : ExtentRanges * ExtentRanges) (block : Z)
    : outcome (ExtentRanges * ExtentRanges) :=
  let '(old_visited, new_visited) := visited in
  old_id ← of_option (old_ids !! Z.to_nat block);
  new_id ← of_option (new_ids !! Z.to_nat block);
  if negb (old_id =? new_id) then Ret visited else
  in_old ← ContainsBlock block old_visited;
  if (in_old : bool) then Ret visited else
  in_new ← ContainsBlock block new_visited;
  if (in_new : bool) then Ret visited else
  old_visited ← UpdateExtents.AddBlock block old_visited;
  new_visited ← UpdateExtents.AddBlock block new_visited;
  Ret (old_visited, new_visited).

(** One iteration of the loop that fills [old_blocks_map], whose vectors have their back first. *)
Definition map_old_block (old_ids : list Z) (s : gmap Z (list Z) * ExtentRanges) (block : Z)
    : outcome (gmap Z (list Z) * ExtentRanges) :=
  let '(old_blocks_map, old_visited) := s in
  id ← of_option (old_ids !! Z.to_nat block);
  if id =? 0 then
    old_visited ← UpdateExtents.AddBlock block old_visited;
    Ret (old_blocks_map, old_visited)
  else
    visited ← ContainsBlock block old_visited;
    Ret (if (visited : bool) then old_blocks_map
         else <[id := block :: default [] (old_blocks_map !! id)]> old_blocks_map, old_visited).

(** What the loop over the new image collects. *)
Record Identical := mkIdentical {
  new_zeros : list Extent;
  old_identical_blocks : list Extent;
  new_identical_blocks : list Extent;
  old_blocks_map : gmap Z (list Z);
}.

Definition match_new_block (version : PayloadVersion) (new_ids : list Z) (new_visited : ExtentRanges) (s : Identical)
    (block : Z) : outcome Identical :=
  visited ← ContainsBlock block new_visited;
  if (visited : bool) then Ret s else
  id ← of_option (new_ids !! Z.to_nat block);
  if id =? 0 then
    Ret (mkIdentical (AppendBlockToExtents (new_zeros s) block) (old_identical_blocks s) (new_identical_blocks s)
           (old_blocks_map s))
  else
    Ret match old_blocks_map s !! id with
        | Some (back :: rest) =>
            mkIdentical (new_zeros s) (AppendBlockToExtents (old_identical_blocks s) back)
              (AppendBlockToExtents (new_identical_blocks s) block)
              (if InplaceUpdate version then <[id := rest]> (old_blocks_map s) else old_blocks_map s)
        | _ => s
        end.

(** The operations for the blocks of one extent, from [op_block_offset] on. *)
Fixpoint move_extent (fuel : nat) (version : PayloadVersion) (chunk : Z) (olds news : list Extent) (extent : Extent)
    (op_block_offset : Z) (s : list AnnotatedOperation * Z) : outcome (list AnnotatedOperation * Z) :=
  let '(aops, used_blocks) := s in
  if op_block_offset <? num_blocks extent then
    match fuel with
    | O => Abort
    | S fuel =>
        let chunk_num_blocks := Z.min (u64 (num_blocks extent - op_block_offset)) chunk in
        let op_dst_extent := mkExtent (u64 (start_block extent + op_block_offset)) chunk_num_blocks in
        let aop := mkOperation (Some (if OperationAllowed version SOURCE_COPY then SOURCE_COPY else MOVE)) None None
                     (ExtentsSublist olds used_blocks chunk_num_blocks) None [op_dst_extent] None None in
        _ ← check_that (bool_decide ([op_dst_extent] = ExtentsSublist news used_blocks chunk_num_blocks));
        move_extent fuel version chunk olds news extent (u64 (op_block_offset + chunk))
          (aops ++ [aop], u64 (used_blocks + chunk_num_blocks))
    end
  else Ret s.

(** The operations, the file of blobs and the visited blocks of both images. *)
Definition DeltaMovedAndZeroBlocks (version : PayloadVersion) (old_part new_part : list Z)
    (old_num_blocks new_num_blocks chunk_blocks : Z) (aops : list AnnotatedOperation) (blob_file : BlobFileWriter)
    (old_visited new_visited : ExtentRanges)
    : outcome (list AnnotatedOperation * BlobFileWriter * ExtentRanges * ExtentRanges) :=
  ids ← MapPartitionBlocks old_part new_part (u64 (old_num_blocks * kBlockSize)) (u64 (new_num_blocks * kBlockSize)) kBlockSize;
  let '(old_ids, new_ids) := ids in
  visited ← (if InplaceUpdate version
             then foldM (mark_unmoved old_ids new_ids) (seqZ 0 (Z.min old_num_blocks new_num_blocks)) (old_visited, new_visited)
             else Ret (old_visited, new_visited));
  let '(old_visited, new_visited) := visited in
  r ← foldM (map_old_block old_ids) (reverse (seqZ 0 old_num_blocks)) (∅, old_visited);
  let '(old_map, old_visited) := r in
  s ← foldM (match_new_block version new_ids new_visited) (seqZ 0 new_num_blocks) (mkIdentical [] [] [] old_map);
  new_visited ← AddExtents (new_zeros s) new_visited;
  r ← foldM (fun st extent =>
               r ← DeltaReadFile version (mkFileDelta [] new_part [] [extent] chunk_blocks) (fst st) (snd st);
               _ ← guard_that (fst r);
               Ret (snd r))
        (new_zeros s) (aops, blob_file);
  let '(aops, blob_file) := r in
  let chunk := if chunk_blocks =? -1 then new_num_blocks else u64 chunk_blocks in
  old_visited ← AddExtents (old_identical_blocks s) old_visited;
  new_visited ← AddExtents (new_identical_blocks s) new_visited;
  r ← foldM (fun st extent => move_extent (Z.to_nat (num_blocks extent)) version chunk (old_identical_blocks s)
                                (new_identical_blocks s) extent 0 st)
        (new_identical_blocks s) (aops, 0);
  Ret (fst r, blob_file, old_visited, new_visited).

(** ** Partitions *)

(** [FilesystemInterface::File] *)
Record File := mkFile { file_name : string; file_extents : list Extent }.

(** [FilesystemInterface]: [GetFiles] is what the method returns and what it
    leaves in its vector. *)
Record FilesystemInterface := mkFilesystem { GetBlockSize : Z; GetBlockCount : Z; GetFiles : outcome (bool * list File) }.

Record PostInstallConfig := mkPostInstall { postinstall_run : bool; postinstall_path : string; filesystem_type : string; postinstall_optional : bool }.

Record PartitionConfig := mkPartition {
  path : string;
  mapfile_path : string;
  part_size : Z;
  fs_interface : option FilesystemInterface;
  part_name : string;
  postinstall : PostInstallConfig;
}.

(** The file at the path of a partition; a file that cannot be opened has
    nothing to read. *)
Definition part_data (part : PartitionConfig) : list Z := default [] (file_at (path part)).

(** The files of a partition; the result of [GetFiles] is not checked. *)
Definition part_files (part : PartitionConfig) : outcome (list File) :=
  match fs_interface part with
  | None => Ret []
  | Some fs => r ← GetFiles fs; Ret (snd r)
  end.

(** One iteration of the loop over the files of the new image. *)
Definition add_processor (old_part new_part : PartitionConfig) (hard_chunk_blocks : Z) (old_files : gmap string (list Extent))
    (s : ExtentRanges * ExtentRanges * list FileDeltaProcessor) (new_file : File)
    : outcome (ExtentRanges * ExtentRanges * list FileDeltaProcessor) :=
  let '(old_visited, new_visited, processors) := s in
  new_file_extents ← FilterExtentRanges (file_extents new_file) new_visited;
  new_visited ← AddExtents new_file_extents new_visited;
  if bool_decide (new_file_extents = []) then Ret (old_visited, new_visited, processors) else
  old_file_extents ← FilterExtentRanges (default [] (old_files !! file_name new_file)) old_visited;
  old_visited ← AddExtents old_file_extents old_visited;
  let p := mkFileDelta (part_data old_part) (part_data new_part) old_file_extents new_file_extents hard_chunk_blocks in
  Ret (old_visited, new_visited, processors ++ [FileDeltaProcessor_new p]).

Definition old_files_map (files : list File) : gmap string (list Extent) :=
  fold_left (fun m f => <[file_name f := file_extents f]> m) files ∅.

Definition DeltaReadPartition (version : PayloadVersion) (schedule : list nat) (old_part new_part : PartitionConfig)
    (hard_chunk_blocks soft_chunk_blocks : Z) (aops : list AnnotatedOperation) (blob_file : BlobFileWriter)
    : outcome (list AnnotatedOperation * BlobFileWriter) :=
  let old_num_blocks := part_size old_part / kBlockSize in
  let new_num_blocks := part_size new_part / kBlockSize in
  r ← DeltaMovedAndZeroBlocks version (part_data old_part) (part_data new_part) old_num_blocks new_num_blocks
        soft_chunk_blocks aops blob_file ExtentRanges_new ExtentRanges_new;
  let '(aops, blob_file, old_visited, new_visited) := r in
  old_files ← part_files old_part;
  _ ← guard_that (bool_decide (is_Some (fs_interface new_part)));
  new_files ← part_files new_part;
  r ← foldM (add_processor old_part new_part hard_chunk_blocks (old_files_map old_files)) new_files (old_visited, new_visited, []);
  let '(old_visited, new_visited, processors) := r in
  r ← thread_pool version schedule processors blob_file;
  let '(processors, blob_file) := r in
  let aops := aops ++ (processors ≫= file_aops_) in
  new_unvisited ← FilterExtentRanges [ExtentForRange 0 new_num_blocks] new_visited;
  if bool_decide (new_unvisited = []) then Ret (aops, blob_file) else
  old_unvisited ← (if fs_interface old_part then FilterExtentRanges [ExtentForRange 0 old_num_blocks] old_visited else Ret []);
  r ← DeltaReadFile version (mkFileDelta (part_data old_part) (part_data new_part) old_unvisited new_unvisited soft_chunk_blocks)
        aops blob_file;
  _ ← guard_that (fst r);
  Ret (snd r).
End Delta.
