(* ===== verification/UpdateFilesystem.v ===== *)
(** * UpdateFilesystem: the files of an image

    update_engine/payload_generator: raw_filesystem.cc, mapfile_filesystem.cc
    and [IsExtFilesystem] of delta_diff_utils.cc, with [FileExists],
    [FileSize] and [ReadFileChunk] of common/utils.cc.  Text is a list of
    bytes.  The string functions of libchrome are the class [Chrome], and
    libext2fs, behind [Ext2Filesystem], is the class [Ext2]. *)
From stdpp Require Import strings.
From S2P Require Import Prelude Bytes UpdateExtents UpdateGraph UpdateInplace UpdateFile UpdateBlocks UpdateDelta.

(** ** Text *)

(** [base::StringToUint64], and [base::SplitStringPiece] with
    [KEEP_WHITESPACE] and [SPLIT_WANT_ALL]. *)
Class Chrome := {
  StringToUint64 : list Z -> option Z;
  SplitString : list Z -> Z -> list (list Z);
}.

(** The constants of ext2_fs.h and ext2fs.h, and [ext2fs_open] with what
    [Ext2Filesystem] reads through the library. *)
Class Ext2 := {
  SUPERBLOCK_OFFSET : Z;
  SUPERBLOCK_SIZE : Z;
  EXT2_MIN_BLOCK_LOG_SIZE : Z;
  EXT2_MAX_BLOCK_LOG_SIZE : Z;
  EXT2_SUPER_MAGIC : Z;
  ext2fs_open : list Z -> option FilesystemInterface;
}.

Definition space : Z := 32.
Definition dash : Z := 45.
Definition newline : Z := 10.

(** [std::string] of bytes. *)
Definition string_of (s : list Z) : string :=
  foldr (fun c t => String (Ascii.ascii_of_N (Z.to_N c)) t) EmptyString s.

(** [find(c, 0)] *)
Fixpoint find (c : Z) (s : list Z) : option Z :=
  match s with
  | [] => None
  | x :: s => if x =? c then Some 0 else (fun i => i + 1) <$> find c s
  end.

(** [rfind(c, pos)]; the position is a [size_t], so [-1] is the end. *)
Fixpoint rfind_to (c : Z) (s : list Z) (n : nat) : option Z :=
  match n with
  | O => None
  | S n => if bool_decide (s !! n = Some c) then Some (Z.of_nat n) else rfind_to c s n
  end.

Definition rfind (c : Z) (s : list Z) (pos : Z) : option Z := rfind_to c s (Z.to_nat (Z.min (u64 pos) (zlen s - 1) + 1)).

(** [substr(pos, n)] *)
Definition substr (s : list Z) (pos n : Z) : list Z := slice s pos (Z.min (u64 n) (zlen s - pos)).

(** ** Files *)

Section Filesystems.
Context `{Files}.

Definition FileExists (path : string) : bool := bool_decide (is_Some (file_at path)).

Definition FileSize (path : string) : Z := from_option zlen (-1) (file_at path).

(** The chunk a file has from an offset. *)
Definition ReadFileChunk (path : string) (offset size : Z) : option (list Z) :=
  data ← file_at path;
  Some (slice data offset (if size =? -1 then zlen data - offset else Z.min size (zlen data - offset))).

(** ** Raw images *)

Definition RawFilesystem_Create (filename : string) (block_size block_count : Z) : FilesystemInterface :=
  mkFilesystem block_size block_count (Ret (true, [mkFile filename [ExtentForRange 0 block_count]])).

(** ** Images with a map of their files *)

Context `{Chrome}.

Definition kMapfileBlockSize : Z := 4096.

(** The extent of [N] or [N-M]; [inl] is the end of [GetFiles] with an error,
    and [inr None] that the text is part of the name of the file. *)
Definition map_extent (num_blocks : Z) (blocks : list Z) : () + option Extent :=
  match find dash blocks with
  | None => inr (n ← StringToUint64 blocks; Some (ExtentForRange n 1))
  | Some d =>
      match StringToUint64 (substr blocks 0 d), StringToUint64 (substr blocks (d + 1) (-1)) with
      | Some block_start, Some block_end =>
          if block_end <? block_start then inl ()
          else if u64 num_blocks <? block_end then inl ()
          else inr (Some (ExtentForRange block_start (u64 (block_end - block_start + 1))))
      | _, _ => inr None
      end
  end.

(** The loop over the blocks of a line, from its end. *)
Fixpoint map_blocks (fuel : nat) (num_blocks : Z) (line : list Z) (last_delim : Z) (extents : list Extent)
    : outcome (option (list Extent * Z)) :=
  match fuel with
  | O => Abort
  | S fuel =>
      match rfind space line (u64 (last_delim - 1)) with
      | None => Ret (Some (extents, last_delim))
      | Some delim =>
          match map_extent num_blocks (substr line (delim + 1) (u64 (last_delim - (delim + 1)))) with
          | inl _ => Ret None
          | inr None => Ret (Some (extents, last_delim))
          | inr (Some e) => map_blocks fuel num_blocks line delim (extents ++ [e])
          end
      end
  end.

Fixpoint map_lines (num_blocks : Z) (lines : list (list Z)) (files : list File) : outcome (bool * list File) :=
  match lines with
  | [] => Ret (true, files)
  | line :: lines =>
      r ← map_blocks (S (length line)) num_blocks line (zlen line) [];
      match r with
      | None => Ret (false, files)
      | Some (extents, last_delim) =>
          map_lines num_blocks lines (files ++ [mkFile (string_of (substr line 0 last_delim)) (reverse extents)])
      end
  end.

(** [MapfileFilesystem::GetFiles] *)
Definition MapfileGetFiles (num_blocks : Z) (mapfile_filename : string) : outcome (bool * list File) :=
  match file_at mapfile_filename with
  | None => Ret (false, [])
  | Some file_data => map_lines num_blocks (SplitString file_data newline) []
  end.

(** [MapfileFilesystem::CreateFromFile]: the number of blocks. *)
Definition MapfileCreateFromFile (filename mapfile_filename : string) : option Z :=
  if bool_decide (filename = "") || bool_decide (mapfile_filename = "") then None else
  let file_size := FileSize filename in
  if file_size <? 0 then None else
  if negb (file_size mod kMapfileBlockSize =? 0) then None else
  if negb (FileExists mapfile_filename) then None else Some (file_size / kMapfileBlockSize).

(** ** Ext images *)

Context `{Ext2}.

Definition IsExtFilesystem (device : string) : bool :=
  match ReadFileChunk device 0 (SUPERBLOCK_OFFSET + SUPERBLOCK_SIZE) with
  | None => false
  | Some header =>
      if zlen header <? SUPERBLOCK_OFFSET + SUPERBLOCK_SIZE then false else
      let block_count := le_val (slice header (SUPERBLOCK_OFFSET + 1 * 4) 4) in
      let log_block_size := u32 (le_val (slice header (SUPERBLOCK_OFFSET + 6 * 4) 4) + EXT2_MIN_BLOCK_LOG_SIZE) in
      let magic := le_val (slice header (SUPERBLOCK_OFFSET + 14 * 4) 2) in
      if negb (magic =? EXT2_SUPER_MAGIC) then false else
      (EXT2_MIN_BLOCK_LOG_SIZE <=? log_block_size) && (log_block_size <=? EXT2_MAX_BLOCK_LOG_SIZE) && (0 <? block_count)
  end.
End Filesystems.
