(* ===== verification/UpdateConfig.v ===== *)
(** * UpdateConfig: the configuration of a payload

    update_engine/payload_generator/payload_generation_config.cc: the images,
    their partitions and file systems, and the checks of [Validate].  The
    store of settings of libbrillo is the class [KeyValueStore]. *)
From stdpp Require Import strings.
From S2P Require Import Prelude UpdateExtents UpdateGraph UpdateInplace UpdateFile UpdateBlocks UpdateDelta UpdateFilesystem.

Definition kLegacyPartitionNameKernel : string := "boot".
Definition kLegacyPartitionNameRoot : string := "system".

Record ImageInfo := mkImageInfo {
  board : string; key : string; channel : string; version_name : string; build_channel : string; build_version : string;
}.

Record ImageConfig := mkImage { image_info : ImageInfo; partitions : list PartitionConfig }.

Record PayloadGenerationConfig := mkConfig {
  target : ImageConfig;
  source : ImageConfig;
  is_delta : bool;
  version : PayloadVersion;
  rootfs_partition_size : Z;
  hard_chunk_size : Z;
  soft_chunk_size : Z;
  block_size : Z;
  max_timestamp : Z;
}.

(** [brillo::KeyValueStore] *)
Class KeyValueStore := {
  GetBoolean : string -> option bool;
  GetString : string -> option string;
}.

(** ** Partitions *)

Definition PostInstallConfig_IsEmpty (c : PostInstallConfig) : bool :=
  negb (postinstall_run c) && bool_decide (postinstall_path c = "") && bool_decide (filesystem_type c = "")
  && negb (postinstall_optional c).

Definition set_fs_interface (fs : option FilesystemInterface) (p : PartitionConfig) : PartitionConfig :=
  mkPartition (path p) (mapfile_path p) (part_size p) fs (part_name p) (postinstall p).
Definition set_part_size (size : Z) (p : PartitionConfig) : PartitionConfig :=
  mkPartition (path p) (mapfile_path p) size (fs_interface p) (part_name p) (postinstall p).
Definition set_postinstall (c : PostInstallConfig) (p : PartitionConfig) : PartitionConfig :=
  mkPartition (path p) (mapfile_path p) (part_size p) (fs_interface p) (part_name p) c.

Section Config.
Context `{Files} `{Chrome} `{Ext2}.

(** The size is compared as an [off_t]. *)
Definition ValidateExists (part : PartitionConfig) : bool :=
  negb (bool_decide (path part = "")) && FileExists (path part) && (0 <? part_size part)
  && (sint 64 (part_size part) <=? FileSize (path part)).

(** The result, and the partition with its file system. *)
Definition OpenFilesystem (part : PartitionConfig) : bool * PartitionConfig :=
  if bool_decide (path part = "") then (true, part) else
  let ext := if IsExtFilesystem (path part) then file_at (path part) ≫= ext2fs_open else None in
  match ext with
  | Some fs => (GetBlockSize fs =? kBlockSize, set_fs_interface (Some fs) part)
  | None =>
      let mapped := if bool_decide (mapfile_path part = "") then None
                    else MapfileCreateFromFile (path part) (mapfile_path part) in
      match mapped with
      | Some num_blocks =>
          let fs := mkFilesystem kMapfileBlockSize num_blocks (MapfileGetFiles num_blocks (mapfile_path part)) in
          (GetBlockSize fs =? kBlockSize, set_fs_interface (Some fs) part)
      | None =>
          if negb (part_size part mod kBlockSize =? 0) then (false, set_fs_interface None part)
          else (true, set_fs_interface (Some (RawFilesystem_Create ("<" ++ part_name part ++ "-partition>") kBlockSize (part_size part / kBlockSize))) part)
      end
  end.

(** ** Images *)

Definition ImageInfoIsEmpty (image : ImageConfig) : bool :=
  let i := image_info image in
  bool_decide (board i = "") && bool_decide (key i = "") && bool_decide (channel i = "") && bool_decide (version_name i = "")
  && bool_decide (build_channel i = "") && bool_decide (build_version i = "").

Definition ValidateIsEmpty (image : ImageConfig) : bool := ImageInfoIsEmpty image && bool_decide (partitions image = []).

Definition LoadImageSize (image : ImageConfig) : bool * ImageConfig :=
  (true, mkImage (image_info image)
     ((fun part => if bool_decide (path part = "") then part else set_part_size (u64 (FileSize (path part))) part) <$> partitions image)).

(** A partition of [LoadPostInstallConfig]: whether it has a configuration. *)
Definition load_postinstall `{KeyValueStore} (part : PartitionConfig) : bool * PartitionConfig :=
  match GetBoolean ("RUN_POSTINSTALL_" ++ part_name part) with
  | Some true =>
      let c := postinstall part in
      (true, set_postinstall (mkPostInstall true
         (default (postinstall_path c) (GetString ("POSTINSTALL_PATH_" ++ part_name part)))
         (default (filesystem_type c) (GetString ("FILESYSTEM_TYPE_" ++ part_name part)))
         (default (postinstall_optional c) (GetBoolean ("POSTINSTALL_OPTIONAL_" ++ part_name part)))) part)
  | _ => (false, part)
  end.

Definition LoadPostInstallConfig `{KeyValueStore} (image : ImageConfig) : bool * ImageConfig :=
  let loaded := load_postinstall <$> partitions image in
  (existsb fst loaded, mkImage (image_info image) (snd <$> loaded)).

(** ** Payloads *)

Definition PayloadVersion_Validate (v : PayloadVersion) : bool :=
  ((major v =? kChromeOSMajorPayloadVersion) || (major v =? kBrilloMajorPayloadVersion))
  && ((minor v =? kFullPayloadMinorVersion) || (minor v =? kInPlaceMinorPayloadVersion) || (minor v =? kSourceMinorPayloadVersion)
      || (minor v =? kOpSrcHashMinorPayloadVersion) || (minor v =? kImgdiffMinorPayloadVersion)).

Definition validate_source (c : PayloadGenerationConfig) (part : PartitionConfig) : bool :=
  (if bool_decide (path part = "") then true else ValidateExists part && (part_size part mod block_size c =? 0))
  && PostInstallConfig_IsEmpty (postinstall part).

Definition validate_target (c : PayloadGenerationConfig) (part : PartitionConfig) : bool :=
  ValidateExists part && (part_size part mod block_size c =? 0)
  && (if (minor (version c) =? kInPlaceMinorPayloadVersion) && bool_decide (part_name part = kLegacyPartitionNameRoot)
      then part_size part <=? rootfs_partition_size c else true)
  && (if major (version c) =? kChromeOSMajorPayloadVersion then PostInstallConfig_IsEmpty (postinstall part) else true).

(** [hard_chunk_size] is signed and is divided as an unsigned number. *)
Definition Validate (c : PayloadGenerationConfig) : bool :=
  PayloadVersion_Validate (version c) && bool_decide (IsDelta (version c) = is_delta c)
  && (if is_delta c then forallb (validate_source c) (partitions (source c))
                         && bool_decide (ImageInfoIsEmpty (source c) = ImageInfoIsEmpty (target c))
      else ValidateIsEmpty (source c))
  && forallb (validate_target c) (partitions (target c))
  && ((hard_chunk_size c =? -1) || (u64 (hard_chunk_size c) mod block_size c =? 0))
  && (soft_chunk_size c mod block_size c =? 0)
  && (rootfs_partition_size c mod block_size c =? 0).
End Config.
