(* ===== verification/UpdateApply.v ===== *)
(** * UpdateApply: what an operation writes

    The meaning of an install operation in terms of blocks: from the blocks it
    reads and the data of the payload to the blocks it writes.  The
    decompressors and patch programs of the device are the class [Decoders];
    [ToolsOk] says that they undo the ones of the generator.  [produces] is
    the contract between the generator of operations and their execution. *)
From stdpp Require Import strings.
From S2P Require Import Prelude UpdateExtents UpdateGraph UpdateViews UpdateInplace.
From S2P Require Import UpdateFile UpdateBlocks UpdateDelta.

Class Decoders := {
  bunzip2 : list Z -> option (list Z);
  unxz : list Z -> option (list Z);
  bspatch : list Z -> list Z -> option (list Z);
  imgpatch : list Z -> list Z -> option (list Z);
}.

Class ToolsOk `{Tools} `{Decoders} : Prop := {
  bzip2_ok : forall data limit out, BZ2_bzBuffToBuffCompress data limit = BZ_OK out -> bunzip2 out = Some data;
  xz_ok : forall data out, Xz_Encode data = Some out -> unxz out = Some data;
  bsdiff_ok : forall old new patch, diff_program kBsdiffPath old new = Some patch -> bspatch old patch = Some new;
  imgdiff_ok : forall old new patch, diff_program kImgdiffPath old new = Some patch -> imgpatch old patch = Some new;
}.

Definition zero_block : list Z := replicate (Z.to_nat kBlockSize) 0.
Arguments zero_block : simpl never.

(** The blocks of a piece of data. *)
Definition blocks_of (data : list Z) : list (list Z) := block_of data <$> seqZ 0 (zlen data / kBlockSize).

Definition operation_data (w : BlobFileWriter) (op : InstallOperation) : list Z :=
  slice (blob_fd w) (default 0 (data_offset op)) (default 0 (data_length op)).

Section Produce.
Context `{Decoders}.

Definition apply_blocks (t : InstallOperation_Type) (num_dst : nat) (data : list Z) (old : list (list Z)) : list (list Z) :=
  match t with
  | MOVE | SOURCE_COPY => old
  | REPLACE => blocks_of data
  | REPLACE_BZ => blocks_of (default [] (bunzip2 data))
  | REPLACE_XZ => blocks_of (default [] (unxz data))
  | BSDIFF | SOURCE_BSDIFF => blocks_of (default [] (bspatch (concat old) data))
  | IMGDIFF => blocks_of (default [] (imgpatch (concat old) data))
  | ZERO | DISCARD => replicate num_dst zero_block
  end.

Definition produce (w : BlobFileWriter) (op : InstallOperation) (old : list (list Z)) : list (list Z) :=
  apply_blocks (type_of op) (length (ExpandExtents (dst_extents op))) (operation_data w op) old.
End Produce.

(** ** The file of blobs only grows *)

Definition blob_ok (w : BlobFileWriter) : Prop := 0 <= blob_file_size w <= zlen (blob_fd w).

Record grows (w w' : BlobFileWriter) : Prop := {
  gr_size : blob_file_size w <= blob_file_size w';
  gr_data : forall i n, 0 <= i -> 0 <= n -> i + n <= blob_file_size w -> slice (blob_fd w') i n = slice (blob_fd w) i n;
}.

#[export] Instance grows_preorder : PreOrder grows.
Proof.
  split.
  - intros w. by split.
  - intros w1 w2 w3 [? H1] [? H2]. split; [lia|]. intros. rewrite H2, H1 by lia. done.
Qed.

(** Offsets and lengths in the payload are 32 bits wide. *)
Definition blob_fits (w : BlobFileWriter) : Prop := blob_file_size w < 2 ^ 32.

(** An operation that names [data] in the file. *)
Definition stored (w : BlobFileWriter) (op : InstallOperation) (data : list Z) : Prop :=
  exists o, data_offset op = Some (u32 o) /\ data_length op = Some (u32 (zlen data)) /\ 0 <= o /\ o + zlen data <= blob_file_size w
    /\ slice (blob_fd w) o (zlen data) = data.

Lemma stored_grows w w' op data : grows w w' -> stored w op data -> stored w' op data.
Proof.
  intros [Hs Hd] (o & ? & ? & ? & ? & Hsl). exists o. split_and!; [done..|lia|]. pose proof (zlen_nonneg data). by rewrite Hd.
Qed.

Lemma stored_data w op data : stored w op data -> blob_fits w -> operation_data w op = data.
Proof.
  intros (o & Ho & Hl & ? & ? & Hsl) Hf. pose proof (zlen_nonneg data). unfold blob_fits in Hf. unfold operation_data. rewrite Ho, Hl. simpl.
  by rewrite !uint_small by (unfold is_uint; lia).
Qed.

(** Copies and zeros have no data; all other operations have some. *)
Definition carries_data (t : InstallOperation_Type) : bool :=
  match t with MOVE | SOURCE_COPY | ZERO | DISCARD => false | _ => true end.

Definition carries (t : InstallOperation_Type) (data : list Z) : Prop := if carries_data t then data <> [] else data = [].

(** The data of an operation are in the file, if its type has data. *)
Definition data_in (w : BlobFileWriter) (op : InstallOperation) : Prop :=
  if carries_data (type_of op) then exists data, data <> [] /\ stored w op data else data_offset op = None /\ data_length op = None.

Lemma data_in_grows w w' op : grows w w' -> data_in w op -> data_in w' op.
Proof.
  intros Hg. unfold data_in. destruct (carries_data _); [|done]. intros (data & ? & ?). exists data. split; [done|]. by eapply stored_grows.
Qed.

Lemma StoreBlob_spec `{KernelOk} blob w :
  blob_ok w -> exists w', StoreBlob blob w = Ret (Some (blob_file_size w), w') /\ blob_ok w' /\ grows w w'
    /\ blob_file_size w' = blob_file_size w + zlen blob /\ slice (blob_fd w') (blob_file_size w) (zlen blob) = blob.
Proof.
  intros Hw. unfold blob_ok in *. pose proof (zlen_nonneg blob). unfold StoreBlob. rewrite PWriteAll_spec by done.
  rewrite outcome_bind_ret. simpl. eexists. split; [done|]. simpl. split_and!; [lia|rewrite zlen_write; lia| |done|by apply slice_write_same].
  split; simpl; [lia|]. intros. by apply slice_write_before.
Qed.

(** ** Blocks and bytes *)

Lemma concat_zlen (xs : list (list Z)) : (forall x, x ∈ xs -> zlen x = kBlockSize) -> zlen (concat xs) = zlen xs * kBlockSize.
Proof.
  induction xs as [|x xs IH]; intros Hx; [done|]. simpl. rewrite zlen_app, zlen_cons, IH, Hx by set_solver. lia.
Qed.

Lemma blocks_of_concat (xs : list (list Z)) : (forall x, x ∈ xs -> zlen x = kBlockSize) -> blocks_of (concat xs) = xs.
Proof.
  intros Hx. unfold blocks_of. rewrite concat_zlen, Z.div_mul by done.
  apply list_eq. intros i. rewrite list_lookup_fmap. destruct (decide (i < length xs)%nat) as [Hi|Hi].
  2: { rewrite !lookup_ge_None_2; [done|lia|rewrite length_seqZ; unfold zlen; lia]. }
  rewrite lookup_seqZ_lt by (unfold zlen; lia). cbn [fmap option_fmap option_map].
  apply lookup_lt_is_Some_2 in Hi as [x Hi]. rewrite Hi. f_equal.
  pose proof Hi as Hsplit. apply list_elem_of_split_length in Hsplit as (l1 & l2 & -> & Hl).
  rewrite concat_app. simpl. unfold block_of, slice.
  assert (Hc : zlen (concat l1) = zlen l1 * kBlockSize) by (apply concat_zlen; set_solver).
  rewrite drop_app_length' by (unfold zlen in Hc; unfold kBlockSize in *; lia).
  assert (Hxl : zlen x = kBlockSize) by (apply Hx; set_solver). rewrite take_app_length'; [done|]. unfold zlen in Hxl. lia.
Qed.

Lemma concat_blocks_inj (xs ys : list (list Z)) :
  (forall x, x ∈ xs -> zlen x = kBlockSize) -> (forall y, y ∈ ys -> zlen y = kBlockSize) -> concat xs = concat ys -> xs = ys.
Proof. intros Hx Hy E. by rewrite <- (blocks_of_concat xs), E, blocks_of_concat. Qed.

(** ** Tools for examples *)

(** Nothing can be compressed, and a patch is a byte followed by the new data. *)
Definition plain_tools : Tools := {|
  BZ2_bzBuffToBuffCompress data limit := BZ_ERROR;
  Xz_Encode data := None;
  diff_program path old new := Some (0 :: new);
|}.

Definition plain_decoders : Decoders := {|
  bunzip2 data := None;
  unxz data := None;
  bspatch old patch := Some (tail patch);
  imgpatch old patch := Some (tail patch);
|}.

Lemma plain_tools_ok : @ToolsOk plain_tools plain_decoders.
Proof. by split; simpl; intros; simplify_eq. Qed.
