(* ===== verification/UpdateChunks.v ===== *)
(** * UpdateChunks: the operations for one file are right

    [RemoveIdenticalBlockRanges], [ReadExtentsToDiff] and [DeltaReadFile] of
    UpdateDelta: the operations made for a list of blocks of the new image
    write these blocks, except those that need no change in place, and what
    they write is the new image. *)
From stdpp Require Import strings.
From S2P Require Import Prelude UpdateExtents UpdateGraph UpdateViews UpdateInplace.
From S2P Require Import UpdateFile UpdateBlocks UpdateDelta UpdateApply.

(** ** Moving blocks onto themselves *)

(** The blocks before and behind a position in a list of extents. *)
Definition kept (es : list Extent) (idx : nat) (off : Z) : list Z :=
  ExpandExtents (take idx es) ++ match es !! idx with Some e => seqZ (start_block e) off | None => [] end.

Definition rest (es : list Extent) (idx : nat) (off : Z) : list Z :=
  match es !! idx with
  | Some e => seqZ (start_block e + off) (num_blocks e - off) ++ ExpandExtents (drop (S idx) es)
  | None => []
  end.

Definition position (es : list Extent) (idx : nat) (off : Z) : Prop :=
  match es !! idx with Some e => 0 <= off < num_blocks e | None => idx = length es /\ off = 0 end.

Lemma lookup_mid {A} (l : list A) x r : (l ++ x :: r) !! length l = Some x.
Proof. by apply list_lookup_middle. Qed.

Lemma kept_mid l e r off : kept (l ++ e :: r) (length l) off = ExpandExtents l ++ seqZ (start_block e) off.
Proof. unfold kept. by rewrite lookup_mid, take_app_length. Qed.

Lemma rest_mid l e r off :
  rest (l ++ e :: r) (length l) off = seqZ (start_block e + off) (num_blocks e - off) ++ ExpandExtents r.
Proof.
  unfold rest. rewrite lookup_mid, drop_app_ge by lia. by replace (S (length l) - length l)%nat with 1%nat by lia.
Qed.

(** What a step leaves: the position, the blocks behind and the blocks before it. *)
Definition stands (es : list Extent) (idx : nat) (off : Z) (behind before : list Z) : Prop :=
  Forall extent_ok es /\ position es idx off /\ rest es idx off = behind /\ kept es idx off = before.

(** The start of an extent. *)
Lemma stands_start l r :
  Forall extent_ok l -> Forall extent_ok r -> stands (l ++ r) (length l) 0 (ExpandExtents r) (ExpandExtents l).
Proof.
  intros Hl Hr. unfold stands. split; [by apply Forall_app|]. unfold position, rest, kept. rewrite take_app_length.
  destruct r as [|e r].
  - by rewrite app_nil_r, lookup_ge_None_2, app_nil_r by lia.
  - apply Forall_cons in Hr as [He _]. rewrite lookup_mid, ExpandExtents_cons, expand_ok by done. unfold extent_ok in He.
    rewrite drop_app_ge by lia. replace (S (length l) - length l)%nat with 1%nat by lia.
    rewrite Z.add_0_r, Z.sub_0_r. split_and!; [lia|lia|done|apply app_nil_r].
Qed.

Lemma stands_next l e r :
  Forall extent_ok l -> extent_ok e -> Forall extent_ok r ->
  stands (l ++ e :: r) (S (length l)) 0 (ExpandExtents r) (ExpandExtents l ++ expand e).
Proof.
  intros. pose proof (stands_start (l ++ [e]) r) as Hs. rewrite ExpandExtents_app, <- app_assoc, length_app in Hs.
  rewrite Nat.add_1_r in Hs. unfold ExpandExtents in Hs at 3. simpl in Hs. rewrite app_nil_r in Hs. apply Hs; [|done].
  rewrite Forall_app, Forall_singleton. done.
Qed.

(** What a step does. *)
Lemma ProcessExtentBlockRange_spec es idx e rm a b :
  Forall extent_ok es -> es !! idx = Some e -> 0 <= a < b -> b <= num_blocks e ->
  exists new es' idx', ProcessExtentBlockRange es idx rm a b = Ret (new, es', idx')
    /\ stands es' idx' (if (new : bool) then 0 else b) (drop (Z.to_nat (b - a)) (rest es idx a))
         (kept es idx a ++ (if (rm : bool) then [] else seqZ (start_block e + a) (b - a))).
Proof.
  intros Hes Hi Ha Hb. pose proof Hi as Hsplit. apply list_elem_of_split_length in Hsplit as (l & r & -> & ->).
  apply Forall_app in Hes as [Hl [He Hr]%Forall_cons]. pose proof He as Hee. unfold extent_ok, kSparseHole in Hee.
  unfold ProcessExtentBlockRange. rewrite Hi. cbn [of_option]. rewrite outcome_bind_ret.
  rewrite !(uint_small 64) by (unfold is_uint; lia).
  rewrite rest_mid, kept_mid, (drop_app_le (seqZ _ _)), drop_seqZ by (rewrite ?length_seqZ; lia).
  replace (start_block e + a + (b - a)) with (start_block e + b) by lia.
  replace (num_blocks e - a - (b - a)) with (num_blocks e - b) by lia.
  assert (Hfront : 0 < a -> extent_ok (mkExtent (start_block e) a)) by (unfold extent_ok, kSparseHole; simpl; lia).
  assert (Hback : b < num_blocks e -> extent_ok (mkExtent (start_block e + b) (num_blocks e - b)))
    by (unfold extent_ok, kSparseHole; simpl; lia).
  destruct rm; [destruct (Z.eqb_spec (b - a) (num_blocks e))|]; [|destruct (Z.eqb_spec b (num_blocks e)) as [->|]..].
  - replace a with 0 by lia. replace b with (num_blocks e) by lia. do 3 eexists. split; [done|].
    rewrite delete_middle, Z.sub_diag, !app_nil_r. by apply stands_start.
  - do 3 eexists. split; [done|]. rewrite insert_app_r_alt, Nat.sub_diag by lia. cbn [list_insert insert].
    replace (num_blocks e - (num_blocks e - a)) with a by lia. rewrite Z.sub_diag, app_nil_r.
    pose proof (stands_next l _ r Hl (Hfront ltac:(lia)) Hr) as Hs. by rewrite expand_ok in Hs by (apply Hfront; lia).
  - destruct (Z.eqb_spec a 0) as [->|].
    + do 3 eexists. split; [done|]. rewrite insert_app_r_alt, Nat.sub_diag by lia. cbn [list_insert insert].
      rewrite Z.sub_0_r, !app_nil_r. pose proof (stands_start l (mkExtent (start_block e + b) (num_blocks e - b) :: r) Hl) as Hs.
      rewrite ExpandExtents_cons, expand_ok in Hs by (apply Hback; lia). apply Hs. constructor; [apply Hback; lia|done].
    + do 3 eexists. split; [done|]. rewrite take_app_length, drop_app_ge by lia.
      replace (S (length l) - length l)%nat with 1%nat by lia. rewrite app_nil_r. cbn [app drop].
      pose proof (stands_next l _ (mkExtent (start_block e + b) (num_blocks e - b) :: r) Hl (Hfront ltac:(lia))) as Hs.
      rewrite ExpandExtents_cons, !expand_ok in Hs by (apply Hfront || apply Hback; lia). apply Hs.
      constructor; [apply Hback; lia|done].
  - do 3 eexists. split; [done|]. rewrite Z.sub_diag, <- app_assoc, <- seqZ_app by lia.
    replace (a + (num_blocks e - a)) with (num_blocks e) by lia. rewrite <- expand_ok by done. by apply stands_next.
  - do 3 eexists. split; [done|]. unfold stands, position. rewrite lookup_mid, rest_mid, kept_mid, <- app_assoc, <- seqZ_app by lia.
    split_and!; [apply Forall_app; auto|lia..|done|]. do 2 f_equal. lia.
Qed.

Lemma zip_seqZ_diff x y m a b : (a, b) ∈ zip (seqZ x m) (seqZ y m) -> b - a = y - x.
Proof.
  intros (i & p & q & [= <- <-] & Ha & Hb)%elem_of_lookup_zip_with.
  apply lookup_seqZ in Ha as [-> _]. apply lookup_seqZ in Hb as [-> _]. lia.
Qed.

(** Pairs of a source and a destination block that differ. *)
Definition moved (ps : list (Z * Z)) : list (Z * Z) := filter (fun p => fst p <> snd p) ps.

Lemma moved_run x y m : moved (zip (seqZ x m) (seqZ y m)) = if x =? y then [] else zip (seqZ x m) (seqZ y m).
Proof.
  unfold moved. destruct (Z.eqb_spec x y) as [->|Hne].
  - destruct (filter _ _) as [|[a b] l] eqn:E; [done|].
    assert (Hin : (a, b) ∈ filter (fun p => fst p <> snd p) (zip (seqZ y m) (seqZ y m))) by (rewrite E; left).
    apply list_elem_of_filter in Hin as [Hne Hin%zip_seqZ_diff]. simpl in Hne. lia.
  - apply filter_all. intros [a b] Hin%zip_seqZ_diff. simpl. lia.
Qed.

Lemma rest_front es idx off e : es !! idx = Some e -> 0 <= off -> forall m, 0 <= m <= num_blocks e - off ->
  rest es idx off = seqZ (start_block e + off) m ++ drop (Z.to_nat m) (rest es idx off).
Proof.
  intros He Ho m Hm. unfold rest. rewrite He. rewrite drop_app_le, drop_seqZ, app_assoc, <- seqZ_app by (rewrite ?length_seqZ; lia).
  do 2 f_equal. lia.
Qed.

Definition src_rest (s : Removal) := rest (r_src s) (r_src_idx s) (r_src_offset s).
Definition dst_rest (s : Removal) := rest (r_dst s) (r_dst_idx s) (r_dst_offset s).
Definition src_kept (s : Removal) := kept (r_src s) (r_src_idx s) (r_src_offset s).
Definition dst_kept (s : Removal) := kept (r_dst s) (r_dst_idx s) (r_dst_offset s).

(** [ps] are the pairs of the two lists of blocks. *)
Record removing (ps : list (Z * Z)) (s : Removal) : Prop := {
  rm_src : Forall extent_ok (r_src s) /\ position (r_src s) (r_src_idx s) (r_src_offset s);
  rm_dst : Forall extent_ok (r_dst s) /\ position (r_dst s) (r_dst_idx s) (r_dst_offset s);
  rm_rest : length (src_rest s) = length (dst_rest s);
  rm_kept : length (src_kept s) = length (dst_kept s);
  rm_pairs : exists seen, ps = seen ++ zip (src_rest s) (dst_rest s) /\ zip (src_kept s) (dst_kept s) = moved seen
    /\ r_removed s = (zlen seen - zlen (moved seen)) * kBlockSize;
}.

Lemma rest_nil es idx off : rest es idx off = [] -> Forall extent_ok es -> position es idx off -> es !! idx = None.
Proof.
  unfold rest, position. intros Hr Hes Hp. destruct (es !! idx) as [e|]; [|done].
  apply app_nil in Hr as [Hr _]. apply (f_equal length) in Hr. rewrite length_seqZ in Hr. simpl in Hr. lia.
Qed.

Lemma kept_end es idx off : position es idx off -> es !! idx = None -> kept es idx off = ExpandExtents es.
Proof. unfold position, kept. intros Hp Hn. rewrite Hn in *. destruct Hp as [-> _]. by rewrite firstn_all, app_nil_r. Qed.

Lemma zlen_moved ps : zlen (moved ps) <= zlen ps.
Proof. unfold zlen, moved. pose proof (length_filter (fun p : Z * Z => fst p <> snd p) ps). lia. Qed.

(** One iteration, which handles the next [m] blocks. *)
Lemma removing_step ps s e d (m := Z.min (num_blocks e - r_src_offset s) (num_blocks d - r_dst_offset s))
    (rm := start_block e + r_src_offset s =? start_block d + r_dst_offset s) :
  removing ps s -> r_src s !! r_src_idx s = Some e -> r_dst s !! r_dst_idx s = Some d -> zlen ps * kBlockSize < 2 ^ 64 ->
  exists new_src srcs src_idx new_dst dsts dst_idx,
    ProcessExtentBlockRange (r_src s) (r_src_idx s) rm (r_src_offset s) (r_src_offset s + m) = Ret (new_src, srcs, src_idx)
    /\ ProcessExtentBlockRange (r_dst s) (r_dst_idx s) rm (r_dst_offset s) (r_dst_offset s + m) = Ret (new_dst, dsts, dst_idx)
    /\ let s' := mkRemoval srcs src_idx (if (new_src : bool) then 0 else r_src_offset s + m)
                    dsts dst_idx (if (new_dst : bool) then 0 else r_dst_offset s + m)
                    (if rm then u64 (r_removed s + m * kBlockSize) else r_removed s) rm in
       removing ps s' /\ (length (src_rest s') < length (src_rest s))%nat.
Proof.
  intros [[Hs Hps] [Hd Hpd] Hr Hk (seen & Hseen & Hzip & Hrem)] He Hd' Hlen.
  assert (Ho : 0 <= r_src_offset s < num_blocks e) by (unfold position in Hps; by rewrite He in Hps).
  assert (Ho' : 0 <= r_dst_offset s < num_blocks d) by (unfold position in Hpd; by rewrite Hd' in Hpd).
  assert (Hm : 0 < m <= num_blocks e - r_src_offset s /\ m <= num_blocks d - r_dst_offset s) by (unfold m; lia).
  destruct (ProcessExtentBlockRange_spec _ _ e rm (r_src_offset s) (r_src_offset s + m) Hs He ltac:(lia) ltac:(lia))
    as (new_src & srcs & src_idx & -> & Hes & Hpos & Hrest & Hkept).
  destruct (ProcessExtentBlockRange_spec _ _ d rm (r_dst_offset s) (r_dst_offset s + m) Hd Hd' ltac:(lia) ltac:(lia))
    as (new_dst & dsts & dst_idx & -> & Hed & Hpos' & Hrest' & Hkept').
  do 6 eexists. split; [done|]. split; [done|]. intros s'.
  replace (r_src_offset s + m - r_src_offset s) with m in * by lia.
  replace (r_dst_offset s + m - r_dst_offset s) with m in * by lia.
  pose proof (rest_front _ _ (r_src_offset s) _ He ltac:(lia) m ltac:(lia)) as Hf.
  pose proof (rest_front _ _ (r_dst_offset s) _ Hd' ltac:(lia) m ltac:(lia)) as Hf'.
  fold (src_rest s) in *. fold (dst_rest s) in *. change (src_rest s' = drop (Z.to_nat m) (src_rest s)) in Hrest.
  change (dst_rest s' = drop (Z.to_nat m) (dst_rest s)) in Hrest'. change (kept srcs src_idx _) with (src_kept s') in Hkept.
  change (kept dsts dst_idx _) with (dst_kept s') in Hkept'. fold (src_kept s) in Hkept. fold (dst_kept s) in Hkept'.
  assert (Hl : (Z.to_nat m <= length (src_rest s))%nat) by (rewrite Hf, length_app, length_seqZ; lia).
  split; [|rewrite Hrest, length_drop; lia].
  set (run := zip (seqZ (start_block e + r_src_offset s) m) (seqZ (start_block d + r_dst_offset s) m)).
  assert (Hrun : zlen run = m) by (unfold run, zlen; rewrite length_zip_with, !length_seqZ; lia).
  assert (Hps' : ps = (seen ++ run) ++ zip (src_rest s') (dst_rest s')).
  { rewrite Hseen, Hf, Hf', Hrest, Hrest', <- app_assoc. f_equal. apply zip_with_app. by rewrite !length_seqZ. }
  assert (Hmv : moved (seen ++ run) = moved seen ++ if rm then [] else run).
  { unfold moved. rewrite filter_app. f_equal. apply moved_run. }
  split; [done..| | |].
  - rewrite Hrest, Hrest', !length_drop. lia.
  - rewrite Hkept, Hkept', !length_app, Hk. destruct rm; [done|]. by rewrite !length_seqZ.
  - exists (seen ++ run). split_and!; [done| |].
    + rewrite Hkept, Hkept', Hmv, <- Hzip. destruct rm; [by rewrite !app_nil_r|]. by apply zip_with_app.
    + rewrite Hmv, !zlen_app, Hrun. cbn [r_removed s']. pose proof (zlen_moved seen). pose proof (zlen_nonneg (moved seen)).
      rewrite Hps', !zlen_app, Hrun in Hlen. pose proof (zlen_nonneg (zip (src_rest s') (dst_rest s'))).
      destruct rm; rewrite ?zlen_nil, ?Hrun; [rewrite uint_small by (unfold is_uint, kBlockSize in *; lia)|]; unfold kBlockSize in *; lia.
Qed.

Lemma remove_loop_spec fuel ps s :
  removing ps s -> zlen ps * kBlockSize < 2 ^ 64 -> (length (src_rest s) <= fuel)%nat ->
  exists s', remove_loop fuel s = Ret s' /\ Forall extent_ok (r_src s') /\ Forall extent_ok (r_dst s')
    /\ zip (ExpandExtents (r_src s')) (ExpandExtents (r_dst s')) = moved ps
    /\ length (ExpandExtents (r_src s')) = length (ExpandExtents (r_dst s'))
    /\ r_removed s' = (zlen ps - zlen (moved ps)) * kBlockSize.
Proof.
  revert s. induction fuel as [|fuel IH]; intros s Hs Hlen Hf; simpl;
    pose proof Hs as [[Hse Hsp] [Hde Hdp] Hr Hk (seen & Hps & Hz & Hrem)];
    destruct (r_src s !! r_src_idx s) as [e|] eqn:He.
  { exfalso. apply rest_nil in Hsp; [by rewrite He in Hsp| |done]. apply nil_length_inv. unfold src_rest in Hf. lia. }
  2: destruct (r_dst s !! r_dst_idx s) as [d|] eqn:Hd.
  2: { destruct (removing_step ps s e d Hs He Hd Hlen) as (ns & srcs & si & nd & dsts & di & Hp1 & Hp2 & Hs' & Hlt).
       assert (Ho : 0 <= r_src_offset s < num_blocks e) by (unfold position in Hsp; by rewrite He in Hsp).
       assert (Ho' : 0 <= r_dst_offset s < num_blocks d) by (unfold position in Hdp; by rewrite Hd in Hdp).
       assert (Hee : extent_ok e) by (rewrite Forall_lookup in Hse; eauto).
       assert (Hde' : extent_ok d) by (rewrite Forall_lookup in Hde; eauto).
       unfold extent_ok, kSparseHole in Hee, Hde'.
       rewrite !(uint_small 64 (_ + r_src_offset s)), !(uint_small 64 (_ + r_dst_offset s)) by (unfold is_uint; lia).
       rewrite !(uint_small 64 (_ - _)) by (unfold is_uint; lia).
       rewrite !(uint_small 64 (_ + Z.min _ _)) by (unfold is_uint; lia).
       rewrite Hp1, outcome_bind_ret, Hp2, outcome_bind_ret. apply IH; [done..|]. lia. }
  all: assert (Hn : src_rest s = []).
  1, 5: unfold src_rest, rest; by rewrite He.
  2: { apply nil_length_inv. rewrite Hr. unfold dst_rest, rest. by rewrite Hd. }
  all: assert (Hd' : r_dst s !! r_dst_idx s = None) by (eapply rest_nil; [|done..]; apply nil_length_inv; fold (dst_rest s); by rewrite <- Hr, Hn).
  all: assert (He' : r_src s !! r_src_idx s = None) by (eapply rest_nil; [|done..]; done).
  all: exists s; unfold src_kept, dst_kept in *; rewrite !kept_end in * by done.
  all: rewrite Hn in Hps; simpl in Hps; rewrite app_nil_r in Hps; subst ps; done.
Qed.

Lemma RemoveIdenticalBlockRanges_spec src dst n :
  Forall extent_ok src -> Forall extent_ok dst -> total src = total dst -> total src * kBlockSize < 2 ^ 64 ->
  n mod kBlockSize = 0 ->
  exists removed src' dst', RemoveIdenticalBlockRanges src dst n = Ret (removed, src', dst')
    /\ Forall extent_ok src' /\ Forall extent_ok dst'
    /\ zip (ExpandExtents src') (ExpandExtents dst') = moved (zip (ExpandExtents src) (ExpandExtents dst))
    /\ length (ExpandExtents src') = length (ExpandExtents dst')
    /\ removed = (total src - zlen (ExpandExtents src')) * kBlockSize.
Proof.
  intros Hs Hd Ht Hlen Hn. unfold RemoveIdenticalBlockRanges.
  pose proof (stands_start [] src ltac:(done) Hs) as (_ & Hps & Hrs & Hks). pose proof (stands_start [] dst ltac:(done) Hd) as (_ & Hpd & Hrd & Hkd).
  assert (Hls : length (ExpandExtents src) = length (ExpandExtents dst)).
  { pose proof (ExpandExtents_length src Hs). pose proof (ExpandExtents_length dst Hd). unfold zlen in *. lia. }
  assert (Hzl : zlen (zip (ExpandExtents src) (ExpandExtents dst)) = total src).
  { rewrite <- (ExpandExtents_length src Hs). unfold zlen. rewrite length_zip_with. lia. }
  set (s0 := mkRemoval src 0 0 dst 0 0 0 false).
  assert (H0 : removing (zip (ExpandExtents src) (ExpandExtents dst)) s0).
  { split; [done|done|..]; unfold src_rest, dst_rest, src_kept, dst_kept; simpl in *; [by rewrite Hrs, Hrd|by rewrite Hks, Hkd|].
    exists []. by rewrite Hrs, Hrd, Hks, Hkd. }
  rewrite BlocksInExtents_total by (done || unfold kBlockSize in Hlen; lia).
  destruct (remove_loop_spec (Z.to_nat (total src)) _ s0 H0) as (s' & -> & Hs' & Hd' & Hz & Hl & Hr).
  { by rewrite Hzl. }
  { unfold src_rest, s0. simpl in *. rewrite Hrs. pose proof (ExpandExtents_length src Hs). unfold zlen in *. lia. }
  rewrite outcome_bind_ret. rewrite Hn. cbn [negb Z.eqb]. rewrite andb_false_r. do 3 eexists. split; [done|]. split_and!; try done.
  rewrite Hr, Hzl, <- Hz. unfold zlen. rewrite length_zip_with. do 2 f_equal. lia.
Qed.

(** ** Full operations *)

Section Full.
Context `{ToolsOk}.

(** What the data of an operation stand for. *)
Definition decodes (t : InstallOperation_Type) (data old new : list Z) : Prop :=
  match t with
  | MOVE | SOURCE_COPY => old = new
  | REPLACE => data = new
  | REPLACE_BZ => bunzip2 data = Some new
  | REPLACE_XZ => unxz data = Some new
  | BSDIFF | SOURCE_BSDIFF => bspatch old data = Some new
  | IMGDIFF => imgpatch old data = Some new
  | ZERO | DISCARD => Forall (fun x => x = 0) new
  end.

Lemma zeros_eq (l : list Z) : Forall (fun x => x = 0) l -> l = replicate (length l) 0.
Proof. induction 1 as [|x l -> _ IH]; [done|]. simpl. by f_equal. Qed.

Lemma zero_blocks (xs : list (list Z)) :
  (forall x, x ∈ xs -> zlen x = kBlockSize) -> Forall (fun x => x = 0) (concat xs) ->
  xs = replicate (length xs) zero_block.
Proof.
  intros Hx Hz. induction xs as [|x xs IH]; [done|]. simpl in *. apply Forall_app in Hz as [Hz1 Hz2].
  f_equal; [|apply IH; [intros y Hy; apply Hx; by right|done]]. rewrite (zeros_eq x Hz1) at 1. unfold zero_block. f_equal.
  assert (Hl : zlen x = kBlockSize) by (apply Hx; left). unfold zlen in Hl. lia.
Qed.

Lemma decodes_apply t data (xs ys : list (list Z)) :
  (forall x, x ∈ xs -> zlen x = kBlockSize) -> (forall y, y ∈ ys -> zlen y = kBlockSize) ->
  decodes t data (concat xs) (concat ys) -> apply_blocks t (length ys) data xs = ys.
Proof.
  intros Hx Hy. destruct t; simpl; intros Hd; rewrite ?Hd; simpl; try (by apply blocks_of_concat).
  all: (by apply concat_blocks_inj) || by rewrite <- zero_blocks.
Qed.

Lemma bzip_loop_spec fuel data buf :
  0 < buf -> 2 ^ 32 <= buf * 2 ^ Z.of_nat fuel ->
  bzip_loop fuel data buf <> Abort /\ forall out, bzip_loop fuel data buf = Ret out -> bunzip2 out = Some data.
Proof.
  revert buf. induction fuel as [|fuel IH]; intros buf Hb Hf; simpl.
  { rewrite (proj2 (Z.ltb_lt _ _)) by lia. done. }
  rewrite Nat2Z.inj_succ, Z.pow_succ_r in Hf by lia. destruct (2 ^ 32 - 1 <? buf); [done|].
  destruct (BZ2_bzBuffToBuffCompress data buf) eqn:E; [|apply IH; lia|done].
  split; [done|]. intros out [= <-]. by eapply bzip2_ok.
Qed.

Lemma BzipCompress_spec data :
  data <> [] -> BzipCompress data <> Abort /\ forall out, BzipCompress data = Ret out -> bunzip2 out = Some data.
Proof.
  intros Hne. unfold BzipCompress. destruct (Z.eqb_spec (zlen data) 0) as [E%zlen_0|_]; [done|].
  pose proof (zlen_nonneg data). pose proof (Z.div_pos (zlen data * 35) 100). apply bzip_loop_spec; lia.
Qed.

(** The best full operation decodes to the data. *)
Lemma GenerateBestFullOperation_spec new_data version :
  new_data <> [] ->
  exists blob t, GenerateBestFullOperation new_data version = Ret (blob, t) /\ OperationAllowed version t = true
    /\ (IsAReplaceOperation t = true \/ t = ZERO) /\ carries t blob /\ forall old, decodes t blob old new_data.
Proof.
  intros Hne. unfold GenerateBestFullOperation. rewrite bool_decide_false by done.
  destruct (OperationAllowed version ZERO && forallb (fun x => x =? 0) new_data) eqn:Ez.
  { apply andb_true_iff in Ez as [Ea Ez]. exists [], ZERO. split_and!; try done; [by right|]. intros old. simpl.
    rewrite forallb_forall in Ez. apply Forall_forall. intros x Hx. apply Z.eqb_eq, Ez. by apply list_elem_of_In. }
  clear Ez. cbv beta zeta.
  set (good := fun b : option (list Z * InstallOperation_Type) => match b with
    | None => True | Some (out, t) => out <> [] /\ OperationAllowed version t = true /\ IsAReplaceOperation t = true
                                      /\ forall old, decodes t out old new_data end).
  set (b1 := if OperationAllowed version REPLACE_XZ then _ else None).
  assert (Hb1 : good b1).
  { unfold b1. destruct (OperationAllowed version REPLACE_XZ) eqn:Ea; [|done]. unfold XzCompress. rewrite bool_decide_false by done. destruct (Xz_Encode new_data) as [out|] eqn:Ex; [|done].
    case_bool_decide; [done|]. simpl. split_and!; try done. intros old. by apply xz_ok. }
  destruct (BzipCompress_spec new_data Hne) as [Hna Hbz]. cbn [OperationAllowed].
  assert (exists b2, good b2 /\ match BzipCompress new_data with
       | Ret data => Ret (if negb (bool_decide (data = [])) && match b1 with None => true | Some (out, _) => zlen data <? zlen out end
                          then Some (data, REPLACE_BZ) else b1)
       | Fail => Ret b1
       | Abort => Abort
       end = Ret b2) as (b2 & Hb2 & ->).
  { destruct (BzipCompress new_data) as [data| |]; [|by exists b1|done]. eexists. split; [|done].
    case_bool_decide; simpl; [done|]. destruct (match b1 with None => _ | Some _ => _ end); [|done]. simpl. split_and!; try done.
    intros old. by apply Hbz. }
  rewrite outcome_bind_ret. destruct b2 as [[out t]|]; [destruct (zlen new_data <=? zlen out)|].
  2: { destruct Hb2 as (? & ? & ? & ?). exists out, t. split_and!; try done; [by left|by destruct t]. }
  all: exists new_data, REPLACE; split_and!; try done; by left.
Qed.
End Full.

(** ** One operation *)

(** The diff program runs and returns a patch. *)
Class DiffRuns `{Tools} : Prop :=
  bsdiff_runs : forall old new, exists patch, diff_program kBsdiffPath old new = Some patch /\ patch <> [].

Definition in_file (f : list Z) (es : list Extent) : Prop := forall b, b ∈ ExpandExtents es -> (b + 1) * kBlockSize <= zlen f.

Lemma in_file_extents f es :
  Forall extent_ok es -> in_file f es -> Forall (fun e => (start_block e + num_blocks e) * kBlockSize <= zlen f) es.
Proof.
  intros Hes Hf. apply Forall_forall. intros e He. assert (Hok : extent_ok e) by (rewrite Forall_forall in Hes; auto).
  pose proof Hok as Hok'. unfold extent_ok in Hok'.
  replace (start_block e + num_blocks e) with (start_block e + num_blocks e - 1 + 1) by lia. apply Hf.
  unfold ExpandExtents. apply list_elem_of_bind. exists e. split; [|done]. rewrite expand_ok by done. apply elem_of_seqZ. lia.
Qed.

Lemma in_file_blocks f es x :
  Forall extent_ok es -> in_file f es -> x ∈ block_of f <$> ExpandExtents es -> zlen x = kBlockSize.
Proof.
  intros Hes Hf (b & -> & Hb)%list_elem_of_fmap. apply zlen_block; [|by apply Hf].
  pose proof (expand_block_ok es b Hes Hb). unfold block_ok in *. lia.
Qed.

Section Diff.
Context `{KernelOk} `{ToolsOk} `{!DiffRuns}.
Context (oldf newf : list Z) (Hold : zlen oldf < 2 ^ 63) (Hnew : zlen newf < 2 ^ 63).
Context (version : PayloadVersion) (Hversion : 1 <= minor version).

(** The hash of the data and that of the source. *)
Definition hashes (op : InstallOperation) : option (list Z) * option (list Z) := (data_sha256_hash op, src_sha256_hash op).

(** An operation that makes the blocks [N] of the new image from the blocks [O] of the old one. *)
Record diff_ok (O N data : list Z) (op : InstallOperation) : Prop := {
  do_type : exists t, op_type op = Some t /\ OperationAllowed version t = true
    /\ src_length op = if IsAReplaceOperation t then None else Some (zlen (ExpandExtents (src_extents op)) * kBlockSize);
  do_full : IsAReplaceOperation (type_of op) = true -> src_extents op = [];
  do_empty : dst_extents op = [] -> op_type op = Some MOVE;
  do_dst_length : dst_length op = Some (zlen (ExpandExtents (dst_extents op)) * kBlockSize);
  do_extents : Forall extent_ok (src_extents op) /\ Forall extent_ok (dst_extents op);
  do_src : ExpandExtents (src_extents op) `sublist_of` O;
  do_dst : ExpandExtents (dst_extents op) `sublist_of` N;
  do_all : forall b, b ∈ N -> b ∈ ExpandExtents (dst_extents op)
    \/ InplaceUpdate version = true /\ b ∈ O /\ block_of oldf b = block_of newf b;
  do_blocks : apply_blocks (type_of op) (length (ExpandExtents (dst_extents op))) data
                (block_of oldf <$> ExpandExtents (src_extents op)) = block_of newf <$> ExpandExtents (dst_extents op);
  do_decodes : decodes (type_of op) data (concat (block_of oldf <$> ExpandExtents (src_extents op)))
                 (concat (block_of newf <$> ExpandExtents (dst_extents op)));
  do_data : carries (type_of op) data;
  do_raw : type_of op = REPLACE -> data = concat (block_of newf <$> ExpandExtents (dst_extents op));
  do_hash : hashes op = (None, None);
}.

(** What the choice of an operation other than a move guarantees. *)
Definition chosen (best : list Z * InstallOperation_Type) (old_bytes new_bytes : list Z) : Prop :=
  OperationAllowed version (snd best) = true /\ snd best <> MOVE /\ carries (snd best) (fst best) /\ decodes (snd best) (fst best) old_bytes new_bytes
  /\ (IsAReplaceOperation (snd best) = true \/ snd best = ZERO -> forall d, decodes (snd best) (fst best) d new_bytes).

Lemma diff_blobs_spec bs img old_bytes new_bytes best :
  chosen best old_bytes new_bytes ->
  (bs = true -> OperationAllowed version SOURCE_BSDIFF || OperationAllowed version BSDIFF = true) ->
  (img = true -> OperationAllowed version IMGDIFF = true) ->
  exists best', diff_blobs version bs img old_bytes new_bytes best = Ret best' /\ chosen best' old_bytes new_bytes.
Proof.
  intros Hbest Hbs Himg. unfold diff_blobs.
  assert (exists b1, chosen b1 old_bytes new_bytes /\ (if bs then
       bsdiff_delta ← DiffFiles kBsdiffPath old_bytes new_bytes;
       _ ← check_that (0 <? zlen bsdiff_delta);
       Ret (if zlen bsdiff_delta <? zlen (fst best)
            then (bsdiff_delta, if OperationAllowed version SOURCE_BSDIFF then SOURCE_BSDIFF else BSDIFF) else best)
     else Ret best) = Ret b1) as (b1 & Hb1 & ->).
  { destruct bs; [|by exists best]. specialize (Hbs eq_refl).
    destruct (bsdiff_runs old_bytes new_bytes) as (patch & Hp & Hne). unfold DiffFiles. rewrite Hp, outcome_bind_ret.
    assert (0 < zlen patch) by (destruct patch; [done|]; rewrite zlen_cons; pose proof (zlen_nonneg patch); lia).
    rewrite (proj2 (Z.ltb_lt 0 (zlen patch))) by done. cbn [check_that]. rewrite outcome_bind_ret. eexists. split; [|done].
    destruct (zlen patch <? zlen (fst best)); [|done]. apply bsdiff_ok in Hp. unfold chosen. cbn [fst snd].
    destruct (OperationAllowed version SOURCE_BSDIFF) eqn:Es; simpl in Hbs; split_and!; first [done | by intros []]. }
  rewrite outcome_bind_ret. destruct img; [|by exists b1]. specialize (Himg eq_refl).
  destruct (ContainsGZip old_bytes && ContainsGZip new_bytes) eqn:Eg; simpl; rewrite Eg; [|by exists b1].
  unfold DiffFiles. destruct (diff_program kImgdiffPath old_bytes new_bytes) as [patch|] eqn:Ep; [|by exists b1].
  eexists. split; [done|]. destruct (Z.ltb_spec 0 (zlen patch)) as [Hpos|]; [|done]. cbn [andb]. destruct (zlen patch <? zlen (fst b1)); [|done].
  apply imgdiff_ok in Ep. unfold chosen. cbn [fst snd]. split_and!; try done; [by intros ->|by intros []].
Qed.

Section Extents.
Context (old new : list Extent).
Context (Hoe : Forall extent_ok old) (Hne : Forall extent_ok new) (Hof : in_file oldf old) (Hnf : in_file newf new).

Abbreviation old_data := (concat (block_of oldf <$> ExpandExtents old)).
Abbreviation new_data := (concat (block_of newf <$> ExpandExtents new)).

Lemma zlen_data f es : Forall extent_ok es -> in_file f es -> zlen (concat (block_of f <$> ExpandExtents es)) = total es * kBlockSize.
Proof.
  intros Hes Hf. rewrite concat_zlen by (intros x; by apply in_file_blocks). f_equal.
  unfold zlen. rewrite length_fmap. by apply ExpandExtents_length.
Qed.

Lemma total_file f es : Forall extent_ok es -> in_file f es -> total es * kBlockSize < 2 ^ 64 ->
  total es < 2 ^ 64 /\ BlocksInExtents es = total es /\ u64 (kBlockSize * BlocksInExtents es) = total es * kBlockSize.
Proof.
  intros Hes Hf Ht. pose proof (total_nonneg es Hes). assert (total es < 2 ^ 64) by (unfold kBlockSize in Ht; lia).
  rewrite BlocksInExtents_total by done. rewrite uint_small by (unfold is_uint, kBlockSize in *; lia). split_and!; [done..|lia].
Qed.

Lemma diff_plain t data :
  t <> MOVE -> OperationAllowed version t = true -> carries t data -> decodes t data old_data new_data -> new <> [] -> new_data <> [] ->
  (IsAReplaceOperation t = true \/ t = ZERO -> forall d, decodes t data d new_data) ->
  total old * kBlockSize < 2 ^ 64 -> total new * kBlockSize < 2 ^ 64 ->
  let op := mkOperation (Some t) None None old (Some (u64 (total old * kBlockSize - 0))) new (Some (u64 (total new * kBlockSize - 0))) None in
  diff_ok (ExpandExtents old) (ExpandExtents new) data
    (if IsAReplaceOperation t then set_lengths None (dst_length op) (set_src_extents [] op) else op).
Proof.
  intros Ht Ha Hc Hd Hnn Hnd Hfull Hto Htn op. pose proof (total_nonneg old Hoe). pose proof (total_nonneg new Hne).
  unfold op. rewrite !Z.sub_0_r, !uint_small by (unfold is_uint, kBlockSize in *; lia). clear op.
  assert (Hap : forall xs, (forall x, x ∈ xs -> zlen x = kBlockSize) -> decodes t data (concat xs) new_data ->
    apply_blocks t (length (ExpandExtents new)) data xs = block_of newf <$> ExpandExtents new).
  { intros xs Hxs Hdec. rewrite <- (length_fmap (block_of newf)).
    apply decodes_apply; [done| |done]. intros x. by apply in_file_blocks. }
  destruct (IsAReplaceOperation t) eqn:Er; split; cbn [op_type src_extents dst_extents src_length dst_length set_lengths set_src_extents];
    rewrite ?ExpandExtents_length by done; try done.
  all: try (by exists t; rewrite Er).
  all: try (by split; [constructor|]). all: try (by split).
  all: try apply sublist_nil_l. all: try (by left).
  - unfold type_of. simpl. apply (Hap []); [set_solver|]. apply Hfull. by left.
  - unfold type_of. simpl. apply Hfull. by left.
  - unfold type_of. simpl. intros ->. simpl in Hd. by rewrite Hd.
  - unfold type_of. simpl. by rewrite Er.
  - unfold type_of. simpl. apply Hap; [|done]. intros x. by apply in_file_blocks.
  - unfold type_of. simpl. intros ->. simpl in Hd. by rewrite Hd.
Qed.

Lemma diff_move removed src dst :
  InplaceUpdate version = true -> total old = total new -> total old * kBlockSize < 2 ^ 64 -> old_data = new_data ->
  Forall extent_ok src -> Forall extent_ok dst ->
  zip (ExpandExtents src) (ExpandExtents dst) = moved (zip (ExpandExtents old) (ExpandExtents new)) ->
  length (ExpandExtents src) = length (ExpandExtents dst) ->
  removed = (total old - zlen (ExpandExtents src)) * kBlockSize ->
  diff_ok (ExpandExtents old) (ExpandExtents new) []
    (mkOperation (Some MOVE) None None src (Some (u64 (total old * kBlockSize - removed))) dst
       (Some (u64 (total new * kBlockSize - removed))) None).
Proof.
  intros Hmove Htot Hbound Hdata Hs Hd Hz Hl Hr.
  assert (Hlen : length (ExpandExtents old) = length (ExpandExtents new)).
  { pose proof (ExpandExtents_length old Hoe). pose proof (ExpandExtents_length new Hne). unfold zlen in *. lia. }
  set (ps := zip (ExpandExtents old) (ExpandExtents new)) in *.
  assert (Hsrc : ExpandExtents src = fst <$> moved ps) by (rewrite <- Hz, fst_zip by lia; done).
  assert (Hdst : ExpandExtents dst = snd <$> moved ps) by (rewrite <- Hz, snd_zip by lia; done).
  assert (Hpo : fst <$> ps = ExpandExtents old) by (apply fst_zip; lia).
  assert (Hpn : snd <$> ps = ExpandExtents new) by (apply snd_zip; lia).
  assert (Hsame : forall p, p ∈ ps -> block_of oldf (fst p) = block_of newf (snd p)).
  { apply concat_blocks_inj in Hdata; [|intros x; by apply in_file_blocks..]. rewrite <- Hpo, <- Hpn, <- !list_fmap_compose in Hdata.
    intros p [i Hi]%list_elem_of_lookup. apply (f_equal (.!! i)) in Hdata. rewrite !list_lookup_fmap, Hi in Hdata. by injection Hdata. }
  assert (Hsub : moved ps `sublist_of` ps) by apply sublist_filter.
  pose proof (zlen_nonneg (ExpandExtents src)) as Hn0.
  assert (Hle : zlen (ExpandExtents src) <= total old).
  { rewrite <- (ExpandExtents_length old Hoe), <- Hpo, Hsrc. apply sublist_length in Hsub. unfold zlen. rewrite !length_fmap. lia. }
  assert (Hblocks : block_of oldf <$> ExpandExtents src = block_of newf <$> ExpandExtents dst).
  { rewrite Hsrc, Hdst, <- !list_fmap_compose. apply list_fmap_ext. intros i p Hi.
    apply Hsame. eapply elem_of_sublist; [|exact Hsub]. by eapply list_elem_of_lookup_2. }
  replace (total old * kBlockSize - removed) with (zlen (ExpandExtents src) * kBlockSize) by lia.
  replace (total new * kBlockSize - removed) with (zlen (ExpandExtents src) * kBlockSize) by lia.
  rewrite !uint_small by (unfold is_uint, kBlockSize in *; lia).
  split; simpl; try done.
  - by exists MOVE.
  - unfold zlen. by rewrite Hl.
  - rewrite Hsrc, <- Hpo. by apply fmap_sublist.
  - rewrite Hdst, <- Hpn. by apply fmap_sublist.
  - intros b Hb. rewrite <- Hpn in Hb. apply list_elem_of_fmap in Hb as ([a b'] & -> & Hp). simpl.
    destruct (decide (a = b')) as [->|Hab]; [right; split_and!; [done|rewrite <- Hpo; by apply (list_elem_of_fmap_2 fst _ _ Hp)|by apply (Hsame _ Hp)]|left].
    rewrite Hdst. apply list_elem_of_fmap. exists (a, b'). split; [done|]. by apply list_elem_of_filter.
  - by rewrite Hblocks.
Qed.

Lemma ReadExtentsToDiff_spec :
  new <> [] -> total old * kBlockSize < 2 ^ 64 -> total new * kBlockSize < 2 ^ 64 ->
  exists data op, ReadExtentsToDiff oldf newf old new version = Ret (data, op)
    /\ diff_ok (ExpandExtents old) (ExpandExtents new) data op
    /\ (old = [] -> dst_extents op = new /\ (IsAReplaceOperation (type_of op) = true \/ type_of op = ZERO)).
Proof.
  intros Hnn Hto Htn. destruct (total_file oldf old Hoe Hof Hto) as (Hto' & Hbo & Huo).
  destruct (total_file newf new Hne Hnf Htn) as (Htn' & Hbn & Hun).
  unfold ReadExtentsToDiff. cbv zeta. rewrite Huo, Hun, Hbo.
  rewrite (ReadExtents_spec newf) by (done || by apply in_file_extents). rewrite outcome_bind_ret.
  pose proof (zlen_data newf new Hne Hnf) as Hzn. pose proof (zlen_data oldf old Hoe Hof) as Hzo.
  pose proof (total_pos new Hne Hnn) as Htpos.
  assert (Hnd : new_data <> []) by (intros E; rewrite E in Hzn; unfold zlen, kBlockSize in *; simpl in *; lia).
  rewrite bool_decide_false by done. cbn [negb guard_that]. rewrite outcome_bind_ret.
  destruct (GenerateBestFullOperation_spec new_data version Hnd) as (blob & t & -> & Ha & Hr & Hb & Hdec). rewrite outcome_bind_ret.
  pose proof (total_nonneg old Hoe).
  destruct (Z.ltb_spec 0 (total old)) as [Hpos|Hnone]; simpl negb; cbv iota.
  2: { assert (Hn : old = []) by (destruct (decide (old = [])) as [?|Hx]; [done|]; pose proof (total_pos old Hoe Hx); lia).
       rewrite outcome_bind_ret, outcome_bind_ret. cbv iota beta zeta.
       rewrite bool_decide_false by (intros ->; destruct Hr; done). rewrite outcome_bind_ret. cbv iota beta zeta.
       do 2 eexists. split; [done|]. replace (zlen (@nil Z)) with (total old * kBlockSize) by (by rewrite Hn). rewrite Hzn.
       split; [apply diff_plain; try done; by intros ->; destruct Hr|]. intros _.
       destruct (IsAReplaceOperation t) eqn:Er; unfold type_of; simpl; by rewrite ?Er. }
  assert (Hno : old = [] -> False) by (intros ->; done).
  rewrite (ReadExtents_spec oldf) by (done || by apply in_file_extents). rewrite outcome_bind_ret.
  assert (Hfull : chosen (blob, t) old_data new_data).
  { split_and!; simpl; try done. by intros ->; destruct Hr. }
  case_bool_decide as Heq.
  - assert (Htot : total old = total new) by (rewrite Heq in Hzo; unfold kBlockSize in *; lia).
    rewrite outcome_bind_ret. cbv iota beta zeta. destruct (OperationAllowed version SOURCE_COPY) eqn:Es.
    + rewrite bool_decide_false by done. rewrite outcome_bind_ret. cbv iota beta zeta. do 2 eexists. split; [done|].
      rewrite Hzo, Hzn. split; [|done]. apply (diff_plain SOURCE_COPY []); try done. by intros [].
    + rewrite bool_decide_true by done. rewrite Hzn.
      destruct (RemoveIdenticalBlockRanges_spec old new (total new * kBlockSize)) as (removed & src & dst & -> & ?); try done.
      { by rewrite Z.mod_mul. }
      rewrite outcome_bind_ret. cbv iota beta zeta. do 2 eexists. split; [done|]. rewrite Hzo.
      split; [|done]. destruct_and!. apply diff_move; try done.
      unfold OperationAllowed, kSourceMinorPayloadVersion in Es. unfold InplaceUpdate, kInPlaceMinorPayloadVersion. lia.
  - match goal with |- context [if ?b1 || ?b2 then diff_blobs _ _ _ _ _ _ else _] => set (bs := b1); set (img := b2) end.
    assert (exists best, chosen best old_data new_data /\ (if bs || img then diff_blobs version bs img old_data new_data (blob, t)
        else Ret (blob, t)) = Ret best) as ([data t'] & (Ha' & Hm & Hc & Hd & Hf) & ->).
    { destruct (bs || img); [|by exists (blob, t)].
      destruct (diff_blobs_spec bs img old_data new_data (blob, t) Hfull) as (best & ? & ?).
      - intros E. by apply andb_true_iff in E as [? _].
      - intros E. by apply andb_true_iff in E as [? _].
      - by exists best. }
    rewrite outcome_bind_ret. cbv iota beta zeta. rewrite bool_decide_false by done. rewrite outcome_bind_ret. cbv iota beta zeta.
    do 2 eexists. split; [done|]. rewrite Hzo, Hzn. split; [by apply diff_plain|done].
Qed.
End Extents.

(** ** A list of operations *)

(** The operation in the payload: its data are in the file of blobs and stay there. *)
Record operation_ok (w : BlobFileWriter) (op : AnnotatedOperation) : Prop := {
  ok_type : exists t, op_type op = Some t /\ OperationAllowed version t = true;
  ok_full : IsAReplaceOperation (type_of op) = true -> src_extents op = [];
  ok_dst : dst_extents op <> [];
  ok_lengths : type_of op <> MOVE -> type_of op <> SOURCE_COPY ->
    dst_length op = Some (zlen (ExpandExtents (dst_extents op)) * kBlockSize)
    /\ src_length op = (if IsAReplaceOperation (type_of op) then None
                        else Some (zlen (ExpandExtents (src_extents op)) * kBlockSize));
  ok_extents : Forall extent_ok (src_extents op) /\ Forall extent_ok (dst_extents op);
  ok_blocks : forall w', grows w w' -> blob_fits w' \/ type_of op = MOVE \/ type_of op = SOURCE_COPY ->
    produce w' op (block_of oldf <$> ExpandExtents (src_extents op)) = block_of newf <$> ExpandExtents (dst_extents op);
  ok_decodes : forall w', grows w w' -> blob_fits w' \/ type_of op = MOVE \/ type_of op = SOURCE_COPY ->
    decodes (type_of op) (operation_data w' op) (concat (block_of oldf <$> ExpandExtents (src_extents op)))
      (concat (block_of newf <$> ExpandExtents (dst_extents op)));
  ok_raw : type_of op = REPLACE -> stored w op (concat (block_of newf <$> ExpandExtents (dst_extents op)));
  ok_data : data_in w op;
  ok_size : zlen (ExpandExtents (src_extents op)) * kBlockSize < 2 ^ 63 /\ zlen (ExpandExtents (dst_extents op)) * kBlockSize < 2 ^ 63;
  ok_hash : hashes op = (None, None);
}.

Definition read_blocks (aops : list AnnotatedOperation) : list Z := aops ≫= fun op => ExpandExtents (src_extents op).
Definition written_blocks (aops : list AnnotatedOperation) : list Z := aops ≫= fun op => ExpandExtents (dst_extents op).

(** Operations that make the blocks [N] of the new image from blocks of [O]. *)
Record made (w : BlobFileWriter) (O N : list Z) (aops : list AnnotatedOperation) : Prop := {
  md_ops : Forall (operation_ok w) aops;
  md_reads : read_blocks aops `sublist_of` O;
  md_writes : written_blocks aops `sublist_of` N;
  md_all : forall b, b ∈ N -> b ∈ written_blocks aops \/ InplaceUpdate version = true /\ b ∈ O /\ block_of oldf b = block_of newf b;
}.

Lemma operation_ok_grows w w' op : grows w w' -> operation_ok w op -> operation_ok w' op.
Proof.
  intros Hg []. split; try done; [|..|by eapply data_in_grows].
  - intros w'' Hg'. apply ok_blocks0. by etrans.
  - intros w'' Hg'. apply ok_decodes0. by etrans.
  - intros Ht. eapply stored_grows; [done|auto].
Qed.

Lemma made_grows w w' O N aops : grows w w' -> made w O N aops -> made w' O N aops.
Proof. intros Hg []. split; try done. eapply Forall_impl; [done|]. intros op. by apply operation_ok_grows. Qed.

Lemma made_nil w O : made w O [] [].
Proof. split; [by constructor|apply sublist_nil_l..|]. intros b Hb. by apply not_elem_of_nil in Hb. Qed.

Lemma made_app w O1 N1 O2 N2 l1 l2 : made w O1 N1 l1 -> made w O2 N2 l2 -> made w (O1 ++ O2) (N1 ++ N2) (l1 ++ l2).
Proof.
  intros [A1 B1 C1 D1] [A2 B2 C2 D2]. unfold read_blocks, written_blocks in *.
  split; unfold read_blocks, written_blocks; rewrite ?bind_app; [by apply Forall_app|by apply sublist_app..|].
  intros b [Hb|Hb]%elem_of_app; rewrite !elem_of_app; [destruct (D1 b Hb) as [|(? & ? & ?)]|destruct (D2 b Hb) as [|(? & ? & ?)]]; auto.
Qed.

Lemma made_weaken w O O' N aops : O `sublist_of` O' -> made w O N aops -> made w O' N aops.
Proof.
  intros Ho [? ? ? Ha]. split; try done; [by etrans|]. intros b Hb. destruct (Ha b Hb) as [|(? & ? & ?)]; [by left|right].
  split_and!; try done. by eapply elem_of_sublist.
Qed.

(** ** Chunks of a file *)

Lemma SetOperationBlob_spec data op w :
  blob_ok w -> exists op' w', SetOperationBlob data op w = Ret (true, op', w') /\ blob_ok w' /\ grows w w'
    /\ (data = [] /\ data_offset op' = None /\ data_length op' = None \/ data <> [] /\ stored w' op' data)
    /\ op_type op' = op_type op /\ src_extents op' = src_extents op /\ dst_extents op' = dst_extents op
    /\ src_length op' = src_length op /\ dst_length op' = dst_length op /\ hashes op' = hashes op.
Proof.
  intros Hw. unfold SetOperationBlob. case_bool_decide as E.
  { exists (set_data None None op), w. split_and!; try done. by left. }
  destruct (StoreBlob_spec data w Hw) as (w' & -> & Hw' & Hg & Hs & Hd). rewrite outcome_bind_ret. cbv iota beta zeta.
  do 2 eexists. split; [done|]. split_and!; try done. right. split; [done|]. exists (blob_file_size w). simpl. destruct Hw as [? _].
  split_and!; [done..|lia|done].
Qed.

(** What [SetOperationBlob] gives, in terms of the data. *)
Lemma blob_set data op' w' :
  carries (type_of op') data -> data = [] /\ data_offset op' = None /\ data_length op' = None \/ data <> [] /\ stored w' op' data ->
  data_in w' op' /\ forall w'', grows w' w'' -> blob_fits w'' -> operation_data w'' op' = data.
Proof.
  unfold carries, data_in. intros Hc [(-> & Ho & Hl)|[Hne Hst]].
  - split; [by destruct (carries_data _)|]. intros w'' _ _. unfold operation_data. by rewrite Ho, Hl.
  - split; [destruct (carries_data _); [by exists data|done]|]. intros w'' Hg Hf. apply stored_data; [|done]. by eapply stored_grows.
Qed.

Lemma diff_operation O N data op op' w :
  diff_ok O N data op -> dst_extents op <> [] -> zlen O * kBlockSize < 2 ^ 63 /\ zlen N * kBlockSize < 2 ^ 63 ->
  data = [] /\ data_offset op' = None /\ data_length op' = None \/ data <> [] /\ stored w op' data ->
  op_type op' = op_type op -> src_extents op' = src_extents op -> dst_extents op' = dst_extents op ->
  src_length op' = src_length op -> dst_length op' = dst_length op -> hashes op' = hashes op -> made w O N [op'].
Proof.
  intros [(t & Ht & Ha & Hsl) Hfull Hempty Hdl He Hs Hd Hall Hb Hdec Hc Hraw Hhash] Hne Hsize Hblob Et Es Ed Esl Edl Eh.
  assert (Htt : type_of op' = type_of op) by (unfold type_of; by rewrite Et). rewrite <- Htt in Hc.
  destruct (blob_set _ _ _ Hc Hblob) as [Hdi Hdata]. rewrite Htt in Hc.
  split; unfold read_blocks, written_blocks; cbn [mbind list_bind app]; rewrite ?app_nil_r, ?Es, ?Ed; try done.
  apply Forall_singleton. split; rewrite ?Es, ?Ed, ?Htt, ?Et; try done.
  - by exists t.
  - intros _ _. rewrite Esl, Edl, Hsl. unfold type_of. by rewrite Ht.
  - intros w' Hg [Hf|Hf]; unfold produce; [by rewrite Hdata, Ed, Htt|]. rewrite Ed, Htt, <- Hb. by destruct Hf as [-> | ->].
  - intros w' Hg [Hf|Hf]; [by rewrite Hdata|]. by destruct Hf as [Hf|Hf]; rewrite Hf in *.
  - intros Htr. rewrite <- (Hraw Htr). rewrite Htr in Hc. by destruct Hblob as [(? & _)|[_ ?]].
  - apply sublist_length in Hs, Hd. unfold zlen, kBlockSize in *. lia.
  - by rewrite Eh.
Qed.

Context (old new : list Extent) (chunk : Z).
Context (Hoe : Forall extent_ok old) (Hne : Forall extent_ok new) (Hof : in_file oldf old) (Hnf : in_file newf new).
Context (Hto : total old * kBlockSize < 2 ^ 63) (Htn : total new * kBlockSize < 2 ^ 63) (Hnn : new <> []).
Context (Hchunk : chunk = -1 \/ 0 < chunk < 2 ^ 63).

Abbreviation p := (mkFileDelta oldf newf old new chunk).

Lemma chunk_total : total_blocks p = total new /\ 0 < total new /\ 0 < chunk_blocks p < 2 ^ 63
  /\ (chunk = -1 -> chunk_blocks p = total new).
Proof.
  assert (total_blocks p = total new) as E.
  { unfold total_blocks. simpl. rewrite BlocksInExtents_total; [done..|]. unfold kBlockSize in Htn. lia. }
  pose proof (total_pos new Hne Hnn).
  unfold chunk_blocks. rewrite E. cbn [fd_chunk_blocks]. unfold kBlockSize in Htn.
  destruct Hchunk as [->|Hc]; [rewrite Z.eqb_refl; split_and!; done || lia|].
  rewrite (proj2 (Z.eqb_neq _ _)), uint_small by (unfold is_uint; lia). split_and!; done || lia.
Qed.

Lemma delta_chunk_spec aops w off :
  blob_ok w -> 0 <= off < total new ->
  exists l w', delta_chunk version p off (aops, w) = Ret (true, (aops ++ l, w')) /\ blob_ok w' /\ grows w w'
    /\ made w' (take (Z.to_nat (chunk_blocks p)) (drop (Z.to_nat off) (ExpandExtents old)))
               (take (Z.to_nat (chunk_blocks p)) (drop (Z.to_nat off) (ExpandExtents new))) l
    /\ (length l <= 1)%nat /\ (old = [] -> exists op, l = [op] /\ (IsAReplaceOperation (type_of op) = true \/ type_of op = ZERO)
          /\ ExpandExtents (dst_extents op) = take (Z.to_nat (chunk_blocks p)) (drop (Z.to_nat off) (ExpandExtents new))).
Proof.
  intros Hw Hoff. destruct chunk_total as (_ & _ & Hc & _). unfold delta_chunk. cbn [fd_old_part fd_new_part fd_old_extents fd_new_extents].
  unfold kBlockSize in Hto, Htn. pose proof (total_nonneg old Hoe).
  destruct (ExtentsSublist_spec old off (chunk_blocks p) Hoe) as [Ho1 Ho2]; [lia..|].
  destruct (ExtentsSublist_spec new off (chunk_blocks p) Hne) as [Hn1 Hn2]; [lia..|].
  destruct (NormalizeExtents_expand _ Ho1) as [Ho3 Ho4]. destruct (NormalizeExtents_expand _ Hn1) as [Hn3 Hn4].
  rewrite Ho2 in Ho4. rewrite Hn2 in Hn4.
  set (oc := NormalizeExtents (ExtentsSublist old off (chunk_blocks p))) in *.
  set (nc := NormalizeExtents (ExtentsSublist new off (chunk_blocks p))) in *.
  assert (Htake : forall es c o, take c (drop o (ExpandExtents es)) ⊆ ExpandExtents es).
  { intros es c o. etrans; [apply subseteq_take|apply subseteq_drop]. }
  assert (Hlen : forall es c o, Forall extent_ok es -> forall es', Forall extent_ok es' ->
    ExpandExtents es' = take c (drop o (ExpandExtents es)) -> total es' <= total es).
  { intros es c o Hes es' Hes' E. rewrite <- (ExpandExtents_length es), <- (ExpandExtents_length es'), E by done. unfold zlen.
    rewrite length_take, length_drop. lia. }
  pose proof (Hlen _ _ _ Hoe _ Ho3 Ho4). pose proof (Hlen _ _ _ Hne _ Hn3 Hn4).
  assert (Hoc : old = [] -> oc = []).
  { intros E. apply (expand_nil _ Ho3). rewrite Ho4, E. unfold ExpandExtents. simpl. by rewrite drop_nil, take_nil. }
  assert (Hnc : nc <> []).
  { intros E. rewrite E in Hn4. apply (f_equal length) in Hn4. rewrite length_take, length_drop in Hn4. simpl in Hn4.
    pose proof (ExpandExtents_length new Hne). unfold zlen in *. lia. }
  destruct (ReadExtentsToDiff_spec oc nc) as (data & op & -> & Hd & Hfull); try done.
  { intros b Hb. apply Hof, (Htake old (Z.to_nat (chunk_blocks p)) (Z.to_nat off)). by rewrite <- Ho4. }
  { intros b Hb. apply Hnf, (Htake new (Z.to_nat (chunk_blocks p)) (Z.to_nat off)). by rewrite <- Hn4. }
  { unfold kBlockSize. lia. }
  { unfold kBlockSize. lia. }
  rewrite Ho4, Hn4 in Hd. case_bool_decide as Hempty.
  - pose proof (do_empty _ _ _ _ Hd Hempty) as Ht. rewrite bool_decide_true by (unfold type_of; by rewrite Ht).
    exists [], w. rewrite app_nil_r. split_and!; try done; [|simpl; lia|].
    2: { intros E. destruct Hfull as [Hx _]; [by apply Hoc|]. by rewrite Hempty in Hx. }
    destruct Hd as [_ _ _ _ _ _ _ Hall _ _]. split; [done|apply sublist_nil_l..|].
    intros b Hb. destruct (Hall b Hb) as [Hx|]; [|by right]. rewrite Hempty in Hx. by apply not_elem_of_nil in Hx.
  - destruct (SetOperationBlob_spec data op w Hw) as (op' & w' & -> & Hw' & Hg & Hdata & E1 & E2 & E3 & E4 & E5 & E6).
    rewrite outcome_bind_ret. cbv iota beta zeta. exists [op'], w'. split_and!; try done; [eapply diff_operation; try done|].
    { unfold zlen. rewrite !length_take, !length_drop. pose proof (ExpandExtents_length old Hoe). pose proof (ExpandExtents_length new Hne). unfold zlen, kBlockSize in *. lia. }
    intros E. exists op'. rewrite E3. destruct Hfull as [Hx Hy]; [by apply Hoc|].
    split_and!; [done| |by rewrite Hx]. unfold type_of. by rewrite E1.
Qed.

Lemma delta_loop_spec fuel aops w off :
  blob_ok w -> 0 <= off -> off <= total new + chunk_blocks p -> total new - off <= Z.of_nat fuel ->
  exists l w', delta_loop fuel version p off (aops, w) = Ret (true, (aops ++ l, w')) /\ blob_ok w' /\ grows w w'
    /\ made w' (drop (Z.to_nat off) (ExpandExtents old)) (drop (Z.to_nat off) (ExpandExtents new)) l.
Proof.
  destruct chunk_total as (Ht & _ & Hc & _). revert aops w off. induction fuel as [|fuel IH]; intros aops w off Hw Ho Hb Hf; cbn [delta_loop];
    rewrite Ht; (destruct (Z.ltb_spec off (total new)); [|exists [], w; rewrite app_nil_r; split_and!; try done;
      rewrite (drop_ge (ExpandExtents new)); [apply made_nil|pose proof (ExpandExtents_length new Hne); unfold zlen in *; lia]]); [lia|].
  destruct (delta_chunk_spec aops w off Hw) as (l1 & w1 & -> & Hw1 & Hg1 & Hm1 & _); [lia|]. rewrite outcome_bind_ret. cbn [fst snd].
  unfold kBlockSize in Htn. rewrite uint_small by (unfold is_uint; lia).
  destruct (IH (aops ++ l1) w1 (off + chunk_blocks p)) as (l2 & w2 & -> & Hw2 & Hg2 & Hm2); [done|lia..|].
  exists (l1 ++ l2), w2. rewrite app_assoc. split_and!; [done..|by etrans|].
  rewrite Z2Nat.inj_add, <- !drop_drop in Hm2 by lia. apply (made_grows w1 w2) in Hm1; [|done].
  pose proof (made_app _ _ _ _ _ _ _ Hm1 Hm2) as Hm. by rewrite !take_drop in Hm.
Qed.

Lemma DeltaReadFile_spec aops w :
  blob_ok w -> exists l w', DeltaReadFile version p aops w = Ret (true, (aops ++ l, w')) /\ blob_ok w' /\ grows w w'
    /\ made w' (ExpandExtents old) (ExpandExtents new) l.
Proof.
  intros Hw. destruct chunk_total as (Ht & Hpos & Hc & _). unfold DeltaReadFile. rewrite Ht. apply (delta_loop_spec _ aops w 0); [done|lia..].
Qed.
End Diff.
