(* ===== verification/UpdatePool.v ===== *)
(** * UpdatePool: the processors of the thread pool

    [thread_pool] of UpdateDelta: whatever the order in which the threads get
    the lock of the file of blobs, every file gets the operations it would get
    alone, and a schedule that runs every processor often enough finishes all
    of them. *)
From stdpp Require Import strings.
From S2P Require Import Prelude UpdateExtents UpdateGraph UpdateViews UpdateInplace.
From S2P Require Import UpdateFile UpdateBlocks UpdateDelta UpdateApply UpdateChunks.

Section Pool.
Context `{KernelOk} `{ToolsOk} `{!DiffRuns}.
Context (oldf newf : list Z) (Hold : zlen oldf < 2 ^ 63) (Hnew : zlen newf < 2 ^ 63).
Context (version : PayloadVersion) (Hversion : 1 <= minor version).

(** What [DeltaReadFile] needs of its parameters. *)
Record file_ok (p : FileDelta) : Prop := {
  fo_old : fd_old_part p = oldf;
  fo_new : fd_new_part p = newf;
  fo_extents : Forall extent_ok (fd_old_extents p) /\ Forall extent_ok (fd_new_extents p);
  fo_files : in_file oldf (fd_old_extents p) /\ in_file newf (fd_new_extents p);
  fo_sizes : total (fd_old_extents p) * kBlockSize < 2 ^ 63 /\ total (fd_new_extents p) * kBlockSize < 2 ^ 63;
  fo_some : fd_new_extents p <> [];
  fo_chunk : fd_chunk_blocks p = -1 \/ 0 < fd_chunk_blocks p < 2 ^ 63;
}.

Abbreviation made := (UpdateChunks.made oldf newf version).

Lemma file_chunk p : file_ok p ->
  total_blocks p = total (fd_new_extents p) /\ 0 < total_blocks p < 2 ^ 63 /\ 0 < chunk_blocks p < 2 ^ 63.
Proof.
  intros [Ho Hn [? ?] [? ?] [? Hs] ? ?]. destruct p as [o n oe ne c]. simpl in *. subst o n.
  destruct (chunk_total oldf newf oe ne c) as (Ht & ? & ? & ?); try done. rewrite Ht. unfold kBlockSize in Hs. lia.
Qed.

Lemma file_chunk_spec p aops w off : file_ok p -> blob_ok w -> 0 <= off < total_blocks p ->
  exists l w', delta_chunk version p off (aops, w) = Ret (true, (aops ++ l, w')) /\ blob_ok w' /\ grows w w'
    /\ made w' (take (Z.to_nat (chunk_blocks p)) (drop (Z.to_nat off) (ExpandExtents (fd_old_extents p))))
               (take (Z.to_nat (chunk_blocks p)) (drop (Z.to_nat off) (ExpandExtents (fd_new_extents p)))) l.
Proof.
  intros Hp Hw Ho. destruct (file_chunk p Hp) as (Ht & _). rewrite Ht in Ho. destruct Hp as [Hpo Hpn [? ?] [? ?] [? ?] ? ?].
  destruct p as [o n oe ne c]. simpl in *. subst o n.
  destruct (delta_chunk_spec oldf newf Hold Hnew version Hversion oe ne c) with (aops := aops) (w := w) (off := off)
    as (l & w' & ? & ? & ? & ? & _); try done. by exists l, w'.
Qed.

(** A processor with the operations for the blocks before its next offset. *)
Definition progress (w : BlobFileWriter) (p : FileDelta) (pr : FileDeltaProcessor) : Prop :=
  pr_delta pr = p /\
  match pr_next pr with
  | None => made w (ExpandExtents (fd_old_extents p)) (ExpandExtents (fd_new_extents p)) (file_aops_ pr)
  | Some off => 0 <= off < total_blocks p + chunk_blocks p
      /\ made w (take (Z.to_nat off) (ExpandExtents (fd_old_extents p))) (take (Z.to_nat off) (ExpandExtents (fd_new_extents p)))
           (file_aops_ pr)
  end.

Lemma progress_grows w w' p pr : grows w w' -> progress w p pr -> progress w' p pr.
Proof.
  intros Hg [Hp Hn]. split; [done|]. destruct (pr_next pr); [destruct Hn; split; [done|]|]; by eapply made_grows.
Qed.

Lemma progress_end w p off pr : file_ok p -> total_blocks p <= off ->
  made w (take (Z.to_nat off) (ExpandExtents (fd_old_extents p))) (take (Z.to_nat off) (ExpandExtents (fd_new_extents p))) pr ->
  made w (ExpandExtents (fd_old_extents p)) (ExpandExtents (fd_new_extents p)) pr.
Proof.
  intros Hp Hoff Hm. destruct (file_chunk p Hp) as (Ht & _). destruct (fo_extents p Hp) as [_ Hne].
  rewrite (take_ge (ExpandExtents (fd_new_extents p))) in Hm.
  2: { pose proof (ExpandExtents_length _ Hne). unfold zlen in *. lia. }
  eapply made_weaken; [|done]. apply sublist_take.
Qed.

(** Iterations left. *)
Definition remaining_steps (pr : FileDeltaProcessor) : nat :=
  match pr_next pr with None => 0 | Some off => S (Z.to_nat (total_blocks (pr_delta pr) - off)) end.

Lemma pool_step_spec ps prs w i :
  Forall file_ok ps -> blob_ok w -> Forall2 (progress w) ps prs ->
  exists prs' w', pool_step version (prs, w) i = Ret (prs', w') /\ blob_ok w' /\ grows w w' /\ Forall2 (progress w') ps prs'
    /\ forall j pr pr', prs !! j = Some pr -> prs' !! j = Some pr' ->
         (remaining_steps pr' <= if decide (j = i) then pred (remaining_steps pr) else remaining_steps pr)%nat.
Proof.
  intros Hps Hw Hprs. unfold pool_step. destruct (prs !! i) as [pr|] eqn:Hi.
  2: { exists prs, w. split_and!; try done. intros j pr pr' Hj Hj'. case_decide; [by subst; rewrite Hi in Hj|]. by simplify_eq. }
  destruct (Forall2_lookup_r _ _ _ _ _ Hprs Hi) as (p & Hp & Hd & Hn). pose proof Hps as Hok. rewrite Forall_lookup in Hok.
  specialize (Hok i p Hp). destruct (file_chunk p Hok) as (Ht & Hpos & Hc).
  assert (Hrem : forall x, (remaining_steps x <= pred (remaining_steps pr))%nat -> forall j y y',
    prs !! j = Some y -> <[i := x]> prs !! j = Some y' ->
    (remaining_steps y' <= if decide (j = i) then pred (remaining_steps y) else remaining_steps y)%nat).
  { intros x Hx j y y' Hy Hy'. case_decide as E; [subst j|rewrite list_lookup_insert_ne in Hy' by done; by simplify_eq].
    rewrite list_lookup_insert_eq in Hy' by (by eapply lookup_lt_Some). by simplify_eq. }
  destruct (pr_next pr) as [off|] eqn:Hnext.
  2: { exists prs, w. split_and!; try done. intros j y y' Hy Hy'. simplify_eq. case_decide; [|done].
       subst j. simplify_eq. unfold remaining_steps. rewrite Hnext. done. }
  destruct Hn as [Hoff Hm]. rewrite Hd. destruct (Z.ltb_spec off (total_blocks p)) as [Hlt|Hge]; simpl negb; cbv iota.
  - destruct (file_chunk_spec p (file_aops_ pr) w off Hok Hw) as (l & w' & -> & Hw' & Hg & Hl); [lia|].
    rewrite outcome_bind_ret. cbv beta iota zeta. do 2 eexists. split; [done|]. rewrite uint_small by (unfold is_uint; lia).
    split_and!; try done.
    + rewrite <- (list_insert_id ps i p) by done. apply Forall2_insert.
      { eapply Forall2_impl; [exact Hprs|]. intros. by eapply progress_grows. }
      split; [done|]. simpl. split; [lia|]. rewrite Z2Nat.inj_add, <- !take_take_drop by lia.
      apply made_app; [by eapply made_grows|done].
    + apply Hrem. unfold remaining_steps. rewrite Hnext, Hd. simpl. lia.
  - do 2 eexists. split; [done|]. split_and!; try done.
    + rewrite <- (list_insert_id ps i p) by done. apply Forall2_insert; [done|]. split; [done|]. simpl. by eapply progress_end.
    + apply Hrem. unfold remaining_steps. rewrite Hnext. simpl. lia.
Qed.

Lemma pool_steps_spec ps schedule prs w :
  Forall file_ok ps -> blob_ok w -> Forall2 (progress w) ps prs ->
  exists prs' w', foldM (pool_step version) schedule (prs, w) = Ret (prs', w') /\ blob_ok w' /\ grows w w'
    /\ Forall2 (progress w') ps prs'
    /\ forall j pr pr', prs !! j = Some pr -> prs' !! j = Some pr' ->
         (remaining_steps pr' <= remaining_steps pr - length (filter (eq j) schedule))%nat.
Proof.
  intros Hps. revert prs w. induction schedule as [|i schedule IH]; intros prs w Hw Hprs; cbn [foldM].
  { exists prs, w. split_and!; try done. intros j pr pr' Hj Hj'. simplify_eq. simpl. lia. }
  destruct (pool_step_spec ps prs w i Hps Hw Hprs) as (prs1 & w1 & -> & Hw1 & Hg1 & Hprs1 & Hr1). rewrite outcome_bind_ret.
  destruct (IH prs1 w1 Hw1 Hprs1) as (prs2 & w2 & -> & Hw2 & Hg2 & Hprs2 & Hr2).
  exists prs2, w2. split_and!; try done; [by etrans|]. intros j pr pr2 Hj Hj2.
  destruct (Forall2_lookup_r _ _ _ _ _ Hprs2 Hj2) as (p & Hp & _). destruct (Forall2_lookup_l _ _ _ _ _ Hprs1 Hp) as (pr1 & Hj1 & _).
  specialize (Hr1 j pr pr1 Hj Hj1). specialize (Hr2 j pr1 pr2 Hj1 Hj2).
  destruct (decide (j = i)) as [->|Hne].
  - rewrite filter_cons_True by done. simpl. lia.
  - rewrite filter_cons_False by done. lia.
Qed.

Lemma file_loop_spec p aops w off : file_ok p -> blob_ok w -> 0 <= off < total_blocks p + chunk_blocks p ->
  exists l w', delta_loop (Z.to_nat (total_blocks p)) version p off (aops, w) = Ret (true, (aops ++ l, w')) /\ blob_ok w' /\ grows w w'
    /\ made w' (drop (Z.to_nat off) (ExpandExtents (fd_old_extents p))) (drop (Z.to_nat off) (ExpandExtents (fd_new_extents p))) l.
Proof.
  intros Hp Hw Ho. destruct (file_chunk p Hp) as (Ht & Hpos & _). destruct Hp as [Hpo Hpn [? ?] [? ?] [? ?] ? ?].
  destruct p as [o n oe ne c]. simpl in *. subst o n. rewrite Ht in *.
  apply (delta_loop_spec oldf newf Hold Hnew version Hversion oe ne c); try done; lia.
Qed.

Lemma finish_processor_spec ps prs w i :
  Forall file_ok ps -> blob_ok w -> Forall2 (progress w) ps prs ->
  exists prs' w', finish_processor version (prs, w) i = Ret (prs', w') /\ blob_ok w' /\ grows w w' /\ Forall2 (progress w') ps prs'
    /\ forall j pr', prs' !! j = Some pr' -> pr_next pr' = None \/ j <> i /\ prs !! j = Some pr'.
Proof.
  intros Hps Hw Hprs. unfold finish_processor. destruct (prs !! i) as [pr|] eqn:Hi.
  2: { exists prs, w. split_and!; try done. intros j pr' Hj. right. split; [|done]. intros ->. by rewrite Hi in Hj. }
  destruct (Forall2_lookup_r _ _ _ _ _ Hprs Hi) as (p & Hp & Hd & Hn). pose proof Hps as Hok. rewrite Forall_lookup in Hok.
  specialize (Hok i p Hp). destruct (pr_next pr) as [off|] eqn:Hnext.
  2: { exists prs, w. split_and!; try done. intros j pr' Hj. destruct (decide (j = i)) as [->|]; [left; by simplify_eq|by right]. }
  destruct Hn as [Hoff Hm]. rewrite Hd.
  destruct (file_loop_spec p (file_aops_ pr) w off Hok Hw Hoff) as (l & w' & -> & Hw' & Hg & Hl). rewrite outcome_bind_ret. cbv beta iota zeta.
  do 2 eexists. split; [done|]. split_and!; try done.
  - rewrite <- (list_insert_id ps i p) by done. apply Forall2_insert.
    { eapply Forall2_impl; [exact Hprs|]. intros. by eapply progress_grows. }
    split; [done|]. simpl. apply (made_grows _ _ _ w w') in Hm; [|done].
    pose proof (made_app _ _ _ _ _ _ _ _ _ _ Hm Hl) as Ha. by rewrite !take_drop in Ha.
  - intros j pr' Hj. destruct (decide (j = i)) as [->|Hne].
    + rewrite list_lookup_insert_eq in Hj by (by eapply lookup_lt_Some). left. by simplify_eq.
    + rewrite list_lookup_insert_ne in Hj by done. by right.
Qed.

Lemma start_progress w ps : Forall file_ok ps -> Forall2 (progress w) ps (FileDeltaProcessor_new <$> ps).
Proof.
  intros Hps. apply Forall2_fmap_r, Forall_Forall2_diag. eapply Forall_impl; [exact Hps|]. intros p Hp. split; [done|]. simpl.
  destruct (file_chunk p Hp) as (_ & ? & ?). split; [lia|]. apply made_nil.
Qed.

(** Every processor ends with the operations for its file. *)
Lemma thread_pool_spec ps schedule w :
  Forall file_ok ps -> blob_ok w ->
  exists prs w', thread_pool version schedule (FileDeltaProcessor_new <$> ps) w = Ret (prs, w') /\ blob_ok w' /\ grows w w'
    /\ Forall2 (fun p pr => made w' (ExpandExtents (fd_old_extents p)) (ExpandExtents (fd_new_extents p)) (file_aops_ pr)) ps prs.
Proof.
  intros Hps Hw. unfold thread_pool.
  pose proof (start_progress w ps Hps) as Hstart.
  destruct (pool_steps_spec ps schedule _ w Hps Hw Hstart) as (prs & w1 & -> & Hw1 & Hg1 & Hprs & _). rewrite outcome_bind_ret.
  rewrite length_fmap.
  destruct (foldM_inv (finish_processor version) (fun seen s => blob_ok (snd s) /\ grows w (snd s) /\ Forall2 (progress (snd s)) ps (fst s)
    /\ forall j pr, j ∈ seen -> fst s !! j = Some pr -> pr_next pr = None) (seq 0 (length ps)) (prs, w1)) as ([prs' w'] & -> & Hw' & Hg' & Hp' & Hdone).
  - split_and!; try done. intros j pr Hj. by apply not_elem_of_nil in Hj.
  - intros seen i todo [prs1 w2] _ (Hw2 & Hg2 & Hp2 & Hd2). cbn [fst snd] in *.
    destruct (finish_processor_spec ps prs1 w2 i Hps Hw2 Hp2) as (prs2 & w3 & -> & Hw3 & Hg3 & Hp3 & Hd3).
    eexists. split; [done|]. simpl. split_and!; try done; [by etrans|]. intros j pr Hj Hpr.
    destruct (Hd3 j pr Hpr) as [|[Hne Hold']]; [done|]. apply elem_of_app in Hj as [Hj|Hj%list_elem_of_singleton]; [eauto|done].
  - exists prs', w'. split_and!; try done. simpl in *. apply Forall2_same_length_lookup_2; [by eapply Forall2_length|].
    intros i p pr Hi Hpr. destruct (Forall2_lookup_lr _ _ _ _ _ _ Hp' Hi Hpr) as [_ Hn].
    rewrite (Hdone i pr) in Hn; [done| |done]. apply elem_of_seq. apply lookup_lt_Some in Hi. lia.
Qed.

(** The operations of all files together. *)
Lemma pool_operations ps (prs : list FileDeltaProcessor) w :
  Forall2 (fun p pr => made w (ExpandExtents (fd_old_extents p)) (ExpandExtents (fd_new_extents p)) (file_aops_ pr)) ps prs ->
  made w (ps ≫= fun p => ExpandExtents (fd_old_extents p)) (ps ≫= fun p => ExpandExtents (fd_new_extents p)) (prs ≫= file_aops_).
Proof. induction 1; [apply made_nil|]. cbn [mbind list_bind]. by apply made_app. Qed.
End Pool.


Definition sample_old : list Z := replicate (Z.to_nat kBlockSize) 1.
Definition sample_new : list Z := replicate (Z.to_nat (2 * kBlockSize)) 2.
Definition sample_file : FileDelta := mkFileDelta sample_old sample_new [mkExtent 0 1] [mkExtent 0 2] 1.

Lemma sample_file_ok : file_ok sample_old sample_new sample_file.
Proof.
  split; try done; simpl.
  - split; apply Forall_singleton; done.
  - assert (H1 : ExpandExtents [mkExtent 0 1] = [0]) by done. assert (H2 : ExpandExtents [mkExtent 0 2] = [0; 1]) by done.
    unfold in_file. rewrite H1, H2. split; intros b; rewrite !elem_of_cons, elem_of_nil; unfold zlen, sample_old, sample_new;
      rewrite length_replicate; unfold kBlockSize; lia.
  - right. lia.
Qed.

