(* ===== verification/UpdateMoved.v ===== *)
(** * UpdateMoved: blocks that are zero, moved or unchanged

    [DeltaMovedAndZeroBlocks] of UpdateDelta: the operations it makes copy
    blocks of the old image with the same content or write zeros, no block is
    written twice, in place no block is read twice, and the ranges of visited
    blocks say which blocks are done. *)
From stdpp Require Import strings.
From S2P Require Import Prelude UpdateExtents UpdateGraph UpdateViews UpdateInplace UpdateScratch.
From S2P Require Import UpdateFile UpdateBlocks UpdateDelta UpdateApply UpdateChunks UpdatePool.

(** ** Ranges of visited blocks *)

Lemma AddBlock_view b r :
  ranges_ok r -> block_ok b ->
  exists r', UpdateExtents.AddBlock b r = Ret r' /\ ranges_ok r' /\ forall x, x ∈ blocks_in r' <-> x = b \/ x ∈ blocks_in r.
Proof.
  intros Hr Hb. unfold block_ok, kSparseHole in Hb. assert (Hok : extent_ok (ExtentForRange b 1)) by (unfold extent_ok, kSparseHole; simpl; lia).
  destruct (AddExtents_view [ExtentForRange b 1] r Hr) as (r' & Heq & Hr' & Hx); [by apply Forall_singleton|].
  exists r'. split_and!; [|done|].
  - unfold UpdateExtents.AddBlock. simpl in Heq. destruct (AddExtent (ExtentForRange b 1) r); done.
  - intros x. rewrite Hx, ExpandExtents_cons, expand_ok, elem_of_app by done. simpl. rewrite elem_of_seqZ. 
    assert (x ∈ ExpandExtents [] <-> False) as -> by (unfold ExpandExtents; simpl; by rewrite elem_of_nil).
    split; [intros [[?|[]]|?]; [left; lia|by right]|intros [->|?]; [left; left; lia|by right]].
Qed.

Lemma ContainsBlock_view r b :
  ranges_ok r -> block_ok b -> exists c, ContainsBlock b r = Ret c /\ (c = true <-> b ∈ blocks_in r).
Proof. intros Hr Hb. destruct (ContainsBlock_spec r b Hr Hb) as (c & ? & ?). exists c. by rewrite blocks_in_covers. Qed.

Lemma FilterExtentRanges_view es r :
  ranges_ok r -> Forall extent_ok es ->
  exists out, FilterExtentRanges es r = Ret out /\ Forall extent_ok out
    /\ ExpandExtents out = filter (fun b => b ∉ blocks_in r) (ExpandExtents es).
Proof.
  intros Hr Hes. destruct (filter_extents_spec es (extent_set r) [] (proj1 Hr) Hes) as (out & Heq & Hout & He); [done|].
  exists out. split_and!; [done..|]. rewrite He. unfold uncovered, ExpandExtents at 1. simpl.
  apply list_filter_iff. intros b. by rewrite blocks_in_covers.
Qed.

Section Moved.
Context `{KernelOk} `{ToolsOk} `{!DiffRuns} `{BlockHash}.
Context (oldf newf : list Z) (Hold : zlen oldf < 2 ^ 63) (Hnew : zlen newf < 2 ^ 63).
Context (version : PayloadVersion) (Hversion : 1 <= minor version).
Context (old_n new_n : Z) (Hon : 0 <= old_n /\ old_n * kBlockSize <= zlen oldf) (Hnn : 0 < new_n /\ new_n * kBlockSize <= zlen newf).

Abbreviation made := (UpdateChunks.made oldf newf version).

(** What the ids of the blocks mean. *)
Record ids_ok (old_ids new_ids : list Z) : Prop := {
  io_old : forall b, 0 <= b < old_n -> is_Some (old_ids !! Z.to_nat b);
  io_new : forall b, 0 <= b < new_n -> is_Some (new_ids !! Z.to_nat b);
  io_same : forall a b x y, 0 <= a -> 0 <= b -> old_ids !! Z.to_nat a = Some x -> new_ids !! Z.to_nat b = Some y ->
    x = y <-> block_of oldf a = block_of newf b;
}.

Lemma block_in_range b n : 0 <= b < n -> n * kBlockSize < 2 ^ 63 -> block_ok b.
Proof. unfold block_ok, kSparseHole, kBlockSize. lia. Qed.

Lemma MapPartitionBlocks_ids :
  exists old_ids new_ids, MapPartitionBlocks oldf newf (u64 (old_n * kBlockSize)) (u64 (new_n * kBlockSize)) kBlockSize = Ret (old_ids, new_ids)
    /\ ids_ok old_ids new_ids.
Proof.
  unfold kBlockSize in *. rewrite !uint_small by (unfold is_uint; lia).
  destruct (MapPartitionBlocks_spec 4096 oldf newf (old_n * 4096) (new_n * 4096)) as (oi & ni & seen & Heq & Hd & _ & Ho & Hn); [lia..|].
  rewrite !Z.div_mul in Ho, Hn by lia. exists oi, ni. split; [done|].
  assert (Hsome : forall f n ids b, numbers 4096 seen f (seqZ 0 n) ids -> 0 <= b < n -> is_Some (ids !! Z.to_nat b)).
  { intros f n ids b Hf Hb. apply lookup_lt_is_Some_2. rewrite <- (Forall2_length _ _ _ Hf), length_seqZ. lia. }
  split; [by eauto..|]. intros a b x y Ha Hb Hoa Hnb. by apply (numbers_inj 4096 seen oldf newf old_n new_n oi ni a b x y Hd Ho Hn Ha Hb Hoa Hnb).
Qed.

Context (old_ids new_ids : list Z) (Hids : ids_ok old_ids new_ids).

(** ** Blocks that did not move *)

(** Blocks that need no operation. *)
Definition unchanged (b : Z) : Prop := 0 <= b < Z.min old_n new_n /\ block_of oldf b = block_of newf b.

Lemma mark_unmoved_spec :
  exists ov nv, foldM (mark_unmoved old_ids new_ids) (seqZ 0 (Z.min old_n new_n)) (ExtentRanges_new, ExtentRanges_new) = Ret (ov, nv)
    /\ ranges_ok ov /\ ranges_ok nv /\ (forall b, b ∈ blocks_in ov -> unchanged b)
    /\ (forall b, b ∈ blocks_in nv -> unchanged b /\ b ∈ blocks_in ov).
Proof.
  destruct blocks_in_new as [Hr0 Hb0].
  destruct (foldM_inv (mark_unmoved old_ids new_ids) (fun _ v => ranges_ok (fst v) /\ ranges_ok (snd v)
      /\ (forall b, b ∈ blocks_in (fst v) -> unchanged b) /\ (forall b, b ∈ blocks_in (snd v) -> unchanged b /\ b ∈ blocks_in (fst v)))
    (seqZ 0 (Z.min old_n new_n)) (ExtentRanges_new, ExtentRanges_new)) as ([ov nv] & -> & ?).
  - cbn [fst snd]. rewrite Hb0. split_and!; try done; intros b Hb; by apply not_elem_of_nil in Hb.
  - intros done_ b todo [ov nv] Hl (Ho & Hn & Huo & Hun). cbn [fst snd] in *.
    assert (Hb : 0 <= b < Z.min old_n new_n).
    { assert (b ∈ seqZ 0 (Z.min old_n new_n)) as Hin by (rewrite Hl; set_solver). apply elem_of_seqZ in Hin. lia. }
    assert (Hbo : block_ok b) by (apply (block_in_range b old_n); lia).
    destruct (io_old _ _ Hids b) as [x Hx]; [lia|]. destruct (io_new _ _ Hids b) as [y Hy]; [lia|].
    unfold mark_unmoved. rewrite Hx, Hy. cbn [of_option]. rewrite !outcome_bind_ret.
    destruct (Z.eqb_spec x y) as [<-|]; simpl negb; cbv iota; [|by eexists].
    destruct (ContainsBlock_view ov b Ho Hbo) as (c & -> & _). rewrite outcome_bind_ret. destruct c; [by eexists|].
    destruct (ContainsBlock_view nv b Hn Hbo) as (c & -> & _). rewrite outcome_bind_ret. destruct c; [by eexists|].
    destruct (AddBlock_view b ov Ho Hbo) as (ov' & -> & Ho' & Hov). rewrite outcome_bind_ret.
    destruct (AddBlock_view b nv Hn Hbo) as (nv' & -> & Hn' & Hnv). rewrite outcome_bind_ret.
    assert (Hu : unchanged b) by (split; [done|]; by eapply (io_same _ _ Hids b b x x); [lia..| | |]).
    eexists. split; [done|]. cbn [fst snd]. split_and!; try done.
    + intros z [->|Hz]%Hov; auto.
    + intros z [->|Hz]%Hnv; rewrite Hov; [auto|]. destruct (Hun z Hz). auto.
  - by exists ov, nv.
Qed.

(** ** The blocks of the old image by content *)

Definition old_map_ok (m : gmap Z (list Z)) (ov : ExtentRanges) : Prop :=
  forall id l, m !! id = Some l -> NoDup l
    /\ forall a, a ∈ l -> 0 <= a < old_n /\ old_ids !! Z.to_nat a = Some id /\ a ∉ blocks_in ov.

(** Every old block of [seen] that is neither visited nor zero is in the map. *)
Definition old_map_all (m : gmap Z (list Z)) (ov : ExtentRanges) (seen : list Z) : Prop :=
  forall a id, a ∈ seen -> old_ids !! Z.to_nat a = Some id -> id <> 0 -> a ∉ blocks_in ov -> a ∈ default [] (m !! id).

(** The blocks [seen] have been entered. *)
Record old_scan (ov : ExtentRanges) (seen : list Z) (s : gmap Z (list Z) * ExtentRanges) : Prop := {
  os_ranges : ranges_ok (snd s) /\ forall b, b ∈ blocks_in (snd s) -> 0 <= b < old_n;
  os_map : old_map_ok (fst s) (snd s);
  os_seen : forall id l a, fst s !! id = Some l -> a ∈ l -> a ∈ seen /\ id <> 0;
  os_visited : forall b, b ∈ blocks_in (snd s) -> b ∈ blocks_in ov \/ old_ids !! Z.to_nat b = Some 0;
  os_all : old_map_all (fst s) ov seen;
}.

(** A block of zeros is visited. *)
Lemma old_scan_zero ov seen m ov1 ov2 b :
  old_scan ov seen (m, ov1) -> 0 <= b < old_n -> old_ids !! Z.to_nat b = Some 0 -> ranges_ok ov2 ->
  (forall z, z ∈ blocks_in ov2 <-> z = b \/ z ∈ blocks_in ov1) -> old_scan ov (seen ++ [b]) (m, ov2).
Proof.
  intros [[Hr Hin] Hm Hseen Hvis Hall] Hb Hx Hr2 Hov2. split; cbn [fst snd] in *.
  - split; [done|]. intros z [->|Hz]%Hov2; auto.
  - intros id l Hid. destruct (Hm id l Hid) as [? Ha]. split; [done|]. intros a Ha'. destruct (Ha a Ha') as (? & Hida & ?).
    split; [done|]. split; [done|]. rewrite Hov2. intros [->|?]; [|done]. rewrite Hx in Hida. injection Hida as <-. by destruct (Hseen 0 l b Hid Ha').
  - intros id l a Hid Ha. destruct (Hseen id l a Hid Ha). split; [|done]. apply elem_of_app. by left.
  - intros z [->|Hz]%Hov2; [by right|auto].
  - intros a id [Ha|Ha]%elem_of_app; [by apply Hall|]. apply list_elem_of_singleton in Ha as ->. congruence.
Qed.

(** A block of the map. *)
Lemma old_scan_entered ov seen m ov1 b x :
  old_scan ov seen (m, ov1) -> 0 <= b < old_n -> b ∉ seen -> old_ids !! Z.to_nat b = Some x -> x <> 0 -> b ∉ blocks_in ov1 ->
  old_scan ov (seen ++ [b]) (<[x := b :: default [] (m !! x)]> m, ov1).
Proof.
  intros [[Hr Hin] Hm Hseen Hvis Hall] Hb Hbs Hx Hne Hnv. cbn [fst snd] in *.
  assert (Hdef : forall a, a ∈ default [] (m !! x) -> a ∈ seen /\ 0 <= a < old_n /\ old_ids !! Z.to_nat a = Some x /\ a ∉ blocks_in ov1).
  { intros a Ha. destruct (m !! x) as [l|] eqn:E; simpl in Ha; [|by apply not_elem_of_nil in Ha].
    destruct (Hseen x l a E Ha). destruct (Hm x l E) as [_ Hall']. destruct (Hall' a Ha) as (? & ? & ?). done. }
  split; cbn [fst snd]; [done| | |done|].
  - intros id l [[<- <-]|[? Hid]]%lookup_insert_Some; [|by apply Hm]. split.
    + constructor; [intros Ha; by apply Hdef in Ha as [Ha _]|]. destruct (m !! x) as [l|] eqn:E; [by apply (Hm x)|constructor].
    + intros a [->|Ha]%elem_of_cons; [done|]. by destruct (Hdef a Ha) as (_ & ?).
  - intros id l a [[<- <-]|[? Hid]]%lookup_insert_Some Ha; rewrite elem_of_app.
    + split; [|done]. apply elem_of_cons in Ha as [->|Ha]; [right; left|left; by apply Hdef].
    + destruct (Hseen id l a Hid Ha). auto.
  - intros a id [Ha|Ha]%elem_of_app Hid Hid0 Hav.
    + specialize (Hall a id Ha Hid Hid0 Hav). destruct (decide (id = x)) as [->|?]; [rewrite lookup_insert_eq; by right|by rewrite lookup_insert_ne].
    + apply list_elem_of_singleton in Ha as ->. simplify_eq. rewrite lookup_insert_eq. left.
Qed.

(** A block that is visited already. *)
Lemma old_scan_skip ov seen m ov1 b x :
  old_scan ov seen (m, ov1) -> old_ids !! Z.to_nat b = Some x -> x <> 0 -> b ∈ blocks_in ov1 -> old_scan ov (seen ++ [b]) (m, ov1).
Proof.
  intros [Hr Hm Hseen Hvis Hall] Hx Hne Hv. cbn [fst snd] in *. split; cbn [fst snd]; try done.
  - intros id l a Hid Ha. destruct (Hseen id l a Hid Ha). split; [|done]. apply elem_of_app. by left.
  - intros a id [Ha|Ha]%elem_of_app Hid Hid0 Hav; [by apply Hall|]. apply list_elem_of_singleton in Ha as ->.
    destruct (Hvis b Hv) as [?|E]; [done|]. congruence.
Qed.

Lemma map_old_block_spec ov :
  ranges_ok ov -> (forall b, b ∈ blocks_in ov -> 0 <= b < old_n) ->
  exists m ov', foldM (map_old_block old_ids) (reverse (seqZ 0 old_n)) (∅, ov) = Ret (m, ov')
    /\ old_scan ov (reverse (seqZ 0 old_n)) (m, ov').
Proof.
  intros Hov Hrange.
  destruct (foldM_inv (map_old_block old_ids) (old_scan ov) (reverse (seqZ 0 old_n)) (∅, ov)) as ([m ov'] & -> & Hs); [| |by exists m, ov'].
  - split; cbn [fst snd]; try done; [by left|]. intros a id Ha. by apply not_elem_of_nil in Ha.
  - intros seen b todo [m ov1] Hl Hs. destruct (os_ranges _ _ _ Hs) as [Hr _]. cbn [fst snd] in *.
    assert (Hnd : NoDup (seen ++ b :: todo)) by (rewrite <- Hl, reverse_Permutation; apply NoDup_seqZ).
    assert (Hb : 0 <= b < old_n).
    { assert (b ∈ reverse (seqZ 0 old_n)) as Hx by (rewrite Hl; set_solver). apply elem_of_reverse, elem_of_seqZ in Hx. lia. }
    assert (Hbs : b ∉ seen) by (apply NoDup_app in Hnd as (_ & Hdis & _); intros Hx; apply (Hdis b Hx); left).
    assert (Hbo : block_ok b) by (apply (block_in_range b old_n); lia).
    destruct (io_old _ _ Hids b Hb) as [x Hx]. unfold map_old_block. rewrite Hx. cbn [of_option]. rewrite outcome_bind_ret.
    destruct (Z.eqb_spec x 0) as [->|Hne].
    + destruct (AddBlock_view b ov1 Hr Hbo) as (ov2 & -> & Hr2 & Hov2). rewrite outcome_bind_ret. eexists. split; [done|]. by eapply old_scan_zero.
    + destruct (ContainsBlock_view ov1 b Hr Hbo) as (c & -> & Hc). rewrite outcome_bind_ret. eexists. split; [done|].
      destruct c; [eapply old_scan_skip; [done..|by apply Hc]|]. apply old_scan_entered; try done. intros Hx'. by apply Hc in Hx'.
Qed.

(** ** Matching the blocks of the new image *)

(** A new block with a content that no old block has. *)
Definition fresh (b : Z) : Prop := forall a, 0 <= a < old_n -> block_of oldf a <> block_of newf b.

Record identical_ok (ov nv : ExtentRanges) (seen : list Z) (s : Identical) : Prop := {
  ic_extents : Forall extent_ok (new_zeros s) /\ Forall extent_ok (old_identical_blocks s) /\ Forall extent_ok (new_identical_blocks s);
  ic_distinct : NoDup (ExpandExtents (new_zeros s) ++ ExpandExtents (new_identical_blocks s));
  ic_new : forall b, b ∈ ExpandExtents (new_zeros s) ++ ExpandExtents (new_identical_blocks s) -> b ∈ seen /\ b ∉ blocks_in nv;
  ic_pairs : block_of oldf <$> ExpandExtents (old_identical_blocks s) = block_of newf <$> ExpandExtents (new_identical_blocks s);
  ic_old : forall a, a ∈ ExpandExtents (old_identical_blocks s) -> 0 <= a < old_n /\ a ∉ blocks_in ov;
  ic_map : old_map_ok (old_blocks_map s) ov;
  ic_once : InplaceUpdate version = true -> NoDup (ExpandExtents (old_identical_blocks s))
    /\ forall id l a, old_blocks_map s !! id = Some l -> a ∈ l -> a ∉ ExpandExtents (old_identical_blocks s);
  ic_complete : InplaceUpdate version = false -> forall a id, 0 <= a < old_n -> old_ids !! Z.to_nat a = Some id -> id <> 0 ->
    a ∈ default [] (old_blocks_map s !! id);
  ic_fresh : InplaceUpdate version = false -> forall b, b ∈ seen -> b ∈ blocks_in nv \/ fresh b
    \/ b ∈ ExpandExtents (new_zeros s) ++ ExpandExtents (new_identical_blocks s);
}.

(** A block that needs no operation here. *)
Lemma identical_skip ov nv seen s b :
  identical_ok ov nv seen s -> (InplaceUpdate version = false -> b ∈ blocks_in nv \/ fresh b) -> identical_ok ov nv (seen ++ [b]) s.
Proof.
  intros [? ? Hn ? ? ? ? ? Hf] Hb. split; try done; [intros c Hc; destruct (Hn c Hc); split; [apply elem_of_app; by left|done]|].
  intros Hi c [Hc|Hc]%elem_of_app; [by apply Hf|]. apply list_elem_of_singleton in Hc as ->. destruct (Hb Hi); auto.
Qed.

Lemma NoDup_add {A} (l k : list A) x : NoDup (l ++ k) -> x ∉ l ++ k -> NoDup ((l ++ [x]) ++ k).
Proof. intros Hnd Hx. rewrite (Permutation_app_comm l [x]). simpl. by constructor. Qed.

(** A zero block. *)
Lemma identical_zero ov nv seen s b :
  identical_ok ov nv seen s -> b ∉ seen -> b ∉ blocks_in nv -> block_ok b ->
  identical_ok ov nv (seen ++ [b]) (mkIdentical (AppendBlockToExtents (new_zeros s) b) (old_identical_blocks s) (new_identical_blocks s) (old_blocks_map s)).
Proof.
  intros [(Hz & Ho & Hn) Hd Hnb Hp Hob Hm Hone Hcm Hfr] Hb Hnv Hok. destruct (AppendBlock_expand (new_zeros s) b Hz Hok) as [Hz' He].
  split; cbn [new_zeros old_identical_blocks new_identical_blocks old_blocks_map]; try done; rewrite ?He.
  - apply NoDup_add; [done|]. intros Hx. by apply Hnb in Hx as [? _].
  - intros c. rewrite !elem_of_app, list_elem_of_singleton. specialize (Hnb c). rewrite elem_of_app in Hnb.
    intros [[Hc| ->]|Hc]; [destruct (Hnb (or_introl Hc)); auto|auto|destruct (Hnb (or_intror Hc)); auto].
  - intros Hi c. rewrite !elem_of_app, list_elem_of_singleton. specialize (Hfr Hi c). rewrite elem_of_app in Hfr.
    intros [Hc| ->]; [destruct (Hfr Hc) as [?|[?|[?|?]]]|]; auto.
Qed.

(** A block with the content of the old block [a]. *)
Lemma identical_moved ov nv seen s b id a l :
  identical_ok ov nv seen s -> b ∉ seen -> b ∉ blocks_in nv -> block_ok b -> new_ids !! Z.to_nat b = Some id ->
  old_blocks_map s !! id = Some (a :: l) ->
  identical_ok ov nv (seen ++ [b]) (mkIdentical (new_zeros s) (AppendBlockToExtents (old_identical_blocks s) a)
    (AppendBlockToExtents (new_identical_blocks s) b)
    (if InplaceUpdate version then <[id := l]> (old_blocks_map s) else old_blocks_map s)).
Proof.
  intros [(Hz & Ho & Hn) Hd Hnb Hp Hob Hm Hone Hcm Hfr] Hb Hnv Hok Hid Hmap. destruct (Hm id _ Hmap) as [Hnd Hall].
  destruct (Hall a) as (Ha & Haid & Hav); [left|]. assert (Hoka : block_ok a) by (apply (block_in_range a old_n); lia).
  destruct (AppendBlock_expand (old_identical_blocks s) a Ho Hoka) as [Ho' Heo].
  destruct (AppendBlock_expand (new_identical_blocks s) b Hn Hok) as [Hn' Hen].
  assert (Hsame : block_of oldf a = block_of newf b) by (eapply (io_same _ _ Hids a b id id); [lia|unfold block_ok in Hok; lia|done|done|done]).
  apply NoDup_cons in Hnd as [Hal Hnd].
  split; cbn [new_zeros old_identical_blocks new_identical_blocks old_blocks_map]; try done; rewrite ?Heo, ?Hen.
  - rewrite app_assoc, Permutation_app_comm. simpl. constructor; [|done]. intros Hx. by apply Hnb in Hx as [? _].
  - intros c. rewrite !elem_of_app, list_elem_of_singleton. specialize (Hnb c). rewrite elem_of_app in Hnb.
    intros [Hc|[Hc| ->]]; [destruct (Hnb (or_introl Hc)); auto|destruct (Hnb (or_intror Hc)); auto|auto].
  - rewrite !fmap_app, Hp. simpl. by rewrite Hsame.
  - intros c [Hc|Hc]%elem_of_app; [by apply Hob|]. apply list_elem_of_singleton in Hc. by rewrite Hc.
  - destruct (InplaceUpdate version); [|done]. intros id' l' [[<- <-]|[? Hid']]%lookup_insert_Some; [|by apply Hm].
    split; [done|]. intros c Hc. apply Hall. by right.
  - intros Hi. destruct (Hone Hi) as [Hnd' Hrest]. rewrite Hi. split.
    + rewrite Permutation_app_comm. simpl. constructor; [|done]. by apply (Hrest id (a :: l) a Hmap); left.
    + intros id' l' c [[<- <-]|[Hne Hid']]%lookup_insert_Some Hc; rewrite elem_of_app, list_elem_of_singleton; intros [Hx| ->].
      * apply (Hrest id (a :: l) c Hmap); [by right|done].
      * done.
      * by apply (Hrest id' l' c Hid').
      * destruct (Hm id' l' Hid') as [_ Hall']. destruct (Hall' a Hc) as (_ & Hx & _). rewrite Haid in Hx. by injection Hx as ->.
  - intros Hi. rewrite Hi. by apply Hcm.
  - intros Hi c. rewrite !elem_of_app, list_elem_of_singleton. specialize (Hfr Hi c). rewrite elem_of_app in Hfr.
    intros [Hc| ->]; [destruct (Hfr Hc) as [?|[?|[?|?]]]|]; auto.
Qed.

Lemma unmatched_fresh s b id :
  (forall a x, 0 <= a < old_n -> old_ids !! Z.to_nat a = Some x -> x <> 0 -> a ∈ default [] (old_blocks_map s !! x)) ->
  0 <= b -> new_ids !! Z.to_nat b = Some id -> id <> 0 -> default [] (old_blocks_map s !! id) = [] -> fresh b.
Proof.
  intros Hcm Hb Hid Hne Hnil a Ha E. destruct (io_old _ _ Hids a Ha) as [x Hx].
  apply (io_same _ _ Hids a b x id) in E as ->; [|lia|done..]. specialize (Hcm a id Ha Hx Hne). rewrite Hnil in Hcm. by apply not_elem_of_nil in Hcm.
Qed.

Lemma match_new_block_spec ov nv m :
  ranges_ok nv -> old_map_ok m ov ->
  (InplaceUpdate version = false -> forall a id, 0 <= a < old_n -> old_ids !! Z.to_nat a = Some id -> id <> 0 -> a ∈ default [] (m !! id)) ->
  exists s, foldM (match_new_block version new_ids nv) (seqZ 0 new_n) (mkIdentical [] [] [] m) = Ret s
    /\ identical_ok ov nv (seqZ 0 new_n) s.
Proof.
  intros Hnv Hm Hcm. apply foldM_inv.
  - split; cbn [new_zeros old_identical_blocks new_identical_blocks old_blocks_map]; unfold ExpandExtents; simpl; try done.
    + constructor.
    + intros b Hb. by apply not_elem_of_nil in Hb.
    + intros b Hb. by apply not_elem_of_nil in Hb.
    + intros _. split; [constructor|]. intros id l a _ _ Ha. by apply not_elem_of_nil in Ha.
    + intros _ b Hb. by apply not_elem_of_nil in Hb.
  - intros seen b todo s Hl Hs.
    assert (Hnd : NoDup (seen ++ b :: todo)) by (rewrite <- Hl; apply NoDup_seqZ).
    assert (Hbs : b ∉ seen) by (apply NoDup_app in Hnd as (_ & Hdis & _); intros Hx; apply (Hdis b Hx); left).
    assert (Hb : 0 <= b < new_n).
    { assert (b ∈ seqZ 0 new_n) as Hx by (rewrite Hl; set_solver). apply elem_of_seqZ in Hx. lia. }
    assert (Hbo : block_ok b) by (apply (block_in_range b new_n); lia).
    unfold match_new_block. destruct (ContainsBlock_view nv b Hnv Hbo) as (c & -> & Hc). rewrite outcome_bind_ret.
    destruct c; [eexists; split; [done|]; apply identical_skip; [done|]; intros _; left; by apply Hc|].
    assert (Hbn : b ∉ blocks_in nv) by (intros Hx; by apply Hc in Hx).
    destruct (io_new _ _ Hids b Hb) as [id Hid]. rewrite Hid. cbn [of_option]. rewrite outcome_bind_ret.
    destruct (Z.eqb_spec id 0) as [->|Hne]; [eexists; split; [done|]; by apply identical_zero|].
    destruct (old_blocks_map s !! id) as [[|a l]|] eqn:Hmap; (eexists; split; [done|]); [|by eapply identical_moved|];
      (apply identical_skip; [done|]; intros Hi; right; eapply (unmatched_fresh s b id); [by apply Hs|lia|done|done|by rewrite Hmap]).
Qed.

(** ** Zero blocks *)

(** Without old extents the old image is not read. *)
Lemma delta_chunk_no_old o new chunk off s :
  delta_chunk version (mkFileDelta o newf [] new chunk) off s = delta_chunk version (mkFileDelta oldf newf [] new chunk) off s.
Proof.
  destruct s as [aops w]. unfold delta_chunk. cbn [fd_old_part fd_new_part fd_old_extents fd_new_extents].
  change (chunk_blocks (mkFileDelta o newf [] new chunk)) with (chunk_blocks (mkFileDelta oldf newf [] new chunk)).
  set (c := chunk_blocks _). assert (ExtentsSublist [] off c = []) as -> by (unfold ExtentsSublist; by destruct (c =? 0)). done.
Qed.

Lemma delta_loop_no_old o new chunk fuel off s :
  delta_loop fuel version (mkFileDelta o newf [] new chunk) off s = delta_loop fuel version (mkFileDelta oldf newf [] new chunk) off s.
Proof.
  revert off s. induction fuel as [|fuel IH]; intros off s; [done|]. cbn [delta_loop]. rewrite delta_chunk_no_old.
  change (total_blocks (mkFileDelta o newf [] new chunk)) with (total_blocks (mkFileDelta oldf newf [] new chunk)).
  destruct (off <? _); [|done]. apply outcome_bind_ext. intros [[] s'] _; [|done]. apply IH.
Qed.

Lemma DeltaReadFile_no_old o new chunk aops w :
  DeltaReadFile version (mkFileDelta o newf [] new chunk) aops w = DeltaReadFile version (mkFileDelta oldf newf [] new chunk) aops w.
Proof. apply delta_loop_no_old. Qed.

Context (chunk : Z) (Hchunk : chunk = -1 \/ 0 < chunk < 2 ^ 63).

Lemma total_in_file f n es :
  Forall extent_ok es -> NoDup (ExpandExtents es) -> (forall b, b ∈ ExpandExtents es -> 0 <= b < n) -> 0 <= n -> n * kBlockSize <= zlen f ->
  in_file f es /\ total es * kBlockSize <= zlen f.
Proof.
  intros Hes Hnd Hin Hn Hf. split; [intros b Hb; specialize (Hin b Hb); unfold kBlockSize in *; lia|].
  rewrite <- (ExpandExtents_length es Hes). pose proof (NoDup_bound (ExpandExtents es) n Hnd Hin Hn). unfold kBlockSize in *. lia.
Qed.

Lemma zeros_spec aops w zeros :
  blob_ok w -> Forall extent_ok zeros -> NoDup (ExpandExtents zeros) -> (forall b, b ∈ ExpandExtents zeros -> 0 <= b < new_n) ->
  exists l w', foldM (fun st extent =>
               r ← DeltaReadFile version (mkFileDelta [] newf [] [extent] chunk) (fst st) (snd st);
               _ ← guard_that (fst r);
               Ret (snd r)) zeros (aops, w) = Ret (aops ++ l, w')
    /\ blob_ok w' /\ grows w w' /\ made w' [] (ExpandExtents zeros) l.
Proof.
  intros Hw Hz. revert aops w Hw. induction Hz as [|e es He Hes IH]; intros aops w Hw Hnd Hin; cbn [foldM].
  { exists [], w. rewrite app_nil_r. split_and!; try done. apply made_nil. }
  rewrite ExpandExtents_cons in Hnd, Hin.
  assert (He1 : ExpandExtents [e] = expand e) by (unfold ExpandExtents; simpl; by rewrite app_nil_r).
  destruct (total_in_file newf new_n [e]) as [Hf Ht]; [by apply Forall_singleton|rewrite He1; by apply NoDup_app in Hnd as (? & _ & _)|
    rewrite He1; intros b Hb; apply Hin, elem_of_app; by left|lia..|].
  cbn [fst snd]. rewrite (DeltaReadFile_no_old [] [e] chunk aops w).
  destruct (DeltaReadFile_spec oldf newf Hold Hnew version Hversion [] [e] chunk) with (aops := aops) (w := w)
    as (l1 & w1 & Heq & Hw1 & Hg1 & Hm1); try done; [by apply Forall_singleton|intros b Hb; by apply not_elem_of_nil in Hb|lia|].
  rewrite Heq. cbn [mbind outcome_bind fst snd guard_that].
  destruct (IH (aops ++ l1) w1 Hw1) as (l2 & w2 & Heq2 & Hw2 & Hg2 & Hm2); [by apply NoDup_app in Hnd as (_ & _ & ?)|
    intros b Hb; apply Hin, elem_of_app; by right|].
  exists (l1 ++ l2), w2. rewrite app_assoc. split_and!; [done..|by etrans|]. rewrite ExpandExtents_cons, <- He1.
  apply (made_app oldf newf version w2 [] _ []); [|done]. by eapply made_grows.
Qed.

(** ** Copies *)

(** A sublist that lies inside one extent. *)
Lemma sublist_inside pre e post off n scanned result :
  Forall extent_ok (pre ++ e :: post) -> 0 <= off -> 0 < n -> off + n <= num_blocks e -> 0 <= scanned ->
  scanned + total (pre ++ e :: post) < 2 ^ 64 ->
  sublist_loop (pre ++ e :: post) (scanned + total pre + off) (scanned + total pre + off + n) scanned result
  = result ++ [mkExtent (start_block e + off) n].
Proof.
  intros Hok Ho Hn He Hs Ht. revert scanned Hs Ht. induction pre as [|x pre IH]; intros scanned Hs Ht.
  - simpl app in *. apply Forall_cons in Hok as [Hoe Hpost]. pose proof (total_nonneg post Hpost).
    change (total (e :: post)) with (num_blocks e + total post) in Ht. change (total []) with 0. rewrite Z.add_0_r.
    rewrite sublist_loop_cons by (done || lia). cbv zeta. rewrite (proj2 (Z.ltb_lt _ _)), (proj2 (Z.leb_le _ _)) by lia.
    unfold sublist_part. do 3 f_equal; lia.
  - simpl app in *. apply Forall_cons in Hok as [Hx Hrest]. pose proof (total_nonneg _ Hrest) as Htr.
    change (total (x :: pre ++ e :: post)) with (num_blocks x + total (pre ++ e :: post)) in Ht.
    change (total (x :: pre)) with (num_blocks x + total pre).
    assert (Hsum : total (pre ++ e :: post) = total pre + num_blocks e + total post).
    { rewrite total_app. change (total (e :: post)) with (num_blocks e + total post). lia. }
    apply Forall_app in Hrest as Hsplit. destruct Hsplit as [Hpre [Hoe Hpost]%Forall_cons].
    pose proof (total_nonneg _ Hpre). pose proof (total_nonneg _ Hpost). unfold extent_ok in Hx.
    rewrite sublist_loop_cons by (done || lia). cbv zeta. rewrite (proj2 (Z.ltb_ge _ _)), (proj2 (Z.leb_gt _ _)) by lia.
    rewrite <- (IH Hrest (scanned + num_blocks x)) by lia. f_equal; lia.
Qed.

Lemma ExtentsSublist_inside pre e post off n :
  Forall extent_ok (pre ++ e :: post) -> 0 <= off -> 0 < n -> off + n <= num_blocks e -> total (pre ++ e :: post) < 2 ^ 64 ->
  ExtentsSublist (pre ++ e :: post) (total pre + off) n = [mkExtent (start_block e + off) n].
Proof.
  intros Hok Ho Hn He Ht. unfold ExtentsSublist. rewrite (proj2 (Z.eqb_neq _ _)) by lia.
  pose proof Hok as [Hpre [Hoe Hpost]%Forall_cons]%Forall_app. pose proof (total_nonneg _ Hpre). pose proof (total_nonneg _ Hpost).
  pose proof Ht as Ht'. rewrite total_app in Ht'. change (total (e :: post)) with (num_blocks e + total post) in Ht'.
  rewrite uint_small by (unfold is_uint; lia). by apply (sublist_inside pre e post off n 0 []).
Qed.

Definition copy_type : InstallOperation_Type := if OperationAllowed version SOURCE_COPY then SOURCE_COPY else MOVE.

Lemma copy_type_ok : OperationAllowed version copy_type = true /\ (copy_type = MOVE \/ copy_type = SOURCE_COPY).
Proof.
  unfold copy_type. destruct (OperationAllowed version SOURCE_COPY) eqn:E; [auto|]. split; [|auto].
  unfold OperationAllowed, kSourceMinorPayloadVersion, kInPlaceMinorPayloadVersion in *. lia.
Qed.

Lemma copy_made w src dst :
  Forall extent_ok src -> Forall extent_ok dst -> dst <> [] -> zlen (ExpandExtents src) * kBlockSize < 2 ^ 63 ->
  block_of oldf <$> ExpandExtents src = block_of newf <$> ExpandExtents dst ->
  made w (ExpandExtents src) (ExpandExtents dst) [mkOperation (Some copy_type) None None src None dst None None].
Proof.
  intros Hs Hd Hne Hsz Heq. destruct copy_type_ok as [Ha Ht].
  split; unfold read_blocks, written_blocks; cbn [mbind list_bind app src_extents dst_extents]; rewrite ?app_nil_r; try done.
  - apply Forall_singleton. split; unfold type_of; cbn [op_type src_extents dst_extents default]; try done.
    + by exists copy_type.
    + by destruct Ht as [-> | ->].
    + by destruct Ht as [-> | ->].
    + intros w' _ _. unfold produce, type_of. cbn [op_type src_extents dst_extents default]. by destruct Ht as [-> | ->].
    + intros w' _ _. rewrite Heq. by destruct Ht as [-> | ->].
    + by destruct Ht as [-> | ->].
    + unfold data_in, type_of. cbn [op_type default]. by destruct Ht as [-> | ->].
    + split; [done|]. apply (f_equal length) in Heq. rewrite !length_fmap in Heq. unfold zlen in *. by rewrite <- Heq.
  - by left.
Qed.

Section Copies.
Context (olds news : list Extent) (Holds : Forall extent_ok olds) (Hnews : Forall extent_ok news).
Context (Hpairs : block_of oldf <$> ExpandExtents olds = block_of newf <$> ExpandExtents news) (Htotal : total news * kBlockSize < 2 ^ 63).

Lemma copy_total : total olds = total news.
Proof. rewrite <- !ExpandExtents_length by done. unfold zlen. by rewrite <- (length_fmap (block_of oldf)), Hpairs, length_fmap. Qed.

Lemma copy_chunk w u n :
  0 <= u -> 0 < n -> u + n <= total news ->
  made w (slice (ExpandExtents olds) u n) (slice (ExpandExtents news) u n)
    [mkOperation (Some copy_type) None None (ExtentsSublist olds u n) None (ExtentsSublist news u n) None None].
Proof.
  intros Hu Hn Ht. pose proof copy_total. assert (total news < 2 ^ 62) by (unfold kBlockSize in *; lia).
  destruct (ExtentsSublist_spec olds u n) as [Hos Hoe]; [done|lia..|]. destruct (ExtentsSublist_spec news u n) as [Hns Hne]; [done|lia..|].
  unfold slice. rewrite <- Hoe, <- Hne. apply copy_made; [done|done| | |].
  - intros Hnil. rewrite Hnil in Hne. apply (f_equal length) in Hne. rewrite length_take, length_drop in Hne.
    pose proof (ExpandExtents_length news Hnews). unfold zlen in *. simpl in Hne. lia.
  - rewrite Hoe. unfold zlen. rewrite length_take, length_drop. unfold kBlockSize in *. lia.
  - by rewrite Hoe, Hne, !fmap_take, !fmap_drop, Hpairs.
Qed.

(** Operations without lengths. *)
Definition no_lengths (op : AnnotatedOperation) : Prop := src_length op = None /\ dst_length op = None.

Definition copy_step : Z := if chunk =? -1 then new_n else u64 chunk.

Lemma copy_step_pos : 0 < copy_step < 2 ^ 63.
Proof. unfold copy_step. destruct (Z.eqb_spec chunk (-1)); [unfold kBlockSize in *; lia|]. rewrite uint_small by (unfold is_uint; lia). lia. Qed.

Lemma move_extent_spec w pre e post fuel off aops :
  news = pre ++ e :: post -> 0 <= off -> num_blocks e - off <= Z.of_nat fuel ->
  let u := total pre + Z.min off (num_blocks e) in
  exists l, move_extent fuel version copy_step olds news e off (aops, u) = Ret (aops ++ l, total pre + num_blocks e)
    /\ made w (slice (ExpandExtents olds) u (total pre + num_blocks e - u)) (slice (ExpandExtents news) u (total pre + num_blocks e - u)) l
    /\ Forall no_lengths l.
Proof.
  intros Hsplit. pose proof copy_step_pos as Hc. pose proof Hnews as Hall.
  assert (Ht : total news < 2 ^ 62) by (unfold kBlockSize in *; lia). pose proof Ht as Ht'. rewrite Hsplit in Hall, Ht.
  apply Forall_app in Hall as [Hpre [He Hpost]%Forall_cons]. rewrite total_app in Ht. change (total (e :: post)) with (num_blocks e + total post) in Ht.
  pose proof (total_nonneg _ Hpre). pose proof (total_nonneg _ Hpost). unfold extent_ok, kSparseHole in He.
  revert off aops. induction fuel as [|fuel IH]; intros off aops Ho Hf u; cbn [move_extent].
  { rewrite (proj2 (Z.ltb_ge off (num_blocks e))) by lia. assert (u = total pre + num_blocks e) as -> by lia.
    exists []. rewrite app_nil_r. split; [done|]. rewrite Z.sub_diag. split; [apply made_nil|constructor]. }
  destruct (Z.ltb_spec off (num_blocks e)) as [Hlt|Hge].
  2: { assert (u = total pre + num_blocks e) as -> by lia. exists []. rewrite app_nil_r. split; [done|]. rewrite Z.sub_diag. split; [apply made_nil|constructor]. }
  assert (u = total pre + off) as Hu by lia. rewrite !(uint_small 64) by (unfold is_uint; lia).
  set (n := Z.min (num_blocks e - off) copy_step).
  assert (Hsub : ExtentsSublist news u n = [mkExtent (start_block e + off) n]).
  { rewrite Hsplit, Hu. apply ExtentsSublist_inside; [by rewrite <- Hsplit|lia..|]. rewrite <- Hsplit. lia. }
  rewrite Hsub, bool_decide_true by done. cbn [check_that]. rewrite outcome_bind_ret.
  destruct (IH (off + copy_step) (aops ++ [mkOperation (Some copy_type) None None (ExtentsSublist olds u n) None (ExtentsSublist news u n) None None]))
    as (l & Heq & Hm & Hnl); [lia..|]. rewrite <- Hsub. fold copy_type.
  assert (total pre + Z.min (off + copy_step) (num_blocks e) = u + n) as Hun by lia. rewrite Hun in Heq, Hm. 
  rewrite Heq, <- app_assoc. eexists; split; [done|].
  assert (Htot : total news = total pre + (num_blocks e + total post)) by (by rewrite Hsplit, total_app).
  replace (total pre + num_blocks e - u) with (n + (total pre + num_blocks e - (u + n))) by lia.
  rewrite !slice_app by lia. split; [apply made_app; [|done]; apply copy_chunk; lia|]. by constructor.
Qed.

Lemma moves_from w pre post aops :
  news = pre ++ post ->
  exists l, foldM (fun st extent => move_extent (Z.to_nat (num_blocks extent)) version copy_step olds news extent 0 st) post (aops, total pre)
      = Ret (aops ++ l, total news)
    /\ made w (slice (ExpandExtents olds) (total pre) (total post)) (slice (ExpandExtents news) (total pre) (total post)) l
    /\ Forall no_lengths l.
Proof.
  revert pre aops. induction post as [|e post IH]; intros pre aops Hsplit; cbn [foldM].
  { exists []. rewrite app_nil_r in Hsplit. rewrite app_nil_r, Hsplit. split; [done|]. split; [apply made_nil|constructor]. }
  pose proof Hnews as Hall. rewrite Hsplit in Hall. apply Forall_app in Hall as [Hpre [He Hpost]%Forall_cons].
  pose proof (total_nonneg _ Hpre). pose proof (total_nonneg _ Hpost). unfold extent_ok in He.
  destruct (move_extent_spec w pre e post (Z.to_nat (num_blocks e)) 0 aops Hsplit) as (l1 & Heq1 & Hm1 & Hnl1); [lia..|].
  rewrite Z.min_l, Z.add_0_r in Heq1, Hm1 by lia. rewrite Heq1, outcome_bind_ret.
  assert (Ht : total pre + num_blocks e = total (pre ++ [e])) by (rewrite total_app; unfold total at 3; simpl; lia). rewrite Ht.
  destruct (IH (pre ++ [e]) (aops ++ l1)) as (l2 & Heq2 & Hm2 & Hnl2); [by rewrite <- app_assoc|].
  exists (l1 ++ l2). rewrite Heq2, app_assoc. split; [done|]. rewrite <- Ht in Hm2.
  replace (total pre + num_blocks e - total pre) with (num_blocks e) in Hm1 by lia.
  change (total (e :: post)) with (num_blocks e + total post). rewrite !slice_app by lia. split; [by apply made_app|by apply Forall_app].
Qed.

Lemma moves_spec w aops :
  exists l, foldM (fun st extent => move_extent (Z.to_nat (num_blocks extent)) version copy_step olds news extent 0 st) news (aops, 0)
      = Ret (aops ++ l, total news)
    /\ made w (ExpandExtents olds) (ExpandExtents news) l /\ Forall no_lengths l.
Proof.
  destruct (moves_from w [] news aops eq_refl) as (l & Heq & Hm & Hnl). exists l. split; [done|]. split; [|done].
  change (total []) with 0 in Hm. rewrite <- (ExpandExtents_length news) in Hm at 2 by done. rewrite slice_all in Hm.
  rewrite <- copy_total, <- ExpandExtents_length, slice_all in Hm by done. done.
Qed.

End Copies.

(** ** The visited blocks *)

(** [O] are the old blocks the operations may read and [N] the new blocks
    they write; both are visited, and a visited new block is written or
    already has its content. *)
Record visits (O N : list Z) (ov nv : ExtentRanges) : Prop := {
  vi_old : ranges_ok ov /\ forall b, b ∈ blocks_in ov -> 0 <= b < old_n;
  vi_new : ranges_ok nv /\ forall b, b ∈ blocks_in nv -> 0 <= b < new_n;
  vi_reads : forall b, b ∈ O -> b ∈ blocks_in ov;
  vi_writes : forall b, b ∈ N -> b ∈ blocks_in nv;
  vi_done : forall b, b ∈ blocks_in nv -> b ∈ N \/ InplaceUpdate version = true /\ 0 <= b < old_n /\ block_of oldf b = block_of newf b;
  vi_once : NoDup N;
  vi_read_once : InplaceUpdate version = true -> NoDup O;
  vi_fresh : InplaceUpdate version = false -> forall b, 0 <= b < new_n -> b ∉ blocks_in nv -> fresh b;
}.

Lemma unmoved_spec :
  exists ov nv, (if InplaceUpdate version
       then foldM (mark_unmoved old_ids new_ids) (seqZ 0 (Z.min old_n new_n)) (ExtentRanges_new, ExtentRanges_new)
       else Ret (ExtentRanges_new, ExtentRanges_new)) = Ret (ov, nv)
    /\ (ranges_ok ov /\ forall b, b ∈ blocks_in ov -> 0 <= b < old_n) /\ (ranges_ok nv /\ forall b, b ∈ blocks_in nv -> 0 <= b < new_n)
    /\ (forall b, b ∈ blocks_in nv -> InplaceUpdate version = true /\ 0 <= b < old_n /\ block_of oldf b = block_of newf b)
    /\ (InplaceUpdate version = false -> forall b, b ∉ blocks_in ov).
Proof.
  destruct (InplaceUpdate version).
  - destruct mark_unmoved_spec as (ov & nv & Heq & Ho & Hn & Hov & Hnv). exists ov, nv.
    split; [done|]. split; [split; [done|]; intros b Hb; specialize (Hov b Hb); unfold unchanged in Hov; lia|].
    split; [split; [done|]; intros b Hb; destruct (Hnv b Hb) as [[? ?] _]; lia|].
    split; [|done]. intros b Hb; destruct (Hnv b Hb) as [[? ?] _]. split; [done|]. split; [lia|done].
  - destruct blocks_in_new as [Hr Hb]. exists ExtentRanges_new, ExtentRanges_new. rewrite Hb.
    split_and!; try done; try (intros b Hx; by apply not_elem_of_nil in Hx). intros _ b. apply not_elem_of_nil.
Qed.

Lemma identical_visited ov nv s ov' nv1 nv' :
  (ranges_ok ov /\ forall b, b ∈ blocks_in ov -> 0 <= b < old_n) -> (ranges_ok nv /\ forall b, b ∈ blocks_in nv -> 0 <= b < new_n) ->
  (forall b, b ∈ blocks_in nv -> InplaceUpdate version = true /\ 0 <= b < old_n /\ block_of oldf b = block_of newf b) ->
  identical_ok ov nv (seqZ 0 new_n) s ->
  ranges_ok ov' -> (forall b, b ∈ blocks_in ov' <-> b ∈ ExpandExtents (old_identical_blocks s) \/ b ∈ blocks_in ov) ->
  (forall b, b ∈ blocks_in nv1 <-> b ∈ ExpandExtents (new_zeros s) \/ b ∈ blocks_in nv) ->
  ranges_ok nv' -> (forall b, b ∈ blocks_in nv' <-> b ∈ ExpandExtents (new_identical_blocks s) \/ b ∈ blocks_in nv1) ->
  visits (ExpandExtents (old_identical_blocks s)) (ExpandExtents (new_zeros s) ++ ExpandExtents (new_identical_blocks s)) ov' nv'.
Proof.
  intros [Ho Hov] [Hn Hnv] Hun [_ Hd Hnb Hp Hob Hm Hone _ Hfr] Ho' Heo Hen1 Hn' Hen.
  assert (Hall : forall b, b ∈ blocks_in nv' <-> b ∈ ExpandExtents (new_zeros s) ++ ExpandExtents (new_identical_blocks s) \/ b ∈ blocks_in nv).
  { intros b. rewrite Hen, Hen1, elem_of_app. tauto. }
  split; [split; [done|]|split; [done|]|..].
  - intros b [Hb|Hb]%Heo; [by destruct (Hob b Hb)|auto].
  - intros b [Hb|Hb]%Hall; [|auto]. destruct (Hnb b Hb) as [Hx _]. apply elem_of_seqZ in Hx. lia.
  - intros b Hb. apply Heo. by left.
  - intros b Hb. apply Hall. by left.
  - intros b [Hb|Hb]%Hall; auto.
  - done.
  - intros Hi. by destruct (Hone Hi).
  - intros Hi b Hb Hnot. destruct (Hfr Hi b) as [Hx|[Hx|Hx]]; [apply elem_of_seqZ; lia|..|done|].
    + exfalso. apply Hnot, Hall. by right.
    + exfalso. apply Hnot, Hall. by left.
Qed.

End Moved.

Section MovedBlocks.
Context `{KernelOk} `{ToolsOk} `{!DiffRuns} `{BlockHash}.
Context (oldf newf : list Z) (Hold : zlen oldf < 2 ^ 63) (Hnew : zlen newf < 2 ^ 63).
Context (version : PayloadVersion) (Hversion : 1 <= minor version).
Context (old_n new_n : Z) (Hon : 0 <= old_n /\ old_n * kBlockSize <= zlen oldf) (Hnn : 0 < new_n /\ new_n * kBlockSize <= zlen newf).

(** What a copy reads and writes. *)
Lemma copy_contents w op : operation_ok oldf newf version w op -> type_of op = MOVE \/ type_of op = SOURCE_COPY ->
  block_of oldf <$> ExpandExtents (src_extents op) = block_of newf <$> ExpandExtents (dst_extents op).
Proof.
  intros Hop Ht. rewrite <- (ok_blocks _ _ _ _ _ Hop w) by (done || by right). unfold produce. by destruct Ht as [-> | ->].
Qed.

(** Operations on fresh blocks are not copies. *)
Lemma no_copies w O N l :
  made oldf newf version w O N l -> (forall a b, a ∈ O -> b ∈ N -> block_of oldf a <> block_of newf b) ->
  Forall (fun op => type_of op <> MOVE /\ type_of op <> SOURCE_COPY) l.
Proof.
  intros [Hops Hr Hw _] Hf. apply Forall_forall. intros op Hop. rewrite Forall_forall in Hops. specialize (Hops op Hop).
  assert (Hno : ~ (type_of op = MOVE \/ type_of op = SOURCE_COPY)).
  { intros Ht. pose proof (copy_contents _ _ Hops Ht) as E. destruct Hops as [_ _ Hne _ [_ Hok] _ _ _].
    destruct (ExpandExtents (dst_extents op)) as [|b bs] eqn:Eb; [by apply Hne, expand_nil|].
    destruct (ExpandExtents (src_extents op)) as [|a as_] eqn:Ea; [done|]. cbn [fmap list_fmap] in E. injection E as E _.
    apply (Hf a b); [|..|done]; (eapply elem_of_sublist; [|eassumption]; apply list_elem_of_bind; exists op; split; [|done]); [rewrite Ea|rewrite Eb]; left. }
  split; intros E; apply Hno; auto.
Qed.

Lemma DeltaMovedAndZeroBlocks_spec chunk aops w :
  (chunk = -1 \/ 0 < chunk < 2 ^ 63) -> blob_ok w ->
  exists O N l w' ov nv, DeltaMovedAndZeroBlocks version oldf newf old_n new_n chunk aops w ExtentRanges_new ExtentRanges_new
      = Ret (aops ++ l, w', ov, nv)
    /\ blob_ok w' /\ grows w w' /\ made oldf newf version w' O N l /\ visits oldf newf version old_n new_n O N ov nv
    /\ Forall (fun op => type_of op = MOVE \/ type_of op = SOURCE_COPY -> no_lengths op) l.
Proof.
  intros Hchunk Hw. destruct (MapPartitionBlocks_ids oldf newf Hold Hnew old_n new_n) as (oi & ni & Heq & Hids); [done..|].
  unfold DeltaMovedAndZeroBlocks. rewrite Heq, outcome_bind_ret.
  destruct (unmoved_spec oldf newf Hold Hnew version Hversion old_n new_n Hon Hnn oi ni Hids) as (ov0 & nv0 & -> & Ho0 & Hn0 & Hun & Hov0). rewrite outcome_bind_ret.
  destruct (map_old_block_spec oldf newf Hold Hnew version Hversion old_n new_n Hon Hnn oi ni Hids ov0) as (m & ov1 & -> & [[Hr1 Hov1] Hm _ _ Hall]); [apply Ho0..|]. cbn [fst snd] in *.
  rewrite outcome_bind_ret.
  destruct (match_new_block_spec oldf newf Hold Hnew version Hversion old_n new_n Hon Hnn oi ni Hids ov1 nv0 m) as (s & -> & Hs); [apply Hn0|done| |].
  { intros Hi a id Ha Hid Hne. apply Hall; try done; [apply elem_of_reverse, elem_of_seqZ; lia|]. by apply Hov0. }
  rewrite outcome_bind_ret. destruct (ic_extents _ _ _ _ _ _ _ _ _ Hs) as (Hz & Ho & Hn).
  pose proof (ic_distinct _ _ _ _ _ _ _ _ _ Hs) as (Hdz & _ & Hdn)%NoDup_app.
  assert (Hin : forall b, b ∈ ExpandExtents (new_zeros s) ++ ExpandExtents (new_identical_blocks s) -> 0 <= b < new_n).
  { intros b Hb. apply (ic_new _ _ _ _ _ _ _ _ _ Hs) in Hb as [Hb _]. apply elem_of_seqZ in Hb. lia. }
  destruct (AddExtents_view (new_zeros s) nv0) as (nv1 & -> & Hrn1 & Hen1); [apply Hn0|done|]. rewrite outcome_bind_ret.
  destruct (zeros_spec oldf newf Hold Hnew version Hversion new_n Hnn chunk Hchunk aops w (new_zeros s)) as (l1 & w1 & -> & Hw1 & Hg1 & Hm1);
    [done..|intros b Hb; apply Hin, elem_of_app; by left|]. rewrite outcome_bind_ret.
  destruct (AddExtents_view (old_identical_blocks s) ov1) as (ov2 & -> & Hro2 & Heo2); [done..|]. rewrite outcome_bind_ret.
  destruct (AddExtents_view (new_identical_blocks s) nv1) as (nv2 & -> & Hrn2 & Hen2); [done..|]. rewrite outcome_bind_ret.
  destruct (total_in_file newf new_n (new_identical_blocks s)) as [_ Ht]; [done|done|intros b Hb; apply Hin, elem_of_app; by right|lia|lia|].
  destruct (moves_spec oldf newf Hnew version Hversion new_n Hnn chunk Hchunk (old_identical_blocks s) (new_identical_blocks s) Ho Hn) with (w := w1)
    (aops := aops ++ l1) as (l2 & Heq2 & Hm2 & Hnl2); [apply Hs|unfold kBlockSize in *; lia|].
  unfold copy_step in Heq2. rewrite Heq2, outcome_bind_ret, <- app_assoc. do 6 eexists. split_and!; [done..|by eapply (made_app oldf newf version w1 [])| |].
  - eapply (identical_visited oldf newf) with (ov := ov1) (nv := nv0) (s := s); done.
  - apply Forall_app. split; [|eapply Forall_impl; [exact Hnl2|done]].
    eapply Forall_impl; [eapply (no_copies _ [] _ _ Hm1); intros a b Ha; by apply not_elem_of_nil in Ha|]. by intros op [? ?] [?|?].
Qed.
End MovedBlocks.
