(* ===== verification/UpdatePartition.v ===== *)
(** * UpdatePartition: the operations of a partition

    [DeltaReadPartition] of UpdateDelta: for every schedule of the thread
    pool, the operations it returns make the whole new image. *)
From stdpp Require Import strings.
From S2P Require Import Prelude UpdateExtents UpdateGraph UpdateViews UpdateInplace UpdateScratch.
From S2P Require Import UpdateFile UpdateBlocks UpdateDelta UpdateApply UpdateChunks UpdatePool UpdateMoved.

(** The files of a file system of [n] blocks: no file has a block twice; files
    may share blocks. *)
Definition files_ok (n : Z) (files : list File) : Prop :=
  forall f, f ∈ files -> Forall extent_ok (file_extents f) /\ NoDup (ExpandExtents (file_extents f))
    /\ forall b, b ∈ ExpandExtents (file_extents f) -> 0 <= b < n.

Lemma old_files_map_lookup files name es :
  old_files_map files !! name = Some es -> exists f, f ∈ files /\ file_extents f = es.
Proof.
  unfold old_files_map. intros Hl.
  assert (Hgen : forall m : gmap string (list Extent), fold_left (fun m f => <[file_name f := file_extents f]> m) files m !! name = Some es ->
    m !! name = Some es \/ exists f, f ∈ files /\ file_extents f = es).
  { clear Hl. induction files as [|f files IH]; intros m Hm; [by left|]. simpl in Hm.
    destruct (IH _ Hm) as [[[_ <-]|[_ ?]]%lookup_insert_Some|(g & ? & ?)]; [right; exists f; by split; [left|]|by left|right; exists g; by split; [right|]]. }
  destruct (Hgen _ Hl) as [Hx|?]; [by rewrite lookup_empty in Hx|done].
Qed.

Section Partition.
Context `{KernelOk} `{ToolsOk} `{!DiffRuns} `{BlockHash} `{Files}.
Context (version : PayloadVersion) (Hversion : 1 <= minor version).
Context (old_part new_part : PartitionConfig) (old_files new_files : list File).
Abbreviation oldf := (part_data old_part).
Abbreviation newf := (part_data new_part).
Abbreviation old_n := (part_size old_part / kBlockSize).
Abbreviation new_n := (part_size new_part / kBlockSize).
Abbreviation visits := (visits oldf newf version old_n new_n).

(** What [DeltaReadPartition] needs of the partitions. *)
Record partitions_ok : Prop := {
  po_files : zlen oldf < 2 ^ 63 /\ zlen newf < 2 ^ 63;
  po_old : 0 <= part_size old_part <= zlen oldf;
  po_new : kBlockSize <= part_size new_part <= zlen newf;
  po_old_fs : part_files old_part = Ret old_files /\ files_ok old_n old_files /\ (is_Some (fs_interface old_part) -> kBlockSize <= part_size old_part);
  po_new_fs : is_Some (fs_interface new_part) /\ part_files new_part = Ret new_files /\ files_ok new_n new_files;
}.

Context (Hparts : partitions_ok).

Lemma part_blocks : (0 <= old_n /\ old_n * kBlockSize <= zlen oldf) /\ (0 < new_n /\ new_n * kBlockSize <= zlen newf).
Proof.
  destruct Hparts as [_ Ho Hn _ _]. unfold kBlockSize in *.
  pose proof (Z.mul_div_le (part_size old_part) 4096). pose proof (Z.mul_div_le (part_size new_part) 4096).
  pose proof (Z.div_pos (part_size old_part) 4096). pose proof (Z.div_str_pos (part_size new_part) 4096). lia.
Qed.

Lemma visits_extend O N ov nv oes nes :
  visits O N ov nv -> Forall extent_ok oes -> Forall extent_ok nes ->
  (forall b, b ∈ ExpandExtents oes -> 0 <= b < old_n /\ b ∉ blocks_in ov) -> NoDup (ExpandExtents oes) ->
  (forall b, b ∈ ExpandExtents nes -> 0 <= b < new_n /\ b ∉ blocks_in nv) -> NoDup (ExpandExtents nes) ->
  exists ov' nv', AddExtents oes ov = Ret ov' /\ AddExtents nes nv = Ret nv'
    /\ (forall b, b ∈ blocks_in nv' <-> b ∈ ExpandExtents nes \/ b ∈ blocks_in nv)
    /\ visits (O ++ ExpandExtents oes) (N ++ ExpandExtents nes) ov' nv'.
Proof.
  intros [[Hro Hbo] [Hrn Hbn] Hr Hw Hd Hone Hrone Hfr] Hoes Hnes Ho Hondo Hn Hndn.
  destruct (AddExtents_view oes ov Hro Hoes) as (ov' & Heo & Hro' & Hov'). destruct (AddExtents_view nes nv Hrn Hnes) as (nv' & Hen & Hrn' & Hnv').
  exists ov', nv'. split_and!; [done..|]. split; [split; [done|]|split; [done|]|..].
  - intros b [Hb|Hb]%Hov'; [by apply Ho|auto].
  - intros b [Hb|Hb]%Hnv'; [by apply Hn|auto].
  - intros b [Hb|Hb]%elem_of_app; apply Hov'; auto.
  - intros b [Hb|Hb]%elem_of_app; apply Hnv'; auto.
  - intros b [Hb|Hb]%Hnv'; rewrite elem_of_app; [by left; right|]. destruct (Hd b Hb); auto.
  - apply NoDup_app. split_and!; [done| |done]. intros b Hb Hx. destruct (Hn b Hx) as [_ Hnot]. by apply Hnot, Hw.
  - intros Hi. apply NoDup_app. split_and!; [auto| |done]. intros b Hb Hx. destruct (Ho b Hx) as [_ Hnot]. by apply Hnot, Hr.
  - intros Hi b Hb Hnot. apply Hfr; [done|done|]. intros Hx. apply Hnot, Hnv'. by right.
Qed.

(** The extents of a file that are not visited yet. *)
Lemma filter_file n es r :
  ranges_ok r -> Forall extent_ok es -> NoDup (ExpandExtents es) -> (forall b, b ∈ ExpandExtents es -> 0 <= b < n) ->
  exists out, FilterExtentRanges es r = Ret out /\ Forall extent_ok out /\ NoDup (ExpandExtents out)
    /\ (forall b, b ∈ ExpandExtents out <-> b ∈ ExpandExtents es /\ b ∉ blocks_in r)
    /\ (forall b, b ∈ ExpandExtents out -> 0 <= b < n /\ b ∉ blocks_in r).
Proof.
  intros Hr Hes Hnd Hin. destruct (FilterExtentRanges_view es r Hr Hes) as (out & Heq & Hout & He). exists out.
  assert (Hb : forall b, b ∈ ExpandExtents out <-> b ∈ ExpandExtents es /\ b ∉ blocks_in r).
  { intros b. rewrite He, list_elem_of_filter. tauto. }
  split_and!; [done..|by rewrite He; apply NoDup_filter|done|]. intros b [Hx ?]%Hb. split; [auto|done].
Qed.

(** ** The processors *)

Context (hard soft : Z) (Hhard : hard = -1 \/ 0 < hard < 2 ^ 63) (Hsoft : soft = -1 \/ 0 < soft < 2 ^ 63).
Abbreviation old_blocks ps := (ps ≫= fun p => ExpandExtents (fd_old_extents p)).
Abbreviation new_blocks ps := (ps ≫= fun p => ExpandExtents (fd_new_extents p)).

Lemma file_delta_ok chunk oes nes :
  (chunk = -1 \/ 0 < chunk < 2 ^ 63) -> Forall extent_ok oes -> Forall extent_ok nes -> NoDup (ExpandExtents oes) -> NoDup (ExpandExtents nes) ->
  (forall b, b ∈ ExpandExtents oes -> 0 <= b < old_n) -> (forall b, b ∈ ExpandExtents nes -> 0 <= b < new_n) -> nes <> [] ->
  file_ok oldf newf (mkFileDelta oldf newf oes nes chunk).
Proof.
  intros Hc Ho Hn Hdo Hdn Hio Hin Hne. destruct part_blocks as [[? ?] [? ?]].
  destruct (total_in_file oldf old_n oes) as [? ?]; [done..|]. destruct (total_in_file newf new_n nes) as [? ?]; [done..|lia|lia|].
  destruct Hparts as [[? ?] _ _ _ _]. split; simpl; try done. unfold kBlockSize in *. lia.
Qed.

Lemma old_file_spec name :
  let es := default [] (old_files_map old_files !! name) in
  Forall extent_ok es /\ NoDup (ExpandExtents es) /\ forall b, b ∈ ExpandExtents es -> 0 <= b < old_n.
Proof.
  destruct (old_files_map _ !! name) as [es|] eqn:E; simpl.
  - apply old_files_map_lookup in E as (f & Hf & <-). by apply (po_old_fs Hparts).
  - split; [constructor|]. split; [constructor|]. intros b Hb. by apply not_elem_of_nil in Hb.
Qed.

Lemma add_processor_spec O N ov nv ps f :
  Forall extent_ok (file_extents f) /\ NoDup (ExpandExtents (file_extents f)) /\ (forall b, b ∈ ExpandExtents (file_extents f) -> 0 <= b < new_n) ->
  Forall (file_ok oldf newf) ps -> visits (O ++ old_blocks ps) (N ++ new_blocks ps) ov nv ->
  exists ov' nv' ps', add_processor old_part new_part hard (old_files_map old_files) (ov, nv, FileDeltaProcessor_new <$> ps) f
      = Ret (ov', nv', FileDeltaProcessor_new <$> ps')
    /\ Forall (file_ok oldf newf) ps' /\ visits (O ++ old_blocks ps') (N ++ new_blocks ps') ov' nv'.
Proof.
  intros (Hf1 & Hf2 & Hf3) Hps Hv. unfold add_processor.
  destruct (filter_file new_n (file_extents f) nv) as (nes & -> & Hn1 & Hn2 & _ & Hn3); [apply (vi_new _ _ _ _ _ _ _ _ _ Hv)|done..|].
  rewrite outcome_bind_ret. destruct (decide (nes = [])) as [->|Hne].
  - rewrite bool_decide_true by done. destruct (vi_new _ _ _ _ _ _ _ _ _ Hv) as [Hr _]. simpl. by exists ov, nv, ps.
  - rewrite (bool_decide_false (nes = [])) by done. destruct (old_file_spec (file_name f)) as (Ho1 & Ho2 & Ho3).
    destruct (filter_file old_n (default [] (old_files_map old_files !! file_name f)) ov)
      as (oes & Hoeq & Ho4 & Ho5 & _ & Ho6); [apply (vi_old _ _ _ _ _ _ _ _ _ Hv)|done..|].
    destruct (visits_extend _ _ ov nv oes nes Hv) as (ov' & nv' & Heo & Hen & _ & Hv'); [done..|].
    rewrite Hen, outcome_bind_ret, Hoeq, outcome_bind_ret, Heo, outcome_bind_ret.
    exists ov', nv', (ps ++ [mkFileDelta oldf newf oes nes hard]). rewrite fmap_app. split; [done|].
    split; [apply Forall_app; split; [done|]; apply Forall_singleton, file_delta_ok; try done; intros b Hb; [by apply Ho6|by apply Hn3]|].
    rewrite !bind_app, !app_assoc. cbn [mbind list_bind fd_old_extents fd_new_extents]. by rewrite !app_nil_r.
Qed.

Lemma add_processors_spec O N ov nv files :
  files_ok new_n files -> visits O N ov nv ->
  exists ov' nv' ps, foldM (add_processor old_part new_part hard (old_files_map old_files)) files (ov, nv, [])
      = Ret (ov', nv', FileDeltaProcessor_new <$> ps)
    /\ Forall (file_ok oldf newf) ps /\ visits (O ++ old_blocks ps) (N ++ new_blocks ps) ov' nv'.
Proof.
  intros Hfiles Hv.
  destruct (foldM_inv (add_processor old_part new_part hard (old_files_map old_files))
    (fun _ st => exists ps, snd st = FileDeltaProcessor_new <$> ps /\ Forall (file_ok oldf newf) ps
       /\ visits (O ++ old_blocks ps) (N ++ new_blocks ps) (fst (fst st)) (snd (fst st))) files (ov, nv, []))
    as ([[ov' nv'] prs] & Heq & ps & Hprs & Hps & Hv').
  - exists []. cbn [mbind list_bind fst snd]. by rewrite !app_nil_r.
  - intros seen f todo [[ov1 nv1] prs] Hl (ps & Hprs & Hps & Hv1). cbn [fst snd] in *. subst prs.
    destruct (add_processor_spec O N ov1 nv1 ps f) as (ov2 & nv2 & ps2 & Heq & Hps2 & Hv2); [|done|done|].
    + apply Hfiles. rewrite Hl. apply elem_of_app. right. left.
    + rewrite Heq. eexists. split; [done|]. by exists ps2.
  - cbn [fst snd] in *. subst prs. by exists ov', nv', ps.
Qed.

(** ** The blocks of no file *)

Lemma all_blocks n : 0 < n -> n * kBlockSize < 2 ^ 63 ->
  Forall extent_ok [ExtentForRange 0 n] /\ ExpandExtents [ExtentForRange 0 n] = seqZ 0 n.
Proof.
  intros Hn Hlt. assert (Hok : extent_ok (ExtentForRange 0 n)) by (unfold extent_ok, kSparseHole, kBlockSize in *; simpl; lia).
  split; [by apply Forall_singleton|]. rewrite ExpandExtents_cons, expand_ok by done. unfold ExpandExtents. simpl. apply app_nil_r.
Qed.

Lemma unvisited_blocks n r : 0 < n -> n * kBlockSize < 2 ^ 63 -> ranges_ok r ->
  exists out, FilterExtentRanges [ExtentForRange 0 n] r = Ret out /\ Forall extent_ok out /\ NoDup (ExpandExtents out)
    /\ (forall b, b ∈ ExpandExtents out <-> 0 <= b < n /\ b ∉ blocks_in r).
Proof.
  intros Hn Hlt Hr. destruct (all_blocks n Hn Hlt) as [Hok He].
  destruct (filter_file n [ExtentForRange 0 n] r) as (out & Heq & Hout & Hnd & Hb & _); [done..|by rewrite He; apply NoDup_seqZ| |].
  - intros b. rewrite He, elem_of_seqZ. lia.
  - exists out. split_and!; [done..|]. intros b. rewrite Hb, He, elem_of_seqZ. split; intros [? ?]; (split; [lia|done]).
Qed.

Lemma unvisited_old ov :
  ranges_ok ov -> exists out, (if fs_interface old_part then FilterExtentRanges [ExtentForRange 0 old_n] ov else Ret []) = Ret out
    /\ Forall extent_ok out /\ NoDup (ExpandExtents out) /\ (forall b, b ∈ ExpandExtents out -> 0 <= b < old_n /\ b ∉ blocks_in ov).
Proof.
  intros Hr. destruct (po_old_fs Hparts) as (_ & _ & Hsize). destruct (fs_interface old_part).
  - specialize (Hsize ltac:(by eexists)). destruct part_blocks as [[? ?] _]. destruct (po_files Hparts).
    destruct (unvisited_blocks old_n ov) as (out & ? & ? & ? & Hb); [apply Z.div_str_pos; by split|lia|done|].
    exists out. split_and!; [done..|]. intros b Hx. by apply Hb.
  - exists []. split_and!; [done|constructor|constructor|]. intros b Hb. by apply not_elem_of_nil in Hb.
Qed.

(** The operations of the partition make its whole new image. *)
Record makes_partition (w : BlobFileWriter) (aops : list AnnotatedOperation) : Prop := {
  mp_ops : Forall (operation_ok oldf newf version w) aops;
  mp_writes_once : NoDup (written_blocks aops);
  mp_reads_once : InplaceUpdate version = true -> NoDup (read_blocks aops);
  mp_copies : InplaceUpdate version = false -> Forall (fun op => type_of op = MOVE \/ type_of op = SOURCE_COPY -> no_lengths op) aops;
  mp_reads : forall b, b ∈ read_blocks aops -> 0 <= b < old_n;
  mp_writes : forall b, b ∈ written_blocks aops -> 0 <= b < new_n;
  mp_all : forall b, 0 <= b < new_n -> b ∈ written_blocks aops \/ InplaceUpdate version = true /\ 0 <= b < old_n /\ block_of oldf b = block_of newf b;
}.

Abbreviation plain_copies := (Forall (fun op => type_of op = MOVE \/ type_of op = SOURCE_COPY -> no_lengths op)).

(** Operations on blocks that were not visited are not copies. *)
Lemma fresh_plain w O N l ov nv O' N' :
  InplaceUpdate version = false -> visits O' N' ov nv -> made oldf newf version w O N l ->
  (forall a, a ∈ O -> 0 <= a < old_n) -> (forall b, b ∈ N -> 0 <= b < new_n /\ b ∉ blocks_in nv) -> plain_copies l.
Proof.
  intros Hi Hv Hm Ho Hn. eapply Forall_impl; [eapply no_copies; [exact Hm|]|by intros op [? ?] [?|?]].
  intros a b Ha Hb. apply (vi_fresh _ _ _ _ _ _ _ _ _ Hv Hi b); [by apply Hn..|by apply Ho].
Qed.

(** The same for the blocks of the processors. *)
Lemma processors_plain w O N O' N' l ov nv ov' nv' :
  InplaceUpdate version = false -> visits O N ov nv -> visits (O ++ O') (N ++ N') ov' nv' -> made oldf newf version w O' N' l -> plain_copies l.
Proof.
  intros Hi Hv Hv' Hm. eapply (fresh_plain w O' N' l ov nv); [done..| |].
  - intros a Ha. apply (vi_old _ _ _ _ _ _ _ _ _ Hv'), (vi_reads _ _ _ _ _ _ _ _ _ Hv'), elem_of_app. by right.
  - intros b Hb. split; [apply (vi_new _ _ _ _ _ _ _ _ _ Hv'), (vi_writes _ _ _ _ _ _ _ _ _ Hv'), elem_of_app; by right|].
    intros Hx. destruct (vi_done _ _ _ _ _ _ _ _ _ Hv b Hx) as [Hn|[Hi' _]]; [|by rewrite Hi in Hi'].
    pose proof (vi_once _ _ _ _ _ _ _ _ _ Hv') as (_ & Hd & _)%NoDup_app. by apply (Hd b).
Qed.

Lemma visits_makes w O N ov nv aops :
  made oldf newf version w O N aops -> visits O N ov nv -> (forall b, 0 <= b < new_n -> b ∈ blocks_in nv) ->
  (InplaceUpdate version = false -> plain_copies aops) -> makes_partition w aops.
Proof.
  intros [Hops Hr Hw Hall] [[_ Hov] [_ Hnv] Hro Hwn Hd Hone Hrone _] Hcov Hplain. split.
  - done.
  - exact (sublist_NoDup _ _ Hone Hw).
  - intros Hi. exact (sublist_NoDup _ _ (Hrone Hi) Hr).
  - done.
  - intros b Hb. apply Hov, Hro. by eapply elem_of_sublist.
  - intros b Hb. apply Hnv, Hwn. by eapply elem_of_sublist.
  - intros b Hb. destruct (Hd b (Hcov b Hb)) as [Hx|]; [|by right]. destruct (Hall b Hx) as [|(? & ? & ?)]; [by left|right]. auto.
Qed.

Lemma DeltaReadPartition_spec schedule aops w :
  blob_ok w ->
  exists l w', DeltaReadPartition version schedule old_part new_part hard soft aops w = Ret (aops ++ l, w')
    /\ blob_ok w' /\ grows w w' /\ makes_partition w' l.
Proof.
  intros Hw. destruct part_blocks as [Ho Hn]. destruct (po_files Hparts) as [Hof Hnf]. destruct (po_new_fs Hparts) as (Hfs & Hnfs & Hfiles).
  destruct (po_old_fs Hparts) as (Hofs & _).
  unfold DeltaReadPartition.
  destruct (DeltaMovedAndZeroBlocks_spec oldf newf Hof Hnf version Hversion old_n new_n Ho Hn soft aops w Hsoft Hw)
    as (O1 & N1 & l1 & w1 & ov1 & nv1 & -> & Hw1 & Hg1 & Hm1 & Hv1 & Hp1). rewrite outcome_bind_ret.
  rewrite Hofs, outcome_bind_ret, bool_decide_true by done. cbn [guard_that]. rewrite outcome_bind_ret, Hnfs, outcome_bind_ret.
  destruct (add_processors_spec O1 N1 ov1 nv1 new_files Hfiles Hv1) as (ov2 & nv2 & ps & -> & Hps & Hv2). rewrite outcome_bind_ret.
  destruct (thread_pool_spec oldf newf Hof Hnf version Hversion ps schedule w1 Hps Hw1) as (prs & w2 & -> & Hw2 & Hg2 & Hprs%pool_operations).
  assert (Hp2 : InplaceUpdate version = false -> plain_copies (l1 ++ (prs ≫= file_aops_))).
  { intros Hi. apply Forall_app. split; [done|]. eapply (processors_plain w2 O1 N1); [done|exact Hv1|exact Hv2|exact Hprs]. }
  rewrite outcome_bind_ret. pose proof (made_app _ _ _ _ _ _ _ _ _ _ (made_grows _ _ _ _ _ _ _ _ Hg2 Hm1) Hprs) as Hm2.
  destruct (unvisited_blocks new_n nv2) as (nes & -> & Hn1 & Hn2 & Hn3); [lia..|apply (vi_new _ _ _ _ _ _ _ _ _ Hv2)|].
  rewrite outcome_bind_ret. destruct (decide (nes = [])) as [->|Hne].
  - rewrite bool_decide_true by done. rewrite <- app_assoc. do 2 eexists. split_and!; [done..|by etrans|].
    eapply visits_makes; [done|done| |done]. intros b Hb. destruct (decide (b ∈ blocks_in nv2)) as [|Hx]; [done|].
    exfalso. by apply (not_elem_of_nil b), Hn3.
  - rewrite bool_decide_false by done.
    destruct (unvisited_old ov2) as (oes & -> & Ho1 & Ho2 & Ho3); [apply (vi_old _ _ _ _ _ _ _ _ _ Hv2)|]. rewrite outcome_bind_ret.
    destruct (visits_extend _ _ ov2 nv2 oes nes Hv2) as (ov3 & nv3 & _ & _ & Hnv3 & Hv3); [done..|intros b Hb; by apply Hn3|done|].
    destruct (file_delta_ok soft oes nes) as [_ _ [? ?] [? ?] [? ?] _ _]; [done..|intros b Hb; by apply Ho3|intros b Hb; by apply Hn3|done|].
    destruct (DeltaReadFile_spec oldf newf Hof Hnf version Hversion oes nes soft) with (aops := (aops ++ l1) ++ (prs ≫= file_aops_)) (w := w2)
      as (l3 & w3 & -> & Hw3 & Hg3 & Hm3); [done..|]. rewrite outcome_bind_ret. cbn [fst snd guard_that]. rewrite outcome_bind_ret.
    exists ((l1 ++ (prs ≫= file_aops_)) ++ l3), w3. rewrite !app_assoc. split_and!; [done..|by etrans; [|etrans]|].
    eapply visits_makes; [by eapply made_app; [eapply made_grows; [exact Hg3|exact Hm2]|exact Hm3]|exact Hv3| |].
    + intros b Hb. apply Hnv3. destruct (decide (b ∈ blocks_in nv2)) as [|Hx]; [by right|]. left. by apply Hn3.
    + intros Hi. apply Forall_app. split; [auto|]. eapply (fresh_plain w3); [done|exact Hv2|exact Hm3| |].
      * intros a Ha. by apply Ho3.
      * intros b Hb. by apply Hn3.
Qed.
End Partition.
