(* ===== verification/UpdateGenerate.v ===== *)
(** * UpdateGenerate: payloads for updates in place

    [InplaceGenerator::GenerateOperations] of
    update_engine/payload_generator/inplace_generator.cc: the operations of
    [DeltaReadPartition], in the order and with the full operations of
    [ResolveReadAfterWriteDependencies], turn a device that holds the old
    image into one that holds the new image. *)
From stdpp Require Import strings.
From S2P Require Import Prelude UpdateExtents UpdateGraph UpdateViews UpdateInplace UpdateBuild UpdateScratch UpdateRun.
From S2P Require Import UpdateFile UpdateBlocks UpdateDelta UpdateFilesystem UpdateConfig.
From S2P Require Import UpdateApply UpdateChunks UpdatePool UpdateMoved UpdatePartition.

Section Generator.
Context `{Kernel} `{Tools} `{BlockHash} `{Files}.

(** [DeltaReadFile] as [ConvertCutToFullOp] calls it. *)
Definition full_operations (new_part : PartitionConfig) (new_extents : list Extent) (blob_file : BlobFileWriter)
    : outcome (list AnnotatedOperation * BlobFileWriter) :=
  r ← DeltaReadFile kInPlacePayloadVersion (mkFileDelta [] (part_data new_part) [] new_extents (-1)) [] blob_file;
  _ ← guard_that (fst r);
  Ret (snd r).

(** The chunk sizes in blocks. *)
Definition hard_chunk_blocks (config : PayloadGenerationConfig) : Z :=
  if hard_chunk_size config =? -1 then -1 else sint 64 (u64 (hard_chunk_size config) / block_size config).
Definition soft_chunk_blocks (config : PayloadGenerationConfig) : Z := soft_chunk_size config / block_size config.

Definition InplaceGenerateOperations (config : PayloadGenerationConfig) (schedule : list nat) (old_part new_part : PartitionConfig)
    (blob_file : BlobFileWriter) : outcome (list AnnotatedOperation * BlobFileWriter) :=
  _ ← guard_that (bool_decide (part_name old_part = part_name new_part));
  _ ← guard_that (major (version config) =? major kInPlacePayloadVersion);
  _ ← guard_that (minor (version config) =? minor kInPlacePayloadVersion);
  let partition_size := if bool_decide (part_name new_part = kLegacyPartitionNameRoot) then rootfs_partition_size config
                        else part_size new_part in
  r ← DeltaReadPartition (version config) schedule old_part new_part (hard_chunk_blocks config) (soft_chunk_blocks config) [] blob_file;
  let '(aops, blob_file) := r in
  ResolveReadAfterWriteDependencies (full_operations new_part) (part_size old_part) (part_size new_part) partition_size
    (block_size config) blob_file aops.
End Generator.

(** ** Full operations *)

Section Full.
Context `{KernelOk} `{ToolsOk} `{!DiffRuns}.
Context (newf : list Z) (Hnew : zlen newf < 2 ^ 63).

Lemma DeltaReadFile_full es w :
  Forall extent_ok es -> in_file newf es -> total es * kBlockSize < 2 ^ 63 -> es <> [] -> blob_ok w ->
  exists op w', DeltaReadFile kInPlacePayloadVersion (mkFileDelta [] newf [] es (-1)) [] w = Ret (true, ([op], w')) /\ blob_ok w' /\ grows w w'
    /\ operation_ok [] newf kInPlacePayloadVersion w' op /\ ExpandExtents (dst_extents op) = ExpandExtents es
    /\ IsAReplaceOperation (type_of op) = true.
Proof.
  intros Hes Hin Ht Hne Hw. assert (Hoz : zlen (@nil Z) < 2 ^ 63) by done.
  assert (Hinn : in_file [] []) by (intros b Hb; by apply not_elem_of_nil in Hb).
  destruct (chunk_total [] newf [] es (-1)) as (Htot & Hpos & Hc & Hch); try done; [by left|]. specialize (Hch eq_refl).
  destruct (delta_chunk_spec [] newf Hoz Hnew kInPlacePayloadVersion ltac:(done) [] es (-1)) with (aops := @nil AnnotatedOperation) (w := w) (off := 0)
    as (l & w' & Heq & Hw' & Hg & Hm & _ & Hfull); try done; [by left|].
  destruct (Hfull eq_refl) as (op & -> & Hty & Hdst). exists op, w'.
  assert (Hop : operation_ok [] newf kInPlacePayloadVersion w' op) by (destruct Hm as [Hm _ _ _]; exact (proj1 (Forall_singleton _ _) Hm)).
  split_and!; try done.
  - unfold DeltaReadFile. rewrite Htot. destruct (Z.to_nat (total es)) as [|n] eqn:E; [lia|]. cbn [delta_loop].
    rewrite Htot, (proj2 (Z.ltb_lt 0 (total es))), Heq, outcome_bind_ret, Hch by lia. cbn [fst snd]. rewrite uint_small by (unfold is_uint; unfold kBlockSize in *; lia).
    destruct n; cbn [delta_loop]; rewrite Htot, Z.ltb_irrefl; done.
  - rewrite Hdst, Hch. change (Z.to_nat 0) with 0%nat. rewrite drop_0, take_ge; [done|]. pose proof (ExpandExtents_length es Hes). unfold zlen in *. lia.
  - destruct Hty as [|Hz]; [done|]. destruct (ok_type _ _ _ _ _ Hop) as (t & Htt & Ha). unfold type_of in Hz. rewrite Htt in Hz. simpl in Hz. by subst t.
Qed.
End Full.

(** ** Operations in place *)

Section Inplace.
Context `{KernelOk} `{ToolsOk} `{!DiffRuns} `{BlockHash} `{Files}.
Context (old_part new_part : PartitionConfig) (old_files new_files : list File) (Hparts : partitions_ok old_part new_part old_files new_files).
Abbreviation oldf := (part_data old_part).
Abbreviation newf := (part_data new_part).
Abbreviation old_n := (part_size old_part / kBlockSize).
Abbreviation new_n := (part_size new_part / kBlockSize).

(** What an operation computes, or what it should compute when the offset of
    its data does not fit in its field. *)
Definition fit_produce (w : BlobFileWriter) (op : InstallOperation) (xs : list (list Z)) : list (list Z) :=
  if decide (blob_file_size w < 2 ^ 32) then produce w op xs
  else if decide (op_type op = Some MOVE) then xs else block_of newf <$> ExpandExtents (dst_extents op).

#[local] Instance fit_operations w : Operations (fit_produce w).
Proof.
  split.
  - intros op es xs. done.
  - intros op xs Ht. unfold fit_produce, produce, type_of. rewrite Ht. by destruct (decide (blob_file_size w < 2 ^ 32)).
Qed.

Definition grow (w w' : BlobFileWriter) : Prop := grows w w' /\ (blob_ok w -> blob_ok w').

#[local] Instance grow_preorder : PreOrder grow.
Proof. split; [by intros w|]. intros w1 w2 w3 [? ?] [? ?]. split; [by etrans|auto]. Qed.

Lemma fit_produce_ok version w w' op xs :
  operation_ok oldf newf version w op -> grows w w' -> xs = block_of oldf <$> ExpandExtents (src_extents op) ->
  fit_produce w' op xs = block_of newf <$> ExpandExtents (dst_extents op).
Proof.
  intros Hop Hg ->. unfold fit_produce. destruct (decide (blob_file_size w' < 2 ^ 32)) as [Hf|_].
  - apply (ok_blocks _ _ _ _ _ Hop); [done|by left].
  - destruct (decide (op_type op = Some MOVE)) as [Hm|]; [|done].
    rewrite <- (ok_blocks _ _ _ _ _ Hop w'); [|done|right; left; unfold type_of; by rewrite Hm]. unfold produce, type_of. by rewrite Hm.
Qed.

Lemma full_operations_ok version w aops :
  blob_ok w -> makes_partition version old_part new_part w aops ->
  FullOperations fit_produce (block_of newf) aops grow w (full_operations new_part).
Proof.
  intros Hw Hm. split. intros op w1 [Hg1 Hw1] Hop. destruct (part_blocks _ _ _ _ Hparts) as [_ Hn]. destruct (po_files _ _ _ _ Hparts) as [_ Hnf].
  pose proof (mp_ops _ _ _ _ _ Hm) as Hall. rewrite Forall_forall in Hall. specialize (Hall op Hop).
  assert (Hin : forall b, b ∈ ExpandExtents (dst_extents op) -> 0 <= b < new_n).
  { intros b Hb. apply (mp_writes _ _ _ _ _ Hm). apply list_elem_of_bind. by exists op. }
  assert (Hnd : NoDup (ExpandExtents (dst_extents op))).
  { pose proof (mp_writes_once _ _ _ _ _ Hm) as Hnd. apply list_elem_of_split in Hop as (l1 & l2 & ->).
    unfold written_blocks in Hnd. rewrite bind_app, bind_cons in Hnd. by apply NoDup_app in Hnd as (_ & _ & (? & _ & _)%NoDup_app). }
  destruct (total_in_file newf new_n (dst_extents op)) as [Hf Ht]; [apply (ok_extents _ _ _ _ _ Hall)|done|done|lia|lia|].
  destruct (DeltaReadFile_full newf Hnf (dst_extents op) w1) as (full & w2 & Heq & Hw2 & Hg2 & Hfull & Hdst & Hty);
    [apply (ok_extents _ _ _ _ _ Hall)|done|lia|apply (ok_dst _ _ _ _ _ Hall)|auto|].
  destruct (ok_type _ _ _ _ _ Hfull) as (t & Htype & Ha). pose proof (ok_full _ _ _ _ _ Hfull Hty) as Hsrc.
  exists full, w2. unfold full_operations. rewrite Heq, outcome_bind_ret. cbn [fst snd guard_that]. rewrite outcome_bind_ret.
  split_and!; [done|done|apply (ok_extents _ _ _ _ _ Hfull)|done|by eexists| |done|].
  - unfold type_of in *. rewrite Htype in *. simpl in *. by destruct t.
  - intros w3 [Hg3 _]. rewrite <- Hdst. unfold fit_produce. destruct (decide (blob_file_size w3 < 2 ^ 32)) as [Hf3|_].
    + pose proof (ok_blocks _ _ _ _ _ Hfull w3 Hg3 (or_introl Hf3)) as Hb. by rewrite Hsrc in Hb.
    + rewrite decide_False; [done|]. intros Hx. rewrite Htype in Hx. injection Hx as ->. unfold type_of in Hty. by rewrite Htype in Hty.
Qed.

(** What the generator needs of its configuration. *)
Record inplace_config (config : PayloadGenerationConfig) : Prop := {
  ic_version : major (version config) = kChromeOSMajorPayloadVersion /\ minor (version config) = kInPlaceMinorPayloadVersion;
  ic_block_size : block_size config = kBlockSize;
  ic_hard : hard_chunk_size config = -1 \/ kBlockSize <= hard_chunk_size config < 2 ^ 63;
  ic_soft : kBlockSize <= soft_chunk_size config < 2 ^ 63;
  ic_rootfs : rootfs_partition_size config / kBlockSize < kTempBlockStart;
}.

Lemma chunk_sizes config :
  block_size config = kBlockSize -> hard_chunk_size config = -1 \/ kBlockSize <= hard_chunk_size config < 2 ^ 63 ->
  kBlockSize <= soft_chunk_size config < 2 ^ 63 ->
  (hard_chunk_blocks config = -1 \/ 0 < hard_chunk_blocks config < 2 ^ 63) /\ (soft_chunk_blocks config = -1 \/ 0 < soft_chunk_blocks config < 2 ^ 63).
Proof.
  intros Hb Hh Hs. unfold hard_chunk_blocks, soft_chunk_blocks. rewrite Hb. unfold kBlockSize in *.
  assert (Hdiv : forall x, 4096 <= x < 2 ^ 63 -> 0 < x / 4096 < 2 ^ 51).
  { intros x Hx. split; [apply Z.div_str_pos; lia|apply Z.div_lt_upper_bound; lia]. }
  pose proof (Hdiv _ Hs). split; [|lia]. destruct (Z.eqb_spec (hard_chunk_size config) (-1)); [by left|right].
  destruct Hh as [|Hh]; [done|]. pose proof (Hdiv _ Hh). rewrite uint_small by (unfold is_uint; lia). rewrite sint_small by lia. lia.
Qed.

Lemma partition_operations version w aops :
  minor version = kInPlaceMinorPayloadVersion -> makes_partition version old_part new_part w aops ->
  ops_ok (Z.max (part_size old_part) (part_size new_part) / kBlockSize) aops.
Proof.
  intros Hv [Hops Hw Hr _ Hrb Hwb _]. rewrite Forall_forall in Hops.
  assert (Hmax : old_n <= Z.max (part_size old_part) (part_size new_part) / kBlockSize /\ new_n <= Z.max (part_size old_part) (part_size new_part) / kBlockSize).
  { split; apply Z.div_le_mono; unfold kBlockSize; lia. }
  split.
  - intros op Hop. destruct (ok_type _ _ _ _ _ (Hops op Hop)) as (t & -> & _). by eexists.
  - intros op Hop. by apply (ok_dst _ _ _ _ _ (Hops op Hop)).
  - intros op Hop Hf. apply (ok_full _ _ _ _ _ (Hops op Hop)). unfold is_full_type in Hf. destruct (type_of op); done.
  - intros op Hop. by apply (ok_extents _ _ _ _ _ (Hops op Hop)).
  - intros op b Hop [Hb|Hb]%elem_of_app; [assert (b ∈ read_blocks aops) as Hx%Hrb|assert (b ∈ written_blocks aops) as Hx%Hwb]; try lia;
      apply list_elem_of_bind; by exists op.
  - apply Hr. unfold InplaceUpdate. by rewrite Hv.
  - done.
Qed.

Lemma InplaceGenerateOperations_spec config schedule w (dev : device (list Z)) :
  inplace_config config -> part_name old_part = part_name new_part -> blob_ok w -> (forall b, 0 <= b < old_n -> dev b = block_of oldf b) ->
  exists aops w', InplaceGenerateOperations config schedule old_part new_part w = Ret (aops, w') /\ blob_ok w' /\ grows w w'
    /\ (blob_fits w' -> forall b, 0 <= b < new_n -> run (produce w') aops dev b = block_of newf b).
Proof.
  intros Hc Hname Hw Hdev. destruct Hc as [[Hmaj Hmin] Hbs Hh Hs Hroot]. destruct (chunk_sizes config Hbs Hh Hs) as [Hhard Hsoft].
  unfold InplaceGenerateOperations. rewrite (bool_decide_true (part_name old_part = part_name new_part)), Hmaj, Hmin, Hbs by done.
  rewrite !Z.eqb_refl. cbn [guard_that]. rewrite !outcome_bind_ret.
  destruct (DeltaReadPartition_spec (version config) ltac:(by rewrite Hmin) old_part new_part old_files new_files Hparts _ _ Hhard Hsoft schedule [] w Hw)
    as (l & w1 & -> & Hw1 & Hg1 & Hm). rewrite outcome_bind_ret. cbn [app].
  pose proof (full_operations_ok _ w1 l Hw1 Hm) as Hfull. destruct (part_blocks _ _ _ _ Hparts) as [Ho Hn]. destruct (po_files _ _ _ _ Hparts) as [Hof Hnf].
  destruct (resolve_spec fit_produce grow w1 (full_operations new_part) dev (block_of newf) _ l (partition_operations _ w1 l Hmin Hm))
    with (old_size := part_size old_part) (new_size := part_size new_part) (block_size := kBlockSize)
         (partition_size := if bool_decide (part_name new_part = kLegacyPartitionNameRoot) then rootfs_partition_size config else part_size new_part)
    as (aops & w2 & Heq & [Hg2 Hok2] & Hrun).
  - intros w' op [Hg' _] Hop. pose proof (mp_ops _ _ _ _ _ Hm) as Hall. rewrite Forall_forall in Hall.
    apply (fit_produce_ok (version config) w1); [auto|done|]. apply list_fmap_ext. intros i b Hb%list_elem_of_lookup_2. apply Hdev.
    apply (mp_reads _ _ _ _ _ Hm), list_elem_of_bind. by exists op.
  - done.
  - unfold kTempBlockStart, kBlockSize in *. destruct (po_old _ _ _ _ Hparts), (po_new _ _ _ _ Hparts).
    split; [apply Z.div_pos; lia|apply Z.div_lt_upper_bound; lia].
  - destruct (bool_decide _); [done|]. unfold kTempBlockStart, kBlockSize in *. lia.
  - exists aops, w2. split_and!; [done|auto|by etrans|]. intros Hf b Hb.
    assert (new_n <= Z.max (part_size old_part) (part_size new_part) / kBlockSize) by (apply Z.div_le_mono; unfold kBlockSize; lia).
    rewrite (run_ext (produce w2) (fit_produce w2)) by (intros op xs; unfold fit_produce; by rewrite decide_True). rewrite Hrun by lia.
    destruct (decide (b ∈ _)) as [|Hin]; [done|]. destruct (mp_all _ _ _ _ _ Hm b Hb) as [Hx|(_ & Hold & <-)]; [done|]. by apply Hdev.
Qed.
End Inplace.


(** ** An example *)

Definition no_postinstall : PostInstallConfig := mkPostInstall false "" "" false.
Definition no_info : ImageInfo := mkImageInfo "" "" "" "" "" "".

(** A raw partition at [p] of [n] blocks. *)
Definition raw_partition (p : string) (n : Z) : PartitionConfig :=
  mkPartition p "" (n * kBlockSize) (Some (RawFilesystem_Create "<data-partition>" kBlockSize n)) "data" no_postinstall.

Lemma raw_files_ok n name : 0 < n -> n * kBlockSize < 2 ^ 63 -> files_ok n [mkFile name [ExtentForRange 0 n]].
Proof.
  intros Hn Hlt f Hf. apply list_elem_of_singleton in Hf as ->. simpl. destruct (all_blocks n Hn Hlt) as [Hok He]. rewrite He.
  split_and!; [done|apply NoDup_seqZ|]. intros b Hb. apply elem_of_seqZ in Hb. lia.
Qed.

Definition sample_config : PayloadGenerationConfig :=
  mkConfig (mkImage no_info [raw_partition "new" 2]) (mkImage no_info [raw_partition "old" 1]) true kInPlacePayloadVersion 0 (-1) 8192 4096 0.

Definition sample_files : Files := fun p => if decide (p = "old") then Some sample_old else if decide (p = "new") then Some sample_new else None.

Lemma sample_partitions_ok :
  @partitions_ok sample_files (raw_partition "old" 1) (raw_partition "new" 2)
    [mkFile "<data-partition>" [ExtentForRange 0 1]] [mkFile "<data-partition>" [ExtentForRange 0 2]].
Proof.
  assert (Ho : zlen sample_old = 4096) by (unfold zlen, sample_old; by rewrite length_replicate).
  assert (Hn : zlen sample_new = 8192) by (unfold zlen, sample_new; by rewrite length_replicate).
  split; change (@part_data sample_files (raw_partition "old" 1)) with sample_old; change (@part_data sample_files (raw_partition "new" 2)) with sample_new;
    simpl part_size; unfold kBlockSize; rewrite ?Ho, ?Hn; try lia.
  - split_and!; [done|by apply raw_files_ok|intros _; simpl; lia].
  - split_and!; [by eexists|done|by apply raw_files_ok].
Qed.

