(* ===== verification/UpdateFull.v ===== *)
(** * UpdateFull: payloads with the whole image

    [FullUpdateGenerator] of
    update_engine/payload_generator/full_update_generator.cc: one full
    operation per chunk of the image.  The chunks are read and compressed by a
    thread pool; a schedule says in which order the processors store their
    blobs, which is all they share. *)
From stdpp Require Import strings.
From S2P Require Import Prelude UpdateExtents UpdateGraph UpdateViews UpdateInplace UpdateScratch UpdateRun.
From S2P Require Import UpdateFile UpdateBlocks UpdateDelta UpdateFilesystem UpdateConfig.
From S2P Require Import UpdateApply UpdateChunks UpdatePool UpdateMoved UpdatePartition UpdateGenerate.

Definition kDefaultFullChunkSize : Z := 1024 * 1024.

Section FullGenerator.
Context `{Kernel} `{Tools} `{Files}.

(** [ChunkProcessor]: the parameters of one chunk. *)
Record ChunkProcessor := mkChunk { cp_offset : Z; cp_size : Z }.

(** The operation and the file of blobs; the type is set before the blob is
    stored. *)
Definition ProcessChunk (version : PayloadVersion) (file : list Z) (p : ChunkProcessor) (aop : AnnotatedOperation)
    (blob_file : BlobFileWriter) : outcome (AnnotatedOperation * BlobFileWriter) :=
  buffer_in ← PReadAll file (cp_size p) (cp_offset p);
  _ ← guard_that (zlen buffer_in =? cp_size p);
  best ← GenerateBestFullOperation buffer_in version;
  let '(op_blob, op_type) := best in
  r ← SetOperationBlob op_blob (set_type op_type aop) blob_file;
  Ret (snd (fst r), snd r).

(** [Run] of a processor: a failure is only logged. *)
Definition run_chunk (version : PayloadVersion) (file : list Z) (processors : list ChunkProcessor)
    (s : list AnnotatedOperation * BlobFileWriter) (i : nat) : outcome (list AnnotatedOperation * BlobFileWriter) :=
  let '(aops, blob_file) := s in
  p ← of_option (processors !! i);
  aop ← of_option (aops !! i);
  match ProcessChunk version file p aop blob_file with
  | Ret (aop, blob_file) => Ret (<[i := aop]> aops, blob_file)
  | Fail => Ret s
  | Abort => Abort
  end.

(** The order of the processors: each runs once. *)
Definition run_order (schedule : list nat) (n : nat) : list nat :=
  remove_dups (filter (fun i => i < n)%nat schedule ++ seq 0 n).

Definition full_chunk_size (config : PayloadGenerationConfig) : Z :=
  if 0 <=? hard_chunk_size config then Z.min (hard_chunk_size config) (soft_chunk_size config)
  else Z.min kDefaultFullChunkSize (soft_chunk_size config).

(** The destination of the chunk [i]. *)
Definition chunk_extent (partition_blocks chunk_blocks : Z) (i : nat) : Extent :=
  let start_block := Z.of_nat i * chunk_blocks in
  mkExtent start_block (Z.min chunk_blocks (partition_blocks - start_block)).

Definition FullGenerateOperations (config : PayloadGenerationConfig) (schedule : list nat) (old_part new_part : PartitionConfig)
    (blob_file : BlobFileWriter) : outcome (list AnnotatedOperation * BlobFileWriter) :=
  _ ← guard_that (ValidateExists new_part);
  _ ← guard_that (0 <? full_chunk_size config);
  _ ← guard_that (full_chunk_size config mod block_size config =? 0);
  let chunk_blocks := full_chunk_size config / block_size config in
  _ ← guard_that (FileExists (path new_part));
  let partition_blocks := part_size new_part / block_size config in
  let num_chunks := Z.to_nat ((partition_blocks + chunk_blocks - 1) / chunk_blocks) in
  let extents := chunk_extent partition_blocks chunk_blocks <$> seq 0 num_chunks in
  let aops := (fun e => mkOperation None None None [] None [e] None None) <$> extents in
  let processors := (fun e => mkChunk (start_block e * block_size config) (num_blocks e * block_size config)) <$> extents in
  r ← foldM (run_chunk (version config) (part_data new_part) processors) (run_order schedule num_chunks) (aops, blob_file);
  _ ← guard_that (forallb (fun aop => bool_decide (is_Some (op_type aop))) (fst r));
  Ret r.
End FullGenerator.

(** ** Every chunk has its operation *)

Section Chunks.
Context `{KernelOk} `{ToolsOk}.
Context (newf : list Z) (Hnew : zlen newf < 2 ^ 63) (version : PayloadVersion).

(** A full operation that writes the blocks of [e]. *)
Record chunk_ok (w : BlobFileWriter) (e : Extent) (op : AnnotatedOperation) : Prop := {
  ck_type : exists t, op_type op = Some t /\ OperationAllowed version t = true /\ (IsAReplaceOperation t = true \/ t = ZERO);
  ck_blocks : forall w' xs, grows w w' -> blob_fits w' -> produce w' op xs = block_of newf <$> expand e;
  ck_decodes : forall w' old, grows w w' -> blob_fits w' ->
    decodes (type_of op) (operation_data w' op) old (concat (block_of newf <$> expand e));
  ck_data : data_in w op;
}.

(** Its other fields. *)
Definition bare (e : Extent) (op : AnnotatedOperation) : Prop :=
  dst_extents op = [e] /\ src_extents op = [] /\ src_length op = None /\ dst_length op = None /\ hashes op = (None, None).

Definition chunk_at (e : Extent) : ChunkProcessor := mkChunk (start_block e * kBlockSize) (num_blocks e * kBlockSize).

Lemma ProcessChunk_spec e op w :
  extent_ok e -> (start_block e + num_blocks e) * kBlockSize <= zlen newf -> bare e op -> blob_ok w ->
  exists op' w', ProcessChunk version newf (chunk_at e) op w = Ret (op', w') /\ blob_ok w' /\ grows w w' /\ bare e op' /\ chunk_ok w' e op'.
Proof.
  intros He Hin (Hdst & Hbare) Hw. pose proof He as (Hs & Hn & _). unfold ProcessChunk. cbn [cp_size cp_offset chunk_at]. unfold kBlockSize in Hin.
  rewrite PReadAll_spec by (unfold kBlockSize; lia). rewrite outcome_bind_ret, zlen_slice by (unfold kBlockSize; lia).
  rewrite Z.eqb_refl. cbn [guard_that]. rewrite outcome_bind_ret.
  assert (Hd : slice newf (start_block e * kBlockSize) (num_blocks e * kBlockSize) = concat (block_of newf <$> expand e)).
  { rewrite slice_blocks, expand_ok by (done || lia). done. }
  assert (Hne : concat (block_of newf <$> expand e) <> []).
  { rewrite <- Hd. intros Hx. apply (f_equal zlen) in Hx. rewrite zlen_slice in Hx by (unfold kBlockSize; lia). unfold zlen, kBlockSize in Hx. simpl in Hx. lia. }
  rewrite Hd. destruct (GenerateBestFullOperation_spec _ version Hne) as (blob & t & -> & Ha & Ht & Hc & Hdec). rewrite outcome_bind_ret.
  destruct (SetOperationBlob_spec blob (set_type t op) w Hw) as (op' & w' & -> & Hw' & Hg & Hblob & E1 & E2 & E3 & E4 & E5 & E6).
  apply blob_set in Hblob as [Hdi Hdata]; [|unfold type_of; by rewrite E1].
  rewrite outcome_bind_ret. cbn [fst snd]. exists op', w'. split_and!; [done|done|done|by split_and!; rewrite ?E2, ?E3, ?E4, ?E5, ?E6; simpl; destruct_and?|].
  split; [exists t; by rewrite E1| | |done]; cycle 1.
  { intros w'' old Hg' Hf. rewrite Hdata by done. unfold type_of. rewrite E1. apply Hdec. }
  intros w'' xs Hg' Hf. unfold produce, type_of. rewrite E1, E3. cbn [set_type op_type dst_extents default]. rewrite Hdst, Hdata by done.
  assert (He1 : ExpandExtents [e] = expand e) by (unfold ExpandExtents; simpl; by rewrite app_nil_r). rewrite He1.
  rewrite <- (length_fmap (block_of newf) (expand e)). transitivity (apply_blocks t (length (block_of newf <$> expand e)) blob []); [destruct Ht as [Ht| ->]; [by destruct t|done]|].
  apply decodes_apply; [intros x Hx; by apply not_elem_of_nil in Hx| |apply Hdec].
  intros y (b & -> & Hb)%list_elem_of_fmap. rewrite expand_ok in Hb by done. apply elem_of_seqZ in Hb. apply zlen_block; unfold kBlockSize; lia.
Qed.

(** The operations after some processors have run. *)
Definition chunks_done (extents : list Extent) (seen : list nat) (s : list AnnotatedOperation * BlobFileWriter) : Prop :=
  blob_ok (snd s) /\ length (fst s) = length extents /\
  forall i e, extents !! i = Some e -> exists op, fst s !! i = Some op /\ bare e op
    /\ (i ∈ seen -> chunk_ok (snd s) e op).

Lemma run_chunk_spec extents seen s i :
  (forall e, e ∈ extents -> extent_ok e /\ (start_block e + num_blocks e) * kBlockSize <= zlen newf) ->
  (i < length extents)%nat -> chunks_done extents seen s ->
  exists s', run_chunk version newf (chunk_at <$> extents) s i = Ret s' /\ chunks_done extents (seen ++ [i]) s' /\ grows (snd s) (snd s').
Proof.
  intros Hes Hi (Hw & Hlen & Hops). destruct s as [aops w]. cbn [fst snd] in *. destruct (lookup_lt_is_Some_2 _ _ Hi) as [e He].
  destruct (Hops i e He) as (op & Hop & Hbare & _). unfold run_chunk. rewrite list_lookup_fmap, He, Hop. cbn [fmap option_fmap option_map of_option].
  rewrite !outcome_bind_ret. destruct (Hes e) as [Hok Hin]; [by apply list_elem_of_lookup_2 in He|].
  destruct (ProcessChunk_spec e op w Hok Hin Hbare Hw) as (op' & w' & -> & Hw' & Hg & Hb' & Hck). eexists. split; [done|].
  split; [|done]. split; [done|]. cbn [fst snd]. split; [by rewrite length_insert|]. intros j f Hf. destruct (decide (j = i)) as [->|Hne].
  - simplify_eq. exists op'. rewrite list_lookup_insert_eq by lia. by split_and!.
  - destruct (Hops j f Hf) as (opj & Hj & ? & Hckj). exists opj. rewrite list_lookup_insert_ne by done. split_and!; try done.
    intros [Hj'|Hj'%list_elem_of_singleton]%elem_of_app; [|done]. destruct (Hckj Hj') as [? Hb Hdec Hdi].
    split; [done|intros w'' xs Hg'; apply Hb; by etrans|intros w'' old Hg'; apply Hdec; by etrans|by eapply data_in_grows].
Qed.

Lemma run_chunks_spec extents order s :
  (forall e, e ∈ extents -> extent_ok e /\ (start_block e + num_blocks e) * kBlockSize <= zlen newf) ->
  (forall i, i ∈ order -> (i < length extents)%nat) -> chunks_done extents [] s ->
  exists s', foldM (run_chunk version newf (chunk_at <$> extents)) order s = Ret s' /\ chunks_done extents order s' /\ grows (snd s) (snd s').
Proof.
  intros Hes Hord Hs. apply (foldM_inv _ (fun seen s' => chunks_done extents seen s' /\ grows (snd s) (snd s'))); [done|].
  intros seen i todo s1 Hl [Hs1 Hg1]. destruct (run_chunk_spec extents seen s1 i Hes) as (s2 & -> & Hs2 & Hg2); [|done|].
  - apply Hord. rewrite Hl. apply elem_of_app. right. left.
  - exists s2. split_and!; [done..|by etrans].
Qed.
End Chunks.

Lemma elem_of_run_order schedule n i : i ∈ run_order schedule n <-> (i < n)%nat.
Proof.
  unfold run_order. rewrite elem_of_remove_dups, elem_of_app, list_elem_of_filter, elem_of_seq. lia.
Qed.

(** ** The chunks of a partition *)

Section Partition.
Context (n c : Z) (Hn : 0 < n) (Hc : 0 < c) (Hbound : n * kBlockSize < 2 ^ 63).
Abbreviation num := (Z.to_nat ((n + c - 1) / c)).

Lemma chunk_count i : (i < num)%nat <-> Z.of_nat i * c < n.
Proof.
  assert (Hdiv : 0 <= (n + c - 1) / c) by (apply Z.div_pos; lia).
  pose proof (Z.div_mod (n + c - 1) c ltac:(lia)) as Hm. pose proof (Z.mod_pos_bound (n + c - 1) c Hc).
  split; intros Hi.
  - assert (Z.of_nat i + 1 <= (n + c - 1) / c) by lia. nia.
  - assert (Z.of_nat i < (n + c - 1) / c); [|lia]. nia.
Qed.

Lemma chunk_extent_ok i : (i < num)%nat ->
  extent_ok (chunk_extent n c i) /\ start_block (chunk_extent n c i) + num_blocks (chunk_extent n c i) <= n.
Proof. intros Hi%chunk_count. unfold extent_ok, kSparseHole, kBlockSize in *. simpl. lia. Qed.

Lemma chunk_extents_cover b :
  b ∈ ExpandExtents (chunk_extent n c <$> seq 0 num) <-> 0 <= b < n.
Proof.
  unfold ExpandExtents. rewrite list_elem_of_bind. split.
  - intros (e & Hb & (i & -> & Hi%elem_of_seq)%list_elem_of_fmap). destruct (chunk_extent_ok i) as [Hok Hle]; [lia|].
    rewrite expand_ok in Hb by done. apply elem_of_seqZ in Hb. destruct Hok. lia.
  - intros Hb. pose proof (Z.div_mod b c ltac:(lia)) as Hm. pose proof (Z.mod_pos_bound b c Hc). pose proof (Z.div_pos b c).
    assert (Hi : (Z.to_nat (b / c) < num)%nat) by (apply chunk_count; rewrite Z2Nat.id by lia; nia).
    exists (chunk_extent n c (Z.to_nat (b / c))). destruct (chunk_extent_ok _ Hi) as [Hok _]. split.
    + rewrite expand_ok by done. apply elem_of_seqZ. simpl. rewrite Z2Nat.id by lia. nia.
    + apply list_elem_of_fmap. eexists. split; [done|]. apply elem_of_seq. lia.
Qed.
End Partition.

(** What the generator needs of its configuration. *)
Record full_config (config : PayloadGenerationConfig) : Prop := {
  fc_block_size : block_size config = kBlockSize;
  fc_hard : hard_chunk_size config < 0 \/ 0 < hard_chunk_size config /\ hard_chunk_size config mod kBlockSize = 0;
  fc_soft : 0 < soft_chunk_size config /\ soft_chunk_size config mod kBlockSize = 0;
}.

Lemma full_chunk_size_ok config : full_config config -> 0 < full_chunk_size config /\ full_chunk_size config mod kBlockSize = 0.
Proof.
  intros [_ Hh [Hs Hm]]. unfold full_chunk_size. destruct (Z.leb_spec 0 (hard_chunk_size config)).
  - destruct (Z.min_spec (hard_chunk_size config) (soft_chunk_size config)) as [[_ ->]|[_ ->]]; [|done]. destruct Hh as [|[? ?]]; [lia|done].
  - unfold kDefaultFullChunkSize. destruct (Z.min_spec (1024 * 1024) (soft_chunk_size config)) as [[_ ->]|[_ ->]]; done.
Qed.

Section Installs.
Context `{KernelOk} `{ToolsOk} `{Files}.

Lemma ValidateExists_data part : ValidateExists part = true -> is_uint 63 (part_size part) ->
  FileExists (path part) = true /\ 0 < part_size part <= zlen (part_data part).
Proof.
  unfold ValidateExists. intros [[[_ He]%andb_true_iff Hp]%andb_true_iff Hs]%andb_true_iff Hu. split; [done|].
  unfold is_uint in Hu. rewrite sint_small in Hs by lia. unfold FileSize in Hs. unfold FileExists in He. unfold part_data.
  destruct (file_at (path part)); simpl in *; [lia|done].
Qed.

(** An operation for a chunk of the [n] blocks of the partition. *)
Definition full_op (newf : list Z) (version : PayloadVersion) (n : Z) (w : BlobFileWriter) (op : AnnotatedOperation) : Prop :=
  exists e, extent_ok e /\ start_block e + num_blocks e <= n /\ bare e op /\ chunk_ok newf version w e op.

Lemma chunks_all newf version extents order aops w n :
  chunks_done newf version extents order (aops, w) -> (forall i, (i < length extents)%nat -> i ∈ order) ->
  (forall e, e ∈ extents -> extent_ok e /\ start_block e + num_blocks e <= n) ->
  Forall (full_op newf version n w) aops /\ forall b, b ∈ written_blocks aops <-> b ∈ ExpandExtents extents.
Proof.
  intros (Hw & Hl & Hops) Hord Hes. cbn [fst snd] in *. split.
  - apply Forall_forall. intros op [i Hi]%list_elem_of_lookup. destruct (lookup_lt_is_Some_2 extents i) as [e He]; [rewrite <- Hl; by apply lookup_lt_Some in Hi|].
    destruct (Hops i e He) as (op' & Hi' & Hd & Hck). simplify_eq. exists e. destruct (Hes e) as [? ?]; [by apply list_elem_of_lookup_2 in He|].
    split_and!; [done..|]. apply Hck, Hord. by apply lookup_lt_Some in He.
  - intros b. unfold written_blocks, ExpandExtents. rewrite !list_elem_of_bind. split.
    + intros (op & Hb & [i Hi]%list_elem_of_lookup). destruct (lookup_lt_is_Some_2 extents i) as [e He]; [rewrite <- Hl; by apply lookup_lt_Some in Hi|].
      destruct (Hops i e He) as (op' & Hi' & (Hd & _) & _). simplify_eq. rewrite Hd in Hb. simpl in Hb. rewrite app_nil_r in Hb. exists e. split; [done|]. by apply list_elem_of_lookup_2 in He.
    + intros (e & Hb & [i Hi]%list_elem_of_lookup). destruct (Hops i e Hi) as (op & Hop & (Hd & _) & _). exists op. rewrite Hd. simpl. rewrite app_nil_r.
      split; [done|]. by apply list_elem_of_lookup_2 in Hop.
Qed.

Lemma full_ops_run newf version n w aops :
  Forall (full_op newf version n w) aops -> (forall b, b ∈ written_blocks aops <-> 0 <= b < n) -> blob_fits w -> forall (dev : device (list Z)) b,
  run (produce w) aops dev b = if decide (0 <= b < n) then block_of newf b else dev b.
Proof.
  intros Hops Hall Hf dev b. rewrite Forall_forall in Hops. rewrite (run_constant _ (block_of newf)); [apply decide_ext, Hall|].
  intros op xs Hop. destruct (Hops op Hop) as (e & _ & _ & (-> & _) & [_ Hb _]). rewrite Hb by done. unfold ExpandExtents. simpl. by rewrite app_nil_r.
Qed.

Lemma FullGenerateOperations_spec config schedule old_part new_part w :
  full_config config -> ValidateExists new_part = true -> is_uint 63 (part_size new_part) -> kBlockSize <= part_size new_part -> blob_ok w ->
  exists aops w', FullGenerateOperations config schedule old_part new_part w = Ret (aops, w') /\ blob_ok w' /\ grows w w'
    /\ Forall (full_op (part_data new_part) (version config) (part_size new_part / kBlockSize) w') aops
    /\ (forall b, b ∈ written_blocks aops <-> 0 <= b < part_size new_part / kBlockSize).
Proof.
  intros Hc Hex Hu Hsize Hw. destruct (full_chunk_size_ok config Hc) as [Hpos Hmod]. destruct Hc as [Hbs _ _].
  destruct (ValidateExists_data _ Hex Hu) as [Hfe Hdata]. unfold FullGenerateOperations. rewrite Hex, Hbs, Hmod, Hfe, (proj2 (Z.ltb_lt _ _)) by done.
  rewrite Z.eqb_refl. cbn [guard_that]. rewrite !outcome_bind_ret.
  set (n := part_size new_part / kBlockSize). set (c := full_chunk_size config / kBlockSize).
  assert (Hn : 0 < n) by (apply Z.div_str_pos; unfold kBlockSize in *; lia).
  assert (Hc : 0 < c) by (apply Z.div_str_pos; pose proof (Z.div_mod (full_chunk_size config) kBlockSize ltac:(done)); unfold kBlockSize in *; lia).
  assert (Hnb : n * kBlockSize <= part_size new_part) by (unfold n; pose proof (Z.mul_div_le (part_size new_part) kBlockSize); unfold kBlockSize in *; lia).
  unfold is_uint in Hu. assert (Hnb' : n * kBlockSize < 2 ^ 63) by lia.
  set (num := Z.to_nat ((n + c - 1) / c)). set (es := chunk_extent n c <$> seq 0 num).
  assert (Hlen : length es = num) by (unfold es; by rewrite length_fmap, length_seq).
  destruct (run_chunks_spec (part_data new_part) (version config) es (run_order schedule num)
    ((fun e => mkOperation None None None [] None [e] None None) <$> es, w)) as ([aops w'] & Heq & (Hw' & Hl & Hops) & Hg).
  - intros e (i & -> & Hi%elem_of_seq)%list_elem_of_fmap. destruct (chunk_extent_ok n c Hn Hc Hnb' i) as [Hok Hle]; [lia|]. split; [done|].
    unfold kBlockSize in *. lia.
  - intros i Hi. rewrite Hlen. by apply elem_of_run_order in Hi.
  - split; [done|]. cbn [fst snd]. split; [by rewrite length_fmap|]. intros i e He. eexists. rewrite list_lookup_fmap, He. split_and!; try done.
    intros Hi. by apply not_elem_of_nil in Hi.
  - cbn [fst snd] in *. unfold chunk_at in Heq. rewrite Heq, outcome_bind_ret. cbn [fst snd].
    destruct (chunks_all (part_data new_part) (version config) es (run_order schedule num) aops w' n) as [Hall Hwr]; [done|intros i Hi; apply elem_of_run_order; lia| |].
    { intros e (i & -> & Hi%elem_of_seq)%list_elem_of_fmap. apply chunk_extent_ok; (done || lia). }
    assert (Htypes : forallb (fun aop => bool_decide (is_Some (op_type aop))) aops = true).
    { apply forallb_forall. intros op Hop%list_elem_of_In. rewrite Forall_forall in Hall. destruct (Hall op Hop) as (e & _ & _ & _ & [(t & -> & _) _ _ _]). done. }
    rewrite Htypes. cbn [guard_that]. rewrite outcome_bind_ret. exists aops, w'. split_and!; try done. intros b. rewrite Hwr.
    pose proof (chunk_extents_cover n c Hn Hc Hnb' b) as Hiff. by fold num es in Hiff.
Qed.
End Installs.



(** A device without space left. *)
Definition full_disk : Kernel := {|
  pread file count offset := Some (slice file offset count);
  pwrite file buf offset := None;
|}.

(** When the blobs cannot be stored the generator succeeds nevertheless, since
    the type of the operation is set before its blob is stored: the operation
    has no data. *)
Lemma full_disk_succeeds :
  exists op, @FullGenerateOperations full_disk plain_tools sample_files sample_config [] (raw_partition "" 0) (raw_partition "new" 2)
      (mkBlobFile [] 0) = Ret ([op], mkBlobFile [] 0)
    /\ op_type op = Some REPLACE /\ data_offset op = None.
Proof. eexists. split; [vm_compute; reflexivity|done]. Qed.
