(* ===== verification/UpdateAB.v ===== *)
(** * UpdateAB: payloads for updates of the other slot

    [ABGenerator] of update_engine/payload_generator/ab_generator.cc: the
    operations of [DeltaReadPartition] are split into operations with one
    destination extent, sorted by destination and merged again.  The order
    [std::sort] gives to operations that compare equal is not specified, so
    the sort is an argument; SHA-256 is the class [Hash]. *)
From stdpp Require Import strings.
From S2P Require Import Prelude UpdateExtents UpdateGraph UpdateViews UpdateInplace UpdateScratch UpdateRun.
From S2P Require Import UpdateFile UpdateBlocks UpdateDelta UpdateFilesystem UpdateConfig.
From S2P Require Import UpdateApply UpdateChunks UpdatePool UpdateMoved UpdatePartition UpdateGenerate.

(** [HashCalculator::RawHashOfData] *)
Class Hash := RawHashOfData : list Z -> option (list Z).

Section Generator.
Context `{Kernel} `{Tools} `{BlockHash} `{Files} `{Hash}.

(** ** Splitting *)

(** The source extents for [blocks_left] blocks of the destination, with the
    index and the rest of the current source extent. *)
Fixpoint take_source (fuel : nat) (srcs : list Extent) (index : nat) (curr : Extent) (blocks_left : Z) (acc : list Extent)
    : outcome (list Extent * nat * Extent) :=
  if blocks_left =? 0 then Ret (acc, index, curr) else
  match fuel with
  | O => Abort
  | S fuel =>
      if num_blocks curr <=? blocks_left then
        match srcs !! S index with
        | Some next => take_source fuel srcs (S index) next (u64 (blocks_left - num_blocks curr)) (acc ++ [curr])
        | None => Ret (acc ++ [curr], index, curr)
        end
      else
        take_source fuel srcs index
          (mkExtent (u64 (start_block curr + blocks_left)) (u64 (num_blocks curr - blocks_left))) (u64 (blocks_left - blocks_left))
          (acc ++ [mkExtent (start_block curr) blocks_left])
  end.

Definition split_copy (srcs : list Extent) (s : list AnnotatedOperation * nat * Extent) (dst_ext : Extent)
    : outcome (list AnnotatedOperation * nat * Extent) :=
  let '(result, index, curr) := s in
  r ← take_source (S (length srcs)) srcs index curr (num_blocks dst_ext) [];
  let '(src, index, curr) := r in
  Ret (result ++ [mkOperation (Some SOURCE_COPY) None None src None [dst_ext] None None], index, curr).

Definition SplitSourceCopy (aop : AnnotatedOperation) (result_aops : list AnnotatedOperation) : outcome (list AnnotatedOperation) :=
  _ ← guard_that (bool_decide (type_of aop = SOURCE_COPY));
  first ← of_option (src_extents aop !! 0%nat);
  r ← foldM (split_copy (src_extents aop)) (dst_extents aop) (result_aops, 0%nat, first);
  let '(result, index, _) := r in
  _ ← check_that (bool_decide (S index = length (src_extents aop)));
  Ret result.

(** The data of a full operation are stored again unless it already has them. *)
Definition AddDataAndSetType (aop : AnnotatedOperation) (version : PayloadVersion) (target_part : list Z) (blob_file : BlobFileWriter)
    : outcome (AnnotatedOperation * BlobFileWriter) :=
  _ ← guard_that (IsAReplaceOperation (type_of aop));
  data ← ReadExtents target_part (dst_extents aop) (default 0 (dst_length aop)) kBlockSize;
  best ← GenerateBestFullOperation data version;
  let '(blob, op_type) := best in
  if negb (bool_decide (type_of aop = op_type)) || negb (default 0 (data_length aop) =? zlen blob) then
    r ← SetOperationBlob blob (set_type op_type aop) blob_file;
    Ret (snd (fst r), snd r)
  else Ret (aop, blob_file).

Definition split_replace (version : PayloadVersion) (is_replace : bool) (target_part : list Z)
    (s : list AnnotatedOperation * Z * BlobFileWriter) (dst_ext : Extent) : outcome (list AnnotatedOperation * Z * BlobFileWriter) :=
  let '(result, data_offset, blob_file) := s in
  let data_size := u32 (num_blocks dst_ext * kBlockSize) in
  let new_op := mkOperation None None None [] None [dst_ext] (Some data_size) None in
  let '(new_op, data_offset) :=
    if is_replace then (mkOperation (Some REPLACE) (Some data_offset) (Some data_size) [] None [dst_ext] (Some data_size) None,
                        u32 (data_offset + data_size))
    else (new_op, data_offset) in
  r ← AddDataAndSetType new_op version target_part blob_file;
  Ret (result ++ [fst r], data_offset, snd r).

Definition SplitAReplaceOp (version : PayloadVersion) (aop : AnnotatedOperation) (target_part : list Z)
    (result_aops : list AnnotatedOperation) (blob_file : BlobFileWriter) : outcome (list AnnotatedOperation * BlobFileWriter) :=
  _ ← guard_that (IsAReplaceOperation (type_of aop));
  r ← foldM (split_replace version (bool_decide (type_of aop = REPLACE)) target_part) (dst_extents aop)
        (result_aops, default 0 (data_offset aop), blob_file);
  let '(result, _, blob_file) := r in
  Ret (result, blob_file).

Definition fragment_operation (version : PayloadVersion) (target_part : list Z) (s : list AnnotatedOperation * BlobFileWriter)
    (aop : AnnotatedOperation) : outcome (list AnnotatedOperation * BlobFileWriter) :=
  let '(fragmented, blob_file) := s in
  if (1 <? length (dst_extents aop))%nat && bool_decide (type_of aop = SOURCE_COPY) then
    fragmented ← SplitSourceCopy aop fragmented; Ret (fragmented, blob_file)
  else if (1 <? length (dst_extents aop))%nat && IsAReplaceOperation (type_of aop) then
    SplitAReplaceOp version aop target_part fragmented blob_file
  else Ret (fragmented ++ [aop], blob_file).

Definition FragmentOperations (version : PayloadVersion) (aops : list AnnotatedOperation) (target_part : list Z) (blob_file : BlobFileWriter)
    : outcome (list AnnotatedOperation * BlobFileWriter) :=
  foldM (fragment_operation version target_part) aops ([], blob_file).

(** ** Merging *)

(** The last operation after the current one has been merged into it; the data
    length 0 says that its blob has to be added. *)
Definition merged (last_aop curr_aop : AnnotatedOperation) : AnnotatedOperation :=
  let is_delta_op := bool_decide (type_of curr_aop = SOURCE_COPY) in
  mkInstallOperation (op_type last_aop) (data_offset last_aop)
    (if IsAReplaceOperation (type_of curr_aop) then Some 0 else data_length last_aop)
    (if is_delta_op then ExtendExtents (src_extents last_aop) (src_extents curr_aop) else src_extents last_aop)
    (if is_delta_op && (0 <? default 0 (src_length curr_aop))
     then Some (u64 (default 0 (src_length last_aop) + default 0 (src_length curr_aop))) else src_length last_aop)
    (ExtendExtents (dst_extents last_aop) (dst_extents curr_aop))
    (if 0 <? default 0 (dst_length curr_aop)
     then Some (u64 (default 0 (dst_length last_aop) + default 0 (dst_length curr_aop))) else dst_length last_aop)
    (data_sha256_hash last_aop) (src_sha256_hash last_aop).

(** The test for two operations with destinations; blocks are truncated to 32 bits. *)
Definition mergeable (chunk_blocks : Z) (last_aop curr_aop : AnnotatedOperation) (last_dst curr_dst : Extent) : bool :=
  let is_delta_op := bool_decide (type_of curr_aop = SOURCE_COPY) in
  ((is_delta_op && bool_decide (type_of last_aop = type_of curr_aop))
   || (IsAReplaceOperation (type_of curr_aop) && IsAReplaceOperation (type_of last_aop)))
  && (u32 (start_block last_dst + num_blocks last_dst) =? u32 (start_block curr_dst))
  && (u32 (num_blocks last_dst + num_blocks curr_dst) <=? chunk_blocks).

Definition merge_operation (chunk_blocks : Z) (new_aops : list AnnotatedOperation) (curr_aop : AnnotatedOperation)
    : list AnnotatedOperation :=
  match last new_aops with
  | None => [curr_aop]
  | Some last_aop =>
      match last (dst_extents last_aop), head (dst_extents curr_aop) with
      | Some last_dst, Some curr_dst =>
          if mergeable chunk_blocks last_aop curr_aop last_dst curr_dst
          then <[pred (length new_aops) := merged last_aop curr_aop]> new_aops
          else new_aops ++ [curr_aop]
      | _, _ => new_aops ++ [curr_aop]
      end
  end.

Definition add_blob (version : PayloadVersion) (target_part : list Z) (s : list AnnotatedOperation * BlobFileWriter)
    (curr_aop : AnnotatedOperation) : outcome (list AnnotatedOperation * BlobFileWriter) :=
  if (default 0 (data_length curr_aop) =? 0) && IsAReplaceOperation (type_of curr_aop) then
    r ← AddDataAndSetType curr_aop version target_part (snd s);
    Ret (fst s ++ [fst r], snd r)
  else Ret (fst s ++ [curr_aop], snd s).

Definition MergeOperations (aops : list AnnotatedOperation) (version : PayloadVersion) (chunk_blocks : Z) (target_part : list Z)
    (blob_file : BlobFileWriter) : outcome (list AnnotatedOperation * BlobFileWriter) :=
  foldM (add_blob version target_part) (fold_left (merge_operation chunk_blocks) aops []) ([], blob_file).

(** ** Source hashes *)

Definition add_source_hash (source_part : list Z) (aops : list AnnotatedOperation) (aop : AnnotatedOperation)
    : outcome (list AnnotatedOperation) :=
  if bool_decide (src_extents aop = []) then Ret (aops ++ [aop]) else
  let length := default (u64 (BlocksInExtents (src_extents aop) * kBlockSize)) (src_length aop) in
  src_data ← ReadExtents source_part (src_extents aop) length kBlockSize;
  match RawHashOfData src_data with
  | None => Fail
  | Some src_hash => Ret (aops ++ [set_src_hash src_hash aop])
  end.

Definition AddSourceHash (aops : list AnnotatedOperation) (source_part : list Z) : outcome (list AnnotatedOperation) :=
  foldM (add_source_hash source_part) aops [].

(** ** The generator *)

Definition merge_chunk_blocks (hard_chunk_blocks soft_chunk_blocks : Z) : Z :=
  if negb (hard_chunk_blocks =? -1) && (u64 hard_chunk_blocks <? soft_chunk_blocks) then u64 hard_chunk_blocks else soft_chunk_blocks.

(** [sort] is [SortOperationsByDestination]. *)
Definition ABGenerateOperations (sort : list AnnotatedOperation -> list AnnotatedOperation) (config : PayloadGenerationConfig)
    (schedule : list nat) (old_part new_part : PartitionConfig) (blob_file : BlobFileWriter)
    : outcome (list AnnotatedOperation * BlobFileWriter) :=
  _ ← guard_that (bool_decide (part_name old_part = part_name new_part));
  r ← DeltaReadPartition (version config) schedule old_part new_part (hard_chunk_blocks config) (soft_chunk_blocks config) [] blob_file;
  let '(aops, blob_file) := r in
  r ← FragmentOperations (version config) aops (part_data new_part) blob_file;
  let '(aops, blob_file) := r in
  r ← MergeOperations (sort aops) (version config) (merge_chunk_blocks (hard_chunk_blocks config) (soft_chunk_blocks config))
        (part_data new_part) blob_file;
  let '(aops, blob_file) := r in
  if kOpSrcHashMinorPayloadVersion <=? minor (version config)
  then aops ← AddSourceHash aops (part_data old_part); Ret (aops, blob_file)
  else Ret (aops, blob_file).
End Generator.

(** ** Operations of a payload for the other slot *)

Section Operations.
Context `{KernelOk} `{ToolsOk}.
Context (oldf newf : list Z) (version : PayloadVersion) (old_n new_n : Z).
Context (Hold : zlen oldf < 2 ^ 63) (Hon : 0 <= old_n /\ old_n * kBlockSize <= zlen oldf).
Context (Hnew : zlen newf < 2 ^ 63) (Hnn : 0 < new_n /\ new_n * kBlockSize <= zlen newf) (Hsmall : new_n * kBlockSize < 2 ^ 32).

(** What does not depend on the data of the operation. *)
Record ab_shape (op : AnnotatedOperation) : Prop := {
  as_type : exists t, op_type op = Some t /\ OperationAllowed version t = true;
  as_extents : Forall extent_ok (src_extents op) /\ Forall extent_ok (dst_extents op);
  as_dst : dst_extents op <> [];
  as_old : forall b, b ∈ ExpandExtents (src_extents op) -> 0 <= b < old_n;
  as_new : forall b, b ∈ ExpandExtents (dst_extents op) -> 0 <= b < new_n;
  as_full : IsAReplaceOperation (type_of op) = true ->
    src_extents op = [] /\ src_length op = None /\ dst_length op = Some (zlen (ExpandExtents (dst_extents op)) * kBlockSize);
  as_copy : type_of op = SOURCE_COPY -> no_lengths op;
  as_src : src_length op = None \/ src_length op = Some (zlen (ExpandExtents (src_extents op)) * kBlockSize);
  as_size : zlen (ExpandExtents (src_extents op)) * kBlockSize < 2 ^ 63 /\ zlen (ExpandExtents (dst_extents op)) * kBlockSize < 2 ^ 63;
  as_patch : type_of op = SOURCE_BSDIFF ->
    src_length op <> None /\ dst_length op = Some (zlen (ExpandExtents (dst_extents op)) * kBlockSize);
}.

(** An operation that makes its destination. *)
Record ab_op (w : BlobFileWriter) (op : AnnotatedOperation) : Prop := {
  ab_is : ab_shape op;
  ab_blocks : forall w', grows w w' -> blob_fits w' \/ type_of op = SOURCE_COPY ->
    produce w' op (block_of oldf <$> ExpandExtents (src_extents op)) = block_of newf <$> ExpandExtents (dst_extents op);
  ab_decodes : forall w', grows w w' -> blob_fits w' \/ type_of op = SOURCE_COPY ->
    decodes (type_of op) (operation_data w' op) (concat (block_of oldf <$> ExpandExtents (src_extents op)))
      (concat (block_of newf <$> ExpandExtents (dst_extents op)));
  ab_raw : type_of op = REPLACE -> stored w op (concat (block_of newf <$> ExpandExtents (dst_extents op)));
  ab_data : data_in w op;
}.

(** Operations that are split and merged have one destination extent. *)
Definition single (op : AnnotatedOperation) : Prop :=
  IsAReplaceOperation (type_of op) = true \/ type_of op = SOURCE_COPY -> exists e, dst_extents op = [e].

Lemma ab_op_grows w w' op : grows w w' -> ab_op w op -> ab_op w' op.
Proof.
  intros Hg [Hs Hb Hdec Hr Hd]. split; [done| | | |by eapply data_in_grows].
  - intros w'' Hg'. apply Hb. by etrans.
  - intros w'' Hg'. apply Hdec. by etrans.
  - intros Ht. eapply stored_grows; [done|auto].
Qed.

Lemma ab_ops_grow w w' aops : grows w w' -> Forall (ab_op w) aops -> Forall (ab_op w') aops.
Proof. intros Hg Ha. eapply Forall_impl; [done|]. intros op. by apply ab_op_grows. Qed.

Lemma expand_single e : extent_ok e -> ExpandExtents [e] = seqZ (start_block e) (num_blocks e).
Proof. intros He. rewrite ExpandExtents_cons, expand_ok by done. unfold ExpandExtents. simpl. apply app_nil_r. Qed.

(** The size of an extent of the new image. *)
Lemma extent_in_image e :
  extent_ok e -> (forall b, b ∈ ExpandExtents [e] -> 0 <= b < new_n) -> start_block e + num_blocks e <= new_n.
Proof.
  intros He Hin. pose proof He as (Hs & Hn & _). specialize (Hin (start_block e + num_blocks e - 1)).
  rewrite expand_single, elem_of_seqZ in Hin by done. lia.
Qed.

Lemma extent_size e :
  extent_ok e -> (forall b, b ∈ ExpandExtents [e] -> 0 <= b < new_n) -> zlen (ExpandExtents [e]) * kBlockSize < 2 ^ 63.
Proof.
  intros He Hin. pose proof (extent_in_image e He Hin). destruct He as (? & ? & ?). rewrite expand_single by done.
  unfold zlen. rewrite length_seqZ. unfold kBlockSize in *. lia.
Qed.

(** The operations of [DeltaReadPartition]. *)
Lemma partition_ab w op :
  InplaceUpdate version = false -> operation_ok oldf newf version w op -> (type_of op = MOVE \/ type_of op = SOURCE_COPY -> no_lengths op) ->
  (forall b, b ∈ ExpandExtents (src_extents op) -> 0 <= b < old_n) -> (forall b, b ∈ ExpandExtents (dst_extents op) -> 0 <= b < new_n) ->
  ab_op w op.
Proof.
  intros Hi [(t & Ht & Ha) Hfull Hne Hlen He Hb Hdec Hraw Hdata Hsize] Hcopy Ho Hn.
  assert (Htt : type_of op = t) by (unfold type_of; by rewrite Ht).
  assert (Hmove : type_of op <> MOVE).
  { rewrite Htt. intros ->. unfold OperationAllowed, InplaceUpdate in *. congruence. }
  split; [split|intros w' Hg [Hf|Hc]; apply Hb; auto|intros w' Hg [Hf|Hc]; apply Hdec; auto|done|done]; try done.
  - by exists t.
  - intros Hr. destruct Hlen as [? Hsl]; [by intros E; rewrite E in Hr..|]. rewrite Hr in Hsl. split_and!; auto.
  - auto.
  - destruct (decide (type_of op = SOURCE_COPY)) as [Hc|Hc]; [left; apply Hcopy; by right|].
    destruct (Hlen Hmove Hc) as [_ ->]. destruct (IsAReplaceOperation (type_of op)); auto.
  - intros Hp. destruct Hlen as [Hdl Hsl]; [by rewrite Hp..|]. rewrite Hp in Hsl. split; [by rewrite Hsl|done].
Qed.

(** ** Data of full operations *)

Lemma read_image f n es :
  zlen f < 2 ^ 63 -> 0 <= n -> n * kBlockSize <= zlen f -> Forall extent_ok es -> (forall b, b ∈ ExpandExtents es -> 0 <= b < n) ->
  ReadExtents f es (zlen (ExpandExtents es) * kBlockSize) kBlockSize = Ret (concat (block_of f <$> ExpandExtents es)).
Proof.
  intros Hf Hn Hnf Hes Hin. rewrite (ExpandExtents_length es) by done. apply ReadExtents_spec; [done| |done].
  apply in_file_extents; [done|]. intros b Hb. specialize (Hin b Hb). unfold kBlockSize in *. lia.
Qed.

Lemma new_blocks_size es x :
  (forall b, b ∈ ExpandExtents es -> 0 <= b < new_n) -> x ∈ block_of newf <$> ExpandExtents es -> zlen x = kBlockSize.
Proof. intros Hin (b & -> & Hb)%list_elem_of_fmap. specialize (Hin b Hb). apply zlen_block; unfold kBlockSize in *; lia. Qed.

(** A full operation with the right data. *)
Lemma full_blocks w op es t blob :
  IsAReplaceOperation t = true \/ t = ZERO -> (forall old, decodes t blob old (concat (block_of newf <$> ExpandExtents es))) ->
  (forall b, b ∈ ExpandExtents es -> 0 <= b < new_n) -> type_of op = t -> dst_extents op = es -> operation_data w op = blob ->
  forall xs, produce w op xs = block_of newf <$> ExpandExtents es.
Proof.
  intros Ht Hdec Hin Htype Hdst Hdata xs. unfold produce. rewrite Htype, Hdst, Hdata, <- (length_fmap (block_of newf)).
  assert (Hno : forall n old, apply_blocks t n blob old = apply_blocks t n blob []) by (intros n old; destruct Ht as [Ht| ->]; [destruct t; try discriminate Ht; reflexivity|reflexivity]).
  rewrite Hno.
  apply decodes_apply; [intros x Hx; by apply not_elem_of_nil in Hx|intros y; by apply new_blocks_size|apply Hdec].
Qed.

(** A full operation without source whose data are in the file. *)
Lemma full_ab w op t blob :
  op_type op = Some t -> OperationAllowed version t = true -> IsAReplaceOperation t = true \/ t = ZERO ->
  (forall old, decodes t blob old (concat (block_of newf <$> ExpandExtents (dst_extents op)))) ->
  Forall extent_ok (dst_extents op) -> dst_extents op <> [] -> (forall b, b ∈ ExpandExtents (dst_extents op) -> 0 <= b < new_n) ->
  src_extents op = [] -> src_length op = None -> dst_length op = Some (zlen (ExpandExtents (dst_extents op)) * kBlockSize) -> zlen (ExpandExtents (dst_extents op)) * kBlockSize < 2 ^ 63 ->
  (forall w', grows w w' -> blob_fits w' -> operation_data w' op = blob) -> data_in w op -> (t = REPLACE -> stored w op blob) ->
  ab_op w op.
Proof.
  intros Htype Ha Ht Hdec Hok Hne Hin Hsrc Hsl Hdl Hdz Hdata Hdi Hst. assert (Htt : type_of op = t) by (unfold type_of; by rewrite Htype).
  split; [split| | | |done]; rewrite ?Htt, ?Hsrc, ?Hsl; try done.
  - by exists t.
  - intros b Hx. by apply not_elem_of_nil in Hx.
  - intros ->. by destruct Ht.
  - by left.
  - intros ->. by destruct Ht.
  - intros w' Hg [Hf| ->]; [|by destruct Ht]. eapply full_blocks; [exact Ht|exact Hdec|done|done|done|]. by apply Hdata.
  - intros w' Hg [Hf| ->]; [|by destruct Ht]. rewrite Hdata by done. apply Hdec.
  - intros ->. rewrite <- (Hdec []). by apply Hst.
Qed.

Lemma AddDataAndSetType_spec op w :
  IsAReplaceOperation (type_of op) = true -> Forall extent_ok (dst_extents op) -> dst_extents op <> [] ->
  (forall b, b ∈ ExpandExtents (dst_extents op) -> 0 <= b < new_n) -> src_extents op = [] -> src_length op = None ->
  dst_length op = Some (zlen (ExpandExtents (dst_extents op)) * kBlockSize) -> zlen (ExpandExtents (dst_extents op)) * kBlockSize < 2 ^ 63 ->
  default 0 (data_length op) = 0 \/ op_type op = Some REPLACE /\ stored w op (concat (block_of newf <$> ExpandExtents (dst_extents op))) ->
  blob_ok w ->
  exists op' w', AddDataAndSetType op version newf w = Ret (op', w') /\ blob_ok w' /\ grows w w' /\ ab_op w' op' /\ dst_extents op' = dst_extents op.
Proof.
  intros Hr Hok Hne Hin Hsrc Hsl Hdl Hdz Hkeep Hw. unfold AddDataAndSetType. rewrite Hr, Hdl. cbn [guard_that]. rewrite outcome_bind_ret. cbn [default].
  rewrite (read_image newf new_n) by (done || lia). rewrite outcome_bind_ret. set (D := concat _).
  assert (HD : D <> []).
  { intros E. apply Hne, expand_nil; [done|]. apply (f_equal zlen) in E. unfold D in E. rewrite concat_zlen in E by (intros x; by apply new_blocks_size).
    unfold zlen, kBlockSize in E. rewrite length_fmap in E. simpl in E. apply length_zero_iff_nil. lia. }
  destruct (GenerateBestFullOperation_spec D version HD) as (blob & t & -> & Ha & Ht & Hb & Hdec). rewrite outcome_bind_ret.
  destruct (negb _ || negb _) eqn:Eset.
  - destruct (SetOperationBlob_spec blob (set_type t op) w Hw) as (op' & w' & -> & Hw' & Hg & Hblob & E1 & E2 & E3 & E4 & E5 & E6).
    rewrite outcome_bind_ret. cbn [fst snd]. simpl in E1, E2, E3, E4, E5.
    destruct (blob_set _ op' w' ltac:(unfold type_of; by rewrite E1) Hblob) as [Hdi Hdata]. exists op', w'. split_and!; try done. eapply (full_ab _ _ t blob); rewrite ?E2, ?E3, ?E4, ?E5; try done.
    intros ->. by destruct Hblob as [(? & _)|[_ ?]].
  - apply orb_false_iff in Eset as [Et El]. apply negb_false_iff, bool_decide_eq_true in Et. apply negb_false_iff, Z.eqb_eq in El.
    assert (Hkept : op_type op = Some REPLACE /\ stored w op D).
    { destruct Hkeep as [Hk|?]; [|done]. exfalso. rewrite Hk in El. symmetry in El. apply zlen_0 in El. unfold carries in Hb. rewrite <- Et, El in Hb. by destruct (type_of op). }
    destruct Hkept as [Hop Hst]. exists op, w. split_and!; try done.
    assert (t = REPLACE) as -> by (rewrite <- Et; unfold type_of; by rewrite Hop). assert (blob = D) as -> by (apply (Hdec [])).
    eapply (full_ab _ _ REPLACE D); try done.
    + intros w' Hg Hf. apply stored_data; [by eapply stored_grows|done].
    + unfold data_in. rewrite Et. by exists D.
Qed.

(** ** Splitting copies *)

(** The current source extent is the first of what is left of the source. *)
Definition position (srcs : list Extent) (index : nat) (curr : Extent) (rest : list Z) : Prop :=
  (index < length srcs)%nat /\ extent_ok curr /\ rest = ExpandExtents (curr :: drop (S index) srcs).

Lemma take_source_spec srcs fuel index curr left acc rest :
  Forall extent_ok srcs -> position srcs index curr rest -> 0 <= left <= zlen rest -> left < 2 ^ 64 -> (length srcs - index <= fuel)%nat ->
  exists out index' curr', take_source fuel srcs index curr left acc = Ret (acc ++ out, index', curr')
    /\ Forall extent_ok out /\ ExpandExtents out = take (Z.to_nat left) rest
    /\ (position srcs index' curr' (drop (Z.to_nat left) rest) \/ drop (Z.to_nat left) rest = [] /\ S index' = length srcs).
Proof.
  intros Hsrcs. revert index curr left acc rest. induction fuel as [|fuel IH]; intros index curr left acc rest Hpos Hleft Hb Hfuel.
  { destruct Hpos as [? _]. lia. }
  cbn [take_source]. destruct (Z.eqb_spec left 0) as [->|Hne].
  { exists [], index, curr. rewrite app_nil_r. split_and!; try done. by left. }
  destruct Hpos as (Hi & Hc & ->). pose proof Hc as (Hs & Hn & Hend). rewrite ExpandExtents_cons, expand_ok in * by done.
  set (R := ExpandExtents (drop (S index) srcs)) in *. assert (Hz : zlen (seqZ (start_block curr) (num_blocks curr)) = num_blocks curr).
  { unfold zlen. rewrite length_seqZ. lia. }
  rewrite zlen_app, Hz in Hleft. destruct (Z.leb_spec (num_blocks curr) left) as [Hle|Hlt].
  - destruct (srcs !! S index) as [next|] eqn:Enext.
    + assert (Hr : R = ExpandExtents (next :: drop (S (S index)) srcs)) by (unfold R; by rewrite (drop_S _ _ _ Enext)).
      rewrite uint_small by (unfold is_uint; lia).
      destruct (IH (S index) next (left - num_blocks curr) (acc ++ [curr]) R) as (out & i' & c' & -> & Hout & He & Hpos'); [|lia..|].
      { split; [by apply lookup_lt_Some in Enext|]. split; [|done]. by eapply Forall_lookup_1. }
      assert (Hlen : Z.to_nat left = (length (seqZ (start_block curr) (num_blocks curr)) + Z.to_nat (left - num_blocks curr))%nat) by (unfold zlen in Hz; lia).
      rewrite Hlen, take_app_add, drop_app_add. exists (curr :: out), i', c'. rewrite <- app_assoc. split_and!; [done|by constructor| |done].
      by rewrite ExpandExtents_cons, expand_ok, He.
    + assert (HR : R = []) by (unfold R; rewrite drop_ge; [done|by apply lookup_ge_None]). apply lookup_ge_None in Enext.
      assert (left = num_blocks curr) as -> by (rewrite HR in Hleft; unfold zlen in Hleft; simpl in Hleft; lia).
      rewrite HR, app_nil_r. exists [curr], index, curr. rewrite take_ge, drop_ge by (unfold zlen in Hz; lia).
      split_and!; [done|by apply Forall_singleton|by rewrite expand_single|]. right. split; [done|lia].
  - rewrite Z.sub_diag, !uint_small by (unfold is_uint, kSparseHole in *; lia). 
    replace (take_source fuel srcs index _ 0 _) with (Ret (acc ++ [mkExtent (start_block curr) left], index,
      mkExtent (start_block curr + left) (num_blocks curr - left))) by (by destruct fuel).
    assert (Hok1 : extent_ok (mkExtent (start_block curr) left)) by (unfold extent_ok in *; simpl; lia).
    assert (Hok2 : extent_ok (mkExtent (start_block curr + left) (num_blocks curr - left))) by (unfold extent_ok in *; simpl; lia).
    do 3 eexists. split_and!; [done|by apply Forall_singleton| |].
    + rewrite expand_single by done. simpl. rewrite take_app_le by (unfold zlen in Hz; lia). by rewrite take_seqZ by lia.
    + left. split; [done|]. split; [done|]. rewrite ExpandExtents_cons, expand_ok by done. simpl. fold R.
      rewrite drop_app_le by (unfold zlen in Hz; lia). by rewrite drop_seqZ by lia.
Qed.

Abbreviation fragments w := (Forall (fun op => ab_op w op /\ single op)).

(** A copy with one destination extent. *)
Lemma copy_ab w src e :
  OperationAllowed version SOURCE_COPY = true -> Forall extent_ok src -> extent_ok e -> (forall b, b ∈ ExpandExtents src -> 0 <= b < old_n) ->
  (forall b, b ∈ ExpandExtents [e] -> 0 <= b < new_n) -> block_of oldf <$> ExpandExtents src = block_of newf <$> ExpandExtents [e] ->
  let op := mkOperation (Some SOURCE_COPY) None None src None [e] None None in ab_op w op /\ single op.
Proof.
  intros Ha Hs He Ho Hn Heq op. split; [|intros _; by exists e].
  assert (Hsz : zlen (ExpandExtents src) = num_blocks e).
  { apply (f_equal zlen) in Heq. unfold zlen in *. rewrite !length_fmap, expand_single, length_seqZ in Heq by done. destruct He. lia. }
  pose proof (extent_in_image e He Hn). pose proof (extent_size e He Hn). destruct He as (? & ? & ?).
  split; [split| | | |]; try done.
  - by exists SOURCE_COPY.
  - split; [done|]. by apply Forall_singleton.
  - by left.
  - split; [|done]. simpl. rewrite Hsz. unfold kBlockSize in *. lia.
  - intros w' _ _. simpl. by rewrite Heq.
Qed.

Lemma total_drop es k : Forall extent_ok es -> zlen (drop (Z.to_nat k) (ExpandExtents es)) = Z.max 0 (total es - Z.max 0 k).
Proof. intros Hes. pose proof (ExpandExtents_length es Hes). unfold zlen in *. rewrite length_drop. lia. Qed.

(** After the destination extents [pre]. *)
Definition split_inv (w : BlobFileWriter) (srcs : list Extent) (result : list AnnotatedOperation) (pre : list Extent)
    (st : list AnnotatedOperation * nat * Extent) : Prop :=
  let rest := drop (Z.to_nat (total pre)) (ExpandExtents srcs) in
  exists ops, fst (fst st) = result ++ ops /\ fragments w ops /\ written_blocks ops = ExpandExtents pre
    /\ (position srcs (snd (fst st)) (snd st) rest \/ rest = [] /\ S (snd (fst st)) = length srcs).

Lemma split_copy_spec w srcs result pre e post st :
  OperationAllowed version SOURCE_COPY = true -> Forall extent_ok srcs -> (forall b, b ∈ ExpandExtents srcs -> 0 <= b < old_n) ->
  Forall extent_ok (pre ++ e :: post) -> (forall b, b ∈ ExpandExtents (pre ++ e :: post) -> 0 <= b < new_n) ->
  block_of oldf <$> ExpandExtents srcs = block_of newf <$> ExpandExtents (pre ++ e :: post) -> split_inv w srcs result pre st ->
  exists st', split_copy srcs st e = Ret st' /\ split_inv w srcs result (pre ++ [e]) st'.
Proof.
  intros Ha Hs Ho Hd Hn Heq (ops & Hres & Hfr & Hwr & Hpos). destruct st as [[r i] c]. cbn [fst snd] in *. subst r.
  pose proof Hd as [Hpre [He Hpost]%Forall_cons]%Forall_app. pose proof He as (Hes & Hen & Hee).
  pose proof (total_nonneg pre Hpre). pose proof (total_nonneg post Hpost).
  assert (Hlen : total srcs = total pre + num_blocks e + total post).
  { apply (f_equal zlen) in Heq. unfold zlen in Heq. rewrite !length_fmap in Heq. pose proof (ExpandExtents_length _ Hs) as Hx1.
    pose proof (ExpandExtents_length _ Hd) as Hx2. rewrite total_app in Hx2. change (total (e :: post)) with (num_blocks e + total post) in Hx2.
    unfold zlen in *. lia. }
  assert (Hrest : zlen (drop (Z.to_nat (total pre)) (ExpandExtents srcs)) = num_blocks e + total post) by (rewrite total_drop by done; lia).
  destruct Hpos as [Hpos|[Hnil _]]; [|rewrite Hnil in Hrest; unfold zlen in Hrest; simpl in Hrest; lia].
  destruct (take_source_spec srcs (S (length srcs)) i c (num_blocks e) [] _ Hs Hpos) as (out & i' & c' & Htk & Hout & Hexp & Hpos');
    [lia|unfold kSparseHole in Hee; lia|lia|].
  assert (Hce : block_of oldf <$> ExpandExtents out = block_of newf <$> ExpandExtents [e]).
  { rewrite Hexp, fmap_take, fmap_drop, Heq, <- fmap_drop, <- fmap_take. f_equal. rewrite ExpandExtents_app, ExpandExtents_cons, expand_single, expand_ok by done.
    pose proof (ExpandExtents_length pre Hpre) as Hl. rewrite drop_app_length' by (unfold zlen in Hl; lia).
    rewrite take_app_length' by (rewrite length_seqZ; lia). done. }
  destruct (copy_ab w out e Ha Hout He) as [Hab Hsg]; [intros b Hb; apply Ho; rewrite Hexp in Hb; by eapply subseteq_drop, subseteq_take| |done|].
  { intros b Hb. apply Hn. rewrite ExpandExtents_app, ExpandExtents_cons, !elem_of_app. rewrite expand_single in Hb by done. rewrite expand_ok by done. auto. }
  unfold split_copy. rewrite Htk, outcome_bind_ret. eexists. split; [done|]. eexists (ops ++ [_]). cbn [fst snd app]. rewrite app_assoc. split_and!; [done| | |].
  - apply Forall_app. split; [done|]. by apply Forall_singleton.
  - unfold written_blocks in *. rewrite bind_app, Hwr, ExpandExtents_app. cbn [mbind list_bind dst_extents]. by rewrite app_nil_r.
  - rewrite total_app. change (total [e]) with (num_blocks e + 0). rewrite Z.add_0_r, Z2Nat.inj_add by lia. by rewrite <- drop_drop.
Qed.

Lemma SplitSourceCopy_spec w op result :
  ab_op w op -> type_of op = SOURCE_COPY ->
  exists ops, SplitSourceCopy op result = Ret (result ++ ops) /\ fragments w ops /\ written_blocks ops = ExpandExtents (dst_extents op).
Proof.
  intros [Hsh Hb _ _ _] Ht. pose proof Hsh as [(t & Htype & Ha) [Hs Hd] Hne Ho Hn _ _ _ _].
  assert (t = SOURCE_COPY) as -> by (unfold type_of in Ht; by rewrite Htype in Ht).
  specialize (Hb w ltac:(done) ltac:(by right)). unfold produce in Hb. rewrite Ht in Hb. cbn [apply_blocks] in Hb.
  assert (Hlen : total (src_extents op) = total (dst_extents op)).
  { rewrite <- !ExpandExtents_length by done. unfold zlen. by rewrite <- (length_fmap (block_of oldf)), Hb, length_fmap. }
  unfold SplitSourceCopy. rewrite bool_decide_true by done. cbn [guard_that]. rewrite outcome_bind_ret.
  destruct (src_extents op !! 0%nat) as [s0|] eqn:Es0.
  2: { exfalso. apply Hne, expand_nil; [done|]. destruct (src_extents op); [|done]. by destruct (ExpandExtents (dst_extents op)). }
  cbn [of_option]. rewrite outcome_bind_ret.
  destruct (foldM_inv (split_copy (src_extents op)) (split_inv w (src_extents op) result) (dst_extents op) (result, 0%nat, s0))
    as ([[r i] c] & -> & ops & Hr & Hfr & Hwr & Hpos).
  - exists []. rewrite app_nil_r. split_and!; [done|constructor|done|]. left. cbn [fst snd]. split; [by apply lookup_lt_Some in Es0|].
    split; [exact (Forall_lookup_1 _ _ _ _ Hs Es0)|]. change (Z.to_nat (total [])) with 0%nat. by rewrite drop_0, <- (drop_S _ _ _ Es0), drop_0.
  - intros pre e post st E Hst. rewrite E in Hd, Hn, Hb. by eapply split_copy_spec.
  - cbn [fst snd] in *. subst r. rewrite outcome_bind_ret. exists ops. destruct Hpos as [(Hi & Hc & Hrest)|[_ Hi]].
    + exfalso. apply (f_equal zlen) in Hrest. rewrite total_drop in Hrest by done. rewrite ExpandExtents_cons, expand_ok, zlen_app in Hrest by done.
      destruct Hc as (? & ? & ?). unfold zlen in Hrest. rewrite length_seqZ in Hrest. pose proof (total_nonneg _ Hd). lia.
    + rewrite bool_decide_true by done. cbn [check_that]. rewrite outcome_bind_ret. done.
Qed.

(** ** Splitting full operations *)

Lemma slice_middle {A} (a b c : list A) : slice (a ++ b ++ c) (zlen a) (zlen b) = b.
Proof. unfold slice, zlen. rewrite !Nat2Z.id, drop_app_length, take_app_length. done. Qed.

Lemma new_data_size es :
  Forall extent_ok es -> (forall b, b ∈ ExpandExtents es -> 0 <= b < new_n) ->
  zlen (concat (block_of newf <$> ExpandExtents es)) = total es * kBlockSize.
Proof.
  intros Hes Hin. rewrite concat_zlen by (intros x; by apply new_blocks_size). rewrite <- ExpandExtents_length by done.
  unfold zlen. by rewrite length_fmap.
Qed.

(** The data of a fragment of an uncompressed operation are part of the data
    of the operation. *)
Lemma fragment_stored w op pre e post o :
  let D := concat (block_of newf <$> ExpandExtents (pre ++ e :: post)) in
  Forall extent_ok (pre ++ e :: post) -> (forall b, b ∈ ExpandExtents (pre ++ e :: post) -> 0 <= b < new_n) ->
  0 <= o -> o + zlen D <= blob_file_size w -> slice (blob_fd w) o (zlen D) = D ->
  data_offset op = Some (u32 (o + total pre * kBlockSize)) -> data_length op = Some (u32 (num_blocks e * kBlockSize)) ->
  stored w op (concat (block_of newf <$> ExpandExtents [e])).
Proof.
  intros D Hd Hn Ho Hsize Hsl Hoff Hlen. pose proof Hd as [Hpre [He Hpost]%Forall_cons]%Forall_app.
  set (d := fun es => concat (block_of newf <$> ExpandExtents es)) in *.
  assert (HD : D = d pre ++ d [e] ++ d post).
  { unfold D, d. change (pre ++ e :: post) with (pre ++ [e] ++ post). by rewrite !ExpandExtents_app, !fmap_app, !concat_app. }
  rewrite ExpandExtents_app, ExpandExtents_cons in Hn.
  assert (Hp : zlen (d pre) = total pre * kBlockSize) by (apply new_data_size; [done|set_solver]).
  assert (Hz : zlen (d [e]) = num_blocks e * kBlockSize).
  { unfold d. rewrite new_data_size; [simpl; f_equal; lia|by apply Forall_singleton|]. rewrite expand_single by done. rewrite expand_ok in Hn by done. set_solver. }
  pose proof (zlen_nonneg (d pre)). pose proof (zlen_nonneg (d [e])). pose proof (zlen_nonneg (d post)).
  assert (Hl : zlen D = zlen (d pre) + (zlen (d [e]) + zlen (d post))) by (by rewrite HD, !zlen_app).
  exists (o + total pre * kBlockSize). change (concat _) with (d [e]). split_and!; [done|by rewrite Hz|lia|lia|].
  rewrite <- Hp, <- (slice_slice _ o (zlen D)) by lia. by rewrite Hsl, HD, slice_middle.
Qed.

(** After the destination extents [pre] of [op]. *)
Definition replace_inv (w : BlobFileWriter) (op : AnnotatedOperation) (result : list AnnotatedOperation) (pre : list Extent)
    (st : list AnnotatedOperation * Z * BlobFileWriter) : Prop :=
  exists ops, fst (fst st) = result ++ ops /\ fragments (snd st) ops /\ written_blocks ops = ExpandExtents pre
    /\ blob_ok (snd st) /\ grows w (snd st)
    /\ snd (fst st) = if bool_decide (type_of op = REPLACE) then u32 (default 0 (data_offset op) + total pre * kBlockSize) else default 0 (data_offset op).

Lemma replace_fragment w w1 op off pre e post :
  ab_op w op -> dst_extents op = pre ++ e :: post -> blob_ok w1 -> grows w w1 -> extent_ok e -> type_of op = REPLACE ->
  off = u32 (default 0 (data_offset op) + total pre * kBlockSize) ->
  let size := u32 (num_blocks e * kBlockSize) in
  stored w1 (mkOperation (Some REPLACE) (Some off) (Some size) [] None [e] (Some size) None) (concat (block_of newf <$> ExpandExtents [e])).
Proof.
  intros Hab Ed Hw Hg He Ht Hoff size. pose proof (ab_raw _ _ Hab Ht) as Hst. destruct (stored_grows _ _ _ _ Hg Hst) as (o & Ho & Hl & Hpos & Hsz & Hsl).
  destruct (ab_is _ _ Hab) as [_ [_ Hd] _ _ Hn _ _ _ _]. rewrite Ed in *. eapply (fragment_stored w1 _ pre e post o); try done.
  cbn [data_offset]. f_equal. rewrite Hoff, Ho. cbn [default from_option id]. unfold id, u32, uint. by rewrite Zplus_mod_idemp_l.
Qed.

Lemma split_replace_spec w op result pre e post st :
  ab_op w op -> IsAReplaceOperation (type_of op) = true -> dst_extents op = pre ++ e :: post -> replace_inv w op result pre st ->
  exists st', split_replace version (bool_decide (type_of op = REPLACE)) newf st e = Ret st' /\ replace_inv w op result (pre ++ [e]) st'.
Proof.
  intros Hab Hr Ed (ops & Hres & Hfr & Hwr & Hw & Hg & Hoff). destruct st as [[r off] w1]. cbn [fst snd] in *. subst r.
  pose proof (ab_is _ _ Hab) as [_ [_ Hd] _ _ Hn _ _ _ _]. rewrite Ed in Hd, Hn. pose proof Hd as [Hpre [He Hpost]%Forall_cons]%Forall_app.
  assert (Hin : forall b, b ∈ ExpandExtents [e] -> 0 <= b < new_n).
  { intros b Hb. apply Hn. change (e :: post) with ([e] ++ post). rewrite !ExpandExtents_app. set_solver. }
  pose proof (extent_in_image e He Hin) as Himg. pose proof He as (Hs & Hnum & _).
  set (size := u32 (num_blocks e * kBlockSize)). assert (Hsize : size = zlen (ExpandExtents [e]) * kBlockSize).
  { unfold size. rewrite uint_small by (unfold is_uint, kBlockSize in *; lia). rewrite expand_single by done. unfold zlen. rewrite length_seqZ. lia. }
  set (replace := bool_decide (type_of op = REPLACE)) in *.
  set (new_op := if replace then mkOperation (Some REPLACE) (Some off) (Some size) [] None [e] (Some size) None
                 else mkOperation None None None [] None [e] (Some size) None).
  destruct (AddDataAndSetType_spec new_op w1) as (op' & w2 & Hadd & Hw2 & Hg2 & Hab2 & Hd2); try (unfold new_op; destruct replace; done).
  - unfold new_op. destruct replace; by apply Forall_singleton.
  - unfold new_op. destruct replace; cbn [dst_length dst_extents]; by rewrite Hsize.
  - unfold new_op. destruct replace; by apply extent_size.
  - unfold new_op. destruct replace eqn:Er; [right|by left]. split; [done|]. apply bool_decide_eq_true in Er. by eapply replace_fragment.
  - assert (Hsp : split_replace version replace newf (result ++ ops, off, w1) e
      = Ret ((result ++ ops) ++ [op'], (if replace then u32 (off + size) else off), w2)).
    { unfold split_replace. fold size. destruct replace; fold new_op; by rewrite Hadd, outcome_bind_ret. }
    rewrite Hsp. eexists. split; [done|]. exists (ops ++ [op']). cbn [fst snd]. rewrite app_assoc. split_and!; [done| | |done|by etrans|].
    + apply Forall_app. split; [|apply Forall_singleton; split; [done|]].
      * eapply Forall_impl; [done|]. intros x [? ?]. split; [by eapply ab_op_grows|done].
      * intros _. exists e. rewrite Hd2. unfold new_op. by destruct replace.
    + unfold written_blocks in *. rewrite bind_app, Hwr, ExpandExtents_app. cbn [mbind list_bind]. rewrite Hd2, app_nil_r. f_equal. unfold new_op. by destruct replace.
    + rewrite total_app. change (total [e]) with (num_blocks e + 0). fold replace. subst off. unfold size. destruct replace; [|done].
      unfold u32, uint. rewrite Zplus_mod_idemp_l, Zplus_mod_idemp_r. f_equal. lia.
Qed.

Lemma fragments_grow w w' ops : grows w w' -> fragments w ops -> fragments w' ops.
Proof. intros Hg Ha. eapply Forall_impl; [done|]. intros op [? ?]. split; [by eapply ab_op_grows|done]. Qed.

Lemma SplitAReplaceOp_spec w op result :
  ab_op w op -> IsAReplaceOperation (type_of op) = true -> blob_ok w ->
  exists ops w', SplitAReplaceOp version op newf result w = Ret (result ++ ops, w') /\ fragments w' ops
    /\ written_blocks ops = ExpandExtents (dst_extents op) /\ blob_ok w' /\ grows w w'.
Proof.
  intros Hab Hr Hw. unfold SplitAReplaceOp. rewrite Hr. cbn [guard_that]. rewrite outcome_bind_ret.
  destruct (foldM_inv (split_replace version (bool_decide (type_of op = REPLACE)) newf) (replace_inv w op result) (dst_extents op)
    (result, default 0 (data_offset op), w)) as ([[r off] w'] & -> & ops & Hres & Hfr & Hwr & Hw' & Hg & _).
  - exists []. rewrite app_nil_r. split_and!; try done. cbn [fst snd]. case_bool_decide as Ht; [|done].
    destruct (ab_raw _ _ Hab Ht) as (o & Ho & _). rewrite Ho. simpl. by rewrite Z.add_0_r, uint_id.
  - intros pre e post st E Hst. by eapply split_replace_spec.
  - cbn [fst snd] in *. subst r. rewrite outcome_bind_ret. by exists ops, w'.
Qed.

Lemma fragment_operation_spec w op frags :
  ab_op w op -> fragments w frags -> blob_ok w ->
  exists frags' w', fragment_operation version newf (frags, w) op = Ret (frags', w') /\ fragments w' frags'
    /\ written_blocks frags' = written_blocks frags ++ ExpandExtents (dst_extents op) /\ blob_ok w' /\ grows w w'.
Proof.
  intros Hab Hf Hw. unfold fragment_operation. destruct (Nat.ltb_spec 1 (length (dst_extents op))) as [Hlen|Hlen]; cbn [andb];
    [case_bool_decide as Ht; [|destruct (IsAReplaceOperation (type_of op)) eqn:Hr]|].
  - destruct (SplitSourceCopy_spec w op frags Hab Ht) as (ops & -> & Hops & Hwr). rewrite outcome_bind_ret. exists (frags ++ ops), w.
    split_and!; try done; [by apply Forall_app|]. unfold written_blocks in *. by rewrite bind_app, Hwr.
  - destruct (SplitAReplaceOp_spec w op frags Hab Hr Hw) as (ops & w' & -> & Hops & Hwr & Hw' & Hg). exists (frags ++ ops), w'.
    split_and!; try done; [apply Forall_app; split; [by eapply fragments_grow|done]|]. unfold written_blocks in *. by rewrite bind_app, Hwr.
  - exists (frags ++ [op]), w. split_and!; try done; [|unfold written_blocks; by rewrite bind_app; simpl; rewrite app_nil_r].
    apply Forall_app. split; [done|]. apply Forall_singleton. split; [done|]. intros [?|?]; congruence.
  - exists (frags ++ [op]), w. split_and!; try done; [|unfold written_blocks; by rewrite bind_app; simpl; rewrite app_nil_r].
    apply Forall_app. split; [done|]. apply Forall_singleton. split; [done|]. intros _. pose proof (as_dst _ (ab_is _ _ Hab)).
    destruct (dst_extents op) as [|e [|]]; [done|by exists e|simpl in Hlen; lia].
Qed.

Lemma FragmentOperations_spec w aops :
  Forall (ab_op w) aops -> blob_ok w ->
  exists frags w', FragmentOperations version aops newf w = Ret (frags, w') /\ fragments w' frags
    /\ written_blocks frags = written_blocks aops /\ blob_ok w' /\ grows w w'.
Proof.
  intros Ha Hw. unfold FragmentOperations.
  destruct (foldM_inv (fragment_operation version newf)
    (fun pre st => fragments (snd st) (fst st) /\ written_blocks (fst st) = written_blocks pre /\ blob_ok (snd st) /\ grows w (snd st)) aops ([], w))
    as ([frags w'] & -> & ? & ? & ? & ?).
  - split_and!; done.
  - intros pre op post [frags w1] E (Hf & Hwr & Hw1 & Hg). cbn [fst snd] in *.
    destruct (fragment_operation_spec w1 op frags) as (frags' & w' & -> & ? & Hwr' & ? & ?); [|done..|].
    { eapply ab_op_grows; [done|]. rewrite E in Ha. by apply Forall_app in Ha as [_ [? _]%Forall_cons]. }
    eexists. split; [done|]. cbn [fst snd]. split_and!; [done| |done|by etrans]. rewrite Hwr', Hwr. unfold written_blocks. rewrite bind_app. simpl. by rewrite app_nil_r.
  - cbn [fst snd] in *. by exists frags, w'.
Qed.

(** ** Merging *)

Lemma ExtendExtents_expand a b :
  Forall extent_ok a -> Forall extent_ok b ->
  Forall extent_ok (ExtendExtents a b) /\ ExpandExtents (ExtendExtents a b) = ExpandExtents a ++ ExpandExtents b.
Proof. intros Ha Hb. unfold ExtendExtents. rewrite <- ExpandExtents_app. apply NormalizeExtents_expand. by apply Forall_app. Qed.

(** An operation whose blob may have to be added. *)
Definition pending (w : BlobFileWriter) (op : AnnotatedOperation) : Prop :=
  single op /\ (ab_op w op \/ ab_shape op /\ IsAReplaceOperation (type_of op) = true /\ data_length op = Some 0).

Lemma pending_shape w op : pending w op -> ab_shape op.
Proof. intros [_ [Hab|[? _]]]; [apply Hab|done]. Qed.

(** The destination of a merged operation is one extent again. *)
Lemma merged_extent e1 e2 :
  extent_ok e1 -> extent_ok e2 -> start_block e1 + num_blocks e1 <= new_n -> start_block e2 + num_blocks e2 <= new_n ->
  u32 (start_block e1 + num_blocks e1) = u32 (start_block e2) ->
  ExtendExtents [e1] [e2] = [ExtentForRange (start_block e1) (num_blocks e1 + num_blocks e2)].
Proof.
  intros (? & ? & ?) (? & ? & ?) Hb1 Hb2 Heq. unfold kBlockSize in Hsmall. rewrite !(uint_small 32) in Heq by (unfold is_uint; lia).
  unfold ExtendExtents, NormalizeExtents. cbn [app fold_left normalize_step last]. rewrite !(uint_small 64) by (unfold is_uint; lia).
  rewrite (proj2 (Z.eqb_eq _ _)) by done. cbn [removelast app]. done.
Qed.

Record merges (last_aop curr_aop : AnnotatedOperation) (e1 e2 : Extent) : Prop := {
  me_last : dst_extents last_aop = [e1];
  me_curr : dst_extents curr_aop = [e2];
  me_ok : extent_ok e1 /\ extent_ok e2;
  me_next : ExtendExtents [e1] [e2] = [ExtentForRange (start_block e1) (num_blocks e1 + num_blocks e2)];
  me_types : type_of curr_aop = SOURCE_COPY /\ type_of last_aop = SOURCE_COPY
    \/ IsAReplaceOperation (type_of curr_aop) = true /\ IsAReplaceOperation (type_of last_aop) = true;
  me_in : (forall b, b ∈ ExpandExtents [e1] -> 0 <= b < new_n) /\ (forall b, b ∈ ExpandExtents [e2] -> 0 <= b < new_n);
}.

Lemma mergeable_merges w chunk last_aop curr_aop last_dst curr_dst :
  pending w last_aop -> pending w curr_aop -> last (dst_extents last_aop) = Some last_dst -> head (dst_extents curr_aop) = Some curr_dst ->
  mergeable chunk last_aop curr_aop last_dst curr_dst = true -> merges last_aop curr_aop last_dst curr_dst.
Proof.
  intros Hl Hc El Ec Hm. unfold mergeable in Hm. rewrite !andb_true_iff, orb_true_iff, !andb_true_iff, !bool_decide_eq_true, Z.eqb_eq in Hm.
  destruct Hm as [[Ht Hnext] _]. assert (Hs : single last_aop /\ single curr_aop) by (split; [apply Hl|apply Hc]).
  assert (He : dst_extents last_aop = [last_dst] /\ dst_extents curr_aop = [curr_dst]).
  { destruct Hs as [S1 S2]. destruct S1 as [e1 E1]; [destruct Ht as [[? ?]|[? ?]]; [right; congruence|by left]|].
    destruct S2 as [e2 E2]; [destruct Ht as [[? ?]|[? ?]]; [right; congruence|by left]|].
    rewrite E1 in El. rewrite E2 in Ec. simpl in El, Ec. by simplify_eq. }
  destruct He as [E1 E2]. pose proof (pending_shape _ _ Hl) as [_ [_ Hd1] _ _ Hn1 _ _ _ _]. pose proof (pending_shape _ _ Hc) as [_ [_ Hd2] _ _ Hn2 _ _ _ _].
  rewrite E1 in Hd1, Hn1. rewrite E2 in Hd2, Hn2. apply Forall_inv in Hd1, Hd2. split; try done.
  - apply merged_extent; [done|done|by apply extent_in_image..|done].
  - destruct Ht as [[? ?]|[? ?]]; [left; split; congruence|by right].
Qed.

(** The destination of the merged operation. *)
Lemma merged_dst last_aop curr_aop e1 e2 :
  merges last_aop curr_aop e1 e2 ->
  dst_extents (merged last_aop curr_aop) = [ExtentForRange (start_block e1) (num_blocks e1 + num_blocks e2)]
  /\ ExpandExtents (dst_extents (merged last_aop curr_aop)) = ExpandExtents (dst_extents last_aop) ++ ExpandExtents (dst_extents curr_aop)
  /\ Forall extent_ok (dst_extents (merged last_aop curr_aop))
  /\ (forall b, b ∈ ExpandExtents (dst_extents (merged last_aop curr_aop)) -> 0 <= b < new_n).
Proof.
  intros [E1 E2 [Ho1 Ho2] Hx _ [Hi1 Hi2]]. unfold merged. cbn [dst_extents]. rewrite E1, E2.
  destruct (ExtendExtents_expand [e1] [e2]) as [Hok He]; [by apply Forall_singleton..|]. split_and!; [done..|]. rewrite He. set_solver.
Qed.

Lemma merged_type last_aop curr_aop : type_of (merged last_aop curr_aop) = type_of last_aop.
Proof. done. Qed.

(** Two copies. *)
Lemma merged_copy w last_aop curr_aop e1 e2 :
  merges last_aop curr_aop e1 e2 -> type_of curr_aop = SOURCE_COPY -> type_of last_aop = SOURCE_COPY -> ab_op w last_aop -> ab_op w curr_aop ->
  ab_op w (merged last_aop curr_aop).
Proof.
  intros Hm Tc Tl [Sl Bl _ _ Dl] [Sc Bc _ _ _]. destruct (merged_dst _ _ _ _ Hm) as (Hd & He & Hok & Hin).
  specialize (Bl w ltac:(done) (or_intror Tl)). specialize (Bc w ltac:(done) (or_intror Tc)).
  unfold produce in Bl, Bc. rewrite Tl in Bl. rewrite Tc in Bc. cbn [apply_blocks] in Bl, Bc.
  destruct Sl as [Htype [Hs1 _] _ Ho1 _ _ Hc1 _ _], Sc as [_ [Hs2 _] _ Ho2 _ _ Hc2 _ _]. destruct (Hc1 Tl) as [L1 L2]. destruct (Hc2 Tc) as [L3 L4].
  destruct (ExtendExtents_expand _ _ Hs1 Hs2) as [Hsok Hse].
  assert (Esrc : src_extents (merged last_aop curr_aop) = ExtendExtents (src_extents last_aop) (src_extents curr_aop)).
  { unfold merged. cbn [src_extents]. by rewrite bool_decide_true. }
  assert (Elen : no_lengths (merged last_aop curr_aop)).
  { unfold no_lengths, merged. cbn [src_length dst_length]. rewrite L3, L4. simpl. by rewrite andb_false_r. }
  assert (Heq : block_of oldf <$> ExpandExtents (src_extents (merged last_aop curr_aop)) = block_of newf <$> ExpandExtents (dst_extents (merged last_aop curr_aop))).
  { rewrite Esrc, Hse, He, !fmap_app. f_equal; [exact Bl|exact Bc]. }
  clear Bl Bc.
  split; [split| | | |]; rewrite ?merged_type, ?Tl; try done.
  - by rewrite Esrc.
  - by rewrite Hd.
  - rewrite Esrc, Hse. intros b [?|?]%elem_of_app; auto.
  - left. apply Elen.
  - apply (f_equal zlen) in Heq. unfold zlen in Heq. rewrite !length_fmap in Heq. unfold zlen. rewrite Heq. fold (zlen (ExpandExtents (dst_extents (merged last_aop curr_aop)))).
    rewrite Hd in Hok, Hin |- *. apply Forall_inv in Hok. split; by apply extent_size.
  - intros w' _ _. unfold produce. by rewrite merged_type, Tl.
  - intros w' _ _. cbn [decodes]. by rewrite Heq.
  - unfold data_in, stored, merged in *. cbn [data_offset data_length]. by rewrite Tc.
Qed.

(** Two full operations. *)
Lemma merged_full last_aop curr_aop e1 e2 :
  merges last_aop curr_aop e1 e2 -> IsAReplaceOperation (type_of curr_aop) = true -> IsAReplaceOperation (type_of last_aop) = true ->
  ab_shape last_aop -> ab_shape curr_aop -> ab_shape (merged last_aop curr_aop) /\ data_length (merged last_aop curr_aop) = Some 0.
Proof.
  intros Hm Tc Tl Sl Sc. destruct (merged_dst _ _ _ _ Hm) as (Hd & He & Hok & Hin).
  destruct Sl as [Htype [Hs1 _] _ Ho1 _ Hf1 _ _ _], Sc as [_ [Hs2 _] _ Ho2 _ Hf2 _ _ _].
  destruct (Hf1 Tl) as (E1 & E2 & E3). destruct (Hf2 Tc) as (E4 & E5 & E6).
  assert (Hnc : bool_decide (type_of curr_aop = SOURCE_COPY) = false) by (apply bool_decide_eq_false; intros E; by rewrite E in Tc).
  split; [|unfold merged; cbn [data_length]; by rewrite Tc].
  assert (Esrc : src_extents (merged last_aop curr_aop) = [] /\ src_length (merged last_aop curr_aop) = None).
  { unfold merged. cbn [src_extents src_length]. by rewrite Hnc. }
  destruct Esrc as [Es1 Es2]. split; rewrite ?merged_type, ?Es1, ?Es2; try done.
  - by rewrite Hd.
  - intros b Hb. by apply not_elem_of_nil in Hb.
  - intros _. split_and!; [done..|]. destruct Hm as [M1 M2 [Hk1 Hk2] _ _ [Hi1 Hi2]].
    pose proof (extent_in_image _ Hk1 Hi1). pose proof (extent_in_image _ Hk2 Hi2). rewrite He, zlen_app. unfold merged. cbn [dst_length].
    rewrite E3, E6, M1, M2, !expand_single by done. cbn [default from_option id]. destruct Hk1 as (? & ? & ?), Hk2 as (? & ? & ?).
    unfold id, zlen. rewrite !length_seqZ, !Z2Nat.id by lia. unfold kBlockSize in *. rewrite (proj2 (Z.ltb_lt _ _)) by lia. f_equal.
    rewrite uint_small by (unfold is_uint; lia). lia.
  - intros E. by rewrite E in Tl.
  - by left.
  - split; [done|]. rewrite Hd in Hok, Hin |- *. apply Forall_inv in Hok. by apply extent_size.
  - intros E. by rewrite E in Tl.
Qed.

Lemma written_snoc ops op : written_blocks (ops ++ [op]) = written_blocks ops ++ ExpandExtents (dst_extents op).
Proof. unfold written_blocks. rewrite bind_app. simpl. by rewrite app_nil_r. Qed.

Lemma pending_merged w last_aop curr_aop e1 e2 :
  merges last_aop curr_aop e1 e2 -> pending w last_aop -> pending w curr_aop -> pending w (merged last_aop curr_aop).
Proof.
  intros Hm Hl Hc. split; [intros _; destruct (merged_dst _ _ _ _ Hm) as [Hd _]; by eexists|].
  destruct (me_types _ _ _ _ Hm) as [[Tc Tl]|[Tc Tl]].
  - left. destruct Hl as [_ [Hl|(_ & Hr & _)]]; [|by rewrite Tl in Hr]. destruct Hc as [_ [Hc|(_ & Hr & _)]]; [|by rewrite Tc in Hr].
    by eapply merged_copy.
  - right. destruct (merged_full _ _ _ _ Hm Tc Tl) as [? ?]; [by eapply pending_shape..|done].
Qed.

Lemma merge_operation_spec w chunk new_aops curr_aop :
  Forall (pending w) new_aops -> pending w curr_aop ->
  Forall (pending w) (merge_operation chunk new_aops curr_aop)
  /\ written_blocks (merge_operation chunk new_aops curr_aop) = written_blocks new_aops ++ ExpandExtents (dst_extents curr_aop).
Proof.
  intros Hn Hc. assert (Hsnoc : Forall (pending w) (new_aops ++ [curr_aop])) by (apply Forall_app; split; [done|by apply Forall_singleton]).
  unfold merge_operation. destruct (last new_aops) as [last_aop|] eqn:El.
  2: { apply last_None in El. subst. split; [done|apply (written_snoc [])]. }
  destruct (last (dst_extents last_aop)) as [e1|] eqn:E1; [|by rewrite written_snoc].
  destruct (head (dst_extents curr_aop)) as [e2|] eqn:E2; [|by rewrite written_snoc].
  destruct (mergeable chunk last_aop curr_aop e1 e2) eqn:Hm; [|by rewrite written_snoc].
  apply last_Some in El as [init ->]. apply Forall_app in Hn as [Hinit Hl%Forall_inv].
  pose proof (mergeable_merges _ _ _ _ _ _ Hl Hc E1 E2 Hm) as Hms. rewrite length_app, Nat.add_comm. cbn [length pred Nat.add].
  rewrite insert_app_r_alt, Nat.sub_diag by lia. cbn [list_insert insert]. rewrite !written_snoc. split.
  - apply Forall_app. split; [done|]. apply Forall_singleton. by eapply pending_merged.
  - destruct (merged_dst _ _ _ _ Hms) as (_ & -> & _). by rewrite app_assoc.
Qed.

Lemma merge_all_spec w chunk aops new_aops :
  Forall (pending w) new_aops -> Forall (pending w) aops ->
  Forall (pending w) (fold_left (merge_operation chunk) aops new_aops)
  /\ written_blocks (fold_left (merge_operation chunk) aops new_aops) = written_blocks new_aops ++ written_blocks aops.
Proof.
  intros Hn Ha. revert new_aops Hn. induction Ha as [|op aops Hop Ha IH]; intros new_aops Hn; [split; [done|]; by rewrite app_nil_r|].
  destruct (merge_operation_spec w chunk new_aops op Hn Hop) as [Hp Hw]. cbn [fold_left]. destruct (IH _ Hp) as [? ->]. split; [done|].
  rewrite Hw, <- app_assoc. done.
Qed.

Lemma pending_grows w w' op : grows w w' -> pending w op -> pending w' op.
Proof. intros Hg [Hs [Ha|?]]; split; auto. left. by eapply ab_op_grows. Qed.

Lemma add_blob_spec w op s :
  pending w op -> blob_ok (snd s) -> grows w (snd s) -> Forall (ab_op (snd s)) (fst s) ->
  exists s', add_blob version newf s op = Ret s' /\ blob_ok (snd s') /\ grows w (snd s') /\ Forall (ab_op (snd s')) (fst s')
    /\ written_blocks (fst s') = written_blocks (fst s) ++ ExpandExtents (dst_extents op).
Proof.
  intros Hp Hw Hg Ha. apply (pending_grows _ _ _ Hg) in Hp. unfold add_blob. destruct (_ && _) eqn:E.
  - apply andb_true_iff in E as [Hz%Z.eqb_eq Hr]. pose proof (pending_shape _ _ Hp) as [_ [_ Hd] Hne _ Hn Hf _ _ [_ Hdz] _]. destruct (Hf Hr) as (? & ? & ?).
    destruct (AddDataAndSetType_spec op (snd s)) as (op' & w' & -> & Hw' & Hg' & Hop & Ed); try done; [by left|].
    rewrite outcome_bind_ret. eexists. split; [done|]. cbn [fst snd]. rewrite written_snoc, Ed. split_and!; [done|by etrans| |done].
    apply Forall_app. split; [by eapply ab_ops_grow|by apply Forall_singleton].
  - eexists. split; [done|]. cbn [fst snd]. rewrite written_snoc. split_and!; [done..| |done]. apply Forall_app. split; [done|]. apply Forall_singleton.
    destruct Hp as [_ [?|(_ & Hr & Hz)]]; [done|]. by rewrite Hr, Hz in E.
Qed.

Lemma MergeOperations_spec w chunk aops :
  fragments w aops -> blob_ok w ->
  exists ops w', MergeOperations aops version chunk newf w = Ret (ops, w') /\ blob_ok w' /\ grows w w' /\ Forall (ab_op w') ops
    /\ written_blocks ops = written_blocks aops.
Proof.
  intros Hf Hw. unfold MergeOperations. destruct (merge_all_spec w chunk aops []) as [Hp Hwr]; [done|eapply Forall_impl; [done|]; intros op [? ?]; split; auto|].
  set (l := fold_left _ _ _) in *. change (written_blocks [] ++ _) with (written_blocks aops) in Hwr.
  destruct (foldM_inv (add_blob version newf) (fun pre s => blob_ok (snd s) /\ grows w (snd s) /\ Forall (ab_op (snd s)) (fst s)
    /\ written_blocks (fst s) = written_blocks pre) l ([], w)) as ([ops w'] & -> & ? & ? & ? & Heq).
  - split_and!; done.
  - intros pre op post s E (? & ? & ? & Hs). rewrite E in Hp. apply Forall_app in Hp as [_ [Hop _]%Forall_cons].
    destruct (add_blob_spec w op s) as (s' & -> & ? & ? & ? & Hs'); [done..|]. exists s'. rewrite Hs', Hs, written_snoc. done.
  - cbn [fst snd] in *. exists ops, w'. split_and!; try done. by rewrite Heq.
Qed.

(** ** Source hashes *)

(** The hash of an operation, if it has one, is that of its source. *)
Definition source_hashed `{Hash} (op : AnnotatedOperation) : Prop :=
  data_sha256_hash op = None
  /\ from_option (fun h => RawHashOfData (concat (block_of oldf <$> ExpandExtents (src_extents op))) = Some h) True (src_sha256_hash op).

Lemma add_source_hash_spec `{Hash} w aops op :
  (forall data, is_Some (RawHashOfData data)) -> ab_op w op -> hashes op = (None, None) -> exists op', add_source_hash oldf aops op = Ret (aops ++ [op'])
    /\ ab_op w op' /\ source_hashed op' /\ dst_extents op' = dst_extents op.
Proof.
  intros Hh Hop [= Hdh Hsh]. unfold add_source_hash, source_hashed. case_bool_decide as Es; [eexists; split_and!; try done; by rewrite Hsh|].
  pose proof Hop as [[? [Hs ?] ? Ho ? ? ? Hlen [Hsize ?] ?] ? ? ? ?].
  assert (Hl : default (u64 (BlocksInExtents (src_extents op) * kBlockSize)) (src_length op) = zlen (ExpandExtents (src_extents op)) * kBlockSize).
  { destruct Hlen as [-> | ->]; [|done]. cbn [default from_option id]. rewrite ExpandExtents_length in * by done. pose proof (total_nonneg _ Hs).
    unfold kBlockSize in *. rewrite BlocksInExtents_total by (done || lia). by rewrite uint_small by (unfold is_uint; lia). }
  rewrite Hl, (read_image oldf old_n) by (done || lia). rewrite outcome_bind_ret. destruct (Hh (concat (block_of oldf <$> ExpandExtents (src_extents op)))) as [h Eh].
  rewrite Eh. eexists. split_and!; [done| |done|done|done]. split; [split|..]; done.
Qed.

Lemma AddSourceHash_spec `{Hash} w aops :
  (forall data, is_Some (RawHashOfData data)) -> Forall (ab_op w) aops -> Forall (fun op => hashes op = (None, None)) aops ->
  exists ops, AddSourceHash aops oldf = Ret ops /\ Forall (ab_op w) ops /\ Forall source_hashed ops /\ written_blocks ops = written_blocks aops.
Proof.
  intros Hh Ha Hun. unfold AddSourceHash.
  destruct (foldM_inv (add_source_hash oldf) (fun pre ops => Forall (ab_op w) ops /\ Forall source_hashed ops /\ written_blocks ops = written_blocks pre) aops [])
    as (ops & -> & ? & ? & ?); [done| |by exists ops].
  intros pre op post ops E (Hops & Hhs & Hwr). rewrite E in Ha, Hun. apply Forall_app in Ha as [_ [Hop _]%Forall_cons]. apply Forall_app in Hun as [_ [Hu _]%Forall_cons].
  destruct (add_source_hash_spec w ops op Hh Hop Hu) as (op' & -> & Hop' & Hs' & Ed). eexists. split; [done|]. rewrite !written_snoc, Ed, Hwr.
  split_and!; [..|done]; (apply Forall_app; split; [done|by apply Forall_singleton]).
Qed.
End Operations.

(** ** Operations have no hashes before [AddSourceHash] *)

Section Unhashed.
Context `{Kernel} `{Tools}.
Abbreviation unhashed := (fun op : AnnotatedOperation => hashes op = (None, None)).

Lemma unhashed_snoc ops op : Forall unhashed ops -> hashes op = (None, None) -> Forall unhashed (ops ++ [op]).
Proof. intros Ho Hop. apply Forall_app. split; [done|by apply Forall_singleton]. Qed.

Lemma SetOperationBlob_unhashed data op w b op' w' : SetOperationBlob data op w = Ret (b, op', w') -> hashes op' = hashes op.
Proof. unfold SetOperationBlob. intros E. by repeat (case_match || simplify_eq/= || destruct (StoreBlob _ _)). Qed.

Lemma AddDataAndSetType_unhashed op v newf w r : hashes op = (None, None) -> AddDataAndSetType op v newf w = Ret r -> hashes (fst r) = (None, None).
Proof.
  intros Hop. unfold AddDataAndSetType. destruct (guard_that _); simpl; [|done..]. destruct (ReadExtents _ _ _ _); simpl; [|done..].
  destruct (GenerateBestFullOperation _ _) as [[blob t]| |]; simpl; [|done..]. case_match; [|by intros [= <-]].
  destruct (SetOperationBlob blob (set_type t op) w) as [[[b op'] w']| |] eqn:E; simpl; [|done..]. intros [= <-]. apply SetOperationBlob_unhashed in E. simpl. by rewrite E.
Qed.

Lemma FragmentOperations_unhashed v aops newf w r : Forall unhashed aops -> FragmentOperations v aops newf w = Ret r -> Forall unhashed (fst r).
Proof.
  intros Ha. unfold FragmentOperations. apply (foldM_keeps _ (fun s => Forall unhashed (fst s)) unhashed); [|done|by constructor].
  intros [ops w0] op s' Hops Hop. unfold fragment_operation. simpl in Hops. case_match.
  - unfold SplitSourceCopy. destruct (guard_that _); simpl; [|done..]. destruct (of_option _) as [first| |]; simpl; [|done..].
    destruct (foldM _ _ _) as [[[ops' i] c]| |] eqn:E; simpl; [|done..]. destruct (check_that _); simpl; [|done..]. intros [= <-]. simpl.
    revert E. apply (foldM_keeps _ (fun s => Forall unhashed (fst (fst s))) (fun _ => True)); [|by apply Forall_true|done].
    intros [[ops1 i1] c1] e s1 Hs1 _. unfold split_copy. destruct (take_source _ _ _ _ _ _) as [[[src i2] c2]| |]; simpl; [|done..]. intros [= <-]. by apply unhashed_snoc.
  - case_match; [|intros [= <-]; by apply unhashed_snoc]. unfold SplitAReplaceOp. destruct (guard_that _); simpl; [|done..].
    destruct (foldM _ _ _) as [[[ops' i] w']| |] eqn:E; simpl; [|done..]. intros [= <-]. simpl.
    revert E. apply (foldM_keeps _ (fun s => Forall unhashed (fst (fst s))) (fun _ => True)); [|by apply Forall_true|done].
    intros [[ops1 o1] w1] e s1 Hs1 _. unfold split_replace. case_match eqn:Ei. simplify_eq.
    destruct (AddDataAndSetType _ _ _ _) as [r1| |] eqn:Ea; simpl; [|done..]. intros [= <-]. apply unhashed_snoc; [done|]. apply AddDataAndSetType_unhashed in Ea; [done|]. by case_match; simplify_eq.
Qed.

Lemma merge_unhashed chunk aops acc : Forall unhashed aops -> Forall unhashed acc -> Forall unhashed (fold_left (merge_operation chunk) aops acc).
Proof.
  intros Ha. revert acc. induction Ha as [|op aops Hop _ IH]; intros acc Hacc; simpl; [done|]. apply IH. unfold merge_operation.
  destruct (last acc) as [la|] eqn:El; [|by apply Forall_singleton]. repeat case_match; try by apply unhashed_snoc.
  apply Forall_insert; [done|]. apply last_Some in El as [init ->]. apply Forall_app in Hacc as [_ Hla%Forall_inv]. done.
Qed.

Lemma MergeOperations_unhashed v aops chunk newf w r : Forall unhashed aops -> MergeOperations aops v chunk newf w = Ret r -> Forall unhashed (fst r).
Proof.
  intros Ha. unfold MergeOperations. apply (foldM_keeps _ (fun s => Forall unhashed (fst s)) unhashed); [|by apply merge_unhashed|by constructor].
  intros [ops w0] op s' Hops Hop. unfold add_blob. simpl in *. case_match; [|intros [= <-]; by apply unhashed_snoc].
  destruct (AddDataAndSetType _ _ _ _) as [r1| |] eqn:Ea; simpl; [|done..]. intros [= <-]. apply unhashed_snoc; [done|]. by apply AddDataAndSetType_unhashed in Ea.
Qed.
End Unhashed.

(** ** The generator *)

(** What the generator needs of its configuration. *)
Record ab_config (config : PayloadGenerationConfig) : Prop := {
  ac_version : kSourceMinorPayloadVersion <= minor (version config);
  ac_block_size : block_size config = kBlockSize;
  ac_hard : hard_chunk_size config = -1 \/ kBlockSize <= hard_chunk_size config < 2 ^ 63;
  ac_soft : kBlockSize <= soft_chunk_size config < 2 ^ 63;
}.

(** The device that runs the operations of a payload for the other slot reads
    the sources from the current slot. *)
Definition from_slot `{Decoders} (w : BlobFileWriter) (source : device (list Z)) (op : InstallOperation) (_ : list (list Z)) : list (list Z) :=
  produce w op (source <$> ExpandExtents (src_extents op)).

Section Installs.
Context `{KernelOk} `{ToolsOk} `{!DiffRuns} `{BlockHash} `{Files} `{Hash}.
Context (Hhash : forall data, is_Some (RawHashOfData data)).
Context (old_part new_part : PartitionConfig) (old_files new_files : list File) (Hparts : partitions_ok old_part new_part old_files new_files).
Abbreviation oldf := (part_data old_part).
Abbreviation newf := (part_data new_part).
Abbreviation old_n := (part_size old_part / kBlockSize).
Abbreviation new_n := (part_size new_part / kBlockSize).
Context (Hsmall : part_size new_part < 2 ^ 32).
Context (sort : list AnnotatedOperation -> list AnnotatedOperation) (Hsort : forall aops, sort aops ≡ₚ aops).

Lemma partition_fits : new_n * kBlockSize < 2 ^ 32.
Proof. pose proof (Z.mul_div_le (part_size new_part) kBlockSize). unfold kBlockSize in *. lia. Qed.

(** All the stages. *)
Lemma ABGenerateOperations_spec config schedule w :
  ab_config config -> part_name old_part = part_name new_part -> blob_ok w ->
  exists aops w', ABGenerateOperations sort config schedule old_part new_part w = Ret (aops, w') /\ blob_ok w' /\ grows w w'
    /\ Forall (ab_op oldf newf (version config) old_n new_n w') aops /\ Forall (source_hashed oldf) aops
    /\ (forall b, b ∈ written_blocks aops <-> 0 <= b < new_n).
Proof.
  intros [Hv Hbs Hh Hs] Hname Hw. destruct (chunk_sizes config Hbs Hh Hs) as [Hhard Hsoft]. pose proof partition_fits as Hfit.
  destruct (part_blocks _ _ _ _ Hparts) as [Ho Hn]. destruct (po_files _ _ _ _ Hparts) as [Hof Hnf]. unfold kSourceMinorPayloadVersion in Hv.
  assert (Hi : InplaceUpdate (version config) = false) by (unfold InplaceUpdate, kInPlaceMinorPayloadVersion; apply Z.eqb_neq; lia).
  unfold ABGenerateOperations. rewrite (bool_decide_true (part_name old_part = part_name new_part)) by done. cbn [guard_that]. rewrite outcome_bind_ret.
  destruct (DeltaReadPartition_spec (version config) ltac:(lia) old_part new_part old_files new_files Hparts _ _ Hhard Hsoft schedule [] w Hw)
    as (l & w1 & -> & Hw1 & Hg1 & [Hops _ _ Hcp Hrd Hwr Hall]). rewrite outcome_bind_ret. cbn [app].
  assert (Hl : Forall (ab_op oldf newf (version config) old_n new_n w1) l).
  { specialize (Hcp Hi). rewrite Forall_forall in Hops, Hcp |- *. intros op Hop. apply partition_ab; auto.
    - intros b Hb. apply Hrd, list_elem_of_bind. by exists op.
    - intros b Hb. apply Hwr, list_elem_of_bind. by exists op. }
  destruct (FragmentOperations_spec oldf newf (version config) old_n new_n) with (w := w1) (aops := l) as (fr & w2 & Efr & Hfr & Hfw & Hw2 & Hg2); [done..|].
  assert (Hu : Forall (fun op => hashes op = (None, None)) fr).
  { apply FragmentOperations_unhashed in Efr; [done|]. eapply Forall_impl; [exact Hops|]. intros op Hop. apply (ok_hash _ _ _ _ _ Hop). }
  rewrite Efr, outcome_bind_ret.
  destruct (MergeOperations_spec oldf newf (version config) old_n new_n) with (w := w2)
    (chunk := merge_chunk_blocks (hard_chunk_blocks config) (soft_chunk_blocks config)) (aops := sort fr) as (ops & w3 & Emg & Hw3 & Hg3 & Hops3 & Hmw);
    [done..|by rewrite Hsort|done|].
  assert (Hu' : Forall (fun op => hashes op = (None, None)) ops) by (apply MergeOperations_unhashed in Emg; [done|by rewrite Hsort]). rewrite Emg, outcome_bind_ret.
  assert (Hb : forall b, b ∈ written_blocks ops <-> 0 <= b < new_n).
  { intros b. rewrite Hmw. unfold written_blocks in *. rewrite Hsort, Hfw. split; [apply Hwr|]. intros Hb. destruct (Hall b Hb) as [?|[Hx _]]; [done|congruence]. }
  destruct (Z.leb_spec kOpSrcHashMinorPayloadVersion (minor (version config))).
  - destruct (AddSourceHash_spec oldf newf (version config) old_n new_n) with (w := w3) (aops := ops) (3 := Hhash) as (ops' & -> & Hops' & Hhs & Hmw'); [done..|].
    rewrite outcome_bind_ret. exists ops', w3. rewrite Hmw'. split_and!; try done. by do 2 (etrans; [done|]).
  - exists ops, w3. split_and!; try done; [by do 2 (etrans; [done|])|]. eapply Forall_impl; [exact Hu'|]. intros op [= Hdh Hsh]. unfold source_hashed. by rewrite Hsh.
Qed.
End Installs.


Definition ab_sample_config : PayloadGenerationConfig :=
  mkConfig (mkImage no_info [raw_partition "new" 2]) (mkImage no_info [raw_partition "old" 1]) true (mkVersion 2 3 false) 0 (-1) 8192 4096 0.

