(* ===== verification/UpdateWriter.v ===== *)
(** * UpdateWriter: writing the data of operations to a device

    payload_consumer/file_descriptor.cc, the functions of common/utils.cc on
    descriptors, and the extent writers of payload_consumer/extent_writer.h,
    extent_writer.cc, bzip_extent_writer.cc and xz_extent_writer.cc.  The
    stream decoders are the class [StreamDecoder].  System calls may fail
    here: [KernelSafe] only bounds what they transfer, so that the
    lemmas also say what a call that fails leaves on the device. *)
From S2P Require Import Prelude UpdateExtents UpdateGraph UpdateViews UpdateInplace UpdateRun UpdateFile.
From S2P Require Import UpdateBlocks UpdateDelta UpdateApply.

(** ** Calls that return false *)

(** A call that changes a state; [None] is [false], and what was changed
    before stays changed. *)
Definition io (S A : Type) : Type := S -> outcome (option A * S).

#[export] Instance io_ret S : MRet (io S) := fun A a s => Ret (Some a, s).
#[export] Instance io_bind S : MBind (io S) := fun A B f m s =>
  match m s with
  | Ret (Some a, s) => f a s
  | Ret (None, s) => Ret (None, s)
  | Fail => Fail
  | Abort => Abort
  end.

Section Io.
Context {S : Type}.

(** [TEST_AND_RETURN_FALSE] and [CHECK]. *)
Definition test_that (b : bool) : io S () := fun s => Ret (if b then Some () else None, s).
Definition io_check (b : bool) : io S () := fun s => if b then Ret (Some (), s) else Abort.
Definition io_fail {A} : io S A := fun s => Ret (None, s).
Definition io_get : io S S := fun s => Ret (Some s, s).
Definition io_put (s : S) : io S () := fun _ => Ret (Some (), s).
Definition io_modify (f : S -> S) : io S () := fun s => Ret (Some (), f s).

(** The call on a part of a larger state. *)
Definition io_on {T A} (get : T -> S) (set : S -> T -> T) (m : io S A) : io T A := fun t =>
  match m (get t) with
  | Ret (r, s) => Ret (r, set s t)
  | Fail => Fail
  | Abort => Abort
  end.

Fixpoint io_fold {A B} (f : B -> A -> io S B) (l : list A) (acc : B) : io S B :=
  match l with [] => mret acc | a :: l => f acc a ≫= fun acc => io_fold f l acc end.

(** A call whose failure is not one of the caller. *)
Definition io_try {A} (m : io S A) : io S (option A) := fun s =>
  match m s with Ret (r, s) => Ret (Some r, s) | Fail => Fail | Abort => Abort end.

Definition io_option {A} (x : option A) : io S A := fun s => Ret (x, s).
Definition io_outcome {A} (m : outcome A) : io S A := fun s => match m with Ret a => Ret (Some a, s) | Fail => Fail | Abort => Abort end.
End Io.

(** ** File descriptors *)

Record FileDescriptor := mkFd { fd_file : list Z; fd_pos : Z }.

Section Descriptor.
Context `{Kernel}.

(** [lseek64]: negative offsets are refused. *)
Definition Seek (offset : Z) : io FileDescriptor () := fun fd =>
  let offset := sint 64 offset in
  if 0 <=? offset then Ret (Some (), mkFd (fd_file fd) offset) else Ret (None, fd).

(** [read] at the position of the descriptor. *)
Definition fd_Read (count : Z) : io FileDescriptor (list Z) := fun fd =>
  match pread (fd_file fd) count (fd_pos fd) with
  | None => Ret (None, fd)
  | Some data => Ret (Some data, mkFd (fd_file fd) (fd_pos fd + zlen data))
  end.

(** [EintrSafeFileDescriptor::Write]: repeats while there is progress. *)
Fixpoint fd_write_loop (fuel : nat) (buf : list Z) (written : Z) (fd : FileDescriptor) : outcome (option Z * FileDescriptor) :=
  match buf, fuel with
  | [], _ => Ret (Some written, fd)
  | _, O => Abort
  | _, S fuel =>
      match pwrite (fd_file fd) buf (fd_pos fd) with
      | None => Ret (if written =? 0 then None else Some written, fd)
      | Some ret =>
          if ret <=? 0 then Ret (Some (if written =? 0 then ret else written), fd)
          else fd_write_loop fuel (drop (Z.to_nat ret) buf) (written + ret)
                 (mkFd (write_at (fd_file fd) (fd_pos fd) (take (Z.to_nat ret) buf)) (fd_pos fd + ret))
      end
  end.

Definition fd_Write (buf : list Z) : io FileDescriptor Z := fd_write_loop (length buf) buf 0.

Fixpoint write_all_loop (fuel : nat) (buf : list Z) (bytes_written : Z) : io FileDescriptor () :=
  if bytes_written <? zlen buf then
    match fuel with
    | O => fun _ => Abort
    | S fuel =>
        rc ← fd_Write (drop (Z.to_nat bytes_written) buf);
        _ ← test_that (0 <=? rc);
        write_all_loop fuel buf (bytes_written + rc)
    end
  else mret ().

Definition WriteAll (buf : list Z) : io FileDescriptor () := write_all_loop (length buf) buf 0.

Definition fd_PWriteAll (buf : list Z) (offset : Z) : io FileDescriptor () :=
  _ ← Seek offset; WriteAll buf.

Fixpoint read_all_loop (fuel : nat) (count : Z) (buf : list Z) : io FileDescriptor (list Z) :=
  if zlen buf <? count then
    match fuel with
    | O => fun _ => Abort
    | S fuel =>
        data ← fd_Read (count - zlen buf);
        if bool_decide (data = []) then mret buf else read_all_loop fuel count (buf ++ data)
    end
  else mret buf.

Definition fd_PReadAll (count offset : Z) : io FileDescriptor (list Z) :=
  _ ← Seek offset; read_all_loop (Z.to_nat count) count [].
End Descriptor.

(** ** Extent writers *)

Class ExtentWriter (W : Type) := {
  Init : list Extent -> Z -> io (W * FileDescriptor) ();
  Write : list Z -> io (W * FileDescriptor) ();
  End_ : io (W * FileDescriptor) ();
}.

Definition on_fd {W A} (m : io FileDescriptor A) : io (W * FileDescriptor) A := io_on snd (fun fd s => (fst s, fd)) m.

Record DirectExtentWriter := mkDirect {
  dw_block_size : Z;
  extent_bytes_written : Z;
  dw_extents : list Extent;
  next_extent_index : nat;
}.

Definition DirectExtentWriter_new : DirectExtentWriter := mkDirect 0 0 [] 0.

Section Direct.
Context `{Kernel}.

(** One round of the loop of [Write] for the bytes not yet written. *)
Definition direct_write_part (bytes : list Z) : io (DirectExtentWriter * FileDescriptor) Z :=
  s ← io_get;
  let w := fst s in
  match dw_extents w !! next_extent_index w with
  | None => io_fail
  | Some extent =>
      let remaining := u64 (num_blocks extent * dw_block_size w - extent_bytes_written w) in
      _ ← io_check (negb (remaining =? 0));
      let bytes_to_write := Z.min (zlen bytes) remaining in
      _ ← test_that (0 <? bytes_to_write);
      _ ← (if start_block extent =? kSparseHole then mret ()
           else _ ← on_fd (Seek (u64 (start_block extent * dw_block_size w + extent_bytes_written w)));
                on_fd (WriteAll (take (Z.to_nat bytes_to_write) bytes)));
      let written := u64 (extent_bytes_written w + bytes_to_write) in
      _ ← (if remaining =? bytes_to_write then
             _ ← io_check (written =? u64 (num_blocks extent * dw_block_size w));
             io_modify (fun s => (mkDirect (dw_block_size w) 0 (dw_extents w) (S (next_extent_index w)), snd s))
           else io_modify (fun s => (mkDirect (dw_block_size w) written (dw_extents w) (next_extent_index w), snd s)));
      mret bytes_to_write
  end.

Fixpoint direct_write (fuel : nat) (bytes : list Z) : io (DirectExtentWriter * FileDescriptor) () :=
  match bytes, fuel with
  | [], _ => mret ()
  | _, O => fun _ => Abort
  | _, S fuel => n ← direct_write_part bytes; direct_write fuel (drop (Z.to_nat n) bytes)
  end.

#[export] Instance DirectExtentWriter_writer : ExtentWriter DirectExtentWriter := {|
  Init extents block_size := io_modify (fun s => (mkDirect block_size (extent_bytes_written (fst s)) extents (next_extent_index (fst s)), snd s));
  Write bytes := direct_write (length bytes) bytes;
  End_ := mret ();
|}.
End Direct.

(** [ZeroPadExtentWriter] *)
Record ZeroPadExtentWriter (W : Type) := mkZeroPad {
  zp_underlying : W;
  zp_block_size : Z;
  bytes_written_mod_block_size : Z;
}.
Arguments mkZeroPad {W}.
Arguments zp_underlying {W}.
Arguments zp_block_size {W}.
Arguments bytes_written_mod_block_size {W}.

Definition ZeroPadExtentWriter_new {W} (w : W) : ZeroPadExtentWriter W := mkZeroPad w 0 0.

Section ZeroPad.
Context {W : Type} `{ExtentWriter W}.

Definition on_underlying {A} (m : io (W * FileDescriptor) A) : io (ZeroPadExtentWriter W * FileDescriptor) A :=
  io_on (fun s => (zp_underlying (fst s), snd s))
    (fun u s => (mkZeroPad (fst u) (zp_block_size (fst s)) (bytes_written_mod_block_size (fst s)), snd u)) m.

Definition set_padding (block_size written : Z) : io (ZeroPadExtentWriter W * FileDescriptor) () :=
  io_modify (fun s => (mkZeroPad (zp_underlying (fst s)) block_size written, snd s)).

#[export] Instance ZeroPadExtentWriter_writer : ExtentWriter (ZeroPadExtentWriter W) := {|
  Init extents block_size :=
    s ← io_get;
    _ ← set_padding block_size (bytes_written_mod_block_size (fst s));
    on_underlying (Init extents block_size);
  Write bytes :=
    _ ← on_underlying (Write bytes);
    s ← io_get;
    set_padding (zp_block_size (fst s)) (u64 (bytes_written_mod_block_size (fst s) + zlen bytes) mod zp_block_size (fst s));
  End_ :=
    s ← io_get;
    let written := bytes_written_mod_block_size (fst s) in
    _ ← (if written =? 0 then mret ()
         else on_underlying (Write (replicate (Z.to_nat (zp_block_size (fst s) - written)) 0)));
    on_underlying End_;
|}.
End ZeroPad.

(** ** Compressed data *)

Inductive dec_result := DEC_OK | DEC_STREAM_END | DEC_ERROR.

#[export] Instance dec_result_eq_dec : EqDecision dec_result.
Proof. solve_decision. Defined.

(** A stream decoder of libbz2 or xz-embedded (for xz [dec_end] is true, since
    xz_dec_end returns nothing): [dec_run stream input room] is
    the result, the number of bytes taken from the input, at most [room] bytes
    of output, and the state of the stream. *)
Record StreamDecoder := {
  dec_stream : Type;
  dec_init : option dec_stream;
  dec_run : dec_stream -> list Z -> Z -> dec_result * Z * list Z * dec_stream;
  dec_end : dec_stream -> bool;
}.

Definition kOutputBufferLength : Z := 16 * 1024.

(** [rounds] bounds the loop of [Write]: a round that does not end it writes a
    byte into the extents. *)
Record DecodingExtentWriter (d : StreamDecoder) (W : Type) := mkDecoding {
  de_next : W;
  de_stream : option (dec_stream d);
  de_input_buffer : list Z;
  de_rounds : nat;
}.
Arguments mkDecoding {d W}.
Arguments de_next {d W}.
Arguments de_stream {d W}.
Arguments de_input_buffer {d W}.
Arguments de_rounds {d W}.

Section Decoding.
Context {d : StreamDecoder} {W : Type} `{ExtentWriter W}.
Abbreviation writer := (DecodingExtentWriter d W).

Definition DecodingExtentWriter_new (next : W) : writer := mkDecoding next None [] 0.

Definition on_next {A} (m : io (W * FileDescriptor) A) : io (writer * FileDescriptor) A :=
  io_on (fun s => (de_next (fst s), snd s))
    (fun u s => (mkDecoding (fst u) (de_stream (fst s)) (de_input_buffer (fst s)) (de_rounds (fst s)), snd u)) m.

Definition set_stream (stream : option (dec_stream d)) : io (writer * FileDescriptor) () :=
  io_modify (fun s => (mkDecoding (de_next (fst s)) stream (de_input_buffer (fst s)) (de_rounds (fst s)), snd s)).

Definition set_input_buffer (input : list Z) : io (writer * FileDescriptor) () :=
  io_modify (fun s => (mkDecoding (de_next (fst s)) (de_stream (fst s)) input (de_rounds (fst s)), snd s)).

Definition decoding_init (extents : list Extent) (block_size : Z) : io (writer * FileDescriptor) () :=
  match dec_init d with
  | None => io_fail
  | Some stream =>
      _ ← io_modify (fun s => (mkDecoding (de_next (fst s)) (Some stream) (de_input_buffer (fst s))
                                 (S (S (Z.to_nat (total extents * block_size)))), snd s));
      on_next (Init extents block_size)
  end.

(** The loop of [Write]; the input that is left over. *)
Fixpoint decode_loop (fuel : nat) (input : list Z) : io (writer * FileDescriptor) (list Z) :=
  match fuel with
  | O => fun _ => Abort
  | S fuel =>
      s ← io_get;
      match de_stream (fst s) with
      | None => fun _ => Abort
      | Some stream =>
          let '(rc, consumed, output, stream) := dec_run d stream input kOutputBufferLength in
          let rest := drop (Z.to_nat consumed) input in
          _ ← set_stream (Some stream);
          _ ← test_that (negb (bool_decide (rc = DEC_ERROR)));
          if bool_decide (output = []) then mret rest else
          _ ← on_next (Write output);
          _ ← io_check (negb (bool_decide (rc = DEC_STREAM_END)) || bool_decide (rest = []));
          if bool_decide (rest = []) then mret rest else decode_loop fuel rest
      end
  end.

(** [BzipExtentWriter::Write] keeps an empty input buffer when everything has
    been consumed; [XzExtentWriter::Write] always replaces it, which is the
    same. *)
Definition decoding_write (bytes : list Z) : io (writer * FileDescriptor) () :=
  s ← io_get;
  let buffered := de_input_buffer (fst s) in
  rest ← decode_loop (de_rounds (fst s)) (buffered ++ bytes);
  set_input_buffer rest.

#[export] Instance DecodingExtentWriter_writer : ExtentWriter writer := {|
  Init := decoding_init;
  Write := decoding_write;
  End_ :=
    s ← io_get;
    _ ← test_that (bool_decide (de_input_buffer (fst s) = []));
    _ ← test_that (match de_stream (fst s) with Some stream => dec_end d stream | None => false end);
    on_next End_;
|}.
End Decoding.

(** ** What a call returns *)

(** [returns m s Q]: the call terminates without a failed check, and [Q] holds
    of its result and of the state it leaves. *)
Definition returns {S A} (m : io S A) (s : S) (Q : option A -> S -> Prop) : Prop :=
  match m s with Ret (r, s') => Q r s' | Fail | Abort => False end.

Section Returns.
Context {S A B : Type}.

Lemma returns_bind (m : io S A) (f : A -> io S B) s Q :
  returns m s (fun r s' => match r with Some a => returns (f a) s' Q | None => Q None s' end) -> returns (m ≫= f) s Q.
Proof. unfold returns, mbind, io_bind. destruct (m s) as [[[a|] s']| |]; done. Qed.

Lemma returns_mono (m : io S A) s (Q Q' : option A -> S -> Prop) :
  returns m s Q -> (forall r s', Q r s' -> Q' r s') -> returns m s Q'.
Proof. unfold returns. destruct (m s) as [[r s']| |]; auto. Qed.

Lemma returns_ret (a : A) s Q : Q (Some a) s -> returns (mret a : io S A) s Q.
Proof. done. Qed.

Lemma returns_on {T} (get : T -> S) (set : S -> T -> T) (m : io S A) t Q :
  returns m (get t) (fun r s => Q r (set s t)) -> returns (io_on get set m) t Q.
Proof. unfold returns, io_on. destruct (m (get t)) as [[r s]| |]; done. Qed.

Lemma returns_try (m : io S A) s Q : returns m s (fun r s' => Q (Some r) s') -> returns (io_try m) s Q.
Proof. unfold returns, io_try. destruct (m s) as [[r s']| |]; done. Qed.

Lemma returns_test (b : bool) (s : S) (Q : option () -> S -> Prop) : (b = true -> Q (Some ()) s) -> (b = false -> Q None s) -> returns (test_that b) s Q.
Proof. unfold returns, test_that. destruct b; auto. Qed.

Lemma returns_check (b : bool) (s : S) (Q : option () -> S -> Prop) : b = true -> Q (Some ()) s -> returns (io_check b) s Q.
Proof. by intros ->. Qed.
End Returns.

(** ** Descriptors *)

(** System calls that may fail, but transfer something when they do not. *)
Class KernelSafe `{Kernel} : Prop := {
  pread_safe : forall file count offset data, 0 <= count -> 0 <= offset -> pread file count offset = Some data ->
    data `prefix_of` slice file offset count /\ (slice file offset count <> [] -> data <> []);
  pwrite_safe : forall file buf offset n, buf <> [] -> 0 <= offset -> pwrite file buf offset = Some n -> 0 < n <= zlen buf;
}.

Definition no_io_errors `{Kernel} : Prop :=
  (forall file count offset, 0 <= count -> 0 <= offset -> pread file count offset <> None)
  /\ (forall file buf offset, buf <> [] -> 0 <= offset -> pwrite file buf offset <> None).

#[export] Instance KernelOk_safe `{KernelOk} : KernelSafe.
Proof.
  split.
  - intros file count offset data Hc Ho E. destruct (pread_ok file count offset Hc Ho) as (data' & E' & ? & ?). by simplify_eq.
  - intros file buf offset n Hb Ho E. destruct (pwrite_ok file buf offset Hb Ho) as (n' & E' & ?). by simplify_eq.
Qed.

Lemma KernelOk_no_errors `{KernelOk} : no_io_errors.
Proof.
  split.
  - intros file count offset Hc Ho. destruct (pread_ok file count offset Hc Ho) as (? & -> & _). done.
  - intros file buf offset Hb Ho. destruct (pwrite_ok file buf offset Hb Ho) as (? & -> & _). done.
Qed.

Section Descriptors.
Context `{KernelSafe}.

(** [n] of the bytes have been written. *)
Lemma fd_write_loop_spec fuel buf written f pos :
  0 <= pos <= zlen f -> (length buf <= fuel)%nat -> 0 <= written ->
  exists r n, fd_write_loop fuel buf written (mkFd f pos) = Ret (r, mkFd (write_at f pos (take (Z.to_nat n) buf)) (pos + n))
    /\ 0 <= n <= zlen buf /\ (r = None -> written = 0 /\ n = 0) /\ (forall rc, r = Some rc -> rc = written + n /\ (buf <> [] -> 0 < rc))
    /\ (no_io_errors -> n = zlen buf).
Proof.
  revert buf written f pos. induction fuel as [|fuel IH]; intros buf written f pos Hp Hf Hw; destruct buf as [|x buf].
  1, 3: exists (Some written), 0; cbn [fd_write_loop]; rewrite take_nil, write_at_nil, Z.add_0_r by done; split_and!; try done; intros rc [= <-]; split; [lia|done].
  { simpl in Hf. lia. }
  cbn [fd_write_loop]. set (l := x :: buf) in *. destruct (pwrite f l pos) as [ret|] eqn:E; cycle 1.
  { exists (if written =? 0 then None else Some written), 0. cbn [fd_file fd_pos]. rewrite E. rewrite take_0, write_at_nil, Z.add_0_r by done.
    split_and!; [done|done|apply zlen_nonneg|..].
    - destruct (Z.eqb_spec written 0); [done|]. done.
    - intros rc. destruct (Z.eqb_spec written 0); [done|]. intros [= <-]. lia.
    - intros [_ He]. exfalso. apply (He f l pos); [done|lia|done]. }
  destruct (pwrite_safe f l pos ret) as [Hr1 Hr2]; [done|lia|done|]. cbn [fd_file fd_pos]. rewrite E.
  destruct (Z.leb_spec ret 0); [lia|].
  assert (Hzt : zlen (take (Z.to_nat ret) l) = ret) by (apply zlen_take; lia).
  destruct (IH (drop (Z.to_nat ret) l) (written + ret) (write_at f pos (take (Z.to_nat ret) l)) (pos + ret)) as (r & n & -> & Hn & Hr & Hrc & Hno).
  { rewrite zlen_write by done. lia. }
  { rewrite length_drop. unfold l. simpl in *. lia. }
  { lia. }
  rewrite zlen_drop in * by lia. exists r, (ret + n). split_and!; try lia.
  - do 3 f_equal; [|lia]. rewrite <- Hzt at 2. rewrite <- write_at_app by done. f_equal. rewrite take_take_drop, Z2Nat.inj_add by lia. done.
  - intros ->. destruct (Hr eq_refl). lia.
  - intros rc Hrr. destruct (Hrc rc Hrr). split; [lia|]. intros. lia.
  - intros He. specialize (Hno He). lia.
Qed.

Lemma write_all_loop_spec fuel buf n f pos :
  0 <= pos <= zlen f -> 0 <= n <= zlen buf -> zlen buf - n <= Z.of_nat fuel ->
  returns (write_all_loop fuel buf n) (mkFd (write_at f pos (take (Z.to_nat n) buf)) (pos + n)) (fun r fd => exists m, n <= m <= zlen buf
    /\ fd = mkFd (write_at f pos (take (Z.to_nat m) buf)) (pos + m) /\ (r = Some () -> m = zlen buf) /\ (no_io_errors -> r = Some ())).
Proof.
  revert n. induction fuel as [|fuel IH]; intros n Hp Hn Hf; cbn [write_all_loop]; (destruct (Z.ltb_spec n (zlen buf)) as [Hlt|Hge];
    [|apply returns_ret; exists n; split_and!; try done; lia]); [lia|].
  set (rest := drop (Z.to_nat n) buf). assert (Hrest : zlen rest = zlen buf - n) by (by apply zlen_drop).
  assert (Hzt : zlen (take (Z.to_nat n) buf) = n) by (by apply zlen_take).
  apply returns_bind. unfold fd_Write, returns at 1.
  destruct (fd_write_loop_spec (length rest) rest 0 (write_at f pos (take (Z.to_nat n) buf)) (pos + n)) as (r & k & -> & Hk & Hr & Hrc & Hno);
    [rewrite zlen_write by done; lia|done|done|].
  assert (Hw : write_at (write_at f pos (take (Z.to_nat n) buf)) (pos + n) (take (Z.to_nat k) rest) = write_at f pos (take (Z.to_nat (n + k)) buf)).
  { rewrite <- Hzt at 2. rewrite <- write_at_app by done. unfold rest. by rewrite take_take_drop, Z2Nat.inj_add by lia. }
  rewrite Hw, <- Z.add_assoc. assert (Hne : rest <> []) by (intros E; rewrite E in Hrest; unfold zlen in Hrest at 1; simpl in Hrest; lia).
  destruct r as [rc|].
  - destruct (Hrc rc eq_refl) as [-> Hpos]. specialize (Hpos Hne). apply returns_bind, returns_test; [|lia]. intros _. rewrite Z.add_0_l in *.
    eapply returns_mono; [apply IH; lia|]. intros r fd (m & ? & ? & ? & ?). exists m. split_and!; try done; lia.
  - destruct (Hr eq_refl) as [_ ->]. rewrite Z.add_0_r. exists n. split_and!; try done; try lia. intros He. specialize (Hno He). lia.
Qed.

Lemma WriteAll_spec buf f pos :
  0 <= pos <= zlen f ->
  returns (WriteAll buf) (mkFd f pos) (fun r fd => exists m, 0 <= m <= zlen buf
    /\ fd = mkFd (write_at f pos (take (Z.to_nat m) buf)) (pos + m) /\ (r = Some () -> m = zlen buf) /\ (no_io_errors -> r = Some ())).
Proof.
  intros Hp. pose proof (write_all_loop_spec (length buf) buf 0 f pos Hp) as Hl. change (Z.to_nat 0) with 0%nat in Hl.
  rewrite take_0, write_at_nil, Z.add_0_r in Hl by done. apply Hl; unfold zlen; lia.
Qed.

Lemma Seek_spec offset f pos : 0 <= offset < 2 ^ 63 -> Seek offset (mkFd f pos) = Ret (Some (), mkFd f offset).
Proof. intros Ho. unfold Seek. rewrite sint_small by lia. by rewrite (proj2 (Z.leb_le _ _)) by lia. Qed.

Lemma fd_PWriteAll_spec buf offset f pos :
  0 <= offset <= zlen f -> zlen f < 2 ^ 63 ->
  returns (fd_PWriteAll buf offset) (mkFd f pos) (fun r fd => exists m, 0 <= m <= zlen buf
    /\ fd_file fd = write_at f offset (take (Z.to_nat m) buf) /\ (r = Some () -> m = zlen buf) /\ (no_io_errors -> r = Some ())).
Proof.
  intros Ho Hf. unfold fd_PWriteAll. apply returns_bind. unfold returns at 1. rewrite Seek_spec by lia.
  eapply returns_mono; [by apply WriteAll_spec|]. intros r fd (m & ? & -> & ? & ?). by exists m.
Qed.

Lemma read_all_loop_spec fuel count offset f buf :
  0 <= offset -> buf = slice f offset (zlen buf) -> zlen buf <= count -> count - zlen buf <= Z.of_nat fuel ->
  returns (read_all_loop fuel count buf) (mkFd f (offset + zlen buf)) (fun r fd => fd_file fd = f
    /\ (forall data, r = Some data -> data = slice f offset count) /\ (no_io_errors -> is_Some r)).
Proof.
  revert buf. induction fuel as [|fuel IH]; intros buf Ho Hb Hc Hf; cbn [read_all_loop]; pose proof (zlen_nonneg buf);
    (destruct (Z.ltb_spec (zlen buf) count) as [Hlt|Hge];
      [|apply returns_ret; split_and!; [done|intros data [= <-]; by replace count with (zlen buf) by lia|done]]); [lia|].
  apply returns_bind. unfold fd_Read, returns at 1. cbn [fd_file fd_pos].
  destruct (pread f (count - zlen buf) (offset + zlen buf)) as [data|] eqn:E; cycle 1.
  { split_and!; [done..|]. intros [He _]. exfalso. eapply He; [| |exact E]; lia. }
  destruct (pread_safe f (count - zlen buf) (offset + zlen buf) data) as [Hp Hne]; [lia|lia|done|].
  destruct (slice_prefix f data (offset + zlen buf) (count - zlen buf) ltac:(lia) Hp) as [Hd Hl].
  assert (Hsl : slice f offset count = buf ++ slice f (offset + zlen buf) (count - zlen buf)).
  { replace count with (zlen buf + (count - zlen buf)) at 1 by lia. rewrite slice_app by lia. by rewrite <- Hb. }
  case_bool_decide as Hnil.
  - apply returns_ret. split_and!; [done| |done]. intros d [= <-]. rewrite Hsl.
    destruct (slice f (offset + zlen buf) (count - zlen buf)); [by rewrite app_nil_r|by destruct Hne].
  - assert (0 < zlen data) by (destruct data; [done|rewrite zlen_cons; pose proof (zlen_nonneg data); lia]).
    rewrite <- Z.add_assoc, <- zlen_app. apply IH; rewrite ?zlen_app; try lia. rewrite slice_app, <- Hb, <- Hd by lia. done.
Qed.

Lemma fd_PReadAll_spec count offset f pos :
  0 <= count -> 0 <= offset < 2 ^ 63 ->
  returns (fd_PReadAll count offset) (mkFd f pos) (fun r fd => fd_file fd = f
    /\ (forall data, r = Some data -> data = slice f offset count) /\ (no_io_errors -> is_Some r)).
Proof.
  intros Hc Ho. unfold fd_PReadAll. apply returns_bind. unfold returns at 1. rewrite Seek_spec by lia.
  replace (mkFd f offset) with (mkFd f (offset + zlen (@nil Z))) by (f_equal; unfold zlen; simpl; lia).
  apply read_all_loop_spec; unfold zlen; simpl; [lia|done|lia|lia].
Qed.
End Descriptors.

(** ** Blocks of a file that change *)

(** The two files differ in the blocks [bs] only. *)
Definition same_outside (bs : list Z) (f f' : list Z) : Prop :=
  zlen f' = zlen f /\ forall b, 0 <= b -> b ∉ bs -> block_of f' b = block_of f b.

#[export] Instance same_outside_preorder bs : PreOrder (same_outside bs).
Proof.
  split; [done|]. intros f1 f2 f3 [? Hb1] [? Hb2]. split; [congruence|]. intros b Hb Hn. by rewrite Hb2, Hb1.
Qed.

Lemma same_outside_mono bs bs' f f' : bs ⊆ bs' -> same_outside bs f f' -> same_outside bs' f f'.
Proof. intros Hs [? Hb]. split; [done|]. intros b ? Hn. apply Hb; [done|]. intros Hin. by apply Hn, Hs. Qed.

Lemma write_same_outside f o data b n :
  0 <= b -> 0 <= n -> b * kBlockSize <= o -> o + zlen data <= (b + n) * kBlockSize -> (b + n) * kBlockSize <= zlen f ->
  same_outside (seqZ b n) f (write_at f o data).
Proof.
  intros Hb Hn Ho Hd Hf. pose proof (zlen_nonneg data). unfold kBlockSize in *. split; [rewrite zlen_write by lia; lia|].
  intros c Hc Hin. rewrite elem_of_seqZ in Hin. unfold block_of. unfold kBlockSize.
  destruct (Z.lt_ge_cases c b); [apply slice_write_before; lia|apply slice_write_after; lia].
Qed.

(** ** Data written into extents *)

(** The file after [data] has been written into the extents one after the other. *)
Fixpoint fill_extents (f : list Z) (es : list Extent) (data : list Z) : list Z :=
  match es with
  | [] => f
  | e :: es =>
      let n := Z.to_nat (num_blocks e * kBlockSize) in
      fill_extents (write_at f (start_block e * kBlockSize) (take n data)) es (drop n data)
  end.

Definition on_device (n : Z) (es : list Extent) : Prop := Forall (fun e => extent_ok e /\ (start_block e + num_blocks e) * kBlockSize <= n) es.

Lemma on_device_ok n es : on_device n es -> Forall extent_ok es.
Proof. intros Hes. eapply Forall_impl; [done|]. by intros e [? _]. Qed.

Lemma write_extent_zlen f e data :
  extent_ok e -> (start_block e + num_blocks e) * kBlockSize <= zlen f ->
  zlen (write_at f (start_block e * kBlockSize) (take (Z.to_nat (num_blocks e * kBlockSize)) data)) = zlen f.
Proof.
  intros (? & ? & _) Hf. unfold kBlockSize in *. rewrite zlen_write by lia.
  assert (zlen (take (Z.to_nat (num_blocks e * 4096)) data) <= num_blocks e * 4096) by (unfold zlen; rewrite length_take; lia). lia.
Qed.

Lemma fill_extents_zlen f es data : on_device (zlen f) es -> zlen (fill_extents f es data) = zlen f.
Proof.
  revert f data. induction es as [|e es IH]; intros f data Hes; [done|]. apply Forall_cons in Hes as [[He Hf] Hes]. cbn [fill_extents].
  rewrite IH; [by apply write_extent_zlen|]. by rewrite write_extent_zlen.
Qed.

Lemma fill_extents_nil f es : on_device (zlen f) es -> fill_extents f es [] = f.
Proof.
  induction es as [|e es IH]; intros Hes; [done|]. apply Forall_cons in Hes as [[(? & ? & _) Hf] Hes]. cbn [fill_extents].
  rewrite take_nil, drop_nil, write_at_nil by (unfold kBlockSize in *; lia). by apply IH.
Qed.

Lemma fill_extents_more f pre e post data k x :
  on_device (zlen f) (pre ++ e :: post) -> zlen data = total pre * kBlockSize + k -> 0 <= k -> k + zlen x <= num_blocks e * kBlockSize ->
  fill_extents f (pre ++ e :: post) (data ++ x) = write_at (fill_extents f (pre ++ e :: post) data) (start_block e * kBlockSize + k) x.
Proof.
  revert f data. induction pre as [|p pre IH]; intros f data Hes Hd Hk Hx; pose proof (zlen_nonneg x); simpl app in *;
    apply Forall_cons in Hes as [[Hp Hf] Hes]; cbn [fill_extents].
  - change (total [] * kBlockSize) with 0 in Hd. assert (Hlen : (length data <= Z.to_nat (num_blocks e * kBlockSize))%nat) by (unfold zlen in *; lia).
    rewrite !(take_ge _ (Z.to_nat (num_blocks e * kBlockSize))), !(drop_ge _ (Z.to_nat (num_blocks e * kBlockSize)))
      by (rewrite ?length_app; unfold zlen in *; lia). destruct Hp as (? & ? & _).
    rewrite !fill_extents_nil by (rewrite zlen_write; [|unfold kBlockSize in *; lia]; rewrite ?zlen_app, Z.max_l; [done|unfold kBlockSize in *; lia]).
    rewrite write_at_app by (unfold kBlockSize in *; lia). f_equal. lia.
  - pose proof Hp as (? & ? & _). change (total (p :: pre)) with (num_blocks p + total pre) in Hd.
    pose proof (total_nonneg pre (proj1 (proj1 (Forall_app _ _ _) (on_device_ok _ _ Hes)))).
    assert (Hlen : (Z.to_nat (num_blocks p * kBlockSize) <= length data)%nat) by (unfold zlen, kBlockSize in *; lia).
    rewrite take_app_le, drop_app_le by done. apply IH; [by rewrite write_extent_zlen| |done|done].
    unfold zlen in *. rewrite length_drop. unfold kBlockSize in *. lia.
Qed.

Lemma fill_extents_outside f es data : on_device (zlen f) es -> same_outside (ExpandExtents es) f (fill_extents f es data).
Proof.
  revert f data. induction es as [|e es IH]; intros f data Hes; [done|]. apply Forall_cons in Hes as [[He Hf] Hes]. cbn [fill_extents].
  rewrite ExpandExtents_cons, expand_ok by done. pose proof He as (? & ? & _).
  set (d := take _ data). assert (zlen d <= num_blocks e * kBlockSize) by (unfold d, zlen; rewrite length_take; unfold kBlockSize in *; lia).
  transitivity (write_at f (start_block e * kBlockSize) d).
  - eapply same_outside_mono; [|apply (write_same_outside f _ d (start_block e) (num_blocks e)); unfold kBlockSize in *; lia].
    intros b Hb. apply elem_of_app. by left.
  - eapply same_outside_mono; [|apply IH; unfold d; by rewrite write_extent_zlen]. intros b Hb. apply elem_of_app. by right.
Qed.

(** ** The blocks that have been written *)

Section WriteBlocks.
Context {C : Type}.
Implicit Types (d : device C).

Lemma write_blocks_app bs bs' (xs xs' : list C) d :
  length bs = length xs -> write_blocks (bs ++ bs') (xs ++ xs') d = write_blocks bs' xs' (write_blocks bs xs d).
Proof.
  intros Hl. unfold write_blocks. rewrite zip_with_app by done. by rewrite fold_left_app.
Qed.

Lemma write_blocks_ext bs (xs : list C) d d' b : d b = d' b -> write_blocks bs xs d b = write_blocks bs xs d' b.
Proof.
  unfold write_blocks. revert xs d d'. induction bs as [|c bs IH]; intros xs d d' Hd; [done|]. destruct xs as [|x xs]; [done|].
  simpl. apply IH. by destruct (decide (b = c)).
Qed.
End WriteBlocks.

Lemma length_blocks_of data : length (blocks_of data) = Z.to_nat (zlen data / kBlockSize).
Proof. unfold blocks_of. by rewrite length_fmap, length_seqZ. Qed.

Lemma block_of_app_l a b n i : zlen a = n * kBlockSize -> 0 <= i < n -> block_of (a ++ b) i = block_of a i.
Proof.
  intros Ha Hi. unfold block_of, slice, kBlockSize, zlen in *.
  rewrite drop_app_le by lia. rewrite take_app_le; [done|]. rewrite length_drop. lia.
Qed.

Lemma block_of_app_r a b n i : zlen a = n * kBlockSize -> 0 <= n -> 0 <= i -> block_of (a ++ b) (n + i) = block_of b i.
Proof.
  intros Ha Hn Hi. unfold block_of, slice, kBlockSize, zlen in *. f_equal.
  rewrite drop_app_ge by lia. f_equal. lia.
Qed.

Lemma blocks_of_app a b n : zlen a = n * kBlockSize -> 0 <= n -> blocks_of (a ++ b) = blocks_of a ++ blocks_of b.
Proof.
  intros Ha Hn. unfold blocks_of. rewrite zlen_app, Ha. pose proof (zlen_nonneg b).
  rewrite Z.div_add_l, Z.div_mul by done. pose proof (Z.div_pos (zlen b) kBlockSize ltac:(lia) ltac:(done)).
  rewrite (seqZ_split 0 _ n) by lia. rewrite fmap_app. f_equal.
  - apply list_fmap_ext. intros i x Hx%list_elem_of_lookup_2. apply elem_of_seqZ in Hx. eapply block_of_app_l; [done|lia].
  - replace (n + zlen b / kBlockSize - n) with (zlen b / kBlockSize) by lia. replace (0 + n) with (n + 0) by lia. rewrite <- (fmap_add_seqZ n 0), <- list_fmap_compose.
    apply list_fmap_ext. intros i x Hx%list_elem_of_lookup_2. apply elem_of_seqZ in Hx. simpl. apply block_of_app_r; [done|lia|lia].
Qed.

(** Writing whole blocks at a block. *)
Lemma block_of_write f s n data b :
  0 <= s -> 0 <= n -> (s + n) * kBlockSize <= zlen f -> zlen data = n * kBlockSize -> 0 <= b ->
  block_of (write_at f (s * kBlockSize) data) b = write_blocks (seqZ s n) (blocks_of data) (block_of f) b.
Proof.
  intros Hs Hn Hf Hd Hb. destruct (decide (s <= b < s + n)) as [Hin|Hout].
  - symmetry. assert (Hlt : (Z.to_nat (b - s) < Z.to_nat n)%nat) by lia. apply (write_blocks_in _ _ _ (Z.to_nat (b - s))).
    + apply NoDup_seqZ.
    + rewrite lookup_seqZ_lt by lia. f_equal. lia.
    + unfold blocks_of. rewrite Hd, Z.div_mul by done. rewrite list_lookup_fmap, lookup_seqZ_lt by lia. cbn. f_equal.
      unfold block_of. rewrite <- (slice_write_same f (s * kBlockSize) data) at 1 by (unfold kBlockSize in *; lia).
      rewrite slice_slice by (unfold kBlockSize in *; lia). f_equal. unfold kBlockSize. lia.
  - rewrite write_blocks_out by (rewrite elem_of_seqZ; lia).
    apply (write_same_outside f (s * kBlockSize) data s n); [lia|lia|lia|rewrite Hd; unfold kBlockSize; lia|done|done|rewrite elem_of_seqZ; lia].
Qed.

Lemma fill_extents_blocks f es data b :
  on_device (zlen f) es -> zlen data = total es * kBlockSize -> 0 <= b ->
  block_of (fill_extents f es data) b = write_blocks (ExpandExtents es) (blocks_of data) (block_of f) b.
Proof.
  revert f data. induction es as [|e es IH]; intros f data Hes Hd Hb; [done|]. pose proof Hes as [[He Hf] Hes']%Forall_cons.
  pose proof He as (Hs & Hn & _). change (total (e :: es)) with (num_blocks e + total es) in Hd. cbn [fill_extents].
  pose proof (total_nonneg es (on_device_ok _ _ Hes')) as Ht. set (n := num_blocks e * kBlockSize).
  assert (Hnd : 0 <= n <= zlen data) by (unfold n, kBlockSize in *; lia).
  assert (Hzt : zlen (take (Z.to_nat n) data) = num_blocks e * kBlockSize) by (by rewrite zlen_take).
  rewrite IH; [|unfold n; by rewrite write_extent_zlen|rewrite zlen_drop by done; unfold n in *; lia|done].
  rewrite ExpandExtents_cons, expand_ok by done. rewrite <- (take_drop (Z.to_nat n) data) at 3.
  rewrite (blocks_of_app _ _ (num_blocks e)) by (done || lia). rewrite write_blocks_app.
  2: { rewrite length_seqZ, length_blocks_of, Hzt, Z.div_mul by done. done. }
  apply write_blocks_ext. apply block_of_write; lia.
Qed.

(** ** What extent writers promise *)

(** A writer that got the extents [es] of the file [f0] and then [data] has
    written [data] into the extents; at the end it may pad the data.  A call
    fails when a system call fails or when the data do not fit, and even then
    nothing but the extents has changed. *)
Section Promise.
Context `{Kernel}.

Record write_result (es : list Extent) (f0 data : list Z) {W} (at_data : W -> Prop) (r : option ()) (s : W * FileDescriptor) : Prop := {
  wr_fits : no_io_errors -> zlen data <= total es * kBlockSize -> r = Some ();
  wr_outside : same_outside (ExpandExtents es) f0 (fd_file (snd s));
  wr_done : r = Some () -> zlen data <= total es * kBlockSize /\ at_data (fst s) /\ fd_file (snd s) = fill_extents f0 es data;
}.

Class WriterOk (W : Type) `{ExtentWriter W} := {
  wr_new : W -> Prop;
  wr_at : W -> list Extent -> list Z -> Prop;
  wr_pad : list Z -> list Z;
  wr_pad_grows : forall data, zlen data <= zlen (wr_pad data);
  wr_init : forall w fd es n, wr_new w -> on_device n es -> returns (Init es kBlockSize) (w, fd) (fun r s => r = Some () /\ wr_at (fst s) es [] /\ snd s = fd);
  wr_write : forall w fd es f0 data bytes, wr_at w es data -> on_device (zlen f0) es -> zlen f0 < 2 ^ 63 -> fd_file fd = fill_extents f0 es data ->
    returns (Write bytes) (w, fd) (write_result es f0 (data ++ bytes) (fun w => wr_at w es (data ++ bytes)));
  wr_end : forall w fd es f0 data, wr_at w es data -> on_device (zlen f0) es -> zlen f0 < 2 ^ 63 -> fd_file fd = fill_extents f0 es data ->
    zlen data <= total es * kBlockSize -> returns End_ (w, fd) (write_result es f0 (wr_pad data) (fun _ => True));
}.
End Promise.

(** ** The direct writer *)

Section DirectOk.
Context `{KernelSafe}.

(** The position after [data]. *)
Record direct_at (w : DirectExtentWriter) (es : list Extent) (data : list Z) : Prop := {
  da_block_size : dw_block_size w = kBlockSize;
  da_extents : dw_extents w = es;
  da_data : zlen data = total (take (next_extent_index w) es) * kBlockSize + extent_bytes_written w;
  da_extent : forall e, es !! next_extent_index w = Some e -> 0 <= extent_bytes_written w < num_blocks e * kBlockSize;
  da_end : (length es <= next_extent_index w)%nat -> extent_bytes_written w = 0;
}.

Lemma extent_bytes n es i e : on_device n es -> n < 2 ^ 63 -> es !! i = Some e ->
  0 <= start_block e /\ 0 < num_blocks e /\ 0 <= start_block e * kBlockSize /\ 0 < num_blocks e * kBlockSize < 2 ^ 63
  /\ start_block e * kBlockSize + num_blocks e * kBlockSize <= n /\ start_block e <> kSparseHole.
Proof.
  intros Hes Hn Hi. destruct (Forall_lookup_1 _ _ _ _ Hes Hi) as [(? & ? & ?) ?]. unfold kBlockSize, kSparseHole in *. lia.
Qed.

Lemma direct_advance w n es data x e :
  direct_at w es data -> on_device n es -> n < 2 ^ 63 -> es !! next_extent_index w = Some e ->
  0 < zlen x <= num_blocks e * kBlockSize - extent_bytes_written w ->
  direct_at (if num_blocks e * kBlockSize - extent_bytes_written w =? zlen x
    then mkDirect kBlockSize 0 es (S (next_extent_index w))
    else mkDirect kBlockSize (extent_bytes_written w + zlen x) es (next_extent_index w)) es (data ++ x).
Proof.
  intros [Hbs Hex Hd He Hend] Hes Hn Hi Hx. specialize (He e Hi). destruct (Z.eqb_spec (num_blocks e * kBlockSize - extent_bytes_written w) (zlen x));
    split; cbn [dw_block_size dw_extents next_extent_index extent_bytes_written]; try done.
  - rewrite zlen_app, Hd, (take_S_r _ _ _ Hi), total_app. change (total [e]) with (num_blocks e + 0). lia.
  - intros e' He'. pose proof (extent_bytes _ _ _ _ Hes Hn He'). lia.
  - rewrite zlen_app, Hd. lia.
  - intros e' He'. rewrite Hi in He'. simplify_eq. lia.
  - intros Hl. apply lookup_lt_Some in Hi. lia.
Qed.

(** More bytes in the current extent. *)
Lemma direct_more w es data e y f0 :
  direct_at w es data -> on_device (zlen f0) es -> es !! next_extent_index w = Some e ->
  zlen y <= num_blocks e * kBlockSize - extent_bytes_written w ->
  write_at (fill_extents f0 es data) (start_block e * kBlockSize + extent_bytes_written w) y = fill_extents f0 es (data ++ y).
Proof.
  intros [_ _ Hd Hext _] Hes Hi Hy. specialize (Hext e Hi). apply list_elem_of_split_length in Hi as (pre & post & -> & Hl).
  rewrite Hl, take_app_length in Hd. symmetry. apply fill_extents_more; [done|done|lia|lia].
Qed.

(** One round writes some of the bytes. *)
Lemma direct_write_part_spec w fd es f0 data bytes :
  direct_at w es data -> on_device (zlen f0) es -> zlen f0 < 2 ^ 63 -> fd_file fd = fill_extents f0 es data -> bytes <> [] ->
  returns (direct_write_part bytes) (w, fd) (fun r s => same_outside (ExpandExtents es) f0 (fd_file (snd s))
    /\ (no_io_errors -> zlen data + zlen bytes <= total es * kBlockSize -> is_Some r)
    /\ forall n, r = Some n -> 0 < n <= zlen bytes /\ direct_at (fst s) es (data ++ take (Z.to_nat n) bytes)
         /\ fd_file (snd s) = fill_extents f0 es (data ++ take (Z.to_nat n) bytes)).
Proof.
  intros Hat Hes Hf0 Hfd Hne. pose proof Hat as [Hbs Hex Hd Hext Hend]. pose proof (fill_extents_outside f0 es data Hes) as Hout.
  assert (Hpos : 0 < zlen bytes) by (destruct bytes; [done|rewrite zlen_cons; pose proof (zlen_nonneg bytes); lia]).
  unfold direct_write_part. apply returns_bind. unfold returns at 1. cbn [io_get fst]. rewrite Hex, Hbs.
  destruct (es !! next_extent_index w) as [e|] eqn:Hi; cycle 1.
  { unfold returns, io_fail. cbn [snd]. rewrite Hfd. split_and!; [done| |done]. intros _ Hfit. apply lookup_ge_None in Hi. rewrite take_ge, Hend in Hd by done. lia. }
  destruct (extent_bytes _ _ _ _ Hes Hf0 Hi) as (Hs & Hn & Hsb & Hnb & Hin & Hhole). specialize (Hext e eq_refl).
  set (k := extent_bytes_written w) in *. rewrite (uint_small 64 (num_blocks e * kBlockSize - k)) by (unfold is_uint; lia).
  set (m := Z.min (zlen bytes) (num_blocks e * kBlockSize - k)). set (x := take (Z.to_nat m) bytes).
  assert (Hx : zlen x = m) by (apply zlen_take; lia).
  apply returns_bind, returns_check; [apply negb_true_iff, Z.eqb_neq; lia|]. apply returns_bind, returns_test; [|lia]. intros _.
  rewrite (proj2 (Z.eqb_neq _ _) Hhole). apply returns_bind, returns_bind, returns_on. unfold returns at 1. destruct fd as [f pos]. cbn [fd_file snd] in *. subst f.
  rewrite (uint_small 64) by (unfold is_uint; lia). rewrite Seek_spec by lia. apply returns_on. cbn [fst snd].
  eapply returns_mono; [apply WriteAll_spec; rewrite fill_extents_zlen by done; lia|]. intros r fd (j & Hj & -> & Hr & Hno). cbn [fst snd fd_file].
  rewrite (direct_more w es data e) by (done || (unfold zlen in *; rewrite length_take; fold k; lia)).
  destruct r as [[]|]; cycle 1.
  { split_and!; [by apply fill_extents_outside|intros He; by specialize (Hno He)|done]. }
  rewrite (Hr eq_refl), firstn_all2 by (unfold zlen; lia). pose proof (direct_advance w _ es data x e Hat Hes Hf0 Hi) as Hadv. fold k in Hadv.
  rewrite (uint_small 64 (k + m)), (uint_small 64 (num_blocks e * kBlockSize)) by (unfold is_uint; lia). rewrite Hx in Hadv. apply returns_bind.
  destruct (Z.eqb_spec (num_blocks e * kBlockSize - k) m) as [Em|Em]; [apply returns_bind, returns_check; [apply Z.eqb_eq; lia|]|];
    (apply returns_ret; cbn [fst snd fd_file]; split_and!; [by apply fill_extents_outside|by eexists|]; intros n [= <-]; split_and!; [lia|lia|apply Hadv; lia|done]).
Qed.

Lemma direct_at_fits w n es data : direct_at w es data -> on_device n es -> zlen data <= total es * kBlockSize.
Proof.
  intros [_ _ Hd Hext Hend] Hes%on_device_ok. destruct (es !! next_extent_index w) as [e|] eqn:Hi.
  - specialize (Hext e eq_refl). apply list_elem_of_split_length in Hi as (pre & post & -> & Hl). rewrite Hl, take_app_length in Hd.
    apply Forall_app in Hes as [_ [_ Hpost]%Forall_cons]. pose proof (total_nonneg post Hpost).
    rewrite total_app. change (total (e :: post)) with (num_blocks e + total post). unfold kBlockSize in *. lia.
  - apply lookup_ge_None in Hi. rewrite take_ge, Hend in Hd by done. lia.
Qed.

Lemma direct_write_spec fuel w fd es f0 data bytes :
  direct_at w es data -> on_device (zlen f0) es -> zlen f0 < 2 ^ 63 -> fd_file fd = fill_extents f0 es data ->
  (length bytes <= fuel)%nat ->
  returns (direct_write fuel bytes) (w, fd) (write_result es f0 (data ++ bytes) (fun w => direct_at w es (data ++ bytes))).
Proof.
  revert w fd data bytes. induction fuel as [|fuel IH]; intros w fd data bytes Hat Hes Hf0 Hfd Hfuel; destruct bytes as [|b bytes].
  1, 3: apply returns_ret; rewrite app_nil_r; split; cbn [fst snd]; rewrite ?Hfd; try done; [by apply fill_extents_outside|intros _; split_and!; [by eapply direct_at_fits|done|done]].
  { simpl in Hfuel. lia. }
  set (l := b :: bytes) in *. cbn [direct_write]. fold l. apply returns_bind.
  eapply returns_mono; [by apply (direct_write_part_spec w fd es f0 data l)|]. intros r [w' fd'] (Hout & Hok & Hn). cbn [fst snd] in *.
  destruct r as [n|].
  - destruct (Hn n eq_refl) as (Hn1 & Hat' & Hfd'). assert (Hz : zlen (take (Z.to_nat n) l) = n) by (apply zlen_take; lia).
    replace (data ++ l) with ((data ++ take (Z.to_nat n) l) ++ drop (Z.to_nat n) l) by (by rewrite <- app_assoc, take_drop).
    apply IH; try done. rewrite length_drop. unfold l in *. simpl in *. lia.
  - split; cbn [fst snd]; try done. intros He Hfit. rewrite zlen_app in Hfit. by destruct (Hok He Hfit).
Qed.

#[export] Instance DirectExtentWriter_ok : WriterOk DirectExtentWriter.
Proof.
  refine {| wr_new w := w = DirectExtentWriter_new; wr_at := direct_at; wr_pad data := data |}.
  - done.
  - intros w fd es n -> Hes. unfold returns. simpl. split_and!; [done| |done]. split; simpl; try done.
    intros e He. destruct (Forall_lookup_1 _ _ _ _ Hes He) as [(? & ? & _) _]. unfold kBlockSize. lia.
  - intros w fd es f0 data bytes Hat Hes Hf0 Hfd. by apply direct_write_spec.
  - intros w fd es f0 data Hat Hes Hf0 Hfd Hfit. apply returns_ret. split; cbn [fst snd]; rewrite ?Hfd; try done. by apply fill_extents_outside.
Defined.
End DirectOk.


(** ** Padding *)

Definition pad_block (data : list Z) : list Z :=
  data ++ (if zlen data mod kBlockSize =? 0 then [] else replicate (Z.to_nat (kBlockSize - zlen data mod kBlockSize)) 0).

Section ZeroPadOk.
Context `{Kernel} {W : Type} `{WriterOk W}.

Record padded_at (w : ZeroPadExtentWriter W) (es : list Extent) (data : list Z) : Prop := {
  pa_underlying : wr_at (zp_underlying w) es data;
  pa_block_size : zp_block_size w = kBlockSize;
  pa_written : bytes_written_mod_block_size w = zlen data mod kBlockSize;
}.

Lemma mod_block z : u64 z mod kBlockSize = z mod kBlockSize.
Proof. unfold uint. apply Z.mod_mod_divide. by exists (2 ^ 52). Qed.

#[export] Instance ZeroPadExtentWriter_ok : WriterOk (ZeroPadExtentWriter W).
Proof.
  refine {| wr_new w := wr_new (zp_underlying w) /\ bytes_written_mod_block_size w = 0; wr_at := padded_at; wr_pad data := wr_pad (pad_block data) |}.
  - intros data. rewrite <- wr_pad_grows. unfold pad_block. rewrite zlen_app. pose proof (zlen_nonneg (if zlen data mod kBlockSize =? 0 then [] else replicate (Z.to_nat (kBlockSize - zlen data mod kBlockSize)) 0)). lia.
  - intros [u bs m] fd es n [Hu Hm] Hes. simpl in Hm. subst m. unfold Init. simpl. apply returns_bind. unfold returns at 1. cbn [io_get].
    apply returns_bind. unfold returns at 1. cbn [set_padding io_modify]. apply returns_on. cbn [fst snd zp_underlying].
    eapply returns_mono; [by eapply wr_init|]. intros r [u' fd'] (-> & Hat & Hfd). cbn [fst snd] in *. split_and!; [done| |done]. by split.
  - intros w fd es f0 data bytes [Hu Hbs Hm] Hes Hf0 Hfd. unfold Write. simpl. apply returns_bind, returns_on. cbn [fst snd].
    eapply returns_mono; [by apply (wr_write _ _ es f0 data)|]. intros r [u' fd'] [Hfit Hout Hdone]. cbn [fst snd] in *. destruct r as [[]|].
    + apply returns_bind. unfold returns at 1. cbn [io_get]. unfold returns. cbn. split; cbn; try done. intros _. destruct (Hdone eq_refl) as (? & ? & ?).
      split_and!; try done. split; simpl; try done. rewrite Hbs, Hm, mod_block, zlen_app, Z.add_mod_idemp_l by done. done.
    + split; cbn; try done.
  - intros w fd es f0 data [Hu Hbs Hm] Hes Hf0 Hfd Hfit. unfold End_. simpl. apply returns_bind. unfold returns at 1. cbn [io_get fst]. rewrite Hbs, Hm.
    assert (Hlast : forall w' fd' data', wr_at (zp_underlying w') es data' -> fd_file fd' = fill_extents f0 es data' -> zlen data' <= total es * kBlockSize ->
      returns (on_underlying End_) (w', fd') (write_result es f0 (wr_pad data') (fun _ => True))).
    { intros w' fd' data' Hat' Hfd' Hfit'. apply returns_on. cbn [fst snd]. eapply returns_mono; [by apply (wr_end _ _ es f0 data')|].
      intros r [u'' fd''] [Hf Hout Hdone]. by split. }
    unfold pad_block. apply returns_bind. destruct (Z.eqb_spec (zlen data mod kBlockSize) 0) as [E|E].
    { apply returns_ret. rewrite app_nil_r. by apply Hlast. }
    apply returns_on. cbn [fst snd]. eapply returns_mono; [by apply (wr_write _ _ es f0 data)|]. intros r [u' fd'] [Hf Hout Hdone]. cbn [fst snd] in *.
    destruct r as [[]|]; [destruct (Hdone eq_refl) as (? & ? & ?); by apply Hlast|]. split; cbn [fst snd]; try done.
    intros He Hp. apply Hf; [done|]. etrans; [apply wr_pad_grows|done].
Defined.
End ZeroPadOk.

(** ** Compressed data *)

(** A decoder that undoes [decompress]: [decoding stream input out] says that
    the stream will turn the rest [input] of the data into [out].  While there
    is output left a call produces some, and the input is not used up before
    the last byte of output has been produced, since the formats end with a
    checksum. *)
Class StreamOk (d : StreamDecoder) (decompress : list Z -> option (list Z)) := {
  decoding : dec_stream d -> list Z -> list Z -> Prop;
  dec_start : forall data out, decompress data = Some out -> exists s, dec_init d = Some s /\ decoding s data out;
  dec_step : forall s input out room, decoding s input out -> 0 < room -> exists rc n piece s' out',
    dec_run d s input room = (rc, n, piece, s') /\ rc <> DEC_ERROR /\ 0 <= n <= zlen input /\ out = piece ++ out'
    /\ decoding s' (drop (Z.to_nat n) input) out' /\ (out <> [] -> piece <> []) /\ (out = [] \/ rc = DEC_STREAM_END -> n = zlen input)
    /\ (n = zlen input -> out' = []);
  dec_finish : forall s, decoding s [] [] -> dec_end d s = true;
}.

Section DecodingOk.
Context `{Kernel} {W : Type} `{WriterOk W} {d : StreamDecoder} {decompress} `{StreamOk d decompress}.
Abbreviation writer := (DecodingExtentWriter d W).

(** The writer has written [done] and will write [out]. *)
Definition decoding_at (w : writer) (es : list Extent) (done input out : list Z) : Prop :=
  wr_at (de_next w) es done /\ exists s, de_stream w = Some s /\ decoding s input out.

Lemma decode_loop_spec fuel w fd es f0 done input out :
  decoding_at w es done input out -> on_device (zlen f0) es -> zlen f0 < 2 ^ 63 -> fd_file fd = fill_extents f0 es done ->
  zlen done <= total es * kBlockSize -> (Z.to_nat (total es * kBlockSize - zlen done) + 1 < fuel)%nat ->
  returns (decode_loop fuel input) (w, fd) (fun r s => (no_io_errors -> zlen (done ++ out) <= total es * kBlockSize -> is_Some r)
    /\ same_outside (ExpandExtents es) f0 (fd_file (snd s))
    /\ forall rest, r = Some rest -> rest = [] /\ zlen (done ++ out) <= total es * kBlockSize
         /\ decoding_at (fst s) es (done ++ out) [] [] /\ fd_file (snd s) = fill_extents f0 es (done ++ out)).
Proof.
  revert w fd done input out. induction fuel as [|fuel IH]; intros w fd done input out (Hat & s & Hs & Hdec) Hes Hf0 Hfd Hfit Hfuel; [lia|].
  cbn [decode_loop]. apply returns_bind. unfold returns at 1. cbn [io_get fst]. rewrite Hs.
  destruct (dec_step s input out kOutputBufferLength Hdec) as (rc & n & piece & s' & out' & -> & Hrc & Hn & -> & Hdec' & Hpiece & Hall & Hend); [done|].
  apply returns_bind. unfold returns at 1. cbn [set_stream io_modify fst snd]. set (w1 := mkDecoding _ _ _ _).
  assert (Hnil : n = zlen input -> drop (Z.to_nat n) input = []) by (intros ->; apply drop_ge; unfold zlen; lia).
  apply returns_bind, returns_test; [intros _|intros E; by rewrite bool_decide_false in E]. case_bool_decide as Ep.
  { subst piece. assert (out' = []) as -> by (destruct out' as [|x out']; [done|]; exfalso; by apply Hpiece).
    specialize (Hnil (Hall (or_introl eq_refl))). rewrite Hnil in *. apply returns_ret. cbn [fst snd]. rewrite !app_nil_r, Hfd.
    split_and!; [by eexists|by apply fill_extents_outside|]. intros rest [= <-]. split_and!; try done. split; [done|by exists s']. }
  apply returns_bind, returns_on. cbn [fst snd]. eapply returns_mono; [by apply (wr_write (de_next w1) fd es f0 done piece)|].
  intros r [u fd1] [Hfit1 Hout1 Hdone1]. cbn [fst snd] in *. destruct r as [[]|]; cycle 1.
  { split_and!; [|done|done]. intros He Hz. rewrite app_assoc, zlen_app in Hz. pose proof (zlen_nonneg out'). by specialize (Hfit1 He ltac:(lia)). }
  destruct (Hdone1 eq_refl) as (Hz1 & Hat1 & Hfd1). apply returns_bind, returns_check.
  { destruct (decide (rc = DEC_STREAM_END)) as [E|E]; [|by rewrite (bool_decide_false _ E)]. rewrite (bool_decide_true (drop _ _ = [])); [by apply orb_true_r|auto]. }
  rewrite app_assoc. set (w2 := mkDecoding _ _ _ _). assert (Hat2 : decoding_at w2 es (done ++ piece) (drop (Z.to_nat n) input) out') by (split; [done|by exists s']).
  case_bool_decide as Er.
  - assert (out' = []) as ->. { apply Hend. apply (f_equal zlen) in Er. rewrite zlen_drop in Er by done. unfold zlen in Er at 2. simpl in Er. lia. }
    apply returns_ret. rewrite app_nil_r, Er in *. cbn [fst snd]. split_and!; [by eexists|done|]. by intros rest [= <-].
  - apply IH; try done. assert (0 < zlen piece) by (destruct piece; [done|rewrite zlen_cons; pose proof (zlen_nonneg piece); lia]).
    rewrite zlen_app in *. lia.
Qed.

Lemma decoding_init_spec w fd es n data out :
  decompress data = Some out -> on_device n es -> wr_new (de_next w) ->
  returns (Init es kBlockSize) (w, fd) (fun r s => r = Some () /\ decoding_at (fst s) es [] data out
    /\ de_rounds (fst s) = S (S (Z.to_nat (total es * kBlockSize))) /\ de_input_buffer (fst s) = de_input_buffer w /\ snd s = fd).
Proof.
  intros Hdec Hes Hnew. destruct (dec_start _ _ Hdec) as (s & Hs & Hat). unfold Init. simpl. unfold decoding_init. rewrite Hs.
  apply returns_bind. unfold returns at 1. cbn [io_modify fst snd]. apply returns_on. cbn [fst snd de_next].
  eapply returns_mono; [by eapply wr_init|]. intros r [u fd'] (-> & Hu & Hfd). cbn [fst snd] in *. subst fd'. split_and!; try done. split; [done|by exists s].
Qed.
End DecodingOk.

(** ** The data of an operation *)

(** The writer that is set up for an operation gets all its data at once. *)
Definition write_operation {W} `{ExtentWriter W} (w : W) (es : list Extent) (block_size : Z) (data : list Z) : io FileDescriptor () := fun fd =>
  match (_ ← Init es block_size; _ ← Write data; End_) (w, fd) with
  | Ret (r, s) => Ret (r, snd s)
  | Fail => Fail
  | Abort => Abort
  end.

(** [out] is what ends up in the extents. *)
Definition writes_out `{Kernel} (es : list Extent) (f out : list Z) (r : option ()) (fd : FileDescriptor) : Prop :=
  (no_io_errors -> zlen out <= total es * kBlockSize -> r = Some ()) /\ same_outside (ExpandExtents es) f (fd_file fd)
  /\ (r = Some () -> fd_file fd = fill_extents f es out).

Lemma write_operation_returns {W} `{ExtentWriter W} (w : W) es block_size data fd Q :
  returns (_ ← Init es block_size; _ ← Write data; End_) (w, fd) (fun r s => Q r (snd s)) -> returns (write_operation w es block_size data) fd Q.
Proof.
  unfold returns, write_operation. set (m := (_ ≫= _ : io (W * FileDescriptor) ())). by destruct (m (w, fd)) as [[r s]| |].
Qed.

Lemma write_plain `{Kernel} {W} `{WriterOk W} (w : W) es f pos data :
  wr_new w -> on_device (zlen f) es -> zlen f < 2 ^ 63 ->
  returns (write_operation w es kBlockSize data) (mkFd f pos) (writes_out es f (wr_pad data)).
Proof.
  intros Hw Hes Hf. apply write_operation_returns, returns_bind. eapply returns_mono; [by eapply wr_init|]. intros r [w1 fd1] (-> & Hat & Hfd1).
  cbn [fst snd] in *. subst fd1. apply returns_bind. eapply returns_mono.
  { apply (wr_write w1 _ es f []); [done|done|done|]. by rewrite fill_extents_nil. }
  intros r [w2 fd2] [Hfit Hout Hdone]. rewrite app_nil_l in *. cbn [fst snd] in *. pose proof (wr_pad_grows data) as Hg. destruct r as [[]|].
  - destruct (Hdone eq_refl) as (Hz & Hat2 & Hfd2). eapply returns_mono; [by apply (wr_end w2 fd2 es f data)|].
    intros r [w3 fd3] [Hfit3 Hout3 Hdone3]. split_and!; [done..|]. intros Hr. by apply Hdone3.
  - split_and!; [|done|done]. intros He Hz. apply Hfit; [done|lia].
Qed.

Lemma write_decoded `{Kernel} {W} `{WriterOk W} (d : StreamDecoder) decompress `{StreamOk d decompress} (w : W) es f pos data out :
  wr_new w -> on_device (zlen f) es -> zlen f < 2 ^ 63 -> decompress data = Some out ->
  returns (write_operation (DecodingExtentWriter_new w : DecodingExtentWriter d W) es kBlockSize data) (mkFd f pos) (writes_out es f (wr_pad out)).
Proof.
  intros Hw Hes Hf Hdec. apply write_operation_returns, returns_bind. eapply returns_mono; [by eapply decoding_init_spec|].
  intros r [w1 fd1] (-> & Hat & Hr & Hb & Hfd1). cbn [fst snd] in *. subst fd1. cbn in Hb. apply returns_bind. unfold Write at 1. simpl. unfold decoding_write.
  apply returns_bind. unfold returns at 1. cbn [io_get fst]. rewrite Hb, Hr, app_nil_l. apply returns_bind.
  pose proof (total_nonneg es (on_device_ok _ _ Hes)) as Ht. eapply returns_mono.
  { eapply (decode_loop_spec _ w1 _ es f [] data out); [done|done|done|by rewrite fill_extents_nil|unfold zlen, kBlockSize; simpl; lia|].
    change (zlen []) with 0. rewrite Z.sub_0_r. lia. }
  intros r [w2 fd2] (Hfit & Hout & Hdone). rewrite app_nil_l in *. cbn [fst snd] in *. pose proof (wr_pad_grows out) as Hg. destruct r as [rest|].
  - destruct (Hdone rest eq_refl) as (-> & Hz & (Hat2 & s & Hs & Hd2) & Hfd2). unfold returns at 1. cbn [set_input_buffer io_modify fst snd].
    unfold End_. simpl. apply returns_bind. unfold returns at 1. cbn [io_get fst de_input_buffer de_stream]. rewrite Hs.
    apply returns_bind, returns_test; [intros _|done]. apply returns_bind, returns_test; [intros _|intros E; by rewrite dec_finish in E].
    apply returns_on. cbn [fst snd de_next]. eapply returns_mono; [by apply (wr_end (de_next w2) fd2 es f out)|].
    intros r [w3 fd3] [Hfit3 Hout3 Hdone3]. split_and!; [done..|]. intros E. by apply Hdone3.
  - split_and!; [|done|done]. intros He Hz. destruct Hfit as [? ?]; [done|lia|done].
Qed.
