(* ===== verification/UpdateManifest.v ===== *)
(** * UpdateManifest: the payload format and the state of an installation

    The messages of update_metadata.proto, the install plan of
    payload_consumer/install_plan.h and the interfaces of the code around the
    payload: serialization of messages, SHA-256, preferences and the boot
    control.  Generated and external code is given as classes; a class with
    the suffix [Ok] states what is relied on. *)
From stdpp Require Import strings.
From S2P Require Import Prelude UpdateExtents UpdateGraph UpdateInplace.
From S2P Require Import UpdateFile UpdateBlocks UpdateDelta UpdateFilesystem UpdateConfig UpdateAB.

(** ** Messages *)

Record PartitionInfo := mkInfo { info_size : option Z; info_hash : option (list Z) }.

(** [new_partition_signature] is neither written nor read. *)
Record PartitionUpdate := mkUpdate {
  partition_name : string;
  run_postinstall : option bool;
  pu_postinstall_path : option string;
  pu_filesystem_type : option string;
  old_partition_info : option PartitionInfo;
  new_partition_info : option PartitionInfo;
  operations : list InstallOperation;
  pu_postinstall_optional : option bool;
}.

Record DeltaArchiveManifest := mkManifest {
  install_operations : list InstallOperation;
  kernel_install_operations : list InstallOperation;
  manifest_block_size : option Z;
  signatures_offset : option Z;
  signatures_size : option Z;
  old_kernel_info : option PartitionInfo;
  new_kernel_info : option PartitionInfo;
  old_rootfs_info : option PartitionInfo;
  new_rootfs_info : option PartitionInfo;
  old_image_info : option ImageInfo;
  new_image_info : option ImageInfo;
  minor_version : option Z;
  manifest_partitions : list PartitionUpdate;
  manifest_max_timestamp : option Z;
}.

(** The required fields of the messages are set. *)
Definition IsInitialized (m : DeltaArchiveManifest) : bool :=
  forallb (fun op => bool_decide (is_Some (op_type op)))
    (install_operations m ++ kernel_install_operations m ++ (manifest_partitions m ≫= operations)).

(** The generated code for the manifest. *)
Class Protobuf := {
  AppendToString : DeltaArchiveManifest -> option (list Z);
  ParseFromArray : list Z -> option DeltaArchiveManifest;
}.

Class ProtobufOk `{Protobuf} : Prop := {
  parse_append : forall m data, IsInitialized m = true -> AppendToString m = Some data -> ParseFromArray data = Some m;
  append_size : forall m data, AppendToString m = Some data -> zlen data < 2 ^ 31;
}.

(** ** Header *)

Definition kDeltaMagic : list Z := [67; 114; 65; 85].

(** [htobe64] and [htobe32] as the bytes in memory, and back. *)
Fixpoint big_endian (n : nat) (value : Z) : list Z :=
  match n with O => [] | S n => (value / 256 ^ Z.of_nat n) mod 256 :: big_endian n value end.

Definition from_big_endian (bytes : list Z) : Z := fold_left (fun v b => v * 256 + b) bytes 0.

(** ** SHA-256 *)

(** The context of OpenSSL, which the calculator can store and restore. *)
Class Sha256 := {
  sha_ctx : Type;
  sha_init : sha_ctx;
  sha_update : sha_ctx -> list Z -> sha_ctx;
  sha_final : sha_ctx -> list Z;
  ctx_bytes : sha_ctx -> list Z;
  ctx_of_bytes : list Z -> option sha_ctx;
}.

Class Sha256Ok `{Sha256} : Prop := {
  sha_update_app : forall c a b, sha_update (sha_update c a) b = sha_update c (a ++ b);
  sha_update_nil : forall c, sha_update c [] = c;
  sha_final_size : forall c, zlen (sha_final c) = 32;
  ctx_roundtrip : forall c, ctx_of_bytes (ctx_bytes c) = Some c;
}.

(** [HashCalculator]; the calls of OpenSSL do not fail. *)
Record HashCalculator `{Sha256} := mkCalculator { ctx_ : sha_ctx; raw_hash_ : list Z }.

Definition HashCalculator_new `{Sha256} : HashCalculator := mkCalculator _ sha_init [].

Definition Update `{Sha256} (data : list Z) (c : HashCalculator) : HashCalculator :=
  if bool_decide (raw_hash_ c = []) then mkCalculator _ (sha_update (ctx_ c) data) [] else c.

Definition Finalize `{Sha256} (c : HashCalculator) : HashCalculator :=
  if bool_decide (raw_hash_ c = []) then mkCalculator _ (ctx_ c) (sha_final (ctx_ c)) else c.

Definition SetContext `{Sha256} (context : list Z) (c : HashCalculator) : option HashCalculator :=
  (fun ctx => mkCalculator _ ctx (raw_hash_ c)) <$> ctx_of_bytes context.

Definition sha256 `{Sha256} (data : list Z) : list Z := sha_final (sha_update sha_init data).

#[export] Instance sha256_hash `{Sha256} : Hash := fun data => Some (sha256 data).

(** ** Preferences *)

(** [PrefsInterface] *)
Class Prefs := {
  prefs_store : Type;
  GetString : string -> prefs_store -> option (list Z);
  SetString : string -> list Z -> prefs_store -> bool * prefs_store;
  GetInt64 : string -> prefs_store -> option Z;
  SetInt64 : string -> Z -> prefs_store -> bool * prefs_store;
}.

(** ** Install plan *)

Inductive InstallPayloadType := kUnknown | kFull | kDelta.

#[export] Instance InstallPayloadType_eq_dec : EqDecision InstallPayloadType.
Proof. solve_decision. Defined.

Record Payload := mkPayload {
  pl_size : Z;
  pl_metadata_size : Z;
  pl_metadata_signature : list Z;
  pl_hash : list Z;
  pl_type : InstallPayloadType;
  pl_already_applied : bool;
}.

Record InstallPartition := mkInstallPartition {
  ip_name : string;
  ip_source_path : string;
  ip_source_size : Z;
  ip_source_hash : list Z;
  ip_target_path : string;
  ip_target_size : Z;
  ip_target_hash : list Z;
  ip_run_postinstall : bool;
  ip_postinstall_path : string;
  ip_filesystem_type : string;
  ip_postinstall_optional : bool;
}.

Record InstallPlan := mkPlan {
  source_slot : Z;
  target_slot : Z;
  plan_partitions : list InstallPartition;
  hash_checks_mandatory : bool;
  public_key_rsa : list Z;
}.

Definition kInvalidSlot : Z := 2 ^ 32 - 1.

(** [BootControlInterface::GetPartitionDevice] *)
Class BootControl := GetPartitionDevice : string -> Z -> option string.

Section Plan.
Context `{BootControl}.

(** The path of a partition on a slot; a path is kept when it cannot be determined. *)
Definition slot_path (name : string) (slot : Z) (path : string) : bool * string :=
  if negb (slot =? kInvalidSlot) then
    match GetPartitionDevice name slot with Some device => (true, device) | None => (false, path) end
  else (true, "").

Definition load_partition (p : InstallPartition) (source target : string) : InstallPartition :=
  mkInstallPartition (ip_name p) source (ip_source_size p) (ip_source_hash p) target (ip_target_size p) (ip_target_hash p)
    (ip_run_postinstall p) (ip_postinstall_path p) (ip_filesystem_type p) (ip_postinstall_optional p).

Fixpoint load_partitions (source target : Z) (ps : list InstallPartition) : bool * list InstallPartition :=
  match ps with
  | [] => (true, [])
  | p :: ps =>
      let '(ok1, source_path) := slot_path (ip_name p) source (ip_source_path p) in
      let '(ok2, target_path) := slot_path (ip_name p) target (ip_target_path p) in
      let '(ok, ps) := load_partitions source target ps in
      (ok1 && ok2 && ok, load_partition p source_path target_path :: ps)
  end.

Definition LoadPartitionsFromSlots (plan : InstallPlan) : bool * InstallPlan :=
  let '(ok, ps) := load_partitions (source_slot plan) (target_slot plan) (plan_partitions plan) in
  (ok, mkPlan (source_slot plan) (target_slot plan) ps (hash_checks_mandatory plan) (public_key_rsa plan)).
End Plan.

(** ** Lemmas *)

Lemma length_big_endian n v : length (big_endian n v) = n.
Proof. induction n; simpl; auto. Qed.

Lemma big_endian_roundtrip n v : 0 <= v < 256 ^ Z.of_nat n -> from_big_endian (big_endian n v) = v.
Proof.
  unfold from_big_endian. assert (Hgen : forall n acc, 0 <= v -> fold_left (fun v b => v * 256 + b) (big_endian n v) acc
    = acc * 256 ^ Z.of_nat n + v mod 256 ^ Z.of_nat n).
  { clear n. induction n as [|n IH]; intros acc Hv; [change (256 ^ Z.of_nat 0) with 1; rewrite Z.mod_1_r; simpl; lia|].
    cbn [big_endian fold_left]. rewrite IH by done. rewrite Nat2Z.inj_succ, Z.pow_succ_r by lia.
    rewrite (Z.mul_comm 256), Z.rem_mul_r by (apply Z.pow_nonzero || done; lia). lia. }
  intros Hv. rewrite Hgen by lia. rewrite Z.mod_small by lia. lia.
Qed.
