(* ===== verification/UpdatePerform.v ===== *)
(** * UpdatePerform: operations on the device

    The operations of payload_consumer/delta_performer.cc on the partitions of
    the device.  The files of the device are a map from paths to contents that
    descriptors refer to, so that descriptors of the same file share it.
    libbsdiff, the stream decoders and the ioctls of block devices are classes. *)
From stdpp Require Import strings gmap pretty.
From S2P Require Import Prelude UpdateExtents UpdateGraph UpdateViews UpdateInplace UpdateRun UpdateFile.
From S2P Require Import UpdateBlocks UpdateDelta UpdateApply UpdateChunks UpdateAB UpdateWriter UpdateManifest.

Inductive ErrorCode :=
| kSuccess | kError | kPayloadMismatchedType | kInstallDeviceOpenError | kPayloadHashMismatchError | kPayloadSizeMismatchError
| kDownloadPayloadVerificationError | kDownloadNewPartitionInfoError | kSignedDeltaPayloadExpectedError
| kDownloadPayloadPubKeyVerificationError | kDownloadStateInitializationError | kDownloadInvalidMetadataMagicString
| kDownloadManifestParseError | kDownloadMetadataSignatureError | kDownloadMetadataSignatureVerificationError
| kDownloadMetadataSignatureMismatch | kDownloadOperationHashVerificationError | kDownloadOperationExecutionError
| kDownloadOperationHashMismatch | kDownloadInvalidMetadataSize | kDownloadOperationHashMissingError
| kDownloadMetadataSignatureMissingError | kUnsupportedMajorPayloadVersion | kUnsupportedMinorPayloadVersion | kPayloadTimestampError
| kNewRootfsVerificationError | kFilesystemVerifierError.

#[export] Instance ErrorCode_eq_dec : EqDecision ErrorCode.
Proof. solve_decision. Defined.

(** ** External code *)

Class Streams := { bzip2_stream : StreamDecoder; xz_stream : StreamDecoder }.

(** [bsdiff::bspatch old new patch old_positions new_positions]: the result and
    the new file. *)
Class Bspatch := bsdiff_bspatch : list Z -> list Z -> list Z -> string -> string -> Z * list Z.

Inductive BlkRequest := BLKZEROOUT | BLKDISCARD | BLKSECDISCARD.

(** [blk_ioctl request file start length]: the result and the file;
    [fcntl_ok]: getting the flags, setting and removing O_DIRECT succeed. *)
Class BlockDevice := {
  block_dev_size : list Z -> Z;
  discard_zeroes : list Z -> bool;
  fcntl_ok : bool * bool * bool;
  blk_ioctl : BlkRequest -> list Z -> Z -> Z -> Z * list Z;
}.

(** [EintrSafeFileDescriptor::BlkIoctl] *)
Definition BlkIoctl `{BlockDevice} (request : BlkRequest) (start length : Z) : io FileDescriptor Z := fun fd =>
  let request := match request with BLKZEROOUT => if discard_zeroes (fd_file fd) then BLKDISCARD else BLKZEROOUT | r => r end in
  let '(get_ok, set_ok, remove_ok) := fcntl_ok in
  if negb (get_ok && set_ok) then Ret (None, fd) else
  let '(result, file) := blk_ioctl request (fd_file fd) start length in
  Ret (if remove_ok then Some result else None, mkFd file (fd_pos fd)).

(** ** State *)

(** The files of the device, and path and position of the open descriptors. *)
Record Slots := mkSlots {
  disk : gmap string (list Z);
  source_fd_ : option (string * Z);
  target_fd_ : option (string * Z);
}.

Record Download `{Sha256} := mkDownload {
  buffer_ : list Z;
  buffer_offset_ : Z;
  payload_hash_calculator_ : HashCalculator;
  signed_hash_calculator_ : HashCalculator;
  signatures_message_data_ : list Z;
}.

Record Metadata := mkMetadata {
  manifest_ : DeltaArchiveManifest;
  manifest_valid_ : bool;
  metadata_size_ : Z;
  manifest_size_ : Z;
  metadata_signature_size_ : Z;
  major_payload_version_ : Z;
}.

Record Progress := mkProgress {
  partitions_ : list PartitionUpdate;
  acc_num_operations_ : list nat;
  num_total_operations_ : nat;
  current_partition_ : nat;
  next_operation_num_ : nat;
  last_updated_buffer_offset_ : Z;
  block_size_ : Z;
}.

(** The counters for the log are left out. *)
Record DeltaPerformer `{Sha256} `{Prefs} := mkPerformer {
  slots : Slots;
  download : Download;
  metadata : Metadata;
  progress : Progress;
  prefs_ : prefs_store;
  install_plan_ : InstallPlan;
  payload_ : Payload;
  error_ : ErrorCode;
}.

Section Performer.
Context `{Kernel} `{Sha256} `{Prefs} `{Streams} `{Bspatch} `{BlockDevice}.
Implicit Types (s : DeltaPerformer) (operation : InstallOperation).

Definition set_slots (x : Slots) s : DeltaPerformer :=
  mkPerformer _ _ x (download s) (metadata s) (progress s) (prefs_ s) (install_plan_ s) (payload_ s) (error_ s).
Definition set_download (x : Download) s : DeltaPerformer :=
  mkPerformer _ _ (slots s) x (metadata s) (progress s) (prefs_ s) (install_plan_ s) (payload_ s) (error_ s).
Definition set_metadata (x : Metadata) s : DeltaPerformer :=
  mkPerformer _ _ (slots s) (download s) x (progress s) (prefs_ s) (install_plan_ s) (payload_ s) (error_ s).
Definition set_progress (x : Progress) s : DeltaPerformer :=
  mkPerformer _ _ (slots s) (download s) (metadata s) x (prefs_ s) (install_plan_ s) (payload_ s) (error_ s).
Definition set_prefs (x : prefs_store) s : DeltaPerformer :=
  mkPerformer _ _ (slots s) (download s) (metadata s) (progress s) x (install_plan_ s) (payload_ s) (error_ s).
Definition set_plan (x : InstallPlan) s : DeltaPerformer :=
  mkPerformer _ _ (slots s) (download s) (metadata s) (progress s) (prefs_ s) x (payload_ s) (error_ s).
Definition set_payload (x : Payload) s : DeltaPerformer :=
  mkPerformer _ _ (slots s) (download s) (metadata s) (progress s) (prefs_ s) (install_plan_ s) x (error_ s).
Definition set_error (x : ErrorCode) s : DeltaPerformer :=
  mkPerformer _ _ (slots s) (download s) (metadata s) (progress s) (prefs_ s) (install_plan_ s) (payload_ s) x.

(** Calls on the descriptors; a descriptor that is not open cannot be used. *)
Definition on_target {A} (m : io FileDescriptor A) : io DeltaPerformer A := fun s =>
  match target_fd_ (slots s) with
  | None => Abort
  | Some (path, pos) =>
      match disk (slots s) !! path with
      | None => Abort
      | Some file =>
          match m (mkFd file pos) with
          | Ret (r, fd) => Ret (r, set_slots (mkSlots (<[path := fd_file fd]> (disk (slots s))) (source_fd_ (slots s)) (Some (path, fd_pos fd))) s)
          | Fail => Fail
          | Abort => Abort
          end
      end
  end.

Definition on_source {A} (m : io FileDescriptor A) : io DeltaPerformer A := fun s =>
  match source_fd_ (slots s) with
  | None => Abort
  | Some (path, pos) =>
      match disk (slots s) !! path with
      | None => Abort
      | Some file =>
          match m (mkFd file pos) with
          | Ret (r, fd) => Ret (r, set_slots (mkSlots (<[path := fd_file fd]> (disk (slots s))) (Some (path, fd_pos fd)) (target_fd_ (slots s))) s)
          | Fail => Fail
          | Abort => Abort
          end
      end
  end.

Definition discard (do_advance_offset : bool) (signed_hash_buffer_size : Z) (d : Download) : Download :=
  mkDownload _ [] (if do_advance_offset then u64 (buffer_offset_ d + zlen (buffer_ d)) else buffer_offset_ d)
    (Update (buffer_ d) (payload_hash_calculator_ d))
    (Update (take (Z.to_nat signed_hash_buffer_size) (buffer_ d)) (signed_hash_calculator_ d))
    (signatures_message_data_ d).

Definition DiscardBuffer (do_advance_offset : bool) (signed_hash_buffer_size : Z) : io DeltaPerformer () :=
  io_modify (fun s => set_download (discard do_advance_offset signed_hash_buffer_size (download s)) s).

(** ** Signatures *)

Definition kPrefsUpdateStateSignatureBlob : string := "update-state-signature-blob".

(** Whether the message was extracted. *)
Definition ExtractSignatureMessage : io DeltaPerformer bool := fun s =>
  let d := download s in
  let offset := default 0 (signatures_offset (manifest_ (metadata s))) in
  let size := default 0 (signatures_size (manifest_ (metadata s))) in
  if negb (bool_decide (signatures_message_data_ d = [])) || negb (buffer_offset_ d =? offset) || (zlen (buffer_ d) <? size)
  then Ret (Some false, s)
  else
    let message := take (Z.to_nat size) (buffer_ d) in
    let s := set_download (mkDownload _ (buffer_ d) (buffer_offset_ d) (payload_hash_calculator_ d) (signed_hash_calculator_ d) message) s in
    Ret (Some true, set_prefs (snd (SetString kPrefsUpdateStateSignatureBlob message (prefs_ s))) s).

Definition ExtractSignatureMessageFromOperation operation : io DeltaPerformer bool :=
  s ← io_get;
  let m := manifest_ (metadata s) in
  if negb (bool_decide (type_of operation = REPLACE)) || negb (bool_decide (is_Some (signatures_offset m)))
     || negb (default 0 (signatures_offset m) =? default 0 (data_offset operation))
  then mret false
  else if negb (bool_decide (is_Some (signatures_size m)) && (default 0 (signatures_size m) =? default 0 (data_length operation)))
  then mret false
  else ExtractSignatureMessage.

(** ** Data *)

(** The data of the operation are at the start of the buffer. *)
Definition data_at_front operation : io DeltaPerformer () :=
  s ← io_get;
  _ ← test_that (buffer_offset_ (download s) =? default 0 (data_offset operation));
  test_that (default 0 (data_length operation) <=? zlen (buffer_ (download s))).

Definition direct_writer : ZeroPadExtentWriter DirectExtentWriter := ZeroPadExtentWriter_new DirectExtentWriter_new.

Definition PerformReplaceOperation operation : io DeltaPerformer () :=
  _ ← io_check (IsAReplaceOperation (type_of operation));
  _ ← data_at_front operation;
  extracted ← ExtractSignatureMessageFromOperation operation;
  if (extracted : bool) then DiscardBuffer true 0 else
  s ← io_get;
  let data := take (Z.to_nat (default 0 (data_length operation))) (buffer_ (download s)) in
  let block_size := block_size_ (progress s) in
  _ ← on_target
        (match type_of operation with
         | REPLACE_BZ => write_operation (DecodingExtentWriter_new direct_writer : DecodingExtentWriter bzip2_stream _) (dst_extents operation) block_size data
         | REPLACE_XZ => write_operation (DecodingExtentWriter_new direct_writer : DecodingExtentWriter xz_stream _) (dst_extents operation) block_size data
         | _ => write_operation direct_writer (dst_extents operation) block_size data
         end);
  DiscardBuffer true (zlen (buffer_ (download s))).

(** ** Zeros *)

(** Writes zeros in pieces of 16 blocks. *)
Fixpoint zero_loop (fuel : nat) (size start length offset : Z) : io DeltaPerformer () :=
  if offset <? length then
    match fuel with
    | O => fun _ => Abort
    | S fuel =>
        let chunk_length := Z.min (length - offset) size in
        _ ← on_target (fd_PWriteAll (replicate (Z.to_nat chunk_length) 0) (u64 (start + offset)));
        zero_loop fuel size start length (u64 (offset + size))
    end
  else mret ().

(** The body of the loop over the extents; whether the ioctl is still tried. *)
Definition zero_extent (request : BlkRequest) (block_size : Z) (attempt_ioctl : bool) (extent : Extent) : io DeltaPerformer bool :=
  let start := u64 (start_block extent * block_size) in
  let length := u64 (num_blocks extent * block_size) in
  result ← (if attempt_ioctl then io_try (on_target (BlkIoctl request start length)) else mret None);
  if bool_decide (result = Some 0) then mret true else
  let size := 16 * block_size in
  _ ← zero_loop (S (Z.to_nat (length / size))) size start length 0;
  mret false.

Definition PerformZeroOrDiscardOperation operation : io DeltaPerformer () :=
  _ ← io_check (match type_of operation with DISCARD | ZERO => true | _ => false end);
  _ ← test_that (bool_decide (data_offset operation = None));
  _ ← test_that (bool_decide (data_length operation = None));
  s ← io_get;
  let request := if bool_decide (type_of operation = ZERO) then BLKZEROOUT else BLKDISCARD in
  _ ← io_fold (zero_extent request (block_size_ (progress s))) (dst_extents operation) true;
  mret ().

(** ** Moves *)

Definition GetBlockCount (extents : list Extent) : Z := fold_left (fun sum ext => u64 (sum + num_blocks ext)) extents 0.

(** The blocks read so far and those of [extent].  The buffer has
    [room] bytes; reading past its end is an error the code does not check. *)
Definition move_read (block_size room : Z) (buf : list Z) (extent : Extent) : io DeltaPerformer (list Z) :=
  let bytes := u64 (num_blocks extent * block_size) in
  _ ← test_that (negb (start_block extent =? kSparseHole));
  _ ← io_check (zlen buf + bytes <=? room);
  data ← on_target (fd_PReadAll bytes (u64 (start_block extent * block_size)));
  _ ← test_that (zlen data =? bytes);
  mret (buf ++ data).

(** The rest of the buffer after the part for [extent]. *)
Definition move_write (block_size : Z) (buf : list Z) (extent : Extent) : io DeltaPerformer (list Z) :=
  let bytes := u64 (num_blocks extent * block_size) in
  _ ← test_that (negb (start_block extent =? kSparseHole));
  _ ← on_target (fd_PWriteAll (take (Z.to_nat bytes) buf) (u64 (start_block extent * block_size)));
  mret (drop (Z.to_nat bytes) buf).

Definition PerformMoveOperation operation : io DeltaPerformer () :=
  s ← io_get;
  let block_size := block_size_ (progress s) in
  let room := u64 (GetBlockCount (dst_extents operation) * block_size) in
  buf ← io_fold (move_read block_size room) (src_extents operation) [];
  _ ← io_fold (move_write block_size) (dst_extents operation) (buf ++ replicate (Z.to_nat (room - zlen buf)) 0);
  mret ().

(** ** Copies from the source slot *)

Definition ExtentsToBlocks (extents : list Extent) : list Z :=
  extents ≫= fun ext => (fun j => u64 (start_block ext + j)) <$> seqZ 0 (num_blocks ext).

Definition ValidateSourceHash (calculated_hash : list Z) operation : io DeltaPerformer () :=
  if bool_decide (calculated_hash = default [] (src_sha256_hash operation)) then mret ()
  else _ ← io_modify (set_error kDownloadStateInitializationError); io_fail.

Definition has_src_sha256_hash operation : bool := bool_decide (is_Some (src_sha256_hash operation)).

(** A length, if there is one, has to be a multiple of the block size. *)
Definition whole_blocks (block_size : Z) (length : option Z) : io DeltaPerformer () :=
  match length with
  | None => mret ()
  | Some n => _ ← io_check (negb (block_size =? 0)); test_that (n mod block_size =? 0)
  end.

(** One block, which is written before it is known to be complete. *)
Definition copy_block (block_size : Z) (hashed : bool) (acc : list Z * sha_ctx) (blocks : Z * Z) : io DeltaPerformer (list Z * sha_ctx) :=
  data ← on_source (fd_PReadAll block_size (u64 (fst blocks * block_size)));
  let buf := data ++ drop (length data) (fst acc) in
  _ ← on_target (fd_PWriteAll buf (u64 (snd blocks * block_size)));
  _ ← test_that (zlen data =? block_size);
  mret (buf, if hashed then sha_update (snd acc) buf else snd acc).

Definition PerformSourceCopyOperation operation : io DeltaPerformer () :=
  s ← io_get;
  let block_size := block_size_ (progress s) in
  _ ← whole_blocks block_size (src_length operation);
  _ ← whole_blocks block_size (dst_length operation);
  _ ← test_that (GetBlockCount (dst_extents operation) =? GetBlockCount (src_extents operation));
  acc ← io_fold (copy_block block_size (has_src_sha256_hash operation))
          (zip (ExtentsToBlocks (src_extents operation)) (ExtentsToBlocks (dst_extents operation)))
          (replicate (Z.to_nat block_size) 0, sha_init);
  if has_src_sha256_hash operation then ValidateSourceHash (sha_final (snd acc)) operation else mret ().

(** ** Patches *)

Definition print_position (start length : Z) : string := (pretty start +:+ ":" +:+ pretty length +:+ ",")%string.

Definition positions_step (block_size full_length : Z) (acc : string * Z) (extent : Extent) : string * Z :=
  let start := sint 64 (start_block extent * block_size) in
  let this_length := Z.min (u64 (full_length - snd acc)) (u64 (num_blocks extent * block_size)) in
  ((fst acc +:+ print_position start this_length)%string, u64 (snd acc + this_length)).

Definition ExtentsToBsdiffPositionsString (extents : list Extent) (block_size full_length : Z) : option string :=
  let '(ret, length) := fold_left (positions_step block_size full_length) extents (EmptyString, 0) in
  if length =? full_length then Some (String.substring 0 (String.length ret - 1) ret) else None.

(** The call of libbsdiff on the files with these paths. *)
Definition run_bspatch (source target : string) (patch : list Z) (input_positions output_positions : string) : io DeltaPerformer () := fun s =>
  match disk (slots s) !! source, disk (slots s) !! target with
  | Some old, Some new =>
      let '(rc, new') := bsdiff_bspatch old new patch input_positions output_positions in
      Ret (if rc =? 0 then Some () else None,
           set_slots (mkSlots (<[target := new']> (disk (slots s))) (source_fd_ (slots s)) (target_fd_ (slots s))) s)
  | _, _ => Ret (None, s)
  end.

Definition source_path_ s : string := from_option fst "" (source_fd_ (slots s)).
Definition target_path_ s : string := from_option fst "" (target_fd_ (slots s)).

(** What both operations with patches do. *)
Definition apply_patch (source : string) operation : io DeltaPerformer () :=
  s ← io_get;
  let block_size := block_size_ (progress s) in
  input_positions ← io_option (ExtentsToBsdiffPositionsString (src_extents operation) block_size (default 0 (src_length operation)));
  output_positions ← io_option (ExtentsToBsdiffPositionsString (dst_extents operation) block_size (default 0 (dst_length operation)));
  _ ← run_bspatch source (target_path_ s) (buffer_ (download s)) input_positions output_positions;
  DiscardBuffer true (zlen (buffer_ (download s))).

(** The end of the last block after a file that does not fill it. *)
Definition zero_tail operation : io DeltaPerformer () :=
  s ← io_get;
  let block_size := block_size_ (progress s) in
  _ ← io_check (negb (block_size =? 0));
  let tail := default 0 (dst_length operation) mod block_size in
  if tail =? 0 then mret () else
  match last (dst_extents operation) with
  | None => fun _ => Abort
  | Some last_extent =>
      let end_byte := u64 ((start_block last_extent + num_blocks last_extent) * block_size) in
      on_target (fd_PWriteAll (replicate (Z.to_nat (block_size - tail)) 0) (u64 (end_byte - (block_size - tail))))
  end.

Definition PerformBsdiffOperation operation : io DeltaPerformer () :=
  _ ← data_at_front operation;
  s ← io_get;
  _ ← apply_patch (target_path_ s) operation;
  zero_tail operation.

Definition kMaxBlocksToRead : Z := 512.

(** The pieces of at most [kMaxBlocksToRead] blocks in which the source is hashed. *)
Definition hash_parts (extent : Extent) : list Extent :=
  (fun i => mkExtent (u64 (start_block extent + kMaxBlocksToRead * i)) (Z.min kMaxBlocksToRead (num_blocks extent - kMaxBlocksToRead * i)))
  <$> seqZ 0 ((num_blocks extent + kMaxBlocksToRead - 1) / kMaxBlocksToRead).

Definition hash_part (block_size : Z) (ctx : sha_ctx) (part : Extent) : io DeltaPerformer sha_ctx :=
  let bytes_to_read := num_blocks part * block_size in
  data ← on_source (fd_PReadAll bytes_to_read (u64 (start_block part * block_size)));
  _ ← test_that (zlen data =? bytes_to_read);
  mret (sha_update ctx data).

Definition PerformSourceBsdiffOperation operation : io DeltaPerformer () :=
  _ ← data_at_front operation;
  s ← io_get;
  let block_size := block_size_ (progress s) in
  _ ← whole_blocks block_size (src_length operation);
  _ ← whole_blocks block_size (dst_length operation);
  _ ← (if has_src_sha256_hash operation then
         ctx ← io_fold (hash_part block_size) (src_extents operation ≫= hash_parts) sha_init;
         ValidateSourceHash (sha_final ctx) operation
       else mret ());
  apply_patch (source_path_ s) operation.

(** The switch of [Write]. *)
Definition perform_operation operation : io DeltaPerformer () :=
  match type_of operation with
  | REPLACE | REPLACE_BZ | REPLACE_XZ => PerformReplaceOperation operation
  | ZERO | DISCARD => PerformZeroOrDiscardOperation operation
  | MOVE => PerformMoveOperation operation
  | BSDIFF => PerformBsdiffOperation operation
  | SOURCE_COPY => PerformSourceCopyOperation operation
  | SOURCE_BSDIFF => PerformSourceBsdiffOperation operation
  | IMGDIFF => io_fail
  end.
End Performer.

(** ** Contracts of the external code *)

(** Data written to byte ranges one after the other, and the data there. *)
Fixpoint write_ranges (f : list Z) (ranges : list (Z * Z)) (data : list Z) : list Z :=
  match ranges with
  | [] => f
  | (o, n) :: ranges => write_ranges (write_at f o (take (Z.to_nat n) data)) ranges (drop (Z.to_nat n) data)
  end.

Definition read_ranges (f : list Z) (ranges : list (Z * Z)) : list Z := ranges ≫= fun '(o, n) => slice f o n.

Definition ranges_in (n : Z) (ranges : list (Z * Z)) : Prop := Forall (fun '(o, k) => 0 <= o /\ 0 <= k /\ o + k <= n) ranges.

(** "start:length,start:length" *)
Definition positions_string (ranges : list (Z * Z)) : string :=
  String.concat "," ((fun '(start, length) => pretty start +:+ ":" +:+ pretty length)%string <$> ranges).

(** A patch is applied to the data in the first ranges and written to the
    second ones; the program may fail after it has written something there. *)
Class BspatchOk `{Bspatch} `{Decoders} : Prop :=
  bspatch_ranges : forall old new patch srcs dsts out, ranges_in (zlen old) srcs -> ranges_in (zlen new) dsts ->
    bspatch (read_ranges old srcs) patch = Some out -> zlen out = foldr (fun r n => snd r + n) 0 dsts ->
    exists rc data, bsdiff_bspatch old new patch (positions_string srcs) (positions_string dsts) = (rc, write_ranges new dsts data)
      /\ zlen data <= zlen out /\ (rc = 0 -> data = out).

Definition no_patch_errors `{Bspatch} : Prop := forall old new patch ins outs, fst (bsdiff_bspatch old new patch ins outs) = 0.

(** A file is a block device with its size or none at all, and a request changes
    nothing but its range. *)
Class BlockDeviceOk `{BlockDevice} : Prop := {
  block_dev_size_ok : forall f, block_dev_size f = 0 \/ block_dev_size f = zlen f;
  blk_ioctl_range : forall request f start n rc f', 0 <= start -> 0 <= n -> start + n <= zlen f -> blk_ioctl request f start n = (rc, f') ->
    exists data, zlen data = n /\ f' = write_at f start data
      /\ (rc = 0 -> request = BLKZEROOUT \/ (request = BLKDISCARD /\ discard_zeroes f = true) -> data = replicate (Z.to_nat n) 0);
}.

(** ** Ranges and extents *)

Definition byte_ranges (es : list Extent) : list (Z * Z) := (fun e => (start_block e * kBlockSize, num_blocks e * kBlockSize)) <$> es.

Lemma write_byte_ranges f es data : write_ranges f (byte_ranges es) data = fill_extents f es data.
Proof. revert f data. induction es as [|e es IH]; intros f data; [done|]. simpl. apply IH. Qed.

Lemma ranges_on_device n es : on_device n es -> ranges_in n (byte_ranges es).
Proof.
  unfold ranges_in, byte_ranges. rewrite Forall_fmap. intros Hes. eapply Forall_impl; [done|]. intros e [(? & ? & _) ?]. simpl. unfold kBlockSize in *. lia.
Qed.

Lemma sum_byte_ranges es : foldr (fun r n => snd r + n) 0 (byte_ranges es) = total es * kBlockSize.
Proof. induction es as [|e es IH]; [done|]. cbn [byte_ranges fmap list_fmap foldr snd]. unfold byte_ranges in IH. rewrite IH. simpl. lia. Qed.

Lemma read_byte_ranges f es : on_device (zlen f) es -> read_ranges f (byte_ranges es) = concat (block_of f <$> ExpandExtents es).
Proof.
  induction es as [|e es IH]; intros Hes; [done|]. apply Forall_cons in Hes as [[He Hf] Hes].
  rewrite ExpandExtents_cons, expand_ok, fmap_app, concat_app, <- IH by done. pose proof He as (? & ? & _).
  cbn [byte_ranges fmap list_fmap]. unfold read_ranges. rewrite bind_cons. f_equal. rewrite slice_blocks; [done|lia..].
Qed.

(** ** Positions *)

Lemma string_app_cons x (a b : string) : (String x a +:+ b = String x (a +:+ b))%string.
Proof. done. Qed.

Lemma string_app_assoc (a b c : string) : ((a +:+ b) +:+ c = a +:+ (b +:+ c))%string.
Proof. induction a as [|x a IH]; [done|]. by rewrite !string_app_cons, IH. Qed.

Lemma string_app_nil_r (a : string) : (a +:+ "" = a)%string.
Proof. induction a as [|x a IH]; [done|]. by rewrite string_app_cons, IH. Qed.

Lemma string_app_length (a b : string) : String.length (a +:+ b) = (String.length a + String.length b)%nat.
Proof. induction a as [|x a IH]; [done|]. rewrite string_app_cons. simpl. by rewrite IH. Qed.

Lemma substring_prefix (a b : string) : String.substring 0 (String.length a) (a +:+ b) = a.
Proof. induction a as [|x a IH]; [by destruct b|]. rewrite string_app_cons. simpl. by rewrite IH. Qed.

Lemma concat_comma (l : list string) x :
  (String.concat "," (x :: l) +:+ "," = foldr (fun y r => y +:+ "," +:+ r) "" (x :: l))%string.
Proof.
  revert x. induction l as [|y l IH]; intros x; [done|].
  change (String.concat "," (x :: y :: l)) with (x +:+ "," +:+ String.concat "," (y :: l))%string.
  rewrite !string_app_assoc, IH. done.
Qed.

Definition printed (ranges : list (Z * Z)) : string := foldr (fun r s => print_position (fst r) (snd r) +:+ s)%string "" ranges.

Lemma printed_strip ranges : String.substring 0 (String.length (printed ranges) - 1) (printed ranges) = positions_string ranges.
Proof.
  destruct ranges as [|[o n] ranges]; [done|]. unfold positions_string. rewrite fmap_cons.
  set (l := (fun '(start, length) => (pretty start +:+ ":" +:+ pretty length)%string) <$> ranges). set (x := (pretty o +:+ _)%string).
  assert (E : printed ((o, n) :: ranges) = (String.concat "," (x :: l) +:+ ",")%string).
  { rewrite concat_comma. unfold printed, print_position. cbn [foldr fst snd]. unfold x. rewrite !string_app_assoc. do 4 f_equal. f_equal.
    unfold l. clear. induction ranges as [|[o n] ranges IH]; [done|]. rewrite fmap_cons. cbn [foldr fst snd]. rewrite !string_app_assoc. do 6 f_equal. done. }
  rewrite E, string_app_length, Nat.add_sub. apply substring_prefix.
Qed.

Lemma positions_fold es acc n m :
  Forall extent_ok es -> n = m + total es * kBlockSize -> 0 <= m -> n < 2 ^ 63 -> Forall (fun e => start_block e * kBlockSize < 2 ^ 63) es ->
  fold_left (positions_step kBlockSize n) es (acc, m) = ((acc +:+ printed (byte_ranges es))%string, n).
Proof.
  revert acc m. induction es as [|e es IH]; intros acc m Hes Hn Hm Hb Hs.
  { simpl. rewrite string_app_nil_r. f_equal. simpl in Hn. lia. }
  apply Forall_cons in Hes as [(? & ? & _) Hes]. apply Forall_cons in Hs as [He Hs]. pose proof (total_nonneg es Hes). simpl in Hn.
  cbn [fold_left]. unfold positions_step at 2. cbn [fst snd]. unfold kBlockSize in *.
  rewrite sint_small by lia. rewrite !uint_small by (unfold is_uint; lia). rewrite Z.min_r by lia. rewrite IH; [|done|lia|lia|lia|done].
  cbn [byte_ranges fmap list_fmap printed foldr fst snd]. by rewrite string_app_assoc.
Qed.

Lemma ExtentsToBsdiffPositionsString_whole es :
  Forall extent_ok es -> total es * kBlockSize < 2 ^ 63 -> Forall (fun e => start_block e * kBlockSize < 2 ^ 63) es ->
  ExtentsToBsdiffPositionsString es kBlockSize (total es * kBlockSize) = Some (positions_string (byte_ranges es)).
Proof.
  intros Hes Ht Hs. unfold ExtentsToBsdiffPositionsString. rewrite positions_fold by (done || lia). rewrite Z.eqb_refl.
  by rewrite <- printed_strip.
Qed.

(** ** Calls on the slots *)

(** The disk is [D] but for the target [tp], which holds [f]. *)
Record at_slots (D : gmap string (list Z)) (src : option string) (tp : string) (f : list Z) (sl : Slots) : Prop := {
  at_disk : disk sl = <[tp := f]> D;
  at_source : fst <$> source_fd_ sl = src;
  at_target : fst <$> target_fd_ sl = Some tp;
}.

Section Calls.
Context `{KernelSafe} `{Sha256} `{Prefs} (D : gmap string (list Z)) (src : option string) (tp : string).
Implicit Types (s : DeltaPerformer) (f : list Z).
Abbreviation at_slots := (at_slots D src tp).

(** The call changes the blocks of [es] of the target only; it succeeds if
    [ok], and then [good] holds of the result and the target. *)
Definition writes {B} f (es : list Extent) s (ok : Prop) (good : B -> list Z -> Prop) (r : option B) (s' : DeltaPerformer) : Prop :=
  exists f' sl, s' = set_slots sl s /\ at_slots f' sl /\ same_outside (ExpandExtents es) f f' /\ (ok -> is_Some r) /\ (forall b, r = Some b -> good b f').

Lemma writes_bind {A B} (m : io DeltaPerformer A) (k : A -> io DeltaPerformer B) f es s ok good good' :
  returns m s (writes f es s ok good) ->
  (forall a f' sl, at_slots f' sl -> same_outside (ExpandExtents es) f f' -> good a f' ->
     returns (k a) (set_slots sl s) (writes f' es (set_slots sl s) ok good')) ->
  returns (m ≫= k) s (writes f es s ok good').
Proof.
  intros Hm Hk. apply returns_bind. eapply returns_mono; [exact Hm|]. intros r s' (f' & sl & -> & Hat & Hsame & Hok & Hgood). destruct r as [a|].
  - eapply returns_mono; [by apply (Hk a f' sl); auto|]. intros r s'' (f'' & sl' & -> & Hat' & Hsame' & Hok' & Hgood').
    exists f'', sl'. split_and!; try done. by etrans.
  - exists f', sl. split_and!; try done. intros Ho. by destruct (Hok Ho).
Qed.

Lemma writes_ret {B} (b : B) f es s sl (ok : Prop) (good : B -> list Z -> Prop) : at_slots f sl -> good b f -> returns (mret b) (set_slots sl s) (writes f es (set_slots sl s) ok good).
Proof. intros Hat Hg. exists f, sl. split_and!; try done. by intros ? [= <-]. Qed.

Lemma writes_test (b : bool) f es s sl (ok : Prop) (good : () -> list Z -> Prop) :
  at_slots f sl -> (ok -> b = true) -> (b = true -> good () f) -> returns (test_that b) (set_slots sl s) (writes f es (set_slots sl s) ok good).
Proof.
  intros Hat Hok Hg. unfold returns, test_that. exists f, sl. split_and!; try done; [intros ->%Hok; by eexists|]. intros [] E. destruct b; [by apply Hg|done].
Qed.

Lemma on_target_returns {A} (m : io FileDescriptor A) f sl s Q :
  at_slots f sl -> (forall pos, returns m (mkFd f pos) (fun r fd => forall sl', at_slots (fd_file fd) sl' -> Q r (set_slots sl' s))) ->
  returns (on_target m) (set_slots sl s) Q.
Proof.
  intros [Hd Hs Ht] Hm. unfold returns, on_target. cbn [slots set_slots]. destruct (target_fd_ sl) as [[p pos]|]; [|done]. simpl in Ht. simplify_eq.
  rewrite Hd, lookup_insert_eq. specialize (Hm pos). unfold returns in Hm. destruct (m (mkFd f pos)) as [[r fd]| |]; [|done..].
  apply (Hm (mkSlots _ _ _)). split; cbn; [by rewrite insert_insert_eq|done..].
Qed.

Lemma on_source_returns {A} (m : io FileDescriptor A) f g sp sl s Q :
  at_slots f sl -> src = Some sp -> sp <> tp -> D !! sp = Some g ->
  (forall pos, returns m (mkFd g pos) (fun r fd => fd_file fd = g /\ forall sl', at_slots f sl' -> Q r (set_slots sl' s))) ->
  returns (on_source m) (set_slots sl s) Q.
Proof.
  intros [Hd Hs Ht] Hsp Hne Hg Hm. unfold returns, on_source. cbn [slots set_slots]. destruct (source_fd_ sl) as [[p pos]|]; [|simpl in Hs; congruence].
  simpl in Hs. assert (p = sp) as -> by congruence. rewrite Hd, lookup_insert_ne, Hg by done. specialize (Hm pos). unfold returns in Hm.
  destruct (m (mkFd g pos)) as [[r fd]| |]; [|done..]. destruct Hm as [Hfd HQ]. apply (HQ (mkSlots _ _ _)).
  split; cbn; [|by rewrite Hsp|done]. rewrite Hfd. apply insert_id. by rewrite lookup_insert_ne.
Qed.

Lemma target_write f es s sl data o b n :
  at_slots f sl -> seqZ b n ⊆ ExpandExtents es -> 0 <= b -> 0 <= n -> b * kBlockSize <= o -> o + zlen data <= (b + n) * kBlockSize ->
  (b + n) * kBlockSize <= zlen f -> zlen f < 2 ^ 63 ->
  returns (on_target (fd_PWriteAll data o)) (set_slots sl s) (writes f es (set_slots sl s) no_io_errors (fun _ f' => f' = write_at f o data)).
Proof.
  intros Hat Hin Hb Hn Ho Hd Hf Hz. pose proof (zlen_nonneg data). eapply on_target_returns; [done|]. intros pos.
  eapply returns_mono; [apply fd_PWriteAll_spec; unfold kBlockSize in *; lia|]. intros r fd (m & Hm & Hfd & Hr & He) sl' Hat'.
  eexists _, sl'. split_and!; [done|done|..].
  - rewrite Hfd. eapply same_outside_mono; [done|]. apply write_same_outside; try done. rewrite zlen_take by done. lia.
  - intros Hno. rewrite (He Hno). by eexists.
  - intros [] ->. specialize (Hr eq_refl). subst m. rewrite Hfd. unfold zlen. by rewrite Nat2Z.id, firstn_all.
Qed.

Lemma target_read f es s sl count o :
  at_slots f sl -> 0 <= count -> 0 <= o < 2 ^ 63 ->
  returns (on_target (fd_PReadAll count o)) (set_slots sl s) (writes f es (set_slots sl s) no_io_errors (fun data f' => data = slice f o count /\ f' = f)).
Proof.
  intros Hat Hc Ho. eapply on_target_returns; [done|]. intros pos. eapply returns_mono; [by apply fd_PReadAll_spec|].
  intros r fd (Hfd & Hd & He) sl' Hat'. rewrite Hfd in Hat'. exists f, sl'. split_and!; auto. done.
Qed.

Lemma source_read f g sp es s sl count o :
  at_slots f sl -> src = Some sp -> sp <> tp -> D !! sp = Some g -> 0 <= count -> 0 <= o < 2 ^ 63 ->
  returns (on_source (fd_PReadAll count o)) (set_slots sl s) (writes f es (set_slots sl s) no_io_errors (fun data f' => data = slice g o count /\ f' = f)).
Proof.
  intros Hat Hs Hne Hg Hc Ho. eapply on_source_returns; [done..|]. intros pos. eapply returns_mono; [by apply fd_PReadAll_spec|].
  intros r fd (Hfd & Hd & He). split; [done|]. intros sl' Hat'. exists f, sl'. split_and!; auto. done.
Qed.

(** A loop that keeps [inv] of the rest, the result so far and the target. *)
Lemma writes_fold {A B} (step : B -> A -> io DeltaPerformer B) (inv : list A -> B -> list Z -> Prop) l acc f es s sl ok :
  at_slots f sl -> inv l acc f ->
  (forall a rest acc f sl, at_slots f sl -> inv (a :: rest) acc f ->
     returns (step acc a) (set_slots sl s) (writes f es (set_slots sl s) ok (inv rest))) ->
  returns (io_fold step l acc) (set_slots sl s) (writes f es (set_slots sl s) ok (inv [])).
Proof.
  intros Hat Hi Hstep. revert acc f sl Hat Hi. induction l as [|a l IH]; intros acc f sl Hat Hi; cbn [io_fold].
  - by apply writes_ret.
  - eapply writes_bind; [by apply Hstep|]. intros acc' f' sl' Hat' _ Hi'. by apply IH.
Qed.
End Calls.

(** ** Filling extents step by step *)

(** Filling [rest] with [d] is what is left of filling [es] of [f] with [data]. *)
Record filling (f : list Z) (es : list Extent) (data : list Z) (rest : list Extent) (d f' : list Z) : Prop := {
  fl_suffix : exists pre, es = pre ++ rest;
  fl_device : on_device (zlen f') rest;
  fl_size : zlen f' = zlen f;
  fl_fill : fill_extents f' rest d = fill_extents f es data;
}.

Lemma filling_start f es data : on_device (zlen f) es -> filling f es data es data f.
Proof. intros Hes. split; try done. by exists []. Qed.

Lemma filling_step f es data e rest d f' :
  filling f es data (e :: rest) d f' ->
  let n := Z.to_nat (num_blocks e * kBlockSize) in filling f es data rest (drop n d) (write_at f' (start_block e * kBlockSize) (take n d)).
Proof.
  intros [[pre ->] Hdev Hs Hf] n. pose proof Hdev as [[He Hfit] Hrest]%Forall_cons.
  assert (Hz : zlen (write_at f' (start_block e * kBlockSize) (take n d)) = zlen f') by (by apply write_extent_zlen).
  split; [|by rewrite Hz|by rewrite Hz|done]. exists (pre ++ [e]). by rewrite <- app_assoc.
Qed.

Lemma filling_in f es data e rest d f' : filling f es data (e :: rest) d f' -> seqZ (start_block e) (num_blocks e) ⊆ ExpandExtents es.
Proof.
  intros [[pre ->] [[He _] _]%Forall_cons _ _] b Hb. rewrite ExpandExtents_app, ExpandExtents_cons, expand_ok by done. apply elem_of_app. right. apply elem_of_app. by left.
Qed.

Lemma filling_end f es data d f' : filling f es data [] d f' -> f' = fill_extents f es data.
Proof. by intros [_ _ _ Hf]. Qed.

Lemma write_at_slice f o n : 0 <= o -> 0 <= n -> o + n <= zlen f -> write_at f o (slice f o n) = f.
Proof.
  intros Ho Hn Hf. assert (Hz : zlen (slice f o n) = n) by (unfold slice; rewrite zlen_take; [done|rewrite zlen_drop; lia]).
  rewrite write_at_in, Hz by lia. unfold slice. rewrite Z2Nat.inj_add, <- drop_drop by lia. by rewrite take_drop, take_drop.
Qed.

Lemma write_at_again f o d d' : 0 <= o -> zlen d = zlen d' -> o + zlen d <= zlen f -> write_at (write_at f o d) o d' = write_at f o d'.
Proof.
  intros Ho Hd Hf. pose proof (zlen_nonneg d). assert (Hz : zlen (write_at f o d) = zlen f) by (rewrite zlen_write; lia).
  rewrite (write_at_in (write_at f o d)) by lia. rewrite !(write_at_in f) by lia. rewrite <- Hd. f_equal.
  - rewrite take_app_le, take_take by (rewrite length_take; unfold zlen in *; lia). f_equal. lia.
  - f_equal. rewrite app_assoc, drop_app_length'; [done|]. rewrite length_app, length_take. unfold zlen in *. lia.
Qed.

Lemma zlen_replicate (n : Z) (x : Z) : 0 <= n -> zlen (replicate (Z.to_nat n) x) = n.
Proof. intros Hn. unfold zlen. rewrite length_replicate. lia. Qed.

Lemma zeros_app a b : 0 <= a -> 0 <= b -> replicate (Z.to_nat (a + b)) 0 = replicate (Z.to_nat a) 0 ++ replicate (Z.to_nat b) 0.
Proof. intros Ha Hb. by rewrite Z2Nat.inj_add, replicate_add by done. Qed.

(** ** Zeros *)

Lemma BlkIoctl_spec `{BlockDeviceOk} f pos start n :
  0 <= start -> 0 <= n -> start + n <= zlen f ->
  returns (BlkIoctl BLKZEROOUT start n) (mkFd f pos) (fun r fd => exists data, zlen data = n /\ fd_file fd = write_at f start data
    /\ (r = Some 0 -> data = replicate (Z.to_nat n) 0)).
Proof.
  intros Hs Hn Hf. unfold returns, BlkIoctl. cbn [fd_file fd_pos]. destruct fcntl_ok as [[get_ok set_ok] remove_ok].
  destruct (negb (get_ok && set_ok)).
  { exists (slice f start n). rewrite write_at_slice by done. split_and!; try done. unfold slice. rewrite zlen_take; [done|rewrite zlen_drop; lia]. }
  set (request := if discard_zeroes f then BLKDISCARD else BLKZEROOUT). destruct (blk_ioctl request f start n) as [rc f'] eqn:E.
  destruct (blk_ioctl_range request f start n rc f') as (data & Hz & -> & Hd); [done..|]. exists data. split_and!; [done|done|].
  destruct remove_ok; [|done]. intros [= ->]. apply Hd; [done|]. unfold request. destruct (discard_zeroes f); [by right|by left].
Qed.

Section Zeros.
Context `{KernelSafe} `{Sha256} `{Prefs} `{BlockDeviceOk} (D : gmap string (list Z)) (src : option string) (tp : string).
Implicit Types (s : DeltaPerformer) (f : list Z).

Lemma zero_loop_spec fuel f es s sl start b n size offset :
  let length := n * kBlockSize in
  let wrote k := write_at f start (replicate (Z.to_nat (Z.min k length)) 0) in
  start = b * kBlockSize -> 0 <= b -> 0 <= n -> (b + n) * kBlockSize <= zlen f -> zlen f < 2 ^ 63 -> seqZ b n ⊆ ExpandExtents es -> 0 < size < 2 ^ 62 ->
  0 <= offset -> offset < length + size -> length <= offset + Z.of_nat fuel * size -> at_slots D src tp (wrote offset) sl ->
  returns (zero_loop fuel size start length offset) (set_slots sl s)
    (writes D src tp (wrote offset) es (set_slots sl s) no_io_errors (fun _ f' => f' = wrote length)).
Proof.
  intros length wrote Hstart Hb Hn Hf Hz Hin Hsize. unfold kBlockSize in *. assert (Hzw : forall k, 0 <= k -> zlen (wrote k) = zlen f).
  { intros k Hk. unfold wrote. rewrite zlen_write by lia. rewrite zlen_replicate by lia. lia. }
  revert offset sl. induction fuel as [|fuel IH]; intros offset sl Ho Hlt Hfuel Hat; cbn [zero_loop];
    (destruct (Z.ltb_spec offset length) as [Hl|Hl]; [|apply writes_ret; [done|]; unfold wrote; do 3 f_equal; lia]); [lia|].
  set (chunk := Z.min (length - offset) size). rewrite (uint_small 64 (start + offset)) by (unfold is_uint; lia).
  eapply writes_bind.
  { eapply (target_write D src tp _ es s sl _ _ b n); try done; rewrite ?zlen_replicate by lia; unfold kBlockSize; rewrite ?Hzw; lia. }
  intros [] f' sl' Hat' _ ->. rewrite uint_small by (unfold is_uint; lia).
  assert (E : write_at (wrote offset) (start + offset) (replicate (Z.to_nat chunk) 0) = wrote (offset + size)).
  { unfold wrote. replace (Z.min (offset + size) length) with (offset + chunk) by lia. rewrite Z.min_l by lia.
    rewrite zeros_app, write_at_app by lia. by rewrite zlen_replicate by lia. }
  rewrite E in *. apply IH; [lia|lia|lia|done].
Qed.

Lemma zero_extent_spec f es s sl attempt e :
  at_slots D src tp f sl -> extent_ok e -> (start_block e + num_blocks e) * kBlockSize <= zlen f -> zlen f < 2 ^ 63 ->
  seqZ (start_block e) (num_blocks e) ⊆ ExpandExtents es ->
  returns (zero_extent BLKZEROOUT kBlockSize attempt e) (set_slots sl s) (writes D src tp f es (set_slots sl s) no_io_errors
    (fun _ f' => f' = write_at f (start_block e * kBlockSize) (replicate (Z.to_nat (num_blocks e * kBlockSize)) 0))).
Proof.
  intros Hat (He & Hn & _) Hf Hz Hin. unfold zero_extent. set (start := start_block e * kBlockSize). set (n := num_blocks e * kBlockSize).
  assert (Hse : 0 <= start /\ 0 <= n /\ start + n <= zlen f) by (unfold start, n, kBlockSize in *; lia).
  rewrite !uint_small by (unfold is_uint; lia).
  eapply (writes_bind D src tp) with (good := fun r f' => exists data, zlen data = n /\ f' = write_at f start data /\ (r = Some 0 -> data = replicate (Z.to_nat n) 0)).
  { destruct attempt.
    - apply returns_try. eapply on_target_returns; [done|]. intros pos. eapply returns_mono; [apply BlkIoctl_spec; lia|].
      intros r fd (data & Hd & Hf' & Hr) sl' Hat'. eexists _, sl'. split_and!; [done|done| |by eexists|].
      + rewrite Hf'. eapply same_outside_mono; [done|]. apply write_same_outside; unfold start, n, kBlockSize in *; lia.
      + intros b [= <-]. by exists data.
    - apply writes_ret; [done|]. exists (slice f start n). rewrite write_at_slice by lia. split_and!; try done.
      unfold slice. rewrite zlen_take; [done|rewrite zlen_drop; lia]. }
  intros r f' sl' Hat' _ (data & Hd & -> & Hr). destruct (bool_decide_reflect (r = Some 0)) as [E|_].
  { apply writes_ret; [done|]. by rewrite Hr. }
  assert (Hz' : zlen (write_at f start data) = zlen f) by (rewrite zlen_write; lia).
  pose proof (Z.div_pos n (16 * kBlockSize) ltac:(lia) ltac:(done)). pose proof (Z.mul_succ_div_gt n (16 * kBlockSize) ltac:(done)) as Hfuel.
  eapply writes_bind.
  { pose proof (zero_loop_spec (S (Z.to_nat (n / (16 * kBlockSize)))) (write_at f start data) es s sl' start (start_block e) (num_blocks e) (16 * kBlockSize) 0) as Hl.
    cbv beta zeta in Hl. rewrite (Z.min_l 0) in Hl by (unfold kBlockSize; lia). change (replicate (Z.to_nat 0) 0) with (@nil Z) in Hl.
    rewrite (write_at_nil _ start) in Hl by lia. apply Hl; try done; unfold kBlockSize in *; lia. }
  intros [] f'' sl'' Hat'' _ ->. apply writes_ret; [done|]. rewrite Z.min_id. fold n. rewrite write_at_again; [done|lia|rewrite zlen_replicate; lia|lia].
Qed.
End Zeros.

(** ** Operations *)

Section Operations.
Context `{KernelSafe} `{Sha256Ok} `{Prefs} `{Streams} `{Bspatch} `{BlockDevice} `{Decoders}.
Context `{!StreamOk bzip2_stream bunzip2} `{!StreamOk xz_stream unxz} `{!BspatchOk} `{!BlockDeviceOk}.
Context (D : gmap string (list Z)) (src : option string) (tp : string).
Implicit Types (s : DeltaPerformer) (f : list Z) (op : InstallOperation).

Definition no_errors : Prop := no_io_errors /\ no_patch_errors.

Lemma writes_mono {B} f es s (ok ok' : Prop) (good good' : B -> list Z -> Prop) r s' :
  (ok' -> ok) -> (forall b f', good b f' -> good' b f') -> writes D src tp f es s ok good r s' -> writes D src tp f es s ok' good' r s'.
Proof. intros Ho Hg (f' & sl & -> & Hat & Hs & Hok & Hgood). exists f', sl. split_and!; auto. Qed.

Lemma PerformZero_spec f s sl op out :
  at_slots D src tp f sl -> block_size_ (progress s) = kBlockSize -> on_device (zlen f) (dst_extents op) -> zlen f < 2 ^ 63 ->
  type_of op = ZERO -> data_offset op = None -> data_length op = None -> Forall (fun x => x = 0) out -> zlen out = total (dst_extents op) * kBlockSize ->
  returns (PerformZeroOrDiscardOperation op) (set_slots sl s)
    (writes D src tp f (dst_extents op) (set_slots sl s) no_io_errors (fun _ f' => f' = fill_extents f (dst_extents op) out)).
Proof.
  intros Hat Hbs Hdev Hz Ht Hdo Hdl Hout Hsize. unfold PerformZeroOrDiscardOperation. rewrite Ht, Hdo, Hdl, !bool_decide_true by done.
  do 4 (apply returns_bind; unfold returns at 1; cbn [io_check test_that io_get]). cbn [progress set_slots]. rewrite Hbs.
  set (es := dst_extents op) in *.
  eapply writes_bind.
  - eapply (writes_fold D src tp _ (fun rest _ f' => exists d, Forall (fun x => x = 0) d /\ total rest * kBlockSize <= zlen d /\ filling f es out rest d f')); [done| |].
    { exists out. split_and!; [done|lia|by apply filling_start]. }
    intros e rest acc f1 sl1 Hat1 (d & Hd & Hzd & Hfill). pose proof (fl_size _ _ _ _ _ _ Hfill) as Hs1.
    pose proof (fl_device _ _ _ _ _ _ Hfill) as [[He Hfe] Hrest]%Forall_cons. pose proof He as (? & ? & _).
    pose proof (total_nonneg rest (on_device_ok _ _ Hrest)). change (total (e :: rest)) with (num_blocks e + total rest) in Hzd.
    eapply returns_mono; [eapply zero_extent_spec; [done|done|done|lia|by eapply filling_in]|].
    intros r s'. apply writes_mono; [done|]. intros b f2 ->. exists (drop (Z.to_nat (num_blocks e * kBlockSize)) d). split_and!.
    + by apply Forall_drop.
    + rewrite zlen_drop by (unfold kBlockSize in *; lia). lia.
    + replace (replicate _ 0) with (take (Z.to_nat (num_blocks e * kBlockSize)) d); [by apply filling_step|].
      rewrite (zeros_eq (take _ d)) by (by apply Forall_take). f_equal. rewrite length_take. unfold zlen, kBlockSize in *. lia.
  - intros b f' sl' Hat' _ (d & _ & _ & Hfill). apply writes_ret; [done|]. by eapply filling_end.
Qed.

(** ** Moves *)

Lemma GetBlockCount_total es : Forall extent_ok es -> total es < 2 ^ 64 -> GetBlockCount es = total es.
Proof.
  intros Hes. unfold GetBlockCount. enough (forall a, 0 <= a -> a + total es < 2 ^ 64 -> fold_left (fun sum ext => u64 (sum + num_blocks ext)) es a = a + total es)
    as Hg by (intros ?; by rewrite Hg). induction Hes as [|e es (? & ? & _) Hes IH]; intros a Ha Hb; simpl in *; [lia|].
  pose proof (total_nonneg es Hes). rewrite uint_small by (unfold is_uint; lia). rewrite IH by lia. lia.
Qed.

Lemma read_extents f e rest : extent_ok e ->
  concat (block_of f <$> ExpandExtents (e :: rest)) = slice f (start_block e * kBlockSize) (num_blocks e * kBlockSize) ++ concat (block_of f <$> ExpandExtents rest).
Proof.
  intros He. pose proof He as (? & ? & _). rewrite ExpandExtents_cons, expand_ok, fmap_app, concat_app by done. by rewrite slice_blocks by lia.
Qed.

Lemma not_sparse n e : extent_ok e -> (start_block e + num_blocks e) * kBlockSize <= n -> n < 2 ^ 63 -> (start_block e =? kSparseHole) = false.
Proof. intros (? & ? & _) ? ?. apply Z.eqb_neq. unfold kSparseHole, kBlockSize in *. lia. Qed.

Lemma expanded_blocks n es b : on_device n es -> b ∈ ExpandExtents es -> 0 <= b /\ (b + 1) * kBlockSize <= n.
Proof.
  intros Hes Hb. unfold ExpandExtents in Hb. apply list_elem_of_bind in Hb as (e & Hb & He).
  unfold on_device in Hes. rewrite Forall_forall in Hes. destruct (Hes e He) as [Hok Hf]. pose proof Hok as (? & _). rewrite expand_ok, elem_of_seqZ in Hb by done.
  unfold kBlockSize in *. lia.
Qed.

Lemma on_device_file f es : on_device (zlen f) es -> in_file f es.
Proof. intros Hes b Hb. by eapply expanded_blocks. Qed.

Lemma move_reads f es s sl room es0 :
  at_slots D src tp f sl -> on_device (zlen f) es -> zlen f < 2 ^ 63 -> total es * kBlockSize <= room ->
  returns (io_fold (move_read kBlockSize room) es []) (set_slots sl s) (writes D src tp f es0 (set_slots sl s) no_io_errors
    (fun buf f' => f' = f /\ buf = concat (block_of f <$> ExpandExtents es))).
Proof.
  intros Hat Hes Hz Hroom. eapply returns_mono.
  - eapply (writes_fold D src tp _ (fun rest buf f' => f' = f /\ on_device (zlen f) rest /\ zlen buf + total rest * kBlockSize <= room
      /\ buf ++ concat (block_of f <$> ExpandExtents rest) = concat (block_of f <$> ExpandExtents es))); [done| |].
    { by split_and!. }
    intros e rest buf f1 sl1 Hat1 (-> & [[He Hfe] Hrest]%Forall_cons & Hlen & Hcat). pose proof He as (? & ? & _).
    change (total (e :: rest)) with (num_blocks e + total rest) in Hlen. pose proof (total_nonneg rest (on_device_ok _ _ Hrest)).
    unfold move_read. unfold kBlockSize in *. rewrite !uint_small by (unfold is_uint; lia). rewrite (not_sparse (zlen f)) by (unfold kBlockSize; done || lia).
    apply returns_bind. unfold returns at 1. cbn [test_that negb]. apply returns_bind, returns_check; [apply Z.leb_le; lia|].
    eapply writes_bind; [apply target_read; [done|lia|lia]|]. intros data f2 sl2 Hat2 _ [-> ->].
    assert (Hd : zlen (slice f (start_block e * 4096) (num_blocks e * 4096)) = num_blocks e * 4096)
      by (unfold slice; rewrite zlen_take; [done|rewrite zlen_drop; lia]).
    rewrite Hd, Z.eqb_refl. eapply writes_bind; [apply (writes_test D src tp _ _ _ _ _ _ (fun _ f' => f' = f)); done|]. intros [] f3 sl3 Hat3 _ ->.
    apply writes_ret; [done|]. split_and!; [done|done|rewrite zlen_app; lia|]. rewrite <- Hcat, read_extents, <- app_assoc by done. done.
  - intros r s'. apply writes_mono; [done|]. intros buf f' (-> & _ & _ & E). split; [done|]. rewrite <- E. change (ExpandExtents []) with (@nil Z). simpl. by rewrite app_nil_r.
Qed.

Lemma move_writes f es s sl data :
  at_slots D src tp f sl -> on_device (zlen f) es -> zlen f < 2 ^ 63 ->
  returns (io_fold (move_write kBlockSize) es data) (set_slots sl s) (writes D src tp f es (set_slots sl s) no_io_errors
    (fun _ f' => f' = fill_extents f es data)).
Proof.
  intros Hat Hes Hz. eapply returns_mono.
  - eapply (writes_fold D src tp _ (filling f es data)); [done|by apply filling_start|].
    intros e rest d f1 sl1 Hat1 Hfill. pose proof (fl_size _ _ _ _ _ _ Hfill) as Hs1.
    pose proof (fl_device _ _ _ _ _ _ Hfill) as [[He Hfe] Hrest]%Forall_cons. pose proof He as (? & ? & _).
    unfold move_write. rewrite !uint_small by (unfold is_uint, kBlockSize in *; lia). rewrite (not_sparse (zlen f1)) by (done || lia).
    apply returns_bind. unfold returns at 1. cbn [test_that negb].
    assert (Hd : zlen (take (Z.to_nat (num_blocks e * kBlockSize)) d) <= num_blocks e * kBlockSize)
      by (unfold zlen; rewrite length_take; unfold kBlockSize in *; lia).
    eapply writes_bind; [apply (target_write D src tp _ es _ _ _ _ (start_block e) (num_blocks e)); try done; try lia; by eapply filling_in|].
    intros [] f2 sl2 Hat2 _ ->. apply writes_ret; [done|]. by apply filling_step.
  - intros r s'. apply writes_mono; [done|]. intros d f'. apply filling_end.
Qed.

Lemma PerformMove_spec f s sl op :
  at_slots D src tp f sl -> block_size_ (progress s) = kBlockSize -> on_device (zlen f) (src_extents op) -> on_device (zlen f) (dst_extents op) ->
  zlen f < 2 ^ 63 -> total (dst_extents op) = total (src_extents op) -> total (dst_extents op) * kBlockSize < 2 ^ 63 ->
  returns (PerformMoveOperation op) (set_slots sl s) (writes D src tp f (dst_extents op) (set_slots sl s) no_io_errors
    (fun _ f' => f' = fill_extents f (dst_extents op) (concat (block_of f <$> ExpandExtents (src_extents op))))).
Proof.
  intros Hat Hbs Hsrc Hdst Hz Heq Ht. unfold PerformMoveOperation. apply returns_bind. unfold returns at 1. cbn [io_get progress set_slots]. rewrite Hbs.
  pose proof (total_nonneg _ (on_device_ok _ _ Hdst)). rewrite GetBlockCount_total ; [|by eapply on_device_ok|unfold kBlockSize in *; lia].
  rewrite uint_small by (unfold is_uint, kBlockSize in *; lia). eapply writes_bind; [apply move_reads; [done|done|done|lia]|].
  intros buf f1 sl1 Hat1 _ [-> ->]. set (data := concat _). assert (Hdata : zlen data = total (dst_extents op) * kBlockSize).
  { unfold data. rewrite Heq. apply zlen_data; [by eapply on_device_ok|]. by apply on_device_file. }
  rewrite Hdata, Z.sub_diag. change (replicate (Z.to_nat 0) 0) with (@nil Z). rewrite app_nil_r.
  eapply writes_bind; [by apply move_writes|]. intros d f2 sl2 Hat2 _ ->. by apply writes_ret.
Qed.

(** ** Copies *)

Lemma ExtentsToBlocks_expand es : Forall extent_ok es -> ExtentsToBlocks es = ExpandExtents es.
Proof.
  unfold ExtentsToBlocks. induction 1 as [|e es He Hes IH]; [done|]. rewrite bind_cons, ExpandExtents_cons, IH, expand_ok by done. f_equal.
  pose proof He as (? & ? & Hs). replace (seqZ (start_block e) (num_blocks e)) with (Z.add (start_block e) <$> seqZ 0 (num_blocks e)) by (by rewrite fmap_add_seqZ, Z.add_0_r). apply list_fmap_ext. intros i j Hj%list_elem_of_lookup_2.
  rewrite elem_of_seqZ in Hj. unfold kSparseHole in Hs. apply uint_small. unfold is_uint. lia.
Qed.

Definition singles (bs : list Z) : list Extent := (fun b => mkExtent b 1) <$> bs.

Lemma fill_run n b f rest data :
  0 <= n -> 0 <= b -> (b + n) * kBlockSize <= zlen f ->
  fill_extents f (singles (seqZ b n) ++ rest) data
  = fill_extents (write_at f (b * kBlockSize) (take (Z.to_nat (n * kBlockSize)) data)) rest (drop (Z.to_nat (n * kBlockSize)) data).
Proof.
  intros Hn. revert b f data. pattern n. apply natlike_ind; [..|done]; clear n Hn.
  - intros b f data Hb Hf. simpl. rewrite take_0, drop_0, write_at_nil by (unfold kBlockSize in *; lia). done.
  - intros n Hn IH b f data Hb Hf. rewrite seqZ_cons, Z.pred_succ by lia. unfold singles in *. rewrite fmap_cons. cbn [app fill_extents start_block num_blocks].
    unfold kBlockSize in *. set (k := Z.to_nat (1 * 4096)). assert (Hk : k = Z.to_nat 4096) by done.
    assert (Hz : zlen (write_at f (b * 4096) (take k data)) = zlen f).
    { rewrite zlen_write by lia. assert (zlen (take k data) <= 4096) by (unfold zlen; rewrite length_take; lia). lia. }
    rewrite IH by lia. rewrite drop_drop. replace (k + Z.to_nat (n * 4096))%nat with (Z.to_nat (Z.succ n * 4096)) by lia. f_equal.
    destruct (decide (k <= length data)%nat) as [Hd|Hd].
    + assert (Ht : zlen (take k data) = 4096) by (unfold zlen; rewrite length_take; lia).
      replace (Z.succ b * 4096) with (b * 4096 + zlen (take k data)) by lia. rewrite <- write_at_app by lia. f_equal.
      rewrite take_take_drop. f_equal. lia.
    + rewrite drop_ge, take_nil by lia. rewrite write_at_nil by lia. rewrite !take_ge by lia. done.
Qed.

Lemma fill_singles f es data : on_device (zlen f) es -> fill_extents f (singles (ExpandExtents es)) data = fill_extents f es data.
Proof.
  revert f data. induction es as [|e es IH]; intros f data Hes; [done|]. apply Forall_cons in Hes as [[He Hf] Hes]. pose proof He as (? & ? & _).
  rewrite ExpandExtents_cons, expand_ok by done. unfold singles. rewrite fmap_app. fold (singles (seqZ (start_block e) (num_blocks e))). fold (singles (ExpandExtents es)).
  rewrite fill_run by lia. cbn [fill_extents]. apply IH. by rewrite write_extent_zlen.
Qed.

Lemma singles_on_device n bs : (forall b, b ∈ bs -> 0 <= b /\ (b + 1) * kBlockSize <= n) -> n < 2 ^ 63 -> on_device n (singles bs).
Proof.
  intros Hb Hn. unfold on_device, singles. rewrite Forall_fmap, Forall_forall. intros b Hin. destruct (Hb b Hin). simpl.
  unfold extent_ok, kSparseHole, kBlockSize in *. simpl. lia.
Qed.

Section Source.
Context (sp : string) (g : list Z) (Hsrc : src = Some sp) (Hne : sp <> tp) (Hg : D !! sp = Some g) (Hzg : zlen g < 2 ^ 63).

(** What is left to be copied after some blocks. *)
Record copying (f : list Z) (ds : list Z) (bytes : list Z) (hashed : bool) (rest : list (Z * Z)) (acc : list Z * sha_ctx) (f' : list Z) : Prop := {
  cp_buf : zlen (fst acc) = kBlockSize;
  cp_fill : filling f (singles ds) bytes (singles rest.*2) (concat (block_of g <$> rest.*1)) f';
  cp_read : forall b, b ∈ rest.*1 -> 0 <= b /\ (b + 1) * kBlockSize <= zlen g;
  cp_hash : hashed = true -> sha_update (snd acc) (concat (block_of g <$> rest.*1)) = sha_update sha_init bytes;
}.

Lemma copy_block_spec f es ds bytes hashed f' s sl a rest acc :
  zlen f < 2 ^ 63 -> ds ⊆ ExpandExtents es -> at_slots D src tp f' sl -> copying f ds bytes hashed (a :: rest) acc f' ->
  returns (copy_block kBlockSize hashed acc a) (set_slots sl s) (writes D src tp f' es (set_slots sl s) no_io_errors (copying f ds bytes hashed rest)).
Proof.
  destruct a as [b d]. intros Hz Hds Hat [Hbuf Hfill Hread Hhash]. destruct (Hread b) as [Hb Hbg]; [by left|].
  pose proof (fl_size _ _ _ _ _ _ Hfill) as Hs. pose proof (fl_device _ _ _ _ _ _ Hfill) as Hdev. simpl in Hdev.
  apply Forall_cons in Hdev as [[Hd Hdf] _]. pose proof Hd as (Hd0 & _ & _). cbn [start_block num_blocks] in *. unfold copy_block. cbn [fst snd].
  unfold kBlockSize in *. rewrite !uint_small by (unfold is_uint; lia).
  eapply writes_bind; [eapply (source_read D src tp f' g sp); try done; lia|]. intros data f1 sl1 Hat1 _ [-> ->]. change (slice g (b * 4096) 4096) with (block_of g b).
  assert (Hblk : zlen (block_of g b) = 4096) by (unfold block_of, slice; rewrite zlen_take; [done|rewrite zlen_drop; unfold kBlockSize; lia]).
  rewrite drop_ge, app_nil_r by (unfold zlen in *; lia).
  eapply writes_bind.
  { apply (target_write D src tp f' es _ _ _ _ d 1); try done; unfold kBlockSize; try lia. intros c Hc. apply elem_of_seqZ in Hc. assert (c = d) as -> by lia.
    apply Hds. destruct (fl_suffix _ _ _ _ _ _ Hfill) as [pre Hpre]. cut (mkExtent d 1 ∈ singles ds); [|rewrite Hpre; apply elem_of_app; right; by left].
    unfold singles. by intros (x & [= <-] & Hx)%list_elem_of_fmap. }
  intros [] f2 sl2 Hat2 _ ->. rewrite Hblk, Z.eqb_refl.
  eapply writes_bind; [apply (writes_test D src tp _ _ _ _ _ _ (fun _ f3 => f3 = write_at f' (d * 4096) (block_of g b))); done|]. intros [] f3 sl3 Hat3 _ ->.
  apply writes_ret; [done|]. pose proof (filling_step _ _ _ _ _ _ _ Hfill) as Hstep. cbn [start_block num_blocks fmap list_fmap fst snd concat] in Hstep.
  rewrite drop_app_length', take_app_length' in Hstep by (unfold zlen, kBlockSize in *; lia).
  split; cbn [fst snd]; [done|done|intros c Hc; apply Hread; by right|]. intros ->. rewrite sha_update_app. by apply Hhash.
Qed.

Definition hash_matches op (bytes : list Z) : Prop := from_option (fun h => h = sha256 bytes) True (src_sha256_hash op).

Lemma ValidateSourceHash_ok f es s sl op bytes :
  at_slots D src tp f sl -> is_Some (src_sha256_hash op) -> hash_matches op bytes ->
  returns (ValidateSourceHash (sha256 bytes) op) (set_slots sl s) (writes D src tp f es (set_slots sl s) no_io_errors (fun _ f' => f' = f)).
Proof.
  intros Hat [h Hh] Hm. unfold hash_matches in Hm. rewrite Hh in Hm. simpl in Hm. unfold ValidateSourceHash. rewrite Hh. simpl.
  rewrite bool_decide_true by done. by apply writes_ret.
Qed.

Lemma whole_blocks_ok l n (s : DeltaPerformer) : l = None \/ l = Some (n * kBlockSize) -> whole_blocks kBlockSize l s = Ret (Some (), s).
Proof. intros [->| ->]; [done|]. unfold whole_blocks, mbind, io_bind, io_check, test_that. cbn. by rewrite Z_mod_mult. Qed.

(** The lengths of an operation, if there are any, are those of its extents. *)
Definition lengths_ok op : Prop :=
  (src_length op = None \/ src_length op = Some (total (src_extents op) * kBlockSize))
  /\ (dst_length op = None \/ dst_length op = Some (total (dst_extents op) * kBlockSize)).

Abbreviation source_bytes op := (concat (block_of g <$> ExpandExtents (src_extents op))).

Lemma PerformSourceCopy_spec f s sl op :
  at_slots D src tp f sl -> block_size_ (progress s) = kBlockSize -> on_device (zlen g) (src_extents op) -> on_device (zlen f) (dst_extents op) ->
  zlen f < 2 ^ 63 -> total (dst_extents op) = total (src_extents op) -> total (dst_extents op) < 2 ^ 63 -> lengths_ok op -> hash_matches op (source_bytes op) ->
  returns (PerformSourceCopyOperation op) (set_slots sl s) (writes D src tp f (dst_extents op) (set_slots sl s) no_io_errors
    (fun _ f' => f' = fill_extents f (dst_extents op) (source_bytes op))).
Proof.
  intros Hat Hbs Hdsrc Hddst Hz Heq Ht [Hl1 Hl2] Hhash. pose proof (on_device_ok _ _ Hdsrc) as Hos. pose proof (on_device_ok _ _ Hddst) as Hod.
  unfold PerformSourceCopyOperation. apply returns_bind. unfold returns at 1. cbn [io_get progress set_slots]. rewrite Hbs.
  apply returns_bind. unfold returns at 1. rewrite (whole_blocks_ok _ _ _ Hl1). apply returns_bind. unfold returns at 1. rewrite (whole_blocks_ok _ _ _ Hl2).
  rewrite !GetBlockCount_total, Heq, Z.eqb_refl by (done || lia). apply returns_bind. unfold returns at 1. cbn [test_that].
  rewrite !ExtentsToBlocks_expand by done. set (ss := ExpandExtents (src_extents op)). set (ds := ExpandExtents (dst_extents op)).
  assert (Hlen : length ss = length ds) by (pose proof (ExpandExtents_length _ Hos); pose proof (ExpandExtents_length _ Hod); unfold ss, ds, zlen in *; lia).
  eapply writes_bind.
  { eapply (writes_fold D src tp _ (copying f ds (source_bytes op) (has_src_sha256_hash op))); [done| |].
    - split; cbn [fst snd]; rewrite ?fst_zip, ?snd_zip by lia; [done| |intros b; by apply expanded_blocks|done].
      fold ss. apply filling_start, singles_on_device; [|done]. intros b. by apply expanded_blocks.
    - intros a rest acc f1 sl1 Hat1 Hc. by eapply copy_block_spec. }
  intros acc f1 sl1 Hat1 _ [_ Hfill _ Hh]. apply filling_end in Hfill. unfold ds in Hfill. rewrite fill_singles in Hfill by done. subst f1.
  unfold has_src_sha256_hash in *. case_bool_decide as Eh; [|by apply writes_ret].
  assert (Hf : sha_final (snd acc) = sha256 (source_bytes op)) by (unfold sha256; rewrite <- Hh by done; simpl; by rewrite sha_update_nil).
  rewrite Hf. eapply returns_mono; [by apply ValidateSourceHash_ok|]. intros r s'. by apply writes_mono.
Qed.

(** ** Patches *)

Lemma hash_parts_read e : extent_ok e -> (start_block e + num_blocks e) * kBlockSize <= zlen g ->
  on_device (zlen g) (hash_parts e) /\ concat (block_of g <$> ExpandExtents (hash_parts e)) = concat (block_of g <$> expand e).
Proof.
  intros He Hf. pose proof He as (? & ? & Hs). rewrite expand_ok by done. unfold hash_parts, kMaxBlocksToRead, kSparseHole in *. destruct e as [b n]. cbn [start_block num_blocks] in *.
  set (k := (n + 512 - 1) / 512). assert (Hk : 0 <= k /\ 512 * (k - 1) < n <= 512 * k) by (pose proof (Z.div_mod (n + 512 - 1) 512); pose proof (Z.mod_pos_bound (n + 512 - 1) 512); unfold k; lia).
  clearbody k.
  assert (Hdev : on_device (zlen g) ((fun i => mkExtent (u64 (b + 512 * i)) (Z.min 512 (n - 512 * i))) <$> seqZ 0 k)).
  { unfold on_device. rewrite Forall_fmap, Forall_forall. intros i Hi%elem_of_seqZ. simpl. rewrite uint_small by (unfold is_uint; lia).
    unfold extent_ok, kSparseHole, kBlockSize in *. cbn [start_block num_blocks]. lia. }
  split; [done|]. f_equal. f_equal. clear Hf Hdev.
  enough (Hgen : forall j, 0 <= j <= k -> ExpandExtents ((fun i => mkExtent (u64 (b + 512 * i)) (Z.min 512 (n - 512 * i))) <$> seqZ 0 j) = seqZ b (Z.min n (512 * j))).
  { rewrite Hgen by lia. f_equal. lia. }
  intros j Hj. destruct Hj as [Hj0 Hjk]. revert Hjk. pattern j. apply natlike_ind; [..|done]; clear j Hj0.
  - intros _. rewrite Z.min_r by lia. done.
  - intros j Hj IH Hjk. rewrite <- Z.add_1_r, (seqZ_split 0 (j + 1) j), fmap_app, ExpandExtents_app, IH by lia.
    replace (j + 1 - j) with 1 by lia. rewrite Z.add_0_l, (seqZ_cons j 1) by lia. change (seqZ (Z.succ j) (Z.pred 1)) with (@nil Z). cbn [fmap list_fmap]. rewrite ExpandExtents_cons, expand_ok.
    + change (ExpandExtents []) with (@nil Z). rewrite app_nil_r. cbn [start_block num_blocks]. rewrite uint_small by (unfold is_uint; lia).
      rewrite (seqZ_split b (Z.min n (512 * (j + 1))) (Z.min n (512 * j))) by lia. f_equal. rewrite (Z.min_r n (512 * j)) by lia. f_equal. lia.
    + unfold extent_ok, kSparseHole. cbn [start_block num_blocks]. rewrite uint_small by (unfold is_uint; lia). lia.
Qed.

Lemma hash_fold f es s sl ps ctx :
  at_slots D src tp f sl -> on_device (zlen g) ps ->
  returns (io_fold (hash_part kBlockSize) ps ctx) (set_slots sl s) (writes D src tp f es (set_slots sl s) no_io_errors
    (fun c f' => f' = f /\ c = sha_update ctx (concat (block_of g <$> ExpandExtents ps)))).
Proof.
  intros Hat Hps. eapply returns_mono.
  - eapply (writes_fold D src tp _ (fun rest c f' => f' = f /\ on_device (zlen g) rest
      /\ sha_update c (concat (block_of g <$> ExpandExtents rest)) = sha_update ctx (concat (block_of g <$> ExpandExtents ps)))); [done|done|].
    intros e rest c f1 sl1 Hat1 (-> & [[He Hfe] Hrest]%Forall_cons & Hc). pose proof He as (? & ? & _). unfold hash_part.
    unfold kBlockSize in *. rewrite uint_small by (unfold is_uint; lia). eapply writes_bind; [eapply (source_read D src tp f g sp); try done; lia|].
    intros data f2 sl2 Hat2 _ [-> ->].
    assert (Hd : zlen (slice g (start_block e * 4096) (num_blocks e * 4096)) = num_blocks e * 4096)
      by (unfold slice; rewrite zlen_take; [done|rewrite zlen_drop; lia]).
    rewrite Hd, Z.eqb_refl. eapply writes_bind; [apply (writes_test D src tp _ _ _ _ _ _ (fun _ f' => f' = f)); done|]. intros [] f3 sl3 Hat3 _ ->.
    apply writes_ret; [done|]. split_and!; [done|done|]. rewrite <- Hc, read_extents by done. by rewrite sha_update_app.
  - intros r s'. apply writes_mono; [done|]. intros c f' (-> & _ & E). split; [done|]. rewrite <- E. change (ExpandExtents []) with (@nil Z). simpl. by rewrite sha_update_nil.
Qed.

Lemma hash_parts_device es : on_device (zlen g) es ->
  on_device (zlen g) (es ≫= hash_parts) /\ concat (block_of g <$> ExpandExtents (es ≫= hash_parts)) = concat (block_of g <$> ExpandExtents es).
Proof.
  induction es as [|e es IH]; intros Hes; [done|]. apply Forall_cons in Hes as [[He Hf] Hes]. destruct (IH Hes) as [Hdev Hcat]. destruct (hash_parts_read e He Hf) as [Hdev' Hcat'].
  rewrite bind_cons. split; [by apply Forall_app|]. rewrite ExpandExtents_app, ExpandExtents_cons, !fmap_app, !concat_app, Hcat. by f_equal.
Qed.
End Source.

(** The operation has been performed on the target [f]: it now holds [out] in
    the extents [es], and the download is [d']. *)
Definition performed f (es : list Extent) (out : list Z) (d' : Download) s (r : option ()) (s' : DeltaPerformer) : Prop :=
  exists f' sl d, s' = set_download d (set_slots sl s) /\ at_slots D src tp f' sl /\ same_outside (ExpandExtents es) f f'
    /\ (no_errors -> r = Some ()) /\ (r = Some () -> f' = fill_extents f es out /\ d = d').

Lemma writes_performed f es out s (ok : Prop) r s' :
  (no_errors -> ok) -> writes D src tp f es s ok (fun _ f' => f' = fill_extents f es out) r s' -> performed f es out (download s) s r s'.
Proof.
  intros Hno (f' & sl & -> & Hat & Hsame & Hok & Hgood). exists f', sl, (download s). split_and!; [by destruct s|done|done| |].
  - intros He. by destruct (Hok (Hno He)) as [[] ->].
  - intros ->. by rewrite (Hgood ()).
Qed.

Lemma writes_discard {A} (m : io DeltaPerformer A) f es out s (ok : Prop) n :
  (no_errors -> ok) -> returns m s (writes D src tp f es s ok (fun _ f' => f' = fill_extents f es out)) ->
  returns (_ ← m; DiscardBuffer true n) s (performed f es out (discard true n (download s)) s).
Proof.
  intros Hno Hm. apply returns_bind. eapply returns_mono; [done|]. intros r s' (f' & sl & -> & Hat & Hsame & Hok & Hgood). destruct r as [a|].
  - unfold returns, DiscardBuffer, io_modify. eexists f', sl, _. split_and!; [done|done|done|done|]. intros _. by rewrite (Hgood a).
  - exists f', sl, (download s). split_and!; [by destruct s|done|done| |done]. intros He. by destruct (Hok (Hno He)).
Qed.

(** The data of a patch, the file [old] it applies to and its result. *)
Record patches (old f : list Z) op (patch out : list Z) : Prop := {
  pt_src : on_device (zlen old) (src_extents op);
  pt_dst : on_device (zlen f) (dst_extents op);
  pt_size : zlen old < 2 ^ 63 /\ zlen f < 2 ^ 63;
  pt_totals : total (src_extents op) * kBlockSize < 2 ^ 63 /\ total (dst_extents op) * kBlockSize < 2 ^ 63;
  pt_lengths : src_length op = Some (total (src_extents op) * kBlockSize) /\ dst_length op = Some (total (dst_extents op) * kBlockSize);
  pt_patch : bspatch (concat (block_of old <$> ExpandExtents (src_extents op))) patch = Some out;
  pt_out : zlen out = total (dst_extents op) * kBlockSize;
}.

Lemma device_starts n es : on_device n es -> n < 2 ^ 63 -> Forall (fun e => start_block e * kBlockSize < 2 ^ 63) es.
Proof. intros Hes Hn. eapply Forall_impl; [done|]. intros e [(? & ? & _) ?]. unfold kBlockSize in *. lia. Qed.

Lemma run_bspatch_spec f old source s sl op patch out :
  at_slots D src tp f sl -> <[tp := f]> D !! source = Some old -> patches old f op patch out ->
  returns (run_bspatch source tp patch (positions_string (byte_ranges (src_extents op))) (positions_string (byte_ranges (dst_extents op)))) (set_slots sl s)
    (writes D src tp f (dst_extents op) (set_slots sl s) no_patch_errors (fun _ f' => f' = fill_extents f (dst_extents op) out)).
Proof.
  intros [Hd Hs Ht] Hold Hp. unfold returns, run_bspatch. cbn [slots set_slots]. rewrite Hd, Hold, lookup_insert_eq.
  destruct (bspatch_ranges old f patch (byte_ranges (src_extents op)) (byte_ranges (dst_extents op)) out) as (rc & data & E & _ & Hrc).
  - apply ranges_on_device, Hp.
  - apply ranges_on_device, Hp.
  - rewrite read_byte_ranges by apply Hp. apply Hp.
  - rewrite sum_byte_ranges. apply Hp.
  - rewrite E. rewrite write_byte_ranges. eexists _, (mkSlots _ _ _). split_and!; [done|split; cbn; [by rewrite insert_insert_eq|done..]|by apply fill_extents_outside, Hp|..].
    + intros He. specialize (He old f patch (positions_string (byte_ranges (src_extents op))) (positions_string (byte_ranges (dst_extents op)))).
      rewrite E in He. simpl in He. subst rc. by eexists.
    + intros []. destruct (Z.eqb_spec rc 0) as [E0|]; [|done]. by rewrite Hrc.
Qed.

Lemma apply_patch_spec f old source s sl op out :
  at_slots D src tp f sl -> block_size_ (progress s) = kBlockSize -> <[tp := f]> D !! source = Some old -> patches old f op (buffer_ (download s)) out ->
  returns (apply_patch source op) (set_slots sl s)
    (performed f (dst_extents op) out (discard true (zlen (buffer_ (download s))) (download s)) (set_slots sl s)).
Proof.
  intros Hat Hbs Hold Hp. pose proof Hp as [Hps Hpd [Hz1 Hz2] [Ht1 Ht2] [Hl1 Hl2] _ _]. unfold apply_patch. apply returns_bind. unfold returns at 1. cbn [io_get].
  cbn [progress set_slots]. rewrite Hbs, Hl1, Hl2. cbn [default from_option id]. unfold id.
  rewrite !ExtentsToBsdiffPositionsString_whole by (done || by eapply on_device_ok || by eapply device_starts).
  apply returns_bind. unfold returns at 1. cbn [io_option]. apply returns_bind. unfold returns at 1. cbn [io_option].
  assert (Htp : target_path_ (set_slots sl s) = tp).
  { unfold target_path_. cbn [slots set_slots]. destruct Hat as [_ _ Ht]. destruct (target_fd_ sl) as [[p pos]|]; by simplify_eq/=. }
  rewrite Htp. eapply (writes_discard _ f (dst_extents op) out (set_slots sl s) no_patch_errors); [by intros []|]. by eapply run_bspatch_spec.
Qed.

(** The buffer holds the data of the operation and nothing else. *)
Definition at_front op (d : Download) : Prop := buffer_offset_ d = default 0 (data_offset op) /\ zlen (buffer_ d) = default 0 (data_length op).

Lemma data_at_front_ok op s : at_front op (download s) -> data_at_front op s = Ret (Some (), s).
Proof.
  intros [Ho Hl]. unfold data_at_front, mbind, io_bind, io_get, test_that. rewrite Ho, Hl, Z.eqb_refl. by rewrite Z.leb_refl.
Qed.

Lemma PerformBsdiff_spec f s sl op out :
  at_slots D src tp f sl -> block_size_ (progress s) = kBlockSize -> at_front op (download s) -> patches f f op (buffer_ (download s)) out ->
  returns (PerformBsdiffOperation op) (set_slots sl s)
    (performed f (dst_extents op) out (discard true (zlen (buffer_ (download s))) (download s)) (set_slots sl s)).
Proof.
  intros Hat Hbs Hfront Hp. unfold PerformBsdiffOperation. apply returns_bind. unfold returns at 1. rewrite data_at_front_ok by done.
  apply returns_bind. unfold returns at 1. cbn [io_get]. apply returns_bind.
  assert (Htp : <[tp := f]> D !! target_path_ (set_slots sl s) = Some f).
  { unfold target_path_. cbn [slots set_slots]. destruct Hat as [_ _ Ht]. destruct (target_fd_ sl) as [[p pos]|]; [|done]. simplify_eq/=. apply lookup_insert_eq. }
  eapply returns_mono; [by eapply apply_patch_spec|]. intros r s' (f' & sl' & d & -> & Hat' & Hsame & Hno & Hok). destruct r as [[]|].
  - unfold zero_tail. apply returns_bind. unfold returns at 1. cbn [io_get progress set_download set_slots]. rewrite Hbs.
    apply returns_bind, returns_check; [done|]. rewrite (proj2 (pt_lengths _ _ _ _ _ Hp)). cbn [default from_option id]. unfold id. rewrite Z_mod_mult.
    by exists f', sl', d.
  - by exists f', sl', d.
Qed.

Lemma PerformSourceBsdiff_spec f sp g s sl op out :
  src = Some sp -> sp <> tp -> D !! sp = Some g ->
  at_slots D src tp f sl -> block_size_ (progress s) = kBlockSize -> at_front op (download s) -> patches g f op (buffer_ (download s)) out ->
  hash_matches op (concat (block_of g <$> ExpandExtents (src_extents op))) ->
  returns (PerformSourceBsdiffOperation op) (set_slots sl s)
    (performed f (dst_extents op) out (discard true (zlen (buffer_ (download s))) (download s)) (set_slots sl s)).
Proof.
  intros Hsrc Hne Hg Hat Hbs Hfront Hp Hhash. pose proof Hp as [Hps Hpd [Hz1 Hz2] _ [Hl1 Hl2] _ _]. unfold PerformSourceBsdiffOperation.
  apply returns_bind. unfold returns at 1. rewrite data_at_front_ok by done.
  apply returns_bind. unfold returns at 1. cbn [io_get progress set_slots]. rewrite Hbs.
  apply returns_bind. unfold returns at 1. rewrite (whole_blocks_ok _ (total (src_extents op))) by (by right).
  apply returns_bind. unfold returns at 1. rewrite (whole_blocks_ok _ (total (dst_extents op))) by (by right). apply returns_bind.
  assert (Htp : <[tp := f]> D !! source_path_ (set_slots sl s) = Some g).
  { unfold source_path_. cbn [slots set_slots]. destruct Hat as [_ Hs _]. rewrite Hsrc in Hs. destruct (source_fd_ sl) as [[p pos]|]; [|done]. simplify_eq/=. by rewrite lookup_insert_ne. }
  eapply returns_mono with (Q := writes D src tp f (dst_extents op) (set_slots sl s) no_io_errors (fun _ f' => f' = f)).
  - unfold has_src_sha256_hash. case_bool_decide as Eh; [|by apply writes_ret]. destruct (hash_parts_device g Hz1 (src_extents op) Hps) as [Hdev Hcat].
    eapply writes_bind; [by apply (hash_fold sp g)|]. intros c f1 sl1 Hat1 _ [-> ->]. rewrite Hcat. by apply (ValidateSourceHash_ok f _ s sl1 op).
  - intros r s' (f' & sl' & -> & Hat' & Hsame & Hok & Hgood). destruct r as [[]|].
    + rewrite (Hgood () eq_refl) in *. change (set_slots sl' (set_slots sl s)) with (set_slots sl' s).
      eapply returns_mono; [by eapply apply_patch_spec|]. done.
    + exists f', sl', (download s). split_and!; [by destruct s|done|done| |done]. intros [He _]. by destruct (Hok He).
Qed.

(** ** Replacements *)

Lemma target_operation f es out s sl (m : io FileDescriptor ()) :
  at_slots D src tp f sl -> zlen out <= total es * kBlockSize -> (forall pos, returns m (mkFd f pos) (writes_out es f out)) ->
  returns (on_target m) (set_slots sl s) (writes D src tp f es (set_slots sl s) no_io_errors (fun _ f' => f' = fill_extents f es out)).
Proof.
  intros Hat Hout Hm. eapply on_target_returns; [done|]. intros pos. eapply returns_mono; [done|]. intros r fd (Hok & Hsame & Hfill) sl' Hat'.
  exists (fd_file fd), sl'. split_and!; [done..| |]; [intros He; by rewrite Hok|]. intros []. apply Hfill.
Qed.

Lemma pad_whole (out : list Z) n : zlen out = n * kBlockSize -> pad_block out = out.
Proof. intros Hn. unfold pad_block. rewrite Hn, Z_mod_mult. apply app_nil_r. Qed.

(** The operation that holds the signatures in payloads of major version 1. *)
Definition signature_operation (m : DeltaArchiveManifest) op : Prop := type_of op = REPLACE /\ signatures_offset m = data_offset op.

Lemma not_signature m op s : manifest_ (metadata s) = m -> data_offset op <> None -> ~ signature_operation m op ->
  ExtractSignatureMessageFromOperation op s = Ret (Some false, s).
Proof.
  intros Hm Hd Hn. unfold ExtractSignatureMessageFromOperation, mbind, io_bind, io_get. rewrite Hm.
  assert (E : negb (bool_decide (type_of op = REPLACE)) || negb (bool_decide (is_Some (signatures_offset m)))
    || negb (default 0 (signatures_offset m) =? default 0 (data_offset op)) = true); [|by rewrite E].
  unfold signature_operation in Hn. case_bool_decide as Ht; [|done]. case_bool_decide as Hs; [|done]. simpl.
  destruct (signatures_offset m) as [o|]; [|by destruct Hs]. destruct (data_offset op) as [o'|]; [|done]. simpl. apply negb_true_iff, Z.eqb_neq. intros ->. by apply Hn.
Qed.

Lemma PerformReplace_spec f s sl op out :
  let data := buffer_ (download s) in
  at_slots D src tp f sl -> block_size_ (progress s) = kBlockSize -> at_front op (download s) -> data_offset op <> None ->
  ~ signature_operation (manifest_ (metadata s)) op -> IsAReplaceOperation (type_of op) = true ->
  on_device (zlen f) (dst_extents op) -> zlen f < 2 ^ 63 -> decodes (type_of op) data [] out -> zlen out = total (dst_extents op) * kBlockSize ->
  returns (PerformReplaceOperation op) (set_slots sl s) (performed f (dst_extents op) out (discard true (zlen data) (download s)) (set_slots sl s)).
Proof.
  intros data Hat Hbs Hfront Hoff Hsig Hrep Hdev Hz Hdec Hout. unfold PerformReplaceOperation. apply returns_bind, returns_check; [done|].
  apply returns_bind. unfold returns at 1. rewrite data_at_front_ok by done. apply returns_bind. unfold returns at 1.
  rewrite (not_signature (manifest_ (metadata s))) by done. apply returns_bind. unfold returns at 1. cbn [io_get download progress set_slots].
  destruct Hfront as [Ho Hl]. rewrite <- Hl, Hbs. fold data.
  assert (Htake : take (Z.to_nat (zlen data)) data = data) by (unfold zlen; by rewrite Nat2Z.id, firstn_all). rewrite !Htake.
  eapply (writes_discard _ f (dst_extents op) out (set_slots sl s) no_io_errors); [by intros []|]. apply target_operation; [done|lia|]. intros pos.
  assert (Hnew : wr_new direct_writer) by done. assert (Hpad : wr_pad (W := ZeroPadExtentWriter DirectExtentWriter) out = out) by (simpl; by eapply pad_whole).
  rewrite <- Hpad. destruct (type_of op); try done; simpl in Hdec.
  - subst out. by apply (write_plain direct_writer).
  - by apply (write_decoded bzip2_stream bunzip2 direct_writer).
  - by apply (write_decoded xz_stream unxz direct_writer).
Qed.

(** ** All operations *)

Definition reads_source (t : InstallOperation_Type) : bool := match t with SOURCE_COPY | SOURCE_BSDIFF => true | _ => false end.
Definition reads_target (t : InstallOperation_Type) : bool := match t with MOVE | BSDIFF => true | _ => false end.

(** An operation that can be applied to the target [f], reading from [old], and writes [out]. *)
Record applicable (m : DeltaArchiveManifest) (old f : list Z) op (data out : list Z) : Prop := {
  ap_type : type_of op <> IMGDIFF /\ type_of op <> DISCARD;
  ap_src : on_device (zlen old) (src_extents op);
  ap_dst : on_device (zlen f) (dst_extents op);
  ap_size : zlen old < 2 ^ 63 /\ zlen f < 2 ^ 63;
  ap_totals : total (src_extents op) * kBlockSize < 2 ^ 63 /\ total (dst_extents op) * kBlockSize < 2 ^ 63;
  ap_lengths : lengths_ok op;
  ap_patch : type_of op = BSDIFF \/ type_of op = SOURCE_BSDIFF -> src_length op <> None /\ dst_length op <> None;
  ap_decodes : decodes (type_of op) data (concat (block_of old <$> ExpandExtents (src_extents op))) out;
  ap_out : zlen out = total (dst_extents op) * kBlockSize;
  ap_hash : hash_matches op (concat (block_of old <$> ExpandExtents (src_extents op)));
  ap_data : if carries_data (type_of op) then data_offset op <> None else data_offset op = None /\ data_length op = None;
  ap_signature : ~ signature_operation m op;
  ap_old : reads_target (type_of op) = true -> old = f;
  ap_source : reads_source (type_of op) = true -> exists sp, src = Some sp /\ sp <> tp /\ D !! sp = Some old;
}.

Lemma applicable_total m old f op data out :
  applicable m old f op data out -> type_of op = MOVE \/ type_of op = SOURCE_COPY -> total (dst_extents op) = total (src_extents op).
Proof.
  intros Hap Ht. pose proof (ap_out _ _ _ _ _ _ Hap) as Ho. pose proof (ap_decodes _ _ _ _ _ _ Hap) as Hdec. pose proof (ap_src _ _ _ _ _ _ Hap) as Hsrc.
  assert (E : concat (block_of old <$> ExpandExtents (src_extents op)) = out) by (destruct Ht as [Ht|Ht]; by rewrite Ht in Hdec).
  rewrite <- E, zlen_data in Ho by (by eapply on_device_ok || by apply on_device_file). unfold kBlockSize in *. lia.
Qed.

Lemma applicable_patches m old f op data out :
  applicable m old f op data out -> type_of op = BSDIFF \/ type_of op = SOURCE_BSDIFF -> patches old f op data out.
Proof.
  intros [_ Hs Hd Hz Ht [Hl1 Hl2] Hp Hdec Ho _ _ _ _ _] Hty. destruct (Hp Hty) as [Hn1 Hn2]. split; try done.
  - split; [by destruct Hl1|by destruct Hl2].
  - destruct Hty as [Hty|Hty]; by rewrite Hty in Hdec.
Qed.

(** Every operation does to the target what its data say. *)
Lemma perform_operation_spec f old s sl op out :
  let d := download s in
  at_slots D src tp f sl -> block_size_ (progress s) = kBlockSize ->
  (if carries_data (type_of op) then at_front op d else True) -> applicable (manifest_ (metadata s)) old f op (buffer_ d) out ->
  returns (perform_operation op) (set_slots sl s)
    (performed f (dst_extents op) out (if carries_data (type_of op) then discard true (zlen (buffer_ d)) d else d) (set_slots sl s)).
Proof.
  intros d Hat Hbs Hfront Hap. pose proof (applicable_total _ _ _ _ _ _ Hap) as Htot. pose proof (applicable_patches _ _ _ _ _ _ Hap) as Hpat.
  destruct Hap as [[Hty1 Hty2] Hs Hd [Hz1 Hz2] [Ht1 Ht2] Hl _ Hdec Ho Hh Hda Hsig Hold Hsrc]. unfold perform_operation.
  destruct (type_of op) eqn:Ht; try done; simpl in Hfront, Hdec, Hda, Hold, Hsrc |- *.
  - apply PerformReplace_spec; rewrite ?Ht; done.
  - apply PerformReplace_spec; rewrite ?Ht; done.
  - rewrite <- (Hold eq_refl) in *. eapply returns_mono; [apply PerformMove_spec; try done; auto|]. intros r s'. rewrite Hdec. apply (writes_performed _ _ _ (set_slots sl s)). by intros [].
  - rewrite <- (Hold eq_refl) in *. apply PerformBsdiff_spec; auto.
  - destruct (Hsrc eq_refl) as (sp & ? & ? & ?). eapply returns_mono; [eapply (PerformSourceCopy_spec sp old); try done; auto; unfold kBlockSize in *; lia|].
    intros r s'. rewrite Hdec. apply (writes_performed _ _ _ (set_slots sl s)). by intros [].
  - destruct (Hsrc eq_refl) as (sp & ? & ? & ?). eapply (PerformSourceBsdiff_spec f sp old); auto.
  - destruct Hda. eapply returns_mono; [by apply PerformZero_spec|]. intros r s'. apply (writes_performed _ _ _ (set_slots sl s)). by intros [].
  - apply PerformReplace_spec; rewrite ?Ht; done.
Qed.
End Operations.
