(* ===== verification/UpdateConsume.v ===== *)
(** * UpdateConsume: the payload as it is downloaded

    [DeltaPerformer::Write] of payload_consumer/delta_performer.cc with what it
    calls: the header and the manifest, the validation of both, the partitions
    of the install plan, the loop over the operations, and the progress that
    is stored so that an update can be resumed.  payload_verifier.cc is here as
    well.  OpenSSL, base64 and the platform are the class [Platform]. *)
From stdpp Require Import strings gmap.
From S2P Require Import Prelude UpdateExtents UpdateGraph UpdateViews UpdateInplace UpdateRun UpdateFile.
From S2P Require Import UpdateBlocks UpdateDelta UpdateApply UpdateChunks UpdateAB UpdateWriter UpdateManifest UpdatePerform.

(** ** Constants *)

Definition kDeltaVersionOffset : Z := 4.
Definition kDeltaVersionSize : Z := 8.
Definition kDeltaManifestSizeOffset : Z := kDeltaVersionOffset + kDeltaVersionSize.
Definition kDeltaManifestSizeSize : Z := 8.
Definition kDeltaMetadataSignatureSizeSize : Z := 4.
Definition kMaxPayloadHeaderSize : Z := 24.
Definition kUpdateStateOperationInvalid : Z := -1.
Definition kMaxResumedUpdateFailures : Z := 10.

Definition kPrefsManifestMetadataSize : string := "manifest-metadata-size".
Definition kPrefsManifestSignatureSize : string := "manifest-signature-size".
Definition kPrefsResumedUpdateFailures : string := "resumed-update-failures".
Definition kPrefsUpdateCheckResponseHash : string := "update-check-response-hash".
Definition kPrefsUpdateStateNextDataLength : string := "update-state-next-data-length".
Definition kPrefsUpdateStateNextDataOffset : string := "update-state-next-data-offset".
Definition kPrefsUpdateStateNextOperation : string := "update-state-next-operation".
Definition kPrefsUpdateStateSHA256Context : string := "update-state-sha-256-context".
Definition kPrefsUpdateStateSignedSHA256Context : string := "update-state-signed-sha-256-context".

Definition kLegacyPartitionNameKernel : string := "boot".
Definition kLegacyPartitionNameRoot : string := "system".
Definition kPostinstallDefaultScript : string := "postinst".

(** ** Platform *)

(** The hardware, the files of keys, OpenSSL, base64 and the message
    [Signatures], of which only the data of each signature are used. *)
Class Platform := {
  GetBuildTimestamp : Z;
  IsOfficialBuild : bool;
  FileExists : string -> bool;
  Base64Decode : list Z -> option (list Z);
  CreateAndOpenTemporaryFile : list Z -> option string;
  ParseSignatures : list Z -> option (list (list Z));
  rsa_key : Type;
  PEM_read_RSA_PUBKEY : string -> option rsa_key;
  RSA_size : rsa_key -> Z;
  RSA_public_decrypt : rsa_key -> list Z -> option (list Z);
  open_succeeds : string -> bool;
}.

(** The members that the constructor or a test sets. *)
Record Settings := mkSettings { supported_major_version_ : Z; supported_minor_version_ : Z; public_key_path_ : string }.

(** ** payload_verifier.cc *)

Definition kRSA2048SHA256Padding : list Z :=
  [0; 1] ++ replicate 202 255 ++ [0]
  ++ [48; 49; 48; 13; 6; 9; 96; 134; 72; 1; 101; 3; 4; 2; 1; 5; 0; 4; 32].

(** The hash is left as it is when the call fails. *)
Definition PadRSA2048SHA256Hash (hash : list Z) : bool * list Z :=
  if zlen hash =? 32 then (zlen (kRSA2048SHA256Padding ++ hash) =? 256, kRSA2048SHA256Padding ++ hash) else (false, hash).

Section Verifier.
Context `{Platform}.

Definition GetRawHashFromSignature (sig_data : list Z) (public_key_path : string) : option (list Z) :=
  if bool_decide (public_key_path = "") then None else
  match PEM_read_RSA_PUBKEY public_key_path with
  | None => None
  | Some rsa =>
      if 2 * RSA_size rsa <? zlen sig_data then None else
      match RSA_public_decrypt rsa sig_data with
      | Some hash => if (0 <? zlen hash) && (zlen hash <=? RSA_size rsa) then Some hash else None
      | None => None
      end
  end.

Definition VerifySignature (signature_blob : list Z) (public_key_path : string) (hash_data : list Z) : bool :=
  if bool_decide (public_key_path = "") then false else
  match ParseSignatures signature_blob with
  | None => false
  | Some signatures => existsb (fun sig_data => bool_decide (GetRawHashFromSignature sig_data public_key_path = Some hash_data)) signatures
  end.

(** [utils::DecodeAndStoreBase64String] *)
Definition DecodeAndStoreBase64String (base64_encoded : list Z) : option string :=
  if bool_decide (base64_encoded = []) then None else
  match Base64Decode base64_encoded with
  | Some contents => if bool_decide (contents = []) then None else CreateAndOpenTemporaryFile contents
  | None => None
  end.
End Verifier.

Inductive MetadataParseResult := kMetadataParseSuccess | kMetadataParseError | kMetadataParseInsufficientData.

Section Consumer.
Context `{Kernel} `{Sha256} `{Prefs} `{Streams} `{Bspatch} `{BlockDevice} `{Protobuf} `{BootControl} `{Platform} (settings : Settings).
Implicit Types (s : DeltaPerformer).

Definition GetPublicKeyFromResponse (plan : InstallPlan) : option string :=
  if IsOfficialBuild || FileExists (public_key_path_ settings) || bool_decide (public_key_rsa plan = []) then None
  else DecodeAndStoreBase64String (public_key_rsa plan).

Definition path_to_public_key (plan : InstallPlan) : string := default (public_key_path_ settings) (GetPublicKeyFromResponse plan).

Definition fail_with {A} (code : ErrorCode) : io DeltaPerformer A := _ ← io_modify (set_error code); io_fail.

(** ** Header and manifest *)

Definition IsHeaderParsed s : bool := negb (metadata_size_ (metadata s) =? 0).

Definition GetManifestOffset (major : Z) : option Z :=
  if major =? kChromeOSMajorPayloadVersion then Some (kDeltaManifestSizeOffset + kDeltaManifestSizeSize)
  else if major =? kBrilloMajorPayloadVersion then Some (kDeltaManifestSizeOffset + kDeltaManifestSizeSize + kDeltaMetadataSignatureSizeSize)
  else None.

Definition GetMinorVersion s : Z :=
  match minor_version (manifest_ (metadata s)) with
  | Some minor => minor
  | None => if bool_decide (pl_type (payload_ s) = kDelta) then kOpSrcHashMinorPayloadVersion else kFullPayloadMinorVersion
  end.

Definition set_header (major manifest_size metadata_signature_size metadata_size : Z) s : DeltaPerformer :=
  set_metadata (mkMetadata (manifest_ (metadata s)) (manifest_valid_ (metadata s)) metadata_size manifest_size metadata_signature_size major) s.

(** The part of [ParsePayloadMetadata] for a header that has not been parsed. *)
Definition parse_header (payload : list Z) : io DeltaPerformer MetadataParseResult :=
  s ← io_get;
  let md := metadata s in
  if zlen payload <? kDeltaManifestSizeOffset then mret kMetadataParseInsufficientData else
  if negb (bool_decide (take 4 payload = kDeltaMagic))
  then _ ← io_modify (set_error kDownloadInvalidMetadataMagicString); mret kMetadataParseError else
  let major := from_big_endian (slice payload kDeltaVersionOffset kDeltaVersionSize) in
  _ ← io_modify (set_header major (manifest_size_ md) (metadata_signature_size_ md) (metadata_size_ md));
  if negb (major =? supported_major_version_ settings) && negb (major =? kChromeOSMajorPayloadVersion)
  then _ ← io_modify (set_error kUnsupportedMajorPayloadVersion); mret kMetadataParseError else
  match GetManifestOffset major with
  | None => _ ← io_modify (set_error kUnsupportedMajorPayloadVersion); mret kMetadataParseError
  | Some manifest_offset =>
      if zlen payload <? manifest_offset then mret kMetadataParseInsufficientData else
      let manifest_size := from_big_endian (slice payload kDeltaManifestSizeOffset kDeltaManifestSizeSize) in
      let signature_size :=
        if major =? kBrilloMajorPayloadVersion
        then from_big_endian (slice payload (kDeltaManifestSizeOffset + kDeltaManifestSizeSize) kDeltaMetadataSignatureSizeSize)
        else metadata_signature_size_ md in
      let metadata_size := u64 (manifest_offset + manifest_size) in
      _ ← io_modify (set_header major manifest_size signature_size metadata_size);
      if hash_checks_mandatory (install_plan_ s) && negb (pl_metadata_size (payload_ s) =? metadata_size)
      then _ ← io_modify (set_error kDownloadInvalidMetadataSize); mret kMetadataParseError
      else mret kMetadataParseSuccess
  end.

(** Size of metadata and signature. *)
Definition metadata_end s : Z := u64 (metadata_size_ (metadata s) + metadata_signature_size_ (metadata s)).

(** The signature in the response, or the one in the payload; the first check of
    the sizes is modulo 2^64, and bytes after the end of [payload] must not be read. *)
Definition metadata_signature_blobs s (payload : list Z) : outcome (option (list Z * list Z)) :=
  let md := metadata s in
  if negb (bool_decide (pl_metadata_signature (payload_ s) = []))
  then Ret ((fun blob => (blob, [])) <$> Base64Decode (pl_metadata_signature (payload_ s)))
  else if major_payload_version_ md =? kBrilloMajorPayloadVersion then
    if zlen payload <? metadata_size_ md + metadata_signature_size_ md then Abort
    else Ret (Some ([], slice payload (metadata_size_ md) (metadata_signature_size_ md)))
  else Ret (Some ([], [])).

Definition ValidateMetadataSignature s (payload : list Z) : outcome ErrorCode :=
  let md := metadata s in
  if zlen payload <? metadata_end s then Ret kDownloadMetadataSignatureError else
  blobs ← metadata_signature_blobs s payload;
  match blobs with
  | None => Ret kDownloadMetadataSignatureError
  | Some (signature_blob, protobuf_blob) =>
      if bool_decide (signature_blob = []) && bool_decide (protobuf_blob = [])
      then Ret (if hash_checks_mandatory (install_plan_ s) then kDownloadMetadataSignatureMissingError else kSuccess)
      else if zlen payload <? metadata_size_ md then Abort else
      let path := path_to_public_key (install_plan_ s) in
      let hash := snd (PadRSA2048SHA256Hash (sha256 (take (Z.to_nat (metadata_size_ md)) payload))) in
      Ret (if bool_decide (hash = []) then kDownloadMetadataSignatureVerificationError else
           if negb (bool_decide (signature_blob = [])) then
             match GetRawHashFromSignature signature_blob path with
             | None => kDownloadMetadataSignatureError
             | Some expected => if bool_decide (hash = expected) then kSuccess else kDownloadMetadataSignatureMismatch
             end
           else if VerifySignature protobuf_blob path hash then kSuccess else kDownloadMetadataSignatureMismatch)
  end.

Definition set_manifest (m : DeltaArchiveManifest) (valid : bool) s : DeltaPerformer :=
  let md := metadata s in
  set_metadata (mkMetadata m valid (metadata_size_ md) (manifest_size_ md) (metadata_signature_size_ md) (major_payload_version_ md)) s.

(** The size of the manifest is passed as an [int]; the bytes that are parsed must exist. *)
Definition ParsePayloadMetadata (payload : list Z) : io DeltaPerformer MetadataParseResult :=
  _ ← io_modify (set_error kSuccess);
  s ← io_get;
  header ← (if IsHeaderParsed s then mret kMetadataParseSuccess else parse_header payload);
  match header with
  | kMetadataParseSuccess =>
      s ← io_get;
      if zlen payload <? metadata_end s then mret kMetadataParseInsufficientData else
      error ← io_outcome (ValidateMetadataSignature s payload);
      if negb (bool_decide (error = kSuccess)) && hash_checks_mandatory (install_plan_ s)
      then _ ← io_modify (set_error error); mret kMetadataParseError else
      match GetManifestOffset (major_payload_version_ (metadata s)) with
      | None => _ ← io_modify (set_error kUnsupportedMajorPayloadVersion); mret kMetadataParseError
      | Some manifest_offset =>
          let size := sint 32 (manifest_size_ (metadata s)) in
          _ ← io_check ((0 <=? size) && (manifest_offset + size <=? zlen payload));
          match ParseFromArray (slice payload manifest_offset size) with
          | None => _ ← io_modify (set_error kDownloadManifestParseError); mret kMetadataParseError
          | Some m => _ ← io_modify (set_manifest m (manifest_valid_ (metadata s))); mret kMetadataParseSuccess
          end
      end
  | result => mret result
  end.

Definition ValidateManifest : io DeltaPerformer ErrorCode :=
  s ← io_get;
  let m := manifest_ (metadata s) in
  let has_old_fields := bool_decide (is_Some (old_kernel_info m)) || bool_decide (is_Some (old_rootfs_info m))
    || existsb (fun p => bool_decide (is_Some (old_partition_info p))) (manifest_partitions m) in
  let actual_payload_type := if has_old_fields then kDelta else kFull in
  let p := payload_ s in
  if negb (bool_decide (pl_type p = kUnknown)) && negb (bool_decide (pl_type p = actual_payload_type)) then mret kPayloadMismatchedType else
  _ ← io_modify (set_payload (mkPayload (pl_size p) (pl_metadata_size p) (pl_metadata_signature p) (pl_hash p) actual_payload_type (pl_already_applied p)));
  let expected := if has_old_fields then supported_minor_version_ settings else kFullPayloadMinorVersion in
  if negb (default 0 (minor_version m) =? expected) then mret kUnsupportedMinorPayloadVersion else
  if negb (major_payload_version_ (metadata s) =? kChromeOSMajorPayloadVersion)
     && (bool_decide (is_Some (old_rootfs_info m)) || bool_decide (is_Some (new_rootfs_info m)) || bool_decide (is_Some (old_kernel_info m))
         || bool_decide (is_Some (new_kernel_info m)) || negb (bool_decide (install_operations m = []))
         || negb (bool_decide (kernel_install_operations m = [])))
  then mret kPayloadMismatchedType else
  if default 0 (manifest_max_timestamp m) <? GetBuildTimestamp then mret kPayloadTimestampError else
  mret kSuccess.

(** ** Partitions *)

Definition set_partitions (ps : list PartitionUpdate) s : DeltaPerformer :=
  let p := progress s in
  set_progress (mkProgress ps (acc_num_operations_ p) (num_total_operations_ p) (current_partition_ p) (next_operation_num_ p)
    (last_updated_buffer_offset_ p) (block_size_ p)) s.

(** The partitions are moved out of the manifest. *)
Definition take_partitions s : DeltaPerformer :=
  let md := metadata s in
  let m := manifest_ md in
  let rest kernel root ps ok nk or nr := mkManifest root kernel (manifest_block_size m) (signatures_offset m) (signatures_size m)
    ok nk or nr (old_image_info m) (new_image_info m) (minor_version m) ps (manifest_max_timestamp m) in
  if major_payload_version_ md =? kBrilloMajorPayloadVersion then
    set_partitions (manifest_partitions m)
      (set_manifest (rest (kernel_install_operations m) (install_operations m) [] (old_kernel_info m) (new_kernel_info m)
                       (old_rootfs_info m) (new_rootfs_info m)) (manifest_valid_ md) s)
  else if major_payload_version_ md =? kChromeOSMajorPayloadVersion then
    set_partitions
      (partitions_ (progress s)
       ++ [mkUpdate kLegacyPartitionNameRoot (Some false) None None (old_rootfs_info m) (new_rootfs_info m) (install_operations m) None;
           mkUpdate kLegacyPartitionNameKernel (Some false) None None (old_kernel_info m) (new_kernel_info m) (kernel_install_operations m) None])
      (set_manifest (rest [] [] (manifest_partitions m) None None None None) (manifest_valid_ md) s)
  else s.

(** The install plan's view of a partition; none without information on the new one. *)
Definition install_partition (p : PartitionUpdate) : option InstallPartition :=
  let run := bool_decide (run_postinstall p = Some true) in
  match new_partition_info p with
  | None => None
  | Some info => Some (mkInstallPartition (partition_name p)
      "" (from_option (fun i => default 0 (info_size i)) 0 (old_partition_info p)) (from_option (fun i => default [] (info_hash i)) [] (old_partition_info p))
      "" (default 0 (info_size info)) (default [] (info_hash info))
      run (if run then default kPostinstallDefaultScript (pu_postinstall_path p) else "")
      (if run then default "" (pu_filesystem_type p) else "") (if run then default false (pu_postinstall_optional p) else false))
  end.

Definition set_plan_partitions (ps : list InstallPartition) (plan : InstallPlan) : InstallPlan :=
  mkPlan (source_slot plan) (target_slot plan) ps (hash_checks_mandatory plan) (public_key_rsa plan).

(** Appends to the plan until a partition lacks information. *)
Fixpoint fill_plan (ps : list PartitionUpdate) : io DeltaPerformer () :=
  match ps with
  | [] => mret ()
  | p :: ps =>
      match install_partition p with
      | None => fail_with kDownloadNewPartitionInfoError
      | Some part =>
          _ ← io_modify (fun s => set_plan (set_plan_partitions (plan_partitions (install_plan_ s) ++ [part]) (install_plan_ s)) s);
          fill_plan ps
      end
  end.

Definition ParseManifestPartitions : io DeltaPerformer () :=
  _ ← io_modify take_partitions;
  s ← io_get;
  _ ← fill_plan (partitions_ (progress s));
  s ← io_get;
  let '(ok, plan) := LoadPartitionsFromSlots (install_plan_ s) in
  _ ← io_modify (set_plan plan);
  if ok then mret () else fail_with kInstallDeviceOpenError.

(** ** Opening partitions *)

(** [OpenFile] *)
Definition OpenFile s (path : string) : option (string * Z) :=
  if open_succeeds path && bool_decide (is_Some (disk (slots s) !! path)) then Some (path, 0) else None.

Definition CloseCurrentPartition : io DeltaPerformer () := io_modify (fun s => set_slots (mkSlots (disk (slots s)) None None) s).

(** Requests are tried until one succeeds. *)
Fixpoint discard_tail (requests : list BlkRequest) (start length : Z) : io DeltaPerformer () :=
  match requests with
  | [] => mret ()
  | request :: requests =>
      result ← io_try (on_target (BlkIoctl request start length));
      if bool_decide (result = Some 0) then mret () else discard_tail requests start length
  end.

Definition DiscardPartitionTail (data_size : Z) : io DeltaPerformer () :=
  size ← on_target (fun fd => Ret (Some (block_dev_size (fd_file fd)), fd));
  if (size =? 0) || (size <=? data_size) then mret ()
  else discard_tail [BLKDISCARD; BLKSECDISCARD; BLKZEROOUT] data_size (size - data_size).

Definition OpenCurrentPartition : io DeltaPerformer () :=
  s ← io_get;
  let p := progress s in
  _ ← test_that (bool_decide (current_partition_ p < length (partitions_ p))%nat);
  let parts := plan_partitions (install_plan_ s) in
  match parts !! (length parts - length (partitions_ p) + current_partition_ p)%nat with
  | None => fun _ => Abort
  | Some install_part =>
      _ ← (if bool_decide (pl_type (payload_ s) = kDelta) && negb (GetMinorVersion s =? kInPlaceMinorPayloadVersion) then
             match OpenFile s (ip_source_path install_part) with
             | None => io_fail
             | fd => io_modify (fun s => set_slots (mkSlots (disk (slots s)) fd (target_fd_ (slots s))) s)
             end
           else mret ());
      match OpenFile s (ip_target_path install_part) with
      | None => io_fail
      | fd =>
          _ ← io_modify (fun s => set_slots (mkSlots (disk (slots s)) (source_fd_ (slots s)) fd) s);
          DiscardPartitionTail (ip_target_size install_part)
      end
  end.

(** ** Progress *)

Definition set_pref_int (key : string) (value : Z) : io DeltaPerformer bool := fun s =>
  let '(ok, store) := SetInt64 key value (prefs_ s) in Ret (Some ok, set_prefs store s).

Definition set_pref_string (key : string) (value : list Z) : io DeltaPerformer bool := fun s =>
  let '(ok, store) := SetString key value (prefs_ s) in Ret (Some ok, set_prefs store s).

Definition CanResumeUpdate (prefs : prefs_store) (update_check_response_hash : list Z) : bool :=
  match GetInt64 kPrefsUpdateStateNextOperation prefs with Some n => 0 <? n | None => false end
  && match GetString kPrefsUpdateCheckResponseHash prefs with
     | Some hash => negb (bool_decide (hash = [])) && bool_decide (hash = update_check_response_hash) | None => false end
  && match GetInt64 kPrefsResumedUpdateFailures prefs with Some n => n <=? kMaxResumedUpdateFailures | None => true end
  && match GetInt64 kPrefsUpdateStateNextDataOffset prefs with Some n => 0 <=? n | None => false end
  && match GetString kPrefsUpdateStateSHA256Context prefs with Some c => negb (bool_decide (c = [])) | None => false end
  && match GetInt64 kPrefsManifestMetadataSize prefs with Some n => 0 <? n | None => false end
  && match GetInt64 kPrefsManifestSignatureSize prefs with Some n => 0 <=? n | None => false end.

Definition ResetUpdateProgress (quick : bool) : io DeltaPerformer () :=
  ok ← set_pref_int kPrefsUpdateStateNextOperation kUpdateStateOperationInvalid;
  _ ← test_that ok;
  if quick then mret () else
  _ ← set_pref_int kPrefsUpdateStateNextDataOffset (-1);
  _ ← set_pref_int kPrefsUpdateStateNextDataLength 0;
  _ ← set_pref_string kPrefsUpdateStateSHA256Context [];
  _ ← set_pref_string kPrefsUpdateStateSignedSHA256Context [];
  _ ← set_pref_string kPrefsUpdateStateSignatureBlob [];
  _ ← set_pref_int kPrefsManifestMetadataSize (-1);
  _ ← set_pref_int kPrefsManifestSignatureSize (-1);
  _ ← set_pref_int kPrefsResumedUpdateFailures 0;
  mret ().

(** The first partition from [i] on with an operation after number [n]; the
    code reads past the end when there is none. *)
Fixpoint partition_from (fuel : nat) (acc : list nat) (n i : nat) : option nat :=
  match fuel with
  | O => None
  | S fuel => match acc !! i with
              | None => None
              | Some a => if (a <=? n)%nat then partition_from fuel acc n (S i) else Some i
              end
  end.

(** Operation [n], in partition [i]. *)
Definition operation_at (p : Progress) (n i : nat) : option InstallOperation :=
  let first := match i with O => O | S j => default O (acc_num_operations_ p !! j) end in
  partitions_ p !! i ≫= fun part => operations part !! (n - first)%nat.

Definition next_data_length (p : Progress) : io DeltaPerformer Z :=
  if (next_operation_num_ p <? num_total_operations_ p)%nat then
    match partition_from (S (length (acc_num_operations_ p))) (acc_num_operations_ p) (next_operation_num_ p) (current_partition_ p)
          ≫= operation_at p (next_operation_num_ p) with
    | None => fun _ => Abort
    | Some op => mret (default 0 (data_length op))
    end
  else mret 0.

Definition set_last_updated (offset : Z) s : DeltaPerformer :=
  let p := progress s in
  set_progress (mkProgress (partitions_ p) (acc_num_operations_ p) (num_total_operations_ p) (current_partition_ p) (next_operation_num_ p)
    offset (block_size_ p)) s.

Definition CheckpointUpdateProgress : io DeltaPerformer () :=
  s ← io_get;
  let d := download s in
  _ ← (if last_updated_buffer_offset_ (progress s) =? buffer_offset_ d then mret () else
         _ ← io_try (ResetUpdateProgress true);
         ok ← set_pref_string kPrefsUpdateStateSHA256Context (ctx_bytes (ctx_ (payload_hash_calculator_ d)));
         _ ← test_that ok;
         ok ← set_pref_string kPrefsUpdateStateSignedSHA256Context (ctx_bytes (ctx_ (signed_hash_calculator_ d)));
         _ ← test_that ok;
         ok ← set_pref_int kPrefsUpdateStateNextDataOffset (sint 64 (buffer_offset_ d));
         _ ← test_that ok;
         _ ← io_modify (set_last_updated (buffer_offset_ d));
         length ← next_data_length (progress s);
         ok ← set_pref_int kPrefsUpdateStateNextDataLength length;
         test_that ok);
  ok ← set_pref_int kPrefsUpdateStateNextOperation (Z.of_nat (next_operation_num_ (progress s)));
  test_that ok.

Definition set_next_operation (n : nat) s : DeltaPerformer :=
  let p := progress s in
  set_progress (mkProgress (partitions_ p) (acc_num_operations_ p) (num_total_operations_ p) (current_partition_ p) n
    (last_updated_buffer_offset_ p) (block_size_ p)) s.

Definition set_block_size (size : Z) s : DeltaPerformer :=
  let p := progress s in
  set_progress (mkProgress (partitions_ p) (acc_num_operations_ p) (num_total_operations_ p) (current_partition_ p) (next_operation_num_ p)
    (last_updated_buffer_offset_ p) size) s.

Definition set_buffer_offset (offset : Z) (d : Download) : Download :=
  mkDownload _ (buffer_ d) offset (payload_hash_calculator_ d) (signed_hash_calculator_ d) (signatures_message_data_ d).

(** Loads what [CheckpointUpdateProgress] has stored, after operation [next_operation]. *)
Definition load_progress (next_operation : Z) : io DeltaPerformer () :=
  _ ← io_modify (set_next_operation (Z.to_nat next_operation));
  s ← io_get;
  let prefs := prefs_ s in
  offset ← io_option (GetInt64 kPrefsUpdateStateNextDataOffset prefs);
  _ ← test_that (0 <=? offset);
  _ ← io_modify (fun s => set_download (set_buffer_offset offset (download s)) s);
  _ ← match GetString kPrefsUpdateStateSignedSHA256Context prefs with
      | None => mret ()
      | Some context =>
          s ← io_get;
          let d := download s in
          c ← io_option (SetContext context (signed_hash_calculator_ d));
          io_modify (set_download (mkDownload _ (buffer_ d) (buffer_offset_ d) (payload_hash_calculator_ d) c (signatures_message_data_ d)))
      end;
  _ ← match GetString kPrefsUpdateStateSignatureBlob prefs with
      | None => mret ()
      | Some blob => io_modify (fun s => let d := download s in
          set_download (mkDownload _ (buffer_ d) (buffer_offset_ d) (payload_hash_calculator_ d) (signed_hash_calculator_ d) blob) s)
      end;
  context ← io_option (GetString kPrefsUpdateStateSHA256Context prefs);
  s ← io_get;
  let d := download s in
  c ← io_option (SetContext context (payload_hash_calculator_ d));
  _ ← io_modify (set_download (mkDownload _ (buffer_ d) (buffer_offset_ d) c (signed_hash_calculator_ d) (signatures_message_data_ d)));
  let md := metadata s in
  size ← io_option (GetInt64 kPrefsManifestMetadataSize prefs);
  _ ← test_that (0 <? size);
  _ ← io_modify (set_header (major_payload_version_ md) (manifest_size_ md) (metadata_signature_size_ md) size);
  signature_size ← io_option (GetInt64 kPrefsManifestSignatureSize prefs);
  _ ← test_that (0 <=? signature_size);
  _ ← io_modify (set_header (major_payload_version_ md) (manifest_size_ md) (u32 signature_size) size);
  _ ← set_pref_int kPrefsResumedUpdateFailures (from_option (Z.add 1) 1 (GetInt64 kPrefsResumedUpdateFailures prefs));
  mret ().

Definition PrimeUpdateState : io DeltaPerformer () :=
  s ← io_get;
  _ ← io_check (manifest_valid_ (metadata s));
  _ ← io_modify (set_block_size (default 4096 (manifest_block_size (manifest_ (metadata s)))));
  match GetInt64 kPrefsUpdateStateNextOperation (prefs_ s) with
  | None => mret ()
  | Some next_operation => if next_operation <=? 0 then mret () else load_progress next_operation
  end.

(** ** Data *)

(** Bytes are moved to the buffer until it has [max]; the bytes left.  The
    difference wraps around when the buffer already has more. *)
Definition CopyDataToBuffer (bytes : list Z) (max : Z) : io DeltaPerformer (list Z) := fun s =>
  let d := download s in
  let read_len := Z.to_nat (Z.min (zlen bytes) (u64 (max - zlen (buffer_ d)))) in
  Ret (Some (drop read_len bytes),
       set_download (mkDownload _ (buffer_ d ++ take read_len bytes) (buffer_offset_ d) (payload_hash_calculator_ d)
                       (signed_hash_calculator_ d) (signatures_message_data_ d)) s).

Definition CanPerformInstallOperation (operation : InstallOperation) s : bool :=
  let d := download s in
  if bool_decide (data_offset operation = None) && bool_decide (data_length operation = None) then true
  else if default 0 (data_offset operation) <? buffer_offset_ d then false
  else u32 (default 0 (data_offset operation) + default 0 (data_length operation)) <=? u64 (buffer_offset_ d + zlen (buffer_ d)).

Definition ValidateOperationHash (operation : InstallOperation) s : ErrorCode :=
  let m := manifest_ (metadata s) in
  let expected_op_hash := default [] (data_sha256_hash operation) in
  if bool_decide (expected_op_hash = []) then
    if default 0 (data_length operation) =? 0 then kSuccess
    else if negb (default 0 (signatures_offset m) =? 0) && (default 0 (signatures_offset m) =? default 0 (data_offset operation)) then kSuccess
    else if hash_checks_mandatory (install_plan_ s) then kDownloadOperationHashMissingError else kSuccess
  else if bool_decide (sha256 (take (Z.to_nat (default 0 (data_length operation))) (buffer_ (download s))) = expected_op_hash)
  then kSuccess else kDownloadOperationHashMismatch.

(** ** Write *)

(** Number of operations up to the end of each partition, added to [acc]. *)
Fixpoint count_operations (ps : list PartitionUpdate) (total : nat) : list nat :=
  match ps with [] => [] | p :: ps => let total := (total + length (operations p))%nat in total :: count_operations ps total end.

Definition set_counts s : DeltaPerformer :=
  let p := progress s in
  let counts := count_operations (partitions_ p) 0 in
  set_progress (mkProgress (partitions_ p) (acc_num_operations_ p ++ counts) (default O (last counts)) (current_partition_ p)
    (next_operation_num_ p) (last_updated_buffer_offset_ p) (block_size_ p)) s.

(** What follows on a valid manifest in the first loop of [Write]. *)
Definition start_update : io DeltaPerformer () :=
  s ← io_get;
  _ ← DiscardBuffer false (metadata_size_ (metadata s));
  _ ← ParseManifestPartitions;
  s ← io_get;
  _ ← test_that (negb (pl_already_applied (payload_ s)));
  _ ← io_modify set_counts;
  _ ← set_pref_int kPrefsManifestMetadataSize (sint 64 (metadata_size_ (metadata s)));
  _ ← set_pref_int kPrefsManifestSignatureSize (metadata_signature_size_ (metadata s));
  primed ← io_try PrimeUpdateState;
  if bool_decide (primed = None) then fail_with kDownloadStateInitializationError else
  opened ← io_try OpenCurrentPartition;
  if bool_decide (opened = None) then fail_with kInstallDeviceOpenError else mret ().

(** A loop of [Write] returns when more data are needed, or leaves some bytes. *)
Inductive WriteStep := kReturn | kLeft (bytes : list Z).

(** The first loop. *)
Fixpoint write_metadata (fuel : nat) (bytes : list Z) : io DeltaPerformer WriteStep :=
  match fuel with
  | O => fun _ => Abort
  | S fuel =>
      s ← io_get;
      if manifest_valid_ (metadata s) then mret (kLeft bytes) else
      let do_read_header := negb (IsHeaderParsed s) in
      bytes ← CopyDataToBuffer bytes (if do_read_header then kMaxPayloadHeaderSize else metadata_end s);
      s ← io_get;
      result ← ParsePayloadMetadata (buffer_ (download s));
      s ← io_get;
      match result with
      | kMetadataParseError => io_fail
      | kMetadataParseInsufficientData => if do_read_header && IsHeaderParsed s then write_metadata fuel bytes else mret kReturn
      | kMetadataParseSuccess =>
          error ← ValidateManifest;
          if negb (bool_decide (error = kSuccess)) then fail_with error else
          _ ← io_modify (fun s => set_manifest (manifest_ (metadata s)) true s);
          _ ← start_update;
          write_metadata fuel bytes
      end
  end.

Definition set_current_partition (i : nat) s : DeltaPerformer :=
  let p := progress s in
  set_progress (mkProgress (partitions_ p) (acc_num_operations_ p) (num_total_operations_ p) i (next_operation_num_ p)
    (last_updated_buffer_offset_ p) (block_size_ p)) s.

(** Opens the partition of the next operation. *)
Fixpoint next_partition (fuel : nat) : io DeltaPerformer () :=
  match fuel with
  | O => fun _ => Abort
  | S fuel =>
      s ← io_get;
      let p := progress s in
      match acc_num_operations_ p !! current_partition_ p with
      | None => fun _ => Abort
      | Some a =>
          if (a <=? next_operation_num_ p)%nat then
            _ ← CloseCurrentPartition;
            _ ← io_modify (set_current_partition (S (current_partition_ p)));
            opened ← io_try OpenCurrentPartition;
            if bool_decide (opened = None) then fail_with kInstallDeviceOpenError else next_partition fuel
          else mret ()
      end
  end.

(** One operation whose data are complete, with [HandleOpResult]. *)
Definition run_operation (op : InstallOperation) : io DeltaPerformer () :=
  s ← io_get;
  let error := if bool_decide (pl_metadata_signature (payload_ s) = []) then kSuccess else ValidateOperationHash op s in
  if negb (bool_decide (error = kSuccess)) && hash_checks_mandatory (install_plan_ s) then fail_with error else
  result ← io_try (perform_operation op);
  s ← io_get;
  if bool_decide (result = None)
  then (if bool_decide (error_ s = kSuccess) then fail_with kDownloadOperationExecutionError else io_fail)
  else
    _ ← io_modify (set_next_operation (S (next_operation_num_ (progress s))));
    _ ← io_try CheckpointUpdateProgress;
    mret ().

(** The loop over the operations.  [cancel] gives the answers of the delegate
    before each operation. *)
Fixpoint write_operations (cancel : nat -> option ErrorCode) (fuel : nat) (bytes : list Z) : io DeltaPerformer WriteStep :=
  match fuel with
  | O => fun _ => Abort
  | S fuel =>
      s ← io_get;
      let n := next_operation_num_ (progress s) in
      if (num_total_operations_ (progress s) <=? n)%nat then mret (kLeft bytes) else
      match cancel n with
      | Some code => fail_with code
      | None =>
          _ ← next_partition (S (length (acc_num_operations_ (progress s))));
          s ← io_get;
          match operation_at (progress s) n (current_partition_ (progress s)) with
          | None => fun _ => Abort
          | Some op =>
              bytes ← CopyDataToBuffer bytes (default 0 (data_length op));
              s ← io_get;
              if negb (CanPerformInstallOperation op s) then mret kReturn else
              _ ← run_operation op;
              write_operations cancel fuel bytes
          end
      end
  end.

(** The signatures after the operations of a payload of major version 2. *)
Definition write_signatures (bytes : list Z) : io DeltaPerformer () :=
  s ← io_get;
  let m := manifest_ (metadata s) in
  match signatures_offset m, signatures_size m with
  | Some offset, Some size =>
      if (major_payload_version_ (metadata s) =? kBrilloMajorPayloadVersion) && bool_decide (signatures_message_data_ (download s) = []) then
        if negb (offset =? buffer_offset_ (download s)) then fail_with kDownloadPayloadVerificationError else
        _ ← CopyDataToBuffer bytes size;
        s ← io_get;
        if zlen (buffer_ (download s)) <? size then mret () else
        extracted ← ExtractSignatureMessage;
        if negb extracted then fail_with kDownloadPayloadVerificationError else
        _ ← DiscardBuffer true 0;
        _ ← io_try CheckpointUpdateProgress;
        mret ()
      else mret ()
  | _, _ => mret ()
  end.

Definition DeltaPerformer_Write (cancel : nat -> option ErrorCode) (bytes : list Z) : io DeltaPerformer () :=
  _ ← io_modify (set_error kSuccess);
  rest ← write_metadata 4 bytes;
  match rest with
  | kReturn => mret ()
  | kLeft bytes =>
      s ← io_get;
      rest ← write_operations cancel (S (num_total_operations_ (progress s))) bytes;
      match rest with kReturn => mret () | kLeft bytes => write_signatures bytes end
  end.

(** ** Close and VerifyPayload *)

(** The result is -1 if there is data left in the buffer; closing the files does not fail. *)
Definition Close : io DeltaPerformer Z :=
  _ ← CloseCurrentPartition;
  _ ← io_modify (fun s => let d := download s in
        set_download (mkDownload _ (buffer_ d) (buffer_offset_ d) (Finalize (payload_hash_calculator_ d)) (Finalize (signed_hash_calculator_ d))
                        (signatures_message_data_ d)) s);
  s ← io_get;
  mret (if bool_decide (buffer_ (download s) = []) then 0 else -1).

Definition VerifyPayload s (update_check_response_hash : list Z) (update_check_response_size : Z) : ErrorCode :=
  let d := download s in
  if negb (update_check_response_size =? u64 (metadata_end s + buffer_offset_ d)) then kPayloadSizeMismatchError else
  if bool_decide (raw_hash_ (payload_hash_calculator_ d) = []) then kDownloadPayloadVerificationError else
  if negb (bool_decide (raw_hash_ (payload_hash_calculator_ d) = update_check_response_hash)) then kPayloadHashMismatchError else
  if negb (FileExists (path_to_public_key (install_plan_ s))) then kSuccess else
  if bool_decide (signatures_message_data_ d = []) then kSignedDeltaPayloadExpectedError else
  let '(padded, hash_data) := PadRSA2048SHA256Hash (raw_hash_ (signed_hash_calculator_ d)) in
  if negb padded || bool_decide (hash_data = []) then kDownloadPayloadPubKeyVerificationError else
  if VerifySignature (signatures_message_data_ d) (path_to_public_key (install_plan_ s)) hash_data then kSuccess
  else kDownloadPayloadPubKeyVerificationError.
End Consumer.
