(* ===== verification/UpdateInstall.v ===== *)
(** * UpdateInstall: a payload that is written is installed

    [DeltaPerformer::Write] on a payload of major version 2, in pieces of any
    size.  [Job] is what the manifest asks for on one partition; the invariant
    [running] says what has been done after some of the operations. *)
From stdpp Require Import strings gmap.
From S2P Require Import Prelude UpdateExtents UpdateGraph UpdateViews UpdateInplace UpdateRun UpdateFile.
From S2P Require Import UpdateBlocks UpdateDelta UpdateApply UpdateChunks UpdateAB UpdateWriter UpdateManifest UpdatePerform UpdateConsume.

(** ** Jobs *)

(** A partition of the manifest, its images, where it is on the device, and the
    size of the target. *)
Record Job := mkJob {
  jb_update : PartitionUpdate;
  jb_old : list Z;
  jb_new : list Z;
  jb_source : string;
  jb_target : string;
  jb_size : Z;
}.

Definition job_ops (j : Job) : list InstallOperation := operations (jb_update j).

(** The blocks that operations write. *)
Definition dst_blocks (ops : list InstallOperation) : list Z := ops ≫= fun op => ExpandExtents (dst_extents op).

(** The data of an operation in the payload. *)
Definition blob_of (blobs : list Z) (op : InstallOperation) : list Z := slice blobs (default 0 (data_offset op)) (default 0 (data_length op)).

Section Jobs.
Context `{Decoders} `{Sha256}.

(** The operation makes blocks of the new image from the old one; this does not
    depend on the contents of the target. *)
Record job_op (delta : bool) (blobs : list Z) (j : Job) (op : InstallOperation) : Prop := {
  jo_type : match type_of op with REPLACE | REPLACE_BZ | REPLACE_XZ | ZERO => True | SOURCE_COPY | SOURCE_BSDIFF => delta = true | _ => False end;
  jo_src : on_device (zlen (jb_old j)) (src_extents op);
  jo_dst : on_device (zlen (jb_new j)) (dst_extents op);
  jo_totals : total (src_extents op) * kBlockSize < 2 ^ 63 /\ total (dst_extents op) * kBlockSize < 2 ^ 63;
  jo_lengths : lengths_ok op;
  jo_patch : type_of op = SOURCE_BSDIFF -> src_length op <> None /\ dst_length op <> None;
  jo_decodes : decodes (type_of op) (blob_of blobs op) (concat (block_of (jb_old j) <$> ExpandExtents (src_extents op)))
                 (concat (block_of (jb_new j) <$> ExpandExtents (dst_extents op)));
  jo_hash : hash_matches op (concat (block_of (jb_old j) <$> ExpandExtents (src_extents op)));
}.

(** An operation without data, or with the hash of its data. *)
Definition op_checked (blobs : list Z) (op : InstallOperation) : Prop :=
  default [] (data_sha256_hash op) = [] /\ default 0 (data_length op) = 0 \/ default [] (data_sha256_hash op) = sha256 (blob_of blobs op).

(** The data of the operations are stored one after the other from [o] to [e]. *)
Fixpoint laid_out (o e : Z) (ops : list InstallOperation) : Prop :=
  match ops with
  | [] => o = e
  | op :: ops =>
      if carries_data (type_of op)
      then exists n, data_offset op = Some o /\ data_length op = Some n /\ 0 < n /\ laid_out (o + n) e ops
      else data_offset op = None /\ data_length op = None /\ laid_out o e ops
  end.

(** The job fits the device, on which the partition is at its paths. *)
Record job_ok `{BootControl} `{Platform} (delta : bool) (blobs : list Z) (plan : InstallPlan) (D : gmap string (list Z)) (j : Job) : Prop := {
  jk_info : exists info, new_partition_info (jb_update j) = Some info /\ info_size info = Some (zlen (jb_new j));
  jk_ops : Forall (job_op delta blobs j) (job_ops j);
  jk_all : forall b, 0 <= b -> (b + 1) * kBlockSize <= zlen (jb_new j) -> b ∈ dst_blocks (job_ops j);
  jk_whole : exists n, zlen (jb_new j) = n * kBlockSize;
  jk_old_size : zlen (jb_old j) < 2 ^ 63;
  jk_size : zlen (jb_new j) <= jb_size j < 2 ^ 63;
  jk_target : open_succeeds (jb_target j) = true /\ exists f, D !! jb_target j = Some f /\ zlen f = jb_size j;
  jk_target_path : target_slot plan <> kInvalidSlot /\ GetPartitionDevice (partition_name (jb_update j)) (target_slot plan) = Some (jb_target j);
  jk_source : delta = true -> open_succeeds (jb_source j) = true /\ D !! jb_source j = Some (jb_old j);
  jk_source_path : slot_path (partition_name (jb_update j)) (source_slot plan) "" = (true, jb_source j);
}.
End Jobs.

(** ** Counting operations *)

Definition all_ops (js : list Job) : list InstallOperation := js ≫= job_ops.

Lemma length_all_ops_app js js' : length (all_ops (js ++ js')) = (length (all_ops js) + length (all_ops js'))%nat.
Proof. unfold all_ops. by rewrite bind_app, length_app. Qed.

Lemma length_all_ops_cons j js : length (all_ops (j :: js)) = (length (job_ops j) + length (all_ops js))%nat.
Proof. unfold all_ops. by rewrite bind_cons, length_app. Qed.

Lemma count_lookup js n i : count_operations (jb_update <$> js) n !! i = (fun _ => n + length (all_ops (take (S i) js)))%nat <$> js !! i.
Proof.
  revert n i. induction js as [|j js IH]; intros n i; [done|]. rewrite fmap_cons. cbn [count_operations]. destruct i as [|i].
  - simpl. unfold all_ops, job_ops. simpl. by rewrite app_nil_r.
  - cbn [lookup list_lookup]. rewrite IH. change (take (S (S i)) (j :: js)) with (j :: take (S i) js).
    destruct (js !! i); [|done]. cbn [fmap option_fmap option_map]. f_equal. rewrite length_all_ops_cons. unfold job_ops. lia.
Qed.

Lemma count_mid dj j later : count_operations (jb_update <$> dj ++ j :: later) 0 !! length dj = Some (length (all_ops dj) + length (job_ops j))%nat.
Proof.
  rewrite count_lookup, lookup_mid. cbn [fmap option_fmap option_map]. f_equal. rewrite (take_app_ge dj) by lia. replace (S (length dj) - length dj)%nat with 1%nat by lia.
  rewrite length_all_ops_app. cbn [take]. rewrite length_all_ops_cons. simpl. lia.
Qed.

Lemma count_before dj j later : dj <> [] -> count_operations (jb_update <$> dj ++ j :: later) 0 !! (length dj - 1)%nat = Some (length (all_ops dj)).
Proof.
  intros Hd. destruct dj as [|j0 dj _] using rev_ind; [done|]. rewrite length_app, Nat.add_sub, <- app_assoc. simpl app. rewrite count_mid.
  rewrite length_all_ops_app, length_all_ops_cons. simpl. f_equal. lia.
Qed.

Lemma length_counts js n : length (count_operations (jb_update <$> js) n) = length js.
Proof. revert n. induction js; simpl; auto. Qed.

Lemma last_count js : default O (last (count_operations (jb_update <$> js) 0)) = length (all_ops js).
Proof.
  rewrite last_lookup, length_counts, count_lookup. destruct js as [|j js _] using rev_ind; [done|]. rewrite length_app, Nat.add_1_r. simpl pred.
  rewrite list_lookup_middle by done. simpl. rewrite take_ge by (rewrite length_app; simpl; lia). done.
Qed.

Lemma operation_at_mid dj j later done op rest last N :
  job_ops j = done ++ op :: rest ->
  operation_at (mkProgress (jb_update <$> dj ++ j :: later) (count_operations (jb_update <$> dj ++ j :: later) 0) N (length dj)
                  (length (all_ops dj) + length done) last kBlockSize) (length (all_ops dj) + length done) (length dj) = Some op.
Proof.
  intros Hops. unfold operation_at. cbn [partitions_ acc_num_operations_]. rewrite list_lookup_fmap, lookup_mid. cbn [fmap option_fmap option_map mbind option_bind].
  assert (Hfirst : match length dj with O => O | S k => default O (count_operations (jb_update <$> dj ++ j :: later) 0 !! k) end = length (all_ops dj)).
  { destruct dj as [|d dj']; [done|]. pose proof (count_before (d :: dj') j later ltac:(done)) as Hb. cbn [length] in *. rewrite Nat.sub_succ, Nat.sub_0_r in Hb. by rewrite Hb. }
  rewrite Hfirst, Nat.add_sub_swap, Nat.sub_diag by lia. simpl. fold (job_ops j). by rewrite Hops, lookup_mid.
Qed.

(** ** Preferences *)

(** Values are stored, each under its key. *)
Class PrefsOk `{Prefs} : Prop := {
  set_int_ok : forall k v p, fst (SetInt64 k v p) = true /\ GetInt64 k (snd (SetInt64 k v p)) = Some v;
  set_string_ok : forall k v p, fst (SetString k v p) = true /\ GetString k (snd (SetString k v p)) = Some v;
  set_int_other : forall k k' v p, k <> k' -> GetInt64 k' (snd (SetInt64 k v p)) = GetInt64 k' p /\ GetString k' (snd (SetInt64 k v p)) = GetString k' p;
  set_string_other : forall k k' v p, k <> k' -> GetInt64 k' (snd (SetString k v p)) = GetInt64 k' p /\ GetString k' (snd (SetString k v p)) = GetString k' p;
}.

Section SetPrefs.
Context `{Sha256} `{PrefsOk}.

Lemma set_pref_int_spec k v (s : DeltaPerformer) : set_pref_int k v s = Ret (Some true, set_prefs (snd (SetInt64 k v (prefs_ s))) s).
Proof. unfold set_pref_int. pose proof (proj1 (set_int_ok k v (prefs_ s))) as E. destruct (SetInt64 k v (prefs_ s)); simpl in *. by subst. Qed.

Lemma set_pref_string_spec k v (s : DeltaPerformer) : set_pref_string k v s = Ret (Some true, set_prefs (snd (SetString k v (prefs_ s))) s).
Proof. unfold set_pref_string. pose proof (proj1 (set_string_ok k v (prefs_ s))) as E. destruct (SetString k v (prefs_ s)); simpl in *. by subst. Qed.
End SetPrefs.

(** What is stored after [k] operations: [off] bytes of data have been consumed,
    and [c] and [c'] are the states of the hashes. *)
Record saved `{Sha256} `{Prefs} (msize sigsize : Z) (k : nat) (off : Z) (c c' : sha_ctx) (p : prefs_store) : Prop := {
  sv_sizes : GetInt64 kPrefsManifestMetadataSize p = Some msize /\ GetInt64 kPrefsManifestSignatureSize p = Some sigsize;
  sv_signature : default [] (GetString kPrefsUpdateStateSignatureBlob p) = [];
  sv_none : k = O -> default 0 (GetInt64 kPrefsUpdateStateNextOperation p) <= 0;
  sv_next : k <> O -> GetInt64 kPrefsUpdateStateNextOperation p = Some (Z.of_nat k) /\ GetInt64 kPrefsUpdateStateNextDataOffset p = Some off
    /\ GetString kPrefsUpdateStateSHA256Context p = Some (ctx_bytes c) /\ GetString kPrefsUpdateStateSignedSHA256Context p = Some (ctx_bytes c');
}.

Ltac prefs_get :=
  repeat match goal with
  | |- context [GetInt64 ?k (snd (SetInt64 ?k ?v ?p))] => rewrite (proj2 (set_int_ok k v p))
  | |- context [GetString ?k (snd (SetString ?k ?v ?p))] => rewrite (proj2 (set_string_ok k v p))
  | |- context [GetInt64 ?k (snd (SetInt64 ?k' ?v ?p))] => rewrite (proj1 (set_int_other k' k v p ltac:(done)))
  | |- context [GetString ?k (snd (SetInt64 ?k' ?v ?p))] => rewrite (proj2 (set_int_other k' k v p ltac:(done)))
  | |- context [GetInt64 ?k (snd (SetString ?k' ?v ?p))] => rewrite (proj1 (set_string_other k' k v p ltac:(done)))
  | |- context [GetString ?k (snd (SetString ?k' ?v ?p))] => rewrite (proj2 (set_string_other k' k v p ltac:(done)))
  end.

Section Checkpoint.
Context `{Sha256} `{PrefsOk}.

Lemma partition_from_mid js dj j later n : js = dj ++ j :: later -> (n < length (all_ops js))%nat -> (length (all_ops dj) <= n)%nat ->
  exists dj' j' later' done op rest, js = dj' ++ j' :: later' /\ job_ops j' = done ++ op :: rest /\ n = (length (all_ops dj') + length done)%nat
    /\ forall fuel, (length (j :: later) < fuel)%nat -> partition_from fuel (count_operations (jb_update <$> js) 0) n (length dj) = Some (length dj').
Proof.
  revert dj j. induction later as [|j2 later IH]; intros dj j Hjs Hn Hdj; subst js.
  all: destruct (decide (length (all_ops dj) + length (job_ops j) <= n)%nat) as [Hle|Hlt].
  - rewrite length_all_ops_app, length_all_ops_cons in Hn. simpl in Hn. lia.
  - destruct (lookup_lt_is_Some_2 (job_ops j) (n - length (all_ops dj))) as [op Hop]; [lia|].
    apply list_elem_of_split_length in Hop as (done & rest & Hops & Hlen). exists dj, j, [], done, op, rest. split_and!; [done|done|lia|].
    intros [|fuel] Hf; [simpl in Hf; lia|]. cbn [partition_from]. rewrite count_mid. by rewrite (proj2 (Nat.leb_gt _ _)) by lia.
  - destruct (IH (dj ++ [j]) j2) as (dj' & j' & later' & done & op & rest & E & Hops & Hk & Hfuel).
    { by rewrite <- app_assoc. } { done. } { rewrite length_all_ops_app, length_all_ops_cons. simpl. lia. }
    exists dj', j', later', done, op, rest. split_and!; try done. intros [|fuel] Hf; [simpl in Hf; lia|]. cbn [partition_from]. rewrite count_mid.
    rewrite (proj2 (Nat.leb_le _ _)) by lia. rewrite <- (Hfuel fuel) by (simpl in *; lia). f_equal. rewrite length_app. simpl. lia.
  - destruct (lookup_lt_is_Some_2 (job_ops j) (n - length (all_ops dj))) as [op Hop]; [lia|].
    apply list_elem_of_split_length in Hop as (done & rest & Hops & Hlen). exists dj, j, (j2 :: later), done, op, rest. split_and!; [done|done|lia|].
    intros [|fuel] Hf; [simpl in Hf; lia|]. cbn [partition_from]. rewrite count_mid. by rewrite (proj2 (Nat.leb_gt _ _)) by lia.
Qed.

(** The counters in the middle of an update. *)
Definition progress_at (js dj : list Job) (k : nat) (last : Z) : Progress :=
  mkProgress (jb_update <$> js) (count_operations (jb_update <$> js) 0) (length (all_ops js)) (length dj) k last kBlockSize.

Lemma next_data_length_spec js dj j later k last (s : DeltaPerformer) : js = dj ++ j :: later -> (length (all_ops dj) <= k)%nat ->
  exists n, next_data_length (progress_at js dj k last) s = Ret (Some n, s).
Proof.
  intros Hjs Hdj. unfold next_data_length, progress_at. cbn [next_operation_num_ num_total_operations_ acc_num_operations_ current_partition_].
  destruct (Nat.ltb_spec k (length (all_ops js))) as [Hk|Hk]; [|by exists 0].
  destruct (partition_from_mid js dj j later k Hjs Hk Hdj) as (dj' & j' & later' & done & op & rest & E & Hops & -> & Hfuel).
  rewrite Hfuel by (rewrite length_counts, Hjs, length_app; lia). cbn [mbind option_bind]. rewrite E.
  pose proof (operation_at_mid dj' j' later' done op rest last (length (all_ops js)) Hops) as Hop.
  unfold operation_at in *. cbn [acc_num_operations_ partitions_] in *. rewrite Hop. by eexists.
Qed.

Lemma CheckpointUpdateProgress_spec js dj j later k last off c c' k0 msize sigsize (s : DeltaPerformer) :
  js = dj ++ j :: later -> (length (all_ops dj) <= k)%nat -> k <> O ->
  progress s = progress_at js dj k last -> 0 <= off < 2 ^ 63 ->
  buffer_offset_ (download s) = off -> ctx_ (payload_hash_calculator_ (download s)) = c -> ctx_ (signed_hash_calculator_ (download s)) = c' ->
  saved msize sigsize k0 off c c' (prefs_ s) \/ last <> off /\ (exists o c1 c2, saved msize sigsize k0 o c1 c2 (prefs_ s)) ->
  (k0 = O -> last <> off) ->
  exists p, CheckpointUpdateProgress s = Ret (Some (), set_prefs p (set_progress (progress_at js dj k off) s)) /\ saved msize sigsize k off c c' p.
Proof.
  intros Hjs Hdj Hk Hp Hoff Hbo Hc Hc' Hsaved Hk0. unfold CheckpointUpdateProgress, mbind, io_bind, io_get. cbn [mret]. rewrite Hbo.
  assert (Hlast : last_updated_buffer_offset_ (progress s) = last) by (by rewrite Hp). rewrite Hlast. destruct (Z.eqb_spec last off) as [->|Hne].
  - destruct Hsaved as [[Hs1 Hs2 _ Hs4]|[? _]]; [|done]. destruct Hs4 as (_ & Ho & Hg1 & Hg2); [intros ->; by apply Hk0|].
    unfold mret, io_ret. rewrite set_pref_int_spec. cbn [test_that]. eexists. split.
    { f_equal. f_equal. rewrite <- Hp. by destruct s. }
    split; prefs_get; try done. by rewrite Hp.
  - unfold ResetUpdateProgress, mbind, io_bind, io_try. rewrite set_pref_int_spec. cbn [test_that]. unfold mret, io_ret.
    rewrite set_pref_string_spec. cbn [test_that]. rewrite set_pref_string_spec. cbn [test_that]. rewrite set_pref_int_spec. cbn [test_that io_modify].
    rewrite Hp. destruct (next_data_length_spec js dj j later k last) with (s := set_last_updated off (set_prefs (snd (SetInt64 kPrefsUpdateStateNextDataOffset (sint 64 off)
      (snd (SetString kPrefsUpdateStateSignedSHA256Context (ctx_bytes c') (snd (SetString kPrefsUpdateStateSHA256Context (ctx_bytes c)
      (snd (SetInt64 kPrefsUpdateStateNextOperation kUpdateStateOperationInvalid (prefs_ s))))))))) s)) as [n Hn]; [done|done|].
    rewrite Hc, Hc'. cbn [prefs_ set_prefs] in *. unfold set_prefs, set_last_updated, set_progress in *. cbn in *. rewrite Hn.
    rewrite set_pref_int_spec. cbn [test_that]. rewrite set_pref_int_spec. cbn [test_that]. eexists. split; [unfold set_prefs; cbn; rewrite Hp; done|].
    cbn. destruct Hsaved as [[Hs1 Hs2 _ _]|[_ (o & c1 & c2 & [Hs1 Hs2 _ _])]]; split; prefs_get; try done; rewrite sint_small by lia; done.
Qed.
End Checkpoint.

(** ** The device during an update *)

(** The target of the job holds blocks [bs] of the new image. *)
Definition holds (D : gmap string (list Z)) (j : Job) (bs : list Z) : Prop :=
  exists f, D !! jb_target j = Some f /\ zlen f = jb_size j /\ forall b, b ∈ bs -> block_of f b = block_of (jb_new j) b.

(** The jobs [dj] are done and [bs] of the current one [j]; other files are not touched. *)
Record disk_ok (D0 : gmap string (list Z)) (dj : list Job) (j : Job) (later : list Job) (bs : list Z) (D : gmap string (list Z)) : Prop := {
  dk_other : forall p, p ∉ jb_target <$> dj ++ j :: later -> D !! p = D0 !! p;
  dk_done : forall i, i ∈ dj -> holds D i (dst_blocks (job_ops i));
  dk_here : holds D j bs;
  dk_later : forall i, i ∈ later -> holds D i [];
}.

Lemma holds_other D j bs p f : jb_target j <> p -> holds D j bs -> holds (<[p := f]> D) j bs.
Proof. intros Hp (g & Hg & Hz & Hb). exists g. by rewrite lookup_insert_ne. Qed.

Lemma targets_ne dj j later i : NoDup (jb_target <$> dj ++ j :: later) -> i ∈ dj \/ i ∈ later -> jb_target i <> jb_target j.
Proof.
  rewrite fmap_app, fmap_cons. intros (_ & Hd & [Hj _]%NoDup_cons)%NoDup_app [Hi|Hi] E.
  - apply (Hd (jb_target i)); [by apply list_elem_of_fmap_2|]. rewrite E. by left.
  - apply Hj. rewrite <- E. by apply list_elem_of_fmap_2.
Qed.

(** Writing to the target of the current job. *)
Lemma disk_ok_write D0 dj j later bs bs' D f :
  NoDup (jb_target <$> dj ++ j :: later) -> disk_ok D0 dj j later bs D -> zlen f = jb_size j ->
  (forall b, b ∈ bs' -> block_of f b = block_of (jb_new j) b) -> disk_ok D0 dj j later bs' (<[jb_target j := f]> D).
Proof.
  intros Hnd [Ho Hd Hh Hl] Hz Hb. split.
  - intros p Hp. rewrite lookup_insert_ne; [by apply Ho|]. intros E. apply Hp. rewrite <- E, fmap_app, fmap_cons. apply elem_of_app. right. by left.
  - intros i Hi. apply holds_other; [by eapply targets_ne; [|left]|by apply Hd].
  - exists f. by rewrite lookup_insert_eq.
  - intros i Hi. apply holds_other; [by eapply targets_ne; [|right]|by apply Hl].
Qed.

(** The next job becomes the current one. *)
Lemma disk_ok_next D0 dj j j' later D :
  disk_ok D0 dj j (j' :: later) (dst_blocks (job_ops j)) D -> disk_ok D0 (dj ++ [j]) j' later [] D.
Proof.
  intros [Ho Hd Hh Hl]. split; [by rewrite <- app_assoc| |apply Hl; by left|intros i Hi; apply Hl; by right].
  intros i [Hi|Hi%list_elem_of_singleton]%elem_of_app; [by apply Hd|by subst i].
Qed.

Section Device.
Context `{KernelSafe} `{Sha256} `{Prefs} `{BlockDevice} `{!BlockDeviceOk}.
Implicit Types (s : DeltaPerformer).

(** Discarding the rest of the device keeps the blocks before it. *)
Lemma discard_tail_spec requests D src tp f s sl start :
  at_slots D src tp f sl -> 0 <= start <= zlen f ->
  returns (discard_tail requests start (zlen f - start)) (set_slots sl s) (fun r s' => r = Some () /\ exists f' sl', s' = set_slots sl' s
    /\ at_slots D src tp f' sl' /\ zlen f' = zlen f /\ forall b, 0 <= b -> (b + 1) * kBlockSize <= start -> block_of f' b = block_of f b).
Proof.
  intros Hat Hs. revert f sl Hat Hs. induction requests as [|q qs IH]; intros f sl Hat Hs; cbn [discard_tail].
  { apply returns_ret. split; [done|]. by exists f, sl. }
  apply returns_bind, returns_try. eapply on_target_returns; [done|]. intros pos. unfold returns at 1, BlkIoctl. cbn [fd_file fd_pos].
  destruct fcntl_ok as [[get_ok set_ok] remove_ok].
  assert (Hcont : forall f' r, zlen f' = zlen f -> (forall b, 0 <= b -> (b + 1) * kBlockSize <= start -> block_of f' b = block_of f b) ->
    forall sl', at_slots D src tp f' sl' ->
    returns (if bool_decide (r = Some 0) then mret () else discard_tail qs start (zlen f - start)) (set_slots sl' s)
      (fun r s' => r = Some () /\ exists f' sl', s' = set_slots sl' s /\ at_slots D src tp f' sl' /\ zlen f' = zlen f
        /\ forall b, 0 <= b -> (b + 1) * kBlockSize <= start -> block_of f' b = block_of f b)).
  { intros f' r Hz Hb sl' Hat'. case_bool_decide; [apply returns_ret; split; [done|]; by exists f', sl'|]. rewrite <- Hz.
    eapply returns_mono; [apply IH; [done|lia]|]. intros r' s' (-> & f2 & sl2 & -> & Hat2 & Hz2 & Hb2). split; [done|]. exists f2, sl2. split_and!; [done|done|lia|].
    intros b ? ?. rewrite Hb2 by done. by apply Hb. }
  destruct (negb (get_ok && set_ok)); [by apply Hcont|]. set (q' := match q with BLKZEROOUT => _ | _ => _ end).
  destruct (blk_ioctl q' f start (zlen f - start)) as [rc f'] eqn:E.
  destruct (blk_ioctl_range q' f start (zlen f - start) rc f') as (data & Hd & -> & _); [lia|lia|lia|done|]. cbn [fd_file].
  apply (Hcont (write_at f start data)); [rewrite zlen_write by lia; lia|].
  intros b Hb Hlt. unfold block_of, kBlockSize in *. apply slice_write_before; lia.
Qed.

Lemma DiscardPartitionTail_spec D src tp f s sl n :
  at_slots D src tp f sl -> 0 <= n ->
  returns (DiscardPartitionTail n) (set_slots sl s) (fun r s' => r = Some () /\ exists f' sl', s' = set_slots sl' s
    /\ at_slots D src tp f' sl' /\ zlen f' = zlen f /\ forall b, 0 <= b -> (b + 1) * kBlockSize <= n -> block_of f' b = block_of f b).
Proof.
  intros Hat Hn. unfold DiscardPartitionTail. apply returns_bind. eapply on_target_returns; [done|]. intros pos. unfold returns at 1. cbn [fd_file].
  intros sl' Hat'. destruct (block_dev_size_ok f) as [E|E]; rewrite E.
  - apply returns_ret. split; [done|]. by exists f, sl'.
  - destruct ((zlen f =? 0) || (zlen f <=? n)) eqn:Eb; [apply returns_ret; split; [done|]; by exists f, sl'|].
    apply orb_false_iff in Eb as [_ Hgt%Z.leb_gt]. eapply returns_mono; [apply discard_tail_spec; [done|lia]|]. done.
Qed.
End Device.

(** ** The state during an update *)

(** The state once the manifest has been accepted: the metadata and the plan,
    the jobs, the data, the disk as it was, and the bytes that have gone into
    the hashes of the payload and of its signed part. *)
Record Setup := mkSetup {
  su_metadata : Metadata;
  su_plan : InstallPlan;
  su_payload : Payload;
  su_jobs : list Job;
  su_delta : bool;
  su_blobs : list Z;
  su_disk : gmap string (list Z);
  su_head : list Z;
  su_signed : list Z;
}.

(** The partition of the install plan for a job. *)
Definition job_part (j : Job) : option InstallPartition :=
  (fun part => load_partition part (jb_source j) (jb_target j)) <$> install_partition (jb_update j).

Record setup_ok `{Decoders} `{Sha256} `{BootControl} `{Platform} (su : Setup) : Prop := {
  so_jobs : Forall (job_ok (su_delta su) (su_blobs su) (su_plan su) (su_disk su)) (su_jobs su);
  so_targets : NoDup (jb_target <$> su_jobs su);
  so_sources : su_delta su = true -> forall i j, i ∈ su_jobs su -> j ∈ su_jobs su -> jb_source i <> jb_target j;
  so_layout : laid_out 0 (zlen (su_blobs su)) (all_ops (su_jobs su));
  so_size : zlen (su_blobs su) < 2 ^ 32;
  so_type : pl_type (su_payload su) = if su_delta su then kDelta else kFull;
  so_minor : exists minor, minor_version (manifest_ (su_metadata su)) = Some minor /\ minor <> kInPlaceMinorPayloadVersion;
  so_signatures : signatures_offset (manifest_ (su_metadata su)) = None;
  so_plan : Some <$> plan_partitions (su_plan su) = job_part <$> su_jobs su;
  so_checks : hash_checks_mandatory (su_plan su) = true -> forall j, j ∈ su_jobs su -> Forall (op_checked (su_blobs su)) (job_ops j);
}.

Section Running.
Context `{KernelSafe} `{Sha256Ok} `{PrefsOk} `{Streams} `{Bspatch} `{BlockDevice} `{Decoders} `{BootControl} `{Platform}.
Context `{!StreamOk bzip2_stream bunzip2} `{!StreamOk xz_stream unxz} `{!BspatchOk} `{!BlockDeviceOk}.
Context (su : Setup) (Hsu : setup_ok su).
Implicit Types (s : DeltaPerformer) (dj later : list Job) (j : Job).
Abbreviation js := (su_jobs su).
Abbreviation blobs := (su_blobs su).

(** The hash of [head] and the data up to [off]. *)
Definition hashed (head : list Z) (off : Z) : sha_ctx := sha_update sha_init (head ++ take (Z.to_nat off) blobs).

(** The blocks of [done], but perhaps those of the next operation, are in [bs]. *)
Definition covers j (bs : list Z) (done rest : list InstallOperation) : Prop :=
  (forall b, b ∈ bs -> 0 <= b /\ (b + 1) * kBlockSize <= zlen (jb_new j))
  /\ forall b, b ∈ dst_blocks done -> b ∈ bs \/ exists op, head rest = Some op /\ b ∈ ExpandExtents (dst_extents op).

(** The operations [done] of job [j] have been performed after those of [dj];
    the data up to [off] have been consumed, and [pend] is in the buffer.  The
    partition of [jc], which follows [dc], is open. *)
Record running dc jc dj j later (done rest : list InstallOperation) (off : Z) (pend : list Z) s : Prop := {
  rn_jobs : js = dj ++ j :: later;
  rn_ops : job_ops j = done ++ rest;
  rn_current : exists lc, js = dc ++ jc :: lc /\ (length dc <= length dj)%nat;
  rn_offset : 0 <= off <= zlen blobs /\ laid_out off (zlen blobs) (rest ++ all_ops later);
  rn_pend : pend = slice blobs off (zlen pend);
  rn_metadata : metadata s = su_metadata su;
  rn_plan : install_plan_ s = su_plan su;
  rn_payload : payload_ s = su_payload su;
  rn_progress : exists last, progress s = progress_at js dc (length (all_ops dj) + length done) last
    /\ (last = 2 ^ 64 - 1 \/ last = off /\ (length (all_ops dj) + length done)%nat <> O);
  rn_download : download s = mkDownload _ pend off (mkCalculator _ (hashed (su_head su) off) []) (mkCalculator _ (hashed (su_signed su) off) []) [];
  rn_saved : saved (sint 64 (metadata_size_ (su_metadata su))) (metadata_signature_size_ (su_metadata su)) (length (all_ops dj) + length done) off
    (hashed (su_head su) off) (hashed (su_signed su) off) (prefs_ s);
  rn_target : fst <$> target_fd_ (slots s) = Some (jb_target jc);
  rn_source : fst <$> source_fd_ (slots s) = if su_delta su then Some (jb_source jc) else None;
  rn_disk : exists bs, disk_ok (su_disk su) dj j later bs (disk (slots s)) /\ covers j bs done rest;
}.

(** ** Opening a partition *)

Lemma plan_lookup dj j later : js = dj ++ j :: later -> exists part, plan_partitions (su_plan su) !! length dj = Some part /\ ip_source_path part = jb_source j
  /\ ip_target_path part = jb_target j /\ ip_target_size part = zlen (jb_new j) /\ length (plan_partitions (su_plan su)) = length js.
Proof.
  intros Hjs. pose proof (so_plan _ Hsu) as Hp. assert (Hl : length (plan_partitions (su_plan su)) = length js).
  { apply (f_equal length) in Hp. by rewrite !length_fmap in Hp. }
  apply (f_equal (lookup (length dj))) in Hp. rewrite !list_lookup_fmap in Hp. rewrite Hjs, lookup_mid in Hp. cbn [fmap option_fmap option_map] in Hp.
  destruct (plan_partitions (su_plan su) !! length dj) as [part|]; [|done]. injection Hp as Hp. exists part.
  pose proof (so_jobs _ Hsu) as Hjobs. rewrite Hjs, Forall_app, Forall_cons in Hjobs. destruct Hjobs as (_ & Hj & _).
  destruct (jk_info _ _ _ _ _ Hj) as (info & Hi & Hsz). unfold job_part, install_partition in Hp. rewrite Hi in Hp. injection Hp as ->. simpl.
  split_and!; try done. by rewrite Hsz.
Qed.

Lemma job_at dj j later : js = dj ++ j :: later -> job_ok (su_delta su) blobs (su_plan su) (su_disk su) j.
Proof. intros Hjs. pose proof (so_jobs _ Hsu) as Hjobs. rewrite Hjs, Forall_app, Forall_cons in Hjobs. by destruct Hjobs as (_ & Hj & _). Qed.

Lemma job_in j : j ∈ js -> job_ok (su_delta su) blobs (su_plan su) (su_disk su) j.
Proof. intros Hj. pose proof (so_jobs _ Hsu) as Hjobs. rewrite Forall_forall in Hjobs. by apply Hjobs. Qed.

(** Operations write blocks of the new image. *)
Lemma job_blocks j : j ∈ js -> forall b, b ∈ dst_blocks (job_ops j) -> 0 <= b /\ (b + 1) * kBlockSize <= zlen (jb_new j).
Proof.
  intros Hj b (op & Hb & Hop)%list_elem_of_bind. pose proof (jk_ops _ _ _ _ _ (job_in j Hj)) as Hall. rewrite Forall_forall in Hall.
  eapply expanded_blocks; [|exact Hb]. by apply (jo_dst _ _ _ _ (Hall op Hop)).
Qed.

Lemma disk_ok_target dj j later bs D i : js = dj ++ j :: later -> disk_ok (su_disk su) dj j later bs D -> i ∈ js ->
  exists f, D !! jb_target i = Some f /\ zlen f = jb_size i.
Proof.
  intros Hjs [_ Hd Hh Hl] Hi. rewrite Hjs in Hi. assert (exists bs', holds D i bs') as (bs' & f & ? & ? & _); [|by exists f].
  apply elem_of_app in Hi as [Hi|[->|Hi]%elem_of_cons]; eexists; [by apply Hd|done|by apply Hl].
Qed.

(** A source is not a target, so it is as it was. *)
Lemma source_kept i dj j later bs D : i ∈ js -> js = dj ++ j :: later -> su_delta su = true -> disk_ok (su_disk su) dj j later bs D ->
  D !! jb_source i = Some (jb_old i) /\ jb_source i <> jb_target i.
Proof.
  intros Hi Hjs Hdelta Hd. split; [|by apply (so_sources _ Hsu)].
  rewrite (dk_other _ _ _ _ _ _ Hd); [by apply (jk_source _ _ _ _ _ (job_in _ Hi))|].
  intros (i' & E & Hi')%list_elem_of_fmap. rewrite <- Hjs in Hi'. by apply (so_sources _ Hsu Hdelta i i').
Qed.

(** Opening a partition may discard the end of its device. *)
Lemma disk_ok_tail dj j later bs D i f f' :
  js = dj ++ j :: later -> i ∈ js -> disk_ok (su_disk su) dj j later bs D -> D !! jb_target i = Some f -> zlen f' = zlen f ->
  (forall b, 0 <= b -> (b + 1) * kBlockSize <= zlen (jb_new i) -> block_of f' b = block_of f b) ->
  (forall b, b ∈ bs -> 0 <= b /\ (b + 1) * kBlockSize <= zlen (jb_new j)) ->
  disk_ok (su_disk su) dj j later bs (<[jb_target i := f']> D).
Proof.
  intros Hjs Hi [Ho Hd Hh Hl] Hf Hz Hb Hbs.
  assert (Hkeep : forall i' bs', i' ∈ js -> (forall b, b ∈ bs' -> 0 <= b /\ (b + 1) * kBlockSize <= zlen (jb_new i')) -> holds D i' bs' -> holds (<[jb_target i := f']> D) i' bs').
  { intros i' bs' Hi' Hin (g & Hg & Hzg & Hbg). destruct (decide (jb_target i' = jb_target i)) as [E|E]; [|by apply holds_other; [|exists g]].
    assert (i' = i) as ->.
    { apply list_elem_of_lookup in Hi as [n1 Hn1], Hi' as [n2 Hn2]. pose proof (so_targets _ Hsu) as Hnd.
      assert (n1 = n2) as ->; [|congruence]. eapply (NoDup_lookup _ _ _ (jb_target i)); [done|by rewrite list_lookup_fmap, Hn1|rewrite list_lookup_fmap, Hn2; simpl; by rewrite E]. }
    exists f'. rewrite lookup_insert_eq. assert (g = f) as -> by congruence. split_and!; [done|lia|]. intros b Hin'. destruct (Hin b Hin'). rewrite Hb by done. by apply Hbg. }
  split.
  - intros p Hp. rewrite lookup_insert_ne; [by apply Ho|]. intros <-. apply Hp. rewrite <- Hjs. by apply list_elem_of_fmap_2.
  - intros i' Hi'. assert (Hin : i' ∈ js) by (rewrite Hjs; apply elem_of_app; by left). apply Hkeep; [done|apply (job_blocks i' Hin)|by apply Hd].
  - apply Hkeep; [rewrite Hjs; apply elem_of_app; right; by left|done|done].
  - intros i' Hi'. apply Hkeep; [rewrite Hjs; apply elem_of_app; right; by right| |by apply Hl]. intros b Hb'. by apply not_elem_of_nil in Hb'.
Qed.

Definition opened jc dj j later (bs : list Z) s (r : option ()) s' : Prop :=
  r = Some () /\ exists sl, s' = set_slots sl s /\ fst <$> target_fd_ sl = Some (jb_target jc)
    /\ fst <$> source_fd_ sl = (if su_delta su then Some (jb_source jc) else None) /\ disk_ok (su_disk su) dj j later bs (disk sl).

Lemma OpenCurrentPartition_spec dc jc lc dj j later bs k last s :
  js = dc ++ jc :: lc -> js = dj ++ j :: later ->
  metadata s = su_metadata su -> install_plan_ s = su_plan su -> payload_ s = su_payload su -> progress s = progress_at js dc k last ->
  source_fd_ (slots s) = None -> disk_ok (su_disk su) dj j later bs (disk (slots s)) -> (forall b, b ∈ bs -> 0 <= b /\ (b + 1) * kBlockSize <= zlen (jb_new j)) ->
  returns OpenCurrentPartition s (opened jc dj j later bs s).
Proof.
  intros Hjs Hzip Hmd Hpl Hpay Hpr Hfd Hdisk Hbs. pose proof (job_at _ _ _ Hjs) as Hj. destruct (plan_lookup _ _ _ Hjs) as (part & Hpart & Hsp & Htp & Hts & Hlen).
  assert (Hin : jc ∈ js) by (rewrite Hjs; apply elem_of_app; right; by left).
  unfold OpenCurrentPartition. apply returns_bind. unfold returns at 1. cbn [io_get]. rewrite Hpr. cbn [progress_at current_partition_ partitions_].
  rewrite length_fmap, Hpl, Hlen, Nat.sub_diag, Nat.add_0_l, Hpart. apply returns_bind, returns_test; [intros _|rewrite bool_decide_eq_false, Hjs, length_app; simpl; lia].
  assert (Hminor : negb (GetMinorVersion s =? kInPlaceMinorPayloadVersion) = true).
  { unfold GetMinorVersion. rewrite Hmd. destruct (so_minor _ Hsu) as (v & -> & Hv). by apply negb_true_iff, Z.eqb_neq. }
  rewrite Hminor, andb_true_r, Hpay, (so_type _ Hsu), Hsp, Htp, Hts. destruct (disk_ok_target _ _ _ _ _ _ Hzip Hdisk Hin) as (f & Hf & Hz).
  destruct (jk_target _ _ _ _ _ Hj) as [Hto _]. assert (Hopen : OpenFile s (jb_target jc) = Some (jb_target jc, 0)).
  { unfold OpenFile. rewrite Hto, Hf. done. }
  assert (Hgo : forall sfd, fst <$> sfd = (if su_delta su then Some (jb_source jc) else None) ->
    returns (match OpenFile s (jb_target jc) with None => io_fail | fd =>
       _ ← io_modify (fun s => set_slots (mkSlots (disk (slots s)) (source_fd_ (slots s)) fd) s); DiscardPartitionTail (zlen (jb_new jc)) end)
      (set_slots (mkSlots (disk (slots s)) sfd (target_fd_ (slots s))) s) (opened jc dj j later bs s)).
  { intros sfd Hsfd. rewrite Hopen. apply returns_bind. unfold returns at 1. cbn [io_modify slots set_slots disk source_fd_ target_fd_].
    change (set_slots _ (set_slots _ s)) with (set_slots (mkSlots (disk (slots s)) sfd (Some (jb_target jc, 0))) s).
    eapply returns_mono; [apply (DiscardPartitionTail_spec (disk (slots s)) (fst <$> sfd) (jb_target jc) f); [|apply zlen_nonneg]|].
    - split; cbn [disk source_fd_ target_fd_]; [by rewrite insert_id|done|done].
    - intros r s' (-> & f' & sl' & -> & [Hd' Hs' Ht'] & Hz' & Hb'). split; [done|]. exists sl'. split_and!; [done|done|congruence|]. rewrite Hd'.
      by eapply disk_ok_tail. }
  apply returns_bind. destruct (su_delta su) eqn:Hdelta.
  - rewrite bool_decide_true by done. destruct (source_kept jc _ _ _ _ _ Hin Hzip Hdelta Hdisk) as [Hsrc _]. destruct (jk_source _ _ _ _ _ Hj eq_refl) as [Hso _].
    assert (HopenS : OpenFile s (jb_source jc) = Some (jb_source jc, 0)) by (unfold OpenFile; by rewrite Hso, Hsrc).
    rewrite HopenS. unfold returns at 1. cbn [io_modify]. by apply Hgo.
  - rewrite bool_decide_false by done. apply returns_ret. specialize (Hgo None eq_refl). rewrite <- Hfd in Hgo. by destruct s as [[] ? ? ? ? ? ? ?].
Qed.

(** The next operation is in the partition that is open afterwards. *)
Definition positioned (k : nat) (ops : list InstallOperation) (off : Z) (pend : list Z) (r : option ()) s' : Prop :=
  r = Some () /\ exists dj j later done op rest, running dj j dj j later done (op :: rest) off pend s' /\ k = (length (all_ops dj) + length done)%nat
    /\ ops = op :: rest ++ all_ops later.

(** After the last operation of a job comes the first one of the next. *)
Lemma running_next dc jc dj j j2 later done off pend s : running dc jc dj j (j2 :: later) done [] off pend s ->
  running dc jc (dj ++ [j]) j2 later [] (job_ops j2) off pend s /\ (length (all_ops dj) + length done)%nat = length (all_ops (dj ++ [j])).
Proof.
  intros [Hjs Hops (lc & Hc & Hlen) Hoff Hpend Hmd Hpl Hpay Hpr Hdl Hsv Htgt Hsrc (bs & Hdisk & Hbs & Hcov)]. rewrite app_nil_r in Hops.
  assert (Hcount : (length (all_ops dj) + length done)%nat = length (all_ops (dj ++ [j]))) by (rewrite length_all_ops_app, length_all_ops_cons, Hops; simpl; lia).
  split; [|done]. split; try done.
  - by rewrite <- app_assoc.
  - exists lc. rewrite length_app. split; [done|lia].
  - simpl length. by rewrite Nat.add_0_r, <- Hcount.
  - simpl length. by rewrite Nat.add_0_r, <- Hcount.
  - exists []. split; [|split; intros b Hb; by apply not_elem_of_nil in Hb]. destruct Hdisk as [Ho Hd (f & Hf & Hz & Hb) Hl]. apply disk_ok_next. split; try done.
    exists f. split_and!; [done|done|]. intros b Hin. rewrite Hops in Hin. apply Hb. by destruct (Hcov b Hin) as [|(op & ? & _)].
Qed.

Lemma current_next dc jc lc dj j later : js = dj ++ j :: later -> js = dc ++ jc :: lc -> (length dc < length dj)%nat ->
  exists jc' lc', lc = jc' :: lc' /\ js = (dc ++ [jc]) ++ jc' :: lc' /\ (length (all_ops dc) + length (job_ops jc) <= length (all_ops dj))%nat.
Proof.
  intros Hjs Hc Hlt. assert (Hpre : dj = dc ++ jc :: take (length dj - length dc - 1) lc).
  { pose proof Hc as E. rewrite Hjs in E. apply (f_equal (take (length dj))) in E. rewrite take_app_length, take_app_ge in E by lia.
    replace (length dj - length dc)%nat with (S (length dj - length dc - 1)) in E by lia. done. }
  destruct lc as [|jc' lc'].
  { rewrite Hc in Hjs. apply (f_equal length) in Hjs. rewrite !length_app in Hjs. simpl in Hjs. lia. }
  exists jc', lc'. split_and!; [done|by rewrite <- app_assoc|]. rewrite Hpre, length_all_ops_app, length_all_ops_cons. lia.
Qed.

(** The partition that is open has no operation left. *)
Lemma next_partition_moves fuel :
  (forall lc dc jc dj j later done rest off pend s, running dc jc dj j later done rest off pend s -> js = dc ++ jc :: lc ->
     (length (all_ops dj) + length done < length (all_ops js))%nat -> (length lc < fuel)%nat ->
     returns (next_partition fuel) s (positioned (length (all_ops dj) + length done) (rest ++ all_ops later) off pend)) ->
  forall lc dc jc dj j later done rest off pend s, running dc jc dj j later done rest off pend s -> js = dc ++ jc :: lc -> (length dc < length dj)%nat ->
  (length (all_ops dj) + length done < length (all_ops js))%nat -> (length lc < S fuel)%nat ->
  returns (next_partition (S fuel)) s (positioned (length (all_ops dj) + length done) (rest ++ all_ops later) off pend).
Proof.
  intros IH lc dc jc dj j later done rest off pend s Hr Hc Hlt Hk Hf. pose proof Hr as [Hjs Hops _ Hoff Hpend Hmd Hpl Hpay (last & Hpr & Hlast) Hdl Hsv _ _ (bs & Hdisk & Hbs & Hcov)].
  destruct (current_next _ _ _ _ _ _ Hjs Hc Hlt) as (jc' & lc' & -> & Hc' & Hle). cbn [next_partition]. apply returns_bind. unfold returns at 1. cbn [io_get].
  rewrite Hpr. cbn [progress_at acc_num_operations_ current_partition_ next_operation_num_]. rewrite Hc at 1. rewrite count_mid, (proj2 (Nat.leb_le _ _)) by lia.
  apply returns_bind. unfold returns at 1. cbn [CloseCurrentPartition io_modify]. apply returns_bind. unfold returns at 1. cbn [io_modify]. apply returns_bind, returns_try.
  assert (Hpr' : progress_at js (dc ++ [jc]) (length (all_ops dj) + length done) last = mkProgress (jb_update <$> js) (count_operations (jb_update <$> js) 0) (length (all_ops js))
    (S (length dc)) (length (all_ops dj) + length done) last kBlockSize) by (unfold progress_at; rewrite length_app, Nat.add_1_r; done).
  eapply returns_mono.
  { apply (OpenCurrentPartition_spec (dc ++ [jc]) jc' lc' dj j later bs (length (all_ops dj) + length done) last);
      cbn [set_current_partition set_progress set_slots metadata install_plan_ payload_ progress slots source_fd_ disk]; try done. by rewrite Hpr, Hpr'. }
  intros r s' (-> & sl & -> & Htgt' & Hsrc' & Hdisk'). rewrite bool_decide_false by done. apply (IH lc' (dc ++ [jc]) jc' dj j later done rest); [|done|done|simpl in Hf; lia].
  split; try done.
  - exists lc'. rewrite length_app. simpl. split; [done|lia].
  - exists last. split; [|done]. rewrite Hpr'. cbn. by rewrite Hpr.
  - exists bs. by split.
Qed.

Lemma next_partition_spec fuel lc dc jc dj j later done rest off pend s :
  running dc jc dj j later done rest off pend s -> js = dc ++ jc :: lc -> (length (all_ops dj) + length done < length (all_ops js))%nat -> (length lc < fuel)%nat ->
  returns (next_partition fuel) s (positioned (length (all_ops dj) + length done) (rest ++ all_ops later) off pend).
Proof.
  revert lc dc jc dj j later done rest off pend s. induction fuel as [|fuel IH]; intros lc dc jc dj j later done rest off pend s Hr Hc Hk Hf; [lia|].
  destruct (decide (length dc = length dj /\ rest = [])) as [[El ->]|Hne].
  { destruct later as [|j2 later].
    { rewrite (rn_jobs _ _ _ _ _ _ _ _ _ _ Hr), length_all_ops_app, length_all_ops_cons, (rn_ops _ _ _ _ _ _ _ _ _ _ Hr), app_nil_r in Hk. simpl in Hk. lia. }
    destruct (running_next _ _ _ _ _ _ _ _ _ _ Hr) as [Hr' Hcount]. rewrite Hcount, app_nil_l. change (all_ops (j2 :: later)) with (job_ops j2 ++ all_ops later).
    assert (length dc < length (dj ++ [j]))%nat by (rewrite length_app; simpl; lia).
    replace (length (all_ops (dj ++ [j]))) with (length (all_ops (dj ++ [j])) + length (@nil InstallOperation))%nat in * by (simpl; lia).
    rewrite Hcount in Hk. by apply (next_partition_moves fuel IH lc dc jc (dj ++ [j]) j2 later [] (job_ops j2)). }
  destruct (decide (length dc < length dj)%nat) as [Hlt|Hge]; [by apply (next_partition_moves fuel IH lc dc jc dj j later)|].
  pose proof Hr as [Hjs Hops (lc' & Hc' & Hlen) _ _ _ _ _ (last & Hpr & _) _ _ _ _ _].
  assert (Eq : dc = dj /\ jc = j). { assert (El : length dc = length dj) by lia. rewrite Hjs in Hc. apply app_inj_1 in Hc as [-> [= <- _]]; done. } destruct Eq as [-> ->].
  cbn [next_partition]. apply returns_bind. unfold returns at 1. cbn [io_get]. rewrite Hpr. cbn [progress_at acc_num_operations_ current_partition_ next_operation_num_].
  rewrite Hjs, count_mid, Hops, length_app. destruct rest as [|op rest]; [by destruct Hne|]. rewrite (proj2 (Nat.leb_gt _ _)) by (simpl; lia).
  apply returns_ret. split; [done|]. do 6 eexists. split; [done|by split].
Qed.

(** ** One operation *)

Lemma fill_new f (new : list Z) es b : on_device (zlen f) es -> on_device (zlen new) es -> 0 <= b ->
  block_of (fill_extents f es (concat (block_of new <$> ExpandExtents es))) b = if decide (b ∈ ExpandExtents es) then block_of new b else block_of f b.
Proof.
  intros Hf Hn Hb. pose proof (on_device_ok _ _ Hn) as Hok. pose proof (on_device_file _ _ Hn) as Hin. rewrite fill_extents_blocks by (done || by apply zlen_data).
  rewrite blocks_of_concat by (intros x; by apply in_file_blocks). apply write_blocks_new.
Qed.

Lemma on_device_mono n n' es : n <= n' -> on_device n es -> on_device n' es.
Proof. intros Hn Hes. eapply Forall_impl; [done|]. intros e [? ?]. split; [done|lia]. Qed.

Lemma dst_blocks_app ops ops' : dst_blocks (ops ++ ops') = dst_blocks ops ++ dst_blocks ops'.
Proof. apply bind_app. Qed.

Lemma hashed_more head off pend : 0 <= off -> pend = slice blobs off (zlen pend) -> sha_update (hashed head off) pend = hashed head (off + zlen pend).
Proof.
  intros Ho Hp. unfold hashed. rewrite sha_update_app, <- app_assoc. do 2 f_equal. rewrite Hp at 1. unfold slice. pose proof (zlen_nonneg pend).
  rewrite take_take_drop. f_equal. lia.
Qed.

(** The data of the operation at the head, and the offset after it. *)
Lemma laid_out_head off op ops : laid_out off (zlen blobs) (op :: ops) -> 0 <= off ->
  let pend := blob_of blobs op in
  (if carries_data (type_of op) then data_offset op = Some off else data_offset op = None /\ data_length op = None)
  /\ zlen pend = default 0 (data_length op) /\ laid_out (off + zlen pend) (zlen blobs) ops /\ off + zlen pend <= zlen blobs.
Proof.
  intros Hl Ho pend.
  assert (Hend : forall o l, laid_out o (zlen blobs) l -> o <= zlen blobs).
  { intros o l. revert o. induction l as [|x l IH]; intros o; simpl; [lia|]. destruct (carries_data _); [intros (n & _ & _ & ? & Hx); apply IH in Hx; lia|intros (_ & _ & Hx); by apply IH]. }
  simpl in Hl. unfold pend, blob_of. destruct (carries_data (type_of op)).
  - destruct Hl as (n & E1 & E2 & Hn & Hl). rewrite E1, E2. cbn [default from_option id]. unfold id. apply Hend in Hl as Hle.
    assert (Hz : zlen (slice blobs off n) = n) by (unfold slice; rewrite zlen_take; [done|rewrite zlen_drop; lia]). rewrite Hz. done.
  - destruct Hl as (E1 & E2 & Hl). rewrite E1, E2. cbn [default from_option id]. unfold id. apply Hend in Hl as Hle.
    change (zlen (slice blobs 0 0)) with 0. rewrite Z.add_0_r. done.
Qed.

Lemma job_op_applicable dj j later done op rest bs f sl off :
  js = dj ++ j :: later -> job_ops j = done ++ op :: rest -> laid_out off (zlen blobs) (op :: rest ++ all_ops later) ->
  disk_ok (su_disk su) dj j later bs (disk sl) -> zlen f = jb_size j ->
  applicable (disk sl) (if su_delta su then Some (jb_source j) else None) (jb_target j) (manifest_ (su_metadata su)) (jb_old j) f op (blob_of blobs op)
    (concat (block_of (jb_new j) <$> ExpandExtents (dst_extents op))).
Proof.
  intros Hjs Hops Hlay Hdisk Hz. pose proof (job_at _ _ _ Hjs) as Hj. pose proof (jk_ops _ _ _ _ _ Hj) as Hall. rewrite Hops in Hall.
  apply Forall_app in Hall as [_ [Hop _]%Forall_cons]. pose proof (jk_size _ _ _ _ _ Hj) as Hsz. pose proof (jo_type _ _ _ _ Hop) as Hty.
  split.
  - by destruct (type_of op).
  - apply Hop.
  - eapply on_device_mono; [|apply Hop]. lia.
  - split; [apply Hj|lia].
  - apply Hop.
  - apply Hop.
  - intros [E|E]; [by rewrite E in Hty|by apply Hop].
  - apply Hop.
  - apply zlen_data; [eapply on_device_ok, Hop|apply on_device_file, Hop].
  - apply Hop.
  - simpl in Hlay. destruct (carries_data _); [destruct Hlay as (n & -> & _); done|by destruct Hlay as (? & ? & _)].
  - intros [Et Es]. rewrite (so_signatures _ Hsu) in Es. simpl in Hlay. rewrite Et in Hlay. destruct Hlay as (n & E & _). congruence.
  - intros E. destruct (type_of op); done.
  - intros E. assert (Hdelta : su_delta su = true) by (destruct (type_of op); done). rewrite Hdelta. exists (jb_source j).
    destruct (source_kept j _ _ _ _ _ ltac:(rewrite Hjs; apply elem_of_app; right; by left) Hjs Hdelta Hdisk). done.
Qed.

(** An update that has stopped, perhaps in the middle of the next operation:
    the disk is as far as the progress that was saved says. *)
Record interrupted s : Prop := {
  ir_position : exists dj j later done rest off bs, js = dj ++ j :: later /\ job_ops j = done ++ rest
    /\ 0 <= off <= zlen blobs /\ laid_out off (zlen blobs) (rest ++ all_ops later)
    /\ saved (sint 64 (metadata_size_ (su_metadata su))) (metadata_signature_size_ (su_metadata su)) (length (all_ops dj) + length done) off
         (hashed (su_head su) off) (hashed (su_signed su) off) (prefs_ s)
    /\ disk_ok (su_disk su) dj j later bs (disk (slots s)) /\ covers j bs done rest;
}.

Lemma running_interrupted dc jc dj j later done rest off pend s : running dc jc dj j later done rest off pend s -> interrupted s.
Proof. intros [Hjs Hops _ [Hoff Hlay] _ _ _ _ _ _ Hsv _ _ (bs & Hdisk & Hcov)]. split. by exists dj, j, later, done, rest, off, bs. Qed.

(** The disk after an operation, or in the middle of it. *)
Lemma disk_after dj j later done op rest bs D f f' :
  js = dj ++ j :: later -> job_ops j = done ++ op :: rest -> disk_ok (su_disk su) dj j later bs D -> covers j bs done (op :: rest) -> D !! jb_target j = Some f ->
  same_outside (ExpandExtents (dst_extents op)) f f' ->
  (exists bs', disk_ok (su_disk su) dj j later bs' (<[jb_target j := f']> D) /\ covers j bs' done (op :: rest))
  /\ (f' = fill_extents f (dst_extents op) (concat (block_of (jb_new j) <$> ExpandExtents (dst_extents op))) ->
     exists bs', disk_ok (su_disk su) dj j later bs' (<[jb_target j := f']> D) /\ covers j bs' (done ++ [op]) rest).
Proof.
  intros Hjs Hops Hdisk [Hbs Hcov] Hf [Hz Hsame]. destruct (dk_here _ _ _ _ _ _ Hdisk) as (f0 & Hf0 & Hz0 & Hb0). assert (f0 = f) as -> by congruence.
  pose proof (job_at _ _ _ Hjs) as Hj. pose proof (jk_ops _ _ _ _ _ Hj) as Hall. rewrite Hops in Hall. apply Forall_app in Hall as [_ [Hop _]%Forall_cons].
  split; [exists (filter (fun b => b ∉ ExpandExtents (dst_extents op)) bs)|intros Hfill; exists (dst_blocks (done ++ [op]))]; (split; [eapply disk_ok_write; [rewrite <- Hjs; apply Hsu|done|lia|]|split]).
  - intros b Hb. apply list_elem_of_filter in Hb as [Hn Hb]. destruct (Hbs b Hb). rewrite Hsame by done. by apply Hb0.
  - intros b Hb. apply list_elem_of_filter in Hb as [_ Hb]. by apply Hbs.
  - intros b Hb. destruct (decide (b ∈ ExpandExtents (dst_extents op))) as [Hin|Hin]; [right; by exists op|left]. apply list_elem_of_filter. split; [done|].
    destruct (Hcov b Hb) as [|(op' & [= <-] & ?)]; done.
  - intros b Hb. assert (Hge : 0 <= b /\ (b + 1) * kBlockSize <= zlen (jb_new j)).
    { apply (job_blocks j); [rewrite Hjs; apply elem_of_app; right; by left|]. rewrite Hops, (cons_middle op), app_assoc, dst_blocks_app. apply elem_of_app. by left. }
    rewrite Hfill, fill_new; [|eapply on_device_mono; [|apply Hop]; pose proof (jk_size _ _ _ _ _ Hj); lia|apply Hop|lia].
    destruct (decide _) as [|Hn]; [done|]. apply Hb0. rewrite dst_blocks_app in Hb. apply elem_of_app in Hb as [Hb|Hb].
    + destruct (Hcov b Hb) as [|(op' & [= <-] & ?)]; done.
    + exfalso. apply Hn. unfold dst_blocks in Hb. simpl in Hb. by rewrite app_nil_r in Hb.
  - intros b Hb. apply (job_blocks j); [rewrite Hjs; apply elem_of_app; right; by left|]. rewrite Hops, (cons_middle op), app_assoc, dst_blocks_app. apply elem_of_app. by left.
  - intros b Hb. by left.
Qed.

Definition operated dj j later done op rest off (r : option ()) s' : Prop :=
  (no_errors -> r = Some ()) /\ (r = None -> interrupted s')
  /\ (r = Some () -> running dj j dj j later (done ++ [op]) rest (off + zlen (blob_of blobs op)) [] s').

Lemma ValidateOperationHash_checked op s : op_checked blobs op -> zlen (blob_of blobs op) = default 0 (data_length op) -> buffer_ (download s) = blob_of blobs op ->
  ValidateOperationHash op s = kSuccess.
Proof.
  intros Hc Hlen Hbuf. unfold ValidateOperationHash. destruct Hc as [[-> Hz]|E]; [by rewrite bool_decide_true, Hz|]. rewrite E.
  assert (Hne : sha256 (blob_of blobs op) <> []) by (intros E'; pose proof (sha_final_size (sha_update sha_init (blob_of blobs op))) as Hsz; unfold sha256 in E'; by rewrite E' in Hsz).
  rewrite bool_decide_false by done. rewrite Hbuf, <- Hlen. unfold zlen. by rewrite Nat2Z.id, firstn_all, bool_decide_true.
Qed.

(** Mandatory checks do not reject the operations of the setup. *)
Lemma operation_accepted dj j later done op rest s : js = dj ++ j :: later -> job_ops j = done ++ op :: rest ->
  zlen (blob_of blobs op) = default 0 (data_length op) -> buffer_ (download s) = blob_of blobs op -> install_plan_ s = su_plan su ->
  negb (bool_decide ((if bool_decide (pl_metadata_signature (payload_ s) = []) then kSuccess else ValidateOperationHash op s) = kSuccess))
    && hash_checks_mandatory (install_plan_ s) = false.
Proof.
  intros Hjs Hops Hlen Hbuf ->. destruct (hash_checks_mandatory (su_plan su)) eqn:E; [|by rewrite andb_false_r]. destruct (bool_decide (pl_metadata_signature (payload_ s) = [])); [done|].
  rewrite ValidateOperationHash_checked; [done| |done|done]. pose proof (so_checks _ Hsu E j) as Hj. rewrite Hops, Forall_app, Forall_cons in Hj. apply Hj.
  rewrite Hjs. apply elem_of_app. right. by left.
Qed.

(** The download with the data up to [off] consumed and [pend] in the buffer. *)
Definition download_at (off : Z) (pend : list Z) : Download :=
  mkDownload _ pend off (mkCalculator _ (hashed (su_head su) off) []) (mkCalculator _ (hashed (su_signed su) off) []) [].

(** The data of the operation are discarded once it has been performed. *)
Lemma discarded off op ops : laid_out off (zlen blobs) (op :: ops) -> 0 <= off -> blob_of blobs op = slice blobs off (zlen (blob_of blobs op)) ->
  let d := download_at off (blob_of blobs op) in
  (if carries_data (type_of op) then discard true (zlen (buffer_ d)) d else d) = download_at (off + zlen (blob_of blobs op)) [].
Proof.
  intros Hlay Ho Hpend. destruct (laid_out_head off op ops Hlay Ho) as (Hdata & Hlen & _ & Hend). pose proof (so_size _ Hsu). pose proof (zlen_nonneg (blob_of blobs op)).
  unfold download_at. cbn [buffer_]. destruct (carries_data (type_of op)).
  - unfold discard. cbn [buffer_ buffer_offset_ payload_hash_calculator_ signed_hash_calculator_ signatures_message_data_]. unfold Update. cbn [raw_hash_ ctx_].
    rewrite !bool_decide_true by done. unfold zlen at 2. rewrite Nat2Z.id, firstn_all. rewrite !hashed_more by (done || lia). rewrite uint_small by (unfold is_uint; lia). done.
  - destruct Hdata as [_ E]. rewrite E in Hlen. cbn in Hlen. assert (En : blob_of blobs op = []) by (by apply zlen_0). rewrite En. change (zlen []) with 0. by rewrite Z.add_0_r.
Qed.

Lemma run_operation_spec dj j later done op rest off s :
  running dj j dj j later done (op :: rest) off (blob_of blobs op) s -> returns (run_operation op) s (operated dj j later done op rest off).
Proof.
  intros Hr. pose proof Hr as [Hjs Hops Hcur [Hoff Hlay] Hpend Hmd Hpl Hpay (last & Hpr & Hlast) Hdl Hsv Htgt Hsrc (bs & Hdisk & Hcov)].
  destruct (laid_out_head off op _ Hlay) as (Hdata & Hlen & Hlay' & Hend); [lia|]. pose proof (so_size _ Hsu) as Hsize.
  destruct (dk_here _ _ _ _ _ _ Hdisk) as (f & Hf & Hz & _). unfold run_operation. apply returns_bind. unfold returns at 1. cbn [io_get].
  rewrite (operation_accepted dj j later done op rest s) by (try done; by rewrite Hdl). apply returns_bind, returns_try.
  assert (Hs : s = set_slots (slots s) s) by (by destruct s). rewrite Hs. eapply returns_mono.
  { apply (perform_operation_spec (disk (slots s)) (if su_delta su then Some (jb_source j) else None) (jb_target j) f (jb_old j) s (slots s) op).
    - split; [by rewrite insert_id|done|done].
    - by rewrite Hpr.
    - rewrite Hdl. destruct (carries_data (type_of op)); [|done]. split; cbn [buffer_ buffer_offset_]; [by rewrite Hdata|done].
    - rewrite Hdl, Hmd. cbn [buffer_]. by eapply job_op_applicable. }
  rewrite <- Hs. intros r s' (f' & sl & d & -> & [Hd' Hs' Ht'] & Hsame & Hno & Hok). destruct (disk_after _ _ _ _ _ _ _ _ _ _ Hjs Hops Hdisk Hcov Hf Hsame) as [(bs' & Hpart) Hfull].
  apply returns_bind. unfold returns at 1. cbn [io_get]. destruct r as [[]|]; cycle 1.
  { rewrite bool_decide_true by done. assert (Hint : forall e, interrupted (set_error e (set_download d (set_slots sl s)))).
    { intros e. split. exists dj, j, later, done, (op :: rest), off, bs'. split_and!; try done; try lia; [|apply Hpart]. cbn. rewrite Hd'. apply Hpart. }
    case_bool_decide; [unfold returns, fail_with, mbind, io_bind, io_modify, io_fail|unfold returns, io_fail]; split_and!; try done; try (intros He; by specialize (Hno He)).
    intros _. specialize (Hint (error_ s)). by destruct s. }
  rewrite bool_decide_false by done. destruct (Hok eq_refl) as [Hfill Hdown]. destruct (Hfull Hfill) as (bs2 & Hdisk2 & Hcov2). set (off' := off + zlen (blob_of blobs op)) in *.
  assert (Hoff' : off <= off' <= zlen blobs /\ off' = off + zlen (blob_of blobs op)) by (unfold off' in *; pose proof (zlen_nonneg (blob_of blobs op)); lia).
  apply returns_bind. unfold returns at 1. cbn [io_modify]. apply returns_bind, returns_try. set (s1 := set_next_operation _ _).
  assert (Hd : d = download_at off' []) by (rewrite Hdown, Hdl; apply (discarded off op _ Hlay); [lia|exact Hpend]).
  destruct (CheckpointUpdateProgress_spec js dj j later (S (length (all_ops dj) + length done)) last off' (hashed (su_head su) off') (hashed (su_signed su) off')
    (length (all_ops dj) + length done) (sint 64 (metadata_size_ (su_metadata su))) (metadata_signature_size_ (su_metadata su)) s1) as (p & Hcp & Hsaved).
  - done.
  - lia.
  - done.
  - unfold s1. cbn. by rewrite Hpr.
  - lia.
  - unfold s1. cbn. by rewrite Hd.
  - unfold s1. cbn. by rewrite Hd.
  - unfold s1. cbn. by rewrite Hd.
  - destruct (decide (off' = off)) as [->|Hne]; [by left|]. right. split; [lia|]. do 3 eexists. exact Hsv.
  - intros E0. destruct Hlast as [->|[_ ?]]; [lia|lia].
  - unfold returns. rewrite Hcp. split_and!; try done. intros _. split; try done.
    + by rewrite <- app_assoc.
    + split; [lia|done].
    + exists off'. rewrite length_app, Nat.add_1_r, Nat.add_succ_r. split; [done|]. by right.
    + rewrite length_app, Nat.add_1_r, Nat.add_succ_r. done.
    + exists bs2. cbn. by rewrite Hd'.
Qed.

(** ** The loop over the operations *)

(** [n] bytes of the data have been received, and every operation whose data
    are complete has been performed. *)
Definition received (n : Z) s : Prop :=
  exists dc jc dj j later done rest off pend, running dc jc dj j later done rest off pend s /\ n = off + zlen pend /\ n <= zlen blobs
    /\ match rest ++ all_ops later with op :: _ => zlen pend < zlen (blob_of blobs op) | [] => pend = [] end.

Lemma running_buffer dc jc dj j later done rest off pend pend' s : running dc jc dj j later done rest off pend s -> pend' = slice blobs off (zlen pend') ->
  running dc jc dj j later done rest off pend' (set_download (mkDownload _ pend' (buffer_offset_ (download s)) (payload_hash_calculator_ (download s))
    (signed_hash_calculator_ (download s)) (signatures_message_data_ (download s))) s).
Proof. intros [Hjs Hops Hcur Hoff _ Hmd Hpl Hpay Hpr Hdl Hsv Htgt Hsrc Hdisk] Hp. split; try done. by rewrite Hdl. Qed.

Lemma slice_more (l : list Z) o a bytes k : 0 <= o -> 0 <= k <= zlen bytes -> a = slice l o (zlen a) -> bytes = slice l (o + zlen a) (zlen bytes) -> o + zlen a + zlen bytes <= zlen l ->
  a ++ take (Z.to_nat k) bytes = slice l o (zlen a + k) /\ zlen (a ++ take (Z.to_nat k) bytes) = zlen a + k
  /\ drop (Z.to_nat k) bytes = slice l (o + zlen a + k) (zlen bytes - k).
Proof.
  intros Ho Hk Ha Hb Hl. pose proof (zlen_nonneg a). assert (Hz : zlen (take (Z.to_nat k) bytes) = k) by (by apply zlen_take). split_and!.
  - rewrite slice_app by lia. f_equal; [done|]. rewrite Hb at 1. unfold slice. rewrite take_take. f_equal. lia.
  - rewrite zlen_app. lia.
  - rewrite Hb at 1. unfold slice. rewrite skipn_firstn_comm, drop_drop. f_equal; [lia|]. f_equal. lia.
Qed.

Definition written n (cancel : nat -> option ErrorCode) (r : option WriteStep) s' : Prop :=
  (no_errors -> (forall k, cancel k = None) -> is_Some r) /\ (r = None -> interrupted s')
  /\ (forall st, r = Some st -> received n s' /\ (st = kReturn \/ st = kLeft [])).

(** An operation can be performed once its data are in the buffer. *)
Lemma operation_complete off op ops pend s : laid_out off (zlen blobs) (op :: ops) -> 0 <= off -> download s = download_at off pend -> zlen pend <= zlen (blob_of blobs op) ->
  CanPerformInstallOperation op s = (zlen (blob_of blobs op) <=? zlen pend).
Proof.
  intros Hlay Ho Hd Hp. destruct (laid_out_head off op ops Hlay Ho) as (Hdata & Hlen & _ & Hend). pose proof (so_size _ Hsu). pose proof (zlen_nonneg pend).
  unfold CanPerformInstallOperation. rewrite Hd. cbn [download_at buffer_ buffer_offset_]. simpl in Hlay. destruct (carries_data (type_of op)).
  - destruct Hlay as (n & Eo & El & Hn & _). rewrite Eo, El. rewrite El in Hlen. cbn [default from_option id] in *. unfold id in *.
    rewrite bool_decide_false by done. cbn [andb]. rewrite Z.ltb_irrefl, !uint_small by (unfold is_uint; lia). rewrite Hlen. apply eq_bool_prop_intro. rewrite !Is_true_true, !Z.leb_le. lia.
  - destruct Hdata as [-> Ed]. rewrite Ed in *. rewrite !bool_decide_true by done. simpl in Hlen. symmetry. apply Z.leb_le. lia.
Qed.

Lemma blob_at off op ops : laid_out off (zlen blobs) (op :: ops) -> 0 <= off -> blob_of blobs op = slice blobs off (zlen (blob_of blobs op)).
Proof.
  intros Hlay Ho. destruct (laid_out_head off op ops Hlay Ho) as (Hdata & Hlen & _). rewrite Hlen. unfold blob_of. destruct (carries_data (type_of op)); [by rewrite Hdata|].
  by destruct Hdata as [-> ->].
Qed.

Lemma write_operations_spec cancel fuel dc jc dj j later done rest off pend bytes s :
  running dc jc dj j later done rest off pend s -> (length (rest ++ all_ops later) < fuel)%nat ->
  bytes = slice blobs (off + zlen pend) (zlen bytes) -> off + zlen pend + zlen bytes <= zlen blobs ->
  match rest ++ all_ops later with op :: _ => zlen pend <= zlen (blob_of blobs op) | [] => True end ->
  returns (write_operations cancel fuel bytes) s (written (off + zlen pend + zlen bytes) cancel).
Proof.
  revert dc jc dj j later done rest off pend bytes s. induction fuel as [|fuel IH]; intros dc jc dj j later done rest off pend bytes s Hr Hf Hb Hle Hpl; [lia|].
  pose proof Hr as [Hjs Hops (lc & Hc & _) [Hoff Hlay] Hpend Hmd Hplan Hpay (last & Hpr & Hlast) Hdl Hsv Htgt Hsrc _]. pose proof (zlen_nonneg pend). pose proof (zlen_nonneg bytes).
  cbn [write_operations]. apply returns_bind. unfold returns at 1. cbn [io_get]. rewrite Hpr. cbn [progress_at num_total_operations_ next_operation_num_ acc_num_operations_].
  assert (Htot : length (all_ops js) = (length (all_ops dj) + length done + length (rest ++ all_ops later))%nat).
  { rewrite Hjs, length_all_ops_app, length_all_ops_cons, Hops, !length_app. lia. }
  destruct (Nat.leb_spec (length (all_ops js)) (length (all_ops dj) + length done)) as [Hdone|Hmore].
  { destruct (rest ++ all_ops later) as [|op l] eqn:Erem; [|simpl in Htot; lia]. simpl in Hlay. assert (zlen pend = 0 /\ zlen bytes = 0) as [Ep Eb] by lia.
    apply zlen_0 in Ep, Eb. subst pend bytes. apply returns_ret. split_and!; [by eexists|done|]. intros st [= <-]. split; [|by right].
    exists dc, jc, dj, j, later, done, rest, off, []. rewrite Erem. split_and!; try done. unfold zlen. simpl. lia. }
  destruct (cancel (length (all_ops dj) + length done)%nat) as [code|] eqn:Ec.
  { unfold returns, fail_with, mbind, io_bind, io_modify, io_fail. split_and!; [intros _ Hcc; by rewrite Hcc in Ec| |done]. intros _.
    destruct (running_interrupted _ _ _ _ _ _ _ _ _ _ Hr) as [Hi]. by split. }
  apply returns_bind. eapply returns_mono; [apply (next_partition_spec _ lc dc jc dj j later done rest off pend); [done|done|lia|rewrite length_counts, Hc, length_app; simpl; lia]|].
  intros r s1 (-> & dj1 & j1 & later1 & done1 & op & rest1 & Hr1 & Hk & Erem). rewrite Erem in *.
  pose proof Hr1 as [Hjs1 Hops1 _ [_ Hlay1] _ _ _ _ (last1 & Hpr1 & _) Hdl1 _ _ _ _]. destruct (laid_out_head off op _ Hlay) as (Hdata & Hlen & Hlay2 & Hend); [lia|].
  apply returns_bind. unfold returns at 1. cbn [io_get]. rewrite Hk, Hpr1. unfold progress_at. cbn [current_partition_]. rewrite Hjs1.
  rewrite (operation_at_mid dj1 j1 later1 done1 op rest1 last1 _ Hops1). apply returns_bind. unfold returns at 1, CopyDataToBuffer. rewrite Hdl1. cbn [buffer_].
  pose proof (so_size _ Hsu). rewrite <- Hlen, (uint_small 64) by (unfold is_uint; lia). set (k := Z.min (zlen bytes) (zlen (blob_of blobs op) - zlen pend)).
  destruct (slice_more blobs off pend bytes k) as (E1 & E2 & E3); [lia|lia|done|done|lia|]. set (pend' := pend ++ take (Z.to_nat k) bytes) in *.
  assert (Hr2 : running dj1 j1 dj1 j1 later1 done1 (op :: rest1) off pend' (set_download (mkDownload _ pend' (buffer_offset_ (download s1))
    (payload_hash_calculator_ (download s1)) (signed_hash_calculator_ (download s1)) (signatures_message_data_ (download s1))) s1)).
  { eapply running_buffer; [done|]. by rewrite E2. }
  apply returns_bind. unfold returns at 1. cbn [io_get]. rewrite Hdl1 in Hr2. set (s2 := set_download _ s1) in *.
  rewrite (operation_complete off op _ pend' s2 Hlay) by (done || lia). destruct (Z.leb_spec (zlen (blob_of blobs op)) (zlen pend')) as [Hfull|Hpart]; cbn [negb]; cycle 1.
  { apply returns_ret. split_and!; [by eexists|done|]. intros st [= <-]. split; [|by left].
    exists dj1, j1, dj1, j1, later1, done1, (op :: rest1), off, pend'. simpl app. split_and!; [done|lia|lia|done]. }
  assert (Epend : pend' = blob_of blobs op) by (rewrite (blob_at off op _ Hlay), E1, <- E2 by lia; f_equal; lia).
  apply returns_bind. eapply returns_mono; [apply (run_operation_spec dj1 j1 later1 done1 op rest1 off); by rewrite <- Epend|].
  intros r s3 (Hno & Hint & Hrun). destruct r as [[]|]; [|split_and!; [intros He; by specialize (Hno He)|by intros _; apply Hint|done]].
  specialize (Hrun eq_refl). assert (Ezd : zlen (drop (Z.to_nat k) bytes) = zlen bytes - k) by (apply zlen_drop; lia). eapply returns_mono.
  { eapply (IH dj1 j1 dj1 j1 later1 (done1 ++ [op]) rest1 _ [] (drop (Z.to_nat k) bytes)); [done|simpl in Hf; lia|..]; change (zlen []) with 0; rewrite ?Ezd.
    - rewrite E3. f_equal. lia.
    - lia.
    - destruct (rest1 ++ all_ops later1); [done|]. apply zlen_nonneg. }
  intros r s4. change (zlen []) with 0. rewrite Ezd. by replace (off + zlen (blob_of blobs op) + 0 + (zlen bytes - k)) with (off + zlen pend + zlen bytes) by lia.
Qed.
End Running.
