(* ===== verification/UpdateSession.v ===== *)
(** * UpdateSession: a download session, and the next one

    A payload of major version 2 without signatures, from its first byte to the
    installed images: the header and the manifest, the start of the update, and
    the data, in pieces of any size.  A session that has been interrupted can
    be resumed by a new one on the same device, which fetches the ranges of
    [DownloadAction::StartDownloading] (payload_consumer/download_action.cc). *)
From stdpp Require Import strings gmap.
From S2P Require Import Prelude UpdateExtents UpdateGraph UpdateViews UpdateInplace UpdateRun UpdateFile.
From S2P Require Import UpdateBlocks UpdateDelta UpdateApply UpdateChunks UpdateAB UpdateWriter UpdateManifest UpdatePerform UpdateConsume UpdateInstall.

(** ** Sessions *)

Definition empty_manifest : DeltaArchiveManifest := mkManifest [] [] None None None None None None None None None None [] None.

(** A new [DeltaPerformer]. *)
Definition DeltaPerformer_new `{Sha256} `{Prefs} (D : gmap string (list Z)) (p : prefs_store) (plan : InstallPlan) (payload : Payload) : DeltaPerformer :=
  mkPerformer _ _ (mkSlots D None None) (mkDownload _ [] 0 HashCalculator_new HashCalculator_new []) (mkMetadata empty_manifest false 0 0 0 0)
    (mkProgress [] [] 0 0 0 (2 ^ 64 - 1) 0) p plan payload kSuccess.

(** The ranges of the payload that are fetched; a range without a length goes to the end. *)
Definition StartDownloading `{Prefs} (resume : bool) (prefs : prefs_store) (payload : Payload) : list (Z * option Z) :=
  if resume then
    let head := default 0 (GetInt64 kPrefsManifestMetadataSize prefs) + default 0 (GetInt64 kPrefsManifestSignatureSize prefs) in
    let resume_offset := u64 (head + default 0 (GetInt64 kPrefsUpdateStateNextDataOffset prefs)) in
    (0, Some head)
    :: (if pl_size payload =? 0 then [(resume_offset, None)]
        else if resume_offset <? pl_size payload then [(resume_offset, Some (pl_size payload - resume_offset))] else [])
  else [(0, if pl_size payload =? 0 then None else Some (pl_size payload))].

Definition fetch (file : list Z) (ranges : list (Z * option Z)) : list Z :=
  ranges ≫= fun '(offset, length) => match length with Some n => slice file offset n | None => drop (Z.to_nat offset) file end.

Section Sessions.
Context `{Kernel} `{Sha256} `{Prefs} `{Streams} `{Bspatch} `{BlockDevice} `{Protobuf} `{BootControl} `{Platform}.

(** The pieces arrive one after the other. *)
Definition write_all (settings : Settings) (cancel : nat -> option ErrorCode) (pieces : list (list Z)) : io DeltaPerformer () :=
  io_fold (fun _ bytes => DeltaPerformer_Write settings cancel bytes) pieces ().

(** Whether the update is resumed; the progress of another one is dropped. *)
Definition set_resume (payload_id : list Z) : io DeltaPerformer bool :=
  s ← io_get;
  if negb (bool_decide (payload_id = [])) && CanResumeUpdate (prefs_ s) payload_id then mret true else
  _ ← io_try (ResetUpdateProgress false);
  _ ← set_pref_string kPrefsUpdateCheckResponseHash payload_id;
  mret false.

(** An attempt at the update with the payload [file]; [net] gives the pieces in
    which the requested bytes arrive, which may end early. *)
Definition session (settings : Settings) (cancel : nat -> option ErrorCode) (payload_id file : list Z) (net : list Z -> list (list Z)) : io DeltaPerformer () :=
  resume ← set_resume payload_id;
  s ← io_get;
  write_all settings cancel (net (fetch file (StartDownloading resume (prefs_ s) (payload_ s)))).
End Sessions.

Section Attempts.
Context `{Sha256} `{Prefs} `{Streams} `{BlockDevice} `{Decoders} `{Protobuf} `{BootControl} `{Platform}.
Context (settings : Settings) (payload_id file : list Z) (plan : InstallPlan) (payload : Payload).

(** The device and the preferences after some attempts.  Calls of the kernel and
    of bspatch may fail, the delegate may cancel, and the connection may break. *)
Inductive attempted (D0 : gmap string (list Z)) (p0 : prefs_store) : gmap string (list Z) -> prefs_store -> Prop :=
  | attempted_none : attempted D0 p0 D0 p0
  | attempted_again D p (K : Kernel) (B : Bspatch) cancel net r s : attempted D0 p0 D p -> @KernelSafe K -> @BspatchOk B _ ->
      (forall l, concat (net l) `prefix_of` l) -> session settings cancel payload_id file net (DeltaPerformer_new D p plan payload) = Ret (r, s) ->
      attempted D0 p0 (disk (slots s)) (prefs_ s).
End Attempts.

(** ** Payloads *)

(** What a payload is about: its manifest, the message, the signature of the
    metadata, the data, the jobs, and the device. *)
Record Source := mkSource {
  sc_manifest : DeltaArchiveManifest;
  sc_message : list Z;
  sc_metadata_signature : list Z;
  sc_blobs : list Z;
  sc_jobs : list Job;
  sc_delta : bool;
  sc_plan : InstallPlan;
  sc_payload : Payload;
  sc_disk : gmap string (list Z);
}.

Definition header (message_size signature_size : Z) : list Z :=
  kDeltaMagic ++ big_endian 8 kBrilloMajorPayloadVersion ++ big_endian 8 message_size ++ big_endian 4 signature_size.

Definition signed_bytes (sc : Source) : list Z := header (zlen (sc_message sc)) (zlen (sc_metadata_signature sc)) ++ sc_message sc.
Definition head_bytes (sc : Source) : list Z := signed_bytes sc ++ sc_metadata_signature sc.
Definition payload_bytes (sc : Source) : list Z := head_bytes sc ++ sc_blobs sc.

Record source_ok `{Decoders} `{Sha256} `{Prefs} `{Protobuf} `{BootControl} `{Platform} (settings : Settings) (sc : Source) : Prop := {
  sk_parse : ParseFromArray (sc_message sc) = Some (sc_manifest sc);
  sk_sizes : zlen (sc_message sc) < 2 ^ 31 /\ zlen (sc_metadata_signature sc) < 2 ^ 31 /\ zlen (sc_blobs sc) < 2 ^ 32;
  sk_partitions : manifest_partitions (sc_manifest sc) = jb_update <$> sc_jobs sc /\ sc_jobs sc <> [];
  sk_legacy : old_kernel_info (sc_manifest sc) = None /\ new_kernel_info (sc_manifest sc) = None /\ old_rootfs_info (sc_manifest sc) = None
    /\ new_rootfs_info (sc_manifest sc) = None /\ install_operations (sc_manifest sc) = [] /\ kernel_install_operations (sc_manifest sc) = [];
  sk_delta : sc_delta sc = existsb (fun p => bool_decide (is_Some (old_partition_info p))) (manifest_partitions (sc_manifest sc));
  sk_minor : exists v, minor_version (sc_manifest sc) = Some v /\ v <> kInPlaceMinorPayloadVersion
    /\ v = if sc_delta sc then supported_minor_version_ settings else kFullPayloadMinorVersion;
  sk_major : supported_major_version_ settings = kBrilloMajorPayloadVersion;
  sk_block_size : manifest_block_size (sc_manifest sc) = Some kBlockSize;
  sk_timestamp : GetBuildTimestamp <= default 0 (manifest_max_timestamp (sc_manifest sc));
  sk_unsigned : signatures_offset (sc_manifest sc) = None;
  sk_type : pl_type (sc_payload sc) = kUnknown \/ pl_type (sc_payload sc) = if sc_delta sc then kDelta else kFull;
  sk_apply : pl_already_applied (sc_payload sc) = false;
  sk_size : pl_size (sc_payload sc) = 0 \/ pl_size (sc_payload sc) = zlen (payload_bytes sc);
  sk_plan : plan_partitions (sc_plan sc) = [];
  sk_metadata_checked : hash_checks_mandatory (sc_plan sc) = true -> pl_metadata_size (sc_payload sc) = zlen (signed_bytes sc)
    /\ forall s : DeltaPerformer, install_plan_ s = sc_plan sc -> payload_ s = sc_payload sc ->
         metadata s = mkMetadata empty_manifest false (zlen (signed_bytes sc)) (zlen (sc_message sc)) (zlen (sc_metadata_signature sc)) kBrilloMajorPayloadVersion ->
         ValidateMetadataSignature settings s (head_bytes sc) = Ret kSuccess;
  sk_ops_checked : hash_checks_mandatory (sc_plan sc) = true -> forall j, j ∈ sc_jobs sc -> Forall (op_checked (sc_blobs sc)) (job_ops j);
  sk_jobs : Forall (job_ok (sc_delta sc) (sc_blobs sc) (sc_plan sc) (sc_disk sc)) (sc_jobs sc);
  sk_targets : NoDup (jb_target <$> sc_jobs sc);
  sk_sources : sc_delta sc = true -> forall i j, i ∈ sc_jobs sc -> j ∈ sc_jobs sc -> jb_source i <> jb_target j;
  sk_layout : laid_out 0 (zlen (sc_blobs sc)) (all_ops (sc_jobs sc));
}.

(** The manifest without its partitions, and the setup once it has been accepted. *)
Definition bare_manifest (m : DeltaArchiveManifest) : DeltaArchiveManifest :=
  mkManifest (install_operations m) (kernel_install_operations m) (manifest_block_size m) (signatures_offset m) (signatures_size m)
    (old_kernel_info m) (new_kernel_info m) (old_rootfs_info m) (new_rootfs_info m) (old_image_info m) (new_image_info m) (minor_version m) []
    (manifest_max_timestamp m).

Definition set_pl_type (t : InstallPayloadType) (p : Payload) : Payload :=
  mkPayload (pl_size p) (pl_metadata_size p) (pl_metadata_signature p) (pl_hash p) t (pl_already_applied p).

Definition head_metadata (sc : Source) (m : DeltaArchiveManifest) (valid : bool) : Metadata :=
  mkMetadata m valid (zlen (signed_bytes sc)) (zlen (sc_message sc)) (zlen (sc_metadata_signature sc)) kBrilloMajorPayloadVersion.

Definition setup_of (sc : Source) : Setup :=
  mkSetup (head_metadata sc (bare_manifest (sc_manifest sc)) true) (set_plan_partitions (omap job_part (sc_jobs sc)) (sc_plan sc))
    (set_pl_type (if sc_delta sc then kDelta else kFull) (sc_payload sc)) (sc_jobs sc) (sc_delta sc) (sc_blobs sc) (sc_disk sc) (head_bytes sc) (signed_bytes sc).

Section Setup.
Context `{Decoders} `{Sha256} `{Prefs} `{Protobuf} `{BootControl} `{Platform} (settings : Settings) (sc : Source) (Hsc : source_ok settings sc).

Lemma job_part_some j : j ∈ sc_jobs sc -> exists part, install_partition (jb_update j) = Some part /\ ip_name part = partition_name (jb_update j)
  /\ ip_source_path part = "" /\ ip_target_path part = "" /\ job_part j = Some (load_partition part (jb_source j) (jb_target j)).
Proof.
  intros Hj. pose proof (sk_jobs _ _ Hsc) as Hall. rewrite Forall_forall in Hall. destruct (jk_info _ _ _ _ _ (Hall j Hj)) as (info & Hi & _).
  unfold job_part. unfold install_partition at 1 2. rewrite Hi. eexists. by split_and!.
Qed.

Lemma setup_of_ok : setup_ok (setup_of sc).
Proof.
  split; cbn [setup_of su_jobs su_delta su_blobs su_plan su_disk su_payload su_metadata set_pl_type pl_type head_metadata manifest_ bare_manifest minor_version signatures_offset set_plan_partitions hash_checks_mandatory plan_partitions].
  - eapply Forall_impl; [apply Hsc|]. intros j Hj. by destruct Hj; split.
  - apply Hsc.
  - apply Hsc.
  - apply Hsc.
  - apply Hsc.
  - done.
  - destruct (sk_minor _ _ Hsc) as (v & Hv & Hne & _). by exists v.
  - apply Hsc.
  - assert (Hs : forall j, j ∈ sc_jobs sc -> exists part, job_part j = Some part) by (intros j Hj; destruct (job_part_some j Hj) as (? & _ & _ & _ & _ & ->); by eexists).
    induction (sc_jobs sc) as [|j js IH]; [done|]. destruct (Hs j) as [part E]; [by left|]. simpl. rewrite E. simpl. f_equal. apply IH. intros j' Hj'. apply Hs. by right.
  - apply Hsc.
Qed.
End Setup.

(** ** The start of an update *)

(** Preferences from which an update goes on after [k] operations. *)
Record resumable `{Sha256} `{Prefs} (k : nat) (off : Z) (c c' : sha_ctx) (p : prefs_store) : Prop := {
  rs_signature : default [] (GetString kPrefsUpdateStateSignatureBlob p) = [];
  rs_none : k = O -> default 0 (GetInt64 kPrefsUpdateStateNextOperation p) <= 0;
  rs_next : k <> O -> GetInt64 kPrefsUpdateStateNextOperation p = Some (Z.of_nat k) /\ GetInt64 kPrefsUpdateStateNextDataOffset p = Some off
    /\ GetString kPrefsUpdateStateSHA256Context p = Some (ctx_bytes c) /\ GetString kPrefsUpdateStateSignedSHA256Context p = Some (ctx_bytes c');
}.

Section Start.
Context `{KernelSafe} `{Sha256Ok} `{PrefsOk} `{Streams} `{Bspatch} `{BlockDevice} `{Decoders} `{Protobuf} `{BootControl} `{Platform}.
Context `{!StreamOk bzip2_stream bunzip2} `{!StreamOk xz_stream unxz} `{!BspatchOk} `{!BlockDeviceOk}.
Context (settings : Settings) (sc : Source) (Hsc : source_ok settings sc).
Implicit Types (s : DeltaPerformer).
Abbreviation su := (setup_of sc).
Abbreviation js := (sc_jobs sc).

Lemma resumable_saved k off c c' p : resumable k off c c' p ->
  saved (sint 64 (metadata_size_ (su_metadata su))) (metadata_signature_size_ (su_metadata su)) k off c c'
    (snd (SetInt64 kPrefsManifestSignatureSize (metadata_signature_size_ (su_metadata su)) (snd (SetInt64 kPrefsManifestMetadataSize (sint 64 (metadata_size_ (su_metadata su))) p)))).
Proof. intros [Hs Hn Hk]. split; prefs_get; try done. Qed.

Lemma fill_plan_spec l s : l ⊆ js ->
  fill_plan (jb_update <$> l) s = Ret (Some (), set_plan (set_plan_partitions (plan_partitions (install_plan_ s) ++ omap (install_partition ∘ jb_update) l) (install_plan_ s)) s).
Proof.
  revert s. induction l as [|j l IH]; intros s Hl.
  { cbn. rewrite app_nil_r. by destruct s as [? ? ? ? ? [] ? ?]. }
  destruct (job_part_some settings sc Hsc j) as (part & E & _); [apply Hl; by left|]. rewrite fmap_cons. cbn [fill_plan]. rewrite E. unfold mbind, io_bind, io_modify.
  rewrite IH by (intros i Hi; apply Hl; by right). cbn. rewrite E. unfold set_plan, set_plan_partitions. cbn. by rewrite <- app_assoc.
Qed.

Lemma load_partitions_spec l : l ⊆ js ->
  load_partitions (source_slot (sc_plan sc)) (target_slot (sc_plan sc)) (omap (install_partition ∘ jb_update) l) = (true, omap job_part l).
Proof.
  induction l as [|j l IH]; intros Hl; [done|]. destruct (job_part_some settings sc Hsc j) as (part & E & En & Es & Et & Ej); [apply Hl; by left|].
  pose proof (sk_jobs _ _ Hsc) as Hall. rewrite Forall_forall in Hall. pose proof (Hall j (Hl j ltac:(by left))) as Hj.
  cbn. rewrite E. cbn [load_partitions]. rewrite En, Es, Et, (jk_source_path _ _ _ _ _ Hj). destruct (jk_target_path _ _ _ _ _ Hj) as [Hslot Hdev].
  unfold slot_path. rewrite (proj2 (Z.eqb_neq _ _) Hslot), Hdev. cbn [negb]. rewrite IH by (intros i Hi; apply Hl; by right). by rewrite Ej.
Qed.

Lemma ParseManifestPartitions_spec s :
  metadata s = head_metadata sc (sc_manifest sc) true -> install_plan_ s = sc_plan sc ->
  ParseManifestPartitions s = Ret (Some (), set_plan (su_plan su) (set_partitions (jb_update <$> js) (set_metadata (su_metadata su) s))).
Proof.
  intros Hm Hp. unfold ParseManifestPartitions, mbind, io_bind, io_modify, io_get.
  assert (Ht : take_partitions s = set_partitions (jb_update <$> js) (set_metadata (su_metadata su) s)).
  { unfold take_partitions. rewrite Hm. cbn [head_metadata major_payload_version_ manifest_ manifest_valid_]. rewrite Z.eqb_refl. destruct (sk_partitions _ _ Hsc) as [-> _].
    unfold set_manifest. rewrite Hm. done. }
  rewrite Ht. set (s1 := set_partitions _ _). change (partitions_ (progress s1)) with (jb_update <$> js). rewrite fill_plan_spec by done.
  assert (E : install_plan_ s1 = sc_plan sc) by done. rewrite E. cbn [install_plan_ set_plan].
  rewrite (sk_plan _ _ Hsc), app_nil_l. unfold LoadPartitionsFromSlots. cbn [set_plan_partitions source_slot target_slot plan_partitions].
  rewrite load_partitions_spec by done. done.
Qed.

Lemma load_progress_spec k sl d mf v ms mz sz mj pr p pl pay er off c c' msize sigsize blob :
  GetInt64 kPrefsUpdateStateNextDataOffset p = Some off -> 0 <= off -> GetString kPrefsUpdateStateSignedSHA256Context p = Some (ctx_bytes c') ->
  GetString kPrefsUpdateStateSignatureBlob p = blob -> GetString kPrefsUpdateStateSHA256Context p = Some (ctx_bytes c) ->
  GetInt64 kPrefsManifestMetadataSize p = Some msize -> 0 < msize -> GetInt64 kPrefsManifestSignatureSize p = Some sigsize -> 0 <= sigsize ->
  exists n, load_progress (Z.of_nat k) (mkPerformer _ _ sl d (mkMetadata mf v ms mz sz mj) pr p pl pay er)
    = Ret (Some (), set_prefs (snd (SetInt64 kPrefsResumedUpdateFailures n p)) (set_next_operation k
        (mkPerformer _ _ sl (mkDownload _ (buffer_ d) off (mkCalculator _ c (raw_hash_ (payload_hash_calculator_ d))) (mkCalculator _ c' (raw_hash_ (signed_hash_calculator_ d)))
           (default (signatures_message_data_ d) blob)) (mkMetadata mf v msize mz (u32 sigsize) mj) pr p pl pay er))).
Proof.
  intros Eo Ho Es Eb Ec Em Hm Eg Hg. destruct d as [b o cp cs sg]. exists (from_option (Z.add 1) 1 (GetInt64 kPrefsResumedUpdateFailures p)).
  unfold load_progress, set_next_operation, set_progress, mbind, io_bind, io_modify, io_get, io_option, test_that. cbn.
  rewrite Nat2Z.id, Eo. rewrite (proj2 (Z.leb_le 0 off)) by done. cbn. rewrite Es. unfold SetContext. rewrite ctx_roundtrip. cbn. rewrite Eb.
  destruct blob as [blob|]; cbn; rewrite Ec; cbn; rewrite ctx_roundtrip; cbn; rewrite Em, (proj2 (Z.ltb_lt 0 msize)), Eg, (proj2 (Z.leb_le 0 sigsize)) by done; cbn; rewrite set_pref_int_spec; done.
Qed.

Lemma signed_size : 24 <= zlen (signed_bytes sc) < 2 ^ 32 /\ zlen (signed_bytes sc) = 24 + zlen (sc_message sc).
Proof.
  pose proof (zlen_nonneg (sc_message sc)). destruct (sk_sizes _ _ Hsc) as (? & ? & _).
  assert (E : zlen (signed_bytes sc) = 24 + zlen (sc_message sc)) by (unfold signed_bytes, header; rewrite !zlen_app; unfold zlen; rewrite !length_big_endian; simpl; lia). lia.
Qed.

(** Progress is loaded from the preferences, if there is any. *)
Lemma PrimeUpdateState_spec k off s :
  let c := hashed su (su_head su) off in let c' := hashed su (su_signed su) off in
  metadata s = su_metadata su -> 0 <= off -> (k = O -> off = 0) ->
  download s = mkDownload _ [] 0 (mkCalculator _ (hashed su (su_head su) 0) []) (mkCalculator _ (hashed su (su_signed su) 0) []) [] ->
  saved (sint 64 (metadata_size_ (su_metadata su))) (metadata_signature_size_ (su_metadata su)) k off c c' (prefs_ s) ->
  next_operation_num_ (progress s) = O ->
  exists p, PrimeUpdateState s = Ret (Some (), set_prefs p (set_download (mkDownload _ [] off (mkCalculator _ c []) (mkCalculator _ c' []) [])
      (set_next_operation k (set_block_size kBlockSize s))))
    /\ saved (sint 64 (metadata_size_ (su_metadata su))) (metadata_signature_size_ (su_metadata su)) k off c c' p.
Proof.
  intros c c' Hm Hoff Hk0 Hd Hsv Hn. unfold PrimeUpdateState, mbind, io_bind, io_get, io_check, io_modify. rewrite Hm. cbn [head_metadata setup_of su_metadata manifest_valid_ manifest_ bare_manifest manifest_block_size].
  rewrite (sk_block_size _ _ Hsc). cbn [default from_option id]. unfold id. destruct k as [|k].
  - exists (prefs_ s). split; [|done]. pose proof (sv_none _ _ _ _ _ _ _ Hsv eq_refl) as Hle. unfold c, c'. rewrite (Hk0 eq_refl), <- Hd.
    assert (E : set_prefs (prefs_ s) (set_download (download s) (set_next_operation 0 (set_block_size kBlockSize s))) = set_block_size kBlockSize s).
    { unfold set_next_operation, set_block_size. cbn. rewrite <- Hn. by destruct s as [? ? ? [] ? ? ? ?]. }
    destruct (GetInt64 kPrefsUpdateStateNextOperation (prefs_ s)) as [n|]; cbn in Hle; [rewrite (proj2 (Z.leb_le _ _)) by done|]; by rewrite E.
  - pose proof Hsv as [[Hs1 Hs2] Hsig _ Hnext]. destruct (Hnext ltac:(done)) as (En & Eo & Ec & Ec'). rewrite En, (proj2 (Z.leb_gt _ _)) by lia.
    destruct s as [sl d md pr p pl pay er]. cbn [metadata download prefs_ progress] in *. subst md d. destruct signed_size as [Hsz _]. destruct (sk_sizes _ _ Hsc) as (_ & Hg & _).
    pose proof (zlen_nonneg (sc_metadata_signature sc)). cbn [head_metadata setup_of su_metadata metadata_size_ metadata_signature_size_] in *. rewrite sint_small in * by lia.
    unfold head_metadata, set_block_size, set_progress. cbn [slots download metadata progress prefs_ install_plan_ payload_ error_].
    edestruct (load_progress_spec (S k)) as [n ->]; [exact Eo|done|exact Ec'|done|exact Ec|exact Hs1|lia|exact Hs2|lia|].
    cbn [signatures_message_data_ buffer_ raw_hash_ payload_hash_calculator_ signed_hash_calculator_]. rewrite Hsig, (uint_small 32) by (unfold is_uint; lia).
    eexists. split; [done|]. destruct Hsv as [[? ?] ? ? ?]. split; prefs_get; done.
Qed.

(** The sizes of the metadata are in the preferences. *)
Definition sizes_saved (p : prefs_store) : Prop :=
  GetInt64 kPrefsManifestMetadataSize p = Some (zlen (signed_bytes sc)) /\ GetInt64 kPrefsManifestSignatureSize p = Some (zlen (sc_metadata_signature sc)).

(** Where the preferences [p] say that the update is, the device [D] is as well. *)
Definition position (off : Z) (D : gmap string (list Z)) (p : prefs_store) : Prop :=
  exists dj j later done rest bs, js = dj ++ j :: later /\ job_ops j = done ++ rest
    /\ 0 <= off <= zlen (sc_blobs sc) /\ laid_out off (zlen (sc_blobs sc)) (rest ++ all_ops later)
    /\ resumable (length (all_ops dj) + length done) off (hashed su (su_head su) off) (hashed su (su_signed su) off) p
    /\ ((length (all_ops dj) + length done)%nat <> O -> sizes_saved p)
    /\ disk_ok (sc_disk sc) dj j later bs D /\ covers j bs done rest.

Lemma laid_out_unique ops o o' e : laid_out o e ops -> laid_out o' e ops -> o = o'.
Proof.
  revert o o'. induction ops as [|op ops IH]; intros o o' Ho Ho'; simpl in *; [lia|]. destruct (carries_data _).
  - destruct Ho as (n & E & _), Ho' as (n' & E' & _). congruence.
  - destruct Ho as (_ & _ & Ho), Ho' as (_ & _ & Ho'). by apply IH.
Qed.

Lemma hashed_start head : hashed su head 0 = sha_update sha_init head.
Proof. unfold hashed. by rewrite take_0, app_nil_r. Qed.

Lemma start_update_spec off D p pr0 s :
  position off D p -> pr0 = mkProgress [] [] 0 0 0 (2 ^ 64 - 1) 0 -> slots s = mkSlots D None None ->
  download s = mkDownload _ (head_bytes sc) 0 HashCalculator_new HashCalculator_new [] -> metadata s = head_metadata sc (sc_manifest sc) true ->
  progress s = pr0 -> prefs_ s = p -> install_plan_ s = sc_plan sc -> payload_ s = su_payload su ->
  returns start_update s (fun r s' => r = Some () /\ exists dc jc dj j later done rest, running su dc jc dj j later done rest off [] s').
Proof.
  intros (dj & j & later & done & rest & bs & Hjs & Hops & Hoff & Hlay & Hres & _ & Hdisk & Hcov) Hpr0 Hsl Hdl Hmd Hpr Hp Hpl Hpay.
  assert (Hk0 : (length (all_ops dj) + length done)%nat = O -> off = 0).
  { intros E. apply (laid_out_unique (rest ++ all_ops later) _ _ (zlen (sc_blobs sc))); [done|]. pose proof (sk_layout _ _ Hsc) as Hl. rewrite Hjs in Hl. unfold all_ops in Hl.
    rewrite bind_app, bind_cons, Hops in Hl. fold (all_ops dj) (all_ops later) in Hl. destruct (all_ops dj); [|simpl in E; lia]. destruct done; [done|simpl in E; lia]. }
  unfold start_update. apply returns_bind. unfold returns at 1. cbn [io_get]. apply returns_bind. unfold returns at 1. unfold DiscardBuffer, io_modify. rewrite Hmd, Hdl.
  assert (Hd : discard false (metadata_size_ (head_metadata sc (sc_manifest sc) true)) (mkDownload _ (head_bytes sc) 0 HashCalculator_new HashCalculator_new [])
    = mkDownload _ [] 0 (mkCalculator _ (hashed su (su_head su) 0) []) (mkCalculator _ (hashed su (su_signed su) 0) []) []).
  { unfold discard, Update, HashCalculator_new. cbn [buffer_ buffer_offset_ payload_hash_calculator_ signed_hash_calculator_ signatures_message_data_ raw_hash_ ctx_ head_metadata metadata_size_].
    rewrite !hashed_start. cbn [su_head su_signed setup_of]. unfold head_bytes at 2. unfold zlen. rewrite Nat2Z.id, take_app_length. done. }
  rewrite Hd. apply returns_bind. unfold returns at 1. rewrite ParseManifestPartitions_spec by done. apply returns_bind. unfold returns at 1. cbn [io_get].
  apply returns_bind, returns_test; [intros _|cbn; rewrite Hpay; cbn; by rewrite (sk_apply _ _ Hsc)].
  apply returns_bind. unfold returns at 1. cbn [io_modify]. apply returns_bind. unfold returns at 1. rewrite set_pref_int_spec. apply returns_bind. unfold returns at 1. rewrite set_pref_int_spec.
  apply returns_bind, returns_try. set (s1 := set_prefs _ (set_prefs _ _)).
  assert (Hpr1 : progress s1 = mkProgress (jb_update <$> js) (count_operations (jb_update <$> js) 0) (length (all_ops js)) 0 0 (2 ^ 64 - 1) 0).
  { unfold s1, set_counts, set_partitions. cbn. rewrite Hpr, Hpr0. cbn. by rewrite last_count. }
  destruct (PrimeUpdateState_spec (length (all_ops dj) + length done) off s1) as (p' & Hprime & Hsaved); [done|lia|done|done| |by rewrite Hpr1|].
  { unfold s1. cbn [prefs_ set_prefs set_counts set_progress set_plan set_partitions set_metadata set_download]. rewrite Hp. by apply resumable_saved. }
  unfold returns at 1. rewrite Hprime. rewrite bool_decide_false by done. apply returns_bind, returns_try. set (s2 := set_prefs p' _).
  destruct (sk_partitions _ _ Hsc) as [_ Hne]. destruct js as [|jc lc] eqn:Ejs; [done|].
  assert (Hpr2 : progress s2 = progress_at (jc :: lc) [] (length (all_ops dj) + length done) (2 ^ 64 - 1)).
  { clear -Hpr1 Ejs. unfold s2. clearbody s1. unfold set_next_operation, set_block_size. cbn. by rewrite Hpr1. }
  eapply returns_mono.
  { eapply (OpenCurrentPartition_spec su (setup_of_ok _ _ Hsc) [] jc lc dj j later bs (length (all_ops dj) + length done) (2 ^ 64 - 1) s2);
      cbn [su_jobs setup_of]; rewrite ?Ejs; try done.
    - unfold s2, s1. cbn. by rewrite Hsl.
    - unfold s2, s1. cbn. by rewrite Hsl.
    - by destruct Hcov. }
  intros r s' (-> & sl & -> & Htgt & Hsrc & Hdisk'). rewrite bool_decide_false by done. apply returns_ret. split; [done|].
  exists [], jc, dj, j, later, done, rest. split; cbn [su_jobs setup_of]; rewrite ?Ejs; try done.
  - exists lc. split; [done|]. simpl. lia.
  - exists (2 ^ 64 - 1). split; [done|]. by left.
  - by exists bs.
Qed.

(** ** The metadata *)

(** The performer after the first [l] bytes of the metadata. *)
Definition collected D p (l : Z) (md : Metadata) (e : ErrorCode) : DeltaPerformer :=
  mkPerformer _ _ (mkSlots D None None) (mkDownload _ (slice (head_bytes sc) 0 l) 0 HashCalculator_new HashCalculator_new []) md
    (mkProgress [] [] 0 0 0 (2 ^ 64 - 1) 0) p (sc_plan sc) (sc_payload sc) e.

Definition unparsed (md : Metadata) : Prop := exists major, md = mkMetadata empty_manifest false 0 0 0 major.

Lemma slice_mid (a b c : list Z) o n : o = zlen a -> n = zlen b -> slice (a ++ b ++ c) o n = b.
Proof. intros -> ->. unfold slice, zlen. by rewrite !Nat2Z.id, drop_app_length, take_app_length. Qed.

Lemma head_fields : slice (head_bytes sc) 0 4 = kDeltaMagic /\ slice (head_bytes sc) 4 8 = big_endian 8 kBrilloMajorPayloadVersion
  /\ slice (head_bytes sc) 12 8 = big_endian 8 (zlen (sc_message sc)) /\ slice (head_bytes sc) 20 4 = big_endian 4 (zlen (sc_metadata_signature sc))
  /\ slice (head_bytes sc) 24 (zlen (sc_message sc)) = sc_message sc.
Proof.
  unfold head_bytes, signed_bytes, header. set (m := kDeltaMagic). set (v := big_endian 8 kBrilloMajorPayloadVersion). set (n := big_endian 8 _). set (g := big_endian 4 _).
  assert (Hm : zlen m = 4) by done. assert (Hv : zlen v = 8) by done. assert (Hn : zlen n = 8) by done. assert (Hg : zlen g = 4) by done.
  rewrite <- !app_assoc. split_and!.
  - by apply (slice_mid []).
  - by apply (slice_mid m).
  - rewrite (app_assoc m). apply slice_mid; [|done]. rewrite zlen_app. lia.
  - rewrite (app_assoc m), (app_assoc (m ++ v)). apply slice_mid; [|done]. rewrite !zlen_app. lia.
  - rewrite (app_assoc m), (app_assoc (m ++ v)), (app_assoc ((m ++ v) ++ n)). apply slice_mid; [|done]. rewrite !zlen_app. lia.
Qed.

Lemma head_size : zlen (head_bytes sc) = zlen (signed_bytes sc) + zlen (sc_metadata_signature sc) /\ zlen (head_bytes sc) < 2 ^ 33.
Proof. unfold head_bytes. rewrite zlen_app. pose proof signed_size. destruct (sk_sizes _ _ Hsc) as (_ & ? & _). lia. Qed.

(** Parsing the header, from what there is of it. *)
Lemma parse_header_spec D p l md e : 0 <= l <= 24 -> unparsed md -> exists md',
  parse_header settings (slice (head_bytes sc) 0 l) (collected D p l md e)
  = Ret (Some (if l <? 24 then kMetadataParseInsufficientData else kMetadataParseSuccess), collected D p l md' e)
    /\ if l <? 24 then unparsed md' else md' = head_metadata sc empty_manifest false.
Proof.
  intros Hl [major ->]. pose proof signed_size as [Hs Hs']. pose proof head_size as [Hh _]. pose proof (zlen_nonneg (sc_metadata_signature sc)). pose proof (zlen_nonneg (sc_message sc)).
  destruct head_fields as (Hmagic & Hver & Hmsg & Hsig & _). destruct (sk_sizes _ _ Hsc) as (Hz1 & Hz2 & _).
  unfold parse_header, mbind, io_bind, io_get, io_modify. unfold kDeltaManifestSizeOffset, kDeltaVersionOffset, kDeltaVersionSize.
  rewrite zlen_slice by lia. destruct (Z.ltb_spec l (4 + 8)) as [Hlt|Hge].
  { rewrite (proj2 (Z.ltb_lt l 24)) by lia. eexists. split; [done|]. by eexists. }
  assert (Ht : take 4 (slice (head_bytes sc) 0 l) = kDeltaMagic).
  { rewrite <- Hmagic. apply (slice_slice (head_bytes sc) 0 l 0 4); lia. }
  rewrite Ht, bool_decide_true, (slice_slice (head_bytes sc) 0 l 4 8) by (try done; lia). change (0 + 4) with 4. rewrite Hver, big_endian_roundtrip by done. cbn [negb].
  rewrite (sk_major _ _ Hsc), Z.eqb_refl. cbn [negb andb]. unfold GetManifestOffset, kDeltaManifestSizeOffset, kDeltaVersionOffset, kDeltaVersionSize, kDeltaManifestSizeSize, kDeltaMetadataSignatureSizeSize.
  rewrite (Z.eqb_refl kBrilloMajorPayloadVersion), (proj2 (Z.eqb_neq kBrilloMajorPayloadVersion kChromeOSMajorPayloadVersion)) by done.
  destruct (Z.ltb_spec l (4 + 8 + 8 + 4)) as [Hlt|Hge'].
  { rewrite (proj2 (Z.ltb_lt l 24)) by lia. eexists. split; [done|]. by eexists. }
  rewrite (proj2 (Z.ltb_ge l 24)) by lia. cbv zeta. rewrite !slice_slice by lia. change (0 + (4 + 8)) with 12. change (0 + (4 + 8 + 8)) with 20. rewrite Hmsg, Hsig, !big_endian_roundtrip by lia.
  cbn [collected install_plan_ payload_]. rewrite uint_small by (unfold is_uint; lia). replace (4 + 8 + 8 + 4 + zlen (sc_message sc)) with (zlen (signed_bytes sc)) by lia.
  assert (Hsize : hash_checks_mandatory (sc_plan sc) && negb (pl_metadata_size (sc_payload sc) =? zlen (signed_bytes sc)) = false).
  { destruct (hash_checks_mandatory (sc_plan sc)) eqn:E; [|done]. destruct (sk_metadata_checked _ _ Hsc E) as [-> _]. by rewrite Z.eqb_refl. }
  rewrite Hsize. by eexists.
Qed.

Lemma metadata_end_spec s m v : metadata s = head_metadata sc m v -> metadata_end s = zlen (head_bytes sc).
Proof.
  intros E. unfold metadata_end. rewrite E. cbn [head_metadata metadata_size_ metadata_signature_size_]. pose proof head_size as [-> ?].
  pose proof signed_size. pose proof (zlen_nonneg (sc_metadata_signature sc)). rewrite uint_small; [done|]. unfold is_uint. lia.
Qed.

(** What is known of the metadata after [l] bytes. *)
Definition gathered (l : Z) (md : Metadata) : Prop := if l <? 24 then unparsed md else md = head_metadata sc empty_manifest false.

(** Bytes that are all there are never read out of bounds. *)
Lemma ValidateMetadataSignature_total s bytes : 0 <= metadata_signature_size_ (metadata s) ->
  metadata_size_ (metadata s) + metadata_signature_size_ (metadata s) <= zlen bytes -> exists e, ValidateMetadataSignature settings s bytes = Ret e.
Proof.
  intros H0' Hle. unfold ValidateMetadataSignature, metadata_signature_blobs. cbv zeta.
  rewrite (proj2 (Z.ltb_ge (zlen bytes) (metadata_size_ (metadata s) + _))), (proj2 (Z.ltb_ge (zlen bytes) (metadata_size_ (metadata s)))) by lia.
  unfold mbind, outcome_bind. repeat case_match; simplify_eq; by eexists.
Qed.

Lemma metadata_accepted D p e : let s := collected D p (zlen (head_bytes sc)) (head_metadata sc empty_manifest false) e in exists e',
  ValidateMetadataSignature settings s (slice (head_bytes sc) 0 (zlen (head_bytes sc))) = Ret e' /\ negb (bool_decide (e' = kSuccess)) && hash_checks_mandatory (install_plan_ s) = false.
Proof.
  cbv zeta. rewrite slice_all. destruct (hash_checks_mandatory (sc_plan sc)) eqn:E.
  - destruct (sk_metadata_checked _ _ Hsc E) as [_ Hv]. exists kSuccess. by rewrite Hv.
  - destruct (ValidateMetadataSignature_total (collected D p (zlen (head_bytes sc)) (head_metadata sc empty_manifest false) e) (head_bytes sc)) as [e' He'];
      cbn [collected metadata head_metadata metadata_size_ metadata_signature_size_].
    + apply zlen_nonneg.
    + by rewrite (proj1 head_size).
    + exists e'. split; [done|]. cbn [collected install_plan_]. by rewrite E, andb_false_r.
Qed.

Lemma ParsePayloadMetadata_spec D p l md e :
  0 <= l <= zlen (head_bytes sc) -> unparsed md /\ l <= 24 \/ md = head_metadata sc empty_manifest false /\ 24 <= l -> exists md',
  ParsePayloadMetadata settings (slice (head_bytes sc) 0 l) (collected D p l md e)
  = Ret (Some (if l <? zlen (head_bytes sc) then kMetadataParseInsufficientData else kMetadataParseSuccess), collected D p l md' kSuccess)
    /\ if l <? zlen (head_bytes sc) then gathered l md' else md' = head_metadata sc (sc_manifest sc) false.
Proof.
  intros Hl Hmd. pose proof signed_size as [Hs Hs']. pose proof head_size as [Hh _]. pose proof (zlen_nonneg (sc_metadata_signature sc)). pose proof (zlen_nonneg (sc_message sc)).
  unfold ParsePayloadMetadata. unfold mbind at 1, io_bind at 1, io_modify at 1. change (set_error kSuccess _) with (collected D p l md kSuccess).
  assert (Hhead : exists md', (if IsHeaderParsed (collected D p l md kSuccess) then mret kMetadataParseSuccess else parse_header settings (slice (head_bytes sc) 0 l)) (collected D p l md kSuccess)
    = Ret (Some (if l <? 24 then kMetadataParseInsufficientData else kMetadataParseSuccess), collected D p l md' kSuccess) /\ gathered l md').
  { destruct Hmd as [[[major Hu] Hle]|[-> Hge]].
    - rewrite Hu. change (IsHeaderParsed _) with false. apply parse_header_spec; [lia|by eexists].
    - assert (Hp : IsHeaderParsed (collected D p l (head_metadata sc empty_manifest false) kSuccess) = true) by (apply negb_true_iff, Z.eqb_neq; cbn [collected metadata head_metadata metadata_size_]; lia).
      rewrite Hp. exists (head_metadata sc empty_manifest false). unfold gathered. rewrite (proj2 (Z.ltb_ge l 24)) by lia. done. }
  destruct Hhead as (md' & Heq & Hg). unfold mbind at 1, io_bind at 1, io_get at 1. unfold mbind at 1, io_bind at 1. rewrite Heq. unfold gathered in Hg. destruct (Z.ltb_spec l 24) as [Hlt|Hge].
  { rewrite (proj2 (Z.ltb_lt l (zlen (head_bytes sc)))) by lia. exists md'. split; [done|]. unfold gathered. by rewrite (proj2 (Z.ltb_lt l 24)). }
  subst md'. unfold mbind at 1, io_bind at 1, io_get at 1. rewrite (metadata_end_spec _ empty_manifest false), zlen_slice by (try done; lia).
  destruct (Z.ltb_spec l (zlen (head_bytes sc))) as [Hlt|Hfull].
  { eexists. split; [done|]. unfold gathered. by rewrite (proj2 (Z.ltb_ge l 24)) by lia. }
  assert (l = zlen (head_bytes sc)) as -> by lia. destruct (metadata_accepted D p kSuccess) as (e' & He' & Hacc).
  unfold mbind at 1, io_bind at 1, io_outcome. rewrite He', Hacc. cbn [collected metadata head_metadata major_payload_version_ manifest_size_].
  change (GetManifestOffset kBrilloMajorPayloadVersion) with (Some 24). cbv iota beta zeta. destruct head_fields as (_ & _ & _ & _ & Hm). destruct (sk_sizes _ _ Hsc) as (Hz & _).
  rewrite (sint_small 32) by lia. unfold mbind at 1, io_bind at 1, io_check. rewrite (proj2 (Z.leb_le 0 _)), (proj2 (Z.leb_le (24 + _) _)) by lia. cbn [andb].
  rewrite slice_slice by lia. change (0 + 24) with 24. rewrite Hm, (sk_parse _ _ Hsc). by eexists.
Qed.

Lemma drop_slice (l : list Z) i n m : 0 <= i -> 0 <= m <= n -> drop (Z.to_nat m) (slice l i n) = slice l (i + m) (n - m).
Proof. intros. unfold slice. rewrite skipn_firstn_comm, drop_drop. f_equal; [lia|]. f_equal. lia. Qed.

Lemma slice_within (l k : list Z) i n : 0 <= i -> 0 <= n -> i + n <= zlen l -> slice (l ++ k) i n = slice l i n.
Proof. intros. unfold slice. rewrite drop_app_le, take_app_le; [done| |]; rewrite ?length_drop; unfold zlen in *; lia. Qed.

Lemma ValidateManifest_spec D p l e : ValidateManifest settings (collected D p l (head_metadata sc (sc_manifest sc) false) e)
  = Ret (Some kSuccess, set_payload (su_payload su) (collected D p l (head_metadata sc (sc_manifest sc) false) e)).
Proof.
  destruct (sk_legacy _ _ Hsc) as (H1' & H2' & H3' & H4' & H5' & H6'). destruct (sk_minor _ _ Hsc) as (v & Hv & _ & Hv').
  unfold ValidateManifest, mbind, io_bind, io_get, io_modify. cbn [collected metadata head_metadata manifest_ payload_ major_payload_version_]. rewrite H1', H2', H3', H4', H5', H6', Hv, (proj2 (Z.ltb_ge _ _) (sk_timestamp _ _ Hsc)).
  cbn [bool_decide decide_rel]. rewrite !(bool_decide_false (is_Some None)) by (intros [? ?]; done). rewrite !(bool_decide_true ([] = [])) by done. cbn [orb negb]. rewrite <- (sk_delta _ _ Hsc).
  cbn [default from_option id]. unfold id. rewrite <- Hv', Z.eqb_refl. cbn [negb]. rewrite (proj2 (Z.eqb_neq kBrilloMajorPayloadVersion kChromeOSMajorPayloadVersion)) by done. cbn [negb andb].
  unfold su_payload, setup_of. destruct (sk_type _ _ Hsc) as [E|E].
  - by rewrite (bool_decide_true (pl_type (sc_payload sc) = kUnknown)).
  - rewrite (bool_decide_true (_ = if sc_delta sc then kDelta else kFull)), andb_false_r by done. done.
Qed.

(** The first bytes of the session, whatever comes after the metadata. *)
Lemma CopyDataToBuffer_head D p n md e bytes tail max :
  bytes = slice (head_bytes sc ++ tail) n (zlen bytes) -> 0 <= n <= max -> max <= zlen (head_bytes sc) ->
  let m := Z.min (zlen bytes) (max - n) in
  CopyDataToBuffer bytes max (collected D p n md e) = Ret (Some (drop (Z.to_nat m) bytes), collected D p (n + m) md e)
  /\ drop (Z.to_nat m) bytes = slice (head_bytes sc ++ tail) (n + m) (zlen (drop (Z.to_nat m) bytes)).
Proof.
  intros Hb Hn Hmax m. pose proof (zlen_nonneg bytes). pose proof head_size as [_ Hh]. split.
  - unfold CopyDataToBuffer. cbn [collected download buffer_ buffer_offset_ payload_hash_calculator_ signed_hash_calculator_ signatures_message_data_]. rewrite zlen_slice by lia.
    rewrite uint_small by (unfold is_uint; lia). change (Z.min (zlen bytes) (max - n)) with m. unfold collected, set_download. do 4 f_equal. rewrite Hb.
    rewrite (slice_app (head_bytes sc) 0 n m) by lia. f_equal.
    change (slice (slice (head_bytes sc ++ tail) n (zlen bytes)) 0 m = slice (head_bytes sc) (0 + n) m). rewrite slice_slice by lia. rewrite Z.add_0_r. apply slice_within; lia.
  - rewrite zlen_drop by lia. rewrite Hb at 1. apply drop_slice; lia.
Qed.

(** The update is running, and nothing of its data has been received. *)
Definition started (off : Z) s : Prop := exists dc jc dj j later done rest, running su dc jc dj j later done rest off [] s.

Lemma started_metadata off s : started off s -> metadata s = su_metadata su.
Proof. intros (? & ? & ? & ? & ? & ? & ? & [? ? ? ? ? Hm]). done. Qed.

(** After [bytes] from byte [n] on, more of the metadata is needed, or the update has been started. *)
Definition gathering D p (off n : Z) (bytes : list Z) (r : option WriteStep) s : Prop :=
  if n + zlen bytes <? zlen (head_bytes sc)
  then r = Some kReturn /\ exists md, gathered (n + zlen bytes) md /\ s = collected D p (n + zlen bytes) md kSuccess
  else r = Some (kLeft (drop (Z.to_nat (zlen (head_bytes sc) - n)) bytes)) /\ started off s.

(** The end of the round in which the manifest is complete. *)
Lemma write_metadata_valid D p off fuel bytes s : position off D p -> s = collected D p (zlen (head_bytes sc)) (head_metadata sc (sc_manifest sc) false) kSuccess ->
  returns (error ← ValidateManifest settings;
           if negb (bool_decide (error = kSuccess)) then fail_with error else
           _ ← io_modify (fun s => set_manifest (manifest_ (metadata s)) true s);
           _ ← start_update;
           write_metadata settings (S fuel) bytes) s (fun r s' => r = Some (kLeft bytes) /\ started off s').
Proof.
  intros Hpos ->. apply returns_bind. unfold returns at 1. rewrite ValidateManifest_spec. cbn [bool_decide]. rewrite bool_decide_true by done. cbn [negb].
  apply returns_bind. unfold returns at 1. cbn [io_modify]. apply returns_bind. eapply returns_mono.
  { eapply (start_update_spec off D p); try done. cbn [collected set_manifest set_metadata set_payload download]. by rewrite slice_all. }
  intros r s' (-> & Hst). fold (started off s') in Hst. cbn [write_metadata]. apply returns_bind. unfold returns at 1. cbn [io_get]. rewrite (started_metadata _ _ Hst).
  cbn [setup_of su_metadata head_metadata manifest_valid_]. by apply returns_ret.
Qed.

Lemma write_metadata_parsed D p off n e fuel bytes tail :
  position off D p -> 24 <= n < zlen (head_bytes sc) -> bytes = slice (head_bytes sc ++ tail) n (zlen bytes) ->
  returns (write_metadata settings (S (S fuel)) bytes) (collected D p n (head_metadata sc empty_manifest false) e) (gathering D p off n bytes).
Proof.
  intros Hpos Hn Hb. pose proof signed_size as [Hs _]. pose proof (zlen_nonneg bytes). cbn [write_metadata]. apply returns_bind. unfold returns at 1. cbn [io_get].
  change (manifest_valid_ (metadata (collected _ _ _ _ _))) with false. cbv iota zeta. assert (Hp : IsHeaderParsed (collected D p n (head_metadata sc empty_manifest false) e) = true)
    by (apply negb_true_iff, Z.eqb_neq; cbn [collected metadata head_metadata metadata_size_]; lia).
  rewrite Hp. cbn [negb]. apply returns_bind. unfold returns at 1. rewrite (metadata_end_spec _ empty_manifest false) by done.
  destruct (CopyDataToBuffer_head D p n (head_metadata sc empty_manifest false) e bytes tail (zlen (head_bytes sc)) Hb ltac:(lia) ltac:(lia)) as [-> _].
  set (m := Z.min _ _). apply returns_bind. unfold returns at 1. cbn [io_get]. apply returns_bind. unfold returns at 1. change (buffer_ (download (collected D p ?l _ _))) with (slice (head_bytes sc) 0 l).
  destruct (ParsePayloadMetadata_spec D p (n + m) (head_metadata sc empty_manifest false) e ltac:(lia) ltac:(right; split; [done|lia])) as (md' & -> & Hmd).
  apply returns_bind. unfold returns at 1. cbn [io_get andb]. unfold gathering. destruct (Z.ltb_spec (n + zlen bytes) (zlen (head_bytes sc))) as [Hlt|Hge].
  - assert (Hm : m = zlen bytes) by lia. rewrite Hm in *. rewrite (proj2 (Z.ltb_lt _ _) Hlt) in *. apply returns_ret. split; [done|]. by exists md'.
  - assert (Hnm : n + m = zlen (head_bytes sc)) by lia. rewrite Hnm in *. replace (zlen (head_bytes sc) - n) with m by lia. rewrite Z.ltb_irrefl in *. subst md'. by apply (write_metadata_valid D p).
Qed.

Lemma write_metadata_spec D p off n md e bytes tail :
  position off D p -> gathered n md -> 0 <= n < zlen (head_bytes sc) -> bytes = slice (head_bytes sc ++ tail) n (zlen bytes) ->
  returns (write_metadata settings 4 bytes) (collected D p n md e) (gathering D p off n bytes).
Proof.
  intros Hpos Hg Hn Hb. pose proof (zlen_nonneg bytes). unfold gathered in Hg. destruct (Z.ltb_spec n 24) as [Hlt|Hge]; [|subst md; apply (write_metadata_parsed _ _ _ _ _ _ _ tail); [done|lia|done]].
  pose proof signed_size as [Hs _]. pose proof head_size as [Hh _]. pose proof (zlen_nonneg (sc_metadata_signature sc)). destruct Hg as [major ->].
  remember 3%nat as rounds eqn:Hrounds. cbn [write_metadata]. subst rounds. apply returns_bind. unfold returns at 1. cbn [io_get]. change (manifest_valid_ (metadata (collected _ _ _ _ _))) with false.
  change (IsHeaderParsed (collected D p n _ e)) with false. cbn [negb]. cbv iota zeta.
  apply returns_bind. unfold returns at 1. destruct (CopyDataToBuffer_head D p n (mkMetadata empty_manifest false 0 0 0 major) e bytes tail kMaxPayloadHeaderSize Hb ltac:(unfold kMaxPayloadHeaderSize; lia) ltac:(unfold kMaxPayloadHeaderSize; lia)) as [-> Hb'].
  unfold kMaxPayloadHeaderSize in *. set (m := Z.min _ _) in *. apply returns_bind. unfold returns at 1. cbn [io_get]. apply returns_bind. unfold returns at 1.
  change (buffer_ (download (collected D p ?l _ _))) with (slice (head_bytes sc) 0 l).
  destruct (ParsePayloadMetadata_spec D p (n + m) (mkMetadata empty_manifest false 0 0 0 major) e ltac:(lia) ltac:(left; split; [by eexists|lia])) as (md' & -> & Hmd).
  apply returns_bind. unfold returns at 1. cbn [io_get]. assert (Hz : zlen (drop (Z.to_nat m) bytes) = zlen bytes - m) by (apply zlen_drop; lia).
  destruct (Z.ltb_spec (n + m) (zlen (head_bytes sc))) as [Hlt'|Hge].
  - unfold gathered in Hmd. destruct (Z.ltb_spec (n + m) 24) as [Hlt2|Hge2].
    + destruct Hmd as [major' ->]. change (IsHeaderParsed (collected D p (n + m) _ _)) with false. cbn [andb]. apply returns_ret. unfold gathering. rewrite (proj2 (Z.ltb_lt _ _)) by lia. assert (m = zlen bytes) as -> by lia.
      split; [done|]. eexists. split; [|done]. unfold gathered. rewrite (proj2 (Z.ltb_lt _ _)) by lia. by eexists.
    + subst md'. assert (Hp : IsHeaderParsed (collected D p (n + m) (head_metadata sc empty_manifest false) kSuccess) = true)
        by (apply negb_true_iff, Z.eqb_neq; cbn [collected metadata head_metadata metadata_size_]; lia). rewrite Hp. cbn [andb]. assert (Hnm : n + m = 24) by lia. rewrite Hnm in *.
      eapply returns_mono; [eapply (write_metadata_parsed D p off 24 kSuccess 1 _ tail); [done|lia|exact Hb']|]. intros r s'. unfold gathering. rewrite Hz.
      replace (24 + (zlen bytes - m)) with (n + zlen bytes) by lia. rewrite drop_drop. by replace (Z.to_nat m + Z.to_nat (zlen (head_bytes sc) - 24))%nat with (Z.to_nat (zlen (head_bytes sc) - n)) by lia.
  - assert (Hnm : n + m = zlen (head_bytes sc)) by lia. rewrite Hnm in *. subst md'. unfold gathering. rewrite (proj2 (Z.ltb_ge _ _)) by lia.
    replace (zlen (head_bytes sc) - n) with m by lia. exact (write_metadata_valid D p off 2 _ _ Hpos eq_refl).
Qed.

(** ** The data *)

Definition placed s : Prop := exists off, position off (disk (slots s)) (prefs_ s).

Lemma interrupted_placed s : interrupted su s -> placed s.
Proof.
  intros [(dj & j & later & done & rest & off & bs & Hjs & Hops & Hoff & Hlay & [[Hm Hg] Hsig Hnone Hnext] & Hdisk & Hcov)]. exists off, dj, j, later, done, rest, bs. split_and!; try done; try apply Hoff.
  intros _. split; [|done]. rewrite Hm. cbn [setup_of su_metadata head_metadata metadata_size_]. pose proof signed_size as [Hs _]. rewrite sint_small; [done| |]; lia.
Qed.

Lemma running_error e dc jc dj j later done rest off pend s : running su dc jc dj j later done rest off pend s -> running su dc jc dj j later done rest off pend (set_error e s).
Proof. intros [? ? ? ? ? ? ? ? ? ? ? ? ? ?]. by split. Qed.

Lemma received_error e n s : received su n s -> received su n (set_error e s).
Proof.
  intros (dc & jc & dj & j & later & done & rest & off & pend & Hr & Hn). exists dc, jc, dj, j, later, done, rest, off, pend. split; [by apply running_error|done].
Qed.

Lemma received_metadata n s : received su n s -> metadata s = su_metadata su.
Proof. intros (? & ? & ? & ? & ? & ? & ? & ? & ? & [? ? ? ? ? Hm] & _). done. Qed.

(** What a call of [Write] may leave behind. *)
Definition consumed (cancel : nat -> option ErrorCode) (P : DeltaPerformer -> Prop) (r : option ()) s' : Prop :=
  (no_errors -> (forall k, cancel k = None) -> r = Some ()) /\ placed s' /\ (r = Some () -> P s').

Lemma write_data cancel dc jc dj j later done rest off pend bytes s :
  running su dc jc dj j later done rest off pend s -> bytes = slice (sc_blobs sc) (off + zlen pend) (zlen bytes) -> off + zlen pend + zlen bytes <= zlen (sc_blobs sc) ->
  match rest ++ all_ops later with op :: _ => zlen pend <= zlen (blob_of (sc_blobs sc) op) | [] => True end ->
  returns (s ← io_get; rest ← write_operations cancel (S (num_total_operations_ (progress s))) bytes;
           match rest with kReturn => mret () | kLeft bytes => write_signatures bytes end) s
    (consumed cancel (received su (off + zlen pend + zlen bytes))).
Proof.
  intros Hr Hb Hle Hpend. apply returns_bind. unfold returns at 1. cbn [io_get]. apply returns_bind. eapply returns_mono.
  { eapply (write_operations_spec su (setup_of_ok _ _ Hsc)); [done| |done|done|done]. destruct Hr as [Hjs Hops _ _ _ _ _ _ (last & -> & _) _ _ _ _ _].
    cbn [progress_at num_total_operations_]. rewrite Hjs. unfold all_ops. rewrite bind_app, bind_cons, Hops, !length_app. lia. }
  intros r s' (Hok & Hir & Hst). assert (Hdone : forall st, r = Some st -> consumed cancel (received su (off + zlen pend + zlen bytes)) (Some ()) s').
  { intros st E. destruct (Hst st E) as [Hrc _]. split_and!; [done| |done]. apply interrupted_placed. destruct Hrc as (? & ? & ? & ? & ? & ? & ? & ? & ? & Hrun & _). by eapply running_interrupted. }
  destruct r as [st|]; [|split_and!; [|by apply interrupted_placed, Hir|done]].
  - destruct (Hst st eq_refl) as [Hrc [->| ->]]; [by apply returns_ret, (Hdone kReturn)|]. unfold write_signatures. apply returns_bind. unfold returns at 1. cbn [io_get].
    rewrite (received_metadata _ _ Hrc). cbn [setup_of su_metadata head_metadata manifest_ bare_manifest signatures_offset]. rewrite (sk_unsigned _ _ Hsc). by apply returns_ret, (Hdone (kLeft [])).
  - intros Hne Hc. destruct (Hok Hne Hc). done.
Qed.

(** The bytes of a session that goes on from [off]. *)
Definition stream (off : Z) : list Z := head_bytes sc ++ drop (Z.to_nat off) (sc_blobs sc).

Definition at_byte (off n : Z) s : Prop :=
  0 <= n < zlen (head_bytes sc) /\ (exists D p md e, position off D p /\ gathered n md /\ s = collected D p n md e)
  \/ zlen (head_bytes sc) <= n /\ received su (off + n - zlen (head_bytes sc)) s.

Lemma position_offset off D p : position off D p -> 0 <= off <= zlen (sc_blobs sc).
Proof. intros (? & ? & ? & ? & ? & ? & _ & _ & ? & _). done. Qed.

Lemma stream_data off n m : 0 <= off <= zlen (sc_blobs sc) -> zlen (head_bytes sc) <= n -> 0 <= m -> slice (stream off) n m = slice (sc_blobs sc) (off + n - zlen (head_bytes sc)) m.
Proof.
  intros Ho Hn Hm. unfold stream, slice. rewrite drop_app_ge by (unfold zlen in *; lia). rewrite drop_drop. do 2 f_equal. unfold zlen in *. lia.
Qed.

Lemma at_byte_placed off n s : at_byte off n s -> placed s.
Proof.
  intros [[_ (D & p & md & e & Hpos & _ & ->)]|[_ (? & ? & ? & ? & ? & ? & ? & ? & ? & Hrun & _)]]; [by exists off|]. by eapply interrupted_placed, running_interrupted.
Qed.

Lemma consumed_mono cancel (P Q : DeltaPerformer -> Prop) r s : (P s -> Q s) -> consumed cancel P r s -> consumed cancel Q r s.
Proof. intros Himp (Hok & Hpl & HP). split_and!; [done|done|]. intros E. by apply Himp, HP. Qed.

Lemma Write_spec cancel off n bytes s :
  0 <= off <= zlen (sc_blobs sc) -> at_byte off n s -> bytes = slice (stream off) n (zlen bytes) -> n + zlen bytes <= zlen (stream off) ->
  returns (DeltaPerformer_Write settings cancel bytes) s (consumed cancel (at_byte off (n + zlen bytes))).
Proof.
  intros Ho Hat Hb Hle. pose proof (zlen_nonneg bytes). assert (Hst : zlen (stream off) = zlen (head_bytes sc) + (zlen (sc_blobs sc) - off)) by (unfold stream; rewrite zlen_app, zlen_drop; lia).
  unfold DeltaPerformer_Write. apply returns_bind. unfold returns at 1. cbn [io_modify]. apply returns_bind.
  destruct Hat as [[Hn (D & p & md & e & Hpos & Hg & ->)]|[Hn Hrc]].
  - change (set_error kSuccess (collected D p n md e)) with (collected D p n md kSuccess). eapply returns_mono; [by eapply (write_metadata_spec D p off n md kSuccess bytes)|].
    intros r s' Hgat. unfold gathering in Hgat. destruct (Z.ltb_spec (n + zlen bytes) (zlen (head_bytes sc))) as [Hlt|Hge].
    + destruct Hgat as (-> & md' & Hg' & ->). apply returns_ret. split_and!; [done|by exists off|]. intros _. left. split; [lia|]. by eexists _, _, _, _.
    + destruct Hgat as (-> & dc & jc & dj & j & later & done & rest & Hr). set (left := drop _ _). assert (Hz : zlen left = n + zlen bytes - zlen (head_bytes sc)) by (unfold left; rewrite zlen_drop; lia).
      eapply returns_mono; [eapply (write_data cancel _ _ _ _ _ _ _ off [] left); [done| | |]|].
      * rewrite zlen_nil, Z.add_0_r, Hz. unfold left. rewrite Hb at 1. rewrite drop_slice, stream_data by lia. f_equal; lia.
      * rewrite zlen_nil. lia.
      * destruct (rest ++ all_ops later); [done|]. rewrite zlen_nil. apply zlen_nonneg.
      * intros r s2. apply consumed_mono. intros Hrc. right. split; [lia|]. rewrite zlen_nil, Hz in Hrc. by replace (off + (n + zlen bytes) - zlen (head_bytes sc)) with (off + 0 + (n + zlen bytes - zlen (head_bytes sc))) by lia.
  - apply (received_error kSuccess) in Hrc. unfold write_metadata at 1. apply returns_bind. unfold returns at 1. cbn [io_get]. rewrite (received_metadata _ _ Hrc). cbn [setup_of su_metadata head_metadata manifest_valid_]. apply returns_ret.
    destruct Hrc as (dc & jc & dj & j & later & done & rest & off' & pend & Hr & Hoff & Hle' & Hpend). eapply returns_mono; [eapply (write_data cancel _ _ _ _ _ _ _ off' pend bytes); [done| | |]|].
    + rewrite <- Hoff, <- stream_data by lia. done.
    + lia.
    + destruct (rest ++ all_ops later); [done|]. by apply Z.lt_le_incl.
    + intros r s2. apply consumed_mono. intros Hrc. right. split; [lia|]. rewrite <- Hoff in Hrc. by replace (off + (n + zlen bytes) - zlen (head_bytes sc)) with (off + n - zlen (head_bytes sc) + zlen bytes) by lia.
Qed.

Lemma write_all_spec cancel off pieces n s :
  0 <= off <= zlen (sc_blobs sc) -> at_byte off n s -> concat pieces = slice (stream off) n (zlen (concat pieces)) -> n + zlen (concat pieces) <= zlen (stream off) ->
  returns (write_all settings cancel pieces) s (consumed cancel (at_byte off (n + zlen (concat pieces)))).
Proof.
  intros Ho. unfold write_all. revert n s. induction pieces as [|bytes pieces IH]; intros n s Hat Hb Hle; cbn [io_fold concat] in *.
  { apply returns_ret. rewrite zlen_nil, Z.add_0_r. split_and!; [done|by eapply at_byte_placed|done]. }
  assert (Hn : 0 <= n) by (destruct Hat as [[? _]|[? _]]; pose proof (zlen_nonneg (head_bytes sc)); lia).
  rewrite zlen_app in *. pose proof (zlen_nonneg bytes). pose proof (zlen_nonneg (concat pieces)). rewrite slice_app in Hb by lia. apply app_inj_1 in Hb as [Hb1 Hb2]; [|apply Nat2Z.inj; fold (zlen bytes); fold (zlen (slice (stream off) n (zlen bytes))); rewrite zlen_slice; lia].
  apply returns_bind. eapply returns_mono; [apply (Write_spec cancel off n bytes s Ho Hat Hb1); lia|]. intros [[]|] s' (Hok & Hpl & HP).
  - rewrite Z.add_assoc. apply IH; [by apply HP|done|lia].
  - by split_and!.
Qed.

(** ** Sessions *)

(** Files of no target are untouched, and targets have kept their size. *)
Definition intact (D : gmap string (list Z)) : Prop :=
  (forall path, path ∉ jb_target <$> js -> D !! path = sc_disk sc !! path) /\ forall j, j ∈ js -> holds D j [].

Lemma position_intact off D p : position off D p -> intact D.
Proof.
  intros (dj & j & later & done & rest & bs & Hjs & _ & _ & _ & _ & _ & [Ho Hd Hh Hl] & _). split; [by rewrite Hjs|].
  intros i. rewrite Hjs. intros [Hi|[->|Hi]%elem_of_cons]%elem_of_app; [destruct (Hd i Hi) as (f & Hf & Hz & _)|destruct Hh as (f & Hf & Hz & _)|by apply Hl];
    (exists f; split_and!; [done|done|]; intros b Hb; by apply not_elem_of_nil in Hb).
Qed.

Lemma source_intact : intact (sc_disk sc).
Proof.
  split; [done|]. intros j Hj. pose proof (sk_jobs _ _ Hsc) as Hall. rewrite Forall_forall in Hall. destruct (jk_target _ _ _ _ _ (Hall j Hj)) as (_ & f & Hf & Hz).
  exists f. split_and!; [done|done|]. intros b Hb. by apply not_elem_of_nil in Hb.
Qed.

(** A new update can start on such a device. *)
Lemma intact_position D p : intact D -> default [] (GetString kPrefsUpdateStateSignatureBlob p) = [] -> default 0 (GetInt64 kPrefsUpdateStateNextOperation p) <= 0 -> position 0 D p.
Proof.
  intros [Ho Ht] Hs Hn. destruct (sk_partitions _ _ Hsc) as [_ Hne]. destruct js as [|j later] eqn:Ejs; [done|]. exists [], j, later, [], (job_ops j), []. pose proof (zlen_nonneg (sc_blobs sc)).
  split_and!; try done.
  - pose proof (sk_layout _ _ Hsc) as Hl. by rewrite Ejs in Hl.
  - split; [by simpl|intros i Hi; by apply not_elem_of_nil in Hi|apply Ht; by left|intros i Hi; apply Ht; by right].
  - split; intros b Hb; by apply not_elem_of_nil in Hb.
Qed.

Lemma payload_size : zlen (payload_bytes sc) = zlen (head_bytes sc) + zlen (sc_blobs sc) /\ zlen (payload_bytes sc) < 2 ^ 34.
Proof. unfold payload_bytes. rewrite zlen_app. pose proof head_size as [_ ?]. destruct (sk_sizes _ _ Hsc) as (_ & _ & ?). lia. Qed.

Lemma fetch_new p : fetch (payload_bytes sc) (StartDownloading false p (sc_payload sc)) = stream 0.
Proof.
  unfold StartDownloading, fetch. rewrite bind_singleton. assert (E : stream 0 = payload_bytes sc) by (unfold stream; done). rewrite E. destruct (sk_size _ _ Hsc) as [->| ->]; [done|].
  destruct (Z.eqb_spec (zlen (payload_bytes sc)) 0) as [_|_]; [done|apply slice_all].
Qed.

Lemma drop_payload off : 0 <= off -> drop (Z.to_nat (zlen (head_bytes sc) + off)) (payload_bytes sc) = drop (Z.to_nat off) (sc_blobs sc).
Proof. intros Ho. unfold payload_bytes. rewrite drop_app_ge by (unfold zlen; lia). f_equal. unfold zlen. lia. Qed.

Lemma fetch_resumed off p : sizes_saved p -> GetInt64 kPrefsUpdateStateNextDataOffset p = Some off -> 0 <= off <= zlen (sc_blobs sc) ->
  fetch (payload_bytes sc) (StartDownloading true p (sc_payload sc)) = stream off.
Proof.
  intros [Hm Hg] Hd Ho. pose proof head_size as [Hh _]. pose proof signed_size as [Hs _]. pose proof (zlen_nonneg (sc_metadata_signature sc)). pose proof payload_size as [Hp Hp'].
  unfold StartDownloading. rewrite Hm, Hg, Hd. cbn [default from_option id]. unfold id. rewrite <- Hh. rewrite uint_small by (unfold is_uint; lia).
  unfold fetch. rewrite bind_cons. unfold payload_bytes at 1. rewrite slice_app_l. unfold stream. f_equal. destruct (sk_size _ _ Hsc) as [->| ->].
  - change (0 =? 0) with true. cbv iota. rewrite bind_singleton. apply drop_payload. lia.
  - rewrite (proj2 (Z.eqb_neq _ _)) by lia. destruct (Z.ltb_spec (zlen (head_bytes sc) + off) (zlen (payload_bytes sc))) as [Hlt|Hge].
    + rewrite bind_singleton. unfold slice. rewrite drop_payload by lia. apply firstn_all2. rewrite length_drop. unfold zlen in *. lia.
    + rewrite drop_ge; [done|]. unfold zlen in *. lia.
Qed.

(** The device is usable, and the progress of this update, if any, is that of the device. *)
Definition sane (payload_id : list Z) (D : gmap string (list Z)) (p : prefs_store) : Prop :=
  intact D /\ (CanResumeUpdate p payload_id = true -> exists off, position off D p).

Lemma ResetUpdateProgress_spec s : exists p, ResetUpdateProgress false s = Ret (Some (), set_prefs p s)
  /\ GetInt64 kPrefsUpdateStateNextOperation p = Some (-1) /\ GetString kPrefsUpdateStateSignatureBlob p = Some [].
Proof.
  unfold ResetUpdateProgress, mbind, io_bind. rewrite set_pref_int_spec. cbn [test_that]. unfold test_that. cbn [mret io_ret].
  repeat first [rewrite set_pref_int_spec | rewrite set_pref_string_spec].
  eexists. split; [done|]. cbn [prefs_ set_prefs]. split; prefs_get; done.
Qed.

Lemma set_resume_spec payload_id D p plan payload : sane payload_id D p -> exists resume p' off,
  set_resume payload_id (DeltaPerformer_new D p plan payload) = Ret (Some resume, DeltaPerformer_new D p' plan payload)
  /\ position off D p' /\ fetch (payload_bytes sc) (StartDownloading resume p' (sc_payload sc)) = stream off.
Proof.
  intros [Hint Hres]. unfold set_resume. unfold mbind at 1, io_bind at 1, io_get at 1. cbn [DeltaPerformer_new prefs_].
  destruct (negb (bool_decide (payload_id = [])) && CanResumeUpdate p payload_id) eqn:E.
  - apply andb_prop in E as [_ E]. destruct (Hres E) as [off Hpos]. exists true, p, off. split_and!; [done|done|]. pose proof Hpos as (dj & j & later & done & rest & bs & _ & _ & Ho & _ & [_ Hnone Hnext] & Hsz & _).
    unfold CanResumeUpdate in E. apply andb_prop in E as [E _]. repeat (apply andb_prop in E as [E _]).
    assert (Hk : (length (all_ops dj) + length done)%nat <> O). { intros Hk. specialize (Hnone Hk). destruct (GetInt64 kPrefsUpdateStateNextOperation p); [|done]. simpl in Hnone. apply Z.ltb_lt in E. unfold id in *. lia. }
    apply fetch_resumed; [by apply Hsz|by apply (Hnext Hk)|done].
  - destruct (ResetUpdateProgress_spec (DeltaPerformer_new D p plan payload)) as (p1 & Hr & Hn & Hs). unfold mbind at 1, io_bind at 1, io_try. unfold DeltaPerformer_new in *. rewrite Hr.
    unfold mbind at 1, io_bind at 1. rewrite set_pref_string_spec. eexists false, _, 0. split_and!; [done| |apply fetch_new].
    apply intact_position; [done| |]; cbn [prefs_ set_prefs]; prefs_get; [by rewrite Hs|by rewrite Hn].
Qed.

Lemma session_spec cancel payload_id net D p : sane payload_id D p -> (forall l, concat (net l) `prefix_of` l) ->
  returns (session settings cancel payload_id (payload_bytes sc) net) (DeltaPerformer_new D p (sc_plan sc) (sc_payload sc))
    (consumed cancel (fun s => (forall l, concat (net l) = l) -> received su (zlen (sc_blobs sc)) s)).
Proof.
  intros Hsane Hnet. destruct (set_resume_spec payload_id D p (sc_plan sc) (sc_payload sc) Hsane) as (resume & p' & off & Hset & Hpos & Hfetch).
  unfold session. apply returns_bind. unfold returns at 1. rewrite Hset. apply returns_bind. unfold returns at 1. cbn [io_get DeltaPerformer_new prefs_ payload_]. rewrite Hfetch.
  pose proof (position_offset _ _ _ Hpos) as Ho. destruct (Hnet (stream off)) as [more Hmore]. set (pieces := net (stream off)) in *. pose proof signed_size as [Hs _]. pose proof head_size as [Hh _]. pose proof (zlen_nonneg (sc_metadata_signature sc)).
  assert (Hstr : zlen (stream off) = zlen (head_bytes sc) + (zlen (sc_blobs sc) - off)) by (unfold stream; rewrite zlen_app, zlen_drop; lia).
  eapply returns_mono; [apply (write_all_spec cancel off pieces 0)|].
  - done.
  - left. split; [lia|]. exists D, p', (mkMetadata empty_manifest false 0 0 0 0), kSuccess. split_and!; [done|by exists 0|done].
  - rewrite Hmore at 1. by rewrite slice_app_l.
  - rewrite Hmore, zlen_app. pose proof (zlen_nonneg more). lia.
  - intros r s. apply consumed_mono. intros Hat Hall. unfold pieces in Hat. rewrite (Hall (stream off)), Hstr in Hat. destruct Hat as [[? _]|[_ Hrc]]; [lia|].
    by replace (zlen (sc_blobs sc)) with (off + (0 + (zlen (head_bytes sc) + (zlen (sc_blobs sc) - off))) - zlen (head_bytes sc)) at 1 by lia.
Qed.

(** The images are on the targets. *)
Definition installed (D : gmap string (list Z)) : Prop := forall j, j ∈ js -> exists f, D !! jb_target j = Some f /\ zlen f = jb_size j /\ slice f 0 (zlen (jb_new j)) = jb_new j.

Lemma holds_installed D j : j ∈ js -> holds D j (dst_blocks (job_ops j)) -> exists f, D !! jb_target j = Some f /\ zlen f = jb_size j /\ slice f 0 (zlen (jb_new j)) = jb_new j.
Proof.
  intros Hj (f & Hf & Hz & Hb). pose proof (sk_jobs _ _ Hsc) as Hall. rewrite Forall_forall in Hall. specialize (Hall j Hj). destruct (jk_whole _ _ _ _ _ Hall) as [n Hn].
  exists f. split_and!; [done|done|]. pose proof (zlen_nonneg (jb_new j)). assert (0 <= n) by (unfold kBlockSize in *; lia).
  rewrite <- (slice_all (jb_new j)) at 2. rewrite Hn. rewrite <- (Z.mul_0_l kBlockSize), !slice_blocks by lia. f_equal. apply list_fmap_ext. intros i b Hi%list_elem_of_lookup_2.
  apply elem_of_seqZ in Hi. apply Hb, (jk_all _ _ _ _ _ Hall); [lia|]. unfold kBlockSize in *. lia.
Qed.

Lemma received_all s : received su (zlen (sc_blobs sc)) s -> installed (disk (slots s)) /\ metadata s = su_metadata su
  /\ path_to_public_key settings (install_plan_ s) = path_to_public_key settings (sc_plan sc)
  /\ download s = mkDownload _ [] (zlen (sc_blobs sc)) (mkCalculator _ (hashed su (su_head su) (zlen (sc_blobs sc))) []) (mkCalculator _ (hashed su (su_signed su) (zlen (sc_blobs sc))) []) [].
Proof.
  intros (dc & jc & dj & j & later & done & rest & off & pend & [Hjs Hops _ [Hoff Hlay] Hpend Hmd Hpl _ _ Hdl _ _ _ (bs & Hdisk & [_ Hcov])] & Hn & _ & Hnext). cbn [setup_of su_jobs su_blobs su_disk] in *.
  assert (Hnil : rest ++ all_ops later = [] /\ pend = []).
  { destruct (rest ++ all_ops later) as [|op ops] eqn:E; [done|]. destruct (laid_out_head su off op ops Hlay ltac:(lia)) as (_ & _ & _ & Hle). cbn [setup_of su_blobs] in Hle. lia. }
  destruct Hnil as [[-> Hl]%app_eq_nil ->]. rewrite zlen_nil, Z.add_0_r in Hn. subst off. split_and!; [|done|by rewrite Hpl|done]. intros i Hi. apply holds_installed; [done|].
  rewrite app_nil_r in Hops. destruct Hdisk as [_ Hd (f & Hf & Hz & Hb) Hlat]. rewrite Hjs in Hi. apply elem_of_app in Hi as [Hi|[->|Hi]%elem_of_cons].
  - by apply Hd.
  - exists f. split_and!; [done|done|]. intros b Hbi. rewrite Hops in Hbi. destruct (Hcov b Hbi) as [?|(op & ? & _)]; [by apply Hb|done].
  - assert (E : job_ops i = []). { apply elem_of_nil_inv. intros op Hop. assert (Hin : op ∈ all_ops later) by (apply list_elem_of_bind; by exists i). rewrite Hl in Hin. by apply not_elem_of_nil in Hin. }
    rewrite E. by apply Hlat.
Qed.

(** What [VerifyPayload] returns for a payload with the right bytes and no signature. *)
Definition unsigned_result (plan : InstallPlan) : ErrorCode := if FileExists (path_to_public_key settings plan) then kSignedDeltaPayloadExpectedError else kSuccess.

(** What is left to do: nothing is in the buffer, and the hash is that of the payload. *)
Lemma received_verified s : received su (zlen (sc_blobs sc)) s -> installed (disk (slots s))
  /\ exists s', Close s = Ret (Some 0, s') /\ disk (slots s') = disk (slots s)
     /\ VerifyPayload settings s' (sha256 (payload_bytes sc)) (zlen (payload_bytes sc)) = unsigned_result (sc_plan sc).
Proof.
  intros Hr. destruct (received_all s Hr) as (Hins & Hmd & Hpl & Hdl). split; [done|].
  eexists. unfold Close, mbind, io_bind, CloseCurrentPartition, io_modify, io_get. cbn [set_slots download set_download slots disk buffer_]. rewrite Hdl. split_and!; [done|done|].
  unfold VerifyPayload. rewrite (metadata_end_spec _ (bare_manifest (sc_manifest sc)) true) by done.
  cbn [set_download set_slots download buffer_offset_ payload_hash_calculator_ Finalize raw_hash_ ctx_]. destruct (payload_size) as [Hz Hz']. pose proof (zlen_nonneg (payload_bytes sc)).
  rewrite uint_small, <- Hz, Z.eqb_refl by (unfold is_uint; lia). cbn [negb]. unfold Finalize. cbn [raw_hash_ ctx_]. rewrite (bool_decide_true ([] = [])) by done. cbn [raw_hash_].
  assert (E : sha_final (hashed (setup_of sc) (su_head (setup_of sc)) (zlen (sc_blobs sc))) = sha256 (payload_bytes sc)).
  { unfold hashed, sha256, payload_bytes. cbn [setup_of su_head su_blobs]. unfold zlen. by rewrite Nat2Z.id, firstn_all. }
  rewrite E, bool_decide_false, bool_decide_true; [|done|].
  { cbn [set_download set_slots install_plan_ negb signatures_message_data_]. rewrite Hpl. unfold unsigned_result. by destruct (FileExists (path_to_public_key settings (sc_plan sc))). }
  intros E'. pose proof (sha_final_size (sha_update sha_init (payload_bytes sc))) as Hsz. unfold sha256 in E'. by rewrite E' in Hsz.
Qed.
End Start.

(** ** Any number of attempts *)

Section Attempted.
Context `{Sha256Ok} `{PrefsOk} `{Streams} `{BlockDevice} `{Decoders} `{Protobuf} `{BootControl} `{Platform}.
Context `{!StreamOk bzip2_stream bunzip2} `{!StreamOk xz_stream unxz} `{!BlockDeviceOk}.
Context (settings : Settings) (sc : Source) (Hsc : source_ok settings sc).
Context (payload_id : list Z) (p0 : prefs_store) (Hp0 : CanResumeUpdate p0 payload_id = false).

Lemma attempted_sane D p :
  attempted settings payload_id (payload_bytes sc) (sc_plan sc) (sc_payload sc) (sc_disk sc) p0 D p -> sane sc payload_id D p.
Proof.
  induction 1 as [|D p K B cancel net r s _ IH HK HB Hnet Hrun]; [split; [by eapply source_intact|by rewrite Hp0]|].
  pose proof (session_spec settings sc Hsc cancel payload_id net D p IH Hnet) as Hs. unfold returns in Hs. rewrite Hrun in Hs.
  destruct Hs as (_ & [off Hpos] & _). split; [by eapply position_intact|]. by exists off.
Qed.


End Attempted.

(** ** Payloads from anyone *)

(** [partial m s Q]: [Q] holds if the call returns at all. *)
Definition partial {S A} (m : io S A) (s : S) (Q : option A -> S -> Prop) : Prop := forall r s', m s = Ret (r, s') -> Q r s'.

Lemma partial_bind {S A B} (m : io S A) (f : A -> io S B) (s : S) Q :
  partial m s (fun r s' => match r with Some a => partial (f a) s' Q | None => Q None s' end) -> partial (m ≫= f) s Q.
Proof. intros Hm r s' E. unfold mbind, io_bind in E. destruct (m s) as [[[a|] s1]| |] eqn:E1; [|by simplify_eq; apply (Hm _ _ E1)|done..]. by apply (Hm _ _ E1). Qed.

Lemma partial_mono {S A} (m : io S A) (s : S) (P Q : option A -> S -> Prop) : partial m s P -> (forall r s', P r s' -> Q r s') -> partial m s Q.
Proof. intros Hm Himp r s' E. by apply Himp, Hm. Qed.

Lemma slice_app_within (l k : list Z) i n : 0 <= i -> i + n <= zlen l -> slice (l ++ k) i n = slice l i n.
Proof.
  intros Hi Hn. destruct (Z.leb_spec 0 n); [by apply slice_within|]. unfold slice. by replace (Z.to_nat n) with O by lia.
Qed.

Section Forged.
Context `{Kernel} `{Sha256} `{Prefs} `{Streams} `{Bspatch} `{BlockDevice} `{Protobuf} `{BootControl} `{Platform}.
Context (settings : Settings) (plan : InstallPlan) (payload : Payload) (slots0 : Slots).
Implicit Types (s : DeltaPerformer) (got bytes : list Z).

(** [bytes] start with metadata of the announced size that the key has signed:
    the signature is in the response, or follows the metadata. *)
Definition authentic bytes : Prop :=
  let size := pl_metadata_size payload in
  let key := path_to_public_key settings plan in
  let hash := snd (PadRSA2048SHA256Hash (sha256 (take (Z.to_nat size) bytes))) in
  take 4 bytes = kDeltaMagic /\ size <= zlen bytes
  /\ if bool_decide (pl_metadata_signature payload = []) then
       let n := from_big_endian (slice bytes 20 4) in
       from_big_endian (slice bytes 4 8) = kBrilloMajorPayloadVersion /\ 24 <= zlen bytes /\ size + n <= zlen bytes
       /\ VerifySignature (slice bytes size n) key hash = true
     else exists signature, Base64Decode (pl_metadata_signature payload) = Some signature /\ GetRawHashFromSignature signature key = Some hash.

(** What is known once the header has been parsed. *)
Record header_read got (md : Metadata) : Prop := {
  hr_magic : take 4 got = kDeltaMagic /\ 12 <= zlen got;
  hr_size : metadata_size_ md = pl_metadata_size payload;
  hr_major : major_payload_version_ md = from_big_endian (slice got 4 8);
  hr_signature : major_payload_version_ md = kBrilloMajorPayloadVersion -> 24 <= zlen got /\ metadata_signature_size_ md = from_big_endian (slice got 20 4);
}.

(** [got] has arrived, and nothing has been verified or opened. *)
Record unverified got s : Prop := {
  uv_valid : manifest_valid_ (metadata s) = false;
  uv_slots : slots s = slots0;
  uv_plan : install_plan_ s = plan;
  uv_payload : payload_ s = payload;
  uv_buffer : buffer_ (download s) = got;
  uv_header : metadata_size_ (metadata s) = 0 \/ header_read got (metadata s);
}.

Lemma take_app_within (l k : list Z) n : Z.of_nat n <= zlen l -> take n (l ++ k) = take n l.
Proof. intros Hn. apply take_app_le. unfold zlen in Hn. lia. Qed.

Lemma header_read_more got bytes md : header_read got md -> header_read (got ++ bytes) md.
Proof.
  intros [[Hm Hz] Hs Hv Hg]. pose proof (zlen_nonneg bytes). split; rewrite ?zlen_app.
  - rewrite take_app_within by lia. split; [done|lia].
  - done.
  - by rewrite slice_app_within by lia.
  - intros [? ->]%Hg. rewrite slice_app_within by lia. split; [lia|done].
Qed.

Lemma authentic_more got bytes : 0 <= pl_metadata_size payload -> authentic got -> authentic (got ++ bytes).
Proof.
  intros Hp. unfold authentic. cbv zeta. intros (Hm & Hz & Hc). pose proof (zlen_nonneg bytes). assert (4 <= zlen got) by (unfold zlen; rewrite <- (take_drop 4 got), Hm, length_app; simpl; lia).
  rewrite !(take_app_within got), zlen_app by lia. split_and!; [done|lia|]. case_match; [|done]. destruct Hc as (Hv & Hl & Hn & Hsig).
  rewrite !(slice_app_within got) by lia. split_and!; (done || lia).
Qed.

Context (Hplan : hash_checks_mandatory plan = true) (Hsize : 0 < pl_metadata_size payload < 2 ^ 64).

Lemma parse_header_unverified got s : unverified got s -> metadata_size_ (metadata s) = 0 ->
  partial (parse_header settings got) s (fun r s' => slots s' = slots0
    /\ (r = Some kMetadataParseInsufficientData -> unverified got s' /\ IsHeaderParsed s' = false /\ zlen got < 24)
    /\ (r = Some kMetadataParseSuccess -> unverified got s' /\ header_read got (metadata s'))).
Proof.
  intros [Hv Hs Hp Hpay Hb Hsz] H0' r s'. unfold parse_header, mbind, io_bind, io_get, io_modify, mret, io_ret. rewrite Hp, Hpay, Hplan. cbn [andb].
  unfold kDeltaManifestSizeOffset, kDeltaVersionOffset, kDeltaVersionSize, kDeltaManifestSizeSize, kDeltaMetadataSignatureSizeSize.
  destruct (Z.ltb_spec (zlen got) (4 + 8)) as [Hlt|Hge].
  { intros [= <- <-]. split_and!; [done| |done]. intros _. split_and!; [by split; try left|unfold IsHeaderParsed; by rewrite H0'|lia]. }
  destruct (decide (take 4 got = kDeltaMagic)) as [Hm|Hm]; [rewrite (bool_decide_true (take 4 got = _)) by done|rewrite (bool_decide_false (take 4 got = _)) by done; by intros [= <- <-]].
  cbn [negb]. set (major := from_big_endian (slice got 4 8)). case_match; [by intros [= <- <-]|]. destruct (GetManifestOffset major) as [off|] eqn:Eo; [|by intros [= <- <-]].
  assert (Hoff : off <= 24 /\ (major = kBrilloMajorPayloadVersion -> off = 24)).
  { revert Eo. unfold GetManifestOffset, kDeltaManifestSizeOffset, kDeltaManifestSizeSize, kDeltaMetadataSignatureSizeSize, kDeltaVersionOffset, kDeltaVersionSize. case_match eqn:E1; [intros [= <-]|case_match; intros; simplify_eq; lia].
    split; [lia|]. intros Em. by rewrite Em in E1. }
  destruct (Z.ltb_spec (zlen got) off) as [Hlt'|Hge'].
  { intros [= <- <-]. split_and!; [done| |done]. intros _. split_and!; [by split; try left|unfold IsHeaderParsed; cbn; by rewrite H0'|lia]. }
  case_match eqn:Esz; [by intros [= <- <-]|]. apply negb_false_iff, Z.eqb_eq in Esz. intros [= <- <-]. split_and!; [done|done|]. intros _.
  assert (Hh : header_read got (metadata (set_header major (from_big_endian (slice got (4 + 8) 8)) (if major =? kBrilloMajorPayloadVersion then from_big_endian (slice got (4 + 8 + 8) 4)
      else metadata_signature_size_ (metadata s)) (u64 (off + from_big_endian (slice got (4 + 8) 8))) s))).
  { split; cbn [set_header set_metadata metadata metadata_size_ major_payload_version_ metadata_signature_size_]; [by split|done|done|]. intros ->. rewrite Z.eqb_refl. split; [lia|done]. }
  split; [|done]. split; try done. by right.
Qed.

Lemma ValidateMetadataSignature_authentic got s : unverified got s -> header_read got (metadata s) -> ValidateMetadataSignature settings s got = Ret kSuccess -> authentic got.
Proof.
  intros [_ _ Hp Hpay _ _] [[Hm Hz] Hs Hv Hg]. unfold ValidateMetadataSignature, metadata_signature_blobs, authentic. cbv zeta. rewrite Hp, Hpay, Hplan, Hs.
  unfold mbind, outcome_bind. destruct (decide (pl_metadata_signature payload = [])) as [E|E];
    [rewrite !(bool_decide_true (pl_metadata_signature payload = [])) by done|rewrite !(bool_decide_false (pl_metadata_signature payload = [])) by done]; cbn [negb].
  - destruct (major_payload_version_ (metadata s) =? kBrilloMajorPayloadVersion) eqn:Em; [|by case_match]. apply Z.eqb_eq in Em. destruct (Hg Em) as [Hl Hn]. rewrite Hn.
    destruct (zlen got <? metadata_end s); [done|]. destruct (Z.ltb_spec (zlen got) (pl_metadata_size payload + from_big_endian (slice got 20 4))) as [|Hin]; [done|].
    rewrite (bool_decide_true ([] = [])) by done. cbn [negb andb]. case_match; [done|]. destruct (Z.ltb_spec (zlen got) (pl_metadata_size payload)) as [|Hin']; [done|].
    case_match; [done|]. case_match; [|done]. intros _. rewrite <- Hv. by split_and!.
  - destruct (zlen got <? metadata_end s); [done|]. destruct (Base64Decode _) as [blob|]; [|done]. cbn. destruct (bool_decide (blob = [])) eqn:Eb; cbn [andb negb]; [done|].
    destruct (Z.ltb_spec (zlen got) (pl_metadata_size payload)) as [|Hin]; [done|]. case_match; [done|]. destruct (GetRawHashFromSignature _ _) as [expected|] eqn:Er; [|done].
    case_match eqn:Eh; [|done]. apply bool_decide_eq_true in Eh. intros _. split_and!; [done|done|]. exists blob. by rewrite Er, Eh.
Qed.

(** Bytes are missing as long as fewer than these have arrived. *)
Definition needed s : Z := if IsHeaderParsed s then metadata_end s else kMaxPayloadHeaderSize.

Lemma header_parsed got s : header_read got (metadata s) -> IsHeaderParsed s = true.
Proof. intros [_ Hs _ _]. unfold IsHeaderParsed. rewrite Hs. apply negb_true_iff, Z.eqb_neq. lia. Qed.

Lemma ParsePayloadMetadata_unverified got s : unverified got s ->
  partial (ParsePayloadMetadata settings got) s (fun r s' => slots s' = slots0
    /\ (r = Some kMetadataParseInsufficientData -> unverified got s' /\ zlen got < needed s' /\ (IsHeaderParsed s = true -> metadata s' = metadata s))
    /\ (r = Some kMetadataParseSuccess -> authentic got)).
Proof.
  intros Hu. unfold ParsePayloadMetadata. apply partial_bind. intros r0 s0 [= <- <-]. apply partial_bind. intros r0 s0 [= <- <-].
  assert (Hu' : unverified got (set_error kSuccess s)) by (by destruct Hu). change (IsHeaderParsed s) with (IsHeaderParsed (set_error kSuccess s)). change (metadata s) with (metadata (set_error kSuccess s)).
  set (s1 := set_error kSuccess s) in *. apply partial_bind.
  eapply partial_mono; [instantiate (1 := fun r s' => slots s' = slots0
    /\ (r = Some kMetadataParseInsufficientData -> unverified got s' /\ zlen got < needed s' /\ (IsHeaderParsed s1 = true -> metadata s' = metadata s1))
    /\ (r = Some kMetadataParseSuccess -> unverified got s' /\ header_read got (metadata s') /\ (IsHeaderParsed s1 = true -> metadata s' = metadata s1)))|].
  - destruct (IsHeaderParsed s1) eqn:E.
    + intros r s' [= <- <-]. pose proof Hu' as [_ ? _ _ _ [Hsz|Hsz]]; [unfold IsHeaderParsed in E; by rewrite Hsz in E|]. by split_and!.
    + eapply partial_mono; [apply parse_header_unverified; [done|by apply negb_false_iff, Z.eqb_eq in E]|]. intros r s' (Hs & Hi & Hok). split_and!; [done| |].
      * intros Er. destruct (Hi Er) as (Hu2 & Hh & Hl). unfold needed. rewrite Hh. by split_and!.
      * intros Er. destruct (Hok Er). by split_and!.
  - intros [[]|] s2 (Hs2 & Hi & Hok); [|intros r s' [= <- <-]; by split_and!|intros r s' [= <- <-]; split_and!; [done|intros _; by apply Hi|done]|by split_and!].
    destruct (Hok eq_refl) as (Hu2 & Hh & Hsame). apply partial_bind. intros r0 s0 [= <- <-]. destruct (Z.ltb_spec (zlen got) (metadata_end s2)) as [Hlt|Hge].
    { intros r s' [= <- <-]. split_and!; [done| |done]. intros _. unfold needed. rewrite (header_parsed got) by done. by split_and!. }
    apply partial_bind. unfold io_outcome. intros r0 s0. destruct (ValidateMetadataSignature settings s2 got) as [e| |] eqn:Ev; [|done..]. intros [= <- <-].
    rewrite (uv_plan _ _ Hu2), Hplan, andb_true_r. destruct (decide (e = kSuccess)) as [->|He]; [rewrite bool_decide_true by done|rewrite bool_decide_false by done; intros r s' [= <- <-]; by split_and!].
    pose proof (ValidateMetadataSignature_authentic got s2 Hu2 Hh Ev) as Ha. cbn [negb]. intros r s'. unfold mbind, io_bind, io_check, io_modify, mret, io_ret. repeat case_match; intros; simplify_eq; by split_and!.
Qed.

(** While bytes are missing, all that arrive are kept. *)
Lemma copied_all (got bytes : list Z) max : max < 2 ^ 64 -> let n := Z.to_nat (Z.min (zlen bytes) (u64 (max - zlen got))) in zlen (got ++ take n bytes) < max -> take n bytes = bytes.
Proof.
  intros Hmax n Hlt. rewrite zlen_app in Hlt. pose proof (zlen_nonneg (take n bytes)). pose proof (zlen_nonneg got). assert (Hu : u64 (max - zlen got) = max - zlen got) by (apply uint_small; unfold is_uint; lia).
  subst n. rewrite Hu in *. apply take_ge. unfold zlen in *. rewrite length_take in Hlt. lia.
Qed.

Lemma metadata_end_bound s : metadata_end s < 2 ^ 64.
Proof. unfold metadata_end, uint. apply Z.mod_pos_bound. lia. Qed.

Lemma write_metadata_unverified fuel bytes got s : unverified got s -> partial (write_metadata settings fuel bytes) s (fun r s' =>
  authentic (got ++ bytes) \/ slots s' = slots0 /\ (r = None \/ r = Some kReturn /\ unverified (got ++ bytes) s')).
Proof.
  revert bytes got s. induction fuel as [|fuel IH]; intros bytes got s Hu; cbn [write_metadata]; [intros r s' [=]|]. apply partial_bind. intros r0 s0 [= <- <-]. pose proof Hu as [Hv Hs Hp Hpay Hb Hh]. rewrite Hv. cbv zeta.
  apply partial_bind. intros r0 s0 E. unfold CopyDataToBuffer in E. rewrite Hb in E. injection E as <- <-. set (max := if negb (IsHeaderParsed s) then kMaxPayloadHeaderSize else metadata_end s).
  set (n := Z.to_nat (Z.min (zlen bytes) (u64 (max - zlen got)))). set (s1 := set_download _ s).
  assert (Hu1 : unverified (got ++ take n bytes) s1). { split; try done. destruct Hh as [?|?]; [by left|right; by apply header_read_more]. }
  assert (Hall : (got ++ take n bytes) ++ drop n bytes = got ++ bytes) by (by rewrite <- app_assoc, take_drop).
  apply partial_bind. intros r0 s0 [= <- <-]. apply partial_bind. change (buffer_ (download s1)) with (got ++ take n bytes). eapply partial_mono; [by apply ParsePayloadMetadata_unverified|].
  intros [[]|] s2 (Hs2 & Hi & Hok); [| | |by right; split; [|left]].
  - intros r0 s3 _. left. rewrite <- Hall. apply authentic_more; [lia|by apply Hok].
  - apply partial_bind. intros r0 s0 [= <- <-] r s' [= <- <-]. right. split; [done|by left].
  - destruct (Hi eq_refl) as (Hu2 & Hlt & Hsame). apply partial_bind. intros r0 s0 [= <- <-]. change (IsHeaderParsed s1) with (IsHeaderParsed s) in Hsame. change (metadata s1) with (metadata s) in Hsame.
    case_match eqn:E; [rewrite <- Hall; by apply IH|].
    intros r s' [= <- <-]. right. split; [done|]. right. split; [done|]. assert (Hm : max = needed s2 /\ max < 2 ^ 64).
    { unfold max, needed. destruct (IsHeaderParsed s) eqn:Ep; cbn [negb andb] in *; [|by rewrite E]. unfold IsHeaderParsed, metadata_end in *. rewrite Hsame, Ep by done. split; [done|apply metadata_end_bound]. }
    destruct Hm as [Hm Hmax]. rewrite <- Hm in Hlt. pose proof (copied_all got bytes max Hmax Hlt) as Ht. fold n in Ht. by rewrite Ht in Hu2.
Qed.

Lemma write_all_unverified cancel pieces got s : unverified got s -> partial (write_all settings cancel pieces) s (fun _ s' => authentic (got ++ concat pieces) \/ slots s' = slots0).
Proof.
  unfold write_all. revert got s. induction pieces as [|bytes pieces IH]; intros got s Hu; cbn [io_fold concat]; [intros r s' [= <- <-]; right; by destruct Hu|].
  rewrite app_assoc. apply partial_bind. eapply partial_mono; [instantiate (1 := fun r s' => authentic (got ++ bytes) \/ slots s' = slots0 /\ (r = None \/ unverified (got ++ bytes) s'))|].
  - unfold DeltaPerformer_Write. apply partial_bind. intros r0 s0 [= <- <-]. apply partial_bind. eapply partial_mono; [apply (write_metadata_unverified _ _ got); by destruct Hu|].
    intros r1 s1 [Hver|(Hs & [->|[-> Hu1]])]; [|by right; split; [|left]|].
    + destruct r1; [intros ? ? _|]; by left.
    + intros r s' [= <- <-]. right. split; [done|by right].
  - intros [[]|] s' [Hver%(authentic_more _ (concat pieces))|[Hs Hr]]; [intros ? ? _; by left|lia| |by left|lia|by right]. destruct Hr as [?|Hu']; [done|]. by apply IH.
Qed.
End Forged.

(** C8: when the hash checks are mandatory and the response announces the size of
    the metadata, whatever bytes arrive, in whatever pieces, the calls of [Write]
    that return open and write nothing unless the bytes start with metadata of
    that size which the public key of the device has signed: the signature in
    the response, or the one after the metadata of a payload of major version 2,
    is for their hash. *)
Theorem unsigned_metadata_writes_nothing `{Kernel} `{Sha256} `{Prefs} `{Streams} `{Bspatch} `{BlockDevice} `{Protobuf} `{BootControl} `{Platform}
    settings cancel pieces plan payload p D r s :
  hash_checks_mandatory plan = true -> 0 < pl_metadata_size payload < 2 ^ 64 ->
  write_all settings cancel pieces (DeltaPerformer_new D p plan payload) = Ret (r, s) ->
  slots s <> mkSlots D None None -> authentic settings plan payload (concat pieces).
Proof.
  intros Hplan Hsize Hrun Hne. destruct (write_all_unverified settings plan payload (mkSlots D None None) Hplan Hsize cancel pieces [] (DeltaPerformer_new D p plan payload)) with (r := r) (s' := s) as [?|?]; [|done..].
  split; try done. by left.
Qed.

(** ** An update in two attempts *)

Module Example.
(** The kernel transfers at most 1000 bytes. *)
#[local] Instance kernel : Kernel := {| pread file count offset := Some (slice file offset (Z.min count 1000)); pwrite file buf offset := Some (Z.min (zlen buf) 1000) |}.

(** A hash that keeps the data. *)
#[local] Instance sha : Sha256 := {| sha_ctx := list Z; sha_init := []; sha_update := app; sha_final c := zlen c :: foldr Z.add 0 c :: replicate 30 0;
  ctx_bytes c := 1 :: c; ctx_of_bytes c := Some (tail c) |}.

#[local] Instance store : Prefs := {| prefs_store := gmap string Z * gmap string (list Z); GetString k p := snd p !! k; SetString k v p := (true, (fst p, <[k := v]> (snd p)));
  GetInt64 k p := fst p !! k; SetInt64 k v p := (true, (<[k := v]> (fst p), snd p)) |}.

(** Streams are not compressed, and no patch is accepted. *)
#[local] Instance decoders : Decoders := {| bunzip2 := Some; unxz := Some; bspatch _ _ := None; imgpatch _ _ := None |}.
Definition copy_stream : StreamDecoder := {| dec_stream := (); dec_init := Some (); dec_run s input room := let n := Z.min room (zlen input) in (DEC_OK, n, take (Z.to_nat n) input, s); dec_end _ := true |}.
#[local] Instance streams : Streams := {| bzip2_stream := copy_stream; xz_stream := copy_stream |}.
#[local] Instance patcher : Bspatch := fun old new patch _ _ => (0, new).
#[local] Instance device : BlockDevice := {| block_dev_size f := 0; discard_zeroes f := false; fcntl_ok := (true, true, true);
  blk_ioctl request f start n := (0, write_at f start (replicate (Z.to_nat n) 0)) |}.

Definition bytes_a : list Z := replicate 4096 1.
Definition bytes_b : list Z := replicate 4096 7.
Definition copy_op : InstallOperation := mkInstallOperation (Some SOURCE_COPY) None None [mkExtent 0 1] None [mkExtent 0 1] None None None.
Definition replace_op : InstallOperation := mkInstallOperation (Some REPLACE) (Some 0) (Some 4096) [] None [mkExtent 1 1] None None None.
Definition update : PartitionUpdate := mkUpdate "system" None None None (Some (mkInfo (Some 4096) None)) (Some (mkInfo (Some 8192) None)) [copy_op; replace_op] None.
Definition manifest : DeltaArchiveManifest := mkManifest [] [] (Some 4096) None None None None None None None None (Some 4) [update] None.

#[local] Instance protobuf : Protobuf := {| AppendToString _ := Some [1; 2; 3]; ParseFromArray data := if bool_decide (data = [1; 2; 3]) then Some manifest else None |}.
#[local] Instance boot : BootControl := fun name slot => Some (if slot =? 0 then "/a" else "/b").
#[local] Instance platform : Platform := {| GetBuildTimestamp := 0; IsOfficialBuild := false; FileExists _ := false; Base64Decode := Some;
  CreateAndOpenTemporaryFile _ := None; ParseSignatures _ := None; rsa_key := (); PEM_read_RSA_PUBKEY _ := None; RSA_size _ := 256; RSA_public_decrypt _ _ := None; open_succeeds _ := true |}.

Definition settings : Settings := mkSettings 2 4 "/key".
Definition source : Source := mkSource manifest [1; 2; 3] [] bytes_b [mkJob update bytes_a (bytes_a ++ bytes_b) "/a" "/b" 12288] true (mkPlan 0 1 [] false [])
  (mkPayload 4123 0 [] [] kUnknown false) {["/a" := bytes_a; "/b" := replicate 12288 0; "/c" := [5]]}.

Definition id : list Z := [9].
Definition empty : prefs_store := (∅, ∅).

(** The first connection breaks after 1000 bytes. *)
Definition broken (l : list Z) : list (list Z) := [take 100 l; take 900 (drop 100 l)].
Definition whole (l : list Z) : list (list Z) := [take 20 l; take 2000 (drop 20 l); drop 2000 (drop 20 l)].
Definition first : DeltaPerformer :=
  match session settings (fun _ => None) id (payload_bytes source) broken (DeltaPerformer_new (sc_disk source) empty (sc_plan source) (sc_payload source)) with
  | Ret (_, s) => s | _ => DeltaPerformer_new (sc_disk source) empty (sc_plan source) (sc_payload source) end.

Definition returns_some (o : outcome (option () * DeltaPerformer)) : bool := match o with Ret (Some _, _) => true | _ => false end.

#[local] Instance sha_ok : Sha256Ok.
Proof. split; try done. intros c a b. simpl. by rewrite <- app_assoc. intros c. apply app_nil_r. Qed.

#[local] Instance store_ok : PrefsOk.
Proof. split; intros; simpl; rewrite ?lookup_insert_eq; try done; by rewrite lookup_insert_ne. Qed.

#[local] Instance copy_ok : StreamOk copy_stream Some.
Proof.
  refine {| decoding _ input out := input = out |}; simpl.
  - intros data out [= ->]. by exists ().
  - intros s input out room <- Hr. pose proof (zlen_nonneg input). eexists DEC_OK, _, _, s, (drop (Z.to_nat (Z.min room (zlen input))) input). split; [done|]. split_and!; [done|lia|lia|by rewrite take_drop|done| | |].
    + intros Hne. destruct input as [|x input]; [done|]. rewrite zlen_cons in *. pose proof (zlen_nonneg input). by replace (Z.to_nat _) with (S (Z.to_nat (Z.min room (1 + zlen input)) - 1)) by lia.
    + intros [->|?]; [rewrite zlen_nil; lia|done].
    + intros ->. unfold zlen. by rewrite Nat2Z.id, drop_all.
  - done.
Qed.

#[local] Instance patcher_ok : BspatchOk.
Proof. done. Qed.

#[local] Instance device_ok : BlockDeviceOk.
Proof.
  split; [by left|]. intros request f start n rc f' _ Hn _ [= <- <-]. eexists. split; [|done]. unfold zlen. rewrite length_replicate. lia.
Qed.

#[local] Instance kernel_safe : KernelSafe.
Proof.
  split.
  - intros file count offset data Hc Ho [= <-]. unfold slice. replace (Z.to_nat (Z.min count 1000)) with (Z.to_nat 1000 `min` Z.to_nat count)%nat by lia. rewrite <- take_take.
    split; [apply prefix_take|]. by destruct (take (Z.to_nat count) _).
  - intros file buf offset n Hb _ [= <-]. destruct buf; [done|]. rewrite zlen_cons. pose proof (zlen_nonneg buf). lia.
Qed.

Lemma errorless : no_errors.
Proof. split; [by split|]. by intros old new patch ins outs. Qed.

Lemma update_ops : Forall (job_op true bytes_b (mkJob update bytes_a (bytes_a ++ bytes_b) "/a" "/b" 12288)) [copy_op; replace_op].
Proof.
  assert (Hd : forall n start blocks, 0 <= start -> 0 < blocks -> (start + blocks) * 4096 <= n -> n < 2 ^ 40 -> on_device n [mkExtent start blocks]).
  { intros n start blocks ? ? ? ?. apply Forall_singleton. split; [split_and!; simpl|]; unfold kSparseHole, kBlockSize; simpl; lia. }
  apply Forall_cons. split; [|apply Forall_singleton]; split; try done; try (by left); try (apply Hd; vm_compute; done); try (vm_compute; done); try (split; by left).
Qed.

Lemma source_is_ok : source_ok settings source.
Proof.
  split; try done.
  - by exists 4.
  - by left.
  - by right.
  - apply Forall_singleton. split; try done.
    + by eexists.
    + apply update_ops.
    + intros b Hb Hle. change ((b + 1) * 4096 <= 8192) in Hle. assert (b = 0 \/ b = 1) as [->| ->] by lia; vm_compute; [by left|right; by left].
    + by exists 2.
    + split; [done|]. by eexists.
  - apply NoDup_singleton.
  - intros _ i j ->%list_elem_of_singleton ->%list_elem_of_singleton. done.
  - split; [done|]. split; [done|]. by exists 4096.
Qed.

Lemma first_attempt : session settings (fun _ => None) id (payload_bytes source) broken (DeltaPerformer_new (sc_disk source) empty (sc_plan source) (sc_payload source)) = Ret (Some (), first).
Proof.
  assert (E : returns_some (session settings (fun _ => None) id (payload_bytes source) broken (DeltaPerformer_new (sc_disk source) empty (sc_plan source) (sc_payload source))) = true)
    by (vm_compute; reflexivity).
  unfold first. by destruct (session _ _ _ _ _ _) as [[[[]|] s]| |].
Qed.


(** The same payload with mandatory checks and a signature of its metadata. *)
Definition signed_plan : InstallPlan := mkPlan 0 1 [] true [].
Definition signed_payload : Payload := mkPayload 4123 27 [42] [] kUnknown false.
Definition signer : Platform := {| GetBuildTimestamp := 0; IsOfficialBuild := true; FileExists _ := true; Base64Decode := Some;
  CreateAndOpenTemporaryFile _ := None; ParseSignatures _ := None; rsa_key := (); PEM_read_RSA_PUBKEY _ := Some (); RSA_size _ := 256;
  RSA_public_decrypt _ _ := Some (snd (PadRSA2048SHA256Hash (sha256 (signed_bytes source)))); open_succeeds _ := true |}.
#[local] Abbreviation signed_run := (@write_all kernel sha store streams patcher device protobuf boot signer settings (fun _ => None) (whole (payload_bytes source))
  (DeltaPerformer_new (sc_disk source) empty signed_plan signed_payload)).
Definition opens (o : outcome (option () * DeltaPerformer)) : bool := match o with Ret (_, s) => bool_decide (is_Some (target_fd_ (slots s))) | _ => false end.

Lemma opens_inv o : opens o = true -> exists r s, o = Ret (r, s) /\ slots s <> mkSlots (sc_disk source) None None.
Proof. destruct o as [[r s]| |]; [|done..]. intros E%bool_decide_eq_true. exists r, s. split; [done|]. intros E'. rewrite E' in E. by destruct E. Qed.

Lemma signed_run_opens : opens signed_run = true.
Proof. vm_compute. reflexivity. Qed.

Lemma unsigned_metadata_writes_nothing_witness : @authentic sha signer settings signed_plan signed_payload (concat (whole (payload_bytes source))).
Proof.
  destruct (opens_inv _ signed_run_opens) as (r & s & Hrun & Hne).
  assert (Hsize : 0 < pl_metadata_size signed_payload < 2 ^ 64) by (simpl; lia).
  exact (@unsigned_metadata_writes_nothing kernel sha store streams patcher device protobuf boot signer settings (fun _ => None) (whole (payload_bytes source))
    signed_plan signed_payload empty (sc_disk source) r s eq_refl Hsize Hrun Hne).
Defined.

(** A header whose manifest size is 2^64 - 1: the size of the metadata wraps
    around to 23, and -1 bytes of the manifest are parsed. *)
Lemma wrapped_manifest_size_aborts : hash_checks_mandatory (sc_plan source) = false
  /\ write_all settings (fun _ => None) [header (2 ^ 64 - 1) 0] (DeltaPerformer_new (sc_disk source) empty (sc_plan source) (sc_payload source)) = Abort.
Proof. split; vm_compute; reflexivity. Qed.
End Example.
