(* ===== verification/UpdateVerify.v ===== *)
(** * UpdateVerify: the written partitions are checked

    [FilesystemVerifierAction] of payload_consumer/filesystem_verifier_action.cc
    hashes the target of every partition and, where a hash is wrong, the source
    as well.  The files are read asynchronously: the member functions run until
    a read is scheduled, and go on in its callback.  [verdict] says what the
    action decides. *)
From stdpp Require Import strings gmap relations.
From S2P Require Import Prelude UpdateExtents UpdateGraph UpdateViews UpdateInplace UpdateRun UpdateFile.
From S2P Require Import UpdateBlocks UpdateDelta UpdateApply UpdateChunks UpdateAB UpdateWriter UpdateManifest UpdatePerform UpdateConsume UpdateInstall UpdateSession.

Inductive VerifierStep := kVerifyTargetHash | kVerifySourceHash.

Definition kReadFileBufferSize : Z := 128 * 1024.

(** A stream is a path and a position in the file.  Of the buffer only the size
    is kept, since what a read stores there is passed on at once.  The last
    three fields are the environment: the read whose callback is due, with the
    place it reads from and the size asked for, the codes passed to
    [ActionComplete], and what is in the output pipe. *)
Record FilesystemVerifierAction `{Sha256} := mkVerifier {
  verifier_step_ : VerifierStep;
  partition_index_ : nat;
  src_stream_ : option (string * Z);
  buffer_size : Z;
  read_done_ : bool;
  cancelled_ : bool;
  verified_plan_ : InstallPlan;
  hasher_ : option HashCalculator;
  remaining_size_ : Z;
  pending_read : option (string * Z * Z);
  completed : list ErrorCode;
  output_object : option InstallPlan;
}.

(** [FileStream::Open] on a file that exists, and [ReadAsync] at a position. *)
Class FileStream := {
  stream_opens : string -> bool;
  read_scheduled : string -> Z -> bool;
}.

(** The calls between the member functions are all at the end of a function. *)
Inductive Call := StartCall | ScheduleCall | ReadDoneCall (data : list Z) | FinishCall.

Section Action.
Context `{Sha256} `{FileStream} (has_output_pipe : bool) (D : gmap string (list Z)).
Implicit Types (v : FilesystemVerifierAction).

Definition Cleanup (code : ErrorCode) v : FilesystemVerifierAction :=
  let cleaned := mkVerifier _ (verifier_step_ v) (partition_index_ v) None 0 (read_done_ v) (cancelled_ v) (verified_plan_ v) (hasher_ v)
    (remaining_size_ v) (pending_read v) in
  if cancelled_ v then cleaned (completed v) (output_object v)
  else cleaned (completed v ++ [code])
         (if bool_decide (code = kSuccess) && has_output_pipe then Some (verified_plan_ v) else output_object v).

Definition StartPartitionHashing v : outcome (FilesystemVerifierAction * option Call) :=
  match plan_partitions (verified_plan_ v) !! partition_index_ v with
  | None => Ret (Cleanup kSuccess v, None)
  | Some partition =>
      let '(part_path, size) :=
        match verifier_step_ v with
        | kVerifySourceHash => (ip_source_path partition, ip_source_size partition)
        | kVerifyTargetHash => (ip_target_path partition, ip_target_size partition)
        end in
      let start stream buffer read_done hasher :=
        mkVerifier _ (verifier_step_ v) (partition_index_ v) stream buffer read_done (cancelled_ v) (verified_plan_ v) hasher (sint 64 size)
          (pending_read v) (completed v) (output_object v) in
      if bool_decide (part_path = "")
      then Ret (Cleanup kFilesystemVerifierError (start (src_stream_ v) (buffer_size v) (read_done_ v) (hasher_ v)), None)
      else if negb (stream_opens part_path && bool_decide (is_Some (D !! part_path)))
      then Ret (Cleanup kFilesystemVerifierError (start None (buffer_size v) (read_done_ v) (hasher_ v)), None)
      else Ret (start (Some (part_path, 0)) kReadFileBufferSize false (Some HashCalculator_new), Some ScheduleCall)
  end.

Definition set_pending (read : option (string * Z * Z)) v : FilesystemVerifierAction :=
  mkVerifier _ (verifier_step_ v) (partition_index_ v) (src_stream_ v) (buffer_size v) (read_done_ v) (cancelled_ v) (verified_plan_ v) (hasher_ v)
    (remaining_size_ v) read (completed v) (output_object v).

(** A read of more than the buffer holds, which a negative size asks for, would
    write behind it. *)
Definition ScheduleRead v : outcome (FilesystemVerifierAction * option Call) :=
  let bytes_to_read := u64 (Z.min (buffer_size v) (remaining_size_ v)) in
  if bytes_to_read =? 0 then Ret (v, Some (ReadDoneCall [])) else
  match src_stream_ v with
  | None => Abort
  | Some (path, position) =>
      if buffer_size v <? bytes_to_read then Abort
      else if read_scheduled path position then Ret (set_pending (Some (path, position, bytes_to_read)) v, None)
      else Ret (Cleanup kError v, None)
  end.

(** The rest of [OnReadDoneCallback] once the data have been hashed. *)
Definition check_remaining v : FilesystemVerifierAction * option Call :=
  if cancelled_ v then (Cleanup kError v, None)
  else if read_done_ v || (remaining_size_ v =? 0) then
    if negb (remaining_size_ v =? 0) then (Cleanup kFilesystemVerifierError v, None) else (v, Some FinishCall)
  else (v, Some ScheduleCall).

Definition set_read (read_done : bool) (hasher : option HashCalculator) (remaining : Z) v : FilesystemVerifierAction :=
  mkVerifier _ (verifier_step_ v) (partition_index_ v) (src_stream_ v) (buffer_size v) read_done (cancelled_ v) (verified_plan_ v) hasher
    remaining (pending_read v) (completed v) (output_object v).

Definition OnReadDoneCallback (data : list Z) v : outcome (FilesystemVerifierAction * option Call) :=
  if zlen data =? 0 then Ret (check_remaining (set_read true (hasher_ v) (remaining_size_ v) v)) else
  let remaining := remaining_size_ v - zlen data in
  if read_done_ v then Abort else
  match hasher_ v with
  | None => Abort
  | Some hasher =>
      if negb (bool_decide (raw_hash_ hasher = [])) then Ret (Cleanup kError (set_read (read_done_ v) (Some hasher) remaining v), None)
      else Ret (check_remaining (set_read (read_done_ v) (Some (Update data hasher)) remaining v))
  end.

Definition OnReadErrorCallback v : FilesystemVerifierAction := Cleanup kError v.

(** The next round, for another partition or another step. *)
Definition next_hash (step : VerifierStep) (index : nat) v : FilesystemVerifierAction * option Call :=
  (mkVerifier _ step index (src_stream_ v) 0 (read_done_ v) (cancelled_ v) (verified_plan_ v) None (remaining_size_ v) (pending_read v)
     (completed v) (output_object v), Some StartCall).

Definition FinishPartitionHashing v : outcome (FilesystemVerifierAction * option Call) :=
  match hasher_ v, src_stream_ v with
  | Some hasher, Some _ =>
      if negb (bool_decide (raw_hash_ hasher = [])) then Ret (Cleanup kError v, None) else
      let hasher := Finalize hasher in
      let v := set_read (read_done_ v) (Some hasher) (remaining_size_ v) v in
      match plan_partitions (verified_plan_ v) !! partition_index_ v with
      | None => Abort
      | Some partition =>
          match verifier_step_ v with
          | kVerifyTargetHash =>
              if bool_decide (ip_target_hash partition = raw_hash_ hasher) then Ret (next_hash kVerifyTargetHash (S (partition_index_ v)) v)
              else if bool_decide (ip_source_hash partition = []) then Ret (Cleanup kNewRootfsVerificationError v, None)
              else Ret (next_hash kVerifySourceHash (partition_index_ v) v)
          | kVerifySourceHash =>
              if bool_decide (ip_source_hash partition = raw_hash_ hasher) then Ret (Cleanup kNewRootfsVerificationError v, None)
              else Ret (Cleanup kDownloadStateInitializationError v, None)
          end
      end
  | _, _ => Abort
  end.

Definition invoke (call : Call) v : outcome (FilesystemVerifierAction * option Call) :=
  match call with
  | StartCall => StartPartitionHashing v
  | ScheduleCall => ScheduleRead v
  | ReadDoneCall data => OnReadDoneCallback data v
  | FinishCall => FinishPartitionHashing v
  end.

Fixpoint run_calls (fuel : nat) (call : Call) v : outcome FilesystemVerifierAction :=
  match fuel with
  | O => Abort
  | S fuel =>
      match invoke call v with
      | Ret (v, Some call) => run_calls fuel call v
      | Ret (v, None) => Ret v
      | Fail => Fail
      | Abort => Abort
      end
  end.

(** Up to four calls for each partition that needs no read, and for the source. *)
Definition call_fuel v : nat := 4 * length (plan_partitions (verified_plan_ v)) + 9.

Definition run_call (call : Call) v : outcome FilesystemVerifierAction := run_calls (call_fuel v) call v.

Definition TerminateProcessing v : FilesystemVerifierAction :=
  Cleanup kSuccess (mkVerifier _ (verifier_step_ v) (partition_index_ v) (src_stream_ v) (buffer_size v) (read_done_ v) true (verified_plan_ v) (hasher_ v)
    (remaining_size_ v) (pending_read v) (completed v) (output_object v)).

Definition new_verifier (plan : InstallPlan) : FilesystemVerifierAction :=
  mkVerifier _ kVerifyTargetHash 0 None 0 false false plan None 0 None [] None.

Definition PerformAction (input : option InstallPlan) : outcome FilesystemVerifierAction :=
  let complete code plan output := Ret (mkVerifier _ kVerifyTargetHash 0 None 0 false false plan None 0 None [code] output) in
  match input with
  | None => complete kError (mkPlan kInvalidSlot kInvalidSlot [] false []) None
  | Some plan =>
      if bool_decide (plan_partitions plan = []) then complete kSuccess plan (if has_output_pipe then Some plan else None)
      else run_call StartCall (new_verifier plan)
  end.

(** The callback for [n] bytes of the read that is due; the stream moves on. *)
Definition read_arrives (n : Z) v : outcome FilesystemVerifierAction :=
  match pending_read v with
  | None => Ret v
  | Some (path, position, _) =>
      run_call (ReadDoneCall (slice (default [] (D !! path)) position n))
        (mkVerifier _ (verifier_step_ v) (partition_index_ v) ((fun '(p, _) => (p, position + n)) <$> src_stream_ v) (buffer_size v) (read_done_ v)
           (cancelled_ v) (verified_plan_ v) (hasher_ v) (remaining_size_ v) None (completed v) (output_object v))
  end.

(** A read gives at least one byte, unless it is at the end of the file. *)
Definition can_arrive (n : Z) v : Prop :=
  match pending_read v with
  | None => False
  | Some (path, position, size) => 0 <= n <= Z.min size (zlen (default [] (D !! path)) - position)
      /\ (n = 0 -> zlen (default [] (D !! path)) <= position)
  end.

(** What can happen: only reads, or errors and a cancellation as well. *)
Inductive read_step : FilesystemVerifierAction -> FilesystemVerifierAction -> Prop :=
| read_step_done n v v' : can_arrive n v -> read_arrives n v = Ret v' -> read_step v v'.

Inductive verifier_step : FilesystemVerifierAction -> FilesystemVerifierAction -> Prop :=
| verifier_read v v' : read_step v v' -> verifier_step v v'
| verifier_error v : is_Some (pending_read v) -> verifier_step v (OnReadErrorCallback (set_pending None v))
| verifier_terminate v : verifier_step v (TerminateProcessing v).

(** ** What is decided *)

(** The hash of the first [size] bytes of a file. *)
Definition hash_on (path : string) (size : Z) : option (list Z) :=
  if bool_decide (path = "") || negb (stream_opens path) then None
  else match D !! path with
       | Some file => if zlen file <? size then None else Some (sha256 (take (Z.to_nat size) file))
       | None => None
       end.

(** The code for a partition whose target is wrong: the source is checked when
    its hash is known. *)
Definition source_check (p : InstallPartition) : ErrorCode :=
  match hash_on (ip_source_path p) (ip_source_size p) with
  | None => kFilesystemVerifierError
  | Some hash => if bool_decide (ip_source_hash p = hash) then kNewRootfsVerificationError else kDownloadStateInitializationError
  end.

Definition source_verdict (p : InstallPartition) : ErrorCode :=
  if bool_decide (ip_source_hash p = []) then kNewRootfsVerificationError else source_check p.

Fixpoint verdict (ps : list InstallPartition) : ErrorCode :=
  match ps with
  | [] => kSuccess
  | p :: ps =>
      match hash_on (ip_target_path p) (ip_target_size p) with
      | None => kFilesystemVerifierError
      | Some hash => if bool_decide (ip_target_hash p = hash) then verdict ps else source_verdict p
      end
  end.
End Action.

(** ** The action decides *)

Lemma take_slice (l : list Z) i n : 0 <= i -> 0 <= n -> take (Z.to_nat i) l ++ slice l i n = take (Z.to_nat (i + n)) l.
Proof. intros Hi Hn. unfold slice. by rewrite Z2Nat.inj_add, <- take_take_drop by done. Qed.

Section Decides.
Context `{Sha256Ok} `{FileStream} (pipe : bool) (D : gmap string (list Z)) (plan : InstallPlan).
Context (Hsizes : Forall (fun p => 0 <= ip_target_size p < 2 ^ 63 /\ 0 <= ip_source_size p < 2 ^ 63) (plan_partitions plan)).
Implicit Types (v : FilesystemVerifierAction).
Abbreviation parts := (plan_partitions plan).

(** What is hashed in a step for partition [index], and what follows from it. *)
Definition hashed_file (step : VerifierStep) (p : InstallPartition) : string * Z :=
  match step with kVerifySourceHash => (ip_source_path p, ip_source_size p) | kVerifyTargetHash => (ip_target_path p, ip_target_size p) end.

Definition outlook (step : VerifierStep) (index : nat) (p : InstallPartition) : ErrorCode :=
  match step with kVerifyTargetHash => verdict D (drop index parts) | kVerifySourceHash => source_check D p end.

(** Bytes that may still be read from the beginning of a step. *)
Fixpoint all_sizes (ps : list InstallPartition) : Z :=
  match ps with [] => 0 | p :: ps => ip_target_size p + ip_source_size p + all_sizes ps end.

Definition weight (step : VerifierStep) (index : nat) (p : InstallPartition) : Z :=
  match step with kVerifyTargetHash => ip_target_size p | kVerifySourceHash => 0 end + ip_source_size p
  + all_sizes (drop (S index) parts).

Record stage v (p : InstallPartition) (path : string) (size : Z) : Prop := {
  sg_part : parts !! partition_index_ v = Some p;
  sg_file : hashed_file (verifier_step_ v) p = (path, size);
  sg_source : verifier_step_ v = kVerifySourceHash -> ip_source_hash p <> [];
  sg_outlook : outlook (verifier_step_ v) (partition_index_ v) p = verdict D parts;
}.

Definition fresh v : Prop := verified_plan_ v = plan /\ cancelled_ v = false /\ completed v = [] /\ output_object v = None.

(** The first [pos] bytes have been hashed. *)
Record reading v (p : InstallPartition) (path : string) (size : Z) (file : list Z) (pos : Z) : Prop := {
  rd_stage : stage v p path size;
  rd_fresh : fresh v;
  rd_open : path <> "" /\ stream_opens path = true /\ D !! path = Some file;
  rd_stream : src_stream_ v = Some (path, pos);
  rd_buffer : buffer_size v = kReadFileBufferSize;
  rd_hasher : hasher_ v = Some (mkCalculator _ (sha_update sha_init (take (Z.to_nat pos) file)) []);
  rd_remaining : remaining_size_ v = size - pos;
  rd_pos : 0 <= pos <= size /\ pos <= zlen file;
}.

(** A read is due; [b] bounds the bytes that may still be read. *)
Definition waiting (b : Z) v : Prop := exists p path size file pos, reading v p path size file pos /\ read_done_ v = false
  /\ pending_read v = Some (path, pos, Z.min kReadFileBufferSize (size - pos)) /\ pos < size
  /\ weight (verifier_step_ v) (partition_index_ v) p - pos <= b.

Definition ended (code : ErrorCode) v : Prop := verified_plan_ v = plan /\ cancelled_ v = false /\ pending_read v = None /\ completed v = [code]
  /\ output_object v = if bool_decide (code = kSuccess) && pipe then Some plan else None.

(** Only an error in scheduling a read leads to another code. *)
Definition settled (b : Z) v : Prop := waiting b v \/ ended (verdict D parts) v
  \/ ended kError v /\ exists path pos, read_scheduled path pos = false.

Definition settles (b : Z) (o : outcome FilesystemVerifierAction) : Prop := match o with Ret v => settled b v | _ => False end.

Lemma part_sizes i p : parts !! i = Some p -> 0 <= ip_target_size p < 2 ^ 63 /\ 0 <= ip_source_size p < 2 ^ 63.
Proof. intros Hi. rewrite Forall_forall in Hsizes. by eapply Hsizes, list_elem_of_lookup_2. Qed.

Lemma stage_size v p path size : stage v p path size -> 0 <= size < 2 ^ 63.
Proof. intros [Hp Hf _ _]. pose proof (part_sizes _ _ Hp). unfold hashed_file in Hf. destruct (verifier_step_ v); simplify_eq; lia. Qed.

Lemma Cleanup_ended code v : fresh v -> pending_read v = None -> ended code (Cleanup pipe code v).
Proof.
  intros (Hp & Hc & Hd & Ho) Hr. unfold Cleanup. rewrite Hc, Hd, Ho, Hp. unfold ended. cbn. split_and!; done.
Qed.

Lemma settles_cleanup b code v : fresh v -> pending_read v = None -> code = verdict D parts -> settled b (Cleanup pipe code v).
Proof. intros Hf Hr ->. right; left. by apply Cleanup_ended. Qed.

Lemma settles_mono b b' o : b <= b' -> settles b o -> settles b' o.
Proof.
  intros Hb. destruct o as [v| |]; [|done..]. intros [(p & path & size & file & pos & ? & ? & ? & ? & ?)|Hs]; [|by right]. left. exists p, path, size, file, pos. split_and!; (done || lia).
Qed.

(** The hash of the file of a stage decides. *)
Lemma stage_none v p path size : stage v p path size -> hash_on D path size = None -> kFilesystemVerifierError = verdict D parts.
Proof.
  intros [Hp Hf _ Ho] Hn. rewrite <- Ho. unfold outlook, hashed_file in *. destruct (verifier_step_ v); simplify_eq.
  - rewrite (drop_S _ _ _ Hp). cbn [verdict]. by rewrite Hn.
  - unfold source_check. by rewrite Hn.
Qed.

Lemma hash_on_open path size file : path <> "" -> stream_opens path = true -> D !! path = Some file ->
  hash_on D path size = if zlen file <? size then None else Some (sha256 (take (Z.to_nat size) file)).
Proof. intros Hp Ho Hf. unfold hash_on. by rewrite bool_decide_false, Ho, Hf. Qed.

(** Where the next round starts, it settles. *)
Definition starts (fuel : nat) (b : Z) (step : VerifierStep) (index : nat) : Prop := forall v,
  fresh v -> pending_read v = None -> verifier_step_ v = step -> partition_index_ v = index -> settles b (run_calls pipe D fuel StartCall v).

Lemma FinishPartitionHashing_spec fuel b v p path size file :
  reading v p path size file size -> pending_read v = None ->
  (verifier_step_ v = kVerifyTargetHash -> verdict D (drop (S (partition_index_ v)) parts) = verdict D parts -> starts fuel b kVerifyTargetHash (S (partition_index_ v))) ->
  (verifier_step_ v = kVerifyTargetHash -> ip_source_hash p <> [] -> source_check D p = verdict D parts -> starts fuel b kVerifySourceHash (partition_index_ v)) ->
  settles b (run_calls pipe D (S fuel) FinishCall v).
Proof.
  intros [Hst Hfr (Hpath & Hopen & Hfile) Hstr _ Hh _ [Hpos Hle]] Hpend Hnext Hsrc. pose proof Hst as [Hp Hf Hs Ho].
  pose proof (hash_on_open path size file Hpath Hopen Hfile) as Hon. rewrite (proj2 (Z.ltb_ge _ _) Hle) in Hon.
  cbn [run_calls invoke]. unfold FinishPartitionHashing. rewrite Hh, Hstr. cbn [raw_hash_]. rewrite (bool_decide_true ([] = [])) by done. cbn [negb].
  unfold Finalize. cbn [raw_hash_ ctx_]. rewrite (bool_decide_true ([] = [])) by done. fold (sha256 (take (Z.to_nat size) file)). set (h := sha256 _) in *.
  cbn [set_read verified_plan_ partition_index_ verifier_step_ raw_hash_]. pose proof Hfr as (Hpl & Hc & Hd & Hout). rewrite Hpl, Hp.
  unfold hashed_file, outlook in *. destruct (verifier_step_ v) eqn:Hstep; simplify_eq.
  - rewrite (drop_S _ _ _ Hp) in Ho. cbn [verdict] in Ho. rewrite Hon in Ho. destruct (bool_decide_reflect (ip_target_hash p = h)) as [_|_].
    + apply Hnext; done.
    + unfold source_verdict in Ho. destruct (bool_decide_reflect (ip_source_hash p = [])) as [_|Hne]; [by apply settles_cleanup|]. by apply Hsrc.
  - unfold source_check in Ho. rewrite Hon in Ho. destruct (bool_decide (ip_source_hash p = h)); by apply settles_cleanup.
Qed.

Lemma ScheduleRead_spec fuel b v p path size file pos :
  reading v p path size file pos -> pending_read v = None -> read_done_ v = false -> pos < size -> weight (verifier_step_ v) (partition_index_ v) p - pos <= b ->
  settles b (run_calls pipe D (S fuel) ScheduleCall v).
Proof.
  intros Hrd Hpend Hdone Hlt Hb. pose proof (stage_size _ _ _ _ (rd_stage _ _ _ _ _ _ Hrd)) as Hsz. pose proof Hrd as [Hst Hfr Hop Hstr Hbuf Hh Hrem Hpos].
  cbn [run_calls invoke]. unfold ScheduleRead. rewrite Hbuf, Hrem, Hstr. assert (0 < kReadFileBufferSize) by done.
  rewrite uint_small by (unfold is_uint, kReadFileBufferSize in *; lia). rewrite (proj2 (Z.eqb_neq _ _)), (proj2 (Z.ltb_ge _ _)) by lia.
  destruct (read_scheduled path pos) eqn:Hs; [|right; right; split; [by apply Cleanup_ended|by exists path, pos]].
  left. exists p, path, size, file, pos. split_and!; try done. by destruct Hst, Hrd; split; [split|..].
Qed.

Lemma start_round fuel b v p path size :
  stage v p path size -> fresh v -> pending_read v = None -> weight (verifier_step_ v) (partition_index_ v) p <= b ->
  (verifier_step_ v = kVerifyTargetHash -> verdict D (drop (S (partition_index_ v)) parts) = verdict D parts -> starts fuel b kVerifyTargetHash (S (partition_index_ v))) ->
  (verifier_step_ v = kVerifyTargetHash -> ip_source_hash p <> [] -> source_check D p = verdict D parts -> starts fuel b kVerifySourceHash (partition_index_ v)) ->
  settles b (run_calls pipe D (4 + fuel) StartCall v).
Proof.
  intros Hst Hfr Hpend Hb Hnext Hsrc. pose proof (stage_size _ _ _ _ Hst) as Hsz. pose proof Hst as [Hp Hf _ _]. pose proof Hfr as (Hpl & Hc & Hd & Ho).
  change (4 + fuel)%nat with (S (S (2 + fuel))). cbn [run_calls invoke]. unfold StartPartitionHashing. rewrite Hpl, Hp.
  change (match verifier_step_ v with kVerifySourceHash => _ | kVerifyTargetHash => _ end) with (hashed_file (verifier_step_ v) p). rewrite Hf.
  pose proof (stage_none _ _ _ _ Hst) as Hnone. unfold hash_on in Hnone. destruct (bool_decide_reflect (path = "")) as [->|Hpath].
  { apply settles_cleanup; [done|done|by apply Hnone]. }
  destruct (stream_opens path) eqn:Hopen; [|apply settles_cleanup; [done|done|by apply Hnone]].
  destruct (D !! path) as [file|] eqn:Hfile; [|apply settles_cleanup; [done|done|by apply Hnone]].
  cbn [andb negb]. rewrite bool_decide_true by done. cbn [negb].
  set (v1 := mkVerifier _ _ _ _ _ _ _ _ _ _ _ _ _).
  assert (Hrd : reading v1 p path size file 0).
  { pose proof (zlen_nonneg file). split; try done; [by destruct Hst; split|cbn [v1 hasher_ Z.to_nat]; by rewrite take_0, sha_update_nil|change (remaining_size_ v1) with (sint 64 size); rewrite sint_small; lia|lia]. }
  destruct (decide (size = 0)) as [->|Hne].
  2: { apply (ScheduleRead_spec _ b v1 p path size file 0); try done; [lia|]. cbn. lia. }
  assert (Hrd' : reading (set_read true (hasher_ v1) (remaining_size_ v1) v1) p path 0 file 0) by (destruct Hrd as [[] ? ? ? ? ? ? ?]; split; [split|..]; done).
  pose proof (rd_remaining _ _ _ _ _ _ Hrd) as Hrem. pose proof (rd_buffer _ _ _ _ _ _ Hrd) as Hbuf.
  change (2 + fuel)%nat with (S (S fuel)). cbn [run_calls invoke]. unfold ScheduleRead. rewrite Hrem, Hbuf. change (u64 _ =? 0) with true. cbv iota beta.
  cbn [run_calls invoke]. unfold OnReadDoneCallback. change (zlen [] =? 0) with true. cbv iota. unfold check_remaining. cbn [cancelled_ set_read read_done_ remaining_size_ orb].
  rewrite Hrem. change (cancelled_ v1) with (cancelled_ v). rewrite Hc. cbv iota. cbn [Z.sub Z.eqb negb].
  rewrite Hrem in Hrd'. eapply FinishPartitionHashing_spec; done.
Qed.

Lemma starts_source fuel b index p : (4 <= fuel)%nat -> parts !! index = Some p -> ip_source_hash p <> [] -> source_check D p = verdict D parts ->
  ip_source_size p + all_sizes (drop (S index) parts) <= b -> starts fuel b kVerifySourceHash index.
Proof.
  intros Hf Hp Hne Hv Hb v Hfr Hpend Hs Hi. replace fuel with (4 + (fuel - 4))%nat by lia.
  apply (start_round _ b v p (ip_source_path p) (ip_source_size p)); rewrite ?Hs, ?Hi; [|done..|unfold weight; lia|done|done]. split; rewrite ?Hs, ?Hi; done.
Qed.

Lemma weight_target index p : parts !! index = Some p -> weight kVerifyTargetHash index p = all_sizes (drop index parts).
Proof. intros Hp. rewrite (drop_S _ _ _ Hp). unfold weight. cbn [all_sizes]. lia. Qed.

Lemma starts_target k : forall index fuel b, (index + k = length parts)%nat -> (4 * k + 4 <= fuel)%nat -> verdict D (drop index parts) = verdict D parts ->
  all_sizes (drop index parts) <= b -> starts fuel b kVerifyTargetHash index.
Proof.
  induction k as [|k IH]; intros index fuel b Hk Hf Hv Hb v Hfr Hpend Hs Hi.
  - destruct fuel as [|fuel]; [lia|]. cbn [run_calls invoke]. unfold StartPartitionHashing. destruct Hfr as (Hpl & Hfr). rewrite Hpl, Hi, lookup_ge_None_2 by lia.
    apply settles_cleanup; [done|done|]. by rewrite <- Hv, drop_ge by lia.
  - destruct (lookup_lt_is_Some_2 parts index) as [p Hp]; [lia|]. pose proof (part_sizes _ _ Hp). pose proof (weight_target _ _ Hp) as Hw. unfold weight in Hw.
    replace fuel with (4 + (fuel - 4))%nat by lia. apply (start_round _ b v p (ip_target_path p) (ip_target_size p)); rewrite ?Hs, ?Hi; [|done..|by rewrite weight_target| |].
    + split; rewrite ?Hs, ?Hi; done.
    + intros _ Hv'. apply IH; (done || lia).
    + intros _ Hne Hv'. eapply starts_source; (done || lia).
Qed.

Definition arrived v (pos n : Z) : FilesystemVerifierAction :=
  mkVerifier _ (verifier_step_ v) (partition_index_ v) ((fun '(p, _) => (p, pos + n)) <$> src_stream_ v) (buffer_size v) (read_done_ v)
    (cancelled_ v) (verified_plan_ v) (hasher_ v) (remaining_size_ v) None (completed v) (output_object v).

(** The data of a read are hashed. *)
Lemma reading_more v p path size file pos n (r : bool) : reading v p path size file pos -> 0 <= n -> pos + n <= size -> pos + n <= zlen file ->
  reading (set_read r (Update (slice file pos n) <$> hasher_ v) (remaining_size_ v - n) (arrived v pos n)) p path size file (pos + n).
Proof.
  intros [Hst Hfr Hop Hstr Hbuf Hh Hrem Hpos] Hn Hs Hz. split; cbn [set_read arrived src_stream_ buffer_size hasher_ remaining_size_].
  - by destruct Hst; split.
  - done.
  - done.
  - by rewrite Hstr.
  - done.
  - rewrite Hh. cbn [fmap option_fmap option_map]. unfold Update. cbn [raw_hash_ ctx_]. by rewrite bool_decide_true, sha_update_app, take_slice by (done || lia).
  - lia.
  - lia.
Qed.

(** After the last read of a file. *)
Lemma finish_read fuel b v p path size file pos : reading v p path size file size -> pending_read v = None -> (4 * length parts + 4 <= fuel)%nat ->
  pos < size -> weight (verifier_step_ v) (partition_index_ v) p - pos <= b -> settles (b - 1) (run_calls pipe D (S fuel) FinishCall v).
Proof.
  intros Hrd Hpend Hfuel Hlt Hb. pose proof (rd_stage _ _ _ _ _ _ Hrd) as [Hp Hf _ _]. pose proof (part_sizes _ _ Hp). pose proof (lookup_lt_Some _ _ _ Hp).
  eapply FinishPartitionHashing_spec; [done|done| |]; intros Hs; rewrite Hs in *; unfold weight, hashed_file in *; simplify_eq.
  - intros Hv. apply (starts_target (length parts - S (partition_index_ v))); (done || lia).
  - intros Hne Hv. eapply starts_source; (done || lia).
Qed.

(** A read that arrives leaves less to do. *)
Lemma read_arrives_spec b n v : waiting b v -> can_arrive D n v -> settles (b - 1) (read_arrives pipe D n v).
Proof.
  intros (p & path & size & file & pos & Hrd & Hdone & Hpend & Hlt & Hb) Hcan.
  pose proof Hrd as [Hst Hfr (Hpath & Hopen & Hfile) Hstr Hbuf Hh Hrem Hpos]. pose proof Hfr as (Hpl & Hc & Hd & Hout).
  unfold can_arrive in Hcan. unfold read_arrives. rewrite Hpend in *. rewrite Hfile in *. cbn [default from_option id] in *. unfold id in *. destruct Hcan as [Hn Hn0].
  fold (arrived v pos n). unfold run_call, call_fuel. cbn [arrived verified_plan_]. rewrite Hpl, Nat.add_comm. change (9 + ?k)%nat with (S (S (7 + k))). cbn [run_calls invoke].
  fold (arrived v pos n). unfold OnReadDoneCallback. rewrite zlen_slice by lia. cbn [arrived hasher_ read_done_ remaining_size_].
  fold (arrived v pos n). destruct (Z.eqb_spec n 0) as [->|Hne].
  { unfold check_remaining. cbn [set_read arrived cancelled_ read_done_ remaining_size_ orb]. rewrite Hc, Hrem. rewrite (proj2 (Z.eqb_neq _ _)) by lia. cbn [negb].
    apply settles_cleanup; [done|done|]. eapply (stage_none v); [done|]. rewrite (hash_on_open path size file) by done. by rewrite (proj2 (Z.ltb_lt _ _)) by lia. }
  pose proof (reading_more _ _ _ _ _ _ n false Hrd ltac:(lia) ltac:(lia) ltac:(lia)) as Hrd2. rewrite Hdone. rewrite Hh in *. cbn [raw_hash_ fmap option_fmap option_map] in *.
  rewrite (bool_decide_true ([] = [])) by done. cbn [negb]. set (v2 := set_read _ _ _ _) in *.
  unfold check_remaining. change (cancelled_ v2) with (cancelled_ v). change (read_done_ v2) with false. rewrite Hc, (rd_remaining _ _ _ _ _ _ Hrd2). cbn [orb].
  destruct (Z.eqb_spec (size - (pos + n)) 0) as [E|E].
  - replace (pos + n) with size in Hrd2 by lia. cbn [negb]. by eapply (finish_read _ b v2 p path size file pos); [..|lia|lia|].
  - apply (ScheduleRead_spec _ (b - 1) v2 p path size file (pos + n)); (done || lia || cbn; lia).
Qed.

Lemma PerformAction_spec : settles (all_sizes parts) (PerformAction pipe D (Some plan)).
Proof.
  unfold PerformAction. destruct (bool_decide_reflect (parts = [])) as [E|_].
  - right; left. rewrite E. unfold ended. cbn. by destruct pipe.
  - unfold run_call, call_fuel. cbn [new_verifier verified_plan_]. apply (starts_target (length parts) 0); (done || lia).
Qed.

Lemma waiting_progress b v : waiting b v -> exists n, can_arrive D n v.
Proof.
  intros (p & path & size & file & pos & Hrd & _ & Hpend & Hlt & _). destruct (rd_open _ _ _ _ _ _ Hrd) as (_ & _ & Hf). destruct (rd_pos _ _ _ _ _ _ Hrd) as [_ Hz].
  exists (Z.min (Z.min kReadFileBufferSize (size - pos)) (zlen file - pos)). unfold can_arrive. rewrite Hpend, Hf. cbn. unfold id, kReadFileBufferSize. lia.
Qed.

Lemma waiting_bound b v : waiting b v -> 0 < b.
Proof.
  intros (p & path & size & file & pos & Hrd & _ & _ & Hlt & Hb). destruct (rd_stage _ _ _ _ _ _ Hrd) as [Hp Hf _ _]. pose proof (part_sizes _ _ Hp).
  assert (Hz : 0 <= all_sizes (drop (S (partition_index_ v)) parts)).
  { assert (Hall : Forall (fun p => 0 <= ip_target_size p < 2 ^ 63 /\ 0 <= ip_source_size p < 2 ^ 63) (drop (S (partition_index_ v)) parts)) by by apply Forall_drop.
    induction Hall; cbn [all_sizes]; lia. }
  unfold weight, hashed_file in *. destruct (verifier_step_ v); simplify_eq; lia.
Qed.

Lemma not_pending_nf v : pending_read v = None -> nf (read_step pipe D) v.
Proof. intros Hp [v' Hs]. inversion Hs as [n ? ? Hc]; subst. unfold can_arrive in Hc. by rewrite Hp in Hc. Qed.

Lemma settled_read b v v' : settled b v -> read_step pipe D v v' -> settled (b - 1) v' /\ 0 < b.
Proof.
  intros Hs Hr. inversion Hr as [n ? ? Hc Hv]; subst. destruct Hs as [Hw|He].
  - pose proof (read_arrives_spec b n v Hw Hc) as Ha. rewrite Hv in Ha. split; [done|by eapply waiting_bound].
  - exfalso. eapply (not_pending_nf v); [|by eexists]. by destruct He as [(_ & _ & ? & _)|((_ & _ & ? & _) & _)].
Qed.

Lemma settled_sn b v : settled b v -> sn (read_step pipe D) v.
Proof.
  intros Hs. remember (Z.to_nat b) as k eqn:Hk. revert b v Hk Hs. induction k as [k IH] using lt_wf_ind. intros b v -> Hs. constructor. intros v' Hr.
  destruct (settled_read b v v' Hs Hr) as [Hs' Hb]. eapply (IH (Z.to_nat (b - 1))); [lia|done|done].
Qed.

Lemma settled_reads b v v' : settled b v -> rtc (read_step pipe D) v v' -> exists b', settled b' v'.
Proof. intros Hs Hr. revert b Hs. induction Hr as [v|v v1 v' Hr _ IH]; intros b Hs; [by exists b|]. by eapply IH, (settled_read b v v1). Qed.

(** What has been reported once no read is due. *)
Lemma settled_complete b v v' : (forall path pos, read_scheduled path pos = true) -> settled b v -> rtc (read_step pipe D) v v' -> nf (read_step pipe D) v' ->
  completed v' = [verdict D parts].
Proof.
  intros Hsch Hs Hr Hnf. destruct (settled_reads b v v' Hs Hr) as [b' [Hw|[(_ & _ & _ & ? & _)|[_ (path & pos & E)]]]]; [|done|by rewrite Hsch in E].
  exfalso. destruct (waiting_progress b' v' Hw) as [n Hn]. pose proof (read_arrives_spec b' n v' Hw Hn) as Ha. destruct (read_arrives pipe D n v') as [v''| |] eqn:E; [|done..].
  apply Hnf. exists v''. by econstructor.
Qed.

Lemma verdict_success ps : verdict D ps = kSuccess <-> Forall (fun p => hash_on D (ip_target_path p) (ip_target_size p) = Some (ip_target_hash p)) ps.
Proof.
  induction ps as [|p ps IH]; [done|]. rewrite Forall_cons, <- IH. cbn [verdict]. unfold source_verdict, source_check.
  destruct (hash_on D (ip_target_path p) _) as [h|]; [|naive_solver]. case_bool_decide as Ht; [subst; naive_solver|].
  destruct (bool_decide (ip_source_hash p = [])); [naive_solver|]. destruct (hash_on D (ip_source_path p) _) as [h'|]; [|naive_solver].
  destruct (bool_decide (ip_source_hash p = h')); naive_solver.
Qed.

(** Nothing more happens, or only the callback of a cancelled read; a success
    has been reported only if the targets are right. *)
Definition over v : Prop :=
  (pending_read v = None \/ cancelled_ v = true /\ read_done_ v = false /\ is_Some (hasher_ v))
  /\ (completed v = [] /\ cancelled_ v = true
      \/ exists code, completed v = [code] /\ (code = kSuccess -> verdict D parts = kSuccess /\ output_object v = if pipe then Some plan else None)).

Lemma ended_over code v : ended code v -> (code = kSuccess -> verdict D parts = kSuccess) -> over v.
Proof. intros (_ & _ & Hp & Hc & Ho) Hv. split; [by left|]. right. exists code. split; [done|]. intros ->. by rewrite Ho, Hv. Qed.

Lemma settled_inv b v : settled b v -> waiting b v \/ over v.
Proof. intros [?|[He|[He _]]]; [by left| |]; right; by eapply ended_over. Qed.

Lemma over_read n v : over v -> can_arrive D n v -> exists v', read_arrives pipe D n v = Ret v' /\ over v'.
Proof.
  intros [Hp Hc] Hn. unfold can_arrive in Hn. unfold read_arrives. destruct (pending_read v) as [[[path pos] size]|]; [|done]. destruct Hp as [?|(Hcan & Hdone & [h Hh])]; [done|].
  fold (arrived v pos n). unfold run_call, call_fuel. rewrite Nat.add_comm. change (9 + ?k)%nat with (S (8 + k)). cbn [run_calls invoke]. unfold OnReadDoneCallback.
  cbn [arrived hasher_ read_done_ remaining_size_]. rewrite Hdone, Hh. unfold check_remaining, Cleanup. cbn [set_read arrived cancelled_]. rewrite Hcan in *.
  destruct (_ =? 0); [|destruct (bool_decide (raw_hash_ h = []))]; cbn [negb]; eexists; (split; [done|]); (split; [by left|done]).
Qed.

Lemma inv_step v v' : (exists b, waiting b v) \/ over v -> verifier_step pipe D v v' -> (exists b, waiting b v') \/ over v'.
Proof.
  intros Hi Hs. inversion Hs as [? ? Hr|? Hp|?]; subst.
  - destruct Hi as [[b Hw]|Ho].
    + destruct (settled_read b v v' (or_introl Hw) Hr) as [Hs' _]. destruct (settled_inv _ _ Hs'); eauto.
    + inversion Hr as [n ? ? Hc Hv]; subst. destruct (over_read n v Ho Hc) as (v'' & E & Ho'). right. congruence.
  - right. destruct Hi as [[b (p & path & size & file & pos & Hrd & _)]|[Hpend Hc]].
    + apply (ended_over kError); [|done]. apply Cleanup_ended; [apply (rd_fresh _ _ _ _ _ _ Hrd)|done].
    + destruct Hpend as [E|(Hcan & _)]; [rewrite E in Hp; by destruct Hp|]. unfold OnReadErrorCallback, Cleanup. cbn [set_pending cancelled_]. rewrite Hcan in *. split; [by left|done].
  - right. unfold TerminateProcessing, Cleanup. cbn [cancelled_]. destruct Hi as [[b (p & path & size & file & pos & Hrd & Hdone & _)]|[Hpend Hc]]; split; cbn.
    + right. rewrite (rd_hasher _ _ _ _ _ _ Hrd). by split_and!.
    + left. by destruct (rd_fresh _ _ _ _ _ _ Hrd) as (_ & _ & -> & _).
    + destruct Hpend as [?|(? & ? & ?)]; [by left|by right].
    + destruct Hc as [[? _]|?]; [by left|by right].
Qed.

Lemma inv_steps v v' : (exists b, waiting b v) \/ over v -> rtc (verifier_step pipe D) v v' -> (exists b, waiting b v') \/ over v'.
Proof. intros Hi Hr. induction Hr; eauto using inv_step. Qed.
End Decides.

(** Whatever the sizes of the reads, the errors of the streams and the time of a
    cancellation, the action does not abort and completes at most once; it
    reports success only if every target has the hash of the install plan, and
    then passes the plan on. *)
Theorem verification_sound `{Sha256Ok} `{FileStream} (pipe : bool) (D : gmap string (list Z)) (plan : InstallPlan) :
  Forall (fun p => 0 <= ip_target_size p < 2 ^ 63 /\ 0 <= ip_source_size p < 2 ^ 63) (plan_partitions plan) ->
  exists v0, PerformAction pipe D (Some plan) = Ret v0 /\ forall v, rtc (verifier_step pipe D) v0 v ->
    (forall n, can_arrive D n v -> exists v', read_arrives pipe D n v = Ret v')
    /\ (length (completed v) <= 1)%nat
    /\ (kSuccess ∈ completed v -> Forall (fun p => hash_on D (ip_target_path p) (ip_target_size p) = Some (ip_target_hash p)) (plan_partitions plan)
       /\ output_object v = if pipe then Some plan else None).
Proof.
  intros Hsz. pose proof (PerformAction_spec pipe D plan Hsz) as Hs. destruct (PerformAction pipe D (Some plan)) as [v0| |]; [|done..]. exists v0. split; [done|]. intros v Hr.
  destruct (inv_steps pipe D plan Hsz v0 v) as [[b Hw]|Ho]; [|done| |].
  - destruct (settled_inv _ _ _ _ _ Hs); eauto.
  - split_and!.
    + intros n Hn. pose proof (read_arrives_spec pipe D plan Hsz b n v Hw Hn) as Ha. destruct (read_arrives pipe D n v) as [v'| |]; [by exists v'|done..].
    + destruct Hw as (p & path & size & file & pos & Hrd & _). destruct (rd_fresh _ _ _ _ _ _ _ _ Hrd) as (_ & _ & -> & _). simpl. lia.
    + destruct Hw as (p & path & size & file & pos & Hrd & _). destruct (rd_fresh _ _ _ _ _ _ _ _ Hrd) as (_ & _ & -> & _). by intros ?%not_elem_of_nil.
  - split_and!.
    + intros n Hn. destruct (over_read pipe D plan n v Ho Hn) as (v' & E & _). by exists v'.
    + destruct Ho as [_ [[-> _]|(code & -> & _)]]; simpl; lia.
    + destruct Ho as [_ [[-> _]|(code & -> & Hk)]]; [by intros ?%not_elem_of_nil|]. intros <-%list_elem_of_singleton. destruct (Hk eq_refl) as [Hv Ho]. split; [by apply verdict_success|done].
Qed.

(** When no error occurs, reads of any sizes come to an end, and then the action
    has reported exactly what [verdict] says: success if all targets are right,
    and otherwise, for the first wrong one, whether the source is to blame. *)
Theorem verification_decides `{Sha256Ok} `{FileStream} (pipe : bool) (D : gmap string (list Z)) (plan : InstallPlan) :
  Forall (fun p => 0 <= ip_target_size p < 2 ^ 63 /\ 0 <= ip_source_size p < 2 ^ 63) (plan_partitions plan) -> (forall path pos, read_scheduled path pos = true) ->
  exists v0, PerformAction pipe D (Some plan) = Ret v0 /\ sn (read_step pipe D) v0
    /\ forall v, rtc (read_step pipe D) v0 v -> nf (read_step pipe D) v -> completed v = [verdict D (plan_partitions plan)].
Proof.
  intros Hsz Hsch. pose proof (PerformAction_spec pipe D plan Hsz) as Hs. destruct (PerformAction pipe D (Some plan)) as [v0| |]; [|done..]. exists v0. split_and!; [done|by eapply settled_sn|].
  intros v Hr Hnf. by eapply settled_complete.
Qed.

(** ** After a download *)

(** The action ends, and reports that all is well. *)
Definition passes `{Sha256} `{FileStream} (pipe : bool) (D : gmap string (list Z)) (plan : InstallPlan) : Prop :=
  exists v0, PerformAction pipe D (Some plan) = Ret v0 /\ sn (read_step pipe D) v0
    /\ forall v, rtc (read_step pipe D) v0 v -> nf (read_step pipe D) v -> completed v = [kSuccess].

Lemma verdict_passes `{Sha256Ok} `{FileStream} pipe D plan :
  Forall (fun p => 0 <= ip_target_size p < 2 ^ 63 /\ 0 <= ip_source_size p < 2 ^ 63) (plan_partitions plan) -> (forall path pos, read_scheduled path pos = true) ->
  Forall (fun p => hash_on D (ip_target_path p) (ip_target_size p) = Some (ip_target_hash p)) (plan_partitions plan) -> passes pipe D plan.
Proof.
  intros Hsz Hsch Hall%verdict_success. destruct (verification_decides pipe D plan Hsz Hsch) as (v0 & ? & ? & Hd). exists v0. split_and!; [done|done|]. rewrite <- Hall. exact Hd.
Qed.

(** The manifest has the hash of the new image, and the size of the old one. *)
Definition hash_known `{Sha256} (j : Job) : Prop :=
  (exists info, new_partition_info (jb_update j) = Some info /\ info_hash info = Some (sha256 (jb_new j)))
  /\ 0 <= from_option (fun i => default 0 (info_size i)) 0 (old_partition_info (jb_update j)) < 2 ^ 63.

Section Received.
Context `{Sha256Ok} `{PrefsOk} `{Decoders} `{Protobuf} `{BootControl} `{Platform} `{FileStream} (settings : Settings) (sc : Source) (Hsc : source_ok settings sc).

Lemma received_passes pipe s : received (setup_of sc) (zlen (sc_blobs sc)) s -> installed sc (disk (slots s)) -> Forall hash_known (sc_jobs sc) ->
  (forall j, j ∈ sc_jobs sc -> jb_target j <> "" /\ stream_opens (jb_target j) = true) -> (forall path pos, read_scheduled path pos = true) ->
  passes pipe (disk (slots s)) (install_plan_ s).
Proof.
  intros (dc & jc & dj & j & later & dn & rest & off & pend & Hrun & _) Hin Hknown Hopen Hsch. rewrite (rn_plan _ _ _ _ _ _ _ _ _ _ _ Hrun). cbn [setup_of su_plan].
  rewrite Forall_forall in Hknown. assert (Hpart : forall part, part ∈ omap job_part (sc_jobs sc) -> exists j, j ∈ sc_jobs sc /\ ip_target_path part = jb_target j
    /\ ip_target_size part = zlen (jb_new j) /\ ip_target_hash part = sha256 (jb_new j) /\ 0 <= ip_source_size part < 2 ^ 63).
  { intros part (i & Hi & Ei)%list_elem_of_omap. exists i. split; [done|]. destruct (Hknown i Hi) as ((info & Ein & Eh) & Ho). pose proof (sk_jobs _ _ Hsc) as Hall.
    rewrite Forall_forall in Hall. destruct (jk_info _ _ _ _ _ (Hall i Hi)) as (info' & Ein' & Esz). assert (info' = info) as -> by congruence.
    unfold job_part, install_partition in Ei. rewrite Ein in Ei. cbn in Ei. simplify_eq. cbn. rewrite Esz, Eh. split_and!; [done..|apply Ho|apply Ho]. }
  apply verdict_passes; [|done|]; cbn [set_plan_partitions plan_partitions]; apply Forall_forall; intros part (i & Hi & Ep & Es & Eh & Hsrc)%Hpart.
  - split; [|done]. rewrite Es. pose proof (sk_jobs _ _ Hsc) as Hall. rewrite Forall_forall in Hall. pose proof (jk_size _ _ _ _ _ (Hall i Hi)). pose proof (zlen_nonneg (jb_new i)). lia.
  - destruct (Hopen i Hi) as [Hne Ho]. destruct (Hin i Hi) as (f & Hf & Hz & Hs). rewrite Ep, Es, Eh, (hash_on_open _ _ _ f) by done. pose proof (sk_jobs _ _ Hsc) as Hall.
    rewrite Forall_forall in Hall. pose proof (jk_size _ _ _ _ _ (Hall i Hi)). rewrite (proj2 (Z.ltb_ge _ _)) by lia. do 2 f_equal. rewrite <- Hs at 2. unfold slice. by rewrite drop_0.
Qed.
End Received.
