(* ===== verification/UpdatePayload.v ===== *)
(** * UpdatePayload: the payload file

    payload_generator/payload_file.cc, [GenerateUpdatePayloadFile] of
    delta_diff_generator.cc, and what they use of delta_diff_utils.cc,
    common/hash_calculator.cc and payload_consumer/file_writer.cc: the choice
    of a generator for every partition, the order of the data, and the file
    that is written, for a payload without a private key.  Temporary files can
    be created, and the report of the usage is left out. *)
From stdpp Require Import strings.
From S2P Require Import Prelude UpdateExtents UpdateGraph UpdateInplace UpdateViews UpdateRun.
From S2P Require Import UpdateFile UpdateBlocks UpdateDelta UpdateFilesystem UpdateConfig UpdateApply UpdateChunks UpdateGenerate UpdateFull UpdateAB UpdateManifest.

Record Partition := mkFilePartition {
  fp_name : string;
  fp_aops : list AnnotatedOperation;
  fp_old_info : PartitionInfo;
  fp_new_info : PartitionInfo;
  fp_postinstall : PostInstallConfig;
}.

Record PayloadFile := mkPayloadFile { pf_major_version : Z; pf_manifest : DeltaArchiveManifest; part_vec_ : list Partition }.

Definition kBufferSize : Z := 128 * 1024.

(** [PartitionConfig empty_part("")] *)
Definition empty_part : PartitionConfig := mkPartition "" "" 0 None "" (mkPostInstall false "" "" false).

Definition IsNoopOperation (op : InstallOperation) : bool :=
  bool_decide (type_of op = MOVE) && bool_decide (ExpandExtents (src_extents op) = ExpandExtents (dst_extents op)).

Definition FilterNoopOperations (ops : list AnnotatedOperation) : list AnnotatedOperation := filter (fun op => IsNoopOperation op = false) ops.

Definition AddOperationHash `{Sha256} (op : InstallOperation) (buf : list Z) : InstallOperation :=
  mkInstallOperation (op_type op) (data_offset op) (data_length op) (src_extents op) (src_length op) (dst_extents op) (dst_length op)
    (Some (sha256 buf)) (src_sha256_hash op).

Definition set_data_offset (offset : Z) (op : InstallOperation) : InstallOperation :=
  mkInstallOperation (op_type op) (Some (u32 offset)) (data_length op) (src_extents op) (src_length op) (dst_extents op) (dst_length op)
    (data_sha256_hash op) (src_sha256_hash op).

(** An optional message is set if one of its fields is. *)
Definition info_set (info : PartitionInfo) : option PartitionInfo :=
  if bool_decide (is_Some (info_size info)) || bool_decide (is_Some (info_hash info)) then Some info else None.

Definition string_set (s : string) : option string := if bool_decide (s = "") then None else Some s.

(** A partition of a manifest of major version 2. *)
Definition partition_update (part : Partition) : PartitionUpdate :=
  let c := fp_postinstall part in
  let run := postinstall_run c in
  mkUpdate (fp_name part) (if run then Some true else None) (if run then string_set (postinstall_path c) else None)
    (if run then string_set (filesystem_type c) else None) (info_set (fp_old_info part)) (info_set (fp_new_info part)) (fp_aops part)
    (if run then Some (postinstall_optional c) else None).

(** The manifest without operations, and with those of a partition. *)
Definition clear_operations (m : DeltaArchiveManifest) : DeltaArchiveManifest :=
  mkManifest [] [] (manifest_block_size m) (signatures_offset m) (signatures_size m) (old_kernel_info m) (new_kernel_info m) (old_rootfs_info m)
    (new_rootfs_info m) (old_image_info m) (new_image_info m) (minor_version m) [] (manifest_max_timestamp m).

Definition or_else {A} (x y : option A) : option A := match x with Some _ => x | None => y end.

Definition add_to_manifest (major_version : Z) (m : DeltaArchiveManifest) (part : Partition) : DeltaArchiveManifest :=
  if major_version =? kBrilloMajorPayloadVersion then
    mkManifest (install_operations m) (kernel_install_operations m) (manifest_block_size m) (signatures_offset m) (signatures_size m) (old_kernel_info m)
      (new_kernel_info m) (old_rootfs_info m) (new_rootfs_info m) (old_image_info m) (new_image_info m) (minor_version m)
      (manifest_partitions m ++ [partition_update part]) (manifest_max_timestamp m)
  else if bool_decide (fp_name part = kLegacyPartitionNameKernel) then
    mkManifest (install_operations m) (kernel_install_operations m ++ fp_aops part) (manifest_block_size m) (signatures_offset m) (signatures_size m)
      (or_else (info_set (fp_old_info part)) (old_kernel_info m)) (or_else (info_set (fp_new_info part)) (new_kernel_info m)) (old_rootfs_info m)
      (new_rootfs_info m) (old_image_info m) (new_image_info m) (minor_version m) (manifest_partitions m) (manifest_max_timestamp m)
  else
    mkManifest (install_operations m ++ fp_aops part) (kernel_install_operations m) (manifest_block_size m) (signatures_offset m) (signatures_size m)
      (old_kernel_info m) (new_kernel_info m) (or_else (info_set (fp_old_info part)) (old_rootfs_info m))
      (or_else (info_set (fp_new_info part)) (new_rootfs_info m)) (old_image_info m) (new_image_info m) (minor_version m) (manifest_partitions m)
      (manifest_max_timestamp m).

(** The manifest before any partition is added. *)
Definition init_manifest (config : PayloadGenerationConfig) : DeltaArchiveManifest :=
  let image_of image := if ImageInfoIsEmpty image then None else Some (image_info image) in
  mkManifest [] [] (Some (block_size config)) None None None None None None (image_of (source config)) (image_of (target config))
    (Some (minor (version config))) [] (Some (max_timestamp config)).

(** [Init] of a new payload file. *)
Definition PayloadFile_Init (config : PayloadGenerationConfig) : outcome PayloadFile :=
  _ ← guard_that (PayloadVersion_Validate (version config));
  Ret (mkPayloadFile (major (version config)) (init_manifest config) []).

Section Payload.
Context `{Kernel} `{Sha256} `{Files}.

(** The loop of [HashCalculator::UpdateFile] from [pos] on: the number of bytes
    hashed, or -1. *)
Fixpoint update_file (fuel : nat) (file : list Z) (length pos : Z) (c : HashCalculator) : outcome (Z * HashCalculator) :=
  if (length <? 0) || (pos <? length) then
    match fuel with
    | O => Abort
    | S fuel =>
        let bytes_to_read := if (0 <=? length) && (length - pos <? kBufferSize) then length - pos else kBufferSize in
        match pread file bytes_to_read pos with
        | None => Ret (-1, c)
        | Some [] => Ret (pos, c)
        | Some data => update_file fuel file length (pos + zlen data) (Update data c)
        end
    end
  else Ret (pos, c).

Definition UpdateFile (name : string) (length : Z) (c : HashCalculator) : outcome (Z * HashCalculator) :=
  match file_at name with
  | None => Ret (-1, c)
  | Some file => update_file (S (List.length file)) file length 0 c
  end.

Definition InitializePartitionInfo (part : PartitionConfig) : outcome PartitionInfo :=
  r ← UpdateFile (path part) (sint 64 (part_size part)) HashCalculator_new;
  _ ← guard_that (fst r =? sint 64 (part_size part));
  Ret (mkInfo (Some (part_size part)) (Some (raw_hash_ (Finalize (snd r))))).

Definition AddPartition (p : PayloadFile) (old_conf new_conf : PartitionConfig) (aops : list AnnotatedOperation) : outcome PayloadFile :=
  _ ← guard_that (negb (pf_major_version p =? kChromeOSMajorPayloadVersion)
        || bool_decide ([kLegacyPartitionNameRoot; kLegacyPartitionNameKernel] !! length (part_vec_ p) = Some (part_name new_conf)));
  old_info ← (if bool_decide (path old_conf = "") then Ret (mkInfo None None) else InitializePartitionInfo old_conf);
  new_info ← InitializePartitionInfo new_conf;
  Ret (mkPayloadFile (pf_major_version p) (pf_manifest p)
         (part_vec_ p ++ [mkFilePartition (part_name new_conf) aops old_info new_info (postinstall new_conf)])).

(** [DirectFileWriter::Write]: the file with the bytes at its end. *)
Fixpoint writer_loop (fuel : nat) (bytes file : list Z) : outcome (list Z) :=
  match bytes with
  | [] => Ret file
  | _ => match fuel with
         | O => Abort
         | S fuel => match pwrite file bytes (zlen file) with
                     | None => Fail
                     | Some n => writer_loop fuel (drop (Z.to_nat n) bytes) (write_at file (zlen file) (take (Z.to_nat n) bytes))
                     end
         end
  end.

Definition DirectFileWriter_Write (bytes file : list Z) : outcome (list Z) := writer_loop (length bytes) bytes file.

(** An operation of [ReorderDataBlobs]: the data that it names are read at once. *)
Definition reorder_operation (data_blobs : list Z) (s : list AnnotatedOperation * list Z) (aop : AnnotatedOperation)
    : outcome (list AnnotatedOperation * list Z) :=
  let '(aops, out) := s in
  match data_offset aop with
  | None => Ret (aops ++ [aop], out)
  | Some offset =>
      match data_length aop with
      | None => Abort
      | Some length =>
          match pread data_blobs length offset with
          | None => Fail
          | Some buf =>
              _ ← guard_that (zlen buf =? length);
              out' ← DirectFileWriter_Write buf out;
              Ret (aops ++ [set_data_offset (zlen out) (AddOperationHash aop buf)], out')
          end
      end
  end.

Definition reorder_partition (data_blobs : list Z) (s : list Partition * list Z) (part : Partition) : outcome (list Partition * list Z) :=
  r ← foldM (reorder_operation data_blobs) (fp_aops part) ([], snd s);
  Ret (fst s ++ [mkFilePartition (fp_name part) (fst r) (fp_old_info part) (fp_new_info part) (fp_postinstall part)], snd r).

(** The partitions with the new offsets, and the data in their order. *)
Definition ReorderDataBlobs (parts : list Partition) (data_blobs : list Z) : outcome (list Partition * list Z) :=
  foldM (reorder_partition data_blobs) parts ([], []).

(** The check that the data are in order. *)
Definition next_blob (next_blob_offset : Z) (aop : AnnotatedOperation) : outcome Z :=
  match data_offset aop with
  | None => Ret next_blob_offset
  | Some offset => _ ← check_that (offset =? next_blob_offset); Ret (u64 (next_blob_offset + default 0 (data_length aop)))
  end.

(** The loop that appends the data. *)
Fixpoint append_blobs (fuel : nat) (blobs : list Z) (pos : Z) (file : list Z) : outcome (list Z) :=
  match fuel with
  | O => Abort
  | S fuel =>
      match pread blobs (1024 * 1024) pos with
      | None => Fail
      | Some [] => Ret file
      | Some data => file ← DirectFileWriter_Write data file; append_blobs fuel blobs (pos + zlen data) file
      end
  end.
End Payload.

Section Generate.
Context `{Kernel} `{Tools} `{BlockHash} `{Files} `{Sha256} `{Protobuf}.

(** The payload file and the size of the metadata. *)
Definition WritePayload (p : PayloadFile) (data_blobs : list Z) : outcome (list Z * Z) :=
  let major_version := pf_major_version p in
  r ← ReorderDataBlobs (part_vec_ p) data_blobs;
  let '(parts, ordered_blobs) := r in
  _ ← foldM next_blob (parts ≫= fp_aops) 0;
  let m := fold_left (add_to_manifest major_version) parts (clear_operations (pf_manifest p)) in
  match AppendToString m with
  | None => Fail
  | Some serialized_manifest =>
      let metadata_size := 4 + 2 * 8 + zlen serialized_manifest in
      file ← DirectFileWriter_Write kDeltaMagic [];
      file ← DirectFileWriter_Write (big_endian 8 major_version) file;
      file ← DirectFileWriter_Write (big_endian 8 (zlen serialized_manifest)) file;
      let brillo := major_version =? kBrilloMajorPayloadVersion in
      file ← (if brillo then DirectFileWriter_Write (big_endian 4 0) file else Ret file);
      let metadata_size := if brillo then metadata_size + 4 else metadata_size in
      file ← DirectFileWriter_Write serialized_manifest file;
      file ← append_blobs (S (length ordered_blobs)) ordered_blobs 0 file;
      Ret (file, metadata_size)
  end.

(** The operations of a partition; [schedule] and [sort] are those of the generators. *)
Definition generate_partition (config : PayloadGenerationConfig) (sort : list AnnotatedOperation -> list AnnotatedOperation) (schedule : list nat)
    (old_part new_part : PartitionConfig) (blob_file : BlobFileWriter) : outcome (list AnnotatedOperation * BlobFileWriter) :=
  if negb (bool_decide (path old_part = "")) then
    if minor (version config) =? kInPlaceMinorPayloadVersion then InplaceGenerateOperations config schedule old_part new_part blob_file
    else ABGenerateOperations sort config schedule old_part new_part blob_file
  else FullGenerateOperations config schedule old_part new_part blob_file.

Definition add_generated (config : PayloadGenerationConfig) (sort : list AnnotatedOperation -> list AnnotatedOperation) (schedule : nat -> list nat)
    (s : PayloadFile * BlobFileWriter) (i : nat) : outcome (PayloadFile * BlobFileWriter) :=
  let '(payload, blob_file) := s in
  old_part ← (if is_delta config then of_option (partitions (source config) !! i) else Ret empty_part);
  new_part ← of_option (partitions (target config) !! i);
  r ← generate_partition config sort (schedule i) old_part new_part blob_file;
  let '(aops, blob_file) := r in
  payload ← AddPartition payload old_part new_part (FilterNoopOperations aops);
  Ret (payload, blob_file).

(** The operations of all the partitions, and the file of their data. *)
Definition generate_operations (config : PayloadGenerationConfig) (sort : list AnnotatedOperation -> list AnnotatedOperation) (schedule : nat -> list nat)
    : outcome (PayloadFile * BlobFileWriter) :=
  _ ← guard_that (PayloadVersion_Validate (version config));
  payload ← PayloadFile_Init config;
  _ ← guard_that (negb (is_delta config) || (length (partitions (source config)) =? length (partitions (target config)))%nat);
  foldM (add_generated config sort schedule) (seq 0 (length (partitions (target config)))) (payload, mkBlobFile [] 0).

Definition GenerateUpdatePayloadFile (config : PayloadGenerationConfig) (sort : list AnnotatedOperation -> list AnnotatedOperation)
    (schedule : nat -> list nat) : outcome (list Z * Z) :=
  r ← generate_operations config sort schedule;
  WritePayload (fst r) (blob_fd (snd r)).
End Generate.

(** ** What is written *)

(** A read of a regular file returns all the bytes that there are, up to the
    limit of the kernel. *)
Definition kMaxRead : Z := 0x7ffff000.
Arguments kMaxRead : simpl never.

Class WholeReads `{Kernel} : Prop :=
  whole_reads : forall file count offset, 0 <= count <= kMaxRead -> 0 <= offset -> pread file count offset = Some (slice file offset count).

(** The data that an operation names in the file of blobs. *)
Definition op_data (blobs : list Z) (op : AnnotatedOperation) : list Z :=
  match data_offset op with Some offset => slice blobs offset (default 0 (data_length op)) | None => [] end.

(** The operations with their data one after the other from [o] on. *)
Definition relocated `{Sha256} (blobs : list Z) (o : Z) (op : AnnotatedOperation) : AnnotatedOperation :=
  if data_offset op then set_data_offset o (AddOperationHash op (op_data blobs op)) else op.

Fixpoint lay_out `{Sha256} (blobs : list Z) (o : Z) (ops : list AnnotatedOperation) : list AnnotatedOperation :=
  match ops with [] => [] | op :: ops => relocated blobs o op :: lay_out blobs (o + zlen (op_data blobs op)) ops end.

Definition all_data (blobs : list Z) (ops : list AnnotatedOperation) : list Z := ops ≫= op_data blobs.

Definition with_aops (part : Partition) (aops : list AnnotatedOperation) : Partition :=
  mkFilePartition (fp_name part) aops (fp_old_info part) (fp_new_info part) (fp_postinstall part).

Fixpoint lay_out_parts `{Sha256} (blobs : list Z) (o : Z) (parts : list Partition) : list Partition :=
  match parts with
  | [] => []
  | part :: parts => with_aops part (lay_out blobs o (fp_aops part)) :: lay_out_parts blobs (o + zlen (all_data blobs (fp_aops part))) parts
  end.

(** The data of an operation are in the file of blobs, and can be read at once. *)
Definition data_there (blobs : list Z) (op : AnnotatedOperation) : Prop :=
  match data_offset op with
  | None => True
  | Some offset => exists n, data_length op = Some n /\ 0 <= n <= kMaxRead /\ 0 <= offset /\ offset + n <= zlen blobs
  end.

Section Written.
Context `{KernelOk} `{Sha256Ok}.

Lemma writer_loop_spec fuel bytes file : (length bytes <= fuel)%nat -> writer_loop fuel bytes file = Ret (file ++ bytes).
Proof.
  revert bytes file. induction fuel as [|fuel IH]; intros bytes file Hf; (destruct bytes as [|b bytes]; [simpl; by rewrite app_nil_r|]); [simpl in Hf; lia|].
  cbn [writer_loop]. set (l := b :: bytes) in *. destruct (pwrite_ok file l (zlen file)) as (n & -> & Hn); [done|apply zlen_nonneg|].
  rewrite IH by (rewrite length_drop; unfold zlen in *; lia). f_equal. unfold write_at. rewrite Z.sub_diag. change (replicate (Z.to_nat 0) 0) with (@nil Z). rewrite app_nil_r.
  rewrite (firstn_all2 (n := Z.to_nat (zlen file)) file), (drop_ge file) by (unfold zlen in *; lia). by rewrite app_nil_r, <- app_assoc, take_drop.
Qed.

Lemma DirectFileWriter_Write_spec bytes file : DirectFileWriter_Write bytes file = Ret (file ++ bytes).
Proof. by apply writer_loop_spec. Qed.

Lemma append_blobs_spec fuel blobs pos file : 0 <= pos <= zlen blobs -> zlen blobs - pos < Z.of_nat fuel ->
  append_blobs fuel blobs pos file = Ret (file ++ drop (Z.to_nat pos) blobs).
Proof.
  revert pos file. induction fuel as [|fuel IH]; intros pos file Hp Hf; [lia|]. cbn [append_blobs].
  assert (Hm : 0 < 1024 * 1024) by done. revert Hm. generalize (1024 * 1024). intros m Hm.
  destruct (pread_ok blobs m pos) as (data & -> & Hpre & Hne); [lia..|]. destruct (slice_prefix blobs data pos m ltac:(lia) Hpre) as [Hd Hl].
  destruct data as [|b data].
  - rewrite drop_ge; [by rewrite app_nil_r|]. destruct (decide (pos = zlen blobs)) as [->|Hlt]; [unfold zlen; lia|]. exfalso. apply Hne; [|done]. intros E.
    apply (f_equal zlen) in E. unfold slice, zlen in *. rewrite length_take, length_drop in E. change (length (@nil Z)) with 0%nat in E. lia.
  - set (l := b :: data) in *. assert (0 < zlen l) by (unfold l; rewrite zlen_cons; pose proof (zlen_nonneg data); lia).
    assert (Hle : pos + zlen l <= zlen blobs). { rewrite Hd. unfold slice, zlen. rewrite length_take, length_drop. unfold zlen in *. lia. }
    rewrite DirectFileWriter_Write_spec, outcome_bind_ret, IH by lia. f_equal. rewrite <- app_assoc. f_equal. rewrite Hd at 1. unfold slice.
    rewrite Z2Nat.inj_add, <- drop_drop by lia. apply take_drop.
Qed.

Lemma update_file_spec fuel file len pos c : 0 <= pos <= len -> len <= zlen file -> len - pos < Z.of_nat fuel -> raw_hash_ c = [] ->
  update_file fuel file len pos c = Ret (len, mkCalculator _ (sha_update (ctx_ c) (slice file pos (len - pos))) []).
Proof.
  revert pos c. induction fuel as [|fuel IH]; intros pos c Hp Hl Hf Hc; [lia|]. cbn [update_file]. rewrite (proj2 (Z.ltb_ge len 0)), (proj2 (Z.leb_le 0 len)) by lia. cbn [orb andb].
  destruct (Z.ltb_spec pos len).
  2: { replace pos with len by lia. rewrite Z.sub_diag. unfold slice. simpl. rewrite sha_update_nil. destruct c. simpl in *. by subst. }
  set (n := if len - pos <? kBufferSize then len - pos else kBufferSize). assert (Hn : 0 < n <= len - pos) by (unfold n, kBufferSize; case_match; lia).
  destruct (pread_ok file n pos) as (data & -> & Hpre & Hne); [lia..|]. destruct (slice_prefix file data pos n ltac:(lia) Hpre) as [Hd Hdl].
  destruct data as [|b data].
  { exfalso. apply Hne; [|done]. intros E. apply (f_equal zlen) in E. rewrite zlen_slice, zlen_nil in E by lia. lia. }
  set (l := b :: data) in *. assert (0 < zlen l) by (unfold l; rewrite zlen_cons; pose proof (zlen_nonneg data); lia).
  unfold Update. rewrite bool_decide_true by done. rewrite IH by (done || lia). cbn [ctx_]. rewrite sha_update_app. do 3 f_equal.
  replace (len - pos) with (zlen l + (len - (pos + zlen l))) by lia. by rewrite slice_app, <- Hd by lia.
Qed.

Lemma InitializePartitionInfo_spec `{Files} part file :
  file_at (path part) = Some file -> 0 <= part_size part <= zlen file -> zlen file < 2 ^ 63 ->
  InitializePartitionInfo part = Ret (mkInfo (Some (part_size part)) (Some (sha256 (slice file 0 (part_size part))))).
Proof.
  intros Hf Hs Hz. unfold InitializePartitionInfo, UpdateFile. rewrite Hf, sint_small by lia.
  rewrite update_file_spec by (done || unfold zlen in *; lia). rewrite outcome_bind_ret. cbn [fst snd]. rewrite Z.eqb_refl. cbn [guard_that]. rewrite outcome_bind_ret, Z.sub_0_r.
  unfold Finalize. cbn [raw_hash_ ctx_ HashCalculator_new]. by rewrite bool_decide_true.
Qed.

Lemma op_data_size blobs op : data_there blobs op -> zlen (op_data blobs op) = if data_offset op then default 0 (data_length op) else 0.
Proof.
  unfold data_there, op_data. destruct (data_offset op) as [o|]; [|done]. intros (n & -> & ? & ? & ?). simpl. by rewrite zlen_slice by lia.
Qed.

Lemma all_data_cons blobs op ops : all_data blobs (op :: ops) = op_data blobs op ++ all_data blobs ops.
Proof. done. Qed.

Lemma lay_out_app blobs o ops ops' : lay_out blobs o (ops ++ ops') = lay_out blobs o ops ++ lay_out blobs (o + zlen (all_data blobs ops)) ops'.
Proof.
  revert o. induction ops as [|op ops IH]; intros o; simpl; [by rewrite zlen_nil, Z.add_0_r|]. by rewrite IH, zlen_app, Z.add_assoc.
Qed.

Lemma lay_out_parts_aops blobs o parts : lay_out_parts blobs o parts ≫= fp_aops = lay_out blobs o (parts ≫= fp_aops).
Proof. revert o. induction parts as [|part parts IH]; intros o; [done|]. cbn [lay_out_parts mbind list_bind]. rewrite lay_out_app. f_equal. apply IH. Qed.

Context `{!WholeReads}.

Lemma reorder_operation_spec blobs op aops out : data_there blobs op ->
  reorder_operation blobs (aops, out) op = Ret (aops ++ [relocated blobs (zlen out) op], out ++ op_data blobs op).
Proof.
  intros Hop. pose proof (op_data_size blobs op Hop) as Hz. unfold data_there in Hop. unfold reorder_operation, relocated, op_data in *.
  destruct (data_offset op) as [o|]; [|by rewrite app_nil_r]. destruct Hop as (n & En & Hn & Ho & Hin). rewrite En in *. simpl in Hz |- *.
  rewrite whole_reads, Hz, Z.eqb_refl by done. cbn [guard_that]. by rewrite outcome_bind_ret, DirectFileWriter_Write_spec, outcome_bind_ret.
Qed.

Lemma reorder_operations_spec blobs ops aops out : Forall (data_there blobs) ops ->
  foldM (reorder_operation blobs) ops (aops, out) = Ret (aops ++ lay_out blobs (zlen out) ops, out ++ all_data blobs ops).
Proof.
  intros Hops. revert aops out. induction Hops as [|op ops Hop Hops IH]; intros aops out; [by rewrite !app_nil_r|].
  cbn [foldM lay_out]. by rewrite reorder_operation_spec, outcome_bind_ret, IH, all_data_cons, zlen_app, <- !app_assoc.
Qed.

Lemma reorder_partition_spec blobs part s : Forall (data_there blobs) (fp_aops part) ->
  reorder_partition blobs s part = Ret (fst s ++ [with_aops part (lay_out blobs (zlen (snd s)) (fp_aops part))], snd s ++ all_data blobs (fp_aops part)).
Proof. intros Hp. unfold reorder_partition. by rewrite reorder_operations_spec, outcome_bind_ret. Qed.

Lemma ReorderDataBlobs_spec blobs parts : Forall (data_there blobs) (parts ≫= fp_aops) ->
  ReorderDataBlobs parts blobs = Ret (lay_out_parts blobs 0 parts, all_data blobs (parts ≫= fp_aops)).
Proof.
  unfold ReorderDataBlobs. enough (forall done out, Forall (data_there blobs) (parts ≫= fp_aops) ->
    foldM (reorder_partition blobs) parts (done, out) = Ret (done ++ lay_out_parts blobs (zlen out) parts, out ++ all_data blobs (parts ≫= fp_aops))) as Hgen by (apply Hgen).
  induction parts as [|part parts IH]; intros done out Hall; [by rewrite !app_nil_r|].
  cbn [mbind list_bind] in Hall. apply Forall_app in Hall as [Hp Hall]. cbn [foldM lay_out_parts].
  rewrite reorder_partition_spec, outcome_bind_ret by done. cbn [fst snd]. rewrite IH, zlen_app by done. rewrite <- !app_assoc. unfold all_data. cbn [mbind list_bind].
  by rewrite bind_app.
Qed.

Lemma next_blob_spec blobs ops o : Forall (data_there blobs) ops -> 0 <= o -> o + zlen (all_data blobs ops) < 2 ^ 32 ->
  foldM next_blob (lay_out blobs o ops) o = Ret (o + zlen (all_data blobs ops)).
Proof.
  intros Hops. revert o. induction Hops as [|op ops Hop Hops IH]; intros o Ho Hb; cbn [foldM lay_out]; [f_equal; unfold all_data; simpl; unfold zlen; simpl; lia|].
  rewrite all_data_cons, zlen_app in *. pose proof (zlen_nonneg (all_data blobs ops)). pose proof (zlen_nonneg (op_data blobs op)). pose proof (op_data_size blobs op Hop) as Hz.
  
  assert (Hn : next_blob o (relocated blobs o op) = Ret (o + zlen (op_data blobs op))); [|rewrite Hn, outcome_bind_ret, IH by lia; f_equal; lia].
  unfold next_blob, relocated. destruct (data_offset op) as [d|] eqn:Eo.
  - cbn [set_data_offset data_offset data_length AddOperationHash]. rewrite (uint_small 32 o), Z.eqb_refl by (unfold is_uint; lia). cbn [check_that].
    by rewrite <- Hz, uint_small, outcome_bind_ret by (unfold is_uint; lia).
  - by rewrite Eo, Hz, Z.add_0_r.
Qed.
End Written.

(** The manifest that is written for the partitions. *)
Definition manifest_of `{Sha256} (p : PayloadFile) (data_blobs : list Z) : DeltaArchiveManifest :=
  fold_left (add_to_manifest (pf_major_version p)) (lay_out_parts data_blobs 0 (part_vec_ p)) (clear_operations (pf_manifest p)).

(** The data of the operations fit in the 32-bit fields, and can be read. *)
Definition data_fits (p : PayloadFile) (data_blobs : list Z) : Prop :=
  Forall (data_there data_blobs) (part_vec_ p ≫= fp_aops) /\ zlen (all_data data_blobs (part_vec_ p ≫= fp_aops)) < 2 ^ 32.

Lemma WritePayload_spec `{KernelOk} `{Sha256Ok} `{Protobuf} `{!WholeReads} p data_blobs : data_fits p data_blobs ->
  WritePayload p data_blobs = match AppendToString (manifest_of p data_blobs) with
    | None => Fail
    | Some message =>
        let brillo := pf_major_version p =? kBrilloMajorPayloadVersion in
        Ret (kDeltaMagic ++ big_endian 8 (pf_major_version p) ++ big_endian 8 (zlen message) ++ (if brillo then big_endian 4 0 else []) ++ message
               ++ all_data data_blobs (part_vec_ p ≫= fp_aops), (if brillo then 24 else 20) + zlen message)
    end.
Proof.
  intros [Hd Hz]. unfold WritePayload. rewrite ReorderDataBlobs_spec, outcome_bind_ret by done. rewrite lay_out_parts_aops, next_blob_spec, outcome_bind_ret by (done || lia).
  fold (manifest_of p data_blobs). destruct (AppendToString _) as [message|]; [|done].
  destruct (pf_major_version p =? kBrilloMajorPayloadVersion); cbv zeta;
    repeat first [rewrite DirectFileWriter_Write_spec, outcome_bind_ret | rewrite outcome_bind_ret]; rewrite append_blobs_spec, outcome_bind_ret by (unfold zlen; lia);
    change (Z.to_nat 0) with 0%nat; rewrite drop_0, ?app_nil_l, <- !app_assoc; f_equal; f_equal; lia.
Qed.
