(* ===== verification/UpdateDeliver.v ===== *)
(** * UpdateDeliver: from the images to the devices

    The payload that [GenerateUpdatePayloadFile] writes is one that the device
    installs: the operations of the full and the A/B generator, with their data
    in the order of the payload, are jobs for [DeltaPerformer]. *)
From stdpp Require Import strings gmap pretty.
From S2P Require Import Prelude UpdateExtents UpdateGraph UpdateViews UpdateInplace UpdateRun UpdateFile UpdateBlocks UpdateDelta UpdateFilesystem.
From S2P Require Import UpdateConfig UpdateApply UpdateChunks UpdatePartition UpdateGenerate UpdateFull UpdateAB UpdateWriter UpdateManifest UpdatePayload UpdatePerform.
From S2P Require Import UpdateConsume UpdateInstall UpdateSession UpdateVerify.

(** ** Operations of the generators *)

Lemma extents_on_device n es : Forall extent_ok es -> (forall b, b ∈ ExpandExtents es -> 0 <= b < n) -> on_device (n * kBlockSize) es.
Proof.
  intros Hes Hin. apply Forall_forall. intros e He. rewrite Forall_forall in Hes. pose proof (Hes e He) as Hok. split; [done|].
  pose proof Hok as (? & ? & _). assert (Hlast : start_block e + num_blocks e - 1 ∈ ExpandExtents es).
  { apply list_elem_of_bind. exists e. split; [|done]. rewrite expand_ok by done. apply elem_of_seqZ. lia. }
  specialize (Hin _ Hlast). unfold kBlockSize. lia.
Qed.

(** An operation that carries data names a part of the file of blobs. *)
Definition placed (blobs : list Z) (op : AnnotatedOperation) : Prop :=
  if carries_data (type_of op) then exists o n, data_offset op = Some o /\ data_length op = Some n /\ 0 < n /\ 0 <= o /\ o + n <= zlen blobs
  else data_offset op = None /\ data_length op = None.

Section Generated.
Context `{Decoders} `{Sha256} (delta : bool) (oldf newf : list Z) (old_n new_n : Z).

(** An operation that the device can perform, whose data are in the file of blobs. *)
Record generated (w : BlobFileWriter) (op : AnnotatedOperation) : Prop := {
  gn_type : exists t, op_type op = Some t /\ match t with REPLACE | REPLACE_BZ | REPLACE_XZ => True | SOURCE_COPY | SOURCE_BSDIFF => delta = true | _ => False end;
  gn_src : on_device (old_n * kBlockSize) (src_extents op);
  gn_dst : on_device (new_n * kBlockSize) (dst_extents op);
  gn_totals : total (src_extents op) * kBlockSize < 2 ^ 63 /\ total (dst_extents op) * kBlockSize < 2 ^ 63;
  gn_lengths : lengths_ok op;
  gn_patch : type_of op = SOURCE_BSDIFF -> src_length op <> None /\ dst_length op <> None;
  gn_decodes : forall w', grows w w' -> blob_fits w' ->
    decodes (type_of op) (operation_data w' op) (concat (block_of oldf <$> ExpandExtents (src_extents op))) (concat (block_of newf <$> ExpandExtents (dst_extents op)));
  gn_hash : hash_matches op (concat (block_of oldf <$> ExpandExtents (src_extents op)));
  gn_data : data_in w op;
  gn_unhashed : data_sha256_hash op = None;
}.

Lemma generated_grows w w' op : grows w w' -> generated w op -> generated w' op.
Proof. intros Hg []. split; try done; [|by eapply data_in_grows]. intros w'' Hg'. apply gn_decodes0. by etrans. Qed.

Lemma ab_generated version w op : minor version < kImgdiffMinorPayloadVersion -> InplaceUpdate version = false -> delta = true ->
  ab_op oldf newf version old_n new_n w op -> source_hashed oldf op -> generated w op.
Proof.
  intros Hmin Hin Hdelta [[(t & Ht & Ha) [Hs Hd] _ Ho Hn Hfull Hcopy Hsl [Hss Hds] Hpatch] _ Hdec _ Hdata] Hh.
  assert (Htt : type_of op = t) by (unfold type_of; by rewrite Ht).
  assert (Hm : match t with REPLACE | REPLACE_BZ | REPLACE_XZ => True | SOURCE_COPY | SOURCE_BSDIFF => delta = true | _ => False end).
  { unfold OperationAllowed, InplaceUpdate in *. destruct t; try done; try (by rewrite Hin in Ha); try (apply andb_prop in Ha as [Ha _]); apply Z.leb_le in Ha; lia. }
  rewrite !ExpandExtents_length in * by done. rewrite Htt in *. split; rewrite ?Htt; try done.
  - by exists t.
  - by apply extents_on_device.
  - by apply extents_on_device.
  - split; [done|]. destruct t; try done; try (right; by apply Hfull); [|right; by apply Hpatch]. left. by apply Hcopy.
  - intros E. destruct (Hpatch E) as [? ->]. done.
  - intros w' Hg Hf. apply Hdec; [done|by left].
  - destruct Hh as [_ Hh]. unfold hash_matches. destruct (src_sha256_hash op); [|done]. simpl in Hh |- *. by injection Hh as <-.
  - by destruct Hh.
Qed.

Lemma full_generated version w op : minor version < kImgdiffMinorPayloadVersion -> new_n * kBlockSize < 2 ^ 63 ->
  full_op newf version new_n w op -> generated w op.
Proof.
  intros Hmin Hsize (e & He & Hle & (Hd & Hs & Hsl & Hdl & [= Hdh Hh]) & [(t & Ht & Ha & Hr) _ Hdec Hdata]). assert (Htt : type_of op = t) by (unfold type_of; by rewrite Ht).
  assert (Hrep : IsAReplaceOperation t = true). { destruct Hr as [?| ->]; [done|]. unfold OperationAllowed in Ha. apply Z.leb_le in Ha. lia. }
  pose proof He as (? & ? & _). split; rewrite ?Hs, ?Hd; try done.
  - exists t. split; [done|]. by destruct t.
  - by apply Forall_nil.
  - apply Forall_singleton. split; [done|]. unfold kBlockSize in *. lia.
  - simpl. unfold kBlockSize in *. lia.
  - split; left; done.
  - rewrite Htt. intros ->. done.
  - intros w' Hg Hf. unfold ExpandExtents at 2. simpl. rewrite app_nil_r. by apply Hdec.
  - unfold hash_matches. by rewrite Hh.
Qed.

(** Its data as the payload file needs them. *)
Lemma generated_data w op : generated w op -> blob_ok w -> blob_fits w -> placed (blob_fd w) op.
Proof.
  intros [_ _ _ _ _ _ _ _ Hd _] [? ?] Hf. unfold data_in in Hd. unfold placed. destruct (carries_data _); [|done]. destruct Hd as (data & Hne & o & Ho & Hn & ? & Hle & _).
  unfold blob_fits in Hf. assert (0 < zlen data) by (destruct data; [done|]; rewrite zlen_cons; pose proof (zlen_nonneg data); lia).
  exists o, (zlen data). rewrite Ho, Hn, !uint_small by (unfold is_uint; lia). split_and!; (done || lia).
Qed.
End Generated.

(** The images may be other ones with the same blocks. *)
Lemma generated_images `{Decoders} `{Sha256} delta oldf newf old new old_n new_n w op :
  (forall b, 0 <= b < old_n -> block_of old b = block_of oldf b) -> (forall b, 0 <= b < new_n -> block_of new b = block_of newf b) ->
  generated delta oldf newf old_n new_n w op -> generated delta old new old_n new_n w op.
Proof.
  intros Ho Hn Hop. pose proof Hop as [? Hs Hd ? ? ? Hdec Hh ? ?].
  assert (Hmap : forall f g n es, (forall b, 0 <= b < n -> block_of f b = block_of g b) -> on_device (n * kBlockSize) es -> block_of f <$> ExpandExtents es = block_of g <$> ExpandExtents es).
  { intros f g n es Hfg Hes. apply list_fmap_ext. intros i b Hi%list_elem_of_lookup_2. destruct (expanded_blocks _ _ _ Hes Hi). apply Hfg. unfold kBlockSize in *. lia. }
  split; [done..| | |done|done]; rewrite (Hmap old oldf old_n) by exact Hs || exact Ho; [|exact Hh]. rewrite (Hmap new newf new_n) by exact Hd || exact Hn. exact Hdec.
Qed.

Section Relocated.
Context `{Decoders} `{Sha256}.
Implicit Types (op : AnnotatedOperation) (ops : list AnnotatedOperation).

Lemma relocated_fields blobs o op : let op' := relocated blobs o op in
  op_type op' = op_type op /\ data_length op' = data_length op /\ src_extents op' = src_extents op /\ src_length op' = src_length op
  /\ dst_extents op' = dst_extents op /\ dst_length op' = dst_length op /\ src_sha256_hash op' = src_sha256_hash op.
Proof. unfold relocated. by destruct (data_offset op). Qed.

Lemma relocated_job delta old_n new_n w j op all o :
  generated delta (jb_old j) (jb_new j) old_n new_n w op -> blob_ok w -> blob_fits w -> old_n * kBlockSize <= zlen (jb_old j) -> new_n * kBlockSize <= zlen (jb_new j) ->
  slice all o (zlen (op_data (blob_fd w) op)) = op_data (blob_fd w) op -> 0 <= o -> o + zlen (op_data (blob_fd w) op) < 2 ^ 32 ->
  job_op delta all j (relocated (blob_fd w) o op) /\ op_checked all (relocated (blob_fd w) o op).
Proof.
  intros Hop Hw Hf Ho Hn Hat Hpos Hsmall. pose proof (generated_data _ _ _ _ _ _ _ Hop Hw Hf) as Hdata. unfold placed in Hdata. pose proof Hop as [(t & Ht & Hm) Hs Hd Htot Hlen Hpatch Hdec Hh _ Hnh].
  destruct (relocated_fields (blob_fd w) o op) as (E1 & E2 & E3 & E4 & E5 & E6 & E7). set (op' := relocated (blob_fd w) o op) in *.
  assert (Htt : type_of op' = type_of op) by (unfold type_of; by rewrite E1). specialize (Hdec w ltac:(done) Hf).
  assert (Hwide : forall n m es, n <= m -> on_device n es -> on_device m es) by (intros n m es ? Hes; eapply Forall_impl; [exact Hes|]; intros e [? ?]; split; [done|lia]).
  assert (Hblob : blob_of all op' = operation_data w op /\ op_checked all op').
  { pose proof (zlen_nonneg (op_data (blob_fd w) op)). unfold op_checked, blob_of, operation_data. rewrite E2. unfold op_data in *. destruct (carries_data (type_of op)).
    - destruct Hdata as (d & n & Ed & En & ? & ? & ?). unfold op', relocated, op_data in *. rewrite Ed, En in *. cbn [default from_option] in *. unfold id in *. rewrite zlen_slice in * by lia.
      cbn [set_data_offset AddOperationHash data_offset data_sha256_hash default from_option]. unfold id. rewrite uint_small by (unfold is_uint; lia). split; [done|]. right. by rewrite Hat.
    - destruct Hdata as [Ed En]. unfold op', relocated. rewrite Ed, En, Ed, Hnh. simpl. split; [done|by left]. }
  destruct Hblob as [Hblob Hck]. split; [|done]. split; rewrite ?Htt, ?E3, ?E4, ?E5, ?E6, ?Hblob; try done.
  - unfold type_of. rewrite Ht. simpl. by destruct t.
  - by eapply Hwide.
  - by eapply Hwide.
  - unfold lengths_ok. by rewrite E3, E4, E5, E6.
  - unfold hash_matches. by rewrite E7.
Qed.
End Relocated.

(** ** The jobs of a payload *)

(** Where a partition is on the device: what is on the source, the new image, the
    paths and the size of the target. *)
Record Place := mkPlace { pc_old : list Z; pc_new : list Z; pc_source : string; pc_target : string; pc_size : Z }.

Definition job_for (u : PartitionUpdate) (pc : Place) : Job := mkJob u (pc_old pc) (pc_new pc) (pc_source pc) (pc_target pc) (pc_size pc).

Definition jobs_for `{Sha256} (blobs : list Z) (o : Z) (parts : list Partition) (places : list Place) : list Job :=
  zip_with job_for (partition_update <$> lay_out_parts blobs o parts) places.

Section Jobs.
Context `{Decoders} `{Sha256} (delta : bool) (w : BlobFileWriter) (Hw : blob_ok w) (Hf : blob_fits w).
Abbreviation blobs := (blob_fd w).

(** The operations of the partition make its new image. *)
Record ready (part : Partition) (pc : Place) : Prop := {
  rd_ops : exists old_n new_n, Forall (generated delta (pc_old pc) (pc_new pc) old_n new_n w) (fp_aops part)
    /\ old_n * kBlockSize <= zlen (pc_old pc) /\ new_n * kBlockSize = zlen (pc_new pc) /\ forall b, 0 <= b < new_n -> b ∈ written_blocks (fp_aops part);
  rd_info : info_size (fp_new_info part) = Some (zlen (pc_new pc));
  rd_old_info : info_set (fp_old_info part) <> None <-> delta = true;
}.

Lemma lay_out_dst o ops : dst_blocks (lay_out blobs o ops) = written_blocks ops.
Proof.
  revert o. induction ops as [|op ops IH]; intros o; [done|]. destruct (relocated_fields blobs o op) as (_ & _ & _ & _ & E & _).
  unfold dst_blocks, written_blocks in *. cbn [lay_out mbind list_bind]. by rewrite E, IH.
Qed.

Lemma ready_data part pc op : ready part pc -> op ∈ fp_aops part -> placed blobs op.
Proof. intros [(old_n & new_n & Hops & _) _ _] Hop. rewrite Forall_forall in Hops. eapply generated_data; [by apply Hops|done|done]. Qed.

Lemma lay_out_laid_out o ops :
  (forall op, op ∈ ops -> placed blobs op) -> 0 <= o -> o + zlen (all_data blobs ops) < 2 ^ 32 -> laid_out o (o + zlen (all_data blobs ops)) (lay_out blobs o ops).
Proof.
  revert o. induction ops as [|op ops IH]; intros o Hops Ho Hz; [simpl; unfold all_data, zlen; simpl; lia|]. rewrite all_data_cons, zlen_app in *. cbn [lay_out laid_out].
  pose proof (zlen_nonneg (all_data blobs ops)). pose proof (zlen_nonneg (op_data blobs op)).
  assert (Hrest : laid_out (o + zlen (op_data blobs op)) (o + zlen (op_data blobs op) + zlen (all_data blobs ops)) (lay_out blobs (o + zlen (op_data blobs op)) ops)).
  { apply IH; [|lia..]. intros op' Hop'. apply Hops. by right. }
  destruct (relocated_fields blobs o op) as (E1 & E2 & _). assert (Et : type_of (relocated blobs o op) = type_of op) by (unfold type_of; by rewrite E1). rewrite Et, E2.
  specialize (Hops op ltac:(by left)). unfold placed in Hops. rewrite Z.add_assoc. destruct (carries_data (type_of op)).
  - destruct Hops as (d & n & Ed & En & ? & ? & ?). assert (Hsz : zlen (op_data blobs op) = n) by (unfold op_data; rewrite Ed, En; simpl; rewrite zlen_slice; lia).
    rewrite Hsz in *. exists n. split_and!; [|done|done|done]. unfold relocated. rewrite Ed. simpl. by rewrite uint_small by (unfold is_uint; lia).
  - destruct Hops as [Ed En]. unfold op_data at 2 in Hrest. unfold op_data at 1. unfold relocated. rewrite Ed, En in *. rewrite zlen_nil, Z.add_0_r in Hrest |- *. split_and!; [done..|].
    unfold op_data in Hrest |- *. rewrite Ed in *. by rewrite zlen_nil, Z.add_0_r in Hrest |- *.
Qed.

Lemma lay_out_job_ops all old_n new_n j ops pre post :
  Forall (generated delta (jb_old j) (jb_new j) old_n new_n w) ops -> old_n * kBlockSize <= zlen (jb_old j) -> new_n * kBlockSize <= zlen (jb_new j) ->
  all = pre ++ all_data blobs ops ++ post -> zlen all < 2 ^ 32 ->
  Forall (fun op => job_op delta all j op /\ op_checked all op) (lay_out blobs (zlen pre) ops).
Proof.
  intros Hops Ho Hn. revert pre. induction Hops as [|op ops Hop Hops IH]; intros pre Hall Hz; cbn [lay_out]; [constructor|]. rewrite all_data_cons in Hall.
  assert (zlen all = zlen pre + (zlen (op_data blobs op) + (zlen (all_data blobs ops) + zlen post))) by (rewrite Hall, !zlen_app; lia).
  pose proof (zlen_nonneg pre). pose proof (zlen_nonneg post). pose proof (zlen_nonneg (all_data blobs ops)). constructor.
  - eapply relocated_job; try done; [|lia]. rewrite Hall, <- app_assoc. apply slice_middle.
  - rewrite <- zlen_app. apply IH; [|done]. rewrite Hall. by rewrite <- !app_assoc.
Qed.

Lemma jobs_job_ops all parts places pre post : Forall2 ready parts places -> all = pre ++ all_data blobs (parts ≫= fp_aops) ++ post -> zlen all < 2 ^ 32 ->
  Forall (fun j => Forall (fun op => job_op delta all j op /\ op_checked all op) (job_ops j)) (jobs_for blobs (zlen pre) parts places).
Proof.
  intros Hr. revert pre. induction Hr as [|part pc parts places [(old_n & new_n & Hops & Ho & Hn & _) _ _] _ IH]; intros pre Hall Hz; [constructor|].
  unfold all_data in Hall. cbn [mbind list_bind] in Hall. rewrite bind_app, <- app_assoc in Hall. constructor.
  - cbn [jobs_for]. unfold job_for, job_ops. cbn [jb_update partition_update operations with_aops fp_aops].
    eapply (lay_out_job_ops all old_n new_n (mkJob _ (pc_old pc) (pc_new pc) (pc_source pc) (pc_target pc) (pc_size pc))); cbn [jb_old jb_new]; [done|done|lia|exact Hall|done].
  - cbn [lay_out_parts]. rewrite <- zlen_app. apply IH; [|done]. by rewrite <- app_assoc.
Qed.
End Jobs.

(** ** The requests that are served *)

(** A configuration for a device with two slots: major version 2, and a full
    payload or a delta of minor version 2 or 3. *)
Record request_ok `{Files} (config : PayloadGenerationConfig) : Prop := {
  rq_valid : Validate config = true;
  rq_major : major (version config) = kBrilloMajorPayloadVersion;
  rq_minor : minor (version config) <> kInPlaceMinorPayloadVersion /\ minor (version config) < kImgdiffMinorPayloadVersion;
  rq_block_size : block_size config = kBlockSize;
  rq_hard : hard_chunk_size config = -1 \/ 0 < hard_chunk_size config < 2 ^ 63;
  rq_soft : 0 < soft_chunk_size config < 2 ^ 63;
  rq_sizes : forall part, part ∈ partitions (target config) -> is_uint 63 (part_size part) /\ zlen (part_data part) < 2 ^ 63;
  rq_delta : is_delta config = true -> Forall2 (fun old_part new_part => path old_part <> "" /\ part_name old_part = part_name new_part /\ part_size new_part < 2 ^ 32
    /\ exists old_files new_files, partitions_ok old_part new_part old_files new_files) (partitions (source config)) (partitions (target config));
}.

(** The old and the new partitions. *)
Definition old_parts (config : PayloadGenerationConfig) : list PartitionConfig :=
  if is_delta config then partitions (source config) else replicate (length (partitions (target config))) empty_part.

Definition part_image `{Files} (part : PartitionConfig) : list Z := slice (part_data part) 0 (part_size part).

(** What is added to the payload for a partition. *)
Record built `{Files} `{Decoders} `{Sha256} (delta : bool) (w : BlobFileWriter) (pair : PartitionConfig * PartitionConfig) (part : Partition) : Prop := {
  bt_name : fp_name part = part_name (snd pair);
  bt_ops : Forall (generated delta (part_data (fst pair)) (part_data (snd pair)) (part_size (fst pair) / kBlockSize) (part_size (snd pair) / kBlockSize) w) (fp_aops part);
  bt_all : forall b, 0 <= b < part_size (snd pair) / kBlockSize -> b ∈ written_blocks (fp_aops part);
  bt_new : fp_new_info part = mkInfo (Some (part_size (snd pair))) (Some (sha256 (part_image (snd pair))));
  bt_old : fp_old_info part = if delta then mkInfo (Some (part_size (fst pair))) (Some (sha256 (part_image (fst pair)))) else mkInfo None None;
}.

Section Producer.
Context `{KernelOk} `{!WholeReads} `{ToolsOk} `{!DiffRuns} `{BlockHash} `{Files} `{Sha256Ok}.
Context (config : PayloadGenerationConfig) (Hreq : request_ok config).
Context (sort : list AnnotatedOperation -> list AnnotatedOperation) (Hsort : forall aops, sort aops ≡ₚ aops) (schedule : nat -> list nat).
Abbreviation delta := (is_delta config).

Lemma built_grows w w' pair part : grows w w' -> built delta w pair part -> built delta w' pair part.
Proof. intros Hg []. split; try done. eapply Forall_impl; [done|]. intros op. by apply generated_grows. Qed.

Lemma no_noops w oldf newf old_n new_n aops : Forall (generated delta oldf newf old_n new_n w) aops -> FilterNoopOperations aops = aops.
Proof.
  intros Hops. unfold FilterNoopOperations. induction Hops as [|op ops Hop _ IH]; [done|]. rewrite filter_cons_True, IH; [done|].
  destruct (gn_type _ _ _ _ _ _ _ Hop) as (t & Ht & Hm). unfold IsNoopOperation, type_of. rewrite Ht. simpl. by destruct t.
Qed.

Lemma valid_target part : part ∈ partitions (target config) -> ValidateExists part = true /\ part_size part mod kBlockSize = 0.
Proof.
  intros Hp. pose proof (rq_valid _ Hreq) as Hv. unfold Validate in Hv. rewrite !andb_true_iff in Hv. destruct Hv as [[[[_ Hv] _] _] _].
  rewrite forallb_forall in Hv. specialize (Hv part). rewrite <- list_elem_of_In in Hv. specialize (Hv Hp). unfold validate_target in Hv.
  rewrite !andb_true_iff, (rq_block_size _ Hreq), Z.eqb_eq in Hv. by destruct Hv as [[[? ?] _] _].
Qed.

Lemma valid_chunks : full_config config /\ (kSourceMinorPayloadVersion <= minor (version config) -> ab_config config).
Proof.
  pose proof (rq_valid _ Hreq) as Hv. unfold Validate in Hv. rewrite !andb_true_iff in Hv. destruct Hv as [[[_ Hhv] Hsv] _]. pose proof (rq_block_size _ Hreq) as Hb. pose proof (rq_soft _ Hreq). pose proof (rq_hard _ Hreq) as Hh.
  rewrite Hb in Hhv, Hsv. assert (Hs : soft_chunk_size config mod kBlockSize = 0) by (by apply Z.eqb_eq).
  assert (Hhard : hard_chunk_size config = -1 \/ 0 < hard_chunk_size config < 2 ^ 63 /\ hard_chunk_size config mod kBlockSize = 0).
  { destruct Hh as [?|Hh]; [by left|right]. split; [done|]. apply orb_prop in Hhv as [Hhv|Hhv]; apply Z.eqb_eq in Hhv; [lia|]. by rewrite uint_small in Hhv by (unfold is_uint; lia). }
  assert (Hge : forall n, 0 < n -> n mod kBlockSize = 0 -> kBlockSize <= n).
  { intros n Hn Hm. pose proof (Z.div_mod n kBlockSize ltac:(done)). unfold kBlockSize in *. assert (0 < n / 4096) by (apply Z.div_str_pos; pose proof (Z.mod_small n 4096); lia). lia. }
  split.
  - split; [done| |split; [lia|done]]. destruct Hhard as [->|[? ?]]; [by left|]. right. split; [lia|done].
  - intros Hm. split; [done|done| |]. { destruct Hhard as [?|[? ?]]; [by left|]. right. split; [apply Hge; [lia|done]|lia]. } split; [apply Hge; [lia|done]|lia].
Qed.

Lemma request_minor : if delta then kSourceMinorPayloadVersion <= minor (version config) else minor (version config) = kFullPayloadMinorVersion.
Proof.
  pose proof (rq_valid _ Hreq) as Hv. unfold Validate in Hv. rewrite !andb_true_iff, bool_decide_eq_true in Hv. destruct Hv as [[[[[[Hv Hd] _] _] _] _] _].
  unfold PayloadVersion_Validate in Hv. rewrite andb_true_iff, !orb_true_iff, !Z.eqb_eq in Hv. destruct (rq_minor _ Hreq) as [Hi Hm]. rewrite <- Hd. unfold IsDelta in *.
  destruct (Z.eqb_spec (minor (version config)) kFullPayloadMinorVersion) as [E|E]; simpl; [done|].
  unfold kSourceMinorPayloadVersion, kFullPayloadMinorVersion, kInPlaceMinorPayloadVersion, kOpSrcHashMinorPayloadVersion, kImgdiffMinorPayloadVersion in *. lia.
Qed.

(** A new partition: its file. *)
Lemma target_file part : part ∈ partitions (target config) ->
  file_at (path part) = Some (part_data part) /\ 0 < part_size part <= zlen (part_data part) /\ kBlockSize <= part_size part.
Proof.
  intros Hp. destruct (valid_target part Hp) as [He Hmod]. destruct (rq_sizes _ Hreq part Hp) as [Hu _]. destruct (ValidateExists_data part He Hu) as [Hfe Hd].
  unfold FileExists in Hfe. apply bool_decide_eq_true in Hfe as [f Hf]. assert (Ed : part_data part = f) by (unfold part_data; by rewrite Hf). rewrite Hf, Ed in *.
  pose proof (Z.div_mod (part_size part) kBlockSize ltac:(done)). unfold kBlockSize in *. assert (0 < part_size part / 4096) by lia. split; [done|lia].
Qed.

(** The old partitions of a delta: their files. *)
Lemma source_file part : delta = true -> part ∈ partitions (source config) -> path part <> "" -> 0 <= part_size part <= zlen (part_data part) ->
  zlen (part_data part) < 2 ^ 63 -> file_at (path part) = Some (part_data part) /\ part_size part mod kBlockSize = 0.
Proof.
  intros Hd Hp Hpath Hs Hz. pose proof (rq_valid _ Hreq) as Hv. unfold Validate in Hv. rewrite Hd, !andb_true_iff in Hv. destruct Hv as [[[[[_ [Hv _]] _] _] _] _].
  rewrite forallb_forall in Hv. specialize (Hv part). rewrite <- list_elem_of_In in Hv. specialize (Hv Hp). unfold validate_source in Hv. rewrite bool_decide_false in Hv by done.
  rewrite !andb_true_iff, (rq_block_size _ Hreq), Z.eqb_eq in Hv. destruct Hv as [[He Hm] _]. split; [|done]. destruct (ValidateExists_data part He) as [Hfe _]; [unfold is_uint; lia|].
  unfold FileExists in Hfe. apply bool_decide_eq_true in Hfe as [f Hf]. unfold part_data. by rewrite Hf.
Qed.

Lemma delta_pair i old_part new_part : delta = true -> partitions (source config) !! i = Some old_part -> partitions (target config) !! i = Some new_part ->
  path old_part <> "" /\ part_name old_part = part_name new_part /\ part_size new_part < 2 ^ 32 /\ exists old_files new_files, partitions_ok old_part new_part old_files new_files.
Proof. intros Hd Ho Hn. exact (Forall2_lookup_lr _ _ _ _ _ _ (rq_delta _ Hreq Hd) Ho Hn). Qed.

Lemma generate_partition_spec i order old_part new_part w :
  old_parts config !! i = Some old_part -> partitions (target config) !! i = Some new_part -> blob_ok w ->
  exists aops w', generate_partition config sort order old_part new_part w = Ret (aops, w') /\ blob_ok w' /\ grows w w'
    /\ Forall (generated delta (part_data old_part) (part_data new_part) (part_size old_part / kBlockSize) (part_size new_part / kBlockSize) w') aops
    /\ (forall b, 0 <= b < part_size new_part / kBlockSize -> b ∈ written_blocks aops).
Proof.
  intros Ho Hn Hw. destruct (rq_minor _ Hreq) as [Hni Hlt]. pose proof request_minor as Hmin. destruct valid_chunks as [Hfull Hab]. pose proof (list_elem_of_lookup_2 _ _ _ Hn) as Hin.
  destruct (target_file _ Hin) as (_ & Hsz & Hge). destruct (rq_sizes _ Hreq _ Hin) as [Hu Hz]. unfold generate_partition, old_parts in *. destruct delta eqn:Hd.
  - destruct (delta_pair i old_part new_part Hd Ho Hn) as (Hp & Hname & Hsmall & ofs & nfs & Hok). rewrite (bool_decide_false _ Hp). cbn [negb]. rewrite (proj2 (Z.eqb_neq _ _) Hni).
    destruct (ABGenerateOperations_spec (fun data => ltac:(by eexists)) old_part new_part ofs nfs Hok Hsmall sort Hsort config order w (Hab Hmin) Hname Hw) as (aops & w' & -> & Hw' & Hg & Hops & Hh & Hall).
    exists aops, w'. split_and!; [done..| |intros b; apply Hall]. rewrite Forall_forall in Hops, Hh |- *. intros op Hop. eapply ab_generated; [exact Hlt|by apply Z.eqb_neq|done|by apply Hops|by apply Hh].
  - apply lookup_replicate in Ho as [-> _]. rewrite bool_decide_true by done. cbn [negb].
    destruct (FullGenerateOperations_spec config order empty_part new_part w Hfull (proj1 (valid_target _ Hin)) Hu Hge Hw) as (aops & w' & -> & Hw' & Hg & Hops & Hall).
    exists aops, w'. split_and!; [done..| |intros b; apply Hall]. eapply Forall_impl; [exact Hops|]. intros op. apply full_generated; [done|].
    unfold is_uint in Hu. pose proof (Z.mul_div_le (part_size new_part) kBlockSize ltac:(done)). unfold kBlockSize in *. lia.
Qed.

Lemma add_generated_spec i old_part new_part payload w :
  old_parts config !! i = Some old_part -> partitions (target config) !! i = Some new_part -> pf_major_version payload = kBrilloMajorPayloadVersion -> blob_ok w ->
  exists part w', add_generated config sort schedule (payload, w) i = Ret (mkPayloadFile (pf_major_version payload) (pf_manifest payload) (part_vec_ payload ++ [part]), w')
    /\ blob_ok w' /\ grows w w' /\ built delta w' (old_part, new_part) part.
Proof.
  intros Ho Hn Hmaj Hw. destruct (generate_partition_spec i (schedule i) old_part new_part w Ho Hn Hw) as (aops & w' & Hgen & Hw' & Hg & Hops & Hall).
  pose proof (list_elem_of_lookup_2 _ _ _ Hn) as Hin. destruct (target_file _ Hin) as (Hnf & Hns & _). destruct (rq_sizes _ Hreq _ Hin) as [_ Hnz].
  unfold add_generated. assert (Hold : (if delta then of_option (partitions (source config) !! i) else Ret empty_part) = Ret old_part).
  { unfold old_parts in Ho. destruct delta; [by rewrite Ho|]. by apply lookup_replicate in Ho as [-> _]. }
  rewrite Hold, Hn, outcome_bind_ret. cbn [of_option]. rewrite outcome_bind_ret, Hgen, outcome_bind_ret. cbv iota beta. rewrite (no_noops _ _ _ _ _ _ Hops).
  unfold AddPartition. rewrite Hmaj. change (negb (kBrilloMajorPayloadVersion =? kChromeOSMajorPayloadVersion)) with true. cbn [orb guard_that]. rewrite outcome_bind_ret.
  assert (Hinfo : (if bool_decide (path old_part = "") then Ret (mkInfo None None) else InitializePartitionInfo old_part)
    = Ret (if delta then mkInfo (Some (part_size old_part)) (Some (sha256 (part_image old_part))) else mkInfo None None)).
  { unfold old_parts in Ho. destruct delta eqn:Hd; [|by apply lookup_replicate in Ho as [-> _]].
    destruct (delta_pair i old_part new_part Hd Ho Hn) as (Hp & _ & _ & ofs & nfs & [[Hz _] Hos _ _ _]). rewrite bool_decide_false by done.
    destruct (source_file old_part Hd (list_elem_of_lookup_2 _ _ _ Ho) Hp Hos Hz) as [Hof _]. by rewrite (InitializePartitionInfo_spec old_part _ Hof Hos Hz). }
  rewrite Hinfo, outcome_bind_ret, (InitializePartitionInfo_spec new_part _ Hnf ltac:(lia) Hnz), !outcome_bind_ret.
  do 2 eexists. split_and!; [done..|]. by split.
Qed.

Definition pairs : list (PartitionConfig * PartitionConfig) := zip (old_parts config) (partitions (target config)).

Lemma length_old_parts : length (old_parts config) = length (partitions (target config)).
Proof. unfold old_parts. destruct delta eqn:Hd; [exact (Forall2_length _ _ _ (rq_delta _ Hreq Hd))|apply length_replicate]. Qed.

Lemma generate_operations_spec : exists parts w, generate_operations config sort schedule = Ret (mkPayloadFile kBrilloMajorPayloadVersion (init_manifest config) parts, w)
  /\ blob_ok w /\ Forall2 (built delta w) pairs parts.
Proof.
  unfold generate_operations, PayloadFile_Init. assert (Hv : PayloadVersion_Validate (version config) = true).
  { pose proof (rq_valid _ Hreq) as Hv. unfold Validate in Hv. by rewrite !andb_true_iff in Hv; destruct Hv as [[[[[[Hv _] _] _] _] _] _]. }
  rewrite Hv. cbn [guard_that]. rewrite !outcome_bind_ret, (rq_major _ Hreq). set (manifest := init_manifest config). set (n := length (partitions (target config))).
  assert (Hlen : negb delta || (length (partitions (source config)) =? n)%nat = true).
  { pose proof length_old_parts as Hl. unfold old_parts in Hl. destruct delta; [|done]. by apply Nat.eqb_eq. }
  rewrite Hlen. cbn [guard_that]. rewrite outcome_bind_ret.
  destruct (foldM_inv (add_generated config sort schedule) (fun done s => exists parts w, s = (mkPayloadFile kBrilloMajorPayloadVersion manifest parts, w) /\ blob_ok w
    /\ Forall2 (built delta w) (take (length done) pairs) parts) (seq 0 n) (mkPayloadFile kBrilloMajorPayloadVersion manifest [], mkBlobFile [] 0)) as (s & Hrun & parts & w & -> & Hw & Hb).
  - exists [], (mkBlobFile [] 0). split_and!; [done| |constructor]. done.
  - intros done i todo s E (parts & w & -> & Hw & Hb). assert (i = length done) as ->.
    { apply (f_equal (lookup (length done))) in E. rewrite lookup_app_r, Nat.sub_diag in E by done. simpl in E. by apply lookup_seq in E as [-> _]. }
    assert (Hlt : (length done < n)%nat) by (apply (f_equal length) in E; rewrite length_seq, length_app in E; simpl in E; lia).
    destruct (lookup_lt_is_Some_2 (partitions (target config)) (length done) Hlt) as [new_part Hn]. destruct (lookup_lt_is_Some_2 (old_parts config) (length done)) as [old_part Ho]; [rewrite length_old_parts; done|].
    destruct (add_generated_spec (length done) old_part new_part (mkPayloadFile kBrilloMajorPayloadVersion manifest parts) w Ho Hn) as (part & w' & -> & Hw' & Hg & Hp); [done..|].
    eexists. split; [done|]. eexists _, w'. split_and!; [done..|]. rewrite length_app, Nat.add_comm. cbn [length Nat.add part_vec_].
    rewrite (take_S_r _ _ (old_part, new_part)) by (unfold pairs; by rewrite lookup_zip_with, Ho, Hn). apply Forall2_app; [|by constructor].
    eapply Forall2_impl; [done|]. intros. by eapply built_grows.
  - exists parts, w. split_and!; [done..|]. rewrite length_seq, firstn_all2 in Hb; [done|]. unfold pairs. rewrite length_zip_with, length_old_parts. lia.
Qed.
End Producer.

(** ** The devices that accept the payload *)

(** The paths of the partitions on the device are given by name. *)
Record accepts `{Files} `{Sha256} `{Prefs} `{Protobuf} `{BootControl} `{Platform} (settings : Settings) (config : PayloadGenerationConfig) (file : list Z) (metadata_size : Z)
    (plan : InstallPlan) (payload : Payload) (D : gmap string (list Z)) (source_of target_of : string -> string) : Prop := {
  dv_major : supported_major_version_ settings = kBrilloMajorPayloadVersion;
  dv_minor : is_delta config = true -> supported_minor_version_ settings = minor (version config);
  dv_timestamp : GetBuildTimestamp <= max_timestamp config;
  dv_type : pl_type payload = kUnknown \/ pl_type payload = if is_delta config then kDelta else kFull;
  dv_apply : pl_already_applied payload = false;
  dv_size : pl_size payload = 0 \/ pl_size payload = zlen file;
  dv_plan : plan_partitions plan = [] /\ target_slot plan <> kInvalidSlot;
  dv_checked : hash_checks_mandatory plan = true -> pl_metadata_size payload = metadata_size
    /\ forall s : DeltaPerformer, install_plan_ s = plan -> payload_ s = payload ->
         metadata s = mkMetadata empty_manifest false metadata_size (metadata_size - 24) 0 kBrilloMajorPayloadVersion ->
         ValidateMetadataSignature settings s (slice file 0 metadata_size) = Ret kSuccess;
  dv_target : forall part, part ∈ partitions (target config) -> let name := part_name part in
    GetPartitionDevice name (target_slot plan) = Some (target_of name) /\ open_succeeds (target_of name) = true
    /\ (exists f, D !! target_of name = Some f /\ part_size part <= zlen f < 2 ^ 63) /\ slot_path name (source_slot plan) "" = (true, source_of name);
  dv_source : is_delta config = true -> forall part, part ∈ partitions (source config) -> let name := part_name part in
    open_succeeds (source_of name) = true /\ exists f, D !! source_of name = Some f /\ zlen f < 2 ^ 63 /\ slice f 0 (part_size part) = part_image part;
  dv_targets : partitions (target config) <> [] /\ NoDup ((fun part => target_of (part_name part)) <$> partitions (target config));
  dv_apart : is_delta config = true -> forall a b, a ∈ partitions (target config) -> b ∈ partitions (target config) -> source_of (part_name a) <> target_of (part_name b);
}.

(** The manifest with more partitions. *)
Definition add_updates (m : DeltaArchiveManifest) (l : list PartitionUpdate) : DeltaArchiveManifest :=
  mkManifest (install_operations m) (kernel_install_operations m) (manifest_block_size m) (signatures_offset m) (signatures_size m) (old_kernel_info m)
    (new_kernel_info m) (old_rootfs_info m) (new_rootfs_info m) (old_image_info m) (new_image_info m) (minor_version m) (manifest_partitions m ++ l) (manifest_max_timestamp m).

Lemma add_partitions_spec parts m : fold_left (add_to_manifest kBrilloMajorPayloadVersion) parts m = add_updates m (partition_update <$> parts).
Proof.
  revert m. induction parts as [|part parts IH]; intros m; cbn [fold_left]; [destruct m; unfold add_updates; simpl; by rewrite app_nil_r|].
  rewrite IH. unfold add_to_manifest, add_updates. rewrite Z.eqb_refl. simpl. by rewrite <- app_assoc.
Qed.

(** The new images are on the targets. *)
Definition images_installed `{Files} (config : PayloadGenerationConfig) (target_of : string -> string) (D : gmap string (list Z)) : Prop :=
  forall part, part ∈ partitions (target config) -> exists f, D !! target_of (part_name part) = Some f /\ slice f 0 (part_size part) = part_image part.

(** The required fields are set. *)
Lemma manifest_initialized `{Files} `{Decoders} `{Sha256} config delta w parts pairs : Forall2 (built delta w) pairs parts ->
  IsInitialized (manifest_of (mkPayloadFile kBrilloMajorPayloadVersion (init_manifest config) parts) (blob_fd w)) = true.
Proof.
  intros Hb. unfold manifest_of. cbn [pf_major_version pf_manifest part_vec_]. rewrite add_partitions_spec. unfold IsInitialized. cbn [add_updates clear_operations install_operations kernel_install_operations manifest_partitions app].
  rewrite list_fmap_bind. change (operations ∘ partition_update) with fp_aops. rewrite lay_out_parts_aops. apply forallb_forall. intros op Hop%list_elem_of_In. apply bool_decide_eq_true.
  assert (Hops : Forall (fun x => is_Some (op_type x)) (parts ≫= fp_aops)).
  { apply Forall_forall. intros x (part & Hx & [i Hpart]%list_elem_of_lookup)%list_elem_of_bind. destruct (Forall2_lookup_r _ _ _ _ _ Hb Hpart) as (pair & _ & Hbt).
    pose proof (bt_ops _ _ _ _ Hbt) as Hall. rewrite Forall_forall in Hall. destruct (gn_type _ _ _ _ _ _ _ (Hall x Hx)) as (t & -> & _). by eexists. }
  revert Hop. generalize 0. induction Hops as [|x ops Hx _ IH]; intros o Hop; cbn [lay_out] in Hop; [by apply not_elem_of_nil in Hop|]. apply elem_of_cons in Hop as [->|Hop]; [|by eapply IH].
  by destruct (relocated_fields (blob_fd w) o x) as [-> _].
Qed.

Section Deliver.
Context `{Files} `{Decoders} `{Sha256} `{Prefs} `{ProtobufOk} `{BootControl} `{Platform}.
Context (config : PayloadGenerationConfig) (Hreq : request_ok config) (settings : Settings) (plan : InstallPlan) (payload : Payload) (D : gmap string (list Z)) (source_of target_of : string -> string).
Abbreviation delta := (is_delta config).

Definition place_of (pair : PartitionConfig * PartitionConfig) : Place :=
  let name := part_name (snd pair) in
  mkPlace (if delta then default [] (D !! source_of name) else []) (part_image (snd pair)) (source_of name) (target_of name) (zlen (default [] (D !! target_of name))).

Lemma blocks_of_slice f g n b : 0 <= n -> slice f 0 n = slice g 0 n -> 0 <= b < n / kBlockSize -> block_of f b = block_of g b.
Proof.
  intros Hn E Hb. pose proof (Z.mul_div_le n kBlockSize ltac:(done)). unfold block_of. unfold kBlockSize in *.
  pose proof (slice_slice f 0 n (b * 4096) 4096 ltac:(lia) ltac:(lia) ltac:(lia) ltac:(lia)) as Ef. pose proof (slice_slice g 0 n (b * 4096) 4096 ltac:(lia) ltac:(lia) ltac:(lia) ltac:(lia)) as Eg.
  rewrite Z.add_0_l in Ef, Eg. by rewrite <- Ef, <- Eg, E.
Qed.

Lemma zlen_part_image part : 0 <= part_size part <= zlen (part_data part) -> zlen (part_image part) = part_size part.
Proof. intros Hs. unfold part_image. rewrite zlen_slice; lia. Qed.

Lemma blocks_of_image part b : 0 <= part_size part <= zlen (part_data part) -> 0 <= b < part_size part / kBlockSize -> block_of (part_image part) b = block_of (part_data part) b.
Proof.
  intros Hs. apply blocks_of_slice; [lia|]. pose proof (zlen_part_image part Hs) as Hz. rewrite <- Hz at 1. by rewrite slice_all.
Qed.

Context (file : list Z) (size : Z) (Hacc : accepts settings config file size plan payload D source_of target_of).

Lemma pairs_lookup i old_part new_part : pairs config !! i = Some (old_part, new_part) ->
  partitions (target config) !! i = Some new_part /\ old_parts config !! i = Some old_part.
Proof. unfold pairs. rewrite lookup_zip_with. intros E. destruct (old_parts config !! i), (partitions (target config) !! i); simplify_eq/=. done. Qed.

(** What the source of a delta holds. *)
Lemma source_holds i old_part new_part : delta = true -> pairs config !! i = Some (old_part, new_part) -> 0 <= part_size old_part <= zlen (part_data old_part) /\
  exists f, D !! source_of (part_name new_part) = Some f /\ zlen f < 2 ^ 63 /\ open_succeeds (source_of (part_name new_part)) = true /\ part_size old_part <= zlen f
    /\ slice f 0 (part_size old_part) = part_image old_part.
Proof.
  intros Hd [Hn Ho]%pairs_lookup. unfold old_parts in Ho. rewrite Hd in Ho. destruct (delta_pair config Hreq i old_part new_part Hd Ho Hn) as (_ & Hname & _ & ofs & nfs & [_ Hos _ _ _]).
  split; [done|]. destruct (dv_source _ _ _ _ _ _ _ _ _ Hacc Hd old_part (list_elem_of_lookup_2 _ _ _ Ho)) as (Hopen & f & Hf & Hz & Hs). rewrite Hname in *. exists f. split_and!; try done.
  pose proof (zlen_part_image old_part Hos) as Hi. rewrite <- Hs in Hi. unfold slice, zlen in Hi |- *. rewrite length_take, length_drop in Hi. lia.
Qed.

Lemma built_ready i w pair part : pairs config !! i = Some pair -> built delta w pair part -> ready delta w part (place_of pair).
Proof.
  destruct pair as [old_part new_part]. intros Hi [Hname Hops Hall Hnew Hold]. cbn [fst snd] in *. destruct (pairs_lookup _ _ _ Hi) as [Hn Ho].
  pose proof (list_elem_of_lookup_2 _ _ _ Hn) as Hin. destruct (target_file config Hreq _ Hin) as (_ & Hsz & _). destruct (valid_target config Hreq _ Hin) as [_ Hmod].
  assert (Hzn : zlen (part_image new_part) = part_size new_part) by (apply zlen_part_image; lia). split; cbn [place_of pc_old pc_new snd].
  - exists (part_size old_part / kBlockSize), (part_size new_part / kBlockSize). pose proof (Z.div_mod (part_size new_part) kBlockSize ltac:(done)).
    assert (Hsrc : part_size old_part / kBlockSize * kBlockSize <= zlen (if delta then default [] (D !! source_of (part_name new_part)) else [])
      /\ forall b, 0 <= b < part_size old_part / kBlockSize -> block_of (if delta then default [] (D !! source_of (part_name new_part)) else []) b = block_of (part_data old_part) b).
    { destruct delta eqn:Hd.
      - destruct (source_holds i old_part new_part Hd Hi) as (Hos & f & -> & _ & _ & Hle & Hs). pose proof (Z.mul_div_le (part_size old_part) kBlockSize ltac:(done)). split; [simpl; lia|].
        intros b. apply blocks_of_slice; [lia|done].
      - unfold old_parts in Ho. rewrite Hd in Ho. apply lookup_replicate in Ho as [-> _]. split; [done|]. change (part_size empty_part / kBlockSize) with 0. lia. }
    destruct Hsrc as [Hle Hblk]. split_and!; [|done|lia|done]. eapply Forall_impl; [exact Hops|]. intros op. apply generated_images; [done|]. intros b. apply blocks_of_image. lia.
  - by rewrite Hnew, Hzn.
  - rewrite Hold. by destruct delta.
Qed.

Context (w : BlobFileWriter) (parts : list Partition) (Hw : blob_ok w) (Hfits : blob_fits w) (Hbuilt : Forall2 (built delta w) (pairs config) parts).
Abbreviation blobs := (blob_fd w).
Abbreviation p := (mkPayloadFile kBrilloMajorPayloadVersion (init_manifest config) parts).
Abbreviation data := (all_data blobs (parts ≫= fp_aops)).
Abbreviation jobs := (jobs_for blobs 0 parts (place_of <$> pairs config)).
Context (Hdata : zlen data < 2 ^ 32) (message : list Z) (Hmsg : AppendToString (manifest_of p blobs) = Some message).
Context (Hfile : file = kDeltaMagic ++ big_endian 8 kBrilloMajorPayloadVersion ++ big_endian 8 (zlen message) ++ big_endian 4 0 ++ message ++ data) (Hsize : size = 24 + zlen message).

Definition delivered : Source := mkSource (manifest_of p blobs) message [] data jobs delta plan payload D.

Lemma parts_ready : Forall2 (ready delta w) parts (place_of <$> pairs config).
Proof.
  apply Forall2_fmap_r, Forall2_same_length_lookup. split; [symmetry; by eapply Forall2_length|]. intros i part pair Hp Hi.
  eapply built_ready; [done|]. exact (Forall2_lookup_lr _ _ _ _ _ _ Hbuilt Hi Hp).
Qed.

Lemma manifest_delivered : manifest_of p blobs = add_updates (clear_operations (init_manifest config)) (partition_update <$> lay_out_parts blobs 0 parts).
Proof. unfold manifest_of. apply add_partitions_spec. Qed.

Lemma length_lay_out_parts o l : length (lay_out_parts blobs o l) = length l.
Proof. revert o. induction l as [|part l IH]; intros o; simpl; [done|]. by rewrite IH. Qed.

Lemma jobs_updates : jb_update <$> jobs = partition_update <$> lay_out_parts blobs 0 parts.
Proof.
  unfold jobs_for. rewrite fmap_zip_with_l; [done|done|]. rewrite !length_fmap, length_lay_out_parts. by rewrite (Forall2_length _ _ _ Hbuilt).
Qed.

Lemma jobs_ops : all_ops jobs = lay_out blobs 0 (parts ≫= fp_aops).
Proof.
  unfold all_ops, job_ops. rewrite <- lay_out_parts_aops. transitivity ((jb_update <$> jobs) ≫= operations); [by rewrite list_fmap_bind|].
  rewrite jobs_updates, list_fmap_bind. done.
Qed.

(** A job, its partition and its place. *)
Lemma jobs_lookup i j : jobs !! i = Some j -> exists old_part new_part part o, pairs config !! i = Some (old_part, new_part) /\ parts !! i = Some part
  /\ built delta w (old_part, new_part) part /\ j = job_for (partition_update (with_aops part (lay_out blobs o (fp_aops part)))) (place_of (old_part, new_part)).
Proof.
  intros Hj. assert (Hlay : forall l o k part', lay_out_parts blobs o l !! k = Some part' -> exists part o', l !! k = Some part /\ part' = with_aops part (lay_out blobs o' (fp_aops part))).
  { induction l as [|x l IH]; intros o k part' E; [done|]. destruct k as [|k]; simpl in E; [simplify_eq; by exists x, o|]. by destruct (IH _ _ _ E) as (part & o' & ? & ?); exists part, o'. }
  unfold jobs_for in Hj. apply lookup_zip_with_Some in Hj as (u & pc & -> & Hu & Hpc). rewrite list_lookup_fmap_Some in Hu. rewrite list_lookup_fmap_Some in Hpc. destruct Hu as (part' & -> & Hu), Hpc as ([old_part new_part] & -> & Hpc).
  destruct (Hlay _ _ _ _ Hu) as (part & o & Hp & ->). exists old_part, new_part, part, o. split_and!; try done. exact (Forall2_lookup_lr _ _ _ _ _ _ Hbuilt Hpc Hp).
Qed.

Lemma delivered_bytes : payload_bytes delivered = file /\ zlen (signed_bytes delivered) = size /\ head_bytes delivered = slice file 0 size.
Proof.
  assert (Hs : signed_bytes delivered = kDeltaMagic ++ big_endian 8 kBrilloMajorPayloadVersion ++ big_endian 8 (zlen message) ++ big_endian 4 0 ++ message).
  { unfold signed_bytes, header, delivered. cbn [sc_message sc_metadata_signature]. by rewrite zlen_nil, <- !app_assoc. }
  assert (Hz : zlen (signed_bytes delivered) = size) by (rewrite Hs, Hsize, !zlen_app; unfold zlen; rewrite !length_big_endian; simpl; lia).
  assert (Hh : head_bytes delivered = signed_bytes delivered) by (unfold head_bytes, delivered; apply app_nil_r).
  assert (Hp : payload_bytes delivered = file) by (unfold payload_bytes; rewrite Hh, Hs, Hfile; unfold delivered; cbn [sc_blobs]; by rewrite <- !app_assoc).
  split_and!; [done|done|]. rewrite Hh, <- Hp, <- Hz. unfold payload_bytes. by rewrite Hh, slice_app_l.
Qed.

Lemma job_delivered i j : jobs !! i = Some j -> job_ok delta data plan D j.
Proof.
  intros Hj. destruct (jobs_lookup i j Hj) as (old_part & new_part & part & o & Hi & Hp & Hb & Ej). pose proof (built_ready i w _ _ Hi Hb) as [(old_n & new_n & Hops & Ho & Hn & Hall) Hinfo _].
  destruct (pairs_lookup _ _ _ Hi) as [Hnew _]. pose proof (list_elem_of_lookup_2 _ _ _ Hnew) as Hin. destruct (dv_target _ _ _ _ _ _ _ _ _ Hacc _ Hin) as (Hdev & Hopen & (f & Hf & Hfz) & Hslot).
  destruct (target_file config Hreq _ Hin) as (_ & Hsz & _). assert (Hzn : zlen (part_image new_part) = part_size new_part) by (apply zlen_part_image; lia).
  pose proof (jobs_job_ops delta w Hw Hfits data parts _ [] [] parts_ready ltac:(by rewrite app_nil_r) Hdata) as Hjobs. change (zlen (@nil Z)) with 0 in Hjobs.
  rewrite Forall_forall in Hjobs. specialize (Hjobs j (list_elem_of_lookup_2 _ _ _ Hj)). pose proof (bt_name _ _ _ _ Hb) as Hname. subst j.
  split; cbn [job_for jb_update jb_old jb_new jb_source jb_target jb_size place_of pc_old pc_new pc_source pc_target pc_size partition_update partition_name with_aops fp_name snd new_partition_info fp_new_info] in *.
  - exists (fp_new_info part). split; [|done]. unfold info_set. rewrite Hinfo. by rewrite bool_decide_true by (by eexists).
  - eapply Forall_impl; [exact Hjobs|]. by intros op [? _].
  - intros b Hb0 Hle. change (b ∈ dst_blocks (lay_out blobs o (fp_aops part))). rewrite lay_out_dst. apply Hall. unfold kBlockSize in *. lia.
  - by exists new_n.
  - destruct delta eqn:Hd; [|done]. destruct (source_holds i old_part new_part Hd Hi) as (_ & g & -> & ? & _). done.
  - rewrite Hf. simpl. lia.
  - split; [done|]. exists f. by rewrite Hf.
  - rewrite Hname. split; [apply (dv_plan _ _ _ _ _ _ _ _ _ Hacc)|done].
  - intros Hd. rewrite Hd. destruct (source_holds i old_part new_part Hd Hi) as (_ & g & -> & _ & ? & _). done.
  - by rewrite Hname.
Qed.

Lemma jobs_targets : jb_target <$> jobs = (fun part => target_of (part_name part)) <$> partitions (target config).
Proof.
  assert (Hl : length jobs = length (partitions (target config))).
  { unfold jobs_for. rewrite length_zip_with, !length_fmap, length_lay_out_parts, <- (Forall2_length _ _ _ Hbuilt). unfold pairs. rewrite length_zip_with, length_old_parts by done. lia. }
  apply list_eq. intros i. rewrite !list_lookup_fmap. destruct (jobs !! i) as [j|] eqn:Hj.
  - destruct (jobs_lookup i j Hj) as (old_part & new_part & part & o & Hi & _ & _ & ->). destruct (pairs_lookup _ _ _ Hi) as [-> _]. done.
  - apply lookup_ge_None in Hj. rewrite (lookup_ge_None_2 (partitions (target config))) by lia. done.
Qed.

Lemma delivered_delta : delta = existsb (fun u => bool_decide (is_Some (old_partition_info u))) (partition_update <$> lay_out_parts blobs 0 parts).
Proof.
  destruct (dv_targets _ _ _ _ _ _ _ _ _ Hacc) as [Hne _]. pose proof jobs_targets as Ht. rewrite <- jobs_updates. assert (Hj : jobs <> []) by (intros E; rewrite E in Ht; by destruct (partitions (target config))).
  assert (Hall : forall j, j ∈ jobs -> bool_decide (is_Some (old_partition_info (jb_update j))) = delta).
  { intros j [i Hi]%list_elem_of_lookup. destruct (jobs_lookup i j Hi) as (old_part & new_part & part & o & Hpair & _ & Hb & ->). pose proof (built_ready i w _ _ Hpair Hb) as [_ _ Hold].
    change (old_partition_info _) with (info_set (fp_old_info part)). destruct (info_set (fp_old_info part)) as [info|].
    - rewrite bool_decide_true by (by eexists). symmetry. by apply Hold.
    - rewrite bool_decide_false by (intros [? [=]]). destruct delta; [|done]. by destruct (proj2 Hold eq_refl). }
  clear Ht. destruct jobs as [|j js]; [done|]. cbn [fmap list_fmap existsb]. rewrite (Hall j) by left. destruct delta eqn:Hd; [done|]. simpl.
  symmetry. apply not_true_iff_false. intros (u & (j' & -> & Hj')%list_elem_of_In%list_elem_of_fmap & Hu)%existsb_exists. rewrite (Hall j') in Hu by (by right). done.
Qed.

Lemma delivered_ok : source_ok settings delivered.
Proof.
  destruct delivered_bytes as (Hp & Hz & Hh). destruct (dv_plan _ _ _ _ _ _ _ _ _ Hacc) as [Hplan _]. destruct (dv_targets _ _ _ _ _ _ _ _ _ Hacc) as [Hne Hnd].
  pose proof manifest_delivered as Hm. pose proof jobs_updates as Hju.
  assert (Hall : Forall (job_ok delta data plan D) jobs) by (apply Forall_forall; intros j [i Hj]%list_elem_of_lookup; by eapply job_delivered).
  split; cbn [delivered sc_manifest sc_message sc_metadata_signature sc_blobs sc_jobs sc_delta sc_plan sc_payload sc_disk]; try done.
  - apply parse_append; [by eapply manifest_initialized|done].
  - split_and!; [by eapply append_size|done|done].
  - rewrite Hm. split; [done|]. intros E. pose proof jobs_targets as Ht. rewrite E in Ht. by destruct (partitions (target config)).
  - by rewrite Hm.
  - rewrite Hm. apply delivered_delta.
  - rewrite Hm. exists (minor (version config)). split_and!; [done|apply Hreq|]. pose proof (request_minor config Hreq) as Hmin. destruct delta eqn:Hd; [|done]. symmetry. by apply (dv_minor _ _ _ _ _ _ _ _ _ Hacc).
  - apply Hacc.
  - rewrite Hm. simpl. f_equal. apply Hreq.
  - rewrite Hm. simpl. apply Hacc.
  - by rewrite Hm.
  - apply Hacc.
  - apply Hacc.
  - fold delivered. rewrite Hp. apply Hacc.
  - fold delivered. rewrite Hz, Hh. intros Hc. destruct (dv_checked _ _ _ _ _ _ _ _ _ Hacc Hc) as [? Hv]. split; [done|]. intros s Hs Hs' Hs''. apply Hv; [done|done|].
    rewrite Hs''. rewrite Hsize, zlen_nil. f_equal. lia.
  - intros _ j Hj. pose proof (jobs_job_ops delta w Hw Hfits data parts _ [] [] parts_ready ltac:(by rewrite app_nil_r) Hdata) as Hjobs. rewrite Forall_forall in Hjobs.
    eapply Forall_impl; [exact (Hjobs j Hj)|]. by intros op [_ ?].
  - by rewrite jobs_targets.
  - intros Hd j j' [i Hj]%list_elem_of_lookup [i' Hj']%list_elem_of_lookup.
    destruct (jobs_lookup i j Hj) as (? & new1 & ? & ? & Hi & _ & _ & ->). destruct (jobs_lookup i' j' Hj') as (? & new2 & ? & ? & Hi' & _ & _ & ->). simpl.
    apply pairs_lookup in Hi as [Hi _], Hi' as [Hi' _]. apply (dv_apart _ _ _ _ _ _ _ _ _ Hacc Hd); by eapply list_elem_of_lookup_2.
  - rewrite jobs_ops. pose proof (lay_out_laid_out w 0 (parts ≫= fp_aops)) as Hl. rewrite Z.add_0_l in Hl. apply Hl; [|lia|done].
    intros op (part & Hop & [i Hpart]%list_elem_of_lookup)%list_elem_of_bind. destruct (Forall2_lookup_l _ _ _ _ _ parts_ready Hpart) as (pc & _ & Hr). by eapply ready_data.
Qed.

Lemma delivered_installed D' : installed delivered D' -> images_installed config target_of D'.
Proof.
  intros Hin part [i Hi]%list_elem_of_lookup. pose proof jobs_targets as Ht. apply (f_equal (lookup i)) in Ht. rewrite !list_lookup_fmap, Hi in Ht. destruct (jobs !! i) as [j|] eqn:Hj; [|done].
  destruct (Hin j (list_elem_of_lookup_2 _ _ _ Hj)) as (f & Hf & _ & Hs). destruct (jobs_lookup i j Hj) as (old_part & new_part & fp & o & Hpair & _ & _ & ->).
  destruct (pairs_lookup _ _ _ Hpair) as [Hn _]. assert (new_part = part) as -> by congruence. simpl in Hf, Hs. exists f. split; [done|].
  destruct (target_file config Hreq part (list_elem_of_lookup_2 _ _ _ Hi)) as (_ & Hsz & _). by rewrite zlen_part_image in Hs by lia.
Qed.

(** The hashes of the images are in the manifest. *)
Lemma delivered_known : Forall hash_known (sc_jobs delivered).
Proof.
  apply Forall_forall. intros j [i Hj]%list_elem_of_lookup. cbn [delivered sc_jobs] in Hj. destruct (jobs_lookup i j Hj) as (old_part & new_part & part & o & Hi & _ & [_ _ _ Hnew Hold] & ->).
  destruct (pairs_lookup _ _ _ Hi) as [Hn Ho]. cbn [fst snd] in *. split.
  - exists (fp_new_info part). split; [|by rewrite Hnew]. change (info_set (fp_new_info part) = Some (fp_new_info part)). rewrite Hnew. done.
  - change (0 <= from_option (fun i => default 0 (info_size i)) 0 (info_set (fp_old_info part)) < 2 ^ 63). rewrite Hold. destruct delta eqn:Hd; [|done].
    unfold old_parts in Ho. rewrite Hd in Ho. destruct (delta_pair config Hreq i old_part new_part Hd Ho Hn) as (_ & _ & _ & ofs & nfs & [Hz Hos _ _ _]). simpl. lia.
Qed.

Lemma delivered_targets j : j ∈ sc_jobs delivered -> exists part, part ∈ partitions (target config) /\ jb_target j = target_of (part_name part).
Proof.
  intros [i Hj]%list_elem_of_lookup. cbn [delivered sc_jobs] in Hj. destruct (jobs_lookup i j Hj) as (old_part & new_part & part & o & Hi & _ & _ & ->).
  exists new_part. split; [|done]. eapply list_elem_of_lookup_2. by apply (pairs_lookup _ _ _ Hi).
Qed.
End Deliver.

(** ** The whole way *)

(** The data of the operations fit in the 32-bit fields of the manifest, and the
    data of one operation in one read. *)
Definition sizes_fit (p : PayloadFile) (w : BlobFileWriter) : Prop :=
  blob_fits w /\ (forall op, op ∈ part_vec_ p ≫= fp_aops -> default 0 (data_length op) <= kMaxRead) /\ zlen (all_data (blob_fd w) (part_vec_ p ≫= fp_aops)) < 2 ^ 32.

Section Whole.
Context (generating : Kernel) `{!@KernelOk generating} `{!@WholeReads generating}.
Context `{ToolsOk} `{!DiffRuns} `{BlockHash} `{Files} `{Sha256Ok} `{PrefsOk} `{ProtobufOk} `{BootControl} `{Platform}.
Context (config : PayloadGenerationConfig) (Hreq : request_ok config) (sort : list AnnotatedOperation -> list AnnotatedOperation) (Hsort : forall aops, sort aops ≡ₚ aops).
Context (schedule : nat -> list nat).

(** The payload is written, unless the manifest cannot be serialized, and a
    device that accepts it is served by it. *)
Lemma GenerateUpdatePayloadFile_spec : exists p w, generate_operations config sort schedule = Ret (p, w) /\ (sizes_fit p w ->
  match GenerateUpdatePayloadFile config sort schedule with
  | Ret (file, size) => forall settings plan payload D source_of target_of, accepts settings config file size plan payload D source_of target_of ->
      exists sc, source_ok settings sc /\ payload_bytes sc = file /\ sc_plan sc = plan /\ sc_payload sc = payload /\ sc_disk sc = D
        /\ (forall D', installed sc D' -> images_installed config target_of D') /\ Forall hash_known (sc_jobs sc)
        /\ forall j, j ∈ sc_jobs sc -> exists part, part ∈ partitions (target config) /\ jb_target j = target_of (part_name part)
  | Fail => exists m, IsInitialized m = true /\ AppendToString m = None
  | Abort => False
  end).
Proof.
  destruct (generate_operations_spec config Hreq sort Hsort schedule) as (parts & w & Hgen & Hw & Hb). do 2 eexists. split; [exact Hgen|]. intros (Hf & Hread & Hz). cbn [part_vec_] in *.
  unfold GenerateUpdatePayloadFile. rewrite Hgen, outcome_bind_ret. cbn [fst snd]. set (p := mkPayloadFile _ _ _) in *.
  assert (Hplaced : forall op, op ∈ parts ≫= fp_aops -> placed (blob_fd w) op).
  { intros op (part & Hop & [i Hpart]%list_elem_of_lookup)%list_elem_of_bind. destruct (Forall2_lookup_r _ _ _ _ _ Hb Hpart) as (pair & _ & Hbt).
    pose proof (bt_ops _ _ _ _ Hbt) as Hops. rewrite Forall_forall in Hops. eapply generated_data; [by apply Hops|done|done]. }
  rewrite WritePayload_spec.
  2: { split; [|done]. cbn [part_vec_ p]. apply Forall_forall. intros op Hop. specialize (Hplaced op Hop). specialize (Hread op Hop). unfold placed, data_there in *.
       destruct (carries_data (type_of op)); [|by destruct Hplaced as [-> _]]. destruct Hplaced as (o & n & -> & En & ? & ? & ?). rewrite En in *. simpl in Hread. exists n. split_and!; (done || lia). }
  change (pf_major_version p) with kBrilloMajorPayloadVersion. rewrite Z.eqb_refl. destruct (AppendToString (manifest_of p (blob_fd w))) as [message|] eqn:Hmsg.
  - cbv zeta. intros settings plan payload D source_of target_of Hacc.
    exists (delivered config plan payload D source_of target_of w parts message). split_and!; try done.
    + by eapply delivered_ok.
    + exact (proj1 (delivered_bytes config plan payload D source_of target_of _ _ w parts message eq_refl eq_refl)).
    + intros D'. by eapply delivered_installed.
    + by eapply delivered_known.
    + intros j. by eapply delivered_targets.
  - exists (manifest_of p (blob_fd w)). split; [|done]. by eapply manifest_initialized.
Qed.
End Whole.


(** ** A delta that is generated and installed *)

Module Delivery.
#[local] Existing Instances Example.sha Example.store Example.device Example.boot Example.platform Example.sha_ok Example.store_ok Example.device_ok.

(** The build host, where files are read and written at once. *)
Definition host : Kernel := {| pread file count offset := Some (slice file offset count); pwrite file buf offset := Some (zlen buf) |}.

Definition old_image : list Z := replicate 4096 1.
Definition new_image : list Z := replicate 4096 1 ++ replicate 4096 7.
#[local] Instance files : Files := fun p => if decide (p = "old") then Some old_image else if decide (p = "new") then Some new_image else None.
#[local] Instance block_hash : BlockHash := fun _ => 7.

(** bspatch with the positions of its output; a patch is a byte followed by the new data. *)
Definition digit_of (c : Ascii.ascii) : option N := list_find (fun n => pretty_N_char n = c) [0; 1; 2; 3; 4; 5; 6; 7; 8; 9]%N ≫= fun x => Some (snd x).

Fixpoint parse_number (n : N) (s : string) : N * string :=
  match s with
  | "" => (n, "")
  | String c s' => match digit_of c with Some d => parse_number (n * 10 + d) s' | None => (n, s) end
  end.

Definition skip (s : string) : string := match s with "" => "" | String _ s => s end.

Fixpoint parse_positions (fuel : nat) (s : string) : list (Z * Z) :=
  match fuel, s with
  | S fuel, String _ _ =>
      let '(start, s) := parse_number 0 s in
      let '(length, s) := parse_number 0 (skip s) in
      (Z.of_N start, Z.of_N length) :: parse_positions fuel (skip s)
  | _, _ => []
  end.

#[local] Instance parsing_patcher : Bspatch := fun old new patch _ outs => (0, write_ranges new (parse_positions (String.length outs) outs) (tail patch)).
#[local] Instance decoders : Decoders := plain_decoders.
#[local] Instance streams : Streams := {| bzip2_stream := Example.copy_stream; xz_stream := Example.copy_stream |}.

Definition config : PayloadGenerationConfig := ab_sample_config.
Definition stable : list AnnotatedOperation -> list AnnotatedOperation := id.
Definition order : nat -> list nat := fun _ => [].

Lemma digit_pretty d : (d < 10)%N -> digit_of (pretty_N_char d) = Some d.
Proof.
  intros Hd. assert (d = 0 \/ d = 1 \/ d = 2 \/ d = 3 \/ d = 4 \/ d = 5 \/ d = 6 \/ d = 7 \/ d = 8 \/ d = 9)%N as Hc by lia. by repeat destruct Hc as [->|Hc]; [..|subst].
Qed.

Lemma parse_pretty_go x s : parse_number 0 (pretty_N_go x s) = parse_number x s.
Proof.
  revert s. induction (N.lt_wf_0 x) as [x _ IH]; intros s. destruct (decide (x = 0)%N) as [->|Hx]; [by rewrite pretty_N_go_0|].
  rewrite pretty_N_go_step by lia. rewrite IH by (apply N.div_lt; lia). cbn [parse_number]. rewrite digit_pretty by (apply N.mod_lt; lia). f_equal.
  pose proof (N.div_mod x 10 ltac:(done)). lia.
Qed.

Lemma pretty_go_app x a s : (pretty_N_go x a +:+ s)%string = pretty_N_go x (a +:+ s)%string.
Proof.
  revert a. induction (N.lt_wf_0 x) as [x _ IH]; intros a. destruct (decide (x = 0)%N) as [->|Hx]; [by rewrite !pretty_N_go_0|].
  rewrite !(pretty_N_go_step x) by lia. by rewrite IH by (apply N.div_lt; lia).
Qed.

Definition no_digit (s : string) : Prop := match s with "" => True | String c _ => digit_of c = None end.

Lemma parse_pretty z s : 0 <= z -> no_digit s -> parse_number 0 (pretty z +:+ s)%string = (Z.to_N z, s).
Proof.
  intros Hz Hs. assert (Hstop : forall n, parse_number n s = (n, s)) by (intros n; destruct s as [|c s']; [done|]; simpl in *; by rewrite Hs).
  assert (Hp : pretty z = pretty (Z.to_N z)). { unfold pretty, pretty_Z, pretty_N. by destruct z; [| |lia]. }
  rewrite Hp. unfold pretty, pretty_N. case_decide as E; [|by rewrite pretty_go_app, parse_pretty_go]. rewrite E. cbn [String.app parse_number]. change (digit_of _) with (Some 0%N). apply Hstop.
Qed.

Lemma positions_string_cons o n ranges : positions_string ((o, n) :: ranges)
  = (pretty o +:+ ":" +:+ pretty n +:+ match ranges with [] => "" | _ => "," +:+ positions_string ranges end)%string.
Proof.
  unfold positions_string. rewrite fmap_cons. destruct ranges as [|r ranges]; [simpl; by rewrite string_app_nil_r|].
  rewrite fmap_cons. cbn [String.concat]. by rewrite !string_app_assoc.
Qed.

Lemma parse_positions_string fuel ranges n : ranges_in n ranges -> (length ranges <= fuel)%nat -> parse_positions fuel (positions_string ranges) = ranges.
Proof.
  intros Hr. revert fuel. induction Hr as [|[o k] ranges (Ho & Hk & _) _ IH]; intros fuel Hf; [by destruct fuel|]. destruct fuel as [|fuel]; [simpl in Hf; lia|].
  rewrite positions_string_cons. set (rest := match ranges with [] => "" | _ => _ end). assert (Hrest : no_digit rest) by (unfold rest; by destruct ranges).
  pose proof (parse_pretty o (":" +:+ pretty k +:+ rest)%string Ho ltac:(done)) as Hp. destruct (pretty o +:+ _)%string as [|c s] eqn:E; [done|]. cbn [parse_positions]. rewrite Hp.
  change (skip (":" +:+ pretty k +:+ rest)) with (pretty k +:+ rest)%string. rewrite parse_pretty by done. rewrite !Z2N.id by done. f_equal. unfold rest. simpl in Hf. destruct ranges as [|r ranges]; [by destruct fuel|]. apply (IH fuel). lia.
Qed.

Lemma positions_fuel ranges : (length ranges <= String.length (positions_string ranges))%nat.
Proof.
  induction ranges as [|[o n] ranges IH]; [simpl; lia|]. rewrite positions_string_cons, !string_app_length. change (String.length ":") with 1%nat. destruct ranges as [|r ranges]; [cbn [length]; lia|].
  rewrite string_app_length. change (String.length ",") with 1%nat. cbn [length] in *. lia.
Qed.

#[local] Instance parsing_patcher_ok : BspatchOk.
Proof.
  intros old new patch srcs dsts out _ Hd [= <-] _. exists 0, (tail patch). split_and!; [|done|done]. unfold bsdiff_bspatch, parsing_patcher.
  by rewrite (parse_positions_string _ _ _ Hd (positions_fuel dsts)).
Qed.

Lemma host_ok : @KernelOk host.
Proof.
  split; [intros file count offset _ _; by eexists|]. intros file buf offset Hb _. exists (zlen buf). split; [done|]. destruct buf; [done|]. rewrite zlen_cons. pose proof (zlen_nonneg buf). lia.
Qed.

Lemma host_whole : @WholeReads host.
Proof. by intros file count offset. Qed.

Lemma diffs_run : @DiffRuns plain_tools.
Proof. intros old new. by eexists. Qed.

#[local] Instance ImageInfo_eq_dec : EqDecision ImageInfo.
Proof. solve_decision. Defined.
#[local] Instance PartitionInfo_eq_dec : EqDecision PartitionInfo.
Proof. solve_decision. Defined.
#[local] Instance InstallOperation_eq_dec : EqDecision InstallOperation.
Proof. solve_decision. Defined.
#[local] Instance PartitionUpdate_eq_dec : EqDecision PartitionUpdate.
Proof. solve_decision. Defined.
#[local] Instance DeltaArchiveManifest_eq_dec : EqDecision DeltaArchiveManifest.
Proof. solve_decision. Defined.

(** Only the manifest of the example can be serialized. *)
Definition generation : outcome (PayloadFile * BlobFileWriter) := @generate_operations host plain_tools block_hash files Example.sha config stable order.
Definition the_manifest : DeltaArchiveManifest := match generation with Ret (p, w) => manifest_of p (blob_fd w) | _ => empty_manifest end.
#[local] Instance one_message : Protobuf := {| AppendToString m := if decide (m = the_manifest) then Some [1; 2; 3] else None;
  ParseFromArray data := if bool_decide (data = [1; 2; 3]) then Some the_manifest else None |}.

#[local] Instance one_message_ok : ProtobufOk.
Proof.
  split; simpl; intros m data.
  - intros _. case_decide as E; [|done]. by intros [= <-]; rewrite E.
  - case_decide; [|done]. by intros [= <-].
Qed.

#[local] Instance bzip2_unused : StreamOk Example.copy_stream (@bunzip2 decoders).
Proof. by refine {| decoding _ _ _ := False |}. Defined.
#[local] Instance xz_unused : StreamOk Example.copy_stream (@unxz decoders).
Proof. by refine {| decoding _ _ _ := False |}. Defined.

Lemma image_sizes : zlen old_image = 4096 /\ zlen new_image = 8192.
Proof. by vm_compute. Qed.

Lemma config_ok : request_ok config.
Proof.
  destruct image_sizes as [Ho Hn]. split; try done.
  - by left.
  - intros part ->%list_elem_of_singleton. change (part_data (raw_partition "new" 2)) with new_image. rewrite Hn. done.
  - intros _. constructor; [|constructor]. split_and!; [done..|]. exists [mkFile "<data-partition>" [ExtentForRange 0 1]], [mkFile "<data-partition>" [ExtentForRange 0 2]].
    split; change (part_data (raw_partition "old" 1)) with old_image; change (part_data (raw_partition "new" 2)) with new_image; rewrite ?Ho, ?Hn; [done|done|done|..].
    + split_and!; [done|by apply raw_files_ok|done].
    + split_and!; [by eexists|done|by apply raw_files_ok].
Qed.

Definition fits (r : outcome (PayloadFile * BlobFileWriter)) : bool :=
  match r with
  | Ret (p, w) => (blob_file_size w <? 2 ^ 32) && forallb (fun op => default 0 (data_length op) <=? kMaxRead) (part_vec_ p ≫= fp_aops)
      && (zlen (all_data (blob_fd w) (part_vec_ p ≫= fp_aops)) <? 2 ^ 32)
  | _ => false
  end.

Lemma generation_fits : fits generation = true.
Proof. vm_compute. reflexivity. Qed.

Lemma fits_spec p w : fits (Ret (p, w)) = true -> sizes_fit p w.
Proof.
  unfold fits, sizes_fit, blob_fits. rewrite !andb_true_iff, forallb_forall, !Z.ltb_lt. intros [[? Hall] ?]. split_and!; [done| |done].
  intros op Hop. apply Z.leb_le, Hall. by apply list_elem_of_In.
Qed.

Definition succeeds {A} (r : outcome A) : bool := match r with Ret _ => true | _ => false end.

Lemma payload_written : succeeds (@GenerateUpdatePayloadFile host plain_tools block_hash files Example.sha one_message config stable order) = true.
Proof. vm_compute. reflexivity. Qed.

Definition settings : Settings := mkSettings 2 3 "/key".
Definition plan : InstallPlan := mkPlan 0 1 [] false [].
Definition payload : Payload := mkPayload 0 0 [] [] kUnknown false.
Definition disk0 : gmap string (list Z) := {["/a" := old_image; "/b" := replicate 12288 0]}.

Lemma device_accepts file size : accepts settings config file size plan payload disk0 (fun _ => "/a") (fun _ => "/b").
Proof.
  destruct image_sizes as [Ho Hn]. split; try done.
  - by left.
  - by left.
  - intros part ->%list_elem_of_singleton. split_and!; try done. exists (replicate 12288 0). split; [done|]. by vm_compute.
  - intros _ part ->%list_elem_of_singleton. split; [done|]. exists old_image. split_and!; [done|by rewrite Ho|done].
  - split; [done|apply NoDup_singleton].
Qed.

End Delivery.
